(* ===== verification/_CoqProject ===== *)
-Q . S2P
Prelude.v
CMem.v
Base64.v
Base64Spec.v
PbTypes.v
PbCommon.v
PbIter.v
PbIstream.v
PbOstream.v
PbWire.v
PbEncode.v
PbEncodeSpec.v
PbEncodeProps.v
PbDecode.v
PbDecodeSafe.v
PbDecodeMsg.v
PbRequired.v
PbDecodeProps.v
PbFieldProps.v
PbDefects.v
PbMessage.v
PbMessageEncode.v
PbMessageDecode.v
PbMessageProps.v
PbFields.v
PbFieldsProps.v
LvSlice.v
LvCoding.v
LvCrc.v
LvBloom.v
LvLogging.v
LvFormat.v
LvSkipList.v
LvSkipListInv.v
LvSkipListProps.v
LvSkipListSpec.v
LvSkipListConc.v
LvArena.v
LvMemTable.v
LvWriteBatch.v
LvEnv.v
LvLog.v
LvLogProps.v
LvLogSafe.v
LvFilename.v
LvVersionEdit.v
LvIterator.v
LvBlock.v
LvBlockProps.v
LvBlockIter.v
LvFilterBlock.v
LvTableFormat.v
LvIterWrap.v
LvTwoLevel.v
LvOptions.v
LvMerger.v
LvTableBuilder.v
LvTableBuildProps.v
LvCacheApi.v
LvCache.v
LvCacheProps.v
LvCacheSpec.v
LvCacheSharded.v
LvCacheClient.v
LvTable.v
LvTableProps.v
LvTableRoundtrip.v
LvDbIter.v
LvDbIterProps.v
LvVersion.v
LvVersionGet.v
LvTableCache.v
LvVersionSet.v
LvManifest.v
LvCompaction.v
LvCompactWork.v
LvCompactProps.v
LvBuild.v
LvWrite.v
