(* ===== verification/Prelude.v ===== *)
(** * A verification of the C and C++ code of MovieDBApp

    MovieDBApp is an iOS application in Swift. The C and C++ it runs is in its
    pods, and this development models and verifies that code:

    - nanopb ([MovieDBApp/Pods/nanopb]: [pb.h], [pb_common.c], [pb_encode.c],
      [pb_decode.c] and their headers), the protocol-buffer library with which
      GoogleDataTransport and FirebaseCoreDiagnostics encode the events they
      upload and decode the server's responses;
    - the message descriptors generated for it ([cct.nanopb.c/.h] of
      GoogleDataTransportCCTSupport, [firebasecore.nanopb.c/.h] of
      FirebaseCoreDiagnostics);
    - the base64 functions of the WebSocket client of FirebaseDatabase
      ([SocketRocket/fbase64.c]);
    - leveldb ([MovieDBApp/Pods/leveldb-library]), the key-value store in C++
      in which FirebaseDatabase keeps its data on disk.

    The configuration is the application's: [PB_FIELD_32BIT],
    [PB_NO_PACKED_STRUCTS] and [PB_ENABLE_MALLOC], error messages enabled, on a
    64-bit little-endian target.

    ** How C is modelled

    [Prelude.v] has the outcomes of a computation (a value, undefined
    behaviour, exhausted fuel), the state monad over them with its notation
    [let* x := c in k], total weakest preconditions [wp], machine integers as
    [Z] with explicit wrap-around ([u8], [u32], [u64], [sext]), bit lemmas and
    little-endian byte lists. [CMem.v] has the memory: a finite map from
    addresses to bytes, the live heap blocks, a stack pointer for locals whose
    address is taken ([with_local]), a heap limit at which [realloc] fails, and
    the value of uninitialised bytes. An access to an unmapped byte, a [free]
    or [realloc] of what is no live block, and a call through a null table
    entry are undefined behaviour ([Undef]), so a theorem that a function
    returns says that none of these happens. [frame S m m'] says that only
    bytes in [S] differ, [poke m a l] is [m] with the bytes [l] written at [a],
    [submem] and [stable] serve computations that only read.

    Every definition of the model carries the name of the C function it
    translates; a loop or a part of a long function is a definition of its own,
    called where the C has it. Structures the functions pass by address but
    never alias (streams, iterators, the variables of [pb_decode_noinit]) are
    records passed and returned; the data of messages, buffers, callbacks and
    extensions is in memory. A pointer into a descriptor array is the array
    with an index. The functions a program installs behind pointers, and where
    its descriptor arrays lie, are the class [Program] of [PbTypes.v].

    ** How the C++ of leveldb is modelled

    A [Slice], a [std::string] and a range between two pointers are the bytes
    they refer to, lists of [Z]; a function that moves a [Slice] along returns
    the rest. A function that may return null, fail an assertion or read out of
    bounds returns an [option], or [Undef] where it is in the monad. Objects are
    records, in the state of the monad where their methods call each other.
    Virtual functions are classes: [Comparator] and [FilterPolicy] are records
    of functions; [WritableFile], [SequentialFile], [RandomAccessFile],
    [Posix] (system calls) and [Iterator] are type classes over the state of
    the object, each with a second class of the laws its clients rely on
    ([OrderLaws], [ComparatorLaws], [FilterPolicyLaws], [WritableLaws],
    [SequentialLaws], [RandomAccessLaws], [IteratorLaws], [CacheLaws]); so are the
    tables a lookup reads ([TableReader]), the tables a compaction writes
    ([TableSink]), the files a flush writes ([WritableFiles]) and the opening of
    files ([Env], [OpenFiles], [RandomFiles]). The theorems on
    clients are proved against the laws; the implementations in the source are
    proved to keep them ([Bytewise_laws], [Bloom_laws], [Block_Iter_laws],
    [TwoLevel_laws], [Merging_laws], [Table_laws], [Sharded_laws]), and files in memory show that those on
    files can hold. [IteratorLaws I cmp ok kvs At] says that the object is an
    iterator over the list of entries [kvs]: [At it i] that it is at the entry
    number [i], or past the ends when [i] is the length. The inputs of a compaction
    may fail: [ScanLaws] is of an iterator that gives a part of the entries, and
    has an error at the end unless it gave all.

    The skip list keeps its nodes in a store, a list from which a pointer is an
    index, with the links as the atomic loads and stores of the code; the
    concurrent part interleaves the stores of one writer with the loads of
    readers, sequentially consistent, as a step relation.

    ** The files

    - [Base64.v]: [f_b64_ntop], [f_b64_pton]. [Base64Spec.v]: the encoding and
      the decoding of byte lists, and the proofs that the C code computes
      them; the specifications, the round trip, and a divergence from the
      comment on the size of the target.
    - [PbTypes.v]: the types and constants of [pb.h], [pb_decode.h] and
      [pb_encode.h]. [PbCommon.v]: the field iterator of [pb_common.c].
      [PbIter.v]: the order and the addresses in which it visits a structure,
      and what the search by tag finds.
    - [PbIstream.v]: streams and wire readers of [pb_decode.c], up to
      [pb_close_string_substream], and the fixed-size readers. [PbOstream.v]:
      streams and wire writers of [pb_encode.c]. [PbWire.v]: varints, zig-zag,
      tags, fixed-size values and wire values as byte lists, and the readers
      and writers against them; round trips, agreement of the two varint
      readers, skipping, substreams, bounds, two defects.
    - [PbEncode.v]: the rest of [pb_encode.c]. [PbEncodeSpec.v]: [ref_encode],
      an encoder without streams, buffers and passes: a function from the
      memory of the message to its encoding; and what it is to emit it
      ([emits]); [pb_encode] emits it. [PbEncodeProps.v]:
      refinement for buffers of any size, the sizing pass, delimited and
      terminated messages.
    - [PbDecode.v]: the rest of [pb_decode.c]. [PbDecodeSafe.v]: the readers
      on arbitrary input, and the decoders of single values
      and the substreams on arbitrary input. [PbDecodeMsg.v]: descriptors that
      fit their structure ([msg_fits], executable), and the decoder on
      arbitrary input for them, by induction on the nesting. [PbRequired.v]:
      the bitmap of required fields. [PbDecodeProps.v]: safety and termination
      of [pb_decode], [pb_decode_noinit] and [pb_decode_delimited] on any
      input, and the exactness of the check for required fields.
    - [PbFieldProps.v]: what the decoders of numbers, strings and bytes store,
      their bounds, and the round trip of numeric members through encoder and
      decoder.
    - [PbMessage.v]: the contents of a structure as values ([holds]), their
      encoding ([message_bytes]), and the descriptors of messages made of
      required and optional members ([singular_message], executable).
      [PbMessageEncode.v]: the reference encoding of what a structure holds.
      [PbMessageDecode.v]: default values, and the decoder on the encoding of
      what some structure holds, by induction on the nesting.
      [PbMessageProps.v]: the round trip of whole messages.
    - [PbDefects.v]: concrete inputs on which the library misbehaves.
    - [PbFields.v]: C types and their layout, the macros of [pb.h] that make
      descriptors, and the generated structures and descriptor arrays.
      [PbFieldsProps.v]: the macros and the iterator agree on the layout, for
      any structure and for every generated one; decoding the generated
      messages without pointers is safe, and they survive the round trip
      through buffers of the sizes the header announces.

    Of leveldb:

    - [LvSlice.v]: slices, statuses, the comparator interface and the bytewise
      comparator ([slice.h], [status.cc], [comparator.cc]); its contract.
      [LvCoding.v]: fixed and variable length integers ([coding.cc]); round
      trips. [LvCrc.v]: CRC-32C ([crc32c.cc]); equality with the bitwise
      definition, detection of bursts. [LvBloom.v]: hash, filter policies, the
      Bloom filter. [LvLogging.v]: decimal numbers and escaping
      ([logging.cc]).
    - [LvFormat.v]: internal keys and their comparator ([dbformat.cc]).
      [LvSkipList.v] (the code of [skiplist.h] and [random.h]),
      [LvSkipListInv.v], [LvSkipListProps.v], [LvSkipListSpec.v]: the skip
      list implements a sorted set of keys. [LvSkipListConc.v]: readers beside
      a writer. [LvArena.v]: [arena.cc]. [LvMemTable.v]: [memtable.cc]; the
      newest entry is found. [LvWriteBatch.v]: [write_batch.cc].
    - [LvEnv.v]: files, as interfaces and over system calls ([env.h],
      [env_posix.cc]). [LvLog.v], [LvLogProps.v], [LvLogSafe.v]: the log
      writer and reader; round trip, damaged logs, termination.
      [LvFilename.v]: [filename.cc]. [LvVersionEdit.v]: [version_edit.cc].
    - [LvIterator.v]: the iterator interface, and loops that walk an iterator.
      [LvBlock.v] (the code of [block.cc] and [block_builder.cc]),
      [LvBlockProps.v], [LvBlockIter.v]: blocks; layout, iterator laws, round
      trip. [LvFilterBlock.v]: [filter_block.cc]. [LvTableFormat.v]:
      [format.cc]. [LvOptions.v]: [options.h].
    - [LvIterWrap.v]: [iterator_wrapper.h], empty iterators and cleanup
      functions ([iterator.cc]), and the iterators [Block::NewIterator] makes,
      as one type. [LvTwoLevel.v]:
      [two_level_iterator.cc]; it iterates over the concatenation of the
      blocks. [LvMerger.v]: [merger.cc]; it iterates over the merge of its
      children.
    - [LvTableBuilder.v] (the code of [table_builder.cc]),
      [LvTableBuildProps.v]: the builder writes the file [table_file], given
      as a function of the entries of each block and the separators.
      [LvTable.v] (the code of [table.cc]), [LvTableProps.v]: a reader of such
      a file, with a block cache behind [LvCacheApi.v]; its iterator is a
      two-level iterator over the blocks, and a lookup finds the first entry
      not less than its key. [LvTableRoundtrip.v]: both together.
    - [LvCacheApi.v]: the interface [Cache] of [cache.h] and the laws
      [CacheLaws] its clients rely on. [LvCache.v] (the code of [cache.cc]): a
      shard with its entries, hash table and two circular lists in a store,
      and the shards. [LvCacheProps.v]: circular lists and chains as lists of
      addresses, the hash table. [LvCacheSpec.v]: the invariant of a shard
      ([ShardOk]) and each operation on it. [LvCacheSharded.v]: the shards
      keep [CacheLaws]; destruction. [LvCacheClient.v]: a client sees a map
      that forgets; every value is deleted once; eviction is from the oldest.
    - [LvDbIter.v] (the code of [db_iter.cc]), [LvDbIterProps.v]: the iterator
      of the database shows a snapshot: the newest visible version of each key
      that is not a deletion, in both directions.
    - [LvVersion.v]: the files of a level, the files that overlap a range, the
      level a new file goes to ([version_set.cc], first part).
      [LvVersionGet.v]: [Version::Get] over a [TableReader] finds the newest
      visible entry. [LvVersionSet.v]: versions and files with their reference
      counts, [VersionSet::Builder], scores, snapshots as edits; replaying
      edits on one builder gives the files that building version after version
      gave. [LvManifest.v]: the descriptor, over [OpenFiles] ([LogAndApply],
      [Recover]).
    - [LvTableCache.v]: [table_cache.cc], over [RandomFiles] and any [Cache],
      and the options a database is opened with. The table cache is a
      [TableReader], so a lookup in a version is right down to the bytes of the
      files; an iterator takes the cache with it; the files that the deleter
      of an entry closes stay in the model's store, unreachable.
    - [LvCompaction.v]: the choice of the inputs of a compaction, and what it
      asks of other levels. [LvCompactWork.v] (the code of
      [DoCompactionWork] in [db_impl.cc], over a [TableSink]),
      [LvCompactProps.v]: which entries a compaction keeps, that readers cannot
      tell the difference, that neither an error of its inputs nor one of its
      outputs makes it lose an entry and succeed, and a deleted key that comes back.
    - [LvBuild.v]: the iterator of a memtable, [BuildTable] ([builder.cc]) and
      [WriteLevel0Table], over [WritableFiles] and the table cache: a memtable
      written to a table is a file of level 0 in which readers find the same.
      Times and statistics are left out.
    - [LvWrite.v]: [Write], [BuildBatchGroup], [MakeRoomForWrite] as steps of
      concurrent threads; they refine a store that applies one write after
      the other, and the memtables hold exactly what it has: [flushed_] records
      those that were written out.

    ** Fuel and bounds

    Loops over a length or an array recurse on it; the others take fuel, and
    the theorems show that what the code passes is enough. [varint_loop] runs
    with 11, one more than the bytes a varint may have; [varint32_loop],
    [skip_varint_loop], [packed_static_loop] and [decode_loop] run with the
    bytes left in the stream, of which each round consumes one; [iter_search]
    and [do_fields] with the length of the descriptor array; the loops that
    look for the end of a string with the size of the memory ([mem_fuel]). The
    recursion of messages into submessages takes fuel for the nesting:
    [pb_decode_safe] needs one more than the depth of the descriptors. Lengths
    are bounded where the C types bound them: sizes below [2 ^ 64], encodings
    below [len_limit].

    In leveldb: varints take 10 rounds, decimal numbers 20, the strides of the
    CRC as many as words are left, [RandomHeight] [kMaxHeight]; a search of the
    skip list at most nodes times levels ([search_fuel]); [AddRecord] the length
    of the record and two; [ReadPhysicalRecord] three blocks and [ReadRecord]
    more than the length of the file ([log_reader_total]); decoding loops the
    length of their input; a block's scans the length of the block
    ([scan_fuel]) and its binary search the number of restart points; a two-level
    iterator more than the number of blocks ([tl_fuel]); [StartBlock] the index
    it goes to. The loops of the cache run with one more than the number of its
    entries ([chain_fuel]), the doubling of its table 33 times. The database iterator scans with one more
    round than the entries of its input; a level is searched with the
    number of its files, [GetOverlappingInputs] restarts at most twice for
    each file ([overlap_fuel]), boundary files are looked for once more than
    there are files; reading the descriptor takes the fuel of the log reader; [work_loop] needs more rounds than its input has entries. Writes to a descriptor take a number of rounds that is an
    argument ([write_fuel]), since the kernel may accept a byte at a time.

    ** What is not modelled

    [pb_encode_negative_varint] and the other alternatives of the preprocessor
    that the configuration does not compile; [PB_DATAOFFSET_CHOOSE] (deprecated)
    and the macros of anonymous unions, which nothing uses. Callbacks of the
    program are parameters: they may change the stream and the memory in any
    way, and the theorems about messages with callbacks are those of the
    encoder's reference, which is undefined on them. The Objective-C of
    Firebase and its helpers and the Swift of the application are outside this
    development.

    Of leveldb: opening, locking and listing files, the background thread and
    the logger of [env_posix.cc]; of [db_impl.cc] the recovery
    from a directory, the scheduling of background work, the list of snapshots,
    and the memtable that [DoCompactionWork] flushes on its way;
    [MakeInputIterator]; [repair.cc]; the C interface and the tools; exhausted memory ([std::bad_alloc]).

    ** What remains

    The safety theorem covers messages whose fields lie in the structure. The
    next steps are the invariant of the heap for pointer fields, so that
    [gdt_cct_LogResponse], the message the application decodes from the
    network, is covered with the defects of [PbDefects.v] excluded by
    hypothesis; the release of messages; and the round trip of messages with
    repeated members, unions and members without a flag. In leveldb a
    table file as a [TableSink], and recovery. *)

From stdpp Require Import base list gmap strings.
From Stdlib Require Import ZArith Lia.

#[global] Open Scope Z_scope.

(** * Outcomes and the state monad *)

(** What running a C function can do: return, run into undefined behaviour
    (an access outside the mapped memory, a [free] of something that is not a
    live allocation, a call through a null table entry), or exhaust the fuel
    that bounds a recursion. *)
Inductive outcome (A : Type) : Type :=
| Ret (a : A)
| Undef
| NoFuel.
Arguments Ret {A} a.
Arguments Undef {A}.
Arguments NoFuel {A}.

(** A C computation over a state [S] with result [A]. *)
Definition M (S A : Type) : Type := S -> outcome (A * S).

Section Monad.
Context {S : Type}.

Definition ret {A} (a : A) : M S A := fun s => Ret (a, s).

Definition bind {A B} (c : M S A) (k : A -> M S B) : M S B :=
  fun s =>
    match c s with
    | Ret (a, s') => k a s'
    | Undef => Undef
    | NoFuel => NoFuel
    end.

Definition undef {A} : M S A := fun _ => Undef.
Definition nofuel {A} : M S A := fun _ => NoFuel.
Definition get : M S S := fun s => Ret (s, s).
Definition put (s : S) : M S unit := fun _ => Ret (tt, s).

(** A value that must be present: absent means undefined behaviour. *)
Definition need {A} (o : option A) : M S A :=
  match o with Some a => ret a | None => undef end.
End Monad.

Declare Scope c_scope.
Delimit Scope c_scope with c.
Notation "'let*' x := c1 'in' c2" := (bind c1 (fun x => c2))
  (at level 10, x name, c1 at level 100, c2 at level 200) : c_scope.
Notation "'let*' ' p := c1 'in' c2" := (bind c1 (fun x => match x with p => c2 end))
  (at level 10, p pattern, c1 at level 100, c2 at level 200) : c_scope.
Notation "c1 ;;; c2" := (bind c1 (fun _ => c2))
  (at level 199, right associativity) : c_scope.
#[global] Open Scope c_scope.

(** * Weakest preconditions (total: returns, and the result satisfies [Q]) *)
Definition wp {S A} (c : M S A) (Q : A -> S -> Prop) (s : S) : Prop :=
  match c s with Ret (a, s') => Q a s' | _ => False end.

Section WP.
Context {S A B : Type}.

Lemma wp_ret (a : A) (Q : A -> S -> Prop) s : Q a s -> wp (ret a) Q s.
Proof. done. Qed.

Lemma bind_eq (c : M S A) (k : A -> M S B) s a s' : c s = Ret (a, s') -> bind c k s = k a s'.
Proof. unfold bind. by intros ->. Qed.

Lemma wp_bind (c : M S A) (k : A -> M S B) Q s :
  wp c (fun a s' => wp (k a) Q s') s -> wp (bind c k) Q s.
Proof. unfold wp, bind. by destruct (c s) as [[a s']| |]. Qed.

Lemma wp_bind_inv (c : M S A) (k : A -> M S B) Q s :
  wp (bind c k) Q s -> wp c (fun a s' => wp (k a) Q s') s.
Proof. unfold wp, bind. by destruct (c s) as [[a s']| |]. Qed.

Lemma wp_mono (c : M S A) (P Q : A -> S -> Prop) s :
  wp c P s -> (forall a s', P a s' -> Q a s') -> wp c Q s.
Proof. unfold wp. destruct (c s) as [[a s']| |]; eauto. Qed.

Lemma wp_need (o : option A) (Q : A -> S -> Prop) s a :
  o = Some a -> Q a s -> wp (need o) Q s.
Proof. by intros -> ?. Qed.

Lemma wp_get (Q : S -> S -> Prop) (s : S) : Q s s -> wp get Q s.
Proof. done. Qed.

Lemma wp_put (Q : unit -> S -> Prop) (s s' : S) : Q tt s' -> wp (put s') Q s.
Proof. done. Qed.

Lemma wp_elim (c : M S A) Q s :
  wp c Q s -> exists a s', c s = Ret (a, s') /\ Q a s'.
Proof. unfold wp. destruct (c s) as [[a s']| |]; naive_solver. Qed.

Lemma wp_intro (c : M S A) (Q : A -> S -> Prop) s a s' :
  c s = Ret (a, s') -> Q a s' -> wp c Q s.
Proof. unfold wp. by intros ->. Qed.
End WP.

(** [c] is left to the caller: a later step of the proof gives its spec. *)
Ltac wp_bind := apply wp_bind.
(** Use a proved triple for the head computation and keep its postcondition. *)
Ltac wp_use H := eapply wp_mono; [ eapply H | cbv beta ].

(** * Machine integers *)

(** The value of [z] in an unsigned type of [w] bits. *)
Definition wrap (w z : Z) : Z := z mod 2 ^ w.
Abbreviation u8 := (wrap 8).
Abbreviation u32 := (wrap 32).
Abbreviation u64 := (wrap 64).

(** The value of [z] in a two's-complement signed type of [w] bits. *)
Definition sext (w z : Z) : Z :=
  let u := wrap w z in if u <? 2 ^ (w - 1) then u else u - 2 ^ w.

(** [a != 0] as a C truth value. *)
Definition truthy (z : Z) : bool := negb (z =? 0).

Section Ints.
Implicit Types w z : Z.

Lemma wrap_range w z : 0 <= w -> 0 <= wrap w z < 2 ^ w.
Proof. intros. unfold wrap. apply Z.mod_pos_bound. lia. Qed.

Lemma wrap_small w z : 0 <= z < 2 ^ w -> wrap w z = z.
Proof. apply Z.mod_small. Qed.

Lemma wrap_wrap w z : 0 <= w -> wrap w (wrap w z) = wrap w z.
Proof. intros. apply wrap_small, wrap_range. done. Qed.

Lemma wrap_le w w' z : 0 <= w <= w' -> wrap w (wrap w' z) = wrap w z.
Proof.
  intros [? ?]. unfold wrap. apply Z.mod_mod_divide.
  exists (2 ^ (w' - w)). rewrite <- Z.pow_add_r by lia. f_equal. lia.
Qed.

Lemma sext_range w z : 0 < w -> - 2 ^ (w - 1) <= sext w z < 2 ^ (w - 1).
Proof.
  intros. unfold sext. pose proof (wrap_range w z ltac:(lia)).
  assert (2 ^ w = 2 * 2 ^ (w - 1)).
  { rewrite <- Z.pow_succ_r by lia. f_equal. lia. }
  destruct (Z.ltb_spec (wrap w z) (2 ^ (w - 1))); lia.
Qed.

Lemma sext_small w z : 0 < w -> - 2 ^ (w - 1) <= z < 2 ^ (w - 1) -> sext w z = z.
Proof.
  intros Hw Hz. unfold sext.
  assert (H2 : 2 ^ w = 2 * 2 ^ (w - 1)).
  { rewrite <- Z.pow_succ_r by lia. f_equal. lia. }
  destruct (Z.le_gt_cases 0 z).
  - rewrite wrap_small by lia. destruct (Z.ltb_spec z (2 ^ (w - 1))); lia.
  - assert (wrap w z = z + 2 ^ w) as ->.
    { unfold wrap. symmetry. apply Z.mod_unique with (-1); lia. }
    destruct (Z.ltb_spec (z + 2 ^ w) (2 ^ (w - 1))); lia.
Qed.

Lemma wrap_sext w z : 0 < w -> wrap w (sext w z) = wrap w z.
Proof.
  intros Hw. unfold sext. destruct (_ <? _); [by rewrite wrap_wrap by lia|].
  unfold wrap at 1. rewrite <- (Z_mod_plus_full _ 1).
  replace (wrap w z - 2 ^ w + 1 * 2 ^ w) with (wrap w z) by lia.
  apply (wrap_wrap w z). lia.
Qed.

Lemma sext_wrap w z : 0 < w -> sext w (wrap w z) = sext w z.
Proof. intros. unfold sext. by rewrite wrap_wrap by lia. Qed.
End Ints.

(** * Bit operations *)

Lemma testbit_high a k i : 0 <= a < 2 ^ k -> k <= i -> Z.testbit a i = false.
Proof.
  intros Ha Hi. assert (0 <= k) by (destruct (Z.le_gt_cases 0 k); [done|rewrite Z.pow_neg_r in Ha; lia]).
  rewrite <- (Z.mod_small a (2 ^ k)) by done. apply Z.mod_pow2_bits_high. lia.
Qed.

Lemma land_shiftl_0 a b k : 0 <= k -> 0 <= a < 2 ^ k -> Z.land a (Z.shiftl b k) = 0.
Proof.
  intros Hk Ha. apply Z.bits_inj'. intros i Hi. rewrite Z.land_spec, Z.shiftl_spec, Z.bits_0 by done.
  destruct (Z.lt_ge_cases i k).
  - rewrite (Z.testbit_neg_r _ (i - k)) by lia. apply andb_false_r.
  - by rewrite (testbit_high a k).
Qed.

Lemma lor_shiftl_add a b k : 0 <= k -> 0 <= a < 2 ^ k -> Z.lor a (Z.shiftl b k) = a + b * 2 ^ k.
Proof.
  intros Hk Ha. rewrite <- Z.shiftl_mul_pow2 by done. pose proof (land_shiftl_0 a b k Hk Ha).
  by rewrite <- Z.lxor_lor, <- Z.add_nocarry_lxor.
Qed.

(** Or-ing a shifted group into the bits above [k], in [w]-bit arithmetic. *)
Lemma lor_wrap_shiftl w a b k :
  0 <= k <= w -> 0 <= a < 2 ^ k ->
  Z.lor a (wrap w (Z.shiftl b k)) = wrap w (a + b * 2 ^ k).
Proof.
  intros Hk Ha. unfold wrap. rewrite Z.shiftl_mul_pow2 by lia.
  replace (2 ^ w) with (2 ^ (w - k) * 2 ^ k) by (rewrite <- Z.pow_add_r by lia; f_equal; lia).
  rewrite Z.mul_mod_distr_r by lia. rewrite <- Z.shiftl_mul_pow2, lor_shiftl_add by lia.
  apply Z.mod_unique with (b / 2 ^ (w - k)).
  - left. pose proof (Z.mod_pos_bound b (2 ^ (w - k)) ltac:(lia)). nia.
  - rewrite (Z.div_mod b (2 ^ (w - k))) at 1 by lia. ring.
Qed.

Lemma lor_range n a b : 0 <= n -> 0 <= a < 2 ^ n -> 0 <= b < 2 ^ n -> 0 <= Z.lor a b < 2 ^ n.
Proof.
  intros Hn Ha Hb. split; [by apply Z.lor_nonneg; lia|].
  destruct (Z.eq_dec (Z.lor a b) 0) as [->|Hne]; [lia|].
  assert (0 <= Z.lor a b) by (apply Z.lor_nonneg; lia).
  apply Z.log2_lt_pow2; [lia|]. rewrite Z.log2_lor by lia.
  destruct (Z.eq_dec a 0) as [->|]; destruct (Z.eq_dec b 0) as [->|]; [done| | |].
  - rewrite Z.max_r by (apply Z.log2_nonneg). apply Z.log2_lt_pow2; lia.
  - rewrite Z.max_l by (apply Z.log2_nonneg). apply Z.log2_lt_pow2; lia.
  - apply Z.max_lub_lt; apply Z.log2_lt_pow2; lia.
Qed.

Lemma lxor_range n a b : 0 <= n -> 0 <= a < 2 ^ n -> 0 <= b < 2 ^ n -> 0 <= Z.lxor a b < 2 ^ n.
Proof.
  intros Hn Ha Hb. assert (H0 : 0 <= Z.lxor a b) by (apply Z.lxor_nonneg; lia).
  split; [done|]. destruct (Z.eq_dec (Z.lxor a b) 0) as [->|]; [lia|].
  apply Z.log2_lt_pow2; [lia|]. pose proof (Z.log2_lxor a b ltac:(lia) ltac:(lia)).
  enough (Z.max (Z.log2 a) (Z.log2 b) < n \/ n = 0 /\ a = 0 /\ b = 0) as [|(? & -> & ->)] by (lia || done).
  destruct (Z.eq_dec n 0) as [->|]; [right; simpl in *; lia|]. left.
  apply Z.max_lub_lt.
  - destruct (Z.eq_dec a 0) as [->|]; [simpl; lia|apply Z.log2_lt_pow2; lia].
  - destruct (Z.eq_dec b 0) as [->|]; [simpl; lia|apply Z.log2_lt_pow2; lia].
Qed.

Lemma land_mask x k : 0 <= k -> Z.land x (2 ^ k - 1) = x mod 2 ^ k.
Proof. intros. rewrite <- Z.land_ones by done. by rewrite Z.ones_equiv. Qed.

Lemma land_7f x : Z.land x 0x7F = x mod 128.
Proof. exact (land_mask x 7 ltac:(lia)). Qed.

Lemma wrap_add_idemp_l w a b : wrap w (wrap w a + b) = wrap w (a + b).
Proof. apply Zplus_mod_idemp_l. Qed.

Lemma wrap_add_idemp_r w a b : wrap w (a + wrap w b) = wrap w (a + b).
Proof. apply Zplus_mod_idemp_r. Qed.

Create HintDb ints.
Create HintDb lv.
Create Rewrite HintDb ints_rw.
#[export] Hint Rewrite wrap_wrap using lia : ints_rw.
#[export] Hint Resolve wrap_range sext_range : ints.

(** * Bytes *)

Definition is_byte (b : Z) : Prop := 0 <= b < 256.

(** A boolean fact about all bytes is checked by evaluation. *)
Lemma byte_forall (P : Z -> bool) b :
  forallb P (seqZ 0 256) = true -> is_byte b -> P b = true.
Proof.
  intros HP Hb. rewrite forallb_forall in HP. apply HP.
  apply list_elem_of_In, elem_of_seqZ. unfold is_byte in Hb. lia.
Qed.

Lemma land_80 b : is_byte b -> truthy (Z.land b 0x80) = (128 <=? b).
Proof.
  intros Hb. apply eqb_prop.
  apply (byte_forall (fun b => Bool.eqb (truthy (Z.land b 0x80)) (128 <=? b)) b); [|done].
  vm_compute. done.
Qed.

(** * Little-endian byte lists *)

Fixpoint le_bytes (n : nat) (z : Z) : list Z :=
  match n with
  | O => []
  | S n' => u8 z :: le_bytes n' (Z.shiftr z 8)
  end.

Fixpoint le_val (l : list Z) : Z :=
  match l with
  | [] => 0
  | b :: l' => u8 b + 256 * le_val l'
  end.

Lemma length_le_bytes n z : length (le_bytes n z) = n.
Proof. revert z. induction n; intros; simpl; auto. Qed.

Lemma le_val_range l : 0 <= le_val l < 2 ^ (8 * Z.of_nat (length l)).
Proof.
  induction l as [|b l IH]; [done|]. cbn [le_val length].
  pose proof (wrap_range 8 b ltac:(lia)).
  replace (8 * Z.of_nat (S (length l))) with (8 + 8 * Z.of_nat (length l)) by lia.
  rewrite Z.pow_add_r by lia. lia.
Qed.

Lemma le_val_bytes n z : le_val (le_bytes n z) = wrap (8 * Z.of_nat n) z.
Proof.
  revert z. induction n as [|n IH]; intros z; [by rewrite Z.mul_0_r; unfold wrap; rewrite Z.mod_1_r|].
  cbn [le_bytes le_val]. rewrite IH, wrap_wrap by lia.
  unfold wrap. rewrite Z.shiftr_div_pow2 by lia.
  replace (8 * Z.of_nat (S n)) with (8 + 8 * Z.of_nat n) by lia.
  rewrite Z.pow_add_r by lia. rewrite Z.rem_mul_r by lia. done.
Qed.

(** * Generic list facts *)

(** The little-endian value of known bytes, and the other direction. *)
Lemma le_bytes_val l : Forall is_byte l -> le_bytes (length l) (le_val l) = l.
Proof.
  induction 1 as [|b l Hb Hl IH]; [done|]. cbn [length le_bytes le_val].
  unfold is_byte in Hb. assert (E : u8 b = b) by (apply wrap_small; lia). rewrite E.
  pose proof (le_val_range l). f_equal.
  - unfold wrap. rewrite Z.mul_comm. change (2 ^ 8) with 256.
    rewrite Z_mod_plus_full. apply Z.mod_small. lia.
  - replace (Z.shiftr (b + 256 * le_val l) 8) with (le_val l); [exact IH|].
    rewrite Z.shiftr_div_pow2 by lia. change (2 ^ 8) with 256.
    rewrite (Z.mul_comm 256), Z_div_plus_full, Z.div_small; lia.
Qed.

Lemma le_bytes_is_byte n z : Forall is_byte (le_bytes n z).
Proof.
  revert z. induction n as [|n IH]; intros z; cbn [le_bytes]; constructor; [|done].
  apply (wrap_range 8). lia.
Qed.

Lemma nth_le_bytes n z i : (i < n)%nat -> nth i (le_bytes n z) 0 = u8 (Z.shiftr z (8 * Z.of_nat i)).
Proof.
  revert z i. induction n as [|n IH]; intros z i Hi; [lia|]. destruct i as [|i]; cbn [le_bytes nth].
  - by rewrite Z.mul_0_r, Z.shiftr_0_r.
  - rewrite IH by lia. rewrite Z.shiftr_shiftr by lia. do 2 f_equal. lia.
Qed.

Lemma u8_land_ff z : u8 (Z.land z 0xFF) = u8 z.
Proof.
  change 0xFF with (2 ^ 8 - 1). rewrite land_mask by lia. apply (wrap_wrap 8). lia.
Qed.

(** * Varints, as both nanopb and leveldb write them *)

(** The base-128 varint of [v], least significant group first. *)
Fixpoint varint_enc (n : nat) (v : Z) : list Z :=
  match n with
  | O => []
  | S n' => if v <? 128 then [v] else (v mod 128 + 128) :: varint_enc n' (v / 128)
  end.

Definition varint (v : Z) : list Z := varint_enc 10 v.

(** The number a sequence of varint bytes stands for. *)
Fixpoint varint_val (l : list Z) : Z :=
  match l with
  | [] => 0
  | b :: l' => b mod 128 + 128 * varint_val l'
  end.

(** The bytes of the varint at the head of [l], when it ends within [n]. *)
Fixpoint varint_scan (n : nat) (l : list Z) : option (list Z) :=
  match n, l with
  | S n', b :: l' => if b <? 128 then Some [b] else cons b <$> varint_scan n' l'
  | _, _ => None
  end.

Lemma varint_scan_inv n l p :
  varint_scan n l = Some p -> exists l', l = p ++ l' /\ (1 <= length p <= n)%nat.
Proof.
  revert l p. induction n as [|n IH]; intros [|b l] p H; simpl in H; simplify_eq.
  destruct (b <? 128); simplify_eq.
  - exists l. simpl. split; [done|lia].
  - destruct (varint_scan n l) as [q|] eqn:E; simplify_eq/=.
    destruct (IH _ _ E) as (l' & -> & ?). exists l'. split; [done|lia].
Qed.

Lemma group_mod v : (v mod 128 + 128) mod 128 = v mod 128.
Proof. Z.div_mod_to_equations. lia. Qed.

Lemma varint_enc_step n v :
  128 <= v -> varint_enc (S n) v = (v mod 128 + 128) :: varint_enc n (v / 128).
Proof. intros. cbn [varint_enc]. destruct (Z.ltb_spec v 128); [lia|done]. Qed.

Lemma varint_enc_ne n v : (0 < n)%nat -> varint_enc n v <> [].
Proof. destruct n; [lia|]. intros _. simpl. by destruct (v <? 128). Qed.

Lemma varint_enc_bytes n v : 0 <= v -> Forall is_byte (varint_enc n v).
Proof.
  revert v. induction n as [|n IH]; intros v Hv; simpl; [done|].
  destruct (Z.ltb_spec v 128); constructor; unfold is_byte; try done; try lia.
  - pose proof (Z.mod_pos_bound v 128). lia.
  - apply IH. apply Z.div_pos; lia.
Qed.

Lemma varint_enc_length n v : (length (varint_enc n v) <= n)%nat.
Proof. revert v. induction n; intros v; simpl; [done|]. destruct (v <? 128); simpl; [lia|]. specialize (IHn (v / 128)). lia. Qed.

(** Values below 2^32 take at most five bytes. *)
Lemma varint_enc_length_le n k v :
  0 <= v < 2 ^ (7 * Z.of_nat k) -> (0 < k)%nat -> (length (varint_enc n v) <= k)%nat.
Proof.
  revert k v. induction n as [|n IH]; intros k v Hv Hk; simpl; [lia|].
  destruct (Z.ltb_spec v 128); simpl; [lia|]. destruct k as [|k]; [lia|].
  replace (7 * Z.of_nat (S k)) with (7 + 7 * Z.of_nat k) in Hv by lia.
  rewrite Z.pow_add_r in Hv by lia. change (2 ^ 7) with 128 in Hv.
  assert (v / 128 < 2 ^ (7 * Z.of_nat k)) by (apply Z.div_lt_upper_bound; lia).
  assert (1 <= v / 128) by (apply Z.div_le_lower_bound; lia).
  apply le_n_S, IH; [lia|]. destruct k; [simpl in *; lia|lia].
Qed.

Lemma varint_length5 v : 0 <= v < 2 ^ 32 -> (length (varint v) <= 5)%nat.
Proof. intros. apply varint_enc_length_le; [simpl; lia|lia]. Qed.

Lemma pow_7_succ n : 2 ^ (7 * Z.of_nat (S n)) = 128 * 2 ^ (7 * Z.of_nat n).
Proof.
  replace (7 * Z.of_nat (S n)) with (7 + 7 * Z.of_nat n) by lia. by rewrite Z.pow_add_r by lia.
Qed.

Lemma varint_enc_val n v : 0 <= v < 2 ^ (7 * Z.of_nat n) -> varint_val (varint_enc n v) = v.
Proof.
  revert v. induction n as [|n IH]; intros v Hv; [simpl in *; lia|].
  rewrite pow_7_succ in Hv. simpl. destruct (Z.ltb_spec v 128); simpl.
  - rewrite Z.mod_small; lia.
  - rewrite IH by (split; [apply Z.div_pos|apply Z.div_lt_upper_bound]; lia).
    rewrite group_mod. pose proof (Z.div_mod v 128). lia.
Qed.

Lemma varint_enc_scan n k v l :
  (0 < n <= k)%nat -> 0 <= v < 2 ^ (7 * Z.of_nat n) ->
  varint_scan k (varint_enc n v ++ l) = Some (varint_enc n v).
Proof.
  revert k v. induction n as [|n IH]; intros k v Hk Hv; [lia|].
  destruct k as [|k]; [lia|]. rewrite pow_7_succ in Hv. simpl.
  destruct (Z.ltb_spec v 128); simpl.
  - by destruct (Z.ltb_spec v 128); [|lia].
  - pose proof (Z.mod_pos_bound v 128). destruct (Z.ltb_spec (v mod 128 + 128) 128); [lia|].
    assert (v / 128 < 2 ^ (7 * Z.of_nat n)) by (apply Z.div_lt_upper_bound; lia).
    assert (1 <= v / 128) by (apply Z.div_le_lower_bound; lia).
    rewrite IH; [done| |lia]. destruct n; [simpl in *; lia|lia].
Qed.

(** Setting the top bit of a 7-bit group. *)
Lemma group_byte v : u8 (Z.lor (Z.land v 0x7F) 0x80) = v mod 128 + 128.
Proof.
  rewrite land_7f. pose proof (Z.mod_pos_bound v 128 ltac:(lia)).
  replace (Z.lor (v mod 128) 0x80) with (Z.lor (v mod 128) (Z.shiftl 1 7)) by done.
  rewrite lor_shiftl_add by lia. rewrite wrap_small; lia.
Qed.

Lemma varint_scan_app v l : 0 <= v < 2 ^ 64 -> varint_scan 10 (varint v ++ l) = Some (varint v).
Proof. intros. apply varint_enc_scan; [lia|]. simpl. lia. Qed.

Lemma varint_val_varint v : 0 <= v < 2 ^ 64 -> varint_val (varint v) = v.
Proof. intros. apply varint_enc_val. simpl. lia. Qed.

Lemma varint_length v : (1 <= length (varint v) <= 10)%nat.
Proof.
  split; [|apply varint_enc_length]. pose proof (varint_enc_ne 10 v ltac:(lia)).
  unfold varint. destruct (varint_enc 10 v); [done|simpl; lia].
Qed.

Lemma varint_bytes v : 0 <= v -> Forall is_byte (varint v).
Proof. apply varint_enc_bytes. Qed.
