(* ===== verification/CMem.v ===== *)
(** Byte-addressed C memory. *)

From stdpp Require Import base list gmap strings.
From Stdlib Require Import ZArith Lia.
From S2P Require Import Prelude.

(** The memory of the program: the mapped bytes, the live [malloc] blocks
    with their sizes, the next heap address, the stack pointer, the heap
    limit past which [realloc] fails and the value of uninitialised bytes. *)
Record mem : Type := mkMem {
  m_bytes : gmap Z Z;
  m_heap  : gmap Z Z;
  m_brk   : Z;
  m_sp    : Z;
  m_limit : Z;
  m_junk  : Z;
}.

Abbreviation C := (M mem).

Definition set_bytes (m : mem) (b : gmap Z Z) : mem :=
  mkMem b (m_heap m) (m_brk m) (m_sp m) (m_limit m) (m_junk m).

(** ** Loads and stores *)

Definition load8 (a : Z) : C Z :=
  fun m => match m_bytes m !! a with
           | Some b => Ret (u8 b, m)
           | None => Undef
           end.

Definition store8 (a v : Z) : C unit :=
  fun m => match m_bytes m !! a with
           | Some _ => Ret (tt, set_bytes m (<[a := u8 v]> (m_bytes m)))
           | None => Undef
           end.

Fixpoint load_bytes (n : nat) (a : Z) : C (list Z) :=
  match n with
  | O => ret []
  | S n' => let* b := load8 a in
            let* l := load_bytes n' (a + 1) in
            ret (b :: l)
  end.

Fixpoint store_bytes (a : Z) (l : list Z) : C unit :=
  match l with
  | [] => ret tt
  | b :: l' => store8 a b ;;; store_bytes (a + 1) l'
  end.

(** An unsigned little-endian object of [n] bytes, [*(uintN_t * )a]. *)
Definition load_le (n : nat) (a : Z) : C Z :=
  let* l := load_bytes n a in ret (le_val l).

Definition store_le (n : nat) (a v : Z) : C unit := store_bytes a (le_bytes n v).

(** Pointers are 8-byte objects, [bool] is one byte. *)
Definition load_ptr : Z -> C Z := load_le 8.
Definition store_ptr : Z -> Z -> C unit := store_le 8.
Definition load_bool (a : Z) : C bool := let* b := load8 a in ret (truthy b).
Definition store_bool (a : Z) (b : bool) : C unit := store8 a (if b then 1 else 0).

(** The byte-by-byte ascending copy loop [for (i...) dest[i] = src[i]]. *)
Fixpoint copy_loop (n : nat) (dest src : Z) : C unit :=
  match n with
  | O => ret tt
  | S n' => let* b := load8 src in
            store8 dest b ;;; copy_loop n' (dest + 1) (src + 1)
  end.

(** [memset] and [memcpy] of the C library. *)
Definition memset (a c : Z) (n : nat) : C unit := store_bytes a (repeat c n).
Definition memcpy (dest src : Z) (n : nat) : C unit :=
  let* l := load_bytes n src in store_bytes dest l.

(** No string is longer than the mapped memory: the fuel of the loops that
    look for a terminator. *)
Definition mem_fuel : C nat := fun m => Ret (S (stdpp.base.size (m_bytes m)), m).

(** ** Mapping and unmapping *)

Fixpoint map_range (b : gmap Z Z) (a : Z) (n : nat) (v : Z) : gmap Z Z :=
  match n with O => b | S n' => <[a := v]> (map_range b (a + 1) n' v) end.

Fixpoint unmap_range (b : gmap Z Z) (a : Z) (n : nat) : gmap Z Z :=
  match n with O => b | S n' => delete a (unmap_range b (a + 1) n') end.

(** A local variable of [n] bytes whose address is taken: it lives below the
    stack pointer while [body] runs. *)
Definition with_local {A} (n : nat) (body : Z -> C A) : C A :=
  fun m =>
    let a := m_sp m - Z.of_nat n in
    let m1 := mkMem (map_range (m_bytes m) a n (m_junk m)) (m_heap m) (m_brk m) a
                    (m_limit m) (m_junk m) in
    match body a m1 with
    | Ret (x, m2) =>
        Ret (x, mkMem (unmap_range (m_bytes m2) a n) (m_heap m2) (m_brk m2) (m_sp m)
                      (m_limit m2) (m_junk m2))
    | Undef => Undef
    | NoFuel => NoFuel
    end.

(** Blocks are 16-aligned and separated by at least 16 unmapped bytes. *)
Definition block_span (size : Z) : Z := (size + 31) / 16 * 16.

(** [realloc(p, size)] of the C library with a heap of bounded size: a fresh
    block, the old contents copied, the old block released; [NULL] and
    nothing changed when the heap is full. *)
Definition pb_realloc (p size : Z) : C Z :=
  fun m =>
    let old := if p =? 0 then Some 0 else m_heap m !! p in
    match old with
    | None => Undef
    | Some osize =>
        if m_limit m <? m_brk m + size then Ret (0, m)
        else
          let q := m_brk m in
          let b1 := map_range (m_bytes m) q (Z.to_nat size) (m_junk m) in
          let m1 := mkMem b1 (<[q := size]> (m_heap m)) (q + block_span size)
                          (m_sp m) (m_limit m) (m_junk m) in
          match memcpy q p (Z.to_nat (Z.min osize size)) m1 with
          | Ret (_, m2) =>
              let b2 := if p =? 0 then m_bytes m2 else unmap_range (m_bytes m2) p (Z.to_nat osize) in
              let h2 := if p =? 0 then m_heap m2 else delete p (m_heap m2) in
              Ret (q, mkMem b2 h2 (m_brk m2) (m_sp m2) (m_limit m2) (m_junk m2))
          | Undef => Undef
          | NoFuel => NoFuel
          end
    end.

(** [free(p)]: nothing for [NULL], undefined unless [p] is a live block. *)
Definition pb_free (p : Z) : C unit :=
  fun m =>
    if p =? 0 then Ret (tt, m)
    else match m_heap m !! p with
         | None => Undef
         | Some n =>
             Ret (tt, mkMem (unmap_range (m_bytes m) p (Z.to_nat n)) (delete p (m_heap m))
                            (m_brk m) (m_sp m) (m_limit m) (m_junk m))
         end.

(** * Mapped addresses and frames *)

Definition mapped (m : mem) (a : Z) : Prop := is_Some (m_bytes m !! a).

Definition mapped_range (m : mem) (a n : Z) : Prop :=
  forall i, 0 <= i < n -> mapped m (a + i).

(** The half-open address interval [[a, a + n)]. *)
Definition range (a n : Z) : Z -> Prop := fun x => a <= x < a + n.

(** Everything below the stack pointer is free for locals. *)
Definition stack_ok (m : mem) : Prop := forall a, a < m_sp m -> m_bytes m !! a = None.

(** [m'] differs from [m] only in bytes of [S], with the same mapped
    addresses, heap and stack. *)
Record frame (S : Z -> Prop) (m m' : mem) : Prop := mkFrame {
  frame_out : forall a, ~ S a -> m_bytes m' !! a = m_bytes m !! a;
  frame_dom : forall a, mapped m' a <-> mapped m a;
  frame_heap : m_heap m' = m_heap m;
  frame_brk : m_brk m' = m_brk m;
  frame_sp : m_sp m' = m_sp m;
  frame_limit : m_limit m' = m_limit m;
  frame_junk : m_junk m' = m_junk m;
}.

Section Frames.
Implicit Types (S T : Z -> Prop) (m : mem).

Lemma frame_refl S m : frame S m m.
Proof. by constructor. Qed.

Lemma frame_trans S m1 m2 m3 : frame S m1 m2 -> frame S m2 m3 -> frame S m1 m3.
Proof.
  intros [? ? ? ? ? ? ?] [? ? ? ? ? ? ?]; constructor; try congruence.
  - intros a Ha. transitivity (m_bytes m2 !! a); auto.
  - intros a. transitivity (mapped m2 a); auto.
Qed.

Lemma frame_mono S T m1 m2 : (forall a, S a -> T a) -> frame S m1 m2 -> frame T m1 m2.
Proof. intros HST [? ? ? ? ? ? ?]; constructor; auto. Qed.

Lemma frame_mapped S m1 m2 a : frame S m1 m2 -> mapped m1 a -> mapped m2 a.
Proof. intros F. apply (frame_dom _ _ _ F). Qed.

Lemma frame_mapped_range S m1 m2 a n :
  frame S m1 m2 -> mapped_range m1 a n -> mapped_range m2 a n.
Proof. intros F H i Hi. apply (frame_mapped _ _ _ _ F), H, Hi. Qed.

Lemma frame_stack_ok S m1 m2 : frame S m1 m2 -> stack_ok m1 -> stack_ok m2.
Proof.
  intros F Hs a Ha. rewrite (frame_sp _ _ _ F) in Ha.
  destruct (m_bytes m2 !! a) eqn:E; [|done].
  assert (mapped m1 a) as [x Hx] by (apply (frame_dom _ _ _ F); by eexists).
  by rewrite Hs in Hx.
Qed.

Lemma mapped_range_sub m a n a' n' :
  mapped_range m a n -> a <= a' -> a' + n' <= a + n -> mapped_range m a' n'.
Proof.
  intros H ? ? i Hi. replace (a' + i) with (a + (a' - a + i)) by lia. apply H. lia.
Qed.

Lemma mapped_range_at m a n x : mapped_range m a n -> a <= x < a + n -> mapped m x.
Proof. intros H ?. replace x with (a + (x - a)) by lia. apply H. lia. Qed.

Lemma mapped_set_bytes_insert m a v x :
  mapped m a -> mapped (set_bytes m (<[a:=v]> (m_bytes m))) x <-> mapped m x.
Proof.
  intros Ha. unfold mapped, set_bytes; simpl. destruct (decide (a = x)) as [->|Hne].
  - rewrite lookup_insert_eq. split; [intros _; exact Ha | intros _; by eexists].
  - by rewrite lookup_insert_ne.
Qed.

Lemma frame_store8 S m0 m a v :
  frame S m0 m -> S a -> mapped m a -> frame S m0 (set_bytes m (<[a:=v]> (m_bytes m))).
Proof.
  intros F Ha Hm. eapply frame_trans; [exact F|]. constructor; try done.
  - intros x Hx. simpl. apply lookup_insert_ne. by intros ->.
  - intros x. by apply mapped_set_bytes_insert.
Qed.
End Frames.

Create HintDb frame.
#[export] Hint Resolve frame_refl frame_mapped frame_mapped_range frame_stack_ok : frame.

(** * Triples of the memory operations *)

Section Triples.
Implicit Types (S : Z -> Prop) (m : mem).

Lemma wp_load8 m a (Q : Z -> mem -> Prop) :
  mapped m a -> (forall b, is_byte b -> Q b m) -> wp (load8 a) Q m.
Proof.
  intros [b Hb] HQ. unfold wp, load8. rewrite Hb. apply HQ.
  apply (wrap_range 8). lia.
Qed.

Lemma wp_load_bytes n m a (Q : list Z -> mem -> Prop) :
  mapped_range m a (Z.of_nat n) ->
  (forall l, length l = n -> Forall is_byte l -> Q l m) -> wp (load_bytes n a) Q m.
Proof.
  revert a Q. induction n as [|n IH]; intros a Q Hm HQ; simpl.
  { apply wp_ret, HQ; done. }
  apply wp_bind, wp_load8.
  { rewrite <- (Z.add_0_r a). apply Hm. lia. }
  intros b Hb. apply wp_bind, IH.
  { eapply mapped_range_sub; [exact Hm|lia..]. }
  intros l Hl Hf. apply wp_ret, HQ; simpl; auto.
Qed.

Lemma wp_load_le n m a (Q : Z -> mem -> Prop) :
  mapped_range m a (Z.of_nat n) ->
  (forall v, 0 <= v < 2 ^ (8 * Z.of_nat n) -> Q v m) -> wp (load_le n a) Q m.
Proof.
  intros Hm HQ. apply wp_bind, wp_load_bytes; [done|]. intros l Hl _.
  apply wp_ret, HQ. rewrite <- Hl. apply le_val_range.
Qed.

Lemma wp_load_bool m a (Q : bool -> mem -> Prop) :
  mapped m a -> (forall b, Q b m) -> wp (load_bool a) Q m.
Proof. intros Hm HQ. apply wp_bind, wp_load8; [done|]. intros. apply wp_ret, HQ. Qed.

Lemma wp_store8 S m0 m a v (Q : unit -> mem -> Prop) :
  frame S m0 m -> mapped m a -> S a ->
  (forall m', frame S m0 m' -> Q tt m') -> wp (store8 a v) Q m.
Proof.
  intros F Hm Ha HQ. unfold wp, store8. destruct Hm as [b Hb]. rewrite Hb.
  apply HQ, frame_store8; [done..|]. by eexists.
Qed.

Lemma wp_store_bytes S m0 l m a (Q : unit -> mem -> Prop) :
  frame S m0 m -> mapped_range m0 a (Z.of_nat (length l)) ->
  (forall x, range a (Z.of_nat (length l)) x -> S x) ->
  (forall m', frame S m0 m' -> Q tt m') -> wp (store_bytes a l) Q m.
Proof.
  revert a m. induction l as [|b l IH]; intros a m F Hm HS HQ; simpl.
  { by apply wp_ret, HQ. }
  cbn [length] in Hm, HS. unfold range in HS.
  apply wp_bind, (wp_store8 S m0); [done| | |].
  - eapply frame_mapped; [exact F|]. eapply mapped_range_at; [exact Hm|lia].
  - apply HS. lia.
  - intros m' F'. apply IH; [done| | |done].
    + eapply mapped_range_sub; [exact Hm|lia..].
    + intros x Hx. apply HS. unfold range in Hx. lia.
Qed.

Lemma wp_store_le S m0 n m a v (Q : unit -> mem -> Prop) :
  frame S m0 m -> mapped_range m0 a (Z.of_nat n) ->
  (forall x, range a (Z.of_nat n) x -> S x) ->
  (forall m', frame S m0 m' -> Q tt m') -> wp (store_le n a v) Q m.
Proof. intros. apply (wp_store_bytes S m0); rewrite ?length_le_bytes; auto. Qed.

Lemma wp_memset S m0 n m a c (Q : unit -> mem -> Prop) :
  frame S m0 m -> mapped_range m0 a (Z.of_nat n) ->
  (forall x, range a (Z.of_nat n) x -> S x) ->
  (forall m', frame S m0 m' -> Q tt m') -> wp (memset a c n) Q m.
Proof. intros. apply (wp_store_bytes S m0); rewrite ?repeat_length; auto. Qed.

Lemma wp_memcpy S m0 n m dest src (Q : unit -> mem -> Prop) :
  frame S m0 m -> mapped_range m0 dest (Z.of_nat n) -> mapped_range m0 src (Z.of_nat n) ->
  (forall x, range dest (Z.of_nat n) x -> S x) ->
  (forall m', frame S m0 m' -> Q tt m') -> wp (memcpy dest src n) Q m.
Proof.
  intros F Hd Hs HS HQ. apply wp_bind, wp_load_bytes; [eauto with frame|].
  intros l Hl _. apply (wp_store_bytes S m0); rewrite ?Hl; auto.
Qed.

Lemma wp_copy_loop S m0 n m dest src (Q : unit -> mem -> Prop) :
  frame S m0 m -> mapped_range m0 dest (Z.of_nat n) -> mapped_range m0 src (Z.of_nat n) ->
  (forall x, range dest (Z.of_nat n) x -> S x) ->
  (forall m', frame S m0 m' -> Q tt m') -> wp (copy_loop n dest src) Q m.
Proof.
  revert dest src m. induction n as [|n IH]; intros dest src m F Hd Hs HS HQ; simpl.
  { by apply wp_ret, HQ. }
  unfold range in HS. apply wp_bind, wp_load8.
  { eapply frame_mapped; [exact F|]. eapply mapped_range_at; [exact Hs|lia]. }
  intros b _. apply wp_bind, (wp_store8 S m0); [done| | |].
  - eapply frame_mapped; [exact F|]. eapply mapped_range_at; [exact Hd|lia].
  - apply HS. lia.
  - intros m' F'. apply IH; [done| | | |done].
    + eapply mapped_range_sub; [exact Hd|lia..].
    + eapply mapped_range_sub; [exact Hs|lia..].
    + intros x Hx. apply HS. unfold range in Hx. lia.
Qed.
End Triples.

Lemma lookup_map_range b a n v x :
  map_range b a n v !! x = if decide (a <= x < a + Z.of_nat n) then Some v else b !! x.
Proof.
  revert a. induction n as [|n IH]; intros a; cbn [map_range].
  - case_decide; [lia|done].
  - destruct (decide (a = x)) as [->|Hne].
    + rewrite lookup_insert_eq. by rewrite decide_True by lia.
    + rewrite lookup_insert_ne, IH by done. repeat case_decide; [done|lia..|done].
Qed.

Lemma lookup_unmap_range b a n x :
  unmap_range b a n !! x = if decide (a <= x < a + Z.of_nat n) then None else b !! x.
Proof.
  revert a. induction n as [|n IH]; intros a; cbn [unmap_range].
  - case_decide; [lia|done].
  - destruct (decide (a = x)) as [->|Hne].
    + rewrite lookup_delete_eq. by rewrite decide_True by lia.
    + rewrite lookup_delete_ne, IH by done. repeat case_decide; [done|lia..|done].
Qed.

Section Local.
(** The memory in which the body of [with_local] runs. *)
Definition push_local (n : nat) (m : mem) : mem :=
  mkMem (map_range (m_bytes m) (m_sp m - Z.of_nat n) n (m_junk m)) (m_heap m) (m_brk m)
        (m_sp m - Z.of_nat n) (m_limit m) (m_junk m).

Lemma push_local_mapped n m : mapped_range (push_local n m) (m_sp m - Z.of_nat n) (Z.of_nat n).
Proof.
  intros i Hi. unfold mapped, push_local; simpl. rewrite lookup_map_range.
  rewrite decide_True by lia. by eexists.
Qed.

Lemma push_local_mapped_old n m a : mapped m a -> mapped (push_local n m) a.
Proof.
  intros [x Hx]. unfold mapped, push_local; simpl. rewrite lookup_map_range.
  case_decide; by eexists.
Qed.

Lemma push_local_stack_ok n m : stack_ok m -> stack_ok (push_local n m).
Proof.
  intros Hs a Ha. simpl in *. rewrite lookup_map_range.
  rewrite decide_False by lia. apply Hs. lia.
Qed.

(** The body may write to its local and to [S]; afterwards the local is gone
    and everything else as the body left it. *)
Lemma wp_with_local_same {A} S m0 m n (body : Z -> C A) (Q : A -> mem -> Prop) :
  stack_ok m -> frame S m0 m ->
  (let a := m_sp m - Z.of_nat n in
   wp (body a) (fun x m2 =>
     frame (fun y => S y \/ range a (Z.of_nat n) y) (push_local n m) m2 /\
     (forall m', frame S m0 m' ->
        (forall y, mapped m y -> m_bytes m' !! y = m_bytes m2 !! y) -> Q x m')) (push_local n m)) ->
  wp (with_local n body) Q m.
Proof.
  intros Hs F Hb. set (a := m_sp m - Z.of_nat n) in *. cbv zeta in Hb.
  apply wp_elim in Hb as (x & m2 & Hrun & F2 & HQ).
  unfold wp, with_local. fold a. change (mkMem _ _ _ a _ _) with (push_local n m).
  rewrite Hrun. apply HQ.
  - eapply frame_trans; [exact F|]. destruct F2 as [Fo Fd ? ? ? ? ?]. constructor; simpl; try done.
    + intros y Hy. rewrite lookup_unmap_range. case_decide as Hin.
      * symmetry. apply Hs. unfold a in *. lia.
      * rewrite Fo by (unfold range; naive_solver). simpl. rewrite lookup_map_range.
        by rewrite decide_False by (unfold a in *; lia).
    + intros y. unfold mapped; simpl. rewrite lookup_unmap_range. case_decide as Hin.
      * rewrite (Hs y) by (unfold a in *; lia). done.
      * specialize (Fd y). unfold mapped in Fd. rewrite Fd. simpl. rewrite lookup_map_range.
        by rewrite decide_False by (unfold a in *; lia).
  - intros y [b Hb]. simpl. rewrite lookup_unmap_range. rewrite decide_False; [done|].
    intros Hin. rewrite Hs in Hb; [done|]. unfold a in *. lia.
Qed.

Lemma wp_with_local {A} S m0 m n (body : Z -> C A) (Q : A -> mem -> Prop) :
  stack_ok m -> frame S m0 m ->
  (let a := m_sp m - Z.of_nat n in
   wp (body a) (fun x m2 =>
     frame (fun y => S y \/ range a (Z.of_nat n) y) (push_local n m) m2 /\
     (forall m', frame S m0 m' -> Q x m')) (push_local n m)) ->
  wp (with_local n body) Q m.
Proof.
  intros Hs F Hb. apply (wp_with_local_same S m0); [done|done|]. eapply wp_mono; [exact Hb|].
  intros x m2 [F2 HQ]. split; [done|]. intros m' F' _. by apply HQ.
Qed.

(** What was mapped is found in the memory of the body. *)
Lemma push_local_lookup n m y : stack_ok m -> mapped m y -> m_bytes (push_local n m) !! y = m_bytes m !! y.
Proof.
  intros Hs [b Hb]. simpl. rewrite lookup_map_range. rewrite decide_False; [done|].
  intros Hin. rewrite Hs in Hb; [done|]. lia.
Qed.
End Local.

(** * Known contents *)

(** The bytes [l] are stored from address [a] on. *)
Definition bytes_at (m : mem) (a : Z) (l : list Z) : Prop :=
  forall (i : nat) b, l !! i = Some b -> m_bytes m !! (a + Z.of_nat i) = Some b.

Lemma bytes_at_cons m a b l :
  bytes_at m a (b :: l) <-> m_bytes m !! a = Some b /\ bytes_at m (a + 1) l.
Proof.
  split.
  - intros H. split.
    + rewrite <- (Z.add_0_r a). apply (H 0%nat). done.
    + intros i x Hx. replace (a + 1 + Z.of_nat i) with (a + Z.of_nat (S i)) by lia. by apply H.
  - intros [H0 H1] [|i] x Hx; simpl in Hx.
    + rewrite Z.add_0_r. congruence.
    + replace (a + Z.of_nat (S i)) with (a + 1 + Z.of_nat i) by lia. by apply H1.
Qed.

Lemma bytes_at_app m a l1 l2 :
  bytes_at m a (l1 ++ l2) <-> bytes_at m a l1 /\ bytes_at m (a + Z.of_nat (length l1)) l2.
Proof.
  revert a. induction l1 as [|b l1 IH]; intros a; simpl.
  - rewrite Z.add_0_r. split; [intros; split; [by intros ? ?|done] | by intros [_ ?]].
  - rewrite !bytes_at_cons, IH. replace (a + 1 + Z.of_nat (length l1)) with (a + Z.of_nat (S (length l1))) by lia.
    tauto.
Qed.

Lemma bytes_at_mapped m a l : bytes_at m a l -> mapped_range m a (Z.of_nat (length l)).
Proof.
  intros H i Hi. destruct (lookup_lt_is_Some_2 l (Z.to_nat i)) as [b Hb]; [lia|].
  exists b. specialize (H _ _ Hb). by rewrite Z2Nat.id in H by lia.
Qed.

Lemma load8_at m a b : m_bytes m !! a = Some b -> is_byte b -> load8 a m = Ret (b, m).
Proof. intros H Hb. unfold load8. rewrite H. by rewrite wrap_small by exact Hb. Qed.

Lemma load_bytes_at m a l :
  bytes_at m a l -> Forall is_byte l -> load_bytes (length l) a m = Ret (l, m).
Proof.
  revert a. induction l as [|b l IH]; intros a H Hf; simpl; [done|].
  apply bytes_at_cons in H as [H0 H1]. inversion Hf; subst.
  unfold bind. rewrite (load8_at _ _ _ H0) by done. by rewrite IH.
Qed.

(** The bytes after writing the list [l] at [a]. *)
Fixpoint put_bytes (b : gmap Z Z) (a : Z) (l : list Z) : gmap Z Z :=
  match l with
  | [] => b
  | x :: l' => put_bytes (<[a := u8 x]> b) (a + 1) l'
  end.

Lemma lookup_put_bytes_out b a l x :
  ~ range a (Z.of_nat (length l)) x -> put_bytes b a l !! x = b !! x.
Proof.
  revert b a. induction l as [|y l IH]; intros b a H; simpl; [done|].
  unfold range in *. cbn [length] in H. rewrite IH by lia. apply lookup_insert_ne. lia.
Qed.

Lemma lookup_put_bytes_in b a l i y :
  l !! i = Some y -> put_bytes b a l !! (a + Z.of_nat i) = Some (u8 y).
Proof.
  revert b a i. induction l as [|z l IH]; intros b a [|i] H; simplify_eq/=.
  - rewrite Z.add_0_r, lookup_put_bytes_out by (unfold range; lia). apply lookup_insert_eq.
  - replace (a + Z.of_nat (S i)) with (a + 1 + Z.of_nat i) by lia. by apply IH.
Qed.

Lemma store_bytes_run m a l :
  mapped_range m a (Z.of_nat (length l)) ->
  store_bytes a l m = Ret (tt, set_bytes m (put_bytes (m_bytes m) a l)).
Proof.
  revert m a. induction l as [|b l IH]; intros m a H; simpl; [by destruct m|].
  cbn [length] in H. destruct (H 0) as [x Hx]; [lia|]. rewrite Z.add_0_r in Hx.
  unfold bind, store8. rewrite Hx. rewrite IH; [done|].
  intros i Hi. apply mapped_set_bytes_insert; [by eexists|].
  replace (a + 1 + i) with (a + (1 + i)) by lia. apply H. lia.
Qed.

Lemma put_bytes_at m a l :
  Forall is_byte l -> bytes_at (set_bytes m (put_bytes (m_bytes m) a l)) a l.
Proof.
  intros Hf i b Hb. simpl. rewrite (lookup_put_bytes_in _ _ _ _ _ Hb).
  rewrite wrap_small; [done|]. eapply Forall_lookup_1 in Hf; done.
Qed.

Lemma frame_put_bytes m a l :
  mapped_range m a (Z.of_nat (length l)) ->
  frame (range a (Z.of_nat (length l))) m (set_bytes m (put_bytes (m_bytes m) a l)).
Proof.
  intros H. assert (Hr : store_bytes a l m = Ret (tt, set_bytes m (put_bytes (m_bytes m) a l)))
    by by apply store_bytes_run.
  assert (W : wp (store_bytes a l) (fun _ m' => frame (range a (Z.of_nat (length l))) m m') m).
  { eapply wp_store_bytes; [apply frame_refl|done|done|done]. }
  unfold wp in W. by rewrite Hr in W.
Qed.

(** ** The memory after writing [l] at [a] *)

Definition poke (m : mem) (a : Z) (l : list Z) : mem := set_bytes m (put_bytes (m_bytes m) a l).

Lemma poke_nil m a : poke m a [] = m.
Proof. by destruct m. Qed.

Lemma poke_cons m a b l : poke m a (b :: l) = poke (poke m a [b]) (a + 1) l.
Proof. done. Qed.

Lemma poke_lookup_out m a l x :
  ~ range a (Z.of_nat (length l)) x -> m_bytes (poke m a l) !! x = m_bytes m !! x.
Proof. apply lookup_put_bytes_out. Qed.

Lemma bytes_at_poke_out m a l a' l' :
  (forall x, range a (Z.of_nat (length l)) x -> range a' (Z.of_nat (length l')) x -> False) ->
  bytes_at m a' l' -> bytes_at (poke m a l) a' l'.
Proof.
  intros Hd Hb i b Hi. pose proof (lookup_lt_Some _ _ _ Hi).
  rewrite poke_lookup_out; [by apply Hb|]. intros Hr. eapply Hd; [exact Hr|]. unfold range. lia.
Qed.

(** A forward copy of known bytes to a place apart from them. *)
Lemma copy_loop_run m dest src l :
  bytes_at m src l -> Forall is_byte l -> mapped_range m dest (Z.of_nat (length l)) ->
  (forall x, range dest (Z.of_nat (length l)) x -> range src (Z.of_nat (length l)) x -> False) ->
  copy_loop (length l) dest src m = Ret (tt, poke m dest l).
Proof.
  revert m dest src. induction l as [|b l IH]; intros m dest src Hs Hl Hm Hd; [by rewrite poke_nil|].
  apply bytes_at_cons in Hs as [Hb Hs]. apply Forall_cons in Hl as [Hbyte Hl].
  cbn [copy_loop length] in *. unfold bind. rewrite (load8_at _ _ _ Hb Hbyte).
  destruct (mapped_range_at _ _ _ dest Hm ltac:(lia)) as [x Hx]. unfold store8 at 1. rewrite Hx.
  rewrite (poke_cons m dest b l).
  change (set_bytes m (<[dest:=u8 b]> (m_bytes m))) with (poke m dest [b]). apply IH; [|done| |].
  - apply bytes_at_poke_out; [|done]. intros y. unfold range in *. cbn [length]. intros H1 H2.
    apply (Hd y); lia.
  - eapply frame_mapped_range with (m1 := m).
    + apply frame_put_bytes. cbn [length]. eapply mapped_range_sub; [exact Hm|lia..].
    + eapply mapped_range_sub; [exact Hm|lia..].
  - intros y. unfold range in *. intros H1 H2. apply (Hd y); lia.
Qed.

Lemma poke_app m a l1 l2 : poke m a (l1 ++ l2) = poke (poke m a l1) (a + Z.of_nat (length l1)) l2.
Proof.
  revert m a. induction l1 as [|b l1 IH]; intros m a.
  - by rewrite poke_nil, Z.add_0_r.
  - cbn [app]. rewrite (poke_cons m a b (l1 ++ l2)), IH, (poke_cons m a b l1). f_equal. cbn [length]. lia.
Qed.

(** Overwriting one byte. *)
Lemma poke_poke_1 m a x y : poke (poke m a [x]) a [y] = poke m a [y].
Proof. unfold poke, set_bytes. simpl. by rewrite insert_insert_eq. Qed.

Lemma frame_poke m a l :
  mapped_range m a (Z.of_nat (length l)) -> frame (range a (Z.of_nat (length l))) m (poke m a l).
Proof. apply frame_put_bytes. Qed.

Lemma poke_bytes_at m a l : Forall is_byte l -> bytes_at (poke m a l) a l.
Proof. apply put_bytes_at. Qed.

Lemma store_bytes_poke m a l :
  mapped_range m a (Z.of_nat (length l)) -> store_bytes a l m = Ret (tt, poke m a l).
Proof. apply store_bytes_run. Qed.

Lemma store8_poke m a v : mapped m a -> store8 a v m = Ret (tt, poke m a [v]).
Proof. intros [b Hb]. unfold store8. by rewrite Hb. Qed.

Lemma mapped_poke m a l x :
  mapped_range m a (Z.of_nat (length l)) -> mapped m x -> mapped (poke m a l) x.
Proof. intros Hm. apply (frame_mapped _ _ _ _ (frame_poke m a l Hm)). Qed.

Lemma mapped_range_poke m a l a' n :
  mapped_range m a (Z.of_nat (length l)) -> mapped_range m a' n -> mapped_range (poke m a l) a' n.
Proof. intros Hm. apply (frame_mapped_range _ _ _ _ _ (frame_poke m a l Hm)). Qed.

(** * Computations that only read *)

(** Every byte of [m1] is in [m2] too. *)
Definition submem (m1 m2 : mem) : Prop := m_bytes m1 ⊆ m_bytes m2.

Lemma submem_refl m : submem m m.
Proof. by unfold submem. Qed.

Lemma submem_lookup m1 m2 a b : submem m1 m2 -> m_bytes m1 !! a = Some b -> m_bytes m2 !! a = Some b.
Proof. intros Hs Ha. by eapply lookup_weaken. Qed.

(** A write to addresses that [m1] lacks. *)
Lemma submem_poke m1 m2 a l :
  submem m1 m2 -> (forall x, range a (Z.of_nat (length l)) x -> m_bytes m1 !! x = None) ->
  submem m1 (poke m2 a l).
Proof.
  intros Hs Hfree. apply map_subseteq_spec. intros x b Hx. rewrite poke_lookup_out.
  - by eapply submem_lookup.
  - intros Hr. apply Hfree in Hr. congruence.
Qed.

Lemma submem_mapped m1 m2 a n : submem m1 m2 -> mapped_range m1 a n -> mapped_range m2 a n.
Proof. intros Hs Hm i Hi. destruct (Hm i Hi) as [b Hb]. exists b. by eapply submem_lookup. Qed.

(** [c] changes nothing, and a larger memory does not change its result. *)
Definition stable {A} (c : C A) : Prop :=
  forall m1 m2 v m', c m1 = Ret (v, m') -> submem m1 m2 -> m' = m1 /\ c m2 = Ret (v, m2).

Lemma stable_ret {A} (v : A) : stable (ret v).
Proof. intros m1 m2 v' m' E _. by injection E as <- <-. Qed.

Lemma stable_undef {A} : stable (undef : C A).
Proof. intros m1 m2 v' m' E _. done. Qed.

Lemma stable_nofuel {A} : stable (nofuel : C A).
Proof. intros m1 m2 v' m' E _. done. Qed.

Lemma stable_need {A} (o : option A) : stable (need o).
Proof. destruct o; [apply stable_ret|apply stable_undef]. Qed.

Lemma stable_bind {A B} (c : C A) (k : A -> C B) :
  stable c -> (forall v, stable (k v)) -> stable (bind c k).
Proof.
  intros Hc Hk m1 m2 v m' E Hs. unfold bind in *. destruct (c m1) as [[x mx]| |] eqn:Ec; try done.
  destruct (Hc _ _ _ _ Ec Hs) as [-> ->]. by apply (Hk x m1 m2 v m').
Qed.

Lemma stable_load8 a : stable (load8 a).
Proof.
  intros m1 m2 v m' E Hs. unfold load8 in *. destruct (m_bytes m1 !! a) eqn:Ea; [|done].
  injection E as <- <-. by rewrite (submem_lookup _ _ _ _ Hs Ea).
Qed.

Lemma stable_load_bytes n a : stable (load_bytes n a).
Proof.
  revert a. induction n as [|n IH]; intros a; [apply stable_ret|]. cbn [load_bytes].
  apply stable_bind; [apply stable_load8|]. intros b. apply stable_bind; [apply IH|].
  intros l. apply stable_ret.
Qed.

Lemma stable_load_le n a : stable (load_le n a).
Proof. apply stable_bind; [apply stable_load_bytes|]. intros. apply stable_ret. Qed.

Lemma stable_load_ptr a : stable (load_ptr a).
Proof. apply stable_load_le. Qed.

Lemma stable_load_bool a : stable (load_bool a).
Proof. apply stable_bind; [apply stable_load8|]. intros. apply stable_ret. Qed.

Create HintDb stable.
#[export] Hint Resolve stable_ret stable_undef stable_nofuel stable_need stable_load8 stable_load_bytes
  stable_load_le stable_load_ptr stable_load_bool : stable.

(** Stability of a computation built from reads, branch by branch. *)
Ltac stable :=
  repeat first
    [ solve [eauto with stable]
    | apply stable_bind; [|intros ?]
    | progress case_match ].

(** The result of a reading computation. *)
Definition run {A} (c : C A) (m : mem) : option A :=
  match c m with Ret (v, _) => Some v | _ => None end.

Lemma run_stable {A} (c : C A) m1 m2 v :
  stable c -> run c m1 = Some v -> submem m1 m2 -> c m2 = Ret (v, m2).
Proof.
  unfold run. intros Hc E Hs. destruct (c m1) as [[x mx]| |] eqn:Ec; simplify_eq.
  by apply (Hc m1 m2 v mx).
Qed.

Lemma load_bytes_length n a m l m' : load_bytes n a m = Ret (l, m') -> length l = n /\ Forall is_byte l /\ m' = m.
Proof.
  revert a l m'. induction n as [|n IH]; intros a l m' E; cbn [load_bytes] in E.
  - injection E as <- <-. done.
  - unfold bind in E. unfold load8 in E. destruct (m_bytes m !! a) as [b|]; [|done].
    destruct (load_bytes n (a + 1) m) as [[l' m'']| |] eqn:El; try done. injection E as <- <-.
    destruct (IH _ _ _ El) as (<- & Hl & ->). split; [done|]. split; [|done].
    constructor; [|done]. apply (wrap_range 8). lia.
Qed.

Lemma load_bytes_mapped n a m l m' : load_bytes n a m = Ret (l, m') -> mapped_range m a (Z.of_nat n).
Proof.
  revert a l m'. induction n as [|n IH]; intros a l m' E i Hi; [lia|]. cbn [load_bytes] in E.
  unfold bind, load8 in E. destruct (m_bytes m !! a) as [b|] eqn:Ea; [|done].
  destruct (load_bytes n (a + 1) m) as [[l' m'']| |] eqn:El; try done.
  destruct (decide (i = 0)) as [->|]; [rewrite Z.add_0_r; by eexists|].
  replace (a + i) with (a + 1 + (i - 1)) by lia. apply (IH _ _ _ El). lia.
Qed.

(** A forward copy of readable bytes to a place apart from them. *)
Lemma copy_loop_load n m dest src l :
  load_bytes n src m = Ret (l, m) -> mapped_range m dest (Z.of_nat n) ->
  (forall x, range dest (Z.of_nat n) x -> range src (Z.of_nat n) x -> False) ->
  copy_loop n dest src m = Ret (tt, poke m dest l).
Proof.
  revert m dest src l. induction n as [|n IH]; intros m dest src l E Hm Hd; cbn [load_bytes copy_loop] in *.
  { injection E as <-. by rewrite poke_nil. }
  unfold bind at 1 in E. unfold load8 in E at 1. unfold bind at 1, load8 at 1.
  destruct (m_bytes m !! src) as [b|] eqn:Eb; [|done]. unfold bind at 1 in E.
  destruct (load_bytes n (src + 1) m) as [[l' m'']| |] eqn:El; try done. injection E as <- Em. subst m''.
  unfold bind. rewrite store8_poke by (eapply mapped_range_at; [exact Hm|lia]).
  rewrite (poke_cons m dest (u8 b) l'). apply IH.
  - assert (Hext : forall k a, (forall x, range a (Z.of_nat k) x -> x <> dest) ->
              forall l1, load_bytes k a m = Ret (l1, m) -> load_bytes k a (poke m dest [u8 b]) = Ret (l1, poke m dest [u8 b])).
    { clear. intros k. induction k as [|k IH]; intros a Ha l1 E; cbn [load_bytes] in *; [by injection E as <-|].
      unfold bind, load8 in *. rewrite poke_lookup_out.
      2:{ unfold range. cbn [length]. intros Hr. apply (Ha a); unfold range; lia. }
      destruct (m_bytes m !! a); [|done]. destruct (load_bytes k (a + 1) m) as [[l2 m2]| |] eqn:E2; try done.
      destruct (load_bytes_length _ _ _ _ _ E2) as (_ & _ & ->). injection E as <-.
      rewrite (IH (a + 1)) with (l1 := l2); [done| |done]. intros x Hx. apply Ha. unfold range in *. lia. }
    apply Hext; [|done]. intros x Hx ->. apply (Hd dest); unfold range in *; lia.
  - apply mapped_range_poke; [|eapply mapped_range_sub; [exact Hm|lia..]].
    cbn [length]. eapply mapped_range_sub; [exact Hm|lia..].
  - intros x Hx Hy. apply (Hd x); unfold range in *; lia.
Qed.

(** A memory that holds the bytes [l] from [a] on and nothing else: concrete
    inputs are built with it. *)
Definition mem_of (a : Z) (l : list Z) : mem :=
  mkMem (put_bytes ∅ a l) ∅ (2 ^ 32) (2 ^ 31) (2 ^ 40) 0xA5.

(** ... and also the bytes [l'] from [a'] on. *)
Definition mem_add (m : mem) (a : Z) (l : list Z) : mem := set_bytes m (put_bytes (m_bytes m) a l).

Lemma mem_of_mapped a l : mapped_range (mem_of a l) a (Z.of_nat (length l)).
Proof.
  intros i Hi. destruct (lookup_lt_is_Some_2 l (Z.to_nat i)) as [b Hb]; [lia|].
  exists (u8 b). unfold mem_of; simpl. rewrite <- (Z2Nat.id i) by lia.
  by apply lookup_put_bytes_in.
Qed.

Lemma mem_of_bytes a l : Forall is_byte l -> bytes_at (mem_of a l) a l.
Proof. intros Hl. exact (put_bytes_at (mkMem ∅ ∅ (2 ^ 32) (2 ^ 31) (2 ^ 40) 0xA5) a l Hl). Qed.

(** Nothing else is mapped in [mem_of]. *)
Lemma mem_of_free a l x : ~ range a (Z.of_nat (length l)) x -> m_bytes (mem_of a l) !! x = None.
Proof. intros Hx. unfold mem_of; simpl. by rewrite lookup_put_bytes_out. Qed.

Lemma submem_mem_add a l a' l' :
  (forall x, range a (Z.of_nat (length l)) x -> range a' (Z.of_nat (length l')) x -> False) ->
  submem (mem_of a l) (mem_add (mem_of a l) a' l').
Proof.
  intros Hd. apply submem_poke; [apply submem_refl|]. intros x Hx. apply mem_of_free.
  intros Hy. by eapply Hd.
Qed.

(** A mapped range is no larger than the memory. *)
Lemma mapped_range_size m a n : mapped_range m a (Z.of_nat n) -> (n <= size (m_bytes m))%nat.
Proof.
  intros Hm. rewrite <- (size_dom (D := gset Z)).
  assert (Hsub : list_to_set (seqZ a (Z.of_nat n)) ⊆ dom (m_bytes m)).
  { intros x Hx. apply elem_of_list_to_set, elem_of_seqZ in Hx. apply elem_of_dom.
    eapply mapped_range_at; [exact Hm|lia]. }
  apply subseteq_size in Hsub. rewrite size_list_to_set in Hsub by apply NoDup_seqZ.
  rewrite length_seqZ in Hsub. lia.
Qed.

(** Decision procedures for concrete memories. *)
Definition mapped_rangeb (m : mem) (a : Z) (n : nat) : bool :=
  forallb (fun i => bool_decide (is_Some (m_bytes m !! (a + Z.of_nat i)))) (seq 0 n).

Lemma mapped_rangeb_true m a n : mapped_rangeb m a n = true -> mapped_range m a (Z.of_nat n).
Proof.
  intros Hb i Hi. unfold mapped_rangeb in Hb. rewrite forallb_forall in Hb.
  specialize (Hb (Z.to_nat i)). rewrite Z2Nat.id in Hb by lia.
  apply bool_decide_eq_true in Hb; [exact Hb|]. apply in_seq. lia.
Qed.

Definition bytes_atb (m : mem) (a : Z) (l : list Z) : bool :=
  forallb (fun i => bool_decide (m_bytes m !! (a + Z.of_nat i) = l !! i)) (seq 0 (length l)).

Lemma bytes_atb_true m a l : bytes_atb m a l = true -> bytes_at m a l.
Proof.
  intros Hb i b Hi. unfold bytes_atb in Hb. rewrite forallb_forall in Hb.
  pose proof (lookup_lt_Some _ _ _ Hi). specialize (Hb i).
  rewrite <- Hi. apply bool_decide_eq_true in Hb; [exact Hb|]. apply in_seq. lia.
Qed.

Definition is_byteb (b : Z) : bool := (0 <=? b) && (b <? 256).

Lemma is_bytesb_true l : forallb is_byteb l = true -> Forall is_byte l.
Proof.
  rewrite forallb_forall, Forall_forall. intros Hl b Hb. apply list_elem_of_In, Hl in Hb.
  unfold is_byteb, is_byte in *. lia.
Qed.

Definition stack_okb (m : mem) : bool := forallb (fun p => m_sp m <=? fst p) (map_to_list (m_bytes m)).

Lemma stack_okb_true m : stack_okb m = true -> stack_ok m.
Proof.
  unfold stack_okb. rewrite forallb_forall. intros Hb a Ha. destruct (m_bytes m !! a) as [b|] eqn:E; [|done].
  apply elem_of_map_to_list, list_elem_of_In, Hb in E. simpl in E. lia.
Qed.

(** Side conditions on a concrete memory, by evaluation. *)
Ltac solve_mem :=
  match goal with
  | |- mapped_range ?m ?a ?n =>
      let n' := eval vm_compute in (Z.to_nat n) in
      change (mapped_range m a (Z.of_nat n')); apply mapped_rangeb_true; vm_compute; reflexivity
  | |- bytes_at _ _ _ => apply bytes_atb_true; vm_compute; reflexivity
  | |- stack_ok _ => apply stack_okb_true; vm_compute; reflexivity
  | |- Forall is_byte _ => apply is_bytesb_true; vm_compute; reflexivity
  end.
