(* ===== verification/Base64.v ===== *)
(** Base64 encoding and decoding of [SocketRocket/fbase64.c], which the
    WebSocket client of the database uses for its handshake key. *)

From stdpp Require Import base list gmap strings.
From Stdlib Require Import ZArith Lia.
From S2P Require Import Prelude CMem.

(** The characters of a string literal. *)
Definition chars (s : string) : list Z :=
  map (fun c => Z.of_N (Ascii.N_of_ascii c)) (String.list_ascii_of_string s).

Definition Base64 : list Z :=
  Eval vm_compute in chars "ABCDEFGHIJKLMNOPQRSTUVWXYZabcdefghijklmnopqrstuvwxyz0123456789+/".
Definition Pad64 : Z := Eval vm_compute in hd 0 (chars "=").

(** [Base64[i]]. *)
Definition digit (i : Z) : Z := nth (Z.to_nat i) Base64 0.

(** [isspace] of the C locale. *)
Definition isspace (ch : Z) : bool := (ch =? 32) || ((9 <=? ch) && (ch <=? 13)).

(** [strchr(Base64, ch) - Base64] for a character that is not NUL. *)
Fixpoint strchr_from (l : list Z) (i ch : Z) : option Z :=
  match l with
  | [] => None
  | c :: l' => if c =? ch then Some i else strchr_from l' (i + 1) ch
  end.
Definition strchr (ch : Z) : option Z := strchr_from Base64 0 ch.

(** ** Encoding *)

(** [target[datalength++] = c] for each character. *)
Definition put_chars (target datalength : Z) (l : list Z) : C unit :=
  store_bytes (target + datalength) l.

(** The four output digits of three input bytes. *)
Definition output0 (i0 : Z) : Z := Z.shiftr i0 2.
Definition output1 (i0 i1 : Z) : Z := u8 (Z.shiftl (Z.land i0 0x03) 4 + Z.shiftr i1 4).
Definition output2 (i1 i2 : Z) : Z := u8 (Z.shiftl (Z.land i1 0x0f) 2 + Z.shiftr i2 6).
Definition output3 (i2 : Z) : Z := Z.land i2 0x3f.

(** [while (2 < srclength)]; [None] is [return -1]. *)
Fixpoint ntop_loop (fuel : nat) (src srclength target targsize datalength : Z)
  : C (option (Z * Z * Z)) :=
  if 2 <? srclength then
    match fuel with
    | O => nofuel
    | S fuel' =>
        let* input0 := load8 src in
        let* input1 := load8 (src + 1) in
        let* input2 := load8 (src + 2) in
        if targsize <? u64 (datalength + 4) then ret None
        else
          put_chars target datalength
            [digit (output0 input0); digit (output1 input0 input1);
             digit (output2 input1 input2); digit (output3 input2)] ;;;
          ntop_loop fuel' (src + 3) (srclength - 3) target targsize (datalength + 4)
    end
  else ret (Some (src, srclength, datalength)).

(** The padding of what is left: the new [datalength]. *)
Definition ntop_rest (src srclength target targsize datalength : Z) : C (option Z) :=
  if negb (srclength =? 0) then
    let* input0 := load8 src in
    let* input1 := if 1 <? srclength then load8 (src + 1) else ret 0 in
    if targsize <? u64 (datalength + 4) then ret None
    else
      put_chars target datalength
        [digit (output0 input0); digit (output1 input0 input1);
         if srclength =? 1 then Pad64 else digit (output2 input1 0); Pad64] ;;;
      ret (Some (datalength + 4))
  else ret (Some datalength).

(** The result is an [int]. *)
Definition f_b64_ntop (src srclength target targsize : Z) : C Z :=
  let* r := ntop_loop (Z.to_nat srclength) src srclength target targsize 0 in
  match r with
  | None => ret (-1)
  | Some (src, srclength, datalength) =>
      let* r := ntop_rest src srclength target targsize datalength in
      match r with
      | None => ret (-1)
      | Some datalength =>
          if targsize <=? datalength then ret (-1)
          else store8 (target + datalength) 0 ;;; ret (sext 32 datalength)
      end
  end.

(** ** Decoding *)

(** [target[i] |= v] and [target[i] = v]. *)
Definition or_byte (a v : Z) : C unit := let* b := load8 a in store8 a (Z.lor b v).

(** The [switch (state)] on a digit: the new state and [tarindex], [None] for
    [return -1]. *)
Definition pton_digit (target targsize state tarindex pos : Z) : C (option (Z * Z)) :=
  if state =? 0 then
    if target =? 0 then ret (Some (1, tarindex))
    else if targsize <=? tarindex then ret None
    else store8 (target + tarindex) (Z.shiftl pos 2) ;;; ret (Some (1, tarindex))
  else if state =? 1 then
    if target =? 0 then ret (Some (2, u32 (tarindex + 1)))
    else if targsize <=? u32 (tarindex + 1) then ret None
    else or_byte (target + tarindex) (Z.shiftr pos 4) ;;;
         store8 (target + u32 (tarindex + 1)) (Z.shiftl (Z.land pos 0x0f) 4) ;;;
         ret (Some (2, u32 (tarindex + 1)))
  else if state =? 2 then
    if target =? 0 then ret (Some (3, u32 (tarindex + 1)))
    else if targsize <=? u32 (tarindex + 1) then ret None
    else or_byte (target + tarindex) (Z.shiftr pos 2) ;;;
         store8 (target + u32 (tarindex + 1)) (Z.shiftl (Z.land pos 0x03) 6) ;;;
         ret (Some (3, u32 (tarindex + 1)))
  else
    if target =? 0 then ret (Some (0, u32 (tarindex + 1)))
    else if targsize <=? tarindex then ret None
    else or_byte (target + tarindex) pos ;;; ret (Some (0, u32 (tarindex + 1))).

(** [ch = *src++]; [char] is signed on the target. *)
Definition next_char (src : Z) : C Z := let* b := load8 src in ret (sext 8 b).

(** The main loop: [None] for [return -1], else the last character, [src],
    the state and [tarindex]. *)
Fixpoint pton_loop (fuel : nat) (src target targsize state tarindex : Z)
  : C (option (Z * Z * Z * Z)) :=
  match fuel with
  | O => nofuel
  | S fuel' =>
      let* ch := next_char src in
      let src := src + 1 in
      if ch =? 0 then ret (Some (ch, src, state, tarindex))
      else if isspace ch then pton_loop fuel' src target targsize state tarindex
      else if ch =? Pad64 then ret (Some (ch, src, state, tarindex))
      else match strchr ch with
      | None => ret None
      | Some pos =>
          let* r := pton_digit target targsize state tarindex pos in
          match r with
          | None => ret None
          | Some (state, tarindex) => pton_loop fuel' src target targsize state tarindex
          end
      end
  end.

(** [for (; ch != '\0'; ch = *src++) if (!isspace(ch)) break;] *)
Fixpoint skip_spaces (fuel : nat) (ch src : Z) : C (Z * Z) :=
  if (ch =? 0) || negb (isspace ch) then ret (ch, src)
  else match fuel with
  | O => nofuel
  | S fuel' => let* ch := next_char src in skip_spaces fuel' ch (src + 1)
  end.

(** The end of the decoder after a pad character. *)
Definition pton_pad (fuel : nat) (src target state tarindex : Z) : C Z :=
  let* ch := next_char src in
  let src := src + 1 in
  if (state =? 0) || (state =? 1) then ret (-1)
  else
    let* r :=
      if state =? 2 then
        let* ' (ch, src) := skip_spaces fuel ch src in
        if negb (ch =? Pad64) then ret None
        else let* ch := next_char src in ret (Some (ch, src + 1))
      else ret (Some (ch, src)) in
    match r with
    | None => ret (-1)
    | Some (ch, src) =>
        let* ' (ch, _) := skip_spaces fuel ch src in
        if negb (ch =? 0) then ret (-1)
        else
          let* extra := if target =? 0 then ret 0 else load8 (target + tarindex) in
          if negb (extra =? 0) then ret (-1) else ret (sext 32 tarindex)
    end.

(** A string is no longer than the mapped memory: the fuel. *)
Definition f_b64_pton (src target targsize : Z) : C Z :=
  let* fuel := mem_fuel in
  let* r := pton_loop fuel src target targsize 0 0 in
  match r with
  | None => ret (-1)
  | Some (ch, src, state, tarindex) =>
      if ch =? Pad64 then pton_pad fuel src target state tarindex
      else if negb (state =? 0) then ret (-1) else ret (sext 32 tarindex)
  end.
