(* ===== verification/Base64Spec.v ===== *)
(** The reference encoding and decoding of base64 and the lemmas that relate
    the code of [Base64.v] to them. *)

From stdpp Require Import base list gmap strings.
From Stdlib Require Import ZArith Lia.
From S2P Require Import Prelude CMem Base64.

(** * Reference functions *)

(** Groups of three bytes as four characters, the last group padded. *)
Fixpoint b64_encode (l : list Z) : list Z :=
  match l with
  | [] => []
  | [a] => [digit (a / 4); digit (a mod 4 * 16); Pad64; Pad64]
  | [a; b] => [digit (a / 4); digit (a mod 4 * 16 + b / 16); digit (b mod 16 * 4); Pad64]
  | a :: b :: c :: l' =>
      digit (a / 4) :: digit (a mod 4 * 16 + b / 16) :: digit (b mod 16 * 4 + c / 64) ::
      digit (c mod 64) :: b64_encode l'
  end.

(** The bytes a list of 6-bit digits fills, the last one possibly in part. *)
Fixpoint b64_bytes (ds : list Z) : list Z :=
  match ds with
  | [] => []
  | [a] => [a * 4]
  | [a; b] => [a * 4 + b / 16; b mod 16 * 16]
  | [a; b; c] => [a * 4 + b / 16; b mod 16 * 16 + c / 4; c mod 4 * 64]
  | a :: b :: c :: d :: ds' =>
      (a * 4 + b / 16) :: (b mod 16 * 16 + c / 4) :: (c mod 4 * 64 + d) :: b64_bytes ds'
  end.

(** The digits of a string up to a pad character, and what follows it;
    [None] when another character occurs. *)
Fixpoint b64_scan (s : list Z) : option (list Z * option (list Z)) :=
  match s with
  | [] => Some ([], None)
  | c :: s' =>
      if isspace c then b64_scan s'
      else if c =? Pad64 then Some ([], Some s')
      else match strchr c, b64_scan s' with
           | Some d, Some (ds, r) => Some (d :: ds, r)
           | _, _ => None
           end
  end.

Fixpoint drop_spaces (s : list Z) : list Z :=
  match s with
  | [] => []
  | c :: s' => if isspace c then drop_spaces s' else s
  end.

(** What may follow the first pad character. *)
Definition pad_ok (state : nat) (rest : list Z) : bool :=
  match state with
  | 2%nat => match drop_spaces rest with
             | c :: s => (c =? Pad64) && forallb isspace s
             | [] => false
             end
  | 3%nat => forallb isspace rest
  | _ => false
  end.

(** The decoded bytes and the room the decoder needs for them. *)
Definition b64_decode (s : list Z) : option (list Z * nat) :=
  match b64_scan s with
  | None => None
  | Some (ds, rest) =>
      let state := (length ds mod 4)%nat in
      let bytes := b64_bytes ds in
      match rest with
      | None => if Nat.eqb state 0 then Some (bytes, length bytes) else None
      | Some rest =>
          if pad_ok state rest && (default 0 (last bytes) =? 0)
          then Some (removelast bytes, length bytes) else None
      end
  end.

(** * Characters *)

Definition digits_ok : bool :=
  forallb (fun i => let c := digit i in
             bool_decide (strchr c = Some i) && negb (isspace c) && negb (c =? Pad64) &&
             (0 <? c) && (c <? 128)) (seqZ 0 64).

Lemma digit_spec i :
  0 <= i < 64 ->
  strchr (digit i) = Some i /\ isspace (digit i) = false /\ (digit i =? Pad64) = false /\
  0 < digit i < 128.
Proof.
  intros Hi. assert (Hall : digits_ok = true) by (vm_compute; reflexivity).
  unfold digits_ok in Hall. rewrite forallb_forall in Hall.
  assert (Hin : In i (seqZ 0 64)) by (apply list_elem_of_In, elem_of_seqZ; lia).
  apply Hall in Hin. rewrite !andb_true_iff in Hin. destruct Hin as [[[[H1 H2] H3] H4] H5].
  apply bool_decide_eq_true in H1. rewrite negb_true_iff in H2, H3. repeat split; [done..|lia|lia].
Qed.

Lemma digit_byte i : 0 <= i < 64 -> is_byte (digit i).
Proof. intros Hi. pose proof (digit_spec i Hi). unfold is_byte. lia. Qed.

(** A [char] and the byte it is stored as behave alike. *)
Lemma char_spec c :
  is_byte c ->
  isspace (sext 8 c) = isspace c /\ (sext 8 c =? Pad64) = (c =? Pad64) /\
  strchr (sext 8 c) = strchr c /\ (sext 8 c =? 0) = (c =? 0).
Proof.
  intros Hc.
  pose (P := fun c => Bool.eqb (isspace (sext 8 c)) (isspace c) && Bool.eqb (sext 8 c =? Pad64) (c =? Pad64) &&
               bool_decide (strchr (sext 8 c) = strchr c) && Bool.eqb (sext 8 c =? 0) (c =? 0)).
  assert (HP : P c = true).
  { apply (byte_forall P c); [vm_compute; reflexivity|done]. }
  unfold P in HP. rewrite !andb_true_iff in HP. destruct HP as [[[H1 H2] H3] H4].
  apply eqb_prop in H1, H2, H4. by apply bool_decide_eq_true in H3.
Qed.

Lemma strchr_from_range l i ch d : strchr_from l i ch = Some d -> i <= d < i + Z.of_nat (length l).
Proof.
  revert i. induction l as [|c l IH]; intros i H; simpl in H; [done|].
  destruct (c =? ch); [injection H as <-; cbn [length]; lia|]. apply IH in H. cbn [length]. lia.
Qed.

Lemma strchr_range ch d : strchr ch = Some d -> 0 <= d < 64.
Proof. intros H. apply strchr_from_range in H. exact H. Qed.

Lemma b64_scan_range s ds rest : b64_scan s = Some (ds, rest) -> Forall (fun d => 0 <= d < 64) ds.
Proof.
  revert ds rest. induction s as [|c s IH]; intros ds rest E; cbn [b64_scan] in E.
  - injection E as <- <-. constructor.
  - destruct (isspace c); [by eapply IH|].
    destruct (c =? Pad64); [injection E as <- <-; constructor|].
    destruct (strchr c) eqn:Ec; [|done]. destruct (b64_scan s) as [[q r]|]; [|done].
    injection E as <- <-. constructor; [by eapply strchr_range|by eapply IH].
Qed.

Lemma b64_scan_length s ds rest : b64_scan s = Some (ds, rest) -> (length ds <= length s)%nat.
Proof.
  revert ds rest. induction s as [|c s IH]; intros ds rest E; cbn [b64_scan] in E.
  - injection E as <- <-. done.
  - cbn [length]. destruct (isspace c); [specialize (IH _ _ E); lia|].
    destruct (c =? Pad64); [injection E as <- <-; simpl; lia|].
    destruct (strchr c) eqn:Ec; [|done]. destruct (b64_scan s) as [[q r]|]; [|done].
    injection E as <- <-. cbn [length]. specialize (IH _ _ eq_refl). lia.
Qed.

(** * Encoding *)

Lemma output_spec a b c :
  is_byte a -> is_byte b -> is_byte c ->
  output0 a = a / 4 /\ output1 a b = a mod 4 * 16 + b / 16 /\
  output2 b c = b mod 16 * 4 + c / 64 /\ output3 c = c mod 64.
Proof.
  unfold is_byte. intros Ha Hb Hc. unfold output0, output1, output2, output3.
  rewrite (land_mask a 2 ltac:(lia) : Z.land a 0x03 = a mod 4), (land_mask b 4 ltac:(lia) : Z.land b 0x0f = b mod 16),
    (land_mask c 6 ltac:(lia) : Z.land c 0x3f = c mod 64).
  rewrite !Z.shiftr_div_pow2, !Z.shiftl_mul_pow2 by lia.
  change (2 ^ 2) with 4. change (2 ^ 4) with 16. change (2 ^ 6) with 64.
  rewrite !wrap_small; [done|Z.div_mod_to_equations; lia..].
Qed.

Lemma b64_encode_bytes l : Forall is_byte l -> Forall is_byte (b64_encode l).
Proof.
  assert (forall n l, (length l <= n)%nat -> Forall is_byte l -> Forall is_byte (b64_encode l)) as IH.
  { induction n as [|n IH]; intros [|a [|b [|c l']]] Hn Hl; try done; try (simpl in Hn; lia);
      rewrite ?Forall_cons in Hl; unfold is_byte in Hl; cbn [b64_encode]; repeat constructor;
      try (apply digit_byte; Z.div_mod_to_equations; lia); try done.
    apply IH; [simpl in Hn; lia|tauto]. }
  intros. by eapply IH.
Qed.

(** The rest of [f_b64_ntop] from a point of its loop. *)
Definition ntop_from (fuel : nat) (src srclength target targsize datalength : Z) : C Z :=
  let* r := ntop_loop fuel src srclength target targsize datalength in
  match r with
  | None => ret (-1)
  | Some (src, srclength, datalength) =>
      let* r := ntop_rest src srclength target targsize datalength in
      match r with
      | None => ret (-1)
      | Some datalength =>
          if targsize <=? datalength then ret (-1)
          else store8 (target + datalength) 0 ;;; ret (sext 32 datalength)
      end
  end.

Section Ntop.
Context (target targsize : Z) (Htarg : 0 <= targsize < 2 ^ 63).

(** The result on the bytes [l] with [dl] characters already written. *)
Definition ntop_result (m : mem) (dl : Z) (l : list Z) (r : outcome (Z * mem)) : Prop :=
  if dl + Z.of_nat (length (b64_encode l)) <? targsize
  then r = Ret (sext 32 (dl + Z.of_nat (length (b64_encode l))),
                poke m (target + dl) (b64_encode l ++ [0]))
  else exists m', r = Ret (-1, m') /\ frame (range target targsize) m m'.

Lemma ntop_finish m dl r :
  mapped_range m target targsize -> 0 <= dl ->
  r = (if targsize <=? dl then ret (-1) else store8 (target + dl) 0 ;;; ret (sext 32 dl)) m ->
  ntop_result m dl [] r.
Proof.
  intros Hm Hdl ->. unfold ntop_result. cbn [b64_encode length app]. rewrite Z.add_0_r.
  destruct (Z.ltb_spec dl targsize); destruct (Z.leb_spec targsize dl); try lia.
  - unfold bind. rewrite store8_poke; [done|]. eapply mapped_range_at; [exact Hm|lia].
  - exists m. split; [done|apply frame_refl].
Qed.

(** Four characters do not fit. *)
Lemma ntop_full m dl l :
  (4 <= length (b64_encode l))%nat -> targsize < dl + 4 -> ntop_result m dl l (Ret (-1, m)).
Proof.
  intros Hlen Hlt. unfold ntop_result. destruct (Z.ltb_spec (dl + Z.of_nat (length (b64_encode l))) targsize); [lia|].
  exists m. split; [done|apply frame_refl].
Qed.

(** Four characters were written and the rest follows. *)
Lemma ntop_step m dl l four l' r :
  b64_encode l = four ++ b64_encode l' -> length four = 4%nat ->
  mapped_range m target targsize -> 0 <= dl -> dl + 4 <= targsize ->
  ntop_result (poke m (target + dl) four) (dl + 4) l' r -> ntop_result m dl l r.
Proof.
  intros Henc H4 Hm Hdl Hroom Hr. unfold ntop_result in *. rewrite Henc, length_app, H4.
  replace (dl + Z.of_nat (4 + length (b64_encode l'))) with (dl + 4 + Z.of_nat (length (b64_encode l'))) by lia.
  destruct (dl + 4 + Z.of_nat (length (b64_encode l')) <? targsize).
  - rewrite Hr, <- app_assoc, (poke_app _ _ four), H4. do 3 f_equal. lia.
  - destruct Hr as (m' & -> & Hf). exists m'. split; [done|]. eapply frame_trans; [|exact Hf].
    eapply frame_mono; [|apply frame_poke; eapply mapped_range_sub; [exact Hm|lia..]].
    unfold range. rewrite H4. lia.
Qed.

Lemma put_four m dl four :
  length four = 4%nat -> mapped_range m target targsize -> 0 <= dl -> dl + 4 <= targsize ->
  put_chars target dl four m = Ret (tt, poke m (target + dl) four).
Proof.
  intros H4 Hm ? ?. apply store_bytes_poke. rewrite H4. eapply mapped_range_sub; [exact Hm|lia..].
Qed.

Lemma ntop_rest_run m src dl l :
  l <> [] -> (length l < 3)%nat ->
  bytes_at m src l -> Forall is_byte l -> mapped_range m target targsize -> 0 <= dl -> dl + 4 < 2 ^ 64 ->
  ntop_rest src (Z.of_nat (length l)) target targsize dl m =
  if targsize <? dl + 4 then Ret (None, m)
  else Ret (Some (dl + 4), poke m (target + dl) (b64_encode l)).
Proof.
  intros Hne Hlen Hb Hl Hm Hdl Hwrap. unfold ntop_rest.
  destruct l as [|a [|b [|]]]; [done| | |simpl in Hlen; lia]; rewrite ?Forall_cons in Hl.
  - destruct Hl as [Ha _]. apply bytes_at_cons in Hb as [Hma _].
    change (negb (Z.of_nat (length [a]) =? 0)) with true. change (1 <? Z.of_nat (length [a])) with false.
    change (Z.of_nat (length [a]) =? 1) with true. cbn [b64_encode].
    unfold bind at 1. rewrite (load8_at _ _ _ Hma Ha). unfold bind at 1, ret at 1.
    rewrite wrap_small by lia. destruct (Z.ltb_spec targsize (dl + 4)); [done|].
    unfold bind. rewrite put_four by (done || lia).
    destruct (output_spec a 0 0 Ha) as (-> & -> & _); [done..|]. by rewrite Z.add_0_r.
  - destruct Hl as (Ha & Hbyte & _). apply bytes_at_cons in Hb as [Hma Hb]. apply bytes_at_cons in Hb as [Hmb _].
    change (negb (Z.of_nat (length [a; b]) =? 0)) with true. change (1 <? Z.of_nat (length [a; b])) with true.
    change (Z.of_nat (length [a; b]) =? 1) with false. cbn [b64_encode].
    unfold bind at 1. rewrite (load8_at _ _ _ Hma Ha). unfold bind at 1. rewrite (load8_at _ _ _ Hmb Hbyte).
    rewrite wrap_small by lia. destruct (Z.ltb_spec targsize (dl + 4)); [done|].
    unfold bind. rewrite put_four by (done || lia).
    destruct (output_spec a b 0 Ha Hbyte) as (-> & -> & -> & _); [done|]. by rewrite Z.add_0_r.
Qed.

Lemma ntop_from_run fuel m src dl l :
  (length l <= fuel)%nat -> bytes_at m src l -> Forall is_byte l ->
  mapped_range m target targsize -> 0 <= dl <= targsize ->
  (forall x, range target targsize x -> range src (Z.of_nat (length l)) x -> False) ->
  ntop_result m dl l (ntop_from fuel src (Z.of_nat (length l)) target targsize dl m).
Proof.
  revert m src dl l. induction fuel as [|fuel IH]; intros m src dl l Hf Hb Hl Hm Hdl Hdis.
  { destruct l; [|simpl in Hf; lia]. by apply ntop_finish; [|lia|]. }
  destruct (Z.ltb_spec 2 (Z.of_nat (length l))) as [H3|H3].
  - destruct l as [|a [|b [|c l]]]; try (simpl in H3; lia).
    apply bytes_at_cons in Hb as [Hma Hb]. apply bytes_at_cons in Hb as [Hmb Hb]. apply bytes_at_cons in Hb as [Hmc Hb].
    rewrite !Forall_cons in Hl. destruct Hl as (Ha & Hbb & Hc & Hl).
    replace (src + 1 + 1) with (src + 2) in * by lia. replace (src + 2 + 1) with (src + 3) in Hb by lia.
    unfold ntop_from. cbn [ntop_loop]. destruct (Z.ltb_spec 2 (Z.of_nat (length (a :: b :: c :: l)))); [|lia].
    unfold bind at 1 2. rewrite (load8_at _ _ _ Hma Ha). unfold bind at 1. rewrite (load8_at _ _ _ Hmb Hbb).
    unfold bind at 1. rewrite (load8_at _ _ _ Hmc Hc). rewrite wrap_small by lia.
    destruct (Z.ltb_spec targsize (dl + 4)).
    { unfold ret at 1 2. apply ntop_full; [simpl; lia|lia]. }
    unfold bind at 1. rewrite put_four by (done || lia).
    destruct (output_spec a b c Ha Hbb Hc) as (-> & -> & -> & ->).
    set (four := [_; _; _; _]). apply (ntop_step m dl (a :: b :: c :: l) four l); [done|done|done|lia|lia|].
    replace (Z.of_nat (length (a :: b :: c :: l)) - 3) with (Z.of_nat (length l)) by (cbn [length]; lia).
    assert (Hput : mapped_range m (target + dl) (Z.of_nat (length four))).
    { change (Z.of_nat (length four)) with 4. eapply mapped_range_sub; [exact Hm|lia..]. }
    apply IH; [cbn [length] in Hf; lia| |done| |lia|].
    + apply bytes_at_poke_out; [|done]. change (Z.of_nat (length four)) with 4.
      intros x. unfold range in *. intros H1 H2. apply (Hdis x); cbn [length]; lia.
    + by apply mapped_range_poke.
    + intros x. unfold range in *. intros H1 H2. apply (Hdis x); cbn [length]; lia.
  - assert (Hloop : ntop_loop (S fuel) src (Z.of_nat (length l)) target targsize dl m =
                    Ret (Some (src, Z.of_nat (length l), dl), m)).
    { cbn [ntop_loop]. by destruct (Z.ltb_spec 2 (Z.of_nat (length l))); [lia|]. }
    unfold ntop_from, bind at 1. rewrite Hloop.
    destruct l as [|a l]; [by apply ntop_finish; [|lia|]|].
    unfold bind at 1. rewrite ntop_rest_run by (done || lia).
    assert (E4 : length (b64_encode (a :: l)) = 4%nat) by (destruct l as [|b [|]]; done || (simpl in H3; lia)).
    destruct (Z.ltb_spec targsize (dl + 4)).
    { apply ntop_full; [rewrite E4; lia|lia]. }
    apply (ntop_step m dl (a :: l) (b64_encode (a :: l)) []); [by rewrite app_nil_r|done|done|lia|lia|].
    apply ntop_finish; [|lia|done]. apply mapped_range_poke; [|done]. rewrite E4.
    eapply mapped_range_sub; [exact Hm|lia..].
Qed.
End Ntop.


(** * Decoding *)

(** Whole groups of four digits come first. *)
Lemma b64_bytes_app qs ds :
  (length qs mod 4 = 0)%nat -> b64_bytes (qs ++ ds) = b64_bytes qs ++ b64_bytes ds.
Proof.
  assert (forall n qs, (length qs <= n)%nat -> (length qs mod 4 = 0)%nat ->
            b64_bytes (qs ++ ds) = b64_bytes qs ++ b64_bytes ds) as IH.
  { induction n as [|n IH]; intros [|a [|b [|c [|d q]]]] Hn H4; try done; try (simpl in Hn; lia).
    cbn [app b64_bytes]. do 3 f_equal. apply IH; [simpl in Hn; lia|].
    cbn [length] in H4. replace (S (S (S (S (length q))))) with (length q + 1 * 4)%nat in H4 by lia.
    by rewrite Nat.Div0.mod_add in H4. }
  intros. by eapply IH.
Qed.

(** A list of digits as whole groups and fewer than four more. *)
Lemma digits_split (ds : list Z) :
  exists qs r, ds = qs ++ r /\ (length qs mod 4 = 0)%nat /\ (length r < 4)%nat /\
    (length ds mod 4 = length r)%nat.
Proof.
  set (k := (4 * (length ds / 4))%nat). pose proof (Nat.div_mod (length ds) 4 ltac:(lia)) as Hd.
  pose proof (Nat.mod_upper_bound (length ds) 4 ltac:(lia)).
  assert (Hk : length (take k ds) = k) by (rewrite length_take; lia).
  exists (take k ds), (drop k ds). rewrite take_drop, Hk, length_drop.
  repeat split; try lia. unfold k. by rewrite Nat.mul_comm, Nat.Div0.mod_mul.
Qed.

(** The index at which the next digit goes. *)
Definition tar_index (ds : list Z) : Z :=
  Z.of_nat (length (b64_bytes ds)) - (if Nat.eqb (length ds mod 4) 0 then 0 else 1).

Definition digit_range (ds : list Z) : Prop := Forall (fun d => 0 <= d < 64) ds.

Lemma b64_bytes_range ds : digit_range ds -> Forall is_byte (b64_bytes ds).
Proof.
  assert (forall n ds, (length ds <= n)%nat -> digit_range ds -> Forall is_byte (b64_bytes ds)) as IH.
  { unfold digit_range, is_byte.
    induction n as [|n IH]; intros [|a [|b [|c [|d q]]]] Hn Hr; try done; try (simpl in Hn; lia);
      rewrite ?Forall_cons in Hr; cbn [b64_bytes]; repeat constructor; try done;
      try (Z.div_mod_to_equations; lia).
    apply IH; [simpl in Hn; lia|tauto]. }
  intros. by eapply IH.
Qed.

(** ** One digit *)

Section Digit.
Context (target : Z) (Htarget : target <> 0).

Lemma or_byte_run m a x v :
  m_bytes m !! a = Some x -> is_byte x -> or_byte a v m = Ret (tt, poke m a [Z.lor x v]).
Proof.
  intros Hx Hb. unfold or_byte, bind. rewrite (load8_at _ _ _ Hx Hb). apply store8_poke. by eexists.
Qed.

Lemma poke_u8 m a v : poke m a [u8 v] = poke m a [v].
Proof. unfold poke. simpl. by rewrite wrap_wrap by lia. Qed.

(** The last byte that was written, and its replacement. *)
Lemma poke_snoc_lookup m a l x :
  is_byte x -> m_bytes (poke m a (l ++ [x])) !! (a + Z.of_nat (length l)) = Some x.
Proof.
  intros Hx. rewrite poke_app. unfold poke at 1. simpl. rewrite lookup_insert_eq. by rewrite wrap_small.
Qed.

Lemma poke_snoc_replace m a l x y :
  poke (poke m a (l ++ [x])) (a + Z.of_nat (length l)) [y] = poke m a (l ++ [y]).
Proof. by rewrite !poke_app, poke_poke_1. Qed.

Lemma or_last m l x v :
  is_byte x ->
  or_byte (target + Z.of_nat (length l)) v (poke m target (l ++ [x])) =
  Ret (tt, poke m target (l ++ [Z.lor x v])).
Proof.
  intros Hx. rewrite (or_byte_run _ _ x) by (done || by apply poke_snoc_lookup).
  by rewrite poke_snoc_replace.
Qed.

(** Bits that do not overlap add up. *)
Lemma lor_digit x p q n :
  0 <= n -> 0 <= q < 2 ^ n -> x = p * 2 ^ n -> Z.lor x q = x + q.
Proof.
  intros Hn Hq ->. rewrite Z.lor_comm, <- Z.shiftl_mul_pow2 by lia.
  rewrite lor_shiftl_add by lia. rewrite Z.shiftl_mul_pow2 by lia. lia.
Qed.

(** Complete the last byte and start the next one. *)
Lemma or_store m ts l x v w {A} (k : C A) :
  is_byte x -> mapped_range m target ts -> Z.of_nat (length l) + 2 <= ts ->
  (or_byte (target + Z.of_nat (length l)) v ;;;
   store8 (target + (Z.of_nat (length l) + 1)) w ;;; k) (poke m target (l ++ [x])) =
  k (poke m target (l ++ [Z.lor x v; w])).
Proof.
  intros Hx Hm Hts. unfold bind. rewrite or_last by done.
  assert (Hmt : mapped_range m target (Z.of_nat (length (l ++ [Z.lor x v])))).
  { eapply mapped_range_sub; [exact Hm|lia|rewrite length_app; cbn [length]; lia]. }
  rewrite store8_poke.
  - f_equal. replace (l ++ [Z.lor x v; w]) with ((l ++ [Z.lor x v]) ++ [w]) by by rewrite <- app_assoc.
    rewrite (poke_app _ _ (l ++ _)), length_app. cbn [length]. f_equal. lia.
  - apply mapped_poke; [done|]. eapply mapped_range_at; [exact Hm|lia].
Qed.

(** The four states: [l] are the complete bytes, [x] the started one. *)
Lemma pton_state0 m ts l p :
  mapped_range m target ts ->
  pton_digit target ts 0 (Z.of_nat (length l)) p (poke m target l) =
  if ts <? Z.of_nat (length l) + 1 then Ret (None, poke m target l)
  else Ret (Some (1, Z.of_nat (length l)), poke m target (l ++ [p * 4])).
Proof.
  intros Hm. unfold pton_digit. cbn [Z.eqb]. destruct (Z.eqb_spec target 0); [done|].
  destruct (Z.leb_spec ts (Z.of_nat (length l))); destruct (Z.ltb_spec ts (Z.of_nat (length l) + 1)); try lia; [done|].
  unfold bind. rewrite store8_poke.
  - rewrite Z.shiftl_mul_pow2 by lia. by rewrite poke_app.
  - apply mapped_poke; [eapply mapped_range_sub; [exact Hm|lia..]|eapply mapped_range_at; [exact Hm|lia]].
Qed.

Lemma pton_state1 m ts l x p :
  is_byte x -> mapped_range m target ts -> Z.of_nat (length l) + 1 < 2 ^ 32 ->
  pton_digit target ts 1 (Z.of_nat (length l)) p (poke m target (l ++ [x])) =
  if ts <? Z.of_nat (length l) + 2 then Ret (None, poke m target (l ++ [x]))
  else Ret (Some (2, Z.of_nat (length l) + 1), poke m target (l ++ [Z.lor x (p / 16); p mod 16 * 16])).
Proof.
  intros Hx Hm Hlen. unfold pton_digit. cbn [Z.eqb Pos.eqb]. destruct (Z.eqb_spec target 0); [done|].
  rewrite wrap_small by lia.
  destruct (Z.leb_spec ts (Z.of_nat (length l) + 1)); destruct (Z.ltb_spec ts (Z.of_nat (length l) + 2)); try lia; [done|].
  rewrite (or_store m ts) by (done || lia). rewrite Z.shiftr_div_pow2, Z.shiftl_mul_pow2 by lia.
  by rewrite (land_mask p 4 ltac:(lia) : Z.land p 0x0f = p mod 16).
Qed.

Lemma pton_state2 m ts l x p :
  is_byte x -> mapped_range m target ts -> Z.of_nat (length l) + 1 < 2 ^ 32 ->
  pton_digit target ts 2 (Z.of_nat (length l)) p (poke m target (l ++ [x])) =
  if ts <? Z.of_nat (length l) + 2 then Ret (None, poke m target (l ++ [x]))
  else Ret (Some (3, Z.of_nat (length l) + 1), poke m target (l ++ [Z.lor x (p / 4); p mod 4 * 64])).
Proof.
  intros Hx Hm Hlen. unfold pton_digit. cbn [Z.eqb Pos.eqb]. destruct (Z.eqb_spec target 0); [done|].
  rewrite wrap_small by lia.
  destruct (Z.leb_spec ts (Z.of_nat (length l) + 1)); destruct (Z.ltb_spec ts (Z.of_nat (length l) + 2)); try lia; [done|].
  rewrite (or_store m ts) by (done || lia). rewrite Z.shiftr_div_pow2, Z.shiftl_mul_pow2 by lia.
  by rewrite (land_mask p 2 ltac:(lia) : Z.land p 0x03 = p mod 4).
Qed.

Lemma pton_state3 m ts l x p :
  is_byte x -> mapped_range m target ts -> Z.of_nat (length l) + 1 < 2 ^ 32 -> Z.of_nat (length l) < ts ->
  pton_digit target ts 3 (Z.of_nat (length l)) p (poke m target (l ++ [x])) =
  Ret (Some (0, Z.of_nat (length l) + 1), poke m target (l ++ [Z.lor x p])).
Proof.
  intros Hx Hm Hlen Hts. unfold pton_digit. cbn [Z.eqb Pos.eqb]. destruct (Z.eqb_spec target 0); [done|].
  destruct (Z.leb_spec ts (Z.of_nat (length l))); [lia|].
  unfold bind. rewrite or_last by done. by rewrite wrap_small by lia.
Qed.

Lemma length_b64_bytes ds : (length (b64_bytes ds) <= length ds)%nat.
Proof.
  assert (forall n ds, (length ds <= n)%nat -> (length (b64_bytes ds) <= length ds)%nat) as IH.
  { induction n as [|n IH]; intros [|a [|b [|c [|d q]]]] Hn; try (simpl in *; lia).
    cbn [length b64_bytes]. specialize (IH q ltac:(simpl in Hn; lia)). lia. }
  by eapply IH.
Qed.

Lemma mod4_snoc (qs r : list Z) p :
  (length qs mod 4 = 0)%nat -> (length ((qs ++ r) ++ [p]) mod 4 = S (length r) mod 4)%nat.
Proof.
  intros H4. rewrite <- app_assoc, !length_app. cbn [length].
  replace (length r + 1)%nat with (S (length r)) by lia.
  by rewrite Nat.Div0.add_mod, H4, Nat.add_0_l, Nat.Div0.mod_mod.
Qed.

Lemma length_snoc (l : list Z) x : length (l ++ [x]) = (length l + 1)%nat.
Proof. by rewrite length_app. Qed.

Lemma length_snoc2 (l : list Z) x y : length (l ++ [x; y]) = (length l + 2)%nat.
Proof. by rewrite length_app. Qed.

(** Equal results: the state and the index are numbers. *)
Ltac pton_done :=
  match goal with
  | |- Ret (Some (?s, ?t), ?m) = Ret (Some (Z.of_nat ?k, ?t'), ?m) =>
      change (Z.of_nat k) with s; refine (f_equal (fun z => Ret (Some (s, z), m)) (_ : t = t'));
      cbn [Nat.eqb Nat.modulo Nat.divmod fst snd Nat.sub]; lia
  end.

Lemma pton_digit_run m ts ds p :
  digit_range ds -> 0 <= p < 64 -> Z.of_nat (length ds) < 2 ^ 31 ->
  mapped_range m target ts -> Z.of_nat (length (b64_bytes ds)) <= ts ->
  pton_digit target ts (Z.of_nat (length ds mod 4)) (tar_index ds) p (poke m target (b64_bytes ds)) =
  if ts <? Z.of_nat (length (b64_bytes (ds ++ [p])))
  then Ret (None, poke m target (b64_bytes ds))
  else Ret (Some (Z.of_nat (length (ds ++ [p]) mod 4), tar_index (ds ++ [p])),
            poke m target (b64_bytes (ds ++ [p]))).
Proof.
  intros Hds Hp Hlen Hm Hroom.
  destruct (digits_split ds) as (qs & r & -> & H4 & Hr & Emod).
  pose proof (length_b64_bytes qs) as HB.
  unfold tar_index. rewrite (mod4_snoc _ _ _ H4), Emod, <- app_assoc, !b64_bytes_app in * by done.
  rewrite !length_app in Hlen. apply Forall_app in Hds as [_ Hdr].
  set (B := b64_bytes qs) in *.
  destruct r as [|a [|b [|c [|]]]]; [| | | |simpl in Hr; lia]; rewrite ?Forall_cons in Hdr;
    cbn [length b64_bytes app] in *; rewrite ?app_nil_r, ?length_app in *; cbn [length] in *.
  - replace (Z.of_nat (length B) - (if (0 =? 0)%nat then 0 else 1)) with (Z.of_nat (length B)) by (cbn [Nat.eqb]; lia).
    change (Z.of_nat 0) with 0. rewrite (pton_state0 m ts B p Hm).
    replace (Z.of_nat (length B + 1)) with (Z.of_nat (length B) + 1) by lia.
    destruct (ts <? Z.of_nat (length B) + 1); [done|]. pton_done.
  - replace (Z.of_nat (length B + 1) - (if (1 =? 0)%nat then 0 else 1)) with (Z.of_nat (length B)) by (cbn [Nat.eqb]; lia).
    change (Z.of_nat 1) with 1. rewrite (pton_state1 m ts B (a * 4) p) by (unfold is_byte; done || lia).
    rewrite (lor_digit (a * 4) a (p / 16) 2) by (change (2 ^ 2) with 4; Z.div_mod_to_equations; lia).
    replace (Z.of_nat (length B + 2)) with (Z.of_nat (length B) + 2) by lia.
    destruct (ts <? Z.of_nat (length B) + 2); [done|]. pton_done.
  - set (x := a * 4 + b / 16) in *. pose proof (length_snoc B x) as Hsn.
    replace (B ++ [x; b mod 16 * 16]) with ((B ++ [x]) ++ [b mod 16 * 16]) by by rewrite <- app_assoc.
    replace (Z.of_nat (length B + 2) - (if (2 =? 0)%nat then 0 else 1)) with (Z.of_nat (length (B ++ [x])))
      by (cbn [Nat.eqb]; lia).
    change (Z.of_nat 2) with 2. rewrite (pton_state2 m ts (B ++ [x]) (b mod 16 * 16) p)
      by (unfold is_byte; done || (Z.div_mod_to_equations; lia)).
    rewrite (lor_digit (b mod 16 * 16) (b mod 16) (p / 4) 4) by (change (2 ^ 4) with 16; Z.div_mod_to_equations; lia).
    replace (Z.of_nat (length B + 3)) with (Z.of_nat (length (B ++ [x])) + 2) by lia.
    destruct (ts <? Z.of_nat (length (B ++ [x])) + 2); [done|]. rewrite <- app_assoc. cbn [app]. pton_done.
  - set (x := a * 4 + b / 16) in *. set (y := b mod 16 * 16 + c / 4) in *.
    pose proof (length_snoc2 B x y) as Hsn.
    replace (B ++ [x; y; c mod 4 * 64]) with ((B ++ [x; y]) ++ [c mod 4 * 64]) by by rewrite <- app_assoc.
    replace (Z.of_nat (length B + 3) - (if (3 =? 0)%nat then 0 else 1)) with (Z.of_nat (length (B ++ [x; y])))
      by (cbn [Nat.eqb]; lia).
    change (Z.of_nat 3) with 3. rewrite (pton_state3 m ts (B ++ [x; y]) (c mod 4 * 64) p)
      by (unfold is_byte; done || (Z.div_mod_to_equations; lia)).
    rewrite (lor_digit (c mod 4 * 64) (c mod 4) p 6) by (change (2 ^ 6) with 64; Z.div_mod_to_equations; lia).
    destruct (Z.ltb_spec ts (Z.of_nat (length B + 3))); [lia|]. rewrite <- app_assoc. cbn [app]. pton_done.
Qed.
End Digit.

(** ** The main loop *)

Lemma b64_bytes_length ds : length (b64_bytes ds) = ((3 * length ds + 3) / 4)%nat.
Proof.
  assert (forall n ds, (length ds <= n)%nat -> length (b64_bytes ds) = ((3 * length ds + 3) / 4)%nat) as IH.
  { induction n as [|n IH]; intros [|a [|b [|c [|d q]]]] Hn; try done; try (simpl in Hn; lia).
    cbn [length b64_bytes]. rewrite IH by (simpl in Hn; lia).
    replace (3 * S (S (S (S (length q)))) + 3)%nat with (3 * length q + 3 + 3 * 4)%nat by lia.
    rewrite Nat.div_add by lia. lia. }
  by eapply IH.
Qed.

Lemma b64_bytes_mono ds ds' : (length (b64_bytes ds) <= length (b64_bytes (ds ++ ds')))%nat.
Proof. rewrite !b64_bytes_length, length_app. apply Nat.Div0.div_le_mono. lia. Qed.

Lemma bytes_at_suffix m a l1 l2 :
  bytes_at m a (l1 ++ l2) -> bytes_at m (a + Z.of_nat (length l1)) l2.
Proof. intros H. by apply bytes_at_app in H as [_ H]. Qed.

Lemma next_char_run m a s :
  bytes_at m a (s ++ [0]) -> Forall is_byte s ->
  next_char a m = Ret (sext 8 (hd 0 s), m).
Proof.
  intros Ha Hs. unfold next_char, bind.
  destruct s as [|c s]; cbn [app hd] in *; apply bytes_at_cons in Ha as [Ha _].
  - by rewrite (load8_at _ _ _ Ha ltac:(unfold is_byte; lia)).
  - apply Forall_cons in Hs as [Hc _]. by rewrite (load8_at _ _ _ Ha Hc).
Qed.

(** A string in memory: its bytes and a terminator, none of them NUL. *)
Record string_at (m : mem) (a : Z) (s : list Z) : Prop := {
  sa_bytes : bytes_at m a (s ++ [0]);
  sa_range : Forall is_byte s;
  sa_nonzero : Forall (fun c => c <> 0) s;
}.

Lemma string_at_cons m a c s : string_at m a (c :: s) -> is_byte c /\ c <> 0 /\ string_at m (a + 1) s.
Proof.
  intros [Hb Hr Hn]. apply bytes_at_cons in Hb as [_ Hb]. apply Forall_cons in Hr as [? Hr].
  apply Forall_cons_1 in Hn as [Hc Hn]. split; [done|]. split; [exact Hc|]. by split.
Qed.

Lemma string_at_suffix m a s1 s2 : string_at m a (s1 ++ s2) -> string_at m (a + Z.of_nat (length s1)) s2.
Proof.
  intros [Hb Hr Hn]. rewrite <- app_assoc in Hb. apply bytes_at_suffix in Hb.
  apply Forall_app in Hr as [_ Hr]. apply Forall_app in Hn as [_ Hn]. done.
Qed.

Lemma string_at_poke m a s a' l :
  string_at m a s ->
  (forall x, range a' (Z.of_nat (length l)) x -> range a (Z.of_nat (length s) + 1) x -> False) ->
  string_at (poke m a' l) a s.
Proof.
  intros [Hb Hr Hn] Hd. split; [|done..]. apply bytes_at_poke_out; [|done].
  intros x. rewrite length_app. cbn [length].
  replace (Z.of_nat (length s + 1)) with (Z.of_nat (length s) + 1) by lia. apply Hd.
Qed.

Section Pton.
Context (target ts : Z) (Htarget : target <> 0).
Context (m : mem) (Hm : mapped_range m target ts).

(** The string lies apart from the target. *)
Definition apart (a : Z) (s : list Z) : Prop :=
  forall x, range target ts x -> range a (Z.of_nat (length s) + 1) x -> False.

Lemma apart_tail a c s : apart a (c :: s) -> apart (a + 1) s.
Proof. intros H x. unfold range. cbn [length]. intros H1 H2. apply (H x); unfold range; cbn [length]; lia. Qed.

Lemma string_at_target a s ds :
  string_at m a s -> apart a s -> Z.of_nat (length (b64_bytes ds)) <= ts ->
  string_at (poke m target (b64_bytes ds)) a s.
Proof.
  intros Hs Ha Hds. apply string_at_poke; [done|]. intros x Hx. apply Ha. unfold range in *. lia.
Qed.

(** The loop gives up. *)
Definition pton_fails {A} (r : outcome (option A * mem)) : Prop :=
  exists ds, digit_range ds /\ Z.of_nat (length (b64_bytes ds)) <= ts /\
    r = Ret (None, poke m target (b64_bytes ds)).

(** What the main loop returns on the string [s] after the digits [ds]. *)
Definition pton_loop_result (src : Z) (ds s : list Z) (r : outcome (option (Z * Z * Z * Z) * mem)) : Prop :=
  match b64_scan s with
  | None => pton_fails r
  | Some (ds', rest) =>
      digit_range ds' /\
      if ts <? Z.of_nat (length (b64_bytes (ds ++ ds'))) then pton_fails r
      else exists ch src',
        r = Ret (Some (ch, src', Z.of_nat (length (ds ++ ds') mod 4), tar_index (ds ++ ds')),
                 poke m target (b64_bytes (ds ++ ds'))) /\
        match rest with
        | None => ch = 0
        | Some rest => ch = Pad64 /\ exists pre, s = pre ++ rest /\ src' = src + Z.of_nat (length pre)
        end
  end.

Lemma pton_loop_run s : forall fuel src ds,
  (length s < fuel)%nat -> string_at m src s -> apart src s -> digit_range ds ->
  Z.of_nat (length ds + length s) < 2 ^ 31 -> Z.of_nat (length (b64_bytes ds)) <= ts ->
  pton_loop_result src ds s
    (pton_loop fuel src target ts (Z.of_nat (length ds mod 4)) (tar_index ds) (poke m target (b64_bytes ds))).
Proof.
  induction s as [|c s IH]; intros [|fuel] src ds Hf Hs Hap Hds Hlen Hroom; try (simpl in Hf; lia);
    cbn [pton_loop]; unfold bind at 1;
    pose proof (string_at_target _ _ ds Hs Hap Hroom) as Hs';
    rewrite (next_char_run _ _ _ (sa_bytes _ _ _ Hs') (sa_range _ _ _ Hs')); cbn [hd].
  - unfold pton_loop_result. cbn [b64_scan]. rewrite app_nil_r. split; [by constructor|].
    destruct (Z.ltb_spec ts (Z.of_nat (length (b64_bytes ds)))); [lia|].
    change (sext 8 0 =? 0) with true. by exists 0, (src + 1).
  - destruct (string_at_cons _ _ _ _ Hs) as (Hc & Hnz & Htail).
    destruct (char_spec c Hc) as (-> & -> & -> & ->). destruct (Z.eqb_spec c 0); [done|].
    assert (Hf' : (length s < fuel)%nat) by (simpl in Hf; lia).
    assert (Hlen' : Z.of_nat (length ds + length s) < 2 ^ 31) by (cbn [length] in Hlen; lia).
    destruct (isspace c) eqn:Esp.
    { unfold pton_loop_result. cbn [b64_scan]. rewrite Esp.
      pose proof (IH fuel (src + 1) ds Hf' Htail (apart_tail _ _ _ Hap) Hds Hlen' Hroom) as R.
      unfold pton_loop_result in R. destruct (b64_scan s) as [[ds' rest]|]; [|done].
      destruct R as [? R]. split; [done|]. destruct (ts <? _); [done|].
      destruct R as (ch & src' & -> & R). exists ch, src'. split; [done|].
      destruct rest as [rest|]; [|done]. destruct R as (-> & pre & -> & ->). split; [done|].
      exists (c :: pre). split; [done|cbn [length]; lia]. }
    destruct (c =? Pad64) eqn:Epad.
    { unfold pton_loop_result. cbn [b64_scan]. rewrite Esp, Epad, app_nil_r. split; [by constructor|].
      destruct (Z.ltb_spec ts (Z.of_nat (length (b64_bytes ds)))); [lia|].
      exists (sext 8 c), (src + 1). split; [done|]. apply Z.eqb_eq in Epad as ->. split; [done|]. by exists [Pad64]. }
    destruct (strchr c) as [p|] eqn:Ep;
      [|unfold pton_loop_result; cbn [b64_scan]; rewrite Esp, Epad, Ep; by exists ds].
    pose proof (strchr_range _ _ Ep) as Hp.
    unfold bind at 1. rewrite pton_digit_run by (done || lia).
    unfold pton_loop_result. cbn [b64_scan]. rewrite Esp, Epad, Ep.
    destruct (Z.ltb_spec ts (Z.of_nat (length (b64_bytes (ds ++ [p]))))) as [Hfull|Hfit].
    { destruct (b64_scan s) as [[ds' rest]|] eqn:Escan; [|by exists ds].
      pose proof (b64_scan_range _ _ _ Escan) as Hds'.
      split; [by constructor|].
      replace (ds ++ p :: ds') with ((ds ++ [p]) ++ ds') by by rewrite <- app_assoc.
      pose proof (b64_bytes_mono (ds ++ [p]) ds').
      destruct (Z.ltb_spec ts (Z.of_nat (length (b64_bytes ((ds ++ [p]) ++ ds'))))); [|lia]. by exists ds. }
    assert (Hdsp : digit_range (ds ++ [p])) by (apply Forall_app; split; [done|by constructor]).
    pose proof (IH fuel (src + 1) (ds ++ [p]) Hf' Htail (apart_tail _ _ _ Hap) Hdsp) as R.
    specialize (R ltac:(rewrite length_app; cbn [length] in *; lia) Hfit). unfold pton_loop_result in R.
    destruct (b64_scan s) as [[ds' rest]|]; [|done]. rewrite <- app_assoc in R. cbn [app] in R.
    destruct R as [Hds' R]. split; [by constructor|]. destruct (ts <? _); [done|].
    destruct R as (ch & src' & E & R). exists ch, src'. split; [exact E|].
    destruct rest as [rest|]; [|done]. destruct R as (-> & pre & -> & ->). split; [done|].
    exists (c :: pre). split; [done|cbn [length]; lia].
Qed.
End Pton.

(** ** The end of the string *)

Lemma drop_spaces_suffix s : exists pre, s = pre ++ drop_spaces s.
Proof.
  induction s as [|c s [pre IH]]; [by exists []|]. cbn [drop_spaces].
  destruct (isspace c); [exists (c :: pre); by rewrite IH at 1|by exists []].
Qed.

Lemma drop_spaces_nil s : (match drop_spaces s with [] => true | _ => false end) = forallb isspace s.
Proof. induction s as [|c s IH]; [done|]. cbn [drop_spaces forallb]. by destruct (isspace c). Qed.

(** [ch] is the character at [a], [src] points behind it. *)
Lemma skip_spaces_run m s : forall fuel a,
  (length s <= fuel)%nat -> string_at m a s ->
  exists pre, s = pre ++ drop_spaces s /\
    skip_spaces fuel (sext 8 (hd 0 s)) (a + 1) m =
    Ret ((sext 8 (hd 0 (drop_spaces s)), a + Z.of_nat (length pre) + 1), m).
Proof.
  induction s as [|c s IH]; intros fuel a Hf Hs; cbn [hd drop_spaces].
  - exists []. split; [done|]. cbn [length]. rewrite Z.add_0_r. by destruct fuel.
  - destruct (string_at_cons _ _ _ _ Hs) as (Hc & Hnz & Htail).
    destruct (char_spec c Hc) as (Hsp & _ & _ & H0).
    destruct fuel as [|fuel]; [simpl in Hf; lia|]. cbn [skip_spaces]. rewrite Hsp, H0.
    destruct (Z.eqb_spec c 0); [done|]. cbn [orb]. destruct (isspace c); cbn [negb].
    + unfold bind at 1. rewrite (next_char_run _ _ _ (sa_bytes _ _ _ Htail) (sa_range _ _ _ Htail)).
      destruct (IH fuel (a + 1)) as (pre & E & Hrun); [simpl in Hf; lia|done|].
      exists (c :: pre). split; [cbn [app]; by f_equal|]. rewrite Hrun. cbn [length].
      do 3 f_equal. lia.
    + exists []. split; [done|]. cbn [length hd]. by rewrite Z.add_0_r.
Qed.

Section Pad.
Context (target ts : Z) (Htarget : target <> 0).

(** The last byte written, which has to be free of leftover bits. *)
Definition leftover (m : mem) (tarindex extra : Z) : Prop :=
  m_bytes m !! (target + tarindex) = Some extra /\ is_byte extra.

Lemma pton_end_run m fuel a s tarindex extra :
  (length s <= fuel)%nat -> string_at m a s -> leftover m tarindex extra ->
  (let* ' (ch, _) := skip_spaces fuel (sext 8 (hd 0 s)) (a + 1) in
   if negb (ch =? 0) then ret (-1)
   else let* extra := if target =? 0 then ret 0 else load8 (target + tarindex) in
        if negb (extra =? 0) then ret (-1) else ret (sext 32 tarindex)) m =
  Ret (if forallb isspace s && (extra =? 0) then sext 32 tarindex else -1, m).
Proof.
  intros Hf Hs [He Hb]. destruct (skip_spaces_run _ _ fuel a Hf Hs) as (pre & E & Hrun).
  unfold bind at 1. rewrite Hrun, <- drop_spaces_nil.
  assert (Hs' : string_at m (a + Z.of_nat (length pre)) (drop_spaces s)).
  { apply string_at_suffix. by rewrite <- E. }
  destruct (drop_spaces s) as [|c s']; cbn [hd].
  - change (sext 8 0 =? 0) with true. cbn [negb]. destruct (Z.eqb_spec target 0); [done|].
    unfold bind. rewrite (load8_at _ _ _ He Hb). by destruct (extra =? 0).
  - destruct (string_at_cons _ _ _ _ Hs') as (Hc & Hnz & _).
    destruct (char_spec c Hc) as (_ & _ & _ & ->). by destruct (Z.eqb_spec c 0).
Qed.

Lemma pton_pad_run m fuel src s k tarindex extra :
  (length s <= fuel)%nat -> string_at m src s -> ((2 <= k < 4)%nat -> leftover m tarindex extra) -> (k < 4)%nat ->
  pton_pad fuel src target (Z.of_nat k) tarindex m =
  Ret (if pad_ok k s && (extra =? 0) then sext 32 tarindex else -1, m).
Proof.
  intros Hf Hs He Hk. unfold pton_pad, bind at 1.
  rewrite (next_char_run _ _ _ (sa_bytes _ _ _ Hs) (sa_range _ _ _ Hs)).
  destruct k as [|[|[|[|]]]]; try lia; cbn [pad_ok andb].
  - done.
  - done.
  - change ((Z.of_nat 2 =? 0) || (Z.of_nat 2 =? 1)) with false. change (Z.of_nat 2 =? 2) with true. cbv iota.
    specialize (He ltac:(lia)). destruct (skip_spaces_run _ _ fuel src Hf Hs) as (pre & E & Hrun).
    unfold bind at 1 2. rewrite Hrun.
    assert (Hs' : string_at m (src + Z.of_nat (length pre)) (drop_spaces s)).
    { apply string_at_suffix. by rewrite <- E. }
    assert (Hlen : (length (drop_spaces s) <= length s)%nat) by (rewrite E at 2; rewrite length_app; lia).
    destruct (drop_spaces s) as [|c s']; cbn [hd]; [done|].
    destruct (string_at_cons _ _ _ _ Hs') as (Hc & Hnz & Htail).
    destruct (char_spec c Hc) as (_ & -> & _ & _). destruct (c =? Pad64); cbn [negb andb]; [|done].
    unfold bind at 1. rewrite (next_char_run _ _ _ (sa_bytes _ _ _ Htail) (sa_range _ _ _ Htail)).
    unfold ret at 1. apply pton_end_run; [simpl in Hlen; lia|done|done].
  - change ((Z.of_nat 3 =? 0) || (Z.of_nat 3 =? 1)) with false. change (Z.of_nat 3 =? 2) with false. cbv iota.
    unfold bind at 1, ret at 1. apply pton_end_run; [done|done|by apply He; lia].
Qed.
End Pad.

(** ** The decoder *)

Lemma removelast_length {A} (l : list A) : length (removelast l) = (length l - 1)%nat.
Proof.
  induction l as [|a [|b l] IH]; [done|done|]. change (removelast (a :: b :: l)) with (a :: removelast (b :: l)).
  cbn [length] in *. lia.
Qed.

Lemma removelast_snoc {A} (l : list A) : l <> [] -> exists x, l = removelast l ++ [x] /\ last l = Some x.
Proof.
  intros Hl. destruct (exists_last Hl) as (l' & x & ->). exists x.
  by rewrite removelast_last, last_snoc.
Qed.

Lemma string_fuel m a s : string_at m a s -> (length s < size (m_bytes m))%nat.
Proof.
  intros [Hb _ _]. apply bytes_at_mapped, mapped_range_size in Hb. rewrite length_app in Hb.
  cbn [length] in Hb. lia.
Qed.

Lemma size_poke m a l : mapped_range m a (Z.of_nat (length l)) -> size (m_bytes (poke m a l)) = size (m_bytes m).
Proof.
  intros Hm. rewrite <- !(size_dom (D := gset Z)). f_equal. apply set_eq. intros x.
  rewrite !elem_of_dom. apply (frame_dom _ _ _ (frame_poke m a l Hm)).
Qed.

Lemma b64_bytes_ne ds : (length ds mod 4 =? 0)%nat = false -> b64_bytes ds <> [].
Proof.
  intros Hne Eb. apply length_zero_iff_nil in Eb. rewrite b64_bytes_length in Eb.
  apply Nat.div_small_iff in Eb; [|lia]. assert (length ds = 0)%nat as El by lia. by rewrite El in Hne.
Qed.

Section Decode.
Context (target ts : Z) (Htarget : target <> 0).
Context (m : mem) (Hm : mapped_range m target ts).

(** The result of decoding the string [s]. *)
Definition pton_result (s : list Z) (r : outcome (Z * mem)) : Prop :=
  exists v m', r = Ret (v, m') /\ frame (range target ts) m m' /\
    match b64_decode s with
    | Some (out, room) =>
        if ts <? Z.of_nat room then v = -1
        else v = Z.of_nat (length out) /\ bytes_at m' target out
    | None => v = -1
    end.

Lemma frame_digits ds : Z.of_nat (length (b64_bytes ds)) <= ts -> frame (range target ts) m (poke m target (b64_bytes ds)).
Proof.
  intros Hlen. eapply frame_mono; [|apply frame_poke; eapply mapped_range_sub; [exact Hm|lia..]].
  unfold range. lia.
Qed.

Lemma sext_index ds : Z.of_nat (length ds) < 2 ^ 31 -> sext 32 (tar_index ds) = tar_index ds.
Proof.
  intros Hl. pose proof (length_b64_bytes ds). unfold tar_index.
  apply sext_small; [lia|]. change (2 ^ (32 - 1)) with (2 ^ 31). destruct (Nat.eqb (length ds mod 4) 0) eqn:E; [lia|].
  assert (length (b64_bytes ds) <> 0)%nat; [|lia].
  rewrite b64_bytes_length. destruct ds; [done|]. cbn [length].
  intros Hz. apply Nat.div_small_iff in Hz; lia.
Qed.

Lemma pton_run src s :
  string_at m src s -> apart target ts src s -> Z.of_nat (length s) < 2 ^ 31 -> 0 <= ts ->
  pton_result s (f_b64_pton src target ts m).
Proof.
  intros Hs Hap Hlen Hts. unfold f_b64_pton, bind at 1. unfold mem_fuel at 1.
  set (fuel := S _). pose proof (string_fuel _ _ _ Hs) as Hfuel.
  pose proof (pton_loop_run target ts Htarget m Hm s fuel src [] ltac:(unfold fuel; lia) Hs Hap
    ltac:(constructor) Hlen ltac:(simpl; lia)) as R.
  cbn [b64_bytes length] in R. rewrite poke_nil in R. change (tar_index []) with 0 in R.
  change (Z.of_nat (0 mod 4)) with 0 in R. unfold pton_loop_result in R.
  unfold pton_result, b64_decode. unfold bind at 1.
  destruct (b64_scan s) as [[ds rest]|] eqn:Escan.
  2:{ destruct R as (ds & _ & Hfit & ->). exists (-1), (poke m target (b64_bytes ds)). split; [done|].
      split; [by apply frame_digits|done]. }
  cbn [app] in R. destruct R as [Hds R].
  destruct (Z.ltb_spec ts (Z.of_nat (length (b64_bytes ds)))) as [Hfull|Hfit].
  { destruct R as (ds0 & _ & Hfit & ->). exists (-1), (poke m target (b64_bytes ds0)). split; [done|].
    split; [by apply frame_digits|].
    assert (Hlt : (ts <? Z.of_nat (length (b64_bytes ds))) = true) by lia.
    destruct rest; [destruct (_ && _); [by rewrite Hlt|done]|destruct (Nat.eqb _ _); [by rewrite Hlt|done]]. }
  assert (Hlt : (ts <? Z.of_nat (length (b64_bytes ds))) = false) by lia.
  assert (Hdslen : (length ds <= length s)%nat) by by eapply b64_scan_length.
  destruct R as (ch & src' & -> & R). set (m1 := poke m target (b64_bytes ds)).
  assert (F1 : frame (range target ts) m m1) by by apply frame_digits.
  assert (B1 : bytes_at m1 target (b64_bytes ds)) by by apply poke_bytes_at, b64_bytes_range.
  pose proof (Nat.mod_upper_bound (length ds) 4 ltac:(lia)) as H4.
  destruct rest as [rest|].
  - destruct R as (-> & pre & -> & ->). rewrite Z.eqb_refl.
    pose proof (string_at_target target ts m src (pre ++ rest) ds Hs Hap Hfit) as Hs1.
    apply string_at_suffix in Hs1. fold m1 in Hs1.
    rewrite (pton_pad_run target Htarget m1 fuel _ rest (length ds mod 4) (tar_index ds) (default 0 (last (b64_bytes ds)))).
    + eexists _, m1. split; [done|]. split; [done|].
      destruct (pad_ok _ rest) eqn:Epad; cbn [andb]; [|done].
      destruct (default 0 _ =? 0); [|done]. rewrite Hlt.
      rewrite sext_index by (rewrite length_app in Hlen, Hdslen; lia).
      assert (Hne : (length ds mod 4 =? 0)%nat = false) by by destruct (length ds mod 4)%nat.
      unfold tar_index. rewrite Hne, removelast_length.
      pose proof (b64_bytes_ne ds Hne) as Hbne. destruct (b64_bytes ds) as [|x l] eqn:Eb; [done|].
      split; [cbn [length]; lia|].
      destruct (removelast_snoc (x :: l)) as (y & Ey & _); [done|].
      rewrite Ey in B1. by apply bytes_at_app in B1 as [? _].
    + rewrite length_app in Hfuel. unfold fuel. lia.
    + done.
    + intros Hk. unfold leftover, tar_index.
      assert (Hne : (length ds mod 4 =? 0)%nat = false) by (destruct (length ds mod 4)%nat; [lia|done]).
      rewrite Hne. pose proof (b64_bytes_ne ds Hne) as Hbne.
      destruct (removelast_snoc (b64_bytes ds) Hbne) as (y & Ey & ->). change (default 0 (Some y)) with y.
      pose proof (b64_bytes_range ds Hds) as Hby. rewrite Ey in Hby. apply Forall_app in Hby as [_ Hy].
      apply Forall_cons in Hy as [Hy _]. split; [|done].
      rewrite Ey in B1. specialize (B1 (length (removelast (b64_bytes ds))) y).
      rewrite lookup_app_r, Nat.sub_diag in B1 by lia. rewrite <- (B1 eq_refl). f_equal.
      rewrite Ey at 1. rewrite length_app. cbn [length]. lia.
    + done.
  - subst ch. change (0 =? Pad64) with false. cbv iota.
    destruct (Nat.eqb_spec (length ds mod 4) 0) as [E0|E0].
    + rewrite E0. change (negb (Z.of_nat 0 =? 0)) with false. cbv iota. eexists _, m1. split; [done|].
      split; [done|]. rewrite Hlt. split; [|done]. rewrite sext_index by lia.
      unfold tar_index. rewrite E0. cbn [Nat.eqb]. lia.
    + destruct (Z.eqb_spec (Z.of_nat (length ds mod 4)) 0); [lia|]. eexists _, m1. done.
Qed.
End Decode.

(** ** Decoding what was encoded *)

Lemma scan_digit i s :
  0 <= i < 64 ->
  b64_scan (digit i :: s) = match b64_scan s with Some (ds, r) => Some (i :: ds, r) | None => None end.
Proof. intros Hi. cbn [b64_scan]. by destruct (digit_spec i Hi) as (-> & -> & -> & _). Qed.

(** The digits of an encoding, by what is left of the last group. *)
Definition scan_shape (l : list Z) (r : option (list Z * option (list Z))) : Prop :=
  exists ds,
  match (length l mod 3)%nat with
  | 0%nat => r = Some (ds, None) /\ b64_bytes ds = l /\ (length ds mod 4 = 0)%nat
  | 1%nat => r = Some (ds, Some [Pad64]) /\ b64_bytes ds = l ++ [0] /\ (length ds mod 4 = 2)%nat
  | _ => r = Some (ds, Some []) /\ b64_bytes ds = l ++ [0] /\ (length ds mod 4 = 3)%nat
  end.

Lemma scan_encode l : Forall is_byte l -> scan_shape l (b64_scan (b64_encode l)).
Proof.
  assert (forall n l, (length l <= n)%nat -> Forall is_byte l -> scan_shape l (b64_scan (b64_encode l))) as IH.
  { induction n as [|n IH]; intros [|a [|b [|c l']]] Hn Hl; try (simpl in Hn; lia);
      rewrite ?Forall_cons in Hl; unfold is_byte in Hl; cbn [b64_encode].
    - by exists [].
    - by exists [].
    - rewrite !scan_digit by (Z.div_mod_to_equations; lia). exists [a / 4; a mod 4 * 16].
      split; [done|]. split; [|done]. cbn [b64_bytes app]. f_equal; [|f_equal]; Z.div_mod_to_equations; lia.
    - rewrite !scan_digit by (Z.div_mod_to_equations; lia).
      exists [a / 4; a mod 4 * 16 + b / 16; b mod 16 * 4].
      split; [done|]. split; [|done]. cbn [b64_bytes app]. f_equal; [|f_equal; [|f_equal]]; Z.div_mod_to_equations; lia.
    - rewrite !scan_digit by (Z.div_mod_to_equations; lia).
      destruct (IH l') as (ds & R); [simpl in Hn; lia|tauto|].
      exists (a / 4 :: a mod 4 * 16 + b / 16 :: b mod 16 * 4 + c / 64 :: c mod 64 :: ds).
      assert (E3 : (length (a :: b :: c :: l') mod 3 = length l' mod 3)%nat).
      { cbn [length]. replace (S (S (S (length l')))) with (length l' + 1 * 3)%nat by lia. apply Nat.Div0.mod_add. }
      assert (E4 : (length (a / 4 :: a mod 4 * 16 + b / 16 :: b mod 16 * 4 + c / 64 :: c mod 64 :: ds)%Z mod 4 = length ds mod 4)%nat).
      { cbn [length]. replace (S (S (S (S (length ds))))) with (length ds + 1 * 4)%nat by lia. apply Nat.Div0.mod_add. }
      assert (Eb : forall q, b64_bytes ds = q -> b64_bytes (a / 4 :: a mod 4 * 16 + b / 16 :: b mod 16 * 4 + c / 64 :: c mod 64 :: ds) = a :: b :: c :: q).
      { intros q <-. cbn [b64_bytes]. do 2 (f_equal; [Z.div_mod_to_equations; lia|]).
        f_equal. Z.div_mod_to_equations; lia. }
      rewrite E3, E4. destruct (length l' mod 3)%nat as [|[|]]; destruct R as (-> & Hb & Hd);
        (split; [done|]; split; [by rewrite (Eb _ Hb)|done]). }
  intros. by eapply IH.
Qed.

Lemma b64_decode_encode l :
  Forall is_byte l ->
  b64_decode (b64_encode l) =
  Some (l, (length l + if Nat.eqb (length l mod 3) 0 then 0 else 1)%nat).
Proof.
  intros Hl. destruct (scan_encode l Hl) as (ds & R). unfold b64_decode.
  pose proof (Nat.mod_upper_bound (length l) 3 ltac:(lia)).
  destruct (length l mod 3)%nat as [|[|[|]]]; [| | |lia]; destruct R as (-> & -> & ->); cbn [Nat.eqb].
  - by rewrite Nat.add_0_r.
  - rewrite last_snoc, removelast_last, length_app. done.
  - rewrite last_snoc, removelast_last, length_app. done.
Qed.

Lemma b64_encode_length l : length (b64_encode l) = (4 * ((length l + 2) / 3))%nat.
Proof.
  assert (forall n l, (length l <= n)%nat -> length (b64_encode l) = (4 * ((length l + 2) / 3))%nat) as IH.
  { induction n as [|n IH]; intros [|a [|b [|c l']]] Hn; try done; try (simpl in Hn; lia).
    cbn [b64_encode length]. rewrite IH by (simpl in Hn; lia).
    replace (S (S (S (length l'))) + 2)%nat with (length l' + 2 + 1 * 3)%nat by lia.
    rewrite Nat.div_add by lia. lia. }
  by eapply IH.
Qed.

Lemma b64_encode_nonzero l : Forall is_byte l -> Forall (fun c => c <> 0) (b64_encode l).
Proof.
  assert (forall n l, (length l <= n)%nat -> Forall is_byte l -> Forall (fun c => c <> 0) (b64_encode l)) as IH.
  { assert (Hd : forall i, 0 <= i < 64 -> digit i <> 0) by (intros i Hi; pose proof (digit_spec i Hi); lia).
    induction n as [|n IH]; intros [|a [|b [|c l']]] Hn Hl; try (simpl in Hn; lia);
      rewrite ?Forall_cons in Hl; unfold is_byte in Hl; cbn [b64_encode];
      repeat (apply Forall_cons_2; [first [done | apply Hd; Z.div_mod_to_equations; lia]|]); try apply Forall_nil_2.
    apply IH; [simpl in Hn; lia|tauto]. }
  intros. by eapply IH.
Qed.

(** * Properties

    What the base64 functions guarantee. *)

(** [f_b64_ntop] writes the base64 encoding of its input and a terminator
    and returns the length of the encoding when both fit into [targsize];
    otherwise it returns -1 and writes nothing outside the target buffer. *)
Theorem f_b64_ntop_spec m src target targsize l :
  bytes_at m src l -> Forall is_byte l ->
  mapped_range m target targsize -> 0 <= targsize < 2 ^ 63 ->
  (forall x, range target targsize x -> range src (Z.of_nat (length l)) x -> False) ->
  Z.of_nat (length (b64_encode l)) < 2 ^ 31 ->
  if Z.of_nat (length (b64_encode l)) <? targsize
  then f_b64_ntop src (Z.of_nat (length l)) target targsize m =
       Ret (Z.of_nat (length (b64_encode l)), poke m target (b64_encode l ++ [0]))
  else exists m', f_b64_ntop src (Z.of_nat (length l)) target targsize m = Ret (-1, m') /\
       frame (range target targsize) m m'.
Proof.
  intros Hb Hl Hm Hts Hd Hlen.
  pose proof (ntop_from_run target targsize Hts (Z.to_nat (Z.of_nat (length l))) m src 0 l
    ltac:(lia) Hb Hl Hm ltac:(lia) Hd) as R.
  unfold ntop_result in R. rewrite !Z.add_0_l, Z.add_0_r in R.
  destruct (_ <? targsize); [|exact R]. rewrite sext_small in R; [exact R|lia|].
  change (2 ^ (32 - 1)) with (2 ^ 31). lia.
Qed.

(** [f_b64_pton] on any string computes the reference decoding - white
    space is skipped, padding has to be complete and the unused bits zero -
    when the target has room for the decoder's bytes, returns -1 in every
    other case, and never writes outside the target buffer. *)
Theorem f_b64_pton_spec m src target targsize s :
  string_at m src s -> Z.of_nat (length s) < 2 ^ 31 ->
  target <> 0 -> 0 <= targsize -> mapped_range m target targsize ->
  (forall x, range target targsize x -> range src (Z.of_nat (length s) + 1) x -> False) ->
  exists v m', f_b64_pton src target targsize m = Ret (v, m') /\
    frame (range target targsize) m m' /\
    match b64_decode s with
    | Some (out, room) =>
        if targsize <? Z.of_nat room then v = -1
        else v = Z.of_nat (length out) /\ bytes_at m' target out
    | None => v = -1
    end.
Proof. intros Hs Hlen Htarget Hts Hm Hd. by apply pton_run. Qed.

(** C37: decoding the string that [f_b64_ntop] produced gives the original
    bytes back. *)
Theorem f_b64_roundtrip m src target targsize dest destsize l :
  bytes_at m src l -> Forall is_byte l -> Z.of_nat (length (b64_encode l)) < 2 ^ 31 ->
  mapped_range m target targsize -> Z.of_nat (length (b64_encode l)) < targsize < 2 ^ 63 ->
  mapped_range m dest destsize -> Z.of_nat (length l) < destsize -> dest <> 0 ->
  (forall x, range target targsize x -> range src (Z.of_nat (length l)) x -> False) ->
  (forall x, range dest destsize x -> range target targsize x -> False) ->
  exists n m1 m2, f_b64_ntop src (Z.of_nat (length l)) target targsize m = Ret (n, m1) /\
    f_b64_pton target dest destsize m1 = Ret (Z.of_nat (length l), m2) /\ bytes_at m2 dest l.
Proof.
  intros Hb Hl Hlen Hm Hts Hdm Hds Hdne Hd1 Hd2.
  pose proof (ntop_from_run target targsize ltac:(lia) (Z.to_nat (Z.of_nat (length l))) m src 0 l
    ltac:(lia) Hb Hl Hm ltac:(lia) Hd1) as R.
  unfold ntop_result in R. rewrite !Z.add_0_l, Z.add_0_r in R.
  destruct (Z.ltb_spec (Z.of_nat (length (b64_encode l))) targsize); [|lia].
  set (m1 := poke m target (b64_encode l ++ [0])) in *.
  assert (Hmt : mapped_range m target (Z.of_nat (length (b64_encode l ++ [0])))).
  { eapply mapped_range_sub; [exact Hm|lia|rewrite length_app; cbn [length]; lia]. }
  assert (Hs : string_at m1 target (b64_encode l)).
  { split; [|by apply b64_encode_bytes|by apply b64_encode_nonzero].
    apply poke_bytes_at, Forall_app. split; [by apply b64_encode_bytes|]. by repeat constructor. }
  assert (Hap : apart dest destsize target (b64_encode l)).
  { intros x Hx Hy. apply (Hd2 x Hx). unfold range in *. lia. }
  destruct (pton_run dest destsize Hdne m1 ltac:(by apply mapped_range_poke) target (b64_encode l) Hs Hap Hlen
    ltac:(lia)) as (v & m2 & E & _ & Hdec).
  rewrite b64_decode_encode in Hdec by done.
  assert (Hroom : (destsize <? Z.of_nat (length l + (if (length l mod 3 =? 0)%nat then 0 else 1))) = false).
  { apply Z.ltb_ge. destruct (Nat.eqb (length l mod 3) 0); cbv iota; lia. }
  rewrite Hroom in Hdec. destruct Hdec as [-> Hdec]. eexists _, m1, m2. by split; [exact R|].
Qed.

(** the decoder stores the unused low bits of the last digit in a byte of
    its own, so a buffer of exactly the size of the data is refused with -1
    when the data is not a multiple of three bytes, although the comment
    promises the number of data bytes. *)
Theorem f_b64_pton_exact_buffer :
  let m := mem_add (mem_of 4096 (b64_encode [1; 2] ++ [0])) 8192 (repeat 0 3) in
  (exists m', f_b64_pton 4096 8192 2 m = Ret (-1, m')) /\
  (exists m', f_b64_pton 4096 8192 3 m = Ret (2, m') /\ bytes_at m' 8192 [1; 2]).
Proof.
  split; [eexists; vm_compute; reflexivity|].
  eexists. split; [vm_compute; reflexivity|]. apply bytes_atb_true. vm_compute. reflexivity.
Qed.

(** * The hypotheses hold: concrete inputs *)

Definition b64_input : list Z := [0x4D; 0x61; 0x6E; 0xFF].
Definition b64_mem : mem :=
  mem_add (mem_add (mem_of 4096 b64_input) 8192 (repeat 0 10)) 12288 (repeat 0 5).

Lemma f_b64_ntop_spec_witness :
  f_b64_ntop 4096 4 8192 9 b64_mem = Ret (8, poke b64_mem 8192 (chars "TWFu/w==" ++ [0])) /\
  exists m', f_b64_ntop 4096 4 8192 8 b64_mem = Ret (-1, m') /\ frame (range 8192 8) b64_mem m'.
Proof.
  split.
  - refine (f_b64_ntop_spec b64_mem 4096 8192 9 b64_input _ _ _ _ _ _); try solve_mem; try (vm_compute; intuition congruence).
    unfold range. cbn [length b64_input]. lia.
  - refine (f_b64_ntop_spec b64_mem 4096 8192 8 b64_input _ _ _ _ _ _); try solve_mem; try (vm_compute; intuition congruence).
    unfold range. cbn [length b64_input]. lia.
Defined.

Definition b64_text : mem := mem_add (mem_of 4096 (chars "TW Fu" ++ [0])) 8192 (repeat 0 4).

Lemma f_b64_pton_spec_witness :
  exists v m', f_b64_pton 4096 8192 4 b64_text = Ret (v, m') /\ frame (range 8192 4) b64_text m' /\
    v = 3 /\ bytes_at m' 8192 [0x4D; 0x61; 0x6E].
Proof.
  refine (f_b64_pton_spec b64_text 4096 8192 4 (chars "TW Fu") _ _ _ _ _ _); try solve_mem; try lia.
  - split; [solve_mem|solve_mem|]. vm_compute. repeat constructor; congruence.
  - vm_compute. congruence.
  - unfold range. change (Z.of_nat (length (chars "TW Fu"))) with 5. lia.
Defined.

Lemma f_b64_roundtrip_witness :
  exists n m1 m2, f_b64_ntop 4096 4 8192 9 b64_mem = Ret (n, m1) /\
    f_b64_pton 8192 12288 5 m1 = Ret (4, m2) /\ bytes_at m2 12288 b64_input.
Proof.
  refine (f_b64_roundtrip b64_mem 4096 8192 9 12288 5 b64_input _ _ _ _ _ _ _ _ _ _);
    try solve_mem; try (vm_compute; intuition congruence);
    unfold range; cbn [length b64_input]; lia.
Defined.
