(* ===== verification/PbTypes.v ===== *)
(** The data types of nanopb ([nanopb/pb.h], [pb_encode.h], [pb_decode.h]):
    field types, field descriptors, streams, wire types, the structures the
    library reads through pointers, and the function pointers the program
    may install.

    The configuration is the one of [Target Support Files/nanopb]:
    [PB_FIELD_32BIT], [PB_NO_PACKED_STRUCTS] and [PB_ENABLE_MALLOC] on a
    64-bit little-endian target, so [pb_size_t] is [uint32_t] and pointers
    and [size_t] have 8 bytes. *)

From stdpp Require Import base list gmap strings.
From Stdlib Require Import ZArith Lia.
From S2P Require Import Prelude CMem.

(** ** Field data types *)
Definition PB_LTYPE_VARINT : Z := 0x00.
Definition PB_LTYPE_UVARINT : Z := 0x01.
Definition PB_LTYPE_SVARINT : Z := 0x02.
Definition PB_LTYPE_FIXED32 : Z := 0x03.
Definition PB_LTYPE_FIXED64 : Z := 0x04.
Definition PB_LTYPE_LAST_PACKABLE : Z := 0x04.
Definition PB_LTYPE_BYTES : Z := 0x05.
Definition PB_LTYPE_STRING : Z := 0x06.
Definition PB_LTYPE_SUBMESSAGE : Z := 0x07.
Definition PB_LTYPE_EXTENSION : Z := 0x08.
Definition PB_LTYPE_FIXED_LENGTH_BYTES : Z := 0x09.
Definition PB_LTYPES_COUNT : Z := 0x0A.
Definition PB_LTYPE_MASK : Z := 0x0F.

(** ** Field repetition rules *)
Definition PB_HTYPE_REQUIRED : Z := 0x00.
Definition PB_HTYPE_OPTIONAL : Z := 0x10.
Definition PB_HTYPE_REPEATED : Z := 0x20.
Definition PB_HTYPE_ONEOF : Z := 0x30.
Definition PB_HTYPE_MASK : Z := 0x30.

(** ** Field allocation types *)
Definition PB_ATYPE_STATIC : Z := 0x00.
Definition PB_ATYPE_POINTER : Z := 0x80.
Definition PB_ATYPE_CALLBACK : Z := 0x40.
Definition PB_ATYPE_MASK : Z := 0xC0.

Definition PB_ATYPE (x : Z) : Z := Z.land x PB_ATYPE_MASK.
Definition PB_HTYPE (x : Z) : Z := Z.land x PB_HTYPE_MASK.
Definition PB_LTYPE (x : Z) : Z := Z.land x PB_LTYPE_MASK.

(** [pb_size_t] is [uint32_t] under [PB_FIELD_32BIT]. *)
Definition PB_SIZE_BITS : Z := 32.
Definition PB_SIZE_MAX : Z := 2 ^ PB_SIZE_BITS - 1.
Definition PB_MAX_REQUIRED_FIELDS : Z := 64.

(** The size of a pointer. *)
Definition SIZEOF_PTR : Z := 8.

(** ** Field descriptors: [struct pb_field_s] *)
Record pb_field_t : Type := mkField {
  f_tag : Z;
  f_type : Z;
  f_data_offset : Z;  (* offset of field data, relative to previous field *)
  f_size_offset : Z;  (* signed offset of count / has / which, relative to data *)
  f_data_size : Z;
  f_array_size : Z;
  f_ptr : Z;          (* address of submessage descriptors or of the default value *)
}.

#[export] Instance pb_field_t_eq_dec : EqDecision pb_field_t.
Proof. solve_decision. Defined.

Definition PB_LAST_FIELD : pb_field_t := mkField 0 0 0 0 0 0 0.

(** ** Wire types. The decoder casts any 3-bit value to the enumeration. *)
Definition PB_WT_VARINT : Z := 0.
Definition PB_WT_64BIT : Z := 1.
Definition PB_WT_STRING : Z := 2.
Definition PB_WT_32BIT : Z := 5.

(** ** Structures read through pointers *)

(** [pb_bytes_array_t]: the 4-byte [size], then the bytes. *)
Definition off_bytes_size : Z := 0.
Definition off_bytes_bytes : Z := 4.
Definition PB_BYTES_ARRAY_T_ALLOCSIZE (n : Z) : Z := n + off_bytes_bytes.

(** [struct pb_callback_s]: the function pointer, then [arg]. *)
Definition off_callback_funcs : Z := 0.
Definition off_callback_arg : Z := 8.

(** [struct pb_extension_type_s]: decode, encode, arg. *)
Definition off_exttype_decode : Z := 0.
Definition off_exttype_encode : Z := 8.
Definition off_exttype_arg : Z := 16.

(** [struct pb_extension_s]: type, dest, next, found. *)
Definition off_ext_type : Z := 0.
Definition off_ext_dest : Z := 8.
Definition off_ext_next : Z := 16.
Definition off_ext_found : Z := 24.

(** ** Streams *)

(** The callback of an input stream: the library's [buf_read], or the
    function of the program at some address. *)
Inductive istream_callback : Type :=
| ICb_buf_read
| ICb_user (fn : Z).

#[export] Instance istream_callback_eq_dec : EqDecision istream_callback.
Proof. solve_decision. Defined.

(** [struct pb_istream_s]. *)
Record pb_istream_t : Type := mkIstream {
  is_callback : istream_callback;
  is_state : Z;
  bytes_left : Z;
  is_errmsg : option string;
}.

(** The callback of an output stream: [NULL] marks a sizing stream. *)
Inductive ostream_callback : Type :=
| OCb_NULL
| OCb_buf_write
| OCb_user (fn : Z).

#[export] Instance ostream_callback_eq_dec : EqDecision ostream_callback.
Proof. solve_decision. Defined.

(** [struct pb_ostream_s]. *)
Record pb_ostream_t : Type := mkOstream {
  os_callback : ostream_callback;
  os_state : Z;
  max_size : Z;
  bytes_written : Z;
  os_errmsg : option string;
}.

Definition PB_OSTREAM_SIZING : pb_ostream_t := mkOstream OCb_NULL 0 0 0 None.

(** [PB_SET_ERROR]: the first message is kept. *)
Definition set_error (e : option string) (msg : string) : option string :=
  match e with Some m => Some m | None => Some msg end.

Definition is_error (s : pb_istream_t) (msg : string) : pb_istream_t :=
  mkIstream (is_callback s) (is_state s) (bytes_left s) (set_error (is_errmsg s) msg).

Definition os_error (s : pb_ostream_t) (msg : string) : pb_ostream_t :=
  mkOstream (os_callback s) (os_state s) (max_size s) (bytes_written s)
            (set_error (os_errmsg s) msg).

(** Field updates of the streams. *)
Definition is_set_state (s : pb_istream_t) (p : Z) : pb_istream_t :=
  mkIstream (is_callback s) p (bytes_left s) (is_errmsg s).
Definition is_set_left (s : pb_istream_t) (n : Z) : pb_istream_t :=
  mkIstream (is_callback s) (is_state s) n (is_errmsg s).
Definition is_set_errmsg (s : pb_istream_t) (e : option string) : pb_istream_t :=
  mkIstream (is_callback s) (is_state s) (bytes_left s) e.
Definition os_set_state (s : pb_ostream_t) (p : Z) : pb_ostream_t :=
  mkOstream (os_callback s) p (max_size s) (bytes_written s) (os_errmsg s).
Definition os_set_written (s : pb_ostream_t) (n : Z) : pb_ostream_t :=
  mkOstream (os_callback s) (os_state s) (max_size s) n (os_errmsg s).

(** ** What the program around the library provides *)

(** The constant descriptor arrays by address, and the functions the program
    installs behind function pointers. A stream callback reads or writes and
    updates the stream's [state], as [pb_decode.h] and [pb_encode.h] require;
    a field or extension callback gets the stream and may do anything to it
    and to the memory. *)
Class Program : Type := {
  field_array : Z -> option (list pb_field_t);
  read_fn : Z -> Z -> Z -> C (bool * list Z * Z);
  write_fn : Z -> Z -> list Z -> C (bool * Z);
  decode_fn : Z -> pb_istream_t -> pb_field_t -> Z -> C (bool * pb_istream_t);
  encode_fn : Z -> pb_ostream_t -> pb_field_t -> Z -> C (bool * pb_ostream_t);
  ext_decode_fn : Z -> pb_istream_t -> Z -> Z -> Z -> C (bool * pb_istream_t);
  ext_encode_fn : Z -> pb_ostream_t -> Z -> C (bool * pb_ostream_t);
}.

(** A program without descriptors and callbacks, and one with descriptors
    only: concrete inputs of the theorems run in them. *)
Definition plain_program (arrays : list (Z * list pb_field_t)) : Program := {|
  field_array a := snd <$> find (fun p => fst p =? a) arrays;
  read_fn _ _ _ := undef;
  write_fn _ _ _ := undef;
  decode_fn _ _ _ _ := undef;
  encode_fn _ _ _ _ := undef;
  ext_decode_fn _ _ _ _ _ := undef;
  ext_encode_fn _ _ _ := undef;
|}.

Definition no_callbacks : Program := plain_program [].
