(* ===== verification/PbCommon.v ===== *)
(** The field iterator of [nanopb/pb_common.c].

    A [pb_field_t *] into a descriptor array is the array and an index; the
    list of an array holds the entries before its [PB_LAST_FIELD], which is
    what the entry past the last one reads as. *)

From stdpp Require Import base list gmap strings.
From Stdlib Require Import ZArith Lia.
From S2P Require Import Prelude CMem PbTypes.

(** [struct pb_field_iter_s]. *)
Record pb_field_iter_t : Type := mkIter {
  it_start : list pb_field_t;
  it_pos : nat;
  required_field_index : Z;
  dest_struct : Z;
  pData : Z;
  pSize : Z;
}.

(** The entry at an index of a terminated array. *)
Definition field_at (fields : list pb_field_t) (i : nat) : pb_field_t :=
  nth i fields PB_LAST_FIELD.

(** [iter->pos], dereferenced. *)
Definition it_field (it : pb_field_iter_t) : pb_field_t := field_at (it_start it) (it_pos it).

Definition it_set_pSize (it : pb_field_iter_t) (a : Z) : pb_field_iter_t :=
  mkIter (it_start it) (it_pos it) (required_field_index it) (dest_struct it) (pData it) a.

Definition pb_field_iter_begin (fields : list pb_field_t) (dest : Z) : bool * pb_field_iter_t :=
  let pos := field_at fields 0 in
  let data := dest + f_data_offset pos in
  (negb (f_tag pos =? 0), mkIter fields 0 0 dest data (data + f_size_offset pos)).

(** The room a field takes in the structure, [prev_size]. *)
Definition field_size (f : pb_field_t) : Z :=
  if (PB_ATYPE (f_type f) =? PB_ATYPE_STATIC) && (PB_HTYPE (f_type f) =? PB_HTYPE_REPEATED)
  then u64 (f_data_size f * f_array_size f)
  else if PB_ATYPE (f_type f) =? PB_ATYPE_POINTER then SIZEOF_PTR
  else f_data_size f.

(** Two members of the same union. *)
Definition same_union (prev cur : pb_field_t) : bool :=
  (PB_HTYPE (f_type prev) =? PB_HTYPE_ONEOF) && (PB_HTYPE (f_type cur) =? PB_HTYPE_ONEOF) &&
  (f_data_offset cur =? PB_SIZE_MAX).

Definition pb_field_iter_next (it : pb_field_iter_t) : bool * pb_field_iter_t :=
  let prev_field := it_field it in
  if f_tag prev_field =? 0 then (false, it)
  else
    let pos := S (it_pos it) in
    let cur := field_at (it_start it) pos in
    if f_tag cur =? 0
    then (false, snd (pb_field_iter_begin (it_start it) (dest_struct it)))
    else if same_union prev_field cur
    then (true, mkIter (it_start it) pos (required_field_index it) (dest_struct it) (pData it) (pSize it))
    else
      let index := if PB_HTYPE (f_type prev_field) =? PB_HTYPE_REQUIRED
                   then u32 (required_field_index it + 1) else required_field_index it in
      let data := pData it + field_size prev_field + f_data_offset cur in
      (true, mkIter (it_start it) pos index (dest_struct it) data (data + f_size_offset cur)).

(** The loop [do { if (found) return true; next } while (iter->pos != start)]
    of the two searches. *)
Fixpoint iter_search (found : pb_field_t -> bool) (fuel : nat) (start : nat)
    (it : pb_field_iter_t) : C (bool * pb_field_iter_t) :=
  match fuel with
  | O => nofuel
  | S fuel' =>
      if found (it_field it) then ret (true, it)
      else
        let it := snd (pb_field_iter_next it) in
        if Nat.eqb (it_pos it) start then ret (false, it)
        else iter_search found fuel' start it
  end.

(** A descriptor array has at most [length] positions before it wraps. *)
Definition iter_fuel (it : pb_field_iter_t) : nat := S (length (it_start it)).

Definition pb_field_iter_find (it : pb_field_iter_t) (tag : Z) : C (bool * pb_field_iter_t) :=
  iter_search (fun f => (f_tag f =? tag) && negb (PB_LTYPE (f_type f) =? PB_LTYPE_EXTENSION))
              (iter_fuel it) (it_pos it) it.

(** [do { body } while (pb_field_iter_next(&iter))], left early when [body]
    answers [false]. The last iterator is part of the result. *)
Fixpoint do_fields {St} (fuel : nat) (body : pb_field_iter_t -> St -> C (bool * St))
    (it : pb_field_iter_t) (st : St) : C (bool * St * pb_field_iter_t) :=
  match fuel with
  | O => nofuel
  | S fuel' =>
      let* ' (ok, st) := body it st in
      if negb ok then ret (false, st, it)
      else match pb_field_iter_next it with
           | (true, it) => do_fields fuel' body it st
           | (false, it) => ret (true, st, it)
           end
  end.
