(* ===== verification/PbIter.v ===== *)
(** The order and the addresses in which the field iterator visits a message
    structure, and what the tag search finds. *)

From stdpp Require Import base list gmap strings.
From Stdlib Require Import ZArith Lia.
From S2P Require Import Prelude CMem PbTypes PbCommon.

(** The entries of a descriptor array are those before its terminator. *)
Definition tags_ok (fields : list pb_field_t) : Prop := Forall (fun f => f_tag f <> 0) fields.

Definition tags_okb (fields : list pb_field_t) : bool := forallb (fun f => negb (f_tag f =? 0)) fields.

Lemma tags_okb_true fields : tags_okb fields = true -> tags_ok fields.
Proof.
  unfold tags_okb, tags_ok. rewrite forallb_forall, Forall_forall.
  intros H f Hf. apply list_elem_of_In, H in Hf. lia.
Qed.

(** The iterator on entry [i], reached by stepping from the beginning. *)
Definition iter_at (fields : list pb_field_t) (dest : Z) (i : nat) : pb_field_iter_t :=
  Nat.iter i (fun it => snd (pb_field_iter_next it)) (snd (pb_field_iter_begin fields dest)).

(** Where the data and the size of entry [i] lie in the structure. *)
Definition data_pos (fields : list pb_field_t) (i : nat) : Z := pData (iter_at fields 0 i).
Definition size_pos (fields : list pb_field_t) (i : nat) : Z := pSize (iter_at fields 0 i).

Section Iter.
Context (fields : list pb_field_t) (dest : Z).
Context (Htags : tags_ok fields).

Lemma field_at_lookup i f : fields !! i = Some f -> field_at fields i = f.
Proof. intros Hi. unfold field_at. by apply nth_lookup_Some. Qed.

Lemma field_at_tag i : (i < length fields)%nat -> f_tag (field_at fields i) <> 0.
Proof.
  intros Hi. destruct (lookup_lt_is_Some_2 _ _ Hi) as [f Hf].
  rewrite (field_at_lookup _ _ Hf). by apply (Forall_lookup_1 _ _ _ _ Htags Hf).
Qed.

Lemma field_at_end : field_at fields (length fields) = PB_LAST_FIELD.
Proof. unfold field_at. by apply nth_overflow. Qed.

Lemma iter_at_S i : iter_at fields dest (S i) = snd (pb_field_iter_next (iter_at fields dest i)).
Proof. done. Qed.

(** The iterator on entry [i]: what does not depend on the offsets. *)
Lemma iter_at_pos i :
  (i < length fields)%nat ->
  it_start (iter_at fields dest i) = fields /\ it_pos (iter_at fields dest i) = i /\
  dest_struct (iter_at fields dest i) = dest.
Proof.
  induction i as [|i IH]; intros Hi; [done|].
  destruct IH as (Hs & Hp & Hd); [lia|]. rewrite iter_at_S. unfold pb_field_iter_next, it_field.
  rewrite Hs, Hp, Hd. pose proof (field_at_tag i ltac:(lia)). pose proof (field_at_tag (S i) Hi).
  destruct (Z.eqb_spec (f_tag (field_at fields i)) 0); [done|].
  destruct (Z.eqb_spec (f_tag (field_at fields (S i))) 0); [done|].
  by destruct (same_union _ _).
Qed.

Lemma iter_at_field i : (i < length fields)%nat -> it_field (iter_at fields dest i) = field_at fields i.
Proof. intros Hi. destruct (iter_at_pos i Hi) as (Hs & Hp & _). unfold it_field. by rewrite Hs, Hp. Qed.

(** The position after entry [i]. *)
Definition next_pos (i : nat) : nat := if decide (S i = length fields) then 0 else S i.

Lemma next_pos_lt i : (i < length fields)%nat -> (next_pos i < length fields)%nat.
Proof. unfold next_pos. case_decide; lia. Qed.

Lemma iter_next_at i :
  (i < length fields)%nat ->
  pb_field_iter_next (iter_at fields dest i) =
  (negb (bool_decide (S i = length fields)), iter_at fields dest (next_pos i)).
Proof.
  intros Hi. destruct (iter_at_pos i Hi) as (Hs & Hp & Hd). unfold next_pos.
  destruct (decide (S i = length fields)) as [E|Hne].
  - rewrite bool_decide_true by done. unfold pb_field_iter_next, it_field. rewrite Hs, Hp, Hd.
    pose proof (field_at_tag i Hi). destruct (Z.eqb_spec (f_tag (field_at fields i)) 0); [done|].
    by rewrite E, field_at_end.
  - rewrite bool_decide_false by done. rewrite iter_at_S. cbn [negb].
    rewrite (surjective_pairing (pb_field_iter_next _)) at 1. f_equal.
    unfold pb_field_iter_next, it_field. rewrite Hs, Hp.
    pose proof (field_at_tag i Hi). pose proof (field_at_tag (S i) ltac:(lia)).
    destruct (Z.eqb_spec (f_tag (field_at fields i)) 0); [done|].
    destruct (Z.eqb_spec (f_tag (field_at fields (S i))) 0); [done|]. by destruct (same_union _ _).
Qed.

(** [it] is on entry [i]; the decoder may have redirected [pSize] of a
    repeated field to its own counter. *)
Definition iter_on (it : pb_field_iter_t) (i : nat) : Prop :=
  (i < length fields)%nat /\
  (it = iter_at fields dest i \/
   PB_HTYPE (f_type (field_at fields i)) = PB_HTYPE_REPEATED /\
   exists a, it = it_set_pSize (iter_at fields dest i) a).

Lemma iter_on_at i : (i < length fields)%nat -> iter_on (iter_at fields dest i) i.
Proof. by split; [|left]. Qed.

Lemma iter_on_pos it i :
  iter_on it i ->
  it_start it = fields /\ it_pos it = i /\ dest_struct it = dest /\
  it_field it = field_at fields i /\ pData it = pData (iter_at fields dest i).
Proof.
  intros [Hi Hon]. destruct (iter_at_pos i Hi) as (Hs & Hp & Hd). pose proof (iter_at_field i Hi).
  destruct Hon as [->|(_ & a & ->)]; [done|]. unfold it_set_pSize, it_field; simpl.
  by rewrite Hs, Hp.
Qed.

Lemma iter_on_next it i :
  iter_on it i ->
  pb_field_iter_next it =
  (negb (bool_decide (S i = length fields)), iter_at fields dest (next_pos i)).
Proof.
  intros Hon. pose proof (iter_on_pos it i Hon) as (Hs & Hp & Hd & Hf & Hdata).
  destruct Hon as [Hi [->|(Hrep & a & ->)]]; [by apply iter_next_at|].
  rewrite <- (iter_next_at i Hi). unfold pb_field_iter_next.
  assert (Hf' : it_field (it_set_pSize (iter_at fields dest i) a) = it_field (iter_at fields dest i)) by done.
  rewrite Hf'. rewrite (iter_at_field i Hi). cbn [it_set_pSize it_start it_pos dest_struct required_field_index pData].
  pose proof (field_at_tag i Hi). destruct (Z.eqb_spec (f_tag (field_at fields i)) 0); [done|].
  case_match; [done|].
  assert (Hu : same_union (field_at fields i) (field_at (it_start (iter_at fields dest i)) (S (it_pos (iter_at fields dest i)))) = false).
  { unfold same_union. by rewrite Hrep. }
  by rewrite Hu.
Qed.

(** Stepping [k] entries round the array. *)
Definition step_pos (i k : nat) : nat := ((i + k) mod length fields)%nat.

Lemma step_pos_0 i : (i < length fields)%nat -> step_pos i 0 = i.
Proof. intros. unfold step_pos. rewrite Nat.add_0_r. by apply Nat.mod_small. Qed.

Lemma step_pos_lt i k : (0 < length fields)%nat -> (step_pos i k < length fields)%nat.
Proof. intros. apply Nat.mod_upper_bound. lia. Qed.

Lemma next_step_pos i k : (0 < length fields)%nat -> next_pos (step_pos i k) = step_pos i (S k).
Proof.
  intros Hn. unfold next_pos, step_pos. rewrite Nat.add_succ_r.
  pose proof (Nat.mod_upper_bound (i + k) (length fields) ltac:(lia)) as Hb.
  pose proof (Nat.div_mod (i + k) (length fields) ltac:(lia)) as Hd.
  case_decide as Hc.
  - apply Nat.mod_unique with (q := S ((i + k) / length fields)%nat); lia.
  - apply Nat.mod_unique with (q := ((i + k) / length fields)%nat); lia.
Qed.

Lemma step_pos_round i k :
  (i < length fields)%nat -> (0 < k <= length fields)%nat ->
  (step_pos i k = i <-> k = length fields).
Proof.
  intros Hi Hk. unfold step_pos. split.
  - intros E. pose proof (Nat.div_mod (i + k) (length fields) ltac:(lia)). rewrite E in *.
    assert (k = length fields * ((i + k) / length fields))%nat as -> by lia.
    destruct ((i + k) / length fields)%nat as [|[|q]] eqn:Eq; [lia|lia|]. nia.
  - intros ->. rewrite <- (Nat.mul_1_l (length fields)) at 1. rewrite Nat.Div0.mod_add.
    by apply Nat.mod_small.
Qed.

(** Every entry is reached. *)
Lemma step_pos_onto i j :
  (i < length fields)%nat -> (j < length fields)%nat ->
  exists k, (k < length fields)%nat /\ step_pos i k = j.
Proof.
  intros Hi Hj. unfold step_pos. destruct (decide (i <= j)%nat).
  - exists (j - i)%nat. split; [lia|]. rewrite Nat.mod_small; lia.
  - exists (length fields - i + j)%nat. split; [lia|].
    replace (i + (length fields - i + j))%nat with (j + 1 * length fields)%nat by lia.
    rewrite Nat.Div0.mod_add. by apply Nat.mod_small.
Qed.

Lemma iter_search_run found i k it fuel m :
  (i < length fields)%nat -> (k < length fields)%nat -> (length fields <= fuel + k)%nat ->
  iter_on it (step_pos i k) ->
  (forall k', (k' < k)%nat -> found (field_at fields (step_pos i k')) = false) ->
  (exists k' it', (k' < length fields)%nat /\ iter_search found fuel i it m = Ret ((true, it'), m) /\
     iter_on it' (step_pos i k') /\
     found (field_at fields (step_pos i k')) = true /\
     (forall k'', (k'' < k')%nat -> found (field_at fields (step_pos i k'')) = false)) \/
  (iter_search found fuel i it m = Ret ((false, iter_at fields dest i), m) /\
     forall j, (j < length fields)%nat -> found (field_at fields j) = false).
Proof.
  revert k it. induction fuel as [|fuel IH]; intros k it Hi Hk Hfuel Hon Hbefore; [lia|].
  cbn [iter_search]. pose proof (iter_on_pos _ _ Hon) as (_ & _ & _ & Hf & _). rewrite Hf.
  destruct (found (field_at fields (step_pos i k))) eqn:Hfound; [left; by exists k, it|].
  rewrite (iter_on_next _ _ Hon). cbn [snd]. rewrite next_step_pos by lia.
  pose proof (step_pos_lt i (S k) ltac:(lia)) as Hlt.
  destruct (iter_at_pos _ Hlt) as (_ & Hp & _). rewrite Hp.
  assert (Hbefore' : forall k', (k' < S k)%nat -> found (field_at fields (step_pos i k')) = false).
  { intros k' Hk'. destruct (decide (k' = k)) as [->|]; [done|]. apply Hbefore. lia. }
  destruct (Nat.eqb_spec (step_pos i (S k)) i) as [E|E].
  - right. rewrite E. split; [done|]. intros j Hj.
    apply (step_pos_round i (S k) Hi ltac:(lia)) in E.
    destruct (step_pos_onto i j Hi Hj) as (k' & ? & <-). apply Hbefore'. lia.
  - destruct (decide (S k = length fields)) as [Eq|Hne].
    { exfalso. apply E, step_pos_round; lia. }
    destruct (IH (S k) (iter_at fields dest (step_pos i (S k))) Hi ltac:(lia) ltac:(lia) (iter_on_at _ Hlt) Hbefore')
      as [(k' & it' & Hres)|Hres]; [left; by exists k', it'|by right].
Qed.

(** The search from entry [i] returns the first match in cyclic order. *)
Lemma iter_search_spec found i it m :
  iter_on it i ->
  (exists k it', (k < length fields)%nat /\
     iter_search found (iter_fuel it) (it_pos it) it m = Ret ((true, it'), m) /\
     iter_on it' (step_pos i k) /\
     found (field_at fields (step_pos i k)) = true /\
     (forall k', (k' < k)%nat -> found (field_at fields (step_pos i k')) = false)) \/
  (iter_search found (iter_fuel it) (it_pos it) it m = Ret ((false, iter_at fields dest i), m) /\
     forall j, (j < length fields)%nat -> found (field_at fields j) = false).
Proof.
  intros Hon. pose proof (iter_on_pos _ _ Hon) as (Hs & Hp & _). unfold iter_fuel. rewrite Hs, Hp.
  assert (Hi : (i < length fields)%nat) by apply Hon.
  apply (iter_search_run found i 0 it (S (length fields)) m Hi ltac:(lia) ltac:(lia)); [|lia].
  by rewrite step_pos_0.
Qed.
End Iter.

(** Without entries: the iterator stays on the terminator. *)
Lemma iter_search_empty found dest m :
  let it := snd (pb_field_iter_begin [] dest) in
  iter_search found (iter_fuel it) (it_pos it) it m =
  Ret ((found PB_LAST_FIELD, it), m).
Proof. simpl. unfold it_field, field_at. simpl. by destruct (found PB_LAST_FIELD). Qed.

(** * Positions do not depend on where the structure lies *)

Lemma iter_at_dest fields dest i : dest_struct (iter_at fields dest i) = dest.
Proof.
  induction i as [|i IH]; [done|]. rewrite iter_at_S. unfold pb_field_iter_next.
  by repeat case_match.
Qed.

Lemma iter_at_shift fields dest i :
  pData (iter_at fields dest i) = dest + data_pos fields i /\
  pSize (iter_at fields dest i) = dest + size_pos fields i /\
  it_start (iter_at fields dest i) = it_start (iter_at fields 0 i) /\
  it_pos (iter_at fields dest i) = it_pos (iter_at fields 0 i) /\
  required_field_index (iter_at fields dest i) = required_field_index (iter_at fields 0 i) /\
  dest_struct (iter_at fields dest i) = dest.
Proof.
  induction i as [|i (Hd & Hz & Hs & Hp & Hr & Hdest)].
  - unfold data_pos, size_pos, iter_at; simpl. repeat split; lia.
  - unfold data_pos, size_pos in *. rewrite !iter_at_S. unfold pb_field_iter_next, it_field.
    rewrite Hs, Hp, Hr, Hdest. rewrite Hd, Hz.
    destruct (f_tag (field_at _ (it_pos (iter_at fields 0 i))) =? 0); [by rewrite ?Hs, ?Hp, ?Hr|].
    destruct (f_tag (field_at _ (S _)) =? 0); [simpl; repeat split; try lia|].
    + rewrite iter_at_dest. lia.
    + rewrite iter_at_dest. lia.
    + destruct (same_union _ _); simpl; repeat split; lia.
Qed.

(** * Properties

    What the field iterator guarantees. *)

(** started by [pb_field_iter_begin], [pb_field_iter_next] visits the
    entries of a descriptor array in order, returns [true] until the last one
    and then [false] with the iterator back on the first. *)
Theorem iter_visits_in_order fields dest i :
  tags_ok fields -> (i < length fields)%nat ->
  let it := iter_at fields dest i in
  it_pos it = i /\ it_start it = fields /\
  pb_field_iter_next it =
    if decide (S i = length fields) then (false, snd (pb_field_iter_begin fields dest))
    else (true, iter_at fields dest (S i)).
Proof.
  intros Ht Hi it. destruct (iter_at_pos fields dest Ht i Hi) as (Hs & Hp & _).
  split; [done|]. split; [done|]. unfold it. rewrite (iter_next_at fields dest Ht i Hi). unfold next_pos.
  destruct (decide (S i = length fields)); [by rewrite bool_decide_true|by rewrite bool_decide_false].
Qed.

(** [pb_field_iter_find] always returns. From any position it answers
    [true] on the first entry, in cyclic order from where it stands, that has
    the tag and is no extension placeholder, with the data pointer that
    stepping from the beginning gives that entry; it answers [false] only when
    no entry has the tag, and then stands where it started. *)
Theorem pb_field_iter_find_first fields dest i it tag m :
  tags_ok fields -> iter_on fields dest it i ->
  let found f := (f_tag f =? tag) && negb (PB_LTYPE (f_type f) =? PB_LTYPE_EXTENSION) in
  (exists k it', (k < length fields)%nat /\
     pb_field_iter_find it tag m = Ret ((true, it'), m) /\
     it_pos it' = step_pos fields i k /\
     pData it' = pData (iter_at fields dest (step_pos fields i k)) /\
     found (field_at fields (step_pos fields i k)) = true /\
     (forall k', (k' < k)%nat -> found (field_at fields (step_pos fields i k')) = false)) \/
  (pb_field_iter_find it tag m = Ret ((false, iter_at fields dest i), m) /\
     forall j, (j < length fields)%nat -> found (field_at fields j) = false).
Proof.
  intros Ht Hon found. unfold pb_field_iter_find.
  destruct (iter_search_spec fields dest Ht found i it m Hon) as [(k & it' & Hk & E & Hon' & Hf & Hb)|[E Hno]].
  - left. exists k, it'. pose proof (iter_on_pos fields dest Ht it' _ Hon') as (_ & Hp & _ & _ & Hd).
    by repeat split.
  - right. by split.
Qed.

(** * Concrete inputs *)

Definition three_fields : list pb_field_t :=
  [mkField 1 (PB_HTYPE_REQUIRED + PB_LTYPE_VARINT) 0 0 4 0 0;
   mkField 5 (PB_HTYPE_REPEATED + PB_LTYPE_UVARINT) 4 (-4) 4 3 0;
   mkField 9 (PB_HTYPE_OPTIONAL + PB_LTYPE_FIXED64) 8 (-8) 8 0 0].

Lemma iter_visits_in_order_witness :
  it_pos (iter_at three_fields 4096 1) = 1%nat /\ it_start (iter_at three_fields 4096 1) = three_fields /\
  pb_field_iter_next (iter_at three_fields 4096 1) = (true, iter_at three_fields 4096 2).
Proof.
  refine (iter_visits_in_order three_fields 4096 1 _ _); [by apply tags_okb_true|simpl; lia].
Defined.

Lemma pb_field_iter_find_first_witness :
  (exists k it', (k < 3)%nat /\
     pb_field_iter_find (iter_at three_fields 4096 1) 1 (mem_of 0 []) = Ret ((true, it'), mem_of 0 []) /\
     it_pos it' = step_pos three_fields 1 k /\
     pData it' = pData (iter_at three_fields 4096 (step_pos three_fields 1 k)) /\
     (f_tag (field_at three_fields (step_pos three_fields 1 k)) =? 1) &&
       negb (PB_LTYPE (f_type (field_at three_fields (step_pos three_fields 1 k))) =? PB_LTYPE_EXTENSION) = true /\
     (forall k', (k' < k)%nat ->
       (f_tag (field_at three_fields (step_pos three_fields 1 k')) =? 1) &&
       negb (PB_LTYPE (f_type (field_at three_fields (step_pos three_fields 1 k'))) =? PB_LTYPE_EXTENSION) = false)) \/
  (pb_field_iter_find (iter_at three_fields 4096 1) 1 (mem_of 0 []) =
     Ret ((false, iter_at three_fields 4096 1), mem_of 0 []) /\
   forall j, (j < 3)%nat ->
     (f_tag (field_at three_fields j) =? 1) &&
     negb (PB_LTYPE (f_type (field_at three_fields j)) =? PB_LTYPE_EXTENSION) = false).
Proof.
  refine (pb_field_iter_find_first three_fields 4096 1 (iter_at three_fields 4096 1) 1 (mem_of 0 []) _ _).
  - by apply tags_okb_true.
  - split; [simpl; lia|by left].
Defined.
