(* ===== verification/PbIstream.v ===== *)
(** Input streams and the wire-level readers of [nanopb/pb_decode.c]. *)

From stdpp Require Import base list gmap strings.
From Stdlib Require Import ZArith Lia.
From S2P Require Import Prelude CMem PbTypes.

Section Istream.
Context `{Program}.

(** Where a read puts its bytes: nowhere ([NULL]), at an address, or in a
    local array of the caller, which is the returned list. *)
Inductive rdest : Type :=
| RNull
| RMem (a : Z)
| RLocal.

Definition buf_read (s : pb_istream_t) (buf : rdest) (count : Z)
  : C (bool * list Z * pb_istream_t) :=
  let source := is_state s in
  let s' := is_set_state s (source + count) in
  match buf with
  | RNull => ret (true, [], s')
  | RMem a => copy_loop (Z.to_nat count) a source ;;; ret (true, [], s')
  | RLocal => let* l := load_bytes (Z.to_nat count) source in ret (true, l, s')
  end.

(** [stream->callback(stream, buf, count)]. *)
Definition call_read (s : pb_istream_t) (buf : rdest) (count : Z)
  : C (bool * list Z * pb_istream_t) :=
  match is_callback s with
  | ICb_buf_read => buf_read s buf count
  | ICb_user fn =>
      let* ' (ok, l, st) := read_fn fn (is_state s) count in
      let l := map (wrap 8) (take (Z.to_nat count) (l ++ repeat 0 (Z.to_nat count))) in
      let s' := is_set_state s st in
      match buf with
      | RMem a => store_bytes a l ;;; ret (ok, [], s')
      | _ => ret (ok, l, s')
      end
  end.

(** The part of [pb_read] after the skipping of input. *)
Definition pb_read_checked (s : pb_istream_t) (buf : rdest) (count : Z)
  : C (bool * list Z * pb_istream_t) :=
  if bytes_left s <? count then ret (false, [], is_error s "end-of-stream")
  else
    let* ' (ok, l, s) := call_read s buf count in
    if negb ok then ret (false, [], is_error s "io error")
    else ret (true, l, is_set_left s (bytes_left s - count)).

(** [while (count > 16) { pb_read(stream, tmp, 16); count -= 16; }] and the
    final read of the remainder. *)
Fixpoint pb_skip_loop (fuel : nat) (s : pb_istream_t) (count : Z)
  : C (bool * list Z * pb_istream_t) :=
  match fuel with
  | O => nofuel
  | S fuel' =>
      if 16 <? count then
        let* ' (ok, _, s) := pb_read_checked s RLocal 16 in
        if negb ok then ret (false, [], s) else pb_skip_loop fuel' s (count - 16)
      else
        let* ' (ok, _, s) := pb_read_checked s RLocal count in ret (ok, [], s)
  end.

Definition pb_read (s : pb_istream_t) (buf : rdest) (count : Z)
  : C (bool * list Z * pb_istream_t) :=
  match buf, is_callback s with
  | RNull, ICb_user _ => pb_skip_loop (S (Z.to_nat (count / 16))) s count
  | _, _ => pb_read_checked s buf count
  end.

Definition pb_readbyte (s : pb_istream_t) : C (bool * Z * pb_istream_t) :=
  if bytes_left s =? 0 then ret (false, 0, is_error s "end-of-stream")
  else
    let* ' (ok, l, s) := call_read s RLocal 1 in
    if negb ok then ret (false, 0, is_error s "io error")
    else ret (true, hd 0 l, is_set_left s (bytes_left s - 1)).

Definition pb_istream_from_buffer (buf bufsize : Z) : pb_istream_t :=
  mkIstream ICb_buf_read buf bufsize None.

(** ** Varints *)

(** The [do ... while (byte & 0x80)] loop of [pb_decode_varint32_eof];
    [bitpos] is a [uint_fast8_t], 8 bits wide on the target. *)
Fixpoint varint32_loop (fuel : nat) (s : pb_istream_t) (bitpos result : Z)
  : C (bool * (Z * Z * Z) * pb_istream_t) :=
  match fuel with
  | O => nofuel
  | S fuel' =>
      let* ' (ok, byte, s) := pb_readbyte s in
      if negb ok then ret (false, (0, 0, 0), s)
      else
        let sign_extension := if bitpos <? 63 then 0xFF else 0x01 in
        if (32 <=? bitpos) && negb (Z.land byte 0x7F =? 0) &&
           ((Z.shiftr result 31 =? 0) || negb (byte =? sign_extension))
        then ret (false, (0, 0, 0), is_error s "varint overflow")
        else
          let result := if 32 <=? bitpos then result
                        else Z.lor result (u32 (Z.shiftl (Z.land byte 0x7F) bitpos)) in
          let bitpos := u8 (bitpos + 7) in
          if truthy (Z.land byte 0x80) then varint32_loop fuel' s bitpos result
          else ret (true, (result, bitpos, byte), s)
  end.

(** [pb_decode_varint32_eof]: success, the value, whether [*eof] was set. *)
Definition pb_decode_varint32_eof (s : pb_istream_t)
  : C (bool * Z * bool * pb_istream_t) :=
  let* ' (ok, byte, s) := pb_readbyte s in
  if negb ok then ret (false, 0, bytes_left s =? 0, s)
  else if Z.land byte 0x80 =? 0 then ret (true, byte, false, s)
  else
    let* ' (ok, (result, bitpos, byte), s) :=
      varint32_loop (S (Z.to_nat (bytes_left s))) s 7 (Z.land byte 0x7F) in
    if negb ok then ret (false, 0, false, s)
    else if (bitpos =? 35) && negb (Z.land byte 0x70 =? 0)
    then ret (false, 0, false, is_error s "varint overflow")
    else ret (true, result, false, s).

Definition pb_decode_varint32 (s : pb_istream_t) : C (bool * Z * pb_istream_t) :=
  let* ' (ok, v, _, s) := pb_decode_varint32_eof s in ret (ok, v, s).

(** The loop of [pb_decode_varint]; [bitpos] reaches 70 after ten bytes. *)
Fixpoint varint_loop (fuel : nat) (s : pb_istream_t) (bitpos result : Z)
  : C (bool * Z * pb_istream_t) :=
  match fuel with
  | O => nofuel
  | S fuel' =>
      if 64 <=? bitpos then ret (false, 0, is_error s "varint overflow")
      else
        let* ' (ok, byte, s) := pb_readbyte s in
        if negb ok then ret (false, 0, s)
        else
          let result := Z.lor result (u64 (Z.shiftl (Z.land byte 0x7F) bitpos)) in
          let bitpos := u8 (bitpos + 7) in
          if truthy (Z.land byte 0x80) then varint_loop fuel' s bitpos result
          else ret (true, result, s)
  end.

Definition pb_decode_varint (s : pb_istream_t) : C (bool * Z * pb_istream_t) :=
  varint_loop 11 s 0 0.

(** [pb_skip_varint]. *)
Fixpoint skip_varint_loop (fuel : nat) (s : pb_istream_t) : C (bool * pb_istream_t) :=
  match fuel with
  | O => nofuel
  | S fuel' =>
      let* ' (ok, l, s) := pb_read s RLocal 1 in
      if negb ok then ret (false, s)
      else if truthy (Z.land (hd 0 l) 0x80) then skip_varint_loop fuel' s
      else ret (true, s)
  end.

Definition pb_skip_varint (s : pb_istream_t) : C (bool * pb_istream_t) :=
  skip_varint_loop (S (Z.to_nat (bytes_left s))) s.

Definition pb_skip_string (s : pb_istream_t) : C (bool * pb_istream_t) :=
  let* ' (ok, length, s) := pb_decode_varint32 s in
  if negb ok then ret (false, s)
  else let* ' (ok, _, s) := pb_read s RNull length in ret (ok, s).

(** [pb_decode_tag]: success, wire type, tag, eof. *)
Definition pb_decode_tag (s : pb_istream_t) : C (bool * Z * Z * bool * pb_istream_t) :=
  let* ' (ok, temp, eof, s) := pb_decode_varint32_eof s in
  if negb ok then ret (false, 0, 0, eof, s)
  else if temp =? 0 then ret (false, 0, 0, true, s)
  else ret (true, Z.land temp 7, Z.shiftr temp 3, false, s).

Definition pb_skip_field (s : pb_istream_t) (wire_type : Z) : C (bool * pb_istream_t) :=
  if wire_type =? PB_WT_VARINT then pb_skip_varint s
  else if wire_type =? PB_WT_64BIT then
    let* ' (ok, _, s) := pb_read s RNull 8 in ret (ok, s)
  else if wire_type =? PB_WT_STRING then pb_skip_string s
  else if wire_type =? PB_WT_32BIT then
    let* ' (ok, _, s) := pb_read s RNull 4 in ret (ok, s)
  else ret (false, is_error s "invalid wire_type").

(** The varint case of [read_raw_value]: [size] counts the bytes read so
    far, [max_size] is the room in [buf]. *)
Fixpoint read_raw_varint (fuel : nat) (s : pb_istream_t) (buf size max_size : Z)
  : C (bool * Z * pb_istream_t) :=
  match fuel with
  | O => nofuel
  | S fuel' =>
      let size := size + 1 in
      if max_size <? size then ret (false, size, s)
      else
        let* ' (ok, _, s) := pb_read s (RMem buf) 1 in
        if negb ok then ret (false, size, s)
        else
          let* b := load8 buf in
          if truthy (Z.land b 0x80) then read_raw_varint fuel' s (buf + 1) size max_size
          else ret (true, size, s)
  end.

(** [read_raw_value]: the value goes to the array at [buf], whose size is
    [size]; returns success and the size of the value. *)
Definition read_raw_value (s : pb_istream_t) (wire_type buf size : Z)
  : C (bool * Z * pb_istream_t) :=
  if wire_type =? PB_WT_VARINT then
    read_raw_varint (S (Z.to_nat size)) s buf 0 size
  else if wire_type =? PB_WT_64BIT then
    let* ' (ok, _, s) := pb_read s (RMem buf) 8 in ret (ok, 8, s)
  else if wire_type =? PB_WT_32BIT then
    let* ' (ok, _, s) := pb_read s (RMem buf) 4 in ret (ok, 4, s)
  else ret (false, size, is_error s "invalid wire_type").

(** ** Substreams *)

(** [pb_make_string_substream]: success, the parent, the substream. *)
Definition pb_make_string_substream (s : pb_istream_t)
  : C (bool * pb_istream_t * pb_istream_t) :=
  let* ' (ok, size, s) := pb_decode_varint32 s in
  if negb ok then ret (false, s, s)
  else
    let substream := s in
    if bytes_left substream <? size
    then ret (false, is_error s "parent stream too short", substream)
    else ret (true, is_set_left s (bytes_left s - size), is_set_left substream size).

(** [pb_close_string_substream]: success and the parent. *)
Definition pb_close_string_substream (s substream : pb_istream_t)
  : C (bool * pb_istream_t) :=
  let* ' (ok, substream) :=
    if bytes_left substream =? 0 then ret (true, substream)
    else let* ' (ok, _, sub) := pb_read substream RNull (bytes_left substream) in
         ret (ok, sub) in
  if negb ok then ret (false, s)
  else ret (true, is_set_errmsg (is_set_state s (is_state substream)) (is_errmsg substream)).

(** ** Fixed-size values and zig-zag *)

Definition pb_decode_svarint (s : pb_istream_t) : C (bool * Z * pb_istream_t) :=
  let* ' (ok, value, s) := pb_decode_varint s in
  if negb ok then ret (false, 0, s)
  else
    let dest := if truthy (Z.land value 1)
                then sext 64 (Z.lnot (Z.shiftr value 1))
                else sext 64 (Z.shiftr value 1) in
    ret (true, dest, s).

Definition byte_nth (l : list Z) (i : nat) : Z := nth i l 0.

Definition pb_decode_fixed32 (s : pb_istream_t) (dest : Z) : C (bool * pb_istream_t) :=
  let* ' (ok, bytes, s) := pb_read s RLocal 4 in
  if negb ok then ret (false, s)
  else
    let b i := byte_nth bytes i in
    store_le 4 dest
      (Z.lor (Z.lor (Z.lor (Z.shiftl (b 0%nat) 0) (Z.shiftl (b 1%nat) 8))
                    (Z.shiftl (b 2%nat) 16))
             (Z.shiftl (b 3%nat) 24)) ;;;
    ret (true, s).

Definition pb_decode_fixed64 (s : pb_istream_t) (dest : Z) : C (bool * pb_istream_t) :=
  let* ' (ok, bytes, s) := pb_read s RLocal 8 in
  if negb ok then ret (false, s)
  else
    let b i := byte_nth bytes i in
    store_le 8 dest
      (Z.lor (Z.lor (Z.lor (Z.lor (Z.lor (Z.lor (Z.lor
         (Z.shiftl (b 0%nat) 0) (Z.shiftl (b 1%nat) 8))
         (Z.shiftl (b 2%nat) 16)) (Z.shiftl (b 3%nat) 24))
         (Z.shiftl (b 4%nat) 32)) (Z.shiftl (b 5%nat) 40))
         (Z.shiftl (b 6%nat) 48)) (Z.shiftl (b 7%nat) 56)) ;;;
    ret (true, s).
End Istream.
