(* ===== verification/PbOstream.v ===== *)
(** Output streams and the wire-level writers of [nanopb/pb_encode.c]. *)

From stdpp Require Import base list gmap strings.
From Stdlib Require Import ZArith Lia.
From S2P Require Import Prelude CMem PbTypes.

(** Where a write takes its bytes: a local array of the caller, or memory. *)
Inductive wsrc : Type :=
| WLocal (l : list Z)
| WMem (a : Z).

(** The varint of a value, [while (value) { buffer[i] = (value & 0x7F) | 0x80;
    value >>= 7; i++; }]. Ten bytes hold every 64-bit value. *)
Fixpoint varint_buffer (fuel : nat) (value : Z) : list Z :=
  match fuel with
  | O => []
  | S fuel' =>
      if value =? 0 then []
      else u8 (Z.lor (Z.land value 0x7F) 0x80) :: varint_buffer fuel' (Z.shiftr value 7)
  end.

(** [buffer[i-1] &= 0x7F]. *)
Definition clear_last (l : list Z) : list Z :=
  match rev l with
  | [] => []
  | b :: r => rev (Z.land b 0x7F :: r)
  end.

Section Ostream.
Context `{Program}.

Definition buf_write (s : pb_ostream_t) (buf : wsrc) (count : Z) : C (bool * pb_ostream_t) :=
  let dest := os_state s in
  let s' := os_set_state s (dest + count) in
  match buf with
  | WLocal l => store_bytes dest (take (Z.to_nat count) l) ;;; ret (true, s')
  | WMem a => copy_loop (Z.to_nat count) dest a ;;; ret (true, s')
  end.

Definition pb_ostream_from_buffer (buf bufsize : Z) : pb_ostream_t :=
  mkOstream OCb_buf_write buf bufsize 0 None.

(** [stream->callback(stream, buf, count)] for a callback that is not NULL. *)
Definition call_write (s : pb_ostream_t) (buf : wsrc) (count : Z) : C (bool * pb_ostream_t) :=
  match os_callback s with
  | OCb_NULL => undef
  | OCb_buf_write => buf_write s buf count
  | OCb_user fn =>
      let* l := match buf with
                | WLocal l => ret (take (Z.to_nat count) l)
                | WMem a => load_bytes (Z.to_nat count) a
                end in
      let* ' (ok, st) := write_fn fn (os_state s) l in
      ret (ok, os_set_state s st)
  end.

Definition pb_write (s : pb_ostream_t) (buf : wsrc) (count : Z) : C (bool * pb_ostream_t) :=
  match os_callback s with
  | OCb_NULL => ret (true, os_set_written s (u64 (bytes_written s + count)))
  | _ =>
      if max_size s <? u64 (bytes_written s + count)
      then ret (false, os_error s "stream full")
      else
        let* ' (ok, s) := call_write s buf count in
        if negb ok then ret (false, os_error s "io error")
        else ret (true, os_set_written s (u64 (bytes_written s + count)))
  end.

Definition pb_encode_varint (s : pb_ostream_t) (value : Z) : C (bool * pb_ostream_t) :=
  if value <=? 0x7F then pb_write s (WLocal [u8 value]) 1
  else
    let buffer := clear_last (varint_buffer 10 value) in
    pb_write s (WLocal buffer) (Z.of_nat (length buffer)).

(** The zig-zag mapping of [pb_encode_svarint]. *)
Definition zigzag (value : Z) : Z :=
  if value <? 0 then u64 (Z.lnot (u64 (Z.shiftl (u64 value) 1)))
  else u64 (Z.shiftl (u64 value) 1).

Definition pb_encode_svarint (s : pb_ostream_t) (value : Z) : C (bool * pb_ostream_t) :=
  pb_encode_varint s (zigzag value).

(** The byte of [val] at bit [k], [(pb_byte_t)((val >> k) & 0xFF)]. *)
Definition byte_of (val k : Z) : Z := u8 (Z.land (Z.shiftr val k) 0xFF).

Definition pb_encode_fixed32 (s : pb_ostream_t) (value : Z) : C (bool * pb_ostream_t) :=
  let* val := load_le 4 value in
  pb_write s (WLocal [byte_of val 0; byte_of val 8; byte_of val 16; byte_of val 24]) 4.

Definition pb_encode_fixed64 (s : pb_ostream_t) (value : Z) : C (bool * pb_ostream_t) :=
  let* val := load_le 8 value in
  pb_write s (WLocal [byte_of val 0; byte_of val 8; byte_of val 16; byte_of val 24;
                      byte_of val 32; byte_of val 40; byte_of val 48; byte_of val 56]) 8.

Definition pb_encode_tag (s : pb_ostream_t) (wiretype field_number : Z)
  : C (bool * pb_ostream_t) :=
  let tag := Z.lor (u64 (Z.shiftl field_number 3)) wiretype in
  pb_encode_varint s tag.

(** The wire type of a field type, [None] for the default branch. *)
Definition wire_type_of (ltype : Z) : option Z :=
  if (ltype =? PB_LTYPE_VARINT) || (ltype =? PB_LTYPE_UVARINT) || (ltype =? PB_LTYPE_SVARINT)
  then Some PB_WT_VARINT
  else if ltype =? PB_LTYPE_FIXED32 then Some PB_WT_32BIT
  else if ltype =? PB_LTYPE_FIXED64 then Some PB_WT_64BIT
  else if (ltype =? PB_LTYPE_BYTES) || (ltype =? PB_LTYPE_STRING) ||
          (ltype =? PB_LTYPE_SUBMESSAGE) || (ltype =? PB_LTYPE_FIXED_LENGTH_BYTES)
  then Some PB_WT_STRING
  else None.

Definition pb_encode_tag_for_field (s : pb_ostream_t) (field : pb_field_t)
  : C (bool * pb_ostream_t) :=
  match wire_type_of (PB_LTYPE (f_type field)) with
  | Some wiretype => pb_encode_tag s wiretype (f_tag field)
  | None => ret (false, os_error s "invalid field type")
  end.

Definition pb_encode_string (s : pb_ostream_t) (buffer : wsrc) (size : Z)
  : C (bool * pb_ostream_t) :=
  let* ' (ok, s) := pb_encode_varint s (u64 size) in
  if negb ok then ret (false, s) else pb_write s buffer size.
End Ostream.
