(* ===== verification/PbWire.v ===== *)
(** The wire format: reference encodings and the readers and writers against
    them. *)

From stdpp Require Import base list gmap strings.
From Stdlib Require Import ZArith Lia.
From S2P Require Import Prelude CMem PbTypes PbIstream PbOstream.

(** * Streams over known bytes *)

(** The stream [s] reads from memory and exactly the bytes [l] are left. *)
Record stream_over (m : mem) (s : pb_istream_t) (l : list Z) : Prop := {
  so_callback : is_callback s = ICb_buf_read;
  so_left : bytes_left s = Z.of_nat (length l);
  so_bytes : bytes_at m (is_state s) l;
  so_range : Forall is_byte l;
}.

(** The stream after reading [k] bytes. *)
Definition advance (s : pb_istream_t) (k : Z) : pb_istream_t :=
  mkIstream (is_callback s) (is_state s + k) (bytes_left s - k) (is_errmsg s).

(** The stream after writing [k] bytes. *)
Definition os_advance (s : pb_ostream_t) (k : Z) : pb_ostream_t :=
  mkOstream (os_callback s) (os_state s + k) (max_size s) (bytes_written s + k) (os_errmsg s).

Section Streams.
Context `{Program}.

Lemma advance_0 s : advance s 0 = s.
Proof. destruct s; unfold advance; simpl. f_equal; lia. Qed.

Lemma advance_advance s a b : advance (advance s a) b = advance s (a + b).
Proof. destruct s; unfold advance; simpl. f_equal; lia. Qed.

Lemma advance_error s e k : advance (is_error s e) k = is_error (advance s k) e.
Proof. done. Qed.

Lemma stream_over_advance m s l1 l2 :
  stream_over m s (l1 ++ l2) -> stream_over m (advance s (Z.of_nat (length l1))) l2.
Proof.
  intros [Hc Hl Hb Hr]. apply bytes_at_app in Hb as [_ Hb]. apply Forall_app in Hr as [_ Hr].
  split; simpl; auto. rewrite Hl, length_app. lia.
Qed.

Lemma stream_over_cons m s b l :
  stream_over m s (b :: l) -> is_byte b /\ stream_over m (advance s 1) l.
Proof.
  intros Hs. split; [by apply so_range, Forall_cons_1 in Hs as [? _]|].
  by apply (stream_over_advance m s [b] l).
Qed.

Lemma readbyte_nil m s :
  stream_over m s [] -> pb_readbyte s m = Ret ((false, 0, is_error s "end-of-stream"), m).
Proof. intros [? Hl ? ?]. unfold pb_readbyte. by rewrite Hl. Qed.

Lemma readbyte_cons m s b l :
  stream_over m s (b :: l) -> pb_readbyte s m = Ret ((true, b, advance s 1), m).
Proof.
  intros Hs. destruct (stream_over_cons _ _ _ _ Hs) as [Hb _]. destruct Hs as [Hc Hl Hm _].
  unfold pb_readbyte, call_read, buf_read. rewrite Hl, Hc.
  destruct (Z.eqb_spec (Z.of_nat (length (b :: l))) 0); [simpl in *; lia|].
  apply bytes_at_cons in Hm as [Hm _].
  change (Z.to_nat 1) with 1%nat. cbn [load_bytes]. unfold bind.
  rewrite (load8_at _ _ _ Hm Hb). unfold ret, advance, is_set_left, is_set_state; simpl.
  by rewrite Hl, Hc.
Qed.

(** A checked read of all of [l1] from a stream that starts with it. *)
Lemma read_local m s l1 l2 :
  stream_over m s (l1 ++ l2) ->
  pb_read s RLocal (Z.of_nat (length l1)) m =
  Ret ((true, l1, advance s (Z.of_nat (length l1))), m).
Proof.
  intros [Hc Hl Hm Hr]. unfold pb_read, pb_read_checked, call_read, buf_read.
  rewrite Hl, length_app, Hc.
  destruct (Z.ltb_spec (Z.of_nat (length l1 + length l2)) (Z.of_nat (length l1))); [lia|].
  apply bytes_at_app in Hm as [Hm _]. apply Forall_app in Hr as [Hr _].
  rewrite Nat2Z.id. unfold bind. rewrite load_bytes_at by done.
  unfold ret, advance, is_set_left, is_set_state; simpl. do 3 f_equal.
Qed.

Lemma read_null m s l1 l2 :
  stream_over m s (l1 ++ l2) ->
  pb_read s RNull (Z.of_nat (length l1)) m =
  Ret ((true, [], advance s (Z.of_nat (length l1))), m).
Proof.
  intros [Hc Hl Hm Hr]. unfold pb_read, pb_read_checked, call_read, buf_read.
  rewrite Hl, length_app, Hc.
  destruct (Z.ltb_spec (Z.of_nat (length l1 + length l2)) (Z.of_nat (length l1))); [lia|].
  unfold bind, ret, advance, is_set_left, is_set_state; simpl.
  by rewrite Hl, length_app, Hc.
Qed.
End Streams.

(** * Varint readers *)

Section Varint.
Context `{Program}.

Lemma varint_loop_spec m n k s l res :
  (k + n = 10)%nat -> stream_over m s l ->
  ((k <= 9)%nat -> 0 <= res < 2 ^ (7 * Z.of_nat k)) ->
  varint_loop (S n) s (7 * Z.of_nat k) res m =
  match varint_scan n l with
  | Some p => Ret ((true, u64 (res + 2 ^ (7 * Z.of_nat k) * varint_val p),
                    advance s (Z.of_nat (length p))), m)
  | None => Ret ((false, 0, is_error (advance s (Z.of_nat (n `min` length l)))
                   (if decide (n <= length l)%nat then "varint overflow" else "end-of-stream")), m)
  end.
Proof.
  revert k s l res. induction n as [|n IH]; intros k s l res Hk Hs Hres.
  - cbn [varint_loop varint_scan]. replace (64 <=? 7 * Z.of_nat k) with true by lia.
    rewrite advance_0. done.
  - specialize (Hres ltac:(lia)). remember (S n) as n' eqn:En.
    cbn [varint_loop]. replace (64 <=? 7 * Z.of_nat k) with false by lia.
    destruct l as [|b l]; unfold bind at 1.
    + rewrite readbyte_nil by done. subst n'. simpl. rewrite advance_0. done.
    + rewrite (readbyte_cons _ _ _ _ Hs). cbn [negb].
      destruct (stream_over_cons _ _ _ _ Hs) as [Hb Hs'].
      rewrite land_7f, land_80 by done. rewrite lor_wrap_shiftl by lia.
      rewrite (wrap_small 8) by lia.
      replace (7 * Z.of_nat k + 7) with (7 * Z.of_nat (S k)) by lia.
      assert (Hpow : 2 ^ (7 * Z.of_nat (S k)) = 128 * 2 ^ (7 * Z.of_nat k)).
      { replace (7 * Z.of_nat (S k)) with (7 + 7 * Z.of_nat k) by lia.
        by rewrite Z.pow_add_r by lia. }
      pose proof (Z.mod_pos_bound b 128 ltac:(lia)) as Hmod.
      subst n'. cbn [varint_scan].
      destruct (Z.ltb_spec b 128); destruct (Z.leb_spec 128 b); try lia.
      * unfold ret. cbn [length varint_val]. do 5 f_equal. ring.
      * rewrite (IH (S k) (advance s 1) l); [|lia|done|].
        -- destruct (varint_scan n l) as [p|]; cbn [fmap option_fmap option_map length varint_val].
           ++ rewrite advance_advance, wrap_add_idemp_l, Hpow.
              do 3 f_equal; [f_equal; f_equal; ring | f_equal; lia].
           ++ rewrite advance_advance. do 4 f_equal; [f_equal; lia|].
              repeat case_decide; done || lia.
        -- intros. rewrite wrap_small.
           ++ rewrite Hpow. nia.
           ++ assert (2 ^ (7 * Z.of_nat (S k)) <= 2 ^ 64) by (apply Z.pow_le_mono_r; lia).
              rewrite Hpow in *. nia.
Qed.
End Varint.

(** * Varint writers *)

Lemma clear_last_cons x l : l <> [] -> clear_last (x :: l) = x :: clear_last l.
Proof.
  intros Hl. unfold clear_last. simpl. destruct (rev l) as [|b r] eqn:E.
  - apply (f_equal (@rev Z)) in E. rewrite rev_involutive in E. done.
  - simpl. rewrite rev_app_distr. done.
Qed.

Lemma varint_buffer_0 n : varint_buffer n 0 = [].
Proof. by destruct n. Qed.

Lemma varint_buffer_enc n v :
  0 < v < 2 ^ (7 * Z.of_nat n) -> clear_last (varint_buffer n v) = varint_enc n v.
Proof.
  revert v. induction n as [|n IH]; intros v Hv; [simpl in *; lia|].
  rewrite pow_7_succ in Hv. cbn [varint_buffer varint_enc].
  destruct (Z.eqb_spec v 0); [lia|]. rewrite group_byte, Z.shiftr_div_pow2 by lia.
  change (2 ^ 7) with 128. destruct (Z.ltb_spec v 128) as [Hlt|Hge].
  - rewrite Z.div_small, varint_buffer_0 by lia. unfold clear_last; simpl.
    by rewrite land_7f, group_mod, Z.mod_small by lia.
  - assert (0 < v / 128) by (apply Z.div_str_pos; lia).
    assert (v / 128 < 2 ^ (7 * Z.of_nat n)) by (apply Z.div_lt_upper_bound; lia).
    rewrite clear_last_cons; [rewrite IH by lia; done|].
    destruct n; simpl; [simpl in *; lia|]. destruct (Z.eqb_spec (v / 128) 0); [lia|done].
Qed.

Section VarintWrite.
Context `{Program}.

(** The writer hands [pb_write] the canonical varint, whatever the stream. *)
Lemma pb_encode_varint_write s v :
  0 <= v < 2 ^ 64 ->
  pb_encode_varint s v = pb_write s (WLocal (varint v)) (Z.of_nat (length (varint v))).
Proof.
  intros Hv. unfold pb_encode_varint, varint. destruct (Z.leb_spec v 0x7F).
  - cbn [varint_enc]. destruct (Z.ltb_spec v 128); [|lia]. by rewrite wrap_small by lia.
  - rewrite varint_buffer_enc; [done|]. split; [lia|]. simpl. lia.
Qed.

End VarintWrite.

(** * Writing to a buffer *)

(** [s] writes to memory and has room for [n] more bytes. *)
Record os_room (m : mem) (s : pb_ostream_t) (n : Z) : Prop := {
  room_callback : os_callback s = OCb_buf_write;
  room_written : 0 <= bytes_written s;
  room_size : bytes_written s + n <= max_size s < 2 ^ 64;
  room_mapped : mapped_range m (os_state s) n;
}.

Lemma os_room_le m s n n' : os_room m s n -> n' <= n -> os_room m s n'.
Proof.
  intros [? ? ? Hm] Hn. split; [done|done|lia|]. eapply mapped_range_sub; [exact Hm|lia..].
Qed.

Section BufferWrite.
Context `{Program}.

Lemma pb_write_room m s l :
  os_room m s (Z.of_nat (length l)) ->
  pb_write s (WLocal l) (Z.of_nat (length l)) m =
  Ret ((true, os_advance s (Z.of_nat (length l))), poke m (os_state s) l).
Proof.
  intros [Hc Hw Hs Hm]. unfold pb_write, call_write. rewrite Hc.
  rewrite wrap_small by lia.
  destruct (Z.ltb_spec (max_size s) (bytes_written s + Z.of_nat (length l))); [lia|].
  unfold buf_write. rewrite Nat2Z.id, take_ge by lia. unfold bind.
  rewrite store_bytes_run by done. unfold ret, os_advance, os_set_written, os_set_state; simpl.
  rewrite Hc, wrap_small by lia. done.
Qed.

(** No room: the write fails and changes nothing. *)
Lemma pb_write_full m s buf n :
  os_callback s = OCb_buf_write -> 0 <= bytes_written s -> 0 <= n ->
  max_size s < bytes_written s + n < 2 ^ 64 ->
  pb_write s buf n m = Ret ((false, os_error s "stream full"), m).
Proof.
  intros Hc ? ? ?. unfold pb_write. rewrite Hc, wrap_small by lia.
  by destruct (Z.ltb_spec (max_size s) (bytes_written s + n)); [|lia].
Qed.

Lemma pb_write_sizing m s buf n :
  os_callback s = OCb_NULL ->
  pb_write s buf n m = Ret ((true, os_set_written s (u64 (bytes_written s + n))), m).
Proof. intros Hc. unfold pb_write. by rewrite Hc. Qed.

(** What is read back after a write. *)
Lemma poke_stream m a l :
  Forall is_byte l ->
  stream_over (poke m a l) (pb_istream_from_buffer a (Z.of_nat (length l))) l.
Proof. intros Hl. split; [done|done| |done]. by apply put_bytes_at. Qed.
End BufferWrite.

(** * Reading varints *)

Section VarintRead.
Context `{Program}.

Lemma decode_varint_run m s l :
  stream_over m s l ->
  pb_decode_varint s m =
  match varint_scan 10 l with
  | Some p => Ret ((true, u64 (varint_val p), advance s (Z.of_nat (length p))), m)
  | None => Ret ((false, 0, is_error (advance s (Z.of_nat (10 `min` length l)))
              (if decide (10 <= length l)%nat then "varint overflow" else "end-of-stream")), m)
  end.
Proof.
  intros Hs. unfold pb_decode_varint.
  pose proof (varint_loop_spec m 10 0 s l 0 eq_refl Hs) as E.
  change (7 * Z.of_nat 0) with 0 in E. rewrite E by (simpl; lia).
  destruct (varint_scan 10 l) as [p|]; [|done].
  by rewrite Z.pow_0_r, Z.add_0_l, Z.mul_1_l.
Qed.

Lemma decode_varint_app m s v l :
  0 <= v < 2 ^ 64 -> stream_over m s (varint v ++ l) ->
  pb_decode_varint s m = Ret ((true, v, advance s (Z.of_nat (length (varint v)))), m).
Proof.
  intros Hv Hs. rewrite (decode_varint_run _ _ _ Hs), varint_scan_app by done.
  rewrite varint_val_varint, wrap_small by done. done.
Qed.
End VarintRead.

(** * 32-bit varints *)

(** The last group of a five-byte varint below 2^32 has no high bits. *)
Lemma varint_last_small q b r :
  length q = 4%nat -> 0 <= r -> r + 128 * varint_val q < 2 ^ 32 -> last q = Some b ->
  Forall is_byte q -> Z.land b 0x70 = 0.
Proof.
  intros Hl Hr Hv Hb Hq. destruct q as [|x1 [|x2 [|x3 [|x4 [|]]]]]; try done.
  rewrite !Forall_cons in Hq. destruct Hq as (_ & _ & _ & Hb4 & _).
  cbn in Hb, Hv. injection Hb as ->.
  pose proof (Z.mod_pos_bound x1 128). pose proof (Z.mod_pos_bound x2 128).
  pose proof (Z.mod_pos_bound x3 128).
  assert (Hsmall : (b mod 128 <? 16) = true) by lia.
  pose proof (byte_forall (fun b => negb (b mod 128 <? 16) || (Z.land b 0x70 =? 0)) b) as HP.
  cbv beta in HP. rewrite Hsmall in HP. apply Z.eqb_eq, HP; [by vm_compute|done].
Qed.

Section Varint32.
Context `{Program}.

(** One iteration of the loop, for a position that does not wrap. *)
Lemma varint32_step m fuel k s b l res :
  (k <= 34)%nat -> stream_over m s (b :: l) ->
  (7 * Z.of_nat k < 32 -> 0 <= res < 2 ^ (7 * Z.of_nat k)) ->
  let overflow := (32 <=? 7 * Z.of_nat k) && negb (b mod 128 =? 0) &&
        ((Z.shiftr res 31 =? 0) || negb (b =? (if 7 * Z.of_nat k <? 63 then 0xFF else 0x01))) in
  let res' := if 32 <=? 7 * Z.of_nat k then res
              else u32 (res + b mod 128 * 2 ^ (7 * Z.of_nat k)) in
  varint32_loop (S fuel) s (7 * Z.of_nat k) res m =
  if overflow then Ret ((false, (0, 0, 0), is_error (advance s 1) "varint overflow"), m)
  else if 128 <=? b then varint32_loop fuel (advance s 1) (7 * Z.of_nat (S k)) res' m
  else Ret ((true, (res', 7 * Z.of_nat (S k), b), advance s 1), m).
Proof.
  intros Hk Hs Hres. destruct (stream_over_cons _ _ _ _ Hs) as [Hb _].
  cbn [varint32_loop]. unfold bind at 1. rewrite (readbyte_cons _ _ _ _ Hs). cbn [negb].
  rewrite land_7f, land_80 by done. rewrite (wrap_small 8) by lia.
  replace (7 * Z.of_nat k + 7) with (7 * Z.of_nat (S k)) by lia.
  destruct (_ && _); [done|].
  destruct (Z.leb_spec 32 (7 * Z.of_nat k)).
  - by destruct (128 <=? b).
  - rewrite lor_wrap_shiftl by lia. by destruct (128 <=? b).
Qed.

Lemma varint32_loop_spec m n k fuel s l res p :
  (1 <= k)%nat -> (k + n = 10)%nat -> stream_over m s l -> (length l < fuel)%nat ->
  0 <= res < 2 ^ 32 -> (7 * Z.of_nat k < 32 -> 0 <= res < 2 ^ (7 * Z.of_nat k)) ->
  varint_scan n l = Some p ->
  exists ok r bp b s',
    varint32_loop fuel s (7 * Z.of_nat k) res m = Ret ((ok, (r, bp, b), s'), m) /\
    ((k + length p <= 5)%nat -> ok = true) /\
    (ok = true -> r = u32 (res + 2 ^ (7 * Z.of_nat k) * varint_val p) /\
                  bp = 7 * Z.of_nat (k + length p) /\
                  s' = advance s (Z.of_nat (length p)) /\ last p = Some b).
Proof.
  revert k fuel s l res p.
  induction n as [|n IH]; intros k fuel s l res p Hk1 Hk Hs Hf Hr32 Hres Hp; [done|].
  destruct l as [|b l]; [done|]. destruct fuel as [|fuel]; [simpl in Hf; lia|].
  destruct (stream_over_cons _ _ _ _ Hs) as [Hb Hs'].
  pose proof (varint32_step m fuel k s b l res ltac:(lia) Hs Hres) as E. cbv zeta in E. rewrite E. clear E.
  pose proof (Z.mod_pos_bound b 128 ltac:(lia)) as Hmod.
  assert (Hpow := pow_7_succ k).
  (* the value of the group does not matter above bit 32 *)
  assert (Hgroup : forall v, u32 ((if 32 <=? 7 * Z.of_nat k then res
                                   else u32 (res + b mod 128 * 2 ^ (7 * Z.of_nat k))) +
                                  2 ^ (7 * Z.of_nat (S k)) * v) =
                             u32 (res + 2 ^ (7 * Z.of_nat k) * (b mod 128 + 128 * v))).
  { intros v. destruct (Z.leb_spec 32 (7 * Z.of_nat k)) as [Hge|Hlt].
    - replace (2 ^ (7 * Z.of_nat (S k))) with (2 ^ (7 * Z.of_nat (S k) - 32) * 2 ^ 32)
        by (rewrite <- Z.pow_add_r by lia; f_equal; lia).
      replace (2 ^ (7 * Z.of_nat k)) with (2 ^ (7 * Z.of_nat k - 32) * 2 ^ 32)
        by (rewrite <- Z.pow_add_r by lia; f_equal; lia).
      unfold wrap. rewrite <- (Z.mod_add (res + _) (2 ^ (7 * Z.of_nat k - 32) * (b mod 128 + 128 * v) - 2 ^ (7 * Z.of_nat (S k) - 32) * v) (2 ^ 32)) by done.
      f_equal. ring.
    - rewrite wrap_add_idemp_l, Hpow. f_equal. ring. }
  cbn [varint_scan] in Hp. destruct (_ && _) eqn:Hov.
  { eexists _, _, _, _, _. split; [done|]. split; [|done]. intros Hle. exfalso.
    apply andb_true_iff in Hov as [Hov _]. apply andb_true_iff in Hov as [Hov _].
    apply Z.leb_le in Hov. apply (varint_scan_inv (S n) (b :: l)) in Hp as (_ & _ & ?). lia. }
  destruct (Z.ltb_spec b 128); destruct (Z.leb_spec 128 b); try lia.
  - simplify_eq. eexists _, _, _, _, _. split; [done|]. split; [done|]. intros _.
    specialize (Hgroup 0). rewrite Z.mul_0_r, Z.add_0_r in Hgroup.
    cbn [varint_val length last]. rewrite <- Hgroup. split_and!; [|f_equal; lia|done|done].
    destruct (32 <=? 7 * Z.of_nat k); [by rewrite wrap_small by lia|by rewrite wrap_wrap by lia].
  - destruct (varint_scan n l) as [q|] eqn:Hq; [|done].
    cbn [fmap option_fmap option_map] in Hp. injection Hp as <-. cbn [length varint_val] in *.
    edestruct (IH (S k) fuel (advance s 1) l) as (ok & r & bp & b' & s' & -> & Hok & HQ);
      [lia|lia|done|lia| | |done|].
    + destruct (_ <=? _); [lia|]. apply wrap_range. lia.
    + intros Hlt. destruct (Z.leb_spec 32 (7 * Z.of_nat k)); [lia|].
      rewrite Hpow, wrap_small; [nia|].
      assert (2 ^ (7 * Z.of_nat (S k)) <= 2 ^ 32) by (apply Z.pow_le_mono_r; lia).
      rewrite Hpow in *. nia.
    + eexists _, _, _, _, _. split; [done|]. split; [intros; apply Hok; lia|].
      intros ->. destruct (HQ eq_refl) as (-> & -> & -> & Hlast). rewrite advance_advance.
      split_and!; [apply Hgroup|lia|f_equal; lia|].
      by destruct q; [|rewrite last_cons_cons].
Qed.
Lemma decode_varint32_eof_run m s l p :
  stream_over m s l -> varint_scan 10 l = Some p ->
  exists ok v s', pb_decode_varint32_eof s m = Ret ((ok, v, false, s'), m) /\
    ((length p <= 4)%nat \/ (length p = 5%nat /\ varint_val p < 2 ^ 32) -> ok = true) /\
    (ok = true -> v = u32 (varint_val p) /\ s' = advance s (Z.of_nat (length p))).
Proof.
  intros Hs Hp. destruct l as [|b l]; [done|].
  destruct (stream_over_cons _ _ _ _ Hs) as [Hb Hs'].
  unfold pb_decode_varint32_eof. unfold bind at 1.
  rewrite (readbyte_cons _ _ _ _ Hs). cbn [negb].
  pose proof (land_80 b Hb) as H80. unfold truthy in H80.
  change (varint_scan 10 (b :: l)) with (if b <? 128 then Some [b] else cons b <$> varint_scan 9 l) in Hp.
  destruct (Z.land b 0x80 =? 0) eqn:E80; rewrite ?E80 in H80; cbn [negb] in H80.
  - destruct (Z.ltb_spec b 128); [|destruct (Z.leb_spec 128 b); [done|lia]]. simplify_eq.
    eexists _, _, _. split; [done|]. split; [done|]. intros _. cbn [varint_val length].
    unfold is_byte in Hb. rewrite Z.mod_small, wrap_small by lia. split; [lia|done].
  - destruct (Z.ltb_spec b 128); [destruct (Z.leb_spec 128 b); [lia|done]|].
    destruct (varint_scan 9 l) as [q|] eqn:Hq; [|done].
    cbn [fmap option_fmap option_map] in Hp. injection Hp as <-. cbn [length varint_val].
    rewrite land_7f. pose proof (Z.mod_pos_bound b 128 ltac:(lia)) as Hmod.
    destruct (varint32_loop_spec m 9 1 (S (Z.to_nat (bytes_left (advance s 1)))) (advance s 1) l
                (b mod 128) q) as (ok & r & bp & b' & s' & Hrun & Hok & HQ); [lia|lia|done| | | |done|].
    { destruct Hs' as [_ -> _ _]. lia. }
    { lia. }
    { intros _. change (2 ^ (7 * Z.of_nat 1)) with 128. lia. }
    change (7 * Z.of_nat 1) with 7 in Hrun. unfold bind at 1. rewrite Hrun. clear Hrun.
    change (2 ^ (7 * Z.of_nat 1)) with 128 in HQ.
    apply (varint_scan_inv 9) in Hq as Hinv. destruct Hinv as (rest & -> & Hlen).
    destruct ok; cbn [negb]; [|eexists _, _, _; split; [done|]; split; [|done]; intros; apply Hok; lia].
    destruct (HQ eq_refl) as (-> & -> & -> & Hlast). rewrite advance_advance.
    destruct ((7 * Z.of_nat (1 + length q) =? 35) && negb (Z.land b' 0x70 =? 0)) eqn:Hov;
      (eexists _, _, _; split; [done|]; split).
    + intros Hc. exfalso. apply andb_true_iff in Hov as [H35 H70].
      apply Z.eqb_eq in H35. destruct Hc as [?|[_ Hv]]; [lia|].
      apply so_range, Forall_app in Hs' as [Hq' _].
      rewrite (varint_last_small q b' (b mod 128)) in H70; [done|lia..|done|done].
    + done.
    + done.
    + intros _. split; [done|f_equal; lia].
Qed.
End Varint32.

Section Varint32Read.
Context `{Program}.

Lemma decode_varint32_run m s l p :
  stream_over m s l -> varint_scan 10 l = Some p ->
  exists ok v s', pb_decode_varint32 s m = Ret ((ok, v, s'), m) /\
    (ok = true -> v = u32 (varint_val p) /\ s' = advance s (Z.of_nat (length p))).
Proof.
  intros Hs Hp. destruct (decode_varint32_eof_run m s l p Hs Hp) as (ok & v & s' & E & _ & HQ).
  exists ok, v, s'. split; [|done]. unfold pb_decode_varint32, bind. by rewrite E.
Qed.

Lemma decode_varint32_eof_app m s v l :
  0 <= v < 2 ^ 32 -> stream_over m s (varint v ++ l) ->
  pb_decode_varint32_eof s m =
  Ret ((true, v, false, advance s (Z.of_nat (length (varint v)))), m).
Proof.
  intros Hv Hs. assert (Hp := varint_scan_app v l ltac:(lia)).
  destruct (decode_varint32_eof_run m s _ _ Hs Hp) as (ok & w & t & -> & Hok & HQ).
  rewrite varint_val_varint in * by lia.
  assert (ok = true) as ->.
  { apply Hok. pose proof (varint_length5 v ltac:(lia)). lia. }
  destruct (HQ eq_refl) as [-> ->]. by rewrite wrap_small.
Qed.

Lemma decode_varint32_app m s v l :
  0 <= v < 2 ^ 32 -> stream_over m s (varint v ++ l) ->
  pb_decode_varint32 s m = Ret ((true, v, advance s (Z.of_nat (length (varint v)))), m).
Proof.
  intros Hv Hs. unfold pb_decode_varint32, bind. by rewrite (decode_varint32_eof_app _ _ _ _ Hv Hs).
Qed.

(** The eight bytes of the sign extension of a negative 32-bit value. *)
Lemma varint_negative v :
  - 2 ^ 31 <= v < 0 ->
  exists b0 b1 b2 b3 b4,
    varint (u64 v) = [b0; b1; b2; b3; b4; 0xFF; 0xFF; 0xFF; 0xFF; 0x01] /\
    Forall (fun b => 128 <= b < 256) [b0; b1; b2; b3; b4] /\
    u32 v = u32 (varint_val [b0; b1; b2; b3; b4]) /\
    2 ^ 31 <= u32 v.
Proof.
  intros Hv. set (w := u64 v). assert (Hw : w = v + 2 ^ 64).
  { unfold w, wrap. symmetry. apply Z.mod_unique with (-1); lia. }
  assert (Hq : w / 128 / 128 / 128 / 128 / 128 = 2 ^ 29 - 1).
  { rewrite !Z.div_div by lia. symmetry. apply Z.div_unique with (v + 2 ^ 35); lia. }
  pose proof (Z.mod_pos_bound w 128 ltac:(lia)).
  set (w1 := w / 128) in *. set (w2 := w1 / 128) in *. set (w3 := w2 / 128) in *.
  set (w4 := w3 / 128) in *.
  pose proof (Z.div_mod w 128 ltac:(lia)) as D0. pose proof (Z.div_mod w1 128 ltac:(lia)) as D1.
  pose proof (Z.div_mod w2 128 ltac:(lia)) as D2. pose proof (Z.div_mod w3 128 ltac:(lia)) as D3.
  pose proof (Z.div_mod w4 128 ltac:(lia)) as D4. fold w1 in D0. fold w2 in D1. fold w3 in D2. fold w4 in D3.
  pose proof (Z.mod_pos_bound w1 128 ltac:(lia)). pose proof (Z.mod_pos_bound w2 128 ltac:(lia)).
  pose proof (Z.mod_pos_bound w3 128 ltac:(lia)). pose proof (Z.mod_pos_bound w4 128 ltac:(lia)).
  exists (w mod 128 + 128), (w1 mod 128 + 128), (w2 mod 128 + 128), (w3 mod 128 + 128), (w4 mod 128 + 128).
  split_and!.
  - unfold varint.
    rewrite (varint_enc_step 9 w), (varint_enc_step 8), (varint_enc_step 7), (varint_enc_step 6),
      (varint_enc_step 5) by (fold w1; fold w2; fold w3; fold w4; lia).
    fold w1; fold w2; fold w3; fold w4. rewrite Hq.
    assert (varint_enc 5 (2 ^ 29 - 1) = [0xFF; 0xFF; 0xFF; 0xFF; 0x01]) as -> by by vm_compute.
    reflexivity.
  - repeat constructor; lia.
  - transitivity (u32 w).
    { unfold w. symmetry. apply wrap_le. lia. }
    cbn [varint_val]. rewrite !group_mod.
    assert (w = w mod 128 + 128 * (w1 mod 128 + 128 * (w2 mod 128 + 128 * (w3 mod 128 + 128 * (w4 mod 128)))) + (8 * (2 ^ 29 - 1)) * 2 ^ 32) as E by lia.
    rewrite E at 1. unfold wrap. rewrite Z_mod_plus_full, Z.mul_0_r, Z.add_0_r. done.
  - replace (u32 v) with (v + 2 ^ 32); [lia|]. unfold wrap. apply Z.mod_unique with (-1); lia.
Qed.
Lemma varint32_step_low m fuel k s b l res :
  (k <= 4)%nat -> stream_over m s (b :: l) -> 128 <= b -> 0 <= res < 2 ^ (7 * Z.of_nat k) ->
  varint32_loop (S fuel) s (7 * Z.of_nat k) res m =
  varint32_loop fuel (advance s 1) (7 * Z.of_nat (S k)) (u32 (res + b mod 128 * 2 ^ (7 * Z.of_nat k))) m.
Proof.
  intros Hk Hs Hb Hres.
  pose proof (varint32_step m fuel k s b l res ltac:(lia) Hs ltac:(lia)) as E. cbv zeta in E.
  rewrite E. replace (32 <=? 7 * Z.of_nat k) with false by lia.
  by destruct (Z.leb_spec 128 b); [|lia].
Qed.

(** Above bit 31 the loop accepts the bytes of a sign extension. *)
Lemma varint32_step_sign m fuel k s b l r :
  (5 <= k <= 9)%nat -> stream_over m s (b :: l) -> 2 ^ 31 <= r < 2 ^ 32 ->
  b = (if 7 * Z.of_nat k <? 63 then 0xFF else 0x01) ->
  varint32_loop (S fuel) s (7 * Z.of_nat k) r m =
  if 7 * Z.of_nat k <? 63 then varint32_loop fuel (advance s 1) (7 * Z.of_nat (S k)) r m
  else Ret ((true, (r, 7 * Z.of_nat (S k), b), advance s 1), m).
Proof.
  intros Hk Hs Hr Hb.
  assert (Hr31 : (Z.shiftr r 31 =? 0) = false).
  { rewrite Z.shiftr_div_pow2 by lia. apply Z.eqb_neq.
    assert (1 <= r / 2 ^ 31) by (apply Z.div_le_lower_bound; lia). lia. }
  pose proof (varint32_step m fuel k s b l r ltac:(lia) Hs ltac:(lia)) as E. cbv zeta in E.
  rewrite E, Hr31, Hb. replace (32 <=? 7 * Z.of_nat k) with true by lia.
  by destruct (7 * Z.of_nat k <? 63).
Qed.

Lemma varint32_sign_extension m s l fuel r :
  stream_over m s ([0xFF; 0xFF; 0xFF; 0xFF; 0x01] ++ l) -> 2 ^ 31 <= r < 2 ^ 32 ->
  varint32_loop (5 + fuel) s 35 r m = Ret ((true, (r, 70, 0x01), advance s 5), m).
Proof.
  intros Hs Hr. cbn [app] in Hs.
  destruct (stream_over_cons _ _ _ _ Hs) as [_ H1]. destruct (stream_over_cons _ _ _ _ H1) as [_ H2].
  destruct (stream_over_cons _ _ _ _ H2) as [_ H3]. destruct (stream_over_cons _ _ _ _ H3) as [_ H4].
  change 35 with (7 * Z.of_nat 5). cbn [Nat.add].
  rewrite (varint32_step_sign _ _ 5 _ _ _ _ ltac:(lia) Hs Hr eq_refl).
  rewrite (varint32_step_sign _ _ 6 _ _ _ _ ltac:(lia) H1 Hr eq_refl).
  rewrite (varint32_step_sign _ _ 7 _ _ _ _ ltac:(lia) H2 Hr eq_refl).
  rewrite (varint32_step_sign _ _ 8 _ _ _ _ ltac:(lia) H3 Hr eq_refl).
  rewrite (varint32_step_sign _ _ 9 _ _ _ _ ltac:(lia) H4 Hr eq_refl).
  by rewrite !advance_advance.
Qed.

Lemma decode_varint32_negative m s v l :
  - 2 ^ 31 <= v < 0 -> stream_over m s (varint (u64 v) ++ l) ->
  pb_decode_varint32 s m = Ret ((true, u32 v, advance s 10), m).
Proof.
  intros Hv Hs. destruct (varint_negative v Hv) as (b0 & b1 & b2 & b3 & b4 & E & Hb & Hval & Hbig).
  rewrite E in Hs. cbn [app] in Hs. rewrite !Forall_cons in Hb. destruct Hb as (B0 & B1 & B2 & B3 & B4 & _).
  destruct (stream_over_cons _ _ _ _ Hs) as [Y0 H1]. destruct (stream_over_cons _ _ _ _ H1) as [_ H2].
  destruct (stream_over_cons _ _ _ _ H2) as [_ H3]. destruct (stream_over_cons _ _ _ _ H3) as [_ H4].
  destruct (stream_over_cons _ _ _ _ H4) as [_ H5].
  assert (Hfuel : exists f, S (Z.to_nat (bytes_left (advance s 1))) = S (S (S (S (5 + f))))).
  { destruct H1 as [_ -> _ _]. cbn [length]. rewrite Nat2Z.id. eexists. reflexivity. }
  destruct Hfuel as [f Hf].
  unfold pb_decode_varint32, pb_decode_varint32_eof. unfold bind at 1 2.
  rewrite (readbyte_cons _ _ _ _ Hs). cbn [negb]. rewrite land_7f.
  pose proof (land_80 b0 Y0) as T0. unfold truthy in T0.
  destruct (Z.land b0 0x80 =? 0); [destruct (Z.leb_spec 128 b0); [done|lia]|]. clear T0.
  pose proof (Z.mod_pos_bound b0 128 ltac:(lia)). pose proof (Z.mod_pos_bound b1 128 ltac:(lia)).
  pose proof (Z.mod_pos_bound b2 128 ltac:(lia)). pose proof (Z.mod_pos_bound b3 128 ltac:(lia)).
  unfold bind at 1. rewrite Hf. change 7 with (7 * Z.of_nat 1).
  assert (P1 : 2 ^ (7 * Z.of_nat 1) = 128) by done. assert (P2 : 2 ^ (7 * Z.of_nat 2) = 16384) by done.
  assert (P3 : 2 ^ (7 * Z.of_nat 3) = 2097152) by done. assert (P4 : 2 ^ (7 * Z.of_nat 4) = 268435456) by done.
  rewrite (varint32_step_low m _ 1 _ _ _ _ ltac:(lia) H1 (proj1 B1)) by lia. rewrite P1, wrap_small by lia.
  rewrite (varint32_step_low m _ 2 _ _ _ _ ltac:(lia) H2 (proj1 B2)) by lia. rewrite P2, wrap_small by lia.
  rewrite (varint32_step_low m _ 3 _ _ _ _ ltac:(lia) H3 (proj1 B3)) by lia. rewrite P3, wrap_small by lia.
  rewrite (varint32_step_low m _ 4 _ _ _ _ ltac:(lia) H4 (proj1 B4)) by lia. rewrite P4.
  assert (Hr : u32 (b0 mod 128 + b1 mod 128 * 128 + b2 mod 128 * 16384 + b3 mod 128 * 2097152 + b4 mod 128 * 268435456) = u32 v).
  { rewrite Hval. f_equal. cbn [varint_val]. ring. }
  rewrite Hr. change (7 * Z.of_nat 5) with 35.
  assert (Hrange : 2 ^ 31 <= u32 v < 2 ^ 32) by (split; [done|apply wrap_range; lia]).
  rewrite (varint32_sign_extension _ _ l _ _ H5 Hrange).
  by rewrite !advance_advance.
Qed.
End Varint32Read.

(** * Zig-zag integers *)

(** The mapping of the protobuf documentation. *)
Definition zigzag_spec (v : Z) : Z := if v <? 0 then - 2 * v - 1 else 2 * v.

Lemma zigzag_eq v : - 2 ^ 63 <= v < 2 ^ 63 -> zigzag v = zigzag_spec v.
Proof.
  intros Hv. unfold zigzag, zigzag_spec. rewrite Z.shiftl_mul_pow2, Z.pow_1_r by lia.
  destruct (Z.ltb_spec v 0).
  - assert (E : u64 v = v + 2 ^ 64).
    { unfold wrap. symmetry. apply Z.mod_unique with (-1); lia. }
    assert (E2 : u64 (u64 v * 2) = 2 * v + 2 ^ 64).
    { rewrite E. unfold wrap. symmetry. apply Z.mod_unique with 1; lia. }
    rewrite E2. unfold Z.lnot. unfold wrap. symmetry. apply Z.mod_unique with (-1); lia.
  - rewrite (wrap_small 64 v) by lia. rewrite wrap_small; lia.
Qed.

(** The inverse computed by [pb_decode_svarint]. *)
Definition unzigzag (u : Z) : Z :=
  if truthy (Z.land u 1) then sext 64 (Z.lnot (Z.shiftr u 1)) else sext 64 (Z.shiftr u 1).

Lemma unzigzag_zigzag v : - 2 ^ 63 <= v < 2 ^ 63 -> unzigzag (zigzag v) = v.
Proof.
  intros Hv. rewrite zigzag_eq by done. unfold unzigzag, zigzag_spec, truthy.
  assert (Hodd : forall u, Z.land u 1 = u mod 2) by (intros; exact (land_mask u 1 ltac:(lia))).
  rewrite Hodd, Z.shiftr_div_pow2, Z.pow_1_r by lia. destruct (Z.ltb_spec v 0).
  - replace ((-2 * v - 1) mod 2) with 1 by (Z.div_mod_to_equations; lia). cbn [Z.eqb negb].
    replace ((-2 * v - 1) / 2) with (- v - 1) by (Z.div_mod_to_equations; lia).
    unfold Z.lnot. rewrite sext_small; lia.
  - replace ((2 * v) mod 2) with 0 by (Z.div_mod_to_equations; lia). cbn [Z.eqb negb].
    replace ((2 * v) / 2) with v by (Z.div_mod_to_equations; lia). rewrite sext_small; lia.
Qed.

Lemma zigzag_range v : - 2 ^ 63 <= v < 2 ^ 63 -> 0 <= zigzag v < 2 ^ 64.
Proof. intros. rewrite zigzag_eq by done. unfold zigzag_spec. destruct (Z.ltb_spec v 0); lia. Qed.

Section Composite.
Context `{Program}.

Lemma decode_svarint_app m s v l :
  - 2 ^ 63 <= v < 2 ^ 63 -> stream_over m s (varint (zigzag v) ++ l) ->
  pb_decode_svarint s m =
  Ret ((true, v, advance s (Z.of_nat (length (varint (zigzag v))))), m).
Proof.
  intros Hv Hs. unfold pb_decode_svarint, bind.
  rewrite (decode_varint_app _ _ _ _ (zigzag_range v Hv) Hs). cbn [negb].
  change (if truthy _ then _ else _) with (unzigzag (zigzag v)). by rewrite unzigzag_zigzag.
Qed.

(** ** Fixed-size values *)

Lemma byte_of_nth n val i :
  (i < n)%nat -> byte_of val (8 * Z.of_nat i) = nth i (le_bytes n val) 0.
Proof. intros. unfold byte_of. by rewrite u8_land_ff, nth_le_bytes. Qed.

Lemma encode_fixed32_load m s a l :
  load_bytes 4 a m = Ret (l, m) -> pb_encode_fixed32 s a m = pb_write s (WLocal l) 4 m.
Proof.
  intros El. destruct (load_bytes_length _ _ _ _ _ El) as (Hlen & Hl & _).
  unfold pb_encode_fixed32, load_le. unfold bind at 1 2. rewrite El. unfold ret at 1.
  do 2 f_equal. rewrite <- (le_bytes_val l Hl) at 5. rewrite Hlen. cbn [le_bytes].
  unfold byte_of. by rewrite !u8_land_ff, !Z.shiftr_shiftr, Z.shiftr_0_r by lia.
Qed.

Lemma encode_fixed32_run m s a l :
  bytes_at m a l -> Forall is_byte l -> length l = 4%nat ->
  pb_encode_fixed32 s a m = pb_write s (WLocal l) 4 m.
Proof. intros Ha Hl Hlen. apply encode_fixed32_load. rewrite <- Hlen. by apply load_bytes_at. Qed.

Lemma encode_fixed64_load m s a l :
  load_bytes 8 a m = Ret (l, m) -> pb_encode_fixed64 s a m = pb_write s (WLocal l) 8 m.
Proof.
  intros El. destruct (load_bytes_length _ _ _ _ _ El) as (Hlen & Hl & _).
  unfold pb_encode_fixed64, load_le. unfold bind at 1 2. rewrite El. unfold ret at 1.
  do 2 f_equal. rewrite <- (le_bytes_val l Hl) at 9. rewrite Hlen. cbn [le_bytes].
  unfold byte_of. by rewrite !u8_land_ff, !Z.shiftr_shiftr, Z.shiftr_0_r by lia.
Qed.

Lemma encode_fixed64_run m s a l :
  bytes_at m a l -> Forall is_byte l -> length l = 8%nat ->
  pb_encode_fixed64 s a m = pb_write s (WLocal l) 8 m.
Proof. intros Ha Hl Hlen. apply encode_fixed64_load. rewrite <- Hlen. by apply load_bytes_at. Qed.
Lemma store_le_run m n dest l :
  Forall is_byte l -> length l = n -> mapped_range m dest (Z.of_nat n) ->
  store_le n dest (le_val l) m = Ret (tt, poke m dest l).
Proof.
  intros Hl <- Hm. unfold store_le. rewrite le_bytes_val by done. by apply store_bytes_run.
Qed.

Lemma decode_fixed32_run m s dest l l' :
  stream_over m s (l ++ l') -> length l = 4%nat -> mapped_range m dest 4 ->
  pb_decode_fixed32 s dest m = Ret ((true, advance s 4), poke m dest l).
Proof.
  intros Hs Hlen Hm. assert (Hl : Forall is_byte l) by (apply so_range, Forall_app in Hs; tauto).
  unfold pb_decode_fixed32. unfold bind at 1. pose proof (read_local _ _ _ _ Hs) as Hr.
  rewrite Hlen in Hr. change (Z.of_nat 4) with 4 in Hr. rewrite Hr. cbn [negb].
  pose proof (store_le_run m 4 dest l Hl Hlen Hm) as Hst.
  destruct l as [|a [|b [|c [|d [|]]]]]; try done. cbn [byte_nth nth].
  rewrite !Forall_cons in Hl. destruct Hl as (Ha & Hb & Hc & Hd & _). unfold is_byte in *.
  rewrite Z.shiftl_0_r, (lor_shiftl_add a b 8), (lor_shiftl_add _ c 16), (lor_shiftl_add _ d 24) by lia.
  unfold bind.
  assert (E : a + b * 2 ^ 8 + c * 2 ^ 16 + d * 2 ^ 24 = le_val [a; b; c; d]).
  { cbn [le_val]. rewrite !wrap_small by lia. lia. }
  by rewrite E, Hst.
Qed.

Lemma decode_fixed64_run m s dest l l' :
  stream_over m s (l ++ l') -> length l = 8%nat -> mapped_range m dest 8 ->
  pb_decode_fixed64 s dest m = Ret ((true, advance s 8), poke m dest l).
Proof.
  intros Hs Hlen Hm. assert (Hl : Forall is_byte l) by (apply so_range, Forall_app in Hs; tauto).
  unfold pb_decode_fixed64. unfold bind at 1. pose proof (read_local _ _ _ _ Hs) as Hr.
  rewrite Hlen in Hr. change (Z.of_nat 8) with 8 in Hr. rewrite Hr. cbn [negb].
  pose proof (store_le_run m 8 dest l Hl Hlen Hm) as Hst.
  destruct l as [|a [|b [|c [|d [|e [|f [|g [|h [|]]]]]]]]]; try done. cbn [byte_nth nth].
  rewrite !Forall_cons in Hl. destruct Hl as (Ha & Hb & Hc & Hd & He & Hf & Hg & Hh & _).
  unfold is_byte in *.
  rewrite Z.shiftl_0_r, (lor_shiftl_add a b 8), (lor_shiftl_add _ c 16), (lor_shiftl_add _ d 24),
    (lor_shiftl_add _ e 32), (lor_shiftl_add _ f 40), (lor_shiftl_add _ g 48), (lor_shiftl_add _ h 56) by lia.
  unfold bind.
  assert (E : a + b * 2 ^ 8 + c * 2 ^ 16 + d * 2 ^ 24 + e * 2 ^ 32 + f * 2 ^ 40 + g * 2 ^ 48 + h * 2 ^ 56
              = le_val [a; b; c; d; e; f; g; h]).
  { cbn [le_val]. rewrite !wrap_small by lia. lia. }
  by rewrite E, Hst.
Qed.

(** ** Tags *)

(** The number written before a field. *)
Definition tag_value (wiretype field_number : Z) : Z := field_number * 8 + wiretype.

Lemma encode_tag_run m s wt tag :
  0 <= wt < 8 -> 0 <= tag < 2 ^ 32 ->
  pb_encode_tag s wt tag m =
  pb_write s (WLocal (varint (tag_value wt tag))) (Z.of_nat (length (varint (tag_value wt tag)))) m.
Proof.
  intros Hwt Htag. unfold pb_encode_tag, tag_value.
  rewrite Z.shiftl_mul_pow2, wrap_small by lia.
  rewrite Z.lor_comm, <- Z.shiftl_mul_pow2 by lia. rewrite (lor_shiftl_add wt tag 3) by lia.
  replace (wt + tag * 2 ^ 3) with (tag * 8 + wt) by lia.
  rewrite pb_encode_varint_write by lia. done.
Qed.

Lemma decode_tag_app m s wt tag l :
  0 <= wt < 8 -> 0 <= tag -> 0 < tag_value wt tag < 2 ^ 32 ->
  stream_over m s (varint (tag_value wt tag) ++ l) ->
  pb_decode_tag s m =
  Ret ((true, wt, tag, false, advance s (Z.of_nat (length (varint (tag_value wt tag))))), m).
Proof.
  intros Hwt Htag Hv Hs. unfold pb_decode_tag, bind.
  rewrite (decode_varint32_eof_app m s (tag_value wt tag) l ltac:(lia) Hs). cbn [negb].
  destruct (Z.eqb_spec (tag_value wt tag) 0); [lia|].
  rewrite (land_mask _ 3), Z.shiftr_div_pow2 by lia. unfold tag_value.
  replace ((tag * 8 + wt) mod 2 ^ 3) with wt by (change (2 ^ 3) with 8; Z.div_mod_to_equations; lia).
  replace ((tag * 8 + wt) / 2 ^ 3) with tag by (change (2 ^ 3) with 8; Z.div_mod_to_equations; lia).
  done.
Qed.

(** ** Skipping *)

Lemma skip_varint_loop_run m s fuel n l p :
  stream_over m s l -> varint_scan n l = Some p -> (length l <= fuel)%nat ->
  skip_varint_loop fuel s m = Ret ((true, advance s (Z.of_nat (length p))), m).
Proof.
  revert s fuel l p. induction n as [|n IH]; intros s fuel l p Hs Hp Hf; [done|].
  destruct l as [|b l]; [done|]. destruct fuel as [|fuel]; [simpl in Hf; lia|].
  destruct (stream_over_cons _ _ _ _ Hs) as [Hb Hs']. cbn [skip_varint_loop]. unfold bind at 1.
  pose proof (read_local m s [b] l Hs) as E. change (Z.of_nat (length [b])) with 1 in E.
  rewrite E. cbn [negb hd].
  rewrite land_80 by done. cbn [varint_scan] in Hp.
  destruct (Z.ltb_spec b 128); destruct (Z.leb_spec 128 b); try lia.
  - by injection Hp as <-.
  - destruct (varint_scan n l) as [q|] eqn:Hq; [|done].
    cbn [fmap option_fmap option_map] in Hp. injection Hp as <-. cbn [length] in *.
    rewrite (IH (advance s 1) fuel l q) by (done || lia). rewrite advance_advance.
    do 4 f_equal. lia.
Qed.

(** ** Substreams *)

Lemma make_substream_run m s payload rest :
  stream_over m s (varint (Z.of_nat (length payload)) ++ payload ++ rest) ->
  Z.of_nat (length payload) < 2 ^ 32 ->
  let k := Z.of_nat (length (varint (Z.of_nat (length payload)))) in
  let n := Z.of_nat (length payload) in
  let sub := is_set_left (advance s k) n in
  pb_make_string_substream s m =
    Ret ((true, is_set_left (advance s k) (Z.of_nat (length rest)), sub), m) /\
  stream_over m sub payload.
Proof.
  intros Hs Hlt k n sub. pose proof (stream_over_advance _ _ _ _ Hs) as Ha. fold k in Ha.
  split.
  - unfold pb_make_string_substream, bind. subst k n sub.
    rewrite (decode_varint32_app m s (Z.of_nat (length payload)) _ ltac:(lia) Hs). cbn [negb].
    destruct Ha as [_ Hl _ _]. rewrite Hl, length_app.
    destruct (Z.ltb_spec (Z.of_nat (length payload + length rest)) (Z.of_nat (length payload))); [lia|].
    replace (Z.of_nat (length payload + length rest) - Z.of_nat (length payload))
      with (Z.of_nat (length rest)) by lia. done.
  - destruct Ha as [Hc Hl Hb Hr]. apply bytes_at_app in Hb as [Hb _]. apply Forall_app in Hr as [Hr _].
    by split.
Qed.

(** Closing puts the parent behind the payload, wherever the reader of the
    substream stopped. *)
Lemma close_substream_run m s sub l1 l2 :
  stream_over m sub (l1 ++ l2) ->
  pb_close_string_substream s (advance sub (Z.of_nat (length l1))) m =
  Ret ((true, is_set_errmsg (is_set_state s (is_state sub + Z.of_nat (length (l1 ++ l2)))) (is_errmsg sub)), m).
Proof.
  intros Hs. pose proof (stream_over_advance _ _ _ _ Hs) as Ha.
  unfold pb_close_string_substream. rewrite (so_left _ _ _ Ha), length_app.
  destruct (Z.eqb_spec (Z.of_nat (length l2)) 0).
  - replace (Z.of_nat (length l1 + length l2)) with (Z.of_nat (length l1)) by lia. done.
  - replace (Z.of_nat (length l1 + length l2)) with (Z.of_nat (length l1) + Z.of_nat (length l2)) by lia.
    rewrite Z.add_assoc. unfold bind. rewrite <- (app_nil_r l2) in Ha. rewrite (read_null _ _ _ _ Ha). done.
Qed.
End Composite.

(** * Copies between memory and streams *)

Section ReadWriteMem.
Context `{Program}.

(** A checked read into memory apart from the input. *)
Lemma read_mem m s dest l1 l2 :
  stream_over m s (l1 ++ l2) -> mapped_range m dest (Z.of_nat (length l1)) ->
  (forall x, range dest (Z.of_nat (length l1)) x -> range (is_state s) (Z.of_nat (length l1)) x -> False) ->
  pb_read s (RMem dest) (Z.of_nat (length l1)) m =
  Ret ((true, [], advance s (Z.of_nat (length l1))), poke m dest l1).
Proof.
  intros [Hc Hl Hm Hr] Hd Hdis. unfold pb_read, pb_read_checked, call_read, buf_read.
  rewrite Hl, length_app, Hc.
  destruct (Z.ltb_spec (Z.of_nat (length l1 + length l2)) (Z.of_nat (length l1))); [lia|].
  apply bytes_at_app in Hm as [Hm _]. apply Forall_app in Hr as [Hr _].
  rewrite Nat2Z.id. unfold bind. rewrite copy_loop_run by done.
  unfold ret, advance, is_set_left, is_set_state; simpl. by rewrite Hl, length_app, Hc.
Qed.

(** Asking for more than the stream holds. *)
Lemma read_short m s buf l n :
  stream_over m s l -> Z.of_nat (length l) < n ->
  pb_read s buf n m = Ret ((false, [], is_error s "end-of-stream"), m).
Proof.
  intros [Hc Hl _ _] Hn. unfold pb_read, pb_read_checked. rewrite Hc, Hl.
  destruct (Z.ltb_spec (Z.of_nat (length l)) n); [|lia]. by destruct buf.
Qed.

(** Writing bytes of memory to a buffer apart from them. *)
Lemma pb_write_mem_room m s a l :
  bytes_at m a l -> Forall is_byte l -> os_room m s (Z.of_nat (length l)) ->
  (forall x, range (os_state s) (Z.of_nat (length l)) x -> range a (Z.of_nat (length l)) x -> False) ->
  pb_write s (WMem a) (Z.of_nat (length l)) m =
  Ret ((true, os_advance s (Z.of_nat (length l))), poke m (os_state s) l).
Proof.
  intros Ha Hl [Hc Hw Hs Hm] Hd. unfold pb_write, call_write. rewrite Hc, wrap_small by lia.
  destruct (Z.ltb_spec (max_size s) (bytes_written s + Z.of_nat (length l))); [lia|].
  unfold buf_write. rewrite Nat2Z.id. unfold bind. rewrite copy_loop_run by done.
  unfold ret, os_advance, os_set_written, os_set_state; simpl. rewrite Hc, wrap_small by lia. done.
Qed.

(** ** Values on the wire *)

(** The encodings a wire type allows. *)
Inductive wire_value : Z -> list Z -> Prop :=
| WV_varint p : varint_scan (length p) p = Some p -> wire_value PB_WT_VARINT p
| WV_64bit p : length p = 8%nat -> wire_value PB_WT_64BIT p
| WV_string p : Z.of_nat (length p) < 2 ^ 32 ->
    wire_value PB_WT_STRING (varint (Z.of_nat (length p)) ++ p)
| WV_32bit p : length p = 4%nat -> wire_value PB_WT_32BIT p.

Lemma varint_scan_prefix n p l : varint_scan n p = Some p -> varint_scan n (p ++ l) = Some p.
Proof.
  revert p. induction n as [|n IH]; intros [|b p] Hp; try done. cbn [varint_scan app] in *.
  destruct (b <? 128); [congruence|]. destruct (varint_scan n p) as [q|] eqn:E; [|done].
  cbn [fmap option_fmap option_map] in Hp. injection Hp as ->. by rewrite IH.
Qed.

Lemma skip_null m s l1 l2 (n : Z) :
  stream_over m s (l1 ++ l2) -> Z.of_nat (length l1) = n ->
  (let* ' (ok, _, s) := pb_read s RNull n in ret (ok, s)) m = Ret ((true, advance s n), m).
Proof. intros Hs <-. unfold bind. by rewrite (read_null _ _ _ _ Hs). Qed.

Lemma skip_field_run m s wt p l :
  wire_value wt p -> stream_over m s (p ++ l) ->
  pb_skip_field s wt m = Ret ((true, advance s (Z.of_nat (length p))), m).
Proof.
  intros Hwt Hs. unfold pb_skip_field. destruct Hwt as [p Hp|p Hp|p Hp|p Hp]; cbn [Z.eqb PB_WT_VARINT PB_WT_64BIT PB_WT_STRING PB_WT_32BIT Pos.eqb].
  - unfold pb_skip_varint. eapply skip_varint_loop_run; [exact Hs| |].
    + by apply varint_scan_prefix.
    + destruct Hs as [_ -> _ _]. lia.
  - rewrite Hp. apply (skip_null m s p l); [done|lia].
  - rewrite <- app_assoc in Hs. unfold pb_skip_string, bind at 1.
    rewrite (decode_varint32_app m s (Z.of_nat (length p)) _ ltac:(lia) Hs). cbn [negb].
    rewrite (skip_null m _ p l _ (stream_over_advance _ _ _ _ Hs) eq_refl).
    rewrite advance_advance. do 4 f_equal. rewrite length_app. lia.
  - rewrite Hp. apply (skip_null m s p l); [done|lia].
Qed.
End ReadWriteMem.

(** * Concrete streams *)

(** A stream over the bytes [l] at [a], decided by evaluation. *)
Lemma buffer_stream_over m a l :
  bytes_atb m a l = true -> forallb is_byteb l = true ->
  stream_over m (pb_istream_from_buffer a (Z.of_nat (length l))) l.
Proof. intros Hb Hl. split; [done|done|by apply bytes_atb_true|by apply is_bytesb_true]. Qed.

Lemma buffer_os_room m a (n : nat) :
  mapped_rangeb m a n = true -> Z.of_nat n < 2 ^ 64 ->
  os_room m (pb_ostream_from_buffer a (Z.of_nat n)) (Z.of_nat n).
Proof. intros Hm Hn. split; [done|done|simpl; lia|by apply mapped_rangeb_true]. Qed.

(** * Properties

    What the wire-level readers and writers of nanopb guarantee: round trips
    through a memory buffer, agreement of the two varint readers, skipping,
    substreams, the bounds of [pb_write], and two inputs on which the 32-bit
    varint reader and the 64-bit one disagree. *)

Section WireProps.
Context `{Program}.

(** The reader of what a writer has put into the buffer. *)
Lemma write_read m s l :
  Forall is_byte l -> os_room m s (Z.of_nat (length l)) ->
  let m' := poke m (os_state s) l in
  pb_write s (WLocal l) (Z.of_nat (length l)) m = Ret ((true, os_advance s (Z.of_nat (length l))), m') /\
  frame (range (os_state s) (Z.of_nat (length l))) m m' /\
  stream_over m' (pb_istream_from_buffer (os_state s) (Z.of_nat (length l))) (l ++ []).
Proof.
  intros Hl Hr m'. split; [by apply pb_write_room|]. split.
  - apply frame_put_bytes, Hr.
  - rewrite app_nil_r. by apply poke_stream.
Qed.

(** every 64-bit value that [pb_encode_varint] writes into a buffer takes
    one to ten bytes, touches only those bytes, and is read back by
    [pb_decode_varint], which consumes exactly them. *)
Theorem varint_roundtrip m s v :
  0 <= v < 2 ^ 64 -> os_room m s 10 ->
  exists n m', 1 <= n <= 10 /\
    pb_encode_varint s v m = Ret ((true, os_advance s n), m') /\
    frame (range (os_state s) n) m m' /\
    pb_decode_varint (pb_istream_from_buffer (os_state s) n) m' =
      Ret ((true, v, advance (pb_istream_from_buffer (os_state s) n) n), m').
Proof.
  intros Hv Hr. pose proof (varint_length v).
  destruct (write_read m s (varint v)) as (Hw & Hf & Hs).
  { apply varint_bytes. lia. }
  { eapply os_room_le; [exact Hr|lia]. }
  eexists _, _. split; [|split; [|split; [exact Hf|]]]; [lia| |].
  - by rewrite pb_encode_varint_write.
  - by apply (decode_varint_app _ _ v []).
Qed.

(** [pb_decode_varint] on a memory stream is the reference decoder: it
    returns the value (modulo 2^64) of the varint that ends within ten
    bytes and consumes exactly that varint; it reports "varint overflow"
    after ten continuation bytes and "end-of-stream" when the input ends
    first. *)
Theorem pb_decode_varint_spec m s l :
  stream_over m s l ->
  pb_decode_varint s m =
  match varint_scan 10 l with
  | Some p => Ret ((true, u64 (varint_val p), advance s (Z.of_nat (length p))), m)
  | None => Ret ((false, 0, is_error (advance s (Z.of_nat (10 `min` length l)))
              (if decide (10 <= length l)%nat then "varint overflow" else "end-of-stream")), m)
  end.
Proof. apply decode_varint_run. Qed.

(** every varint of at most ten bytes that [pb_decode_varint32] accepts
    is read as the low 32 bits of the value [pb_decode_varint] reads, and
    both leave the stream at the same place. *)
Theorem pb_decode_varint32_agrees m s l p v s' m' :
  stream_over m s l -> varint_scan 10 l = Some p ->
  pb_decode_varint32 s m = Ret ((true, v, s'), m') ->
  exists v64, pb_decode_varint s m = Ret ((true, v64, s'), m) /\ v = u32 v64 /\ m' = m.
Proof.
  intros Hs Hp Hrun. destruct (decode_varint32_run m s l p Hs Hp) as (ok & w & t & E & HQ).
  rewrite E in Hrun. injection Hrun as -> -> -> ->. destruct (HQ eq_refl) as [-> ->].
  rewrite (decode_varint_run _ _ _ Hs), Hp. eexists. split; [done|]. split; [|done].
  symmetry. apply wrap_le. lia.
Qed.

(** [pb_decode_varint32] reads back, as its low 32 bits, every value the
    writer emits for a 32-bit field: unsigned values below 2^32 and negative
    [int32] values, which are written sign-extended to ten bytes. *)
Theorem pb_decode_varint32_roundtrip m s v l :
  - 2 ^ 31 <= v < 2 ^ 32 -> stream_over m s (varint (u64 v) ++ l) ->
  pb_decode_varint32 s m = Ret ((true, u32 v, advance s (Z.of_nat (length (varint (u64 v))))), m).
Proof.
  intros Hv Hs. destruct (Z.lt_ge_cases v 0).
  - rewrite (decode_varint32_negative m s v l ltac:(lia) Hs).
    destruct (varint_negative v ltac:(lia)) as (b0 & b1 & b2 & b3 & b4 & E & _). by rewrite E.
  - rewrite wrap_small in Hs by lia. rewrite (decode_varint32_app m s v l ltac:(lia) Hs).
    by rewrite (wrap_small 32), (wrap_small 64) by lia.
Qed.
(** signed values survive the zig-zag encoding: what
    [pb_encode_svarint] writes for any 64-bit signed value is the varint of
    the documented zig-zag mapping, and [pb_decode_svarint] reads the value
    back. *)
Theorem svarint_roundtrip m s v :
  - 2 ^ 63 <= v < 2 ^ 63 -> os_room m s 10 ->
  let n := Z.of_nat (length (varint (zigzag_spec v))) in
  exists m',
    pb_encode_svarint s v m = Ret ((true, os_advance s n), m') /\
    bytes_at m' (os_state s) (varint (zigzag_spec v)) /\
    frame (range (os_state s) n) m m' /\
    pb_decode_svarint (pb_istream_from_buffer (os_state s) n) m' =
      Ret ((true, v, advance (pb_istream_from_buffer (os_state s) n) n), m').
Proof.
  intros Hv Hr n. pose proof (zigzag_range v Hv) as Hz. pose proof (varint_length (zigzag v)).
  subst n. rewrite <- zigzag_eq by done.
  destruct (write_read m s (varint (zigzag v))) as (Hw & Hf & Hs).
  { apply varint_bytes. lia. }
  { eapply os_room_le; [exact Hr|lia]. }
  eexists. split; [|split; [|split; [exact Hf|]]].
  - unfold pb_encode_svarint. by rewrite pb_encode_varint_write.
  - apply put_bytes_at, varint_bytes. lia.
  - by apply (decode_svarint_app _ _ v []).
Qed.

(** A 32-bit object in memory is written as its four bytes in
    little-endian order and read back by [pb_decode_fixed32] into any other
    place. *)
Lemma fixed32_roundtrip m s a dest l :
  bytes_at m a l -> Forall is_byte l -> length l = 4%nat ->
  os_room m s 4 -> mapped_range m dest 4 ->
  exists m', pb_encode_fixed32 s a m = Ret ((true, os_advance s 4), m') /\
    pb_decode_fixed32 (pb_istream_from_buffer (os_state s) 4) dest m' =
      Ret ((true, advance (pb_istream_from_buffer (os_state s) 4) 4), poke m' dest l).
Proof.
  intros Ha Hl Hlen Hr Hd. destruct (write_read m s l Hl) as (Hw & Hf & Hs); [by rewrite Hlen|].
  rewrite Hlen in Hw, Hf, Hs. eexists. split.
  - rewrite (encode_fixed32_run m s a l Ha Hl Hlen). exact Hw.
  - apply (decode_fixed32_run _ _ _ _ [] Hs Hlen). eapply frame_mapped_range; [exact Hf|done].
Qed.

(** The same for 64-bit objects. *)
Lemma fixed64_roundtrip m s a dest l :
  bytes_at m a l -> Forall is_byte l -> length l = 8%nat ->
  os_room m s 8 -> mapped_range m dest 8 ->
  exists m', pb_encode_fixed64 s a m = Ret ((true, os_advance s 8), m') /\
    pb_decode_fixed64 (pb_istream_from_buffer (os_state s) 8) dest m' =
      Ret ((true, advance (pb_istream_from_buffer (os_state s) 8) 8), poke m' dest l).
Proof.
  intros Ha Hl Hlen Hr Hd. destruct (write_read m s l Hl) as (Hw & Hf & Hs); [by rewrite Hlen|].
  rewrite Hlen in Hw, Hf, Hs. eexists. split.
  - rewrite (encode_fixed64_run m s a l Ha Hl Hlen). exact Hw.
  - apply (decode_fixed64_run _ _ _ _ [] Hs Hlen). eapply frame_mapped_range; [exact Hf|done].
Qed.

(** [pb_decode_tag] returns the wire type and the field number that
    [pb_encode_tag] wrote, for every tag whose value fits 32 bits. *)
Theorem tag_roundtrip m s wt tag :
  0 <= wt < 8 -> 0 <= tag -> 0 < tag_value wt tag < 2 ^ 32 -> os_room m s 5 ->
  exists n m', 1 <= n <= 5 /\
    pb_encode_tag s wt tag m = Ret ((true, os_advance s n), m') /\
    pb_decode_tag (pb_istream_from_buffer (os_state s) n) m' =
      Ret ((true, wt, tag, false, advance (pb_istream_from_buffer (os_state s) n) n), m').
Proof.
  intros Hwt Htag Hv Hr. pose proof (varint_length (tag_value wt tag)).
  pose proof (varint_length5 (tag_value wt tag) ltac:(lia)).
  destruct (write_read m s (varint (tag_value wt tag))) as (Hw & _ & Hs).
  { apply varint_bytes. lia. }
  { eapply os_room_le; [exact Hr|lia]. }
  eexists _, _. split; [|split].
  2: { rewrite encode_tag_run; [exact Hw|done|]. unfold tag_value in Hv. lia. }
  { lia. }
  by apply (decode_tag_app _ _ wt tag []).
Qed.

(** [pb_skip_field] consumes exactly one value of the wire type it is
    given - a varint of any length, 8 bytes, a length and that many bytes,
    4 bytes - and writes no memory. *)
Theorem pb_skip_field_exact m s wt p l :
  wire_value wt p -> stream_over m s (p ++ l) ->
  pb_skip_field s wt m = Ret ((true, advance s (Z.of_nat (length p))), m) /\
  stream_over m (advance s (Z.of_nat (length p))) l.
Proof. intros Hw Hs. split; [by eapply skip_field_run|by eapply stream_over_advance]. Qed.

(** a substream holds exactly the payload that its length prefix
    announces, and closing it after any part of the payload was read leaves
    the parent right behind the payload with the rest of the input. *)
Theorem substream_exact m s payload read unread rest :
  payload = read ++ unread -> Z.of_nat (length payload) < 2 ^ 32 ->
  stream_over m s (varint (Z.of_nat (length payload)) ++ payload ++ rest) ->
  exists s1 sub, pb_make_string_substream s m = Ret ((true, s1, sub), m) /\
    stream_over m sub payload /\
    exists s2, pb_close_string_substream s1 (advance sub (Z.of_nat (length read))) m = Ret ((true, s2), m) /\
      stream_over m s2 rest /\
      s2 = advance s (Z.of_nat (length (varint (Z.of_nat (length payload)) ++ payload))).
Proof.
  intros -> Hlt Hs. destruct (make_substream_run _ _ _ _ Hs Hlt) as [Hmake Hsub].
  eexists _, _. split; [exact Hmake|]. split; [exact Hsub|].
  eexists. split; [by apply (close_substream_run _ _ _ _ _ Hsub)|].
  match goal with |- stream_over _ ?x _ /\ ?x = ?y => assert (E : x = y) end.
  { pose proof (so_left _ _ _ Hs) as Hl. rewrite !length_app in Hl.
    unfold advance, is_set_errmsg, is_set_state, is_set_left; simpl.
    rewrite Hl, !length_app. f_equal; lia. }
  split; [|exact E]. rewrite E. apply stream_over_advance. by rewrite <- app_assoc.
Qed.

(** A length prefix longer than what is left of the parent is refused
    with "parent stream too short". *)
Lemma substream_too_short m s n l :
  0 <= n < 2 ^ 32 -> Z.of_nat (length l) < n -> stream_over m s (varint n ++ l) ->
  exists s1 sub, pb_make_string_substream s m = Ret ((false, s1, sub), m) /\
    s1 = is_error (advance s (Z.of_nat (length (varint n)))) "parent stream too short".
Proof.
  intros Hn Hl Hs. unfold pb_make_string_substream, bind.
  rewrite (decode_varint32_app m s n _ Hn Hs). cbn [negb].
  rewrite (so_left _ _ _ (stream_over_advance _ _ _ _ Hs)).
  destruct (Z.ltb_spec (Z.of_nat (length l)) n); [|lia]. by eexists _, _.
Qed.

(** [pb_read] into memory transfers exactly the requested bytes when the
    stream holds them, and when it does not, reads nothing, writes nothing
    and reports "end-of-stream". *)
Theorem pb_read_exact m s dest l n :
  stream_over m s l -> 0 <= n ->
  mapped_range m dest n ->
  (forall x, range dest n x -> range (is_state s) n x -> False) ->
  pb_read s (RMem dest) n m =
  if Z.of_nat (length l) <? n then Ret ((false, [], is_error s "end-of-stream"), m)
  else Ret ((true, [], advance s n), poke m dest (take (Z.to_nat n) l)).
Proof.
  intros Hs Hn Hd Hdis. destruct (Z.ltb_spec (Z.of_nat (length l)) n).
  - by apply (read_short m s _ l).
  - assert (Hlen : length (take (Z.to_nat n) l) = Z.to_nat n) by (rewrite length_take; lia).
    rewrite <- (take_drop (Z.to_nat n) l) in Hs. revert Hlen Hs.
    generalize (take (Z.to_nat n) l) as l1. intros l1 Hlen Hs.
    assert (En : n = Z.of_nat (length l1)) by lia. clear Hlen. subst n.
    by apply (read_mem m s dest _ _ Hs).
Qed.

(** [pb_write] to a buffer stores exactly the given bytes when they fit
    into what is left of [max_size], and otherwise fails with "stream full"
    and changes neither memory nor the count of bytes written. *)
Theorem pb_write_bounded m s l :
  os_callback s = OCb_buf_write -> 0 <= bytes_written s <= max_size s ->
  max_size s < 2 ^ 63 -> Z.of_nat (length l) < 2 ^ 63 ->
  mapped_range m (os_state s) (max_size s - bytes_written s) ->
  pb_write s (WLocal l) (Z.of_nat (length l)) m =
  if max_size s <? bytes_written s + Z.of_nat (length l)
  then Ret ((false, os_error s "stream full"), m)
  else Ret ((true, os_advance s (Z.of_nat (length l))), poke m (os_state s) l).
Proof.
  intros Hc Hw Hmax Hlen Hm.
  destruct (Z.ltb_spec (max_size s) (bytes_written s + Z.of_nat (length l))).
  - apply pb_write_full; try done; lia.
  - apply pb_write_room. split; [done|lia|lia|]. eapply mapped_range_sub; [exact Hm|lia..].
Qed.
End WireProps.

(** * Inputs on which the two varint readers disagree *)

(** the 8-bit bit position of [pb_decode_varint32] wraps: 37 continuation
    bytes without value bits followed by [01] are read as the number 8, where
    [pb_decode_varint] reports an overflow after ten bytes. *)
Theorem varint32_position_wraps :
  let l := repeat 0x80 37 ++ [0x01] in
  let m := mem_of 4096 l in
  let s := pb_istream_from_buffer 4096 38 in
  @pb_decode_varint32 (plain_program []) s m = Ret ((true, 8, advance s 38), m) /\
  @pb_decode_varint (plain_program []) s m =
    Ret ((false, 0, is_error (advance s 10) "varint overflow"), m).
Proof. split; vm_compute; reflexivity. Qed.

(** The bits of the fifth byte that lie above bit 31 are only checked when
    that byte is the last one: [80 80 80 80 F0 00] is the 36-bit number
    0x700000000, and [pb_decode_varint32] reads it as 0 without an error,
    while it refuses the same number written in five bytes. *)
Theorem varint32_high_bits_dropped :
  let m := mem_of 4096 [0x80; 0x80; 0x80; 0x80; 0xF0; 0x00] in
  let s := pb_istream_from_buffer 4096 6 in
  let m5 := mem_of 4096 [0x80; 0x80; 0x80; 0x80; 0x70] in
  let s5 := pb_istream_from_buffer 4096 5 in
  @pb_decode_varint32 (plain_program []) s m = Ret ((true, 0, advance s 6), m) /\
  @pb_decode_varint (plain_program []) s m = Ret ((true, 0x700000000, advance s 6), m) /\
  @pb_decode_varint32 (plain_program []) s5 m5 =
    Ret ((false, 0, is_error (advance s5 5) "varint overflow"), m5).
Proof. split; [|split]; vm_compute; reflexivity. Qed.

(** * The hypotheses hold: concrete inputs *)

Section WireWitnesses.
#[local] Existing Instance no_callbacks.

(** A cleared buffer of ten bytes at 4096, and an object at 8192. *)
Definition w_mem : mem := mem_add (mem_of 4096 (repeat 0 10)) 8192 [1; 2; 3; 4; 5; 6; 7; 8].
Definition w_out : pb_ostream_t := pb_ostream_from_buffer 4096 10.
Definition w_in (l : list Z) : mem := mem_add (mem_of 4096 l) 8192 (repeat 0 8).

Lemma w_room : os_room w_mem w_out 10.
Proof. apply (buffer_os_room w_mem 4096 10); [vm_compute; reflexivity|lia]. Qed.

Lemma w_stream n l :
  n = Z.of_nat (length l) -> bytes_atb (w_in l) 4096 l = true -> forallb is_byteb l = true ->
  stream_over (w_in l) (pb_istream_from_buffer 4096 n) l.
Proof. intros -> ? ?. by apply buffer_stream_over. Qed.

Ltac w_stream := apply w_stream; vm_compute; reflexivity.

Lemma varint_roundtrip_witness :
  exists n m', 1 <= n <= 10 /\
    pb_encode_varint w_out 300 w_mem = Ret ((true, os_advance w_out n), m') /\
    frame (range 4096 n) w_mem m' /\
    pb_decode_varint (pb_istream_from_buffer 4096 n) m' =
      Ret ((true, 300, advance (pb_istream_from_buffer 4096 n) n), m').
Proof. exact (varint_roundtrip w_mem w_out 300 ltac:(lia) w_room). Defined.

Lemma pb_decode_varint_spec_witness :
  pb_decode_varint (pb_istream_from_buffer 4096 3) (w_in [0xAC; 0x02; 0x07]) =
  Ret ((true, 300, advance (pb_istream_from_buffer 4096 3) 2), w_in [0xAC; 0x02; 0x07]).
Proof.
  assert (Hs : stream_over (w_in [0xAC; 0x02; 0x07]) (pb_istream_from_buffer 4096 3) [0xAC; 0x02; 0x07])
    by w_stream.
  exact (pb_decode_varint_spec _ _ _ Hs).
Defined.

Lemma pb_decode_varint32_agrees_witness :
  exists v64, pb_decode_varint (pb_istream_from_buffer 4096 2) (w_in [0xAC; 0x02]) =
    Ret ((true, v64, advance (pb_istream_from_buffer 4096 2) 2), w_in [0xAC; 0x02]) /\
    300 = u32 v64 /\ w_in [0xAC; 0x02] = w_in [0xAC; 0x02].
Proof.
  assert (Hs : stream_over (w_in [0xAC; 0x02]) (pb_istream_from_buffer 4096 2) [0xAC; 0x02]) by w_stream.
  refine (pb_decode_varint32_agrees _ _ _ [0xAC; 0x02] _ _ _ Hs _ _); vm_compute; reflexivity.
Defined.

Lemma pb_decode_varint32_roundtrip_witness :
  pb_decode_varint32 (pb_istream_from_buffer 4096 10) (w_in (varint (u64 (-1)))) =
  Ret ((true, u32 (-1), advance (pb_istream_from_buffer 4096 10) 10), w_in (varint (u64 (-1)))).
Proof.
  refine (pb_decode_varint32_roundtrip _ _ (-1) [] _ _); [lia|]. rewrite app_nil_r. w_stream.
Defined.

Lemma svarint_roundtrip_witness :
  exists m', pb_encode_svarint w_out (-3) w_mem = Ret ((true, os_advance w_out 1), m') /\
    bytes_at m' 4096 [5] /\ frame (range 4096 1) w_mem m' /\
    pb_decode_svarint (pb_istream_from_buffer 4096 1) m' =
      Ret ((true, -3, advance (pb_istream_from_buffer 4096 1) 1), m').
Proof. exact (svarint_roundtrip w_mem w_out (-3) ltac:(lia) w_room). Defined.

Lemma fixed32_roundtrip_witness :
  exists m', pb_encode_fixed32 w_out 8192 w_mem = Ret ((true, os_advance w_out 4), m') /\
    pb_decode_fixed32 (pb_istream_from_buffer 4096 4) 8196 m' =
      Ret ((true, advance (pb_istream_from_buffer 4096 4) 4), poke m' 8196 [1; 2; 3; 4]).
Proof.
  refine (fixed32_roundtrip w_mem w_out 8192 8196 [1; 2; 3; 4] _ _ eq_refl _ _); try solve_mem.
  apply (os_room_le _ _ _ _ w_room). lia.
Defined.

Lemma fixed64_roundtrip_witness :
  exists m', pb_encode_fixed64 w_out 8192 w_mem = Ret ((true, os_advance w_out 8), m') /\
    pb_decode_fixed64 (pb_istream_from_buffer 4096 8) 8192 m' =
      Ret ((true, advance (pb_istream_from_buffer 4096 8) 8), poke m' 8192 [1; 2; 3; 4; 5; 6; 7; 8]).
Proof.
  refine (fixed64_roundtrip w_mem w_out 8192 8192 [1; 2; 3; 4; 5; 6; 7; 8] _ _ eq_refl _ _); try solve_mem.
  apply (os_room_le _ _ _ _ w_room). lia.
Defined.

Lemma tag_roundtrip_witness :
  exists n m', 1 <= n <= 5 /\
    pb_encode_tag w_out PB_WT_STRING 100 w_mem = Ret ((true, os_advance w_out n), m') /\
    pb_decode_tag (pb_istream_from_buffer 4096 n) m' =
      Ret ((true, PB_WT_STRING, 100, false, advance (pb_istream_from_buffer 4096 n) n), m').
Proof.
  refine (tag_roundtrip w_mem w_out PB_WT_STRING 100 _ _ _ _); try (vm_compute; intuition congruence).
  apply (os_room_le _ _ _ _ w_room). lia.
Defined.

Lemma pb_skip_field_exact_witness :
  pb_skip_field (pb_istream_from_buffer 4096 4) PB_WT_STRING (w_in [2; 10; 11; 99]) =
    Ret ((true, advance (pb_istream_from_buffer 4096 4) 3), w_in [2; 10; 11; 99]) /\
  stream_over (w_in [2; 10; 11; 99]) (advance (pb_istream_from_buffer 4096 4) 3) [99].
Proof.
  refine (pb_skip_field_exact _ _ PB_WT_STRING [2; 10; 11] [99] _ _); [|w_stream].
  refine (WV_string [10; 11] _). simpl. lia.
Defined.

Lemma substream_exact_witness :
  exists s1 sub, pb_make_string_substream (pb_istream_from_buffer 4096 4) (w_in [2; 10; 11; 99]) =
      Ret ((true, s1, sub), w_in [2; 10; 11; 99]) /\
    stream_over (w_in [2; 10; 11; 99]) sub [10; 11] /\
    exists s2, pb_close_string_substream s1 (advance sub 1) (w_in [2; 10; 11; 99]) =
        Ret ((true, s2), w_in [2; 10; 11; 99]) /\
      stream_over (w_in [2; 10; 11; 99]) s2 [99] /\
      s2 = advance (pb_istream_from_buffer 4096 4) 3.
Proof.
  refine (substream_exact _ _ [10; 11] [10] [11] [99] eq_refl _ _); [simpl; lia|w_stream].
Defined.

Lemma substream_too_short_witness :
  exists s1 sub, pb_make_string_substream (pb_istream_from_buffer 4096 2) (w_in [2; 10]) =
      Ret ((false, s1, sub), w_in [2; 10]) /\
    s1 = is_error (advance (pb_istream_from_buffer 4096 2) 1) "parent stream too short".
Proof. refine (substream_too_short _ _ 2 [10] _ _ _); [lia|simpl; lia|w_stream]. Defined.

Lemma pb_read_exact_witness :
  pb_read (pb_istream_from_buffer 4096 4) (RMem 8192) 2 (w_in [2; 10; 11; 99]) =
  Ret ((true, [], advance (pb_istream_from_buffer 4096 4) 2), poke (w_in [2; 10; 11; 99]) 8192 [2; 10]).
Proof.
  refine (pb_read_exact _ _ 8192 [2; 10; 11; 99] 2 _ _ _ _); [w_stream|lia|solve_mem|].
  unfold range. simpl. lia.
Defined.

Lemma pb_write_bounded_witness :
  pb_write w_out (WLocal [7; 8]) 2 w_mem = Ret ((true, os_advance w_out 2), poke w_mem 4096 [7; 8]) /\
  pb_write w_out (WLocal (repeat 7 11)) 11 w_mem = Ret ((false, os_error w_out "stream full"), w_mem).
Proof.
  split; [refine (pb_write_bounded w_mem w_out [7; 8] _ _ _ _ _)
         |refine (pb_write_bounded w_mem w_out (repeat 7 11) _ _ _ _ _)];
    try solve_mem; simpl; first [done | lia].
Defined.
End WireWitnesses.
