(* ===== verification/PbEncode.v ===== *)
(** Message encoding: [nanopb/pb_encode.c] from [encode_array] on. *)

From stdpp Require Import base list gmap strings.
From Stdlib Require Import ZArith Lia.
From S2P Require Import Prelude CMem PbTypes PbCommon PbOstream.

Section Encode.
Context `{Program}.

(** [pb_encoder_t]. *)
Abbreviation encoder := (pb_ostream_t -> pb_field_t -> Z -> C (bool * pb_ostream_t)).

(** ** Proto3 default values *)

(** The byte-per-byte comparison with zero. *)
Fixpoint all_zero (n : nat) (p : Z) : C bool :=
  match n with
  | O => ret true
  | S n' => let* b := load8 p in if truthy b then ret false else all_zero n' (p + 1)
  end.

(** [fuel] bounds the nesting of submessages. *)
Fixpoint pb_check_proto3_default_value (fuel : nat) (field : pb_field_t) (data : Z) : C bool :=
  match fuel with
  | O => nofuel
  | S fuel' =>
      let type := f_type field in
      let size := data + f_size_offset field in
      if PB_HTYPE type =? PB_HTYPE_REQUIRED then ret false
      else if PB_HTYPE type =? PB_HTYPE_REPEATED then
        let* c := load_le 4 size in ret (c =? 0)
      else if PB_HTYPE type =? PB_HTYPE_ONEOF then
        let* c := load_le 4 size in ret (c =? 0)
      else if (PB_HTYPE type =? PB_HTYPE_OPTIONAL) && truthy (f_size_offset field) then
        let* b := load_bool size in ret (negb b)
      else if (PB_ATYPE type =? PB_ATYPE_STATIC) && (PB_LTYPE type =? PB_LTYPE_BYTES) then
        let* n := load_le 4 (data + off_bytes_size) in ret (n =? 0)
      else if (PB_ATYPE type =? PB_ATYPE_STATIC) && (PB_LTYPE type =? PB_LTYPE_STRING) then
        let* c := load8 data in ret (c =? 0)
      else if (PB_ATYPE type =? PB_ATYPE_STATIC) && (PB_LTYPE type =? PB_LTYPE_FIXED_LENGTH_BYTES) then
        ret (f_data_size field =? 0)
      else if (PB_ATYPE type =? PB_ATYPE_STATIC) && (PB_LTYPE type =? PB_LTYPE_SUBMESSAGE) then
        let* fields := need (field_array (f_ptr field)) in
        match pb_field_iter_begin fields data with
        | (false, _) => ret true
        | (true, it) =>
            let* ' (ok, _, _) :=
              do_fields (iter_fuel it)
                (fun it (_ : unit) =>
                   let* b := pb_check_proto3_default_value fuel' (it_field it) (pData it) in
                   ret (b, tt))
                it tt in
            ret ok
        end
      else all_zero (Z.to_nat (f_data_size field)) data
  end.

(** ** Field encoders *)

(** The value of a signed or unsigned integer field, [None] for a size the
    code rejects. *)
Definition int_value (signed : bool) (data_size src : Z) : C (option Z) :=
  let load n := let* v := load_le n src in
                ret (Some (if signed then sext (8 * Z.of_nat n) v else v)) in
  if data_size =? 1 then load 1%nat
  else if data_size =? 2 then load 2%nat
  else if data_size =? 4 then load 4%nat
  else if data_size =? 8 then load 8%nat
  else ret None.

Definition pb_enc_varint : encoder := fun s field src =>
  let* v := int_value true (f_data_size field) src in
  match v with
  | None => ret (false, os_error s "invalid data_size")
  | Some value => pb_encode_varint s (u64 value)
  end.

Definition pb_enc_uvarint : encoder := fun s field src =>
  let* v := int_value false (f_data_size field) src in
  match v with
  | None => ret (false, os_error s "invalid data_size")
  | Some value => pb_encode_varint s value
  end.

Definition pb_enc_svarint : encoder := fun s field src =>
  let* v := int_value true (f_data_size field) src in
  match v with
  | None => ret (false, os_error s "invalid data_size")
  | Some value => pb_encode_svarint s value
  end.

Definition pb_enc_fixed64 : encoder := fun s _ src => pb_encode_fixed64 s src.
Definition pb_enc_fixed32 : encoder := fun s _ src => pb_encode_fixed32 s src.

Definition pb_enc_bytes : encoder := fun s field src =>
  if src =? 0 then pb_encode_string s (WMem 0) 0
  else
    let* size := load_le 4 (src + off_bytes_size) in
    if (PB_ATYPE (f_type field) =? PB_ATYPE_STATIC) &&
       (f_data_size field <? PB_BYTES_ARRAY_T_ALLOCSIZE size)
    then ret (false, os_error s "bytes size exceeded")
    else pb_encode_string s (WMem (src + off_bytes_bytes)) size.

(** [while (size < max_size && *p != 0) size++, p++]: [fuel] is [max_size],
    or a bound on the memory for pointer fields, whose [max_size] is
    [SIZE_MAX]. *)
Fixpoint strnlen_loop (fuel : nat) (p size max_size : Z) : C Z :=
  if size <? max_size then
    match fuel with
    | O => nofuel
    | S fuel' => let* c := load8 p in
                 if c =? 0 then ret size else strnlen_loop fuel' (p + 1) (size + 1) max_size
    end
  else ret size.

Definition pb_enc_string : encoder := fun s field src =>
  let max_size := if PB_ATYPE (f_type field) =? PB_ATYPE_POINTER then 2 ^ 64 - 1
                  else f_data_size field in
  if src =? 0 then pb_encode_string s (WMem src) 0
  else
    let* fuel := mem_fuel in
    let* size := strnlen_loop fuel src 0 max_size in
    pb_encode_string s (WMem src) size.

Definition pb_enc_fixed_length_bytes : encoder := fun s field src =>
  pb_encode_string s (WMem src) (f_data_size field).

(** ** One field, given the encoder of submessage structures *)
Section Field.
(** [pb_encode], one nesting level down. *)
Variable encode_msg : pb_ostream_t -> list pb_field_t -> Z -> C (bool * pb_ostream_t).
Variable fuel : nat.

Definition pb_encode_submessage (s : pb_ostream_t) (fields : list pb_field_t) (src_struct : Z)
  : C (bool * pb_ostream_t) :=
  let* ' (ok, substream) := encode_msg PB_OSTREAM_SIZING fields src_struct in
  if negb ok then
    ret (false, mkOstream (os_callback s) (os_state s) (max_size s) (bytes_written s)
                          (os_errmsg substream))
  else
    let size := bytes_written substream in
    let* ' (ok, s) := pb_encode_varint s size in
    if negb ok then ret (false, s)
    else match os_callback s with
    | OCb_NULL => pb_write s (WMem 0) size
    | _ =>
        if max_size s <? u64 (bytes_written s + size)
        then ret (false, os_error s "stream full")
        else
          let* ' (status, sub) :=
            encode_msg (mkOstream (os_callback s) (os_state s) size 0 None) fields src_struct in
          let s := mkOstream (os_callback s) (os_state sub) (max_size s)
                             (u64 (bytes_written s + bytes_written sub)) (os_errmsg sub) in
          if negb (bytes_written sub =? size)
          then ret (false, os_error s "submsg size changed")
          else ret (status, s)
    end.

Definition pb_enc_submessage : encoder := fun s field src =>
  if f_ptr field =? 0 then ret (false, os_error s "invalid field descriptor")
  else let* fields := need (field_array (f_ptr field)) in
       pb_encode_submessage s fields src.

(** The table of encoders; the entry of extensions is null. *)
Definition PB_ENCODERS : list (option encoder) :=
  [Some pb_enc_varint; Some pb_enc_uvarint; Some pb_enc_svarint; Some pb_enc_fixed32;
   Some pb_enc_fixed64; Some pb_enc_bytes; Some pb_enc_string; Some pb_enc_submessage;
   None; Some pb_enc_fixed_length_bytes].

(** Calling through the table; a null or missing entry is undefined. *)
Definition call_encoder (ltype : Z) : encoder :=
  match nth_error PB_ENCODERS (Z.to_nat ltype) with
  | Some (Some f) => f
  | _ => fun _ _ _ => undef
  end.

(** [for (i = 0; i < count; i++) { func(stream, field, p); p += data_size }]. *)
Fixpoint encode_items (count : nat) (func : encoder) (s : pb_ostream_t) (field : pb_field_t) (p : Z)
  : C (bool * pb_ostream_t) :=
  match count with
  | O => ret (true, s)
  | S count' =>
      let* ' (ok, s) := func s field p in
      if negb ok then ret (false, s)
      else encode_items count' func s field (p + f_data_size field)
  end.

(** The item of an unpacked array with its tag; pointer arrays of strings
    and bytes hold pointers. *)
Definition encode_tagged_item (func : encoder) : encoder := fun s field p =>
  let* ' (ok, s) := pb_encode_tag_for_field s field in
  if negb ok then ret (false, s)
  else if (PB_ATYPE (f_type field) =? PB_ATYPE_POINTER) &&
          ((PB_LTYPE (f_type field) =? PB_LTYPE_STRING) || (PB_LTYPE (f_type field) =? PB_LTYPE_BYTES))
  then let* q := load_ptr p in func s field q
  else func s field p.

(** The length of a packed array. *)
Definition packed_size (field : pb_field_t) (data count : Z) (func : encoder) : C (option Z) :=
  if PB_LTYPE (f_type field) =? PB_LTYPE_FIXED32 then ret (Some (u64 (4 * count)))
  else if PB_LTYPE (f_type field) =? PB_LTYPE_FIXED64 then ret (Some (u64 (8 * count)))
  else
    let* ' (ok, sizestream) := encode_items (Z.to_nat count) func PB_OSTREAM_SIZING field data in
    ret (if ok then Some (bytes_written sizestream) else None).

Definition encode_array (s : pb_ostream_t) (field : pb_field_t) (data count : Z) (func : encoder)
  : C (bool * pb_ostream_t) :=
  if count =? 0 then ret (true, s)
  else if negb (PB_ATYPE (f_type field) =? PB_ATYPE_POINTER) && (f_array_size field <? count)
  then ret (false, os_error s "array max size exceeded")
  else if PB_LTYPE (f_type field) <=? PB_LTYPE_LAST_PACKABLE then
    let* ' (ok, s) := pb_encode_tag s PB_WT_STRING (f_tag field) in
    if negb ok then ret (false, s)
    else
      let* size := packed_size field data count func in
      match size with
      | None => ret (false, s)
      | Some size =>
          let* ' (ok, s) := pb_encode_varint s size in
          if negb ok then ret (false, s)
          else match os_callback s with
          | OCb_NULL => pb_write s (WMem 0) size
          | _ => encode_items (Z.to_nat count) func s field data
          end
      end
  else encode_items (Z.to_nat count) (encode_tagged_item func) s field data.

(** Tag, then value. *)
Definition encode_with_tag (func : encoder) (s : pb_ostream_t) (field : pb_field_t) (data : Z)
  : C (bool * pb_ostream_t) :=
  let* ' (ok, s) := pb_encode_tag_for_field s field in
  if negb ok then ret (false, s) else func s field data.

Definition encode_basic_field (s : pb_ostream_t) (field : pb_field_t) (data : Z)
  : C (bool * pb_ostream_t) :=
  let type := f_type field in
  let func := call_encoder (PB_LTYPE type) in
  let size := data + f_size_offset field in
  let has_size := truthy (f_size_offset field) in
  let* implicit_has :=
    if has_size then ret false
    else if PB_HTYPE type =? PB_HTYPE_OPTIONAL then
      let* b := pb_check_proto3_default_value fuel field data in ret (negb b)
    else ret true in
  let* ' (data, implicit_has) :=
    if PB_ATYPE type =? PB_ATYPE_POINTER
    then let* q := load_ptr data in ret (q, negb (q =? 0))
    else ret (data, implicit_has) in
  if PB_HTYPE type =? PB_HTYPE_REQUIRED then
    if data =? 0 then ret (false, os_error s "missing required field")
    else encode_with_tag func s field data
  else if PB_HTYPE type =? PB_HTYPE_OPTIONAL then
    let* has := if has_size then load_bool size else ret implicit_has in
    if has then encode_with_tag func s field data else ret (true, s)
  else if PB_HTYPE type =? PB_HTYPE_REPEATED then
    let* count := if has_size then load_le 4 size else ret (f_array_size field) in
    encode_array s field data count func
  else if PB_HTYPE type =? PB_HTYPE_ONEOF then
    (* without a size offset [pSize] is the address of the local [implicit_has] *)
    let* which := if has_size then load_le 4 size else undef in
    if which =? f_tag field then encode_with_tag func s field data else ret (true, s)
  else ret (false, os_error s "invalid field type").

Definition encode_callback_field (s : pb_ostream_t) (field : pb_field_t) (data : Z)
  : C (bool * pb_ostream_t) :=
  let* encode := load_ptr (data + off_callback_funcs) in
  if encode =? 0 then ret (true, s)
  else
    let* ' (ok, s) := encode_fn encode s field (data + off_callback_arg) in
    if negb ok then ret (false, os_error s "callback error") else ret (true, s).

Definition encode_field (s : pb_ostream_t) (field : pb_field_t) (data : Z)
  : C (bool * pb_ostream_t) :=
  let atype := PB_ATYPE (f_type field) in
  if (atype =? PB_ATYPE_STATIC) || (atype =? PB_ATYPE_POINTER) then encode_basic_field s field data
  else if atype =? PB_ATYPE_CALLBACK then encode_callback_field s field data
  else ret (false, os_error s "invalid field type").

Definition default_extension_encoder (s : pb_ostream_t) (extension : Z) : C (bool * pb_ostream_t) :=
  let* type := load_ptr (extension + off_ext_type) in
  let* arg := load_ptr (type + off_exttype_arg) in
  let* fields := need (field_array arg) in
  let field := field_at fields 0 in
  if PB_ATYPE (f_type field) =? PB_ATYPE_POINTER
  then encode_field s field (extension + off_ext_dest)
  else let* dest := load_ptr (extension + off_ext_dest) in encode_field s field dest.

(** [while (extension)]: the list is in memory, [n] bounds its length. *)
Fixpoint encode_extensions (n : nat) (s : pb_ostream_t) (extension : Z) : C (bool * pb_ostream_t) :=
  if extension =? 0 then ret (true, s)
  else match n with
  | O => nofuel
  | S n' =>
      let* type := load_ptr (extension + off_ext_type) in
      let* encode := load_ptr (type + off_exttype_encode) in
      let* ' (status, s) := if encode =? 0 then default_extension_encoder s extension
                            else ext_encode_fn encode s extension in
      if negb status then ret (false, s)
      else let* next := load_ptr (extension + off_ext_next) in encode_extensions n' s next
  end.

Definition encode_extension_field (s : pb_ostream_t) (data : Z) : C (bool * pb_ostream_t) :=
  let* extension := load_ptr data in encode_extensions fuel s extension.

(** The body of the loop of [pb_encode]. *)
Definition encode_step (it : pb_field_iter_t) (s : pb_ostream_t) : C (bool * pb_ostream_t) :=
  if PB_LTYPE (f_type (it_field it)) =? PB_LTYPE_EXTENSION
  then encode_extension_field s (pData it)
  else encode_field s (it_field it) (pData it).
End Field.

(** ** Messages *)

(** [fuel] bounds the nesting of submessages. *)
Fixpoint pb_encode (fuel : nat) (s : pb_ostream_t) (fields : list pb_field_t) (src_struct : Z)
  : C (bool * pb_ostream_t) :=
  match fuel with
  | O => nofuel
  | S fuel' =>
      match pb_field_iter_begin fields src_struct with
      | (false, _) => ret (true, s)
      | (true, it) =>
          let* ' (ok, s, _) := do_fields (iter_fuel it) (encode_step (pb_encode fuel') fuel') it s in
          ret (ok, s)
      end
  end.

Definition pb_encode_delimited (fuel : nat) (s : pb_ostream_t) (fields : list pb_field_t) (src_struct : Z)
  : C (bool * pb_ostream_t) :=
  pb_encode_submessage (pb_encode fuel) s fields src_struct.

Definition pb_encode_nullterminated (fuel : nat) (s : pb_ostream_t) (fields : list pb_field_t)
    (src_struct : Z) : C (bool * pb_ostream_t) :=
  let* ' (ok, s) := pb_encode fuel s fields src_struct in
  if negb ok then ret (false, s) else pb_write s (WLocal [0]) 1.

(** Success and the size. *)
Definition pb_get_encoded_size (fuel : nat) (fields : list pb_field_t) (src_struct : Z)
  : C (option Z) :=
  let* ' (ok, s) := pb_encode fuel PB_OSTREAM_SIZING fields src_struct in
  ret (if ok then Some (bytes_written s) else None).
End Encode.
