(* ===== verification/PbEncodeSpec.v ===== *)
(** The reference encoder: the bytes a message structure stands for, and the
    relation between a stream writer and the bytes it emits. *)

From stdpp Require Import base list gmap strings.
From Stdlib Require Import ZArith Lia.
From S2P Require Import Prelude CMem PbTypes PbCommon PbIter PbOstream PbWire PbEncode.

(** * Encodings *)

(** What encoding an object comes to: the encoder reports an error, or the
    object has these bytes. *)
Inductive encoding : Type :=
| Fails
| Emits (l : list Z).

(** An encoding read from memory; [None] when the object reaches outside of
    the memory, leads through a callback of the program or is longer than a
    64-bit object can be. *)
Definition E : Type := mem -> option encoding.

Definition e_emit (l : list Z) : E := fun _ => Some (Emits l).
Definition e_fail : E := fun _ => Some Fails.
Definition e_undef : E := fun _ => None.

(** Read the memory, then encode. *)
Definition e_read {A} (c : C A) (k : A -> E) : E :=
  fun m => match run c m with Some v => k v m | None => None end.

Definition e_seq (e1 e2 : E) : E :=
  fun m => match e1 m with
           | Some (Emits l1) =>
               match e2 m with
               | Some (Emits l2) => Some (Emits (l1 ++ l2))
               | r => r
               end
           | r => r
           end.

(** No object is as long as this. *)
Definition len_limit : Z := 2 ^ 63.

Definition e_bytes (n a : Z) : E :=
  if (0 <=? n) && (n <? len_limit)
  then e_read (load_bytes (Z.to_nat n) a) e_emit else e_undef.

(** Length-delimited. *)
Definition e_delimited (e : E) : E :=
  fun m => match e m with
           | Some (Emits l) =>
               if Z.of_nat (length l) <? len_limit
               then Some (Emits (varint (Z.of_nat (length l)) ++ l)) else None
           | r => r
           end.

(** * Writers *)

(** A stream into memory with its room free in the memory [m0] of the source. *)
Record buffer_ok (m0 m : mem) (s : pb_ostream_t) : Prop := {
  bo_callback : os_callback s = OCb_buf_write;
  bo_written : 0 <= bytes_written s <= max_size s;
  bo_limit : max_size s < len_limit;
  bo_mapped : mapped_range m (os_state s) (max_size s - bytes_written s);
  bo_free : forall x, range (os_state s) (max_size s - bytes_written s) x -> m_bytes m0 !! x = None;
}.

(** A stream that only counts. *)
Definition sizing_ok (s : pb_ostream_t) : Prop :=
  os_callback s = OCb_NULL /\ 0 <= bytes_written s < 2 ^ 64.

Definition os_set_errmsg (s : pb_ostream_t) (e : option string) : pb_ostream_t :=
  mkOstream (os_callback s) (os_state s) (max_size s) (bytes_written s) e.

(** The results of writing the encoding [o] to a sizing stream ... *)
Definition sizing_result (s : pb_ostream_t) (o : encoding) (m : mem) (r : outcome (bool * pb_ostream_t * mem)) : Prop :=
  match o with
  | Emits l => exists e, r = Ret ((true, os_set_errmsg (os_set_written s (u64 (bytes_written s + Z.of_nat (length l)))) e), m)
  | Fails => exists s', r = Ret ((false, s'), m)
  end.

(** ... and to a buffer: either all of it is there, or the writer failed and
    touched nothing but the room it had. *)
Definition writer_failed (s : pb_ostream_t) (m : mem) (r : outcome (bool * pb_ostream_t * mem)) : Prop :=
  exists s' m', r = Ret ((false, s'), m') /\
    frame (range (os_state s) (max_size s - bytes_written s)) m m'.

Definition buffer_result (s : pb_ostream_t) (o : encoding) (m : mem) (r : outcome (bool * pb_ostream_t * mem)) : Prop :=
  match o with
  | Emits l =>
      if bytes_written s + Z.of_nat (length l) <=? max_size s
      then exists e, r = Ret ((true, os_set_errmsg (os_advance s (Z.of_nat (length l))) e), poke m (os_state s) l)
      else writer_failed s m r
  | Fails => writer_failed s m r
  end.

(** The writer [f] writes the encoding [e]. *)
Definition emits (f : pb_ostream_t -> C (bool * pb_ostream_t)) (e : E) : Prop :=
  forall m0 m o, e m0 = Some o -> submem m0 m ->
    (forall s, sizing_ok s -> sizing_result s o m (f s m)) /\
    (forall s, buffer_ok m0 m s -> buffer_result s o m (f s m)).

(** * Composing writers *)

Lemma set_errmsg_same s : os_set_errmsg s (os_errmsg s) = s.
Proof. by destruct s. Qed.

Lemma os_advance_0 s : os_advance s 0 = s.
Proof. destruct s; unfold os_advance; simpl. by rewrite !Z.add_0_r. Qed.

Lemma buffer_full s m o (msg : string) :
  match o with Emits l => max_size s < bytes_written s + Z.of_nat (length l) | Fails => True end ->
  buffer_result s o m (Ret ((false, os_error s msg), m)).
Proof.
  intros Ho. assert (writer_failed s m (Ret ((false, os_error s msg), m))).
  { eexists _, m. split; [done|apply frame_refl]. }
  destruct o as [|l]; [done|]. unfold buffer_result.
  by destruct (Z.leb_spec (bytes_written s + Z.of_nat (length l)) (max_size s)); [lia|].
Qed.

Lemma buffer_ok_advance m0 m s e l :
  buffer_ok m0 m s -> bytes_written s + Z.of_nat (length l) <= max_size s ->
  buffer_ok m0 (poke m (os_state s) l) (os_set_errmsg (os_advance s (Z.of_nat (length l))) e).
Proof.
  intros [Hc Hw Hlim Hm Hf] Hfit. split; simpl; [done|lia|done| |].
  - apply mapped_range_poke; eapply mapped_range_sub; [exact Hm|lia..|exact Hm|lia|lia].
  - intros x Hx. apply Hf. unfold range in *. lia.
Qed.

Lemma submem_room m0 m s l :
  buffer_ok m0 m s -> bytes_written s + Z.of_nat (length l) <= max_size s ->
  submem m0 m -> submem m0 (poke m (os_state s) l).
Proof.
  intros [Hc Hw Hlim Hm Hf] Hfit Hs. apply submem_poke; [done|]. intros x Hx. apply Hf.
  unfold range in *. lia.
Qed.

Lemma frame_room m0 m s l :
  buffer_ok m0 m s -> bytes_written s + Z.of_nat (length l) <= max_size s ->
  frame (range (os_state s) (max_size s - bytes_written s)) m (poke m (os_state s) l).
Proof.
  intros [Hc Hw Hlim Hm Hf] Hfit. eapply frame_mono; [|apply frame_poke; eapply mapped_range_sub; [exact Hm|lia..]].
  unfold range. lia.
Qed.

Section Writers.
Context `{Program}.

Lemma emits_fail (msg : string) : emits (fun s => ret (false, os_error s msg)) e_fail.
Proof.
  intros m0 m o Eo Hs. injection Eo as <-. split; intros s Hsb; [by eexists|].
  eexists _, m. split; [done|apply frame_refl].
Qed.

(** Failing without a message. *)
Lemma emits_false : emits (fun s => ret (false, s)) e_fail.
Proof.
  intros m0 m o Eo Hs. injection Eo as <-. split; intros s Hsb; [by eexists|].
  eexists _, m. split; [done|apply frame_refl].
Qed.

Lemma emits_undef f : emits f e_undef.
Proof. intros m0 m o Eo Hs. done. Qed.

Lemma emits_done : emits (fun s => ret (true, s)) (e_emit []).
Proof.
  intros m0 m o Eo Hs. injection Eo as <-. split; intros s Hsb.
  - exists (os_errmsg s). destruct Hsb as [_ Hw]. cbn [length]. rewrite Z.add_0_r, wrap_small by done.
    unfold os_set_written, os_set_errmsg; simpl. by destruct s.
  - unfold buffer_result. cbn [length]. destruct Hsb as [_ Hw _ _ _].
    destruct (Z.leb_spec (bytes_written s + Z.of_nat 0) (max_size s)); [|lia].
    exists (os_errmsg s). by rewrite os_advance_0, set_errmsg_same, poke_nil.
Qed.

Lemma emits_read {A} (c : C A) f k :
  stable c -> (forall v, emits (f v) (k v)) -> emits (fun s => let* v := c in f v s) (e_read c k).
Proof.
  intros Hc Hk m0 m o Eo Hs. unfold e_read in Eo. destruct (run c m0) as [v|] eqn:Ev; [|done].
  pose proof (run_stable _ _ _ _ Hc Ev Hs) as Ec. destruct (Hk v m0 m o Eo Hs) as [H1 H2].
  unfold bind. rewrite Ec. done.
Qed.

Lemma emits_seq f1 e1 f2 e2 :
  emits f1 e1 -> emits f2 e2 ->
  emits (fun s => let* ' (ok, s) := f1 s in if negb ok then ret (false, s) else f2 s) (e_seq e1 e2).
Proof.
  intros H1 H2 m0 m o Eo Hs. unfold e_seq in Eo.
  destruct (e1 m0) as [[|l1]|] eqn:E1; [| |done].
  - injection Eo as <-. destruct (H1 m0 m Fails E1 Hs) as [Hz Hb]. split; intros s Hsb.
    + destruct (Hz s Hsb) as (s' & E). unfold bind. rewrite E. by exists s'.
    + destruct (Hb s Hsb) as (s' & m' & E & Hf). unfold bind, buffer_result. rewrite E. by exists s', m'.
  - destruct (H1 m0 m (Emits l1) E1 Hs) as [Hz Hb]. split; intros s Hsb.
    + destruct (Hz s Hsb) as (e & E). unfold bind. rewrite E. cbn [negb].
      set (s1 := os_set_errmsg _ _). assert (Hs1 : sizing_ok s1).
      { destruct Hsb as [Hc Hw]. split; [done|]. simpl. apply wrap_range. lia. }
      destruct (e2 m0) as [[|l2]|] eqn:E2; [| |done]; injection Eo as <-;
        destruct (H2 m0 m _ E2 Hs) as [Hz2 _]; specialize (Hz2 s1 Hs1).
      * done.
      * destruct Hz2 as (e' & E'). exists e'. rewrite E'. unfold os_set_errmsg, os_set_written; simpl.
        rewrite length_app, wrap_add_idemp_l. do 5 f_equal. lia.
    + specialize (Hb s Hsb). unfold buffer_result in Hb.
      destruct (Z.leb_spec (bytes_written s + Z.of_nat (length l1)) (max_size s)) as [Hfit|Hno].
      2:{ destruct Hb as (s' & m' & E & Hf). unfold bind. rewrite E. cbn [negb].
          assert (W : writer_failed s m (Ret ((false, s'), m'))) by by exists s', m'.
          destruct (e2 m0) as [[|l2]|] eqn:E2; [| |done]; injection Eo as <-; [done|].
          unfold buffer_result. rewrite length_app.
          by destruct (Z.leb_spec (bytes_written s + Z.of_nat (length l1 + length l2)) (max_size s)); [lia|]. }
      destruct Hb as (e & E). unfold bind. rewrite E. cbn [negb].
      set (s1 := os_set_errmsg _ e). set (m1 := poke m _ l1).
      pose proof (buffer_ok_advance m0 m s e l1 Hsb Hfit) as Hs1.
      pose proof (submem_room m0 m s l1 Hsb Hfit Hs) as Hsub.
      pose proof (frame_room m0 m s l1 Hsb Hfit) as F1.
      assert (Hfail : forall r, writer_failed s1 m1 r -> writer_failed s m r).
      { intros r (s' & m' & -> & F2). exists s', m'. split; [done|]. eapply frame_trans; [exact F1|].
        eapply frame_mono; [|exact F2]. unfold range, s1; simpl. lia. }
      destruct (e2 m0) as [[|l2]|] eqn:E2; [| |done]; injection Eo as <-;
        destruct (H2 m0 m1 _ E2 Hsub) as [_ Hb2]; specialize (Hb2 s1 Hs1).
      * by apply Hfail.
      * unfold buffer_result in *. rewrite length_app. unfold s1 at 1 2 in Hb2. cbn [bytes_written max_size os_set_errmsg os_advance] in Hb2.
        replace (bytes_written s + Z.of_nat (length l1 + length l2))
          with (bytes_written s + Z.of_nat (length l1) + Z.of_nat (length l2)) by lia.
        destruct (_ <=? max_size s); [|by apply Hfail].
        destruct Hb2 as (e' & E'). exists e'. rewrite E', poke_app.
        unfold s1, os_set_errmsg, os_advance; simpl. do 4 f_equal; lia.
Qed.

(** ** Single writes *)

Lemma sizing_write s buf l m :
  sizing_ok s -> sizing_result s (Emits l) m (pb_write s buf (Z.of_nat (length l)) m).
Proof.
  intros [Hc Hw]. exists (os_errmsg s). rewrite pb_write_sizing by done.
  unfold os_set_errmsg, os_set_written; simpl. done.
Qed.

Lemma buffer_room m0 m s (l : list Z) :
  buffer_ok m0 m s -> bytes_written s + Z.of_nat (length l) <= max_size s -> os_room m s (Z.of_nat (length l)).
Proof.
  intros [Hc Hw Hlim Hm Hf] Hfit. unfold len_limit in *. split; [done|lia|lia|].
  eapply mapped_range_sub; [exact Hm|lia..].
Qed.

Lemma buffer_write_full m0 m s buf (l : list Z) :
  buffer_ok m0 m s -> Z.of_nat (length l) < len_limit ->
  max_size s < bytes_written s + Z.of_nat (length l) ->
  buffer_result s (Emits l) m (pb_write s buf (Z.of_nat (length l)) m).
Proof.
  intros [Hc Hw Hlim Hm Hf] Hlen Hno. unfold len_limit in *.
  rewrite pb_write_full by (done || lia). by apply buffer_full.
Qed.

Lemma emits_local l :
  Z.of_nat (length l) < len_limit ->
  emits (fun s => pb_write s (WLocal l) (Z.of_nat (length l))) (e_emit l).
Proof.
  intros Hlen m0 m o Eo Hs. injection Eo as <-. split; intros s Hsb; [by apply sizing_write|].
  destruct (Z.le_gt_cases (bytes_written s + Z.of_nat (length l)) (max_size s)) as [Hfit|Hno].
  - unfold buffer_result. destruct (Z.leb_spec (bytes_written s + Z.of_nat (length l)) (max_size s)); [|lia].
    exists (os_errmsg s). rewrite pb_write_room by by eapply buffer_room.
    unfold os_set_errmsg, os_advance; simpl. done.
  - by eapply buffer_write_full.
Qed.

Lemma emits_mem n a : 0 <= n -> emits (fun s => pb_write s (WMem a) n) (e_bytes n a).
Proof.
  intros Hn m0 m o Eo Hs. unfold e_bytes in Eo.
  destruct (Z.leb_spec 0 n); [|lia]. destruct (Z.ltb_spec n len_limit) as [Hlim|]; [|done]. cbn [andb] in Eo.
  unfold e_read in Eo. destruct (run (load_bytes (Z.to_nat n) a) m0) as [l|] eqn:El; [|done]. injection Eo as <-.
  pose proof (run_stable _ _ _ _ (stable_load_bytes _ _) El Hs) as El'.
  unfold run in El. destruct (load_bytes (Z.to_nat n) a m0) as [[l' m']| |] eqn:El0; try done. injection El as ->.
  destruct (load_bytes_length _ _ _ _ _ El0) as (Hlen & _ & _).
  assert (En : n = Z.of_nat (length l)) by lia. rewrite En. split; intros s Hsb; [by apply sizing_write|].
  destruct (Z.le_gt_cases (bytes_written s + Z.of_nat (length l)) (max_size s)) as [Hfit|Hno];
    [|eapply buffer_write_full; [done|lia|done]].
  unfold buffer_result. destruct (Z.leb_spec (bytes_written s + Z.of_nat (length l)) (max_size s)); [|lia].
  exists (os_errmsg s). pose proof Hsb as [Hc Hw Hmax Hm Hf]. unfold len_limit in *.
  unfold pb_write, call_write. rewrite Hc, wrap_small by lia.
  destruct (Z.ltb_spec (max_size s) (bytes_written s + Z.of_nat (length l))); [lia|].
  unfold buf_write. rewrite <- En. unfold bind. rewrite (copy_loop_load _ _ _ _ l El').
  - unfold ret, os_advance, os_set_errmsg, os_set_written, os_set_state; simpl. rewrite Hc, wrap_small, En by lia. done.
  - eapply mapped_range_sub; [exact Hm|lia|lia].
  - intros x Hx Hy. apply load_bytes_mapped in El0.
    destruct (mapped_range_at _ _ _ x El0) as [b Hb]; [unfold range in Hy; lia|].
    rewrite Hf in Hb; [done|]. unfold range in *. lia.
Qed.

Lemma emits_varint v : 0 <= v < 2 ^ 64 -> emits (fun s => pb_encode_varint s v) (e_emit (varint v)).
Proof.
  intros Hv. pose proof (varint_length v). intros m0 m o Eo Hs.
  destruct (emits_local (varint v) ltac:(unfold len_limit; lia) m0 m o Eo Hs) as [H1 H2].
  split; intros s Hsb; rewrite pb_encode_varint_write by done; auto.
Qed.

Lemma emits_read_post {A} (c : C A) (P : A -> Prop) f k :
  stable c -> (forall m v, run c m = Some v -> P v) -> (forall v, P v -> emits (f v) (k v)) ->
  emits (fun s => let* v := c in f v s) (e_read c k).
Proof.
  intros Hc HP Hk m0 m o Eo Hs. unfold e_read in Eo. destruct (run c m0) as [v|] eqn:Ev; [|done].
  pose proof (run_stable _ _ _ _ Hc Ev Hs) as Ec. destruct (Hk v (HP _ _ Ev) m0 m o Eo Hs) as [H1 H2].
  unfold bind. rewrite Ec. done.
Qed.

Lemma emits_fixed32 a : emits (fun s => pb_encode_fixed32 s a) (e_read (load_bytes 4 a) e_emit).
Proof.
  intros m0 m o Eo Hs. unfold e_read in Eo. destruct (run (load_bytes 4 a) m0) as [l|] eqn:El; [|done].
  pose proof (run_stable _ _ _ _ (stable_load_bytes _ _) El Hs) as El'.
  destruct (load_bytes_length _ _ _ _ _ El') as (Hlen & _ & _).
  destruct (emits_local l ltac:(unfold len_limit; lia) m0 m o Eo Hs) as [H1 H2].
  rewrite Hlen in H1, H2. split; intros s Hsb; rewrite (encode_fixed32_load _ _ _ _ El'); auto.
Qed.

Lemma emits_fixed64 a : emits (fun s => pb_encode_fixed64 s a) (e_read (load_bytes 8 a) e_emit).
Proof.
  intros m0 m o Eo Hs. unfold e_read in Eo. destruct (run (load_bytes 8 a) m0) as [l|] eqn:El; [|done].
  pose proof (run_stable _ _ _ _ (stable_load_bytes _ _) El Hs) as El'.
  destruct (load_bytes_length _ _ _ _ _ El') as (Hlen & _ & _).
  destruct (emits_local l ltac:(unfold len_limit; lia) m0 m o Eo Hs) as [H1 H2].
  rewrite Hlen in H1, H2. split; intros s Hsb; rewrite (encode_fixed64_load _ _ _ _ El'); auto.
Qed.
End Writers.

(** * The reference encoder *)

(** The tag before a field. *)
Definition tag_bytes (wiretype tag : Z) : list Z := varint (Z.lor (u64 (Z.shiftl tag 3)) wiretype).

Lemma tag_bytes_value wt tag :
  0 <= wt < 8 -> 0 <= tag < 2 ^ 32 -> tag_bytes wt tag = varint (tag_value wt tag).
Proof.
  intros Hwt Htag. unfold tag_bytes, tag_value. f_equal.
  rewrite Z.shiftl_mul_pow2, wrap_small by lia.
  rewrite Z.lor_comm, <- Z.shiftl_mul_pow2 by lia. rewrite (lor_shiftl_add wt tag 3) by lia. lia.
Qed.

Definition e_tag (field : pb_field_t) : E :=
  match wire_type_of (PB_LTYPE (f_type field)) with
  | Some wiretype => e_emit (tag_bytes wiretype (f_tag field))
  | None => e_fail
  end.

(** A length and the bytes at [a]. *)
Definition e_string (a n : Z) : E := e_seq (e_emit (varint (u64 n))) (e_bytes n a).

Definition e_int (signed : bool) (enc : Z -> Z) (field : pb_field_t) (src : Z) : E :=
  e_read (int_value signed (f_data_size field) src)
    (fun v => match v with Some v => e_emit (varint (enc v)) | None => e_fail end).

Definition e_enc_bytes (field : pb_field_t) (src : Z) : E :=
  if src =? 0 then e_string 0 0
  else e_read (load_le 4 (src + off_bytes_size)) (fun size =>
    if (PB_ATYPE (f_type field) =? PB_ATYPE_STATIC) && (f_data_size field <? PB_BYTES_ARRAY_T_ALLOCSIZE size)
    then e_fail else e_string (src + off_bytes_bytes) size).

(** The length of a string of at most [max_size] bytes. *)
Definition string_length (src max_size : Z) : C Z :=
  let* fuel := mem_fuel in strnlen_loop fuel src 0 max_size.

Definition e_enc_string (field : pb_field_t) (src : Z) : E :=
  let max_size := if PB_ATYPE (f_type field) =? PB_ATYPE_POINTER then 2 ^ 64 - 1 else f_data_size field in
  if src =? 0 then e_string src 0
  else e_read (string_length src max_size) (fun size => e_string src size).

Section Reference.
Context `{Program}.
Variable e_msg : list pb_field_t -> Z -> E.
Variable fuel : nat.

Definition e_enc_submessage (field : pb_field_t) (src : Z) : E :=
  if f_ptr field =? 0 then e_fail
  else e_read (need (field_array (f_ptr field))) (fun fields => e_delimited (e_msg fields src)).

Definition E_ENCODERS : list (option (pb_field_t -> Z -> E)) :=
  [Some (e_int true (wrap 64)); Some (e_int false (fun v => v)); Some (e_int true zigzag);
   Some (fun _ src => e_read (load_bytes 4 src) e_emit); Some (fun _ src => e_read (load_bytes 8 src) e_emit);
   Some e_enc_bytes; Some e_enc_string; Some e_enc_submessage; None;
   Some (fun field src => e_string src (f_data_size field))].

Definition e_call (ltype : Z) : pb_field_t -> Z -> E :=
  match nth_error E_ENCODERS (Z.to_nat ltype) with
  | Some (Some e) => e
  | _ => fun _ _ => e_undef
  end.

Fixpoint e_items (count : nat) (ef : pb_field_t -> Z -> E) (field : pb_field_t) (p : Z) : E :=
  match count with
  | O => e_emit []
  | S count' => e_seq (ef field p) (e_items count' ef field (p + f_data_size field))
  end.

Definition e_tagged_item (ef : pb_field_t -> Z -> E) (field : pb_field_t) (p : Z) : E :=
  e_seq (e_tag field)
    (if (PB_ATYPE (f_type field) =? PB_ATYPE_POINTER) &&
        ((PB_LTYPE (f_type field) =? PB_LTYPE_STRING) || (PB_LTYPE (f_type field) =? PB_LTYPE_BYTES))
     then e_read (load_ptr p) (fun q => ef field q) else ef field p).

(** An array, packed when its type allows. *)
Definition e_array (field : pb_field_t) (data count : Z) (ef : pb_field_t -> Z -> E) : E :=
  if count <? 0 then e_undef
  else if count =? 0 then e_emit []
  else if negb (PB_ATYPE (f_type field) =? PB_ATYPE_POINTER) && (f_array_size field <? count) then e_fail
  else if PB_LTYPE (f_type field) <=? PB_LTYPE_LAST_PACKABLE
  then e_seq (e_emit (tag_bytes PB_WT_STRING (f_tag field))) (e_delimited (e_items (Z.to_nat count) ef field data))
  else e_items (Z.to_nat count) (e_tagged_item ef) field data.

Definition e_with_tag (ef : pb_field_t -> Z -> E) (field : pb_field_t) (data : Z) : E :=
  e_seq (e_tag field) (ef field data).

(** Whether a field without [has] variable is there, and where its data is. *)
Definition implicit_presence (field : pb_field_t) (data : Z) : C (Z * bool) :=
  let type := f_type field in
  let* implicit_has :=
    if truthy (f_size_offset field) then ret false
    else if PB_HTYPE type =? PB_HTYPE_OPTIONAL then
      let* b := pb_check_proto3_default_value fuel field data in ret (negb b)
    else ret true in
  if PB_ATYPE type =? PB_ATYPE_POINTER
  then let* q := load_ptr data in ret (q, negb (q =? 0))
  else ret (data, implicit_has).

Definition e_basic_field (field : pb_field_t) (data : Z) : E :=
  let type := f_type field in
  let ef := e_call (PB_LTYPE type) in
  let size := data + f_size_offset field in
  let has_size := truthy (f_size_offset field) in
  e_read (implicit_presence field data) (fun '(data, implicit_has) =>
    if PB_HTYPE type =? PB_HTYPE_REQUIRED then
      if data =? 0 then e_fail else e_with_tag ef field data
    else if PB_HTYPE type =? PB_HTYPE_OPTIONAL then
      e_read (if has_size then load_bool size else ret implicit_has) (fun has =>
        if has then e_with_tag ef field data else e_emit [])
    else if PB_HTYPE type =? PB_HTYPE_REPEATED then
      e_read (if has_size then load_le 4 size else ret (f_array_size field)) (fun count =>
        e_array field data count ef)
    else if PB_HTYPE type =? PB_HTYPE_ONEOF then
      e_read (if has_size then load_le 4 size else undef) (fun which =>
        if which =? f_tag field then e_with_tag ef field data else e_emit [])
    else e_fail).

(** A callback field is encoded by the program: only an absent callback has a
    reference encoding. *)
Definition e_callback_field (data : Z) : E :=
  e_read (load_ptr (data + off_callback_funcs)) (fun encode => if encode =? 0 then e_emit [] else e_undef).

Definition e_field (field : pb_field_t) (data : Z) : E :=
  let atype := PB_ATYPE (f_type field) in
  if (atype =? PB_ATYPE_STATIC) || (atype =? PB_ATYPE_POINTER) then e_basic_field field data
  else if atype =? PB_ATYPE_CALLBACK then e_callback_field data
  else e_fail.

(** The extensions of the default handler. *)
Definition e_extension (extension : Z) : E :=
  e_read (load_ptr (extension + off_ext_type)) (fun type =>
  e_read (load_ptr (type + off_exttype_arg)) (fun arg =>
  e_read (need (field_array arg)) (fun fields =>
    let field := field_at fields 0 in
    if PB_ATYPE (f_type field) =? PB_ATYPE_POINTER then e_field field (extension + off_ext_dest)
    else e_read (load_ptr (extension + off_ext_dest)) (fun dest => e_field field dest)))).

Fixpoint e_extensions (n : nat) (extension : Z) : E :=
  if extension =? 0 then e_emit []
  else match n with
  | O => e_undef
  | S n' =>
      e_read (load_ptr (extension + off_ext_type)) (fun type =>
      e_read (load_ptr (type + off_exttype_encode)) (fun encode =>
        if encode =? 0
        then e_seq (e_extension extension)
               (e_read (load_ptr (extension + off_ext_next)) (fun next => e_extensions n' next))
        else e_undef))
  end.

Definition e_step (it : pb_field_iter_t) : E :=
  if PB_LTYPE (f_type (it_field it)) =? PB_LTYPE_EXTENSION
  then e_read (load_ptr (pData it)) (fun extension => e_extensions fuel extension)
  else e_field (it_field it) (pData it).
End Reference.

(** The fields one after the other. *)
Fixpoint e_do_fields (fuel : nat) (body : pb_field_iter_t -> E) (it : pb_field_iter_t) : E :=
  match fuel with
  | O => e_undef
  | S fuel' =>
      e_seq (body it)
        (match pb_field_iter_next it with
         | (true, it) => e_do_fields fuel' body it
         | (false, _) => e_emit []
         end)
  end.

(** The encoding of a message: the fields in the order of the descriptors. *)
Fixpoint ref_encode `{Program} (fuel : nat) (fields : list pb_field_t) (src : Z) : E :=
  match fuel with
  | O => e_undef
  | S fuel' =>
      match pb_field_iter_begin fields src with
      | (false, _) => e_emit []
      | (true, it) => e_do_fields (iter_fuel it) (e_step (ref_encode fuel') fuel') it
      end
  end.

(** ** The shape of a message encoding *)

(** The encodings of a list one after the other. *)
Definition e_concat (l : list E) : E := foldr e_seq (e_emit []) l.

Lemma e_do_fields_concat fields dest body i n :
  tags_ok fields -> (i < length fields)%nat -> (length fields - i <= n)%nat ->
  e_do_fields n body (iter_at fields dest i) =
  e_concat (map (fun j => body (iter_at fields dest j)) (seq i (length fields - i))).
Proof.
  intros Ht. revert i. induction n as [|n IH]; intros i Hi Hn; [lia|].
  cbn [e_do_fields]. rewrite (iter_next_at fields dest Ht i Hi). unfold next_pos.
  replace (length fields - i)%nat with (S (length fields - S i)) by lia. cbn [seq map e_concat foldr].
  destruct (decide (S i = length fields)) as [E|Hne].
  - rewrite bool_decide_true by done. cbn [negb]. by rewrite E, Nat.sub_diag.
  - rewrite bool_decide_false by done. cbn [negb]. f_equal. apply IH; lia.
Qed.

(** The encoding of a message is that of its fields in the order of the
    descriptor array. *)
Lemma ref_encode_fields `{Program} fuel fields src :
  tags_ok fields -> fields <> [] ->
  ref_encode (S fuel) fields src =
  e_concat (map (fun i => e_step (ref_encode fuel) fuel (iter_at fields src i)) (seq 0 (length fields))).
Proof.
  intros Ht Hne. cbn [ref_encode].
  assert (Hpos : (0 < length fields)%nat) by (destruct fields; [done|simpl; lia]).
  pose proof (field_at_tag fields Ht 0 Hpos) as Htag.
  unfold pb_field_iter_begin at 1. destruct (Z.eqb_spec (f_tag (field_at fields 0)) 0); [done|]. cbn [negb].
  change (mkIter fields 0 0 src _ _) with (iter_at fields src 0).
  destruct (iter_at_pos fields src Ht 0 Hpos) as (Hs & _). unfold iter_fuel. rewrite Hs.
  rewrite (e_do_fields_concat fields src _ 0 (S (length fields)) Ht Hpos) by lia. by rewrite Nat.sub_0_r.
Qed.

(** * Properties

    The encoder emits the reference encoding: the proof, construct by
    construct. *)

Lemma emits_ext f g e : (forall s m, f s m = g s m) -> emits f e -> emits g e.
Proof.
  intros Hfg Hf m0 m o Eo Hs. destruct (Hf m0 m o Eo Hs) as [H1 H2].
  split; intros s Hsb; rewrite <- Hfg; auto.
Qed.

Lemma bind_assoc {S A B D} (c : M S A) (k1 : A -> M S B) (k2 : B -> M S D) s :
  bind (bind c k1) k2 s = bind c (fun x => bind (k1 x) k2) s.
Proof. unfold bind. by destruct (c s) as [[x s']| |]. Qed.

Create HintDb emits.
#[export] Hint Resolve emits_fail emits_false emits_done emits_undef emits_fixed32 emits_fixed64 : emits.

(** * Reads of the encoder *)

Lemma stable_int_value signed n a : stable (int_value signed n a).
Proof. unfold int_value. stable. Qed.

Lemma stable_all_zero n p : stable (all_zero n p).
Proof. revert p. induction n as [|n IH]; intros p; cbn [all_zero]; stable. Qed.

Lemma stable_do_fields {St} fuel (body : pb_field_iter_t -> St -> C (bool * St)) it st :
  (forall it st, stable (body it st)) -> stable (do_fields fuel body it st).
Proof.
  intros Hb. revert it st. induction fuel as [|fuel IH]; intros it st; cbn [do_fields]; stable.
Qed.

Lemma load_le_range n a m v : run (load_le n a) m = Some v -> 0 <= v < 2 ^ (8 * Z.of_nat n).
Proof.
  unfold run, load_le, bind. destruct (load_bytes n a m) as [[l m']| |] eqn:El; [|done..].
  destruct (load_bytes_length _ _ _ _ _ El) as (<- & _ & _). intros E. injection E as <-.
  apply le_val_range.
Qed.

Lemma run_bind_inv {A B} (c : C A) (k : A -> C B) m v :
  run (bind c k) m = Some v -> exists x m', c m = Ret (x, m') /\ run (k x) m' = Some v.
Proof. unfold run, bind. destruct (c m) as [[x m']| |] eqn:E; [|done..]. intros. by exists x, m'. Qed.

Lemma run_ret_some {A} (c : C A) m x m' : c m = Ret (x, m') -> run c m = Some x.
Proof. unfold run. by intros ->. Qed.

(** The value of an integer field lies in the range of its type. *)
Lemma int_value_range (signed : bool) ds a m v :
  run (int_value signed ds a) m = Some (Some v) ->
  if signed then - 2 ^ 63 <= v < 2 ^ 63 else 0 <= v < 2 ^ 64.
Proof.
  assert (Hstep : forall n, (n <= 8)%nat -> (0 < n)%nat ->
    run (let* v := load_le n a in ret (Some (if signed then sext (8 * Z.of_nat n) v else v))) m = Some (Some v) ->
    if signed then - 2 ^ 63 <= v < 2 ^ 63 else 0 <= v < 2 ^ 64).
  { intros n Hn Hpos E. apply run_bind_inv in E as (x & m' & Ex & E). apply run_ret_some, load_le_range in Ex.
    injection E as <-. destruct signed.
    - pose proof (sext_range (8 * Z.of_nat n) x ltac:(lia)) as Hr.
      assert (2 ^ (8 * Z.of_nat n - 1) <= 2 ^ 63) by (apply Z.pow_le_mono_r; lia). lia.
    - assert (2 ^ (8 * Z.of_nat n) <= 2 ^ 64) by (apply Z.pow_le_mono_r; lia). lia. }
  unfold int_value. intros E.
  destruct (ds =? 1); [exact (Hstep 1%nat ltac:(lia) ltac:(lia) E)|]. destruct (ds =? 2); [exact (Hstep 2%nat ltac:(lia) ltac:(lia) E)|].
  destruct (ds =? 4); [exact (Hstep 4%nat ltac:(lia) ltac:(lia) E)|]. destruct (ds =? 8); [exact (Hstep 8%nat ltac:(lia) ltac:(lia) E)|]. done.
Qed.

Lemma strnlen_stable fuel1 fuel2 p size max m1 m2 v m' :
  (fuel1 <= fuel2)%nat -> submem m1 m2 ->
  strnlen_loop fuel1 p size max m1 = Ret (v, m') -> m' = m1 /\ strnlen_loop fuel2 p size max m2 = Ret (v, m2).
Proof.
  revert fuel2 p size. induction fuel1 as [|fuel1 IH]; intros fuel2 p size Hf Hs E.
  - cbn [strnlen_loop] in E. destruct (size <? max) eqn:El; [done|]. injection E as <- <-.
    split; [done|]. destruct fuel2; cbn [strnlen_loop]; by rewrite El.
  - destruct fuel2 as [|fuel2]; [lia|]. cbn [strnlen_loop] in *.
    destruct (size <? max) eqn:El; [|by injection E as <- <-].
    unfold bind in *. destruct (load8 p m1) as [[b mb]| |] eqn:Eb; [|done..].
    destruct (stable_load8 p m1 m2 b mb Eb Hs) as [-> ->].
    destruct (b =? 0); [by injection E as <- <-|]. apply IH; [lia|done|done].
Qed.

Lemma submem_size m1 m2 : submem m1 m2 -> (size (m_bytes m1) <= size (m_bytes m2))%nat.
Proof. intros Hs. rewrite <- !(size_dom (D := gset Z)). by apply subseteq_size, subseteq_dom. Qed.

Lemma stable_string_length src max : stable (string_length src max).
Proof.
  intros m1 m2 v m' E Hs. unfold string_length, bind, mem_fuel in *.
  eapply strnlen_stable; [|done|done]. apply submem_size in Hs. lia.
Qed.

Lemma strnlen_nonneg fuel p size max m v m' :
  0 <= size -> strnlen_loop fuel p size max m = Ret (v, m') -> 0 <= v.
Proof.
  revert p size m. induction fuel as [|fuel IH]; intros p size m Hs E; cbn [strnlen_loop] in E.
  - destruct (size <? max); [done|]. by injection E as <- <-.
  - destruct (size <? max); [|by injection E as <- <-]. unfold bind in E.
    destruct (load8 p m) as [[b mb]| |]; [|done..]. destruct (b =? 0); [by injection E as <- <-|].
    eapply IH; [|exact E]. lia.
Qed.

Lemma string_length_nonneg src max m v : run (string_length src max) m = Some v -> 0 <= v.
Proof.
  unfold run, string_length, bind, mem_fuel. destruct (strnlen_loop _ _ _ _ _) as [[x mx]| |] eqn:E; [|done..].
  intros Ev. injection Ev as ->. by eapply strnlen_nonneg in E.
Qed.

#[export] Hint Resolve stable_int_value stable_all_zero stable_string_length : stable.

Section Refine.
Context `{Program}.

Lemma stable_check_proto3 fuel field data : stable (pb_check_proto3_default_value fuel field data).
Proof.
  revert field data. induction fuel as [|fuel IH]; intros field data; cbn [pb_check_proto3_default_value]; [stable|].
  stable. apply stable_do_fields. intros it st. stable.
Qed.

Lemma stable_implicit_presence fuel field data : stable (implicit_presence fuel field data).
Proof. unfold implicit_presence. pose proof stable_check_proto3. stable. Qed.

(** * Fields *)

Lemma lor_tag_range tag wt : 0 <= wt < 8 -> 0 <= Z.lor (u64 (Z.shiftl tag 3)) wt < 2 ^ 64.
Proof.
  intros Hwt. apply lor_range; [lia|apply wrap_range; lia|lia].
Qed.

Lemma emits_tag wt tag : 0 <= wt < 8 -> emits (fun s => pb_encode_tag s wt tag) (e_emit (tag_bytes wt tag)).
Proof. intros Hwt. apply emits_varint, lor_tag_range, Hwt. Qed.

Lemma emits_tag_for_field field : emits (fun s => pb_encode_tag_for_field s field) (e_tag field).
Proof.
  unfold pb_encode_tag_for_field, e_tag. destruct (wire_type_of _) as [wt|] eqn:Ewt; [|apply emits_fail].
  apply emits_tag. unfold wire_type_of in Ewt. repeat case_match; simplify_eq; done.
Qed.

Lemma emits_string a n : emits (fun s => pb_encode_string s (WMem a) n) (e_string a n).
Proof.
  unfold pb_encode_string, e_string. apply emits_seq.
  - apply emits_varint, wrap_range. lia.
  - destruct (Z.le_gt_cases 0 n); [by apply emits_mem|].
    unfold e_bytes. destruct (Z.leb_spec 0 n); [lia|]. apply emits_undef.
Qed.

Lemma emits_int (signed : bool) (enc : Z -> Z) (g : pb_ostream_t -> Z -> C (bool * pb_ostream_t)) field src :
  (forall s v, g s v = pb_encode_varint s (enc v)) ->
  (forall v, (if signed then - 2 ^ 63 <= v < 2 ^ 63 else 0 <= v < 2 ^ 64) -> 0 <= enc v < 2 ^ 64) ->
  emits (fun s => let* v := int_value signed (f_data_size field) src in
                  match v with
                  | None => ret (false, os_error s "invalid data_size")
                  | Some value => g s value
                  end) (e_int signed enc field src).
Proof.
  intros Hg Henc.
  apply (emits_read_post _ (fun v => match v with
    | Some v => if signed then - 2 ^ 63 <= v < 2 ^ 63 else 0 <= v < 2 ^ 64 | None => True end)).
  - apply stable_int_value.
  - intros m [v|] E; [|done]. by eapply int_value_range.
  - intros [v|] Hv; [|apply emits_fail].
    eapply emits_ext; [|apply emits_varint, Henc, Hv]. intros. by rewrite Hg.
Qed.

Lemma emits_enc_bytes field src : emits (fun s => pb_enc_bytes s field src) (e_enc_bytes field src).
Proof.
  unfold pb_enc_bytes, e_enc_bytes. destruct (src =? 0); [apply emits_string|].
  apply emits_read; [auto with stable|]. intros size.
  destruct ((_ =? _) && _); [apply emits_fail|apply emits_string].
Qed.

Lemma emits_enc_string field src : emits (fun s => pb_enc_string s field src) (e_enc_string field src).
Proof.
  unfold pb_enc_string, e_enc_string. destruct (src =? 0); [apply emits_string|].
  eapply emits_ext; [intros s m; apply bind_assoc|].
  apply emits_read; [apply stable_string_length|]. intros size. apply emits_string.
Qed.

(** ** Submessages *)

Section Message.
Context (encode_msg : pb_ostream_t -> list pb_field_t -> Z -> C (bool * pb_ostream_t)).
Context (e_msg : list pb_field_t -> Z -> E) (fuel : nat).
Context (Hmsg : forall fields src, emits (fun s => encode_msg s fields src) (e_msg fields src)).

Lemma sizing_start : sizing_ok PB_OSTREAM_SIZING.
Proof. by split. Qed.

(** The substream of the second pass. *)
Lemma buffer_ok_sub m0 m s n :
  buffer_ok m0 m s -> 0 <= n -> bytes_written s + n <= max_size s ->
  buffer_ok m0 m (mkOstream (os_callback s) (os_state s) n 0 None).
Proof.
  intros [Hc Hw Hlim Hm Hf] Hn Hfit. split; simpl; [done|lia|lia| |].
  - eapply mapped_range_sub; [exact Hm|lia..].
  - intros x Hx. apply Hf. unfold range in *. lia.
Qed.

(** The two passes after the length was written. *)
Definition submessage_body (fields : list pb_field_t) (src size : Z) (s : pb_ostream_t) : C (bool * pb_ostream_t) :=
  match os_callback s with
  | OCb_NULL => pb_write s (WMem 0) size
  | _ =>
      if max_size s <? u64 (bytes_written s + size)
      then ret (false, os_error s "stream full")
      else
        let* ' (status, sub) :=
          encode_msg (mkOstream (os_callback s) (os_state s) size 0 None) fields src in
        let s := mkOstream (os_callback s) (os_state sub) (max_size s)
                           (u64 (bytes_written s + bytes_written sub)) (os_errmsg sub) in
        if negb (bytes_written sub =? size)
        then ret (false, os_error s "submsg size changed")
        else ret (status, s)
  end.

Lemma emits_submessage_body fields src l :
  Z.of_nat (length l) < len_limit ->
  emits (submessage_body fields src (Z.of_nat (length l)))
    (fun m => match e_msg fields src m with
              | Some (Emits l') => if decide (l' = l) then Some (Emits l) else None
              | _ => None
              end).
Proof.
  intros Hlim m0 m o Eo Hs. destruct (e_msg fields src m0) as [[|l']|] eqn:Em; [done| |done].
  destruct (decide (l' = l)) as [->|]; [|done]. injection Eo as <-. unfold submessage_body.
  split; intros s Hsb.
  - pose proof Hsb as [-> _]. by apply sizing_write.
  - pose proof Hsb as [Hc Hw Hmax Hm Hf]. rewrite Hc. unfold len_limit in *. rewrite wrap_small by lia.
    destruct (Z.ltb_spec (max_size s) (bytes_written s + Z.of_nat (length l))) as [Hno|Hfit].
    { by apply buffer_full. }
    destruct (Hmsg fields src m0 m _ Em Hs) as [_ Hb].
    specialize (Hb _ (buffer_ok_sub m0 m s (Z.of_nat (length l)) Hsb ltac:(lia) Hfit)).
    unfold buffer_result in Hb. cbn [bytes_written max_size os_state] in Hb.
    destruct (Z.leb_spec (0 + Z.of_nat (length l)) (Z.of_nat (length l))); [|lia].
    destruct Hb as (e & Erun). rewrite Hc in Erun. unfold bind. rewrite Erun.
    cbn [os_advance os_set_errmsg os_callback os_state max_size bytes_written os_errmsg].
    rewrite Z.add_0_l, Z.eqb_refl. cbn [negb]. unfold buffer_result.
    destruct (Z.leb_spec (bytes_written s + Z.of_nat (length l)) (max_size s)); [|lia].
    exists e. unfold ret, os_set_errmsg, os_advance; simpl. rewrite Hc, wrap_small by lia. done.
Qed.

Lemma emits_submessage fields src :
  emits (fun s => pb_encode_submessage encode_msg s fields src) (e_delimited (e_msg fields src)).
Proof.
  intros m0 m o Eo Hs. unfold e_delimited in Eo.
  destruct (e_msg fields src m0) as [[|l]|] eqn:Em; [| |done].
  - injection Eo as <-. destruct (Hmsg fields src m0 m _ Em Hs) as [Hz _].
    destruct (Hz _ sizing_start) as (s1 & E1).
    split; intros s Hsb; unfold pb_encode_submessage, bind; rewrite E1; cbn [negb].
    + by eexists.
    + eexists _, m. split; [done|apply frame_refl].
  - destruct (Z.ltb_spec (Z.of_nat (length l)) len_limit) as [Hlim|]; [|done]. injection Eo as <-.
    destruct (Hmsg fields src m0 m _ Em Hs) as [Hz _]. destruct (Hz _ sizing_start) as (e & E1).
    assert (Hsize : u64 (0 + Z.of_nat (length l)) = Z.of_nat (length l)).
    { unfold len_limit in Hlim. rewrite Z.add_0_l, wrap_small; lia. }
    assert (Hv : 0 <= Z.of_nat (length l) < 2 ^ 64) by (unfold len_limit in Hlim; lia).
    destruct (emits_seq _ _ _ _ (emits_varint (Z.of_nat (length l)) Hv) (emits_submessage_body fields src l Hlim)
                m0 m (Emits (varint (Z.of_nat (length l)) ++ l))) as [H1 H2]; [|done|].
    { unfold e_seq, e_emit. rewrite Em. by rewrite decide_True. }
    assert (Eq : forall s, pb_encode_submessage encode_msg s fields src m =
       (let* ' (ok, s) := pb_encode_varint s (Z.of_nat (length l)) in
        if negb ok then ret (false, s) else submessage_body fields src (Z.of_nat (length l)) s) m).
    { intros s. unfold pb_encode_submessage. unfold bind at 1. rewrite E1. cbn [negb].
      cbn [os_set_errmsg os_set_written bytes_written PB_OSTREAM_SIZING]. by rewrite Hsize. }
    split; intros s Hsb; rewrite Eq; auto.
Qed.

(** ** Fields of every type *)

Lemma emits_enc_submessage field src :
  emits (fun s => pb_enc_submessage encode_msg s field src) (e_enc_submessage e_msg field src).
Proof.
  unfold pb_enc_submessage, e_enc_submessage. destruct (f_ptr field =? 0); [apply emits_fail|].
  apply emits_read; [auto with stable|]. intros fields. apply emits_submessage.
Qed.

Lemma emits_call ltype field src :
  emits (fun s => call_encoder encode_msg ltype s field src) (e_call e_msg ltype field src).
Proof.
  unfold call_encoder, e_call, PB_ENCODERS, E_ENCODERS.
  destruct (Z.to_nat ltype) as [|[|[|[|[|[|[|[|[|[|n]]]]]]]]]]; cbn [nth_error].
  - apply (emits_int true (wrap 64) (fun s v => pb_encode_varint s (u64 v))); [done|].
    intros v _. apply wrap_range. lia.
  - apply (emits_int false (fun v => v) pb_encode_varint); done.
  - apply (emits_int true zigzag pb_encode_svarint); [done|]. intros v Hv. by apply zigzag_range.
  - apply emits_fixed32.
  - apply emits_fixed64.
  - apply emits_enc_bytes.
  - apply emits_enc_string.
  - apply emits_enc_submessage.
  - apply emits_undef.
  - apply emits_string.
  - destruct n; apply emits_undef.
Qed.

(** ** Arrays *)

Lemma emits_items count func ef field p :
  (forall p, emits (fun s => func s field p) (ef field p)) ->
  emits (fun s => encode_items count func s field p) (e_items count ef field p).
Proof.
  intros Hf. revert p. induction count as [|count IH]; intros p; cbn [encode_items e_items]; [apply emits_done|].
  apply emits_seq; [apply Hf|apply IH].
Qed.

Lemma emits_tagged_item func ef field p :
  (forall p, emits (fun s => func s field p) (ef field p)) ->
  emits (fun s => encode_tagged_item func s field p) (e_tagged_item ef field p).
Proof.
  intros Hf. unfold encode_tagged_item, e_tagged_item. apply emits_seq; [apply emits_tag_for_field|].
  destruct (_ && _); [|apply Hf]. apply emits_read; [auto with stable|]. intros q. apply Hf.
Qed.

(** Items of a fixed size. *)
Lemma items_length count ef field p n m l :
  (forall p l, ef field p m = Some (Emits l) -> Z.of_nat (length l) = n) ->
  e_items count ef field p m = Some (Emits l) -> Z.of_nat (length l) = n * Z.of_nat count.
Proof.
  intros Hn. revert p l. induction count as [|count IH]; intros p l E; cbn [e_items] in E.
  - injection E as <-. cbn [length]. lia.
  - unfold e_seq in E. destruct (ef field p m) as [[|l1]|] eqn:E1; [done| |done].
    destruct (e_items count ef field (p + f_data_size field) m) as [[|l2]|] eqn:E2; [done| |done].
    injection E as <-. rewrite length_app, Nat2Z.inj_add, (Hn _ _ E1), (IH _ _ E2). lia.
Qed.

Lemma items_not_fail count ef field p m :
  (forall p, ef field p m <> Some Fails) -> e_items count ef field p m <> Some Fails.
Proof.
  intros Hn. revert p. induction count as [|count IH]; intros p E; cbn [e_items] in E; [done|].
  unfold e_seq in E. destruct (ef field p m) as [[|l1]|] eqn:E1; [by apply (Hn p)| |done].
  destruct (e_items count ef field (p + f_data_size field) m) as [[|l2]|] eqn:E2; [by apply (IH _ E2)|done|done].
Qed.

(** What [ef] gives for the types whose packed size is computed. *)
Definition fixed_items (field : pb_field_t) (ef : pb_field_t -> Z -> E) : Prop :=
  forall n, (if PB_LTYPE (f_type field) =? PB_LTYPE_FIXED32 then Some 4
             else if PB_LTYPE (f_type field) =? PB_LTYPE_FIXED64 then Some 8 else None) = Some n ->
  forall p m, ef field p m <> Some Fails /\ (forall l, ef field p m = Some (Emits l) -> Z.of_nat (length l) = n).

Lemma fixed_items_call field : fixed_items field (e_call e_msg (PB_LTYPE (f_type field))).
Proof.
  intros n Hn p m.
  assert (Hread : forall k a, (exists l, e_read (load_bytes k a) e_emit m = Some (Emits l) /\ length l = k) \/
                              e_read (load_bytes k a) e_emit m = None).
  { intros k a. unfold e_read, run. destruct (load_bytes k a m) as [[l m']| |] eqn:El; [|by right..].
    left. destruct (load_bytes_length _ _ _ _ _ El) as (Hlen & _). by exists l. }
  destruct (Z.eqb_spec (PB_LTYPE (f_type field)) PB_LTYPE_FIXED32) as [->|].
  - injection Hn as <-. change (e_call e_msg PB_LTYPE_FIXED32 field p) with (e_read (load_bytes 4 p) e_emit).
    destruct (Hread 4%nat p) as [(l & -> & Hl)| ->]; [|done]. split; [done|]. intros l' E. injection E as <-. lia.
  - destruct (Z.eqb_spec (PB_LTYPE (f_type field)) PB_LTYPE_FIXED64) as [->|]; [|done].
    injection Hn as <-. change (e_call e_msg PB_LTYPE_FIXED64 field p) with (e_read (load_bytes 8 p) e_emit).
    destruct (Hread 8%nat p) as [(l & -> & Hl)| ->]; [|done]. split; [done|]. intros l' E. injection E as <-. lia.
Qed.

(** The size of a packed array, before it is written. *)
Lemma packed_size_run func ef field data count m0 m o :
  (forall p, emits (fun s => func s field p) (ef field p)) -> fixed_items field ef -> 0 <= count ->
  e_items (Z.to_nat count) ef field data m0 = Some o -> submem m0 m ->
  packed_size field data count func m =
  Ret (match o with Emits l => Some (u64 (Z.of_nat (length l))) | Fails => None end, m).
Proof.
  intros Hf Hfix Hc Eo Hs. unfold packed_size. specialize (Hfix 4) as Hfix4. specialize (Hfix 8) as Hfix8.
  assert (Hfixed : forall n, (forall p m, ef field p m <> Some Fails /\
             (forall l, ef field p m = Some (Emits l) -> Z.of_nat (length l) = n)) ->
             Some (u64 (n * count)) = match o with Emits l => Some (u64 (Z.of_nat (length l))) | Fails => None end).
  { intros n Hn. destruct o as [|l].
    - exfalso. eapply items_not_fail; [|exact Eo]. intros p. apply Hn.
    - rewrite (items_length _ _ _ _ n _ _ ltac:(intros p; apply Hn) Eo). by rewrite Z2Nat.id by done. }
  destruct (PB_LTYPE (f_type field) =? PB_LTYPE_FIXED32).
  { unfold ret. by rewrite (Hfixed 4 (Hfix4 eq_refl)). }
  destruct (PB_LTYPE (f_type field) =? PB_LTYPE_FIXED64).
  { unfold ret. by rewrite (Hfixed 8 (Hfix8 eq_refl)). }
  destruct (emits_items (Z.to_nat count) func ef field data Hf m0 m o Eo Hs) as [Hz _].
  specialize (Hz _ sizing_start). unfold bind.
  destruct o as [|l]; [destruct Hz as (s' & ->)|destruct Hz as (e & ->)]; done.
Qed.

Lemma emits_packed func ef field data count :
  (forall p, emits (fun s => func s field p) (ef field p)) -> fixed_items field ef -> 0 <= count ->
  emits (fun s =>
    let* size := packed_size field data count func in
    match size with
    | None => ret (false, s)
    | Some size =>
        let* ' (ok, s) := pb_encode_varint s size in
        if negb ok then ret (false, s)
        else match os_callback s with
        | OCb_NULL => pb_write s (WMem 0) size
        | _ => encode_items (Z.to_nat count) func s field data
        end
    end) (e_delimited (e_items (Z.to_nat count) ef field data)).
Proof.
  intros Hf Hfix Hc m0 m o Eo Hs. unfold e_delimited in Eo.
  destruct (e_items (Z.to_nat count) ef field data m0) as [o'|] eqn:Ei; [|done].
  pose proof (packed_size_run func ef field data count m0 m o' Hf Hfix Hc Ei Hs) as Ep.
  destruct o' as [|l].
  { injection Eo as <-. destruct (emits_false m0 m Fails eq_refl Hs) as [H1 H2].
    split; intros s Hsb; unfold bind; rewrite Ep; auto. }
  destruct (Z.ltb_spec (Z.of_nat (length l)) len_limit) as [Hlim|]; [|done]. injection Eo as <-.
  assert (Hv : 0 <= Z.of_nat (length l) < 2 ^ 64) by (unfold len_limit in Hlim; lia).
  rewrite wrap_small in Ep by done.
  assert (Hbody : emits (fun s => match os_callback s with
                                  | OCb_NULL => pb_write s (WMem 0) (Z.of_nat (length l))
                                  | _ => encode_items (Z.to_nat count) func s field data
                                  end)
                    (fun m => match e_items (Z.to_nat count) ef field data m with
                              | Some (Emits l') => if decide (l' = l) then Some (Emits l) else None
                              | _ => None end)).
  { clear - Hf. intros m0 m o Eo Hs. destruct (e_items (Z.to_nat count) ef field data m0) as [[|l']|] eqn:Ei; [done| |done].
    destruct (decide (l' = l)) as [->|]; [|done]. injection Eo as <-.
    destruct (emits_items (Z.to_nat count) func ef field data Hf m0 m _ Ei Hs) as [Hz Hb].
    split; intros s Hsb.
    - pose proof Hsb as [-> _]. by apply sizing_write.
    - pose proof Hsb as [-> _ _ _ _]. by apply Hb. }
  destruct (emits_seq _ _ _ _ (emits_varint (Z.of_nat (length l)) Hv) Hbody
              m0 m (Emits (varint (Z.of_nat (length l)) ++ l))) as [H1 H2]; [|done|].
  { unfold e_seq, e_emit. rewrite Ei. by rewrite decide_True. }
  split; intros s Hsb; unfold bind at 1; rewrite Ep; auto.
Qed.

Lemma emits_array func ef field data count :
  (forall p, emits (fun s => func s field p) (ef field p)) -> fixed_items field ef ->
  emits (fun s => encode_array s field data count func) (e_array field data count ef).
Proof.
  intros Hf Hfix. unfold encode_array, e_array.
  destruct (Z.ltb_spec count 0); [apply emits_undef|].
  destruct (count =? 0); [apply emits_done|]. destruct (_ && _); [apply emits_fail|].
  destruct (PB_LTYPE (f_type field) <=? PB_LTYPE_LAST_PACKABLE).
  - apply emits_seq; [by apply emits_tag|]. by apply emits_packed.
  - apply emits_items. intros q. by apply emits_tagged_item.
Qed.

(** ** Fields by repetition rule *)

Lemma emits_with_tag func ef field data :
  (forall p, emits (fun s => func s field p) (ef field p)) ->
  emits (fun s => encode_with_tag func s field data) (e_with_tag ef field data).
Proof. intros Hf. apply emits_seq; [apply emits_tag_for_field|apply Hf]. Qed.

Lemma emits_basic_field field data :
  emits (fun s => encode_basic_field encode_msg fuel s field data) (e_basic_field e_msg fuel field data).
Proof.
  pose proof (fun p => emits_call (PB_LTYPE (f_type field)) field p) as Hf.
  unfold e_basic_field.
  eapply emits_ext; [|apply emits_read;
    [apply stable_implicit_presence
    |intros [data' implicit_has]; instantiate (1 := fun x s =>
       let '(data', implicit_has) := x in
       if PB_HTYPE (f_type field) =? PB_HTYPE_REQUIRED then
         if data' =? 0 then ret (false, os_error s "missing required field")
         else encode_with_tag (call_encoder encode_msg (PB_LTYPE (f_type field))) s field data'
       else if PB_HTYPE (f_type field) =? PB_HTYPE_OPTIONAL then
         let* has := if truthy (f_size_offset field) then load_bool (data + f_size_offset field) else ret implicit_has in
         if has then encode_with_tag (call_encoder encode_msg (PB_LTYPE (f_type field))) s field data' else ret (true, s)
       else if PB_HTYPE (f_type field) =? PB_HTYPE_REPEATED then
         let* count := if truthy (f_size_offset field) then load_le 4 (data + f_size_offset field) else ret (f_array_size field) in
         encode_array s field data' count (call_encoder encode_msg (PB_LTYPE (f_type field)))
       else if PB_HTYPE (f_type field) =? PB_HTYPE_ONEOF then
         let* which := if truthy (f_size_offset field) then load_le 4 (data + f_size_offset field) else undef in
         if which =? f_tag field then encode_with_tag (call_encoder encode_msg (PB_LTYPE (f_type field))) s field data' else ret (true, s)
       else ret (false, os_error s "invalid field type")); cbv beta iota]].
  - intros s m. unfold implicit_presence, encode_basic_field. apply bind_assoc.
  - destruct (PB_HTYPE (f_type field) =? PB_HTYPE_REQUIRED).
    { destruct (data' =? 0); [apply emits_fail|by apply emits_with_tag]. }
    destruct (PB_HTYPE (f_type field) =? PB_HTYPE_OPTIONAL).
    { apply emits_read; [stable|]. intros [|]; [by apply emits_with_tag|apply emits_done]. }
    destruct (PB_HTYPE (f_type field) =? PB_HTYPE_REPEATED).
    { apply emits_read; [stable|]. intros count. apply emits_array; [done|apply fixed_items_call]. }
    destruct (PB_HTYPE (f_type field) =? PB_HTYPE_ONEOF); [|apply emits_fail].
    apply emits_read; [stable|]. intros which. destruct (which =? f_tag field); [by apply emits_with_tag|apply emits_done].
Qed.

Lemma emits_field field data :
  emits (fun s => encode_field encode_msg fuel s field data) (e_field e_msg fuel field data).
Proof.
  unfold encode_field, e_field. destruct (_ || _); [apply emits_basic_field|].
  destruct (_ =? PB_ATYPE_CALLBACK); [|apply emits_fail].
  unfold encode_callback_field, e_callback_field. apply emits_read; [auto with stable|].
  intros encode. destruct (encode =? 0); [apply emits_done|apply emits_undef].
Qed.

(** ** Extensions *)

Lemma emits_extension ext :
  emits (fun s => default_extension_encoder encode_msg fuel s ext) (e_extension e_msg fuel ext).
Proof.
  unfold default_extension_encoder, e_extension.
  apply emits_read; [auto with stable|]. intros type. apply emits_read; [auto with stable|]. intros arg.
  apply emits_read; [auto with stable|]. intros fields.
  destruct (_ =? PB_ATYPE_POINTER); [apply emits_field|].
  apply emits_read; [auto with stable|]. intros dest. apply emits_field.
Qed.

Lemma emits_extensions n ext :
  emits (fun s => encode_extensions encode_msg fuel n s ext) (e_extensions e_msg fuel n ext).
Proof.
  revert ext. induction n as [|n IH]; intros ext; cbn [encode_extensions e_extensions];
    destruct (ext =? 0); [apply emits_done|apply emits_undef|apply emits_done|].
  apply emits_read; [auto with stable|]. intros type. apply emits_read; [auto with stable|]. intros encode.
  destruct (encode =? 0); [|apply emits_undef].
  apply emits_seq; [apply emits_extension|]. apply emits_read; [auto with stable|]. intros next. apply IH.
Qed.

Lemma emits_step it :
  emits (fun s => encode_step encode_msg fuel it s) (e_step e_msg fuel it).
Proof.
  unfold encode_step, e_step. destruct (_ =? PB_LTYPE_EXTENSION); [|apply emits_field].
  unfold encode_extension_field. apply emits_read; [auto with stable|]. intros ext. apply emits_extensions.
Qed.
End Message.

(** * Messages *)

Lemma emits_do_fields n body ebody it :
  (forall it, emits (fun s => body it s) (ebody it)) ->
  emits (fun s => let* ' (ok, s, _) := do_fields n body it s in ret (ok, s)) (e_do_fields n ebody it).
Proof.
  intros Hb. revert it. induction n as [|n IH]; intros it; cbn [do_fields e_do_fields]; [apply emits_undef|].
  set (rest := fun s => match pb_field_iter_next it with
                        | (true, it) => let* ' (ok, s, _) := do_fields n body it s in ret (ok, s)
                        | (false, _) => ret (true, s) end).
  apply (emits_ext (fun s => let* ' (ok, s) := body it s in if negb ok then ret (false, s) else rest s)).
  - intros s m. unfold bind. destruct (body it s m) as [[[ok s'] m']| |]; [|done..].
    destruct ok; cbn [negb]; [|done]. unfold rest. by destruct (pb_field_iter_next it) as [[|] it'].
  - apply emits_seq; [apply Hb|]. unfold rest.
    destruct (pb_field_iter_next it) as [[|] it']; [apply IH|apply emits_done].
Qed.

Lemma emits_encode fuel fields src :
  emits (fun s => pb_encode fuel s fields src) (ref_encode fuel fields src).
Proof.
  revert fields src. induction fuel as [|fuel IH]; intros fields src; cbn [pb_encode ref_encode]; [apply emits_undef|].
  destruct (pb_field_iter_begin fields src) as [[|] it]; [|apply emits_done].
  apply emits_do_fields. intros it'. by apply emits_step.
Qed.
End Refine.
