(* ===== verification/PbEncodeProps.v ===== *)
(** What the message encoder guarantees: it writes the reference encoding, all
    of it or nothing outside its buffer, and the sizing pass counts exactly
    those bytes. *)

From stdpp Require Import base list gmap strings.
From Stdlib Require Import ZArith Lia.
From S2P Require Import Prelude CMem PbTypes PbCommon PbIter PbOstream PbWire PbEncode PbEncodeSpec.

(** The output buffer [[a, a + n)] is mapped, and the source [m0] of the data
    does not reach into it. *)
Record output_buffer (m0 m : mem) (a n : Z) : Prop := {
  ob_submem : submem m0 m;
  ob_size : 0 <= n < len_limit;
  ob_mapped : mapped_range m a n;
  ob_free : forall x, range a n x -> m_bytes m0 !! x = None;
}.

(** The stream after encoding [k] bytes into it. *)
Definition written (a n k : Z) (e : option string) : pb_ostream_t :=
  mkOstream OCb_buf_write (a + k) n k e.

Section EncodeProps.
Context `{Program}.

Lemma output_buffer_ok m0 m a n : output_buffer m0 m a n -> buffer_ok m0 m (pb_ostream_from_buffer a n).
Proof.
  intros [Hs Hn Hm Hf]. split; simpl; [done|lia|lia| |]; rewrite Z.sub_0_r; done.
Qed.

(** Any writer on a fresh buffer. *)
Lemma emits_fresh f e m0 m a n o :
  emits f e -> e m0 = Some o -> output_buffer m0 m a n ->
  match o with
  | Emits l =>
      if Z.of_nat (length l) <=? n
      then exists err, f (pb_ostream_from_buffer a n) m = Ret ((true, written a n (Z.of_nat (length l)) err), poke m a l)
      else exists s' m', f (pb_ostream_from_buffer a n) m = Ret ((false, s'), m') /\ frame (range a n) m m'
  | Fails => exists s' m', f (pb_ostream_from_buffer a n) m = Ret ((false, s'), m') /\ frame (range a n) m m'
  end.
Proof.
  intros Hf Eo Hob. destruct (Hf m0 m o Eo (ob_submem _ _ _ _ Hob)) as [_ Hb].
  specialize (Hb _ (output_buffer_ok _ _ _ _ Hob)). unfold buffer_result, writer_failed in Hb.
  cbn [pb_ostream_from_buffer os_state max_size bytes_written] in Hb. rewrite Z.sub_0_r in Hb.
  destruct o as [|l]; [exact Hb|]. rewrite Z.add_0_l in Hb. destruct (_ <=? n); [|exact Hb].
  destruct Hb as (err & Hb). exists err. rewrite Hb. unfold os_set_errmsg, os_advance, written; simpl. done.
Qed.

Lemma emits_size f e m0 m o :
  emits f e -> e m0 = Some o -> submem m0 m ->
  exists s', f PB_OSTREAM_SIZING m =
    Ret ((match o with Emits _ => true | Fails => false end, s'), m) /\
    match o with Emits l => bytes_written s' = u64 (Z.of_nat (length l)) | Fails => True end.
Proof.
  intros Hf Eo Hs. destruct (Hf m0 m o Eo Hs) as [Hz _]. specialize (Hz _ sizing_start).
  destruct o as [|l]; [destruct Hz as (s' & ->)|destruct Hz as (err & ->)]; by eexists.
Qed.

(** C20: [pb_encode] refines the reference encoder: when the message has an
    encoding, it is written to the buffer and nothing else changes, and if the
    buffer is too small or the message has no encoding, [pb_encode] returns
    false and touches nothing outside the buffer. *)
Theorem pb_encode_refines fuel fields src m0 m a n o :
  ref_encode fuel fields src m0 = Some o -> output_buffer m0 m a n ->
  match o with
  | Emits l =>
      if Z.of_nat (length l) <=? n
      then exists err, pb_encode fuel (pb_ostream_from_buffer a n) fields src m =
             Ret ((true, written a n (Z.of_nat (length l)) err), poke m a l)
      else exists s' m', pb_encode fuel (pb_ostream_from_buffer a n) fields src m = Ret ((false, s'), m') /\
             frame (range a n) m m'
  | Fails => exists s' m', pb_encode fuel (pb_ostream_from_buffer a n) fields src m = Ret ((false, s'), m') /\
             frame (range a n) m m'
  end.
Proof.
  intros Eo Hob. by apply (emits_fresh (fun s => pb_encode fuel s fields src) _ m0 m a n o (emits_encode fuel fields src)).
Qed.

(** [pb_get_encoded_size] returns the length of the encoding without
    writing anything, and fails exactly when the message has no encoding. *)
Theorem pb_get_encoded_size_exact fuel fields src m0 m o :
  ref_encode fuel fields src m0 = Some o -> submem m0 m ->
  pb_get_encoded_size fuel fields src m =
  Ret (match o with Emits l => Some (u64 (Z.of_nat (length l))) | Fails => None end, m).
Proof.
  intros Eo Hs.
  destruct (emits_size (fun s => pb_encode fuel s fields src) _ m0 m o (emits_encode fuel fields src) Eo Hs) as (s' & E & Hw).
  unfold pb_get_encoded_size, bind. rewrite E. destruct o; [done|]. unfold ret. by rewrite Hw.
Qed.

(** a buffer of the size that [pb_get_encoded_size] returned is filled
    completely by [pb_encode], and every smaller one is refused. *)
Theorem encode_into_exact_size fuel fields src m0 m a k o size :
  ref_encode fuel fields src m0 = Some o ->
  pb_get_encoded_size fuel fields src m = Ret (Some size, m) ->
  match o with Emits l => Z.of_nat (length l) < 2 ^ 64 | Fails => True end ->
  output_buffer m0 m a k ->
  (k = size -> exists err l, Z.of_nat (length l) = size /\ o = Emits l /\
     pb_encode fuel (pb_ostream_from_buffer a k) fields src m = Ret ((true, written a k size err), poke m a l)) /\
  (k < size -> exists s' m', pb_encode fuel (pb_ostream_from_buffer a k) fields src m = Ret ((false, s'), m')).
Proof.
  intros Eo Hsize Hlim Hob.
  destruct (emits_size (fun s => pb_encode fuel s fields src) _ m0 m o (emits_encode fuel fields src) Eo (ob_submem _ _ _ _ Hob))
    as (s' & E & Hw).
  unfold pb_get_encoded_size, bind in Hsize. rewrite E in Hsize. injection Hsize as Hsize.
  destruct o as [|l]; [done|]. injection Hsize as <-. rewrite Hw, wrap_small by lia.
  pose proof (emits_fresh (fun s => pb_encode fuel s fields src) _ m0 m a k _ (emits_encode fuel fields src) Eo Hob) as R.
  cbv iota in R. split; intros Hk; destruct (Z.leb_spec (Z.of_nat (length l)) k); try lia.
  - destruct R as (err & R). exists err, l. by subst k.
  - destruct R as (s1 & m1 & R & _). by exists s1, m1.
Qed.

(** [pb_encode_delimited] writes the length of the encoding as a varint and
    then the encoding. *)
Theorem pb_encode_delimited_refines fuel fields src m0 m a n l :
  ref_encode fuel fields src m0 = Some (Emits l) -> output_buffer m0 m a n ->
  Z.of_nat (length (varint (Z.of_nat (length l)) ++ l)) <= n ->
  exists err, pb_encode_delimited fuel (pb_ostream_from_buffer a n) fields src m =
    Ret ((true, written a n (Z.of_nat (length (varint (Z.of_nat (length l)) ++ l))) err),
         poke m a (varint (Z.of_nat (length l)) ++ l)).
Proof.
  intros Eo Hob Hfit.
  assert (Ed : e_delimited (ref_encode fuel fields src) m0 = Some (Emits (varint (Z.of_nat (length l)) ++ l))).
  { unfold e_delimited. rewrite Eo. pose proof (ob_size _ _ _ _ Hob). rewrite length_app in Hfit.
    by destruct (Z.ltb_spec (Z.of_nat (length l)) len_limit); [|lia]. }
  pose proof (emits_fresh _ _ m0 m a n _ (emits_submessage (pb_encode fuel) (ref_encode fuel)
    (emits_encode fuel) fields src) Ed Hob) as R.
  cbv iota in R. destruct (Z.leb_spec (Z.of_nat (length (varint (Z.of_nat (length l)) ++ l))) n); [exact R|lia].
Qed.

(** [pb_encode_nullterminated] writes the encoding and a zero byte. *)
Theorem pb_encode_nullterminated_refines fuel fields src m0 m a n l :
  ref_encode fuel fields src m0 = Some (Emits l) -> output_buffer m0 m a n ->
  Z.of_nat (length l) + 1 <= n ->
  exists err, pb_encode_nullterminated fuel (pb_ostream_from_buffer a n) fields src m =
    Ret ((true, written a n (Z.of_nat (length l) + 1) err), poke m a (l ++ [0])).
Proof.
  intros Eo Hob Hfit.
  assert (Hz : emits (fun s => pb_write s (WLocal [0]) 1) (e_emit [0])) by exact (emits_local [0] ltac:(done)).
  assert (Ed : e_seq (ref_encode fuel fields src) (e_emit [0]) m0 = Some (Emits (l ++ [0]))).
  { unfold e_seq. by rewrite Eo. }
  pose proof (emits_fresh _ _ m0 m a n _ (emits_seq _ _ _ _ (emits_encode fuel fields src) Hz) Ed Hob) as R.
  cbv iota in R. rewrite length_app in R. cbn [length] in R. rewrite Nat2Z.inj_add in R. change (Z.of_nat 1) with 1 in R.
  destruct (Z.leb_spec (Z.of_nat (length l) + 1) n); [exact R|lia].
Qed.
End EncodeProps.

(** * A message with a packed array and a submessage *)

Section EncodeWitnesses.
(** The submessage: one [sint32]. *)
Definition sub_fields : list pb_field_t :=
  [mkField 3 (PB_HTYPE_REQUIRED + PB_LTYPE_SVARINT) 0 0 4 0 0].

(** A required [int32], up to three [uint32] with their count, an optional
    submessage with its [has] byte. *)
Definition msg_fields : list pb_field_t :=
  [mkField 1 (PB_HTYPE_REQUIRED + PB_LTYPE_VARINT) 0 0 4 0 0;
   mkField 5 (PB_HTYPE_REPEATED + PB_LTYPE_UVARINT) 4 (-4) 4 3 0;
   mkField 9 (PB_HTYPE_OPTIONAL + PB_LTYPE_SUBMESSAGE) 4 (-4) 4 0 64].

Definition msg_program : Program := plain_program [(64, sub_fields)].
#[local] Existing Instance msg_program.

(** { 150, count 2 : { 1, 300, -- }, has, { -2 } } *)
Definition msg_struct : list Z :=
  [150; 0; 0; 0;  2; 0; 0; 0;  1; 0; 0; 0;  44; 1; 0; 0;  0; 0; 0; 0;  1; 0; 0; 0;  254; 255; 255; 255].

Definition msg_bytes : list Z := [0x08; 0x96; 0x01;  0x2A; 0x03; 0x01; 0xAC; 0x02;  0x4A; 0x02; 0x18; 0x03].

Definition msg_source : mem := mem_of 8192 msg_struct.
Definition msg_mem : mem := mem_add msg_source 4096 (repeat 0 16).

Lemma msg_reference : ref_encode 2 msg_fields 8192 msg_source = Some (Emits msg_bytes).
Proof. vm_compute. reflexivity. Qed.

Lemma msg_output : output_buffer msg_source msg_mem 4096 16.
Proof.
  split.
  - apply submem_mem_add. unfold range. cbn [length repeat msg_struct]. lia.
  - unfold len_limit. lia.
  - solve_mem.
  - intros x Hx. apply mem_of_free. unfold range in *. cbn [length msg_struct]. lia.
Qed.

Lemma msg_output_small n : 0 <= n <= 16 -> output_buffer msg_source msg_mem 4096 n.
Proof.
  intros Hn. destruct msg_output as [Hs Hl Hm Hf]. split; [done|lia| |].
  - eapply mapped_range_sub; [exact Hm|lia..].
  - intros x Hx. apply Hf. unfold range in *. lia.
Qed.

Lemma pb_encode_refines_witness :
  (exists err, pb_encode 2 (pb_ostream_from_buffer 4096 16) msg_fields 8192 msg_mem =
     Ret ((true, written 4096 16 12 err), poke msg_mem 4096 msg_bytes)) /\
  (exists s' m', pb_encode 2 (pb_ostream_from_buffer 4096 11) msg_fields 8192 msg_mem = Ret ((false, s'), m') /\
     frame (range 4096 11) msg_mem m').
Proof.
  split.
  - exact (pb_encode_refines 2 msg_fields 8192 msg_source msg_mem 4096 16 _ msg_reference msg_output).
  - exact (pb_encode_refines 2 msg_fields 8192 msg_source msg_mem 4096 11 _ msg_reference
             (msg_output_small 11 ltac:(lia))).
Defined.

Lemma pb_get_encoded_size_exact_witness :
  pb_get_encoded_size 2 msg_fields 8192 msg_mem = Ret (Some 12, msg_mem).
Proof.
  exact (pb_get_encoded_size_exact 2 msg_fields 8192 msg_source msg_mem _ msg_reference (ob_submem _ _ _ _ msg_output)).
Defined.

Lemma encode_into_exact_size_witness :
  (12 = 12 -> exists err l, Z.of_nat (length l) = 12 /\ Emits msg_bytes = Emits l /\
     pb_encode 2 (pb_ostream_from_buffer 4096 12) msg_fields 8192 msg_mem =
     Ret ((true, written 4096 12 12 err), poke msg_mem 4096 l)) /\
  (12 < 12 -> exists s' m', pb_encode 2 (pb_ostream_from_buffer 4096 12) msg_fields 8192 msg_mem = Ret ((false, s'), m')).
Proof.
  refine (encode_into_exact_size 2 msg_fields 8192 msg_source msg_mem 4096 12 _ 12 msg_reference _ _
            (msg_output_small 12 ltac:(lia))); vm_compute; reflexivity.
Defined.

Lemma pb_encode_delimited_refines_witness :
  exists err, pb_encode_delimited 2 (pb_ostream_from_buffer 4096 16) msg_fields 8192 msg_mem =
    Ret ((true, written 4096 16 13 err), poke msg_mem 4096 (12 :: msg_bytes)).
Proof.
  refine (pb_encode_delimited_refines 2 msg_fields 8192 msg_source msg_mem 4096 16 _ msg_reference msg_output _).
  vm_compute. congruence.
Defined.

Lemma pb_encode_nullterminated_refines_witness :
  exists err, pb_encode_nullterminated 2 (pb_ostream_from_buffer 4096 16) msg_fields 8192 msg_mem =
    Ret ((true, written 4096 16 13 err), poke msg_mem 4096 (msg_bytes ++ [0])).
Proof.
  refine (pb_encode_nullterminated_refines 2 msg_fields 8192 msg_source msg_mem 4096 16 _ msg_reference msg_output _).
  vm_compute. congruence.
Defined.
End EncodeWitnesses.
