(* ===== verification/PbDecode.v ===== *)
(** Message decoding: [nanopb/pb_decode.c] from [decode_static_field] on,
    with [PB_ENABLE_MALLOC]. *)

From stdpp Require Import base list gmap strings.
From Stdlib Require Import ZArith Lia.
From S2P Require Import Prelude CMem PbTypes PbCommon PbIstream.

Section Decode.
Context `{Program}.

(** [pb_decoder_t]. *)
Abbreviation decoder := (pb_istream_t -> pb_field_t -> Z -> C (bool * pb_istream_t)).

(** ** Extensions as iterators *)

Definition iter_from_extension (extension : Z) : C pb_field_iter_t :=
  let* type := load_ptr (extension + off_ext_type) in
  let* arg := load_ptr (type + off_exttype_arg) in
  let* fields := need (field_array arg) in
  let* dest := load_ptr (extension + off_ext_dest) in
  let it := snd (pb_field_iter_begin fields dest) in
  let data := if PB_ATYPE (f_type (field_at fields 0)) =? PB_ATYPE_POINTER
              then extension + off_ext_dest else dest in
  ret (mkIter (it_start it) (it_pos it) (required_field_index it) (dest_struct it)
              data (extension + off_ext_found)).

(** [while (ext != NULL) { body(ext); ext = ext->next; }]. *)
Fixpoint each_extension (n : nat) (body : Z -> C unit) (ext : Z) : C unit :=
  if ext =? 0 then ret tt
  else match n with
  | O => nofuel
  | S n' => body ext ;;; let* next := load_ptr (ext + off_ext_next) in each_extension n' body next
  end.

(** ** Default values *)

(** A message loop whose body cannot fail. *)
Definition each_field (body : pb_field_iter_t -> C unit) (fields : list pb_field_t) (dest : Z) : C unit :=
  match pb_field_iter_begin fields dest with
  | (false, _) => ret tt
  | (true, it) =>
      let* _ := do_fields (iter_fuel it) (fun it (_ : unit) => body it ;;; ret (true, tt)) it tt in
      ret tt
  end.

(** [fuel] bounds the nesting of submessages and extensions. *)
Fixpoint pb_field_set_to_default (fuel : nat) (it : pb_field_iter_t) : C unit :=
  match fuel with
  | O => nofuel
  | S fuel' =>
      let pos := it_field it in
      let type := f_type pos in
      if PB_LTYPE type =? PB_LTYPE_EXTENSION then
        let* ext := load_ptr (pData it) in
        each_extension fuel'
          (fun ext => store_bool (ext + off_ext_found) false ;;;
                      let* ext_iter := iter_from_extension ext in
                      pb_field_set_to_default fuel' ext_iter) ext
      else if PB_ATYPE type =? PB_ATYPE_STATIC then
        let* init_data :=
          if (PB_HTYPE type =? PB_HTYPE_OPTIONAL) && negb (pSize it =? pData it)
          then store_bool (pSize it) false ;;; ret true
          else if (PB_HTYPE type =? PB_HTYPE_REPEATED) || (PB_HTYPE type =? PB_HTYPE_ONEOF)
          then store_le 4 (pSize it) 0 ;;; ret false
          else ret true in
        if negb init_data then ret tt
        else if PB_LTYPE type =? PB_LTYPE_SUBMESSAGE then
          let* fields := need (field_array (f_ptr pos)) in
          each_field (pb_field_set_to_default fuel') fields (pData it)
        else if negb (f_ptr pos =? 0)
        then memcpy (pData it) (f_ptr pos) (Z.to_nat (f_data_size pos))
        else memset (pData it) 0 (Z.to_nat (f_data_size pos))
      else if PB_ATYPE type =? PB_ATYPE_POINTER then
        store_ptr (pData it) 0 ;;;
        if (PB_HTYPE type =? PB_HTYPE_REPEATED) || (PB_HTYPE type =? PB_HTYPE_ONEOF)
        then store_le 4 (pSize it) 0 else ret tt
      else ret tt
  end.

Definition pb_message_set_to_defaults (fuel : nat) (fields : list pb_field_t) (dest : Z) : C unit :=
  each_field (pb_field_set_to_default fuel) fields dest.

(** ** Release of allocated fields *)

(** [while (count--) { pb_release(fields, pItem); pItem += data_size; }]. *)
Fixpoint release_items (count : nat) (release : Z -> C unit) (p data_size : Z) : C unit :=
  match count with
  | O => ret tt
  | S count' => release p ;;; release_items count' release (p + data_size) data_size
  end.

(** [while (count--) { pb_free( *pItem); *pItem++ = NULL; }]. *)
Fixpoint free_items (count : nat) (p : Z) : C unit :=
  match count with
  | O => ret tt
  | S count' =>
      let* q := load_ptr p in
      pb_free q ;;; store_ptr p 0 ;;; free_items count' (p + SIZEOF_PTR)
  end.

(** The number of submessages a field holds. *)
Definition release_count (it : pb_field_iter_t) : C Z :=
  let pos := it_field it in
  let type := f_type pos in
  if PB_HTYPE type =? PB_HTYPE_REPEATED then
    let* count := if (PB_ATYPE type =? PB_ATYPE_STATIC) && (pSize it =? pData it)
                  then ret (f_array_size pos) else load_le 4 (pSize it) in
    ret (if (PB_ATYPE type =? PB_ATYPE_STATIC) && (f_array_size pos <? count)
         then f_array_size pos else count)
  else ret 1.

(** The end of [pb_release_single_field]: the allocation of the field itself. *)
Definition release_pointer (it : pb_field_iter_t) : C unit :=
  let type := f_type (it_field it) in
  if negb (PB_ATYPE type =? PB_ATYPE_POINTER) then ret tt
  else
    let repeated := PB_HTYPE type =? PB_HTYPE_REPEATED in
    (if repeated && ((PB_LTYPE type =? PB_LTYPE_STRING) || (PB_LTYPE type =? PB_LTYPE_BYTES)) then
       let* p := load_ptr (pData it) in
       let* count := load_le 4 (pSize it) in
       free_items (Z.to_nat count) p
     else ret tt) ;;;
    (if repeated then store_le 4 (pSize it) 0 else ret tt) ;;;
    let* p := load_ptr (pData it) in
    pb_free p ;;; store_ptr (pData it) 0.

Fixpoint pb_release_single_field (fuel : nat) (it : pb_field_iter_t) : C unit :=
  match fuel with
  | O => nofuel
  | S fuel' =>
      let pos := it_field it in
      let type := f_type pos in
      let* current := if PB_HTYPE type =? PB_HTYPE_ONEOF
                      then let* which := load_le 4 (pSize it) in ret (which =? f_tag pos)
                      else ret true in
      if negb current then ret tt
      else
        (if PB_LTYPE type =? PB_LTYPE_EXTENSION then
           let* ext := load_ptr (pData it) in
           each_extension fuel'
             (fun ext => let* ext_iter := iter_from_extension ext in
                         pb_release_single_field fuel' ext_iter) ext
         else if PB_LTYPE type =? PB_LTYPE_SUBMESSAGE then
           let* p := if PB_ATYPE type =? PB_ATYPE_POINTER then load_ptr (pData it) else ret (pData it) in
           let* count := release_count it in
           if p =? 0 then ret tt
           else
             release_items (Z.to_nat count)
               (fun p => if p =? 0 then ret tt
                         else let* fields := need (field_array (f_ptr pos)) in
                              each_field (pb_release_single_field fuel') fields p)
               p (f_data_size pos)
         else ret tt) ;;;
        release_pointer it
  end.

Definition pb_release (fuel : nat) (fields : list pb_field_t) (dest : Z) : C unit :=
  if dest =? 0 then ret tt else each_field (pb_release_single_field fuel) fields dest.

(** Release the field of a union that is about to be replaced; the iterator
    ends on the new field. *)
Definition pb_release_union_field (fuel : nat) (s : pb_istream_t) (it : pb_field_iter_t)
  : C (bool * pb_istream_t * pb_field_iter_t) :=
  let* old_tag := load_le 4 (pSize it) in
  let new_tag := f_tag (it_field it) in
  if old_tag =? 0 then ret (true, s, it)
  else if old_tag =? new_tag then ret (true, s, it)
  else
    let* ' (found, it) := pb_field_iter_find it old_tag in
    if negb found then ret (false, is_error s "invalid union tag", it)
    else
      pb_release_single_field fuel it ;;;
      let* ' (found, it) := pb_field_iter_find it new_tag in
      if negb found then ret (false, is_error s "iterator error", it)
      else ret (true, s, it).

(** ** Allocation *)

Definition allocate_field (s : pb_istream_t) (data data_size array_size : Z) : C (bool * pb_istream_t) :=
  let* ptr := load_ptr data in
  if (data_size =? 0) || (array_size =? 0) then ret (false, is_error s "invalid size")
  else
    let check_limit := 2 ^ 32 in
    if ((check_limit <=? data_size) || (check_limit <=? array_size)) &&
       ((2 ^ 64 - 1) / array_size <? data_size)
    then ret (false, is_error s "size too large")
    else
      let* ptr := pb_realloc ptr (u64 (array_size * data_size)) in
      if ptr =? 0 then ret (false, is_error s "realloc failed")
      else store_ptr data ptr ;;; ret (true, s).

Definition initialize_pointer_field (fuel : nat) (item : Z) (it : pb_field_iter_t) : C unit :=
  let pos := it_field it in
  let ltype := PB_LTYPE (f_type pos) in
  if (ltype =? PB_LTYPE_STRING) || (ltype =? PB_LTYPE_BYTES) then store_ptr item 0
  else if ltype =? PB_LTYPE_SUBMESSAGE then
    memset item 0 (Z.to_nat (f_data_size pos)) ;;;
    let* fields := need (field_array (f_ptr pos)) in
    pb_message_set_to_defaults fuel fields item
  else ret tt.

(** ** Field decoders *)

(** Store [svalue] in a field of [data_size] bytes and compare with what the
    field then holds; [None] for a size the code rejects. *)
Definition store_int (signed : bool) (data_size dest svalue : Z) : C (option bool) :=
  let store n := store_le n dest svalue ;;;
                 ret (Some (Z.eqb svalue
                   (if signed then sext (8 * Z.of_nat n) svalue else wrap (8 * Z.of_nat n) svalue))) in
  if data_size =? 8 then store 8%nat
  else if data_size =? 4 then store 4%nat
  else if data_size =? 2 then store 2%nat
  else if data_size =? 1 then store 1%nat
  else ret None.

Definition check_store (s : pb_istream_t) (r : option bool) : bool * pb_istream_t :=
  match r with
  | None => (false, is_error s "invalid data_size")
  | Some true => (true, s)
  | Some false => (false, is_error s "integer too large")
  end.

Definition pb_dec_varint : decoder := fun s field dest =>
  let* ' (ok, value, s) := pb_decode_varint s in
  if negb ok then ret (false, s)
  else
    let svalue := if f_data_size field =? 8 then sext 64 value else sext 32 value in
    let* r := store_int true (f_data_size field) dest svalue in
    ret (check_store s r).

Definition pb_dec_uvarint : decoder := fun s field dest =>
  let* ' (ok, value, s) := pb_decode_varint s in
  if negb ok then ret (false, s)
  else let* r := store_int false (f_data_size field) dest value in ret (check_store s r).

Definition pb_dec_svarint : decoder := fun s field dest =>
  let* ' (ok, value, s) := pb_decode_svarint s in
  if negb ok then ret (false, s)
  else let* r := store_int true (f_data_size field) dest value in ret (check_store s r).

Definition pb_dec_fixed32 : decoder := fun s _ dest => pb_decode_fixed32 s dest.
Definition pb_dec_fixed64 : decoder := fun s _ dest => pb_decode_fixed64 s dest.

Definition pb_dec_bytes : decoder := fun s field dest =>
  let* ' (ok, size, s) := pb_decode_varint32 s in
  if negb ok then ret (false, s)
  else if PB_SIZE_MAX <? size then ret (false, is_error s "bytes overflow")
  else
    let alloc_size := PB_BYTES_ARRAY_T_ALLOCSIZE size in
    if alloc_size <? size then ret (false, is_error s "size too large")
    else
      let* ' (ok, s, bdest) :=
        if PB_ATYPE (f_type field) =? PB_ATYPE_POINTER then
          let* ' (ok, s) := allocate_field s dest alloc_size 1 in
          if negb ok then ret (false, s, 0)
          else let* b := load_ptr dest in ret (true, s, b)
        else if f_data_size field <? alloc_size then ret (false, is_error s "bytes overflow", 0)
        else ret (true, s, dest) in
      if negb ok then ret (false, s)
      else
        store_le 4 (bdest + off_bytes_size) size ;;;
        let* ' (ok, _, s) := pb_read s (RMem (bdest + off_bytes_bytes)) size in
        ret (ok, s).

(** [alloc_size = size + 1] is computed in [uint32_t]. *)
Definition pb_dec_string : decoder := fun s field dest =>
  let* ' (ok, size, s) := pb_decode_varint32 s in
  if negb ok then ret (false, s)
  else
    let alloc_size := u32 (size + 1) in
    if alloc_size <? size then ret (false, is_error s "size too large")
    else
      let* ' (ok, s, dest) :=
        if PB_ATYPE (f_type field) =? PB_ATYPE_POINTER then
          let* ' (ok, s) := allocate_field s dest alloc_size 1 in
          if negb ok then ret (false, s, 0)
          else let* d := load_ptr dest in ret (true, s, d)
        else if f_data_size field <? alloc_size then ret (false, is_error s "string overflow", 0)
        else ret (true, s, dest) in
      if negb ok then ret (false, s)
      else
        let* ' (status, _, s) := pb_read s (RMem dest) size in
        store8 (dest + size) 0 ;;; ret (status, s).

Definition pb_dec_fixed_length_bytes : decoder := fun s field dest =>
  let* ' (ok, size, s) := pb_decode_varint32 s in
  if negb ok then ret (false, s)
  else if PB_SIZE_MAX <? size then ret (false, is_error s "bytes overflow")
  else if size =? 0 then memset dest 0 (Z.to_nat (f_data_size field)) ;;; ret (true, s)
  else if negb (size =? f_data_size field)
  then ret (false, is_error s "incorrect fixed length bytes size")
  else let* ' (ok, _, s) := pb_read s (RMem dest) (f_data_size field) in ret (ok, s).

(** ** One field, given the decoder of submessage structures *)
Section Field.
(** [pb_decode_noinit], one nesting level down, and the fuel of the
    functions that walk a structure. *)
Variable decode_msg : pb_istream_t -> list pb_field_t -> Z -> C (bool * pb_istream_t).
Variable fuel : nat.

(** [pb_decode]. *)
Definition pb_decode_with (s : pb_istream_t) (fields : list pb_field_t) (dest : Z)
  : C (bool * pb_istream_t) :=
  pb_message_set_to_defaults fuel fields dest ;;;
  let* ' (status, s) := decode_msg s fields dest in
  (if negb status then pb_release fuel fields dest else ret tt) ;;;
  ret (status, s).

Definition pb_dec_submessage : decoder := fun s field dest =>
  let* ' (ok, s, substream) := pb_make_string_substream s in
  if negb ok then ret (false, s)
  else if f_ptr field =? 0 then ret (false, is_error s "invalid field descriptor")
  else
    let* fields := need (field_array (f_ptr field)) in
    let* ' (status, substream) :=
      if PB_HTYPE (f_type field) =? PB_HTYPE_REPEATED
      then pb_decode_with substream fields dest
      else decode_msg substream fields dest in
    let* ' (ok, s) := pb_close_string_substream s substream in
    if negb ok then ret (false, s) else ret (status, s).

(** The table of decoders; the entry of extensions is null. *)
Definition PB_DECODERS : list (option decoder) :=
  [Some pb_dec_varint; Some pb_dec_uvarint; Some pb_dec_svarint; Some pb_dec_fixed32;
   Some pb_dec_fixed64; Some pb_dec_bytes; Some pb_dec_string; Some pb_dec_submessage;
   None; Some pb_dec_fixed_length_bytes].

Definition call_decoder (ltype : Z) : decoder :=
  match nth_error PB_DECODERS (Z.to_nat ltype) with
  | Some (Some f) => f
  | _ => fun _ _ _ => undef
  end.

(** [while (substream.bytes_left > 0 && *size < array_size)]. *)
Fixpoint packed_static_loop (n : nat) (func : decoder) (sub : pb_istream_t) (it : pb_field_iter_t)
  : C (bool * pb_istream_t) :=
  let pos := it_field it in
  let* size := load_le 4 (pSize it) in
  if (0 <? bytes_left sub) && (size <? f_array_size pos) then
    match n with
    | O => nofuel
    | S n' =>
        let* ' (ok, sub) := func sub pos (pData it + u32 (f_data_size pos * size)) in
        if negb ok then ret (false, sub)
        else
          let* size := load_le 4 (pSize it) in
          store_le 4 (pSize it) (u32 (size + 1)) ;;;
          packed_static_loop n' func sub it
    end
  else ret (true, sub).

Definition decode_static_field (s : pb_istream_t) (wire_type : Z) (it : pb_field_iter_t)
  : C (bool * pb_istream_t) :=
  let pos := it_field it in
  let type := f_type pos in
  let func := call_decoder (PB_LTYPE type) in
  if PB_HTYPE type =? PB_HTYPE_REQUIRED then func s pos (pData it)
  else if PB_HTYPE type =? PB_HTYPE_OPTIONAL then
    (if negb (pSize it =? pData it) then store_bool (pSize it) true else ret tt) ;;;
    func s pos (pData it)
  else if PB_HTYPE type =? PB_HTYPE_REPEATED then
    if (wire_type =? PB_WT_STRING) && (PB_LTYPE type <=? PB_LTYPE_LAST_PACKABLE) then
      let* ' (ok, s, substream) := pb_make_string_substream s in
      if negb ok then ret (false, s)
      else
        let* ' (status, substream) :=
          packed_static_loop (S (Z.to_nat (bytes_left substream))) func substream it in
        if negb (bytes_left substream =? 0) then ret (false, is_error s "array overflow")
        else
          let* ' (ok, s) := pb_close_string_substream s substream in
          if negb ok then ret (false, s) else ret (status, s)
    else
      let* size := load_le 4 (pSize it) in
      let item := pData it + u32 (f_data_size pos * size) in
      store_le 4 (pSize it) (u32 (size + 1)) ;;;
      if f_array_size pos <=? size then ret (false, is_error s "array overflow")
      else func s pos item
  else if PB_HTYPE type =? PB_HTYPE_ONEOF then
    store_le 4 (pSize it) (f_tag pos) ;;;
    (if PB_LTYPE type =? PB_LTYPE_SUBMESSAGE then
       memset (pData it) 0 (Z.to_nat (f_data_size pos)) ;;;
       let* fields := need (field_array (f_ptr pos)) in
       pb_message_set_to_defaults fuel fields (pData it)
     else ret tt) ;;;
    func s pos (pData it)
  else ret (false, is_error s "invalid field type").

(** [while (substream.bytes_left)] of a packed pointer array. Success, the
    error message set on the parent, the substream. *)
Fixpoint packed_pointer_loop (n : nat) (func : decoder) (sub : pb_istream_t) (it : pb_field_iter_t)
    (allocated_size : Z) : C (bool * bool * pb_istream_t) :=
  let pos := it_field it in
  if bytes_left sub =? 0 then ret (true, false, sub)
  else match n with
  | O => nofuel
  | S n' =>
      let* size := load_le 4 (pSize it) in
      let* ' (ok, sub, allocated_size) :=
        if allocated_size <? size + 1 then
          if f_data_size pos =? 0 then undef (* division by zero *)
          else
            let allocated_size :=
              u64 (allocated_size + ((bytes_left sub - 1) / f_data_size pos + 1)) in
            let* ' (ok, sub) := allocate_field sub (pData it) (f_data_size pos) allocated_size in
            ret (ok, sub, allocated_size)
        else ret (true, sub, allocated_size) in
      if negb ok then ret (false, false, sub)
      else
        let* size := load_le 4 (pSize it) in
        let* base := load_ptr (pData it) in
        let item := base + u32 (f_data_size pos * size) in
        initialize_pointer_field fuel item it ;;;
        let* ' (ok, sub) := func sub pos item in
        if negb ok then ret (false, false, sub)
        else
          let* size := load_le 4 (pSize it) in
          if size =? PB_SIZE_MAX then ret (false, true, sub)
          else store_le 4 (pSize it) (u32 (size + 1)) ;;;
               packed_pointer_loop n' func sub it allocated_size
  end.

Definition decode_pointer_field (s : pb_istream_t) (wire_type : Z) (it : pb_field_iter_t)
  : C (bool * pb_istream_t) :=
  let pos := it_field it in
  let type := f_type pos in
  let func := call_decoder (PB_LTYPE type) in
  if (PB_HTYPE type =? PB_HTYPE_REQUIRED) || (PB_HTYPE type =? PB_HTYPE_OPTIONAL) ||
     (PB_HTYPE type =? PB_HTYPE_ONEOF) then
    (if PB_LTYPE type =? PB_LTYPE_SUBMESSAGE then
       let* p := load_ptr (pData it) in
       if p =? 0 then ret tt else pb_release_single_field fuel it
     else ret tt) ;;;
    (if PB_HTYPE type =? PB_HTYPE_ONEOF then store_le 4 (pSize it) (f_tag pos) else ret tt) ;;;
    if (PB_LTYPE type =? PB_LTYPE_STRING) || (PB_LTYPE type =? PB_LTYPE_BYTES)
    then func s pos (pData it)
    else
      let* ' (ok, s) := allocate_field s (pData it) (f_data_size pos) 1 in
      if negb ok then ret (false, s)
      else
        let* p := load_ptr (pData it) in
        initialize_pointer_field fuel p it ;;;
        let* p := load_ptr (pData it) in
        func s pos p
  else if PB_HTYPE type =? PB_HTYPE_REPEATED then
    if (wire_type =? PB_WT_STRING) && (PB_LTYPE type <=? PB_LTYPE_LAST_PACKABLE) then
      let* allocated_size := load_le 4 (pSize it) in
      let* ' (ok, s, substream) := pb_make_string_substream s in
      if negb ok then ret (false, s)
      else
        let* ' (status, too_many, substream) :=
          packed_pointer_loop (S (Z.to_nat (bytes_left substream))) func substream it allocated_size in
        let s := if too_many then is_set_errmsg s (Some "too many array entries"%string) else s in
        let* ' (ok, s) := pb_close_string_substream s substream in
        if negb ok then ret (false, s) else ret (status, s)
    else
      let* size := load_le 4 (pSize it) in
      if size =? PB_SIZE_MAX then ret (false, is_error s "too many array entries")
      else
        store_le 4 (pSize it) (u32 (size + 1)) ;;;
        let* size := load_le 4 (pSize it) in
        let* ' (ok, s) := allocate_field s (pData it) (f_data_size pos) size in
        if negb ok then ret (false, s)
        else
          let* base := load_ptr (pData it) in
          let* size := load_le 4 (pSize it) in
          let item := base + u32 (f_data_size pos * u32 (size - 1)) in
          initialize_pointer_field fuel item it ;;;
          func s pos item
  else ret (false, is_error s "invalid field type").

(** [do { if (!decode(&substream, ...)) error } while (substream.bytes_left)];
    a callback that reads nothing and succeeds loops for ever. *)
Fixpoint callback_loop (n : nat) (callback : Z) (sub : pb_istream_t) (pos : pb_field_t) (arg : Z)
  : C (bool * pb_istream_t) :=
  match n with
  | O => nofuel
  | S n' =>
      let* decode := load_ptr (callback + off_callback_funcs) in
      let* ' (ok, sub) := decode_fn decode sub pos arg in
      if negb ok then ret (false, sub)
      else if bytes_left sub =? 0 then ret (true, sub)
      else callback_loop n' callback sub pos arg
  end.

Definition decode_callback_field (s : pb_istream_t) (wire_type : Z) (it : pb_field_iter_t)
  : C (bool * pb_istream_t) :=
  let callback := pData it in
  let arg := callback + off_callback_arg in
  let* decode := if callback =? 0 then ret 0 else load_ptr (callback + off_callback_funcs) in
  if decode =? 0 then pb_skip_field s wire_type
  else if wire_type =? PB_WT_STRING then
    let* ' (ok, s, substream) := pb_make_string_substream s in
    if negb ok then ret (false, s)
    else
      let* ' (ok, substream) :=
        callback_loop (S (Z.to_nat (bytes_left substream))) callback substream (it_field it) arg in
      if negb ok then ret (false, is_error s "callback failed")
      else
        let* ' (ok, s) := pb_close_string_substream s substream in
        if negb ok then ret (false, s) else ret (true, s)
  else
    with_local 10 (fun buffer =>
      let* ' (ok, size, s) := read_raw_value s wire_type buffer 10 in
      if negb ok then ret (false, s)
      else
        let* decode := load_ptr (callback + off_callback_funcs) in
        let* ' (ok, _) := decode_fn decode (pb_istream_from_buffer buffer size) (it_field it) arg in
        ret (ok, s)).

(** The iterator is passed by address and may be moved by the release of
    a union: it is part of the result. *)
Definition decode_field (s : pb_istream_t) (wire_type : Z) (it : pb_field_iter_t)
  : C (bool * pb_istream_t * pb_field_iter_t) :=
  let* ' (ok, s, it) :=
    if PB_HTYPE (f_type (it_field it)) =? PB_HTYPE_ONEOF
    then pb_release_union_field fuel s it else ret (true, s, it) in
  if negb ok then ret (false, s, it)
  else
    let atype := PB_ATYPE (f_type (it_field it)) in
    let* ' (ok, s) :=
      if atype =? PB_ATYPE_STATIC then decode_static_field s wire_type it
      else if atype =? PB_ATYPE_POINTER then decode_pointer_field s wire_type it
      else if atype =? PB_ATYPE_CALLBACK then decode_callback_field s wire_type it
      else ret (false, is_error s "invalid field type") in
    ret (ok, s, it).

Definition default_extension_decoder (s : pb_istream_t) (extension tag wire_type : Z)
  : C (bool * pb_istream_t) :=
  let* type := load_ptr (extension + off_ext_type) in
  let* arg := load_ptr (type + off_exttype_arg) in
  let* fields := need (field_array arg) in
  if negb (f_tag (field_at fields 0) =? tag) then ret (true, s)
  else
    let* it := iter_from_extension extension in
    store_bool (extension + off_ext_found) true ;;;
    let* ' (ok, s, _) := decode_field s wire_type it in
    ret (ok, s).

(** [while (extension != NULL && pos == stream->bytes_left)]. *)
Fixpoint decode_extension_loop (n : nat) (s : pb_istream_t) (pos extension tag wire_type : Z)
  : C (bool * pb_istream_t) :=
  if negb (extension =? 0) && (pos =? bytes_left s) then
    match n with
    | O => nofuel
    | S n' =>
        let* type := load_ptr (extension + off_ext_type) in
        let* decode := load_ptr (type + off_exttype_decode) in
        let* ' (status, s) :=
          if decode =? 0 then default_extension_decoder s extension tag wire_type
          else ext_decode_fn decode s extension tag wire_type in
        if negb status then ret (false, s)
        else let* next := load_ptr (extension + off_ext_next) in
             decode_extension_loop n' s pos next tag wire_type
    end
  else ret (true, s).

Definition decode_extension (s : pb_istream_t) (tag wire_type : Z) (it : pb_field_iter_t)
  : C (bool * pb_istream_t) :=
  let* extension := load_ptr (pData it) in
  decode_extension_loop fuel s (bytes_left s) extension tag wire_type.

Definition find_extension_field (it : pb_field_iter_t) : C (bool * pb_field_iter_t) :=
  iter_search (fun f => PB_LTYPE (f_type f) =? PB_LTYPE_EXTENSION) (iter_fuel it) (it_pos it) it.

(** ** The loop over the fields of a message *)

(** The local variables of [pb_decode_noinit]: the iterator, the start of
    the extension range, the position of the last fixed-count field and
    the two words of [fields_seen]. *)
Record decode_vars : Type := mkVars {
  dv_iter : pb_field_iter_t;
  dv_extension_range_start : Z;
  dv_fixed_count_field : option nat;
  dv_fields_seen : Z * Z;
}.

Definition dv_set_iter (v : decode_vars) (it : pb_field_iter_t) : decode_vars :=
  mkVars it (dv_extension_range_start v) (dv_fixed_count_field v) (dv_fields_seen v).

(** A tag without a field: try the extensions, else skip the data. *)
Definition decode_unknown (s : pb_istream_t) (tag wire_type : Z) (v : decode_vars)
  : C (bool * pb_istream_t * decode_vars) :=
  let skip s v := let* ' (ok, s) := pb_skip_field s wire_type in ret (ok, s, v) in
  if dv_extension_range_start v <=? tag then
    let* ' (found, it) := find_extension_field (dv_iter v) in
    let start := if found then f_tag (it_field it) else 2 ^ 32 - 1 in
    let v := mkVars it start (dv_fixed_count_field v) (dv_fields_seen v) in
    if start <=? tag then
      let pos := bytes_left s in
      let* ' (ok, s) := decode_extension s tag wire_type it in
      if negb ok then ret (false, s, v)
      else if negb (pos =? bytes_left s) then ret (true, s, v)
      else skip s v
    else skip s v
  else skip s v.

(** [fixed_count_size] of an array at [fixed_count] that has not received
    all its entries. *)
Definition fixed_count_incomplete (fixed_count : Z) (v : decode_vars) : C bool :=
  match dv_fixed_count_field v with
  | None => ret false
  | Some i =>
      let* size := load_le 4 fixed_count in
      ret (negb (size =? f_array_size (field_at (it_start (dv_iter v)) i)))
  end.

(** A repeated field without a counter uses the local [fixed_count_size]. *)
Definition use_fixed_count (fixed_count : Z) (s : pb_istream_t) (v : decode_vars)
  : C (bool * pb_istream_t * decode_vars) :=
  let it := dv_iter v in
  if (PB_HTYPE (f_type (it_field it)) =? PB_HTYPE_REPEATED) && (pSize it =? pData it) then
    let* ' (ok, v) :=
      if bool_decide (dv_fixed_count_field v = Some (it_pos it)) then ret (true, v)
      else
        let* bad := fixed_count_incomplete fixed_count v in
        if bad then ret (false, v)
        else store_le 4 fixed_count 0 ;;;
             ret (true, mkVars it (dv_extension_range_start v) (Some (it_pos it)) (dv_fields_seen v)) in
    if negb ok then ret (false, is_error s "wrong size for fixed count field", v)
    else ret (true, s, dv_set_iter v (it_set_pSize (dv_iter v) fixed_count))
  else ret (true, s, v).

(** [fields_seen[index >> 5] |= 1 << (index & 31)]. *)
Definition see_field (seen : Z * Z) (index : Z) : Z * Z :=
  let tmp := u32 (Z.shiftl 1 (Z.land index 31)) in
  if Z.shiftr index 5 =? 0 then (Z.lor (fst seen) tmp, snd seen) else (fst seen, Z.lor (snd seen) tmp).

Definition mark_seen (v : decode_vars) : decode_vars :=
  let it := dv_iter v in
  if (PB_HTYPE (f_type (it_field it)) =? PB_HTYPE_REQUIRED) &&
     (required_field_index it <? PB_MAX_REQUIRED_FIELDS)
  then mkVars it (dv_extension_range_start v) (dv_fixed_count_field v)
              (see_field (dv_fields_seen v) (required_field_index it))
  else v.

(** One round of [while (stream->bytes_left)]: [None] leaves the loop. *)
Definition decode_step (fixed_count : Z) (s : pb_istream_t) (v : decode_vars)
  : C (option bool * pb_istream_t * decode_vars) :=
  let* ' (ok, wire_type, tag, eof, s) := pb_decode_tag s in
  if negb ok then ret (if eof then None else Some false, s, v)
  else
    let* ' (found, it) := pb_field_iter_find (dv_iter v) tag in
    let v := dv_set_iter v it in
    if negb found then
      let* ' (ok, s, v) := decode_unknown s tag wire_type v in ret (Some ok, s, v)
    else
      let* ' (ok, s, v) := use_fixed_count fixed_count s v in
      if negb ok then ret (Some false, s, v)
      else
        let v := mark_seen v in
        let* ' (ok, s, it) := decode_field s wire_type (dv_iter v) in
        ret (Some ok, s, dv_set_iter v it).

Fixpoint decode_loop (n : nat) (fixed_count : Z) (s : pb_istream_t) (v : decode_vars)
  : C (bool * pb_istream_t * decode_vars) :=
  if bytes_left s =? 0 then ret (true, s, v)
  else match n with
  | O => nofuel
  | S n' =>
      let* ' (r, s, v) := decode_step fixed_count s v in
      match r with
      | None => ret (true, s, v)
      | Some false => ret (false, s, v)
      | Some true => decode_loop n' fixed_count s v
      end
  end.

(** The number of required fields, by seeking to the end of the array. *)
Definition count_required (it : pb_field_iter_t) : C Z :=
  let* ' (_, (count, last_type), it) :=
    do_fields (iter_fuel it)
      (fun it (_ : Z * Z) => ret (true, (required_field_index it, f_type (it_field it))))
      it (0, 0) in
  let count := if (PB_HTYPE last_type =? PB_HTYPE_REQUIRED) && negb (f_tag (it_field it) =? 0)
               then u32 (count + 1) else count in
  ret (if PB_MAX_REQUIRED_FIELDS <? count then PB_MAX_REQUIRED_FIELDS else count).

(** The words of [fields_seen] against the number of required fields. *)
Definition seen_word (seen : Z * Z) (i : Z) : Z := if i =? 0 then fst seen else snd seen.

Definition all_seen (seen : Z * Z) (req_field_count : Z) : bool :=
  let allbits := 2 ^ 32 - 1 in
  forallb (fun i => seen_word seen i =? allbits) (seqZ 0 (Z.shiftr req_field_count 5)) &&
  ((Z.land req_field_count 31 =? 0) ||
   (seen_word seen (Z.shiftr req_field_count 5) =?
    Z.shiftr allbits (32 - Z.land req_field_count 31))).

(** The body of [pb_decode_noinit], with [fixed_count_size] at
    [fixed_count]. *)
Definition decode_message (fixed_count : Z) (s : pb_istream_t) (fields : list pb_field_t) (dest : Z)
  : C (bool * pb_istream_t) :=
  store_le 4 fixed_count 0 ;;;
  let it := snd (pb_field_iter_begin fields dest) in
  let* ' (ok, s, v) :=
    decode_loop (Z.to_nat (bytes_left s)) fixed_count s (mkVars it 0 None (0, 0)) in
  if negb ok then ret (false, s)
  else
    let* bad := fixed_count_incomplete fixed_count v in
    if bad then ret (false, is_error s "wrong size for fixed count field")
    else
      let* count := count_required (dv_iter v) in
      if all_seen (dv_fields_seen v) count then ret (true, s)
      else ret (false, is_error s "missing required field").
End Field.

(** ** Messages *)

(** [fuel] bounds the nesting of submessages. *)
Fixpoint pb_decode_noinit (fuel : nat) (s : pb_istream_t) (fields : list pb_field_t) (dest : Z)
  : C (bool * pb_istream_t) :=
  match fuel with
  | O => nofuel
  | S fuel' =>
      with_local 4 (fun fixed_count =>
        decode_message (pb_decode_noinit fuel') fuel' fixed_count s fields dest)
  end.

Definition pb_decode (fuel : nat) (s : pb_istream_t) (fields : list pb_field_t) (dest : Z)
  : C (bool * pb_istream_t) :=
  pb_decode_with (pb_decode_noinit fuel) fuel s fields dest.

(** Decode between [pb_make_string_substream] and
    [pb_close_string_substream]. *)
Definition in_substream (decode : pb_istream_t -> C (bool * pb_istream_t)) (s : pb_istream_t)
  : C (bool * pb_istream_t) :=
  let* ' (ok, s, substream) := pb_make_string_substream s in
  if negb ok then ret (false, s)
  else
    let* ' (status, substream) := decode substream in
    let* ' (ok, s) := pb_close_string_substream s substream in
    if negb ok then ret (false, s) else ret (status, s).

Definition pb_decode_delimited_noinit (fuel : nat) (s : pb_istream_t) (fields : list pb_field_t) (dest : Z)
  : C (bool * pb_istream_t) :=
  in_substream (fun sub => pb_decode_noinit fuel sub fields dest) s.

Definition pb_decode_delimited (fuel : nat) (s : pb_istream_t) (fields : list pb_field_t) (dest : Z)
  : C (bool * pb_istream_t) :=
  in_substream (fun sub => pb_decode fuel sub fields dest) s.

Definition pb_decode_nullterminated (fuel : nat) (s : pb_istream_t) (fields : list pb_field_t) (dest : Z)
  : C (bool * pb_istream_t) :=
  pb_decode fuel s fields dest.
End Decode.
