(* ===== verification/PbDecodeSafe.v ===== *)
(** Memory safety and termination of the decoder on arbitrary input, for
    messages whose fields are stored in the structure itself. *)

From stdpp Require Import base list gmap strings.
From Stdlib Require Import ZArith Lia.
From S2P Require Import Prelude CMem PbTypes PbCommon PbIter PbIstream PbDecode.

(** * Streams *)

(** A stream over mapped memory, whatever it holds. *)
Record stream_ok (m : mem) (s : pb_istream_t) : Prop := {
  sk_callback : is_callback s = ICb_buf_read;
  sk_left : 0 <= bytes_left s;
  sk_mapped : mapped_range m (is_state s) (bytes_left s);
}.

(** [s'] is [s] after reading some of its bytes. *)
Record read_on (s s' : pb_istream_t) : Prop := {
  ro_callback : is_callback s' = is_callback s;
  ro_left : 0 <= bytes_left s' <= bytes_left s;
  ro_end : is_state s' + bytes_left s' = is_state s + bytes_left s;
}.

(** A failure comes with a message. *)
Definition told (ok : bool) (s : pb_istream_t) : Prop := ok = false -> is_errmsg s <> None.

Lemma set_error_some e msg : set_error e msg <> None.
Proof. by destruct e. Qed.

Lemma told_error s msg : told false (is_error s msg).
Proof. intros _. apply set_error_some. Qed.

Lemma told_true s : told true s.
Proof. done. Qed.

Lemma read_on_refl s : 0 <= bytes_left s -> read_on s s.
Proof. by split. Qed.

Lemma read_on_trans s1 s2 s3 : read_on s1 s2 -> read_on s2 s3 -> read_on s1 s3.
Proof. intros [? ? ?] [? ? ?]. split; [congruence|lia|lia]. Qed.

Lemma read_on_error s s' msg : read_on s s' -> read_on s (is_error s' msg).
Proof. by intros [? ? ?]. Qed.

Lemma stream_ok_read m s s' : stream_ok m s -> read_on s s' -> stream_ok m s'.
Proof.
  intros [Hc Hl Hm] [Hc' Hl' He]. split; [congruence|lia|].
  eapply mapped_range_sub; [exact Hm|lia..].
Qed.

Lemma stream_ok_frame S m m' s : frame S m m' -> stream_ok m s -> stream_ok m' s.
Proof. intros F [? ? ?]. split; [done..|]. by eapply frame_mapped_range. Qed.

Create HintDb safe.
#[export] Hint Resolve told_error told_true read_on_refl read_on_trans read_on_error sk_left
  stream_ok_read stream_ok_frame frame_refl : safe.

(** Close a branch that returns. *)
Ltac fin := apply wp_ret; split_and?; try done; eauto with safe.

(** ** The readers *)

Section Readers.
Context `{Program}.

Lemma wp_readbyte m s :
  stream_ok m s ->
  wp (pb_readbyte s) (fun '(ok, b, s') m' =>
    m' = m /\ read_on s s' /\ told ok s' /\ (ok = true -> is_byte b /\ bytes_left s' = bytes_left s - 1)) m.
Proof.
  intros [Hc Hl Hm]. unfold pb_readbyte. destruct (Z.eqb_spec (bytes_left s) 0).
  { fin. }
  unfold call_read. rewrite Hc. unfold buf_read. apply wp_bind. change (Z.to_nat 1) with 1%nat.
  apply wp_bind, wp_load_bytes; [eapply mapped_range_sub; [exact Hm|lia..]|].
  intros l Hlen Hbytes. apply wp_ret, wp_ret. cbn [negb]. split; [done|].
  split; [split; simpl; [done|lia|lia]|]. split; [done|]. intros _. split; [|done].
  destruct l as [|b l]; [done|]. by apply Forall_cons in Hbytes as [? _].
Qed.

Lemma wp_varint_loop m fuel s bitpos res :
  stream_ok m s -> (0 < fuel)%nat -> 0 <= bitpos -> bitpos = 77 - 7 * Z.of_nat fuel ->
  wp (varint_loop fuel s bitpos res) (fun '(ok, v, s') m' =>
    m' = m /\ read_on s s' /\ told ok s' /\
    (ok = true -> bytes_left s' < bytes_left s)) m.
Proof.
  revert s bitpos res. induction fuel as [|fuel IH]; intros s bitpos res Hs Hf Hb0 Hb; [lia|].
  cbn [varint_loop]. destruct (Z.leb_spec 64 bitpos); [fin|].
  apply wp_bind. eapply wp_mono; [by apply wp_readbyte|]. intros [[ok b] s1] m' (-> & Hr & Ht & Hok).
  destruct ok; cbn [negb]; [|fin]. destruct (truthy _); [|fin; destruct (Hok eq_refl); lia].
  rewrite (wrap_small 8) by lia. eapply wp_mono; [apply IH; [eauto with safe|lia|lia|lia]|].
  intros [[ok v] s2] m' (-> & Hr2 & Ht2 & _). destruct (Hok eq_refl) as [_ Hleft].
  pose proof (ro_left _ _ Hr2). split_and!; [done|eauto with safe|done|lia].
Qed.

Lemma wp_decode_varint m s :
  stream_ok m s ->
  wp (pb_decode_varint s) (fun '(ok, v, s') m' =>
    m' = m /\ read_on s s' /\ told ok s' /\
    (ok = true -> bytes_left s' < bytes_left s)) m.
Proof. intros Hs. apply wp_varint_loop; [done|lia..]. Qed.

Lemma wp_decode_svarint m s :
  stream_ok m s ->
  wp (pb_decode_svarint s) (fun '(ok, v, s') m' =>
    m' = m /\ read_on s s' /\ told ok s' /\
    (ok = true -> bytes_left s' < bytes_left s)) m.
Proof.
  intros Hs. apply wp_bind. eapply wp_mono; [by apply wp_decode_varint|].
  intros [[ok v] s1] m' (-> & Hr & Ht & Hlt). destruct ok; fin.
Qed.

Lemma wp_varint32_loop m fuel s bitpos res :
  stream_ok m s -> (Z.to_nat (bytes_left s) < fuel)%nat -> 0 <= bitpos -> 0 <= res < 2 ^ 32 ->
  wp (varint32_loop fuel s bitpos res) (fun '(ok, (v, bp, b), s') m' =>
    m' = m /\ read_on s s' /\ told ok s' /\ (ok = true -> 0 <= v < 2 ^ 32)) m.
Proof.
  revert s bitpos res. induction fuel as [|fuel IH]; intros s bitpos res Hs Hf Hb Hres; [lia|].
  cbn [varint32_loop]. apply wp_bind. eapply wp_mono; [by apply wp_readbyte|].
  intros [[ok b] s1] m' (-> & Hr & Ht & Hok). destruct ok; cbn [negb]; [|fin].
  destruct (Hok eq_refl) as [Hbyte Hleft]. destruct (_ && _ && _); [fin|].
  set (res' := if 32 <=? bitpos then res else _).
  assert (Hres' : 0 <= res' < 2 ^ 32).
  { unfold res'. destruct (32 <=? bitpos); [done|]. apply lor_range; [lia|done|apply wrap_range; lia]. }
  destruct (truthy _); [|fin].
  pose proof (ro_left _ _ Hr). eapply wp_mono; [apply IH; [eauto with safe|lia|apply wrap_range; lia|done]|].
  intros [[ok [[v bp] b']] s2] m' (-> & Hr2 & Ht2 & Hv). eauto with safe.
Qed.

Lemma wp_decode_varint32_eof m s :
  stream_ok m s ->
  wp (pb_decode_varint32_eof s) (fun '(ok, v, eof, s') m' =>
    m' = m /\ read_on s s' /\ told ok s' /\
    (ok = true -> 0 <= v < 2 ^ 32 /\ bytes_left s' < bytes_left s)) m.
Proof.
  intros Hs. apply wp_bind. eapply wp_mono; [by apply wp_readbyte|].
  intros [[ok b] s1] m' (-> & Hr & Ht & Hok). destruct ok; cbn [negb]; [|fin].
  destruct (Hok eq_refl) as [Hbyte Hleft]. unfold is_byte in Hbyte.
  destruct (Z.land b 0x80 =? 0).
  { apply wp_ret. split; [done|]. split; [done|]. split; [done|]. lia. }
  apply wp_bind. eapply wp_mono.
  { apply wp_varint32_loop; [eauto with safe|lia|lia|]. rewrite land_7f. pose proof (Z.mod_pos_bound b 128 ltac:(lia)). lia. }
  intros [[ok [[v bp] b']] s2] m' (-> & Hr2 & Ht2 & Hv). pose proof (ro_left _ _ Hr2).
  destruct ok; cbn [negb]; [|fin].
  destruct (_ && _); [fin|]. apply wp_ret.
  split; [done|]. split; [eauto with safe|]. split; [done|]. intros _. split; [by apply Hv|lia].
Qed.

Lemma wp_decode_varint32 m s :
  stream_ok m s ->
  wp (pb_decode_varint32 s) (fun '(ok, v, s') m' =>
    m' = m /\ read_on s s' /\ told ok s' /\
    (ok = true -> 0 <= v < 2 ^ 32 /\ bytes_left s' < bytes_left s)) m.
Proof.
  intros Hs. apply wp_bind. eapply wp_mono; [by apply wp_decode_varint32_eof|].
  intros [[[ok v] eof] s1] m' (-> & Hr & Ht & Hv). fin.
Qed.

Lemma wp_decode_tag m s :
  stream_ok m s ->
  wp (pb_decode_tag s) (fun '(ok, wt, tag, eof, s') m' =>
    m' = m /\ read_on s s' /\ (ok = false -> eof = false -> is_errmsg s' <> None) /\
    (ok = true -> 0 <= tag < 2 ^ 29 /\ bytes_left s' < bytes_left s)) m.
Proof.
  intros Hs. apply wp_bind. eapply wp_mono; [by apply wp_decode_varint32_eof|].
  intros [[[ok v] eof] s1] m' (-> & Hr & Ht & Hv).
  destruct ok; cbn [negb]; [|fin; intros _ _; by apply Ht].
  destruct (v =? 0); apply wp_ret; (split; [done|]; split; [done|]; split; [done|]); [done|].
  intros _. destruct (Hv eq_refl) as [Hrange Hlt]. split; [|done].
  rewrite Z.shiftr_div_pow2 by lia. change (2 ^ 3) with 8. split; [apply Z.div_pos; lia|apply Z.div_lt_upper_bound; lia].
Qed.

(** Reading nowhere, or into a local array. *)
Lemma wp_read_null m s n :
  stream_ok m s -> 0 <= n ->
  wp (pb_read s RNull n) (fun '(ok, _, s') m' => m' = m /\ read_on s s' /\ told ok s') m.
Proof.
  intros [Hc Hl Hm] Hn. unfold pb_read, pb_read_checked, call_read. rewrite Hc.
  destruct (Z.ltb_spec (bytes_left s) n); [fin|].
  apply wp_bind, wp_ret, wp_ret. split; [done|]. split; [split; simpl; [done|lia|lia]|done].
Qed.

Lemma wp_read_local m s n :
  stream_ok m s -> 0 <= n ->
  wp (pb_read s RLocal n) (fun '(ok, l, s') m' =>
    m' = m /\ read_on s s' /\ told ok s' /\
    (ok = true -> length l = Z.to_nat n /\ bytes_left s' = bytes_left s - n)) m.
Proof.
  intros [Hc Hl Hm] Hn. unfold pb_read, pb_read_checked, call_read. rewrite Hc.
  destruct (Z.ltb_spec (bytes_left s) n); [fin|].
  apply wp_bind, wp_bind, wp_load_bytes; [eapply mapped_range_sub; [exact Hm|lia..]|].
  intros l Hlen _. apply wp_ret, wp_ret. split; [done|]. split; [split; simpl; [done|lia|lia]|]. by split.
Qed.

(** Reading into memory that may be written. *)
Lemma wp_read_mem S m0 m s dest n :
  stream_ok m0 s -> frame S m0 m -> 0 <= n -> mapped_range m0 dest n ->
  (forall x, range dest n x -> S x) ->
  wp (pb_read s (RMem dest) n) (fun '(ok, _, s') m' => read_on s s' /\ told ok s' /\ frame S m0 m') m.
Proof.
  intros [Hc Hl Hm] F Hn Hd HS. unfold pb_read, pb_read_checked, call_read. rewrite Hc.
  destruct (Z.ltb_spec (bytes_left s) n); [fin|].
  apply wp_bind. unfold buf_read. apply wp_bind.
  apply (wp_copy_loop S m0); [done| | | |]; rewrite ?Z2Nat.id by done; [done| |done|].
  - eapply mapped_range_sub; [exact Hm|lia..].
  - intros m' F'. apply wp_ret, wp_ret. split; [split; simpl; [done|lia|lia]|done].
Qed.

(** ** Skipping *)

Lemma wp_skip_varint_loop m fuel s :
  stream_ok m s -> (Z.to_nat (bytes_left s) < fuel)%nat ->
  wp (skip_varint_loop fuel s) (fun '(ok, s') m' => m' = m /\ read_on s s' /\ told ok s') m.
Proof.
  revert s. induction fuel as [|fuel IH]; intros s Hs Hf; [lia|]. cbn [skip_varint_loop].
  apply wp_bind. eapply wp_mono; [by apply wp_read_local; [|lia]|].
  intros [[ok l] s1] m' (-> & Hr & Ht & Hok). destruct ok; cbn [negb]; [|fin].
  destruct (Hok eq_refl) as [_ Hleft]. pose proof (ro_left _ _ Hr).
  destruct (truthy _); [|fin].
  eapply wp_mono; [apply IH; [eauto with safe|lia]|].
  intros [ok2 s2] m' (-> & Hr2 & Ht2). eauto with safe.
Qed.

Lemma wp_skip_n m s n :
  stream_ok m s -> 0 <= n ->
  wp (let* ' (ok, _, s) := pb_read s RNull n in ret (ok, s))
     (fun '(ok, s') m' => m' = m /\ read_on s s' /\ told ok s') m.
Proof.
  intros Hs Hn. apply wp_bind. eapply wp_mono; [by apply wp_read_null|].
  intros [[ok l] s1] m' (-> & Hr & Ht). fin.
Qed.

Lemma wp_skip_field m s wire_type :
  stream_ok m s ->
  wp (pb_skip_field s wire_type) (fun '(ok, s') m' => m' = m /\ read_on s s' /\ told ok s') m.
Proof.
  intros Hs. unfold pb_skip_field.
  destruct (wire_type =? PB_WT_VARINT); [apply wp_skip_varint_loop; [done|lia]|].
  destruct (wire_type =? PB_WT_64BIT); [by apply wp_skip_n|].
  destruct (wire_type =? PB_WT_STRING).
  { apply wp_bind. eapply wp_mono; [by apply wp_decode_varint32|].
    intros [[ok n] s1] m' (-> & Hr & Ht & Hv). destruct ok; cbn [negb]; [|fin].
    eapply wp_mono; [apply wp_skip_n; [eauto with safe|by apply Hv]|].
    intros [ok2 s2] m' (-> & Hr2 & Ht2). eauto with safe. }
  destruct (wire_type =? PB_WT_32BIT); [by apply wp_skip_n|].
  fin.
Qed.
End Readers.

(** * Properties

    Memory safety of the decoders of single fields and of whole messages,
    for messages whose fields all lie in the structure. *)

(** * What a decoder leaves behind *)

(** A stream that may still be read from, on success or failure. *)
Record kept (s s' : pb_istream_t) : Prop := {
  kp_callback : is_callback s' = is_callback s;
  kp_left : 0 <= bytes_left s' <= bytes_left s;
}.

(** Bytes that a function may write: mapped, and in [S]. *)
Record room (S : Z -> Prop) (m0 : mem) (a n : Z) : Prop := {
  rm_mapped : mapped_range m0 a n;
  rm_in : forall x, range a n x -> S x;
}.

(** A decoder that wrote in [S] only, consumed at least [k] bytes on success
    and set an error message on failure. *)
Definition decoded (S : Z -> Prop) (m0 : mem) (k : Z) (s : pb_istream_t)
    : bool * pb_istream_t -> mem -> Prop :=
  fun '(ok, s') m' =>
    kept s s' /\ told ok s' /\ frame S m0 m' /\
    (ok = true -> read_on s s' /\ bytes_left s' <= bytes_left s - k).

Lemma read_kept s s' : read_on s s' -> kept s s'.
Proof. by intros [? ? ?]. Qed.

Lemma kept_trans s1 s2 s3 : kept s1 s2 -> kept s2 s3 -> kept s1 s3.
Proof. intros [? ?] [? ?]. split; [congruence|lia]. Qed.

Lemma kept_error s s' msg : kept s s' -> kept s (is_error s' msg).
Proof. by intros [? ?]. Qed.

Lemma room_sub S m0 a n a' n' : room S m0 a n -> a <= a' -> a' + n' <= a + n -> room S m0 a' n'.
Proof.
  intros [Hm HS] ? ?. split; [by eapply mapped_range_sub|].
  intros x Hx. apply HS. unfold range in *. lia.
Qed.

#[export] Hint Resolve read_kept kept_trans kept_error : safe.

Lemma decoded_fail S m0 m k s s' msg :
  kept s s' -> frame S m0 m -> decoded S m0 k s (false, is_error s' msg) m.
Proof. intros Hk F. split_and!; [by apply kept_error|apply told_error|done|done]. Qed.

Lemma decoded_stop S m0 m k s s' :
  kept s s' -> told false s' -> frame S m0 m -> decoded S m0 k s (false, s') m.
Proof. by intros. Qed.

Lemma decoded_ok S m0 m k s s' :
  read_on s s' -> bytes_left s' <= bytes_left s - k -> frame S m0 m -> decoded S m0 k s (true, s') m.
Proof. intros. split_and!; [by apply read_kept|done..]. Qed.

Lemma decoded_weaken S m0 k k' s r m : k' <= k -> decoded S m0 k s r m -> decoded S m0 k' s r m.
Proof.
  destruct r as [ok s']. intros Hk (? & ? & ? & Hok). split_and!; [done..|].
  intros E. destruct (Hok E). split; [done|lia].
Qed.

(** The stream already advanced from [s] to [s1]. *)
Lemma decoded_after S m0 k s s1 r m :
  read_on s s1 -> decoded S m0 k s1 r m -> decoded S m0 (k + (bytes_left s - bytes_left s1)) s r m.
Proof.
  destruct r as [ok s']. intros Hr (? & ? & ? & Hok). split_and!; [eauto with safe|done..|].
  intros E. destruct (Hok E). split; [eauto with safe|lia].
Qed.

Lemma decoded_after_more S m0 s s1 r m :
  read_on s s1 -> bytes_left s1 < bytes_left s -> decoded S m0 0 s1 r m -> decoded S m0 1 s r m.
Proof. intros Hr Hlt Hd. eapply decoded_weaken; [|by eapply decoded_after]. lia. Qed.

#[export] Hint Resolve decoded_fail decoded_stop decoded_ok : safe.

(** * Decoders of single values *)
Section Values.
Context `{Program} (S : Z -> Prop) (m0 : mem).
Implicit Types (m : mem) (s : pb_istream_t).

Lemma wp_store_room n m a v (Q : unit -> mem -> Prop) :
  frame S m0 m -> room S m0 a (Z.of_nat n) ->
  (forall m', frame S m0 m' -> Q tt m') -> wp (store_le n a v) Q m.
Proof. intros F [Hm HS] HQ. by apply (wp_store_le S m0). Qed.

Lemma wp_memset_room n m a c (Q : unit -> mem -> Prop) :
  frame S m0 m -> room S m0 a (Z.of_nat n) ->
  (forall m', frame S m0 m' -> Q tt m') -> wp (memset a c n) Q m.
Proof. intros F [Hm HS] HQ. by apply (wp_memset S m0). Qed.

Lemma wp_store8_room m a v (Q : unit -> mem -> Prop) :
  frame S m0 m -> room S m0 a 1 ->
  (forall m', frame S m0 m' -> Q tt m') -> wp (store8 a v) Q m.
Proof.
  intros F [Hm HS] HQ. apply (wp_store8 S m0); [done| |apply HS; unfold range; lia|done].
  eapply frame_mapped; [exact F|]. eapply mapped_range_at; [exact Hm|lia].
Qed.

(** A value of one of the sizes the code accepts fits a member of its size. *)
Lemma wp_store_int m (signed : bool) data_size dest v (Q : option bool -> mem -> Prop) :
  frame S m0 m -> room S m0 dest data_size ->
  (forall r m', frame S m0 m' -> Q r m') -> wp (store_int signed data_size dest v) Q m.
Proof.
  intros F Hr HQ. unfold store_int.
  repeat (match goal with |- context [data_size =? ?k] => destruct (Z.eqb_spec data_size k) as [->|] end;
    [apply wp_bind, wp_store_room; [done|done|]; intros m' F'; by apply wp_ret, HQ|]).
  by apply wp_ret, HQ.
Qed.

Lemma decoded_check_store m s s1 r :
  read_on s s1 -> bytes_left s1 < bytes_left s -> frame S m0 m -> decoded S m0 1 s (check_store s1 r) m.
Proof. intros. destruct r as [[]|]; [apply decoded_ok; [done|lia|done]|eauto with safe..]. Qed.

(** Read a number, store it, compare. *)
Lemma wp_read_store m s data_size dest (signed : bool) (value : Z -> Z) (read : C (bool * Z * pb_istream_t)) :
  wp read (fun '(ok, v, s') m' => m' = m /\ read_on s s' /\ told ok s' /\
    (ok = true -> bytes_left s' < bytes_left s)) m ->
  frame S m0 m -> room S m0 dest data_size ->
  wp (let* ' (ok, v, s) := read in
      if negb ok then ret (false, s)
      else let* r := store_int signed data_size dest (value v) in ret (check_store s r))
     (decoded S m0 1 s) m.
Proof.
  intros Hread F Hr. apply wp_bind. eapply wp_mono; [exact Hread|].
  intros [[ok v] s1] m' (-> & Hr1 & Ht & Hlt). destruct ok; cbn [negb]; [|apply wp_ret; eauto with safe].
  apply wp_bind, wp_store_int; [done|done|]. intros r m1 F1. apply wp_ret, decoded_check_store; eauto.
Qed.

Lemma wp_dec_varint m s f dest :
  stream_ok m0 s -> frame S m0 m -> room S m0 dest (f_data_size f) ->
  wp (pb_dec_varint s f dest) (decoded S m0 1 s) m.
Proof.
  intros Hs F. apply (wp_read_store m s (f_data_size f) dest true (fun v => if f_data_size f =? 8 then sext 64 v else sext 32 v)); [|done].
  by eapply wp_decode_varint, stream_ok_frame.
Qed.

Lemma wp_dec_uvarint m s f dest :
  stream_ok m0 s -> frame S m0 m -> room S m0 dest (f_data_size f) ->
  wp (pb_dec_uvarint s f dest) (decoded S m0 1 s) m.
Proof.
  intros Hs F. apply (wp_read_store m s (f_data_size f) dest false id); [|done].
  by eapply wp_decode_varint, stream_ok_frame.
Qed.

Lemma wp_dec_svarint m s f dest :
  stream_ok m0 s -> frame S m0 m -> room S m0 dest (f_data_size f) ->
  wp (pb_dec_svarint s f dest) (decoded S m0 1 s) m.
Proof.
  intros Hs F. apply (wp_read_store m s (f_data_size f) dest true id); [|done].
  by eapply wp_decode_svarint, stream_ok_frame.
Qed.

Lemma wp_read_room m s dest n :
  stream_ok m0 s -> frame S m0 m -> 0 <= n -> room S m0 dest n ->
  wp (pb_read s (RMem dest) n) (fun '(ok, _, s') m' => decoded S m0 n s (ok, s') m') m.
Proof.
  intros Hs F Hn [Hm HS]. destruct (Z.ltb_spec (bytes_left s) n) as [Hlt|Hge].
  - apply (wp_intro _ _ m (false, [], is_error s "end-of-stream") m).
    + unfold pb_read, pb_read_checked.
      destruct (Z.ltb_spec (bytes_left s) n); [done|lia].
    + apply decoded_fail; [apply read_kept, read_on_refl, Hs|done].
  - destruct Hs as [Hc Hl Hms]. unfold pb_read, pb_read_checked, call_read. rewrite Hc.
    destruct (Z.ltb_spec (bytes_left s) n); [lia|].
    apply wp_bind. unfold buf_read. apply wp_bind.
    apply (wp_copy_loop S m0); [done| | | |]; rewrite ?Z2Nat.id by done; [done| |done|].
    + eapply mapped_range_sub; [exact Hms|lia..].
    + intros m' F'. apply wp_ret, wp_ret, decoded_ok; [split; simpl; [done|lia|lia]|simpl; lia|done].
Qed.

(** Fixed-size numbers, through a local array. *)
Lemma wp_read_fixed m s n dest (value : list Z -> Z) :
  stream_ok m0 s -> frame S m0 m -> (0 < n)%nat -> room S m0 dest (Z.of_nat n) ->
  wp (let* ' (ok, bytes, s) := pb_read s RLocal (Z.of_nat n) in
      if negb ok then ret (false, s) else store_le n dest (value bytes) ;;; ret (true, s))
     (decoded S m0 1 s) m.
Proof.
  intros Hs F Hn Hr. apply wp_bind. eapply wp_mono; [apply wp_read_local; [eauto with safe|lia]|].
  intros [[ok l] s1] m' (-> & Hr1 & Ht & Hlt). destruct ok; cbn [negb]; [|apply wp_ret; eauto with safe].
  apply wp_bind, wp_store_room; [done|done|]. intros m1 F1. destruct (Hlt eq_refl).
  apply wp_ret, decoded_ok; [done|lia|done].
Qed.

Lemma wp_dec_fixed32 m s f dest :
  stream_ok m0 s -> frame S m0 m -> room S m0 dest 4 ->
  wp (pb_dec_fixed32 s f dest) (decoded S m0 1 s) m.
Proof. intros Hs F Hr. refine (wp_read_fixed m s 4 dest _ Hs F _ Hr). lia. Qed.

Lemma wp_dec_fixed64 m s f dest :
  stream_ok m0 s -> frame S m0 m -> room S m0 dest 8 ->
  wp (pb_dec_fixed64 s f dest) (decoded S m0 1 s) m.
Proof. intros Hs F Hr. refine (wp_read_fixed m s 8 dest _ Hs F _ Hr). lia. Qed.

(** The length prefix of bytes and strings. *)
Lemma wp_length_prefix m s (k : Z -> pb_istream_t -> C (bool * pb_istream_t)) :
  stream_ok m0 s -> frame S m0 m ->
  (forall n s1, read_on s s1 -> bytes_left s1 < bytes_left s -> stream_ok m0 s1 -> 0 <= n < 2 ^ 32 ->
     wp (k n s1) (decoded S m0 0 s1) m) ->
  wp (let* ' (ok, size, s) := pb_decode_varint32 s in if negb ok then ret (false, s) else k size s)
     (decoded S m0 1 s) m.
Proof.
  intros Hs F Hk. apply wp_bind. eapply wp_mono; [eapply wp_decode_varint32; eauto with safe|].
  intros [[ok n] s1] m' (-> & Hr1 & Ht & Hv). destruct ok; cbn [negb]; [|apply wp_ret; eauto with safe].
  destruct (Hv eq_refl) as [Hn Hlt]. eapply wp_mono; [apply Hk; eauto with safe|].
  intros r m'. by apply decoded_after_more.
Qed.

Lemma static_not_pointer f : PB_ATYPE (f_type f) = PB_ATYPE_STATIC -> (PB_ATYPE (f_type f) =? PB_ATYPE_POINTER) = false.
Proof. by intros ->. Qed.

Lemma wp_dec_bytes m s f dest :
  stream_ok m0 s -> frame S m0 m -> PB_ATYPE (f_type f) = PB_ATYPE_STATIC ->
  room S m0 dest (f_data_size f) -> wp (pb_dec_bytes s f dest) (decoded S m0 1 s) m.
Proof.
  intros Hs F Hst Hr. unfold pb_dec_bytes. rewrite (static_not_pointer _ Hst).
  apply wp_length_prefix; [done..|]. intros n s1 Hr1 Hlt Hs1 Hn. pose proof (sk_left _ _ Hs1).
  destruct (_ <? n); [apply wp_ret; eauto with safe|].
  unfold PB_BYTES_ARRAY_T_ALLOCSIZE, off_bytes_bytes, off_bytes_size.
  destruct (_ <? _); [apply wp_ret; eauto with safe|]. apply wp_bind.
  destruct (Z.ltb_spec (f_data_size f) (n + 4)); apply wp_ret; cbn [negb]; [apply wp_ret; eauto with safe|].
  apply wp_bind, wp_store_room; [done|eapply room_sub; [exact Hr|lia..]|]. intros m1 F1.
  apply wp_bind. eapply wp_mono; [apply wp_read_room; [done|done|lia|eapply room_sub; [exact Hr|lia..]]|].
  intros [[ok l] s2] m2 Hd. apply wp_ret. eapply decoded_weaken; [|exact Hd]. lia.
Qed.

Lemma wp_dec_string m s f dest :
  stream_ok m0 s -> frame S m0 m -> PB_ATYPE (f_type f) = PB_ATYPE_STATIC ->
  room S m0 dest (f_data_size f) -> wp (pb_dec_string s f dest) (decoded S m0 1 s) m.
Proof.
  intros Hs F Hst Hr. unfold pb_dec_string. rewrite (static_not_pointer _ Hst).
  apply wp_length_prefix; [done..|]. intros n s1 Hr1 Hlt Hs1 Hn. pose proof (sk_left _ _ Hs1).
  destruct (Z.ltb_spec (u32 (n + 1)) n) as [|Hwrap]; [apply wp_ret; eauto with safe|].
  assert (Ealloc : u32 (n + 1) = n + 1).
  { apply wrap_small. destruct (decide (n + 1 = 2 ^ 32)) as [E|]; [|lia]. rewrite E in Hwrap.
    change (u32 (2 ^ 32)) with 0 in Hwrap. lia. }
  rewrite Ealloc. apply wp_bind.
  destruct (Z.ltb_spec (f_data_size f) (n + 1)); apply wp_ret; cbn [negb]; [apply wp_ret; eauto with safe|].
  apply wp_bind. eapply wp_mono; [apply wp_read_room; [done|done|lia|eapply room_sub; [exact Hr|lia..]]|].
  intros [[ok l] s2] m2 (Hk & Ht & F2 & Hok).
  apply wp_bind, wp_store8_room; [done|eapply room_sub; [exact Hr|lia..]|]. intros m3 F3. apply wp_ret.
  split_and!; [done..|]. intros E. destruct (Hok E). split; [done|lia].
Qed.

Lemma wp_dec_fixed_length_bytes m s f dest :
  stream_ok m0 s -> frame S m0 m -> 0 <= f_data_size f ->
  room S m0 dest (f_data_size f) -> wp (pb_dec_fixed_length_bytes s f dest) (decoded S m0 1 s) m.
Proof.
  intros Hs F Hsz Hr. unfold pb_dec_fixed_length_bytes.
  apply wp_length_prefix; [done..|]. intros n s1 Hr1 Hlt Hs1 Hn. pose proof (sk_left _ _ Hs1).
  destruct (_ <? n); [apply wp_ret; eauto with safe|].
  destruct (n =? 0).
  { apply wp_bind, wp_memset_room; [done|by rewrite Z2Nat.id|]. intros m1 F1.
    apply wp_ret, decoded_ok; [by apply read_on_refl|lia|done]. }
  destruct (negb _); [apply wp_ret; eauto with safe|].
  apply wp_bind. eapply wp_mono; [by apply wp_read_room|].
  intros [[ok l] s2] m2 Hd. apply wp_ret. eapply decoded_weaken; [|exact Hd]. lia.
Qed.
End Values.

(** * Substreams *)
Section Substreams.
Context `{Program} (S : Z -> Prop) (m0 : mem).
Implicit Types (m : mem) (s : pb_istream_t).

(** [s1] is [s] with [sub] taken out. *)
Record split_stream (s s1 sub : pb_istream_t) : Prop := {
  sp_sub : stream_ok m0 sub;
  sp_callback : is_callback s1 = is_callback s;
  sp_sub_callback : is_callback sub = is_callback s;
  sp_left : 0 <= bytes_left s1;
  sp_less : bytes_left s1 + bytes_left sub < bytes_left s;
  sp_end : is_state sub + bytes_left sub + bytes_left s1 = is_state s + bytes_left s;
}.

Lemma split_kept s s1 sub : split_stream s s1 sub -> kept s s1.
Proof. intros [[_ ? _] ? ? ? ? ?]. split; [done|lia]. Qed.

Lemma wp_make_substream m s :
  stream_ok m0 s -> frame S m0 m ->
  wp (pb_make_string_substream s) (fun '(ok, s1, sub) m' =>
    m' = m /\ if ok then split_stream s s1 sub else kept s s1 /\ told false s1) m.
Proof.
  intros Hs F. unfold pb_make_string_substream. apply wp_bind.
  eapply wp_mono; [eapply wp_decode_varint32; eauto with safe|].
  intros [[ok n] s1] m' (-> & Hr1 & Ht & Hv). destruct ok; cbn [negb]; [|apply wp_ret; eauto with safe].
  destruct (Hv eq_refl) as [Hn Hlt].
  assert (Hs1 : stream_ok m0 s1) by eauto with safe. destruct (Z.ltb_spec (bytes_left s1) n) as [Hshort|Hlong].
  { apply wp_ret. split; [done|]. split; [by apply kept_error, read_kept|apply told_error]. }
  apply wp_ret. split; [done|]. destruct Hr1 as [Hc Hl He]. destruct Hs1 as [Hc1 Hl1 Hm1].
  split; simpl; [|done|done|lia|lia|lia].
  split; simpl; [done|lia|]. eapply mapped_range_sub; [exact Hm1|lia..].
Qed.

Lemma wp_close_substream m s s1 sub sub' (status : bool) :
  split_stream s s1 sub -> kept sub sub' -> told status sub' -> frame S m0 m ->
  (status = true -> read_on sub sub') ->
  wp (let* ' (ok, s) := pb_close_string_substream s1 sub' in
      if negb ok then ret (false, s) else ret (status, s)) (decoded S m0 1 s) m.
Proof.
  intros [Hsub Hc Hcs Hl Hlt He] [Hck Hlk] Ht F Hr. unfold pb_close_string_substream.
  assert (Hfin : forall st, (status = true -> st = is_state sub + bytes_left sub) ->
    decoded S m0 1 s (status, is_set_errmsg (is_set_state s1 st) (is_errmsg sub')) m).
  { intros st Hst. split; [split; simpl; [done|]; pose proof (sk_left _ _ Hsub); lia|].
    split; [done|]. split; [done|]. intros E. rewrite (Hst E). pose proof (sk_left _ _ Hsub).
    split; [split; simpl; [done|lia|lia]|simpl; lia]. }
  apply wp_bind, wp_bind. destruct (Z.eqb_spec (bytes_left sub') 0) as [Hz|Hz].
  - apply wp_ret. cbn [negb]. apply wp_ret, wp_ret, Hfin. intros E. destruct (Hr E). lia.
  - unfold pb_read, pb_read_checked, call_read. rewrite Hck, (sk_callback _ _ Hsub).
    destruct (Z.ltb_spec (bytes_left sub') (bytes_left sub')); [lia|].
    apply wp_bind, wp_bind, wp_ret, wp_ret, wp_ret. cbn [negb]. apply wp_ret, wp_ret.
    apply Hfin. simpl. intros E. destruct (Hr E). lia.
Qed.
End Substreams.
