(* ===== verification/PbDecodeMsg.v ===== *)
(** Memory safety and termination of the message decoder for messages whose
    fields all lie in the structure. *)

From stdpp Require Import base list gmap strings.
From Stdlib Require Import ZArith Lia.
From S2P Require Import Prelude CMem PbTypes PbCommon PbIter PbIstream PbDecode PbDecodeSafe.

(** * Descriptors that fit their structure *)
Section Fits.
Context `{Program}.
(** The constant objects that default values are copied from. *)
Variable readable : Z -> Z -> bool.

(** The bytes that the value of a field takes. *)
Definition field_extent (f : pb_field_t) : Z :=
  if PB_HTYPE (f_type f) =? PB_HTYPE_REPEATED then f_data_size f * f_array_size f else f_data_size f.

(** The counter or tag of a field, where it has one. *)
Definition size_fits (fields : list pb_field_t) (size : Z) (i : nat) : bool :=
  let h := PB_HTYPE (f_type (field_at fields i)) in
  let z := size_pos fields i in
  if h =? PB_HTYPE_OPTIONAL then (z =? data_pos fields i) || ((0 <=? z) && (z <? size))
  else if (h =? PB_HTYPE_REPEATED) || (h =? PB_HTYPE_ONEOF) then (0 <=? z) && (z + 4 <=? size)
  else true.

(** The members the decoder of the field's type needs. *)
Definition type_fits (sub : list pb_field_t -> Z -> bool) (f : pb_field_t) : bool :=
  let l := PB_LTYPE (f_type f) in
  if l =? PB_LTYPE_SUBMESSAGE then
    negb (f_ptr f =? 0) &&
    match field_array (f_ptr f) with Some fields => sub fields (f_data_size f) | None => false end
  else
    ((l <? PB_LTYPE_EXTENSION) || (l =? PB_LTYPE_FIXED_LENGTH_BYTES)) &&
    (negb (l =? PB_LTYPE_FIXED32) || (4 <=? f_data_size f)) &&
    (negb (l =? PB_LTYPE_FIXED64) || (8 <=? f_data_size f)) &&
    ((f_ptr f =? 0) || readable (f_ptr f) (f_data_size f)).

Definition field_fits (sub : list pb_field_t -> Z -> bool) (fields : list pb_field_t) (size : Z) (i : nat) : bool :=
  let f := field_at fields i in
  let d := data_pos fields i in
  (PB_ATYPE (f_type f) =? PB_ATYPE_STATIC) &&
  ((0 <=? f_data_size f) && (0 <=? f_array_size f) && (f_data_size f * f_array_size f <? 2 ^ 32)) &&
  ((0 <=? d) && (d + field_extent f <=? size)) &&
  size_fits fields size i && type_fits sub f.

(** [fields] describes a structure of [size] bytes that holds all its data,
    with at most [n] levels of submessages. *)
Fixpoint msg_fits (n : nat) (fields : list pb_field_t) (size : Z) : bool :=
  match n with
  | O => false
  | S n' =>
      negb (Nat.eqb (length fields) 0) && tags_okb fields &&
      forallb (field_fits (msg_fits n') fields size) (seq 0 (length fields))
  end.

Lemma msg_fits_inv n fields size :
  msg_fits n fields size = true ->
  exists n', n = Datatypes.S n' /\ (0 < length fields)%nat /\ tags_ok fields /\
    forall i, (i < length fields)%nat -> field_fits (msg_fits n') fields size i = true.
Proof.
  destruct n as [|n]; [done|]. cbn [msg_fits]. rewrite !andb_true_iff, forallb_forall.
  intros [[Hn Ht] Hf]. exists n. split; [done|]. split; [destruct fields; simpl in *; [done|lia]|].
  split; [by apply tags_okb_true|]. intros i Hi. apply Hf, in_seq. lia.
Qed.

(** * Iterators on such structures *)
Section Struct.
Variable S : Z -> Prop.
Variable m0 : mem.
Hypothesis Hread : forall a n, readable a n = true -> mapped_range m0 a n.

(** One level: the descriptors, the place of the structure, and what the
    submessages promise. *)
Record level (n : nat) (fields : list pb_field_t) (dest size : Z) : Prop := {
  lv_some : (0 < length fields)%nat;
  lv_tags : tags_ok fields;
  lv_room : room S m0 dest size;
  lv_fits : forall i, (i < length fields)%nat -> field_fits (msg_fits n) fields size i = true;
}.

Lemma msg_level n fields dest size :
  msg_fits n fields size = true -> room S m0 dest size ->
  exists n', n = Datatypes.S n' /\ level n' fields dest size.
Proof. intros Hm Hr. apply msg_fits_inv in Hm as (n' & -> & ? & ? & ?). by exists n'. Qed.

(** What a descriptor says about the member an iterator stands on; [pSize]
    of a repeated field may be the decoder's own counter. *)
Record on_field (n : nat) (fields : list pb_field_t) (dest : Z) (it : pb_field_iter_t) (i : nat) : Prop := {
  of_on : iter_on fields dest it i;
  of_static : PB_ATYPE (f_type (it_field it)) = PB_ATYPE_STATIC;
  of_size : 0 <= f_data_size (it_field it);
  of_array : 0 <= f_array_size (it_field it);
  of_product : f_data_size (it_field it) * f_array_size (it_field it) < 2 ^ 32;
  of_room : room S m0 (pData it) (field_extent (it_field it));
  of_count : PB_HTYPE (f_type (it_field it)) = PB_HTYPE_REPEATED \/
             PB_HTYPE (f_type (it_field it)) = PB_HTYPE_ONEOF -> room S m0 (pSize it) 4;
  of_has : PB_HTYPE (f_type (it_field it)) = PB_HTYPE_OPTIONAL -> pSize it <> pData it -> room S m0 (pSize it) 1;
  of_type : type_fits (msg_fits n) (it_field it) = true;
}.

Lemma on_field_at n fields dest size i :
  level n fields dest size -> (i < length fields)%nat -> on_field n fields dest (iter_at fields dest i) i.
Proof.
  intros [Hn Ht Hr Hf] Hi. pose proof (Hf i Hi) as Hfits. unfold field_fits in Hfits.
  rewrite !andb_true_iff in Hfits.
  destruct Hfits as ((((Hst & (H1 & H2) & H3) & H4 & H5) & Hsz) & Hty).
  destruct (iter_at_shift fields dest i) as (Hd & Hz & _).
  pose proof (iter_at_field fields dest Ht i Hi) as Hfi. unfold size_fits in Hsz.
  split; rewrite ?Hfi, ?Hd, ?Hz; try lia; [by apply iter_on_at| | | |done].
  - eapply room_sub; [exact Hr|lia..].
  - intros Hh. destruct Hh as [Hh|Hh]; rewrite Hh in Hsz; simpl in Hsz; (eapply room_sub; [exact Hr|lia..]).
  - intros Hh Hne. rewrite Hh in Hsz. simpl in Hsz. eapply room_sub; [exact Hr|lia..].
Qed.

Lemma on_field_set_pSize n fields dest it i a :
  on_field n fields dest it i -> PB_HTYPE (f_type (it_field it)) = PB_HTYPE_REPEATED ->
  tags_ok fields -> room S m0 a 4 -> on_field n fields dest (it_set_pSize it a) i.
Proof.
  intros [Hon ? ? ? ? ? ? ? ?] Hrep Ht Hr. split; try done.
  - pose proof (iter_on_pos fields dest Ht it i Hon) as (_ & _ & _ & Hf & _).
    destruct Hon as [Hi [->|(Hr' & b & ->)]]; (split; [done|]); right; (split; [by rewrite <- Hf|]); by eexists.
  - intros Hh. unfold it_field, it_set_pSize in *; simpl in *. rewrite Hrep in Hh. done.
Qed.

(** Searching from such an iterator. *)
Lemma iter_search_result found fields dest it i fuel start m b it' m' :
  tags_ok fields -> iter_on fields dest it i ->
  iter_search found fuel start it m = Ret ((b, it'), m') ->
  it' = it \/ exists j, (j < length fields)%nat /\ it' = iter_at fields dest j.
Proof.
  intros Ht. revert it i. induction fuel as [|fuel IH]; intros it i Hon E; [done|].
  cbn [iter_search] in E. destruct (found (it_field it)); [left; by injection E as _ <- _|].
  rewrite (iter_on_next fields dest Ht it i Hon) in E. cbn [snd] in E. right.
  assert (Hlt : (next_pos fields i < length fields)%nat) by (apply next_pos_lt, Hon).
  destruct (Nat.eqb _ start); [injection E as _ <- _; by eexists|].
  destruct (IH _ _ (iter_on_at _ _ _ Hlt) E) as [->|?]; [by eexists|done].
Qed.

(** The search returns on an entry of the array; its own start if it stays. *)
Lemma wp_find n fields dest size it i tag m :
  level n fields dest size -> on_field n fields dest it i ->
  wp (pb_field_iter_find it tag) (fun '(found, it') m' =>
    m' = m /\ (exists j, on_field n fields dest it' j) /\
    (it' = it \/ exists j, (j < length fields)%nat /\ it' = iter_at fields dest j)) m.
Proof.
  intros Hlv Hof. pose proof (of_on _ _ _ _ _ Hof) as Hon. pose proof (lv_tags _ _ _ _ Hlv) as Ht.
  unfold pb_field_iter_find. set (found := fun f => _).
  assert (exists b it', iter_search found (iter_fuel it) (it_pos it) it m = Ret ((b, it'), m)) as (b & it' & E).
  { destruct (iter_search_spec fields dest Ht found i it m Hon) as [(k & it' & _ & E & _)|[E _]]; by eexists _, _. }
  eapply wp_intro; [exact E|]. split; [done|].
  pose proof (iter_search_result _ _ _ _ _ _ _ _ _ _ _ Ht Hon E) as Hit. split; [|done].
  destruct Hit as [->|(j & Hj & ->)]; [by exists i|]. exists j. by eapply on_field_at.
Qed.

(** A loop over all members. *)
Lemma wp_do_fields {St} n fields dest size (body : pb_field_iter_t -> St -> C (bool * St))
    (P : St -> mem -> Prop) it i st m fuel :
  level n fields dest size -> on_field n fields dest it i -> (length fields - i < fuel)%nat -> P st m ->
  (forall it j st m, on_field n fields dest it j -> P st m ->
     wp (body it st) (fun '(ok, st') m' => ok = true /\ P st' m') m) ->
  wp (do_fields fuel body it st)
     (fun '(ok, st', it) m' => ok = true /\ P st' m' /\ it = iter_at fields dest 0) m.
Proof.
  intros Hlv. pose proof (lv_tags _ _ _ _ Hlv) as Ht.
  revert it i st m. induction fuel as [|fuel IH]; intros it i st m Hof Hfuel HP Hbody; [lia|].
  cbn [do_fields]. apply wp_bind. eapply wp_mono; [by eapply Hbody|].
  pose proof (of_on _ _ _ _ _ Hof) as Hon. pose proof Hon as [Hi _].
  intros [ok st'] m' [-> HP']. cbn [negb]. rewrite (iter_on_next fields dest Ht it i Hon). unfold next_pos.
  case_bool_decide as Hlast; cbn [negb].
  - apply wp_ret. rewrite decide_True by done. done.
  - rewrite decide_False by done. eapply IH; [eapply on_field_at; [done|lia]|lia|done|done].
Qed.

Lemma wp_each_field n fields dest size (body : pb_field_iter_t -> C unit) (P : mem -> Prop) m :
  level n fields dest size -> P m ->
  (forall it j m, on_field n fields dest it j -> P m -> wp (body it) (fun _ => P) m) ->
  wp (each_field body fields dest) (fun _ => P) m.
Proof.
  intros Hlv HP Hbody. unfold each_field.
  assert (Hfirst : f_tag (field_at fields 0) <> 0) by (apply field_at_tag; apply Hlv).
  destruct (pb_field_iter_begin fields dest) as [b it] eqn:E.
  assert (b = true) as ->.
  { unfold pb_field_iter_begin in E. injection E as <- _. apply negb_true_iff. lia. }
  assert (it = iter_at fields dest 0) as -> by (by change (iter_at fields dest 0) with (snd (pb_field_iter_begin fields dest)); rewrite E).
  apply wp_bind. eapply wp_mono.
  { eapply (wp_do_fields n fields dest size _ (fun _ => P)); [done|eapply on_field_at; [done|apply Hlv]| |done|].
    - unfold iter_fuel. destruct (iter_at_pos fields dest (lv_tags _ _ _ _ Hlv) 0 (lv_some _ _ _ _ Hlv)) as (-> & _). lia.
    - intros it j [] m1 Hof HP1. apply wp_bind. eapply wp_mono; [by eapply Hbody|]. intros [] m2 HP2. by apply wp_ret. }
  intros [[ok st] it] m1 (_ & HP1 & _). by apply wp_ret.
Qed.

(** ** Defaults *)

Lemma type_fits_extension n f : type_fits n f = true -> (PB_LTYPE (f_type f) =? PB_LTYPE_EXTENSION) = false.
Proof.
  unfold type_fits. by destruct (Z.eqb_spec (PB_LTYPE (f_type f)) PB_LTYPE_EXTENSION) as [->|].
Qed.

Lemma type_fits_submessage n f :
  type_fits (msg_fits n) f = true -> PB_LTYPE (f_type f) = PB_LTYPE_SUBMESSAGE ->
  f_ptr f <> 0 /\ exists sub, field_array (f_ptr f) = Some sub /\ msg_fits n sub (f_data_size f) = true.
Proof.
  unfold type_fits. intros Hf E. rewrite E in Hf. simpl in Hf. apply andb_true_iff in Hf as [Hp Hf].
  split; [lia|]. destruct (field_array (f_ptr f)) as [sub|]; [by exists sub|done].
Qed.

Lemma type_fits_default n f :
  type_fits (msg_fits n) f = true -> PB_LTYPE (f_type f) <> PB_LTYPE_SUBMESSAGE -> f_ptr f <> 0 ->
  mapped_range m0 (f_ptr f) (f_data_size f).
Proof.
  unfold type_fits. intros Hf Hl Hp. destruct (Z.eqb_spec (PB_LTYPE (f_type f)) PB_LTYPE_SUBMESSAGE); [done|].
  rewrite !andb_true_iff in Hf. destruct Hf as [_ Hf]. destruct (Z.eqb_spec (f_ptr f) 0); [done|]. by apply Hread.
Qed.

Lemma of_value_room n fields dest it i :
  on_field n fields dest it i -> PB_HTYPE (f_type (it_field it)) <> PB_HTYPE_REPEATED ->
  room S m0 (pData it) (f_data_size (it_field it)).
Proof.
  intros Hof Hrep. pose proof (of_room _ _ _ _ _ Hof) as Hr. unfold field_extent in Hr.
  by destruct (Z.eqb_spec (PB_HTYPE (f_type (it_field it))) PB_HTYPE_REPEATED).
Qed.

(** Entry [k] of an array of entries. *)
Lemma of_item_room n fields dest it i k :
  on_field n fields dest it i -> PB_HTYPE (f_type (it_field it)) = PB_HTYPE_REPEATED ->
  0 <= k < f_array_size (it_field it) ->
  room S m0 (pData it + f_data_size (it_field it) * k) (f_data_size (it_field it)).
Proof.
  intros Hof Hrep Hk. pose proof (of_room _ _ _ _ _ Hof) as Hr. pose proof (of_size _ _ _ _ _ Hof).
  unfold field_extent in Hr. rewrite Hrep in Hr. change (PB_HTYPE_REPEATED =? PB_HTYPE_REPEATED) with true in Hr. cbv iota in Hr.
  eapply room_sub; [exact Hr|nia|nia].
Qed.

Lemma wp_set_to_default fuel n fields dest it i m :
  (n < fuel)%nat -> on_field n fields dest it i -> frame S m0 m ->
  wp (pb_field_set_to_default fuel it) (fun _ m' => frame S m0 m') m.
Proof.
  revert n fields dest it i m. induction fuel as [|fuel IH]; intros n fields dest it i m Hn Hof F; [lia|].
  cbn [pb_field_set_to_default]. pose proof (of_type _ _ _ _ _ Hof) as Hty.
  rewrite (type_fits_extension _ _ Hty), (of_static _ _ _ _ _ Hof). change (PB_ATYPE_STATIC =? PB_ATYPE_STATIC) with true. cbv iota.
  apply wp_bind. eapply (wp_mono _ (fun init m' => frame S m0 m' /\
    (init = true -> PB_HTYPE (f_type (it_field it)) <> PB_HTYPE_REPEATED))).
  { destruct (Z.eqb_spec (PB_HTYPE (f_type (it_field it))) PB_HTYPE_OPTIONAL) as [Hopt|Hopt];
      destruct (Z.eqb_spec (pSize it) (pData it)) as [Hz|Hz]; cbn [negb andb].
    2:{ apply wp_bind, (wp_store8_room S m0); [done|by apply Hof|]. intros m1 F1. apply wp_ret. by rewrite Hopt. }
    1: { rewrite Hopt. by apply wp_ret. }
    all: destruct (Z.eqb_spec (PB_HTYPE (f_type (it_field it))) PB_HTYPE_REPEATED) as [Hrep|Hrep];
      destruct (Z.eqb_spec (PB_HTYPE (f_type (it_field it))) PB_HTYPE_ONEOF) as [Hone|Hone]; cbn [orb];
      first [by apply wp_ret | apply wp_bind, (wp_store_room S m0); [done|by apply Hof; auto|]; intros m1 F1; by apply wp_ret]. }
  intros init m1 [F1 Hinit]. destruct init; cbn [negb]; [|by apply wp_ret].
  pose proof (of_value_room _ _ _ _ _ Hof (Hinit eq_refl)) as Hroom. pose proof (of_size _ _ _ _ _ Hof).
  destruct (Z.eqb_spec (PB_LTYPE (f_type (it_field it))) PB_LTYPE_SUBMESSAGE) as [Hsub|Hsub].
  - destruct (type_fits_submessage _ _ Hty Hsub) as (_ & sub & Ha & Hfit). apply wp_bind, (wp_need _ _ _ sub); [done|].
    destruct (msg_level _ _ _ _ Hfit Hroom) as (n' & -> & Hlv).
    eapply (wp_each_field n' sub (pData it)); [exact Hlv|done|]. intros it2 j m2 Hof2 F2.
    eapply IH; [|exact Hof2|done]. lia.
  - destruct (Z.eqb_spec (f_ptr (it_field it)) 0) as [|Hp]; cbn [negb].
    + apply (wp_memset_room S m0); [done|by rewrite Z2Nat.id|done].
    + destruct Hroom as [Hm HS]. apply (wp_memcpy S m0); [done| | | |done]; rewrite Z2Nat.id by done; [done| |done].
      by eapply type_fits_default.
Qed.

Lemma wp_message_set_to_defaults fuel n fields dest size m :
  (n <= fuel)%nat -> msg_fits n fields size = true -> room S m0 dest size -> frame S m0 m ->
  wp (pb_message_set_to_defaults fuel fields dest) (fun _ m' => frame S m0 m') m.
Proof.
  intros Hn Hfit Hr F. destruct (msg_level _ _ _ _ Hfit Hr) as (n' & -> & Hlv).
  eapply (wp_each_field n' fields dest); [exact Hlv|done|]. intros it2 j m2 Hof2 F2.
  eapply wp_set_to_default; [|exact Hof2|done]. lia.
Qed.

(** ** Release: without allocated fields there is nothing to free *)

Lemma wp_load_room n m a (Q : Z -> mem -> Prop) :
  frame S m0 m -> room S m0 a (Z.of_nat n) ->
  (forall v, 0 <= v < 2 ^ (8 * Z.of_nat n) -> Q v m) -> wp (load_le n a) Q m.
Proof. intros F [Hm HS] HQ. apply wp_load_le; [eauto with frame|done]. Qed.

Lemma wp_release_items m count release p data_size :
  (forall k, (k < count)%nat -> wp (release (p + data_size * Z.of_nat k)) (fun _ m' => m' = m) m) ->
  wp (release_items count release p data_size) (fun _ m' => m' = m) m.
Proof.
  revert p. induction count as [|count IH]; intros p Hrel; [by apply wp_ret|]. cbn [release_items].
  apply wp_bind. pose proof (Hrel 0%nat ltac:(lia)) as H0. rewrite Z.mul_0_r, Z.add_0_r in H0.
  eapply wp_mono; [exact H0|]. intros [] m' ->. apply IH. intros k Hk.
  replace (p + data_size + data_size * Z.of_nat k) with (p + data_size * Z.of_nat (Datatypes.S k)) by lia.
  apply Hrel. lia.
Qed.

Lemma wp_release_count m n fields dest it i :
  on_field n fields dest it i -> frame S m0 m ->
  wp (release_count it) (fun c m' => m' = m /\
    if PB_HTYPE (f_type (it_field it)) =? PB_HTYPE_REPEATED then 0 <= c <= f_array_size (it_field it) else c = 1) m.
Proof.
  intros Hof F. unfold release_count. rewrite (of_static _ _ _ _ _ Hof).
  change (PB_ATYPE_STATIC =? PB_ATYPE_STATIC) with true. cbn [andb].
  destruct (Z.eqb_spec (PB_HTYPE (f_type (it_field it))) PB_HTYPE_REPEATED) as [Hrep|]; [|by apply wp_ret].
  pose proof (of_array _ _ _ _ _ Hof). apply wp_bind. destruct (pSize it =? pData it).
  - apply wp_ret, wp_ret. destruct (Z.ltb_spec (f_array_size (it_field it)) (f_array_size (it_field it))); (split; [done|lia]).
  - apply (wp_load_room 4); [done|by apply Hof; left|]. intros v Hv. apply wp_ret. split; [done|].
    destruct (Z.ltb_spec (f_array_size (it_field it)) v); lia.
Qed.

Lemma wp_release_single fuel n fields dest it i m :
  (n < fuel)%nat -> on_field n fields dest it i -> frame S m0 m ->
  wp (pb_release_single_field fuel it) (fun _ m' => m' = m) m.
Proof.
  revert n fields dest it i m. induction fuel as [|fuel IH]; intros n fields dest it i m Hn Hof F; [lia|].
  cbn [pb_release_single_field]. pose proof (of_type _ _ _ _ _ Hof) as Hty.
  rewrite (type_fits_extension _ _ Hty), (of_static _ _ _ _ _ Hof). unfold release_pointer.
  rewrite (of_static _ _ _ _ _ Hof). change (PB_ATYPE_STATIC =? PB_ATYPE_POINTER) with false. cbn [negb].
  apply wp_bind, (wp_mono _ (fun _ m' => m' = m)).
  { destruct (Z.eqb_spec (PB_HTYPE (f_type (it_field it))) PB_HTYPE_ONEOF) as [Hone|]; [|by apply wp_ret].
    apply wp_bind, (wp_load_room 4); [done|by apply Hof; right|]. intros v _. by apply wp_ret. }
  intros current m' ->. destruct current; cbn [negb]; [|by apply wp_ret].
  apply wp_bind, (wp_mono _ (fun _ m' => m' = m)); [|by intros [] m' ->; apply wp_ret].
  destruct (Z.eqb_spec (PB_LTYPE (f_type (it_field it))) PB_LTYPE_SUBMESSAGE) as [Hsub|]; [|by apply wp_ret].
  destruct (type_fits_submessage _ _ Hty Hsub) as (_ & sub & Ha & Hfit).
  apply wp_bind, wp_ret, wp_bind. eapply wp_mono; [by eapply wp_release_count|]. intros c m' (-> & Hc).
  destruct (pData it =? 0); [by apply wp_ret|]. apply wp_release_items. intros k Hk.
  destruct (_ =? 0); [by apply wp_ret|]. apply wp_bind, (wp_need _ _ _ sub); [done|].
  assert (Hroom : room S m0 (pData it + f_data_size (it_field it) * Z.of_nat k) (f_data_size (it_field it))).
  { destruct (Z.eqb_spec (PB_HTYPE (f_type (it_field it))) PB_HTYPE_REPEATED) as [Hrep|Hrep].
    - eapply of_item_room; [exact Hof|done|lia].
    - assert (k = 0%nat) as -> by lia. rewrite Z.mul_0_r, Z.add_0_r. by eapply of_value_room. }
  destruct (msg_level _ _ _ _ Hfit Hroom) as (n' & -> & Hlv).
  eapply (wp_each_field n' sub); [exact Hlv|done|]. intros it2 j m2 Hof2 ->. eapply IH; [|exact Hof2|done]. lia.
Qed.

Lemma wp_release fuel n fields dest size m :
  (n <= fuel)%nat -> msg_fits n fields size = true -> room S m0 dest size -> frame S m0 m ->
  wp (pb_release fuel fields dest) (fun _ m' => m' = m) m.
Proof.
  intros Hn Hfit Hr F. unfold pb_release. destruct (dest =? 0); [by apply wp_ret|].
  destruct (msg_level _ _ _ _ Hfit Hr) as (n' & -> & Hlv).
  eapply (wp_each_field n' fields dest); [exact Hlv|done|]. intros it2 j m2 Hof2 ->.
  eapply wp_release_single; [|exact Hof2|done]. lia.
Qed.

(** The iterator ends on a member with its own counter. *)
Lemma wp_release_union fuel n fields dest size i s m :
  (n < fuel)%nat -> level n fields dest size -> (i < length fields)%nat ->
  PB_HTYPE (f_type (it_field (iter_at fields dest i))) = PB_HTYPE_ONEOF ->
  stream_ok m0 s -> frame S m0 m ->
  wp (pb_release_union_field fuel s (iter_at fields dest i)) (fun '(ok, s', it') m' =>
    m' = m /\ read_on s s' /\ told ok s' /\
    exists j, (j < length fields)%nat /\ it' = iter_at fields dest j) m.
Proof.
  intros Hn Hlv Hi Hone Hs F. pose proof (on_field_at _ _ _ _ _ Hlv Hi) as Hof. pose proof (sk_left _ _ Hs).
  unfold pb_release_union_field. apply wp_bind, (wp_load_room 4); [done|by apply Hof; right|]. intros old _.
  destruct (old =? 0); [apply wp_ret; eauto 8 with safe|]. destruct (old =? _); [apply wp_ret; eauto 8 with safe|].
  assert (Hfind : forall i tag, (i < length fields)%nat ->
    wp (pb_field_iter_find (iter_at fields dest i) tag) (fun '(found, it') m' =>
      m' = m /\ exists j, (j < length fields)%nat /\ it' = iter_at fields dest j) m).
  { clear i Hi Hone Hof. intros i tag Hi. pose proof (on_field_at _ _ _ _ _ Hlv Hi) as Hof.
    eapply wp_mono; [by eapply wp_find|]. intros [b it'] m' (-> & _ & [->|?]); eauto. }
  apply wp_bind. eapply wp_mono; [by apply Hfind|]. intros [found it1] m' (-> & j & Hj & ->).
  destruct found; cbn [negb]; [|apply wp_ret; split_and!; eauto with safe].
  apply wp_bind. eapply wp_mono; [eapply wp_release_single; [exact Hn|by eapply on_field_at|done]|].
  intros [] m' ->. apply wp_bind. eapply wp_mono; [by apply Hfind|]. intros [found it2] m' (-> & k & Hk & ->).
  destruct found; cbn [negb]; apply wp_ret; split_and!; eauto with safe.
Qed.

(** ** The decoders of a message's fields *)
Section Fields.
(** [decode_msg] is the decoder of the submessages, which nest [n] deep. *)
Variable decode_msg : pb_istream_t -> list pb_field_t -> Z -> C (bool * pb_istream_t).
Variables fuel n : nat.
Hypothesis Hfuel : (n <= fuel)%nat.
Hypothesis Hdecode : forall sub dest size s m,
  msg_fits n sub size = true -> room S m0 dest size -> stream_ok m0 s -> frame S m0 m ->
  wp (decode_msg s sub dest) (decoded S m0 0 s) m.

Lemma wp_decode_with sub dest size s m :
  msg_fits n sub size = true -> room S m0 dest size -> stream_ok m0 s -> frame S m0 m ->
  wp (pb_decode_with decode_msg fuel s sub dest) (decoded S m0 0 s) m.
Proof.
  intros Hfit Hr Hs F. unfold pb_decode_with. apply wp_bind. eapply wp_mono; [by eapply wp_message_set_to_defaults|].
  intros [] m1 F1. apply wp_bind. eapply wp_mono; [by eapply Hdecode|]. intros [ok s1] m2 Hd.
  destruct Hd as (Hk & Ht & F2 & Hok). apply wp_bind, (wp_mono _ (fun _ m' => m' = m2)).
  { destruct ok; cbn [negb]; [by apply wp_ret|]. by eapply wp_release. }
  intros [] m' ->. by apply wp_ret.
Qed.

Lemma wp_dec_submessage f dest s m :
  type_fits (msg_fits n) f = true -> PB_LTYPE (f_type f) = PB_LTYPE_SUBMESSAGE ->
  room S m0 dest (f_data_size f) -> stream_ok m0 s -> frame S m0 m ->
  wp (pb_dec_submessage decode_msg fuel s f dest) (decoded S m0 1 s) m.
Proof.
  intros Hty Hl Hr Hs F. destruct (type_fits_submessage _ _ Hty Hl) as (Hp & sub & Ha & Hfit).
  unfold pb_dec_submessage. apply wp_bind. eapply wp_mono; [by eapply wp_make_substream|].
  intros [[ok s1] ss] m' (-> & Hmake). destruct ok; cbn [negb]; [|apply wp_ret; destruct Hmake; eauto with safe].
  destruct (Z.eqb_spec (f_ptr f) 0); [done|]. apply wp_bind, (wp_need _ _ _ sub); [done|].
  pose proof (sp_sub _ _ _ _ Hmake). apply wp_bind, (wp_mono _ (decoded S m0 0 ss)).
  { destruct (_ =? _); [by eapply wp_decode_with|by eapply Hdecode]. }
  intros [status ss'] m1 (Hk & Ht & F1 & Hok). eapply wp_close_substream; [exact Hmake|done..|]. by intros E; apply Hok.
Qed.

Lemma wp_call_decoder f dest s m :
  type_fits (msg_fits n) f = true -> PB_ATYPE (f_type f) = PB_ATYPE_STATIC -> 0 <= f_data_size f ->
  room S m0 dest (f_data_size f) -> stream_ok m0 s -> frame S m0 m ->
  wp (call_decoder decode_msg fuel (PB_LTYPE (f_type f)) s f dest) (decoded S m0 1 s) m.
Proof.
  intros Hty Hst Hsz Hr Hs F.
  destruct (decide (PB_LTYPE (f_type f) = PB_LTYPE_SUBMESSAGE)) as [Hl|Hl].
  { rewrite Hl. by apply wp_dec_submessage. }
  assert (H0 : 0 <= PB_LTYPE (f_type f)) by (apply Z.land_nonneg; right; done).
  pose proof Hty as Hty'. unfold type_fits in Hty'. destruct (Z.eqb_spec (PB_LTYPE (f_type f)) PB_LTYPE_SUBMESSAGE); [done|].
  rewrite !andb_true_iff in Hty'. destruct Hty' as (((Hlt & H32) & H64) & _).
  set (l := PB_LTYPE (f_type f)) in *. unfold PB_LTYPE_SUBMESSAGE, PB_LTYPE_EXTENSION, PB_LTYPE_FIXED_LENGTH_BYTES,
    PB_LTYPE_FIXED32, PB_LTYPE_FIXED64 in *.
  assert (l = 0 \/ l = 1 \/ l = 2 \/ l = 3 \/ l = 4 \/ l = 5 \/ l = 6 \/ l = 9) as Hcases by lia.
  destruct Hcases as [E|[E|[E|[E|[E|[E|[E|E]]]]]]]; rewrite E in *.
  - by apply wp_dec_varint.
  - by apply wp_dec_uvarint.
  - by apply wp_dec_svarint.
  - apply wp_dec_fixed32; [done..|]. eapply room_sub; [exact Hr|lia|simpl in H32; lia].
  - apply wp_dec_fixed64; [done..|]. eapply room_sub; [exact Hr|lia|simpl in H64; lia].
  - by apply wp_dec_bytes.
  - by apply wp_dec_string.
  - by apply wp_dec_fixed_length_bytes.
Qed.

(** The address of entry [k]: the product fits 32 bits. *)
Lemma of_item fields dest it i k :
  on_field n fields dest it i -> PB_HTYPE (f_type (it_field it)) = PB_HTYPE_REPEATED ->
  0 <= k < f_array_size (it_field it) ->
  room S m0 (pData it + u32 (f_data_size (it_field it) * k)) (f_data_size (it_field it)).
Proof.
  intros Hof Hrep Hk. pose proof (of_size _ _ _ _ _ Hof). pose proof (of_product _ _ _ _ _ Hof).
  rewrite wrap_small by nia. by eapply of_item_room.
Qed.

Lemma wp_packed_static_loop k fields dest it i sub m :
  on_field n fields dest it i -> PB_HTYPE (f_type (it_field it)) = PB_HTYPE_REPEATED ->
  stream_ok m0 sub -> frame S m0 m -> (Z.to_nat (bytes_left sub) < k)%nat ->
  wp (packed_static_loop k (call_decoder decode_msg fuel (PB_LTYPE (f_type (it_field it)))) sub it)
     (decoded S m0 0 sub) m.
Proof.
  intros Hof Hrep. revert sub m. induction k as [|k IH]; intros sub m Hs F Hk; [lia|]. cbn [packed_static_loop].
  pose proof (sk_left _ _ Hs). assert (Hsz : room S m0 (pSize it) (Z.of_nat 4)) by (apply Hof; by left).
  apply wp_bind, wp_load_room; [done|done|]. intros v Hv.
  destruct (Z.ltb_spec 0 (bytes_left sub)); cbn [andb]; [|apply wp_ret, decoded_ok; eauto with safe; lia].
  destruct (Z.ltb_spec v (f_array_size (it_field it))); [|apply wp_ret, decoded_ok; eauto with safe; lia].
  apply wp_bind. eapply wp_mono; [apply wp_call_decoder; [by apply Hof|by apply Hof|by apply Hof| |done|done]|].
  { eapply of_item; [exact Hof|done|lia]. }
  intros [ok sub1] m1 (Hk1 & Ht & F1 & Hok). destruct ok; cbn [negb]; [|by apply wp_ret].
  destruct (Hok eq_refl) as [Hr Hlt]. apply wp_bind, wp_load_room; [done|done|]. intros v' _.
  apply wp_bind, (wp_store_room S m0); [done|done|]. intros m2 F2.
  eapply wp_mono; [apply IH; [eauto with safe|done|pose proof (ro_left _ _ Hr); lia]|].
  intros r m3 Hd. eapply decoded_weaken; [|by eapply decoded_after]. pose proof (ro_left _ _ Hr). lia.
Qed.

Lemma wp_decode_static_field fields dest it i s wire_type m :
  on_field n fields dest it i -> stream_ok m0 s -> frame S m0 m ->
  wp (decode_static_field decode_msg fuel s wire_type it) (decoded S m0 0 s) m.
Proof.
  intros Hof Hs F. pose proof (sk_left _ _ Hs). unfold decode_static_field.
  assert (Hcall : forall m a, frame S m0 m -> room S m0 a (f_data_size (it_field it)) ->
    wp (call_decoder decode_msg fuel (PB_LTYPE (f_type (it_field it))) s (it_field it) a) (decoded S m0 0 s) m).
  { intros m1 a F1 Hr. eapply wp_mono; [apply wp_call_decoder; [by apply Hof..|done|done|done]|].
    intros r m2. by apply decoded_weaken. }
  destruct (Z.eqb_spec (PB_HTYPE (f_type (it_field it))) PB_HTYPE_REQUIRED) as [Hreq|_].
  { apply Hcall; [done|]. eapply of_value_room; [exact Hof|by rewrite Hreq]. }
  destruct (Z.eqb_spec (PB_HTYPE (f_type (it_field it))) PB_HTYPE_OPTIONAL) as [Hopt|_].
  { assert (Hr : room S m0 (pData it) (f_data_size (it_field it))) by (eapply of_value_room; [exact Hof|by rewrite Hopt]).
    apply wp_bind. destruct (Z.eqb_spec (pSize it) (pData it)); cbn [negb]; [apply wp_ret; by apply Hcall|].
    apply (wp_store8_room S m0); [done|by apply Hof|]. intros m1 F1. by apply Hcall. }
  destruct (Z.eqb_spec (PB_HTYPE (f_type (it_field it))) PB_HTYPE_REPEATED) as [Hrep|_].
  { assert (Hsz : room S m0 (pSize it) (Z.of_nat 4)) by (apply Hof; by left). destruct (_ && _).
    - apply wp_bind. eapply wp_mono; [by eapply wp_make_substream|].
      intros [[ok s1] ss] m' (-> & Hmake). destruct ok; cbn [negb]; [|apply wp_ret; destruct Hmake; eauto with safe].
      pose proof (sp_sub _ _ _ _ Hmake). apply wp_bind. eapply wp_mono; [eapply wp_packed_static_loop; try done; lia|].
      intros [status ss'] m1 (Hk & Ht & F1 & Hok). destruct (negb _).
      { apply wp_ret, decoded_fail; [by eapply split_kept|done]. }
      eapply wp_mono; [eapply wp_close_substream; [exact Hmake|done..|by intros E; apply Hok]|].
      intros r m2. by apply decoded_weaken.
    - apply wp_bind, wp_load_room; [done|done|]. intros v Hv.
      apply wp_bind, (wp_store_room S m0); [done|done|]. intros m1 F1.
      destruct (Z.leb_spec (f_array_size (it_field it)) v); [apply wp_ret; eauto with safe|].
      apply Hcall; [done|]. eapply of_item; [exact Hof|done|lia]. }
  destruct (Z.eqb_spec (PB_HTYPE (f_type (it_field it))) PB_HTYPE_ONEOF) as [Hone|_]; [|apply wp_ret; eauto with safe].
  assert (Hr : room S m0 (pData it) (f_data_size (it_field it))) by (eapply of_value_room; [exact Hof|by rewrite Hone]).
  pose proof (of_size _ _ _ _ _ Hof).
  apply wp_bind, (wp_store_room S m0); [done|by apply Hof; right|]. intros m1 F1.
  apply wp_bind. destruct (Z.eqb_spec (PB_LTYPE (f_type (it_field it))) PB_LTYPE_SUBMESSAGE) as [Hl|]; [|apply wp_ret; by apply Hcall].
  destruct (type_fits_submessage _ _ (of_type _ _ _ _ _ Hof) Hl) as (_ & sub & Ha & Hfit).
  apply wp_bind, (wp_memset_room S m0); [done|by rewrite Z2Nat.id|]. intros m2 F2.
  apply wp_bind, (wp_need _ _ _ sub); [done|].
  eapply wp_mono; [by eapply wp_message_set_to_defaults|]. intros [] m3 F3. by apply Hcall.
Qed.

Lemma wp_decode_field fields dest size it i s wire_type m :
  (n < fuel)%nat -> level n fields dest size -> on_field n fields dest it i -> stream_ok m0 s -> frame S m0 m ->
  wp (decode_field decode_msg fuel s wire_type it) (fun '(ok, s', it') m' =>
    decoded S m0 0 s (ok, s') m' /\ exists j, on_field n fields dest it' j) m.
Proof.
  intros Hn Hlv Hof Hs F. unfold decode_field. apply wp_bind.
  eapply (wp_mono _ (fun '(ok, s1, it1) m' => m' = m /\ read_on s s1 /\ told ok s1 /\
    exists j, on_field n fields dest it1 j)).
  { destruct (Z.eqb_spec (PB_HTYPE (f_type (it_field it))) PB_HTYPE_ONEOF) as [Hone|].
    - destruct (of_on _ _ _ _ _ Hof) as [Hi [->|(Hrep & _)]].
      + eapply wp_mono; [by eapply wp_release_union|]. intros [[ok s1] it1] m' (-> & Hr & Ht & j & Hj & ->).
        split_and!; [done..|]. exists j. by eapply on_field_at.
      + pose proof (iter_on_pos fields dest (lv_tags _ _ _ _ Hlv) it i (of_on _ _ _ _ _ Hof)) as (_ & _ & _ & Hf & _).
        rewrite Hf, Hrep in Hone. done.
    - apply wp_ret. split_and!; [done|apply read_on_refl, Hs|done|by exists i]. }
  intros [[ok s1] it1] m' (-> & Hr & Ht & j & Hof1). destruct ok; cbn [negb]; [|apply wp_ret; eauto 8 with safe].
  rewrite (of_static _ _ _ _ _ Hof1). change (PB_ATYPE_STATIC =? PB_ATYPE_STATIC) with true. cbv iota.
  apply wp_bind. eapply wp_mono; [eapply wp_decode_static_field; eauto with safe|].
  intros [ok s2] m1 Hd. apply wp_ret. split; [|by exists j].
  eapply decoded_weaken; [|by eapply decoded_after]. pose proof (ro_left _ _ Hr). lia.
Qed.

(** ** The loop over the fields *)

Definition vars_ok (fields : list pb_field_t) (dest : Z) (v : decode_vars) : Prop :=
  exists i, on_field n fields dest (dv_iter v) i.

Lemma wp_fixed_count_incomplete fixed_count v m :
  room S m0 fixed_count 4 -> frame S m0 m -> wp (fixed_count_incomplete fixed_count v) (fun _ m' => m' = m) m.
Proof.
  intros Hc F. unfold fixed_count_incomplete. destruct (dv_fixed_count_field v); [|by apply wp_ret].
  apply wp_bind, (wp_load_room 4); [done|done|]. intros. by apply wp_ret.
Qed.

Lemma wp_use_fixed_count fields dest fixed_count s v m :
  tags_ok fields -> vars_ok fields dest v -> room S m0 fixed_count 4 -> stream_ok m0 s -> frame S m0 m ->
  wp (use_fixed_count fixed_count s v) (fun '(ok, s', v') m' =>
    frame S m0 m' /\ vars_ok fields dest v' /\ if ok then s' = s else kept s s' /\ told false s') m.
Proof.
  intros Ht [i Hof] Hc Hs F. unfold use_fixed_count.
  destruct (Z.eqb_spec (PB_HTYPE (f_type (it_field (dv_iter v)))) PB_HTYPE_REPEATED) as [Hrep|]; cbn [andb];
    [|apply wp_ret; split_and!; [done|by exists i|done]].
  destruct (_ =? _); [|apply wp_ret; split_and!; [done|by exists i|done]].
  apply wp_bind, (wp_mono _ (fun '(ok, v') m' => frame S m0 m' /\ dv_iter v' = dv_iter v)).
  { case_bool_decide; [by apply wp_ret|]. apply wp_bind.
    eapply wp_mono; [by apply wp_fixed_count_incomplete|]. intros bad m' ->.
    destruct bad; [by apply wp_ret|]. apply wp_bind, (wp_store_room S m0); [done|done|]. intros m1 F1. by apply wp_ret. }
  intros [ok v'] m1 [F1 Hv']. destruct ok; cbn [negb]; apply wp_ret; split_and!; try done.
  - exists i. simpl. rewrite Hv'. by apply on_field_set_pSize.
  - exists i. by rewrite Hv'.
  - apply kept_error, read_kept, read_on_refl, Hs.
  - apply told_error.
Qed.

(** No member of such a message holds extensions: unknown tags are skipped. *)
Lemma wp_decode_unknown fields dest size s tag wire_type v m :
  level n fields dest size -> vars_ok fields dest v -> tag < 2 ^ 29 -> stream_ok m0 s -> frame S m0 m ->
  wp (decode_unknown decode_msg fuel s tag wire_type v) (fun '(ok, s', v') m' =>
    m' = m /\ read_on s s' /\ told ok s' /\ vars_ok fields dest v') m.
Proof.
  intros Hlv [i Hof] Htag Hs F.
  assert (Hskip : forall v, vars_ok fields dest v ->
    wp (let* ' (ok, s) := pb_skip_field s wire_type in ret (ok, s, v)) (fun '(ok, s', v') m' =>
    m' = m /\ read_on s s' /\ told ok s' /\ vars_ok fields dest v') m).
  { intros v' Hv'. apply wp_bind. eapply wp_mono; [eapply wp_skip_field; eauto with safe|].
    intros [ok s1] m' (-> & Hr & Ht). by apply wp_ret. }
  unfold decode_unknown. destruct (_ <=? tag); [|apply Hskip; by exists i].
  apply wp_bind. pose proof (lv_tags _ _ _ _ Hlv) as Ht. unfold find_extension_field. set (found := fun f => _).
  destruct (iter_search_spec fields dest Ht found i (dv_iter v) m (of_on _ _ _ _ _ Hof))
    as [(k & it' & Hk & E & Hon & Hf & _)|[E _]].
  - exfalso. pose proof (on_field_at _ _ _ _ _ Hlv (proj1 Hon)) as Hof'.
    pose proof (type_fits_extension _ _ (of_type _ _ _ _ _ Hof')) as Hext.
    rewrite (iter_at_field fields dest Ht _ (proj1 Hon)) in Hext. unfold found in Hf. congruence.
  - eapply wp_intro; [exact E|]. cbv beta iota zeta. assert ((2 ^ 32 - 1 <=? tag) = false) as -> by lia. apply Hskip.
    exists i. eapply on_field_at; [done|apply Hof].
Qed.

Lemma wp_decode_step fields dest size fixed_count s v m :
  (n < fuel)%nat -> level n fields dest size -> vars_ok fields dest v -> room S m0 fixed_count 4 ->
  stream_ok m0 s -> frame S m0 m ->
  wp (decode_step decode_msg fuel fixed_count s v) (fun '(r, s', v') m' =>
    vars_ok fields dest v' /\ match r with
    | None => decoded S m0 0 s (true, s') m'
    | Some ok => decoded S m0 1 s (ok, s') m'
    end) m.
Proof.
  intros Hn Hlv [i Hof] Hc Hs F. unfold decode_step. apply wp_bind. pose proof (lv_tags _ _ _ _ Hlv) as Ht.
  eapply wp_mono; [eapply wp_decode_tag; eauto with safe|].
  intros [[[[ok wt] tag] eof] s1] m' (-> & Hr & Htold & Hok). destruct ok; cbn [negb].
  2:{ apply wp_ret. split; [by exists i|]. pose proof (ro_left _ _ Hr).
      destruct eof; [apply decoded_ok; [done|lia|done]|apply decoded_stop; [by apply read_kept|intros _; by apply Htold|done]]. }
  destruct (Hok eq_refl) as [Htag Hlt]. assert (Hs1 : stream_ok m0 s1) by eauto with safe.
  apply wp_bind. eapply wp_mono; [by eapply wp_find|]. intros [found it] m' (-> & [j Hof1] & _).
  destruct found; cbn [negb].
  - apply wp_bind. eapply wp_mono; [apply wp_use_fixed_count; try done; by exists j|].
    intros [[ok s2] v2] m1 (F1 & [k Hof2] & Hres). destruct ok; cbn [negb].
    2:{ destruct Hres. apply wp_ret. split; [by exists k|]. apply decoded_stop; eauto with safe. }
    subst s2. assert (Hiter : dv_iter (mark_seen v2) = dv_iter v2) by (unfold mark_seen; by destruct (_ && _)).
    apply wp_bind. eapply wp_mono; [rewrite Hiter; by eapply wp_decode_field|].
    intros [[ok s3] it3] m2 [Hd [l Hof3]]. apply wp_ret. split; [by exists l|]. by eapply decoded_after_more.
  - apply wp_bind. eapply wp_mono; [eapply wp_decode_unknown; [done|by exists j|lia|done|done]|].
    intros [[ok s2] v2] m' (-> & Hr2 & Ht2 & Hv2). apply wp_ret. split; [done|]. pose proof (ro_left _ _ Hr2).
    split_and!; [eauto with safe|done|done|]. intros _. split; [eauto with safe|lia].
Qed.

Lemma wp_decode_loop k fields dest size fixed_count s v m :
  (n < fuel)%nat -> level n fields dest size -> vars_ok fields dest v -> room S m0 fixed_count 4 ->
  stream_ok m0 s -> frame S m0 m -> (Z.to_nat (bytes_left s) <= k)%nat ->
  wp (decode_loop decode_msg fuel k fixed_count s v) (fun '(ok, s', v') m' =>
    vars_ok fields dest v' /\ decoded S m0 0 s (ok, s') m') m.
Proof.
  intros Hn Hlv. revert s v m. induction k as [|k IH]; intros s v m Hv Hc Hs F Hk; cbn [decode_loop];
    pose proof (sk_left _ _ Hs); (destruct (Z.eqb_spec (bytes_left s) 0);
      [apply wp_ret; split; [done|apply decoded_ok; eauto with safe; lia]|]); [lia|].
  apply wp_bind. eapply wp_mono; [by eapply wp_decode_step|]. intros [[r s1] v1] m1 [Hv1 Hd].
  destruct r as [[]|]; [|apply wp_ret; split; [done|by eapply decoded_weaken; [|exact Hd]]|by apply wp_ret].
  destruct Hd as (Hk1 & Ht1 & F1 & Hok). destruct (Hok eq_refl) as [Hr Hlt]. pose proof (ro_left _ _ Hr).
  eapply wp_mono; [apply IH; [done|done|eauto with safe|done|lia]|].
  intros [[ok s2] v2] m2 [Hv2 Hd2]. split; [done|]. eapply decoded_weaken; [|by eapply decoded_after]. lia.
Qed.

Lemma wp_count_required fields dest size v m :
  level n fields dest size -> vars_ok fields dest v -> wp (count_required (dv_iter v)) (fun _ m' => m' = m) m.
Proof.
  intros Hlv [i Hof]. unfold count_required. apply wp_bind.
  eapply wp_mono; [eapply (wp_do_fields n fields dest size _ (fun _ m' => m' = m)); [done|exact Hof| |done|]|].
  - unfold iter_fuel. destruct (iter_on_pos fields dest (lv_tags _ _ _ _ Hlv) _ i (of_on _ _ _ _ _ Hof)) as (-> & _). lia.
  - intros it j st m' _ ->. by apply wp_ret.
  - intros [[ok [c t]] it] m' (_ & -> & _). by apply wp_ret.
Qed.

Lemma wp_decode_message fields dest size fixed_count s m :
  (n < fuel)%nat -> level n fields dest size -> room S m0 fixed_count 4 -> stream_ok m0 s -> frame S m0 m ->
  wp (decode_message decode_msg fuel fixed_count s fields dest) (decoded S m0 0 s) m.
Proof.
  intros Hn Hlv Hc Hs F. unfold decode_message. apply wp_bind, (wp_store_room S m0); [done|done|]. intros m1 F1.
  apply wp_bind. eapply wp_mono.
  { eapply wp_decode_loop; try done. exists 0%nat. exact (on_field_at _ _ _ _ 0 Hlv (lv_some _ _ _ _ Hlv)). }
  intros [[ok s1] v1] m2 [Hv Hd]. destruct ok; cbn [negb]; [|by apply wp_ret].
  pose proof Hd as (Hk & Ht & F2 & Hok). apply wp_bind. eapply wp_mono; [by apply wp_fixed_count_incomplete|].
  intros bad m' ->. destruct bad; [apply wp_ret; by apply decoded_fail|].
  apply wp_bind. eapply wp_mono; [by eapply wp_count_required|]. intros count m' ->.
  destruct (all_seen _ _); apply wp_ret; [done|by apply decoded_fail].
Qed.
End Fields.
End Struct.

(** * Whole messages *)

Lemma wp_decode_noinit fuel : forall n S m0 fields dest size s m,
  (n < fuel)%nat -> (forall a k, readable a k = true -> mapped_range m0 a k) -> stack_ok m0 ->
  msg_fits n fields size = true -> room S m0 dest size -> stream_ok m0 s -> frame S m0 m ->
  wp (pb_decode_noinit fuel s fields dest) (decoded S m0 0 s) m.
Proof.
  induction fuel as [|fuel IH]; intros n S m0 fields dest size s m Hn Hrom Hst Hfit Hr Hs F; [lia|].
  cbn [pb_decode_noinit]. apply (wp_with_local S m0); [eauto with frame|done|]. cbv zeta.
  set (a := m_sp m - Z.of_nat 4). set (S' := fun y => S y \/ range a (Z.of_nat 4) y).
  assert (Hkeep : forall b k, mapped_range m0 b k -> mapped_range (push_local 4 m) b k).
  { intros b k Hb j Hj. apply push_local_mapped_old. eapply frame_mapped; [exact F|by apply Hb]. }
  assert (Hroom : room S' (push_local 4 m) dest size).
  { destruct Hr as [Hm HS]. split; [by apply Hkeep|]. intros x Hx. left. by apply HS. }
  assert (Hrom' : forall b k, readable b k = true -> mapped_range (push_local 4 m) b k) by (intros b k Hb; by apply Hkeep, Hrom).
  destruct (msg_level _ _ _ _ _ _ Hfit Hroom) as (n' & -> & Hlv).
  eapply wp_mono; [eapply (wp_decode_message S' (push_local 4 m) Hrom' (pb_decode_noinit fuel) fuel n')|].
  all: try done; try lia.
  - intros sub d sz s1 m1 Hsub Hr1 Hs1 F1.
    apply (IH n' S' (push_local 4 m) sub d sz s1 m1); try done; [lia|].
    apply push_local_stack_ok. eauto with frame.
  - split; [apply push_local_mapped|]. intros x Hx. by right.
  - destruct Hs as [? ? ?]. split; [done|done|]. by apply Hkeep.
  - intros [ok s'] m2 (Hk & Ht & F2 & Hok). split; [done|]. intros m' F'. by split_and!.
Qed.
End Fits.
