(* ===== verification/PbRequired.v ===== *)
(** The check for missing required fields: the index the iterator gives to a
    required field, the bitmap [fields_seen] and the final comparison. *)

From stdpp Require Import base list gmap strings.
From Stdlib Require Import ZArith Lia.
From S2P Require Import Prelude CMem PbTypes PbCommon PbIter PbIstream PbDecode.

Definition is_required (f : pb_field_t) : bool := PB_HTYPE (f_type f) =? PB_HTYPE_REQUIRED.

(** The number of required fields before entry [i]. *)
Definition required_before (fields : list pb_field_t) (i : nat) : nat :=
  length (List.filter is_required (take i fields)).

Lemma required_before_S fields i f :
  fields !! i = Some f ->
  required_before fields (S i) = (required_before fields i + if is_required f then 1 else 0)%nat.
Proof.
  intros Hi. unfold required_before. rewrite (take_S_r _ _ f Hi), List.filter_app, length_app. simpl.
  by destruct (is_required f).
Qed.

Lemma required_before_le fields i : (required_before fields i <= i)%nat.
Proof.
  unfold required_before. etransitivity; [apply List.filter_length_le|]. rewrite length_take. lia.
Qed.

Lemma required_before_mono fields i j : (i <= j)%nat -> (required_before fields i <= required_before fields j)%nat.
Proof.
  intros Hij. unfold required_before. rewrite <- (take_drop i (take j fields)), List.filter_app, length_app.
  rewrite take_take, Nat.min_l by done. lia.
Qed.

(** Two required fields have different indices. *)
Lemma required_before_lt fields i j f :
  fields !! i = Some f -> is_required f = true -> (i < j)%nat ->
  (required_before fields i < required_before fields j)%nat.
Proof.
  intros Hi Hf Hij. pose proof (required_before_S _ _ _ Hi) as E. rewrite Hf in E.
  pose proof (required_before_mono fields (S i) j ltac:(lia)). lia.
Qed.

Lemma required_index_at fields dest i :
  tags_ok fields -> (i < length fields)%nat -> Z.of_nat (length fields) < 2 ^ 32 ->
  required_field_index (iter_at fields dest i) = Z.of_nat (required_before fields i).
Proof.
  intros Ht Hi Hlen. induction i as [|i IH]; [done|]. specialize (IH ltac:(lia)).
  rewrite iter_at_S. destruct (iter_at_pos fields dest Ht i ltac:(lia)) as (Hs & Hp & Hd).
  pose proof (field_at_tag fields Ht i ltac:(lia)) as T1. pose proof (field_at_tag fields Ht (S i) Hi) as T2.
  destruct (lookup_lt_is_Some_2 fields i ltac:(lia)) as [f Hf].
  rewrite (required_before_S _ _ _ Hf). pose proof (required_before_le fields i).
  unfold pb_field_iter_next, it_field. rewrite Hs, Hp.
  destruct (Z.eqb_spec (f_tag (field_at fields i)) 0); [done|].
  destruct (Z.eqb_spec (f_tag (field_at fields (S i))) 0); [done|].
  rewrite (field_at_lookup _ _ _ Hf) in *. unfold is_required, same_union.
  destruct (Z.eqb_spec (PB_HTYPE (f_type f)) PB_HTYPE_REQUIRED) as [Hreq|Hreq].
  - rewrite Hreq. cbn [Z.eqb PB_HTYPE_REQUIRED PB_HTYPE_ONEOF andb]. simpl. rewrite IH, wrap_small; lia.
  - destruct (_ && _ && _); simpl; rewrite IH; lia.
Qed.

(** ** The bitmap *)

(** Bit [b] of word [k] of a list of indices. *)
Lemma see_field_bits l k b :
  Forall (fun i => 0 <= i < 64) l -> 0 <= k < 2 -> 0 <= b < 32 ->
  Z.testbit (seen_word (foldl see_field (0, 0) l) k) b = bool_decide (32 * k + b ∈ l) /\
  (forall b, 32 <= b -> Z.testbit (seen_word (foldl see_field (0, 0) l) k) b = false).
Proof.
  intros Hl Hk Hb. induction l as [|i l IH] using rev_ind.
  { split; [|intros b' Hb']; unfold seen_word; simpl; destruct (k =? 0); by rewrite Z.bits_0. }
  apply Forall_app in Hl as [Hl Hi]. apply Forall_cons_1 in Hi as [Hi _]. destruct (IH Hl) as [IH1 IH2]. clear IH.
  rewrite foldl_app. cbn [foldl]. set (seen := foldl see_field (0, 0) l) in *.
  assert (Eword : seen_word (see_field seen i) k =
    if i / 32 =? k then Z.lor (seen_word seen k) (2 ^ (i mod 32)) else seen_word seen k).
  { unfold see_field, seen_word. rewrite Z.shiftr_div_pow2 by lia. change (2 ^ 5) with 32.
    change 31 with (2 ^ 5 - 1). rewrite land_mask by lia. change (2 ^ 5) with 32.
    pose proof (Z.mod_pos_bound i 32 ltac:(lia)). rewrite Z.shiftl_mul_pow2 by lia.
    rewrite wrap_small.
    2:{ split; [lia|]. rewrite Z.mul_1_l. apply Z.pow_lt_mono_r; lia. }
    rewrite Z.mul_1_l. assert (0 <= i / 32 < 2) by (split; [apply Z.div_pos|apply Z.div_lt_upper_bound]; lia).
    destruct (Z.eqb_spec (i / 32) 0); destruct (Z.eqb_spec k 0); destruct (Z.eqb_spec (i / 32) k); simpl; try done; lia. }
  pose proof (Z.mod_pos_bound i 32 ltac:(lia)). pose proof (Z.div_mod i 32 ltac:(lia)).
  rewrite Eword. destruct (Z.eqb_spec (i / 32) k) as [Ek|Ek].
  - split; [|intros b' Hb'; rewrite Z.lor_spec, IH2, Z.pow2_bits_false by lia; done].
    rewrite Z.lor_spec, IH1. destruct (decide (b = i mod 32)) as [Eb|Hne].
    + rewrite Eb, Z.pow2_bits_true, orb_true_r by lia. rewrite bool_decide_true; [done|].
      apply elem_of_app. right. assert (32 * k + i mod 32 = i) as -> by lia. set_solver.
    + rewrite Z.pow2_bits_false, orb_false_r by lia. apply bool_decide_ext.
      rewrite elem_of_app. assert (32 * k + b <> i) by lia. set_solver.
  - split; [|done]. rewrite IH1. apply bool_decide_ext. rewrite elem_of_app.
    assert (32 * k + b <> i) by (intros <-; apply Ek; symmetry; apply Z.div_unique with b; lia). set_solver.
Qed.

(** A word equals the mask of its low [r] bits when those are all set. *)
Lemma word_mask w r :
  0 <= r <= 32 -> (forall b, r <= b -> Z.testbit w b = false) ->
  (w = Z.ones r <-> forall b, 0 <= b < r -> Z.testbit w b = true).
Proof.
  intros Hr Hhigh. split.
  - intros -> b Hb. apply Z.ones_spec_low. lia.
  - intros Hlow. apply Z.bits_inj'. intros b Hb. destruct (Z.lt_ge_cases b r).
    + rewrite Hlow, Z.ones_spec_low by lia. done.
    + rewrite Hhigh, Z.ones_spec_high by lia. done.
Qed.

Lemma mask_ones r : 0 <= r <= 32 -> Z.shiftr (2 ^ 32 - 1) (32 - r) = Z.ones r.
Proof.
  intros Hr. change (2 ^ 32 - 1) with (Z.ones 32). apply Z.bits_inj'. intros b Hb.
  rewrite Z.shiftr_spec by lia. destruct (Z.lt_ge_cases b r).
  - rewrite !Z.ones_spec_low by lia. done.
  - rewrite !Z.ones_spec_high by lia. done.
Qed.

(** One word holds all the indices of its range. *)
Lemma word_full l k r :
  Forall (fun i => 0 <= i < 64) l -> (forall i, 32 * k + r <= i < 32 * k + 32 -> i ∉ l) ->
  0 <= k < 2 -> 0 <= r <= 32 ->
  (seen_word (foldl see_field (0, 0) l) k = Z.ones r <-> forall i, 32 * k <= i < 32 * k + r -> i ∈ l).
Proof.
  intros Hl Hno Hk Hr. rewrite word_mask; [|done|].
  2:{ intros b Hb. destruct (Z.lt_ge_cases b 32).
      - destruct (see_field_bits l k b Hl Hk ltac:(lia)) as [-> _]. apply bool_decide_false, Hno. lia.
      - by apply (see_field_bits l k 0 Hl Hk ltac:(lia)). }
  split.
  - intros Hbits i Hi. specialize (Hbits (i - 32 * k) ltac:(lia)).
    destruct (see_field_bits l k (i - 32 * k) Hl Hk ltac:(lia)) as [E _]. rewrite E in Hbits.
    apply bool_decide_eq_true in Hbits. by replace i with (32 * k + (i - 32 * k)) by lia.
  - intros Hin b Hb. destruct (see_field_bits l k b Hl Hk ltac:(lia)) as [-> _].
    apply bool_decide_true, Hin. lia.
Qed.

(** [all_seen] finds every index below [count] in the bitmap. *)
Lemma all_seen_spec l count :
  0 <= count <= 64 -> Forall (fun i => 0 <= i < count) l ->
  (all_seen (foldl see_field (0, 0) l) count = true <-> forall i, 0 <= i < count -> i ∈ l).
Proof.
  intros Hc Hl. assert (Hl64 : Forall (fun i => 0 <= i < 64) l) by (eapply Forall_impl; [exact Hl|simpl; lia]).
  assert (Hno : forall i, count <= i -> i ∉ l).
  { intros i Hi Hin. eapply Forall_forall in Hl; [|exact Hin]. simpl in Hl. lia. }
  pose proof (fun k r H => word_full l k r Hl64 H) as Hword. unfold all_seen.
  set (seen := foldl see_field (0, 0) l) in *.
  change 31 with (2 ^ 5 - 1). rewrite land_mask, Z.shiftr_div_pow2 by lia. change (2 ^ 5) with 32.
  pose proof (Z.div_mod count 32 ltac:(lia)). pose proof (Z.mod_pos_bound count 32 ltac:(lia)).
  rewrite mask_ones by lia. change (2 ^ 32 - 1) with (Z.ones 32).
  assert (Hcases : count / 32 = 0 \/ count / 32 = 1 \/ (count / 32 = 2 /\ count mod 32 = 0)) by lia.
  rewrite andb_true_iff, orb_true_iff, !Z.eqb_eq.
  destruct Hcases as [E|[E|[E E']]]; rewrite E in *.
  - change (seqZ 0 0) with (@nil Z). cbn [forallb].
    rewrite (Hword 0 (count mod 32)) by (try apply Hno; lia || intros; apply Hno; lia).
    split; [intros [_ [Hz|Hall]] i Hi; [lia|apply Hall; lia]|]. intros Hall. split; [done|]. right. intros i Hi. apply Hall. lia.
  - change (seqZ 0 1) with [0]. cbn [forallb]. rewrite andb_true_r, Z.eqb_eq.
    rewrite (Hword 0 32), (Hword 1 (count mod 32)) by (lia || intros; first [lia | apply Hno; lia]).
    split.
    + intros [W0 W1] i Hi. destruct (Z.lt_ge_cases i 32); [apply W0; lia|]. destruct W1 as [Hz|Hall]; [lia|apply Hall; lia].
    + intros Hall. split; [intros i Hi; apply Hall; lia|]. right. intros i Hi. apply Hall. lia.
  - change (seqZ 0 2) with [0; 1]. cbn [forallb]. rewrite andb_true_r, andb_true_iff, !Z.eqb_eq.
    rewrite (Hword 0 32), (Hword 1 32) by (lia || intros; lia).
    split.
    + intros [[W0 W1] _] i Hi. destruct (Z.lt_ge_cases i 32); [apply W0; lia|apply W1; lia].
    + intros Hall. split; [split; intros i Hi; apply Hall; lia|by left].
Qed.

(** ** The count *)

(** [count_required] from any position. *)
Lemma count_required_loop fields dest fuel i it acc m :
  tags_ok fields -> iter_on fields dest it i -> (length fields - i <= fuel)%nat ->
  do_fields fuel (fun it (_ : Z * Z) => ret (true, (required_field_index it, f_type (it_field it)))) it acc m =
  Ret ((true, (required_field_index (iter_at fields dest (length fields - 1)),
               f_type (field_at fields (length fields - 1))), iter_at fields dest 0), m).
Proof.
  intros Ht. revert i it acc. induction fuel as [|fuel IH]; intros i it acc Hon Hf; pose proof Hon as [Hi _]; [lia|].
  cbn [do_fields]. unfold bind at 1, ret at 1. cbn [negb]. rewrite (iter_on_next fields dest Ht it i Hon).
  unfold next_pos. pose proof (iter_on_pos fields dest Ht it i Hon) as (_ & _ & _ & Hfield & _).
  case_bool_decide as Hlast; cbn [negb].
  - rewrite decide_True by done. assert (length fields - 1 = i)%nat as -> by lia. rewrite Hfield.
    unfold ret. do 4 f_equal. destruct Hon as [_ [->|(_ & a & ->)]]; done.
  - rewrite decide_False by done. apply (IH (S i)); [apply iter_on_at; lia|lia].
Qed.

Lemma count_required_spec fields dest i it m :
  tags_ok fields -> iter_on fields dest it i -> Z.of_nat (length fields) < 2 ^ 32 ->
  count_required it m = Ret (Z.min 64 (Z.of_nat (required_before fields (length fields))), m).
Proof.
  intros Ht Hon Hlen. pose proof Hon as [Hi _].
  pose proof (iter_on_pos fields dest Ht it i Hon) as (Hs & _). unfold count_required, iter_fuel. rewrite Hs.
  unfold bind at 1. rewrite (count_required_loop fields dest (S (length fields)) i) by (done || lia).
  rewrite required_index_at by (done || lia).
  rewrite (iter_at_field fields dest Ht 0) by lia.
  pose proof (field_at_tag fields Ht 0 ltac:(lia)). destruct (Z.eqb_spec (f_tag (field_at fields 0)) 0); [done|].
  cbn [negb]. rewrite andb_true_r. destruct (lookup_lt_is_Some_2 fields (length fields - 1) ltac:(lia)) as [f Hf].
  rewrite (field_at_lookup _ _ _ Hf). pose proof (required_before_S _ _ _ Hf) as Hlast.
  replace (S (length fields - 1)) with (length fields) in Hlast by lia. rewrite Hlast.
  pose proof (required_before_le fields (length fields - 1)). unfold ret, is_required, PB_MAX_REQUIRED_FIELDS.
  do 2 f_equal. destruct (_ =? PB_HTYPE_REQUIRED); [rewrite wrap_small by lia|];
    (match goal with |- context [64 <? ?x] => destruct (Z.ltb_spec 64 x) end; lia).
Qed.

(** Every index below the count belongs to a required field. *)
Lemma required_index_onto fields n k :
  (n <= length fields)%nat -> (k < required_before fields n)%nat ->
  exists j f, fields !! j = Some f /\ is_required f = true /\ required_before fields j = k.
Proof.
  induction n as [|n IH]; intros Hn Hk; [unfold required_before in Hk; rewrite take_0 in Hk; simpl in Hk; lia|].
  destruct (lookup_lt_is_Some_2 fields n ltac:(lia)) as [f Hf]. rewrite (required_before_S _ _ _ Hf) in Hk.
  destruct (decide (k < required_before fields n)%nat); [apply IH; lia|].
  destruct (is_required f) eqn:Er; [|lia]. exists n, f. split; [done|]. split; [done|lia].
Qed.

Lemma required_index_inj fields i j f g :
  fields !! i = Some f -> is_required f = true -> fields !! j = Some g -> is_required g = true ->
  required_before fields i = required_before fields j -> i = j.
Proof.
  intros Hi Hf Hj Hg E. destruct (Nat.lt_trichotomy i j) as [Hlt|[Heq|Hlt]]; [|done|].
  - pose proof (required_before_lt _ _ _ _ Hi Hf Hlt). lia.
  - pose proof (required_before_lt _ _ _ _ Hj Hg Hlt). lia.
Qed.

(** The bitmap after the entries [js] have been met, in this order. *)
Definition seen_after (fields : list pb_field_t) (dest : Z) (js : list nat) : Z * Z :=
  foldl (fun seen j => dv_fields_seen (mark_seen (mkVars (iter_at fields dest j) 0 None seen))) (0, 0) js.

(** The indices that [mark_seen] records. *)
Definition recorded (fields : list pb_field_t) (js : list nat) : list Z :=
  map (fun j => Z.of_nat (required_before fields j))
      (List.filter (fun j => is_required (field_at fields j) && (Z.of_nat (required_before fields j) <? 64)) js).

Lemma seen_after_recorded fields dest js :
  tags_ok fields -> Forall (fun j => (j < length fields)%nat) js -> Z.of_nat (length fields) < 2 ^ 32 ->
  seen_after fields dest js = foldl see_field (0, 0) (recorded fields js).
Proof.
  intros Ht Hjs Hlen. unfold seen_after. induction js as [|j js IH] using rev_ind; [done|].
  apply Forall_app in Hjs as [Hjs Hj]. apply Forall_cons_1 in Hj as [Hj _].
  unfold recorded in *. rewrite foldl_app, List.filter_app, map_app, foldl_app, <- IH by done. cbn [foldl].
  generalize (foldl (fun seen j => dv_fields_seen (mark_seen (mkVars (iter_at fields dest j) 0 None seen))) (0, 0) js).
  intros seen. unfold mark_seen. cbn [dv_iter dv_fields_seen].
  rewrite (iter_at_field fields dest Ht j Hj), (required_index_at fields dest j Ht Hj Hlen). simpl.
  unfold is_required, PB_MAX_REQUIRED_FIELDS. by destruct ((_ =? _) && _).
Qed.

Lemma recorded_spec fields js i :
  i ∈ recorded fields js <->
  exists j, j ∈ js /\ is_required (field_at fields j) = true /\ Z.of_nat (required_before fields j) < 64 /\
    i = Z.of_nat (required_before fields j).
Proof.
  unfold recorded. rewrite list_elem_of_In, in_map_iff. split.
  - intros (j & <- & Hj). apply filter_In in Hj as [Hin Hc]. apply andb_true_iff in Hc as [Hr Hlt].
    exists j. split; [by apply list_elem_of_In|]. split; [done|]. split; [lia|done].
  - intros (j & Hin & Hr & Hlt & ->). exists j. split; [done|]. apply filter_In.
    split; [by apply list_elem_of_In|]. rewrite Hr. simpl. lia.
Qed.

(** The final check after the entries [js] were met. *)
Lemma required_check fields dest js :
  tags_ok fields -> Z.of_nat (length fields) < 2 ^ 32 -> Forall (fun j => (j < length fields)%nat) js ->
  (all_seen (seen_after fields dest js) (Z.min 64 (Z.of_nat (required_before fields (length fields)))) = true <->
   forall j, (j < length fields)%nat -> is_required (field_at fields j) = true ->
     (required_before fields j < 64)%nat -> j ∈ js).
Proof.
  intros Ht Hlen Hjs. rewrite (seen_after_recorded _ _ _ Ht Hjs Hlen). rewrite all_seen_spec; [|lia|].
  - split.
    + intros Hall j Hj Hr Hlt. destruct (lookup_lt_is_Some_2 fields j Hj) as [f Hf].
      rewrite (field_at_lookup _ _ _ Hf) in Hr. pose proof (required_before_lt _ _ _ _ Hf Hr Hj).
      specialize (Hall (Z.of_nat (required_before fields j)) ltac:(lia)).
      apply recorded_spec in Hall as (k & Hk & Hrk & _ & E).
      assert (Hkl : (k < length fields)%nat) by (eapply Forall_forall in Hjs; [exact Hjs|exact Hk]).
      destruct (lookup_lt_is_Some_2 fields k Hkl) as [g Hg]. rewrite (field_at_lookup _ _ _ Hg) in Hrk.
      replace j with k; [done|]. eapply required_index_inj; [exact Hg|done|exact Hf|done|lia].
    + intros Hall i Hi. destruct (required_index_onto fields (length fields) (Z.to_nat i)) as (j & f & Hf & Hr & E); [lia..|].
      apply recorded_spec. exists j. rewrite (field_at_lookup _ _ _ Hf). split; [|split; [done|lia]].
      apply Hall; [by eapply lookup_lt_Some|by rewrite (field_at_lookup _ _ _ Hf)|lia].
  - apply Forall_forall. intros i Hi. apply recorded_spec in Hi as (j & Hj & Hr & Hlt & ->).
    assert (Hjl : (j < length fields)%nat) by (eapply Forall_forall in Hjs; [exact Hjs|exact Hj]).
    destruct (lookup_lt_is_Some_2 fields j Hjl) as [f Hf]. rewrite (field_at_lookup _ _ _ Hf) in Hr.
    pose proof (required_before_lt _ _ _ _ Hf Hr Hjl). lia.
Qed.
