(* ===== verification/PbDecodeProps.v ===== *)
(** What the message decoder guarantees. *)

From stdpp Require Import base list gmap strings.
From Stdlib Require Import ZArith Lia.
From S2P Require Import Prelude CMem PbTypes PbCommon PbIter PbIstream PbDecode PbDecodeSafe PbDecodeMsg PbRequired.

(** * Memory safety on arbitrary input *)

(** Everything the decoder is given: a structure of [size] bytes at [dest]
    that the descriptors fit, constants [rom] for the default values, a free
    stack, and a stream over mapped memory. *)
Record decode_input `{Program} (rom : Z -> Z -> bool) (n : nat) (fields : list pb_field_t)
    (dest size : Z) (s : pb_istream_t) (m : mem) : Prop := {
  di_fits : msg_fits rom n fields size = true;
  di_dest : mapped_range m dest size;
  di_rom : forall a k, rom a k = true -> mapped_range m a k;
  di_stack : stack_ok m;
  di_stream : stream_ok m s;
}.

(** What is left after decoding into [[dest, dest + size)]: the stream has
    only moved forward, a failure has a message, and no other byte, block or
    mapping has changed. *)
Definition decode_result (dest size : Z) (s : pb_istream_t) (m : mem) (ok : bool) (s' : pb_istream_t) (m' : mem) : Prop :=
  frame (range dest size) m m' /\
  is_callback s' = is_callback s /\ 0 <= bytes_left s' <= bytes_left s /\
  (ok = true -> is_state s' + bytes_left s' = is_state s + bytes_left s) /\
  (ok = false -> is_errmsg s' <> None).

Section Safe.
Context `{Program} (rom : Z -> Z -> bool).

Lemma decoded_result dest size s m k ok s' m' :
  decoded (range dest size) m k s (ok, s') m' -> decode_result dest size s m ok s' m'.
Proof.
  intros ([Hc Hl] & Ht & F & Hok). split_and!; [done|done|lia|lia| |done].
  intros E. destruct (Hok E) as [Hr _]. apply Hr.
Qed.

Lemma input_room n fields dest size s m :
  decode_input rom n fields dest size s m -> room (range dest size) m dest size.
Proof. by intros [? ? ? ? ?]. Qed.

Lemma noinit_decoded fuel n fields dest size s m S m0 :
  (n < fuel)%nat -> decode_input rom n fields dest size s m0 -> room S m0 dest size -> frame S m0 m ->
  wp (pb_decode_noinit fuel s fields dest) (decoded S m0 0 s) m.
Proof. intros Hn [Hf Hd Hr Hs Hi] Hroom F. by eapply wp_decode_noinit. Qed.

Lemma decode_decoded fuel n fields dest size s m :
  (n < fuel)%nat -> decode_input rom n fields dest size s m ->
  wp (pb_decode fuel s fields dest) (decoded (range dest size) m 0 s) m.
Proof.
  intros Hn Hin. pose proof (input_room _ _ _ _ _ _ Hin) as Hroom. destruct Hin as [Hf Hd Hr Hs Hi].
  eapply (wp_decode_with rom (range dest size) m Hr (pb_decode_noinit fuel) fuel n); [lia| |done|done|done|apply frame_refl].
  intros sub d sz s1 m1 Hsub Hroom1 Hs1 F1. by eapply wp_decode_noinit.
Qed.

(** C1: [pb_decode] is safe on any input. Whatever bytes the stream holds, for
    descriptors whose fields lie inside the structure [pb_decode] returns
    (with one unit of fuel more than the nesting depth); it reads and writes
    mapped memory only, it changes nothing outside the structure, and when it
    fails the stream carries an error message. *)
Theorem pb_decode_safe fuel n fields dest size s m :
  (n < fuel)%nat -> decode_input rom n fields dest size s m ->
  exists ok s' m', pb_decode fuel s fields dest m = Ret ((ok, s'), m') /\
    decode_result dest size s m ok s' m'.
Proof.
  intros Hn Hin. destruct (wp_elim _ _ _ (decode_decoded _ _ _ _ _ _ _ Hn Hin)) as ([ok s'] & m' & E & Hd).
  exists ok, s', m'. split; [done|]. by eapply decoded_result.
Qed.

(** the same for [pb_decode_noinit], whatever the structure holds before. *)
Theorem pb_decode_noinit_safe fuel n fields dest size s m :
  (n < fuel)%nat -> decode_input rom n fields dest size s m ->
  exists ok s' m', pb_decode_noinit fuel s fields dest m = Ret ((ok, s'), m') /\
    decode_result dest size s m ok s' m'.
Proof.
  intros Hn Hin. pose proof (input_room _ _ _ _ _ _ Hin) as Hroom.
  destruct (wp_elim _ _ _ (noinit_decoded _ _ _ _ _ _ _ _ _ Hn Hin Hroom (frame_refl _ _))) as ([ok s'] & m' & E & Hd).
  exists ok, s', m'. split; [done|]. by eapply decoded_result.
Qed.

(** a message behind a length prefix is decoded inside the announced
    length: on success the stream stands just after it. *)
Theorem pb_decode_delimited_safe fuel n fields dest size s m :
  (n < fuel)%nat -> decode_input rom n fields dest size s m ->
  exists ok s' m', pb_decode_delimited fuel s fields dest m = Ret ((ok, s'), m') /\
    decode_result dest size s m ok s' m' /\ (ok = true -> bytes_left s' < bytes_left s).
Proof.
  intros Hn Hin. pose proof Hin as [Hf Hd Hr Hs Hi].
  assert (W : wp (pb_decode_delimited fuel s fields dest) (decoded (range dest size) m 1 s) m).
  { unfold pb_decode_delimited, in_substream. apply wp_bind.
    eapply wp_mono; [by eapply wp_make_substream, (frame_refl (range dest size))|].
    intros [[ok s1] ss] m' (-> & Hmake). destruct ok; cbn [negb].
    2:{ apply wp_ret. destruct Hmake. apply decoded_stop; [done|done|apply frame_refl]. }
    apply wp_bind. eapply wp_mono; [eapply decode_decoded; [exact Hn|]|].
    { split; [done..|]. apply (sp_sub _ _ _ _ Hmake). }
    intros [status ss'] m1 (Hk & Ht & F1 & Hok). eapply wp_close_substream; [exact Hmake|done..|]. by intros E; apply Hok. }
  destruct (wp_elim _ _ _ W) as ([ok s'] & m' & E & Hdec). exists ok, s', m'. split; [done|].
  split; [by eapply decoded_result|]. intros E'. destruct Hdec as (_ & _ & _ & Hok). destruct (Hok E'). lia.
Qed.
End Safe.

(** * Required fields *)

(** C35: the check for missing required fields is exact. When the decoder has
    met the entries [js] of a message, in any order and any number of times,
    the final comparison of [fields_seen] accepts exactly when every required
    field among the first 64 required ones was met, wherever the iterator
    stands when the message ends. *)
Theorem required_fields_exact fields dest js it i m :
  tags_ok fields -> Z.of_nat (length fields) < 2 ^ 32 ->
  Forall (fun j => (j < length fields)%nat) js -> iter_on fields dest it i ->
  exists count, count_required it m = Ret (count, m) /\
    (all_seen (seen_after fields dest js) count = true <->
     forall j, (j < length fields)%nat -> is_required (field_at fields j) = true ->
       (required_before fields j < 64)%nat -> j ∈ js).
Proof.
  intros Ht Hlen Hjs Hon. eexists. split; [by eapply count_required_spec|]. by apply required_check.
Qed.

(** * Concrete inputs *)

Section DecodeWitnesses.

(** Where the mapped memory of the examples begins, above the stack. *)
Definition base : Z := 2 ^ 31.

(** The union's message: a [has] byte and an [int32] with a default value. *)
Definition inner_fields : list pb_field_t :=
  [mkField 1 (PB_HTYPE_OPTIONAL + PB_LTYPE_VARINT) 4 (-4) 4 0 base].

(** A required [int32] at 0; up to three [uint32] at 8 with their count at
    4; an optional string of 8 bytes at 21 with its [has] byte before it; a
    union at 36 of a message and a [fixed32], with its tag at 32. *)
Definition outer_fields : list pb_field_t :=
  [mkField 1 (PB_HTYPE_REQUIRED + PB_LTYPE_VARINT) 0 0 4 0 0;
   mkField 2 (PB_HTYPE_REPEATED + PB_LTYPE_UVARINT) 4 (-4) 4 3 0;
   mkField 3 (PB_HTYPE_OPTIONAL + PB_LTYPE_STRING) 1 (-1) 8 0 0;
   mkField 4 (PB_HTYPE_ONEOF + PB_LTYPE_SUBMESSAGE) 7 (-4) 8 0 512;
   mkField 5 (PB_HTYPE_ONEOF + PB_LTYPE_FIXED32) PB_SIZE_MAX (-4) 4 0 0].

#[local] Instance outer_program : Program := plain_program [(512, inner_fields)].

(** The constant is at [base], the structure at [base + 4096] and the input at
    [base + 8192]. *)
Definition outer_rom (a k : Z) : bool := (a =? base) && (k <=? 4).

Definition outer_mem (input : list Z) : mem :=
  mem_add (mem_add (mem_of base [7; 0; 0; 0]) (base + 4096) (repeat 0xEE 44)) (base + 8192) input.

Definition outer_stream (input : list Z) : pb_istream_t :=
  pb_istream_from_buffer (base + 8192) (Z.of_nat (length input)).

(** 150; a packed array { 1, 300 }; "ab"; the union's message { 5 }; an
    unknown field. *)
Definition outer_input : list Z :=
  [0x08; 0x96; 0x01;  0x12; 0x03; 0x01; 0xAC; 0x02;  0x1A; 0x02; 0x61; 0x62;
   0x22; 0x02; 0x08; 0x05;  0x78; 0x01].

Lemma outer_decode_input : decode_input outer_rom 2 outer_fields (base + 4096) 44 (outer_stream outer_input) (outer_mem outer_input).
Proof.
  split; [vm_compute; reflexivity|solve_mem| |solve_mem|].
  - intros a k Hr. unfold outer_rom in Hr. apply andb_true_iff in Hr as [Ha Hk]. apply Z.eqb_eq in Ha as ->.
    apply (mapped_range_sub _ base 4); [solve_mem|lia|lia].
  - split; [done|done|]. simpl. solve_mem.
Qed.

Lemma pb_decode_safe_witness :
  exists ok s' m', pb_decode 3 (outer_stream outer_input) outer_fields (base + 4096) (outer_mem outer_input) = Ret ((ok, s'), m') /\
    decode_result (base + 4096) 44 (outer_stream outer_input) (outer_mem outer_input) ok s' m'.
Proof. refine (pb_decode_safe outer_rom 3 2 outer_fields (base + 4096) 44 _ _ _ outer_decode_input). lia. Defined.

Lemma pb_decode_noinit_safe_witness :
  exists ok s' m', pb_decode_noinit 3 (outer_stream outer_input) outer_fields (base + 4096) (outer_mem outer_input) = Ret ((ok, s'), m') /\
    decode_result (base + 4096) 44 (outer_stream outer_input) (outer_mem outer_input) ok s' m'.
Proof. refine (pb_decode_noinit_safe outer_rom 3 2 outer_fields (base + 4096) 44 _ _ _ outer_decode_input). lia. Defined.

Lemma pb_decode_delimited_safe_witness :
  exists ok s' m', pb_decode_delimited 3 (outer_stream outer_input) outer_fields (base + 4096) (outer_mem outer_input) = Ret ((ok, s'), m') /\
    decode_result (base + 4096) 44 (outer_stream outer_input) (outer_mem outer_input) ok s' m' /\
    (ok = true -> bytes_left s' < bytes_left (outer_stream outer_input)).
Proof. refine (pb_decode_delimited_safe outer_rom 3 2 outer_fields (base + 4096) 44 _ _ _ outer_decode_input). lia. Defined.


(** The structure after decoding it. *)
Example outer_decoded :
  run (let* ' (ok, s) := pb_decode 3 (outer_stream outer_input) outer_fields (base + 4096) in
       let* l := load_bytes 44 (base + 4096) in ret (ok, bytes_left s, l)) (outer_mem outer_input) =
  Some (true, 0,
    [150; 0; 0; 0;  2; 0; 0; 0;  1; 0; 0; 0;  44; 1; 0; 0;  238; 238; 238; 238;
     1; 97; 98; 0; 0; 0; 0; 0; 0;  238; 238; 238;  4; 0; 0; 0;  1; 0; 0; 0;  5; 0; 0; 0]).
Proof. vm_compute. reflexivity. Qed.

Definition two_required : list pb_field_t :=
  [mkField 1 (PB_HTYPE_REQUIRED + PB_LTYPE_VARINT) 0 0 4 0 0;
   mkField 2 (PB_HTYPE_OPTIONAL + PB_LTYPE_VARINT) 4 (-4) 4 0 0;
   mkField 3 (PB_HTYPE_REQUIRED + PB_LTYPE_VARINT) 0 0 4 0 0].

Lemma required_fields_exact_witness :
  exists count, count_required (iter_at two_required 4096 1) (mem_of 0 []) = Ret (count, mem_of 0 []) /\
    (all_seen (seen_after two_required 4096 [2; 1; 2]%nat) count = true <->
     forall j, (j < 3)%nat -> is_required (field_at two_required j) = true ->
       (required_before two_required j < 64)%nat -> j ∈ [2; 1; 2]%nat).
Proof.
  refine (required_fields_exact two_required 4096 [2; 1; 2]%nat (iter_at two_required 4096 1) 1 (mem_of 0 []) _ _ _ _).
  - by apply tags_okb_true.
  - simpl. lia.
  - repeat constructor; simpl; lia.
  - split; [simpl; lia|by left].
Defined.
End DecodeWitnesses.
