(* ===== verification/PbFieldProps.v ===== *)
(** What the decoders of single values store, and that they read back what
    the encoders of single values wrote. *)

From stdpp Require Import base list gmap strings.
From Stdlib Require Import ZArith Lia.
From S2P Require Import Prelude CMem PbTypes PbCommon PbIstream PbOstream PbWire PbEncode PbDecode.

(** * Integers of a field's size *)

(** Decide comparisons of concrete sizes. *)
Ltac eval_sizes :=
  repeat match goal with
  | |- context [Z.of_nat ?a =? ?b] =>
      let r := eval vm_compute in (Z.of_nat a =? b) in change (Z.of_nat a =? b) with r; cbv beta iota
  end.

(** The sizes the code accepts. *)
Definition int_size (n : nat) : Prop := n = 1%nat \/ n = 2%nat \/ n = 4%nat \/ n = 8%nat.

(** The value of [n] bytes in a signed or unsigned member. *)
Definition member_value (signed : bool) (l : list Z) : Z :=
  if signed then sext (8 * Z.of_nat (length l)) (le_val l) else le_val l.

(** The values a member of [n] bytes can hold. *)
Definition in_member (signed : bool) (n : nat) (v : Z) : bool :=
  if signed then (- 2 ^ (8 * Z.of_nat n - 1) <=? v) && (v <? 2 ^ (8 * Z.of_nat n - 1))
  else (0 <=? v) && (v <? 2 ^ (8 * Z.of_nat n)).

Lemma in_member_eq signed n v :
  int_size n ->
  in_member signed n v = (v =? (if signed then sext (8 * Z.of_nat n) v else wrap (8 * Z.of_nat n) v)).
Proof.
  intros Hn. assert (0 < 8 * Z.of_nat n) by (destruct Hn as [->|[->|[->| ->]]]; lia).
  unfold in_member. apply eq_true_iff_eq. rewrite Z.eqb_eq. destruct signed; rewrite andb_true_iff, Z.leb_le, Z.ltb_lt.
  - split; [intros; symmetry; apply sext_small; lia|intros ->; apply sext_range; lia].
  - split; [intros; symmetry; by apply wrap_small|intros ->; apply wrap_range; lia].
Qed.

Lemma store_int_run signed n dest v m :
  int_size n -> mapped_range m dest (Z.of_nat n) ->
  store_int signed (Z.of_nat n) dest v m = Ret (Some (in_member signed n v), poke m dest (le_bytes n v)).
Proof.
  intros Hn Hm. rewrite (in_member_eq _ _ _ Hn). unfold store_int, store_le.
  assert (Hs : store_bytes dest (le_bytes n v) m = Ret (tt, poke m dest (le_bytes n v))).
  { apply store_bytes_poke. by rewrite length_le_bytes. }
  unfold bind. destruct Hn as [->|[->|[->| ->]]]; eval_sizes; by rewrite Hs.
Qed.

(** The stream after a value whose check gave [ok]. *)
Definition checked (ok : bool) (s : pb_istream_t) : bool * pb_istream_t :=
  if ok then (true, s) else (false, is_error s "integer too large").

Lemma check_store_checked s ok : check_store s (Some ok) = checked ok s.
Proof. by destruct ok. Qed.

Section Values.
Context `{Program}.

Lemma dec_uvarint_run m s f dest n v l :
  int_size n -> f_data_size f = Z.of_nat n -> 0 <= v < 2 ^ 64 -> stream_over m s (varint v ++ l) ->
  mapped_range m dest (Z.of_nat n) ->
  pb_dec_uvarint s f dest m =
  Ret (checked (in_member false n v) (advance s (Z.of_nat (length (varint v)))), poke m dest (le_bytes n v)).
Proof.
  intros Hn Hf Hv Hs Hd. unfold pb_dec_uvarint, bind. rewrite (decode_varint_app _ _ _ _ Hv Hs). cbn [negb].
  rewrite Hf, (store_int_run _ _ _ _ _ Hn Hd), check_store_checked. done.
Qed.

(** What [pb_dec_varint] makes of a 64-bit value. *)
Definition int_of_varint (n : nat) (v : Z) : Z := if (n =? 8)%nat then sext 64 v else sext 32 v.

Lemma dec_varint_run m s f dest n v l :
  int_size n -> f_data_size f = Z.of_nat n -> 0 <= v < 2 ^ 64 -> stream_over m s (varint v ++ l) ->
  mapped_range m dest (Z.of_nat n) ->
  pb_dec_varint s f dest m =
  Ret (checked (in_member true n (int_of_varint n v)) (advance s (Z.of_nat (length (varint v)))),
       poke m dest (le_bytes n (int_of_varint n v))).
Proof.
  intros Hn Hf Hv Hs Hd. unfold pb_dec_varint, bind. rewrite (decode_varint_app _ _ _ _ Hv Hs). cbn [negb].
  assert (E : (f_data_size f =? 8) = (n =? 8)%nat) by (rewrite Hf; by destruct Hn as [->|[->|[->| ->]]]).
  rewrite E. fold (int_of_varint n v).
  rewrite Hf, (store_int_run _ _ _ _ _ Hn Hd), check_store_checked. done.
Qed.

Lemma dec_svarint_run m s f dest n v l :
  int_size n -> f_data_size f = Z.of_nat n -> - 2 ^ 63 <= v < 2 ^ 63 -> stream_over m s (varint (zigzag v) ++ l) ->
  mapped_range m dest (Z.of_nat n) ->
  pb_dec_svarint s f dest m =
  Ret (checked (in_member true n v) (advance s (Z.of_nat (length (varint (zigzag v))))), poke m dest (le_bytes n v)).
Proof.
  intros Hn Hf Hv Hs Hd. unfold pb_dec_svarint, bind. rewrite (decode_svarint_app _ _ _ _ Hv Hs). cbn [negb].
  rewrite Hf, (store_int_run _ _ _ _ _ Hn Hd), check_store_checked. done.
Qed.
(** ** The encoders of the same members *)

Lemma int_value_run signed m src l :
  int_size (length l) -> bytes_at m src l -> Forall is_byte l ->
  int_value signed (Z.of_nat (length l)) src m = Ret (Some (member_value signed l), m).
Proof.
  intros Hn Hb Hl. pose proof (load_bytes_at _ _ _ Hb Hl) as El. unfold member_value.
  unfold int_value, load_le, bind. destruct Hn as [E|[E|[E|E]]]; rewrite E in *; eval_sizes; by rewrite El.
Qed.

Lemma le_bytes_wrap n z : le_bytes n (wrap (8 * Z.of_nat n) z) = le_bytes n z.
Proof.
  pose proof (le_bytes_val (le_bytes n z) (le_bytes_is_byte n z)) as E.
  by rewrite length_le_bytes, le_val_bytes in E.
Qed.

Lemma member_value_bytes signed l :
  int_size (length l) -> Forall is_byte l -> le_bytes (length l) (member_value signed l) = l.
Proof.
  intros Hn Hl. unfold member_value. destruct signed; [|by apply le_bytes_val].
  rewrite <- le_bytes_wrap, wrap_sext by (destruct Hn as [->|[->|[->| ->]]]; lia).
  rewrite le_bytes_wrap. by apply le_bytes_val.
Qed.

Lemma member_value_in signed l : int_size (length l) -> in_member signed (length l) (member_value signed l) = true.
Proof.
  intros Hn. rewrite in_member_eq by done. apply Z.eqb_eq. pose proof (le_val_range l). unfold member_value.
  assert (0 < 8 * Z.of_nat (length l)) by (destruct Hn as [->|[->|[->| ->]]]; lia).
  destruct signed; symmetry; [apply sext_small; [lia|apply sext_range; lia]|by apply wrap_small].
Qed.

(** Every member value is a 64-bit one. *)
Lemma in_member_64 (signed : bool) n v :
  int_size n -> in_member signed n v = true -> if signed then - 2 ^ 63 <= v < 2 ^ 63 else 0 <= v < 2 ^ 64.
Proof.
  intros Hn. unfold in_member. destruct signed; destruct Hn as [->|[->|[->| ->]]];
    rewrite andb_true_iff, Z.leb_le, Z.ltb_lt; simpl; lia.
Qed.

Lemma int_of_varint_signed n v : int_size n -> in_member true n v = true -> int_of_varint n (u64 v) = v.
Proof.
  intros Hn Hin. unfold int_of_varint, in_member in *. rewrite andb_true_iff, Z.leb_le, Z.ltb_lt in Hin.
  assert (E : sext 32 (u64 v) = sext 32 v).
  { rewrite <- (sext_wrap 32 (u64 v)), (wrap_le 32 64 v) by lia. by apply sext_wrap. }
  destruct Hn as [->|[->|[->| ->]]]; simpl in *; [rewrite E; apply sext_small; lia..|].
  rewrite sext_wrap by lia. apply sext_small; lia.
Qed.

(** The bytes an integer member is encoded to. *)
Definition int_encoding (ltype : Z) (l : list Z) : list Z :=
  if ltype =? PB_LTYPE_VARINT then varint (u64 (member_value true l))
  else if ltype =? PB_LTYPE_UVARINT then varint (member_value false l)
  else if ltype =? PB_LTYPE_SVARINT then varint (zigzag (member_value true l))
  else l.

(** The members the packable types can have. *)
Definition numeric_member (ltype : Z) (n : nat) : Prop :=
  ((ltype = PB_LTYPE_VARINT \/ ltype = PB_LTYPE_UVARINT \/ ltype = PB_LTYPE_SVARINT) /\ int_size n) \/
  (ltype = PB_LTYPE_FIXED32 /\ n = 4%nat) \/ (ltype = PB_LTYPE_FIXED64 /\ n = 8%nat).

Lemma int_encoding_ok ltype l :
  numeric_member ltype (length l) -> Forall is_byte l ->
  Forall is_byte (int_encoding ltype l) /\ (1 <= length (int_encoding ltype l) <= 10)%nat.
Proof.
  intros Hn Hl. assert (Hv : forall v, 0 <= v -> Forall is_byte (varint v) /\ (1 <= length (varint v) <= 10)%nat).
  { intros v Hv. split; [by apply varint_bytes|apply varint_length]. }
  destruct Hn as [[Ht Hs]|[[-> E]|[-> E]]];
    [|change (int_encoding _ l) with l; split; [done|lia]..].
  pose proof (fun b => in_member_64 b _ _ Hs (member_value_in b l Hs)) as Hin.
  destruct Ht as [->|[->| ->]]; apply Hv; [apply wrap_range; lia|apply (Hin false)|apply zigzag_range, (Hin true)].
Qed.

Lemma encode_numeric enc_msg ltype m s f src l :
  numeric_member ltype (length l) -> f_data_size f = Z.of_nat (length l) ->
  bytes_at m src l -> Forall is_byte l -> os_room m s 10 ->
  call_encoder enc_msg ltype s f src m =
  Ret ((true, os_advance s (Z.of_nat (length (int_encoding ltype l)))), poke m (os_state s) (int_encoding ltype l)).
Proof.
  intros Hn Hf Hb Hl Hr. destruct (int_encoding_ok ltype l Hn Hl) as [_ Hlen].
  rewrite <- pb_write_room by (eapply os_room_le; [exact Hr|lia]).
  destruct Hn as [[Ht Hs]|[[-> E]|[-> E]]].
  - pose proof (fun b => in_member_64 b _ _ Hs (member_value_in b l Hs)) as Hin.
    destruct Ht as [->|[->| ->]]; cbn [call_encoder PB_ENCODERS nth_error Z.to_nat PB_LTYPE_VARINT PB_LTYPE_UVARINT
      PB_LTYPE_SVARINT Pos.to_nat Pos.iter_op Nat.add]; unfold int_encoding; simpl Z.eqb; cbv iota.
    + change (pb_enc_varint s f src m = pb_write s (WLocal (varint (u64 (member_value true l)))) (Z.of_nat (length (varint (u64 (member_value true l))))) m).
      unfold pb_enc_varint, bind. rewrite Hf, int_value_run by done. apply (f_equal (fun c => c m)), pb_encode_varint_write, wrap_range. lia.
    + change (pb_enc_uvarint s f src m = pb_write s (WLocal (varint (member_value false l))) (Z.of_nat (length (varint (member_value false l)))) m).
      unfold pb_enc_uvarint, bind. rewrite Hf, int_value_run by done. apply (f_equal (fun c => c m)), pb_encode_varint_write, (Hin false).
    + change (pb_enc_svarint s f src m = pb_write s (WLocal (varint (zigzag (member_value true l)))) (Z.of_nat (length (varint (zigzag (member_value true l))))) m).
      unfold pb_enc_svarint, bind. rewrite Hf, int_value_run by done. unfold pb_encode_svarint.
      apply (f_equal (fun c => c m)), pb_encode_varint_write, zigzag_range, (Hin true).
  - change (pb_encode_fixed32 s src m = pb_write s (WLocal l) (Z.of_nat (length l)) m). rewrite E. by apply encode_fixed32_run.
  - change (pb_encode_fixed64 s src m = pb_write s (WLocal l) (Z.of_nat (length l)) m). rewrite E. by apply encode_fixed64_run.
Qed.

Lemma decode_numeric dec_msg fuel ltype m s f dest l rest :
  numeric_member ltype (length l) -> f_data_size f = Z.of_nat (length l) -> Forall is_byte l ->
  stream_over m s (int_encoding ltype l ++ rest) -> mapped_range m dest (Z.of_nat (length l)) ->
  call_decoder dec_msg fuel ltype s f dest m =
  Ret ((true, advance s (Z.of_nat (length (int_encoding ltype l)))), poke m dest l).
Proof.
  intros Hn Hf Hl Hs Hd. destruct Hn as [[Ht Hsz]|[[-> E]|[-> E]]].
  - pose proof (fun b => member_value_in b l Hsz) as Hmem. pose proof (fun b => in_member_64 b _ _ Hsz (Hmem b)) as Hin.
    pose proof (fun b => member_value_bytes b l Hsz Hl) as Hbytes.
    destruct Ht as [->|[->| ->]]; unfold int_encoding in *; simpl Z.eqb in *; cbv iota in *.
    + change (pb_dec_varint s f dest m = Ret ((true, advance s (Z.of_nat (length (varint (u64 (member_value true l)))))), poke m dest l)).
      rewrite (dec_varint_run m s f dest (length l) (u64 (member_value true l)) rest) by (done || apply wrap_range; lia).
      by rewrite (int_of_varint_signed _ _ Hsz (Hmem true)), (Hmem true), (Hbytes true).
    + change (pb_dec_uvarint s f dest m = Ret ((true, advance s (Z.of_nat (length (varint (member_value false l))))), poke m dest l)).
      rewrite (dec_uvarint_run m s f dest (length l) (member_value false l) rest) by (done || apply (Hin false)).
      by rewrite (Hmem false), (Hbytes false).
    + change (pb_dec_svarint s f dest m = Ret ((true, advance s (Z.of_nat (length (varint (zigzag (member_value true l)))))), poke m dest l)).
      rewrite (dec_svarint_run m s f dest (length l) (member_value true l) rest) by (done || apply (Hin true)).
      by rewrite (Hmem true), (Hbytes true).
  - change (int_encoding PB_LTYPE_FIXED32 l) with l in *. rewrite E in *. by apply (decode_fixed32_run _ _ _ _ rest).
  - change (int_encoding PB_LTYPE_FIXED64 l) with l in *. rewrite E in *. by apply (decode_fixed64_run _ _ _ _ rest).
Qed.
(** ** Strings and bytes in the structure *)

(** The member and the input do not overlap. *)
Definition no_overlap (dest n src k : Z) : Prop := forall x, range dest n x -> range src k x -> False.

Lemma stream_over_poke m s l a l' :
  stream_over m s l -> no_overlap a (Z.of_nat (length l')) (is_state s) (Z.of_nat (length l)) ->
  stream_over (poke m a l') s l.
Proof.
  intros [Hc Hl Hb Hr] Ha. split; [done|done| |done]. apply bytes_at_poke_out; [|done]. exact Ha.
Qed.

Lemma dec_string_run m s f dest str rest :
  let n := Z.of_nat (length str) in
  PB_ATYPE (f_type f) = PB_ATYPE_STATIC -> n + 1 < 2 ^ 32 -> stream_over m s (varint n ++ str ++ rest) ->
  mapped_range m dest (f_data_size f) -> no_overlap dest (f_data_size f) (is_state s) (bytes_left s) ->
  pb_dec_string s f dest m =
  if f_data_size f <? n + 1 then Ret ((false, is_error (advance s (Z.of_nat (length (varint n)))) "string overflow"), m)
  else Ret ((true, advance s (Z.of_nat (length (varint n ++ str)))), poke m dest (str ++ [0])).
Proof.
  intros n. assert (En : n = Z.of_nat (length str)) by done. intros Hst Hn Hs Hd Ha. unfold pb_dec_string. unfold bind at 1.
  rewrite (decode_varint32_app m s n _ ltac:(lia) Hs). cbn [negb]. rewrite (wrap_small 32 (n + 1)) by lia.
  destruct (Z.ltb_spec (n + 1) n); [lia|]. rewrite Hst. change (PB_ATYPE_STATIC =? PB_ATYPE_POINTER) with false. cbv iota.
  pose proof (stream_over_advance _ _ _ _ Hs) as Hs1. pose proof (so_left _ _ _ Hs) as Hleft.
  destruct (Z.ltb_spec (f_data_size f) (n + 1)); unfold bind at 1, ret at 1; cbn [negb]; [done|].
  unfold bind at 1. rewrite (read_mem m _ dest str rest Hs1).
  - unfold bind, ret. rewrite store8_poke.
    + rewrite poke_app, advance_advance, length_app, Nat2Z.inj_add. done.
    + apply mapped_poke; [eapply mapped_range_sub; [exact Hd|lia..]|eapply mapped_range_at; [exact Hd|lia]].
  - eapply mapped_range_sub; [exact Hd|lia..].
  - intros x Hx Hy. apply (Ha x); unfold range, advance in *; simpl in *; rewrite ?Hleft, ?length_app in *; lia.
Qed.

Lemma dec_bytes_run m s f dest str rest :
  let n := Z.of_nat (length str) in
  PB_ATYPE (f_type f) = PB_ATYPE_STATIC -> n < 2 ^ 32 -> stream_over m s (varint n ++ str ++ rest) ->
  mapped_range m dest (f_data_size f) -> no_overlap dest (f_data_size f) (is_state s) (bytes_left s) ->
  pb_dec_bytes s f dest m =
  if f_data_size f <? n + 4 then Ret ((false, is_error (advance s (Z.of_nat (length (varint n)))) "bytes overflow"), m)
  else Ret ((true, advance s (Z.of_nat (length (varint n ++ str)))), poke m dest (le_bytes 4 n ++ str)).
Proof.
  intros n. assert (En : n = Z.of_nat (length str)) by done. intros Hst Hn Hs Hd Ha. unfold pb_dec_bytes. unfold bind at 1.
  rewrite (decode_varint32_app m s n _ ltac:(lia) Hs). cbn [negb].
  unfold PB_SIZE_MAX, PB_SIZE_BITS, PB_BYTES_ARRAY_T_ALLOCSIZE, off_bytes_bytes, off_bytes_size.
  destruct (Z.ltb_spec (2 ^ 32 - 1) n); [lia|]. destruct (Z.ltb_spec (n + 4) n); [lia|].
  rewrite Hst. change (PB_ATYPE_STATIC =? PB_ATYPE_POINTER) with false. cbv iota.
  pose proof (stream_over_advance _ _ _ _ Hs) as Hs1. pose proof (so_left _ _ _ Hs) as Hleft.
  destruct (Z.ltb_spec (f_data_size f) (n + 4)); unfold bind at 1, ret at 1; cbn [negb]; [done|].
  rewrite Z.add_0_r. unfold bind at 1, store_le. rewrite store_bytes_poke.
  2:{ rewrite length_le_bytes. eapply mapped_range_sub; [exact Hd|lia..]. }
  assert (Hm1 : mapped_range (poke m dest (le_bytes 4 n)) dest (f_data_size f)).
  { apply mapped_range_poke; [|done]. rewrite length_le_bytes. eapply mapped_range_sub; [exact Hd|lia..]. }
  unfold bind. rewrite (read_mem _ _ (dest + 4) str rest).
  - unfold ret. rewrite poke_app, advance_advance, length_app, length_le_bytes, Nat2Z.inj_add. done.
  - apply stream_over_poke; [exact Hs1|]. rewrite length_le_bytes. intros x Hx Hy.
    apply (Ha x); unfold range, advance in *; simpl in *; rewrite ?Hleft, ?length_app in *; lia.
  - eapply mapped_range_sub; [exact Hm1|lia..].
  - intros x Hx Hy. apply (Ha x); unfold range, advance in *; simpl in *; rewrite ?Hleft, ?length_app in *; lia.
Qed.

(** * Claims *)

(** a numeric member of any type and size the code accepts - signed,
    unsigned and zig-zag integers of 1, 2, 4 or 8 bytes, fixed 32- and 64-bit
    values - survives encoding and decoding: whatever bytes it holds, the
    encoder of its type writes one to ten bytes, from which the decoder of its
    type restores exactly those bytes in another place. *)
Theorem numeric_field_roundtrip enc_msg dec_msg fuel ltype m s f src dest l :
  numeric_member ltype (length l) -> f_data_size f = Z.of_nat (length l) ->
  bytes_at m src l -> Forall is_byte l -> os_room m s 10 -> mapped_range m dest (Z.of_nat (length l)) ->
  exists k m', 1 <= k <= 10 /\
    call_encoder enc_msg ltype s f src m = Ret ((true, os_advance s k), m') /\
    frame (range (os_state s) k) m m' /\
    call_decoder dec_msg fuel ltype (pb_istream_from_buffer (os_state s) k) f dest m' =
      Ret ((true, advance (pb_istream_from_buffer (os_state s) k) k), poke m' dest l).
Proof.
  intros Hn Hf Hb Hl Hr Hd. destruct (int_encoding_ok ltype l Hn Hl) as [Hbytes Hlen].
  assert (Hm : mapped_range m (os_state s) (Z.of_nat (length (int_encoding ltype l)))).
  { eapply mapped_range_sub; [apply (room_mapped _ _ _ Hr)|lia..]. }
  exists (Z.of_nat (length (int_encoding ltype l))), (poke m (os_state s) (int_encoding ltype l)).
  split; [lia|]. split; [by apply encode_numeric|]. split; [by apply frame_poke|].
  apply (decode_numeric _ _ _ _ _ _ _ _ []); [done|done|done| |by apply mapped_range_poke].
  rewrite app_nil_r. by apply poke_stream.
Qed.

(** an unsigned number on the wire is stored in a member of 1, 2, 4 or 8
    bytes exactly when it fits, and refused with "integer too large"
    otherwise; either way the member holds its low bytes. *)
Theorem pb_dec_uvarint_exact m s f dest n v l :
  int_size n -> f_data_size f = Z.of_nat n -> 0 <= v < 2 ^ 64 -> stream_over m s (varint v ++ l) ->
  mapped_range m dest (Z.of_nat n) ->
  let s' := advance s (Z.of_nat (length (varint v))) in
  pb_dec_uvarint s f dest m =
  Ret (if v <? 2 ^ (8 * Z.of_nat n) then (true, s') else (false, is_error s' "integer too large"),
       poke m dest (le_bytes n v)).
Proof.
  intros Hn Hf Hv Hs Hd s'. rewrite (dec_uvarint_run m s f dest n v l) by done. unfold in_member, checked.
  by destruct (Z.leb_spec 0 v); [|lia].
Qed.

(** a signed number of at most 4 bytes is taken from the low 32 bits of
    the number on the wire, read in two's complement: an [int32] member
    accepts every input, narrower ones those in their range. *)
Theorem pb_dec_varint_truncates m s f dest n v l :
  int_size n -> (n <= 4)%nat -> f_data_size f = Z.of_nat n -> 0 <= v < 2 ^ 64 -> stream_over m s (varint v ++ l) ->
  mapped_range m dest (Z.of_nat n) ->
  let s' := advance s (Z.of_nat (length (varint v))) in
  pb_dec_varint s f dest m =
  Ret (if in_member true n (sext 32 v) then (true, s') else (false, is_error s' "integer too large"),
       poke m dest (le_bytes n (sext 32 v))) /\
  (n = 4%nat -> in_member true n (sext 32 v) = true).
Proof.
  intros Hn H4 Hf Hv Hs Hd s'. rewrite (dec_varint_run m s f dest n v l) by done.
  assert (E : int_of_varint n v = sext 32 v) by (unfold int_of_varint; destruct (Nat.eqb_spec n 8); [lia|done]).
  rewrite E. split; [done|]. intros ->. rewrite in_member_eq by done. apply Z.eqb_eq.
  change (8 * Z.of_nat 4) with 32. symmetry. apply sext_small; [lia|]. apply sext_range. lia.
Qed.

(** C38: a string is stored in its member with a terminator when both fit and
    refused with "string overflow", the member untouched, when they do not. *)
Theorem pb_dec_string_exact m s f dest str rest :
  let n := Z.of_nat (length str) in
  PB_ATYPE (f_type f) = PB_ATYPE_STATIC -> n + 1 < 2 ^ 32 -> stream_over m s (varint n ++ str ++ rest) ->
  mapped_range m dest (f_data_size f) -> no_overlap dest (f_data_size f) (is_state s) (bytes_left s) ->
  pb_dec_string s f dest m =
  if f_data_size f <? n + 1 then Ret ((false, is_error (advance s (Z.of_nat (length (varint n)))) "string overflow"), m)
  else Ret ((true, advance s (Z.of_nat (length (varint n ++ str)))), poke m dest (str ++ [0])).
Proof. apply dec_string_run. Qed.

(** a byte array is stored as its size and its bytes when they fit into
    the member, and refused with "bytes overflow" when they do not. *)
Theorem pb_dec_bytes_exact m s f dest str rest :
  let n := Z.of_nat (length str) in
  PB_ATYPE (f_type f) = PB_ATYPE_STATIC -> n < 2 ^ 32 -> stream_over m s (varint n ++ str ++ rest) ->
  mapped_range m dest (f_data_size f) -> no_overlap dest (f_data_size f) (is_state s) (bytes_left s) ->
  pb_dec_bytes s f dest m =
  if f_data_size f <? n + 4 then Ret ((false, is_error (advance s (Z.of_nat (length (varint n)))) "bytes overflow"), m)
  else Ret ((true, advance s (Z.of_nat (length (varint n ++ str)))), poke m dest (le_bytes 4 n ++ str)).
Proof. apply dec_bytes_run. Qed.
End Values.

(** * Concrete inputs *)

Section FieldWitnesses.
#[local] Existing Instance no_callbacks.

(** 16 bytes for the output at 4096, input or a member at 8192, the other
    member at 12288. *)
Definition f_mem (input : list Z) : mem :=
  mem_add (mem_add (mem_of 4096 (repeat 0 16)) 8192 input) 12288 (repeat 0xEE 8).

Lemma f_stream n l :
  n = Z.of_nat (length l) -> bytes_atb (f_mem l) 8192 l = true -> forallb is_byteb l = true ->
  stream_over (f_mem l) (pb_istream_from_buffer 8192 n) l.
Proof. intros -> ? ?. by apply buffer_stream_over. Qed.

Definition f_int (ltype size : Z) : pb_field_t := mkField 1 (PB_HTYPE_REQUIRED + ltype) 0 0 size 0 0.

(** A negative [sint32]. *)
Lemma numeric_field_roundtrip_witness :
  exists k m', 1 <= k <= 10 /\
    call_encoder (fun _ _ _ => undef) PB_LTYPE_SVARINT (pb_ostream_from_buffer 4096 16) (f_int PB_LTYPE_SVARINT 4) 8192
      (f_mem [0x38; 0xFF; 0xFF; 0xFF]) = Ret ((true, os_advance (pb_ostream_from_buffer 4096 16) k), m') /\
    frame (range 4096 k) (f_mem [0x38; 0xFF; 0xFF; 0xFF]) m' /\
    call_decoder (fun _ _ _ => undef) 1 PB_LTYPE_SVARINT (pb_istream_from_buffer 4096 k) (f_int PB_LTYPE_SVARINT 4) 12288 m' =
      Ret ((true, advance (pb_istream_from_buffer 4096 k) k), poke m' 12288 [0x38; 0xFF; 0xFF; 0xFF]).
Proof.
  refine (numeric_field_roundtrip _ _ 1 PB_LTYPE_SVARINT (f_mem [0x38; 0xFF; 0xFF; 0xFF]) (pb_ostream_from_buffer 4096 16)
    (f_int PB_LTYPE_SVARINT 4) 8192 12288 [0x38; 0xFF; 0xFF; 0xFF] _ eq_refl _ _ _ _); try solve_mem.
  - left. split; [by right; right|]. right. right. by left.
  - split; [done|done|simpl; lia|solve_mem].
Defined.

(** 300 does not fit one byte. *)
Lemma pb_dec_uvarint_exact_witness :
  pb_dec_uvarint (pb_istream_from_buffer 8192 2) (f_int PB_LTYPE_UVARINT 1) 12288 (f_mem [0xAC; 0x02]) =
  Ret ((false, is_error (advance (pb_istream_from_buffer 8192 2) 2) "integer too large"),
       poke (f_mem [0xAC; 0x02]) 12288 [44]).
Proof.
  refine (pb_dec_uvarint_exact (f_mem [0xAC; 0x02]) (pb_istream_from_buffer 8192 2) (f_int PB_LTYPE_UVARINT 1) 12288 1 300 []
    _ eq_refl _ _ _); [by left|lia| |solve_mem].
  (apply (f_stream _ [0xAC; 0x02]); vm_compute; reflexivity).
Defined.

(** 2^32 + 5 is taken for 5. *)
Lemma pb_dec_varint_truncates_witness :
  pb_dec_varint (pb_istream_from_buffer 8192 5) (f_int PB_LTYPE_VARINT 4) 12288 (f_mem [0x85; 0x80; 0x80; 0x80; 0x10]) =
  Ret ((true, advance (pb_istream_from_buffer 8192 5) 5),
       poke (f_mem [0x85; 0x80; 0x80; 0x80; 0x10]) 12288 [5; 0; 0; 0]).
Proof.
  refine (proj1 (pb_dec_varint_truncates (f_mem [0x85; 0x80; 0x80; 0x80; 0x10]) (pb_istream_from_buffer 8192 5)
    (f_int PB_LTYPE_VARINT 4) 12288 4 (2 ^ 32 + 5) [] _ _ eq_refl _ _ _)); [by right; right; left|lia|lia| |solve_mem].
  (apply (f_stream _ [0x85; 0x80; 0x80; 0x80; 0x10]); vm_compute; reflexivity).
Defined.

Lemma pb_dec_string_exact_witness :
  pb_dec_string (pb_istream_from_buffer 8192 4) (f_int PB_LTYPE_STRING 4) 12288 (f_mem [3; 97; 98; 99]) =
    Ret ((true, advance (pb_istream_from_buffer 8192 4) 4), poke (f_mem [3; 97; 98; 99]) 12288 [97; 98; 99; 0]) /\
  pb_dec_string (pb_istream_from_buffer 8192 4) (f_int PB_LTYPE_STRING 3) 12288 (f_mem [3; 97; 98; 99]) =
    Ret ((false, is_error (advance (pb_istream_from_buffer 8192 4) 1) "string overflow"), f_mem [3; 97; 98; 99]).
Proof.
  split.
  1: refine (pb_dec_string_exact (f_mem [3; 97; 98; 99]) (pb_istream_from_buffer 8192 4) (f_int PB_LTYPE_STRING 4) 12288
    [97; 98; 99] [] eq_refl _ _ _ _).
  5: refine (pb_dec_string_exact (f_mem [3; 97; 98; 99]) (pb_istream_from_buffer 8192 4) (f_int PB_LTYPE_STRING 3) 12288
    [97; 98; 99] [] eq_refl _ _ _ _).
  all: try (simpl; lia); try (apply (f_stream _ [3; 97; 98; 99]); vm_compute; reflexivity).
  all: try (simpl f_data_size; solve_mem).
  all: intros x; unfold range; simpl; lia.
Defined.

Lemma pb_dec_bytes_exact_witness :
  pb_dec_bytes (pb_istream_from_buffer 8192 4) (f_int PB_LTYPE_BYTES 8) 12288 (f_mem [3; 97; 98; 99]) =
    Ret ((true, advance (pb_istream_from_buffer 8192 4) 4), poke (f_mem [3; 97; 98; 99]) 12288 [3; 0; 0; 0; 97; 98; 99]).
Proof.
  refine (pb_dec_bytes_exact (f_mem [3; 97; 98; 99]) (pb_istream_from_buffer 8192 4) (f_int PB_LTYPE_BYTES 8) 12288
    [97; 98; 99] [] eq_refl _ _ _ _); [simpl; lia| |simpl f_data_size; solve_mem|].
  - (apply (f_stream _ [3; 97; 98; 99]); vm_compute; reflexivity).
  - intros x; unfold range; simpl; lia.
Defined.
End FieldWitnesses.
