(* ===== verification/PbDefects.v ===== *)
(** Inputs on which the library does what it should not: each theorem runs
    the model on concrete descriptors, memory and input. *)

From stdpp Require Import base list gmap strings.
From Stdlib Require Import ZArith Lia.
From S2P Require Import Prelude CMem PbTypes PbCommon PbIstream PbEncode PbDecode.

Section Defects.
#[local] Existing Instance no_callbacks.

(** The example memory: [size] cleared bytes of structure at [2^31 + 0x1000],
    the input at [2^31 + 0x2000]; the heap starts at [2^32] and is full at
    [limit]. *)
Definition dest_at : Z := 2 ^ 31 + 0x1000.
Definition input_at : Z := 2 ^ 31 + 0x2000.

Definition defect_mem (size : nat) (input : list Z) (limit : Z) : mem :=
  let m := mem_add (mem_of dest_at (repeat 0 size)) input_at input in
  mkMem (m_bytes m) (m_heap m) (m_brk m) (m_sp m) limit (m_junk m).

Definition defect_stream (input : list Z) : pb_istream_t :=
  pb_istream_from_buffer input_at (Z.of_nat (length input)).

(** A union of a number kept in place and a string kept on the heap, behind
    the 4-byte tag and its padding. *)
Definition union_fields : list pb_field_t :=
  [mkField 1 (PB_HTYPE_ONEOF + PB_LTYPE_FIXED32) 8 (-8) 4 0 0;
   mkField 2 (PB_ATYPE_POINTER + PB_HTYPE_ONEOF + PB_LTYPE_STRING) PB_SIZE_MAX (-8) 1 0 0].

(** The number 42, then the string "a". *)
Definition union_input : list Z := [0x0D; 42; 0; 0; 0;  0x12; 0x01; 0x61].

(** C40: replacing a number in a union by a string on the heap takes the number
    for a pointer: [pb_release_union_field] releases nothing for a static
    member and leaves its bytes, and [allocate_field] passes them to
    [realloc]. Each of the two fields alone is decoded. *)
Theorem union_static_then_pointer :
  let run_on input := pb_decode 2 (defect_stream input) union_fields dest_at (defect_mem 16 input (2 ^ 40)) in
  run_on union_input = Undef /\
  (exists s m, run_on (take 5 union_input) = Ret ((true, s), m)) /\
  (exists s m, run_on (drop 5 union_input) = Ret ((true, s), m)).
Proof. split; [vm_compute; reflexivity|]. split; eexists _, _; vm_compute; reflexivity. Qed.

(** Strings on the heap, in an array on the heap: the count, padding, the
    pointer. *)
Definition strings_fields : list pb_field_t :=
  [mkField 1 (PB_ATYPE_POINTER + PB_HTYPE_REPEATED + PB_LTYPE_STRING) 8 (-8) 8 0 0].

(** "a" and "b". *)
Definition strings_input : list Z := [0x0A; 0x01; 0x61;  0x0A; 0x01; 0x62].

(** an array entry is counted before its storage is allocated. When the
    reallocation for the second string fails, [pb_decode] releases two
    entries of an array of one and reads behind it. With one string in the
    same heap, or both in a larger one, it succeeds. *)
Theorem repeated_counted_before_allocated :
  let run_on input limit := pb_decode 2 (defect_stream input) strings_fields dest_at (defect_mem 16 input limit) in
  run_on strings_input (2 ^ 32 + 40) = Undef /\
  (exists s m, run_on (take 3 strings_input) (2 ^ 32 + 40) = Ret ((true, s), m)) /\
  (exists s m, run_on strings_input (2 ^ 40) = Ret ((true, s), m)).
Proof. split; [vm_compute; reflexivity|]. split; eexists _, _; vm_compute; reflexivity. Qed.

(** the test for an absent proto3 field compares as many bytes as the
    pointee has, also for fields kept on the heap, of which the structure
    holds only the pointer: it reads behind a structure that ends with a null
    pointer to a message of 16 bytes, and takes a pointer to a 4-byte number
    for null when the low half of the address is zero. *)
Theorem proto3_check_of_pointers :
  let field ltype size := mkField 1 (PB_ATYPE_POINTER + PB_HTYPE_OPTIONAL + ltype) 0 0 size 0 0 in
  pb_check_proto3_default_value 1 (field PB_LTYPE_SUBMESSAGE 16) dest_at (mem_of dest_at (le_bytes 8 0)) = Undef /\
  pb_check_proto3_default_value 1 (field PB_LTYPE_VARINT 4) dest_at (mem_of dest_at (le_bytes 8 (2 ^ 32))) =
    Ret (true, mem_of dest_at (le_bytes 8 (2 ^ 32))).
Proof. split; vm_compute; reflexivity. Qed.

(** Two booleans in an array without a counter, then a boolean with a default
    value of its own kept by the program. *)
Definition flags_fields : list pb_field_t :=
  [mkField 1 (PB_HTYPE_REPEATED + PB_LTYPE_VARINT) 0 0 1 2 0].

(** setting the defaults of a fixed-count array writes a 4-byte zero to
    its first bytes, past the end of an array of fewer than four: the two
    bytes that follow an array of two booleans are cleared. *)
Theorem fixed_count_default_overflow :
  run (pb_message_set_to_defaults 1 flags_fields dest_at ;;; load_bytes 4 dest_at)
    (mem_of dest_at [1; 1; 7; 7]) = Some [0; 0; 0; 0] /\
  pb_message_set_to_defaults 1 flags_fields dest_at (mem_of dest_at [1; 1]) = Undef.
Proof. split; vm_compute; reflexivity. Qed.
End Defects.
