(* ===== verification/PbMessage.v ===== *)
(** What a message structure holds, independently of where it lies: the values
    of its members, the bytes they are encoded to, and the descriptors for
    which encoding and decoding are inverse to each other. *)

From stdpp Require Import base list gmap strings.
From Stdlib Require Import ZArith Lia.
From S2P Require Import Prelude CMem PbTypes PbCommon PbIter PbIstream PbOstream PbWire PbEncode PbEncodeSpec PbDecode PbDecodeSafe PbDecodeMsg PbFieldProps.

(** * Values *)

(** The value of a member: the bytes of a number, the characters of a string,
    the contents of a byte array - or the members of a submessage, [None]
    where an optional member is absent. *)
Inductive value : Type :=
| VBytes (l : list Z)
| VMessage (vs : list (option value)).

(** ** Members that are not messages *)

(** A value that the member can hold. *)
Definition scalar_ok (f : pb_field_t) (l : list Z) : bool :=
  let t := PB_LTYPE (f_type f) in
  let n := Z.of_nat (length l) in
  forallb is_byteb l &&
  (if t <=? PB_LTYPE_SVARINT then (n =? f_data_size f) && ((n =? 1) || (n =? 2) || (n =? 4) || (n =? 8))
   else if t =? PB_LTYPE_FIXED32 then (n =? f_data_size f) && (n =? 4)
   else if t =? PB_LTYPE_FIXED64 then (n =? f_data_size f) && (n =? 8)
   else if t =? PB_LTYPE_BYTES then n + off_bytes_bytes <=? f_data_size f
   else if t =? PB_LTYPE_STRING then (n + 1 <=? f_data_size f) && forallb truthy l
   else if t =? PB_LTYPE_FIXED_LENGTH_BYTES then (n =? f_data_size f) && (0 <? n)
   else false).

(** The bytes of the member ... *)
Definition scalar_image (f : pb_field_t) (l : list Z) : list Z :=
  let t := PB_LTYPE (f_type f) in
  if t =? PB_LTYPE_STRING then l ++ [0]
  else if t =? PB_LTYPE_BYTES then le_bytes 4 (Z.of_nat (length l)) ++ l
  else l.

(** ... and of its encoding. *)
Definition scalar_bytes (f : pb_field_t) (l : list Z) : list Z :=
  let t := PB_LTYPE (f_type f) in
  if t <=? PB_LTYPE_LAST_PACKABLE then int_encoding t l else varint (Z.of_nat (length l)) ++ l.

Lemma ltype_nonneg f : 0 <= PB_LTYPE (f_type f).
Proof. apply Z.land_nonneg. by right. Qed.

(** The cases of a scalar. *)
Inductive scalar_case (f : pb_field_t) (l : list Z) : Prop :=
| case_numeric :
    numeric_member (PB_LTYPE (f_type f)) (length l) -> f_data_size f = Z.of_nat (length l) ->
    scalar_image f l = l -> scalar_bytes f l = int_encoding (PB_LTYPE (f_type f)) l -> scalar_case f l
| case_bytes :
    PB_LTYPE (f_type f) = PB_LTYPE_BYTES -> Z.of_nat (length l) + 4 <= f_data_size f ->
    scalar_image f l = le_bytes 4 (Z.of_nat (length l)) ++ l ->
    scalar_bytes f l = varint (Z.of_nat (length l)) ++ l -> scalar_case f l
| case_string :
    PB_LTYPE (f_type f) = PB_LTYPE_STRING -> Z.of_nat (length l) + 1 <= f_data_size f -> 0 ∉ l ->
    scalar_image f l = l ++ [0] -> scalar_bytes f l = varint (Z.of_nat (length l)) ++ l -> scalar_case f l
| case_fixed_length :
    PB_LTYPE (f_type f) = PB_LTYPE_FIXED_LENGTH_BYTES -> f_data_size f = Z.of_nat (length l) -> l <> [] ->
    scalar_image f l = l -> scalar_bytes f l = varint (Z.of_nat (length l)) ++ l -> scalar_case f l.

Lemma scalar_cases f l : scalar_ok f l = true -> Forall is_byte l /\ scalar_case f l.
Proof.
  unfold scalar_ok. rewrite andb_true_iff. intros [Hb Hc]. split; [by apply is_bytesb_true|].
  pose proof (ltype_nonneg f) as H0. pose proof (case_numeric f l) as C1. pose proof (case_bytes f l) as C2.
  pose proof (case_string f l) as C3. pose proof (case_fixed_length f l) as C4.
  unfold scalar_image, scalar_bytes, numeric_member, int_size in *.
  cbv zeta in *. revert Hc H0 C1 C2 C3 C4. generalize (PB_LTYPE (f_type f)). intros t Hc H0 C1 C2 C3 C4.
  unfold PB_LTYPE_SVARINT, PB_LTYPE_LAST_PACKABLE in Hc.
  destruct (Z.leb_spec t 2).
  { assert (t = 0 \/ t = 1 \/ t = 2) as Ht by lia. apply andb_true_iff in Hc as [Hs Hn]. rewrite !orb_true_iff in Hn.
    apply C1; [left; split; [unfold PB_LTYPE_VARINT, PB_LTYPE_UVARINT, PB_LTYPE_SVARINT; lia|lia]|lia| |];
      by destruct Ht as [->|[->| ->]]. }
  destruct (Z.eqb_spec t PB_LTYPE_FIXED32) as [E|].
  { subst t. apply andb_true_iff in Hc as [Hs Hn]. apply C1; [right; left; split; [done|lia]|lia|done|done]. }
  destruct (Z.eqb_spec t PB_LTYPE_FIXED64) as [E|].
  { subst t. apply andb_true_iff in Hc as [Hs Hn]. apply C1; [right; right; split; [done|lia]|lia|done|done]. }
  destruct (Z.eqb_spec t PB_LTYPE_BYTES) as [E|].
  { subst t. unfold off_bytes_bytes in Hc. apply C2; [done|lia|done|done]. }
  destruct (Z.eqb_spec t PB_LTYPE_STRING) as [E|].
  { subst t. apply andb_true_iff in Hc as [Hs Hn]. apply C3; [done|lia| |done|done]. intros Hin.
    rewrite forallb_forall in Hn. by apply list_elem_of_In, Hn in Hin. }
  destruct (Z.eqb_spec t PB_LTYPE_FIXED_LENGTH_BYTES) as [E|]; [|done].
  subst t. apply andb_true_iff in Hc as [Hs Hn]. apply C4; [done|lia| |done|done]. by intros ->.
Qed.

Lemma scalar_image_ok f l :
  scalar_ok f l = true ->
  Forall is_byte (scalar_image f l) /\ Z.of_nat (length (scalar_image f l)) <= f_data_size f.
Proof.
  intros Hok. destruct (scalar_cases f l Hok) as [Hb [H1 H2 -> H4|H1 H2 -> H4|H1 H2 H3 -> H4|H1 H2 H3 -> H4]];
    rewrite ?Forall_app, ?length_app, ?length_le_bytes; (split; [split_and?; try done|simpl; lia]).
  - apply le_bytes_is_byte.
  - by repeat constructor.
Qed.

Lemma scalar_bytes_ok f l : scalar_ok f l = true -> Forall is_byte (scalar_bytes f l).
Proof.
  intros Hok. destruct (scalar_cases f l Hok) as [Hb [H1 H2 H3 ->|H1 H2 H3 ->|H1 H2 H3 H4 ->|H1 H2 H3 H4 ->]];
    [by apply int_encoding_ok|..]; apply Forall_app; (split; [apply varint_bytes; lia|done]).
Qed.

(** * Messages *)

Definition is_message (f : pb_field_t) : bool := PB_LTYPE (f_type f) =? PB_LTYPE_SUBMESSAGE.
Definition is_optional (f : pb_field_t) : bool := PB_HTYPE (f_type f) =? PB_HTYPE_OPTIONAL.

(** The [bool] at [z] is [b]. *)
Definition flag_is (m : mem) (z : Z) (b : bool) : Prop := exists x, m_bytes m !! z = Some x /\ truthy (u8 x) = b.

Section Messages.
Context `{Program}.

(** ** The contents of a structure *)

(** The data of the member [f] at [d]. *)
Definition value_holds (sub : list pb_field_t -> Z -> list (option value) -> Prop)
    (m : mem) (f : pb_field_t) (d : Z) (v : value) : Prop :=
  match v with
  | VBytes l => scalar_ok f l = true /\ bytes_at m d (scalar_image f l)
  | VMessage vs => is_message f = true /\ exists fields, field_array (f_ptr f) = Some fields /\ sub fields d vs
  end.

(** ... and its [has] flag at [z]. *)
Definition field_holds (sub : list pb_field_t -> Z -> list (option value) -> Prop)
    (m : mem) (f : pb_field_t) (d z : Z) (v : option value) : Prop :=
  (is_optional f = true -> flag_is m z (bool_decide (is_Some v))) /\
  match v with
  | None => is_optional f = true
  | Some v => value_holds sub m f d v
  end.

(** The structure at [a] holds the values [vs]: one for each descriptor, down
    to [n] levels of submessages. *)
Fixpoint holds (n : nat) (m : mem) (fields : list pb_field_t) (a : Z) (vs : list (option value)) : Prop :=
  match n with
  | O => False
  | S n' =>
      length vs = length fields /\
      forall i v, vs !! i = Some v ->
        field_holds (holds n' m) m (field_at fields i) (a + data_pos fields i) (a + size_pos fields i) v
  end.

(** No optional member is present, at any level. *)
Fixpoint fresh (n : nat) (m : mem) (fields : list pb_field_t) (a : Z) : Prop :=
  match n with
  | O => False
  | S n' =>
      forall i, (i < length fields)%nat ->
        let f := field_at fields i in
        (is_optional f = true -> flag_is m (a + size_pos fields i) false) /\
        (is_message f = true -> exists fields', field_array (f_ptr f) = Some fields' /\
           fresh n' m fields' (a + data_pos fields i))
  end.

(** ** Its encoding *)

Definition value_bytes (sub : list pb_field_t -> list (option value) -> list Z) (f : pb_field_t) (v : value) : list Z :=
  match v with
  | VBytes l => scalar_bytes f l
  | VMessage vs =>
      let l := sub (default [] (field_array (f_ptr f))) vs in varint (Z.of_nat (length l)) ++ l
  end.

Definition field_bytes (sub : list pb_field_t -> list (option value) -> list Z) (f : pb_field_t) (v : option value) : list Z :=
  match v with
  | None => []
  | Some v => tag_bytes (default 0 (wire_type_of (PB_LTYPE (f_type f)))) (f_tag f) ++ value_bytes sub f v
  end.

(** The members that are present, in the order of the descriptors. *)
Fixpoint message_bytes (n : nat) (fields : list pb_field_t) (vs : list (option value)) : list Z :=
  match n with
  | O => []
  | S n' => concat (imap (fun i v => field_bytes (message_bytes n') (field_at fields i) v) vs)
  end.

(** ** Descriptors of messages that survive the round trip *)

(** The parts of the structure that entry [i] uses: its data and its flag. *)
Definition data_span (fields : list pb_field_t) (i : nat) : Z * Z := (data_pos fields i, f_data_size (field_at fields i)).
Definition flag_span (fields : list pb_field_t) (i : nat) : Z * Z :=
  (size_pos fields i, if is_optional (field_at fields i) then 1 else 0).

Definition apart (p q : Z * Z) : bool :=
  (fst p + snd p <=? fst q) || (fst q + snd q <=? fst p) || (snd p <=? 0) || (snd q <=? 0).

Definition fields_apart (fields : list pb_field_t) (i j : nat) : bool :=
  apart (data_span fields i) (flag_span fields j) &&
  (Nat.eqb i j ||
   (negb (f_tag (field_at fields i) =? f_tag (field_at fields j)) &&
    apart (data_span fields i) (data_span fields j) && apart (flag_span fields i) (flag_span fields j))).

(** A required or optional member with a valid tag. *)
Definition singular_field (sub : list pb_field_t -> bool) (f : pb_field_t) : bool :=
  ((PB_HTYPE (f_type f) =? PB_HTYPE_REQUIRED) || (is_optional f && truthy (f_size_offset f))) &&
  ((0 <? f_tag f) && (f_tag f <? 2 ^ 29)) &&
  (negb (is_message f) || sub (default [] (field_array (f_ptr f)))).

(** Every member is required or has a flag; tags and places are distinct. *)
Fixpoint singular_message (n : nat) (fields : list pb_field_t) : bool :=
  match n with
  | O => false
  | S n' =>
      (Z.of_nat (length fields) <? 2 ^ 32) &&
      forallb (fun i => singular_field (singular_message n') (field_at fields i) &&
                        forallb (fields_apart fields i) (seq 0 (length fields)))
              (seq 0 (length fields))
  end.

(** ** What the descriptors say *)
Context (readable : Z -> Z -> bool).

(** Entry [i] of a message of [size] bytes with submessages of depth [n]. *)
Record singular (n : nat) (fields : list pb_field_t) (size : Z) (i : nat) : Prop := {
  sg_tags : tags_ok fields;
  sg_static : PB_ATYPE (f_type (field_at fields i)) = PB_ATYPE_STATIC;
  sg_rule : (PB_HTYPE (f_type (field_at fields i)) = PB_HTYPE_REQUIRED /\ is_optional (field_at fields i) = false) \/
            (PB_HTYPE (f_type (field_at fields i)) = PB_HTYPE_OPTIONAL /\ is_optional (field_at fields i) = true /\
             f_size_offset (field_at fields i) <> 0);
  sg_tag : 0 < f_tag (field_at fields i) < 2 ^ 29;
  sg_size : 0 <= f_data_size (field_at fields i);
  sg_data : 0 <= data_pos fields i /\ data_pos fields i + f_data_size (field_at fields i) <= size;
  sg_flag : is_optional (field_at fields i) = true -> 0 <= size_pos fields i < size;
  sg_extension : PB_LTYPE (f_type (field_at fields i)) <> PB_LTYPE_EXTENSION;
  sg_sub : is_message (field_at fields i) = true -> f_ptr (field_at fields i) <> 0 /\
           exists fields', field_array (f_ptr (field_at fields i)) = Some fields' /\
             msg_fits readable n fields' (f_data_size (field_at fields i)) = true /\
             singular_message n fields' = true;
  sg_default : is_message (field_at fields i) = false -> f_ptr (field_at fields i) <> 0 ->
               readable (f_ptr (field_at fields i)) (f_data_size (field_at fields i)) = true;
}.

Lemma size_pos_offset fields i :
  tags_ok fields -> (i < length fields)%nat ->
  (forall j, (j < length fields)%nat -> PB_HTYPE (f_type (field_at fields j)) <> PB_HTYPE_ONEOF) ->
  size_pos fields i = data_pos fields i + f_size_offset (field_at fields i).
Proof.
  intros Ht Hi Hone. unfold size_pos, data_pos. destruct i as [|i]; [done|]. rewrite iter_at_S.
  destruct (iter_at_pos fields 0 Ht i ltac:(lia)) as (Hs & Hp & Hd). unfold pb_field_iter_next, it_field. rewrite Hs, Hp.
  pose proof (field_at_tag fields Ht i ltac:(lia)). pose proof (field_at_tag fields Ht (S i) Hi).
  destruct (Z.eqb_spec (f_tag (field_at fields i)) 0); [done|]. destruct (Z.eqb_spec (f_tag (field_at fields (S i))) 0); [done|].
  assert (same_union (field_at fields i) (field_at fields (S i)) = false) as ->; [|done].
  unfold same_union. pose proof (Hone i ltac:(lia)).
  by destruct (Z.eqb_spec (PB_HTYPE (f_type (field_at fields i))) PB_HTYPE_ONEOF).
Qed.

Lemma singular_at n fields size :
  msg_fits readable (S n) fields size = true -> singular_message (S n) fields = true ->
  Z.of_nat (length fields) < 2 ^ 32 /\ (0 < length fields)%nat /\
  (forall i, (i < length fields)%nat -> singular n fields size i) /\
  (forall i j, (i < length fields)%nat -> (j < length fields)%nat -> fields_apart fields i j = true).
Proof.
  intros Hfit Hsm. destruct (msg_fits_inv _ _ _ _ Hfit) as (n' & E & Hpos & Ht & Hf). injection E as <-.
  cbn [singular_message] in Hsm. rewrite andb_true_iff, forallb_forall in Hsm. destruct Hsm as [Hlen Hall].
  assert (Hi : forall i, (i < length fields)%nat -> singular_field (singular_message n) (field_at fields i) = true /\
    forall j, (j < length fields)%nat -> fields_apart fields i j = true).
  { intros i Hi. assert (Hin : In i (seq 0 (length fields))) by (apply in_seq; lia). specialize (Hall i Hin). rewrite andb_true_iff, forallb_forall in Hall.
    destruct Hall as [? Hj]. split; [done|]. intros j Hlt. apply Hj, in_seq. lia. }
  split; [lia|]. split; [done|]. split; [|intros i j Hli; by apply Hi].
  intros i Hli. destruct (Hi i Hli) as [Hsf _]. unfold singular_field in Hsf. rewrite !andb_true_iff, !orb_true_iff, andb_true_iff in Hsf.
  destruct Hsf as [[Hrule Htag] Hsub]. pose proof (Hf i Hli) as Hfits. unfold field_fits, size_fits, field_extent in Hfits.
  rewrite !andb_true_iff in Hfits. destruct Hfits as ((((Hst & (H1 & H2) & H3) & H4 & H5) & Hsz) & Hty).
  assert (Hpairs : (PB_HTYPE (f_type (field_at fields i)) = PB_HTYPE_REQUIRED /\ is_optional (field_at fields i) = false) \/
    (PB_HTYPE (f_type (field_at fields i)) = PB_HTYPE_OPTIONAL /\ is_optional (field_at fields i) = true /\
     f_size_offset (field_at fields i) <> 0)).
  { unfold is_optional, truthy in *. destruct Hrule as [Hr|[Hr Ho]]; apply Z.eqb_eq in Hr; rewrite Hr; [by left|right].
    split; [done|]. split; [done|]. lia. }
  assert (Hrep : (PB_HTYPE (f_type (field_at fields i)) =? PB_HTYPE_REPEATED) = false).
  { by destruct Hpairs as [[-> _]|[-> _]]. }
  rewrite Hrep in H5. split; try done; try lia.
  - intros Hopt. unfold is_optional in Hopt. rewrite Hopt in Hsz. apply orb_true_iff in Hsz as [Hsz|Hsz]; [|lia].
    exfalso. destruct Hpairs as [[Ho _]|[Ho [_ Hoff]]]; [by rewrite Ho in Hopt|]. apply Z.eqb_eq in Hsz.
    rewrite size_pos_offset in Hsz; [lia|done|done|]. intros j Hj. destruct (Hi j Hj) as [Hsj _].
    unfold singular_field, is_optional in Hsj. rewrite !andb_true_iff, !orb_true_iff in Hsj.
    destruct Hsj as [[[Hr|Hr] _] _]; [apply Z.eqb_eq in Hr; by rewrite Hr|].
    apply andb_true_iff in Hr as [Hr _]. apply Z.eqb_eq in Hr. by rewrite Hr.
  - pose proof (type_fits_extension readable _ _ Hty) as Hext. intros E. by rewrite E in Hext.
  - unfold is_message in *. intros Hm. rewrite Hm in Hsub. apply Z.eqb_eq in Hm.
    destruct (type_fits_submessage readable _ _ Hty Hm) as (Hp & fields' & Ha & Hfit'). split; [done|].
    exists fields'. rewrite Ha in Hsub. by destruct Hsub.
  - unfold is_message, type_fits in *. intros Hm Hp. rewrite Hm in Hty. rewrite !andb_true_iff in Hty.
    destruct Hty as [_ Hty]. destruct (Z.eqb_spec (f_ptr (field_at fields i)) 0); [done|]. by apply orb_true_iff in Hty as [|].
Qed.

(** ** What the contents depend on *)

Definition same_bytes (P : Z -> Prop) (m m' : mem) : Prop := forall x, P x -> m_bytes m' !! x = m_bytes m !! x.

(** The addresses of entry [i] of a structure at [a]. *)
Definition of_entry (fields : list pb_field_t) (a : Z) (i : nat) (x : Z) : Prop :=
  range (a + data_pos fields i) (f_data_size (field_at fields i)) x \/
  (is_optional (field_at fields i) = true /\ x = a + size_pos fields i).

Lemma flag_is_same m m' z b : m_bytes m' !! z = m_bytes m !! z -> flag_is m z b -> flag_is m' z b.
Proof. intros E (x & Hx & Hb). exists x. by rewrite E. Qed.

Lemma bytes_at_same m m' a l :
  same_bytes (range a (Z.of_nat (length l))) m m' -> bytes_at m a l -> bytes_at m' a l.
Proof.
  intros Hs Hb i b Hi. pose proof (lookup_lt_Some _ _ _ Hi). rewrite Hs; [by apply Hb|]. unfold range. lia.
Qed.

Lemma of_entry_range n fields size a i x :
  singular n fields size i -> of_entry fields a i x -> range a size x.
Proof.
  intros Hsg Hx. pose proof (sg_data _ _ _ _ Hsg). pose proof (sg_flag _ _ _ _ Hsg) as Hfl. unfold range in *.
  destruct Hx as [Hx|[Ho ->]]; unfold range in *; [lia|]. specialize (Hfl Ho). lia.
Qed.

(** Different entries share nothing. *)
Lemma of_entry_apart n fields size a i j x :
  singular n fields size i -> singular n fields size j ->
  fields_apart fields i j = true -> fields_apart fields j i = true -> i <> j ->
  of_entry fields a i x -> of_entry fields a j x -> False.
Proof.
  intros Hi Hj Hij Hji Hne. unfold fields_apart, apart, data_span, flag_span in *. simpl in *.
  apply Nat.eqb_neq in Hne as Hne'. rewrite Hne' in Hij. rewrite Nat.eqb_sym, Hne' in Hji. cbn [orb] in *.
  rewrite !andb_true_iff, !orb_true_iff in Hij. rewrite !andb_true_iff, !orb_true_iff in Hji.
  unfold of_entry, range. intros [Ha|[Ho Ha]] [Hb|[Ho' Hb]]; rewrite ?Ho, ?Ho' in *; lia.
Qed.

(** The flag lies outside of the data. *)
Lemma flag_apart n fields size a i :
  singular n fields size i -> fields_apart fields i i = true -> is_optional (field_at fields i) = true ->
  ~ range (a + data_pos fields i) (f_data_size (field_at fields i)) (a + size_pos fields i).
Proof.
  intros Hi Hii Ho Hr. unfold fields_apart, apart, data_span, flag_span in *. simpl in *. rewrite Ho in *.
  rewrite !andb_true_iff, !orb_true_iff in Hii. unfold range in *. lia.
Qed.

Section Same.
Context (n : nat) (m m' : mem).
Hypothesis IHholds : forall fields d size vs, msg_fits readable n fields size = true -> singular_message n fields = true ->
  same_bytes (range d size) m m' -> holds n m fields d vs -> holds n m' fields d vs.
Hypothesis IHfresh : forall fields d size, msg_fits readable n fields size = true -> singular_message n fields = true ->
  same_bytes (range d size) m m' -> fresh n m fields d -> fresh n m' fields d.

Lemma field_holds_same fields size a i v :
  singular n fields size i -> same_bytes (of_entry fields a i) m m' ->
  field_holds (holds n m) m (field_at fields i) (a + data_pos fields i) (a + size_pos fields i) v ->
  field_holds (holds n m') m' (field_at fields i) (a + data_pos fields i) (a + size_pos fields i) v.
Proof.
  intros Hsg Hs [Hflag Hv]. split.
  { intros Ho. eapply flag_is_same; [|by apply Hflag]. apply Hs. by right. }
  destruct v as [[l|vs]|]; [| |done].
  - destruct Hv as [Hok Hb]. split; [done|]. eapply bytes_at_same; [|exact Hb]. intros x Hx. apply Hs. left.
    destruct (scalar_image_ok _ _ Hok) as [_ Hlen]. unfold range in *. lia.
  - destruct Hv as (Hm & fields' & Ha & Hsub). split; [done|]. exists fields'. split; [done|].
    destruct (sg_sub _ _ _ _ Hsg Hm) as (_ & fs & Ha' & Hfit & Hsm). rewrite Ha in Ha'. injection Ha' as <-.
    eapply IHholds; [exact Hfit|done| |done]. intros x Hx. apply Hs. by left.
Qed.

Definition entry_fresh (mm : mem) (fields : list pb_field_t) (a : Z) (i : nat) : Prop :=
  (is_optional (field_at fields i) = true -> flag_is mm (a + size_pos fields i) false) /\
  (is_message (field_at fields i) = true -> exists fields', field_array (f_ptr (field_at fields i)) = Some fields' /\
     fresh n mm fields' (a + data_pos fields i)).

Lemma entry_fresh_same fields size a i :
  singular n fields size i -> same_bytes (of_entry fields a i) m m' -> entry_fresh m fields a i -> entry_fresh m' fields a i.
Proof.
  intros Hsg Hs [Hflag Hsub]. split.
  { intros Ho. eapply flag_is_same; [|by apply Hflag]. apply Hs. by right. }
  intros Hm. destruct (Hsub Hm) as (fields' & Ha & Hf). exists fields'. split; [done|].
  destruct (sg_sub _ _ _ _ Hsg Hm) as (_ & fs & Ha' & Hfit & Hsm). rewrite Ha in Ha'. injection Ha' as <-.
  eapply IHfresh; [exact Hfit|done| |done]. intros x Hx. apply Hs. by left.
Qed.
End Same.

Lemma holds_same n m m' fields a size vs :
  msg_fits readable n fields size = true -> singular_message n fields = true ->
  same_bytes (range a size) m m' -> holds n m fields a vs -> holds n m' fields a vs.
Proof.
  revert fields a size vs. induction n as [|n IH]; intros fields a size vs Hfit Hsm Hs Hh; [done|].
  destruct (singular_at _ _ _ Hfit Hsm) as (_ & _ & Hsg & _). destruct Hh as [Hlen Hall]. split; [done|].
  intros i v Hi. assert (Hli : (i < length fields)%nat) by (rewrite <- Hlen; by eapply lookup_lt_Some).
  eapply field_holds_same; [exact IH|by apply Hsg| |by apply Hall].
  intros x Hx. eapply Hs, of_entry_range; [by apply Hsg|exact Hx].
Qed.

Lemma fresh_same n m m' fields a size :
  msg_fits readable n fields size = true -> singular_message n fields = true ->
  same_bytes (range a size) m m' -> fresh n m fields a -> fresh n m' fields a.
Proof.
  revert fields a size. induction n as [|n IH]; intros fields a size Hfit Hsm Hs Hh; [done|].
  destruct (singular_at _ _ _ Hfit Hsm) as (_ & _ & Hsg & _). intros i Hi.
  apply (entry_fresh_same n m m') with (size := size); [exact IH|by apply Hsg| |by apply Hh].
  intros x Hx. eapply Hs, of_entry_range; [by apply Hsg|exact Hx].
Qed.
End Messages.
