(* ===== verification/PbMessageEncode.v ===== *)
(** The reference encoding of a structure that holds given values. *)

From stdpp Require Import base list gmap strings.
From Stdlib Require Import ZArith Lia.
From S2P Require Import Prelude CMem PbTypes PbCommon PbIter PbOstream PbWire PbEncode PbEncodeSpec PbDecodeMsg PbFieldProps PbMessage.

(** * Reading and emitting *)

Lemma e_read_ret {A} (c : C A) (k : A -> E) m v m' : c m = Ret (v, m') -> e_read c k m = k v m.
Proof. intros E. unfold e_read. by rewrite (run_ret_some _ _ _ _ E). Qed.

Lemma e_seq_emits e1 e2 m l1 l2 :
  e1 m = Some (Emits l1) -> e2 m = Some (Emits l2) -> e_seq e1 e2 m = Some (Emits (l1 ++ l2)).
Proof. intros H1 H2. unfold e_seq. by rewrite H1, H2. Qed.

Lemma e_concat_emits (e : nat -> E) (b : nat -> list Z) l m :
  Forall (fun i => e i m = Some (Emits (b i))) l -> e_concat (map e l) m = Some (Emits (concat (map b l))).
Proof. induction 1 as [|i l Hi Hl IH]; [done|]. by apply e_seq_emits. Qed.

Lemma e_bytes_emits n a m l :
  n = Z.of_nat (length l) -> n < len_limit -> bytes_at m a l -> Forall is_byte l -> e_bytes n a m = Some (Emits l).
Proof.
  intros -> Hn Hb Hl. unfold e_bytes. destruct (Z.leb_spec 0 (Z.of_nat (length l))); [|lia].
  destruct (Z.ltb_spec (Z.of_nat (length l)) len_limit); [|lia]. cbn [andb]. rewrite Nat2Z.id.
  by rewrite (e_read_ret _ _ _ _ _ (load_bytes_at _ _ _ Hb Hl)).
Qed.

Lemma e_string_emits n a m l :
  n = Z.of_nat (length l) -> n < len_limit -> bytes_at m a l -> Forall is_byte l ->
  e_string a n m = Some (Emits (varint n ++ l)).
Proof.
  intros En Hn Hb Hl. unfold e_string. rewrite wrap_small by (unfold len_limit in Hn; lia).
  apply e_seq_emits; [done|by apply e_bytes_emits].
Qed.

(** The search for the terminator. *)
Lemma strnlen_run m p l i max fuel :
  bytes_at m p (l ++ [0]) -> Forall is_byte l -> 0 ∉ l -> (length l < fuel)%nat -> 0 <= i ->
  i + Z.of_nat (length l) < max ->
  strnlen_loop fuel p i max m = Ret (i + Z.of_nat (length l), m).
Proof.
  revert p i fuel. induction l as [|b l IH]; intros p i fuel Hb Hl Hnin Hf Hi Hmax; (destruct fuel as [|fuel]; [simpl in Hf; lia|]).
  - cbn [strnlen_loop]. simpl in Hmax. destruct (Z.ltb_spec i max); [|lia]. unfold bind.
    simpl in Hb. apply bytes_at_cons in Hb as [Hb _].
    rewrite (load8_at _ _ _ Hb) by done. simpl. by rewrite Z.add_0_r.
  - cbn [strnlen_loop]. cbn [length] in *. destruct (Z.ltb_spec i max); [|lia]. unfold bind.
    simpl in Hb. apply bytes_at_cons in Hb as [Hb Hrest]. apply Forall_cons in Hl as [Hby Hl].
    rewrite (load8_at _ _ _ Hb Hby). apply not_elem_of_cons in Hnin as [Hne Hnin].
    destruct (Z.eqb_spec b 0); [done|]. rewrite (IH _ (i + 1) fuel); [f_equal; f_equal; lia|done..|lia|lia|lia].
Qed.

Lemma string_length_run m p l max :
  bytes_at m p (l ++ [0]) -> Forall is_byte l -> 0 ∉ l -> Z.of_nat (length l) < max ->
  string_length p max m = Ret (Z.of_nat (length l), m).
Proof.
  intros Hb Hl Hnin Hmax. unfold string_length, mem_fuel, bind.
  pose proof (bytes_at_mapped _ _ _ Hb) as Hm. rewrite length_app in Hm. simpl in Hm.
  pose proof (mapped_range_size _ _ _ Hm). by rewrite (strnlen_run m p l 0 max) by (done || lia).
Qed.

(** * Scalars *)
Section Encode.
Context `{Program} (readable : Z -> Z -> bool).

Lemma e_int_emits (signed : bool) (enc : Z -> Z) f a m l :
  int_size (length l) -> f_data_size f = Z.of_nat (length l) -> bytes_at m a l -> Forall is_byte l ->
  e_int signed enc f a m = Some (Emits (varint (enc (member_value signed l)))).
Proof.
  intros Hn Hf Hb Hl. unfold e_int. rewrite Hf. by rewrite (e_read_ret _ _ _ _ _ (int_value_run signed m a l Hn Hb Hl)).
Qed.

Lemma e_numeric_emits e_msg f a m l :
  numeric_member (PB_LTYPE (f_type f)) (length l) -> f_data_size f = Z.of_nat (length l) ->
  bytes_at m a l -> Forall is_byte l ->
  e_call e_msg (PB_LTYPE (f_type f)) f a m = Some (Emits (int_encoding (PB_LTYPE (f_type f)) l)).
Proof.
  intros Hn Hf Hb Hl. unfold e_call. pose proof (load_bytes_at _ _ _ Hb Hl) as Hload.
  destruct Hn as [[[E|[E|E]] Hs]|[[E Hs]|[E Hs]]]; rewrite E;
    cbn [nth_error E_ENCODERS PB_LTYPE_VARINT PB_LTYPE_UVARINT PB_LTYPE_SVARINT PB_LTYPE_FIXED32 PB_LTYPE_FIXED64 Z.to_nat Pos.to_nat Pos.iter_op Nat.add].
  - by apply (e_int_emits true (wrap 64)).
  - by apply (e_int_emits false (fun v => v)).
  - by apply (e_int_emits true zigzag).
  - rewrite Hs in Hload. change (e_read (load_bytes 4 a) e_emit m = Some (Emits l)). by rewrite (e_read_ret _ _ _ _ _ Hload).
  - rewrite Hs in Hload. change (e_read (load_bytes 8 a) e_emit m = Some (Emits l)). by rewrite (e_read_ret _ _ _ _ _ Hload).
Qed.

Lemma e_scalar_emits e_msg f a m l :
  scalar_ok f l = true -> PB_ATYPE (f_type f) = PB_ATYPE_STATIC -> a <> 0 -> Z.of_nat (length l) < 2 ^ 32 ->
  bytes_at m a (scalar_image f l) ->
  e_call e_msg (PB_LTYPE (f_type f)) f a m = Some (Emits (scalar_bytes f l)).
Proof.
  intros Hok Hst Ha Hlen Hb. assert (Hlim : Z.of_nat (length l) < len_limit) by (unfold len_limit; lia).
  destruct (scalar_cases f l Hok) as [Hl [Hn Hf E ->|E Hf Ei ->|E Hf Hz Ei ->|E Hf Hne Ei ->]].
  - rewrite E in Hb. by apply e_numeric_emits.
  - rewrite E, Ei in *. change (e_enc_bytes f a m = Some (Emits (varint (Z.of_nat (length l)) ++ l))).
    apply bytes_at_app in Hb as [Hsize Hb]. rewrite length_le_bytes in Hb. unfold e_enc_bytes.
    destruct (Z.eqb_spec a 0); [done|]. unfold off_bytes_size, off_bytes_bytes. rewrite Z.add_0_r.
    rewrite (e_read_ret _ _ _ (Z.of_nat (length l)) m).
    2:{ unfold load_le, bind. pose proof (load_bytes_at _ _ _ Hsize (le_bytes_is_byte _ _)) as El.
        rewrite length_le_bytes in El. rewrite El. unfold ret. by rewrite le_val_bytes, wrap_small by lia. }
    rewrite Hst. unfold PB_BYTES_ARRAY_T_ALLOCSIZE, off_bytes_bytes.
    destruct (Z.ltb_spec (f_data_size f) (Z.of_nat (length l) + 4)); [lia|]. rewrite andb_false_r. by apply e_string_emits.
  - rewrite E, Ei in *. change (e_enc_string f a m = Some (Emits (varint (Z.of_nat (length l)) ++ l))).
    unfold e_enc_string. rewrite Hst. change (PB_ATYPE_STATIC =? PB_ATYPE_POINTER) with false. cbv iota zeta.
    destruct (Z.eqb_spec a 0); [done|]. rewrite (e_read_ret _ _ _ (Z.of_nat (length l)) m) by (apply string_length_run; done || lia).
    apply e_string_emits; [done|done| |done]. by apply bytes_at_app in Hb as [Hb _].
  - rewrite E, Ei in *. change (e_string a (f_data_size f) m = Some (Emits (varint (Z.of_nat (length l)) ++ l))).
    rewrite Hf. by apply e_string_emits.
Qed.

(** * Messages *)

Lemma scalar_wire_type f l :
  scalar_ok f l = true -> exists wt, wire_type_of (PB_LTYPE (f_type f)) = Some wt /\ 0 <= wt < 8.
Proof.
  intros Hok. destruct (scalar_cases f l Hok) as [_ [Hn _ _ _|E _ _ _|E _ _ _ _|E _ _ _ _]]; [|rewrite E; by eexists..].
  destruct Hn as [[[->|[->| ->]] _]|[[-> _]|[-> _]]]; by eexists.
Qed.

(** [message_bytes] over the entries. *)
Lemma message_bytes_seq n fields vs :
  length vs = length fields ->
  message_bytes (S n) fields vs =
  concat (map (fun i => field_bytes (message_bytes n) (field_at fields i) (default None (vs !! i))) (seq 0 (length fields))).
Proof.
  intros <-. cbn [message_bytes]. f_equal. apply list_eq. intros i. rewrite list_lookup_imap, list_lookup_fmap.
  destruct (vs !! i) as [v|] eqn:E.
  - pose proof (lookup_lt_Some _ _ _ E). rewrite lookup_seq_lt by done. simpl. by rewrite E.
  - apply lookup_ge_None in E. by rewrite lookup_seq_ge by done.
Qed.

(** The bytes of one entry are among those of the message. *)
Lemma field_bytes_length n fields vs i v :
  length vs = length fields -> vs !! i = Some v ->
  (length (field_bytes (message_bytes n) (field_at fields i) v) <= length (message_bytes (S n) fields vs))%nat.
Proof.
  intros Hlen Hi. rewrite (message_bytes_seq n fields vs Hlen).
  pose proof (lookup_lt_Some _ _ _ Hi) as Hlt.
  assert (Hin : In i (seq 0 (length fields))) by (apply in_seq; lia).
  apply in_split in Hin as (l1 & l2 & ->). rewrite map_app, concat_app, length_app. simpl. rewrite length_app, Hi. simpl. lia.
Qed.

Lemma value_bytes_length n f v : (length (value_bytes (message_bytes n) f v) <= length (field_bytes (message_bytes n) f (Some v)))%nat.
Proof. simpl. rewrite length_app. lia. Qed.

Lemma scalar_bytes_length f l : scalar_ok f l = true -> Z.of_nat (length l) <= Z.of_nat (length (scalar_bytes f l)) + 8.
Proof.
  intros Hok. destruct (scalar_cases f l Hok) as [_ [Hn _ _ _|_ _ _ E|_ _ _ _ E|_ _ _ _ E]]; [|rewrite E, length_app; lia..].
  destruct Hn as [[_ [E|[E|[E|E]]]]|[[_ E]|[_ E]]]; rewrite E; lia.
Qed.

Section Level.
Context (n fuel : nat) (m : mem).
(** The encoder of submessages. *)
Hypothesis IH : forall fields a vs size, msg_fits readable n fields size = true -> singular_message n fields = true ->
  0 < a -> holds n m fields a vs -> Z.of_nat (length (message_bytes n fields vs)) < 2 ^ 31 ->
  ref_encode fuel fields a m = Some (Emits (message_bytes n fields vs)).

(** A value behind its tag. *)
Lemma e_value_emits fields size a i v :
  singular readable n fields size i -> 0 < a ->
  field_holds (holds n m) m (field_at fields i) (a + data_pos fields i) (a + size_pos fields i) (Some v) ->
  Z.of_nat (length (field_bytes (message_bytes n) (field_at fields i) (Some v))) < 2 ^ 31 ->
  e_with_tag (e_call (ref_encode fuel) (PB_LTYPE (f_type (field_at fields i)))) (field_at fields i) (a + data_pos fields i) m =
  Some (Emits (field_bytes (message_bytes n) (field_at fields i) (Some v))).
Proof.
  intros Hsg Ha [_ Hv] Hlen. pose proof (sg_data _ _ _ _ _ Hsg) as [Hd _].
  assert (Hpos : 0 < a + data_pos fields i) by lia. set (f := field_at fields i) in *. set (d := a + data_pos fields i) in *.
  unfold e_with_tag. cbn [field_bytes] in *. rewrite length_app in Hlen.
  assert (Hwt : exists wt, wire_type_of (PB_LTYPE (f_type f)) = Some wt).
  { destruct v as [l|vs]; [|destruct Hv as [Hm _]; unfold is_message in Hm; apply Z.eqb_eq in Hm; rewrite Hm; by eexists].
    destruct Hv as [Hok _]. destruct (scalar_wire_type f l Hok) as (wt & E & _). by exists wt. }
  destruct Hwt as [wt Ewt]. apply e_seq_emits; [unfold e_tag; by rewrite Ewt|].
  destruct v as [l|vs]; cbn [value_bytes] in *.
  - destruct Hv as [Hok Hb]. pose proof (scalar_bytes_length f l Hok). apply e_scalar_emits; [done|apply Hsg|lia|lia|done].
  - destruct Hv as (Hm & fields' & Hf & Hsub). destruct (sg_sub _ _ _ _ _ Hsg Hm) as (Hp & fs & Hf' & Hfit & Hsm).
    fold f in Hp, Hf', Hfit. rewrite Hf in Hf'. injection Hf' as <-. rewrite Hf in *. cbn [from_option id] in *.
    unfold is_message in Hm. apply Z.eqb_eq in Hm. rewrite Hm. rewrite length_app in Hlen.
    change (e_enc_submessage (ref_encode fuel) f d m = Some (Emits (varint (Z.of_nat (length (message_bytes n fields' vs))) ++ message_bytes n fields' vs))).
    unfold e_enc_submessage. destruct (Z.eqb_spec (f_ptr f) 0); [done|]. rewrite Hf.
    rewrite (e_read_ret _ _ _ fields' m) by done. unfold e_delimited.
    rewrite (IH fields' d vs _ Hfit Hsm) by (done || lia). unfold len_limit.
    by destruct (Z.ltb_spec (Z.of_nat (length (message_bytes n fields' vs))) (2 ^ 63)); [|lia].
Qed.

Lemma e_entry_emits fields size a i v :
  singular readable n fields size i -> (i < length fields)%nat -> 0 < a ->
  size_pos fields i = data_pos fields i + f_size_offset (field_at fields i) ->
  field_holds (holds n m) m (field_at fields i) (a + data_pos fields i) (a + size_pos fields i) v ->
  Z.of_nat (length (field_bytes (message_bytes n) (field_at fields i) v)) < 2 ^ 31 ->
  e_step (ref_encode fuel) fuel (iter_at fields a i) m = Some (Emits (field_bytes (message_bytes n) (field_at fields i) v)).
Proof.
  intros Hsg Hi Ha Hz Hv Hlen. pose proof Hv as [Hflag Hv']. pose proof (sg_data _ _ _ _ _ Hsg) as [Hd _].
  unfold e_step, e_field. rewrite (iter_at_field fields a (sg_tags _ _ _ _ _ Hsg) i Hi).
  destruct (iter_at_shift fields a i) as (-> & _).
  destruct (Z.eqb_spec (PB_LTYPE (f_type (field_at fields i))) PB_LTYPE_EXTENSION); [by destruct (sg_extension _ _ _ _ _ Hsg)|].
  rewrite (sg_static _ _ _ _ _ Hsg). change (PB_ATYPE_STATIC =? PB_ATYPE_STATIC) with true. cbn [orb].
  unfold e_basic_field. replace (a + data_pos fields i + f_size_offset (field_at fields i)) with (a + size_pos fields i) by lia.
  destruct (sg_rule _ _ _ _ _ Hsg) as [[Hr Ho]|(Hr & Ho & Hoff)].
  - assert (exists b, implicit_presence fuel (field_at fields i) (a + data_pos fields i) m = Ret ((a + data_pos fields i, b), m)) as [b E].
    { unfold implicit_presence. rewrite (sg_static _ _ _ _ _ Hsg), Hr. change (PB_HTYPE_REQUIRED =? PB_HTYPE_OPTIONAL) with false.
      change (PB_ATYPE_STATIC =? PB_ATYPE_POINTER) with false. cbv iota. by destruct (truthy _); eexists. }
    rewrite (e_read_ret _ _ _ _ _ E), Hr. change (PB_HTYPE_REQUIRED =? PB_HTYPE_REQUIRED) with true. cbv iota.
    destruct (Z.eqb_spec (a + data_pos fields i) 0); [lia|]. destruct v as [v|]; [by eapply e_value_emits|congruence].
  - assert (E : implicit_presence fuel (field_at fields i) (a + data_pos fields i) m = Ret ((a + data_pos fields i, false), m)).
    { unfold implicit_presence, truthy. destruct (Z.eqb_spec (f_size_offset (field_at fields i)) 0); [done|].
      cbn [negb]. rewrite (sg_static _ _ _ _ _ Hsg). done. }
    rewrite (e_read_ret _ _ _ _ _ E), Hr. change (PB_HTYPE_OPTIONAL =? PB_HTYPE_REQUIRED) with false.
    change (PB_HTYPE_OPTIONAL =? PB_HTYPE_OPTIONAL) with true. cbv iota. unfold truthy at 1.
    destruct (Z.eqb_spec (f_size_offset (field_at fields i)) 0); [done|]. cbn [negb].
    destruct (Hflag Ho) as (x & Hx & Hb). rewrite (e_read_ret _ _ _ (truthy (u8 x)) m).
    2:{ unfold load_bool, bind, load8. by rewrite Hx. }
    rewrite Hb. destruct v as [v|]; [|by rewrite bool_decide_false by by intros []].
    rewrite bool_decide_true by done. by eapply e_value_emits.
Qed.
End Level.

(** A structure that holds [vs] has the encoding [message_bytes]. *)
Lemma ref_encode_holds n fuel m fields a vs size :
  (n <= fuel)%nat -> msg_fits readable n fields size = true -> singular_message n fields = true -> 0 < a ->
  holds n m fields a vs -> Z.of_nat (length (message_bytes n fields vs)) < 2 ^ 31 ->
  ref_encode fuel fields a m = Some (Emits (message_bytes n fields vs)).
Proof.
  revert n fields a vs size. induction fuel as [|fuel IHf]; intros n fields a vs size Hn Hfit Hsm Ha Hh Hlen;
    (destruct n as [|n]; [done|]); [lia|].
  destruct (singular_at readable _ _ _ Hfit Hsm) as (_ & Hpos & Hsg & _). destruct Hh as [Hvs Hall].
  rewrite ref_encode_fields; [|apply (Hsg 0%nat Hpos)|intros ->; simpl in Hpos; lia].
  rewrite (message_bytes_seq n fields vs Hvs). apply e_concat_emits, Forall_forall. intros i Hi.
  apply elem_of_seq in Hi as [_ Hi]. simpl in Hi. pose proof (Hsg i Hi) as Hsgi.
  destruct (lookup_lt_is_Some_2 vs i ltac:(lia)) as [v Ev]. rewrite Ev. cbn [from_option id].
  pose proof (field_bytes_length n fields vs i v Hvs Ev).
  apply (e_entry_emits n fuel m) with (size := size); [|done|done|done| |by apply Hall|simpl in *; lia].
  - intros fields' a' vs' size' Hf' Hs' Ha' Hh' Hl'. by apply (IHf n fields' a' vs' size'); [lia|..].
  - apply size_pos_offset; [apply Hsgi|done|]. intros j Hj E. destruct (sg_rule _ _ _ _ _ (Hsg j Hj)) as [[Hr _]|[Hr _]]; by rewrite E in Hr.
Qed.
End Encode.
