(* ===== verification/PbMessageDecode.v ===== *)
(** Decoding the encoding of a structure restores what it holds. *)

From stdpp Require Import base list gmap strings.
From Stdlib Require Import ZArith Lia.
From S2P Require Import Prelude CMem PbTypes PbCommon PbIter PbIstream PbOstream PbWire PbEncodeSpec PbDecode PbDecodeSafe PbDecodeMsg PbRequired PbFieldProps PbMessage PbMessageEncode.

(** * Scalars *)
Section Scalars.
Context `{Program}.

Lemma dec_fixed_length_run m s f dest l rest :
  f_data_size f = Z.of_nat (length l) -> l <> [] -> Z.of_nat (length l) < 2 ^ 31 ->
  stream_over m s (varint (Z.of_nat (length l)) ++ l ++ rest) ->
  mapped_range m dest (f_data_size f) -> no_overlap dest (f_data_size f) (is_state s) (bytes_left s) ->
  pb_dec_fixed_length_bytes s f dest m =
  Ret ((true, advance s (Z.of_nat (length (varint (Z.of_nat (length l)) ++ l)))), poke m dest l).
Proof.
  intros Hf Hne Hn Hs Hd Ha. unfold pb_dec_fixed_length_bytes. unfold bind at 1.
  rewrite (decode_varint32_app m s (Z.of_nat (length l)) _ ltac:(lia) Hs). cbn [negb]. unfold PB_SIZE_MAX, PB_SIZE_BITS.
  destruct (Z.ltb_spec (2 ^ 32 - 1) (Z.of_nat (length l))); [lia|].
  destruct (Z.eqb_spec (Z.of_nat (length l)) 0); [destruct l; [done|simpl in *; lia]|].
  rewrite Hf, Z.eqb_refl. cbn [negb].
  pose proof (stream_over_advance _ _ _ _ Hs) as Hs1. pose proof (so_left _ _ _ Hs) as Hleft. rewrite Hf in *.
  unfold bind. rewrite (read_mem m _ dest l rest Hs1); [|done|].
  - unfold ret. by rewrite advance_advance, length_app, Nat2Z.inj_add.
  - intros x Hx Hy. apply (Ha x); unfold range, advance in *; simpl in *; rewrite ?Hleft, ?length_app in *; lia.
Qed.

Lemma decode_scalar dec_msg fuel m s f dest l rest :
  scalar_ok f l = true -> PB_ATYPE (f_type f) = PB_ATYPE_STATIC -> Z.of_nat (length l) < 2 ^ 31 ->
  stream_over m s (scalar_bytes f l ++ rest) -> mapped_range m dest (f_data_size f) ->
  no_overlap dest (f_data_size f) (is_state s) (bytes_left s) ->
  call_decoder dec_msg fuel (PB_LTYPE (f_type f)) s f dest m =
  Ret ((true, advance s (Z.of_nat (length (scalar_bytes f l)))), poke m dest (scalar_image f l)).
Proof.
  intros Hok Hst Hlen Hs Hd Ha.
  destruct (scalar_cases f l Hok) as [Hl [Hn Hf -> Ei|E Hf -> Ei|E Hf Hz -> Ei|E Hf Hne -> Ei]]; rewrite Ei in *.
  - apply (decode_numeric _ _ _ _ _ _ _ _ rest); try done. by rewrite <- Hf.
  - rewrite E. rewrite <- app_assoc in Hs.
    change (pb_dec_bytes s f dest m = Ret ((true, advance s (Z.of_nat (length (varint (Z.of_nat (length l)) ++ l)))),
      poke m dest (le_bytes 4 (Z.of_nat (length l)) ++ l))).
    rewrite (dec_bytes_run m s f dest l rest) by (done || lia). by destruct (Z.ltb_spec (f_data_size f) (Z.of_nat (length l) + 4)); [lia|].
  - rewrite E. rewrite <- app_assoc in Hs.
    change (pb_dec_string s f dest m = Ret ((true, advance s (Z.of_nat (length (varint (Z.of_nat (length l)) ++ l)))),
      poke m dest (l ++ [0]))).
    rewrite (dec_string_run m s f dest l rest) by (done || lia). by destruct (Z.ltb_spec (f_data_size f) (Z.of_nat (length l) + 1)); [lia|].
  - rewrite E. rewrite <- app_assoc in Hs.
    change (pb_dec_fixed_length_bytes s f dest m = Ret ((true, advance s (Z.of_nat (length (varint (Z.of_nat (length l)) ++ l)))),
      poke m dest l)).
    by apply (dec_fixed_length_run m s f dest l rest).
Qed.
End Scalars.

(** * Loops over the entries *)

(** An invariant that knows the entry. *)
Lemma wp_each_entry fields dest (body : pb_field_iter_t -> C unit) (P : nat -> mem -> Prop) m :
  tags_ok fields -> (0 < length fields)%nat -> P 0%nat m ->
  (forall i m, (i < length fields)%nat -> P i m -> wp (body (iter_at fields dest i)) (fun _ => P (S i)) m) ->
  wp (each_field body fields dest) (fun _ => P (length fields)) m.
Proof.
  intros Ht Hpos HP Hbody. unfold each_field.
  destruct (pb_field_iter_begin fields dest) as [b it] eqn:E.
  assert (b = true) as ->.
  { unfold pb_field_iter_begin in E. injection E as <- _. pose proof (field_at_tag fields Ht 0 Hpos). apply negb_true_iff. lia. }
  assert (it = iter_at fields dest 0) as -> by (by change (iter_at fields dest 0) with (snd (pb_field_iter_begin fields dest)); rewrite E).
  unfold iter_fuel. destruct (iter_at_pos fields dest Ht 0 Hpos) as (-> & _).
  assert (Hloop : forall fuel i m, (i < length fields)%nat -> (length fields - i <= fuel)%nat -> P i m ->
    wp (do_fields fuel (fun it (_ : unit) => body it ;;; ret (true, tt)) (iter_at fields dest i) tt) (fun _ => P (length fields)) m).
  { clear m HP E. induction fuel as [|fuel IH]; intros i m Hi Hf HP; [lia|]. cbn [do_fields].
    apply wp_bind, wp_bind. eapply wp_mono; [by apply Hbody|]. intros [] m1 HP1. apply wp_ret. cbn [negb].
    rewrite (iter_next_at fields dest Ht i Hi). unfold next_pos. case_bool_decide as Hlast; cbn [negb].
    - apply wp_ret. by rewrite <- Hlast.
    - rewrite decide_False by done. apply IH; [lia|lia|done]. }
  apply wp_bind. eapply wp_mono; [apply Hloop; [done|lia|done]|]. intros [[ok st] it] m1 HP1. by apply wp_ret.
Qed.

(** * Default values *)

Lemma frame_same (P S : Z -> Prop) m m' : frame S m m' -> (forall x, P x -> ~ S x) -> same_bytes P m m'.
Proof. intros F HP x Hx. apply (frame_out _ _ _ F). by apply HP. Qed.

(** Writing a flag. *)
Lemma wp_store_flag m z (b : bool) :
  mapped m z -> wp (store_bool z b) (fun _ m' => frame (range z 1) m m' /\ flag_is m' z b) m.
Proof.
  intros Hm. unfold store_bool. eapply wp_intro; [by apply store8_poke|]. split.
  - apply (frame_poke m z [if b then 1 else 0]). intros k Hk. simpl in Hk. by replace (z + k) with z by lia.
  - exists (if b then 1 else 0). split; [|by destruct b].
    unfold poke, set_bytes; simpl. rewrite lookup_insert_eq. by destruct b.
Qed.

Section Decode.
Context `{Program} (readable : Z -> Z -> bool).

(** The memory has room for the structure and the constants. *)
Record place (m : mem) (dest size : Z) : Prop := {
  pl_dest : mapped_range m dest size;
  pl_rom : forall a k, readable a k = true -> mapped_range m a k;
}.

Lemma place_frame S m m' dest size : place m dest size -> frame S m m' -> place m' dest size.
Proof.
  intros [Hd Hr] F. split; [by eapply frame_mapped_range|].
  intros a k Hk. eapply frame_mapped_range; [exact F|by apply Hr].
Qed.

Lemma place_entry n fields m dest size i :
  place m dest size -> singular readable n fields size i ->
  place m (dest + data_pos fields i) (f_data_size (field_at fields i)) /\
  (is_optional (field_at fields i) = true -> mapped m (dest + size_pos fields i)).
Proof.
  intros [Hd Hr] Hsg. pose proof (sg_data _ _ _ _ _ Hsg). split.
  - split; [|done]. eapply mapped_range_sub; [exact Hd|lia..].
  - intros Ho. pose proof (sg_flag _ _ _ _ _ Hsg Ho). eapply mapped_range_at; [exact Hd|lia].
Qed.

(** The positions of entry [i] of a well-formed message. *)
Lemma singular_positions n fields size dest i :
  (i < length fields)%nat -> (forall j, (j < length fields)%nat -> singular readable n fields size j) ->
  it_field (iter_at fields dest i) = field_at fields i /\
  pData (iter_at fields dest i) = dest + data_pos fields i /\
  pSize (iter_at fields dest i) = dest + size_pos fields i /\
  (is_optional (field_at fields i) = true -> size_pos fields i <> data_pos fields i).
Proof.
  intros Hi Hsg. pose proof (Hsg i Hi) as Hsgi. pose proof (sg_tags _ _ _ _ _ Hsgi) as Ht.
  destruct (iter_at_shift fields dest i) as (-> & -> & _). rewrite (iter_at_field fields dest Ht i Hi).
  split_and!; [done..|]. intros Ho. rewrite size_pos_offset; [|done|done|].
  - destruct (sg_rule _ _ _ _ _ Hsgi) as [[_ E]|(_ & _ & Hoff)]; [congruence|lia].
  - intros j Hj E. destruct (sg_rule _ _ _ _ _ (Hsg j Hj)) as [[Hr _]|[Hr _]]; by rewrite E in Hr.
Qed.

(** Entries that are left alone stay as they are. *)
Lemma entries_kept n fields size dest i m m' :
  msg_fits readable (S n) fields size = true -> singular_message (S n) fields = true -> (i < length fields)%nat ->
  frame (of_entry fields dest i) m m' ->
  forall j, (j < length fields)%nat -> j <> i -> same_bytes (of_entry fields dest j) m m'.
Proof.
  intros Hfit Hsm Hi F j Hj Hne. destruct (singular_at readable _ _ _ Hfit Hsm) as (_ & _ & Hsg & Hap).
  eapply frame_same; [exact F|]. intros x Hx Hx'.
  by apply (of_entry_apart readable n fields size dest j i x); auto.
Qed.

Lemma entry_frame_range n fields size dest i m m' :
  singular readable n fields size i -> frame (of_entry fields dest i) m m' -> frame (range dest size) m m'.
Proof. intros Hsg. apply frame_mono. intros x. by eapply of_entry_range. Qed.

Lemma flag_in_entry fields dest i x :
  is_optional (field_at fields i) = true -> range (dest + size_pos fields i) 1 x -> of_entry fields dest i x.
Proof. intros Ho Hx. right. split; [done|]. unfold range in Hx. lia. Qed.

(** The data was written after the flag. *)
Lemma flag_kept n fields size dest i b m m' :
  singular readable n fields size i -> fields_apart fields i i = true -> is_optional (field_at fields i) = true ->
  frame (range (dest + data_pos fields i) (f_data_size (field_at fields i))) m m' ->
  flag_is m (dest + size_pos fields i) b -> flag_is m' (dest + size_pos fields i) b.
Proof. intros Hsg Hap Ho F. apply flag_is_same, (frame_out _ _ _ F). by eapply flag_apart. Qed.

(** The flag of an optional entry is cleared. *)
Lemma wp_default_flag n fields size dest i m :
  singular readable n fields size i -> place m dest size -> (is_optional (field_at fields i) = true ->
  size_pos fields i <> data_pos fields i) ->
  wp (if (PB_HTYPE (f_type (field_at fields i)) =? PB_HTYPE_OPTIONAL) &&
         negb (dest + size_pos fields i =? dest + data_pos fields i)
      then store_bool (dest + size_pos fields i) false ;;; ret true
      else if (PB_HTYPE (f_type (field_at fields i)) =? PB_HTYPE_REPEATED) ||
              (PB_HTYPE (f_type (field_at fields i)) =? PB_HTYPE_ONEOF)
      then store_le 4 (dest + size_pos fields i) 0 ;;; ret false
      else ret true)
     (fun init m' => init = true /\ frame (of_entry fields dest i) m m' /\
        (is_optional (field_at fields i) = true -> flag_is m' (dest + size_pos fields i) false)) m.
Proof.
  intros Hsg Hpl Hne. destruct (sg_rule _ _ _ _ _ Hsg) as [[Hr Ho]|(Hr & Ho & _)]; rewrite Hr.
  - apply wp_ret. split_and!; [done|apply frame_refl|congruence].
  - change (PB_HTYPE_OPTIONAL =? PB_HTYPE_OPTIONAL) with true. cbn [andb]. specialize (Hne Ho).
    destruct (Z.eqb_spec (dest + size_pos fields i) (dest + data_pos fields i)); [lia|]. cbn [negb].
    apply wp_bind. eapply wp_mono; [apply wp_store_flag; by eapply place_entry|].
    intros [] m1 [F Hf]. apply wp_ret. split_and!; [done| |done].
    eapply frame_mono; [|exact F]. intros x. by apply flag_in_entry.
Qed.

(** The data of an entry that is no message is set to its default value. *)
Lemma wp_default_data n fields size dest i m :
  singular readable n fields size i -> is_message (field_at fields i) = false ->
  place m (dest + data_pos fields i) (f_data_size (field_at fields i)) ->
  wp (if negb (f_ptr (field_at fields i) =? 0)
      then memcpy (dest + data_pos fields i) (f_ptr (field_at fields i)) (Z.to_nat (f_data_size (field_at fields i)))
      else memset (dest + data_pos fields i) 0 (Z.to_nat (f_data_size (field_at fields i))))
     (fun _ m' => frame (range (dest + data_pos fields i) (f_data_size (field_at fields i))) m m') m.
Proof.
  intros Hsg Hm [Hmap Hrom]. pose proof (sg_size _ _ _ _ _ Hsg) as Hsz.
  destruct (Z.eqb_spec (f_ptr (field_at fields i)) 0) as [|Hp]; cbn [negb].
  - eapply (wp_memset _ m); [apply frame_refl|by rewrite Z2Nat.id|by rewrite Z2Nat.id|]. done.
  - eapply (wp_memcpy _ m); [apply frame_refl|by rewrite Z2Nat.id| |by rewrite Z2Nat.id|done].
    rewrite Z2Nat.id by done. by apply Hrom, (sg_default _ _ _ _ _ Hsg).
Qed.

Lemma wp_defaults_fresh fuel n fields dest size m :
  (n <= fuel)%nat -> msg_fits readable n fields size = true -> singular_message n fields = true -> place m dest size ->
  wp (each_field (pb_field_set_to_default fuel) fields dest)
     (fun _ m' => frame (range dest size) m m' /\ fresh n m' fields dest) m.
Proof.
  revert n fields dest size m. induction fuel as [|fuel IH]; intros n fields dest size m Hn Hfit Hsm Hpl;
    (destruct n as [|n]; [done|]); [lia|].
  destruct (singular_at readable _ _ _ Hfit Hsm) as (_ & Hpos & Hsg & Hap).
  eapply wp_mono; [apply (wp_each_entry fields dest _ (fun i m' => frame (range dest size) m m' /\
    forall j, (j < i)%nat -> entry_fresh n m' fields dest j))|intros [] m' [F Hfr]; split; [done|exact Hfr]].
  { apply (Hsg 0%nat Hpos). } { done. } { split; [apply frame_refl|lia]. }
  intros i m1 Hi [F1 Hfr]. pose proof (Hsg i Hi) as Hsgi. pose proof (place_frame _ _ _ _ _ Hpl F1) as Hpl1.
  eapply (wp_mono _ (fun _ m' => frame (of_entry fields dest i) m1 m' /\ entry_fresh n m' fields dest i)).
  2:{ intros [] m2 [F2 Hf2]. split; [eapply frame_trans; [exact F1|by eapply entry_frame_range]|].
      intros j Hj. destruct (decide (j = i)) as [->|Hne]; [done|].
      eapply (entry_fresh_same readable n m1 m2); [|apply (Hsg j); lia|by apply (entries_kept n fields size dest i); [..|lia|]|apply Hfr; lia].
      intros. by eapply fresh_same. }
  clear Hpl Hfr F1. destruct (singular_positions n fields size dest i Hi Hsg) as (Hf & Hd & Hz & Hne).
  cbn [pb_field_set_to_default]. rewrite Hf, Hd, Hz, (sg_static _ _ _ _ _ Hsgi).
  change (PB_ATYPE_STATIC =? PB_ATYPE_STATIC) with true. cbv iota.
  destruct (Z.eqb_spec (PB_LTYPE (f_type (field_at fields i))) PB_LTYPE_EXTENSION); [by destruct (sg_extension _ _ _ _ _ Hsgi)|].
  apply wp_bind. eapply wp_mono; [by eapply wp_default_flag|]. intros init m2 (-> & F2 & Hfl). cbn [negb].
  pose proof (proj1 (place_entry _ _ _ _ _ _ (place_frame _ _ _ _ _ Hpl1 F2) Hsgi)) as Hpl2.
  eapply (wp_mono _ (fun _ m3 => frame (range (dest + data_pos fields i) (f_data_size (field_at fields i))) m2 m3 /\
    (is_message (field_at fields i) = true -> exists fields', field_array (f_ptr (field_at fields i)) = Some fields' /\
       fresh n m3 fields' (dest + data_pos fields i)))).
  2:{ intros [] m3 [F3 Hsub]. split; [eapply frame_trans; [exact F2|eapply frame_mono; [|exact F3]; by left]|].
      split; [|done]. intros Ho. by eapply flag_kept; [|apply Hap| | |apply Hfl]. }
  destruct (is_message (field_at fields i)) eqn:Hm; pose proof Hm as E; unfold is_message in E; rewrite E.
  - destruct (sg_sub _ _ _ _ _ Hsgi Hm) as (_ & fields' & Ha & Hfit' & Hsm').
    apply wp_bind, (wp_need _ _ _ fields'); [done|]. eapply wp_mono; [by apply (IH n fields'); [lia|..]|].
    intros [] m3 [F3 Hfr3]. split; [done|]. intros _. by exists fields'.
  - eapply wp_mono; [by eapply wp_default_data|]. done.
Qed.

(** * Values *)

Lemma stream_over_frame S m m' s l :
  frame S m m' -> (forall x, S x -> range (is_state s) (bytes_left s) x -> False) -> stream_over m s l -> stream_over m' s l.
Proof.
  intros F HS [Hc Hl Hb Hr]. split; [done|done| |done]. eapply bytes_at_same; [|exact Hb].
  eapply frame_same; [exact F|]. intros x Hx Hx'. apply (HS x); [done|]. by rewrite Hl.
Qed.

Lemma value_wire_type sub m f d v :
  value_holds sub m f d v -> exists wt, wire_type_of (PB_LTYPE (f_type f)) = Some wt /\ 0 <= wt < 8.
Proof.
  destruct v as [l|vs]; [intros [Hok _]; by eapply scalar_wire_type|]. intros [Hm _]. unfold is_message in Hm.
  apply Z.eqb_eq in Hm. rewrite Hm. by eexists.
Qed.

(** [decode_msg] restores structures with submessages of depth [n]: from the
    encoding of what some structure holds, into a place where nothing is
    present yet. *)
Definition restores (n : nat) (decode_msg : pb_istream_t -> list pb_field_t -> Z -> C (bool * pb_istream_t)) : Prop :=
  forall fields dest size s m vs msrc src,
    msg_fits readable n fields size = true -> singular_message n fields = true ->
    holds n msrc fields src vs -> Z.of_nat (length (message_bytes n fields vs)) < 2 ^ 30 ->
    place m dest size -> stack_ok m -> fresh n m fields dest ->
    stream_over m s (message_bytes n fields vs) -> no_overlap dest size (is_state s) (bytes_left s) ->
    wp (decode_msg s fields dest) (fun '(ok, s') m' =>
      ok = true /\ s' = advance s (Z.of_nat (length (message_bytes n fields vs))) /\
      frame (range dest size) m m' /\ holds n m' fields dest vs) m.

Section Level.
Context (n fuel : nat) (decode_msg : pb_istream_t -> list pb_field_t -> Z -> C (bool * pb_istream_t)).
Hypothesis Hdec : restores n decode_msg.
(** What is restored: the values [vs] of the structure at [src]. *)
Context (msrc : mem) (src : Z).

Lemma wp_dec_submessage_holds fields size i d d' vs s m rest :
  singular readable n fields size i -> is_message (field_at fields i) = true ->
  value_holds (holds n msrc) msrc (field_at fields i) d' (VMessage vs) ->
  place m d (f_data_size (field_at fields i)) -> stack_ok m ->
  (forall fields', field_array (f_ptr (field_at fields i)) = Some fields' -> fresh n m fields' d) ->
  stream_over m s (value_bytes (message_bytes n) (field_at fields i) (VMessage vs) ++ rest) ->
  no_overlap d (f_data_size (field_at fields i)) (is_state s) (bytes_left s) ->
  Z.of_nat (length (value_bytes (message_bytes n) (field_at fields i) (VMessage vs))) < 2 ^ 30 ->
  wp (pb_dec_submessage decode_msg fuel s (field_at fields i) d) (fun '(ok, s') m' =>
    ok = true /\ s' = advance s (Z.of_nat (length (value_bytes (message_bytes n) (field_at fields i) (VMessage vs)))) /\
    frame (range d (f_data_size (field_at fields i))) m m' /\
    value_holds (holds n m') m' (field_at fields i) d (VMessage vs)) m.
Proof.
  intros Hsg Hm (_ & fields' & Ha & Hh) Hpl Hst Hfr Hs Hno Hlen.
  destruct (sg_sub _ _ _ _ _ Hsg Hm) as (Hp & fs & Ha' & Hfit & Hsm). rewrite Ha in Ha'. injection Ha' as <-.
  cbn [value_bytes] in *. rewrite Ha in *. cbn [from_option id] in *. set (l := message_bytes n fields' vs) in *.
  rewrite <- app_assoc in Hs. rewrite length_app in Hlen.
  destruct (make_substream_run m s l rest Hs ltac:(lia)) as [Emake Hsub].
  set (k := Z.of_nat (length (varint (Z.of_nat (length l))))) in *.
  set (sub := is_set_left (advance s k) (Z.of_nat (length l))) in *.
  pose proof (so_left _ _ _ Hs) as Hleft. rewrite !length_app in Hleft.
  assert (Hno' : no_overlap d (f_data_size (field_at fields i)) (is_state sub) (bytes_left sub)).
  { intros x Hx Hy. apply (Hno x Hx). unfold sub, range in *. simpl in *. lia. }
  unfold pb_dec_submessage. apply wp_bind. eapply wp_intro; [exact Emake|]. cbn [negb].
  destruct (Z.eqb_spec (f_ptr (field_at fields i)) 0); [done|]. apply wp_bind, (wp_need _ _ _ fields'); [done|].
  assert ((PB_HTYPE (f_type (field_at fields i)) =? PB_HTYPE_REPEATED) = false) as ->.
  { by destruct (sg_rule _ _ _ _ _ Hsg) as [[-> _]|[-> _]]. }
  apply wp_bind. eapply wp_mono; [apply (Hdec fields' d (f_data_size (field_at fields i)) sub m vs msrc d'); [done|done|done|fold l; lia|done|done|by apply Hfr|exact Hsub|exact Hno']|].
  intros [ok sub'] m' (-> & -> & F & Hh').
  assert (Hsub' : stream_over m' sub (l ++ [])).
  { rewrite app_nil_r. eapply stream_over_frame; [exact F| |exact Hsub]. intros x Hx Hy. by eapply Hno'. }
  apply wp_bind. eapply wp_intro; [by apply close_substream_run|]. cbn [negb]. apply wp_ret.
  split; [done|]. split; [|split; [done|split; [done|by exists fields']]].
  rewrite app_nil_r, length_app. unfold sub, advance, is_set_errmsg, is_set_state, is_set_left; simpl.
  unfold k. fold l. f_equal; lia.
Qed.

Lemma wp_call_value fields size i d d' v s m rest :
  singular readable n fields size i -> value_holds (holds n msrc) msrc (field_at fields i) d' v ->
  place m d (f_data_size (field_at fields i)) -> stack_ok m ->
  (is_message (field_at fields i) = true -> exists fields', field_array (f_ptr (field_at fields i)) = Some fields' /\ fresh n m fields' d) ->
  stream_over m s (value_bytes (message_bytes n) (field_at fields i) v ++ rest) ->
  no_overlap d (f_data_size (field_at fields i)) (is_state s) (bytes_left s) ->
  Z.of_nat (length (value_bytes (message_bytes n) (field_at fields i) v)) < 2 ^ 30 ->
  wp (call_decoder decode_msg fuel (PB_LTYPE (f_type (field_at fields i))) s (field_at fields i) d) (fun '(ok, s') m' =>
    ok = true /\ s' = advance s (Z.of_nat (length (value_bytes (message_bytes n) (field_at fields i) v))) /\
    frame (range d (f_data_size (field_at fields i))) m m' /\
    value_holds (holds n m') m' (field_at fields i) d v) m.
Proof.
  intros Hsg Hv Hpl Hst Hfr Hs Hno Hlen. destruct v as [l|vs].
  - destruct Hv as [Hok _]. destruct (scalar_image_ok _ _ Hok) as [Hby Hsz]. pose proof (scalar_bytes_length _ _ Hok).
    destruct Hpl as [Hd _]. simpl in Hlen. eapply wp_intro.
    { eapply decode_scalar; [exact Hok|apply Hsg|lia|exact Hs|done|done]. }
    assert (Hd' : mapped_range m d (Z.of_nat (length (scalar_image (field_at fields i) l)))) by (eapply mapped_range_sub; [exact Hd|lia..]).
    split; [done|]. split; [done|]. split; [|split; [done|by apply poke_bytes_at]].
    eapply frame_mono; [|by apply frame_poke]. intros x. unfold range. lia.
  - pose proof Hv as [Hm _]. pose proof Hm as E. unfold is_message in E. apply Z.eqb_eq in E. rewrite E.
    change (call_decoder decode_msg fuel PB_LTYPE_SUBMESSAGE) with (pb_dec_submessage decode_msg fuel).
    apply (wp_dec_submessage_holds fields size i d d' vs s m rest); try done.
    intros fields' Ha. destruct (Hfr Hm) as (fs & Ha' & Hf). rewrite Ha in Ha'. by injection Ha' as <-.
Qed.

(** ** One entry *)
Section Entries.
Context (fields : list pb_field_t) (dest size : Z) (vs : list (option value)).
Hypothesis Hfit : msg_fits readable (S n) fields size = true.
Hypothesis Hsm : singular_message (S n) fields = true.
Hypothesis Hholds : holds (S n) msrc fields src vs.
Hypothesis Hlen : Z.of_nat (length (message_bytes (S n) fields vs)) < 2 ^ 30.

(** Entry [i] of the structure in the memory [m] holds [v]. *)
Definition entry_holds (m : mem) (i : nat) (v : option value) : Prop :=
  field_holds (holds n m) m (field_at fields i) (dest + data_pos fields i) (dest + size_pos fields i) v.

Lemma entry_length i v : vs !! i = Some v -> Z.of_nat (length (field_bytes (message_bytes n) (field_at fields i) v)) < 2 ^ 30.
Proof.
  intros Hi. pose proof (field_bytes_length n fields vs i v (proj1 Hholds) Hi). simpl in *. lia.
Qed.

Lemma wp_decode_entry i v s wt m rest :
  vs !! i = Some (Some v) -> place m dest size -> stack_ok m -> entry_fresh n m fields dest i ->
  stream_over m s (value_bytes (message_bytes n) (field_at fields i) v ++ rest) ->
  no_overlap dest size (is_state s) (bytes_left s) ->
  wp (decode_field decode_msg fuel s wt (iter_at fields dest i)) (fun '(ok, s', it') m' =>
    ok = true /\ s' = advance s (Z.of_nat (length (value_bytes (message_bytes n) (field_at fields i) v))) /\
    it' = iter_at fields dest i /\ frame (of_entry fields dest i) m m' /\ entry_holds m' i (Some v)) m.
Proof.
  intros Hi Hpl Hst [Hff Hfs] Hs Hno. destruct (singular_at readable _ _ _ Hfit Hsm) as (_ & _ & Hsg & Hap).
  assert (Hli : (i < length fields)%nat) by (rewrite <- (proj1 Hholds); by eapply lookup_lt_Some).
  destruct (singular_positions n fields size dest i Hli Hsg) as (Hf & Hd & Hz & Hne). pose proof (Hsg i Hli) as Hsgi.
  destruct (proj2 Hholds _ _ Hi) as [_ Hv]. pose proof (entry_length _ _ Hi) as Hl. cbn [field_bytes] in Hl. rewrite length_app in Hl.
  destruct (place_entry _ _ _ _ _ _ Hpl Hsgi) as [Hpd Hpz].
  assert (Hno' : no_overlap (dest + data_pos fields i) (f_data_size (field_at fields i)) (is_state s) (bytes_left s)).
  { intros x Hx. apply Hno. eapply of_entry_range; [exact Hsgi|by left]. }
  unfold decode_field. rewrite Hf. apply wp_bind, (wp_mono _ (fun r m' => r = (true, s, iter_at fields dest i) /\ m' = m)).
  { by destruct (sg_rule _ _ _ _ _ Hsgi) as [[-> _]|[-> _]]; apply wp_ret. }
  intros [[ok s1] it1] m' [[= -> -> ->] ->]. cbn [negb]. rewrite Hf, (sg_static _ _ _ _ _ Hsgi).
  change (PB_ATYPE_STATIC =? PB_ATYPE_STATIC) with true. cbv iota. unfold decode_static_field. rewrite Hf, Hd, Hz.
  apply wp_bind. destruct (sg_rule _ _ _ _ _ Hsgi) as [[Hr Ho]|(Hr & Ho & _)]; rewrite Hr.
  - change (PB_HTYPE_REQUIRED =? PB_HTYPE_REQUIRED) with true. cbv iota.
    eapply wp_mono; [eapply wp_call_value; try done; lia|].
    intros [ok s2] m2 (-> & -> & F & Hv2). apply wp_ret. split_and!; [done..| |].
    + eapply frame_mono; [|exact F]. by left.
    + split; [congruence|done].
  - change (PB_HTYPE_OPTIONAL =? PB_HTYPE_REQUIRED) with false. change (PB_HTYPE_OPTIONAL =? PB_HTYPE_OPTIONAL) with true. cbv iota.
    destruct (Z.eqb_spec (dest + size_pos fields i) (dest + data_pos fields i)); [specialize (Hne Ho); lia|]. cbn [negb].
    apply wp_bind. eapply wp_mono; [by apply wp_store_flag, Hpz|]. intros [] m1 [F1 Hf1].
    assert (Hflag : forall x, range (dest + size_pos fields i) 1 x -> of_entry fields dest i x) by (intros x; by apply flag_in_entry).
    eapply wp_mono; [apply (wp_call_value fields size i (dest + data_pos fields i) (src + data_pos fields i) v s m1 rest); try done|].
    + by eapply place_frame.
    + by eapply frame_stack_ok.
    + intros Hm. destruct (Hfs Hm) as (fields' & Ha & Hfr). exists fields'. split; [done|].
      destruct (sg_sub _ _ _ _ _ Hsgi Hm) as (_ & fs & Ha' & Hfit' & Hsm'). rewrite Ha in Ha'. injection Ha' as <-.
      eapply fresh_same; [exact Hfit'|done| |exact Hfr]. eapply frame_same; [exact F1|]. intros x Hx Hx'.
      assert (x = dest + size_pos fields i) as -> by (unfold range in Hx'; lia).
      by apply (flag_apart readable n fields size dest i Hsgi (Hap i i Hli Hli) Ho).
    + eapply stream_over_frame; [exact F1| |done]. intros x Hx. apply Hno. eapply of_entry_range; [exact Hsgi|by apply Hflag].
    + lia.
    + intros [ok s2] m2 (-> & -> & F & Hv2). apply wp_ret. split_and!; [done..| |].
      * eapply frame_trans; [eapply frame_mono; [|exact F1]; done|eapply frame_mono; [|exact F]; by left].
      * split; [|done]. intros _. eapply flag_kept; [exact Hsgi|by apply Hap|done|exact F|]. exact Hf1.
Qed.

(** ** The loop *)

(** The entries below [k] that are present. *)
Definition present (k : nat) : list nat :=
  List.filter (fun i => match vs !! i with Some (Some _) => true | _ => false end) (seq 0 k).

(** What is left to read before entry [i]. *)
Definition bytes_from (i : nat) : list Z :=
  concat (map (fun j => field_bytes (message_bytes n) (field_at fields j) (default None (vs !! j))) (seq i (length fields - i))).

Lemma bytes_from_S i :
  (i < length fields)%nat ->
  bytes_from i = field_bytes (message_bytes n) (field_at fields i) (default None (vs !! i)) ++ bytes_from (S i).
Proof. intros Hi. unfold bytes_from. by replace (length fields - i)%nat with (S (length fields - S i)) by lia. Qed.

Lemma present_S k :
  present (S k) = present k ++ (match vs !! k with Some (Some _) => [k] | _ => [] end).
Proof.
  unfold present. rewrite seq_S, List.filter_app. simpl. by destruct (vs !! k) as [[v|]|].
Qed.

Lemma find_entry it p i m :
  iter_on fields dest it p -> (i < length fields)%nat ->
  pb_field_iter_find it (f_tag (field_at fields i)) m = Ret ((true, iter_at fields dest i), m).
Proof.
  intros Hon Hi. destruct (singular_at readable _ _ _ Hfit Hsm) as (_ & _ & Hsg & Hap).
  pose proof (sg_tags _ _ _ _ _ (Hsg i Hi)) as Ht. unfold pb_field_iter_find.
  set (found := fun f => (f_tag f =? f_tag (field_at fields i)) && negb (PB_LTYPE (f_type f) =? PB_LTYPE_EXTENSION)).
  destruct (iter_search_spec fields dest Ht found p it m Hon) as [(k & it' & Hk & E & Hon' & Hf & _)|[_ Hno]].
  - rewrite E. pose proof (proj1 Hon') as Hj. assert (step_pos fields p k = i) as Ei.
    { destruct (decide (step_pos fields p k = i)) as [|Hne]; [done|]. exfalso. specialize (Hap _ i Hj Hi).
      unfold fields_apart in Hap. apply Nat.eqb_neq in Hne. rewrite Hne in Hap. unfold found in Hf. lia. }
    rewrite Ei in Hon'. destruct Hon' as [_ [->|(Hrep & _)]]; [done|].
    by destruct (sg_rule _ _ _ _ _ (Hsg i Hi)) as [[Hr _]|[Hr _]]; rewrite Hrep in Hr.
  - specialize (Hno i Hi). unfold found in Hno. rewrite Z.eqb_refl in Hno. cbn [andb] in Hno.
    apply negb_false_iff, Z.eqb_eq in Hno. by destruct (sg_extension _ _ _ _ _ (Hsg i Hi)).
Qed.

(** The local variables when the entries [js] have been met. *)
Definition met (js : list nat) (v : decode_vars) : Prop :=
  exists it p, v = mkVars it 0 None (seen_after fields dest js) /\ iter_on fields dest it p.

Lemma mark_seen_met js i :
  (i < length fields)%nat -> met (js ++ [i]) (mark_seen (mkVars (iter_at fields dest i) 0 None (seen_after fields dest js))) /\
  dv_iter (mark_seen (mkVars (iter_at fields dest i) 0 None (seen_after fields dest js))) = iter_at fields dest i.
Proof.
  intros Hi. set (v := mkVars _ _ _ _). assert (E : mark_seen v = mkVars (iter_at fields dest i) 0 None (dv_fields_seen (mark_seen v))).
  { unfold mark_seen. by destruct (_ && _). }
  split; [|by rewrite E]. exists (iter_at fields dest i), i. split; [|by apply iter_on_at]. rewrite E. f_equal.
  unfold seen_after. by rewrite foldl_app.
Qed.

Lemma wp_decode_step_holds fixed_count js v i x s m rest :
  met js v -> vs !! i = Some (Some x) -> place m dest size -> stack_ok m -> entry_fresh n m fields dest i ->
  stream_over m s (field_bytes (message_bytes n) (field_at fields i) (Some x) ++ rest) ->
  no_overlap dest size (is_state s) (bytes_left s) ->
  wp (decode_step decode_msg fuel fixed_count s v) (fun '(r, s', v') m' =>
    r = Some true /\ s' = advance s (Z.of_nat (length (field_bytes (message_bytes n) (field_at fields i) (Some x)))) /\
    met (js ++ [i]) v' /\ frame (of_entry fields dest i) m m' /\ entry_holds m' i (Some x)) m.
Proof.
  intros (it & p & -> & Hon) Hi Hpl Hst Hff Hs Hno. destruct (singular_at readable _ _ _ Hfit Hsm) as (_ & _ & Hsg & Hap).
  assert (Hli : (i < length fields)%nat) by (rewrite <- (proj1 Hholds); by eapply lookup_lt_Some).
  pose proof (Hsg i Hli) as Hsgi. pose proof (sg_tag _ _ _ _ _ Hsgi) as Htag. pose proof (sg_tags _ _ _ _ _ Hsgi) as Ht.
  destruct (proj2 Hholds _ _ Hi) as [_ Hv]. destruct (value_wire_type _ _ _ _ _ Hv) as (wt & Ewt & Hwt).
  cbn [field_bytes] in *. rewrite Ewt in *. cbn [from_option id] in *.
  rewrite tag_bytes_value in Hs |- * by lia. rewrite <- app_assoc in Hs. unfold decode_step.
  assert (Htv : 0 < tag_value wt (f_tag (field_at fields i)) < 2 ^ 32) by (unfold tag_value; lia).
  apply wp_bind. eapply wp_intro; [exact (decode_tag_app m s wt (f_tag (field_at fields i)) _ Hwt ltac:(lia) Htv Hs)|]. cbn [negb dv_iter].
  pose proof (stream_over_advance _ _ _ _ Hs) as Hs1.
  apply wp_bind. eapply wp_intro; [by eapply find_entry|]. cbn [negb]. unfold dv_set_iter at 1. cbn [dv_extension_range_start dv_fixed_count_field dv_fields_seen].
  apply wp_bind. unfold use_fixed_count. cbn [dv_iter]. rewrite (iter_at_field fields dest Ht i Hli).
  assert ((PB_HTYPE (f_type (field_at fields i)) =? PB_HTYPE_REPEATED) = false) as ->.
  { by destruct (sg_rule _ _ _ _ _ Hsgi) as [[-> _]|[-> _]]. }
  cbn [andb]. apply wp_ret. cbn [negb]. destruct (mark_seen_met js i Hli) as [Hmet Hit]. rewrite Hit.
  apply wp_bind. eapply wp_mono; [apply (wp_decode_entry i x _ wt m rest Hi Hpl Hst Hff Hs1)|].
  { intros y Hy Hr. apply (Hno y Hy). unfold range, advance in *. simpl in *. lia. }
  intros [[ok s2] it2] m2 (-> & -> & -> & F & Hh). apply wp_ret. split; [done|]. split; [|split; [|done]].
  - rewrite advance_advance, length_app. f_equal. lia.
  - destruct Hmet as (it' & p' & E & Hon'). exists (iter_at fields dest i), i. rewrite E. split; [done|by apply iter_on_at].
Qed.

Lemma entry_absent i m :
  vs !! i = Some None -> entry_fresh n m fields dest i -> entry_holds m i None.
Proof. intros Hi [Hf _]. destruct (proj2 Hholds _ _ Hi) as [_ Ho]. split; [|done]. intros _. by apply Hf. Qed.

Lemma field_bytes_some f x : (0 < length (field_bytes (message_bytes n) f (Some x)))%nat.
Proof.
  cbn [field_bytes]. rewrite length_app. unfold tag_bytes. pose proof (varint_length (Z.lor (u64 (Z.shiftl (f_tag f) 3)) (default 0 (wire_type_of (PB_LTYPE (f_type f)))))). lia.
Qed.

Lemma wp_decode_loop_holds fixed_count r i k v s m :
  (i + r = length fields)%nat -> met (present i) v -> place m dest size -> stack_ok m ->
  stream_over m s (bytes_from i) -> no_overlap dest size (is_state s) (bytes_left s) ->
  (forall j x, (j < i)%nat -> vs !! j = Some x -> entry_holds m j x) ->
  (forall j, (i <= j < length fields)%nat -> entry_fresh n m fields dest j) ->
  (Z.to_nat (bytes_left s) <= k)%nat ->
  wp (decode_loop decode_msg fuel k fixed_count s v) (fun '(ok, s', v') m' =>
    ok = true /\ s' = advance s (Z.of_nat (length (bytes_from i))) /\ met (present (length fields)) v' /\
    frame (range dest size) m m' /\ forall j x, vs !! j = Some x -> entry_holds m' j x) m.
Proof.
  destruct (singular_at readable _ _ _ Hfit Hsm) as (_ & _ & Hsg & Hap). pose proof (proj1 Hholds) as Hvs.
  revert i k v s m. induction r as [|r IH]; intros i k v s m Hir Hmet Hpl Hst Hs Hno Hdone Hfr Hk.
  { assert (i = length fields) as -> by lia. unfold bytes_from in *. rewrite Nat.sub_diag in *. cbn [seq map concat length] in *.
    pose proof (so_left _ _ _ Hs) as Hz. simpl in Hz.
    assert (decode_loop decode_msg fuel k fixed_count s v = ret (true, s, v)) as ->.
    { destruct k; cbn [decode_loop]; by rewrite Hz. }
    apply wp_ret. split; [done|]. split; [by rewrite advance_0|]. split; [done|]. split; [apply frame_refl|].
    intros j x Hj. apply Hdone; [|done]. rewrite <- Hvs. by eapply lookup_lt_Some. }
  assert (Hi : (i < length fields)%nat) by lia. destruct (lookup_lt_is_Some_2 vs i ltac:(lia)) as [x Hx].
  rewrite (bytes_from_S i Hi), Hx in *. cbn [from_option id] in *.
  pose proof (present_S i) as Hpr. rewrite Hx in Hpr. destruct x as [x|].
  2:{ rewrite app_nil_r in Hpr. rewrite <- Hpr in Hmet. cbn [field_bytes app] in *.
      apply (IH (S i)); [lia|done..| | |done].
      - intros j y Hj Hy. destruct (decide (j = i)) as [->|]; [|apply Hdone; [lia|done]].
        rewrite Hx in Hy. injection Hy as <-. apply entry_absent; [done|]. apply Hfr. lia.
      - intros j Hj. apply Hfr. lia. }
  pose proof (field_bytes_some (field_at fields i) x) as Hpos. pose proof (so_left _ _ _ Hs) as Hleft. rewrite length_app in Hleft.
  destruct k as [|k]; [lia|]. cbn [decode_loop]. destruct (Z.eqb_spec (bytes_left s) 0); [lia|].
  apply wp_bind. eapply wp_mono; [eapply wp_decode_step_holds; try done; apply Hfr; lia|].
  intros [[res s1] v1] m1 (-> & -> & Hmet1 & F & Hh). rewrite <- Hpr in Hmet1.
  pose proof (entry_frame_range n fields size dest i m m1 (Hsg i Hi) F) as F'.
  eapply wp_mono; [apply (IH (S i)); [lia|done|by eapply place_frame|by eapply frame_stack_ok| | | | |]|].
  - apply stream_over_advance. eapply stream_over_frame; [exact F'| |exact Hs]. intros y Hy Hr. by apply (Hno y).
  - intros y Hy Hr. apply (Hno y Hy). unfold range, advance in *. simpl in *. lia.
  - intros j y Hj Hy. destruct (decide (j = i)) as [->|Hne]; [rewrite Hx in Hy; by injection Hy as <-|].
    eapply field_holds_same; [|by apply Hsg; lia| |apply Hdone; [lia|exact Hy]].
    + intros. by eapply holds_same.
    + by apply (entries_kept n fields size dest i); [..|lia|].
  - intros j Hj. eapply (entry_fresh_same readable n m m1); [|apply (Hsg j); lia| |apply Hfr; lia].
    + intros. by eapply fresh_same.
    + apply (entries_kept n fields size dest i); [done..|lia|lia].
  - unfold advance. cbn [bytes_left]. lia.
  - intros [[ok s2] v2] m2 (-> & -> & Hmet2 & F2 & Hall). split; [done|]. split; [|split; [done|split; [by eapply frame_trans|done]]].
    rewrite advance_advance, length_app. f_equal. lia.
Qed.

(** ** The message *)

Lemma fresh_entries m i : fresh (S n) m fields dest -> (i < length fields)%nat -> entry_fresh n m fields dest i.
Proof. intros Hf Hi. exact (Hf i Hi). Qed.

(** Every required entry is present. *)
Lemma required_present fixed_count it p m v :
  met (present (length fields)) v -> v = mkVars it 0 None (seen_after fields dest (present (length fields))) ->
  iter_on fields dest it p ->
  exists count, count_required (dv_iter v) m = Ret (count, m) /\ all_seen (dv_fields_seen v) count = true /\
    fixed_count_incomplete fixed_count v m = Ret (false, m).
Proof.
  intros _ -> Hon. destruct (singular_at readable _ _ _ Hfit Hsm) as (Hl & _ & Hsg & _).
  pose proof (sg_tags _ _ _ _ _ (Hsg p (proj1 Hon))) as Ht. eexists. split; [by eapply count_required_spec|]. split; [|done].
  cbn [dv_fields_seen]. apply required_check; [done|done| |].
  - apply Forall_forall. intros j Hj. unfold present in Hj. apply list_elem_of_In, filter_In in Hj as [Hj _].
    apply in_seq in Hj. lia.
  - intros j Hj Hreq _. unfold present. apply list_elem_of_In, filter_In. split; [apply in_seq; lia|].
    pose proof (proj1 Hholds). destruct (lookup_lt_is_Some_2 vs j ltac:(lia)) as [[x|] Hx]; rewrite Hx; [done|].
    destruct (proj2 Hholds _ _ Hx) as [_ Ho]. unfold is_required, is_optional in *. apply Z.eqb_eq in Hreq. by rewrite Hreq in Ho.
Qed.

Lemma wp_decode_message_holds fixed_count s m :
  place m dest size -> stack_ok m -> fresh (S n) m fields dest ->
  stream_over m s (message_bytes (S n) fields vs) -> no_overlap dest size (is_state s) (bytes_left s) ->
  mapped_range m fixed_count 4 -> no_overlap fixed_count 4 (is_state s) (bytes_left s) -> no_overlap fixed_count 4 dest size ->
  wp (decode_message decode_msg fuel fixed_count s fields dest) (fun '(ok, s') m' =>
    ok = true /\ s' = advance s (Z.of_nat (length (message_bytes (S n) fields vs))) /\
    frame (fun y => range dest size y \/ range fixed_count 4 y) m m' /\ holds (S n) m' fields dest vs) m.
Proof.
  intros Hpl Hst Hfr Hs Hno Hc Hcs Hcd. destruct (singular_at readable _ _ _ Hfit Hsm) as (_ & Hpos & Hsg & _).
  unfold decode_message. apply wp_bind.
  apply (wp_store_le (range fixed_count 4) m); [apply frame_refl|done|done|]. intros m1 F1.
  assert (Hfr1 : fresh (S n) m1 fields dest).
  { eapply fresh_same; [exact Hfit|done| |exact Hfr]. eapply frame_same; [exact F1|]. intros x Hx Hx'. by apply (Hcd x). }
  assert (Hs1 : stream_over m1 s (bytes_from 0)).
  { unfold bytes_from. rewrite Nat.sub_0_r, <- (message_bytes_seq n fields vs (proj1 Hholds)).
    eapply stream_over_frame; [exact F1|exact Hcs|exact Hs]. }
  apply wp_bind. eapply wp_mono.
  { apply (wp_decode_loop_holds fixed_count (length fields) 0); [done| |by eapply place_frame|by eapply frame_stack_ok|exact Hs1|done| | |lia].
    - exists (iter_at fields dest 0), 0%nat. split; [done|by apply iter_on_at].
    - intros j x Hj. lia.
    - intros j [_ Hj]. by apply fresh_entries. }
  intros [[ok s2] v2] m2 (-> & -> & Hmet & F2 & Hall). cbn [negb]. pose proof Hmet as (it & p & Ev & Hon).
  destruct (required_present fixed_count it p m2 v2 Hmet Ev Hon) as (count & Ec & Eseen & Einc).
  apply wp_bind. eapply wp_intro; [exact Einc|]. apply wp_bind. eapply wp_intro; [exact Ec|]. rewrite Eseen. apply wp_ret.
  split; [done|]. split.
  { unfold bytes_from. by rewrite Nat.sub_0_r, <- (message_bytes_seq n fields vs (proj1 Hholds)). }
  split; [|split; [apply Hholds|exact Hall]].
  eapply frame_trans; [eapply frame_mono; [|exact F1]; by right|eapply frame_mono; [|exact F2]; by left].
Qed.
End Entries.
End Level.

(** * Whole messages *)

Lemma noinit_restores fuel n : (n <= fuel)%nat -> restores n (pb_decode_noinit fuel).
Proof.
  revert n. induction fuel as [|fuel IH]; intros n Hn fields dest size s m vs msrc src Hfit Hsm Hh Hlen Hpl Hst Hfr Hs Hno;
    (destruct n as [|n]; [done|]); [lia|].
  cbn [pb_decode_noinit]. apply (wp_with_local_same (range dest size) m); [done|apply frame_refl|]. cbv zeta.
  set (a := m_sp m - Z.of_nat 4). change (Z.of_nat 4) with 4.
  pose proof (bytes_at_mapped _ _ _ (so_bytes _ _ _ Hs)) as Hmap. rewrite <- (so_left _ _ _ Hs) in Hmap.
  assert (Hold : forall b k, mapped_range m b k -> mapped_range (push_local 4 m) b k).
  { intros b k Hb j Hj. by apply push_local_mapped_old, Hb. }
  assert (Hfree : forall b k, mapped_range m b k -> no_overlap a 4 b k).
  { intros b k Hb x Hx Hy. destruct (mapped_range_at _ _ _ x Hb Hy) as [y Hy']. rewrite Hst in Hy'; [done|]. unfold range, a in Hx. lia. }
  assert (Hkeep : forall b k, mapped_range m b k -> same_bytes (range b k) m (push_local 4 m)).
  { intros b k Hb x Hx. apply push_local_lookup; [done|]. by apply (mapped_range_at _ _ _ x Hb). }
  eapply wp_mono.
  { apply (wp_decode_message_holds n fuel (pb_decode_noinit fuel) (IH n ltac:(lia)) msrc src fields dest size vs Hfit Hsm Hh Hlen a s (push_local 4 m)).
    - split; [apply Hold, Hpl|]. intros b k Hb. by apply Hold, Hpl.
    - by apply push_local_stack_ok.
    - eapply fresh_same; [exact Hfit|done|apply Hkeep, Hpl|done].
    - destruct Hs as [H1 H2 H3 H4]. split; [done|done| |done]. eapply bytes_at_same; [|exact H3]. apply Hkeep. by rewrite <- H2.
    - done.
    - apply push_local_mapped.
    - by apply Hfree.
    - apply Hfree, Hpl. }
  intros [ok s'] m2 (-> & -> & F & Hh2). split; [exact F|]. intros m' F' Hsame. split_and!; [done..|].
  eapply holds_same; [exact Hfit|done| |exact Hh2]. intros x Hx. apply Hsame. by apply (mapped_range_at _ _ _ x (pl_dest _ _ _ Hpl)).
Qed.

(** [pb_decode] restores a structure wherever there is room, whatever the
    place held before. *)
Lemma wp_decode_holds fuel n fields dest size s m vs msrc src :
  (n <= fuel)%nat -> msg_fits readable n fields size = true -> singular_message n fields = true ->
  holds n msrc fields src vs -> Z.of_nat (length (message_bytes n fields vs)) < 2 ^ 30 ->
  place m dest size -> stack_ok m ->
  stream_over m s (message_bytes n fields vs) -> no_overlap dest size (is_state s) (bytes_left s) ->
  wp (pb_decode fuel s fields dest) (fun '(ok, s') m' =>
    ok = true /\ s' = advance s (Z.of_nat (length (message_bytes n fields vs))) /\
    frame (range dest size) m m' /\ holds n m' fields dest vs) m.
Proof.
  intros Hn Hfit Hsm Hh Hlen Hpl Hst Hs Hno. unfold pb_decode, pb_decode_with. apply wp_bind.
  eapply wp_mono; [by apply (wp_defaults_fresh fuel n fields dest size)|]. intros [] m1 [F1 Hfr].
  apply wp_bind. eapply wp_mono.
  { apply (noinit_restores fuel n Hn fields dest size s m1 vs msrc src); try done; [by eapply place_frame|by eapply frame_stack_ok|].
    eapply stream_over_frame; [exact F1|exact Hno|exact Hs]. }
  intros [ok s'] m2 (-> & -> & F2 & Hh2). cbn [negb]. apply wp_bind, wp_ret, wp_ret.
  split_and!; [done..|by eapply frame_trans|done].
Qed.
End Decode.
