(* ===== verification/PbMessageProps.v ===== *)
(** Whole messages survive encoding and decoding. *)

From stdpp Require Import base list gmap strings.
From Stdlib Require Import ZArith Lia.
From S2P Require Import Prelude CMem PbTypes PbCommon PbIter PbIstream PbOstream PbWire PbEncode PbEncodeSpec PbEncodeProps PbDecode PbDecodeMsg PbFieldProps PbMessage PbMessageEncode PbMessageDecode.

Section MessageProps.
Context `{Program} (readable : Z -> Z -> bool).

Lemma message_bytes_byte n m fields a vs size :
  msg_fits readable n fields size = true -> singular_message n fields = true -> holds n m fields a vs ->
  Forall is_byte (message_bytes n fields vs).
Proof.
  revert fields a vs size. induction n as [|n IH]; intros fields a vs size Hfit Hsm Hh; [constructor|].
  destruct (singular_at readable _ _ _ Hfit Hsm) as (_ & _ & Hsg & _). destruct Hh as [Hvs Hall].
  rewrite (message_bytes_seq n fields vs Hvs). apply Forall_concat, Forall_map, Forall_forall. intros i Hi.
  apply elem_of_seq in Hi as [_ Hi]. simpl in Hi. destruct (lookup_lt_is_Some_2 vs i ltac:(lia)) as [[v|] Hv]; rewrite Hv; [|constructor].
  destruct (Hall _ _ Hv) as [_ Hval]. cbn [from_option id field_bytes]. apply Forall_app. split.
  { destruct (value_wire_type _ _ _ _ _ Hval) as (wt & Ewt & Hwt). rewrite Ewt. cbn [from_option id].
    pose proof (sg_tag _ _ _ _ _ (Hsg i Hi)). rewrite tag_bytes_value by lia. apply varint_bytes. unfold tag_value. lia. }
  destruct v as [l|vs']; cbn [value_bytes].
  - by apply scalar_bytes_ok, Hval.
  - destruct Hval as (Hm & fields' & Ha & Hsub). destruct (sg_sub _ _ _ _ _ (Hsg i Hi) Hm) as (_ & fs & Ha' & Hfit' & Hsm').
    rewrite Ha in *. injection Ha' as <-. cbn [from_option id]. apply Forall_app. split; [apply varint_bytes; lia|]. by eapply IH.
Qed.

(** The memory without the output buffer. *)
Definition without (m : mem) (a k : Z) : mem := set_bytes m (unmap_range (m_bytes m) a (Z.to_nat k)).

Lemma without_lookup m a k x : ~ range a k x -> m_bytes (without m a k) !! x = m_bytes m !! x.
Proof. intros Hx. simpl. rewrite lookup_unmap_range. rewrite decide_False; [done|]. unfold range in Hx. lia. Qed.

Lemma without_output m a k : 0 <= k < len_limit -> mapped_range m a k -> output_buffer (without m a k) m a k.
Proof.
  intros Hk Hm. split; [|done|done|].
  - apply map_subseteq_spec. intros x b. simpl. rewrite lookup_unmap_range. by case_decide.
  - intros x Hx. simpl. rewrite lookup_unmap_range. rewrite decide_True; [done|]. unfold range in Hx. lia.
Qed.

(** A structure at [src] that holds [vs], an output buffer of [k] bytes at [a]
    with room for the encoding, and a place for the copy at [dest]. *)
Record roundtrip_input (n : nat) (fields : list pb_field_t) (size : Z) (m : mem) (src a k dest : Z) (vs : list (option value)) : Prop := {
  ri_fits : msg_fits readable n fields size = true;
  ri_singular : singular_message n fields = true;
  ri_src : 0 < src;
  ri_holds : holds n m fields src vs;
  ri_length : Z.of_nat (length (message_bytes n fields vs)) <= k < 2 ^ 30;
  ri_buffer : mapped_range m a k;
  ri_place : place readable m dest size;
  ri_stack : stack_ok m;
  ri_src_apart : no_overlap src size a k;
  ri_dest_apart : no_overlap dest size a k;
}.

(** What encoding and decoding do. *)
Definition roundtrip_result (fuel n : nat) (fields : list pb_field_t) (size : Z) (m : mem) (src a k dest : Z) (vs : list (option value)) : Prop :=
  let len := Z.of_nat (length (message_bytes n fields vs)) in
  exists err m1 s' m2,
    pb_encode fuel (pb_ostream_from_buffer a k) fields src m = Ret ((true, written a k len err), m1) /\
    frame (range a len) m m1 /\
    pb_decode fuel (pb_istream_from_buffer a len) fields dest m1 = Ret ((true, s'), m2) /\
    bytes_left s' = 0 /\ frame (range dest size) m1 m2 /\ holds n m2 fields dest vs.

Lemma encode_decode fuel n fields size m src a k dest vs :
  (n <= fuel)%nat -> roundtrip_input n fields size m src a k dest vs ->
  roundtrip_result fuel n fields size m src a k dest vs.
Proof.
  intros Hn [Hfit Hsm Hsrc Hh Hlen Hbuf Hpl Hst Hsa Hda]. unfold roundtrip_result. set (l := message_bytes n fields vs) in *.
  assert (Hob : output_buffer (without m a k) m a k) by (apply without_output; [unfold len_limit; lia|done]).
  assert (Hh0 : holds n (without m a k) fields src vs).
  { eapply (holds_same readable); [exact Hfit|done| |exact Hh]. intros x Hx. apply without_lookup. intros Hx'. by apply (Hsa x). }
  pose proof (ref_encode_holds readable n fuel _ fields src vs size Hn Hfit Hsm Hsrc Hh0 ltac:(fold l; lia)) as Eref. fold l in Eref.
  pose proof (emits_fresh _ _ _ _ a k _ (emits_encode fuel fields src) Eref Hob) as Henc. simpl in Henc.
  destruct (Z.leb_spec (Z.of_nat (length l)) k); [|lia]. destruct Henc as [err Henc].
  assert (Hl : mapped_range m a (Z.of_nat (length l))) by (eapply mapped_range_sub; [exact Hbuf|lia..]).
  pose proof (frame_poke m a l Hl) as F1. exists err, (poke m a l).
  pose proof (message_bytes_byte n m fields src vs size Hfit Hsm Hh) as Hby. fold l in Hby.
  destruct (wp_elim _ _ _ (wp_decode_holds readable fuel n fields dest size (pb_istream_from_buffer a (Z.of_nat (length l)))
    (poke m a l) vs m src Hn Hfit Hsm Hh ltac:(fold l; lia) (place_frame _ _ _ _ _ _ Hpl F1) (frame_stack_ok _ _ _ F1 Hst)
    (poke_stream m a l Hby) ltac:(intros x Hx Hy; apply (Hda x Hx); unfold range in *; simpl in Hy; lia)))
    as ([ok s'] & m2 & Edec & -> & -> & F2 & Hh2).
  eexists _, m2. split; [exact Henc|]. split; [done|]. split; [exact Edec|]. split; [|done]. simpl. fold l. lia.
Qed.

(** C16: whole messages survive the round trip. A structure of required and
    optional members - numbers, strings, byte arrays and submessages, nested
    to any depth - is encoded into any buffer that has room for its encoding,
    and decoding what was written puts the same values into another structure:
    the same members are present, with the same contents. *)
Theorem message_roundtrip fuel n fields size m src a k dest vs :
  (n <= fuel)%nat -> roundtrip_input n fields size m src a k dest vs ->
  roundtrip_result fuel n fields size m src a k dest vs.
Proof. apply encode_decode. Qed.
End MessageProps.

(** * A concrete message *)

Section MessageWitnesses.

(** A [sint32] at 4 with its flag at 0 and a string of 4 bytes at 8. *)
Definition inner_part : list pb_field_t :=
  [mkField 1 (PB_HTYPE_OPTIONAL + PB_LTYPE_SVARINT) 4 (-4) 4 0 0;
   mkField 2 (PB_HTYPE_REQUIRED + PB_LTYPE_STRING) 0 0 4 0 0].

(** An [int32] at 0; a byte array of 8 bytes at 8, a message at 20 and a
    [fixed32] at 36, each with its flag 4 bytes before it. *)
Definition whole : list pb_field_t :=
  [mkField 1 (PB_HTYPE_REQUIRED + PB_LTYPE_VARINT) 0 0 4 0 0;
   mkField 2 (PB_HTYPE_OPTIONAL + PB_LTYPE_BYTES) 4 (-4) 8 0 0;
   mkField 3 (PB_HTYPE_OPTIONAL + PB_LTYPE_SUBMESSAGE) 4 (-4) 12 0 512;
   mkField 4 (PB_HTYPE_OPTIONAL + PB_LTYPE_FIXED32) 4 (-4) 4 0 0].

#[local] Instance whole_program : Program := plain_program [(512, inner_part)].

Definition whole_values : list (option value) :=
  [Some (VBytes [150; 0; 0; 0]); Some (VBytes [1; 2; 3]);
   Some (VMessage [Some (VBytes [0xFE; 0xFF; 0xFF; 0xFF]); Some (VBytes [97; 98])]); None].

Definition whole_struct : list Z :=
  [150; 0; 0; 0;  1; 0xEE; 0xEE; 0xEE;  3; 0; 0; 0; 1; 2; 3; 0xEE;
   1; 0xEE; 0xEE; 0xEE;  1; 0xEE; 0xEE; 0xEE;  0xFE; 0xFF; 0xFF; 0xFF;  97; 98; 0; 0xEE;
   0; 0xEE; 0xEE; 0xEE;  9; 9; 9; 9].

(** The structure at [2 ^ 31], the place for the copy and the buffer after it. *)
Definition whole_mem : mem :=
  mem_add (mem_add (mem_of (2 ^ 31) whole_struct) (2 ^ 31 + 4096) (repeat 0xEE 40)) (2 ^ 31 + 8192) (repeat 0xEE 16).

Example whole_bytes :
  message_bytes 2 whole whole_values =
  [0x08; 0x96; 0x01;  0x12; 0x03; 0x01; 0x02; 0x03;  0x1A; 0x06; 0x08; 0x03; 0x12; 0x02; 0x61; 0x62].
Proof. vm_compute. reflexivity. Qed.

(** Entry by entry: the flag, then the contents. *)
Ltac concrete_entry :=
  split; [intros _; eexists; split; [vm_compute; reflexivity|reflexivity]
         | first [reflexivity | split; [vm_compute; reflexivity|solve_mem]]].

Lemma whole_holds : holds 2 whole_mem whole (2 ^ 31) whole_values.
Proof.
  split; [done|]. intros i v Hi. destruct i as [|[|[|[|i]]]]; [..|done]; injection Hi as <-; try concrete_entry.
  split; [intros _; eexists; split; [vm_compute; reflexivity|reflexivity]|]. split; [done|]. exists inner_part. split; [done|].
  split; [done|]. intros i v Hi. destruct i as [|[|i]]; [..|done]; injection Hi as <-; concrete_entry.
Qed.

Lemma message_roundtrip_witness :
  roundtrip_result 2 2 whole 40 whole_mem (2 ^ 31) (2 ^ 31 + 8192) 16 (2 ^ 31 + 4096) whole_values.
Proof.
  refine (message_roundtrip (fun _ _ => false) 2 2 whole 40 whole_mem _ _ _ _ whole_values (le_n _) _).
  split; [vm_compute; reflexivity|vm_compute; reflexivity|lia|exact whole_holds|rewrite whole_bytes; simpl; lia|solve_mem|
          |solve_mem|intros x; unfold range; lia..].
  split; [solve_mem|done].
Defined.
End MessageWitnesses.
