(* ===== verification/PbFields.v ===== *)
(** The generated message descriptors: [cct.nanopb.c] (the log requests and
    responses of GoogleDataTransport) and [firebasecore.nanopb.c] (the
    diagnostics of FirebaseCore), with the structures of their headers, the
    layout the compiler gives them and the macros of [pb.h] that turn members
    into descriptors. *)

From stdpp Require Import base list gmap strings.
From Stdlib Require Import ZArith Lia.
From S2P Require Import Prelude CMem PbTypes.

(** * C types and their layout on the 64-bit target *)

(** Numbers of [n] bytes, the structures of [pb.h] that hold variable data,
    pointers, arrays, structures and unions. *)
Inductive ctype : Type :=
| c_scalar (n : Z)
| c_bytes_array             (* pb_bytes_array_t: pb_size_t size; pb_byte_t bytes[1] *)
| c_callback                (* pb_callback_t: a function pointer; void *arg *)
| c_ptr (t : ctype)
| c_array (n : nat) (t : ctype)
| c_struct (members : list (string * ctype))
| c_union (members : list (string * ctype)).

Abbreviation c_bool := (c_scalar 1).
Abbreviation c_int32 := (c_scalar 4).
Abbreviation c_uint32 := (c_scalar 4).
Abbreviation c_enum := (c_scalar 4).
Abbreviation c_int64 := (c_scalar 8).

(** The next multiple of [a]. *)
Definition align (x a : Z) : Z := (x + a - 1) / a * a.

Fixpoint alignof (t : ctype) : Z :=
  match t with
  | c_scalar n => n
  | c_bytes_array => 4
  | c_callback | c_ptr _ => 8
  | c_array _ t => alignof t
  | c_struct ms | c_union ms => fold_right (fun m a => Z.max (alignof (snd m)) a) 1 ms
  end.

Fixpoint sizeof (t : ctype) : Z :=
  match t with
  | c_scalar n => n
  | c_bytes_array | c_ptr _ => 8
  | c_callback => 16
  | c_array n t => Z.of_nat n * sizeof t
  | c_struct ms =>
      align (fold_left (fun off m => align off (alignof (snd m)) + sizeof (snd m)) ms 0) (alignof (c_struct ms))
  | c_union ms => align (fold_right (fun m a => Z.max (sizeof (snd m)) a) 0 ms) (alignof (c_union ms))
  end.

(** The offset and type of a member of a structure, from offset [off] on,
    and the type of a member of a union. *)
Fixpoint member_from (ms : list (string * ctype)) (off : Z) (name : string) : option (Z * ctype) :=
  match ms with
  | [] => None
  | (n, t) :: ms' =>
      let start := align off (alignof t) in
      if String.eqb n name then Some (start, t) else member_from ms' (start + sizeof t) name
  end.

Definition union_member (ms : list (string * ctype)) (name : string) : option (Z * ctype) :=
  pair 0 <$> (snd <$> find (fun m => String.eqb (fst m) name) ms).

Definition direct_member (st : ctype) (m : string) : Z * ctype :=
  default (0, c_scalar 0)
    (match st with
     | c_struct ms => member_from ms 0 m
     | c_union ms => union_member ms m
     | _ => None
     end).

(** A member designator: [m], or [u.m] for a member of a union or structure
    of [st]. *)
Definition member (st : ctype) (m : string) : Z * ctype :=
  match String.index 0 "." m with
  | None => direct_member st m
  | Some k =>
      let outer := direct_member st (String.substring 0 k m) in
      let inner := direct_member (snd outer) (String.substring (S k) (String.length m) m) in
      (fst outer + fst inner, snd inner)
  end.

Definition offsetof (st : ctype) (m : string) : Z := fst (member st m).

(** [sizeof ((st * )0)->m], [sizeof ((st * )0)->m[0]] and their quotient. *)
Definition elem_size (t : ctype) : Z := match t with c_ptr t | c_array _ t => sizeof t | _ => 0 end.
Definition pb_membersize (st : ctype) (m : string) : Z := sizeof (snd (member st m)).
Definition pb_elemsize (st : ctype) (m : string) : Z := elem_size (snd (member st m)).
Definition pb_arraysize (st : ctype) (m : string) : Z := pb_membersize st m / pb_elemsize st m.

Definition pb_delta (st : ctype) (m1 m2 : string) : Z := offsetof st m1 - offsetof st m2.

(** * The macros of [pb.h] *)

Inductive field_type : Type :=
| BOOL | BYTES | DOUBLE | ENUM | UENUM | FIXED32 | FIXED64 | FLOAT | INT32 | INT64 | MESSAGE
| SFIXED32 | SFIXED64 | SINT32 | SINT64 | STRING | UINT32 | UINT64 | EXTENSION | FIXED_LENGTH_BYTES.

Inductive field_rules : Type := REQUIRED | OPTIONAL | SINGULAR | REPEATED | OPTEXT.
Inductive allocation : Type := STATIC | POINTER | CALLBACK.
Inductive placement : Type := FIRST | OTHER | UNION.

Definition PB_LTYPE_MAP (t : field_type) : Z :=
  match t with
  | BOOL | ENUM | INT32 | INT64 => PB_LTYPE_VARINT
  | UENUM | UINT32 | UINT64 => PB_LTYPE_UVARINT
  | SINT32 | SINT64 => PB_LTYPE_SVARINT
  | FIXED32 | FLOAT | SFIXED32 => PB_LTYPE_FIXED32
  | FIXED64 | DOUBLE | SFIXED64 => PB_LTYPE_FIXED64
  | BYTES => PB_LTYPE_BYTES
  | STRING => PB_LTYPE_STRING
  | MESSAGE => PB_LTYPE_SUBMESSAGE
  | EXTENSION => PB_LTYPE_EXTENSION
  | FIXED_LENGTH_BYTES => PB_LTYPE_FIXED_LENGTH_BYTES
  end.

(** [data_offset] is a [uint32_t]. *)
Definition PB_DATAOFFSET (p : placement) (st : ctype) (m1 m2 : string) : Z :=
  match p with
  | FIRST => offsetof st m1
  | OTHER => u32 (offsetof st m1 - offsetof st m2 - pb_membersize st m2)
  | UNION => PB_SIZE_MAX
  end.

Definition pb_type (atype htype ltype : Z) : Z := Z.lor (Z.lor atype htype) ltype.

(** The member and its descriptor, given the bits of its type. *)
Definition PB_REQUIRED_STATIC (tag : Z) (st : ctype) (m : string) (fd ltype ptr : Z) : pb_field_t :=
  mkField tag (pb_type PB_ATYPE_STATIC PB_HTYPE_REQUIRED ltype) fd 0 (pb_membersize st m) 0 ptr.

Definition PB_OPTIONAL_STATIC (tag : Z) (st : ctype) (m : string) (fd ltype ptr : Z) : pb_field_t :=
  mkField tag (pb_type PB_ATYPE_STATIC PB_HTYPE_OPTIONAL ltype) fd
    (pb_delta st ("has_" ++ m) m) (pb_membersize st m) 0 ptr.

Definition PB_SINGULAR_STATIC (tag : Z) (st : ctype) (m : string) (fd ltype ptr : Z) : pb_field_t :=
  mkField tag (pb_type PB_ATYPE_STATIC PB_HTYPE_OPTIONAL ltype) fd 0 (pb_membersize st m) 0 ptr.

Definition PB_REPEATED_STATIC (tag : Z) (st : ctype) (m : string) (fd ltype ptr : Z) : pb_field_t :=
  mkField tag (pb_type PB_ATYPE_STATIC PB_HTYPE_REPEATED ltype) fd
    (pb_delta st (m ++ "_count") m) (pb_elemsize st m) (pb_arraysize st m) ptr.

Definition PB_REQUIRED_POINTER (tag : Z) (st : ctype) (m : string) (fd ltype ptr : Z) : pb_field_t :=
  mkField tag (pb_type PB_ATYPE_POINTER PB_HTYPE_REQUIRED ltype) fd 0 (pb_elemsize st m) 0 ptr.

Definition PB_OPTIONAL_POINTER (tag : Z) (st : ctype) (m : string) (fd ltype ptr : Z) : pb_field_t :=
  mkField tag (pb_type PB_ATYPE_POINTER PB_HTYPE_OPTIONAL ltype) fd 0 (pb_elemsize st m) 0 ptr.

Definition PB_SINGULAR_POINTER (tag : Z) (st : ctype) (m : string) (fd ltype ptr : Z) : pb_field_t :=
  mkField tag (pb_type PB_ATYPE_POINTER PB_HTYPE_OPTIONAL ltype) fd 0 (pb_elemsize st m) 0 ptr.

Definition PB_REPEATED_POINTER (tag : Z) (st : ctype) (m : string) (fd ltype ptr : Z) : pb_field_t :=
  mkField tag (pb_type PB_ATYPE_POINTER PB_HTYPE_REPEATED ltype) fd
    (pb_delta st (m ++ "_count") m) (pb_elemsize st m) 0 ptr.

(** [PB_REQUIRED_CALLBACK] to [PB_REPEATED_CALLBACK] differ in the rule. *)
Definition PB_CALLBACK (htype tag : Z) (st : ctype) (m : string) (fd ltype ptr : Z) : pb_field_t :=
  mkField tag (pb_type PB_ATYPE_CALLBACK htype ltype) fd 0 (pb_membersize st m) 0 ptr.

(** Extensions ignore the offset [fd]. *)
Definition PB_OPTEXT_STATIC (tag : Z) (st : ctype) (m : string) (fd ltype ptr : Z) : pb_field_t :=
  mkField tag (pb_type PB_ATYPE_STATIC PB_HTYPE_REQUIRED ltype) 0 0 (pb_membersize st m) 0 ptr.

Definition PB_FIELD (tag : Z) (type : field_type) (rules : field_rules) (alloc : allocation) (p : placement)
    (message : ctype) (field prevfield : string) (ptr : Z) : pb_field_t :=
  (match alloc, rules with
   | STATIC, REQUIRED => PB_REQUIRED_STATIC
   | STATIC, OPTIONAL => PB_OPTIONAL_STATIC
   | STATIC, SINGULAR => PB_SINGULAR_STATIC
   | STATIC, REPEATED => PB_REPEATED_STATIC
   | STATIC, OPTEXT => PB_OPTEXT_STATIC
   | POINTER, REQUIRED => PB_REQUIRED_POINTER
   | POINTER, OPTIONAL | POINTER, OPTEXT => PB_OPTIONAL_POINTER
   | POINTER, SINGULAR => PB_SINGULAR_POINTER
   | POINTER, REPEATED => PB_REPEATED_POINTER
   | CALLBACK, REQUIRED => PB_CALLBACK PB_HTYPE_REQUIRED
   | CALLBACK, OPTIONAL | CALLBACK, SINGULAR | CALLBACK, OPTEXT => PB_CALLBACK PB_HTYPE_OPTIONAL
   | CALLBACK, REPEATED => PB_CALLBACK PB_HTYPE_REPEATED
   end) tag message field (PB_DATAOFFSET p message field prevfield) (PB_LTYPE_MAP type) ptr.

Definition PB_REPEATED_FIXED_COUNT (tag : Z) (type : field_type) (p : placement)
    (message : ctype) (field prevfield : string) (ptr : Z) : pb_field_t :=
  mkField tag (pb_type PB_ATYPE_STATIC PB_HTYPE_REPEATED (PB_LTYPE_MAP type))
    (PB_DATAOFFSET p message field prevfield) 0 (pb_elemsize message field) (pb_arraysize message field) ptr.

Definition PB_ONEOF_STATIC (u : string) (tag : Z) (st : ctype) (m : string) (fd ltype ptr : Z) : pb_field_t :=
  mkField tag (pb_type PB_ATYPE_STATIC PB_HTYPE_ONEOF ltype) fd
    (pb_delta st ("which_" ++ u) (u ++ "." ++ m)) (pb_membersize st (u ++ "." ++ m)) 0 ptr.

Definition PB_ONEOF_POINTER (u : string) (tag : Z) (st : ctype) (m : string) (fd ltype ptr : Z) : pb_field_t :=
  mkField tag (pb_type PB_ATYPE_POINTER PB_HTYPE_ONEOF ltype) fd
    (pb_delta st ("which_" ++ u) (u ++ "." ++ m)) (pb_elemsize st (u ++ "." ++ m)) 0 ptr.

(** There is no union member with a callback. *)
Definition PB_ONEOF_FIELD (u : string) (tag : Z) (type : field_type) (pointer : bool) (p : placement)
    (message : ctype) (field prevfield : string) (ptr : Z) : pb_field_t :=
  (if pointer then PB_ONEOF_POINTER else PB_ONEOF_STATIC) u tag message field
    (PB_DATAOFFSET p message (u ++ "." ++ field) prevfield) (PB_LTYPE_MAP type) ptr.

(** * Structures of [cct.nanopb.h] *)

Definition gdt_cct_NetworkConnectionInfo_NetworkType : list (string * Z) :=
  [("NONE", (-1)); ("MOBILE", 0); ("WIFI", 1); ("MOBILE_MMS", 2);
   ("MOBILE_SUPL", 3); ("MOBILE_DUN", 4); ("MOBILE_HIPRI", 5); ("WIMAX", 6);
   ("BLUETOOTH", 7); ("DUMMY", 8); ("ETHERNET", 9); ("MOBILE_FOTA", 10);
   ("MOBILE_IMS", 11); ("MOBILE_CBS", 12); ("WIFI_P2P", 13); ("MOBILE_IA", 14);
   ("MOBILE_EMERGENCY", 15); ("PROXY", 16); ("VPN", 17)].

Definition gdt_cct_NetworkConnectionInfo_MobileSubtype : list (string * Z) :=
  [("UNKNOWN_MOBILE_SUBTYPE", 0); ("GPRS", 1); ("EDGE", 2); ("UMTS", 3);
   ("CDMA", 4); ("EVDO_0", 5); ("EVDO_A", 6); ("RTT", 7);
   ("HSDPA", 8); ("HSUPA", 9); ("HSPA", 10); ("IDEN", 11);
   ("EVDO_B", 12); ("LTE", 13); ("EHRPD", 14); ("HSPAP", 15);
   ("GSM", 16); ("TD_SCDMA", 17); ("IWLAN", 18); ("LTE_CA", 19);
   ("COMBINED", 100)].

Definition gdt_cct_ClientInfo_ClientType : list (string * Z) :=
  [("CLIENT_UNKNOWN", 0); ("IOS_FIREBASE", 15)].

Definition gdt_cct_QosTierConfiguration_QosTier : list (string * Z) :=
  [("DEFAULT", 0); ("UNMETERED_ONLY", 1); ("UNMETERED_OR_DAILY", 2); ("FAST_IF_RADIO_AWAKE", 3);
   ("NEVER", 4)].

Definition gdt_cct_IosClientInfo : ctype := c_struct
  [("os_major_version", c_ptr c_bytes_array);
   ("os_full_version", c_ptr c_bytes_array);
   ("application_build", c_ptr c_bytes_array);
   ("country", c_ptr c_bytes_array);
   ("model", c_ptr c_bytes_array);
   ("language_code", c_ptr c_bytes_array);
   ("application_bundle_id", c_ptr c_bytes_array)].

Definition gdt_cct_ClientInfo : ctype := c_struct
  [("has_client_type", c_bool);
   ("client_type", c_enum);
   ("has_ios_client_info", c_bool);
   ("ios_client_info", gdt_cct_IosClientInfo)].

Definition gdt_cct_NetworkConnectionInfo : ctype := c_struct
  [("has_network_type", c_bool);
   ("network_type", c_enum);
   ("has_mobile_subtype", c_bool);
   ("mobile_subtype", c_enum)].

Definition gdt_cct_LogEvent : ctype := c_struct
  [("has_event_time_ms", c_bool);
   ("event_time_ms", c_int64);
   ("source_extension", c_ptr c_bytes_array);
   ("has_event_code", c_bool);
   ("event_code", c_int32);
   ("has_timezone_offset_seconds", c_bool);
   ("timezone_offset_seconds", c_int64);
   ("has_event_uptime_ms", c_bool);
   ("event_uptime_ms", c_int64);
   ("has_network_connection_info", c_bool);
   ("network_connection_info", gdt_cct_NetworkConnectionInfo)].

Definition gdt_cct_LogRequest : ctype := c_struct
  [("has_client_info", c_bool);
   ("client_info", gdt_cct_ClientInfo);
   ("has_log_source", c_bool);
   ("log_source", c_int32);
   ("log_event_count", c_uint32);
   ("log_event", c_ptr gdt_cct_LogEvent);
   ("has_request_time_ms", c_bool);
   ("request_time_ms", c_int64);
   ("has_request_uptime_ms", c_bool);
   ("request_uptime_ms", c_int64);
   ("has_qos_tier", c_bool);
   ("qos_tier", c_enum)].

Definition gdt_cct_BatchedLogRequest : ctype := c_struct
  [("log_request_count", c_uint32);
   ("log_request", c_ptr gdt_cct_LogRequest)].

Definition gdt_cct_QosTierConfiguration : ctype := c_struct
  [("has_qos_tier", c_bool);
   ("qos_tier", c_enum);
   ("has_log_source", c_bool);
   ("log_source", c_int32)].

Definition gdt_cct_QosTiersOverride : ctype := c_struct
  [("qos_tier_configuration_count", c_uint32);
   ("qos_tier_configuration", c_ptr gdt_cct_QosTierConfiguration);
   ("has_qos_tier_fingerprint", c_bool);
   ("qos_tier_fingerprint", c_int64)].

Definition gdt_cct_LogResponse : ctype := c_struct
  [("has_next_request_wait_millis", c_bool);
   ("next_request_wait_millis", c_int64);
   ("has_qos_tier", c_bool);
   ("qos_tier", gdt_cct_QosTiersOverride)].

(** The largest encodings of the messages whose size is bounded. *)
Definition gdt_cct_NetworkConnectionInfo_size : Z := 13.
Definition gdt_cct_QosTierConfiguration_size : Z := 13.

(** * Structures of [firebasecore.nanopb.h] *)

Definition logs_proto_mobilesdk_ios_ICoreConfiguration_ConfigurationType : list (string * Z) :=
  [("UNKNOWN_CONFIGURATION_TYPE", 0); ("CORE", 1); ("SDK", 2)].

Definition logs_proto_mobilesdk_ios_ICoreConfiguration_BuildType : list (string * Z) :=
  [("UNKNOWN_BUILD_TYPE", 0); ("INTERNAL", 1); ("EAP", 2); ("PROD", 3)].

Definition logs_proto_mobilesdk_ios_ICoreConfiguration_ServiceType : list (string * Z) :=
  [("UNKNOWN_SDK_SERVICE", 0); ("ICORE", 1); ("ADMOB", 2); ("APP_INVITE", 3);
   ("SIGN_IN", 5); ("GCM", 6); ("MAPS", 7); ("SCION", 8);
   ("ANALYTICS", 9); ("APP_INDEXING", 10); ("CONFIG", 11); ("DURABLE_DEEP_LINKS", 12);
   ("CRASH", 13); ("AUTH", 14); ("DATABASE", 15); ("STORAGE", 16);
   ("MESSAGING", 17); ("MEASUREMENT", 18); ("REMOTE_CONFIG", 19); ("DYNAMIC_LINKS", 20);
   ("INVITES", 21); ("AUTH_UI", 22); ("FIRESTORE", 23); ("PERFORMANCE", 24);
   ("ML_VISION_ON_DEVICE_FACE", 26); ("ML_VISION_ON_DEVICE_BARCODE", 27); ("ML_VISION_ON_DEVICE_TEXT", 28); ("ML_VISION_ON_DEVICE_LABEL", 29);
   ("ML_MODEL_INTERPRETER", 30); ("IN_APP_MESSAGING", 31); ("FUNCTIONS", 32); ("ML_NATURAL_LANGUAGE", 33);
   ("ML_VISION_ON_DEVICE_AUTOML", 34); ("ML_VISION_ON_DEVICE_OBJECT_DETECTION", 35)].

Definition logs_proto_mobilesdk_ios_ICoreConfiguration_PodName : list (string * Z) :=
  [("UNKNOWN_POD_NAME", 0); ("GOOGLE", 1); ("FIREBASE", 2)].

Definition logs_proto_mobilesdk_ios_ICoreConfiguration_DeploymentType : list (string * Z) :=
  [("UNKNOWN", 0); ("COCOAPODS", 1); ("ZIP_FILE", 2); ("CARTHAGE", 3);
   ("SPM", 4)].

Definition logs_proto_mobilesdk_ios_ICoreConfiguration : ctype := c_struct
  [("has_configuration_type", c_bool);
   ("configuration_type", c_enum);
   ("sdk_service_installed_count", c_uint32);
   ("sdk_service_installed", c_ptr c_enum);
   ("device_model", c_ptr c_bytes_array);
   ("app_id", c_ptr c_bytes_array);
   ("bundle_id", c_ptr c_bytes_array);
   ("has_pod_name", c_bool);
   ("pod_name", c_enum);
   ("icore_version", c_ptr c_bytes_array);
   ("sdk_version", c_ptr c_bytes_array);
   ("has_sdk_name", c_bool);
   ("sdk_name", c_enum);
   ("has_app_count", c_bool);
   ("app_count", c_int32);
   ("os_version", c_ptr c_bytes_array);
   ("min_supported_ios_version", c_ptr c_bytes_array);
   ("has_use_default_app", c_bool);
   ("use_default_app", c_bool);
   ("has_deployed_in_app_store", c_bool);
   ("deployed_in_app_store", c_bool);
   ("has_dynamic_framework_count", c_bool);
   ("dynamic_framework_count", c_int32);
   ("apple_framework_version", c_ptr c_bytes_array);
   ("has_using_zip_file", c_bool);
   ("using_zip_file", c_bool);
   ("has_deployment_type", c_bool);
   ("deployment_type", c_enum);
   ("platform_info", c_ptr c_bytes_array);
   ("has_swizzling_enabled", c_bool);
   ("swizzling_enabled", c_bool);
   ("has_using_gdt", c_bool);
   ("using_gdt", c_bool)].

(** * The descriptor arrays *)

Section Tables.
(** Where the linker puts the constants and the descriptor arrays. *)
Variable addr : string -> Z.

Definition gdt_cct_LogEvent_fields : list pb_field_t :=
  [PB_FIELD 1 INT64 OPTIONAL STATIC FIRST gdt_cct_LogEvent "event_time_ms" "event_time_ms" 0;
   PB_FIELD 6 BYTES OPTIONAL POINTER OTHER gdt_cct_LogEvent "source_extension" "event_time_ms" 0;
   PB_FIELD 11 INT32 OPTIONAL STATIC OTHER gdt_cct_LogEvent "event_code" "source_extension" 0;
   PB_FIELD 15 SINT64 OPTIONAL STATIC OTHER gdt_cct_LogEvent "timezone_offset_seconds" "event_code" 0;
   PB_FIELD 17 INT64 OPTIONAL STATIC OTHER gdt_cct_LogEvent "event_uptime_ms" "timezone_offset_seconds" 0;
   PB_FIELD 23 MESSAGE OPTIONAL STATIC OTHER gdt_cct_LogEvent "network_connection_info" "event_uptime_ms" (addr "gdt_cct_NetworkConnectionInfo_fields")].

Definition gdt_cct_NetworkConnectionInfo_fields : list pb_field_t :=
  [PB_FIELD 1 ENUM OPTIONAL STATIC FIRST gdt_cct_NetworkConnectionInfo "network_type" "network_type" (addr "gdt_cct_NetworkConnectionInfo_network_type_default");
   PB_FIELD 2 UENUM OPTIONAL STATIC OTHER gdt_cct_NetworkConnectionInfo "mobile_subtype" "network_type" (addr "gdt_cct_NetworkConnectionInfo_mobile_subtype_default")].

Definition gdt_cct_IosClientInfo_fields : list pb_field_t :=
  [PB_FIELD 3 BYTES OPTIONAL POINTER FIRST gdt_cct_IosClientInfo "os_major_version" "os_major_version" 0;
   PB_FIELD 4 BYTES OPTIONAL POINTER OTHER gdt_cct_IosClientInfo "os_full_version" "os_major_version" 0;
   PB_FIELD 5 BYTES OPTIONAL POINTER OTHER gdt_cct_IosClientInfo "application_build" "os_full_version" 0;
   PB_FIELD 6 BYTES OPTIONAL POINTER OTHER gdt_cct_IosClientInfo "country" "application_build" 0;
   PB_FIELD 7 BYTES OPTIONAL POINTER OTHER gdt_cct_IosClientInfo "model" "country" 0;
   PB_FIELD 8 BYTES OPTIONAL POINTER OTHER gdt_cct_IosClientInfo "language_code" "model" 0;
   PB_FIELD 11 BYTES OPTIONAL POINTER OTHER gdt_cct_IosClientInfo "application_bundle_id" "language_code" 0].

Definition gdt_cct_ClientInfo_fields : list pb_field_t :=
  [PB_FIELD 1 UENUM OPTIONAL STATIC FIRST gdt_cct_ClientInfo "client_type" "client_type" 0;
   PB_FIELD 4 MESSAGE OPTIONAL STATIC OTHER gdt_cct_ClientInfo "ios_client_info" "client_type" (addr "gdt_cct_IosClientInfo_fields")].

Definition gdt_cct_BatchedLogRequest_fields : list pb_field_t :=
  [PB_FIELD 1 MESSAGE REPEATED POINTER FIRST gdt_cct_BatchedLogRequest "log_request" "log_request" (addr "gdt_cct_LogRequest_fields")].

Definition gdt_cct_LogRequest_fields : list pb_field_t :=
  [PB_FIELD 1 MESSAGE OPTIONAL STATIC FIRST gdt_cct_LogRequest "client_info" "client_info" (addr "gdt_cct_ClientInfo_fields");
   PB_FIELD 2 INT32 OPTIONAL STATIC OTHER gdt_cct_LogRequest "log_source" "client_info" 0;
   PB_FIELD 3 MESSAGE REPEATED POINTER OTHER gdt_cct_LogRequest "log_event" "log_source" (addr "gdt_cct_LogEvent_fields");
   PB_FIELD 4 INT64 OPTIONAL STATIC OTHER gdt_cct_LogRequest "request_time_ms" "log_event" 0;
   PB_FIELD 8 INT64 OPTIONAL STATIC OTHER gdt_cct_LogRequest "request_uptime_ms" "request_time_ms" 0;
   PB_FIELD 9 UENUM OPTIONAL STATIC OTHER gdt_cct_LogRequest "qos_tier" "request_uptime_ms" (addr "gdt_cct_LogRequest_qos_tier_default")].

Definition gdt_cct_QosTierConfiguration_fields : list pb_field_t :=
  [PB_FIELD 2 UENUM OPTIONAL STATIC FIRST gdt_cct_QosTierConfiguration "qos_tier" "qos_tier" 0;
   PB_FIELD 3 INT32 OPTIONAL STATIC OTHER gdt_cct_QosTierConfiguration "log_source" "qos_tier" (addr "gdt_cct_QosTierConfiguration_log_source_default")].

Definition gdt_cct_QosTiersOverride_fields : list pb_field_t :=
  [PB_FIELD 1 MESSAGE REPEATED POINTER FIRST gdt_cct_QosTiersOverride "qos_tier_configuration" "qos_tier_configuration" (addr "gdt_cct_QosTierConfiguration_fields");
   PB_FIELD 2 INT64 OPTIONAL STATIC OTHER gdt_cct_QosTiersOverride "qos_tier_fingerprint" "qos_tier_configuration" 0].

Definition gdt_cct_LogResponse_fields : list pb_field_t :=
  [PB_FIELD 1 INT64 OPTIONAL STATIC FIRST gdt_cct_LogResponse "next_request_wait_millis" "next_request_wait_millis" 0;
   PB_FIELD 3 MESSAGE OPTIONAL STATIC OTHER gdt_cct_LogResponse "qos_tier" "next_request_wait_millis" (addr "gdt_cct_QosTiersOverride_fields")].

Definition logs_proto_mobilesdk_ios_ICoreConfiguration_fields : list pb_field_t :=
  [PB_FIELD 1 UENUM OPTIONAL STATIC FIRST logs_proto_mobilesdk_ios_ICoreConfiguration "configuration_type" "configuration_type" 0;
   PB_FIELD 7 UENUM REPEATED POINTER OTHER logs_proto_mobilesdk_ios_ICoreConfiguration "sdk_service_installed" "configuration_type" 0;
   PB_FIELD 9 BYTES OPTIONAL POINTER OTHER logs_proto_mobilesdk_ios_ICoreConfiguration "device_model" "sdk_service_installed" 0;
   PB_FIELD 10 BYTES OPTIONAL POINTER OTHER logs_proto_mobilesdk_ios_ICoreConfiguration "app_id" "device_model" 0;
   PB_FIELD 12 BYTES OPTIONAL POINTER OTHER logs_proto_mobilesdk_ios_ICoreConfiguration "bundle_id" "app_id" 0;
   PB_FIELD 16 UENUM OPTIONAL STATIC OTHER logs_proto_mobilesdk_ios_ICoreConfiguration "pod_name" "bundle_id" 0;
   PB_FIELD 18 BYTES OPTIONAL POINTER OTHER logs_proto_mobilesdk_ios_ICoreConfiguration "icore_version" "pod_name" 0;
   PB_FIELD 19 BYTES OPTIONAL POINTER OTHER logs_proto_mobilesdk_ios_ICoreConfiguration "sdk_version" "icore_version" 0;
   PB_FIELD 20 UENUM OPTIONAL STATIC OTHER logs_proto_mobilesdk_ios_ICoreConfiguration "sdk_name" "sdk_version" 0;
   PB_FIELD 21 INT32 OPTIONAL STATIC OTHER logs_proto_mobilesdk_ios_ICoreConfiguration "app_count" "sdk_name" 0;
   PB_FIELD 22 BYTES OPTIONAL POINTER OTHER logs_proto_mobilesdk_ios_ICoreConfiguration "os_version" "app_count" 0;
   PB_FIELD 24 BYTES OPTIONAL POINTER OTHER logs_proto_mobilesdk_ios_ICoreConfiguration "min_supported_ios_version" "os_version" 0;
   PB_FIELD 25 BOOL OPTIONAL STATIC OTHER logs_proto_mobilesdk_ios_ICoreConfiguration "use_default_app" "min_supported_ios_version" 0;
   PB_FIELD 26 BOOL OPTIONAL STATIC OTHER logs_proto_mobilesdk_ios_ICoreConfiguration "deployed_in_app_store" "use_default_app" 0;
   PB_FIELD 27 INT32 OPTIONAL STATIC OTHER logs_proto_mobilesdk_ios_ICoreConfiguration "dynamic_framework_count" "deployed_in_app_store" 0;
   PB_FIELD 28 BYTES OPTIONAL POINTER OTHER logs_proto_mobilesdk_ios_ICoreConfiguration "apple_framework_version" "dynamic_framework_count" 0;
   PB_FIELD 29 BOOL OPTIONAL STATIC OTHER logs_proto_mobilesdk_ios_ICoreConfiguration "using_zip_file" "apple_framework_version" 0;
   PB_FIELD 30 UENUM OPTIONAL STATIC OTHER logs_proto_mobilesdk_ios_ICoreConfiguration "deployment_type" "using_zip_file" 0;
   PB_FIELD 31 BYTES OPTIONAL POINTER OTHER logs_proto_mobilesdk_ios_ICoreConfiguration "platform_info" "deployment_type" 0;
   PB_FIELD 33 BOOL OPTIONAL STATIC OTHER logs_proto_mobilesdk_ios_ICoreConfiguration "swizzling_enabled" "platform_info" 0;
   PB_FIELD 36 BOOL OPTIONAL STATIC OTHER logs_proto_mobilesdk_ios_ICoreConfiguration "using_gdt" "swizzling_enabled" 0].

(** The program that these arrays belong to. *)
Definition generated_arrays : list (Z * list pb_field_t) :=
  [(addr "gdt_cct_LogEvent_fields", gdt_cct_LogEvent_fields);
   (addr "gdt_cct_NetworkConnectionInfo_fields", gdt_cct_NetworkConnectionInfo_fields);
   (addr "gdt_cct_IosClientInfo_fields", gdt_cct_IosClientInfo_fields);
   (addr "gdt_cct_ClientInfo_fields", gdt_cct_ClientInfo_fields);
   (addr "gdt_cct_BatchedLogRequest_fields", gdt_cct_BatchedLogRequest_fields);
   (addr "gdt_cct_LogRequest_fields", gdt_cct_LogRequest_fields);
   (addr "gdt_cct_QosTierConfiguration_fields", gdt_cct_QosTierConfiguration_fields);
   (addr "gdt_cct_QosTiersOverride_fields", gdt_cct_QosTiersOverride_fields);
   (addr "gdt_cct_LogResponse_fields", gdt_cct_LogResponse_fields);
   (addr "logs_proto_mobilesdk_ios_ICoreConfiguration_fields", logs_proto_mobilesdk_ios_ICoreConfiguration_fields)].
End Tables.
