(* ===== verification/PbFieldsProps.v ===== *)
(** The generated descriptors lead the field iterator to the members of the
    structures they describe. *)

From stdpp Require Import base list gmap strings.
From Stdlib Require Import ZArith Lia.
From S2P Require Import Prelude CMem PbTypes PbCommon PbIter PbIstream PbDecode PbDecodeSafe PbDecodeMsg PbDecodeProps PbOstream PbWire PbEncodeSpec PbFieldProps PbMessage PbMessageEncode PbMessageDecode PbMessageProps PbFields.

(** * Descriptor arrays as the generator writes them *)

(** One line of an array: the arguments of [PB_FIELD] but for the placement
    and the neighbour. *)
Record row : Type := mkRow {
  r_tag : Z;
  r_type : field_type;
  r_rules : field_rules;
  r_alloc : allocation;
  r_name : string;
  r_ptr : Z;
}.

Definition row_field (st : ctype) (p : placement) (prev : string) (r : row) : pb_field_t :=
  PB_FIELD (r_tag r) (r_type r) (r_rules r) (r_alloc r) p st (r_name r) prev (r_ptr r).

(** Each line after the first names the line before it. *)
Fixpoint fields_from (st : ctype) (prev : string) (rows : list row) : list pb_field_t :=
  match rows with
  | [] => []
  | r :: rows' => row_field st OTHER prev r :: fields_from st (r_name r) rows'
  end.

Definition fields_of (st : ctype) (rows : list row) : list pb_field_t :=
  match rows with
  | [] => []
  | r :: rows' => row_field st FIRST (r_name r) r :: fields_from st (r_name r) rows'
  end.

(** The member beside a field: its [has] flag, its count, or none. *)
Definition companion (r : row) : string :=
  match r_rules r, r_alloc r with
  | OPTIONAL, STATIC => "has_" ++ r_name r
  | REPEATED, STATIC | REPEATED, POINTER => r_name r ++ "_count"
  | _, _ => r_name r
  end.

(** The type of the member suits the rules and the allocation; extensions are
    no members. *)
Definition row_ok (st : ctype) (r : row) : bool :=
  let t := snd (member st (r_name r)) in
  negb (r_tag r =? 0) &&
  match r_alloc r, r_rules r with
  | _, OPTEXT => false
  | POINTER, _ => match t with c_ptr _ => true | _ => false end
  | STATIC, REPEATED => match t with c_array n t => (0 <? sizeof t) && (Z.of_nat n * sizeof t <? 2 ^ 64) | _ => false end
  | _, _ => true
  end.

(** A member lies behind the one before it. *)
Definition follows (st : ctype) (prev : string) (r : row) : bool :=
  (offsetof st prev + pb_membersize st prev <=? offsetof st (r_name r)) &&
  (offsetof st (r_name r) <? offsetof st prev + pb_membersize st prev + 2 ^ 32).

Fixpoint rows_follow (st : ctype) (prev : string) (rows : list row) : bool :=
  match rows with
  | [] => true
  | r :: rows' => row_ok st r && follows st prev r && rows_follow st (r_name r) rows'
  end.

Definition rows_ok (st : ctype) (rows : list row) : bool :=
  match rows with
  | [] => false
  | r :: rows' => row_ok st r && rows_follow st (r_name r) rows'
  end.

(** ** Where the iterator goes *)

Lemma row_field_size st p prev r : row_ok st r = true -> field_size (row_field st p prev r) = pb_membersize st (r_name r).
Proof.
  unfold row_ok, field_size, row_field, PB_FIELD. intros Hok. apply andb_true_iff in Hok as [_ Hok].
  assert (E : r_alloc r = STATIC -> r_rules r = REPEATED ->
    u64 (pb_elemsize st (r_name r) * pb_arraysize st (r_name r)) = pb_membersize st (r_name r)).
  { intros Ea Er. rewrite Ea, Er in Hok. unfold pb_arraysize, pb_membersize, pb_elemsize.
    destruct (snd (member st (r_name r))) as [| | | |n t| |]; try done.
    apply andb_true_iff in Hok as [Hs Hlt]. simpl. rewrite Z.div_mul by lia. rewrite wrap_small; lia. }
  destruct (r_rules r), (r_alloc r); simpl in *; try done; destruct (r_type r); simpl;
    try done; try (by apply E); unfold pb_membersize; by destruct (snd (member st (r_name r))).
Qed.

Lemma row_field_tag st p prev r : f_tag (row_field st p prev r) = r_tag r.
Proof. unfold row_field, PB_FIELD. by destruct (r_rules r), (r_alloc r). Qed.

Lemma row_field_offset st p prev r :
  row_ok st r = true -> f_data_offset (row_field st p prev r) = PB_DATAOFFSET p st (r_name r) prev.
Proof.
  unfold row_ok, row_field, PB_FIELD. intros Hok. apply andb_true_iff in Hok as [_ Hok].
  by destruct (r_rules r), (r_alloc r).
Qed.

Lemma row_field_companion st p prev r :
  f_size_offset (row_field st p prev r) = offsetof st (companion r) - offsetof st (r_name r).
Proof. unfold row_field, PB_FIELD, companion. destruct (r_rules r), (r_alloc r); simpl; unfold pb_delta; lia. Qed.

Lemma row_not_union st p prev r g : same_union (row_field st p prev r) g = false.
Proof. unfold same_union, row_field, PB_FIELD. by destruct (r_rules r), (r_alloc r), (r_type r). Qed.

Lemma follows_offset st prev r :
  follows st prev r = true ->
  offsetof st prev + pb_membersize st prev + PB_DATAOFFSET OTHER st (r_name r) prev = offsetof st (r_name r).
Proof.
  unfold follows. intros Hf. apply andb_true_iff in Hf as [H1 H2]. simpl. rewrite wrap_small by lia. lia.
Qed.

Lemma fields_from_lookup st prev rows i r :
  rows !! i = Some r ->
  exists q, fields_from st prev rows !! i = Some (row_field st OTHER q r) /\
    (rows_follow st prev rows = true -> row_ok st r = true /\ follows st q r = true) /\
    match i with O => q = prev | S j => exists r', rows !! j = Some r' /\ q = r_name r' end.
Proof.
  revert prev i. induction rows as [|r0 rows IH]; intros prev i Hi; [done|]. destruct i as [|i]; simpl in *.
  - injection Hi as <-. exists prev. split; [done|]. split; [|done]. rewrite !andb_true_iff. tauto.
  - destruct (IH (r_name r0) i Hi) as (q & Hq & Hok & Hprev). exists q. split; [done|]. split.
    + rewrite !andb_true_iff. intros [_ Hrest]. by apply Hok.
    + destruct i; [exists r0; by subst|exact Hprev].
Qed.

Lemma fields_from_length st prev rows : length (fields_from st prev rows) = length rows.
Proof. revert prev. induction rows as [|r rows IH]; intros prev; simpl; [done|by rewrite IH]. Qed.

Lemma fields_of_length st rows : length (fields_of st rows) = length rows.
Proof. destruct rows; simpl; [done|by rewrite fields_from_length]. Qed.

(** The descriptor of line [i]. *)
Lemma fields_of_lookup st rows i r :
  rows_ok st rows = true -> rows !! i = Some r ->
  exists p q, fields_of st rows !! i = Some (row_field st p q r) /\ row_ok st r = true /\
    match i with
    | O => p = FIRST
    | S j => p = OTHER /\ exists r', rows !! j = Some r' /\ q = r_name r' /\ follows st q r = true
    end.
Proof.
  destruct rows as [|r0 rows]; [done|]. simpl. intros Hok Hi. apply andb_true_iff in Hok as [H0 Hf].
  destruct i as [|i]; simpl in *.
  - injection Hi as <-. by exists FIRST, (r_name r0).
  - destruct (fields_from_lookup st (r_name r0) rows i r Hi) as (q & Hq & Hq2 & Hprev).
    destruct (Hq2 Hf) as [Hr Hfol]. exists OTHER, q. split; [done|]. split; [done|]. split; [done|].
    destruct i as [|i]; [exists r0; by subst|]. destruct Hprev as (r' & Hr' & ->). by exists r'.
Qed.

Lemma fields_of_tags st rows : rows_ok st rows = true -> tags_ok (fields_of st rows).
Proof.
  intros Hok. apply Forall_lookup. intros i f Hf.
  destruct (lookup_lt_is_Some_2 rows i) as [r Hr].
  { rewrite <- (fields_of_length st). by eapply lookup_lt_Some. }
  destruct (fields_of_lookup st rows i r Hok Hr) as (p & q & Hf' & Hrow & _).
  rewrite Hf in Hf'. injection Hf' as ->. rewrite row_field_tag. unfold row_ok in Hrow.
  apply andb_true_iff in Hrow as [Ht _]. lia.
Qed.

Lemma fields_of_positions st rows i r :
  rows_ok st rows = true -> rows !! i = Some r ->
  data_pos (fields_of st rows) i = offsetof st (r_name r) /\
  size_pos (fields_of st rows) i = offsetof st (companion r).
Proof.
  intros Hok. pose proof (fields_of_tags st rows Hok) as Ht. revert r. induction i as [|i IH]; intros r Hi.
  - destruct (fields_of_lookup st rows 0 r Hok Hi) as (p & q & Hf & Hrow & Hp). subst p.
    unfold data_pos, size_pos, iter_at; simpl. rewrite (field_at_lookup _ _ _ Hf).
    rewrite row_field_offset, row_field_companion by done. simpl. lia.
  - destruct (fields_of_lookup st rows (S i) r Hok Hi) as (p & q & Hf & Hrow & -> & r' & Hr' & -> & Hfol).
    destruct (IH r' Hr') as [Hd _]. destruct (fields_of_lookup st rows i r' Hok Hr') as (p' & q' & Hf' & Hrow' & _).
    pose proof (lookup_lt_Some _ _ _ Hf) as Hlen. unfold data_pos, size_pos in *. rewrite iter_at_S.
    destruct (iter_at_pos (fields_of st rows) 0 Ht i ltac:(lia)) as (Hs & Hp & _).
    pose proof (field_at_tag _ Ht i ltac:(lia)). pose proof (field_at_tag _ Ht (S i) Hlen).
    unfold pb_field_iter_next, it_field. rewrite Hs, Hp.
    destruct (Z.eqb_spec (f_tag (field_at (fields_of st rows) i)) 0); [done|].
    destruct (Z.eqb_spec (f_tag (field_at (fields_of st rows) (S i))) 0); [done|].
    rewrite (field_at_lookup _ _ _ Hf'), (field_at_lookup _ _ _ Hf), row_not_union. cbn [snd pData pSize].
    rewrite (row_field_size _ _ _ _ Hrow'), (row_field_offset _ _ _ _ Hrow), row_field_companion, Hd.
    pose proof (follows_offset _ _ _ Hfol). lia.
Qed.

(** * The generated arrays *)

(** The iterator over [fields] goes through the named members of [st], with
    [pSize] at the named companion of each. *)
Definition leads_to_members (st : ctype) (fields : list pb_field_t) (names : list (string * string)) : Prop :=
  length fields = length names /\
  forall i n c, names !! i = Some (n, c) -> data_pos fields i = offsetof st n /\ size_pos fields i = offsetof st c.

Definition leads_to_membersb (st : ctype) (fields : list pb_field_t) (names : list (string * string)) : bool :=
  Nat.eqb (length fields) (length names) &&
  forallb (fun p => (data_pos fields (fst p) =? offsetof st (fst (snd p))) &&
                    (size_pos fields (fst p) =? offsetof st (snd (snd p))))
          (imap pair names).

Lemma leads_to_membersb_true st fields names :
  leads_to_membersb st fields names = true -> leads_to_members st fields names.
Proof.
  unfold leads_to_membersb. rewrite andb_true_iff, Nat.eqb_eq, forallb_forall. intros [Hlen Hall].
  split; [done|]. intros i n c Hi. specialize (Hall (i, (n, c))). simpl in Hall.
  rewrite andb_true_iff, !Z.eqb_eq in Hall. apply Hall, list_elem_of_In, elem_of_lookup_imap. by exists i, (n, c).
Qed.

(** the macros of [pb.h] and the field iterator agree on the layout. For
    any structure and any list of members, in the order of the structure and
    of types that suit their rules and allocation, the descriptors that
    [PB_FIELD] makes - each relative to the member before it - lead the
    iterator to the offset of every member, and [pSize] to that of its [has]
    flag or count. *)
Theorem PB_FIELD_positions st rows i r :
  rows_ok st rows = true -> rows !! i = Some r ->
  data_pos (fields_of st rows) i = offsetof st (r_name r) /\
  size_pos (fields_of st rows) i = offsetof st (companion r).
Proof. apply fields_of_positions. Qed.

(** every generated descriptor array of the program leads the iterator
    through the members of its structure in order, whatever the addresses of
    the constants. *)
Theorem generated_arrays_lead_to_members (addr : string -> Z) :
  leads_to_members gdt_cct_LogEvent (gdt_cct_LogEvent_fields addr)
    [("event_time_ms", "has_event_time_ms"); ("source_extension", "source_extension");
     ("event_code", "has_event_code"); ("timezone_offset_seconds", "has_timezone_offset_seconds");
     ("event_uptime_ms", "has_event_uptime_ms"); ("network_connection_info", "has_network_connection_info")] /\
  leads_to_members gdt_cct_NetworkConnectionInfo (gdt_cct_NetworkConnectionInfo_fields addr)
    [("network_type", "has_network_type"); ("mobile_subtype", "has_mobile_subtype")] /\
  leads_to_members gdt_cct_IosClientInfo gdt_cct_IosClientInfo_fields
    [("os_major_version", "os_major_version"); ("os_full_version", "os_full_version");
     ("application_build", "application_build"); ("country", "country");
     ("model", "model"); ("language_code", "language_code");
     ("application_bundle_id", "application_bundle_id")] /\
  leads_to_members gdt_cct_ClientInfo (gdt_cct_ClientInfo_fields addr)
    [("client_type", "has_client_type"); ("ios_client_info", "has_ios_client_info")] /\
  leads_to_members gdt_cct_BatchedLogRequest (gdt_cct_BatchedLogRequest_fields addr)
    [("log_request", "log_request_count")] /\
  leads_to_members gdt_cct_LogRequest (gdt_cct_LogRequest_fields addr)
    [("client_info", "has_client_info"); ("log_source", "has_log_source");
     ("log_event", "log_event_count"); ("request_time_ms", "has_request_time_ms");
     ("request_uptime_ms", "has_request_uptime_ms"); ("qos_tier", "has_qos_tier")] /\
  leads_to_members gdt_cct_QosTierConfiguration (gdt_cct_QosTierConfiguration_fields addr)
    [("qos_tier", "has_qos_tier"); ("log_source", "has_log_source")] /\
  leads_to_members gdt_cct_QosTiersOverride (gdt_cct_QosTiersOverride_fields addr)
    [("qos_tier_configuration", "qos_tier_configuration_count"); ("qos_tier_fingerprint", "has_qos_tier_fingerprint")] /\
  leads_to_members gdt_cct_LogResponse (gdt_cct_LogResponse_fields addr)
    [("next_request_wait_millis", "has_next_request_wait_millis"); ("qos_tier", "has_qos_tier")] /\
  leads_to_members logs_proto_mobilesdk_ios_ICoreConfiguration logs_proto_mobilesdk_ios_ICoreConfiguration_fields
    [("configuration_type", "has_configuration_type"); ("sdk_service_installed", "sdk_service_installed_count");
     ("device_model", "device_model"); ("app_id", "app_id");
     ("bundle_id", "bundle_id"); ("pod_name", "has_pod_name");
     ("icore_version", "icore_version"); ("sdk_version", "sdk_version");
     ("sdk_name", "has_sdk_name"); ("app_count", "has_app_count");
     ("os_version", "os_version"); ("min_supported_ios_version", "min_supported_ios_version");
     ("use_default_app", "has_use_default_app"); ("deployed_in_app_store", "has_deployed_in_app_store");
     ("dynamic_framework_count", "has_dynamic_framework_count"); ("apple_framework_version", "apple_framework_version");
     ("using_zip_file", "has_using_zip_file"); ("deployment_type", "has_deployment_type");
     ("platform_info", "platform_info"); ("swizzling_enabled", "has_swizzling_enabled");
     ("using_gdt", "has_using_gdt")].
Proof.
  repeat (refine (conj (leads_to_membersb_true _ _ _ _) _); [vm_compute; reflexivity|]).
  apply leads_to_membersb_true. vm_compute. reflexivity.
Qed.

(** * Decoding the generated messages that hold all their data *)
Section StaticMessages.
Context `{Program} (addr : string -> Z).

(** Their structures, descriptors and the constants of their default values. *)
Definition static_messages : list (ctype * list pb_field_t * list string) :=
  [(gdt_cct_NetworkConnectionInfo, gdt_cct_NetworkConnectionInfo_fields addr,
    ["gdt_cct_NetworkConnectionInfo_network_type_default"; "gdt_cct_NetworkConnectionInfo_mobile_subtype_default"]);
   (gdt_cct_QosTierConfiguration, gdt_cct_QosTierConfiguration_fields addr,
    ["gdt_cct_QosTierConfiguration_log_source_default"])].

(** The constants have 4 bytes each. *)
Definition constants_rom (names : list string) (a k : Z) : bool := existsb (fun n => addr n =? a) names && (k <=? 4).

Lemma constants_rom_in names n : n ∈ names -> constants_rom names (addr n) 4 = true.
Proof.
  intros Hn. unfold constants_rom. apply andb_true_iff. split; [|done]. apply existsb_exists. exists n.
  split; [by apply list_elem_of_In|apply Z.eqb_refl].
Qed.

Lemma constants_rom_mapped names m :
  (forall n, n ∈ names -> mapped_range m (addr n) 4) ->
  forall a k, constants_rom names a k = true -> mapped_range m a k.
Proof.
  intros Hm a k Hr. unfold constants_rom in Hr. rewrite andb_true_iff, existsb_exists in Hr.
  destruct Hr as [(n & Hn & Ha) Hk]. apply Z.eqb_eq in Ha as <-. apply list_elem_of_In, Hm in Hn.
  eapply mapped_range_sub; [exact Hn|lia|lia].
Qed.

Lemma static_messages_fit st fields names :
  (st, fields, names) ∈ static_messages -> msg_fits (constants_rom names) 1 fields (sizeof st) = true.
Proof.
  intros Hin. pose proof (constants_rom_in names) as Hrom. revert Hrom. generalize (constants_rom names) as rom. intros rom Hrom.
  unfold static_messages in Hin. repeat (apply elem_of_cons in Hin as [Hin|Hin]; [injection Hin as -> -> ->|]); [| |by apply not_elem_of_nil in Hin].
  - pose proof (Hrom "gdt_cct_NetworkConnectionInfo_network_type_default"%string ltac:(set_solver)) as R1.
    pose proof (Hrom "gdt_cct_NetworkConnectionInfo_mobile_subtype_default"%string ltac:(set_solver)) as R2.
    clear Hrom. unfold gdt_cct_NetworkConnectionInfo_fields. revert R1 R2. generalize (addr "gdt_cct_NetworkConnectionInfo_network_type_default") (addr "gdt_cct_NetworkConnectionInfo_mobile_subtype_default").
    intros a1 a2 R1 R2. vm_compute. destruct a1, a2; by rewrite ?R1, ?R2.
  - pose proof (Hrom "gdt_cct_QosTierConfiguration_log_source_default"%string ltac:(set_solver)) as R1. clear Hrom.
    unfold gdt_cct_QosTierConfiguration_fields. revert R1. generalize (addr "gdt_cct_QosTierConfiguration_log_source_default").
    intros a1 R1. vm_compute. destruct a1; by rewrite ?R1.
Qed.

(** any bytes may be decoded into a [NetworkConnectionInfo] or a
    [QosTierConfiguration]: with the default constants and the structure in
    memory, [pb_decode] returns, changes nothing but the structure, and
    reports every failure. *)
Theorem static_messages_decode_safe st fields names m dest s :
  (st, fields, names) ∈ static_messages ->
  (forall n, n ∈ names -> mapped_range m (addr n) 4) -> mapped_range m dest (sizeof st) ->
  stack_ok m -> stream_ok m s ->
  exists ok s' m', pb_decode 2 s fields dest m = Ret ((ok, s'), m') /\
    decode_result dest (sizeof st) s m ok s' m'.
Proof.
  intros Hin Hnames Hd Hst Hs.
  assert (Hdi : decode_input (constants_rom names) 1 fields dest (sizeof st) s m).
  { split; [by apply static_messages_fit|done|by apply constants_rom_mapped|done|done]. }
  destruct (wp_elim _ _ _ (decode_decoded (constants_rom names) 2 1 fields dest (sizeof st) s m ltac:(lia) Hdi)) as ([ok s'] & m' & E & Hr).
  exists ok, s', m'. split; [done|]. by eapply decoded_result.
Qed.

(** ** Their announced sizes *)

(** Their encodings have at most [size] bytes when the enumerations, where a
    member has one, hold their constants. *)
Definition sized_messages : list (list pb_field_t * Z * list (option (list (string * Z)))) :=
  [(gdt_cct_NetworkConnectionInfo_fields addr, gdt_cct_NetworkConnectionInfo_size,
    [Some gdt_cct_NetworkConnectionInfo_NetworkType; Some gdt_cct_NetworkConnectionInfo_MobileSubtype]);
   (gdt_cct_QosTierConfiguration_fields addr, gdt_cct_QosTierConfiguration_size,
    [Some gdt_cct_QosTierConfiguration_QosTier; None])].

Definition in_enum (e : option (list (string * Z))) (v : option value) : Prop :=
  match e, v with
  | Some e, Some (VBytes l) => exists x, In x (map snd e) /\ l = le_bytes 4 x
  | _, _ => True
  end.

(** The bytes an entry takes: its tag and at most [b]. *)
Definition value_bound (f : pb_field_t) (e : option (list (string * Z))) : nat :=
  match e with
  | Some e => fold_right Nat.max 0%nat (map (fun x => length (int_encoding (PB_LTYPE (f_type f)) (le_bytes 4 (snd x)))) e)
  | None => 10
  end.

Definition entry_bound (f : pb_field_t) (e : option (list (string * Z))) : nat :=
  (length (tag_bytes (default 0%Z (wire_type_of (PB_LTYPE (f_type f)))) (f_tag f)) + value_bound f e)%nat.

Lemma enum_bound t (e : list (string * Z)) x :
  In x (map snd e) ->
  (length (int_encoding t (le_bytes 4 x)) <=
   fold_right Nat.max 0 (map (fun y => length (int_encoding t (le_bytes 4 (snd y)))) e))%nat.
Proof.
  induction e as [|y e IH]; [done|]. cbn [map fold_right In]. intros [->|Hin]; [lia|]. specialize (IH Hin). lia.
Qed.

Lemma field_bytes_bound sub sub' m f d z e v :
  PB_LTYPE (f_type f) <= PB_LTYPE_SVARINT -> field_holds sub m f d z v -> in_enum e v ->
  (length (field_bytes sub' f v) <= entry_bound f e)%nat.
Proof.
  intros Hl [_ Hv] He. destruct v as [[l|vs]|]; [| |simpl; lia].
  - destruct Hv as [Hok _]. cbn [field_bytes value_bytes]. rewrite length_app. unfold entry_bound.
    assert (length (scalar_bytes f l) <= value_bound f e)%nat; [|lia].
    destruct (scalar_cases f l Hok) as [Hby [Hn _ _ ->|E _ _ _|E _ _ _ _|E _ _ _ _]];
      [|rewrite E in Hl; unfold PB_LTYPE_SVARINT, PB_LTYPE_BYTES, PB_LTYPE_STRING, PB_LTYPE_FIXED_LENGTH_BYTES in Hl; lia..].
    destruct e as [e|]; [|by apply int_encoding_ok]. destruct He as (x & Hx & ->). by apply enum_bound.
  - destruct Hv as [Hm _]. unfold is_message in Hm. apply Z.eqb_eq in Hm. rewrite Hm in Hl. done.
Qed.

(** The sum over the entries. *)
Lemma message_bytes_bound m fields a vs enums :
  Forall (fun f => PB_LTYPE (f_type f) <= PB_LTYPE_SVARINT) fields ->
  length enums = length fields -> holds 1 m fields a vs -> Forall2 in_enum enums vs ->
  (length (message_bytes 1 fields vs) <= foldr Nat.add 0 (zip_with entry_bound fields enums))%nat.
Proof.
  intros Hl Hen [Hvs Hall] Hin. cbn [message_bytes].
  assert (Hgen : forall fs es ws (k : nat),
    (forall i w, ws !! i = Some w -> field_at fields (k + i) = field_at fs i /\ field_holds (holds 0 m) m (field_at fields (k + i)) (a + data_pos fields (k + i)) (a + size_pos fields (k + i)) w) ->
    Forall (fun f => PB_LTYPE (f_type f) <= PB_LTYPE_SVARINT) fs -> length es = length fs -> length ws = length fs -> Forall2 in_enum es ws ->
    (length (concat (imap (fun i w => field_bytes (message_bytes 0) (field_at fs i) w) ws)) <= foldr Nat.add 0 (zip_with entry_bound fs es))%nat).
  { induction fs as [|f fs IH]; intros es ws k Hat Hf He Hw Hin'; destruct es as [|e es], ws as [|w ws]; try done.
    apply Forall2_cons in Hin' as [Hin1 Hin2]. apply Forall_cons in Hf as [Hf1 Hf2].
    cbn [zip_with foldr]. rewrite imap_cons. cbn [concat]. rewrite length_app. apply Nat.add_le_mono.
    - destruct (Hat 0%nat w eq_refl) as [E Hw0]. rewrite E in Hw0. by eapply field_bytes_bound.
    - apply (IH es ws (S k)); [|done|simpl in *; lia|simpl in *; lia|done]. intros i x Hx.
      specialize (Hat (S i) x Hx). by rewrite Nat.add_succ_comm. }
  apply (Hgen fields enums vs 0%nat); [|done..]. intros i w Hw. split; [done|]. by apply Hall.
Qed.

Lemma sized_messages_bound fields size enums m a vs :
  (fields, size, enums) ∈ sized_messages -> holds 1 m fields a vs -> Forall2 in_enum enums vs ->
  Z.of_nat (length (message_bytes 1 fields vs)) <= size.
Proof.
  intros Hin Hh He. unfold sized_messages in Hin.
  repeat (apply elem_of_cons in Hin as [Hin|Hin]; [injection Hin as -> -> ->|]); [| |by apply not_elem_of_nil in Hin];
    (etransitivity; [apply inj_le, (fun Hl Hlen => message_bytes_bound m _ a vs _ Hl Hlen Hh He); [|done]|vm_compute; done]);
    repeat constructor; vm_compute; done.
Qed.

Lemma static_messages_singular st fields names : (st, fields, names) ∈ static_messages -> singular_message 1 fields = true.
Proof.
  intros Hin. unfold static_messages in Hin.
  repeat (apply elem_of_cons in Hin as [Hin|Hin]; [injection Hin as -> -> ->|]); [..|by apply not_elem_of_nil in Hin];
    vm_compute; done.
Qed.

(** C36: the buffers of the sizes announced in [cct.nanopb.h] are large enough:
    a [NetworkConnectionInfo] or [QosTierConfiguration] whose enumerations
    hold declared constants - [NONE], which is -1, takes ten bytes - is
    encoded into 13 bytes, and decoding what was written restores it. *)
Theorem generated_messages_roundtrip st fields names size enums m src a dest vs :
  (st, fields, names) ∈ static_messages -> (fields, size, enums) ∈ sized_messages ->
  holds 1 m fields src vs -> Forall2 in_enum enums vs -> 0 < src ->
  mapped_range m a size -> mapped_range m dest (sizeof st) -> (forall n, n ∈ names -> mapped_range m (addr n) 4) -> stack_ok m ->
  no_overlap src (sizeof st) a size -> no_overlap dest (sizeof st) a size ->
  roundtrip_result 1 1 fields (sizeof st) m src a size dest vs.
Proof.
  intros Hst Hsz Hh He Hsrc Ha Hd Hn Hs Hsa Hda. pose proof (sized_messages_bound _ _ _ _ _ _ Hsz Hh He) as Hb.
  apply (encode_decode (constants_rom names)); [done|]. split; try done.
  - by apply static_messages_fit.
  - by eapply static_messages_singular.
  - split; [done|]. unfold sized_messages, gdt_cct_NetworkConnectionInfo_size, gdt_cct_QosTierConfiguration_size in Hsz.
    repeat (apply elem_of_cons in Hsz as [Hsz|Hsz]; [injection Hsz as _ -> _; lia|]). by apply not_elem_of_nil in Hsz.
  - split; [done|]. by apply constants_rom_mapped.
Qed.
End StaticMessages.

(** * Concrete inputs *)

Definition example_rows : list row :=
  [mkRow 1 INT64 OPTIONAL STATIC "event_time_ms" 0;
   mkRow 6 BYTES OPTIONAL POINTER "source_extension" 0;
   mkRow 11 INT32 OPTIONAL STATIC "event_code" 0].

Lemma PB_FIELD_positions_witness :
  data_pos (fields_of gdt_cct_LogEvent example_rows) 2 = 28 /\
  size_pos (fields_of gdt_cct_LogEvent example_rows) 2 = 24.
Proof.
  exact (PB_FIELD_positions gdt_cct_LogEvent example_rows 2 (mkRow 11 INT32 OPTIONAL STATIC "event_code" 0) eq_refl eq_refl).
Defined.

(** The constant at [base], the structure at [base + 4096], and the input
    { qos_tier = 2, log_source = -1 } at [base + 8192]. *)
Definition qos_input : list Z := [0x10; 0x02; 0x18] ++ [0xFF; 0xFF; 0xFF; 0xFF; 0xFF; 0xFF; 0xFF; 0xFF; 0xFF; 0x01].
Definition qos_mem : mem :=
  mem_add (mem_add (mem_of base [0; 0; 0; 0]) (base + 4096) (repeat 0xEE 16)) (base + 8192) qos_input.

Lemma static_messages_decode_safe_witness :
  exists ok s' m', @pb_decode no_callbacks 2 (pb_istream_from_buffer (base + 8192) 13)
      (gdt_cct_QosTierConfiguration_fields (fun _ => base)) (base + 4096) qos_mem = Ret ((ok, s'), m') /\
    decode_result (base + 4096) 16 (pb_istream_from_buffer (base + 8192) 13) qos_mem ok s' m'.
Proof.
  refine (@static_messages_decode_safe no_callbacks (fun _ => base) gdt_cct_QosTierConfiguration
    (gdt_cct_QosTierConfiguration_fields (fun _ => base)) ["gdt_cct_QosTierConfiguration_log_source_default"%string]
    qos_mem (base + 4096) (pb_istream_from_buffer (base + 8192) 13) _ _ _ _ _).
  - right. by left.
  - intros n _. solve_mem.
  - solve_mem.
  - solve_mem.
  - split; [done|done|]. simpl. solve_mem.
Defined.

(** A structure { network_type = NONE, mobile_subtype = COMBINED } at [base],
    its copy 4096 bytes and the buffer 8192 bytes after it, the constants at
    the end. *)
Definition net_struct : list Z := [1; 0xEE; 0xEE; 0xEE;  0xFF; 0xFF; 0xFF; 0xFF;  1; 0xEE; 0xEE; 0xEE;  100; 0; 0; 0].
Definition net_mem : mem :=
  mem_add (mem_add (mem_add (mem_of base net_struct) (base + 4096) (repeat 0xEE 16)) (base + 8192) (repeat 0xEE 13))
    (base + 12288) [0xFF; 0xFF; 0xFF; 0xFF].

Lemma generated_messages_roundtrip_witness :
  @roundtrip_result no_callbacks 1 1 (gdt_cct_NetworkConnectionInfo_fields (fun _ => base + 12288)) 16 net_mem
    base (base + 8192) 13 (base + 4096) [Some (VBytes [0xFF; 0xFF; 0xFF; 0xFF]); Some (VBytes [100; 0; 0; 0])].
Proof.
  refine (@generated_messages_roundtrip no_callbacks (fun _ => base + 12288) gdt_cct_NetworkConnectionInfo _
    ["gdt_cct_NetworkConnectionInfo_network_type_default"%string; "gdt_cct_NetworkConnectionInfo_mobile_subtype_default"%string]
    13 [Some gdt_cct_NetworkConnectionInfo_NetworkType; Some gdt_cct_NetworkConnectionInfo_MobileSubtype]
    net_mem base (base + 8192) (base + 4096) _ _ _ _ _ _ _ _ _ _ _ _).
  - by left.
  - by left.
  - split; [done|]. intros i v Hi. destruct i as [|[|i]]; [..|done]; injection Hi as <-;
      (split; [intros _; eexists; split; [vm_compute; reflexivity|reflexivity]|split; [vm_compute; reflexivity|solve_mem]]).
  - repeat constructor; [exists (-1)|exists 100]; (split; [vm_compute; tauto|reflexivity]).
  - done.
  - solve_mem.
  - solve_mem.
  - intros n _. solve_mem.
  - solve_mem.
  - intros x. unfold range. change (sizeof gdt_cct_NetworkConnectionInfo) with 16. lia.
  - intros x. unfold range. change (sizeof gdt_cct_NetworkConnectionInfo) with 16. lia.
Defined.
