(* ===== verification/LvSlice.v ===== *)
(** leveldb's [Slice], [Status] and [Comparator] ([include/leveldb/slice.h],
    [status.h], [util/status.cc], [include/leveldb/comparator.h],
    [util/comparator.cc]).

    A slice, a [std::string] and a pointer range [p, limit) are byte lists; a
    function that changes a string returns the new one. *)

From stdpp Require Import base list gmap strings.
From Stdlib Require Import ZArith Lia.
From S2P Require Import Prelude.

Abbreviation Slice := (list Z).

(** The bytes of a string literal. *)
Definition chars (s : string) : Slice :=
  map (fun c => Z.of_N (Ascii.N_of_ascii c)) (String.list_ascii_of_string s).

Definition size (s : Slice) : Z := Z.of_nat (length s).

(** * Slices *)

Definition Slice_empty (s : Slice) : bool := size s =? 0.

Definition Slice_remove_prefix (s : Slice) (n : Z) : Slice := drop (Z.to_nat n) s.

(** [memcmp(a, b, n)]: the difference of the first bytes that differ. The code
    only looks at its sign. *)
Fixpoint memcmp (a b : Slice) (n : nat) : Z :=
  match n, a, b with
  | S n', x :: a', y :: b' => if x =? y then memcmp a' b' n' else x - y
  | _, _, _ => 0
  end.

Definition Slice_compare (a b : Slice) : Z :=
  let min_len := if size a <? size b then size a else size b in
  let r := memcmp a b (Z.to_nat min_len) in
  if r =? 0 then
    if size a <? size b then -1 else if size a >? size b then 1 else r
  else r.

Definition Slice_starts_with (s x : Slice) : bool :=
  (size s >=? size x) && (memcmp s x (Z.to_nat (size x)) =? 0).

Definition Slice_eq (x y : Slice) : bool :=
  (size x =? size y) && (memcmp x y (Z.to_nat (size x)) =? 0).

(** * Statuses *)

Inductive Code : Type :=
| kOk | kNotFound | kCorruption | kNotSupported | kInvalidArgument | kIOError.

Definition Code_val (c : Code) : Z :=
  match c with
  | kOk => 0 | kNotFound => 1 | kCorruption => 2 | kNotSupported => 3
  | kInvalidArgument => 4 | kIOError => 5
  end.

(** [state_]: null for success, else the length of the message, the code and
    the message. *)
Definition Status : Type := option (list Z).

Definition Status_OK : Status := None.

Definition Status_new (code : Code) (msg msg2 : Slice) : Status :=
  let len1 := u32 (size msg) in
  let len2 := u32 (size msg2) in
  let sz := u32 (len1 + (if truthy len2 then u32 (2 + len2) else 0)) in
  Some (le_bytes 4 sz ++ [Code_val code] ++ take (Z.to_nat len1) msg
        ++ (if truthy len2 then chars ": " ++ take (Z.to_nat len2) msg2 else [])).

Definition Status_NotFound (msg msg2 : Slice) : Status := Status_new kNotFound msg msg2.
Definition Status_Corruption (msg msg2 : Slice) : Status := Status_new kCorruption msg msg2.
Definition Status_NotSupported (msg msg2 : Slice) : Status := Status_new kNotSupported msg msg2.
Definition Status_InvalidArgument (msg msg2 : Slice) : Status :=
  Status_new kInvalidArgument msg msg2.
Definition Status_IOError (msg msg2 : Slice) : Status := Status_new kIOError msg msg2.

Definition Status_ok (s : Status) : bool := match s with None => true | Some _ => false end.

Definition Status_code (s : Status) : Z :=
  match s with None => Code_val kOk | Some st => nth 4 st 0 end.

Definition Status_IsNotFound (s : Status) : bool := Status_code s =? Code_val kNotFound.
Definition Status_IsCorruption (s : Status) : bool := Status_code s =? Code_val kCorruption.
Definition Status_IsIOError (s : Status) : bool := Status_code s =? Code_val kIOError.
Definition Status_IsNotSupportedError (s : Status) : bool :=
  Status_code s =? Code_val kNotSupported.
Definition Status_IsInvalidArgument (s : Status) : bool :=
  Status_code s =? Code_val kInvalidArgument.

(** [Status::CopyState]: as many bytes as the length field says. *)
Definition Status_CopyState (st : list Z) : list Z :=
  let sz := le_val (take 4 st) in take (Z.to_nat (sz + 5)) st.

(** The prefix [Status::ToString] prints; the codes the constructors make are
    all in the table, so the default branch is not reached. *)
Definition Status_type (code : Z) : option Slice :=
  if code =? 0 then Some (chars "OK")
  else if code =? 1 then Some (chars "NotFound: ")
  else if code =? 2 then Some (chars "Corruption: ")
  else if code =? 3 then Some (chars "Not implemented: ")
  else if code =? 4 then Some (chars "Invalid argument: ")
  else if code =? 5 then Some (chars "IO error: ")
  else None.

Definition Status_ToString (s : Status) : option Slice :=
  match s with
  | None => Some (chars "OK")
  | Some st =>
      type ← Status_type (Status_code s);
      let len := le_val (take 4 st) in
      Some (type ++ take (Z.to_nat len) (drop 5 st))
  end.

(** * Comparators *)

(** The virtual functions of [Comparator]. *)
Record Comparator : Type := {
  Comparator_Name : Slice;
  Compare : Slice -> Slice -> Z;
  FindShortestSeparator : Slice -> Slice -> Slice;
  FindShortSuccessor : Slice -> Slice
}.

(** [while (diff_index < min_length && start[diff_index] == limit[diff_index])]. *)
Fixpoint diff_index (start limit : Slice) : nat :=
  match start, limit with
  | x :: s, y :: l => if x =? y then S (diff_index s l) else O
  | _, _ => O
  end.

Definition Bytewise_FindShortestSeparator (start limit : Slice) : Slice :=
  let min_length := Nat.min (length start) (length limit) in
  let d := diff_index start limit in
  if (min_length <=? d)%nat then start
  else
    let diff_byte := nth d start 0 in
    if (diff_byte <? 0xff) && (diff_byte + 1 <? nth d limit 0)
    then take d start ++ [u8 (diff_byte + 1)]
    else start.

(** The bytes up to the first that is not [0xff], that one incremented. *)
Fixpoint Bytewise_FindShortSuccessor (key : Slice) : Slice :=
  match key with
  | [] => []
  | byte :: key' =>
      if byte =? 0xff then byte :: Bytewise_FindShortSuccessor key' else [u8 (byte + 1)]
  end.

Definition BytewiseComparator : Comparator := {|
  Comparator_Name := chars "leveldb.BytewiseComparator";
  Compare := Slice_compare;
  FindShortestSeparator := Bytewise_FindShortestSeparator;
  FindShortSuccessor := Bytewise_FindShortSuccessor
|}.

(** A three-way comparison that is a total preorder on the keys [ok] admits. *)
Class OrderLaws {K : Type} (cmp : K -> K -> Z) (ok : K -> Prop) : Prop := {
  cmp_flip a b : ok a -> ok b -> Z.sgn (cmp a b) = - Z.sgn (cmp b a);
  cmp_le_trans x y z : ok x -> ok y -> ok z -> cmp x y <= 0 -> cmp y z <= 0 -> cmp x z <= 0
}.

(** What [comparator.h] asks of a comparator, for the keys [ok] admits: a total
    preorder, separators in [start, limit) when [start < limit], else [start];
    successors no smaller. *)
Class ComparatorLaws (c : Comparator) (ok : Slice -> Prop) : Prop := {
  cmp_order :: OrderLaws (Compare c) ok;
  cmp_separator start limit :
    ok start -> ok limit -> Compare c start limit < 0 ->
    ok (FindShortestSeparator c start limit) /\
    Compare c start (FindShortestSeparator c start limit) <= 0 /\
    Compare c (FindShortestSeparator c start limit) limit < 0;
  cmp_separator_id start limit :
    ok start -> ok limit -> 0 <= Compare c start limit -> FindShortestSeparator c start limit = start;
  cmp_successor key :
    ok key -> ok (FindShortSuccessor c key) /\ Compare c key (FindShortSuccessor c key) <= 0
}.

(** Keys of single bytes. *)
Definition is_bytes (s : Slice) : Prop := Forall is_byte s.

#[export] Instance is_byte_dec b : Decision (is_byte b).
Proof. unfold is_byte. apply _. Defined.

#[export] Instance is_bytes_dec s : Decision (is_bytes s).
Proof. unfold is_bytes. apply _. Defined.

(** Concrete keys are byte strings by evaluation. *)
Ltac solve_bytes := apply (bool_decide_unpack _); vm_compute; exact I.

(** * Facts about any order *)

Section Laws.
Context {K : Type} {cmp : K -> K -> Z} {ok : K -> Prop} `{L : !OrderLaws cmp ok}.

Lemma cmp_refl a : ok a -> cmp a a = 0.
Proof. intros Ha. pose proof (cmp_flip a a Ha Ha). destruct (cmp a a); simpl in *; lia. Qed.

Lemma cmp_gt_lt a b : ok a -> ok b -> cmp a b > 0 <-> cmp b a < 0.
Proof. intros Ha Hb. pose proof (cmp_flip a b Ha Hb). lia. Qed.

Lemma cmp_eq_sym a b : ok a -> ok b -> cmp a b = 0 <-> cmp b a = 0.
Proof. intros Ha Hb. pose proof (cmp_flip a b Ha Hb). lia. Qed.

Lemma cmp_lt_trans x y z :
  ok x -> ok y -> ok z -> cmp x y < 0 -> cmp y z < 0 -> cmp x z < 0.
Proof.
  intros Hx Hy Hz H1 H2. destruct (Z.lt_ge_cases (cmp x z) 0) as [|H3]; [done|].
  assert (cmp z x <= 0) by (pose proof (cmp_flip x z Hx Hz); lia).
  assert (cmp z y <= 0) by (apply (cmp_le_trans z x y); auto; lia).
  pose proof (cmp_flip y z Hy Hz). lia.
Qed.

Lemma cmp_le_lt_trans x y z :
  ok x -> ok y -> ok z -> cmp x y <= 0 -> cmp y z < 0 -> cmp x z < 0.
Proof.
  intros Hx Hy Hz H1 H2. destruct (Z.lt_ge_cases (cmp x z) 0) as [|H3]; [done|].
  assert (cmp z x <= 0) by (pose proof (cmp_flip x z Hx Hz); lia).
  assert (cmp z y <= 0) by (apply (cmp_le_trans z x y); auto; lia).
  pose proof (cmp_flip y z Hy Hz). lia.
Qed.

Lemma cmp_lt_le_trans x y z :
  ok x -> ok y -> ok z -> cmp x y < 0 -> cmp y z <= 0 -> cmp x z < 0.
Proof.
  intros Hx Hy Hz H1 H2. destruct (Z.lt_ge_cases (cmp x z) 0) as [|H3]; [done|].
  assert (cmp z x <= 0) by (pose proof (cmp_flip x z Hx Hz); lia).
  assert (cmp y x <= 0) by (apply (cmp_le_trans y z x); auto; lia).
  pose proof (cmp_flip x y Hx Hy). lia.
Qed.
End Laws.

(** * Properties

    Slices, statuses and the bytewise comparator: the order is the
    lexicographic order of unsigned bytes, statuses give back what they were
    made of, and [BytewiseComparator] keeps the contract of [Comparator]. *)

(** * The order on slices *)

Lemma size_nonneg s : 0 <= size s.
Proof. unfold size. lia. Qed.

Lemma size_app a b : size (a ++ b) = size a + size b.
Proof. unfold size. rewrite length_app. lia. Qed.

Lemma size_cons x a : size (x :: a) = size a + 1.
Proof. unfold size. simpl. lia. Qed.

Lemma compare_nil_nil : Slice_compare [] [] = 0.
Proof. done. Qed.

Lemma compare_nil_cons y b : Slice_compare [] (y :: b) = -1.
Proof.
  unfold Slice_compare. rewrite size_cons. change (size []) with 0. pose proof (size_nonneg b).
  destruct (Z.ltb_spec 0 (size b + 1)); [done|lia].
Qed.

Lemma compare_cons_nil x a : Slice_compare (x :: a) [] = 1.
Proof.
  unfold Slice_compare. rewrite size_cons. change (size []) with 0. pose proof (size_nonneg a).
  destruct (Z.ltb_spec (size a + 1) 0); [lia|].
  change (Z.to_nat 0) with O. cbn [memcmp]. change (0 =? 0) with true. cbn iota.
  destruct (Z.gtb_spec (size a + 1) 0); lia.
Qed.

Lemma compare_cons x a y b :
  Slice_compare (x :: a) (y :: b) = if x =? y then Slice_compare a b else x - y.
Proof.
  unfold Slice_compare. rewrite !size_cons.
  pose proof (size_nonneg a). pose proof (size_nonneg b).
  assert (E : forall n, 0 <= n -> Z.to_nat (n + 1) = S (Z.to_nat n)) by lia.
  destruct (Z.ltb_spec (size a + 1) (size b + 1)), (Z.ltb_spec (size a) (size b)); try lia;
    destruct (Z.gtb_spec (size a + 1) (size b + 1)), (Z.gtb_spec (size a) (size b)); try lia;
    rewrite E by lia; cbn [memcmp]; destruct (Z.eqb_spec x y); try done;
    destruct (Z.eqb_spec (x - y) 0); lia.
Qed.

(** The lexicographic order. *)
Fixpoint lex (a b : Slice) : comparison :=
  match a, b with
  | [], [] => Eq
  | [], _ :: _ => Lt
  | _ :: _, [] => Gt
  | x :: a', y :: b' => match x ?= y with Eq => lex a' b' | r => r end
  end.

Definition sign_of (r : comparison) : Z := match r with Lt => -1 | Eq => 0 | Gt => 1 end.

Lemma compare_lex a b : Z.sgn (Slice_compare a b) = sign_of (lex a b).
Proof.
  revert b. induction a as [|x a IH]; intros [|y b]; [done| | |].
  - by rewrite compare_nil_cons.
  - by rewrite compare_cons_nil.
  - rewrite compare_cons. cbn [lex]. destruct (Z.compare_spec x y) as [E|E|E].
    + subst y. by rewrite Z.eqb_refl.
    + destruct (Z.eqb_spec x y); simpl; lia.
    + destruct (Z.eqb_spec x y); simpl; lia.
Qed.

Lemma lex_flip a b : lex b a = CompOpp (lex a b).
Proof.
  revert b. induction a as [|x a IH]; intros [|y b]; try done. cbn [lex].
  rewrite (Z.compare_antisym x y). destruct (x ?= y); simpl; auto.
Qed.

Lemma lex_eq a b : lex a b = Eq <-> a = b.
Proof.
  revert b. induction a as [|x a IH]; intros [|y b]; try done. cbn [lex].
  destruct (Z.compare_spec x y) as [E|E|E].
  - subst y. rewrite IH. naive_solver.
  - split; [done|]. intros [=]. lia.
  - split; [done|]. intros [=]. lia.
Qed.

Lemma lex_le_trans a b c : lex a b <> Gt -> lex b c <> Gt -> lex a c <> Gt.
Proof.
  revert b c. induction a as [|x a IH]; intros [|y b] [|z c]; try done. cbn [lex].
  destruct (Z.compare_spec x y), (Z.compare_spec y z), (Z.compare_spec x z); subst;
    try done; try lia. apply IH.
Qed.

Lemma compare_le_iff a b : Slice_compare a b <= 0 <-> lex a b <> Gt.
Proof. pose proof (compare_lex a b). destruct (lex a b); simpl in *; split; intros; try done; lia. Qed.

Lemma compare_lt_iff a b : Slice_compare a b < 0 <-> lex a b = Lt.
Proof. pose proof (compare_lex a b). destruct (lex a b); simpl in *; split; intros; try done; lia. Qed.

Lemma compare_eq_iff a b : Slice_compare a b = 0 <-> a = b.
Proof.
  rewrite <- lex_eq. pose proof (compare_lex a b).
  destruct (lex a b); simpl in *; split; intros; try done; lia.
Qed.

Lemma lex_app_l p a b : lex (p ++ a) (p ++ b) = lex a b.
Proof. induction p as [|x p IH]; [done|]. cbn [app lex]. by rewrite Z.compare_refl. Qed.

Lemma compare_app_l p a b : Slice_compare (p ++ a) (p ++ b) = Slice_compare a b.
Proof. induction p as [|x p IH]; [done|]. cbn [app]. by rewrite compare_cons, Z.eqb_refl. Qed.

Lemma Slice_eq_iff x y : Slice_eq x y = true <-> x = y.
Proof.
  unfold Slice_eq. destruct (Z.eqb_spec (size x) (size y)) as [E|E]; simpl.
  - rewrite Z.eqb_eq, <- compare_eq_iff. unfold Slice_compare. rewrite E.
    rewrite Z.ltb_irrefl, Z.gtb_ltb, Z.ltb_irrefl. by destruct (Z.eqb_spec (memcmp x y (Z.to_nat (size y))) 0).
  - split; [done|]. by intros ->.
Qed.

Lemma memcmp_take a b n :
  (n <= length a)%nat -> (n <= length b)%nat -> memcmp a b n = 0 <-> take n a = take n b.
Proof.
  revert a b. induction n as [|n IH]; intros [|x a] [|y b] Ha Hb; simpl in *; try lia; try done.
  destruct (Z.eqb_spec x y) as [E|E].
  - subst y. rewrite IH by lia. split; [by intros ->|by intros [=]].
  - split; [lia|]. intros [=]. lia.
Qed.

Lemma starts_with_iff s x : Slice_starts_with s x = true <-> x `prefix_of` s.
Proof.
  unfold Slice_starts_with. rewrite andb_true_iff, Z.geb_le, Z.eqb_eq. unfold size. rewrite Nat2Z.id.
  split.
  - intros [Hl Hm]. apply memcmp_take in Hm; [|lia..]. rewrite (take_ge x) in Hm by lia.
    exists (drop (length x) s). rewrite <- Hm at 1. by rewrite take_drop.
  - intros [k ->]. rewrite length_app. split; [lia|]. apply memcmp_take; [rewrite length_app; lia|lia|].
    rewrite take_app_length, take_ge by lia. done.
Qed.

(** * The bytewise comparator *)

Lemma is_bytes_app a b : is_bytes (a ++ b) <-> is_bytes a /\ is_bytes b.
Proof. unfold is_bytes. by rewrite Forall_app. Qed.

Lemma diff_index_split s l :
  (diff_index s l < Nat.min (length s) (length l))%nat ->
  exists p x s' y l', s = p ++ x :: s' /\ l = p ++ y :: l' /\ length p = diff_index s l /\ x <> y.
Proof.
  revert l. induction s as [|x s IH]; intros [|y l]; cbn [diff_index length]; try lia.
  destruct (Z.eqb_spec x y) as [E|E]; intros H.
  - subst y. destruct (IH l) as (p & u & s' & v & l' & -> & -> & Hp & Hne); [lia|].
    exists (x :: p), u, s', v, l'. simpl. rewrite Hp. auto.
  - exists [], x, s, y, l. auto.
Qed.

Lemma separator_cases s l :
  Bytewise_FindShortestSeparator s l = s \/
  exists p x s' y l', s = p ++ x :: s' /\ l = p ++ y :: l' /\ x + 1 < y /\ x < 255 /\
    Bytewise_FindShortestSeparator s l = p ++ [u8 (x + 1)].
Proof.
  unfold Bytewise_FindShortestSeparator.
  destruct (Nat.leb_spec (Nat.min (length s) (length l)) (diff_index s l)) as [H|H]; [by left|].
  destruct (diff_index_split s l H) as (p & x & s' & y & l' & Es & El & Hp & Hne).
  assert (N1 : nth (diff_index s l) s 0 = x) by (rewrite <- Hp, Es; apply nth_middle).
  assert (N2 : nth (diff_index s l) l 0 = y) by (rewrite <- Hp, El; apply nth_middle).
  rewrite N1, N2. destruct (Z.ltb_spec x 0xff), (Z.ltb_spec (x + 1) y); simpl; [|by left..].
  right. exists p, x, s', y, l'. repeat split; try done; try lia.
  rewrite <- Hp, Es. by rewrite take_app_length.
Qed.

Lemma separator_bounds s l :
  is_bytes s -> is_bytes l ->
  is_bytes (Bytewise_FindShortestSeparator s l) /\
  Slice_compare s (Bytewise_FindShortestSeparator s l) <= 0 /\
  (length (Bytewise_FindShortestSeparator s l) <= length s)%nat /\
  (Slice_compare s l < 0 -> Slice_compare (Bytewise_FindShortestSeparator s l) l < 0).
Proof.
  intros Hs Hl. destruct (separator_cases s l) as [->|(p & x & s' & y & l' & -> & -> & Hxy & Hx & ->)].
  - split; [done|]. split; [rewrite (proj2 (compare_eq_iff s s)); done|]. split; [lia|done].
  - apply is_bytes_app in Hs as [Hp Hs]. apply Forall_cons in Hs as [Hb _]. unfold is_byte in Hb.
    rewrite wrap_small by lia. split; [|split; [|split]].
    + apply is_bytes_app. split; [done|]. repeat constructor; lia.
    + rewrite compare_app_l, compare_cons. destruct (Z.eqb_spec x (x + 1)); lia.
    + rewrite !length_app. simpl. lia.
    + intros _. rewrite compare_app_l, compare_cons. destruct (Z.eqb_spec (x + 1) y); lia.
Qed.

Lemma successor_bounds k :
  is_bytes k ->
  is_bytes (Bytewise_FindShortSuccessor k) /\
  Slice_compare k (Bytewise_FindShortSuccessor k) <= 0 /\
  (length (Bytewise_FindShortSuccessor k) <= length k)%nat.
Proof.
  induction 1 as [|x k Hx Hk (IH1 & IH2 & IH3)]; [simpl; repeat split; [by constructor|done|done]|]. unfold is_byte in Hx.
  cbn [Bytewise_FindShortSuccessor]. destruct (Z.eqb_spec x 0xff) as [E|E].
  - split; [by constructor|]. rewrite compare_cons, Z.eqb_refl. simpl. split; [done|lia].
  - rewrite wrap_small by lia. split; [repeat constructor; lia|].
    rewrite compare_cons. simpl. destruct (Z.eqb_spec x (x + 1)); split; lia.
Qed.

#[export] Instance Slice_compare_laws : OrderLaws Slice_compare is_bytes.
Proof.
  constructor.
  - intros a b _ _. rewrite !compare_lex, (lex_flip b a). destruct (lex b a); reflexivity.
  - intros x y z _ _ _. rewrite !compare_le_iff. apply lex_le_trans.
Qed.

#[export] Instance Bytewise_laws : ComparatorLaws BytewiseComparator is_bytes.
Proof.
  constructor; simpl; [apply _|..].
  - intros s l Hs Hl Hlt. destruct (separator_bounds s l Hs Hl) as (? & ? & ? & ?). auto.
  - intros s l _ _ Hge. destruct (separator_cases s l) as [->|(p & x & s' & y & l' & -> & -> & Hxy & _)]; [done|].
    rewrite compare_app_l, compare_cons in Hge. destruct (Z.eqb_spec x y); lia.
  - intros k Hk. by destruct (successor_bounds k Hk) as (? & ? & ?).
Qed.

(** the bytewise comparator keeps the contract of [comparator.h] on keys of
    bytes: the sign of [Compare] is the lexicographic order of unsigned bytes,
    which is a total order (equality only of equal keys); a separator of
    [start < limit] lies in [start, limit), a successor is no smaller than the
    key, and neither is longer than what it replaces. *)
Theorem BytewiseComparator_contract a b :
  is_bytes a -> is_bytes b ->
  let C := BytewiseComparator in
  Z.sgn (Compare C a b) = sign_of (lex a b) /\
  (Compare C a b = 0 <-> a = b) /\
  Z.sgn (Compare C b a) = - Z.sgn (Compare C a b) /\
  (Compare C a b < 0 ->
     Compare C a (FindShortestSeparator C a b) <= 0 /\
     Compare C (FindShortestSeparator C a b) b < 0) /\
  (length (FindShortestSeparator C a b) <= length a)%nat /\
  Compare C a (FindShortSuccessor C a) <= 0 /\
  (length (FindShortSuccessor C a) <= length a)%nat.
Proof.
  intros Ha Hb C. destruct (separator_bounds a b Ha Hb) as (? & ? & ? & ?).
  destruct (successor_bounds a Ha) as (? & ? & ?).
  split; [apply compare_lex|]. split; [apply compare_eq_iff|]. split; [by apply cmp_flip|].
  auto.
Qed.

Lemma BytewiseComparator_contract_witness :
  let C := BytewiseComparator in
  FindShortestSeparator C (chars "abcdefghi") (chars "abzz") = chars "abd" /\
  FindShortSuccessor C [255; 255; 7; 9] = [255; 255; 8] /\
  Compare C (chars "abd") (chars "abzz") < 0.
Proof.
  split; [by vm_compute|]. split; [by vm_compute|].
  assert (H1 : is_bytes (chars "abcdefghi")) by solve_bytes.
  assert (H2 : is_bytes (chars "abzz")) by solve_bytes.
  destruct (BytewiseComparator_contract _ _ H1 H2) as (_ & _ & _ & H & _).
  exact (proj2 (H ltac:(by vm_compute))).
Defined.

(** * Statuses *)

Lemma status_shape code msg msg2 :
  size msg + size msg2 + 2 < 2 ^ 32 ->
  let text := msg ++ (match msg2 with [] => [] | _ => chars ": " ++ msg2 end) in
  Status_new code msg msg2 = Some (le_bytes 4 (size text) ++ Code_val code :: text) /\
  0 <= size text < 2 ^ 32.
Proof.
  intros Hs text. pose proof (size_nonneg msg). pose proof (size_nonneg msg2).
  unfold Status_new. rewrite (wrap_small 32 (size msg)) by lia. rewrite (wrap_small 32 (size msg2)) by lia.
  assert (T : forall s : Slice, take (Z.to_nat (size s)) s = s)
    by (intros s; apply take_ge; unfold size; lia).
  rewrite !T. subst text. destruct msg2 as [|x m2].
  - change (truthy (size [])) with false. cbn iota. rewrite Z.add_0_r, app_nil_r.
    change (size []) with 0 in *. by rewrite wrap_small by lia; split; [|lia].
  - rewrite size_cons in *. pose proof (size_nonneg m2). unfold truthy.
    destruct (Z.eqb_spec (size m2 + 1) 0); [lia|]. cbn [negb].
    rewrite !size_app, size_cons. change (size (chars ": ")) with 2.
    rewrite (wrap_small 32 (2 + _)) by lia. rewrite wrap_small by lia. split; [done|lia].
Qed.

Lemma status_parts code text :
  0 <= size text < 2 ^ 32 ->
  let st := le_bytes 4 (size text) ++ Code_val code :: text in
  nth 4 st 0 = Code_val code /\ le_val (take 4 st) = size text /\ drop 5 st = text /\
  Status_CopyState st = st.
Proof.
  intros H st. assert (E : le_val (take 4 st) = size text).
  { unfold st. rewrite take_app_le by (rewrite length_le_bytes; lia).
    rewrite take_ge by (rewrite length_le_bytes; lia).
    rewrite le_val_bytes. apply wrap_small. exact H. }
  split; [done|]. split; [done|]. split; [done|].
  unfold Status_CopyState. rewrite E. apply take_ge. unfold st.
  rewrite length_app, length_le_bytes. unfold size. simpl. lia.
Qed.

(** a status made by one of the error constructors is not ok, has the code
    it was made with, survives [CopyState], and [ToString] gives the name of
    the code followed by the message and, when there is a second one, a colon
    and that one. *)
Theorem Status_new_spec code msg msg2 :
  code <> kOk -> size msg + size msg2 + 2 < 2 ^ 32 ->
  let s := Status_new code msg msg2 in
  Status_ok s = false /\ Status_code s = Code_val code /\ option_map Status_CopyState s = s /\
  exists type, Status_type (Code_val code) = Some type /\
  Status_ToString s =
    Some (type ++ msg ++ match msg2 with [] => [] | _ => chars ": " ++ msg2 end).
Proof.
  intros Hc Hs s. destruct (status_shape code msg msg2 Hs) as [E Ht]. cbv zeta in E, Ht.
  set (text := msg ++ _) in *. destruct (status_parts code text Ht) as (P1 & P2 & P3 & P4).
  subst s. rewrite E. split; [done|]. split; [exact P1|]. split; [cbn [option_map]; by rewrite P4|].
  destruct (Status_type (Code_val code)) as [type|] eqn:Et; [|by destruct code].
  exists type. split; [done|]. unfold Status_ToString. unfold Status_code. rewrite P1, Et. cbn [mbind option_bind].
  rewrite P2, P3. rewrite take_ge by (unfold size; lia). done.
Qed.

Lemma Status_new_spec_witness :
  let s := Status_Corruption (chars "bad block") (chars "000005.ldb") in
  Status_IsCorruption s = true /\
  Status_ToString s = Some (chars "Corruption: bad block: 000005.ldb").
Proof.
  unfold Status_Corruption. cbv zeta. split; [by vm_compute|].
  destruct (Status_new_spec kCorruption (chars "bad block") (chars "000005.ldb"))
    as (_ & _ & _ & type & Ht & ->); [done|by vm_compute|].
  vm_compute in Ht. by injection Ht as <-.
Defined.
