(* ===== verification/LvCoding.v ===== *)
(** leveldb's encodings ([util/coding.h], [util/coding.cc]): fixed-width and
    variable-length integers and length-prefixed strings.

    A pointer pair [p, limit) is the list of the bytes between; a reader that
    returns the advanced pointer, or null, returns the value with the bytes
    left, or nothing. *)

From stdpp Require Import base list gmap strings.
From Stdlib Require Import ZArith Lia.
From S2P Require Import Prelude LvSlice.

(** [port::kLittleEndian] of the target. *)
Definition kLittleEndian : bool := true.

(** * Fixed-width integers *)

Definition EncodeFixed32 (value : Z) : list Z :=
  if kLittleEndian then le_bytes 4 value
  else [u8 (Z.land value 0xff); u8 (Z.land (Z.shiftr value 8) 0xff);
        u8 (Z.land (Z.shiftr value 16) 0xff); u8 (Z.land (Z.shiftr value 24) 0xff)].

Definition EncodeFixed64 (value : Z) : list Z :=
  if kLittleEndian then le_bytes 8 value
  else [u8 (Z.land value 0xff); u8 (Z.land (Z.shiftr value 8) 0xff);
        u8 (Z.land (Z.shiftr value 16) 0xff); u8 (Z.land (Z.shiftr value 24) 0xff);
        u8 (Z.land (Z.shiftr value 32) 0xff); u8 (Z.land (Z.shiftr value 40) 0xff);
        u8 (Z.land (Z.shiftr value 48) 0xff); u8 (Z.land (Z.shiftr value 56) 0xff)].

Definition PutFixed32 (dst : Slice) (value : Z) : Slice := dst ++ EncodeFixed32 value.
Definition PutFixed64 (dst : Slice) (value : Z) : Slice := dst ++ EncodeFixed64 value.

(** The readers of fixed-width integers do not check bounds: their callers do. *)
Definition DecodeFixed32 (ptr : list Z) : Z :=
  if kLittleEndian then le_val (take 4 ptr)
  else Z.lor (Z.lor (Z.lor (nth 0 ptr 0) (u32 (Z.shiftl (nth 1 ptr 0) 8)))
                    (u32 (Z.shiftl (nth 2 ptr 0) 16)))
             (u32 (Z.shiftl (nth 3 ptr 0) 24)).

Definition DecodeFixed64 (ptr : list Z) : Z :=
  if kLittleEndian then le_val (take 8 ptr)
  else
    let lo := DecodeFixed32 ptr in
    let hi := DecodeFixed32 (drop 4 ptr) in
    Z.lor (u64 (Z.shiftl hi 32)) lo.

(** * Variable-length integers *)

Definition EncodeVarint32 (v : Z) : list Z :=
  let B := 128 in
  if v <? Z.shiftl 1 7 then [u8 v]
  else if v <? Z.shiftl 1 14 then [u8 (Z.lor v B); u8 (Z.shiftr v 7)]
  else if v <? Z.shiftl 1 21 then
    [u8 (Z.lor v B); u8 (Z.lor (Z.shiftr v 7) B); u8 (Z.shiftr v 14)]
  else if v <? Z.shiftl 1 28 then
    [u8 (Z.lor v B); u8 (Z.lor (Z.shiftr v 7) B); u8 (Z.lor (Z.shiftr v 14) B);
     u8 (Z.shiftr v 21)]
  else
    [u8 (Z.lor v B); u8 (Z.lor (Z.shiftr v 7) B); u8 (Z.lor (Z.shiftr v 14) B);
     u8 (Z.lor (Z.shiftr v 21) B); u8 (Z.shiftr v 28)].

Definition PutVarint32 (dst : Slice) (v : Z) : Slice := dst ++ EncodeVarint32 v.

(** [while (v >= B)]; ten rounds are more than a 64-bit value needs. *)
Fixpoint EncodeVarint64_loop (fuel : nat) (v : Z) : list Z :=
  match fuel with
  | O => []
  | S fuel' =>
      if v >=? 128 then u8 (Z.lor v 128) :: EncodeVarint64_loop fuel' (Z.shiftr v 7)
      else [u8 v]
  end.

Definition EncodeVarint64 (v : Z) : list Z := EncodeVarint64_loop 10 v.

Definition PutVarint64 (dst : Slice) (v : Z) : Slice := dst ++ EncodeVarint64 v.

Definition PutLengthPrefixedSlice (dst value : Slice) : Slice :=
  PutVarint32 dst (u32 (size value)) ++ value.

Fixpoint VarintLength_loop (fuel : nat) (v len : Z) : Z :=
  match fuel with
  | O => len
  | S fuel' => if v >=? 128 then VarintLength_loop fuel' (Z.shiftr v 7) (len + 1) else len
  end.

Definition VarintLength (v : Z) : Z := VarintLength_loop 10 v 1.

(** [for (shift = 0; shift <= last && p < limit; shift += 7)] of the two
    readers, in [w]-bit arithmetic. *)
Fixpoint GetVarint_loop (w last shift result : Z) (p : list Z) : option (Z * list Z) :=
  match p with
  | [] => None
  | byte :: p' =>
      if shift <=? last then
        if truthy (Z.land byte 128) then
          GetVarint_loop w last (shift + 7)
            (Z.lor result (wrap w (Z.shiftl (Z.land byte 127) shift))) p'
        else Some (Z.lor result (wrap w (Z.shiftl byte shift)), p')
      else None
  end.

Definition GetVarint32PtrFallback (p : list Z) : option (Z * list Z) :=
  GetVarint_loop 32 28 0 0 p.

Definition GetVarint32Ptr (p : list Z) : option (Z * list Z) :=
  match p with
  | result :: p' =>
      if Z.land result 128 =? 0 then Some (result, p') else GetVarint32PtrFallback p
  | [] => GetVarint32PtrFallback p
  end.

Definition GetVarint64Ptr (p : list Z) : option (Z * list Z) := GetVarint_loop 64 63 0 0 p.

(** The readers of a [Slice*]: nothing is returned and the slice left alone
    when they fail. *)
Definition GetVarint32 (input : Slice) : option (Z * Slice) := GetVarint32Ptr input.
Definition GetVarint64 (input : Slice) : option (Z * Slice) := GetVarint64Ptr input.

(** [GetLengthPrefixedSlice(p, limit, result)]. *)
Definition GetLengthPrefixedSlicePtr (p : list Z) : option (Slice * list Z) :=
  '(len, p) ← GetVarint32Ptr p;
  if size p <? len then None else Some (take (Z.to_nat len) p, drop (Z.to_nat len) p).

(** [GetLengthPrefixedSlice(input, result)]: the result, if any, and the input,
    which is past the length also when the bytes announced are not there. *)
Definition GetLengthPrefixedSlice (input : Slice) : option Slice * Slice :=
  match GetVarint32 input with
  | Some (len, input') =>
      if size input' >=? len
      then (Some (take (Z.to_nat len) input'), Slice_remove_prefix input' len)
      else (None, input')
  | None => (None, input)
  end.

(** * Properties

    The encodings of leveldb: endian-neutrality, round trips, lengths, and
    agreement with each other. *)

(** * Fixed-width integers *)

Lemma length_EncodeFixed32 v : length (EncodeFixed32 v) = 4%nat.
Proof. done. Qed.

Lemma length_EncodeFixed64 v : length (EncodeFixed64 v) = 8%nat.
Proof. done. Qed.

Lemma EncodeFixed32_bytes v : is_bytes (EncodeFixed32 v).
Proof. apply (le_bytes_is_byte 4). Qed.

Lemma EncodeFixed64_bytes v : is_bytes (EncodeFixed64 v).
Proof. apply (le_bytes_is_byte 8). Qed.

Lemma DecodeFixed32_app v l : 0 <= v < 2 ^ 32 -> DecodeFixed32 (EncodeFixed32 v ++ l) = v.
Proof.
  intros Hv. unfold DecodeFixed32, EncodeFixed32. cbn [kLittleEndian].
  rewrite take_app_le by (rewrite length_le_bytes; lia).
  rewrite take_ge by (rewrite length_le_bytes; lia). rewrite le_val_bytes. by apply wrap_small.
Qed.

Lemma DecodeFixed64_app v l : 0 <= v < 2 ^ 64 -> DecodeFixed64 (EncodeFixed64 v ++ l) = v.
Proof.
  intros Hv. unfold DecodeFixed64, EncodeFixed64. cbn [kLittleEndian].
  rewrite take_app_le by (rewrite length_le_bytes; lia).
  rewrite take_ge by (rewrite length_le_bytes; lia). rewrite le_val_bytes. by apply wrap_small.
Qed.

Lemma DecodeFixed32_range p : 0 <= DecodeFixed32 p < 2 ^ 32.
Proof.
  unfold DecodeFixed32. cbn [kLittleEndian]. pose proof (le_val_range (take 4 p)) as H.
  assert (8 * Z.of_nat (length (take 4 p)) <= 32) by (rewrite length_take; lia).
  pose proof (Z.pow_le_mono_r 2 _ 32 ltac:(lia) H0). lia.
Qed.

Lemma DecodeFixed64_range p : 0 <= DecodeFixed64 p < 2 ^ 64.
Proof.
  unfold DecodeFixed64. cbn [kLittleEndian]. pose proof (le_val_range (take 8 p)) as H.
  assert (8 * Z.of_nat (length (take 8 p)) <= 64) by (rewrite length_take; lia).
  pose proof (Z.pow_le_mono_r 2 _ 64 ltac:(lia) H0). lia.
Qed.

(** * Varints *)

Lemma u8_lor_128 v : 0 <= v -> u8 (Z.lor v 128) = v mod 128 + 128.
Proof.
  intros Hv. rewrite <- group_byte, land_7f, <- land_7f.
  apply Z.bits_inj'. intros i Hi. unfold wrap.
  destruct (Z.lt_ge_cases i 8).
  - rewrite !Z.mod_pow2_bits_low by lia. rewrite !Z.lor_spec, Z.land_spec.
    destruct (Z.eq_dec i 7) as [->|]; [by rewrite !orb_true_r|].
    change 0x7F with (Z.ones 7). rewrite Z.ones_spec_low by lia. by rewrite andb_true_r.
  - by rewrite !Z.mod_pow2_bits_high by lia.
Qed.

Lemma EncodeVarint64_enc n v : 0 <= v -> EncodeVarint64_loop n v = varint_enc n v.
Proof.
  revert v. induction n as [|n IH]; intros v Hv; [done|]. cbn [EncodeVarint64_loop varint_enc].
  destruct (Z.geb_spec v 128), (Z.ltb_spec v 128); try lia.
  - rewrite u8_lor_128, Z.shiftr_div_pow2 by lia. rewrite IH; [done|]. apply Z.div_pos; lia.
  - rewrite wrap_small by lia. done.
Qed.

Lemma EncodeVarint64_varint v : 0 <= v -> EncodeVarint64 v = varint v.
Proof. apply EncodeVarint64_enc. Qed.

Lemma varint_enc_last n v : v < 128 -> varint_enc (S n) v = [v].
Proof. intros H. cbn [varint_enc]. by destruct (Z.ltb_spec v 128); [|lia]. Qed.

Lemma varint_group v k : 0 <= v -> 0 <= k -> u8 (Z.lor (Z.shiftr v k) 128) = v / 2 ^ k mod 128 + 128.
Proof.
  intros Hv Hk. rewrite Z.shiftr_div_pow2 by done. apply u8_lor_128. apply Z.div_pos; [done|].
  by apply Z.pow_pos_nonneg.
Qed.

(** The five cases of [EncodeVarint32] are the loop of [EncodeVarint64]. *)
Lemma EncodeVarint32_varint v : 0 <= v < 2 ^ 32 -> EncodeVarint32 v = varint v.
Proof.
  intros Hv. unfold EncodeVarint32, varint. rewrite u8_lor_128 by lia. rewrite !varint_group by lia.
  rewrite !Z.shiftr_div_pow2 by lia.
  change (Z.shiftl 1 7) with 128. change (Z.shiftl 1 14) with 16384.
  change (Z.shiftl 1 21) with 2097152. change (Z.shiftl 1 28) with 268435456.
  change (2 ^ 7) with 128. change (2 ^ 14) with 16384. change (2 ^ 21) with 2097152.
  change (2 ^ 28) with 268435456.
  assert (D1 : v / 128 / 128 = v / 16384) by (by rewrite Z.div_div by lia).
  assert (D2 : v / 16384 / 128 = v / 2097152) by (by rewrite Z.div_div by lia).
  assert (D3 : v / 2097152 / 128 = v / 268435456) by (by rewrite Z.div_div by lia).
  destruct (Z.ltb_spec v 128); [rewrite varint_enc_last, wrap_small by lia; done|].
  rewrite varint_enc_step by lia. destruct (Z.ltb_spec v 16384).
  { assert (0 <= v / 128 < 128) by (split; [apply Z.div_pos|apply Z.div_lt_upper_bound]; lia).
    by rewrite varint_enc_last, wrap_small by lia. }
  rewrite varint_enc_step, D1 by (apply Z.div_le_lower_bound; lia). destruct (Z.ltb_spec v 2097152).
  { assert (0 <= v / 16384 < 128) by (split; [apply Z.div_pos|apply Z.div_lt_upper_bound]; lia).
    by rewrite varint_enc_last, wrap_small by lia. }
  rewrite varint_enc_step, D2 by (apply Z.div_le_lower_bound; lia). destruct (Z.ltb_spec v 268435456).
  { assert (0 <= v / 2097152 < 128) by (split; [apply Z.div_pos|apply Z.div_lt_upper_bound]; lia).
    by rewrite varint_enc_last, wrap_small by lia. }
  rewrite varint_enc_step, D3 by (apply Z.div_le_lower_bound; lia).
  assert (0 <= v / 268435456 < 128) by (split; [apply Z.div_pos|apply Z.div_lt_upper_bound]; lia).
  by rewrite varint_enc_last, wrap_small by lia.
Qed.

Lemma VarintLength_enc n v len :
  0 <= v < 2 ^ (7 * Z.of_nat n) -> (0 < n)%nat ->
  VarintLength_loop n v len = len - 1 + Z.of_nat (length (varint_enc n v)).
Proof.
  revert v len. induction n as [|n IH]; intros v len Hv Hn; [lia|]. rewrite pow_7_succ in Hv.
  cbn [VarintLength_loop varint_enc].
  destruct (Z.geb_spec v 128), (Z.ltb_spec v 128); try lia; [|simpl; lia].
  rewrite Z.shiftr_div_pow2 by lia. change (2 ^ 7) with 128.
  assert (v / 128 < 2 ^ (7 * Z.of_nat n)) by (apply Z.div_lt_upper_bound; lia).
  assert (1 <= v / 128) by (apply Z.div_le_lower_bound; lia).
  destruct n as [|n]; [simpl in *; lia|]. rewrite IH by lia. cbn [length]. lia.
Qed.

Lemma byte_high b : is_byte b -> truthy (Z.land b 128) = (128 <=? b).
Proof. apply land_80. Qed.

Lemma byte_low b : is_byte b -> b < 128 -> Z.land b 127 = b.
Proof. intros [] ?. rewrite land_7f, Z.mod_small; lia. Qed.

(** Reading the groups that follow [k] groups already read. *)
Lemma GetVarint_enc w last n k v result l :
  0 <= v < 2 ^ (7 * Z.of_nat n) -> (0 < n)%nat -> 0 <= k ->
  k + 7 * (Z.of_nat n - 1) <= last -> last <= w ->
  0 <= result < 2 ^ k -> result + v * 2 ^ k < 2 ^ w ->
  GetVarint_loop w last k result (varint_enc n v ++ l) = Some (result + v * 2 ^ k, l).
Proof.
  revert k v result. induction n as [|n IH]; intros k v result Hv Hn Hk Hlast Hw Hr Hs; [lia|].
  rewrite pow_7_succ in Hv. cbn [varint_enc]. destruct (Z.ltb_spec v 128) as [E|E].
  - cbn [app GetVarint_loop]. rewrite byte_high by (unfold is_byte; lia).
    destruct (Z.leb_spec k last); [|lia]. destruct (Z.leb_spec 128 v); [lia|].
    rewrite lor_wrap_shiftl by lia. rewrite wrap_small; [done|nia].
  - pose proof (Z.mod_pos_bound v 128). cbn [app GetVarint_loop].
    rewrite byte_high by (unfold is_byte; lia).
    destruct (Z.leb_spec k last); [|lia]. destruct (Z.leb_spec 128 (v mod 128 + 128)); [|lia].
    assert (v / 128 < 2 ^ (7 * Z.of_nat n)) by (apply Z.div_lt_upper_bound; lia).
    assert (1 <= v / 128) by (apply Z.div_le_lower_bound; lia).
    assert (P7 : 2 ^ (k + 7) = 128 * 2 ^ k) by (rewrite Z.pow_add_r by lia; lia).
    assert (Ev : v = 128 * (v / 128) + v mod 128) by (apply Z.div_mod; lia).
    assert (0 < 2 ^ k) by (apply Z.pow_pos_nonneg; lia).
    destruct n as [|n]; [simpl in *; lia|].
    rewrite land_7f, group_mod, lor_wrap_shiftl, wrap_small by nia.
    rewrite IH by nia. rewrite P7. do 2 f_equal. rewrite Ev at 3. ring.
Qed.

Lemma GetVarint64_app v l : 0 <= v < 2 ^ 64 -> GetVarint64Ptr (EncodeVarint64 v ++ l) = Some (v, l).
Proof.
  intros Hv. rewrite EncodeVarint64_varint by lia. unfold GetVarint64Ptr, varint.
  rewrite (GetVarint_enc 64 63 10) by (simpl; lia). by rewrite Z.mul_1_r.
Qed.

Lemma varint_enc_5_10 v : 0 <= v < 2 ^ 32 -> varint_enc 10 v = varint_enc 5 v.
Proof.
  intros Hv. assert (E : forall n m u, 0 <= u < 2 ^ (7 * Z.of_nat n) -> (0 < n)%nat ->
    varint_enc (n + m) u = varint_enc n u).
  { clear. induction n as [|n IH]; intros m u Hu Hn; [lia|]. rewrite pow_7_succ in Hu.
    cbn [varint_enc Nat.add]. destruct (Z.ltb_spec u 128); [done|]. f_equal.
    assert (u / 128 < 2 ^ (7 * Z.of_nat n)) by (apply Z.div_lt_upper_bound; lia).
    assert (1 <= u / 128) by (apply Z.div_le_lower_bound; lia).
    destruct n; [simpl in *; lia|]. apply IH; lia. }
  apply (E 5%nat 5%nat). simpl. lia. lia.
Qed.

Lemma GetVarint32_app v l : 0 <= v < 2 ^ 32 -> GetVarint32Ptr (EncodeVarint32 v ++ l) = Some (v, l).
Proof.
  intros Hv. rewrite EncodeVarint32_varint by lia. unfold varint.
  assert (F : GetVarint32PtrFallback (varint_enc 10 v ++ l) = Some (v, l)).
  { unfold GetVarint32PtrFallback. rewrite varint_enc_5_10 by done.
    rewrite (GetVarint_enc 32 28 5) by (simpl; lia). by rewrite Z.mul_1_r. }
  unfold GetVarint32Ptr. destruct (varint_enc 10 v ++ l) as [|b p] eqn:E; [by rewrite F|].
  destruct (Z.eqb_spec (Z.land b 128) 0) as [E0|E0]; [|by rewrite F].
  cbn [varint_enc] in E. destruct (Z.ltb_spec v 128); simplify_eq/=; [done|].
  pose proof (byte_high (v mod 128 + 128) ltac:(unfold is_byte; pose proof (Z.mod_pos_bound v 128); lia)) as Hb.
  unfold truthy in Hb. rewrite E0 in Hb. pose proof (Z.mod_pos_bound v 128).
  destruct (Z.leb_spec 128 (v mod 128 + 128)); [done|lia].
Qed.

(** What a reader consumes it takes off the front. *)
Lemma GetVarint_loop_suffix w last shift result p v q :
  GetVarint_loop w last shift result p = Some (v, q) -> exists u, p = u ++ q /\ u <> [].
Proof.
  revert shift result. induction p as [|b p IH]; intros shift result H; [done|].
  cbn [GetVarint_loop] in H. destruct (shift <=? last); [|done].
  destruct (truthy _).
  - destruct (IH _ _ H) as (u & -> & _). by exists (b :: u).
  - simplify_eq. by exists [b].
Qed.

Lemma GetVarint32_suffix p v q : GetVarint32Ptr p = Some (v, q) -> exists u, p = u ++ q /\ u <> [].
Proof.
  unfold GetVarint32Ptr. destruct p as [|b p]; [apply GetVarint_loop_suffix|].
  destruct (_ =? 0); [|apply GetVarint_loop_suffix]. intros [= <- <-]. by exists [b].
Qed.

Lemma GetVarint_loop_range w last shift result p v q :
  0 <= w -> 0 <= shift -> is_bytes p -> 0 <= result < 2 ^ w ->
  GetVarint_loop w last shift result p = Some (v, q) -> 0 <= v < 2 ^ w.
Proof.
  intros Hw Hs Hp. revert shift Hs result. induction Hp as [|b p Hb Hp IH]; intros shift Hs result Hr H; [done|].
  cbn [GetVarint_loop] in H. destruct (shift <=? last); [|done].
  pose proof (fun z => wrap_range w z Hw) as Hz.
  destruct (truthy _).
  - apply (IH (shift + 7)) in H; [done|lia|]. by apply lor_range.
  - simplify_eq. by apply lor_range.
Qed.

Lemma GetVarint32_range p v q : is_bytes p -> GetVarint32Ptr p = Some (v, q) -> 0 <= v < 2 ^ 32.
Proof.
  intros Hp. unfold GetVarint32Ptr, GetVarint32PtrFallback. destruct p as [|b p]; [done|].
  destruct (_ =? 0).
  - intros [= <- <-]. apply Forall_cons in Hp as [Hb _]. unfold is_byte in Hb. lia.
  - apply GetVarint_loop_range; [lia|lia|done|lia].
Qed.

Lemma GetVarint64_range p v q : is_bytes p -> GetVarint64Ptr p = Some (v, q) -> 0 <= v < 2 ^ 64.
Proof. intros Hp. apply GetVarint_loop_range; [lia|lia|done|lia]. Qed.

Lemma EncodeVarint32_length v : 0 <= v < 2 ^ 32 -> (1 <= length (EncodeVarint32 v) <= 5)%nat.
Proof.
  intros Hv. rewrite EncodeVarint32_varint by done. pose proof (varint_length5 v Hv).
  pose proof (varint_length v). lia.
Qed.

Lemma EncodeVarint32_is_bytes v : 0 <= v < 2 ^ 32 -> is_bytes (EncodeVarint32 v).
Proof. intros Hv. rewrite EncodeVarint32_varint by done. apply varint_bytes. lia. Qed.

Lemma EncodeVarint64_is_bytes v : 0 <= v -> is_bytes (EncodeVarint64 v).
Proof. intros Hv. rewrite EncodeVarint64_varint by done. by apply varint_bytes. Qed.

(** * Length-prefixed slices *)

Lemma PutLengthPrefixed_app dst s : PutLengthPrefixedSlice dst s = dst ++ PutLengthPrefixedSlice [] s.
Proof. unfold PutLengthPrefixedSlice, PutVarint32. by rewrite <- app_assoc. Qed.

Lemma GetLengthPrefixed_app s l :
  size s < 2 ^ 32 -> GetLengthPrefixedSlice (PutLengthPrefixedSlice [] s ++ l) = (Some s, l).
Proof.
  intros Hs. pose proof (size_nonneg s).
  unfold GetLengthPrefixedSlice, PutLengthPrefixedSlice, PutVarint32, GetVarint32, Slice_remove_prefix.
  rewrite app_nil_l, <- app_assoc. rewrite wrap_small, GetVarint32_app by lia.
  destruct (Z.geb_spec (size (s ++ l)) (size s)) as [_|E].
  - unfold size. by rewrite Nat2Z.id, take_app_length, drop_app_length.
  - rewrite size_app in E. pose proof (size_nonneg l). lia.
Qed.

Lemma GetLengthPrefixedPtr_app s l :
  size s < 2 ^ 32 -> GetLengthPrefixedSlicePtr (PutLengthPrefixedSlice [] s ++ l) = Some (s, l).
Proof.
  intros Hs. pose proof (size_nonneg s).
  unfold GetLengthPrefixedSlicePtr, PutLengthPrefixedSlice, PutVarint32.
  rewrite app_nil_l, <- app_assoc. rewrite wrap_small, GetVarint32_app by lia. cbn [mbind option_bind].
  destruct (Z.ltb_spec (size (s ++ l)) (size s)) as [E|_].
  - rewrite size_app in E. pose proof (size_nonneg l). lia.
  - unfold size. by rewrite Nat2Z.id, take_app_length, drop_app_length.
Qed.

Lemma GetLengthPrefixed_inv input s rest :
  is_bytes input -> GetLengthPrefixedSlice input = (Some s, rest) ->
  exists u, input = u ++ s ++ rest /\ u <> [] /\ size s < 2 ^ 32.
Proof.
  intros Hb. unfold GetLengthPrefixedSlice, GetVarint32, Slice_remove_prefix.
  destruct (GetVarint32Ptr input) as [[len q]|] eqn:E; [|done].
  pose proof (GetVarint32_range _ _ _ Hb E).
  destruct (GetVarint32_suffix _ _ _ E) as (u & -> & Hu).
  destruct (Z.geb_spec (size q) len); intros; simplify_eq.
  exists u. rewrite take_drop. split; [done|]. split; [done|].
  unfold size. rewrite length_take. lia.
Qed.

#[export] Hint Resolve EncodeFixed32_bytes EncodeFixed64_bytes EncodeVarint32_is_bytes
  EncodeVarint64_is_bytes : lv.

(** whatever leveldb's writers append, its readers give back, with the rest
    of the input untouched: fixed-width integers, varints of 32 and 64 bits,
    and strings prefixed by their length, through both readers. *)
Theorem coding_roundtrip v32 v64 s rest :
  0 <= v32 < 2 ^ 32 -> 0 <= v64 < 2 ^ 64 -> size s < 2 ^ 32 ->
  DecodeFixed32 (PutFixed32 [] v32 ++ rest) = v32 /\
  DecodeFixed64 (PutFixed64 [] v64 ++ rest) = v64 /\
  GetVarint32 (PutVarint32 [] v32 ++ rest) = Some (v32, rest) /\
  GetVarint64 (PutVarint64 [] v64 ++ rest) = Some (v64, rest) /\
  GetLengthPrefixedSlice (PutLengthPrefixedSlice [] s ++ rest) = (Some s, rest) /\
  GetLengthPrefixedSlicePtr (PutLengthPrefixedSlice [] s ++ rest) = Some (s, rest).
Proof.
  intros H32 H64 Hs. split; [by apply DecodeFixed32_app|]. split; [by apply DecodeFixed64_app|].
  split; [by apply GetVarint32_app|]. split; [by apply GetVarint64_app|].
  split; [by apply GetLengthPrefixed_app|by apply GetLengthPrefixedPtr_app].
Qed.

Lemma coding_roundtrip_witness :
  PutVarint32 [] 300 = [172; 2] /\ GetVarint32 ([172; 2] ++ [9]) = Some (300, [9]).
Proof.
  split; [by vm_compute|].
  apply (coding_roundtrip 300 0 [] [9]); [lia|lia|by vm_compute].
Defined.

Lemma VarintLength_eq v : 0 <= v < 2 ^ 64 -> VarintLength v = size (EncodeVarint64 v).
Proof.
  intros Hv. unfold VarintLength, size. rewrite (VarintLength_enc 10) by (simpl; lia).
  rewrite EncodeVarint64_varint by lia. unfold varint. lia.
Qed.

(** the straight-line code of [EncodeVarint32] and the loop of
    [EncodeVarint64] write the same bytes, [VarintLength] is their number, and
    it is at most 5 for 32-bit and 10 for 64-bit values, the sizes of the
    buffers of [PutVarint32] and [PutVarint64]. *)
Theorem EncodeVarint_agree v :
  0 <= v < 2 ^ 64 ->
  (v < 2 ^ 32 -> EncodeVarint32 v = EncodeVarint64 v /\ (length (EncodeVarint32 v) <= 5)%nat) /\
  VarintLength v = size (EncodeVarint64 v) /\ (1 <= length (EncodeVarint64 v) <= 10)%nat.
Proof.
  intros Hv. split; [|split].
  - intros H. pose proof (EncodeVarint32_length v ltac:(lia)).
    rewrite EncodeVarint32_varint, EncodeVarint64_varint in * by lia. split; [done|lia].
  - by apply VarintLength_eq.
  - rewrite EncodeVarint64_varint by lia. apply varint_length.
Qed.

Lemma EncodeVarint_agree_witness : EncodeVarint32 (2 ^ 32 - 1) = EncodeVarint64 (2 ^ 32 - 1).
Proof. apply (EncodeVarint_agree (2 ^ 32 - 1)); lia. Defined.
