(* ===== verification/LvBloom.v ===== *)
(** leveldb's [Hash] ([util/hash.cc]) and filter policies
    ([include/leveldb/filter_policy.h], [util/bloom.cc]), and the theorem that
    the bloom filter has no false negatives. *)

From stdpp Require Import base list gmap strings.
From Stdlib Require Import ZArith Lia.
From S2P Require Import Prelude LvSlice LvCoding.

(** * Hash *)

(** [while (data + 4 <= limit)]: the hash and the bytes left. *)
Fixpoint Hash_words (data : list Z) (h : Z) : Z * list Z :=
  match data with
  | _ :: _ :: _ :: _ :: data' =>
      let w := DecodeFixed32 data in
      let h := u32 (h + w) in
      let h := u32 (h * 0xc6a4a793) in
      let h := Z.lxor h (Z.shiftr h 16) in
      Hash_words data' h
  | _ => (h, data)
  end.

Definition Hash (data : list Z) (seed : Z) : Z :=
  let m := 0xc6a4a793 in
  let r := 24 in
  let n := size data in
  let h := u32 (Z.lxor seed (u64 (n * m))) in
  let '(h, data) := Hash_words data h in
  let last h b0 :=
    let h := u32 (h + b0) in
    let h := u32 (h * m) in
    Z.lxor h (Z.shiftr h r) in
  match data with
  | [b0; b1; b2] => last (u32 (u32 (h + Z.shiftl b2 16) + Z.shiftl b1 8)) b0
  | [b0; b1] => last (u32 (h + Z.shiftl b1 8)) b0
  | [b0] => last h b0
  | _ => h
  end.

(** * Filter policies *)

(** The virtual functions of [FilterPolicy]. *)
Record FilterPolicy : Type := {
  FilterPolicy_Name : Slice;
  CreateFilter : list Slice -> Slice -> Slice;
  KeyMayMatch : Slice -> Slice -> bool
}.

(** What [filter_policy.h] asks: a filter is appended to the string and does
    not depend on it, and matches every key it was made for ([n] is an
    [int]), among the keys [ok] admits. *)
Class FilterPolicyLaws (p : FilterPolicy) (ok : Slice -> Prop) : Prop := {
  filter_append keys dst : CreateFilter p keys dst = dst ++ CreateFilter p keys [];
  filter_match keys key :
    Z.of_nat (length keys) < 2 ^ 31 -> Forall ok keys -> key ∈ keys ->
    KeyMayMatch p key (CreateFilter p keys []) = true
}.

Definition BloomHash (key : Slice) : Z := Hash key 0xbc9f1d34.

(** [BloomFilterPolicy::k_]: [0.69 * bits_per_key] rounded down, between 1 and
    30. (Below the upper limit no multiple of 0.69 is near an integer, so the
    double product and the exact one round to the same.) *)
Definition bloom_k (bits_per_key : Z) : Z :=
  let k := bits_per_key * 69 / 100 in
  let k := if k <? 1 then 1 else k in
  if k >? 30 then 30 else k.

(** [(h >> 17) | (h << 15)]. *)
Definition bloom_delta (h : Z) : Z := Z.lor (Z.shiftr h 17) (u32 (Z.shiftl h 15)).

Definition set_bit (array : list Z) (bitpos : Z) : list Z :=
  alter (fun b => Z.lor b (Z.shiftl 1 (bitpos mod 8))) (Z.to_nat (bitpos / 8)) array.

Definition test_bit (array : list Z) (bitpos : Z) : bool :=
  truthy (Z.land (nth (Z.to_nat (bitpos / 8)) array 0) (Z.shiftl 1 (bitpos mod 8))).

(** [for (size_t j = 0; j < k_; j++)] of [CreateFilter]. *)
Fixpoint bloom_add (j : nat) (bits delta h : Z) (array : list Z) : list Z :=
  match j with
  | O => array
  | S j' => bloom_add j' bits delta (u32 (h + delta)) (set_bit array (h mod bits))
  end.

(** [CreateFilter]'s number of bytes. *)
Definition bloom_bytes (bits_per_key : Z) (n : Z) : Z :=
  let bits := u64 (n * bits_per_key) in
  let bits := if bits <? 64 then 64 else bits in
  u64 (bits + 7) / 8.

Definition Bloom_CreateFilter (bits_per_key : Z) (keys : list Slice) (dst : Slice) : Slice :=
  let k_ := bloom_k bits_per_key in
  let bytes := bloom_bytes bits_per_key (Z.of_nat (length keys)) in
  let bits := u64 (bytes * 8) in
  let array :=
    fold_left (fun array key =>
      let h := BloomHash key in bloom_add (Z.to_nat k_) bits (bloom_delta h) h array)
      keys (replicate (Z.to_nat bytes) 0) in
  dst ++ array ++ [u8 k_].

(** [for (size_t j = 0; j < k; j++)] of [KeyMayMatch]. *)
Fixpoint bloom_probe (j : nat) (bits delta h : Z) (array : list Z) : bool :=
  match j with
  | O => true
  | S j' =>
      if test_bit array (h mod bits) then bloom_probe j' bits delta (u32 (h + delta)) array
      else false
  end.

Definition Bloom_KeyMayMatch (key bloom_filter : Slice) : bool :=
  let len := size bloom_filter in
  if len <? 2 then false
  else
    let bits := (len - 1) * 8 in
    let k := nth (Z.to_nat (len - 1)) bloom_filter 0 in
    if k >? 30 then true
    else
      let h := BloomHash key in
      bloom_probe (Z.to_nat k) bits (bloom_delta h) h bloom_filter.

Definition BloomFilterPolicy (bits_per_key : Z) : FilterPolicy := {|
  FilterPolicy_Name := chars "leveldb.BuiltinBloomFilter2";
  CreateFilter := Bloom_CreateFilter bits_per_key;
  KeyMayMatch := Bloom_KeyMayMatch
|}.

(** * Bits set stay set *)

Lemma length_set_bit a i : length (set_bit a i) = length a.
Proof. apply length_alter. Qed.

Lemma land_bit b i : 0 <= i -> truthy (Z.land b (Z.shiftl 1 i)) = Z.testbit b i.
Proof.
  intros Hi. unfold truthy. destruct (Z.testbit b i) eqn:E.
  - destruct (Z.eqb_spec (Z.land b (Z.shiftl 1 i)) 0) as [H|]; [|done].
    apply (f_equal (fun x => Z.testbit x i)) in H.
    rewrite Z.land_spec, Z.shiftl_spec, Z.sub_diag, E, Z.bits_0 in H by done. done.
  - destruct (Z.eqb_spec (Z.land b (Z.shiftl 1 i)) 0) as [|H]; [done|]. destruct H.
    apply Z.bits_inj'. intros j Hj. rewrite Z.land_spec, Z.shiftl_spec, Z.bits_0 by done.
    destruct (Z.eq_dec j i) as [->|]; [by rewrite E|].
    destruct (Z.lt_ge_cases j i); [by rewrite (Z.testbit_neg_r 1) by lia; apply andb_false_r|].
    rewrite (testbit_high 1 1) by lia. apply andb_false_r.
Qed.

Lemma test_bit_spec a i :
  0 <= i -> test_bit a i = Z.testbit (nth (Z.to_nat (i / 8)) a 0) (i mod 8).
Proof. intros Hi. apply land_bit. apply Z.mod_pos_bound. lia. Qed.

Lemma nth_set_bit a i j :
  nth j (set_bit a i) 0 =
  if decide (j = Z.to_nat (i / 8) /\ (j < length a)%nat)
  then Z.lor (nth j a 0) (Z.shiftl 1 (i mod 8)) else nth j a 0.
Proof.
  unfold set_bit. destruct (decide _) as [[-> Hl]|Hn].
  - apply lookup_lt_is_Some in Hl as [b Hb]. apply nth_lookup_Some with (d := 0) in Hb as Hn.
    rewrite Hn. apply nth_lookup_Some. by rewrite list_lookup_alter_eq, Hb.
  - rewrite !nth_lookup. destruct (decide (j = Z.to_nat (i / 8))) as [->|].
    + rewrite !lookup_ge_None_2; [done|lia|rewrite length_alter; lia].
    + by rewrite list_lookup_alter_ne by done.
Qed.

Lemma test_set_same a i :
  0 <= i < 8 * Z.of_nat (length a) -> test_bit (set_bit a i) i = true.
Proof.
  intros Hi. rewrite test_bit_spec, nth_set_bit by lia.
  assert (i / 8 < Z.of_nat (length a)) by (apply Z.div_lt_upper_bound; lia).
  assert (0 <= i / 8) by (apply Z.div_pos; lia).
  destruct (decide _) as [_|Hn]; [|destruct Hn; lia].
  pose proof (Z.mod_pos_bound i 8).
  rewrite Z.lor_spec, Z.shiftl_spec, Z.sub_diag by lia. apply orb_true_r.
Qed.

Lemma test_set_mono a i j : 0 <= j -> test_bit a j = true -> test_bit (set_bit a i) j = true.
Proof.
  intros Hj. rewrite !test_bit_spec, nth_set_bit by lia. destruct (decide _); [|done].
  intros E. by rewrite Z.lor_spec, E.
Qed.

Lemma length_bloom_add j bits d h a : length (bloom_add j bits d h a) = length a.
Proof. revert h a. induction j as [|j IH]; intros h a; [done|]. simpl. by rewrite IH, length_set_bit. Qed.

Lemma bloom_add_mono j bits d h a i :
  0 <= i -> test_bit a i = true -> test_bit (bloom_add j bits d h a) i = true.
Proof.
  revert h a. induction j as [|j IH]; intros h a Hi Ht; [done|]. simpl.
  apply IH; [done|]. by apply test_set_mono.
Qed.

(** The probes for a key find the bits its insertion set, in any later array. *)
Lemma bloom_probe_add j bits d h a a' :
  0 < bits <= 8 * Z.of_nat (length a) -> 0 <= h ->
  (forall i, 0 <= i -> test_bit (bloom_add j bits d h a) i = true -> test_bit a' i = true) ->
  bloom_probe j bits d h a' = true.
Proof.
  revert h a. induction j as [|j IH]; intros h a Hb Hh Hsub; [done|]. simpl in *.
  pose proof (Z.mod_pos_bound h bits ltac:(lia)).
  rewrite (Hsub (h mod bits)); [|lia|].
  - apply (IH _ (set_bit a (h mod bits))); [by rewrite length_set_bit| |done].
    apply wrap_range. lia.
  - apply bloom_add_mono; [lia|]. apply test_set_same. lia.
Qed.

Definition bloom_insert (k bits : Z) (array : list Z) (key : Slice) : list Z :=
  let h := BloomHash key in bloom_add (Z.to_nat k) bits (bloom_delta h) h array.

Lemma length_bloom_inserts k bits keys a : length (fold_left (bloom_insert k bits) keys a) = length a.
Proof.
  revert a. induction keys as [|key keys IH]; intros a; [done|]. simpl. rewrite IH. apply length_bloom_add.
Qed.

Lemma bloom_inserts_mono k bits keys a i :
  0 <= i -> test_bit a i = true -> test_bit (fold_left (bloom_insert k bits) keys a) i = true.
Proof.
  revert a. induction keys as [|key keys IH]; intros a Hi Ht; [done|]. simpl.
  apply IH; [done|]. by apply bloom_add_mono.
Qed.

Lemma Hash_words_range data h :
  0 <= h < 2 ^ 32 -> 0 <= (Hash_words data h).1 < 2 ^ 32.
Proof.
  revert data h. fix IH 1. intros [|a [|b [|c [|d data]]]] h Hh; try exact Hh.
  cbn [Hash_words]. apply IH. set (x := u32 (_ * _)).
  assert (Hx : 0 <= x < 2 ^ 32) by (apply wrap_range; lia).
  apply lxor_range; [lia|done|]. rewrite Z.shiftr_div_pow2 by lia.
  split; [apply Z.div_pos; lia|apply Z.div_lt_upper_bound; lia].
Qed.

Lemma lxor_shiftr_range x r : 0 <= r -> 0 <= x < 2 ^ 32 -> 0 <= Z.lxor x (Z.shiftr x r) < 2 ^ 32.
Proof.
  intros Hr Hx. apply lxor_range; [lia|done|]. rewrite Z.shiftr_div_pow2 by lia.
  assert (1 <= 2 ^ r) by (apply (Z.pow_le_mono_r 2 0 r); lia).
  split; [apply Z.div_pos; lia|apply Z.div_lt_upper_bound; nia].
Qed.

Lemma Hash_range data seed : 0 <= seed < 2 ^ 32 -> 0 <= Hash data seed < 2 ^ 32.
Proof.
  intros Hs. unfold Hash.
  pose proof (Hash_words_range data (u32 (Z.lxor seed (u64 (size data * 0xc6a4a793))))
    ltac:(apply wrap_range; lia)) as H.
  destruct (Hash_words _ _) as [h d]. cbn [fst] in H.
  destruct d as [|b0 [|b1 [|b2 [|]]]]; try exact H;
    apply lxor_shiftr_range; try lia; apply wrap_range; lia.
Qed.

Lemma BloomHash_range key : 0 <= BloomHash key < 2 ^ 32.
Proof. apply Hash_range. lia. Qed.

(** * No false negatives *)

Lemma bloom_k_range b : 1 <= bloom_k b <= 30.
Proof.
  unfold bloom_k. destruct (Z.ltb_spec (b * 69 / 100) 1); [done|].
  destruct (Z.gtb_spec (b * 69 / 100) 30); lia.
Qed.

Lemma bloom_bytes_range b n :
  0 <= b < 2 ^ 31 -> 0 <= n < 2 ^ 31 -> 8 <= bloom_bytes b n < 2 ^ 60.
Proof.
  intros Hb Hn. unfold bloom_bytes. assert (0 <= n * b < 2 ^ 62) by nia.
  rewrite (wrap_small 64 (n * b)) by lia. set (bits := if n * b <? 64 then 64 else n * b).
  assert (64 <= bits < 2 ^ 62) by (unfold bits; destruct (Z.ltb_spec (n * b) 64); lia).
  rewrite wrap_small by lia. split; [apply Z.div_le_lower_bound; lia|apply Z.div_lt_upper_bound; lia].
Qed.

(** A filter is its bits followed by the number of probes. *)
Lemma nth_app_below (a : list Z) x i : (i < length a)%nat -> nth i (a ++ x) 0 = nth i a 0.
Proof. intros. by rewrite app_nth1. Qed.

Lemma bloom_match bits_per_key keys key :
  0 <= bits_per_key < 2 ^ 31 -> Z.of_nat (length keys) < 2 ^ 31 -> key ∈ keys ->
  Bloom_KeyMayMatch key (Bloom_CreateFilter bits_per_key keys []) = true.
Proof.
  intros Hb Hn Hin. unfold Bloom_CreateFilter. rewrite app_nil_l.
  pose proof (bloom_k_range bits_per_key) as Hk.
  pose proof (bloom_bytes_range bits_per_key (Z.of_nat (length keys)) Hb ltac:(lia)) as HB.
  set (k := bloom_k bits_per_key) in *. set (bytes := bloom_bytes _ _) in *.
  rewrite (wrap_small 64 (bytes * 8)), (wrap_small 8 k) by lia.
  change (fun array key => _) with (bloom_insert k (bytes * 8)).
  set (array := fold_left _ _ _).
  assert (Hlen : length array = Z.to_nat bytes).
  { unfold array. by rewrite length_bloom_inserts, length_replicate. }
  assert (Hsz : size array = bytes) by (unfold size; lia).
  assert (Hnth : nth (Z.to_nat bytes) (array ++ [k]) 0 = k) by (rewrite <- Hlen; apply nth_middle).
  unfold Bloom_KeyMayMatch. rewrite size_app, Hsz. change (size [k]) with 1.
  replace (bytes + 1 - 1) with bytes by lia. rewrite Hnth.
  destruct (Z.ltb_spec (bytes + 1) 2); [lia|]. destruct (Z.gtb_spec k 30); [lia|].
  apply list_elem_of_split in Hin as (k1 & k2 & ->).
  unfold array in Hlen |- *. rewrite fold_left_app in Hlen |- *. cbn [fold_left] in *.
  set (a1 := fold_left _ k1 _) in *.
  assert (H1 : length a1 = Z.to_nat bytes) by (unfold a1; by rewrite length_bloom_inserts, length_replicate).
  apply (bloom_probe_add _ _ _ _ a1); [lia|apply BloomHash_range|].
  intros i Hi Ht. apply (bloom_inserts_mono k (bytes * 8) k2) in Ht; [|done].
  fold (bloom_insert k (bytes * 8) a1 key) in Ht.
  set (a2 := fold_left _ k2 _) in *. rewrite test_bit_spec in * by done.
  destruct (Nat.lt_ge_cases (Z.to_nat (i / 8)) (length a2)).
  - by rewrite nth_app_below.
  - rewrite nth_overflow in Ht by done. by rewrite Z.bits_0 in Ht.
Qed.

#[export] Instance Bloom_laws bits_per_key :
  0 <= bits_per_key < 2 ^ 31 -> FilterPolicyLaws (BloomFilterPolicy bits_per_key) (fun _ => True).
Proof.
  intros Hb. constructor; [done|]. simpl. intros keys key Hn _ Hin. by apply bloom_match.
Qed.

(** the bloom filter has no false negatives: a filter made for a list of
    keys, with any number of bits per key, matches each of them; filters shorter
    than two bytes match nothing, and a filter with the reserved number of
    probes matches everything. *)
Theorem Bloom_no_false_negatives bits_per_key keys key dst :
  0 <= bits_per_key < 2 ^ 31 -> Z.of_nat (length keys) < 2 ^ 31 -> key ∈ keys ->
  let p := BloomFilterPolicy bits_per_key in
  exists filter, CreateFilter p keys dst = dst ++ filter /\
  KeyMayMatch p key filter = true /\
  (forall f, (length f < 2)%nat -> KeyMayMatch p key f = false) /\
  (forall f k, f <> [] -> k > 30 -> KeyMayMatch p key (f ++ [k]) = true).
Proof.
  intros Hb Hn Hin p. exists (CreateFilter p keys []). split; [done|]. split; [by apply bloom_match|].
  split; simpl; unfold Bloom_KeyMayMatch.
  - intros f Hf. destruct (Z.ltb_spec (size f) 2); [done|unfold size in *; lia].
  - intros f k Hf Hk. rewrite size_app. change (size [k]) with 1. destruct f as [|x f]; [done|].
    rewrite size_cons. pose proof (size_nonneg f). destruct (Z.ltb_spec (size f + 1 + 1) 2); [lia|].
    replace (Z.to_nat (size f + 1 + 1 - 1)) with (length (x :: f)) by (unfold size; simpl; lia).
    rewrite nth_middle. by destruct (Z.gtb_spec k 30); [|lia].
Qed.

Lemma Bloom_no_false_negatives_witness :
  exists filter, Bloom_CreateFilter 10 [chars "hello"; chars "world"] [] = filter /\
  Bloom_KeyMayMatch (chars "world") filter = true /\
  Bloom_KeyMayMatch (chars "foo") filter = false.
Proof.
  destruct (Bloom_no_false_negatives 10 [chars "hello"; chars "world"] (chars "world") [])
    as (f & E & H & _); [lia|by vm_compute|set_solver|].
  exists f. split; [exact E|]. split; [exact H|]. rewrite app_nil_l in E. rewrite <- E. by vm_compute.
Defined.
