(* ===== verification/LvLogging.v ===== *)
(** Numbers and escaped strings as text ([util/logging.cc]), and the theorems
    that reading decimal numbers undoes writing them and accepts exactly the
    numbers that fit 64 bits. *)

From stdpp Require Import base list gmap strings.
From Stdlib Require Import ZArith Lia.
From S2P Require Import Prelude LvSlice.

(** [snprintf] with [%llu]; twenty digits are enough for 64 bits. *)
Fixpoint decimal (fuel : nat) (num : Z) : Slice :=
  match fuel with
  | O => []
  | S fuel' => if num <? 10 then [48 + num] else decimal fuel' (num / 10) ++ [48 + num mod 10]
  end.

Definition AppendNumberTo (str : Slice) (num : Z) : Slice := str ++ decimal 20 num.

Definition NumberToString (num : Z) : Slice := AppendNumberTo [] num.

(** One digit of [%x]. *)
Definition hex_digit (d : Z) : Z := if d <? 10 then 48 + d else 97 + (d - 10).

Definition AppendEscapedStringTo (str value : Slice) : Slice :=
  fold_left (fun str c =>
    if (c >=? 32) && (c <=? 126) then str ++ [c]
    else str ++ chars "\x" ++ [hex_digit (Z.land c 0xff / 16); hex_digit (Z.land c 0xff mod 16)])
    value str.

Definition EscapeString (value : Slice) : Slice := AppendEscapedStringTo [] value.

Definition kMaxUint64 : Z := 2 ^ 64 - 1.
Definition kLastDigitOfMaxUint64 : Z := 48 + kMaxUint64 mod 10.

(** The loop of [ConsumeDecimalNumber]: the value and the bytes left, or the
    return on overflow. *)
Fixpoint consume_digits (value : Z) (current : Slice) : option (Z * Slice) :=
  match current with
  | [] => Some (value, [])
  | ch :: current' =>
      if (ch <? 48) || (ch >? 57) then Some (value, current)
      else if (value >? kMaxUint64 / 10) ||
              ((value =? kMaxUint64 / 10) && (ch >? kLastDigitOfMaxUint64))
      then None
      else consume_digits (u64 (u64 (value * 10) + (ch - 48))) current'
  end.

(** What is returned, the value stored, and the slice left in [*in]. *)
Definition ConsumeDecimalNumber (input : Slice) : bool * option Z * Slice :=
  match consume_digits 0 input with
  | None => (false, None, input)
  | Some (value, current) =>
      let digits_consumed := size input - size current in
      (negb (digits_consumed =? 0), Some value, Slice_remove_prefix input digits_consumed)
  end.

(** * The numbers accepted *)

Definition is_digit (c : Z) : Prop := 48 <= c <= 57.

(** The number a string of digits denotes, continuing [acc]. *)
Definition digits_value (acc : Z) (ds : Slice) : Z := fold_left (fun v c => v * 10 + (c - 48)) ds acc.

Definition no_digit_head (s : Slice) : Prop := match s with c :: _ => ~ is_digit c | [] => True end.

Lemma digits_value_le acc ds : 0 <= acc -> Forall is_digit ds -> acc <= digits_value acc ds.
Proof.
  intros Ha Hd. revert acc Ha. induction Hd as [|c ds Hc Hd IH]; intros acc Ha; [done|].
  unfold is_digit in Hc. specialize (IH (acc * 10 + (c - 48)) ltac:(lia)). cbn [digits_value fold_left] in *.
  unfold digits_value in IH. lia.
Qed.

Lemma consume_digits_app v ds rest :
  0 <= v < 2 ^ 64 -> Forall is_digit ds -> no_digit_head rest ->
  consume_digits v (ds ++ rest) =
  if digits_value v ds <? 2 ^ 64 then Some (digits_value v ds, rest) else None.
Proof.
  intros Hv Hd Hr. revert v Hv. induction Hd as [|c ds Hc Hd IH]; intros v Hv.
  - simpl. destruct (Z.ltb_spec v (2 ^ 64)); [|lia]. destruct rest as [|c rest]; [done|].
    simpl in *. unfold is_digit in Hr.
    by destruct (Z.ltb_spec c 48), (Z.gtb_spec c 57); try done; lia.
  - unfold is_digit in Hc. cbn [app consume_digits digits_value fold_left].
    fold (digits_value (v * 10 + (c - 48)) ds).
    destruct (Z.ltb_spec c 48), (Z.gtb_spec c 57); try lia. cbn [orb].
    change (kMaxUint64 / 10) with 1844674407370955161. change kLastDigitOfMaxUint64 with 53.
    pose proof (digits_value_le (v * 10 + (c - 48)) ds ltac:(lia) Hd).
    destruct (Z.gtb_spec v 1844674407370955161), (Z.eqb_spec v 1844674407370955161),
      (Z.gtb_spec c 53); cbn [orb andb]; try lia;
      try (destruct (Z.ltb_spec (digits_value (v * 10 + (c - 48)) ds) (2 ^ 64)); [lia|done]);
      rewrite (wrap_small 64 (v * 10)), wrap_small by lia; apply IH; lia.
Qed.

Lemma span_digits s : exists ds rest, s = ds ++ rest /\ Forall is_digit ds /\ no_digit_head rest.
Proof.
  induction s as [|c s (ds & rest & -> & Hd & Hr)]; [by exists [], []|].
  destruct (decide (is_digit c)) as [H|H].
  - exists (c :: ds), rest. split; [done|]. by split; [constructor|].
  - by exists [], (c :: ds ++ rest).
Qed.

Lemma ConsumeDecimalNumber_app ds rest :
  Forall is_digit ds -> no_digit_head rest ->
  ConsumeDecimalNumber (ds ++ rest) =
  if digits_value 0 ds <? 2 ^ 64 then (negb (size ds =? 0), Some (digits_value 0 ds), rest)
  else (false, None, ds ++ rest).
Proof.
  intros Hd Hr. unfold ConsumeDecimalNumber. rewrite consume_digits_app by (done || lia).
  destruct (_ <? _); [|done]. rewrite size_app. replace (size ds + size rest - size rest) with (size ds) by lia.
  unfold Slice_remove_prefix, size. by rewrite Nat2Z.id, drop_app_length.
Qed.

Lemma decimal_digits n num : 0 <= num -> Forall is_digit (decimal n num).
Proof.
  revert num. induction n as [|n IH]; intros num Hn; [done|]. cbn [decimal].
  destruct (Z.ltb_spec num 10).
  - repeat constructor; lia.
  - apply Forall_app. split; [apply IH, Z.div_pos; lia|]. pose proof (Z.mod_pos_bound num 10).
    repeat constructor; lia.
Qed.

Lemma decimal_nonempty n num : (0 < n)%nat -> decimal n num <> [].
Proof. destruct n; [lia|]. intros _. simpl. destruct (num <? 10); [done|]. by destruct (decimal n (num / 10)). Qed.

Lemma decimal_value n num :
  0 <= num < 10 ^ Z.of_nat n -> digits_value 0 (decimal n num) = num.
Proof.
  revert num. induction n as [|n IH]; intros num Hn; [simpl in *; lia|]. cbn [decimal].
  destruct (Z.ltb_spec num 10); [simpl; lia|].
  assert (num / 10 < 10 ^ Z.of_nat n).
  { apply Z.div_lt_upper_bound; [lia|]. rewrite Nat2Z.inj_succ, Z.pow_succ_r in Hn by lia. lia. }
  unfold digits_value in *. rewrite fold_left_app, IH by (split; [apply Z.div_pos; lia|done]).
  simpl. pose proof (Z.div_mod num 10). lia.
Qed.

Lemma NumberToString_digits num : 0 <= num -> Forall is_digit (NumberToString num).
Proof. intros. by apply (decimal_digits 20). Qed.

Lemma NumberToString_value num : 0 <= num < 2 ^ 64 -> digits_value 0 (NumberToString num) = num.
Proof. intros. apply (decimal_value 20). simpl. lia. Qed.

Lemma Consume_NumberToString num rest :
  0 <= num < 2 ^ 64 -> no_digit_head rest ->
  ConsumeDecimalNumber (NumberToString num ++ rest) = (true, Some num, rest).
Proof.
  intros Hn Hr. rewrite ConsumeDecimalNumber_app by (done || apply NumberToString_digits; lia).
  rewrite NumberToString_value by done. destruct (Z.ltb_spec num (2 ^ 64)); [|lia].
  pose proof (decimal_nonempty 20 num ltac:(lia)) as Hne.
  unfold NumberToString, AppendNumberTo. rewrite app_nil_l.
  destruct (decimal 20 num) as [|c s]; [done|]. rewrite size_cons. pose proof (size_nonneg s).
  destruct (Z.eqb_spec (size s + 1) 0); [lia|done].
Qed.

(** [ConsumeDecimalNumber] splits its input after the longest run of digits;
    it succeeds exactly when the run is not empty and its value fits 64 bits,
    and then gives the value and the rest; on overflow it changes nothing; and
    it reads back what [NumberToString] writes. *)
Theorem ConsumeDecimalNumber_exact input :
  (exists ds rest, input = ds ++ rest /\ Forall is_digit ds /\ no_digit_head rest /\
     ConsumeDecimalNumber input =
       (if digits_value 0 ds <? 2 ^ 64 then (negb (size ds =? 0), Some (digits_value 0 ds), rest)
        else (false, None, input))) /\
  (forall num rest, 0 <= num < 2 ^ 64 -> no_digit_head rest ->
     ConsumeDecimalNumber (NumberToString num ++ rest) = (true, Some num, rest)).
Proof.
  split; [|intros; by apply Consume_NumberToString].
  destruct (span_digits input) as (ds & rest & -> & Hd & Hr). exists ds, rest.
  do 3 (split; [done|]). by apply ConsumeDecimalNumber_app.
Qed.

(** Escaping makes only printable characters of any bytes. *)
Lemma EscapeString_printable s :
  is_bytes s -> Forall (fun c => 32 <= c <= 126) (EscapeString s).
Proof.
  intros Hs. unfold EscapeString, AppendEscapedStringTo.
  assert (G : forall acc, Forall (fun c => 32 <= c <= 126) acc ->
    Forall (fun c => 32 <= c <= 126) (AppendEscapedStringTo acc s)); [|by apply G].
  induction Hs as [|c s Hc Hs IH]; intros acc Ha; [done|].
  unfold AppendEscapedStringTo in *. cbn [fold_left]. apply IH.
  destruct (Z.geb_spec c 32), (Z.leb_spec c 126); cbn [andb];
    apply Forall_app; split; try done; try (repeat constructor; lia).
  all: assert (Hh : forall d, 0 <= d < 16 -> 32 <= hex_digit d <= 126)
    by (intros d Hd; unfold hex_digit; destruct (Z.ltb_spec d 10); lia).
  all: unfold is_byte in Hc; change 0xff with (2 ^ 8 - 1); rewrite land_mask, Z.mod_small by lia.
  all: pose proof (Z.mod_pos_bound c 16); assert (0 <= c / 16 < 16)
    by (split; [apply Z.div_pos; lia|apply Z.div_lt_upper_bound; lia]).
  all: repeat (constructor; [try (by vm_compute); apply Hh; lia|]); constructor.
Qed.
