(* ===== verification/LvFormat.v ===== *)
(** Internal keys ([db/dbformat.h], [db/dbformat.cc]): a user key followed by
    eight bytes that pack a sequence number and a type. Their comparator, filter
    policy and lookup keys, over any user comparator and policy. *)

From stdpp Require Import base list gmap strings.
From Stdlib Require Import ZArith Lia.
From S2P Require Import Prelude LvSlice LvCoding LvBloom LvLogging.

Inductive ValueType : Type := kTypeDeletion | kTypeValue.

#[export] Instance ValueType_eq_dec : EqDecision ValueType.
Proof. solve_decision. Defined.

Definition ValueType_val (t : ValueType) : Z :=
  match t with kTypeDeletion => 0x0 | kTypeValue => 0x1 end.

Definition kValueTypeForSeek : ValueType := kTypeValue.

Definition kMaxSequenceNumber : Z := Z.shiftl 0x1 56 - 1.

Record ParsedInternalKey : Type := {
  user_key : Slice;
  sequence : Z;
  type : ValueType
}.

(** The precondition [seq <= kMaxSequenceNumber] is an assertion. *)
Definition PackSequenceAndType (seq : Z) (t : ValueType) : Z :=
  Z.lor (u64 (Z.shiftl seq 8)) (ValueType_val t).

Definition InternalKeyEncodingLength (key : ParsedInternalKey) : Z := size (user_key key) + 8.

Definition AppendInternalKey (result : Slice) (key : ParsedInternalKey) : Slice :=
  PutFixed64 (result ++ user_key key) (PackSequenceAndType (sequence key) (type key)).

(** [internal_key.data() + n - 8]. *)
Definition last8 (internal_key : Slice) : list Z := drop (length internal_key - 8) internal_key.

(** [None] is the result [false]. *)
Definition ParseInternalKey (internal_key : Slice) : option ParsedInternalKey :=
  let n := size internal_key in
  if n <? 8 then None
  else
    let num := DecodeFixed64 (last8 internal_key) in
    let c := Z.land num 0xff in
    let seq := Z.shiftr num 8 in
    let ukey := take (length internal_key - 8) internal_key in
    if c =? 0 then Some {| user_key := ukey; sequence := seq; type := kTypeDeletion |}
    else if c =? 1 then Some {| user_key := ukey; sequence := seq; type := kTypeValue |}
    else None.

(** The precondition [internal_key.size() >= 8] is an assertion. *)
Definition ExtractUserKey (internal_key : Slice) : Slice :=
  take (length internal_key - 8) internal_key.

Definition ParsedInternalKey_DebugString (k : ParsedInternalKey) : Slice :=
  chars "'" ++ EscapeString (user_key k) ++ chars "' @ " ++ NumberToString (sequence k)
  ++ chars " : " ++ NumberToString (ValueType_val (type k)).

Definition InternalKey_DebugString (rep : Slice) : Slice :=
  match ParseInternalKey rep with
  | Some parsed => ParsedInternalKey_DebugString parsed
  | None => chars "(bad)" ++ EscapeString rep
  end.

(** * The comparator *)

Section InternalKeyComparator.
Variable user_comparator : Comparator.

Definition InternalKey_Compare (akey bkey : Slice) : Z :=
  let r := Compare user_comparator (ExtractUserKey akey) (ExtractUserKey bkey) in
  if r =? 0 then
    let anum := DecodeFixed64 (last8 akey) in
    let bnum := DecodeFixed64 (last8 bkey) in
    if anum >? bnum then -1 else if anum <? bnum then 1 else r
  else r.

Definition InternalKey_FindShortestSeparator (start limit : Slice) : Slice :=
  let user_start := ExtractUserKey start in
  let user_limit := ExtractUserKey limit in
  let tmp := FindShortestSeparator user_comparator user_start user_limit in
  if (size tmp <? size user_start) && (Compare user_comparator user_start tmp <? 0)
  then PutFixed64 tmp (PackSequenceAndType kMaxSequenceNumber kValueTypeForSeek)
  else start.

Definition InternalKey_FindShortSuccessor (key : Slice) : Slice :=
  let ukey := ExtractUserKey key in
  let tmp := FindShortSuccessor user_comparator ukey in
  if (size tmp <? size ukey) && (Compare user_comparator ukey tmp <? 0)
  then PutFixed64 tmp (PackSequenceAndType kMaxSequenceNumber kValueTypeForSeek)
  else key.

Definition InternalKeyComparator : Comparator := {|
  Comparator_Name := chars "leveldb.InternalKeyComparator";
  Compare := InternalKey_Compare;
  FindShortestSeparator := InternalKey_FindShortestSeparator;
  FindShortSuccessor := InternalKey_FindShortSuccessor
|}.
End InternalKeyComparator.

(** * The filter policy *)

Definition InternalFilterPolicy (user_policy : FilterPolicy) : FilterPolicy := {|
  FilterPolicy_Name := FilterPolicy_Name user_policy;
  CreateFilter keys dst := CreateFilter user_policy (map ExtractUserKey keys) dst;
  KeyMayMatch key f := KeyMayMatch user_policy (ExtractUserKey key) f
|}.

(** * Internal keys and lookup keys *)

Definition InternalKey (ukey : Slice) (s : Z) (t : ValueType) : Slice :=
  AppendInternalKey [] {| user_key := ukey; sequence := s; type := t |}.

(** The bytes from [start_] to [end_], and the offset of [kstart_]. *)
Record LookupKey : Type := { lk_start : list Z; lk_kstart : nat }.

Definition LookupKey_new (ukey : Slice) (s : Z) : LookupKey :=
  let usize := size ukey in
  let klength := EncodeVarint32 (u32 (usize + 8)) in
  {| lk_start := klength ++ ukey ++ EncodeFixed64 (PackSequenceAndType s kValueTypeForSeek);
     lk_kstart := length klength |}.

Definition LookupKey_memtable_key (k : LookupKey) : Slice := lk_start k.
Definition LookupKey_internal_key (k : LookupKey) : Slice := drop (lk_kstart k) (lk_start k).
Definition LookupKey_user_key (k : LookupKey) : Slice :=
  take (length (lk_start k) - lk_kstart k - 8) (drop (lk_kstart k) (lk_start k)).

(** The bytes [LookupKey] allocates when [space_] is too small. *)
Definition LookupKey_needed (ukey : Slice) : Z := size ukey + 13.

(** * Properties

    Internal keys: packing and parsing, the order of [InternalKeyComparator],
    separators, and lookup keys. *)

(** * Packing *)

Definition seq_ok (s : Z) : Prop := 0 <= s <= kMaxSequenceNumber.

Lemma pack_eq s t : seq_ok s -> PackSequenceAndType s t = s * 256 + ValueType_val t.
Proof.
  unfold seq_ok. change kMaxSequenceNumber with (2 ^ 56 - 1). intros Hs. unfold PackSequenceAndType.
  rewrite Z.shiftl_mul_pow2 by lia. change (2 ^ 8) with 256. rewrite wrap_small by lia.
  rewrite Z.lor_comm. replace (s * 256) with (Z.shiftl s 8) at 1 by (rewrite Z.shiftl_mul_pow2; lia).
  rewrite lor_shiftl_add by (destruct t; simpl; lia). change (2 ^ 8) with 256. lia.
Qed.

Lemma type_range t : 0 <= ValueType_val t <= 1.
Proof. destruct t; simpl; lia. Qed.

Lemma pack_range s t : seq_ok s -> 0 <= PackSequenceAndType s t < 2 ^ 64.
Proof.
  intros Hs. rewrite pack_eq by done. unfold seq_ok in Hs. change kMaxSequenceNumber with (2 ^ 56 - 1) in Hs.
  pose proof (type_range t). lia.
Qed.

(** * Keys made of a user key and eight bytes *)

Lemma extract_app u n : ExtractUserKey (u ++ EncodeFixed64 n) = u.
Proof.
  unfold ExtractUserKey. rewrite length_app, length_EncodeFixed64.
  replace (length u + 8 - 8)%nat with (length u) by lia. apply take_app_length.
Qed.

Lemma last8_app u n : last8 (u ++ EncodeFixed64 n) = EncodeFixed64 n.
Proof.
  unfold last8. rewrite length_app, length_EncodeFixed64.
  replace (length u + 8 - 8)%nat with (length u) by lia. apply drop_app_length.
Qed.

Lemma last8_num u n : 0 <= n < 2 ^ 64 -> DecodeFixed64 (last8 (u ++ EncodeFixed64 n)) = n.
Proof. intros. rewrite last8_app, <- (app_nil_r (EncodeFixed64 n)). by apply DecodeFixed64_app. Qed.

Lemma InternalKey_eq u s t : InternalKey u s t = u ++ EncodeFixed64 (PackSequenceAndType s t).
Proof. done. Qed.

Lemma InternalKey_length u s t : length (InternalKey u s t) = (length u + 8)%nat.
Proof. by rewrite InternalKey_eq, length_app. Qed.

Lemma InternalKey_user u s t : ExtractUserKey (InternalKey u s t) = u.
Proof. apply extract_app. Qed.

Lemma InternalKey_num u s t :
  seq_ok s -> DecodeFixed64 (last8 (InternalKey u s t)) = s * 256 + ValueType_val t.
Proof. intros. rewrite InternalKey_eq, last8_num, pack_eq by (done || by apply pack_range). done. Qed.

Lemma InternalKey_bytes u s t : is_bytes u -> is_bytes (InternalKey u s t).
Proof. intros Hu. rewrite InternalKey_eq. apply is_bytes_app. split; [done|apply EncodeFixed64_bytes]. Qed.

(** A key that parses is the encoding of what it parses to. *)
Lemma key_split k :
  is_bytes k -> (8 <= length k)%nat -> k = ExtractUserKey k ++ EncodeFixed64 (DecodeFixed64 (last8 k)).
Proof.
  intros Hk Hl. unfold ExtractUserKey, last8, DecodeFixed64, EncodeFixed64. cbn [kLittleEndian].
  rewrite <- (take_drop (length k - 8) k) at 1. f_equal.
  set (d := drop _ _). assert (Hd : length d = 8%nat) by (unfold d; rewrite length_drop; lia).
  rewrite take_ge by lia. rewrite <- Hd. symmetry. apply le_bytes_val. by apply Forall_drop.
Qed.

Lemma parse_unfold k :
  (8 <= length k)%nat ->
  ParseInternalKey k =
  let num := DecodeFixed64 (last8 k) in
  if num mod 256 =? 0 then Some {| user_key := ExtractUserKey k; sequence := num / 256; type := kTypeDeletion |}
  else if num mod 256 =? 1 then Some {| user_key := ExtractUserKey k; sequence := num / 256; type := kTypeValue |}
  else None.
Proof.
  intros Hl. unfold ParseInternalKey. destruct (Z.ltb_spec (size k) 8) as [H|H]; [unfold size in H; lia|].
  cbv zeta. change 0xff with (2 ^ 8 - 1). rewrite land_mask by lia. by rewrite Z.shiftr_div_pow2 by lia.
Qed.

Lemma parse_internal u s t :
  seq_ok s -> ParseInternalKey (InternalKey u s t) = Some {| user_key := u; sequence := s; type := t |}.
Proof.
  intros Hs. rewrite parse_unfold by (rewrite InternalKey_length; lia). cbv zeta.
  rewrite InternalKey_num, InternalKey_user by done. pose proof (type_range t).
  rewrite Z.add_comm, Z_mod_plus_full, Z_div_plus_full, Z.mod_small, Z.div_small by lia.
  by destruct t.
Qed.

Lemma parse_inv k p :
  is_bytes k -> ParseInternalKey k = Some p ->
  k = InternalKey (user_key p) (sequence p) (type p) /\ seq_ok (sequence p).
Proof.
  intros Hk Hp. destruct (Nat.lt_ge_cases (length k) 8) as [H|H].
  { unfold ParseInternalKey in Hp. destruct (Z.ltb_spec (size k) 8); [done|unfold size in *; lia]. }
  rewrite parse_unfold in Hp by done. cbv zeta in Hp.
  pose proof (DecodeFixed64_range (last8 k)) as R. set (num := DecodeFixed64 (last8 k)) in *.
  assert (S : seq_ok (num / 256)).
  { unfold seq_ok. change kMaxSequenceNumber with (2 ^ 56 - 1).
    split; [apply Z.div_pos; lia|]. apply Z.lt_le_pred. apply Z.div_lt_upper_bound; lia. }
  pose proof (Z.div_mod num 256 ltac:(lia)).
  destruct (Z.eqb_spec (num mod 256) 0) as [E0|E0]; [|destruct (Z.eqb_spec (num mod 256) 1) as [E1|E1]];
    simplify_eq; cbn [user_key sequence type]; (split; [|done]);
    rewrite (key_split k Hk H) at 1; rewrite InternalKey_eq; do 2 f_equal;
    rewrite pack_eq by done; cbn [ValueType_val]; lia.
Qed.

(** parsing an internal key gives back the user key, sequence number and
    type it was made of; it fails exactly on what is shorter than eight bytes or
    has a type byte above [kTypeValue]; and what parses is the encoding of the
    result. *)
Theorem ParseInternalKey_roundtrip u s t k :
  seq_ok s -> is_bytes k ->
  ParseInternalKey (InternalKey u s t) = Some {| user_key := u; sequence := s; type := t |} /\
  size (InternalKey u s t) = InternalKeyEncodingLength {| user_key := u; sequence := s; type := t |} /\
  (ParseInternalKey k = None <-> size k < 8 \/ 1 < DecodeFixed64 (last8 k) mod 256) /\
  (forall p, ParseInternalKey k = Some p -> k = InternalKey (user_key p) (sequence p) (type p)).
Proof.
  intros Hs Hk. split; [by apply parse_internal|]. split; [|split].
  - unfold size, InternalKeyEncodingLength, size. rewrite InternalKey_length. simpl. lia.
  - destruct (Nat.lt_ge_cases (length k) 8) as [H|H].
    + unfold ParseInternalKey. destruct (Z.ltb_spec (size k) 8); [|unfold size in *; lia].
      split; [by left|done].
    + rewrite parse_unfold by done. cbv zeta. pose proof (Z.mod_pos_bound (DecodeFixed64 (last8 k)) 256).
      unfold size. destruct (Z.eqb_spec (DecodeFixed64 (last8 k) mod 256) 0);
        [split; [done|lia]|].
      destruct (Z.eqb_spec (DecodeFixed64 (last8 k) mod 256) 1); [split; [done|lia]|].
      split; [lia|done].
  - intros p Hp. by apply parse_inv.
Qed.

Lemma ParseInternalKey_roundtrip_witness :
  ParseInternalKey (InternalKey (chars "k") 7 kTypeValue) =
    Some {| user_key := chars "k"; sequence := 7; type := kTypeValue |} /\
  ParseInternalKey (chars "short") = None.
Proof.
  assert (Hs : seq_ok 7) by (by vm_compute).
  destruct (ParseInternalKey_roundtrip (chars "k") 7 kTypeValue (chars "short") Hs
    ltac:(solve_bytes)) as (H1 & _ & H2 & _).
  split; [exact H1|]. apply H2. left. by vm_compute.
Defined.

(** * The order *)

(** What [InternalKeyComparator] asks of its keys. *)
Definition internal_ok (ok : Slice -> Prop) (k : Slice) : Prop :=
  (8 <= length k)%nat /\ ok (ExtractUserKey k).

Lemma internal_ok_key ok u s t : ok u -> internal_ok ok (InternalKey u s t).
Proof. intros Hu. split; [rewrite InternalKey_length; lia|by rewrite InternalKey_user]. Qed.

Section Order.
Context {ucmp : Comparator} {ok : Slice -> Prop} `{L : ComparatorLaws ucmp ok}.

Let C := InternalKeyComparator ucmp.

Lemma internal_compare a b :
  Compare C a b =
  if Compare ucmp (ExtractUserKey a) (ExtractUserKey b) =? 0
  then - Z.sgn (DecodeFixed64 (last8 a) - DecodeFixed64 (last8 b))
  else Compare ucmp (ExtractUserKey a) (ExtractUserKey b).
Proof.
  simpl. unfold InternalKey_Compare. destruct (Z.eqb_spec (Compare ucmp (ExtractUserKey a) (ExtractUserKey b)) 0) as [E|]; [|done].
  rewrite E. set (m := DecodeFixed64 _). set (n := DecodeFixed64 _).
  destruct (Z.gtb_spec m n), (Z.ltb_spec m n); lia.
Qed.

(** A shortened user key with the largest number comes after the key it was
    shortened from, and before what its user key is before. *)
Lemma internal_shortened tmp :
  ExtractUserKey (PutFixed64 tmp (PackSequenceAndType kMaxSequenceNumber kValueTypeForSeek)) = tmp.
Proof. apply extract_app. Qed.


Lemma internal_refl a : internal_ok ok a -> Compare C a a = 0.
Proof. intros [_ Ua]. rewrite internal_compare, cmp_refl by done. rewrite Z.sub_diag. done. Qed.

(** The user keys decide, when they differ. *)
Lemma internal_user_lt a b :
  Compare ucmp (ExtractUserKey a) (ExtractUserKey b) < 0 -> Compare C a b < 0.
Proof.
  intros H. rewrite internal_compare. by destruct (Z.eqb_spec (Compare ucmp (ExtractUserKey a) (ExtractUserKey b)) 0); [lia|].
Qed.

Lemma internal_le_user a b : Compare C a b <= 0 -> Compare ucmp (ExtractUserKey a) (ExtractUserKey b) <= 0.
Proof.
  rewrite internal_compare. destruct (Z.eqb_spec (Compare ucmp (ExtractUserKey a) (ExtractUserKey b)) 0); lia.
Qed.

Lemma internal_separator s l :
  internal_ok ok s -> internal_ok ok l -> Compare C s l < 0 ->
  internal_ok ok (FindShortestSeparator C s l) /\
  Compare C s (FindShortestSeparator C s l) <= 0 /\ Compare C (FindShortestSeparator C s l) l < 0.
Proof.
  intros Hs Hl Hlt. pose proof (internal_refl s Hs) as Hr. destruct Hs as [Hs Us], Hl as [Hl Ul].
  cbn [FindShortestSeparator C InternalKeyComparator]. unfold InternalKey_FindShortestSeparator.
  set (tmp := FindShortestSeparator ucmp _ _).
  destruct (Z.ltb_spec (size tmp) (size (ExtractUserKey s))) as [H1|]; cbn [andb];
    [|split; [done|split; [lia|done]]].
  destruct (Z.ltb_spec (Compare ucmp (ExtractUserKey s) tmp) 0) as [H2|];
    [|split; [done|split; [lia|done]]].
  destruct (Z.lt_ge_cases (Compare ucmp (ExtractUserKey s) (ExtractUserKey l)) 0) as [H3|H3].
  - destruct (cmp_separator _ _ Us Ul H3) as (Ht & _ & Htl). fold tmp in Ht, Htl.
    split; [split; [unfold PutFixed64; rewrite length_app, length_EncodeFixed64; lia|by rewrite internal_shortened]|].
    split; [|apply internal_user_lt; by rewrite internal_shortened].
    apply Z.lt_le_incl, internal_user_lt. by rewrite internal_shortened.
  - exfalso. assert (tmp = ExtractUserKey s) as E by (by apply cmp_separator_id). rewrite E in H1. lia.
Qed.

Lemma internal_separator_id s l :
  internal_ok ok s -> internal_ok ok l -> 0 <= Compare C s l -> FindShortestSeparator C s l = s.
Proof.
  intros [_ Us] [_ Ul] Hge. cbn [FindShortestSeparator C InternalKeyComparator].
  unfold InternalKey_FindShortestSeparator.
  rewrite (cmp_separator_id (ExtractUserKey s)); [by rewrite Z.ltb_irrefl|done|done|].
  rewrite internal_compare in Hge.
  destruct (Z.eqb_spec (Compare ucmp (ExtractUserKey s) (ExtractUserKey l)) 0); lia.
Qed.

Lemma internal_successor k :
  internal_ok ok k ->
  internal_ok ok (FindShortSuccessor C k) /\ Compare C k (FindShortSuccessor C k) <= 0.
Proof.
  intros Hk. pose proof (internal_refl k Hk) as Hr. destruct Hk as [Hk Uk].
  cbn [FindShortSuccessor C InternalKeyComparator]. unfold InternalKey_FindShortSuccessor.
  set (tmp := FindShortSuccessor ucmp _). destruct (cmp_successor _ Uk) as [Ht _]. fold tmp in Ht.
  destruct (Z.ltb_spec (size tmp) (size (ExtractUserKey k))); cbn [andb]; [|split; [done|lia]].
  destruct (Z.ltb_spec (Compare ucmp (ExtractUserKey k) tmp) 0); [|split; [done|lia]].
  split; [split; [unfold PutFixed64; rewrite length_app, length_EncodeFixed64; lia|by rewrite internal_shortened]|].
  apply Z.lt_le_incl, internal_user_lt. by rewrite internal_shortened.
Qed.

#[export] Instance internal_order : OrderLaws (Compare C) (internal_ok ok).
Proof.
  constructor.
  - intros a b [Ha Ua] [Hb Ub]. rewrite !internal_compare. pose proof (cmp_flip _ _ Ua Ub).
    destruct (Z.eqb_spec (Compare ucmp (ExtractUserKey a) (ExtractUserKey b)) 0),
      (Z.eqb_spec (Compare ucmp (ExtractUserKey b) (ExtractUserKey a)) 0); lia.
  - intros x y z [Hx Ux] [Hy Uy] [Hz Uz]. rewrite !internal_compare.
    pose proof (cmp_le_trans _ _ _ Ux Uy Uz) as H1.
    pose proof (cmp_lt_le_trans _ _ _ Ux Uy Uz) as H2.
    pose proof (cmp_le_lt_trans _ _ _ Ux Uy Uz) as H3.
    destruct (Z.eqb_spec (Compare ucmp (ExtractUserKey x) (ExtractUserKey y)) 0),
      (Z.eqb_spec (Compare ucmp (ExtractUserKey y) (ExtractUserKey z)) 0),
      (Z.eqb_spec (Compare ucmp (ExtractUserKey x) (ExtractUserKey z)) 0); lia.
Qed.

#[export] Instance internal_laws : ComparatorLaws C (internal_ok ok).
Proof.
  constructor; [apply _|..].
  - apply internal_separator.
  - apply internal_separator_id.
  - apply internal_successor.
Qed.

(** The order on encoded keys. *)
Lemma internal_key_compare u1 s1 t1 u2 s2 t2 :
  seq_ok s1 -> seq_ok s2 ->
  Compare C (InternalKey u1 s1 t1) (InternalKey u2 s2 t2) =
  if Compare ucmp u1 u2 =? 0
  then Z.sgn (s2 * 256 + ValueType_val t2 - (s1 * 256 + ValueType_val t1))
  else Compare ucmp u1 u2.
Proof.
  intros H1 H2. rewrite internal_compare, !InternalKey_user, !InternalKey_num by done.
  destruct (_ =? 0); [|done]. rewrite <- Z.sgn_opp. f_equal. lia.
Qed.

(** A key [k'] that replaces the one of user key [u]: a shorter user key at the
    largest number, after all entries of [u], and no entry of the shorter user key
    is before it. *)
Definition shortened (u k' : Slice) : Prop := exists tmp,
  k' = InternalKey tmp kMaxSequenceNumber kValueTypeForSeek /\ size tmp < size u /\
  (forall s t, Compare C (InternalKey u s t) k' < 0) /\
  forall v s t, Compare ucmp tmp v = 0 -> seq_ok s -> Compare C k' (InternalKey v s t) <= 0.

Lemma shortened_key u tmp : size tmp < size u -> Compare ucmp u tmp < 0 ->
  shortened u (PutFixed64 tmp (PackSequenceAndType kMaxSequenceNumber kValueTypeForSeek)).
Proof.
  intros Hsz Hlt. exists tmp. split; [done|]. split; [done|]. change (PutFixed64 tmp _) with (InternalKey tmp kMaxSequenceNumber kValueTypeForSeek). split.
  - intros s t. apply internal_user_lt. by rewrite !InternalKey_user.
  - intros v s t Hv Hs. assert (Hm : seq_ok kMaxSequenceNumber) by (unfold seq_ok; by vm_compute). rewrite internal_key_compare, Hv by done. cbn [Z.eqb].
    unfold seq_ok in *. pose proof (type_range t). unfold kValueTypeForSeek. cbn [ValueType_val]. lia.
Qed.

(** Where the code asserts an order: the separator is the key itself, or shortened. *)
Lemma separator_shortened u s t l : let a := InternalKey u s t in FindShortestSeparator C a l = a \/ shortened u (FindShortestSeparator C a l).
Proof.
  intros a. cbn [FindShortestSeparator C InternalKeyComparator]. unfold InternalKey_FindShortestSeparator, a. rewrite InternalKey_user. set (tmp := FindShortestSeparator ucmp _ _).
  destruct (Z.ltb_spec (size tmp) (size u)); cbn [andb]; [|by left]. destruct (Z.ltb_spec (Compare ucmp u tmp) 0); [right; by apply shortened_key|by left].
Qed.

Lemma successor_shortened u s t : let a := InternalKey u s t in FindShortSuccessor C a = a \/ shortened u (FindShortSuccessor C a).
Proof.
  intros a. cbn [FindShortSuccessor C InternalKeyComparator]. unfold InternalKey_FindShortSuccessor, a. rewrite InternalKey_user. set (tmp := FindShortSuccessor ucmp _).
  destruct (Z.ltb_spec (size tmp) (size u)); cbn [andb]; [|by left]. destruct (Z.ltb_spec (Compare ucmp u tmp) 0); [right; by apply shortened_key|by left].
Qed.

(** C28: internal keys are ordered by user key, then by decreasing sequence
    number, then by decreasing type. With this order [InternalKeyComparator] is
    a comparator for the keys of at least eight bytes whatever user comparator
    it is built on: a total preorder, with separators in [start, limit) and
    successors no smaller. The assertions of [dbformat.cc] hold: a separator or
    successor that is not the key itself is strictly greater than it, and the
    separator strictly less than the limit; it is a shorter user key at the largest
    sequence number, comes after every entry of the user key it was shortened from,
    and before or at every entry of the shorter user key. *)
Theorem InternalKeyComparator_order u1 s1 t1 u2 s2 t2 :
  ok u1 -> ok u2 -> seq_ok s1 -> seq_ok s2 ->
  let a := InternalKey u1 s1 t1 in
  let b := InternalKey u2 s2 t2 in
  let separator := FindShortestSeparator C a b in
  let successor := FindShortSuccessor C a in
  ComparatorLaws C (internal_ok ok) /\
  (Compare C a b < 0 <->
     Compare ucmp u1 u2 < 0 \/
     Compare ucmp u1 u2 = 0 /\ (s2 < s1 \/ s1 = s2 /\ ValueType_val t2 < ValueType_val t1)) /\
  (Compare C a b < 0 ->
     Compare C a separator <= 0 /\ Compare C separator b < 0 /\
     (separator = a \/ Compare C a separator < 0 /\ shortened u1 separator)) /\
  Compare C a successor <= 0 /\
  (successor = a \/ Compare C a successor < 0 /\ shortened u1 successor).
Proof.
  intros U1 U2 S1 S2 a b separator successor.
  pose proof (internal_ok_key ok u1 s1 t1 U1) as Ha. pose proof (internal_ok_key ok u2 s2 t2 U2) as Hb.
  assert (Hshort : forall k', k' = a \/ shortened u1 k' -> k' = a \/ Compare C a k' < 0 /\ shortened u1 k').
  { intros k' [?|Hk]; [by left|right]. split; [|done]. destruct Hk as (tmp & _ & _ & Hall & _). apply Hall. }
  split; [apply _|]. split; [|split; [|split; [by destruct (internal_successor a Ha)|apply Hshort, successor_shortened]]].
  - unfold a, b. rewrite internal_key_compare by done. pose proof (type_range t1). pose proof (type_range t2).
    destruct (Z.eqb_spec (Compare ucmp u1 u2) 0); [|lia]. unfold seq_ok in *. lia.
  - intros H. destruct (internal_separator a b Ha Hb H) as (_ & H1 & H2). split; [done|]. split; [done|]. apply Hshort, separator_shortened.
Qed.
End Order.

Lemma InternalKeyComparator_order_witness :
  let C := InternalKeyComparator BytewiseComparator in
  let a := InternalKey (chars "abcd") 9 kTypeValue in
  let b := InternalKey (chars "ax") 8 kTypeDeletion in
  Compare C a b < 0 /\ shortened (ucmp := BytewiseComparator) (chars "abcd") (FindShortestSeparator C a b).
Proof.
  destruct (InternalKeyComparator_order (ok := is_bytes) (ucmp := BytewiseComparator)
    (chars "abcd") 9 kTypeValue (chars "ax") 8 kTypeDeletion) as (_ & H & Hsep & _);
    [solve_bytes|solve_bytes|by vm_compute|by vm_compute|].
  assert (HA : Compare (InternalKeyComparator BytewiseComparator) (InternalKey (chars "abcd") 9 kTypeValue) (InternalKey (chars "ax") 8 kTypeDeletion) < 0) by (apply H; left; vm_compute; reflexivity).
  split; [exact HA|]. destruct (Hsep HA) as (_ & _ & [E|[_ ?]]); [|done]. apply (f_equal length) in E. by vm_compute in E.
Defined.

(** * The filter policy *)

#[export] Instance internal_filter_laws p ok :
  FilterPolicyLaws p ok -> FilterPolicyLaws (InternalFilterPolicy p) (fun k => ok (ExtractUserKey k)).
Proof.
  intros Hp. constructor; simpl.
  - intros keys dst. apply filter_append.
  - intros keys key Hn Hok Hin. apply filter_match; [by rewrite length_map|by apply Forall_map|].
    by apply list_elem_of_fmap_2.
Qed.

(** * Lookup keys *)

Lemma LookupKey_parts u s :
  size u + 8 < 2 ^ 32 ->
  LookupKey_memtable_key (LookupKey_new u s) =
    EncodeVarint32 (size u + 8) ++ InternalKey u s kTypeValue /\
  LookupKey_internal_key (LookupKey_new u s) = InternalKey u s kTypeValue /\
  LookupKey_user_key (LookupKey_new u s) = u.
Proof.
  intros Hu. pose proof (size_nonneg u). unfold LookupKey_memtable_key, LookupKey_internal_key,
    LookupKey_user_key, LookupKey_new. cbn [lk_start lk_kstart]. rewrite wrap_small by lia.
  rewrite drop_app_length. split; [done|]. split; [done|].
  rewrite !length_app, length_EncodeFixed64.
  replace (_ - _ - 8)%nat with (length u) by lia. apply take_app_length.
Qed.

(** a [LookupKey] gives the memtable key (the length of the internal key and
    the internal key), the internal key at the wanted sequence number and the
    user key, in a buffer of the size the constructor reserves; and in the order
    of internal keys it comes before every entry of its user key with a sequence
    number up to its own and after those with a larger one. *)
Theorem LookupKey_spec ucmp ok `{ComparatorLaws ucmp ok} u s s' t :
  ok u -> size u + 8 < 2 ^ 32 -> seq_ok s -> seq_ok s' ->
  let k := LookupKey_new u s in
  LookupKey_memtable_key k = PutLengthPrefixedSlice [] (LookupKey_internal_key k) /\
  LookupKey_internal_key k = InternalKey u s kTypeValue /\
  LookupKey_user_key k = u /\
  size (LookupKey_memtable_key k) <= LookupKey_needed u /\
  (Compare (InternalKeyComparator ucmp) (LookupKey_internal_key k) (InternalKey u s' t) <= 0
     <-> s' <= s).
Proof.
  intros Hok Hu Hs Hs' k. destruct (LookupKey_parts u s Hu) as (E1 & E2 & E3).
  unfold k. rewrite E1, E2, E3. pose proof (size_nonneg u).
  assert (L : size (InternalKey u s kTypeValue) = size u + 8)
    by (unfold size; rewrite InternalKey_length; lia).
  split; [|split; [done|split; [done|split]]].
  - unfold PutLengthPrefixedSlice, PutVarint32. by rewrite L, wrap_small by lia.
  - rewrite size_app, L. unfold LookupKey_needed.
    pose proof (EncodeVarint32_length (size u + 8) ltac:(lia)). unfold size in *. lia.
  - rewrite internal_key_compare by done. rewrite (cmp_refl u) by done. rewrite Z.eqb_refl.
    pose proof (type_range t). cbn [ValueType_val]. unfold seq_ok in *. lia.
Qed.

Lemma LookupKey_spec_witness :
  LookupKey_user_key (LookupKey_new (chars "key") 5) = chars "key" /\
  Compare (InternalKeyComparator BytewiseComparator)
    (LookupKey_internal_key (LookupKey_new (chars "key") 5)) (InternalKey (chars "key") 4 kTypeDeletion) <= 0.
Proof.
  destruct (LookupKey_spec BytewiseComparator is_bytes (chars "key") 5 4 kTypeDeletion)
    as (_ & _ & H1 & _ & H2); [solve_bytes|by vm_compute..|].
  split; [exact H1|]. apply H2. lia.
Defined.
