(* ===== verification/LvSkipList.v ===== *)
(** The skip list of the memtable ([db/skiplist.h]) and the random numbers it
    draws heights from ([util/random.h]).

    Nodes are allocated in an arena and never freed: the arena is a list of
    nodes and a node's address its index. The links of a node are
    uninitialised until they are set, and reading an uninitialised link, a link
    above the height of a node, or through a null pointer is undefined. *)

From stdpp Require Import base list gmap strings.
From Stdlib Require Import ZArith Lia.
From S2P Require Import Prelude LvSlice.

(** * Random numbers *)

(** [Random::Random]. *)
Definition Random_new (s : Z) : Z :=
  let seed_ := Z.land s 0x7fffffff in
  if (seed_ =? 0) || (seed_ =? 2147483647) then 1 else seed_.

(** [Random::Next]: the result is the new seed. *)
Definition Random_Next (seed_ : Z) : Z :=
  let M := 2147483647 in
  let A := 16807 in
  let product := u64 (seed_ * A) in
  let seed_ := u32 (Z.shiftr product 31 + Z.land product M) in
  if seed_ >? M then u32 (seed_ - M) else seed_.

Definition Random_Uniform (seed_ n : Z) : Z * Z :=
  let seed_ := Random_Next seed_ in (seed_ mod n, seed_).

Definition Random_OneIn (seed_ n : Z) : bool * Z :=
  let seed_ := Random_Next seed_ in (seed_ mod n =? 0, seed_).

Definition Random_Skewed (seed_ max_log : Z) : Z * Z :=
  let '(u, seed_) := Random_Uniform seed_ (max_log + 1) in
  Random_Uniform seed_ (Z.shiftl 1 u).

(** * The list *)

Definition kMaxHeight : nat := 12.

(** A [Node*] stored in [next_]. *)
Inductive link : Type := Uninit | Null | To (x : nat).

Definition to_link (x : option nat) : link :=
  match x with None => Null | Some x => To x end.

Section SkipList.
Context {Key : Type}.
Variable compare_ : Key -> Key -> Z.

Record Node : Type := { node_key : Key; next_ : list link }.

Record SkipList : Type := { nodes : list Node; max_height_ : nat; rnd_ : Z }.

Definition head_ : nat := 0.

Definition link_at (s : SkipList) (x n : nat) : option link :=
  nd ← nodes s !! x; next_ nd !! n.

(** [x->Next(n)] and [x->NoBarrier_Next(n)]. *)
Definition Node_Next (x n : nat) : M SkipList (option nat) :=
  fun s =>
    match link_at s x n with
    | Some (To y) => Ret (Some y, s)
    | Some Null => Ret (None, s)
    | _ => Undef
    end.

(** [x->SetNext(n, y)] and [x->NoBarrier_SetNext(n, y)]. *)
Definition Node_SetNext (x n : nat) (y : option nat) : M SkipList unit :=
  fun s =>
    match nodes s !! x with
    | Some nd =>
        if (n <? length (next_ nd))%nat then
          Ret (tt, {| nodes := <[x := {| node_key := node_key nd;
                                        next_ := <[n := to_link y]> (next_ nd) |}]> (nodes s);
                      max_height_ := max_height_ s; rnd_ := rnd_ s |})
        else Undef
    | None => Undef
    end.

Definition node_key_of (x : nat) : M SkipList Key :=
  fun s => match nodes s !! x with Some nd => Ret (node_key nd, s) | None => Undef end.

(** [NewNode]: the index of a fresh node whose links are uninitialised. *)
Definition NewNode (key : Key) (height : nat) : M SkipList nat :=
  fun s =>
    Ret (length (nodes s),
         {| nodes := nodes s ++ [{| node_key := key; next_ := replicate height Uninit |}];
            max_height_ := max_height_ s; rnd_ := rnd_ s |}).

(** [while (height < kMaxHeight && (rnd_.Next() % kBranching) == 0)]. *)
Fixpoint RandomHeight_loop (fuel height : nat) (rnd : Z) : nat * Z :=
  match fuel with
  | O => (height, rnd)
  | S fuel' =>
      if (height <? kMaxHeight)%nat then
        let rnd := Random_Next rnd in
        if rnd mod 4 =? 0 then RandomHeight_loop fuel' (S height) rnd else (height, rnd)
      else (height, rnd)
  end.

Definition RandomHeight : M SkipList nat :=
  fun s =>
    let '(height, rnd) := RandomHeight_loop kMaxHeight 1 (rnd_ s) in
    Ret (height, {| nodes := nodes s; max_height_ := max_height_ s; rnd_ := rnd |}).

Definition GetMaxHeight : M SkipList nat := fun s => Ret (max_height_ s, s).

Definition KeyIsAfterNode (key : Key) (n : option nat) : M SkipList bool :=
  match n with
  | None => ret false
  | Some n => let* k := node_key_of n in ret (compare_ k key <? 0)
  end.

(** The searches move through pairs of a node and a level. *)
Inductive search : Type :=
| Continue (x level : nat)
| Done (r : option nat).

(** One round of the loop of [FindGreaterOrEqual], with what it stores in
    [prev] when that is not null. *)
Definition FindGreaterOrEqual_round (key : Key) (x level : nat)
    (prev : option (list (option nat))) : M SkipList (search * option (list (option nat))) :=
  let* next := Node_Next x level in
  let* after := KeyIsAfterNode key next in
  if after then
    let* x := need next in ret (Continue x level, prev)
  else
    let prev := option_map (fun prev => <[level := Some x]> prev) prev in
    match level with
    | O => ret (Done next, prev)
    | S level => ret (Continue x level, prev)
    end.

Fixpoint FindGreaterOrEqual_loop (fuel : nat) (key : Key) (x level : nat)
    (prev : option (list (option nat))) : M SkipList (option nat * option (list (option nat))) :=
  match fuel with
  | O => nofuel
  | S fuel' =>
      let* '(r, prev) := FindGreaterOrEqual_round key x level prev in
      match r with
      | Continue x level => FindGreaterOrEqual_loop fuel' key x level prev
      | Done r => ret (r, prev)
      end
  end.

(** More rounds than any search takes: each goes on in the list or down. *)
Definition search_fuel (s : SkipList) : nat := length (nodes s) + kMaxHeight.

Definition FindGreaterOrEqual (key : Key) (prev : option (list (option nat))) :
    M SkipList (option nat * option (list (option nat))) :=
  let* s := get in
  let* height := GetMaxHeight in
  FindGreaterOrEqual_loop (search_fuel s) key head_ (height - 1) prev.

(** [next == nullptr || compare_(next->key, key) >= 0]. *)
Definition at_or_after (key : Key) (next : option nat) : M SkipList bool :=
  match next with
  | None => ret true
  | Some n => let* k := node_key_of n in ret (compare_ k key >=? 0)
  end.

Fixpoint FindLessThan_loop (fuel : nat) (key : Key) (x level : nat) : M SkipList nat :=
  match fuel with
  | O => nofuel
  | S fuel' =>
      let* next := Node_Next x level in
      let* stop := at_or_after key next in
      if stop then
        match level with
        | O => ret x
        | S level => FindLessThan_loop fuel' key x level
        end
      else let* x := need next in FindLessThan_loop fuel' key x level
  end.

Definition FindLessThan (key : Key) : M SkipList nat :=
  let* s := get in
  let* height := GetMaxHeight in
  FindLessThan_loop (search_fuel s) key head_ (height - 1).

Fixpoint FindLast_loop (fuel : nat) (x level : nat) : M SkipList nat :=
  match fuel with
  | O => nofuel
  | S fuel' =>
      let* next := Node_Next x level in
      match next with
      | None => match level with
                | O => ret x
                | S level => FindLast_loop fuel' x level
                end
      | Some x => FindLast_loop fuel' x level
      end
  end.

Definition FindLast : M SkipList nat :=
  let* s := get in
  let* height := GetMaxHeight in
  FindLast_loop (search_fuel s) head_ (height - 1).

(** * Operations *)

(** The constructor, with the key of the head. *)
Definition SkipList_new (any_key : Key) : SkipList :=
  {| nodes := [{| node_key := any_key; next_ := replicate kMaxHeight Null |}];
     max_height_ := 1;
     rnd_ := Random_new 0xdeadbeef |}.

(** [for (i = from; i < to; i++) prev[i] = head_], with [to - from] rounds. *)
Fixpoint fill_head (n i : nat) (prev : list (option nat)) : list (option nat) :=
  match n with
  | O => prev
  | S n' => fill_head n' (S i) (<[i := Some head_]> prev)
  end.

(** The body of the loop that links the node [x] at level [i]: its own link, and
    the one that publishes it. *)
Definition Insert_link_own (x : nat) (prev : list (option nat)) (i : nat) : M SkipList unit :=
  let* p := need (mjoin (prev !! i)) in
  let* next := Node_Next p i in
  Node_SetNext x i next.

Definition Insert_link_publish (x : nat) (prev : list (option nat)) (i : nat) : M SkipList unit :=
  let* p := need (mjoin (prev !! i)) in
  Node_SetNext p i (Some x).

Definition Insert_link (x : nat) (prev : list (option nat)) (i : nat) : M SkipList unit :=
  Insert_link_own x prev i ;;; Insert_link_publish x prev i.

Fixpoint Insert_links (n : nat) (x : nat) (prev : list (option nat)) (i : nat) : M SkipList unit :=
  match n with
  | O => ret tt
  | S n' => Insert_link x prev i ;;; Insert_links n' x prev (S i)
  end.

Definition set_max_height (height : nat) : M SkipList unit :=
  fun s => Ret (tt, {| nodes := nodes s; max_height_ := height; rnd_ := rnd_ s |}).

(** [Insert] up to the allocation of the node: the nodes to link it after and its
    height. *)
Definition Insert_prepare (key : Key) : M SkipList (list (option nat) * nat) :=
  let* '(_, prev) := FindGreaterOrEqual key (Some (replicate kMaxHeight None)) in
  let* prev := need prev in
  let* height := RandomHeight in
  let* max := GetMaxHeight in
  if (max <? height)%nat then
    set_max_height height ;;; ret (fill_head (height - max) max prev, height)
  else ret (prev, height).

Definition Insert (key : Key) : M SkipList unit :=
  let* '(prev, height) := Insert_prepare key in
  let* x := NewNode key height in
  Insert_links height x prev 0.

Definition Contains (key : Key) : M SkipList bool :=
  let* '(x, _) := FindGreaterOrEqual key None in
  match x with
  | Some x => let* k := node_key_of x in ret (compare_ key k =? 0)
  | None => ret false
  end.

(** * Iterators: the node they are at *)

Definition Iterator_Valid (it : option nat) : bool :=
  match it with Some _ => true | None => false end.

Definition Iterator_key (it : option nat) : M SkipList Key :=
  let* x := need it in node_key_of x.

Definition Iterator_Next (it : option nat) : M SkipList (option nat) :=
  let* x := need it in Node_Next x 0.

Definition Iterator_Prev (it : option nat) : M SkipList (option nat) :=
  let* x := need it in
  let* k := node_key_of x in
  let* x := FindLessThan k in
  ret (if (x =? head_)%nat then None else Some x).

Definition Iterator_Seek (target : Key) : M SkipList (option nat) :=
  let* '(x, _) := FindGreaterOrEqual target None in ret x.

Definition Iterator_SeekToFirst : M SkipList (option nat) := Node_Next head_ 0.

Definition Iterator_SeekToLast : M SkipList (option nat) :=
  let* x := FindLast in
  ret (if (x =? head_)%nat then None else Some x).
End SkipList.
Arguments Node : clear implicits.
Arguments SkipList : clear implicits.
