(* ===== verification/LvSkipListInv.v ===== *)
(** The invariant of the skip list, and the searches on it.

    A state is described by ghost data: the list [l] of the nodes in key order
    (without the head), the number [h x] of levels at which the node [x] is
    linked, and its key [k x]. Nodes with [h x = 0] are allocated and not yet
    linked, so that the invariant also describes the states in the middle of an
    insertion. *)

From stdpp Require Import base list gmap strings sorting.
From Stdlib Require Import ZArith Lia.
From S2P Require Import Prelude LvSlice LvSkipList.

(** The first node of [q] linked at level [i], and what the link says. *)
Definition first_at (h : nat -> nat) (i : nat) (q : list nat) : option nat :=
  List.find (fun y => i <? h y)%nat q.

Lemma first_at_skip h i p q : Forall (fun y => h y <= i)%nat p -> first_at h i (p ++ q) = first_at h i q.
Proof.
  induction 1 as [|y p Hy Hp IH]; [done|]. cbn [app first_at List.find].
  destruct (Nat.ltb_spec i (h y)); [lia|done].
Qed.

Lemma first_at_app h i p q :
  first_at h i (p ++ q) = match first_at h i p with Some y => Some y | None => first_at h i q end.
Proof.
  induction p as [|y p IH]; [done|]. cbn [app first_at List.find]. by destruct (i <? h y)%nat.
Qed.

Lemma first_at_here h i x q : (i < h x)%nat -> first_at h i (x :: q) = Some x.
Proof. intros H. cbn [first_at List.find]. by destruct (Nat.ltb_spec i (h x)); [|lia]. Qed.

Lemma first_at_None h i q : first_at h i q = None <-> Forall (fun y => h y <= i)%nat q.
Proof.
  induction q as [|y q IH]; [done|]. cbn [first_at List.find]. rewrite Forall_cons.
  destruct (Nat.ltb_spec i (h y)); [split; [done|lia]|]. rewrite <- IH. split; [intros ?; split; [lia|done]|by intros [_ ?]].
Qed.

Lemma first_at_Some h i q y :
  first_at h i q = Some y ->
  exists a b, q = a ++ y :: b /\ (i < h y)%nat /\ Forall (fun y => h y <= i)%nat a.
Proof.
  induction q as [|z q IH]; [done|]. cbn [first_at List.find].
  destruct (Nat.ltb_spec i (h z)).
  - intros [= ->]. by exists [], q.
  - intros E. destruct (IH E) as (a & b & -> & ? & ?). exists (z :: a), b. split; [done|].
    split; [done|]. constructor; [lia|done].
Qed.

Lemma first_at_ext h h' i q :
  (forall y, y ∈ q -> (i < h y <-> i < h' y)%nat) -> first_at h i q = first_at h' i q.
Proof.
  induction q as [|y q IH]; intros H; [done|]. cbn [first_at List.find].
  pose proof (H y ltac:(set_solver)).
  destruct (Nat.ltb_spec i (h y)), (Nat.ltb_spec i (h' y)); try lia; [done|]. apply IH. set_solver.
Qed.

(** The last node among the head and [A] that is linked at level [i]. *)
Definition last_at (h : nat -> nat) (i : nat) (A : list nat) (z : nat) : Prop :=
  exists p q, head_ :: A = p ++ z :: q /\ (i < h z)%nat /\ Forall (fun y => h y <= i)%nat q.

Section Inv.
Context {Key : Type} {compare_ : Key -> Key -> Z} {ok : Key -> Prop} `{L : !OrderLaws compare_ ok}.
Implicit Types (s : SkipList Key) (l A B p q : list nat) (h : nat -> nat) (k : nat -> Key).

Definition key_lt k (x y : nat) : Prop := compare_ (k x) (k y) < 0.

Record Inv l h k s : Prop := {
  inv_head : exists nd, nodes s !! head_ = Some nd /\ length (next_ nd) = kMaxHeight;
  inv_nodup : NoDup (head_ :: l);
  inv_node x : x ∈ l -> exists nd, nodes s !! x = Some nd /\ node_key nd = k x /\ (h x <= length (next_ nd))%nat;
  inv_ok x : x ∈ l -> ok (k x);
  inv_sorted : StronglySorted (key_lt k) l;
  inv_h0 : h head_ = kMaxHeight;
  inv_hle x : x ∈ l -> (h x <= max_height_ s)%nat;
  inv_max : (1 <= max_height_ s <= kMaxHeight)%nat;
  inv_links p x q i :
    head_ :: l = p ++ x :: q -> (i < h x)%nat -> link_at s x i = Some (to_link (first_at h i q))
}.

(** The nodes before and after a target. *)
Definition before k (target : Key) (x : nat) : Prop := compare_ (k x) target < 0.

Record Split l (P : nat -> Prop) A B : Prop := {
  split_app : l = A ++ B;
  split_before : Forall P A;
  split_after : Forall (fun x => ~ P x) B
}.


Lemma split_exists l k target :
  StronglySorted (key_lt k) l -> (forall x, x ∈ l -> ok (k x)) -> ok target ->
  exists A B, Split l (before k target) A B.
Proof.
  intros Hs Ho Ht. induction l as [|x l IH]; [exists [], []; by constructor|].
  inversion Hs as [|? ? Hs' Hx]; subst.
  destruct IH as (A & B & HS); [done|intros; apply Ho; set_solver|]. destruct HS as [-> HA HB].
  assert (Hox : ok (k x)) by (apply Ho; set_solver).
  destruct (Z.lt_ge_cases (compare_ (k x) target) 0) as [Hlt|Hge].
  - exists (x :: A), B. constructor; [done|by constructor|done].
  - exists [], (x :: A ++ B). constructor; [done|by constructor|]. constructor; [unfold before; lia|].
    apply Forall_forall. intros y Hy. rewrite Forall_forall in Hx. specialize (Hx y Hy).
    assert (Hoy : ok (k y)) by (apply Ho; set_solver).
    assert (Hle : compare_ target (k x) <= 0) by (pose proof (cmp_flip (k x) target Hox Ht); lia).
    pose proof (cmp_le_lt_trans target (k x) (k y) Ht Hox Hoy Hle Hx).
    pose proof (cmp_flip target (k y) Ht Hoy). unfold before. lia.
Qed.

(** * Reading the store *)

Lemma link_In l h k s p x q i :
  Inv l h k s -> head_ :: l = p ++ x :: q -> (i < h x)%nat ->
  Node_Next x i s = Ret (first_at h i q, s).
Proof.
  intros HI E Hi. unfold Node_Next. rewrite (inv_links _ _ _ _ HI _ _ _ _ E Hi).
  by destruct (first_at h i q).
Qed.

Lemma node_key_In l h k s x : Inv l h k s -> x ∈ l -> node_key_of x s = Ret (k x, s).
Proof.
  intros HI Hx. destruct (inv_node _ _ _ _ HI x Hx) as (nd & E & Ek & _).
  unfold node_key_of. by rewrite E, Ek.
Qed.

Lemma first_at_In h i q y : first_at h i q = Some y -> y ∈ q.
Proof. intros E. destruct (first_at_Some _ _ _ _ E) as (a & b & -> & _). set_solver. Qed.

(** The state of a search: at [x], before the target, nothing between [x] and
    the target is linked above [level]. *)
Record searching l h (P : nat -> Prop) (A B : list nat) (p : list nat) (x : nat) (q : list nat) (level : nat) : Prop := {
  sg_split : Split l P A B;
  sg_at : head_ :: A = p ++ x :: q;
  sg_level : (level < h x)%nat;
  sg_above : Forall (fun y => h y <= S level)%nat q
}.

Lemma searching_full l h P A B p x q level :
  searching l h P A B p x q level -> head_ :: l = p ++ x :: (q ++ B).
Proof. intros [[-> _ _] E _ _]. rewrite app_comm_cons, E, <- app_assoc. done. Qed.

Lemma searching_start l h k s P A B :
  Inv l h k s -> Split l P A B ->
  searching l h P A B [] head_ A (max_height_ s - 1).
Proof.
  intros HI HS. pose proof (inv_max _ _ _ _ HI). constructor; [done|done| |].
  - rewrite (inv_h0 _ _ _ _ HI). lia.
  - apply Forall_forall. intros y Hy. destruct HS as [-> _ _].
    pose proof (inv_hle _ _ _ _ HI y ltac:(set_solver)). lia.
Qed.

(** A link from the state of a search leads to a node before the target, from
    which the search goes on, or past it. *)
Lemma searching_next l h k s P A B p x q level :
  Inv l h k s -> searching l h P A B p x q level ->
  (exists y q1 q2, q = q1 ++ y :: q2 /\ Node_Next x level s = Ret (Some y, s) /\
     P y /\ y ∈ l /\ searching l h P A B (p ++ x :: q1) y q2 level) \/
  (Node_Next x level s = Ret (first_at h level B, s) /\
   Forall (fun y => h y <= level)%nat q).
Proof.
  intros HI HS. pose proof (searching_full _ _ _ _ _ _ _ _ _ HS) as E.
  rewrite (link_In _ _ _ _ _ _ _ _ HI E (sg_level _ _ _ _ _ _ _ _ _ HS)), first_at_app.
  destruct HS as [[-> HA HB] Ea Hl Hab]. destruct (first_at h level q) as [y|] eqn:Ef.
  - left. destruct (first_at_Some _ _ _ _ Ef) as (q1 & q2 & -> & Hy & _).
    assert (Hin : y ∈ A).
    { assert (y ∈ head_ :: A) by (rewrite Ea; set_solver).
      assert (y <> head_); [|set_solver]. intros ->.
      pose proof (inv_nodup _ _ _ _ HI) as Hn. rewrite app_comm_cons, Ea in Hn.
      apply NoDup_app in Hn as (Hn & _). destruct p as [|p0 p]; simplify_eq/=.
      - apply NoDup_cons in Hn as [Hn _]. set_solver.
      - apply NoDup_cons in Hn as [Hn _]. set_solver. }
    exists y, q1, q2. split; [done|]. split; [done|]. split; [by rewrite Forall_forall in HA; apply HA|].
    split; [set_solver|]. constructor; [done|by rewrite Ea, <- app_assoc|done|].
    rewrite Forall_app, Forall_cons in Hab. by destruct Hab as (_ & _ & ?).
  - right. split; [done|]. by apply first_at_None.
Qed.

(** Going down keeps the state. *)
Lemma searching_down l h P A B p x q level :
  searching l h P A B p x q (S level) -> Forall (fun y => h y <= S level)%nat q ->
  searching l h P A B p x q level.
Proof. intros [? ? ? ?] Hq. constructor; try done. lia. Qed.

Lemma after_not l h k s P A B y i :
  Inv l h k s -> Split l P A B -> first_at h i B = Some y ->
  y ∈ l /\ ~ P y.
Proof.
  intros HI [-> _ HB] E. apply first_at_In in E. rewrite Forall_forall in HB. split; [set_solver|by apply HB].
Qed.

(** One round of [FindGreaterOrEqual]. *)
Lemma round_spec l h k s target A B p x q level prev :
  Inv l h k s -> searching l h (before k target) A B p x q level ->
  (exists y q1 q2, q = q1 ++ y :: q2 /\
     FindGreaterOrEqual_round compare_ target x level prev s = Ret (Continue y level, prev, s) /\
     searching l h (before k target) A B (p ++ x :: q1) y q2 level) \/
  (Forall (fun y => h y <= level)%nat q /\
   FindGreaterOrEqual_round compare_ target x level prev s =
     Ret (match level with O => Done (first_at h 0 B) | S level => Continue x level end,
          option_map (fun prev => <[level := Some x]> prev) prev, s)).
Proof.
  intros HI HS. unfold FindGreaterOrEqual_round, bind.
  destruct (searching_next _ _ _ _ _ _ _ _ _ _ _ HI HS)
    as [(y & q1 & q2 & -> & -> & Hb & Hy & HS')|[-> Hq]].
  - left. exists y, q1, q2. split; [done|]. split; [|done]. unfold KeyIsAfterNode, bind.
    rewrite (node_key_In _ _ _ _ _ HI Hy). unfold ret. unfold before in Hb.
    by destruct (Z.ltb_spec (compare_ (k y) target) 0); [|lia].
  - right. split; [done|].
    assert (E : KeyIsAfterNode compare_ target (first_at h level B) s = Ret (false, s)).
    { destruct (first_at h level B) as [y|] eqn:E; [|done].
      destruct (after_not _ _ _ _ _ _ _ _ _ HI (sg_split _ _ _ _ _ _ _ _ _ HS) E) as [Hy Hc].
      unfold KeyIsAfterNode, bind, ret. rewrite (node_key_In _ _ _ _ _ HI Hy).
      unfold before in Hc. by destruct (Z.ltb_spec (compare_ (k y) target) 0). }
    rewrite E. by destruct level.
Qed.

(** What [prev] holds at the levels a search has left. *)
Definition prevs h A (from to : nat) (prev : option (list (option nat))) : Prop :=
  match prev with
  | None => True
  | Some prev => length prev = kMaxHeight /\
      forall i, (from <= i < to)%nat -> exists z, prev !! i = Some (Some z) /\ last_at h i A z
  end.

Lemma FGE_loop l h k s target A B to :
  Inv l h k s -> (to <= kMaxHeight)%nat ->
  forall fuel p x q level prev,
  searching l h (before k target) A B p x q level -> (length q + level < fuel)%nat -> (level < to)%nat ->
  prevs h A (S level) to prev ->
  exists prev', FindGreaterOrEqual_loop compare_ fuel target x level prev s =
                  Ret (first_at h 0 B, prev', s) /\
    (prev' = None <-> prev = None) /\ prevs h A 0 to prev'.
Proof.
  intros HI Hto. induction fuel as [|fuel IH]; intros p x q level prev HS Hf Hlt Hp; [lia|].
  cbn [FindGreaterOrEqual_loop]. unfold bind.
  destruct (round_spec _ _ _ _ _ _ _ _ _ _ _ prev HI HS) as [(y & q1 & q2 & -> & -> & HS')|[Hq ->]].
  - apply (IH _ _ _ _ _ HS'); [rewrite length_app in Hf; simpl in Hf; lia|done|done].
  - assert (Hp' : prevs h A level to (option_map (fun prev => <[level:=Some x]> prev) prev)).
    { destruct prev as [prev|]; [|done]. destruct Hp as [Hlen Hp]. split; [by rewrite length_insert|].
      intros i Hi. destruct (decide (i = level)) as [->|].
      - exists x. split; [apply list_lookup_insert_eq; lia|]. exists p, q.
        split; [apply HS|]. split; [apply HS|done].
      - rewrite list_lookup_insert_ne by lia. apply Hp. lia. }
    assert (Hn : option_map (fun prev => <[level:=Some x]> prev) prev = None <-> prev = None) by (by destruct prev).
    destruct level as [|level]; [by eexists|].
    destruct (IH p x q level (option_map (fun prev => <[S level := Some x]> prev) prev) (searching_down _ _ _ _ _ _ _ _ _ HS Hq)) as (prev' & E & E' & Hpr);
      [lia|lia|exact Hp'|].
    exists prev'. split; [exact E|]. split; [|done]. rewrite <- Hn. exact E'.
Qed.

Lemma length_lt_nodes l h k s : Inv l h k s -> (length l < length (nodes s))%nat.
Proof.
  intros HI. assert (H : head_ :: l ⊆+ seq 0 (length (nodes s))).
  { apply NoDup_submseteq; [apply HI|]. intros x Hx. apply elem_of_seq. split; [lia|]. simpl.
    apply elem_of_cons in Hx as [-> | Hx].
    - destruct (inv_head _ _ _ _ HI) as (nd & E & _). by apply lookup_lt_Some in E.
    - destruct (inv_node _ _ _ _ HI x Hx) as (nd & E & _). by apply lookup_lt_Some in E. }
  apply submseteq_length in H. rewrite length_seq in H. simpl in H. lia.
Qed.

Lemma fuel_enough l h k s P A B :
  Inv l h k s -> Split l P A B -> (length A + (max_height_ s - 1) < search_fuel s)%nat.
Proof.
  intros HI [-> _ _]. pose proof (length_lt_nodes _ _ _ _ HI) as H. pose proof (inv_max _ _ _ _ HI).
  rewrite length_app in H. unfold search_fuel. lia.
Qed.

Lemma FindGreaterOrEqual_spec l h k s target A B prev :
  Inv l h k s -> Split l (before k target) A B ->
  match prev with Some prev => length prev = kMaxHeight | None => True end ->
  exists prev', FindGreaterOrEqual compare_ target prev s = Ret (first_at h 0 B, prev', s) /\
    (prev' = None <-> prev = None) /\ prevs h A 0 (max_height_ s) prev'.
Proof.
  intros HI HS Hp. pose proof (inv_max _ _ _ _ HI). unfold FindGreaterOrEqual, bind, get, GetMaxHeight.
  apply (FGE_loop _ _ _ _ _ _ _ _ HI) with (p := []) (q := A); [lia| | |lia|].
  - by apply (searching_start _ _ _ _ _ _ _ HI).
  - by apply (fuel_enough _ _ _ _ _ _ _ HI HS).
  - destruct prev as [prev|]; [|done]. split; [done|]. lia.
Qed.

Lemma FLT_loop l h k s target A B :
  Inv l h k s ->
  forall fuel p x q level,
  searching l h (before k target) A B p x q level -> (length q + level < fuel)%nat ->
  exists z, FindLessThan_loop compare_ fuel target x level s = Ret (z, s) /\ last_at h 0 A z.
Proof.
  intros HI. induction fuel as [|fuel IH]; intros p x q level HS Hf; [lia|].
  cbn [FindLessThan_loop]. unfold bind.
  destruct (searching_next _ _ _ _ _ _ _ _ _ _ _ HI HS)
    as [(y & q1 & q2 & -> & -> & Hb & Hy & HS')|[-> Hq]].
  - assert (E : at_or_after compare_ target (Some y) s = Ret (false, s)).
    { unfold at_or_after, bind. rewrite (node_key_In _ _ _ _ _ HI Hy). unfold before in Hb.
      unfold ret. by destruct (Z.geb_spec (compare_ (k y) target) 0); [lia|]. }
    rewrite E. cbn [need ret]. apply (IH _ _ _ _ HS'). rewrite length_app in Hf. simpl in Hf. lia.
  - assert (E : at_or_after compare_ target (first_at h level B) s = Ret (true, s)).
    { destruct (first_at h level B) as [y|] eqn:E; [|done].
      destruct (after_not _ _ _ _ _ _ _ _ _ HI (sg_split _ _ _ _ _ _ _ _ _ HS) E) as [Hy Hc].
      unfold at_or_after, bind. rewrite (node_key_In _ _ _ _ _ HI Hy). unfold before in Hc.
      unfold ret. by destruct (Z.geb_spec (compare_ (k y) target) 0); [|lia]. }
    rewrite E. destruct level as [|level].
    + exists x. split; [done|]. exists p, q. split; [apply HS|]. split; [apply HS|done].
    + apply (IH p x q); [by apply searching_down|lia].
Qed.

Lemma FindLessThan_spec l h k s target A B :
  Inv l h k s -> Split l (before k target) A B ->
  exists z, FindLessThan compare_ target s = Ret (z, s) /\ last_at h 0 A z.
Proof.
  intros HI HS. unfold FindLessThan, bind, get, GetMaxHeight.
  exact (FLT_loop l h k s target A B HI _ [] head_ A _ (searching_start _ _ _ _ _ _ _ HI HS)
    (fuel_enough _ _ _ _ _ _ _ HI HS)).
Qed.

Lemma FindLast_loop_spec l h k s :
  Inv l h k s ->
  forall fuel p x q level,
  searching l h (fun _ => True) l [] p x q level -> (length q + level < fuel)%nat ->
  exists z, FindLast_loop fuel x level s = Ret (z, s) /\ last_at h 0 l z.
Proof.
  intros HI. induction fuel as [|fuel IH]; intros p x q level HS Hf; [lia|].
  cbn [FindLast_loop]. unfold bind.
  destruct (searching_next _ _ _ _ _ _ _ _ _ _ _ HI HS)
    as [(y & q1 & q2 & -> & -> & _ & _ & HS')|[-> Hq]].
  - apply (IH _ _ _ _ HS'). rewrite length_app in Hf. simpl in Hf. lia.
  - cbn [first_at List.find]. destruct level as [|level].
    + exists x. split; [done|]. exists p, q. split; [apply HS|]. split; [apply HS|done].
    + apply (IH p x q); [by apply searching_down|lia].
Qed.

Lemma FindLast_spec l h k s :
  Inv l h k s -> exists z, FindLast s = Ret (z, s) /\ last_at h 0 l z.
Proof.
  intros HI. assert (HS : Split l (fun _ => True) l []).
  { constructor; [by rewrite app_nil_r| |done]. apply Forall_forall. done. }
  unfold FindLast, bind, get, GetMaxHeight.
  exact (FindLast_loop_spec l h k s HI _ [] head_ l _ (searching_start _ _ _ _ _ _ _ HI HS)
    (fuel_enough _ _ _ _ _ _ _ HI HS)).
Qed.

(** * Storing links *)

(** The nodes that come after [y]. *)
Fixpoint after (y : nat) (xs : list nat) : list nat :=
  match xs with
  | [] => []
  | z :: xs => if decide (z = y) then xs else after y xs
  end.

Lemma after_split y p q : y ∉ p -> after y (p ++ y :: q) = q.
Proof.
  induction p as [|z p IH]; intros Hy; cbn [app after].
  - by destruct (decide (y = y)).
  - destruct (decide (z = y)); [set_solver|]. apply IH. set_solver.
Qed.

Lemma after_app_in y p q : y ∈ p -> after y (p ++ q) = after y p ++ q.
Proof.
  induction p as [|z p IH]; intros Hy; [set_solver|]. cbn [app after].
  destruct (decide (z = y)); [done|]. apply IH. set_solver.
Qed.

Lemma after_app_notin y p q : y ∉ p -> after y (p ++ q) = after y q.
Proof.
  induction p as [|z p IH]; intros Hy; [done|]. cbn [app after].
  destruct (decide (z = y)); [set_solver|]. apply IH. set_solver.
Qed.

Definition links l h s : Prop :=
  forall x i, x ∈ head_ :: l -> (i < h x)%nat ->
    link_at s x i = Some (to_link (first_at h i (after x (head_ :: l)))).

Lemma links_Inv l h k s : Inv l h k s -> links l h s.
Proof.
  intros HI x i Hx Hi. apply list_elem_of_split in Hx as (p & q & E).
  pose proof (inv_nodup _ _ _ _ HI) as Hn. rewrite E in Hn |- *.
  apply NoDup_app in Hn as (_ & Hd & _). rewrite after_split by (intros H; apply (Hd x H); set_solver).
  by apply (inv_links _ _ _ _ HI p).
Qed.

Lemma links_split l h s :
  NoDup (head_ :: l) -> links l h s ->
  forall p x q i, head_ :: l = p ++ x :: q -> (i < h x)%nat ->
    link_at s x i = Some (to_link (first_at h i q)).
Proof.
  intros Hn HL p x q i E Hi. rewrite (HL x i) by (done || rewrite E; set_solver).
  rewrite E in Hn |- *. apply NoDup_app in Hn as (_ & Hd & _).
  by rewrite after_split by (intros H; apply (Hd x H); set_solver).
Qed.

(** The parts of a state a link store leaves alone. *)
Definition shape s (x : nat) : option (Key * nat) :=
  (fun nd => (node_key nd, length (next_ nd))) <$> nodes s !! x.

Lemma SetNext_spec s x i v nd :
  nodes s !! x = Some nd -> (i < length (next_ nd))%nat ->
  exists s', Node_SetNext x i v s = Ret (tt, s') /\ (forall y, shape s' y = shape s y) /\
    max_height_ s' = max_height_ s /\ rnd_ s' = rnd_ s /\ length (nodes s') = length (nodes s) /\
    forall y j, link_at s' y j =
      if decide (y = x /\ j = i) then Some (to_link v) else link_at s y j.
Proof.
  intros E Hi. unfold Node_SetNext. rewrite E. destruct (Nat.ltb_spec i (length (next_ nd))); [|lia].
  eexists. split; [done|]. unfold shape, link_at. cbn [nodes max_height_ rnd_].
  pose proof (lookup_lt_Some _ _ _ E) as Hx.
  split; [|split; [done|split; [done|split; [apply length_insert|]]]].
  - intros y. destruct (decide (y = x)) as [->|].
    + rewrite list_lookup_insert_eq, E by done. cbn. by rewrite length_insert.
    + by rewrite list_lookup_insert_ne by done.
  - intros y j. destruct (decide (y = x)) as [->|].
    + rewrite list_lookup_insert_eq, E by done. cbn [mbind option_bind next_].
      destruct (decide (x = x /\ j = i)) as [[_ ->]|Hn].
      * by rewrite list_lookup_insert_eq.
      * rewrite list_lookup_insert_ne; [done|]. intros ->. by destruct Hn.
    + rewrite list_lookup_insert_ne by done. by destruct (decide (y = x /\ j = i)) as [[? _]|].
Qed.

Lemma shape_node s s' x nd :
  (forall y, shape s' y = shape s y) -> nodes s !! x = Some nd ->
  exists nd', nodes s' !! x = Some nd' /\ node_key nd' = node_key nd /\ length (next_ nd') = length (next_ nd).
Proof.
  intros Hs E. specialize (Hs x). unfold shape in Hs. rewrite E in Hs. cbn in Hs.
  destruct (nodes s' !! x) as [nd'|]; cbn in Hs; [|done]. exists nd'. by simplify_eq.
Qed.

(** Ghost data after a change of the links of the store. *)
Lemma Inv_relink l h h' k s s' :
  Inv l h k s -> (forall y, shape s' y = shape s y) -> max_height_ s' = max_height_ s ->
  h' head_ = kMaxHeight ->
  (forall x, x ∈ l -> (h' x <= max_height_ s)%nat /\
     exists nd, nodes s !! x = Some nd /\ (h' x <= length (next_ nd))%nat) ->
  links l h' s' -> Inv l h' k s'.
Proof.
  intros HI Hs Hm H0 Hh HL. constructor; try apply HI; try done.
  - destruct (inv_head _ _ _ _ HI) as (nd & E & Hl).
    destruct (shape_node _ _ _ _ Hs E) as (nd' & E' & _ & Hl'). exists nd'. split; [done|lia].
  - intros x Hx. destruct (inv_node _ _ _ _ HI x Hx) as (nd & E & Ek & _).
    destruct (Hh x Hx) as (_ & nd0 & E0 & Hle). destruct (shape_node _ _ _ _ Hs E) as (nd' & E' & Ek' & Hl').
    exists nd'. split; [done|]. split; [congruence|]. simplify_eq. lia.
  - intros x Hx. rewrite Hm. by apply Hh.
  - rewrite Hm. apply HI.
  - intros p x q i. apply links_split; [apply HI|done].
Qed.

(** A store to a level of a node that is not linked yet changes nothing. *)
Lemma Inv_unlinked l h k s x i v :
  Inv l h k s -> x ∈ l -> (h x <= i)%nat ->
  (exists nd, nodes s !! x = Some nd /\ (i < length (next_ nd))%nat) ->
  exists s', Node_SetNext x i v s = Ret (tt, s') /\ Inv l h k s' /\ (forall y, shape s' y = shape s y) /\
    max_height_ s' = max_height_ s /\ rnd_ s' = rnd_ s /\ link_at s' x i = Some (to_link v).
Proof.
  intros HI Hx Hi (nd & E & Hl). destruct (SetNext_spec s x i v nd E Hl) as (s' & -> & Hs & Hm & Hr & _ & Hlk).
  exists s'. split; [done|]. split; [|split; [done|split; [done|split; [done|rewrite Hlk; by destruct (decide _) as [|[]]]]]].
  apply (Inv_relink l h h k s); try done; [apply HI| |].
  - intros y Hy. split; [by apply HI|]. destruct (inv_node _ _ _ _ HI y Hy) as (ndy & ? & _ & ?). by exists ndy.
  - intros y j Hy Hj. rewrite Hlk. destruct (decide (y = x /\ j = i)) as [[-> ->]|]; [lia|].
    by apply (links_Inv _ _ _ _ HI).
Qed.

Definition upd {V} (f : nat -> V) (x : nat) (v : V) : nat -> V :=
  fun y => if decide (y = x) then v else f y.

Lemma upd_same {V} (f : nat -> V) x v : upd f x v x = v.
Proof. unfold upd. by destruct (decide (x = x)). Qed.

Lemma upd_other {V} (f : nat -> V) x v y : y <> x -> upd f x v y = f y.
Proof. unfold upd. by destruct (decide (y = x)). Qed.

Lemma first_at_upd h x v i q : x ∉ q -> first_at (upd h x v) i q = first_at h i q.
Proof. intros Hx. apply first_at_ext. intros y Hy. by rewrite upd_other by set_solver. Qed.

Lemma last_at_upd h x v i A z : x ∉ head_ :: A -> last_at h i A z -> last_at (upd h x v) i A z.
Proof.
  intros Hx (p & q & E & Hz & Hq). exists p, q. split; [done|]. rewrite E in Hx.
  rewrite upd_other by set_solver. split; [done|]. rewrite Forall_forall in Hq |- *.
  intros y Hy. rewrite upd_other by set_solver. by apply Hq.
Qed.
End Inv.
