(* ===== verification/LvSkipListSpec.v ===== *)
(** What the skip list promises: it refines a sorted list of keys, its
    iterators walk that list, any sequence of insertions of distinct keys
    succeeds, and its random numbers are the minimal standard generator's. *)

From stdpp Require Import base list gmap strings sorting.
From Stdlib Require Import ZArith Lia.
From S2P Require Import Prelude LvSlice LvSkipList LvSkipListInv LvSkipListProps.

Section Spec.
Context {Key : Type} {compare_ : Key -> Key -> Z} {ok : Key -> Prop} `{L : !OrderLaws compare_ ok}.
Implicit Types (s : SkipList Key) (key target : Key).
#[local] Abbreviation wf := (LvSkipListProps.wf (compare_ := compare_) (ok := ok)).
#[local] Abbreviation before := (LvSkipListInv.before (compare_ := compare_)).

(** C2: [Insert] refines insertion into a sorted list: from a well-formed skip
    list without a key equal to the new one it returns (every link it follows
    is initialised and within the height of its node, the search and the choice
    of the height end), the list is well-formed again, and its contents are the
    old ones with the key inserted in order. The constructor makes a
    well-formed empty list. *)
Theorem SkipList_Insert_refines s key any_key :
  wf s -> ok key -> Forall (fun y => compare_ y key <> 0) (contents s) ->
  (exists s', Insert compare_ key s = Ret (tt, s') /\ wf s' /\
     contents s' = insert_sorted compare_ key (contents s)) /\
  wf (SkipList_new any_key) /\ contents (SkipList_new any_key) = [].
Proof. intros Hw Hok Hne. split; [by apply insert_refines|apply new_wf]. Qed.

(** the searches and iterators of a well-formed list are those of the sorted
    list of its keys. With [l] the nodes in order: [SeekToFirst], [SeekToLast],
    [Next] and [Prev] move to the first, last, next and previous node and fall
    off both ends; [Seek] stops at the first key that is not less than the
    target; [Contains] says whether an equal key is in the list. All of them
    return and leave the list alone. *)
Theorem SkipList_iterators s :
  wf s ->
  exists l, length l = length (contents s) /\
    (forall n x, l !! n = Some x ->
       exists key, contents s !! n = Some key /\ Iterator_key (Some x) s = Ret (key, s)) /\
    Iterator_SeekToFirst s = Ret (l !! 0%nat, s) /\
    Iterator_SeekToLast s = Ret (last l, s) /\
    (forall n x, l !! n = Some x ->
       Iterator_Next (Some x) s = Ret (l !! S n, s) /\
       Iterator_Prev compare_ (Some x) s = Ret (match n with O => None | S m => l !! m end, s)) /\
    (forall target, ok target -> exists n,
       Iterator_Seek compare_ target s = Ret (l !! n, s) /\
       Forall (fun y => compare_ y target < 0) (take n (contents s)) /\
       Forall (fun y => 0 <= compare_ y target) (drop n (contents s))) /\
    (forall target, ok target -> exists b,
       Contains compare_ target s = Ret (b, s) /\
       (b = true <-> Exists (fun y => compare_ target y = 0) (contents s))).
Proof.
  intros (l & k & h & HI & Hh). exists l.
  assert (E : contents s = map k l) by (apply contents_Rep; by exists h). rewrite E.
  assert (HS : forall target, ok target -> exists A B, Split l (before k target) A B)
    by (intros; by apply split_exists; [apply (inv_sorted _ _ _ _ HI)|apply (inv_ok _ _ _ _ HI)|]).
  split; [by rewrite length_map|]. split; [|split; [|split; [|split; [|split]]]].
  - intros n x El. exists (k x). rewrite list_lookup_fmap, El. split; [done|].
    unfold Iterator_key, bind. cbn [need ret]. apply (node_key_In _ _ _ _ _ HI).
    by apply list_elem_of_lookup_2 in El.
  - by apply (first_spec l h k).
  - by apply (last_spec l h k).
  - intros n x El. split; [by apply (next_spec l h k)|by apply (prev_spec l h k)].
  - intros target Ht. destruct (HS target Ht) as (A & B & HSp). exists (length A).
    split; [by apply (seek_spec l h k s HI Hh target A B)|]. destruct HSp as [-> HA HB].
    rewrite map_app. rewrite take_app_le, drop_app_ge by (rewrite length_map; lia).
    rewrite length_map, Nat.sub_diag, take_ge by (rewrite length_map; lia). cbn [drop].
    split; apply Forall_map; [done|]. eapply Forall_impl; [exact HB|]. unfold before. intros y Hy. cbn in Hy |- *. lia.
  - intros target Ht. destruct (HS target Ht) as (A & B & HSp).
    destruct (contains_spec l h k s HI Hh target A B Ht HSp) as (b & Eb & Hb). exists b. split; [done|].
    rewrite Hb, Exists_exists. split.
    + intros (x & Hx & Ex). exists (k x). split; [by apply list_elem_of_fmap_2|done].
    + intros (y & Hy & Ey). apply list_elem_of_fmap in Hy as (x & -> & Hx). by exists x.
Qed.

(** Insertions one after the other. *)
Fixpoint Insert_all (keys : list Key) : M (SkipList Key) unit :=
  match keys with
  | [] => ret tt
  | key :: keys => Insert compare_ key ;;; Insert_all keys
  end.

Lemma insert_sorted_perm key ks : insert_sorted compare_ key ks ≡ₚ key :: ks.
Proof.
  induction ks as [|y ks IH]; [done|]. cbn [insert_sorted]. destruct (_ <? 0); [|done].
  rewrite IH. apply Permutation_swap.
Qed.

Definition distinct (keys : list Key) : Prop :=
  forall i j a b, keys !! i = Some a -> keys !! j = Some b -> i <> j -> compare_ a b <> 0.

Lemma distinct_cons a keys :
  distinct (a :: keys) -> distinct keys /\ Forall (fun y => compare_ a y <> 0 /\ compare_ y a <> 0) keys.
Proof.
  intros Hd. split; [intros i j x y Hx Hy Hij; apply (Hd (S i) (S j) x y); [done|done|lia]|].
  apply Forall_forall. intros y Hy. apply list_elem_of_lookup in Hy as [i Hi].
  split; [by apply (Hd 0%nat (S i))|by apply (Hd (S i) 0%nat)].
Qed.

Lemma Insert_all_spec keys : forall s,
  wf s -> Forall ok keys -> distinct keys ->
  Forall (fun a => Forall (fun y => compare_ y a <> 0) (contents s)) keys ->
  exists s', Insert_all keys s = Ret (tt, s') /\ wf s' /\ contents s' ≡ₚ keys ++ contents s.
Proof.
  induction keys as [|a keys IH]; intros s Hw Hok Hd Hc; [by exists s|].
  apply Forall_cons in Hok as [Ha Hok]. apply Forall_cons in Hc as [Hca Hc].
  apply distinct_cons in Hd as [Hd Hda]. cbn [Insert_all]. unfold bind.
  destruct (insert_refines s a Hw Ha Hca) as (s1 & -> & Hw1 & E1).
  destruct (IH s1 Hw1 Hok Hd) as (s2 & -> & Hw2 & E2).
  - rewrite Forall_forall in Hc, Hda |- *. intros y Hy. rewrite E1.
    rewrite insert_sorted_perm. constructor; [by apply Hda|by apply Hc].
  - exists s2. split; [done|]. split; [done|]. rewrite E2, E1, insert_sorted_perm.
    symmetry. apply Permutation_middle.
Qed.

Lemma wf_sorted s : wf s -> StronglySorted (fun a b => compare_ a b < 0) (contents s).
Proof.
  intros (l & k & h & HI & Hh). rewrite (contents_Rep l k s) by (by exists h).
  pose proof (inv_sorted _ _ _ _ HI) as Hs. clear HI Hh. induction Hs as [|x l Hs IH Hx]; [constructor|].
  cbn [map]. constructor; [done|]. by apply Forall_map.
Qed.

(** [Seek] in terms of the contents alone. *)
Lemma seek_contents s target :
  wf s -> ok target -> exists pre suf it,
    contents s = pre ++ suf /\
    Forall (fun y => compare_ y target < 0) pre /\ Forall (fun y => 0 <= compare_ y target) suf /\
    Iterator_Seek compare_ target s = Ret (it, s) /\
    match suf with
    | [] => it = None
    | key :: _ => is_Some it /\ Iterator_key it s = Ret (key, s)
    end.
Proof.
  intros (l & k & h & HI & Hh) Ht. rewrite (contents_Rep l k s) by (by exists h).
  destruct (split_exists l k target (inv_sorted _ _ _ _ HI)) as (A & B & HSp); [apply (inv_ok _ _ _ _ HI)|done|].
  exists (map k A), (map k B), (l !! length A). split; [|split; [|split; [|split]]].
  - destruct HSp as [-> _ _]. by rewrite map_app.
  - apply Forall_map. by destruct HSp as [_ HA _].
  - apply Forall_map. destruct HSp as [_ _ HB]. eapply Forall_impl; [exact HB|]. unfold before.
    intros y Hy. cbn in Hy |- *. lia.
  - by apply (seek_spec l h k s HI Hh target A B).
  - destruct HSp as [El _ _]. rewrite El, lookup_app_r, Nat.sub_diag by lia.
    destruct B as [|x B]; [done|]. cbn [map lookup list_lookup]. split; [done|].
    unfold Iterator_key, bind. cbn [need ret]. apply (node_key_In _ _ _ _ _ HI). rewrite El. set_solver.
Qed.

(** inserting any keys of which no two are equal into a new list, in any
    order, returns, and leaves a well-formed list of exactly these keys in
    strictly increasing order. *)
Theorem SkipList_sorts any_key keys :
  Forall ok keys -> distinct keys ->
  exists s, Insert_all keys (SkipList_new any_key) = Ret (tt, s) /\ wf s /\
    contents s ≡ₚ keys /\ StronglySorted (fun a b => compare_ a b < 0) (contents s).
Proof.
  intros Hok Hd. destruct (new_wf (compare_ := compare_) (ok := ok) any_key) as [Hw E].
  destruct (Insert_all_spec keys (SkipList_new any_key) Hw Hok Hd) as (s & Es & Hws & Ec).
  { rewrite E. apply Forall_forall. by constructor. }
  exists s. split; [done|]. split; [done|]. rewrite E, app_nil_r in Ec. split; [done|by apply wf_sorted].
Qed.
End Spec.

Definition sample_keys : list Slice := [chars "delta"; chars "alpha"; chars "echo"; chars "bravo"].

(** The list of the sample keys. *)
Definition sample_list : SkipList Slice :=
  match Insert_all (compare_ := Slice_compare) sample_keys (SkipList_new []) with
  | Ret (_, s) => s
  | _ => SkipList_new []
  end.

Lemma sample_distinct : distinct (compare_ := Slice_compare) sample_keys.
Proof.
  intros [|[|[|[|i]]]] [|[|[|[|j]]]] a b Ha Hb Hij; simplify_eq/=; by vm_compute.
Qed.

Lemma sample_wf : wf (compare_ := Slice_compare) (ok := is_bytes) sample_list.
Proof.
  unfold sample_list.
  destruct (Insert_all_spec (compare_ := Slice_compare) (ok := is_bytes) sample_keys (SkipList_new []))
    as (s & -> & Hw & _); [apply new_wf|repeat (constructor; [solve_bytes|]); constructor|apply sample_distinct| |done].
  apply Forall_forall. by constructor.
Qed.

Lemma SkipList_sorts_witness :
  contents sample_list = [chars "alpha"; chars "bravo"; chars "delta"; chars "echo"] /\
  exists s, Insert_all (compare_ := Slice_compare) sample_keys (SkipList_new []) = Ret (tt, s).
Proof.
  split; [by vm_compute|].
  destruct (SkipList_sorts (compare_ := Slice_compare) (ok := is_bytes) [] sample_keys) as (s & E & _);
    [repeat (constructor; [solve_bytes|]); constructor|apply sample_distinct|by exists s].
Defined.

Lemma SkipList_Insert_refines_witness :
  exists s', Insert Slice_compare (chars "charlie") sample_list = Ret (tt, s') /\
    contents s' = insert_sorted Slice_compare (chars "charlie") (contents sample_list).
Proof.
  destruct (SkipList_Insert_refines (compare_ := Slice_compare) (ok := is_bytes)
    sample_list (chars "charlie") [] sample_wf) as ((s' & E & _ & Ec) & _);
    [solve_bytes|apply (bool_decide_unpack _); vm_compute; exact I|exists s'; exact (conj E Ec)].
Defined.

Lemma SkipList_iterators_witness :
  Iterator_Seek Slice_compare (chars "c") sample_list = Ret (Some 1%nat, sample_list) /\
  exists l, Iterator_SeekToFirst sample_list = Ret (l !! 0%nat, sample_list) /\
    length l = length (contents sample_list).
Proof.
  split; [by vm_compute|].
  destruct (SkipList_iterators (compare_ := Slice_compare) (ok := is_bytes) sample_list sample_wf)
    as (l & E1 & _ & E2 & _). exists l. exact (conj E2 E1).
Defined.

(** * Random numbers *)

Lemma Random_step_nonzero seed : 0 < seed < 2147483647 -> (seed * 16807) mod 2147483647 <> 0.
Proof.
  intros Hs Hz. apply Z.mod_divide in Hz; [|done]. rewrite Z.mul_comm in Hz.
  apply Z.gauss in Hz; [|by vm_compute]. apply Z.divide_pos_le in Hz; lia.
Qed.

(** Folding a product below [2^46] once. *)
Lemma fold_mod a b p :
  p = a * 2147483648 + b -> 0 <= a < 16807 -> 0 <= b < 2147483648 -> p mod 2147483647 <> 0 ->
  (if a + b >? 2147483647 then a + b - 2147483647 else a + b) = p mod 2147483647.
Proof.
  intros Ep Ha Hb Hnz. destruct (Z.gtb_spec (a + b) 2147483647) as [Hg|Hg].
  - apply Z.mod_unique with (a + 1); lia.
  - destruct (Z.eq_dec (a + b) 2147483647) as [He|He].
    + exfalso. apply Hnz. symmetry. apply Z.mod_unique with (a + 1); lia.
    + apply Z.mod_unique with a; lia.
Qed.

Lemma Random_Next_eq seed :
  0 < seed < 2147483647 -> Random_Next seed = (seed * 16807) mod 2147483647.
Proof.
  intros Hs. unfold Random_Next. rewrite (wrap_small 64) by lia.
  pose proof (Random_step_nonzero seed Hs) as Hnz.
  assert (Em : Z.land (seed * 16807) 2147483647 = (seed * 16807) mod 2147483648)
    by exact (land_mask (seed * 16807) 31 ltac:(lia)).
  rewrite Em, Z.shiftr_div_pow2 by lia. change (2 ^ 31) with 2147483648.
  assert (Hb : 0 <= (seed * 16807) mod 2147483648 < 2147483648) by (apply Z.mod_pos_bound; done).
  assert (Ha : 0 <= seed * 16807 / 2147483648 < 16807)
    by (split; [apply Z.div_pos; lia|apply Z.div_lt_upper_bound; lia]).
  assert (Ep : seed * 16807 = seed * 16807 / 2147483648 * 2147483648 + (seed * 16807) mod 2147483648)
    by (rewrite (Z.mul_comm _ 2147483648); by apply Z.div_mod).
  pose proof (fold_mod _ _ _ Ep Ha Hb Hnz) as E.
  clear Hnz Em Ep. set (a := seed * 16807 / 2147483648) in *. set (b := (seed * 16807) mod 2147483648) in *.
  set (r := (seed * 16807) mod 2147483647) in *. clearbody a b r.
  rewrite (wrap_small 32 (a + b)) by lia. rewrite <- E.
  destruct (Z.gtb_spec (a + b) 2147483647); [|done]. apply wrap_small. lia.
Qed.

(** [Random::Next] computes [seed * 16807 mod 2^31 - 1] without a division,
    and from the seeds the constructor makes it never reaches the fixed points 0
    and [2^31 - 1]. *)
Theorem Random_Next_spec s seed :
  0 < seed < 2147483647 ->
  Random_Next seed = (seed * 16807) mod 2147483647 /\ 0 < Random_Next seed < 2147483647 /\
  0 < Random_new s < 2147483647.
Proof.
  intros Hs. rewrite Random_Next_eq by done. split; [done|]. split.
  - pose proof (Random_step_nonzero seed Hs) as Hnz.
    pose proof (Z.mod_pos_bound (seed * 16807) 2147483647 ltac:(done)) as Hb.
    set (r := (seed * 16807) mod 2147483647) in *. clearbody r. lia.
  - unfold Random_new. rewrite (land_mask s 31 ltac:(lia) : Z.land s 0x7fffffff = _).
    pose proof (Z.mod_pos_bound s (2 ^ 31) ltac:(done)) as Hb. set (r := s mod 2 ^ 31) in *. clearbody r.
    destruct (Z.eqb_spec r 0), (Z.eqb_spec r 2147483647); cbn [orb]; lia.
Qed.

Lemma Random_Next_spec_witness : Random_Next 1 = 16807 /\ 0 < Random_Next 2147483646 < 2147483647.
Proof. split; [by vm_compute|]. apply (Random_Next_spec 0 2147483646). lia. Defined.
