(* ===== verification/LvSkipListConc.v ===== *)
(** Readers that run while the list is written ([db/skiplist.h], "Thread
    safety": writes are synchronised by the caller, reads need nothing but that
    the list stays alive).

    A configuration is the point the writer has reached in [Insert], the point a
    reader has reached in [FindGreaterOrEqual], and the store. Their steps
    interleave; each step makes the accesses of one round of a loop or of one
    store, in the order of the program (the release stores and acquire loads of
    the links make the initialisation of a node visible with the link to it). *)

From stdpp Require Import base list gmap strings sorting.
From Stdlib Require Import ZArith Lia.
From S2P Require Import Prelude LvSlice LvSkipList LvSkipListInv LvSkipListProps.

Section Concurrent.
Context {Key : Type}.
Variable compare_ : Key -> Key -> Z.
Variable ok : Key -> Prop.

(** Where the writer is: between insertions, before the allocation of the node,
    before the own link of the node at level [i], before its publication there. *)
Inductive writer : Type :=
| WIdle
| WNew (key : Key) (prev : list (option nat)) (height : nat)
| WLink (x : nat) (prev : list (option nat)) (i height : nat)
| WPublish (x : nat) (prev : list (option nat)) (i height : nat).

Inductive reader : Type :=
| RIdle
| RSeek (target : Key) (x level : nat)
| RDone (target : Key) (r : option nat).

(** The steps of [Insert]; the flag marks the allocation of a node. *)
Inductive wstep : bool -> writer * SkipList Key -> writer * SkipList Key -> Prop :=
| w_prepare key prev height s s' :
    ok key -> Forall (fun y => compare_ y key <> 0) (contents s) ->
    Insert_prepare compare_ key s = Ret (prev, height, s') ->
    wstep false (WIdle, s) (WNew key prev height, s')
| w_new key prev height x s s' :
    NewNode key height s = Ret (x, s') ->
    wstep true (WNew key prev height, s) (WLink x prev 0 height, s')
| w_link x prev i height s s' :
    (i < height)%nat -> Insert_link_own x prev i s = Ret (tt, s') ->
    wstep false (WLink x prev i height, s) (WPublish x prev i height, s')
| w_publish x prev i height s s' :
    Insert_link_publish x prev i s = Ret (tt, s') ->
    wstep false (WPublish x prev i height, s) (WLink x prev (S i) height, s')
| w_done x prev height s :
    wstep false (WLink x prev height height, s) (WIdle, s).

(** The steps of one [FindGreaterOrEqual] without [prev]. *)
Inductive rstep (s : SkipList Key) : reader -> reader -> Prop :=
| r_start target :
    ok target -> rstep s RIdle (RSeek target head_ (max_height_ s - 1))
| r_round target x level y level' :
    FindGreaterOrEqual_round compare_ target x level None s = Ret (Continue y level', None, s) ->
    rstep s (RSeek target x level) (RSeek target y level')
| r_done target x level r :
    FindGreaterOrEqual_round compare_ target x level None s = Ret (Done r, None, s) ->
    rstep s (RSeek target x level) (RDone target r).

Definition config : Type := writer * reader * SkipList Key.

(** Any interleaving: [run n m c c'] makes [n] steps of the reader and allocates
    [m] nodes. *)
Inductive run : nat -> nat -> config -> config -> Prop :=
| run_refl c : run 0 0 c c
| run_writer n m b c w r s w' s' :
    run n m c (w, r, s) -> wstep b (w, s) (w', s') ->
    run n (m + Nat.b2n b) c (w', r, s')
| run_reader n m c w r s r' :
    run n m c (w, r, s) -> rstep s r r' -> run (S n) m c (w, r', s).
End Concurrent.

Arguments WIdle {Key}.
Arguments WNew {Key} key prev height.
Arguments WLink {Key} x prev i height.
Arguments WPublish {Key} x prev i height.
Arguments RIdle {Key}.
Arguments RSeek {Key} target x level.
Arguments RDone {Key} target r.

Section Safety.
Context {Key : Type} {compare_ : Key -> Key -> Z} {ok : Key -> Prop} `{L : !OrderLaws compare_ ok}.
Implicit Types (s : SkipList Key) (l A B p q : list nat) (h : nat -> nat) (k : nat -> Key).
#[local] Abbreviation Inv := (LvSkipListInv.Inv (compare_ := compare_) (ok := ok)).
#[local] Abbreviation before := (LvSkipListInv.before (compare_ := compare_)).
#[local] Abbreviation wf := (LvSkipListProps.wf (compare_ := compare_) (ok := ok)).

(** What holds where the writer is. *)
Definition prev_ok h A height (prev : list (option nat)) : Prop :=
  forall j, (j < height)%nat -> exists z, prev !! j = Some (Some z) /\ last_at h j A z.

Definition others_linked l h (x : nat) : Prop := forall y, y ∈ l -> y <> x -> (1 <= h y)%nat.

Record linking l h s (x : nat) (prev : list (option nat)) (i height : nat) A B : Prop := {
  lk_split : l = A ++ x :: B;
  lk_level : h x = i;
  lk_height : (i <= height <= max_height_ s)%nat;
  lk_node : exists nd, nodes s !! x = Some nd /\ length (next_ nd) = height;
  lk_prev : prev_ok h A height prev;
  lk_others : others_linked l h x;
  lk_pos : (1 <= height)%nat
}.

Definition writer_ok l h k s (w : writer (Key := Key)) : Prop :=
  match w with
  | WIdle => forall x, x ∈ l -> (1 <= h x)%nat
  | WNew key prev height =>
      (forall x, x ∈ l -> (1 <= h x)%nat) /\ ok key /\ (forall x, x ∈ l -> compare_ (k x) key <> 0) /\
      (1 <= height <= max_height_ s)%nat /\
      exists A B, Split l (before k key) A B /\ prev_ok h A height prev
  | WLink x prev i height => exists A B, linking l h s x prev i height A B
  | WPublish x prev i height =>
      exists A B, linking l h s x prev i height A B /\ (i < height)%nat /\
        link_at s x i = Some (to_link (first_at h i B))
  end.

(** What holds where the reader is: before its target, at a level its node is
    linked at. *)
Definition reader_ok l h k (r : reader (Key := Key)) : Prop :=
  match r with
  | RSeek target x level =>
      ok target /\ x ∈ head_ :: l /\ (level < h x)%nat /\ (x = head_ \/ before k target x)
  | _ => True
  end.

(** How the ghost data may change. *)
Definition grows l h k l' h' k' : Prop :=
  (forall x, x ∈ l -> x ∈ l' /\ k' x = k x /\ (h x <= h' x)%nat) /\ h' head_ = h head_.

Lemma grows_refl l h k : grows l h k l h k.
Proof. split; [|done]. intros x Hx. split; [done|]. split; [done|lia]. Qed.

Lemma grows_trans l h k l' h' k' l2 h2 k2 :
  grows l h k l' h' k' -> grows l' h' k' l2 h2 k2 -> grows l h k l2 h2 k2.
Proof.
  intros [H1 E1] [H2 E2]. split; [|congruence]. intros x Hx. destruct (H1 x Hx) as (Hx' & ? & ?).
  destruct (H2 x Hx') as (? & ? & ?). split; [done|]. split; [congruence|lia].
Qed.

Lemma reader_stable l h k l' h' k' r :
  grows l h k l' h' k' -> reader_ok l h k r -> reader_ok l' h' k' r.
Proof.
  intros [Hg Hh]. destruct r as [|target x level|]; try done. intros (Ht & Hx & Hl & Hb).
  split; [done|]. apply elem_of_cons in Hx as [-> | Hx].
  - split; [set_solver|]. split; [lia|by left].
  - destruct (Hg x Hx) as (Hx' & Ek & Hh'). split; [set_solver|]. split; [lia|].
    destruct Hb as [->|Hb]; [by left|right]. unfold LvSkipListInv.before in *. by rewrite Ek.
Qed.

Lemma prev_ok_upd h A height prev x v :
  x ∉ head_ :: A -> prev_ok h A height prev -> prev_ok (upd h x v) A height prev.
Proof.
  intros Hx Hp j Hj. destruct (Hp j Hj) as (z & E & Hz). exists z. split; [done|]. by apply last_at_upd.
Qed.

(** The invariant of configurations is kept by the writer's steps. *)
Lemma wstep_inv b w s w' s' l h k :
  wstep compare_ ok b (w, s) (w', s') -> Inv l h k s -> writer_ok l h k s w ->
  exists l' h' k', Inv l' h' k' s' /\ writer_ok l' h' k' s' w' /\ grows l h k l' h' k' /\
    (exists A B X, l = A ++ B /\ l' = A ++ X ++ B /\ length X = Nat.b2n b).
Proof.
  intros Hst HI Hw. inversion Hst as [key prev height s0 s0' Hkok Hkne Hstep|key prev height x s0 s0' Hstep
    |x prev i height s0 s0' Hlt Hstep|x prev i height s0 s0' Hstep|x prev height s0];
    subst; clear Hst; cbn [writer_ok] in Hw.
  - destruct (split_exists l k key (inv_sorted _ _ _ _ HI) (inv_ok _ _ _ _ HI) Hkok) as (A & B & HS).
    destruct (Insert_prepare_spec l h k s key A B HI HS) as (prev' & height' & s2 & E & HI2 & _ & Hh & Hp).
    rewrite E in Hstep. injection Hstep as <- <- <-. exists l, h, k. split; [done|]. split; [|split; [apply grows_refl|by exists [], l, []]].
    split; [done|]. split; [done|]. split; [|split; [done|by exists A, B]].
    rewrite (contents_filter _ _ _ _ HI), filter_all, Forall_map, Forall_forall in Hkne by done. done.
  - destruct Hw as (Hall & Hok & Hne & Hh & A & B & HS & Hp).
    destruct (Inv_new_node l h k s A B key height HI HS Hok Hne) as (s3 & E & HI3 & Hm & _ & (nd & End & Hnd)).
    rewrite E in Hstep. injection Hstep as <- <-. set (x := length (nodes s)) in *.
    destruct (nodup_parts _ _ _ _ _ _ _ HI3 eq_refl) as (HxA & HxB & _).
    assert (Hx : x ∉ l) by (destruct HS as [-> _ _]; set_solver).
    eexists _, _, _. split; [exact HI3|].
    split; [|split; [|exists A, B, [x]; split; [apply HS|done]]].
    + exists A, B. constructor; try done; [apply upd_same|lia|by exists nd|by apply prev_ok_upd| |lia].
      intros y Hy Hyx. rewrite upd_other by done. apply Hall. destruct HS as [-> _ _]. set_solver.
    + split; [|rewrite upd_other by set_solver; done]. intros y Hy. rewrite !upd_other by set_solver.
      split; [destruct HS as [-> _ _]; set_solver|]. done.
  - destruct Hw as (A & B & [El Hl Hh (nd & End & Hnd) Hp Ho Hpos]).
    destruct (Hp i ltac:(done)) as (z & Ez & Hz).
    destruct (Insert_link_own_spec l h k s A x B i prev z) as (s1 & E & HI1 & Hs1 & Hm1 & Hr1 & Hl1); try done.
    { exists nd. split; [done|lia]. }
    rewrite E in Hstep. injection Hstep as <-. exists l, h, k. split; [done|]. split; [|split; [apply grows_refl|by exists [], l, []]].
    exists A, B. split; [|done]. constructor; try done; [lia|].
    destruct (shape_node _ _ _ _ Hs1 End) as (nd' & ? & _ & ?). exists nd'. split; [done|lia].
  - destruct Hw as (A & B & [El Hl Hh (nd & End & Hnd) Hp Ho Hpos] & Hi & Hlk).
    destruct (Hp i ltac:(done)) as (z & Ez & Hz).
    destruct (Insert_link_publish_spec l h k s A x B i prev z) as (s1 & E & HI1 & Hs1 & Hm1 & Hr1); try done; [lia| |].
    { exists nd. split; [done|lia]. }
    destruct (nodup_parts _ _ _ _ _ _ _ HI El) as (HxA & HxB & _).
    rewrite E in Hstep. injection Hstep as <-. eexists _, _, _. split; [exact HI1|].
    split; [|split; [|by exists [], (A ++ x :: B), []]].
    + exists A, B. constructor; try done; [apply upd_same|lia| |by apply prev_ok_upd|].
      * destruct (shape_node _ _ _ _ Hs1 End) as (nd' & ? & _ & ?). exists nd'. split; [done|lia].
      * intros y Hy Hyx. rewrite upd_other by done. by apply Ho.
    + split; [|rewrite upd_other by set_solver; done]. intros y Hy. split; [done|]. split; [done|].
      unfold upd. destruct (decide (y = x)) as [->|]; lia.
  - destruct Hw as (A & B & [El Hl Hh (nd & End & Hnd) Hp Ho Hpos]). exists l, h, k. split; [done|].
    split; [|split; [apply grows_refl|by exists [], l, []]].
    intros y Hy. destruct (decide (y = x)) as [->|Hyx]; [lia|by apply Ho].
Qed.

(** * The reader *)

(** The key of the node a search returns. *)
Definition result_key s (r : option nat) : option Key := x ← r; node_key <$> nodes s !! x.

(** Rounds a search still needs when nothing is inserted. *)
Definition meas l (r : reader (Key := Key)) : nat :=
  match r with
  | RSeek _ x level => (length (after x (head_ :: l)) + level + 1)%nat
  | _ => 0%nat
  end.

Lemma find_not_before k target h A :
  Forall (before k target) A -> List.find (fun y => 0 <=? compare_ y target) (map k (filter (linked h) A)) = None.
Proof.
  induction 1 as [|x A Hx HA IH]; [done|]. rewrite filter_cons. destruct (decide (linked h x)); [|done].
  cbn [map List.find]. unfold LvSkipListInv.before in Hx. by destruct (Z.leb_spec 0 (compare_ (k x) target)); [lia|].
Qed.

Lemma find_app_None {V} (f : V -> bool) a b : List.find f a = None -> List.find f (a ++ b) = List.find f b.
Proof. induction a as [|x a IH]; [done|]. cbn [app List.find]. by destruct (f x). Qed.

Lemma filter_first h q :
  match first_at h 0 q with
  | Some y => exists b, filter (linked h) q = y :: b
  | None => filter (linked h) q = []
  end.
Proof.
  induction q as [|y q IH]; [done|]. rewrite filter_cons. cbn [first_at List.find].
  destruct (Nat.ltb_spec 0 (h y)), (decide (linked h y)) as [Hd|Hd]; try done; unfold linked in Hd; try lia.
  by eexists.
Qed.

(** Where a search is, the rest of the list is what has not been passed. *)
Lemma reader_split l h k s target x level :
  Inv l h k s -> reader_ok l h k (RSeek target x level) ->
  exists p q, head_ :: l = p ++ x :: q /\ after x (head_ :: l) = q /\ q ⊆ l /\
    exists A, l = A ++ q /\ Forall (before k target) A.
Proof.
  intros HI (Ht & Hx & Hl & Hb). pose proof (inv_nodup _ _ _ _ HI) as Hn.
  apply list_elem_of_split in Hx as (p & q & E). exists p, q. split; [done|].
  rewrite E in Hn. split.
  { rewrite E. apply after_split. apply NoDup_app in Hn as (_ & Hd & _). intros H. apply (Hd x H). set_solver. }
  destruct p as [|p0 p]; injection E as E1 E2.
  - subst. split; [done|]. by exists [].
  - subst p0 l. split; [set_solver|]. exists (p ++ [x]). split; [by rewrite <- app_assoc|].
    destruct Hb as [->|Hb]; [apply NoDup_cons in Hn as [Hn _]; set_solver|].
    apply Forall_app. split; [|by constructor]. apply Forall_forall. intros y Hy.
    pose proof (inv_sorted _ _ _ _ HI) as Hs. 
    pose proof (StronglySorted_app_1_elem_of _ _ _ y x Hs Hy ltac:(set_solver)) as H.
    unfold key_lt in H. unfold LvSkipListInv.before in *.
    apply (cmp_lt_trans (k y) (k x) target); try done; apply (inv_ok _ _ _ _ HI); set_solver.
Qed.

Lemma round_progress l h k s target x level :
  Inv l h k s -> reader_ok l h k (RSeek target x level) ->
  exists res, FindGreaterOrEqual_round compare_ target x level None s = Ret (res, None, s) /\
    match res with
    | Continue y level' =>
        reader_ok l h k (RSeek target y level') /\
        (meas l (RSeek target y level') < meas l (RSeek target x level))%nat
    | Done r =>
        result_key s r = List.find (fun y => 0 <=? compare_ y target) (contents s)
    end.
Proof.
  intros HI Hr. destruct (reader_split _ _ _ _ _ _ _ HI Hr) as (p & q & E & Ea & Hsub & A & El & HA).
  destruct Hr as (Ht & Hx & Hl & Hb). unfold FindGreaterOrEqual_round, bind.
  rewrite (link_In _ _ _ _ _ _ _ level HI E Hl). cbn [meas]. rewrite Ea.
  assert (Hstop : KeyIsAfterNode compare_ target (first_at h level q) s = Ret (false, s) \/
    exists y a b, q = a ++ y :: b /\ first_at h level q = Some y /\ (level < h y)%nat /\ before k target y /\
      KeyIsAfterNode compare_ target (first_at h level q) s = Ret (true, s)).
  { destruct (first_at h level q) as [y|] eqn:Ef; [|by left].
    destruct (first_at_Some _ _ _ _ Ef) as (a & b & Eq & Hy & _).
    unfold KeyIsAfterNode, bind, ret. rewrite (node_key_In _ _ _ _ _ HI) by (apply Hsub; rewrite Eq; set_solver).
    destruct (Z.ltb_spec (compare_ (k y) target) 0); [right|by left]. by exists y, a, b. }
  destruct Hstop as [Hstop|(y & a & b & Eq & Ef & Hy & Hyb & Hgo)].
  - rewrite Hstop. destruct level as [|level'].
    + eexists. split; [done|]. cbn beta iota.
      rewrite (contents_filter _ _ _ _ HI), El, filter_app, map_app, find_app_None by (by apply find_not_before).
      pose proof (filter_first h q) as Hf. unfold KeyIsAfterNode in Hstop.
      destruct (first_at h 0 q) as [y|] eqn:Ef; [|by rewrite Hf].
      destruct Hf as [b ->]. cbn [map List.find].
      assert (Hyl : y ∈ l) by (apply Hsub; by apply first_at_In in Ef).
      unfold bind, ret in Hstop. rewrite (node_key_In _ _ _ _ _ HI Hyl) in Hstop.
      destruct (inv_node _ _ _ _ HI y Hyl) as (nd & En & Ek & _). cbn [result_key mbind option_bind]. rewrite En. cbn.
      destruct (Z.leb_spec 0 (compare_ (k y) target)); [by rewrite Ek|].
      destruct (Z.ltb_spec (compare_ (k y) target) 0); [done|lia].
    + eexists. split; [done|]. split; [|rewrite Ea; lia]. split; [done|]. split; [done|]. split; [lia|done].
  - rewrite Hgo, Ef. eexists. split; [done|]. cbn [need ret]. split.
    + split; [done|]. assert (y ∈ l) by (apply Hsub; rewrite Eq; set_solver).
      split; [set_solver|]. split; [done|by right].
    + assert (Ey : after y (head_ :: l) = b).
      { rewrite E, Eq. change (p ++ x :: a ++ y :: b) with (p ++ (x :: a) ++ y :: b). rewrite app_assoc.
        apply after_split. pose proof (inv_nodup _ _ _ _ HI) as Hn. rewrite E, Eq in Hn.
        change (p ++ x :: a ++ y :: b) with (p ++ (x :: a) ++ y :: b) in Hn. rewrite app_assoc in Hn.
        apply NoDup_app in Hn as (_ & Hd & _). intros H. apply (Hd y H). set_solver. }
      rewrite Ey, Eq, length_app. simpl. lia.
Qed.

Lemma rstep_inv l h k s r r' :
  Inv l h k s -> reader_ok l h k r -> rstep compare_ ok s r r' -> reader_ok l h k r'.
Proof.
  intros HI Hr Hst. inversion Hst as [target Ht|target x level y level' E|target x level r0 E]; subst; try done.
  - split; [done|]. split; [set_solver|]. rewrite (inv_h0 _ _ _ _ HI). pose proof (inv_max _ _ _ _ HI).
    split; [lia|by left].
  - destruct (round_progress _ _ _ _ _ _ _ HI Hr) as (res & E' & Hres). rewrite E in E'.
    injection E' as <-. by destruct Hres.
Qed.

(** Every configuration a run reaches. *)
Definition config_ok (c : config) : Prop :=
  let '(w, r, s) := c in
  exists l h k, Inv l h k s /\ writer_ok l h k s w /\ reader_ok l h k r.

Lemma run_inv n m c c' :
  run compare_ ok n m c c' -> config_ok c -> config_ok c'.
Proof.
  induction 1 as [c|n m b c w r s w' s' _ IH Hst|n m c w r s r' _ IH Hst]; [done| |]; intros Hc.
  - destruct (IH Hc) as (l & h & k & HI & Hw & Hr).
    destruct (wstep_inv _ _ _ _ _ _ _ _ Hst HI Hw) as (l' & h' & k' & HI' & Hw' & Hg & _).
    exists l', h', k'. split; [done|]. split; [done|]. by apply (reader_stable l h k).
  - destruct (IH Hc) as (l & h & k & HI & Hw & Hr). exists l, h, k. split; [done|]. split; [done|].
    by apply (rstep_inv l h k s r).
Qed.

Lemma contents_grows l h k s l' h' k' s' key :
  Inv l h k s -> Inv l' h' k' s' -> grows l h k l' h' k' -> key ∈ contents s -> key ∈ contents s'.
Proof.
  intros HI HI' [Hg _]. rewrite (contents_filter _ _ _ _ HI), (contents_filter _ _ _ _ HI').
  intros Hk. apply list_elem_of_fmap in Hk as (x & -> & Hx). apply list_elem_of_filter in Hx as [Hl Hx].
  destruct (Hg x Hx) as (Hx' & Ek & Hh). apply list_elem_of_fmap. exists x. split; [done|].
  apply list_elem_of_filter. split; [|done]. unfold linked in *. lia.
Qed.

Lemma run_grows n m w r s w' r' s' key :
  run compare_ ok n m (w, r, s) (w', r', s') -> config_ok (w, r, s) -> key ∈ contents s -> key ∈ contents s'.
Proof.
  intros Hr Hc Hk. remember (w, r, s) as c eqn:Ec. remember (w', r', s') as c' eqn:Ec'.
  revert w' r' s' Ec'. induction Hr as [c|n m b c w1 r1 s1 w2 s2 Hrun IH Hst|n m c w1 r1 s1 r2 Hrun IH Hst];
    intros w' r' s' Ec'; simplify_eq.
  - done.
  - pose proof (run_inv _ _ _ _ Hrun Hc) as (l & h & k & HI & Hw & Hrd).
    destruct (wstep_inv _ _ _ _ _ _ _ _ Hst HI Hw) as (l' & h' & k' & HI' & _ & Hg & _).
    apply (contents_grows l h k s1 l' h' k'); try done. exact (IH eq_refl Hc _ _ _ eq_refl).
  - exact (IH eq_refl Hc _ _ _ eq_refl).
Qed.

(** Every step of the writer that has begun can be made. *)
Lemma writer_progress l h k s w :
  Inv l h k s -> writer_ok l h k s w -> w <> WIdle ->
  exists b w' s', wstep compare_ ok b (w, s) (w', s').
Proof.
  intros HI Hw Hne. destruct w as [|key prev height|x prev i height|x prev i height]; [done| | |].
  - eexists true, _, _. by apply w_new.
  - destruct Hw as (A & B & [El Hl Hh (nd & End & Hnd) Hp Ho Hpos]).
    destruct (decide (i = height)) as [->|Hi]; [eexists false, _, _; by apply w_done|].
    destruct (Hp i ltac:(lia)) as (z & Ez & Hz).
    destruct (Insert_link_own_spec l h k s A x B i prev z) as (s1 & E & _); try done; [exists nd; split; [done|lia]|].
    eexists false, _, _. apply w_link; [lia|exact E].
  - destruct Hw as (A & B & [El Hl Hh (nd & End & Hnd) Hp Ho Hpos] & Hi & Hlk).
    destruct (Hp i ltac:(lia)) as (z & Ez & Hz).
    destruct (Insert_link_publish_spec l h k s A x B i prev z) as (s1 & E & _); try done; [lia|exists nd; split; [done|lia]|].
    eexists false, _, _. by apply w_publish.
Qed.

Lemma contents_sorted l h k s :
  Inv l h k s -> StronglySorted (fun a b => compare_ a b < 0) (contents s).
Proof.
  intros HI. rewrite (contents_filter _ _ _ _ HI). pose proof (inv_sorted _ _ _ _ HI) as Hs. clear HI.
  induction Hs as [|x l Hs IH Hx]; [constructor|]. rewrite filter_cons.
  destruct (decide (linked h x)); [|done]. cbn [map]. constructor; [done|]. apply Forall_map, Forall_forall.
  intros y Hy. apply list_elem_of_filter in Hy as [_ Hy]. rewrite Forall_forall in Hx. by apply Hx.
Qed.

Lemma start_ok s : wf s -> config_ok (WIdle, RIdle, s).
Proof. intros (l & k & h & HI & Hh). by exists l, h, k. Qed.

(** C18: readers need no synchronisation. In every interleaving of one insertion
    after another with the rounds of a search, started on a well-formed list:
    the list is sorted at every moment and loses none of its keys; the writer is
    never stuck in an insertion; a search can always make its next round (it
    never follows an uninitialised link); and when it ends, the node it returns
    is the first key not less than its target in the list of that moment. *)
Theorem concurrent_search s0 n m w r s :
  wf s0 -> run compare_ ok n m (WIdle, RIdle, s0) (w, r, s) ->
  StronglySorted (fun a b => compare_ a b < 0) (contents s) /\
  (forall key, key ∈ contents s0 -> key ∈ contents s) /\
  (w <> WIdle -> exists b w' s', wstep compare_ ok b (w, s) (w', s')) /\
  (forall target x level, r = RSeek target x level -> exists r', rstep compare_ ok s r r') /\
  (forall target x level res, r = RSeek target x level -> rstep compare_ ok s r (RDone target res) ->
     result_key s res = List.find (fun y => 0 <=? compare_ y target) (contents s)).
Proof.
  intros Hw Hrun. pose proof (run_inv _ _ _ _ Hrun (start_ok s0 Hw)) as (l & h & k & HI & Hwr & Hr).
  split; [by apply (contents_sorted l h k)|].
  split; [intros key; by apply (run_grows _ _ _ _ _ _ _ _ _ Hrun (start_ok s0 Hw))|].
  split; [by apply (writer_progress l h k)|]. split.
  - intros target x level ->. destruct (round_progress _ _ _ _ _ _ _ HI Hr) as ([y level'|res] & E & _).
    + eexists. by apply r_round.
    + eexists. by apply r_done.
  - intros target x level res -> Hst.
    destruct (round_progress _ _ _ _ _ _ _ HI Hr) as (res' & E & Hres).
    inversion Hst as [| |? ? ? ? E']; subst. rewrite E in E'. injection E' as ->. exact Hres.
Qed.

(** * Waiting *)

(** Rounds left, counting the start. *)
Definition left l (r : reader (Key := Key)) : nat :=
  match r with RIdle => (length l + 13)%nat | _ => meas l r end.

Lemma after_grow x A X B :
  x ∉ X -> (length (after x (A ++ X ++ B)) <= length (after x (A ++ B)) + length X)%nat.
Proof.
  intros Hx. induction A as [|y A IH]; cbn [app after].
  - rewrite after_app_notin by done. lia.
  - destruct (decide (y = x)); [rewrite !length_app; lia|done].
Qed.

Lemma left_writer l h k l' h' k' s s' b A B X r :
  Inv l h k s -> Inv l' h' k' s' -> reader_ok l h k r ->
  l = A ++ B -> l' = A ++ X ++ B -> length X = Nat.b2n b ->
  (left l' r <= left l r + Nat.b2n b)%nat.
Proof.
  intros HI HI' Hr -> -> HX. destruct r as [|target x level|]; cbn [left meas]; [rewrite !length_app; lia| |lia].
  destruct Hr as (_ & Hx & _ & _).
  pose proof (after_grow x (head_ :: A) X B) as H. cbn [app] in H.
  specialize (H ltac:(intros HxX; pose proof (inv_nodup _ _ _ _ HI') as Hn;
    rewrite app_comm_cons in Hn; apply NoDup_app in Hn as (_ & Hd & Hn);
    apply NoDup_app in Hn as (_ & Hd' & _);
    apply elem_of_cons in Hx as [-> | Hx]; [apply (Hd head_); set_solver|];
    apply elem_of_app in Hx as [Hx|Hx]; [apply (Hd x); set_solver|by apply (Hd' x)])). lia.
Qed.

Lemma left_reader l h k s r r' :
  Inv l h k s -> reader_ok l h k r -> rstep compare_ ok s r r' -> (left l r' < left l r)%nat.
Proof.
  intros HI Hr Hst. inversion Hst as [target Ht|target x level y level' E|target x level r0 E]; subst.
  - cbn [left meas after]. pose proof (inv_max _ _ _ _ HI) as Hm.
    destruct (decide (head_ = head_)); [|done]. unfold kMaxHeight in Hm. lia.
  - destruct (round_progress _ _ _ _ _ _ _ HI Hr) as (res & E' & Hres). rewrite E in E'.
    injection E' as <-. by destruct Hres.
  - cbn [left meas]. lia.
Qed.

Lemma run_left n m c c' :
  run compare_ ok n m c c' -> forall l0 h0 k0,
  (let '(w, r, s) := c in Inv l0 h0 k0 s /\ writer_ok l0 h0 k0 s w /\ reader_ok l0 h0 k0 r) ->
  exists l h k, (let '(w, r, s) := c' in Inv l h k s /\ writer_ok l h k s w /\ reader_ok l h k r) /\
    (n + left l c'.1.2 <= left l0 c.1.2 + m)%nat.
Proof.
  induction 1 as [c|n m b c w r s w' s' _ IH Hst|n m c w r s r' _ IH Hst]; intros l0 h0 k0 H0.
  - exists l0, h0, k0. split; [done|lia].
  - destruct (IH _ _ _ H0) as (l & h & k & (HI & Hw & Hr) & Hle). cbn [fst snd] in *.
    destruct (wstep_inv _ _ _ _ _ _ _ _ Hst HI Hw) as (l' & h' & k' & HI' & Hw' & Hg & A & B & X & El & El' & HX).
    exists l', h', k'. split; [split; [done|split; [done|by apply (reader_stable l h k)]]|].
    pose proof (left_writer l h k l' h' k' s s' b A B X r HI HI' Hr El El' HX). lia.
  - destruct (IH _ _ _ H0) as (l & h & k & (HI & Hw & Hr) & Hle). cbn [fst snd] in *.
    exists l, h, k. split; [split; [done|split; [done|by apply (rstep_inv l h k s r)]]|].
    pose proof (left_reader l h k s r r' HI Hr Hst). lia.
Qed.

(** C29: a search ends whatever the writer does: it makes at most as many rounds
    as there were keys when it started and nodes allocated since, and thirteen
    more; and as long as it has not ended, its next round can be made. *)
Theorem search_wait_free s0 n m w r s :
  wf s0 -> run compare_ ok n m (WIdle, RIdle, s0) (w, r, s) ->
  (n <= length (contents s0) + m + 13)%nat /\
  ((exists target res, r = RDone target res) \/ r = RIdle \/ exists r', rstep compare_ ok s r r').
Proof.
  intros (l0 & k0 & h0 & HI0 & Hh0) Hrun.
  destruct (run_left _ _ _ _ Hrun l0 h0 k0) as (l & h & k & (HI & Hw & Hr) & Hle); [by split|].
  cbn [fst snd left] in Hle. rewrite (contents_filter _ _ _ _ HI0), length_map, filter_all by done.
  split; [lia|]. destruct r as [|target x level|target res]; [by right; left| |by left; eexists _, _].
  right; right. destruct (round_progress _ _ _ _ _ _ _ HI Hr) as ([y level'|res] & E & _);
    eexists; [by apply r_round|by apply r_done].
Qed.
End Safety.

(** A search for a key that starts on the empty list and whose first round comes
    after the insertion has published the key at the lowest level. *)
Definition demo_start : SkipList Slice := SkipList_new [].

(** One more step of the writer after the run [H]. *)
Ltac writer_step H H' b tac :=
  match type of H with
  | run ?c ?o _ _ _ (?w, _, ?s) =>
      let W := fresh "W" in
      eassert (W : wstep c o b (w, s) (_, _)) by tac;
      pose proof (run_writer _ _ _ _ _ _ _ _ _ _ _ H W) as H'
  end.

Lemma demo_run :
  exists w s, run Slice_compare is_bytes 1 1 (WIdle, RIdle, demo_start)
    (w, RSeek (chars "k") head_ 0, s) /\ contents s = [chars "k"].
Proof.
  assert (H0 : run Slice_compare is_bytes 1 0 (WIdle, RIdle, demo_start) (WIdle, RSeek (chars "k") head_ 0, demo_start)).
  { eapply run_reader; [apply run_refl|]. apply (r_start _ _ demo_start). solve_bytes. }
  writer_step H0 H1 false ltac:(eapply (w_prepare _ _ (chars "k")); [solve_bytes|constructor|vm_compute; reflexivity]).
  writer_step H1 H2 true ltac:(eapply w_new; vm_compute; reflexivity).
  writer_step H2 H3 false ltac:(eapply w_link; [vm_compute; lia|vm_compute; reflexivity]).
  writer_step H3 H4 false ltac:(eapply w_publish; vm_compute; reflexivity).
  eexists _, _. split; [exact H4|]. vm_compute. reflexivity.
Qed.

Lemma demo_wf : wf (compare_ := Slice_compare) (ok := is_bytes) demo_start.
Proof. apply new_wf. Qed.

Lemma concurrent_search_witness :
  exists w s r', run Slice_compare is_bytes 1 1 (WIdle, RIdle, demo_start)
    (w, RSeek (chars "k") head_ 0, s) /\ contents s = [chars "k"] /\
    rstep Slice_compare is_bytes s (RSeek (chars "k") head_ 0) r'.
Proof.
  destruct demo_run as (w & s & Hrun & E). exists w, s.
  destruct (concurrent_search _ _ _ _ _ _ demo_wf Hrun) as (_ & _ & _ & H & _).
  destruct (H _ _ _ eq_refl) as [r' Hr']. exists r'. exact (conj Hrun (conj E Hr')).
Defined.

Lemma search_wait_free_witness :
  exists w s, run Slice_compare is_bytes 1 1 (WIdle, RIdle, demo_start)
    (w, RSeek (chars "k") head_ 0, s) /\ (1 <= length (contents demo_start) + 1 + 13)%nat.
Proof.
  destruct demo_run as (w & s & Hrun & _). exists w, s. split; [exact Hrun|].
  exact (proj1 (search_wait_free _ _ _ _ _ _ demo_wf Hrun)).
Defined.
