(* ===== verification/LvArena.v ===== *)
(** The arena the memtable allocates from ([util/arena.h], [util/arena.cc]), and
    the theorem that what it hands out never overlaps.

    An address is a number. [new char[n]] is code of the C++ library: the
    operations take the address it returns, when they call it, as an argument. *)

From stdpp Require Import base list gmap strings.
From Stdlib Require Import ZArith Lia.
From S2P Require Import Prelude.

Definition kBlockSize : Z := 4096.

(** [blocks_] has the address and the size of each block. *)
Record Arena : Type := {
  alloc_ptr_ : Z;
  alloc_bytes_remaining_ : Z;
  blocks_ : list (Z * Z);
  memory_usage_ : Z
}.

Definition Arena_new : Arena :=
  {| alloc_ptr_ := 0; alloc_bytes_remaining_ := 0; blocks_ := []; memory_usage_ := 0 |}.

Definition Arena_MemoryUsage (a : Arena) : Z := memory_usage_ a.

Definition AllocateNewBlock (new block_bytes : Z) (a : Arena) : Z * Arena :=
  let result := new in
  (result, {| alloc_ptr_ := alloc_ptr_ a; alloc_bytes_remaining_ := alloc_bytes_remaining_ a;
              blocks_ := blocks_ a ++ [(result, block_bytes)];
              memory_usage_ := u64 (memory_usage_ a + (block_bytes + 8)) |}).

Definition AllocateFallback (new bytes : Z) (a : Arena) : Z * Arena :=
  if bytes >? kBlockSize / 4 then AllocateNewBlock new bytes a
  else
    let '(ptr, a) := AllocateNewBlock new kBlockSize a in
    (ptr, {| alloc_ptr_ := ptr + bytes; alloc_bytes_remaining_ := kBlockSize - bytes;
             blocks_ := blocks_ a; memory_usage_ := memory_usage_ a |}).

Definition Arena_Allocate (new bytes : Z) (a : Arena) : Z * Arena :=
  if bytes <=? alloc_bytes_remaining_ a then
    (alloc_ptr_ a,
     {| alloc_ptr_ := alloc_ptr_ a + bytes;
        alloc_bytes_remaining_ := alloc_bytes_remaining_ a - bytes;
        blocks_ := blocks_ a; memory_usage_ := memory_usage_ a |})
  else AllocateFallback new bytes a.

Definition AllocateAligned (new bytes : Z) (a : Arena) : Z * Arena :=
  let align := 8 in
  let current_mod := Z.land (alloc_ptr_ a) (align - 1) in
  let slop := if current_mod =? 0 then 0 else align - current_mod in
  let needed := u64 (bytes + slop) in
  if needed <=? alloc_bytes_remaining_ a then
    (alloc_ptr_ a + slop,
     {| alloc_ptr_ := alloc_ptr_ a + needed;
        alloc_bytes_remaining_ := alloc_bytes_remaining_ a - needed;
        blocks_ := blocks_ a; memory_usage_ := memory_usage_ a |})
  else AllocateFallback new bytes a.

(** * What the arena hands out *)

(** A region: an address and a number of bytes. *)
Definition disjoint_regions (r1 r2 : Z * Z) : Prop := r1.1 + r1.2 <= r2.1 \/ r2.1 + r2.2 <= r1.1.

Definition inside (r b : Z * Z) : Prop := b.1 <= r.1 /\ r.1 + r.2 <= b.1 + b.2.

(** The size of the block an allocation that does not fit asks for. *)
Definition fallback_size (bytes : Z) : Z := if bytes >? kBlockSize / 4 then bytes else kBlockSize.

(** What [new char[n]] returns: a fresh region, aligned for any object. *)
Record new_ok (a : Arena) (new n : Z) : Prop := {
  new_fresh b : b ∈ blocks_ a -> disjoint_regions (new, n) b;
  new_aligned : new mod 8 = 0;
  new_pos : 0 < new
}.

(** The arenas a program can reach, with the regions it was given and whether
    each was asked for with alignment. *)
Inductive arena_run : list (bool * (Z * Z)) -> Arena -> Prop :=
| arena_start : arena_run [] Arena_new
| arena_allocate regions a new bytes :
    arena_run regions a -> 0 < bytes < 2 ^ 62 -> new_ok a new (fallback_size bytes) ->
    arena_run ((false, ((Arena_Allocate new bytes a).1, bytes)) :: regions) (Arena_Allocate new bytes a).2
| arena_allocate_aligned regions a new bytes :
    arena_run regions a -> 0 < bytes < 2 ^ 62 -> new_ok a new (fallback_size bytes) ->
    arena_run ((true, ((AllocateAligned new bytes a).1, bytes)) :: regions) (AllocateAligned new bytes a).2.

Definition sum_usage (blocks : list (Z * Z)) : Z := fold_right (fun b acc => b.2 + 8 + acc) 0 blocks.

(** The invariant: regions lie in blocks and do not overlap each other or what
    is left of the current block. *)
Record arena_inv (regions : list (bool * (Z * Z))) (a : Arena) : Prop := {
  ar_remaining : 0 <= alloc_bytes_remaining_ a <= kBlockSize;
  ar_rest : alloc_bytes_remaining_ a = 0 \/
    exists b, b ∈ blocks_ a /\ inside (alloc_ptr_ a, alloc_bytes_remaining_ a) b;
  ar_inside r : r ∈ regions -> exists b, b ∈ blocks_ a /\ inside r.2 b;
  ar_apart r : r ∈ regions -> disjoint_regions r.2 (alloc_ptr_ a, alloc_bytes_remaining_ a) \/ alloc_bytes_remaining_ a = 0;
  ar_disjoint : forall i j r1 r2, regions !! i = Some r1 -> regions !! j = Some r2 -> i <> j -> disjoint_regions r1.2 r2.2;
  ar_aligned r : r ∈ regions -> r.1 = true -> r.2.1 mod 8 = 0;
  ar_positive r : r ∈ regions -> 0 < r.2.2;
  ar_usage : memory_usage_ a = u64 (sum_usage (blocks_ a))
}.

Lemma disjoint_sym r1 r2 : disjoint_regions r1 r2 -> disjoint_regions r2 r1.
Proof. unfold disjoint_regions. lia. Qed.

(** Giving out a region that is apart from the others. *)
Lemma arena_give regions a a' r :
  arena_inv regions a -> 
  0 <= alloc_bytes_remaining_ a' <= kBlockSize ->
  (alloc_bytes_remaining_ a' = 0 \/
    exists b, b ∈ blocks_ a' /\ inside (alloc_ptr_ a', alloc_bytes_remaining_ a') b) ->
  (forall b, b ∈ blocks_ a -> b ∈ blocks_ a') ->
  (exists b, b ∈ blocks_ a' /\ inside r.2 b) ->
  (forall r', r' ∈ regions -> disjoint_regions r'.2 r.2) ->
  (forall r', r' ∈ r :: regions -> disjoint_regions r'.2 (alloc_ptr_ a', alloc_bytes_remaining_ a') \/ alloc_bytes_remaining_ a' = 0) ->
  (r.1 = true -> r.2.1 mod 8 = 0) -> 0 < r.2.2 ->
  memory_usage_ a' = u64 (sum_usage (blocks_ a')) ->
  arena_inv (r :: regions) a'.
Proof.
  intros HI Hrem Hrest Hb Hin Hdis Hap Hal Hpos Hu. constructor; try done.
  - intros r' Hr'. apply elem_of_cons in Hr' as [-> | Hr']; [done|].
    destruct (ar_inside _ _ HI r' Hr') as (b & ? & ?). exists b. auto.
  - intros [|i] [|j] r1 r2 H1 H2 Hij; simplify_eq/=.
    + apply disjoint_sym, Hdis. by apply list_elem_of_lookup_2 in H2.
    + apply Hdis. by apply list_elem_of_lookup_2 in H1.
    + apply (ar_disjoint _ _ HI i j); [done|done|lia].
  - intros r' Hr'. apply elem_of_cons in Hr' as [-> | Hr']; [done|by apply (ar_aligned _ _ HI)].
  - intros r' Hr'. apply elem_of_cons in Hr' as [-> | Hr']; [done|by apply (ar_positive _ _ HI)].
Qed.

Lemma sum_usage_app b l : u64 (u64 (sum_usage l) + (b.2 + 8)) = u64 (sum_usage (l ++ [b])).
Proof.
  rewrite wrap_add_idemp_l. f_equal. induction l as [|x l IH]; simpl in *; lia.
Qed.

(** A region inside a fresh block. *)
Lemma arena_fresh regions a new n r :
  arena_inv regions a -> new_ok a new n -> inside r (new, n) -> 
  forall r', r' ∈ regions -> disjoint_regions r'.2 r.
Proof.
  intros HI Hn Hr r' Hr'. destruct (ar_inside _ _ HI r' Hr') as (b & Hb & Hin).
  pose proof (new_fresh _ _ _ Hn b Hb) as Hd. pose proof (ar_positive _ _ HI r' Hr').
  unfold disjoint_regions, inside in *. cbn [fst snd] in *. lia.
Qed.

Lemma fallback_inv regions a new bytes tag :
  arena_inv regions a -> 0 < bytes < 2 ^ 62 -> new_ok a new (fallback_size bytes) ->
  arena_inv ((tag, ((AllocateFallback new bytes a).1, bytes)) :: regions) (AllocateFallback new bytes a).2.
Proof.
  intros HI Hb Hn. unfold AllocateFallback, fallback_size in *. change (kBlockSize / 4) with 1024 in *.
  pose proof (new_aligned _ _ _ Hn). pose proof (ar_remaining _ _ HI) as Hrem.
  destruct (Z.gtb_spec bytes 1024); cbn [AllocateNewBlock fst snd alloc_ptr_ alloc_bytes_remaining_ blocks_ memory_usage_].
  - apply (arena_give regions a); cbn [AllocateNewBlock fst snd alloc_ptr_ alloc_bytes_remaining_ blocks_ memory_usage_]; try done; try lia.
    + destruct (ar_rest _ _ HI) as [|(b & ? & ?)]; [by left|right]. exists b. split; [set_solver|done].
    + set_solver.
    + exists (new, bytes). split; [set_solver|]. split; simpl; lia.
    + apply (arena_fresh _ _ _ _ _ HI Hn). split; simpl; lia.
    + intros r' Hr'. apply elem_of_cons in Hr' as [-> | Hr']; [|by apply (ar_apart _ _ HI)].
      destruct (ar_rest _ _ HI) as [|(b & Hbin & Hin)]; [by right|]. 
      pose proof (new_fresh _ _ _ Hn b Hbin) as Hd.
      unfold disjoint_regions, inside in *. cbn [fst snd] in *. lia.
    + rewrite (ar_usage _ _ HI). by apply (sum_usage_app (new, bytes)).
  - assert (HK : kBlockSize = 4096) by done.
    apply (arena_give regions a); cbn [AllocateNewBlock fst snd alloc_ptr_ alloc_bytes_remaining_ blocks_ memory_usage_]; try done; try lia.
    + right. exists (new, kBlockSize). split; [set_solver|]. split; simpl; lia.
    + set_solver.
    + exists (new, kBlockSize). split; [set_solver|]. split; simpl; lia.
    + apply (arena_fresh _ _ _ _ _ HI Hn). split; simpl; lia.
    + intros r' Hr'. left. apply elem_of_cons in Hr' as [-> | Hr'].
      * unfold disjoint_regions. simpl. lia.
      * apply (arena_fresh _ _ _ _ _ HI Hn); [split; simpl; lia|done].
    + rewrite (ar_usage _ _ HI). by apply (sum_usage_app (new, kBlockSize)).
Qed.

(** Taking [n] bytes, of which the last [bytes] are given out, off what is left. *)
Lemma take_inv regions a tag slop bytes :
  arena_inv regions a -> 0 < bytes -> 0 <= slop -> bytes + slop <= alloc_bytes_remaining_ a ->
  (tag = true -> (alloc_ptr_ a + slop) mod 8 = 0) ->
  arena_inv ((tag, (alloc_ptr_ a + slop, bytes)) :: regions)
    {| alloc_ptr_ := alloc_ptr_ a + (bytes + slop);
       alloc_bytes_remaining_ := alloc_bytes_remaining_ a - (bytes + slop);
       blocks_ := blocks_ a; memory_usage_ := memory_usage_ a |}.
Proof.
  intros HI Hb Hs Hle Hal. pose proof (ar_remaining _ _ HI) as Hrem.
  destruct (ar_rest _ _ HI) as [|(b & Hbin & Hin)]; [lia|]. unfold inside in Hin. cbn [fst snd] in Hin.
  assert (Hap : forall r, r ∈ regions -> disjoint_regions r.2 (alloc_ptr_ a, alloc_bytes_remaining_ a)).
  { intros r Hr. destruct (ar_apart _ _ HI r Hr); [done|lia]. }
  apply (arena_give regions a); cbn [alloc_ptr_ alloc_bytes_remaining_ blocks_ memory_usage_ fst snd]; try done; try lia.
  - right. exists b. split; [done|]. unfold inside. cbn [fst snd]. lia.
  - exists b. split; [done|]. unfold inside. cbn [fst snd]. lia.
  - intros r' Hr'. specialize (Hap r' Hr'). unfold disjoint_regions in *. cbn [fst snd] in *. lia.
  - intros r' Hr'. left. apply elem_of_cons in Hr' as [-> | Hr'].
    + unfold disjoint_regions. cbn [fst snd]. lia.
    + specialize (Hap r' Hr'). unfold disjoint_regions in *. cbn [fst snd] in *. lia.
  - apply (ar_usage _ _ HI).
Qed.

Lemma slop_spec p :
  let slop := if Z.land p 7 =? 0 then 0 else 8 - Z.land p 7 in
  0 <= slop < 8 /\ (p + slop) mod 8 = 0.
Proof.
  cbv zeta. rewrite (land_mask p 3 ltac:(lia) : Z.land p 7 = p mod 8).
  destruct (Z.eqb_spec (p mod 8) 0) as [E|E].
  - by rewrite Z.add_0_r.
  - pose proof (Z.mod_pos_bound p 8). split; [lia|].
    replace (p + (8 - p mod 8)) with ((p / 8 + 1) * 8) by (pose proof (Z.div_mod p 8); lia).
    apply Z_mod_mult.
Qed.

Lemma arena_run_inv regions a : arena_run regions a -> arena_inv regions a.
Proof.
  induction 1 as [|regions a new bytes _ IH Hb Hn|regions a new bytes _ IH Hb Hn].
  - constructor; cbn; try set_solver; try lia. unfold kBlockSize. lia.
  - unfold Arena_Allocate. destruct (Z.leb_spec bytes (alloc_bytes_remaining_ a)); [|by apply fallback_inv].
    cbn [fst snd]. pose proof (take_inv regions a false 0 bytes IH ltac:(lia) ltac:(lia) ltac:(lia) ltac:(done)) as H0.
    by rewrite !Z.add_0_r in H0.
  - unfold AllocateAligned. change (8 - 1) with 7. destruct (slop_spec (alloc_ptr_ a)) as [Hs Hal].
    set (slop := if _ =? 0 then 0 else _) in *. cbv zeta. rewrite wrap_small by lia.
    destruct (Z.leb_spec (bytes + slop) (alloc_bytes_remaining_ a)); [|by apply fallback_inv].
    apply take_inv; try done; lia.
Qed.

(** C33: whatever sequence of [Allocate] and [AllocateAligned] a program makes,
    the regions it is given never overlap and each lies within one block that
    the arena owns; those asked for with alignment are aligned to eight bytes
    (the assertion of [AllocateAligned]), through either path; and
    [MemoryUsage] is the sum of the sizes of the blocks and of a pointer for
    each. *)
Theorem Arena_regions regions a :
  arena_run regions a ->
  (forall i j r1 r2, regions !! i = Some r1 -> regions !! j = Some r2 -> i <> j ->
     disjoint_regions r1.2 r2.2) /\
  (forall r, r ∈ regions ->
     (exists b, b ∈ blocks_ a /\ inside r.2 b) /\ (r.1 = true -> r.2.1 mod 8 = 0)) /\
  Arena_MemoryUsage a = u64 (sum_usage (blocks_ a)).
Proof.
  intros H. apply arena_run_inv in H as HI. split; [apply (ar_disjoint _ _ HI)|].
  split; [|apply (ar_usage _ _ HI)]. intros r Hr. split; [by apply (ar_inside _ _ HI)|by apply (ar_aligned _ _ HI)].
Qed.

Lemma Arena_regions_witness :
  exists a, arena_run [(true, (4104, 24)); (false, (4096, 5))] a /\
    disjoint_regions (4104, 24) (4096, 5) /\ Arena_MemoryUsage a = 4104.
Proof.
  assert (H1 : arena_run [(false, (4096, 5))] (Arena_Allocate 4096 5 Arena_new).2).
  { apply (arena_allocate [] Arena_new 4096 5); [apply arena_start|lia|].
    constructor; [set_solver|done|lia]. }
  assert (H2 : arena_run [(true, (4104, 24)); (false, (4096, 5))]
    (AllocateAligned 16384 24 (Arena_Allocate 4096 5 Arena_new).2).2).
  { apply (arena_allocate_aligned [(false, (4096, 5))] (Arena_Allocate 4096 5 Arena_new).2 16384 24); [exact H1|lia|].
    constructor; [|done|lia]. intros b Hb. cbn in Hb. apply list_elem_of_singleton in Hb as ->.
    right. vm_compute. done. }
  eexists. split; [exact H2|]. destruct (Arena_regions _ _ H2) as (Hd & _ & Hu).
  split; [exact (Hd 0%nat 1%nat _ _ eq_refl eq_refl ltac:(done))|]. rewrite Hu. by vm_compute.
Defined.
