(* ===== verification/LvMemTable.v ===== *)
(** The memtable ([db/memtable.h], [db/memtable.cc]): encoded entries in a skip
    list ordered by their internal keys.

    The skip list's keys are [const char*]: here they are the bytes of the
    entry they point to. *)

From stdpp Require Import base list gmap strings sorting.
From Stdlib Require Import ZArith Lia.
From S2P Require Import Prelude LvSlice LvCoding LvBloom LvLogging LvFormat LvSkipList LvSkipListInv LvSkipListProps LvSkipListSpec.

(** [GetVarint32Ptr(p, p + 5, &len)]: the length, and the bytes from the pointer
    returned. *)
Definition GetVarint32Ptr5 (p : list Z) : option (Z * list Z) :=
  '(len, q) ← GetVarint32Ptr (take 5 p);
  Some (len, drop (length (take 5 p) - length q) p).

(** The static [GetLengthPrefixedSlice(data)] of memtable.cc, which assumes that
    the length is not corrupted. *)
Definition GetLengthPrefixedSlice_at (data : list Z) : Slice :=
  match GetVarint32Ptr5 data with
  | Some (len, p) => take (Z.to_nat len) p
  | None => []
  end.

Section MemTable.
(** The user comparator inside [comparator_.comparator]. *)
Variable user_comparator : Comparator.

(** [MemTable::KeyComparator::operator()]. *)
Definition KeyComparator (aptr bptr : list Z) : Z :=
  let a := GetLengthPrefixedSlice_at aptr in
  let b := GetLengthPrefixedSlice_at bptr in
  Compare (InternalKeyComparator user_comparator) a b.

Definition Table : Type := SkipList Slice.

(** [refs_] and [table_]; the arena is modelled in LvArena.v. *)
Record MemTable : Type := { refs_ : Z; table_ : Table }.

(** The constructor; [NewNode(0)] makes the head with a null key. *)
Definition MemTable_new : MemTable := {| refs_ := 0; table_ := SkipList_new [] |}.

Definition MemTable_Ref (m : MemTable) : MemTable := {| refs_ := refs_ m + 1; table_ := table_ m |}.

(** [None]: the memtable deleted itself. *)
Definition MemTable_Unref (m : MemTable) : option MemTable :=
  let refs := refs_ m - 1 in
  if refs <=? 0 then None else Some {| refs_ := refs; table_ := table_ m |}.

(** An operation of [table_]. *)
Definition on_table {A} (c : M Table A) : M MemTable A :=
  fun m => match c (table_ m) with
           | Ret (a, t) => Ret (a, {| refs_ := refs_ m; table_ := t |})
           | Undef => Undef
           | NoFuel => NoFuel
           end.

(** The size of the buffer [Add] allocates. *)
Definition encoded_len (key value : Slice) : Z :=
  let internal_key_size := size key + 8 in
  VarintLength internal_key_size + internal_key_size + VarintLength (size value) + size value.

(** What [Add] writes to it. *)
Definition encode_entry (s : Z) (type : ValueType) (key value : Slice) : Slice :=
  EncodeVarint32 (u32 (size key + 8)) ++ key
  ++ EncodeFixed64 (Z.lor (u64 (Z.shiftl s 8)) (ValueType_val type))
  ++ EncodeVarint32 (u32 (size value)) ++ value.

Definition MemTable_Add (s : Z) (type : ValueType) (key value : Slice) : M MemTable unit :=
  on_table (Insert KeyComparator (encode_entry s type key value)).

(** [Get]: nothing when it returns [false], else the value assigned to [*value]
    or the status assigned to [*s]. *)
Definition MemTable_Get (key : LookupKey) : M MemTable (option (Slice + Status)) :=
  let memkey := LookupKey_memtable_key key in
  let* iter := on_table (Iterator_Seek KeyComparator memkey) in
  if Iterator_Valid iter then
    let* entry := on_table (Iterator_key iter) in
    let* '(key_length, key_ptr) := need (GetVarint32Ptr5 entry) in
    if Compare user_comparator (take (Z.to_nat (key_length - 8)) key_ptr) (LookupKey_user_key key) =? 0
    then
      let tag := DecodeFixed64 (drop (Z.to_nat (key_length - 8)) key_ptr) in
      let t := Z.land tag 0xff in
      if t =? ValueType_val kTypeValue then
        let v := GetLengthPrefixedSlice_at (drop (Z.to_nat key_length) key_ptr) in
        ret (Some (inl v))
      else if t =? ValueType_val kTypeDeletion then ret (Some (inr (Status_NotFound [] [])))
      else ret None
    else ret None
  else ret None.

(** * Iterators *)

(** [EncodeKey]: what [*scratch] then holds. *)
Definition EncodeKey (target : Slice) : Slice := PutVarint32 [] (u32 (size target)) ++ target.

Definition MemTableIterator_Valid (iter : option nat) : bool := Iterator_Valid iter.
Definition MemTableIterator_Seek (k : Slice) : M MemTable (option nat) :=
  on_table (Iterator_Seek KeyComparator (EncodeKey k)).
Definition MemTableIterator_SeekToFirst : M MemTable (option nat) := on_table Iterator_SeekToFirst.
Definition MemTableIterator_SeekToLast : M MemTable (option nat) := on_table Iterator_SeekToLast.
Definition MemTableIterator_Next (iter : option nat) : M MemTable (option nat) :=
  on_table (Iterator_Next iter).
Definition MemTableIterator_Prev (iter : option nat) : M MemTable (option nat) :=
  on_table (Iterator_Prev KeyComparator iter).
Definition MemTableIterator_key (iter : option nat) : M MemTable Slice :=
  let* k := on_table (Iterator_key iter) in ret (GetLengthPrefixedSlice_at k).

(** [key_slice.data() + key_slice.size()] is what follows the key in the entry. *)
Definition MemTableIterator_value (iter : option nat) : M MemTable Slice :=
  let* k := on_table (Iterator_key iter) in
  let* '(len, p) := need (GetVarint32Ptr5 k) in
  ret (GetLengthPrefixedSlice_at (drop (Z.to_nat len) p)).
End MemTable.

(** * Properties

    The memtable is a map from user keys and sequence numbers to values: what
    [Get] finds after any sequence of [Add]s, and the bytes of entries. *)

(** * Entries *)

Record Entry : Type := { e_key : Slice; e_seq : Z; e_type : ValueType; e_value : Slice }.

Definition e_ikey (e : Entry) : Slice := InternalKey (e_key e) (e_seq e) (e_type e).

Definition encode (e : Entry) : Slice := encode_entry (e_seq e) (e_type e) (e_key e) (e_value e).

Lemma encode_eq e :
  size (e_key e) + 8 < 2 ^ 32 -> size (e_value e) < 2 ^ 32 ->
  encode e = PutLengthPrefixedSlice [] (e_ikey e) ++ PutLengthPrefixedSlice [] (e_value e).
Proof.
  intros Hk Hv. unfold encode, encode_entry, PutLengthPrefixedSlice, PutVarint32, e_ikey.
  rewrite !app_nil_l. assert (E : size (InternalKey (e_key e) (e_seq e) (e_type e)) = size (e_key e) + 8)
    by (unfold size; rewrite InternalKey_length; lia).
  rewrite E, InternalKey_eq, <- !app_assoc. done.
Qed.

(** Reading a length-prefixed string that other bytes follow. *)
Lemma read_prefixed s rest :
  size s < 2 ^ 32 ->
  GetVarint32Ptr5 (PutLengthPrefixedSlice [] s ++ rest) = Some (size s, s ++ rest) /\
  GetLengthPrefixedSlice_at (PutLengthPrefixedSlice [] s ++ rest) = s.
Proof.
  intros Hs. pose proof (size_nonneg s).
  assert (E : GetVarint32Ptr5 (PutLengthPrefixedSlice [] s ++ rest) = Some (size s, s ++ rest)).
  { unfold GetVarint32Ptr5, PutLengthPrefixedSlice, PutVarint32. rewrite app_nil_l, <- app_assoc, wrap_small by lia.
    pose proof (EncodeVarint32_length (size s) ltac:(lia)) as Hl. set (v := EncodeVarint32 (size s)) in *.
    rewrite take_app_ge by lia. set (t := take _ _).
    assert (Ev : GetVarint32Ptr (v ++ t) = Some (size s, t)) by (unfold v; apply GetVarint32_app; lia).
    rewrite Ev. cbn [mbind option_bind]. do 2 f_equal. rewrite length_app.
    replace (_ - _)%nat with (length v) by lia. apply drop_app_length. }
  split; [done|]. unfold GetLengthPrefixedSlice_at. rewrite E. unfold size. rewrite Nat2Z.id. apply take_app_length.
Qed.

Section Props.
Context {ucmp : Comparator} {ok : Slice -> Prop} `{L : ComparatorLaws ucmp ok}.

Let C := InternalKeyComparator ucmp.

(** Entries and lookup keys: a prefixed internal key, and what follows. *)
Definition entry_ok (p : Slice) : Prop :=
  exists k rest, p = PutLengthPrefixedSlice [] k ++ rest /\ size k < 2 ^ 32 /\ internal_ok ok k.

Lemma KeyComparator_prefixed a b r1 r2 :
  size a < 2 ^ 32 -> size b < 2 ^ 32 ->
  KeyComparator ucmp (PutLengthPrefixedSlice [] a ++ r1) (PutLengthPrefixedSlice [] b ++ r2) = Compare C a b.
Proof.
  intros Ha Hb. unfold KeyComparator. by rewrite (proj2 (read_prefixed a r1 Ha)), (proj2 (read_prefixed b r2 Hb)).
Qed.

#[export] Instance KeyComparator_laws : OrderLaws (KeyComparator ucmp) entry_ok.
Proof.
  constructor.
  - intros ? ? (a & r1 & -> & Ha & Oa) (b & r2 & -> & Hb & Ob). rewrite !KeyComparator_prefixed by done.
    by apply cmp_flip.
  - intros ? ? ? (a & r1 & -> & Ha & Oa) (b & r2 & -> & Hb & Ob) (c & r3 & -> & Hc & Oc).
    rewrite !KeyComparator_prefixed by done. by apply cmp_le_trans.
Qed.

(** Entries that [Add] may be given. *)
Record entry_valid (e : Entry) : Prop := {
  ev_key : ok (e_key e);
  ev_seq : seq_ok (e_seq e);
  ev_key_size : size (e_key e) + 8 < 2 ^ 32;
  ev_value_size : size (e_value e) < 2 ^ 32
}.

Lemma ikey_size e : size (e_ikey e) = size (e_key e) + 8.
Proof. unfold size, e_ikey. rewrite InternalKey_length. lia. Qed.

Lemma encode_ok e : entry_valid e -> entry_ok (encode e).
Proof.
  intros [Hk Hs Hks Hvs]. exists (e_ikey e), (PutLengthPrefixedSlice [] (e_value e)).
  rewrite encode_eq, ikey_size by done. split; [done|]. split; [done|]. by apply internal_ok_key.
Qed.

(** Two entries for the same user key and sequence number. *)
Definition same_version (a b : Entry) : Prop :=
  Compare ucmp (e_key a) (e_key b) = 0 /\ e_seq a = e_seq b.

Lemma compare_encode a b :
  entry_valid a -> entry_valid b ->
  KeyComparator ucmp (encode a) (encode b) =
  if Compare ucmp (e_key a) (e_key b) =? 0
  then Z.sgn (e_seq b * 256 + ValueType_val (e_type b) - (e_seq a * 256 + ValueType_val (e_type a)))
  else Compare ucmp (e_key a) (e_key b).
Proof.
  intros [] []. rewrite !encode_eq, KeyComparator_prefixed by (rewrite ?ikey_size; done).
  by apply internal_key_compare.
Qed.

Lemma compare_distinct a b :
  entry_valid a -> entry_valid b -> ~ same_version a b -> KeyComparator ucmp (encode a) (encode b) <> 0.
Proof.
  intros Ha Hb Hn. rewrite compare_encode by done. unfold same_version in Hn.
  pose proof (type_range (e_type a)). pose proof (type_range (e_type b)).
  destruct (Z.eqb_spec (Compare ucmp (e_key a) (e_key b)) 0); [|done].
  assert (e_seq a <> e_seq b) by tauto. lia.
Qed.

Lemma insert_sorted_map {A B} (f : A -> B) cmp x l :
  insert_sorted cmp (f x) (map f l) = map f (insert_sorted (fun a b => cmp (f a) (f b)) x l).
Proof. induction l as [|y l IH]; [done|]. cbn [map insert_sorted]. destruct (_ <? 0); [|done]. cbn [map]. by rewrite IH. Qed.

Lemma insert_sorted_permutation {A} (cmp : A -> A -> Z) x l : insert_sorted cmp x l ≡ₚ x :: l.
Proof.
  induction l as [|y l IH]; [done|]. cbn [insert_sorted]. destruct (_ <? 0); [|done].
  rewrite IH. apply Permutation_swap.
Qed.

(** The memtable holds the entries [es], in the order of their keys. *)
Record Holds (m : MemTable) (es : list Entry) : Prop := {
  hd_wf : wf (compare_ := KeyComparator ucmp) (ok := entry_ok) (table_ m);
  hd_contents : contents (table_ m) = map encode es;
  hd_valid : Forall entry_valid es
}.

Lemma Holds_new : Holds MemTable_new [].
Proof. constructor; [apply new_wf|done|done]. Qed.

Lemma Add_spec m es e :
  Holds m es -> entry_valid e -> Forall (fun e' => ~ same_version e' e) es ->
  exists m' es', MemTable_Add ucmp (e_seq e) (e_type e) (e_key e) (e_value e) m = Ret (tt, m') /\
    Holds m' es' /\ es' ≡ₚ e :: es /\ refs_ m' = refs_ m.
Proof.
  intros [Hw Hc Hv] He Hd.
  destruct (insert_refines (table_ m) (encode e) Hw (encode_ok e He)) as (t & E & Hw' & Hc').
  { rewrite Hc, Forall_map. rewrite Forall_forall in Hd, Hv |- *. intros e' He'. cbn.
    apply compare_distinct; [by apply Hv|done|by apply Hd]. }
  unfold MemTable_Add, on_table. unfold encode in E. rewrite E. eexists _, _. split; [done|].
  pose proof (insert_sorted_permutation (fun a b => KeyComparator ucmp (encode a) (encode b)) e es) as Hp.
  split; [|split; [exact Hp|done]]. constructor; [done| |].
  - cbn [table_]. by rewrite Hc', Hc, insert_sorted_map.
  - rewrite Hp. by constructor.
Qed.

(** * Lookups *)

(** The entries a snapshot at [s] can see for the user key [u]. *)
Definition visible (u : Slice) (s : Z) (e : Entry) : Prop := Compare ucmp (e_key e) u = 0 /\ e_seq e <= s.

Definition outcome_of (e : Entry) : Slice + Status :=
  match e_type e with kTypeValue => inl (e_value e) | kTypeDeletion => inr (Status_NotFound [] []) end.

(** The result of a lookup in a set of entries: that of the newest visible one. *)
Definition lookup_result (es : list Entry) (u : Slice) (s : Z) (r : option (Slice + Status)) : Prop :=
  match r with
  | None => Forall (fun e => ~ visible u s e) es
  | Some o => exists e, e ∈ es /\ visible u s e /\ o = outcome_of e /\
      Forall (fun e' => visible u s e' -> e_seq e' <= e_seq e) es
  end.

Lemma memkey_ok u s :
  ok u -> size u + 8 < 2 ^ 32 -> seq_ok s -> entry_ok (LookupKey_memtable_key (LookupKey_new u s)).
Proof.
  intros Hu Hsz Hs. destruct (LookupKey_parts u s Hsz) as (E & _ & _).
  exists (InternalKey u s kTypeValue), []. rewrite app_nil_r, E. unfold PutLengthPrefixedSlice, PutVarint32.
  assert (Ek : size (InternalKey u s kTypeValue) = size u + 8) by (unfold size; rewrite InternalKey_length; lia).
  pose proof (size_nonneg u). rewrite Ek, wrap_small by lia. split; [done|]. split; [done|]. by apply internal_ok_key.
Qed.

(** An entry against a lookup key. *)
Lemma compare_memkey e u s :
  entry_valid e -> ok u -> size u + 8 < 2 ^ 32 -> seq_ok s ->
  let c := KeyComparator ucmp (encode e) (LookupKey_memtable_key (LookupKey_new u s)) in
  c = if Compare ucmp (e_key e) u =? 0
      then Z.sgn (s * 256 + 1 - (e_seq e * 256 + ValueType_val (e_type e)))
      else Compare ucmp (e_key e) u.
Proof.
  intros [] Hu Hsz Hs. destruct (LookupKey_parts u s Hsz) as (E & _ & _). cbv zeta. rewrite E.
  pose proof (size_nonneg u).
  assert (Ek : size (InternalKey u s kTypeValue) = size u + 8) by (unfold size; rewrite InternalKey_length; lia).
  assert (E' : EncodeVarint32 (size u + 8) ++ InternalKey u s kTypeValue =
    PutLengthPrefixedSlice [] (InternalKey u s kTypeValue) ++ []).
  { unfold PutLengthPrefixedSlice, PutVarint32. by rewrite app_nil_r, Ek, wrap_small by lia. }
  rewrite E', encode_eq, KeyComparator_prefixed by (rewrite ?ikey_size, ?Ek; done).
  unfold e_ikey, C. by rewrite internal_key_compare.
Qed.

(** The entries of a memtable are sorted as entries. *)
Lemma Holds_sorted m es :
  Holds m es -> StronglySorted (fun a b => KeyComparator ucmp (encode a) (encode b) < 0) es.
Proof.
  intros [Hw Hc _]. pose proof (wf_sorted _ Hw) as Hs. rewrite Hc in Hs. clear -Hs.
  induction es as [|e es IH]; [constructor|]. cbn [map] in Hs.
  apply StronglySorted_inv in Hs as [Hs Hf]. constructor; [by apply IH|]. by apply Forall_map in Hf.
Qed.

Section Lookup.
Variables (u : Slice) (s : Z).
Hypotheses (Hu : ok u) (Hsz : size u + 8 < 2 ^ 32) (Hs : seq_ok s).
Let memkey := LookupKey_memtable_key (LookupKey_new u s).

Lemma visible_not_before e :
  entry_valid e -> visible u s e -> 0 <= KeyComparator ucmp (encode e) memkey.
Proof.
  intros He [Hc Hq]. unfold memkey. rewrite compare_memkey, Hc by done. cbn [Z.eqb].
  pose proof (type_range (e_type e)). lia.
Qed.

(** The first entry at or after the lookup key against a visible one after it. *)
Lemma after_first e e' :
  entry_valid e -> entry_valid e' -> 0 <= KeyComparator ucmp (encode e) memkey ->
  KeyComparator ucmp (encode e) (encode e') < 0 -> visible u s e' ->
  visible u s e /\ e_seq e' <= e_seq e.
Proof.
  intros He He' Hge Hlt [Hc Hq]. pose proof (ev_key _ He) as Oe. pose proof (ev_key _ He') as Oe'.
  unfold memkey in Hge. rewrite compare_memkey in Hge by done. rewrite compare_encode in Hlt by done.
  pose proof (type_range (e_type e)) as T. pose proof (type_range (e_type e')) as T'.
  assert (Hc' : Compare ucmp u (e_key e') = 0) by (by apply cmp_eq_sym).
  destruct (Z.eqb_spec (Compare ucmp (e_key e) u) 0) as [E|E].
  - assert (Eee : Compare ucmp (e_key e) (e_key e') = 0).
    { assert (Compare ucmp (e_key e) (e_key e') <= 0) by (apply (cmp_le_trans _ u); auto; lia).
      assert (Compare ucmp u (e_key e) = 0) by (by apply cmp_eq_sym).
      assert (Compare ucmp (e_key e') (e_key e) <= 0) by (apply (cmp_le_trans _ u); auto; lia).
      pose proof (cmp_flip (e_key e) (e_key e') Oe Oe'). lia. }
    rewrite Eee in Hlt. cbn [Z.eqb] in Hlt. unfold visible. split; [|lia]. split; [done|]. lia.
  - exfalso. destruct (Z.eqb_spec (Compare ucmp (e_key e) (e_key e')) 0) as [E'|E'].
    + assert (Compare ucmp (e_key e) u <= 0) by (apply (cmp_le_trans _ (e_key e')); auto; lia). lia.
    + assert (Compare ucmp (e_key e) u < 0) by (apply (cmp_lt_le_trans _ (e_key e')); auto; lia). lia.
Qed.

(** What the entry found says, in [Get]. *)
Definition found (entry : Slice) : option (Slice + Status) :=
  '(key_length, key_ptr) ← GetVarint32Ptr5 entry;
  if Compare ucmp (take (Z.to_nat (key_length - 8)) key_ptr) u =? 0
  then
    let t := Z.land (DecodeFixed64 (drop (Z.to_nat (key_length - 8)) key_ptr)) 0xff in
    if t =? ValueType_val kTypeValue then
      Some (inl (GetLengthPrefixedSlice_at (drop (Z.to_nat key_length) key_ptr)))
    else if t =? ValueType_val kTypeDeletion then Some (inr (Status_NotFound [] []))
    else None
  else None.

Lemma found_encode e :
  entry_valid e ->
  GetVarint32Ptr5 (encode e) = Some (size (e_key e) + 8, e_ikey e ++ PutLengthPrefixedSlice [] (e_value e)) /\
  found (encode e) = if Compare ucmp (e_key e) u =? 0 then Some (outcome_of e) else None.
Proof.
  intros [_ Hq Hk Hv]. pose proof (size_nonneg (e_key e)).
  assert (E : GetVarint32Ptr5 (encode e) =
    Some (size (e_key e) + 8, e_ikey e ++ PutLengthPrefixedSlice [] (e_value e))).
  { rewrite encode_eq by done. rewrite <- ikey_size. apply read_prefixed. rewrite ikey_size. lia. }
  split; [done|]. unfold found. rewrite E. cbn [mbind option_bind].
  replace (Z.to_nat (size (e_key e) + 8 - 8)) with (length (e_key e)) by (unfold size; lia).
  assert (Ev : drop (Z.to_nat (size (e_key e) + 8)) (e_ikey e ++ PutLengthPrefixedSlice [] (e_value e)) =
               PutLengthPrefixedSlice [] (e_value e) ++ []).
  { rewrite app_nil_r. apply drop_app_length'. unfold e_ikey. rewrite InternalKey_length. unfold size. lia. }
  rewrite Ev, (proj2 (read_prefixed (e_value e) [] Hv)).
  unfold e_ikey. rewrite InternalKey_eq, <- app_assoc, take_app_length, drop_app_length.
  rewrite DecodeFixed64_app by (by apply pack_range). rewrite pack_eq by done.
  rewrite (land_mask _ 8 ltac:(lia) : Z.land _ 0xff = _), Z.add_comm. change (2 ^ 8) with 256.
  rewrite Z_mod_plus_full.
  unfold outcome_of. by destruct (e_type e).
Qed.

Lemma Get_spec m es :
  Holds m es ->
  exists r, MemTable_Get ucmp (LookupKey_new u s) m = Ret (r, m) /\ lookup_result es u s r.
Proof.
  intros HH. pose proof (Holds_sorted m es HH) as Hsort. destruct HH as [Hw Hc Hv].
  destruct (seek_contents (table_ m) memkey Hw (memkey_ok u s Hu Hsz Hs)) as (pre & suf & it & Ec & Hpre & Hsuf & Es & Hit).
  unfold MemTable_Get. fold memkey. rewrite Hc in Ec. apply map_eq_app in Ec as (p & q & -> & <- & <-).
  rewrite Forall_map in Hpre, Hsuf. apply Forall_app in Hv as [Hvp Hvq].
  assert (Np : Forall (fun e => ~ visible u s e) p).
  { rewrite Forall_forall in Hpre, Hvp |- *. intros e He Hvis. specialize (Hpre e He : KeyComparator ucmp (encode e) memkey < 0).
    pose proof (visible_not_before e (Hvp e He) Hvis). lia. }
  unfold bind at 1, on_table at 1. rewrite Es. destruct m as [rf tb]. cbn [table_ refs_] in *.
  destruct q as [|e q].
  - cbn [map] in Hit. rewrite Hit. exists None. split; [done|]. rewrite app_nil_r. exact Np.
  - destruct Hit as [[x ->] Ek]. cbn [Iterator_Valid]. unfold bind at 1, on_table at 1. cbn [table_]. rewrite Ek.
    apply Forall_cons in Hvq as [Hve Hvq]. apply Forall_cons in Hsuf as [Hge Hsuf].
    change (0 <= KeyComparator ucmp (encode e) memkey) in Hge.
    apply StronglySorted_app_1_r, StronglySorted_inv in Hsort as [_ Hafter].
    destruct (found_encode e Hve) as [E1 E2]. exists (found (encode e)). split.
    { unfold found. rewrite E1. destruct (LookupKey_parts u s Hsz) as (_ & _ & ->).
      cbn [mbind option_bind need]. unfold bind, ret. by repeat case_match. }
    rewrite E2. clear Ek E1 E2. rewrite Forall_forall in Hafter, Hvq.
    assert (Hnew : forall e', e' ∈ q -> visible u s e' -> visible u s e /\ e_seq e' <= e_seq e).
    { intros e' He' Hvis. by apply (after_first e e'); auto. }
    destruct (Z.eqb_spec (Compare ucmp (e_key e) u) 0) as [Eu|Eu]; cbn [lookup_result].
    + exists e. split; [set_solver|]. assert (Hvise : visible u s e).
      { split; [done|]. unfold memkey in Hge. rewrite compare_memkey, Eu in Hge by done. cbn [Z.eqb] in Hge.
        pose proof (type_range (e_type e)). lia. }
      split; [done|]. split; [done|]. apply Forall_app. split.
      * eapply Forall_impl; [exact Np|]. intros e' Hn Hvis. by destruct Hn.
      * constructor; [intros _; lia|]. apply Forall_forall. intros e' He' Hvis. by apply Hnew.
    + apply Forall_app. split; [exact Np|]. constructor; [by intros [? _]|].
      apply Forall_forall. intros e' He' Hvis. by destruct (Hnew e' He' Hvis) as [[? _] _].
Qed.
End Lookup.

(** [Add]s one after the other. *)
Fixpoint Add_all (es : list Entry) : M MemTable unit :=
  match es with
  | [] => ret tt
  | e :: es => MemTable_Add ucmp (e_seq e) (e_type e) (e_key e) (e_value e) ;;; Add_all es
  end.

(** No two entries are the same version of the same key. *)
Fixpoint versions_distinct (es : list Entry) : Prop :=
  match es with
  | [] => True
  | e :: es => Forall (fun e' => ~ same_version e e') es /\ versions_distinct es
  end.

Lemma Add_all_spec es : forall m old,
  Holds m old -> Forall entry_valid es -> versions_distinct es ->
  Forall (fun e => Forall (fun e' => ~ same_version e' e) old) es ->
  exists m' all, Add_all es m = Ret (tt, m') /\ Holds m' all /\ all ≡ₚ es ++ old.
Proof.
  induction es as [|e es IH]; intros m old HH Hv Hd Ho; [by exists m, old|].
  apply Forall_cons in Hv as [He Hv]. apply Forall_cons in Ho as [Hoe Ho]. destruct Hd as [Hde Hd].
  destruct (Add_spec m old e HH He Hoe) as (m1 & old1 & E1 & H1 & P1 & _).
  destruct (IH m1 old1 H1 Hv Hd) as (m2 & all & E2 & H2 & P2).
  - rewrite Forall_forall in Ho, Hde |- *. intros x Hx. rewrite P1. constructor; [by apply Hde|by apply Ho].
  - exists m2, all. cbn [Add_all]. unfold bind. rewrite E1, E2. split; [done|]. split; [done|].
    rewrite P2, P1. symmetry. apply Permutation_middle.
Qed.

Lemma lookup_result_perm es es' u s r : es ≡ₚ es' -> lookup_result es u s r -> lookup_result es' u s r.
Proof.
  intros P. destruct r as [o|]; cbn [lookup_result]; [|by rewrite P].
  intros (e & He & Hvis & Eo & Hf). exists e. rewrite <- P. done.
Qed.

Lemma encode_length e : entry_valid e -> size (encode e) = encoded_len (e_key e) (e_value e).
Proof.
  intros [_ _ Hk Hv]. pose proof (size_nonneg (e_key e)). pose proof (size_nonneg (e_value e)).
  unfold encode, encode_entry, encoded_len. rewrite !size_app, (wrap_small 32 (_ + 8)), (wrap_small 32 (size (e_value e))) by lia.
  assert (El : forall v, 0 <= v < 2 ^ 32 -> size (EncodeVarint32 v) = VarintLength v).
  { intros v Hr. rewrite EncodeVarint32_varint, VarintLength_eq, EncodeVarint64_varint by lia. done. }
  rewrite !El by lia. set (tag := EncodeFixed64 _). assert (size tag = 8) by done. cbv zeta. lia.
Qed.

(** C17: the memtable is the map the database reads from. After any entries, of
    which no two are the same version of one user key, were added to a new
    memtable (which always succeeds, each entry filling exactly the buffer
    [Add] computes for it), [Get] for a user key and a snapshot's sequence
    number returns the newest entry the snapshot can see: its value, [NotFound]
    when it is a deletion, and nothing when there is no such entry. *)
Theorem MemTable_Get_newest es :
  Forall entry_valid es -> versions_distinct es ->
  Forall (fun e => size (encode e) = encoded_len (e_key e) (e_value e)) es /\
  exists m, Add_all es MemTable_new = Ret (tt, m) /\
    forall u s, ok u -> size u + 8 < 2 ^ 32 -> seq_ok s ->
    exists r, MemTable_Get ucmp (LookupKey_new u s) m = Ret (r, m) /\ lookup_result es u s r.
Proof.
  intros Hv Hd. split; [eapply Forall_impl; [exact Hv|exact encode_length]|].
  destruct (Add_all_spec es MemTable_new [] Holds_new Hv Hd) as (m & all & E & HH & P).
  { apply Forall_forall. by constructor. }
  exists m. split; [done|]. intros u s Hu Hsz Hs. destruct (Get_spec u s Hu Hsz Hs m all HH) as (r & Er & Hr).
  exists r. split; [done|]. eapply lookup_result_perm; [|exact Hr]. by rewrite P, app_nil_r.
Qed.
End Props.

Definition sample_entries : list Entry :=
  [{| e_key := chars "a"; e_seq := 1; e_type := kTypeValue; e_value := chars "one" |};
   {| e_key := chars "b"; e_seq := 2; e_type := kTypeValue; e_value := chars "two" |};
   {| e_key := chars "a"; e_seq := 3; e_type := kTypeDeletion; e_value := [] |};
   {| e_key := chars "a"; e_seq := 5; e_type := kTypeValue; e_value := chars "five" |}].

Definition sample_memtable : MemTable :=
  match Add_all (ucmp := BytewiseComparator) sample_entries MemTable_new with
  | Ret (_, m) => m
  | _ => MemTable_new
  end.

Definition sample_get (u : Slice) (s : Z) : option (Slice + Status) :=
  match MemTable_Get BytewiseComparator (LookupKey_new u s) sample_memtable with
  | Ret (r, _) => r
  | _ => None
  end.

Example sample_get_1 : sample_get (chars "a") 9 = Some (inl (chars "five")).
Proof. by vm_compute. Qed.

Example sample_get_2 : sample_get (chars "a") 4 = Some (inr (Status_NotFound [] [])).
Proof. by vm_compute. Qed.

Example sample_get_3 : sample_get (chars "b") 1 = None.
Proof. by vm_compute. Qed.

Lemma sample_entries_valid : Forall (entry_valid (ok := is_bytes)) sample_entries.
Proof. repeat constructor; cbn [e_key e_seq e_value]; try lia; try solve_bytes; unfold seq_ok; by vm_compute. Qed.

Lemma sample_entries_distinct : versions_distinct (ucmp := BytewiseComparator) sample_entries.
Proof. cbn. repeat split; repeat constructor; intros [E1 E2]; vm_compute in E1; cbn in E2; lia. Qed.

Lemma MemTable_Get_newest_witness :
  exists m, Add_all (ucmp := BytewiseComparator) sample_entries MemTable_new = Ret (tt, m) /\
    exists r, MemTable_Get BytewiseComparator (LookupKey_new (chars "a") 4) m = Ret (r, m) /\
      lookup_result (ucmp := BytewiseComparator) sample_entries (chars "a") 4 r.
Proof.
  destruct (MemTable_Get_newest (ucmp := BytewiseComparator) (ok := is_bytes) sample_entries
    sample_entries_valid sample_entries_distinct) as [_ (m & E & H)].
  exists m. split; [exact E|]. apply H; [solve_bytes|by vm_compute|split; by vm_compute].
Defined.
