(* ===== verification/LvWriteBatch.v ===== *)
(** Write batches ([db/write_batch.cc], [db/write_batch_internal.h]): a string
    that holds a sequence number, a count and the records to apply. *)

From stdpp Require Import base list gmap strings sorting.
From Stdlib Require Import ZArith Lia.
From S2P Require Import Prelude LvSlice LvCoding LvFormat LvSkipList LvMemTable.

Definition kHeader : Z := 12.

Record WriteBatch : Type := { rep_ : Slice }.

Definition WriteBatch_Clear : WriteBatch := {| rep_ := replicate (Z.to_nat kHeader) 0 |}.

(** The constructor clears. *)
Definition WriteBatch_new : WriteBatch := WriteBatch_Clear.

Definition WriteBatch_ApproximateSize (b : WriteBatch) : Z := size (rep_ b).

(** * WriteBatchInternal *)

(** The count is read as an [int]. *)
Definition WriteBatch_Count (b : WriteBatch) : Z := sext 32 (DecodeFixed32 (drop 8 (rep_ b))).

Definition WriteBatch_SetCount (b : WriteBatch) (n : Z) : WriteBatch :=
  {| rep_ := take 8 (rep_ b) ++ EncodeFixed32 (u32 n) ++ drop 12 (rep_ b) |}.

Definition WriteBatch_Sequence (b : WriteBatch) : Z := DecodeFixed64 (rep_ b).

Definition WriteBatch_SetSequence (b : WriteBatch) (seq : Z) : WriteBatch :=
  {| rep_ := EncodeFixed64 seq ++ drop 8 (rep_ b) |}.

Definition WriteBatch_Contents (b : WriteBatch) : Slice := rep_ b.

Definition WriteBatch_ByteSize (b : WriteBatch) : Z := size (rep_ b).

(** [assert(contents.size() >= kHeader)]. *)
Definition WriteBatch_SetContents (contents : Slice) : option WriteBatch :=
  if size contents >=? kHeader then Some {| rep_ := contents |} else None.

(** [assert(src->rep_.size() >= kHeader)]. *)
Definition WriteBatch_Append (dst src : WriteBatch) : option WriteBatch :=
  let dst := WriteBatch_SetCount dst (WriteBatch_Count dst + WriteBatch_Count src) in
  if size (rep_ src) >=? kHeader
  then Some {| rep_ := rep_ dst ++ drop (Z.to_nat kHeader) (rep_ src) |}
  else None.

(** * Building *)

Definition WriteBatch_Put (b : WriteBatch) (key value : Slice) : WriteBatch :=
  let b := WriteBatch_SetCount b (WriteBatch_Count b + 1) in
  let rep := rep_ b ++ [ValueType_val kTypeValue] in
  {| rep_ := PutLengthPrefixedSlice (PutLengthPrefixedSlice rep key) value |}.

Definition WriteBatch_Delete (b : WriteBatch) (key : Slice) : WriteBatch :=
  let b := WriteBatch_SetCount b (WriteBatch_Count b + 1) in
  let rep := rep_ b ++ [ValueType_val kTypeDeletion] in
  {| rep_ := PutLengthPrefixedSlice rep key |}.

(** * Iterating *)

(** The virtual functions of [WriteBatch::Handler], over the handler's state. *)
Record Handler (S : Type) : Type := {
  Handler_Put : Slice -> Slice -> M S unit;
  Handler_Delete : Slice -> M S unit
}.
Arguments Handler_Put {S}.
Arguments Handler_Delete {S}.

(** [while (!input.empty())]: the error, or [found]. Each round takes at least
    the tag, so as many rounds as there are bytes are enough. *)
Fixpoint Iterate_loop {S} (handler : Handler S) (fuel : nat) (input : Slice) (found : Z)
    : M S (Status + Z) :=
  match input with
  | [] => ret (inr found)
  | tag :: input =>
      match fuel with
      | O => nofuel
      | Datatypes.S fuel =>
          let found := found + 1 in
          if tag =? ValueType_val kTypeValue then
            match GetLengthPrefixedSlice input with
            | (Some key, input) =>
                match GetLengthPrefixedSlice input with
                | (Some value, input) =>
                    Handler_Put handler key value ;;; Iterate_loop handler fuel input found
                | (None, _) => ret (inl (Status_Corruption (chars "bad WriteBatch Put") []))
                end
            | (None, _) => ret (inl (Status_Corruption (chars "bad WriteBatch Put") []))
            end
          else if tag =? ValueType_val kTypeDeletion then
            match GetLengthPrefixedSlice input with
            | (Some key, input) => Handler_Delete handler key ;;; Iterate_loop handler fuel input found
            | (None, _) => ret (inl (Status_Corruption (chars "bad WriteBatch Delete") []))
            end
          else ret (inl (Status_Corruption (chars "unknown WriteBatch tag") []))
      end
  end.

Definition WriteBatch_Iterate {S} (handler : Handler S) (b : WriteBatch) : M S Status :=
  let input := rep_ b in
  if size input <? kHeader
  then ret (Status_Corruption (chars "malformed WriteBatch (too small)") [])
  else
    let input := Slice_remove_prefix input kHeader in
    let* r := Iterate_loop handler (length input) input 0 in
    match r with
    | inl s => ret s
    | inr found =>
        if negb (found =? WriteBatch_Count b)
        then ret (Status_Corruption (chars "WriteBatch has wrong count") [])
        else ret Status_OK
    end.

(** * Inserting into a memtable *)

Section Inserter.
Variable ucmp : Comparator.

(** [sequence_] and [mem_] of [MemTableInserter]. *)
Record MemTableInserter : Type := { sequence_ : Z; mem_ : MemTable }.

(** [mem_->Add(sequence_, type, key, value); sequence_++]. *)
Definition Inserter_Add (type : ValueType) (key value : Slice) : M MemTableInserter unit :=
  fun h => match MemTable_Add ucmp (sequence_ h) type key value (mem_ h) with
           | Ret (_, m) => Ret (tt, {| sequence_ := u64 (sequence_ h + 1); mem_ := m |})
           | Undef => Undef
           | NoFuel => NoFuel
           end.

Definition Inserter_Handler : Handler MemTableInserter := {|
  Handler_Put key value := Inserter_Add kTypeValue key value;
  Handler_Delete key := Inserter_Add kTypeDeletion key []
|}.

Definition WriteBatch_InsertInto (b : WriteBatch) : M MemTable Status :=
  fun memtable =>
    let inserter := {| sequence_ := WriteBatch_Sequence b; mem_ := memtable |} in
    match WriteBatch_Iterate Inserter_Handler b inserter with
    | Ret (s, inserter) => Ret (s, mem_ inserter)
    | Undef => Undef
    | NoFuel => NoFuel
    end.
End Inserter.

(** * Properties

    What a write batch is: a list of operations and a first sequence number,
    and what applying it to a memtable does. *)

(** * The operations a batch holds *)

Inductive Op : Type :=
| OpPut (key value : Slice)
| OpDelete (key : Slice).

Definition op_key (o : Op) : Slice := match o with OpPut k _ => k | OpDelete k => k end.

Definition record_of (o : Op) : Slice :=
  match o with
  | OpPut k v => ValueType_val kTypeValue :: PutLengthPrefixedSlice [] k ++ PutLengthPrefixedSlice [] v
  | OpDelete k => ValueType_val kTypeDeletion :: PutLengthPrefixedSlice [] k
  end.

Definition op_ok (o : Op) : Prop :=
  match o with
  | OpPut k v => size k < 2 ^ 32 /\ size v < 2 ^ 32
  | OpDelete k => size k < 2 ^ 32
  end.

(** The batch [b] starts at [seq] and holds [ops]. *)
Record Batch (b : WriteBatch) (seq : Z) (ops : list Op) : Prop := {
  batch_rep : rep_ b = EncodeFixed64 seq ++ EncodeFixed32 (Z.of_nat (length ops)) ++ concat (map record_of ops);
  batch_seq : 0 <= seq < 2 ^ 64;
  batch_count : Z.of_nat (length ops) < 2 ^ 31;
  batch_ops : Forall op_ok ops
}.

Section Parts.
Context (b : WriteBatch) (seq : Z) (ops : list Op) (HB : Batch b seq ops).

Lemma Count_spec : WriteBatch_Count b = Z.of_nat (length ops).
Proof.
  destruct HB as [E _ Hc _]. unfold WriteBatch_Count. rewrite E, drop_app_length' by done.
  rewrite DecodeFixed32_app by lia.
  apply sext_small; lia.
Qed.

Lemma Sequence_spec : WriteBatch_Sequence b = seq.
Proof. destruct HB as [E Hs _ _]. unfold WriteBatch_Sequence. rewrite E. by apply DecodeFixed64_app. Qed.

Lemma data_spec : drop 12 (rep_ b) = concat (map record_of ops).
Proof. destruct HB as [E _ _ _]. rewrite E. done. Qed.

Lemma SetCount_rep n :
  rep_ (WriteBatch_SetCount b n) = EncodeFixed64 seq ++ EncodeFixed32 (u32 n) ++ concat (map record_of ops).
Proof. unfold WriteBatch_SetCount. cbn [rep_]. rewrite data_spec. f_equal. destruct HB as [E _ _ _]. by rewrite E. Qed.

Lemma header_size : kHeader <= size (rep_ b).
Proof.
  destruct HB as [E _ _ _]. rewrite E. unfold size. rewrite !length_app, length_EncodeFixed64.
  change kHeader with 12. change (length (EncodeFixed32 _)) with 4%nat. lia.
Qed.
End Parts.

Lemma Clear_batch : Batch WriteBatch_new 0 [].
Proof. constructor; [by vm_compute|lia|done|done]. Qed.

(** Records appended to a batch whose count was set for them. *)
Lemma extend_batch b seq ops ops' n :
  Batch b seq ops -> Forall op_ok ops' -> Z.of_nat (length ops + length ops') < 2 ^ 31 ->
  n = Z.of_nat (length ops + length ops') ->
  Batch {| rep_ := rep_ (WriteBatch_SetCount b n) ++ concat (map record_of ops') |} seq (ops ++ ops').
Proof.
  intros HB Ho Hn ->. constructor; [|by destruct HB|by rewrite length_app|apply Forall_app; by destruct HB].
  cbn [rep_]. rewrite (SetCount_rep b seq ops HB), length_app, wrap_small by lia.
  by rewrite map_app, concat_app, <- !app_assoc.
Qed.

Lemma Put_batch b seq ops k v :
  Batch b seq ops -> op_ok (OpPut k v) -> Z.of_nat (length ops) + 1 < 2 ^ 31 ->
  Batch (WriteBatch_Put b k v) seq (ops ++ [OpPut k v]).
Proof.
  intros HB Ho Hn. unfold WriteBatch_Put.
  rewrite PutLengthPrefixed_app, (PutLengthPrefixed_app (_ ++ _)), <- !app_assoc.
  rewrite <- (app_nil_r (_ ++ _ ++ PutLengthPrefixedSlice [] v)).
  apply (extend_batch b seq ops [OpPut k v]); [done|by constructor|simpl; lia|].
  rewrite (Count_spec b seq ops HB). simpl. lia.
Qed.

Lemma Delete_batch b seq ops k :
  Batch b seq ops -> op_ok (OpDelete k) -> Z.of_nat (length ops) + 1 < 2 ^ 31 ->
  Batch (WriteBatch_Delete b k) seq (ops ++ [OpDelete k]).
Proof.
  intros HB Ho Hn. unfold WriteBatch_Delete.
  rewrite PutLengthPrefixed_app, <- !app_assoc.
  rewrite <- (app_nil_r (_ ++ PutLengthPrefixedSlice [] k)).
  apply (extend_batch b seq ops [OpDelete k]); [done|by constructor|simpl; lia|].
  rewrite (Count_spec b seq ops HB). simpl. lia.
Qed.

Lemma Append_batch b seq ops src sseq sops :
  Batch b seq ops -> Batch src sseq sops -> Z.of_nat (length ops + length sops) < 2 ^ 31 ->
  exists b', WriteBatch_Append b src = Some b' /\ Batch b' seq (ops ++ sops).
Proof.
  intros HB HS Hn. unfold WriteBatch_Append. rewrite (Count_spec b seq ops HB), (Count_spec src sseq sops HS).
  assert (Es : size (rep_ src) >=? kHeader = true) by (apply Z.geb_le, (header_size src sseq sops HS)).
  rewrite Es. eexists. split; [done|]. change (Z.to_nat kHeader) with 12%nat. rewrite (data_spec src sseq sops HS).
  apply extend_batch; [done|by destruct HS|done|lia].
Qed.

Lemma SetSequence_batch b seq ops seq' :
  Batch b seq ops -> 0 <= seq' < 2 ^ 64 -> Batch (WriteBatch_SetSequence b seq') seq' ops.
Proof. intros [E Hs Hc Ho] H. constructor; [|done|done|done]. cbn [rep_ WriteBatch_SetSequence]. by rewrite E. Qed.

(** * Iterating *)

(** The handler called with the operations, one after the other. *)
Definition apply_op {S} (h : Handler S) (o : Op) : M S unit :=
  match o with OpPut k v => Handler_Put h k v | OpDelete k => Handler_Delete h k end.

Fixpoint apply_ops {S} (h : Handler S) (ops : list Op) : M S unit :=
  match ops with
  | [] => ret tt
  | o :: ops => apply_op h o ;;; apply_ops h ops
  end.

Lemma Iterate_loop_spec {S} (h : Handler S) ops : forall fuel found s,
  Forall op_ok ops -> (length (concat (map record_of ops)) <= fuel)%nat ->
  Iterate_loop h fuel (concat (map record_of ops)) found s =
  (apply_ops h ops ;;; ret (inr (found + Z.of_nat (length ops)))) s.
Proof.
  induction ops as [|o ops IH]; intros fuel found s Ho Hf.
  { cbn [map concat length]. destruct fuel; by rewrite Z.add_0_r. }
  apply Forall_cons in Ho as [Ho Hos]. cbn [map concat] in Hf |- *. rewrite length_app in Hf.
  assert (Hrec : (1 <= length (record_of o))%nat) by (destruct o; simpl; lia).
  destruct fuel as [|fuel]; [lia|].
  assert (IH' : forall s', Iterate_loop h fuel (concat (map record_of ops)) (found + 1) s' =
    (apply_ops h ops ;;; ret (inr (found + Z.of_nat (length (o :: ops))))) s').
  { intros s'. rewrite IH by (done || lia). unfold bind. destruct (apply_ops h ops s') as [[[] ?]| |]; [|done|done].
    unfold ret. do 3 f_equal. cbn [length]. lia. }
  cbn [apply_ops]. destruct o as [k v|k]; cbn [record_of app Iterate_loop Z.eqb ValueType_val]; cbn [Z.eqb Pos.eqb].
  - destruct Ho as [Hk Hv]. rewrite <- app_assoc, GetLengthPrefixed_app, GetLengthPrefixed_app by done.
    unfold bind. cbn [apply_op]. destruct (Handler_Put h k v s) as [[[] s']| |]; [|done|done]. apply IH'.
  - rewrite GetLengthPrefixed_app by done.
    unfold bind. cbn [apply_op]. destruct (Handler_Delete h k s) as [[[] s']| |]; [|done|done]. apply IH'.
Qed.

Lemma Iterate_spec {S} (h : Handler S) b seq ops s :
  Batch b seq ops -> WriteBatch_Iterate h b s = (apply_ops h ops ;;; ret Status_OK) s.
Proof.
  intros HB. unfold WriteBatch_Iterate.
  assert (Es : size (rep_ b) <? kHeader = false) by (apply Z.ltb_ge, (header_size b seq ops HB)).
  rewrite Es. unfold Slice_remove_prefix. change (Z.to_nat kHeader) with 12%nat.
  rewrite (data_spec b seq ops HB). unfold bind at 1. rewrite Iterate_loop_spec by (by destruct HB || done).
  unfold bind. destruct (apply_ops h ops s) as [[[] s']| |]; [|done|done].
  unfold ret. by rewrite (Count_spec b seq ops HB), Z.add_0_l, Z.eqb_refl.
Qed.

(** Whatever the bytes of a batch are, iterating calls the handler for some
    operations and ends with success or a corruption. *)
Lemma GetLengthPrefixed_shorter input r rest :
  GetLengthPrefixedSlice input = (r, rest) -> (length rest <= length input)%nat.
Proof.
  unfold GetLengthPrefixedSlice, GetVarint32, Slice_remove_prefix.
  destruct (GetVarint32Ptr input) as [[len q]|] eqn:E; [|by intros; simplify_eq].
  destruct (GetVarint32_suffix _ _ _ E) as (u & -> & Hu). rewrite length_app.
  destruct (_ >=? _); intros; simplify_eq; [rewrite length_drop|]; lia.
Qed.

Definition is_corruption (s : Status) : Prop := Status_IsCorruption s = true.

Lemma Iterate_loop_total {S} (h : Handler S) fuel : forall input found s,
  (forall o s, exists s', apply_op h o s = Ret (tt, s')) -> (length input <= fuel)%nat ->
  exists r s' ops, Iterate_loop h fuel input found s = Ret (r, s') /\ apply_ops h ops s = Ret (tt, s') /\
    match r with inl st => is_corruption st | inr n => n = found + Z.of_nat (length ops) end.
Proof.
  induction fuel as [|fuel IH]; intros [|tag input] found s Hh Hf; simpl in Hf; try lia.
  1, 2: exists (inr found), s, []; cbn; repeat split; lia.
  assert (Bad : forall msg, is_corruption (Status_Corruption msg []) ->
    exists r s' ops, ret (inl (Status_Corruption msg [])) s = Ret (r, s') /\
      apply_ops h ops s = Ret (tt, s') /\
      match r : Status + Z with inl st => is_corruption st | inr n => n = found + Z.of_nat (length ops) end)
    by (intros msg Hm; by exists (inl (Status_Corruption msg [])), s, []).
  assert (Go : forall o rest, (length rest <= length input)%nat ->
    exists r s' ops, (apply_op h o ;;; Iterate_loop h fuel rest (found + 1)) s = Ret (r, s') /\
      apply_ops h ops s = Ret (tt, s') /\
      match r with inl st => is_corruption st | inr n => n = found + Z.of_nat (length ops) end).
  { intros o rest Hr. destruct (Hh o s) as [s1 E1].
    destruct (IH rest (found + 1) s1 Hh ltac:(lia)) as (r & s' & ops & E2 & E3 & E4).
    exists r, s', (o :: ops). cbn [apply_ops]. unfold bind. rewrite E1. split; [done|]. split; [done|].
    destruct r; [done|]. rewrite E4. cbn [length]. lia. }
  cbn [Iterate_loop]. destruct (tag =? _).
  - destruct (GetLengthPrefixedSlice input) as [[k|] in1] eqn:E1; [|by apply Bad].
    destruct (GetLengthPrefixedSlice in1) as [[v|] in2] eqn:E2; [|by apply Bad].
    apply GetLengthPrefixed_shorter in E1, E2. apply (Go (OpPut k v)). lia.
  - destruct (tag =? _); [|by apply Bad].
    destruct (GetLengthPrefixedSlice input) as [[k|] in1] eqn:E1; [|by apply Bad].
    apply GetLengthPrefixed_shorter in E1. by apply (Go (OpDelete k)).
Qed.

(** a write batch refines a list of operations with a first sequence number:
    a new batch holds none, [Put], [Delete] and [Append] add to the end of the
    list, [SetSequence] changes the number only, [Count] and [Sequence] read
    them back, and [Iterate] calls the handler for exactly the operations, in
    order, and returns success. *)
Theorem WriteBatch_refines {S} (h : Handler S) b seq ops src sseq sops key value seq' s :
  Batch b seq ops -> Batch src sseq sops -> op_ok (OpPut key value) -> 0 <= seq' < 2 ^ 64 ->
  Z.of_nat (length ops + length sops) + 1 < 2 ^ 31 ->
  Batch WriteBatch_new 0 [] /\
  Batch (WriteBatch_Put b key value) seq (ops ++ [OpPut key value]) /\
  Batch (WriteBatch_Delete b key) seq (ops ++ [OpDelete key]) /\
  Batch (WriteBatch_SetSequence b seq') seq' ops /\
  (exists b', WriteBatch_Append b src = Some b' /\ Batch b' seq (ops ++ sops)) /\
  WriteBatch_Count b = Z.of_nat (length ops) /\ WriteBatch_Sequence b = seq /\
  WriteBatch_Iterate h b s = (apply_ops h ops ;;; ret Status_OK) s.
Proof.
  intros HB HS Ho Hs Hn. split; [exact Clear_batch|]. split; [apply Put_batch; (done || lia)|].
  split; [apply Delete_batch; [done|apply Ho|lia]|]. split; [by apply (SetSequence_batch b seq)|].
  split; [apply (Append_batch b seq ops src sseq); (done || lia)|].
  split; [by apply (Count_spec b seq)|]. split; [by apply (Sequence_spec b seq ops)|by apply (Iterate_spec h b seq)].
Qed.

Definition sample_batch : WriteBatch :=
  WriteBatch_Delete (WriteBatch_Put WriteBatch_new (chars "a") (chars "one")) (chars "b").

Definition sample_ops : list Op := [OpPut (chars "a") (chars "one"); OpDelete (chars "b")].

Lemma sample_batch_holds : Batch sample_batch 0 sample_ops.
Proof. constructor; [by vm_compute|lia|by vm_compute|by repeat constructor]. Qed.

(** A handler that collects the operations. *)
Definition collector : Handler (list Op) := {|
  Handler_Put k v := fun l => Ret (tt, l ++ [OpPut k v]);
  Handler_Delete k := fun l => Ret (tt, l ++ [OpDelete k])
|}.

Lemma WriteBatch_refines_witness :
  WriteBatch_Iterate collector sample_batch [] = Ret (Status_OK, sample_ops) /\
  exists b', WriteBatch_Append sample_batch sample_batch = Some b' /\ Batch b' 0 (sample_ops ++ sample_ops).
Proof.
  destruct (WriteBatch_refines collector sample_batch 0 sample_ops sample_batch 0 sample_ops (chars "c") [] 7 []
    sample_batch_holds sample_batch_holds) as (_ & _ & _ & _ & Ha & _ & _ & Hi);
    [by split|lia|by vm_compute|]. split; [by rewrite Hi|exact Ha].
Defined.

(** [Iterate] is total on any bytes: with a handler whose calls return it
    returns, having called the handler for the operations before the first
    malformed record; the status is success only when their number is the
    batch's count, and otherwise a corruption. A batch of fewer than twelve
    bytes calls nothing. *)
Theorem WriteBatch_Iterate_total {S} (h : Handler S) b s :
  (forall o s, exists s', apply_op h o s = Ret (tt, s')) ->
  exists st s' ops, WriteBatch_Iterate h b s = Ret (st, s') /\ apply_ops h ops s = Ret (tt, s') /\
    (size (rep_ b) < kHeader -> ops = []) /\
    (st = Status_OK /\ WriteBatch_Count b = Z.of_nat (length ops) \/ is_corruption st).
Proof.
  intros Hh. unfold WriteBatch_Iterate. destruct (Z.ltb_spec (size (rep_ b)) kHeader).
  { eexists _, s, []. split; [done|]. split; [done|]. split; [done|]. by right. }
  set (input := Slice_remove_prefix _ _). unfold bind.
  destruct (Iterate_loop_total h (length input) input 0 s Hh ltac:(lia)) as (r & s' & ops & -> & Ea & Hr).
  destruct r as [st|n].
  - exists st, s', ops. split; [done|]. split; [done|]. split; [lia|by right].
  - subst n. destruct (Z.eqb_spec (0 + Z.of_nat (length ops)) (WriteBatch_Count b)); cbn [negb];
      eexists _, s', ops; (split; [done|]); (split; [done|]); (split; [lia|]); [left; split; [done|lia]|by right].
Qed.

Lemma WriteBatch_Iterate_total_witness :
  exists st s', WriteBatch_Iterate collector {| rep_ := rep_ sample_batch ++ [1; 200] |} [] = Ret (st, s') /\
    is_corruption st /\ s' = sample_ops.
Proof.
  destruct (WriteBatch_Iterate_total collector {| rep_ := rep_ sample_batch ++ [1; 200] |} [])
    as (st & s' & ops & E & _ & _ & H); [intros []; by eexists|].
  exists st, s'. split; [exact E|]. vm_compute in E. by simplify_eq.
Defined.

(** * Inserting into a memtable *)

Definition op_entry (seq : Z) (o : Op) : Entry :=
  match o with
  | OpPut k v => {| e_key := k; e_seq := seq; e_type := kTypeValue; e_value := v |}
  | OpDelete k => {| e_key := k; e_seq := seq; e_type := kTypeDeletion; e_value := [] |}
  end.

(** The operations numbered from [seq]. *)
Fixpoint op_entries (seq : Z) (ops : list Op) : list Entry :=
  match ops with
  | [] => []
  | o :: ops => op_entry seq o :: op_entries (seq + 1) ops
  end.

Lemma op_entry_key seq o : e_key (op_entry seq o) = op_key o.
Proof. by destruct o. Qed.

Lemma op_entry_seq seq o : e_seq (op_entry seq o) = seq.
Proof. by destruct o. Qed.

Lemma op_entries_lookup ops : forall seq e,
  e ∈ op_entries seq ops <-> exists i o, ops !! i = Some o /\ e = op_entry (seq + Z.of_nat i) o.
Proof.
  induction ops as [|o ops IH]; intros seq e; cbn [op_entries].
  { rewrite elem_of_nil. naive_solver. }
  rewrite elem_of_cons, IH. split.
  - intros [->|(i & o' & Hi & ->)]; [exists 0%nat, o; by rewrite Z.add_0_r|].
    exists (Datatypes.S i), o'. split; [done|]. f_equal. lia.
  - intros ([|i] & o' & Hi & ->); simpl in Hi; [left; simplify_eq; by rewrite Z.add_0_r|].
    right. exists i, o'. split; [done|]. f_equal. lia.
Qed.

Section Insert.
Context {ucmp : Comparator} {ok : Slice -> Prop} `{L : ComparatorLaws ucmp ok}.
#[local] Abbreviation valid := (entry_valid (ok := ok)).
#[local] Abbreviation Holds := (LvMemTable.Holds (ucmp := ucmp) (ok := ok)).
#[local] Abbreviation lookup_result := (LvMemTable.lookup_result (ucmp := ucmp)).

(** Entries whose sequence numbers are below the batch's. *)
Lemma apply_inserter ops : forall seq m es,
  Holds m es -> Forall valid (op_entries seq ops) -> Forall (fun e => e_seq e < seq) es ->
  exists m' es', apply_ops (Inserter_Handler ucmp) ops {| sequence_ := seq; mem_ := m |} =
      Ret (tt, {| sequence_ := seq + Z.of_nat (length ops); mem_ := m' |}) /\
    Holds m' es' /\ es' ≡ₚ op_entries seq ops ++ es.
Proof.
  induction ops as [|o ops IH]; intros seq m es HH Hv Hs.
  { exists m, es. cbn. by rewrite Z.add_0_r. }
  cbn [op_entries] in Hv |- *. apply Forall_cons in Hv as [Hv Hvs].
  destruct (Add_spec m es (op_entry seq o) HH Hv) as (m1 & es1 & E1 & H1 & P1 & _).
  { eapply Forall_impl; [exact Hs|]. cbv beta. intros e He [_ Heq]. rewrite op_entry_seq in Heq. lia. }
  assert (Hseq : u64 (seq + 1) = seq + 1).
  { pose proof (ev_seq _ Hv) as Hq. rewrite op_entry_seq in Hq. unfold seq_ok in Hq.
    change kMaxSequenceNumber with (2 ^ 56 - 1) in Hq. apply wrap_small. lia. }
  assert (E : apply_op (Inserter_Handler ucmp) o {| sequence_ := seq; mem_ := m |} =
              Ret (tt, {| sequence_ := seq + 1; mem_ := m1 |})).
  { destruct o; cbn [op_entry e_key e_seq e_type e_value] in E1; cbn [apply_op Inserter_Handler Handler_Put Handler_Delete];
      unfold Inserter_Add; cbn [sequence_ mem_]; by rewrite E1, Hseq. }
  destruct (IH (seq + 1) m1 es1 H1 Hvs) as (m' & es' & E2 & H2 & P2).
  { rewrite P1. constructor; [rewrite op_entry_seq; lia|]. eapply Forall_impl; [exact Hs|]. cbv beta. lia. }
  exists m', es'. cbn [apply_ops]. unfold bind. rewrite E, E2. split; [do 3 f_equal; cbn [length]; lia|].
  split; [done|]. rewrite P2, P1. symmetry. apply Permutation_middle.
Qed.

Lemma InsertInto_spec b seq ops m es :
  Batch b seq ops -> Holds m es -> Forall valid (op_entries seq ops) -> Forall (fun e => e_seq e < seq) es ->
  exists m' es', WriteBatch_InsertInto ucmp b m = Ret (Status_OK, m') /\
    Holds m' es' /\ es' ≡ₚ op_entries seq ops ++ es.
Proof.
  intros HB HH Hv Hs. destruct (apply_inserter ops seq m es HH Hv Hs) as (m' & es' & E & H' & P').
  exists m', es'. unfold WriteBatch_InsertInto. rewrite (Iterate_spec _ b seq ops) by done.
  rewrite (Sequence_spec b seq ops HB). unfold bind. by rewrite E.
Qed.

(** The last operation on the key [u]. *)
Fixpoint last_op (ops : list Op) (u : Slice) : option Op :=
  match ops with
  | [] => None
  | o :: ops =>
      match last_op ops u with
      | Some o' => Some o'
      | None => if Compare ucmp (op_key o) u =? 0 then Some o else None
      end
  end.

Lemma last_op_spec ops u :
  match last_op ops u with
  | Some o => exists i, ops !! i = Some o /\ Compare ucmp (op_key o) u = 0 /\
      forall j o', ops !! j = Some o' -> Compare ucmp (op_key o') u = 0 -> (j <= i)%nat
  | None => forall j o', ops !! j = Some o' -> Compare ucmp (op_key o') u <> 0
  end.
Proof.
  induction ops as [|o ops IH]; cbn [last_op]; [done|]. destruct (last_op ops u) as [o'|].
  - destruct IH as (i & Hi & Hc & Hm). exists (Datatypes.S i). split; [done|]. split; [done|].
    intros [|j] o2 Hj Hc2; [lia|]. simpl in Hj. pose proof (Hm j o2 Hj Hc2). lia.
  - destruct (Z.eqb_spec (Compare ucmp (op_key o) u) 0) as [E|E].
    + exists 0%nat. split; [done|]. split; [done|]. intros [|j] o2 Hj Hc2; [lia|]. by destruct (IH j o2 Hj).
    + intros [|j] o2 Hj; simpl in Hj; [by simplify_eq|by apply (IH j)].
Qed.

Definition op_outcome (o : Op) : Slice + Status :=
  match o with OpPut _ v => inl v | OpDelete _ => inr (Status_NotFound [] []) end.

(** A snapshot from before the batch sees the old entries only. *)
Lemma lookup_before seq ops es u s r :
  s < seq -> lookup_result (op_entries seq ops ++ es) u s r -> lookup_result es u s r.
Proof.
  intros Hs. assert (Hn : Forall (fun e => ~ visible (ucmp := ucmp) u s e) (op_entries seq ops)).
  { apply Forall_forall. intros e He [_ Hq]. apply op_entries_lookup in He as (i & o & _ & ->).
    rewrite op_entry_seq in Hq. lia. }
  destruct r as [o|]; cbn [LvMemTable.lookup_result].
  - intros (e & He & Hvis & Eo & Hf). exists e. apply Forall_app in Hf as [_ Hf]. split; [|done].
    apply elem_of_app in He as [He|He]; [|done]. rewrite Forall_forall in Hn. by destruct (Hn e He).
  - intros Hf. by apply Forall_app in Hf as [_ Hf].
Qed.

(** A snapshot from after the batch sees its last operation on the key, or
    else the old entries. *)
Lemma lookup_after seq ops es u s r :
  seq + Z.of_nat (length ops) - 1 <= s -> Forall (fun e => e_seq e < seq) es ->
  lookup_result (op_entries seq ops ++ es) u s r ->
  match last_op ops u with Some o => r = Some (op_outcome o) | None => lookup_result es u s r end.
Proof.
  intros Hs Hold Hr. pose proof (last_op_spec ops u) as Hl. destruct (last_op ops u) as [o|].
  - destruct Hl as (i & Hi & Hc & Hm). assert (He : op_entry (seq + Z.of_nat i) o ∈ op_entries seq ops ++ es).
    { apply elem_of_app. left. apply op_entries_lookup. by exists i, o. }
    assert (Hvis : visible (ucmp := ucmp) u s (op_entry (seq + Z.of_nat i) o)).
    { apply lookup_lt_Some in Hi. split; [by rewrite op_entry_key|]. rewrite op_entry_seq. lia. }
    destruct r as [x|]; cbn [LvMemTable.lookup_result] in Hr.
    + destruct Hr as (e & He' & [Hce Hqe] & -> & Hf). rewrite Forall_forall in Hf, Hold.
      pose proof (Hf _ He Hvis) as Hge. rewrite op_entry_seq in Hge. apply elem_of_app in He' as [He'|He'].
      * apply op_entries_lookup in He' as (j & o' & Hj & ->). rewrite op_entry_key in Hce. rewrite op_entry_seq in Hge.
        pose proof (Hm j o' Hj Hce). assert (j = i) by lia. subst j.
        rewrite Hi in Hj. injection Hj as <-. by destruct o.
      * specialize (Hold e He'). lia.
    + rewrite Forall_forall in Hr. by destruct (Hr _ He).
  - assert (Hn : Forall (fun e => ~ visible (ucmp := ucmp) u s e) (op_entries seq ops)).
    { apply Forall_forall. intros e He [Hce _]. apply op_entries_lookup in He as (i & o & Hi & ->).
      rewrite op_entry_key in Hce. by destruct (Hl i o Hi). }
    destruct r as [x|]; cbn [LvMemTable.lookup_result] in Hr |- *; [|by apply Forall_app in Hr as [_ Hr]].
    destruct Hr as (e & He & Hvis & Eo & Hf). exists e. apply Forall_app in Hf as [_ Hf]. split; [|done].
    apply elem_of_app in He as [He|He]; [|done]. rewrite Forall_forall in Hn. by destruct (Hn e He).
Qed.

(** C24: inserting a batch into a memtable is atomic for readers with a sequence
    number: the memtable then holds what it held and one entry for each operation
    of the batch, numbered from the batch's sequence number on, and nothing else;
    the lookups of a snapshot from before the batch still give what the old entries say, and those of a
    snapshot from after it give the last operation of the batch on the key,
    and what the old entries say for the keys the batch does not touch. *)
Theorem WriteBatch_InsertInto_atomic b seq ops m es :
  Batch b seq ops -> Holds m es -> Forall valid (op_entries seq ops) -> Forall (fun e => e_seq e < seq) es ->
  exists m' es', WriteBatch_InsertInto ucmp b m = Ret (Status_OK, m') /\
    Holds m' es' /\ es' ≡ₚ op_entries seq ops ++ es /\
    forall u s, ok u -> size u + 8 < 2 ^ 32 -> seq_ok s ->
    exists r, MemTable_Get ucmp (LookupKey_new u s) m' = Ret (r, m') /\
      (s < seq -> lookup_result es u s r) /\
      (seq + Z.of_nat (length ops) - 1 <= s ->
       match last_op ops u with Some o => r = Some (op_outcome o) | None => lookup_result es u s r end).
Proof.
  intros HB HH Hv Hs. destruct (InsertInto_spec b seq ops m es HB HH Hv Hs) as (m' & es' & E & H' & P').
  exists m', es'. split; [done|]. split; [done|]. split; [done|]. intros u s Hu Hsz Hq. destruct (Get_spec u s Hu Hsz Hq m' es' H') as (r & Er & Hr).
  exists r. split; [done|]. apply (lookup_result_perm _ _ u s r P') in Hr.
  split; intros Hle; [by apply (lookup_before seq ops)|by apply (lookup_after seq)].
Qed.
End Insert.

Lemma WriteBatch_InsertInto_atomic_witness :
  exists m', WriteBatch_InsertInto BytewiseComparator (WriteBatch_SetSequence sample_batch 9) MemTable_new =
      Ret (Status_OK, m') /\
    (exists es', Holds (ucmp := BytewiseComparator) (ok := is_bytes) m' es' /\ length es' = 2%nat) /\
    exists r, MemTable_Get BytewiseComparator (LookupKey_new (chars "a") 10) m' = Ret (r, m') /\
      r = Some (inl (chars "one")).
Proof.
  destruct (WriteBatch_InsertInto_atomic (ucmp := BytewiseComparator) (ok := is_bytes)
    (WriteBatch_SetSequence sample_batch 9) 9 sample_ops MemTable_new []) as (m' & es' & E & H' & P' & H).
  - constructor; [by vm_compute|lia|by vm_compute|by repeat constructor].
  - apply Holds_new.
  - repeat constructor; cbn [e_key e_seq e_value]; try lia; try solve_bytes; by vm_compute.
  - constructor.
  - exists m'. split; [exact E|]. split; [exists es'; split; [exact H'|by rewrite P']|]. destruct (H (chars "a") 10) as (r & Er & _ & Ha);
      [solve_bytes|by vm_compute|split; by vm_compute|].
    exists r. split; [exact Er|]. apply Ha. by vm_compute.
Defined.
