(* ===== verification/LvEnv.v ===== *)
(** Files as leveldb sees them: the virtual functions of [SequentialFile],
    [RandomAccessFile] and [WritableFile] ([include/leveldb/env.h]), what their
    clients rely on, the helpers of [util/env.cc], and the POSIX files of
    [util/env_posix.cc] over the system calls. *)

From stdpp Require Import base list gmap strings.
From Stdlib Require Import ZArith Lia.
From S2P Require Import Prelude LvSlice.

(** * Interfaces *)

(** [WritableFile] over the state [F] of the file. *)
Class WritableFile (F : Type) : Type := {
  File_Append : Slice -> M F Status;
  File_Close : M F Status;
  File_Flush : M F Status;
  File_Sync : M F Status
}.

(** [SequentialFile]: [Read] returns the data read with the status. *)
Class SequentialFile (F : Type) : Type := {
  File_Read : Z -> M F (Status * Slice);
  File_Skip : Z -> M F Status
}.

(** [RandomAccessFile]: [Read] returns the data with the status, and whether it
    is in the caller's buffer. *)
Class RandomAccessFile (F : Type) : Type := {
  RandomAccess_Read : Z -> Z -> M F (Status * Slice * bool)
}.

(** What a client of a file that does not fail can rely on: [Ready f w] says
    that [w] is everything written to the file [f]. *)
Class WritableLaws (F : Type) `{WritableFile F} (Ready : F -> Slice -> Prop) : Prop := {
  append_law f w data : Ready f w ->
    exists f', File_Append data f = Ret (Status_OK, f') /\ Ready f' (w ++ data);
  flush_law f w : Ready f w -> exists f', File_Flush f = Ret (Status_OK, f') /\ Ready f' w;
  sync_law f w : Ready f w -> exists f', File_Sync f = Ret (Status_OK, f') /\ Ready f' w
}.

(** [Remains f w]: [w] is what the file has left. [Read] takes as much as it is
    asked for, or else all. *)
Class SequentialLaws (F : Type) `{SequentialFile F} (Remains : F -> Slice -> Prop) : Prop := {
  read_law f w n : Remains f w -> 0 <= n ->
    exists f', File_Read n f = Ret ((Status_OK, take (Z.to_nat n) w), f') /\ Remains f' (drop (Z.to_nat n) w);
  skip_law f w n : Remains f w -> 0 <= n ->
    exists f', File_Skip n f = Ret (Status_OK, f') /\ Remains f' (drop (Z.to_nat n) w)
}.

(** [Contains f w]: [w] is the file's contents, which a read inside them
    returns and no read changes. *)
Class RandomAccessLaws (F : Type) `{RandomAccessFile F} (Contains : F -> Slice -> Prop) : Prop := {
  random_read_law f w offset n : Contains f w -> 0 <= offset -> 0 <= n -> offset + n <= size w ->
    exists f' b, RandomAccess_Read offset n f =
      Ret ((Status_OK, take (Z.to_nat n) (drop (Z.to_nat offset) w), b), f') /\ Contains f' w
}.

(** A file in memory. *)
Definition MemFile : Type := Slice.

#[export] Instance MemFile_writable : WritableFile MemFile := {
  File_Append data := fun f => Ret (Status_OK, f ++ data);
  File_Close := ret Status_OK;
  File_Flush := ret Status_OK;
  File_Sync := ret Status_OK
}.

#[export] Instance MemFile_sequential : SequentialFile MemFile := {
  File_Read n := fun f => Ret ((Status_OK, take (Z.to_nat n) f), drop (Z.to_nat n) f);
  File_Skip n := fun f => Ret (Status_OK, drop (Z.to_nat n) f)
}.

#[export] Instance MemFile_writable_laws : WritableLaws MemFile eq.
Proof. constructor; [intros ? ? ? ->|intros ? ? ->..]; by eexists. Qed.

#[export] Instance MemFile_sequential_laws : SequentialLaws MemFile eq.
Proof. constructor; intros ? ? ? -> ?; by eexists. Qed.

#[export] Instance MemFile_random : RandomAccessFile MemFile := {
  RandomAccess_Read offset n := fun f => Ret ((Status_OK, take (Z.to_nat n) (drop (Z.to_nat offset) f), true), f)
}.

#[export] Instance MemFile_random_laws : RandomAccessLaws MemFile eq.
Proof. constructor. intros f w offset n -> _ _ _. by eexists _, _. Qed.

(** * util/env.cc *)

(** [DoWriteStringToFile] once [NewWritableFile] succeeded; [delete file] closes
    the file when that was not done above. The second component says whether
    [DeleteFile] is called. *)
Definition DoWriteStringToFile {F} `{WritableFile F} (data : Slice) (should_sync : bool) : M F (Status * bool) :=
  let* s := File_Append data in
  let* s := if Status_ok s && should_sync then File_Sync else ret s in
  let* s := if Status_ok s then File_Close else ret s in
  ret (s, negb (Status_ok s)).

Definition WriteStringToFile {F} `{WritableFile F} (data : Slice) : M F (Status * bool) :=
  DoWriteStringToFile data false.
Definition WriteStringToFileSync {F} `{WritableFile F} (data : Slice) : M F (Status * bool) :=
  DoWriteStringToFile data true.

(** The loop of [ReadFileToString]: the status and [*data]. *)
Fixpoint ReadFileToString {F} `{SequentialFile F} (fuel : nat) (data : Slice) : M F (Status * Slice) :=
  match fuel with
  | O => nofuel
  | S fuel =>
      let* '(s, fragment) := File_Read 8192 in
      if negb (Status_ok s) then ret (s, data)
      else
        let data := data ++ fragment in
        if Slice_empty fragment then ret (s, data) else ReadFileToString fuel data
  end.

(** * Limiter *)

Record Limiter : Type := { acquires_allowed_ : Z }.

Definition Limiter_Acquire (l : Limiter) : bool * Limiter :=
  let old_acquires_allowed := acquires_allowed_ l in
  let l := {| acquires_allowed_ := acquires_allowed_ l - 1 |} in
  if old_acquires_allowed >? 0 then (true, l)
  else (false, {| acquires_allowed_ := acquires_allowed_ l + 1 |}).

Definition Limiter_Release (l : Limiter) : Limiter := {| acquires_allowed_ := acquires_allowed_ l + 1 |}.

(** * File names *)

(** The part of a path after its last slash, and what is before the slash. *)
Fixpoint rfind_slash (s : Slice) : option (Slice * Slice) :=
  match s with
  | [] => None
  | c :: s' =>
      match rfind_slash s' with
      | Some (dir, base) => Some (c :: dir, base)
      | None => if c =? 47 then Some ([], s') else None
      end
  end.

Definition Dirname (filename : Slice) : Slice :=
  match rfind_slash filename with None => chars "." | Some (dir, _) => dir end.

Definition Basename (filename : Slice) : Slice :=
  match rfind_slash filename with None => filename | Some (_, base) => base end.

Definition IsManifest (filename : Slice) : bool := Slice_starts_with (Basename filename) (chars "MANIFEST").

(** * POSIX files *)

Definition ENOENT : Z := 2.
Definition EINTR : Z := 4.
Definition EINVAL : Z := 22.

(** The system calls on the state [K] of the kernel: the value returned and
    [errno]. [sys_read] and [sys_pread] give the data read,
    [sys_fullfsync] is [fcntl(fd, F_FULLFSYNC)]. *)
Class Posix (K : Type) : Type := {
  strerror : Z -> Slice;
  sys_open : Slice -> K -> (Z * Z) * K;
  sys_close : Z -> K -> (Z * Z) * K;
  sys_write : Z -> Slice -> K -> (Z * Z) * K;
  sys_fullfsync : Z -> K -> (Z * Z) * K;
  sys_fsync : Z -> K -> (Z * Z) * K;
  sys_read : Z -> Z -> K -> ((Z * Slice) * Z) * K;
  sys_pread : Z -> Z -> Z -> K -> ((Z * Slice) * Z) * K;
  sys_lseek : Z -> Z -> K -> (Z * Z) * K
}.

Definition kWritableFileBufferSize : Z := 65536.

Section Posix.
Context {K : Type} `{Posix K}.

Definition PosixError (context : Slice) (error_number : Z) : Status :=
  if error_number =? ENOENT then Status_NotFound context (strerror error_number)
  else Status_IOError context (strerror error_number).

(** A system call in the monad of a class whose state holds the kernel. *)
Definition call {S A} (get_ : S -> K) (set_ : K -> S -> S) (c : K -> A * K) : M S A :=
  fun s => let '(a, k) := c (get_ s) in Ret (a, set_ k s).

(** ** Reading *)

Record PosixSequentialFile : Type := { psf_fd : Z; psf_filename : Slice; psf_kernel : K }.

Definition psf_call {A} (c : K -> A * K) : M PosixSequentialFile A :=
  call psf_kernel (fun k f => {| psf_fd := psf_fd f; psf_filename := psf_filename f; psf_kernel := k |}) c.

(** [while (true)]: another round after [EINTR]. *)
Fixpoint PosixSequentialFile_Read (fuel : nat) (n : Z) : M PosixSequentialFile (Status * Slice) :=
  match fuel with
  | O => nofuel
  | S fuel =>
      let* f := get in
      let* '(read_size, data, errno) := psf_call (sys_read (psf_fd f) n) in
      if read_size <? 0 then
        if errno =? EINTR then PosixSequentialFile_Read fuel n
        else ret (PosixError (psf_filename f) errno, [])
      else ret (Status_OK, data)
  end.

Definition PosixSequentialFile_Skip (n : Z) : M PosixSequentialFile Status :=
  let* f := get in
  let* '(r, errno) := psf_call (sys_lseek (psf_fd f) n) in
  if r =? -1 then ret (PosixError (psf_filename f) errno) else ret Status_OK.

(** [PosixRandomAccessFile::Read]: [fd_] is kept open, or the file is opened for
    every read. *)
Record PosixRandomAccessFile : Type := {
  has_permanent_fd_ : bool; praf_fd : Z; praf_filename : Slice; praf_kernel : K
}.

Definition praf_call {A} (c : K -> A * K) : M PosixRandomAccessFile A :=
  call praf_kernel (fun k f => {| has_permanent_fd_ := has_permanent_fd_ f; praf_fd := praf_fd f;
    praf_filename := praf_filename f; praf_kernel := k |}) c.

Definition PosixRandomAccessFile_Read (offset n : Z) : M PosixRandomAccessFile (Status * Slice) :=
  let* f := get in
  let* '(fd, errno) :=
    if has_permanent_fd_ f then ret (praf_fd f, 0) else praf_call (sys_open (praf_filename f)) in
  if negb (has_permanent_fd_ f) && (fd <? 0) then ret (PosixError (praf_filename f) errno, [])
  else
    let* '(read_size, data, errno) := praf_call (sys_pread fd n offset) in
    let result := if read_size <? 0 then [] else data in
    let status := if read_size <? 0 then PosixError (praf_filename f) errno else Status_OK in
    if negb (has_permanent_fd_ f)
    then let* _ := praf_call (sys_close fd) in ret (status, result)
    else ret (status, result).

(** [PosixMmapReadableFile::Read] of a file mapped at [mmap_base_]. [None]: the
    sum of offset and length has wrapped, and the slice is outside the file. *)
Definition PosixMmapReadableFile_Read (filename mmap_base : Slice) (offset n : Z) : option (Status * Slice) :=
  if u64 (offset + n) >? size mmap_base then Some (PosixError filename EINVAL, [])
  else if offset + n <=? size mmap_base
  then Some (Status_OK, take (Z.to_nat n) (drop (Z.to_nat offset) mmap_base))
  else None.

(** ** Writing *)

(** [buf_[0, pos_ - 1]], the descriptor, and the names. *)
Record PosixWritableFile : Type := {
  buf_ : Slice; fd_ : Z; is_manifest_ : bool; filename_ : Slice; dirname_ : Slice; kernel_ : K
}.

Definition PosixWritableFile_new (filename : Slice) (fd : Z) (k : K) : PosixWritableFile := {|
  buf_ := []; fd_ := fd; is_manifest_ := IsManifest filename; filename_ := filename;
  dirname_ := Dirname filename; kernel_ := k
|}.

Definition pos_ (f : PosixWritableFile) : Z := size (buf_ f).

Definition pwf_call {A} (c : K -> A * K) : M PosixWritableFile A :=
  call kernel_ (fun k f => {| buf_ := buf_ f; fd_ := fd_ f; is_manifest_ := is_manifest_ f;
    filename_ := filename_ f; dirname_ := dirname_ f; kernel_ := k |}) c.

Definition set_buf (buf : Slice) : M PosixWritableFile unit :=
  fun f => Ret (tt, {| buf_ := buf; fd_ := fd_ f; is_manifest_ := is_manifest_ f;
    filename_ := filename_ f; dirname_ := dirname_ f; kernel_ := kernel_ f |}).

Definition set_fd (fd : Z) : M PosixWritableFile unit :=
  fun f => Ret (tt, {| buf_ := buf_ f; fd_ := fd; is_manifest_ := is_manifest_ f;
    filename_ := filename_ f; dirname_ := dirname_ f; kernel_ := kernel_ f |}).

(** The rounds a write of [n] bytes may take. *)
Variable write_fuel : nat -> nat.

(** [while (size > 0)]. *)
Fixpoint WriteUnbuffered_loop (fuel : nat) (data : Slice) : M PosixWritableFile Status :=
  match data with
  | [] => ret Status_OK
  | _ =>
      match fuel with
      | O => nofuel
      | S fuel =>
          let* f := get in
          let* '(write_result, errno) := pwf_call (sys_write (fd_ f) data) in
          if write_result <? 0 then
            if errno =? EINTR then WriteUnbuffered_loop fuel data
            else ret (PosixError (filename_ f) errno)
          else WriteUnbuffered_loop fuel (drop (Z.to_nat write_result) data)
      end
  end.

Definition WriteUnbuffered (data : Slice) : M PosixWritableFile Status := 
  WriteUnbuffered_loop (write_fuel (length data)) data.

Definition FlushBuffer : M PosixWritableFile Status :=
  let* f := get in
  let* status := WriteUnbuffered (buf_ f) in
  set_buf [] ;;; ret status.

Definition PosixWritableFile_Append (data : Slice) : M PosixWritableFile Status :=
  let* f := get in
  let copy_size := Z.min (size data) (kWritableFileBufferSize - pos_ f) in
  set_buf (buf_ f ++ take (Z.to_nat copy_size) data) ;;;
  let write_data := drop (Z.to_nat copy_size) data in
  let write_size := size data - copy_size in
  if write_size =? 0 then ret Status_OK
  else
    let* status := FlushBuffer in
    if negb (Status_ok status) then ret status
    else if write_size <? kWritableFileBufferSize then set_buf write_data ;;; ret Status_OK
    else WriteUnbuffered write_data.

Definition PosixWritableFile_Close : M PosixWritableFile Status :=
  let* status := FlushBuffer in
  let* f := get in
  let* '(close_result, errno) := pwf_call (sys_close (fd_ f)) in
  set_fd (-1) ;;;
  ret (if (close_result <? 0) && Status_ok status then PosixError (filename_ f) errno else status).

Definition PosixWritableFile_Flush : M PosixWritableFile Status := FlushBuffer.

(** [HAVE_FULLFSYNC] is defined: [fcntl(fd, F_FULLFSYNC)], else [fsync]. *)
Definition SyncFd (fd : Z) (fd_path : Slice) : M PosixWritableFile Status :=
  let* '(r, _) := pwf_call (sys_fullfsync fd) in
  if r =? 0 then ret Status_OK
  else
    let* '(r, errno) := pwf_call (sys_fsync fd) in
    if r =? 0 then ret Status_OK else ret (PosixError fd_path errno).

Definition SyncDirIfManifest : M PosixWritableFile Status :=
  let* f := get in
  if negb (is_manifest_ f) then ret Status_OK
  else
    let* '(fd, errno) := pwf_call (sys_open (dirname_ f)) in
    if fd <? 0 then ret (PosixError (dirname_ f) errno)
    else
      let* status := SyncFd fd (dirname_ f) in
      let* _ := pwf_call (sys_close fd) in
      ret status.

Definition PosixWritableFile_Sync : M PosixWritableFile Status :=
  let* status := SyncDirIfManifest in
  if negb (Status_ok status) then ret status
  else
    let* status := FlushBuffer in
    if negb (Status_ok status) then ret status
    else let* f := get in SyncFd (fd_ f) (filename_ f).

#[export] Instance PosixWritableFile_file : WritableFile PosixWritableFile := {
  File_Append := PosixWritableFile_Append;
  File_Close := PosixWritableFile_Close;
  File_Flush := PosixWritableFile_Flush;
  File_Sync := PosixWritableFile_Sync
}.
End Posix.
Arguments PosixWritableFile K : clear implicits.
Arguments PosixSequentialFile K : clear implicits.
Arguments PosixRandomAccessFile K : clear implicits.

(** * Properties

    The files keep what is written to them: the POSIX file with its buffer
    implements the interface of a file that does not fail, and loses only a
    suffix when a system call fails; reading a whole file; file names. *)

(** What the system calls on the descriptor [fd] do: a write adds a prefix of the
    data, possibly an empty one, or fails and adds nothing; only [patience] many
    calls in a row make no progress without an error. *)
Class PosixLaws (K : Type) `{Posix K} (fd : Z) (disk : K -> Slice) (patience : K -> nat) (P : nat) : Prop := {
  patience_bound k : (patience k <= P)%nat;
  write_law k data : data <> [] ->
    exists r e k', sys_write fd data k = ((r, e), k') /\
      (0 < r <= size data /\ disk k' = disk k ++ take (Z.to_nat r) data \/
       (r = 0 \/ r = -1 /\ e = EINTR) /\ disk k' = disk k /\ (patience k' < patience k)%nat \/
       r = -1 /\ e <> EINTR /\ disk k' = disk k);
  fullfsync_law k fd' : exists r e k', sys_fullfsync fd' k = ((r, e), k') /\ disk k' = disk k;
  fsync_law k fd' : exists r e k', sys_fsync fd' k = ((r, e), k') /\ disk k' = disk k;
  open_law k name : exists r e k', sys_open name k = ((r, e), k') /\ disk k' = disk k;
  close_law k fd' : exists r e k', sys_close fd' k = ((r, e), k') /\ disk k' = disk k
}.

(** A kernel whose calls do not fail for lack of space or by a broken device. *)
Class PosixReliable (K : Type) `{Posix K} (fd : Z) : Prop := {
  write_reliable k data r e k' : sys_write fd data k = ((r, e), k') -> r <> -1 \/ e = EINTR;
  fsync_reliable k fd' r e k' : sys_fsync fd' k = ((r, e), k') -> r = 0;
  open_reliable k name r e k' : sys_open name k = ((r, e), k') -> 0 <= r
}.

Section Writable.
Context {K : Type} `{PX : Posix K} {fd : Z} {disk : K -> Slice} {patience : K -> nat} {P : nat}.
Context `{PL : !PosixLaws K fd disk patience P}.

(** The file [f] with the bytes [w] given to it, some of them in its buffer. *)
Record Written (f : PosixWritableFile K) (w : Slice) : Prop := {
  wr_fd : fd_ f = fd;
  wr_data : w = disk (kernel_ f) ++ buf_ f;
  wr_pos : pos_ f <= kWritableFileBufferSize
}.

(** The same file but for its buffer and the kernel. *)
Definition same_file (f g : PosixWritableFile K) : Prop :=
  fd_ g = fd_ f /\ is_manifest_ g = is_manifest_ f /\ filename_ g = filename_ f /\ dirname_ g = dirname_ f.

Lemma set_buf_eq f b : exists f', set_buf b f = Ret (tt, f') /\ same_file f f' /\ buf_ f' = b /\ kernel_ f' = kernel_ f.
Proof. by eexists. Qed.

(** Enough rounds for [n] bytes. *)
Definition rounds (n : nat) : nat := (n * S P + P)%nat.

Lemma same_file_trans f g h : same_file f g -> same_file g h -> same_file f h.
Proof. unfold same_file. intuition congruence. Qed.

(** What writing [data] out leads to. *)
Definition Wrote (f : PosixWritableFile K) (data : Slice) (c : outcome (Status * PosixWritableFile K)) : Prop :=
  exists st f' a b, c = Ret (st, f') /\ same_file f f' /\ buf_ f' = buf_ f /\
    data = a ++ b /\ disk (kernel_ f') = disk (kernel_ f) ++ a /\
    (st = Status_OK -> b = []) /\ (PosixReliable K fd -> st = Status_OK).

Lemma Wrote_nil f : Wrote f [] (Ret (Status_OK, f)).
Proof. exists Status_OK, f, [], []. rewrite (app_nil_r (disk _)). split_and!; done. Qed.

Lemma Wrote_more f f1 a b c :
  same_file f f1 -> buf_ f1 = buf_ f -> disk (kernel_ f1) = disk (kernel_ f) ++ a ->
  Wrote f1 b c -> Wrote f (a ++ b) c.
Proof.
  intros S1 B1 D1 (st & f' & a' & b' & -> & S2 & B2 & -> & D2 & Ho & Hr).
  exists st, f', (a ++ a'), b'. rewrite D2, D1, <- !app_assoc.
  split; [done|]. split; [by apply (same_file_trans f f1)|].
  rewrite B2. split_and!; done.
Qed.

Lemma WriteUnbuffered_loop_spec fuel : forall data f,
  fd_ f = fd -> (length data * S P + patience (kernel_ f) <= fuel)%nat ->
  Wrote f data (WriteUnbuffered_loop fuel data f).
Proof.
  induction fuel as [|fuel IH]; intros data f Hfd Hf; (destruct data as [|x data]; [apply Wrote_nil|]);
    [simpl in Hf; lia|].
  cbn [WriteUnbuffered_loop]. set (d := x :: data) in *. unfold bind, get, pwf_call, call. cbv beta iota.
  destruct (write_law (fd := fd) (kernel_ f) d ltac:(done)) as (r & e & k' & E & Hr).
  rewrite Hfd, E. pose proof (patience_bound (fd := fd) k') as Hp.
  match goal with |- Wrote _ _ (_ ?f1) => set (f1' := f1) end.
  assert (S1 : same_file f f1') by (split; [by rewrite Hfd|done]).
  destruct Hr as [(Hr & Hd)|[(Hr & Hd & Hpat)|(-> & He & Hd)]].
  - destruct (Z.ltb_spec r 0); [lia|]. rewrite <- (take_drop (Z.to_nat r) d) at 1.
    apply (Wrote_more f f1'); [done..|]. apply IH; [done|]. rewrite length_drop.
    change (kernel_ f1') with k'. unfold size in Hr. assert (1 <= Z.to_nat r)%nat by lia. nia.
  - assert (Hgo : Wrote f d (WriteUnbuffered_loop fuel d f1')).
    { apply (Wrote_more f f1' []); [done|done|by rewrite app_nil_r|]. apply IH; [done|].
      change (kernel_ f1') with k'. lia. }
    destruct Hr as [->|[-> ->]]; exact Hgo.
  - cbn [Z.ltb Z.compare]. destruct (Z.eqb_spec e EINTR); [done|].
    exists (PosixError (filename_ f1') e), f1', [], d. split; [done|]. split; [done|]. split; [done|]. split; [done|].
    split; [by rewrite app_nil_r|]. split; [unfold PosixError; by destruct (e =? ENOENT)|].
    intros HR. by destruct (write_reliable _ _ _ _ _ E).
Qed.

Section Fuel.
Context (write_fuel : nat -> nat) (Hfuel : forall n, (n * S P + P <= write_fuel n)%nat).

Lemma WriteUnbuffered_spec data f : fd_ f = fd -> Wrote f data (WriteUnbuffered write_fuel data f).
Proof.
  intros Hfd. apply WriteUnbuffered_loop_spec; [done|].
  pose proof (Hfuel (length data)). pose proof (patience_bound (fd := fd) (kernel_ f)). lia.
Qed.

(** A call that gives [data] to a file, of which [w] was written before: all of
    it is there, or, after an error, a prefix on the disk and nothing in the
    buffer. *)
Definition Gives (f : PosixWritableFile K) (w data : Slice) (flushed : bool)
    (c : outcome (Status * PosixWritableFile K)) : Prop :=
  exists st f', c = Ret (st, f') /\
    (st = Status_OK -> Written f' (w ++ data) /\ (flushed = true -> buf_ f' = [])) /\
    (st <> Status_OK -> exists lost, w ++ data = disk (kernel_ f') ++ buf_ f' ++ lost) /\
    (PosixReliable K fd -> st = Status_OK) /\ same_file f f'.

Lemma Flush_gives f w : Written f w -> Gives f w [] true (FlushBuffer write_fuel f).
Proof.
  intros [Hfd Hw Hp]. unfold FlushBuffer, bind, get.
  destruct (WriteUnbuffered_spec (buf_ f) f Hfd) as (st & f' & a & b & -> & Hs & _ & Eb & Hd & Ho & Hr).
  unfold set_buf, ret. eexists st, _. split; [done|]. split; [|split; [|split; [done|done]]].
  - intros Eo. rewrite app_nil_r. split; [|done]. constructor; [destruct Hs as [E _]; cbn; congruence| |done].
    cbn. rewrite Hd, Hw, Eb, (Ho Eo). by rewrite !app_nil_r.
  - intros _. exists b. cbn. by rewrite Hd, Hw, Eb, app_nil_r, <- app_assoc.
Qed.

Lemma Append_gives f w data : Written f w -> Gives f w data false (PosixWritableFile_Append write_fuel data f).
Proof.
  intros HW. pose proof HW as [Hfd Hw Hp]. unfold PosixWritableFile_Append, bind at 1, get at 1.
  set (n := Z.min _ _). assert (Hn : 0 <= n <= size data) by (pose proof (size_nonneg data); lia).
  unfold bind at 1, set_buf at 1. set (f1 := Build_PosixWritableFile _ _ _ _ _ _).
  set (t := take (Z.to_nat n) data) in *. assert (Et : size t = n) by (unfold t, size in *; rewrite length_take; lia).
  assert (H1 : Written f1 (w ++ t)).
  { constructor; [done|cbn; by rewrite Hw, <- app_assoc|]. unfold pos_ in *. cbn. rewrite size_app. lia. }
  assert (Sf : same_file f f1) by done. rewrite <- (take_drop (Z.to_nat n) data) at 1. fold t.
  set (d := drop (Z.to_nat n) data). assert (Ed : size d = size data - n) by (unfold d, size in *; rewrite length_drop; lia).
  destruct (Z.eqb_spec (size data - n) 0) as [E0|E0].
  { assert (d = []) as -> by (apply nil_length_inv; unfold size in Ed, E0; lia).
    exists Status_OK, f1. rewrite app_nil_r. by split_and!. }
  unfold bind at 1. destruct (Flush_gives f1 (w ++ t) H1) as (st & f2 & -> & Ho & Hl & Hr & Hs).
  destruct st as [m|]; cbn [Status_ok Status_OK negb].
  { exists (Some m), f2. split; [done|]. split; [done|]. split; [|split; [done|by apply (same_file_trans f f1)]].
    intros Hne. destruct (Hl Hne) as [lost El]. exists (lost ++ d). rewrite app_nil_r in El. by rewrite !app_assoc, El, <- !app_assoc. }
  destruct (Ho eq_refl) as [[Hfd2 Hw2 Hp2] Hb2]. rewrite (Hb2 eq_refl), !app_nil_r in Hw2. unfold Gives. rewrite app_assoc, Hw2.
  destruct (Z.ltb_spec (size data - n) kWritableFileBufferSize).
  - unfold bind, set_buf, ret. eexists Status_OK, _. split; [done|]. split; [|split; [done|split; [done|]]].
    + intros _. split; [|done]. constructor; [done|done|]. unfold pos_. cbn. lia.
    + by apply (same_file_trans f f1).
  - destruct (WriteUnbuffered_spec d f2 Hfd2) as (st & f' & a & b & -> & Hs3 & Hb3 & Eb & Hd & Ho3 & Hr3).
    exists st, f'. split; [done|]. rewrite (Hb2 eq_refl) in Hb3. split; [|split; [|split; [done|]]].
    + intros Eo. split; [|done]. constructor; [destruct Hs3 as [E _]; congruence| |by unfold pos_; rewrite Hb3].
      by rewrite Hb3, Hd, Eb, (Ho3 Eo), !app_nil_r.
    + intros _. exists b. by rewrite Hb3, Hd, Eb, <- app_assoc.
    + by apply (same_file_trans f f2), Hs3; apply (same_file_trans f f1).
Qed.

(** Calls that keep the file as it is written so far. *)
Definition Keeps (f : PosixWritableFile K) (c : outcome (Status * PosixWritableFile K)) : Prop :=
  exists st f', c = Ret (st, f') /\ same_file f f' /\ buf_ f' = buf_ f /\
    disk (kernel_ f') = disk (kernel_ f) /\ (PosixReliable K fd -> st = Status_OK).

Lemma SyncFd_keeps fd' path f : Keeps f (SyncFd fd' path f).
Proof.
  unfold SyncFd, bind, pwf_call, call.
  destruct (fullfsync_law (fd := fd) (kernel_ f) fd') as (r & e & k1 & -> & D1).
  destruct (r =? 0); [by eexists _, _|]. cbn [kernel_ buf_ fd_ is_manifest_ filename_ dirname_].
  destruct (fsync_law (fd := fd) k1 fd') as (r2 & e2 & k2 & E & D2). rewrite E.
  destruct (Z.eqb_spec r2 0) as [|Hn]; (eexists _, _; split; [done|split; [done|split; [done|]]]);
    (split; [cbn; congruence|]); [done|]. intros HR. by apply fsync_reliable in E.
Qed.

Lemma SyncDir_keeps f : Keeps f (SyncDirIfManifest f).
Proof.
  unfold SyncDirIfManifest, bind, get. destruct (is_manifest_ f) eqn:Em; cbn [negb];
    [|by exists Status_OK, f]. unfold pwf_call at 1, call.
  destruct (open_law (fd := fd) (kernel_ f) (dirname_ f)) as (r & e & k1 & E & D1). rewrite E.
  set (f1 := Build_PosixWritableFile _ _ _ _ _ _). destruct (Z.ltb_spec r 0).
  { eexists _, f1. split; [done|]. split; [done|]. split; [done|]. split; [done|].
    intros HR. apply open_reliable in E. lia. }
  destruct (SyncFd_keeps r (dirname_ f) f1) as (st & f2 & -> & S2 & B2 & D2 & R2). unfold pwf_call, call.
  destruct (close_law (fd := fd) (kernel_ f2) r) as (r3 & e3 & k3 & -> & D3).
  eexists st, _. split; [done|]. split; [by apply (same_file_trans f f1)|]. split; [done|]. split; [|done].
  cbn. by rewrite D3, D2.
Qed.

Lemma Sync_gives f w : Written f w -> PosixReliable K fd ->
  exists f', PosixWritableFile_Sync write_fuel f = Ret (Status_OK, f') /\ Written f' w /\ buf_ f' = [].
Proof.
  intros HW HR. unfold PosixWritableFile_Sync, bind at 1.
  destruct (SyncDir_keeps f) as (st & f1 & -> & S1 & B1 & D1 & R1). rewrite (R1 HR). cbn [Status_ok Status_OK negb].
  assert (H1 : Written f1 w).
  { destruct HW as [Hf Hw Hp]. destruct S1 as [E _]. constructor; [congruence|by rewrite B1, D1|].
    unfold pos_ in *. by rewrite B1. }
  unfold bind at 1. destruct (Flush_gives f1 w H1) as (st2 & f2 & -> & Ho & _ & Hr & S2).
  rewrite (Hr HR) in *. cbn [Status_ok Status_OK negb]. unfold bind, get. destruct (Ho eq_refl) as [H2 B2].
  destruct (SyncFd_keeps (fd_ f2) (filename_ f2) f2) as (st3 & f3 & -> & S3 & B3 & D3 & R3). rewrite (R3 HR).
  exists f3. split; [done|]. rewrite app_nil_r in H2. destruct H2 as [Hf Hw Hp]. rewrite B3, B2 by done.
  split; [|done]. destruct S3 as [E _]. constructor; [congruence|by rewrite B3, D3|]. unfold pos_ in *. by rewrite B3.
Qed.

#[export] Instance PosixWritableFile_laws `{HR : !PosixReliable K fd} :
  @WritableLaws (PosixWritableFile K) (PosixWritableFile_file write_fuel) Written.
Proof.
  constructor.
  - intros f w data HW. destruct (Append_gives f w data HW) as (st & f' & E & Ho & _ & Hr & _).
    exists f'. unfold File_Append, PosixWritableFile_file. rewrite E, (Hr HR). split; [done|]. by apply Ho, Hr.
  - intros f w HW. destruct (Flush_gives f w HW) as (st & f' & E & Ho & _ & Hr & _).
    exists f'. unfold File_Flush, PosixWritableFile_file, PosixWritableFile_Flush. rewrite E, (Hr HR). split; [done|].
    rewrite <- (app_nil_r w). by apply Ho, Hr.
  - intros f w HW. destruct (Sync_gives f w HW HR) as (f' & E & H' & _). by exists f'.
Qed.

(** C34: a POSIX file keeps what is appended to it. For any kernel whose writes
    take a prefix of the data, possibly an empty one, get interrupted a bounded
    number of times, or fail: [Append] and [Flush] return; when they return
    success the disk followed by the buffer is everything appended so far, and
    after [Flush] all of it is on the disk; when they return an error, the disk
    and the buffer are a prefix of it (a failed flush drops the buffer, but
    never reorders or repeats bytes). With a kernel that does not fail they
    succeed. *)
Theorem PosixWritableFile_keeps f w data :
  Written f w ->
  Gives f w data false (PosixWritableFile_Append write_fuel data f) /\
  Gives f w [] true (PosixWritableFile_Flush write_fuel f) /\
  (PosixReliable K fd ->
     exists f', PosixWritableFile_Sync write_fuel f = Ret (Status_OK, f') /\ disk (kernel_ f') = w).
Proof.
  intros HW. split; [by apply Append_gives|]. split; [by apply Flush_gives|]. intros HR.
  destruct (Sync_gives f w HW HR) as (f' & E & [_ Hw _] & B). exists f'. split; [done|]. by rewrite Hw, B, app_nil_r.
Qed.
End Fuel.
End Writable.

(** A kernel that writes at most three bytes at a time. *)
Definition slow_kernel : Posix Slice := {|
  strerror _ := [];
  sys_open _ k := ((3, 0), k);
  sys_close _ k := ((0, 0), k);
  sys_write _ data k := ((size (take 3 data), 0), k ++ take 3 data);
  sys_fullfsync _ k := ((-1, 0), k);
  sys_fsync _ k := ((0, 0), k);
  sys_read _ n k := ((size (take (Z.to_nat n) k), take (Z.to_nat n) k, 0), drop (Z.to_nat n) k);
  sys_pread _ n off k := ((size (take (Z.to_nat n) (drop (Z.to_nat off) k)), take (Z.to_nat n) (drop (Z.to_nat off) k), 0), k);
  sys_lseek _ n k := ((n, 0), drop (Z.to_nat n) k)
|}.

#[local] Existing Instance slow_kernel.

Lemma slow_laws : PosixLaws Slice 5 (fun k => k) (fun _ => O) O.
Proof.
  constructor; [done| |by intros; eexists _, _, _..].
  intros k data Hd. eexists _, _, _. split; [done|]. left. destruct data as [|x data]; [done|].
  unfold size. rewrite Nat2Z.id, length_take. cbn [length]. split; [lia|].
  f_equal. destruct data as [|y [|z data]]; done.
Qed.

Lemma slow_reliable : PosixReliable Slice 5.
Proof. constructor; cbn; intros; simplify_eq; unfold size; lia. Qed.

Lemma PosixWritableFile_keeps_witness :
  exists f', PosixWritableFile_Sync (fun n => n) (PosixWritableFile_new (chars "db/MANIFEST-1") 5 (chars "abc")) =
    Ret (Status_OK, f') /\ kernel_ f' = chars "abc".
Proof.
  apply (PosixWritableFile_keeps (fd := 5) (disk := fun k => k) (patience := fun _ => O) (P := O)
    (PL := slow_laws) (fun n => n) ltac:(intros; lia)
    (PosixWritableFile_new (chars "db/MANIFEST-1") 5 (chars "abc")) (chars "abc") []); [|exact slow_reliable].
  constructor; [done|by vm_compute|by vm_compute].
Defined.

(** * Reading and writing whole files *)

Lemma ReadFileToString_reads {F} `{SequentialFile F} {Remains} `{!SequentialLaws F Remains} fuel :
  forall f w data, Remains f w -> (length w < fuel)%nat ->
  exists f', ReadFileToString fuel data f = Ret ((Status_OK, data ++ w), f') /\ Remains f' [].
Proof.
  induction fuel as [|fuel IH]; intros f w data HR Hf; [lia|]. cbn [ReadFileToString]. unfold bind.
  destruct (read_law f w 8192 HR ltac:(lia)) as (f1 & -> & H1). cbn [Status_ok Status_OK negb].
  destruct w as [|x w].
  { rewrite take_nil, drop_nil in *. exists f1. by rewrite app_nil_r. }
  assert (E : Slice_empty (take (Z.to_nat 8192) (x :: w)) = false).
  { unfold Slice_empty, size. rewrite length_take. apply Z.eqb_neq. cbn [length]. lia. }
  rewrite E. destruct (IH f1 _ (data ++ take (Z.to_nat 8192) (x :: w)) H1) as (f2 & -> & H2).
  { rewrite length_drop. cbn [length] in *. lia. }
  exists f2. by rewrite <- app_assoc, take_drop.
Qed.

(** [WriteStringToFile] on any file that does not fail leaves exactly the
    string in it and deletes nothing, and [ReadFileToString] then returns it:
    reading 8192 bytes at a time ends at the first empty read. *)
Theorem string_file_roundtrip {F G} `{WritableFile F, SequentialFile G} {Ready Remains}
    `{!WritableLaws F Ready, !SequentialLaws G Remains} (f : F) (data : Slice) (sync : bool) :
  Ready f [] -> (forall f', Ready f' data -> exists f2, File_Close f' = Ret (Status_OK, f2)) ->
  (exists f', DoWriteStringToFile data sync f = Ret ((Status_OK, false), f')) /\
  forall g : G, Remains g data -> exists g',
    ReadFileToString (S (length data)) [] g = Ret ((Status_OK, data), g').
Proof.
  intros Hf Hc. split.
  - unfold DoWriteStringToFile, bind. destruct (append_law f [] data Hf) as (f1 & -> & H1).
    destruct sync; cbn [Status_ok Status_OK andb].
    + destruct (sync_law f1 data H1) as (f2 & -> & H2). cbn [Status_ok Status_OK]. destruct (Hc f2 H2) as [f3 ->]. by exists f3.
    + unfold ret at 1. cbn [Status_ok Status_OK]. destruct (Hc f1 H1) as [f3 ->]. by exists f3.
  - intros g Hg. destruct (ReadFileToString_reads (S (length data)) g data [] Hg ltac:(lia)) as (g' & E & _).
    by exists g'.
Qed.

Lemma string_file_roundtrip_witness :
  (exists f', DoWriteStringToFile (chars "MANIFEST-000001") true ([] : MemFile) = Ret ((Status_OK, false), f')) /\
  exists g', ReadFileToString 16 [] (chars "MANIFEST-000001" : MemFile) = Ret ((Status_OK, chars "MANIFEST-000001"), g').
Proof.
  destruct (string_file_roundtrip (Ready := eq) (Remains := eq) ([] : MemFile) (chars "MANIFEST-000001") true eq_refl)
    as [Hw Hr]; [intros f' _; by exists f'|]. split; [exact Hw|]. by apply (Hr (chars "MANIFEST-000001")).
Defined.

(** * File names *)

Lemma rfind_slash_spec s :
  match rfind_slash s with
  | Some (dir, base) => s = dir ++ [47] ++ base /\ 47 ∉ base
  | None => 47 ∉ s
  end.
Proof.
  induction s as [|c s IH]; cbn [rfind_slash]; [apply not_elem_of_nil|].
  destruct (rfind_slash s) as [[dir base]|].
  - destruct IH as [-> Hn]. by split.
  - destruct (Z.eqb_spec c 47) as [->|Hc]; [by split|]. set_solver.
Qed.

(** A path is its directory, a slash and its base name, which has no slash;
    without a slash the directory is the current one. *)
Lemma path_split s :
  (47 ∈ s -> s = Dirname s ++ [47] ++ Basename s) /\ (47 ∉ s -> Dirname s = chars "." /\ Basename s = s) /\
  47 ∉ Basename s.
Proof.
  unfold Dirname, Basename. pose proof (rfind_slash_spec s) as H.
  destruct (rfind_slash s) as [[dir base]|]; [|tauto]. destruct H as [E Hn]. split; [done|]. split; [|done].
  intros Hs. destruct Hs. rewrite E. set_solver.
Qed.

(** * The limiter under concurrency *)

(** [Acquire] is two atomic operations. A thread is outside, between the
    [fetch_sub] that found nothing left and the [fetch_add], or holds a
    resource; [taken] and [failing] count the last two. *)
Record LimiterState : Type := { limiter : Limiter; taken : nat; failing : nat }.

(** One atomic operation of some thread. *)
Inductive limiter_step : LimiterState -> LimiterState -> Prop :=
| step_acquired st :
    acquires_allowed_ (limiter st) > 0 ->
    limiter_step st {| limiter := {| acquires_allowed_ := acquires_allowed_ (limiter st) - 1 |};
                       taken := S (taken st); failing := failing st |}
| step_sub_failed st :
    acquires_allowed_ (limiter st) <= 0 ->
    limiter_step st {| limiter := {| acquires_allowed_ := acquires_allowed_ (limiter st) - 1 |};
                       taken := taken st; failing := S (failing st) |}
| step_add_back st n :
    failing st = S n ->
    limiter_step st {| limiter := {| acquires_allowed_ := acquires_allowed_ (limiter st) + 1 |};
                       taken := taken st; failing := n |}
| step_release st n :
    taken st = S n ->
    limiter_step st {| limiter := Limiter_Release (limiter st); taken := n; failing := failing st |}.

Inductive limiter_reach (st : LimiterState) : LimiterState -> Prop :=
| lreach_refl : limiter_reach st st
| lreach_step a b : limiter_reach st a -> limiter_step a b -> limiter_reach st b.

(** under any interleaving of its atomic operations the limiter never has
    more than [max_acquires] resources out; its counter is what is left less the
    threads about to add back, so that without such threads an [Acquire]
    succeeds exactly when a resource is left. Alone, [Acquire] and [Release] are
    these steps. *)
Theorem Limiter_never_exceeds max st :
  0 <= max ->
  limiter_reach {| limiter := {| acquires_allowed_ := max |}; taken := 0; failing := 0 |} st ->
  Z.of_nat (taken st) <= max /\
  acquires_allowed_ (limiter st) = max - Z.of_nat (taken st) - Z.of_nat (failing st) /\
  (failing st = O -> (Limiter_Acquire (limiter st)).1 = true <-> Z.of_nat (taken st) < max) /\
  (Limiter_Acquire (limiter st)).2 =
    if (Limiter_Acquire (limiter st)).1 then {| acquires_allowed_ := acquires_allowed_ (limiter st) - 1 |}
    else limiter st.
Proof.
  intros Hm HR.
  assert (HI : Z.of_nat (taken st) <= max /\
    acquires_allowed_ (limiter st) = max - Z.of_nat (taken st) - Z.of_nat (failing st)).
  { induction HR as [|a b HR [IH1 IH2] Hs]; [cbn; lia|].
    inversion Hs; subst; cbn [limiter taken failing acquires_allowed_ Limiter_Release]; lia. }
  destruct HI as [H1 H2]. split; [done|]. split; [done|].
  unfold Limiter_Acquire. destruct (Z.gtb_spec (acquires_allowed_ (limiter st)) 0); cbn [fst snd].
  - split; [|done]. intros Hf. rewrite Hf in H2. split; [lia|done].
  - split; [intros Hf; rewrite Hf in H2; split; [done|lia]|]. destruct (limiter st). f_equal; cbn. lia.
Qed.

Lemma Limiter_never_exceeds_witness :
  Z.of_nat (taken {| limiter := {| acquires_allowed_ := -1 |}; taken := 1; failing := 1 |}) <= 1.
Proof.
  apply (Limiter_never_exceeds 1); [lia|]. eapply lreach_step; [eapply lreach_step; [apply lreach_refl|]|].
  - by apply step_acquired.
  - by apply step_sub_failed.
Defined.
