(* ===== verification/LvLog.v ===== *)
(** The log ([db/log_format.h], [db/log_writer.cc], [db/log_reader.cc]): records
    split into fragments that do not cross blocks of 32768 bytes. *)

From stdpp Require Import base list gmap strings.
From Stdlib Require Import ZArith Lia.
From S2P Require Import Prelude LvSlice LvCoding LvCrc LvLogging LvEnv.

Inductive RecordType : Type := kZeroType | kFullType | kFirstType | kMiddleType | kLastType.

Definition RecordType_val (t : RecordType) : Z :=
  match t with kZeroType => 0 | kFullType => 1 | kFirstType => 2 | kMiddleType => 3 | kLastType => 4 end.

Definition kMaxRecordType : Z := RecordType_val kLastType.
Definition kLogBlockSize : Z := 32768.
Definition kHeaderSize : Z := 4 + 2 + 1.

(** The address of data that the checksum is taken of: the result does not
    depend on it, but the code aligns its reads to it. *)
Section Log.
Variable address : list Z -> Z.

(** * Writer *)

Record Writer (F : Type) : Type := { dest_ : F; block_offset_ : Z; type_crc_ : list Z }.
Arguments dest_ {F}.
Arguments block_offset_ {F}.
Arguments type_crc_ {F}.

(** [for (i = 0; i <= kMaxRecordType; i++)]. *)
Definition InitTypeCrc : list Z :=
  map (fun i => Value (address [i]) [i]) (seqZ 0 (kMaxRecordType + 1)).

Definition Writer_new {F} (dest : F) (dest_length : Z) : Writer F :=
  {| dest_ := dest; block_offset_ := dest_length mod kLogBlockSize; type_crc_ := InitTypeCrc |}.

Section Writer.
Context {F : Type} `{WritableFile F}.

Definition on_dest {A} (c : M F A) : M (Writer F) A :=
  fun w => match c (dest_ w) with
           | Ret (a, f) => Ret (a, {| dest_ := f; block_offset_ := block_offset_ w; type_crc_ := type_crc_ w |})
           | Undef => Undef
           | NoFuel => NoFuel
           end.

Definition set_block_offset (n : Z) : M (Writer F) unit :=
  fun w => Ret (tt, {| dest_ := dest_ w; block_offset_ := n; type_crc_ := type_crc_ w |}).

(** The header: the masked checksum, the length and the type. *)
Definition physical_header (type_crc : list Z) (t : RecordType) (ptr : Slice) : option (list Z) :=
  let length := size ptr in
  c ← type_crc !! Z.to_nat (RecordType_val t);
  let crc := Mask (Extend (address ptr) c ptr) in
  Some (EncodeFixed32 crc ++ [u8 (Z.land length 0xff); u8 (Z.shiftr length 8); RecordType_val t]).

(** The two assertions come first. *)
Definition EmitPhysicalRecord (t : RecordType) (ptr : Slice) : M (Writer F) Status :=
  let* w := get in
  let length := size ptr in
  if negb (length <=? 0xffff) then undef
  else if negb (block_offset_ w + kHeaderSize + length <=? kLogBlockSize) then undef
  else
    let* buf := need (physical_header (type_crc_ w) t ptr) in
    let* s := on_dest (File_Append buf) in
    let* s :=
      if Status_ok s then
        let* s := on_dest (File_Append ptr) in
        if Status_ok s then on_dest File_Flush else ret s
      else ret s in
    set_block_offset (block_offset_ w + (kHeaderSize + length)) ;;; ret s.

(** The switch to a new block, after [assert(leftover >= 0)]; the status of the
    trailer is not looked at. *)
Definition switch_block : M (Writer F) unit :=
  let* w := get in
  let leftover := kLogBlockSize - block_offset_ w in
  if negb (leftover >=? 0) then undef
  else if leftover <? kHeaderSize then
    (if leftover >? 0 then on_dest (File_Append (replicate (Z.to_nat leftover) 0)) ;;; ret tt else ret tt) ;;;
    set_block_offset 0
  else ret tt.

Definition fragment_type (begin end_ : bool) : RecordType :=
  if begin && end_ then kFullType
  else if begin then kFirstType
  else if end_ then kLastType
  else kMiddleType.

(** [do ... while (s.ok() && left > 0)] on the bytes from [ptr]. *)
Fixpoint AddRecord_loop (fuel : nat) (ptr : Slice) (begin : bool) : M (Writer F) Status :=
  match fuel with
  | O => nofuel
  | S fuel =>
      switch_block ;;;
      let* w := get in
      let left := size ptr in
      let avail := kLogBlockSize - block_offset_ w - kHeaderSize in
      if negb (avail >=? 0) then undef else
      let fragment_length := if left <? avail then left else avail in
      let end_ := left =? fragment_length in
      let type := fragment_type begin end_ in
      let* s := EmitPhysicalRecord type (take (Z.to_nat fragment_length) ptr) in
      let ptr := drop (Z.to_nat fragment_length) ptr in
      let left := left - fragment_length in
      if Status_ok s && (left >? 0) then AddRecord_loop fuel ptr false else ret s
  end.

(** Every round but the first takes at least a byte. *)
Definition AddRecord (slice : Slice) : M (Writer F) Status := AddRecord_loop (length slice + 2) slice true.
End Writer.

(** * Reader *)

Definition kEof : Z := kMaxRecordType + 1.
Definition kBadRecord : Z := kMaxRecordType + 2.

(** [reports]: the calls of [reporter_->Corruption]. *)
Record Reader (F : Type) : Type := {
  file_ : F; has_reporter : bool; reports : list (Z * Status); checksum_ : bool;
  buffer_ : Slice; eof_ : bool; last_record_offset_ : Z; end_of_buffer_offset_ : Z;
  initial_offset_ : Z; resyncing_ : bool
}.
Arguments file_ {F}.
Arguments has_reporter {F}.
Arguments reports {F}.
Arguments checksum_ {F}.
Arguments buffer_ {F}.
Arguments eof_ {F}.
Arguments last_record_offset_ {F}.
Arguments end_of_buffer_offset_ {F}.
Arguments initial_offset_ {F}.
Arguments resyncing_ {F}.

Definition Reader_new {F} (file : F) (reporter checksum : bool) (initial_offset : Z) : Reader F := {|
  file_ := file; has_reporter := reporter; reports := []; checksum_ := checksum; buffer_ := [];
  eof_ := false; last_record_offset_ := 0; end_of_buffer_offset_ := 0; initial_offset_ := initial_offset;
  resyncing_ := initial_offset >? 0
|}.

Section Reader.
Context {F : Type} `{SequentialFile F}.
Implicit Types r : Reader F.

(** Assignments to the members. *)
Definition update (file : F) (rs : list (Z * Status)) (buffer : Slice) (eof : bool) (last end_ : Z) (resync : bool) r
    : Reader F := {|
  file_ := file; has_reporter := has_reporter r; reports := rs; checksum_ := checksum_ r; buffer_ := buffer;
  eof_ := eof; last_record_offset_ := last; end_of_buffer_offset_ := end_; initial_offset_ := initial_offset_ r;
  resyncing_ := resync
|}.

Definition set_buffer (b : Slice) r : Reader F :=
  update (file_ r) (reports r) b (eof_ r) (last_record_offset_ r) (end_of_buffer_offset_ r) (resyncing_ r) r.
Definition set_eof r : Reader F :=
  update (file_ r) (reports r) (buffer_ r) true (last_record_offset_ r) (end_of_buffer_offset_ r) (resyncing_ r) r.
Definition set_end (n : Z) r : Reader F :=
  update (file_ r) (reports r) (buffer_ r) (eof_ r) (last_record_offset_ r) n (resyncing_ r) r.
Definition set_last (n : Z) r : Reader F :=
  update (file_ r) (reports r) (buffer_ r) (eof_ r) n (end_of_buffer_offset_ r) (resyncing_ r) r.
Definition set_resyncing (b : bool) r : Reader F :=
  update (file_ r) (reports r) (buffer_ r) (eof_ r) (last_record_offset_ r) (end_of_buffer_offset_ r) b r.
Definition add_report (x : Z * Status) r : Reader F :=
  update (file_ r) (reports r ++ [x]) (buffer_ r) (eof_ r) (last_record_offset_ r) (end_of_buffer_offset_ r)
    (resyncing_ r) r.
Definition set_file (f : F) r : Reader F :=
  update f (reports r) (buffer_ r) (eof_ r) (last_record_offset_ r) (end_of_buffer_offset_ r) (resyncing_ r) r.

Definition modify (g : Reader F -> Reader F) : M (Reader F) unit := fun r => Ret (tt, g r).

Definition on_file {A} (c : M F A) : M (Reader F) A :=
  fun r => match c (file_ r) with
           | Ret (a, f) => Ret (a, set_file f r)
           | Undef => Undef
           | NoFuel => NoFuel
           end.

Definition ReportDrop (bytes : Z) (reason : Status) : M (Reader F) unit :=
  modify (fun r =>
    if has_reporter r && (u64 (end_of_buffer_offset_ r - size (buffer_ r) - bytes) >=? initial_offset_ r)
    then add_report (bytes, reason) r else r).

Definition ReportCorruption (bytes : Z) (reason : Slice) : M (Reader F) unit :=
  ReportDrop bytes (Status_Corruption reason []).

Definition SkipToInitialBlock : M (Reader F) bool :=
  let* r := get in
  let offset_in_block := initial_offset_ r mod kLogBlockSize in
  let block_start_location := initial_offset_ r - offset_in_block in
  let block_start_location :=
    if offset_in_block >? kLogBlockSize - 6 then u64 (block_start_location + kLogBlockSize)
    else block_start_location in
  modify (set_end block_start_location) ;;;
  if block_start_location >? 0 then
    let* skip_status := on_file (File_Skip block_start_location) in
    if negb (Status_ok skip_status) then ReportDrop block_start_location skip_status ;;; ret false
    else ret true
  else ret true.

(** What follows once the buffer holds a header. [None] as the fragment: the
    result is left alone. *)
Definition parse_physical : M (Reader F) (Z * option Slice) :=
  let* r := get in
  let header := buffer_ r in
  let* h4 := need (header !! 4%nat) in
  let* h5 := need (header !! 5%nat) in
  let* h6 := need (header !! 6%nat) in
  let a := Z.land h4 0xff in
  let b := Z.land h5 0xff in
  let type := u32 (sext 8 h6) in
  let length := Z.lor a (Z.shiftl b 8) in
  if kHeaderSize + length >? size (buffer_ r) then
    let drop_size := size (buffer_ r) in
    modify (set_buffer []) ;;;
    if negb (eof_ r) then ReportCorruption drop_size (chars "bad record length") ;;; ret (kBadRecord, None)
    else ret (kEof, None)
  else if (type =? RecordType_val kZeroType) && (length =? 0) then
    modify (set_buffer []) ;;; ret (kBadRecord, None)
  else
    let data := drop 6 (take (Z.to_nat (kHeaderSize + length)) header) in
    let expected_crc := Unmask (DecodeFixed32 header) in
    let actual_crc := Value (address data) data in
    if checksum_ r && negb (actual_crc =? expected_crc) then
      let drop_size := size (buffer_ r) in
      modify (set_buffer []) ;;;
      ReportCorruption drop_size (chars "checksum mismatch") ;;; ret (kBadRecord, None)
    else
      modify (set_buffer (Slice_remove_prefix header (kHeaderSize + length))) ;;;
      let* r := get in
      if u64 (end_of_buffer_offset_ r - size (buffer_ r) - kHeaderSize - length) <? initial_offset_ r
      then ret (kBadRecord, Some [])
      else ret (type, Some (take (Z.to_nat length) (drop (Z.to_nat kHeaderSize) header))).

(** [while (true)]: a round reads a block and goes on, or ends. *)
Fixpoint ReadPhysicalRecord_loop (fuel : nat) : M (Reader F) (Z * option Slice) :=
  match fuel with
  | O => nofuel
  | S fuel =>
      let* r := get in
      if size (buffer_ r) <? kHeaderSize then
        if negb (eof_ r) then
          modify (set_buffer []) ;;;
          let* '(status, buffer) := on_file (File_Read kLogBlockSize) in
          modify (set_buffer buffer) ;;;
          modify (fun r => set_end (u64 (end_of_buffer_offset_ r + size (buffer_ r))) r) ;;;
          if negb (Status_ok status) then
            modify (set_buffer []) ;;;
            ReportDrop kLogBlockSize status ;;;
            modify set_eof ;;;
            ret (kEof, None)
          else if size buffer <? kLogBlockSize then
            modify set_eof ;;; ReadPhysicalRecord_loop fuel
          else ReadPhysicalRecord_loop fuel
        else modify (set_buffer []) ;;; ret (kEof, None)
      else parse_physical
  end.

(** After one read the buffer is full or at the end: three rounds are enough. *)
Definition ReadPhysicalRecord : M (Reader F) (Z * option Slice) := ReadPhysicalRecord_loop 3.

(** [while (true)] in [ReadRecord], with its locals. [fragment] keeps its value
    when [ReadPhysicalRecord] does not set it. *)
Fixpoint ReadRecord_loop (fuel : nat) (scratch : Slice) (in_fragmented_record : bool) (prospective : Z)
    (fragment : Slice) : M (Reader F) (option Slice) :=
  match fuel with
  | O => nofuel
  | S fuel =>
      let* '(record_type, o) := ReadPhysicalRecord in
      let fragment := match o with Some f => f | None => fragment end in
      let* r := get in
      let physical_record_offset :=
        u64 (end_of_buffer_offset_ r - size (buffer_ r) - kHeaderSize - size fragment) in
      if resyncing_ r && (record_type =? RecordType_val kMiddleType) then
        ReadRecord_loop fuel scratch in_fragmented_record prospective fragment
      else if resyncing_ r && (record_type =? RecordType_val kLastType) then
        modify (set_resyncing false) ;;;
        ReadRecord_loop fuel scratch in_fragmented_record prospective fragment
      else
        modify (set_resyncing false) ;;;
        if record_type =? RecordType_val kFullType then
          (if in_fragmented_record && negb (Slice_empty scratch)
           then ReportCorruption (size scratch) (chars "partial record without end(1)") else ret tt) ;;;
          modify (set_last physical_record_offset) ;;;
          ret (Some fragment)
        else if record_type =? RecordType_val kFirstType then
          (if in_fragmented_record && negb (Slice_empty scratch)
           then ReportCorruption (size scratch) (chars "partial record without end(2)") else ret tt) ;;;
          ReadRecord_loop fuel fragment true physical_record_offset fragment
        else if record_type =? RecordType_val kMiddleType then
          if negb in_fragmented_record then
            ReportCorruption (size fragment) (chars "missing start of fragmented record(1)") ;;;
            ReadRecord_loop fuel scratch in_fragmented_record prospective fragment
          else ReadRecord_loop fuel (scratch ++ fragment) in_fragmented_record prospective fragment
        else if record_type =? RecordType_val kLastType then
          if negb in_fragmented_record then
            ReportCorruption (size fragment) (chars "missing start of fragmented record(2)") ;;;
            ReadRecord_loop fuel scratch in_fragmented_record prospective fragment
          else
            modify (set_last prospective) ;;; ret (Some (scratch ++ fragment))
        else if record_type =? kEof then ret None
        else if record_type =? kBadRecord then
          if in_fragmented_record then
            ReportCorruption (size scratch) (chars "error in middle of record") ;;;
            ReadRecord_loop fuel [] false prospective fragment
          else ReadRecord_loop fuel scratch in_fragmented_record prospective fragment
        else
          ReportCorruption (size fragment + (if in_fragmented_record then size scratch else 0))
            (chars "unknown record type " ++ NumberToString record_type) ;;;
          ReadRecord_loop fuel [] false prospective fragment
  end.

(** [ReadRecord]: the record, or [None] for [false]; the buffer [*scratch] is
    left out of the result. *)
Definition ReadRecord (fuel : nat) : M (Reader F) (option Slice) :=
  let* r := get in
  let* ok := if last_record_offset_ r <? initial_offset_ r then SkipToInitialBlock else ret true in
  if negb ok then ret None else ReadRecord_loop fuel [] false 0 [].

Definition LastRecordOffset (r : Reader F) : Z := last_record_offset_ r.
End Reader.
End Log.
Arguments dest_ {F}.
Arguments block_offset_ {F}.
Arguments type_crc_ {F}.
Arguments file_ {F}.
Arguments has_reporter {F}.
Arguments reports {F}.
Arguments checksum_ {F}.
Arguments buffer_ {F}.
Arguments eof_ {F}.
Arguments last_record_offset_ {F}.
Arguments end_of_buffer_offset_ {F}.
Arguments initial_offset_ {F}.
Arguments resyncing_ {F}.
