(* ===== verification/LvLogProps.v ===== *)
(** What is written to a log is read back: physical records, records split over
    blocks, whole logs, also after the log is reopened. *)

From stdpp Require Import base list gmap strings.
From Stdlib Require Import ZArith Lia.
From S2P Require Import Prelude LvSlice LvCoding LvCrc LvLogging LvEnv LvLog.

Section Props.
Variable address : list Z -> Z.

(** * Physical records *)

(** The bytes of one. *)
Definition physical (t : RecordType) (frag : Slice) : Slice :=
  EncodeFixed32 (Mask (Value 0 (RecordType_val t :: frag)))
  ++ [Z.land (size frag) 0xff; Z.shiftr (size frag) 8; RecordType_val t] ++ frag.

Lemma type_byte t : is_byte (RecordType_val t).
Proof. destruct t; by split. Qed.

(** The two bytes of a length. *)
Lemma length_bytes n :
  0 <= n < 2 ^ 16 ->
  u8 (Z.land n 0xff) = Z.land n 0xff /\ u8 (Z.shiftr n 8) = Z.shiftr n 8 /\
  Z.lor (Z.land (Z.land n 0xff) 0xff) (Z.shiftl (Z.land (Z.shiftr n 8) 0xff) 8) = n.
Proof.
  intros Hn. rewrite <- Z.land_assoc. change (Z.land 0xff 0xff) with 0xff.
  assert (E1 : Z.land n 0xff = n mod 256) by apply (land_mask n 8 ltac:(lia)).
  assert (E2 : Z.shiftr n 8 = n / 256) by (by rewrite Z.shiftr_div_pow2 by lia).
  pose proof (Z.mod_pos_bound n 256 ltac:(done)). assert (0 <= n / 256 < 256) by (split; [apply Z.div_pos|apply Z.div_lt_upper_bound]; lia).
  rewrite E1, E2. split; [apply wrap_small; lia|]. split; [apply wrap_small; lia|].
  rewrite (land_mask (n / 256) 8 ltac:(lia) : Z.land _ 0xff = _), (Z.mod_small (n / 256)) by lia.
  rewrite lor_shiftl_add by lia. change (2 ^ 8) with 256. pose proof (Z.div_mod n 256). lia.
Qed.

Lemma physical_header_spec t frag :
  is_bytes frag -> size frag < 2 ^ 16 ->
  exists buf, physical_header address (InitTypeCrc address) t frag = Some buf /\ physical t frag = buf ++ frag.
Proof.
  intros Hb Hs. pose proof (size_nonneg frag). unfold physical_header, physical.
  assert (E : InitTypeCrc address !! Z.to_nat (RecordType_val t) = Some (Value (address [RecordType_val t]) [RecordType_val t]))
    by (by destruct t).
  rewrite E. cbn [mbind option_bind]. eexists. split; [done|].
  destruct (length_bytes (size frag)) as (-> & -> & _); [lia|].
  rewrite (Value_cons _ _ 0) by (done || apply type_byte). by rewrite <- !app_assoc.
Qed.

Lemma physical_size t frag : size (physical t frag) = kHeaderSize + size frag.
Proof. unfold physical. rewrite size_app. change kHeaderSize with (4 + 3). unfold size. rewrite length_EncodeFixed32. cbn. lia. Qed.

(** * Records *)

(** What is left of a block, when too little for a header, and where the next
    header goes. *)
Definition trailer (o : Z) : Slice :=
  if kLogBlockSize - o <? kHeaderSize then replicate (Z.to_nat (kLogBlockSize - o)) 0 else [].
Definition header_at (o : Z) : Z := if kLogBlockSize - o <? kHeaderSize then 0 else o.

(** [Encodes begin o data bytes o']: [bytes] at offset [o] in a block are the
    record [data], or a part of it that is not the first, and end at [o']. *)
Inductive Encodes : bool -> Z -> Slice -> Slice -> Z -> Prop :=
| Enc_last begin o data :
    size data <= kLogBlockSize - header_at o - kHeaderSize ->
    Encodes begin o data (trailer o ++ physical (fragment_type begin true) data)
      (header_at o + (kHeaderSize + size data))
| Enc_more begin o frag rest bytes o' :
    size frag = kLogBlockSize - header_at o - kHeaderSize -> rest <> [] ->
    Encodes false kLogBlockSize rest bytes o' ->
    Encodes begin o (frag ++ rest) (trailer o ++ physical (fragment_type begin false) frag ++ bytes) o'.

Definition offset_ok (o : Z) : Prop := 0 <= o <= kLogBlockSize.

Lemma header_at_ok o : offset_ok o -> 0 <= header_at o <= kLogBlockSize - kHeaderSize.
Proof. unfold offset_ok, header_at. destruct (Z.ltb_spec (kLogBlockSize - o) kHeaderSize); unfold kLogBlockSize, kHeaderSize in *; lia. Qed.

Lemma Encodes_ok begin o data bytes o' : Encodes begin o data bytes o' -> offset_ok o -> offset_ok o'.
Proof.
  induction 1 as [begin o data Hd|begin o frag rest bytes o' Hf Hr HE IH]; intros Ho.
  - pose proof (header_at_ok o Ho). pose proof (size_nonneg data). unfold offset_ok in *.
    unfold kLogBlockSize, kHeaderSize in *. lia.
  - apply IH. unfold offset_ok, kLogBlockSize. lia.
Qed.

(** * Writing *)

Section Writing.
Context {F : Type} `{WritableFile F} {Ready : F -> Slice -> Prop} `{WL : !WritableLaws F Ready}.

(** The writer [w] at offset [o] of a file that holds [W]. *)
Record Wst (w : Writer F) (o : Z) (W : Slice) : Prop := {
  ws_ready : Ready (dest_ w) W;
  ws_offset : block_offset_ w = o;
  ws_crc : type_crc_ w = InitTypeCrc address
}.

Lemma on_dest_append w o W data : Wst w o W ->
  exists w', on_dest (File_Append data) w = Ret (Status_OK, w') /\ Wst w' o (W ++ data).
Proof.
  intros [Hr Ho Hc]. unfold on_dest. destruct (append_law (dest_ w) W data Hr) as (f' & -> & H').
  eexists. split; [done|]. by constructor.
Qed.

Lemma Emit_spec w o W t frag :
  Wst w o W -> is_bytes frag -> 0 <= o -> o + kHeaderSize + size frag <= kLogBlockSize ->
  exists w', EmitPhysicalRecord address t frag w = Ret (Status_OK, w') /\
    Wst w' (o + (kHeaderSize + size frag)) (W ++ physical t frag).
Proof.
  intros HW Hb Ho Hf. pose proof (size_nonneg frag). unfold kLogBlockSize, kHeaderSize in Hf.
  destruct (physical_header_spec t frag Hb ltac:(lia)) as (buf & Eb & ->).
  unfold EmitPhysicalRecord, bind at 1, get at 1. rewrite (ws_offset _ _ _ HW), (ws_crc _ _ _ HW), Eb.
  destruct (Z.leb_spec (size frag) 0xffff); [|lia].
  destruct (Z.leb_spec (o + kHeaderSize + size frag) kLogBlockSize); [|unfold kLogBlockSize, kHeaderSize in *; lia].
  cbn [negb need]. unfold bind, ret at 1.
  destruct (on_dest_append w o W buf HW) as (w1 & -> & HW1). cbn [Status_ok Status_OK].
  destruct (on_dest_append w1 o _ frag HW1) as (w2 & -> & HW2). cbn [Status_ok Status_OK].
  unfold on_dest. destruct HW2 as [Hr2 Ho2 Hc2]. destruct (flush_law (dest_ w2) _ Hr2) as (f' & -> & H').
  eexists. split; [done|]. constructor; [|done|done]. cbn. by rewrite app_assoc.
Qed.

Lemma switch_spec w o W :
  Wst w o W -> offset_ok o -> exists w', switch_block w = Ret (tt, w') /\ Wst w' (header_at o) (W ++ trailer o).
Proof.
  intros HW Ho. unfold switch_block, bind at 1, get at 1. rewrite (ws_offset _ _ _ HW).
  unfold offset_ok in Ho. unfold header_at, trailer.
  destruct (Z.geb_spec (kLogBlockSize - o) 0); [|lia]. cbn [negb].
  destruct (Z.ltb_spec (kLogBlockSize - o) kHeaderSize); [|exists w; by rewrite app_nil_r].
  unfold bind. destruct (Z.gtb_spec (kLogBlockSize - o) 0).
  - destruct (on_dest_append w o W (replicate (Z.to_nat (kLogBlockSize - o)) 0) HW) as (w1 & -> & [Hr _ Hc]).
    eexists. split; [done|]. by constructor.
  - eexists. split; [done|]. replace (Z.to_nat (kLogBlockSize - o)) with O by lia. rewrite app_nil_r.
    destruct HW. by constructor.
Qed.

Lemma AddRecord_loop_spec fuel : forall w o W begin ptr,
  Wst w o W -> offset_ok o -> is_bytes ptr ->
  (length ptr + (if (header_at o =? kLogBlockSize - kHeaderSize)%Z then 2 else 1) <= fuel)%nat ->
  exists w' bytes o', AddRecord_loop address fuel ptr begin w = Ret (Status_OK, w') /\
    Encodes begin o ptr bytes o' /\ Wst w' o' (W ++ bytes).
Proof.
  induction fuel as [|fuel IH]; intros w o W begin ptr HW Ho Hb Hf;
    [destruct (_ =? _); lia|].
  cbn [AddRecord_loop]. unfold bind at 1. destruct (switch_spec w o W HW Ho) as (w1 & -> & H1).
  unfold bind at 1, get at 1. rewrite (ws_offset _ _ _ H1). cbv zeta.
  pose proof (header_at_ok o Ho) as Hh. set (avail := kLogBlockSize - header_at o - kHeaderSize).
  assert (Ha : 0 <= avail <= kLogBlockSize - kHeaderSize) by (unfold avail; lia).
  destruct (Z.geb_spec avail 0); [|lia]. cbn [negb].
  set (n := if size ptr <? avail then size ptr else avail). pose proof (size_nonneg ptr) as Hp.
  assert (Hn : 0 <= n <= size ptr /\ n <= avail /\ (size ptr <= avail -> n = size ptr) /\ (avail < size ptr -> n = avail))
    by (unfold n; destruct (Z.ltb_spec (size ptr) avail); lia).
  assert (Et : size (take (Z.to_nat n) ptr) = n) by (unfold size in *; rewrite length_take; lia).
  destruct (Emit_spec w1 (header_at o) (W ++ trailer o) (fragment_type begin (size ptr =? n)) (take (Z.to_nat n) ptr))
    as (w2 & E2 & H2); [done|by apply Forall_take|lia|rewrite Et; unfold avail in Hn; lia|].
  unfold bind at 1. rewrite E2. cbn [Status_ok Status_OK andb]. rewrite Et in H2.
  destruct (Z.gtb_spec (size ptr - n) 0) as [Hmore|Hdone].
  - assert (n = avail) as En by (destruct (Z.le_gt_cases (size ptr) avail); [|tauto]; lia).
    assert (size ptr =? n = false) as Eq by (apply Z.eqb_neq; lia). rewrite Eq in H2.
    replace (header_at o + (kHeaderSize + n)) with kLogBlockSize in H2 by (unfold avail in En; lia).
    destruct (IH w2 kLogBlockSize _ false (drop (Z.to_nat n) ptr) H2) as (w3 & bytes & o' & E3 & HE & H3).
    { unfold offset_ok, kLogBlockSize. lia. }
    { by apply Forall_drop. }
    { rewrite length_drop. change (header_at kLogBlockSize =? kLogBlockSize - kHeaderSize) with false. cbv iota.
      unfold size in *. destruct (Z.eqb_spec (header_at o) (kLogBlockSize - kHeaderSize)); unfold avail in En; lia. }
    exists w3, (trailer o ++ physical (fragment_type begin false) (take (Z.to_nat n) ptr) ++ bytes), o'.
    split; [done|]. rewrite <- !app_assoc in H3. split; [|done].
    rewrite <- (take_drop (Z.to_nat n) ptr) at 1. apply Enc_more; [rewrite Et; done| |done].
    intros E0. apply (f_equal length) in E0. rewrite length_drop in E0. cbn in E0. unfold size in *. lia.
  - assert (n = size ptr) as En by lia. rewrite En, Z.eqb_refl in H2. unfold size in H2 at 2.
    rewrite Nat2Z.id, take_ge in H2 by lia. rewrite <- app_assoc in H2.
    eexists w2, _, _. split; [done|]. split; [|exact H2]. apply Enc_last. fold avail. lia.
Qed.

Lemma AddRecord_spec w o W s :
  Wst w o W -> offset_ok o -> is_bytes s ->
  exists w' bytes o', AddRecord address s w = Ret (Status_OK, w') /\ Encodes true o s bytes o' /\ Wst w' o' (W ++ bytes).
Proof. intros HW Ho Hb. apply AddRecord_loop_spec; [done..|]. destruct (_ =? _); lia. Qed.
End Writing.

(** * Reading *)

Section Reading.
Context {F : Type} `{SequentialFile F} {Remains : F -> Slice -> Prop} `{SL : !SequentialLaws F Remains}.
Implicit Types r : Reader F.

(** The reader at offset [o] of a block, [D] being what follows; it started at
    the beginning of the file. *)
Record Rst r (o : Z) (D : Slice) : Prop := {
  rs_rest : exists rem, Remains (file_ r) rem /\ D = buffer_ r ++ rem /\ (eof_ r = true -> rem = []);
  rs_buffer : size (buffer_ r) = Z.min (kLogBlockSize - o) (size D);
  rs_initial : initial_offset_ r = 0;
  rs_last : 0 <= last_record_offset_ r;
  rs_resync : resyncing_ r = false
}.

Lemma Rst_buffer r o D : Rst r o D -> offset_ok o -> buffer_ r = take (Z.to_nat (kLogBlockSize - o)) D.
Proof.
  intros [(rem & _ & -> & _) Hb _ _ _] Ho. unfold offset_ok in Ho. rewrite size_app in Hb. pose proof (size_nonneg rem).
  destruct (Z.le_gt_cases (kLogBlockSize - o) (size (buffer_ r))).
  - rewrite take_app_le, take_ge; [done|unfold size in *; lia..].
  - assert (rem = []) as -> by (apply nil_length_inv; unfold size in *; lia).
    rewrite app_nil_r, take_ge; [done|unfold size in *; lia].
Qed.

Lemma Reader_new_st f W reporter checksum : Remains f W -> Rst (Reader_new f reporter checksum 0) kLogBlockSize W.
Proof. intros HR. pose proof (size_nonneg W). constructor; [by exists W|rewrite Z.sub_diag, Z.min_l by done; done|done|done|done]. Qed.

(** The parts of the state no read changes. *)
Definition same_reader r r' : Prop := checksum_ r' = checksum_ r /\ reports r' = reports r.

(** The reader after a read of the bytes [b]. *)
Definition loaded r (f : F) (b : Slice) : Reader F :=
  update f (reports r) b (eof_ r || (size b <? kLogBlockSize)) (last_record_offset_ r)
    (u64 (end_of_buffer_offset_ r + size b)) (resyncing_ r) r.

Lemma read_block fuel r rem :
  Remains (file_ r) rem -> eof_ r = false -> size (buffer_ r) < kHeaderSize ->
  exists f' b, Remains f' (drop (Z.to_nat kLogBlockSize) rem) /\ b = take (Z.to_nat kLogBlockSize) rem /\
    ReadPhysicalRecord_loop address (S fuel) r = ReadPhysicalRecord_loop address fuel (loaded r f' b).
Proof.
  intros HR He Hb. destruct (read_law (file_ r) rem kLogBlockSize HR ltac:(done)) as (f' & E & HR').
  exists f', (take (Z.to_nat kLogBlockSize) rem). split; [done|]. split; [done|].
  revert E. generalize (take (Z.to_nat kLogBlockSize) rem). intros b E. cbn [ReadPhysicalRecord_loop].
  unfold bind at 1, get at 1. apply Z.ltb_lt in Hb as ->. rewrite He. cbn [negb].
  unfold bind, modify, on_file. cbn [file_ set_buffer update]. rewrite E.
  cbn [Status_ok Status_OK negb buffer_ set_buffer set_file update]. unfold loaded. rewrite He. cbn [orb].
  destruct (size b <? kLogBlockSize); [done|]. cbn [set_end update]. by rewrite <- He at 1.
Qed.

(** The reader is brought to the next header. *)
Lemma load_spec fuel r o D :
  Rst r o (trailer o ++ D) -> offset_ok o -> kHeaderSize <= size D ->
  exists r', ReadPhysicalRecord_loop address (S (S fuel)) r = parse_physical address r' /\
    Rst r' (header_at o) D /\ same_reader r r'.
Proof.
  intros HR Ho HD. pose proof HR as [(rem & HRem & ED & Heof) Hb Hi Hl Hs]. unfold offset_ok in Ho.
  assert (Parse : forall n r2, kHeaderSize <= size (buffer_ r2) ->
    ReadPhysicalRecord_loop address (S n) r2 = parse_physical address r2).
  { intros n r2 H2. cbn [ReadPhysicalRecord_loop]. unfold bind, get. apply Z.ltb_ge in H2 as ->. done. }
  unfold trailer, header_at in *. destruct (Z.ltb_spec (kLogBlockSize - o) kHeaderSize) as [Hlt|Hge].
  - set (pad := replicate (Z.to_nat (kLogBlockSize - o)) 0) in *.
    assert (Hpad : size pad = kLogBlockSize - o) by (unfold pad, size; rewrite length_replicate; lia).
    clearbody pad. rewrite size_app, Hpad in Hb. rewrite Z.min_l in Hb by (unfold kHeaderSize in *; lia).
    assert (Ebuf : pad = buffer_ r /\ D = rem) by (apply app_inj_1; [unfold size in *; lia|done]).
    destruct Ebuf as [Ep ->]. assert (Ee : eof_ r = false).
    { destruct (eof_ r); [|done]. rewrite (Heof eq_refl) in HD. unfold kHeaderSize, size in HD. cbn in HD. lia. }
    destruct (read_block (S fuel) r rem HRem Ee ltac:(lia)) as (f' & b & HR' & Eb & ->).
    assert (Hbs : size b = Z.min kLogBlockSize (size rem))
      by (rewrite Eb; unfold size; rewrite length_take; unfold kLogBlockSize; lia).
    assert (Er : rem = b ++ drop (Z.to_nat kLogBlockSize) rem) by (rewrite Eb; by rewrite take_drop).
    assert (He' : size b < kLogBlockSize -> drop (Z.to_nat kLogBlockSize) rem = [])
      by (intros; apply drop_ge; unfold size in *; lia).
    generalize dependent (drop (Z.to_nat kLogBlockSize) rem). intros rest HR' Er He'. clear Eb.
    rewrite Parse by (cbn [buffer_ loaded update]; unfold kLogBlockSize, kHeaderSize in *; lia).
    eexists. split; [reflexivity|]. split; [|done]. unfold loaded. rewrite Ee. cbn [orb].
    constructor; cbn [file_ buffer_ eof_ update initial_offset_ last_record_offset_ resyncing_]; [|lia|done..].
    exists rest. split; [done|]. split; [done|]. intros Hlt'. apply Z.ltb_lt in Hlt'. by apply He'.
  - rewrite app_nil_l in *. rewrite Parse by lia. by exists r.
Qed.

Lemma RecordType_byte t : u32 (sext 8 (RecordType_val t)) = RecordType_val t.
Proof. by destruct t. Qed.

(** The bytes of a physical record with any checksum and type byte. *)
Definition raw_physical (sum : list Z) (ty : Z) (frag : Slice) : Slice :=
  sum ++ [Z.land (size frag) 0xff; Z.shiftr (size frag) 8; ty] ++ frag.

Lemma physical_raw t frag :
  physical t frag = raw_physical (EncodeFixed32 (Mask (Value 0 (RecordType_val t :: frag)))) (RecordType_val t) frag.
Proof. done. Qed.

Lemma raw_physical_size sum ty frag : length sum = 4%nat -> size (raw_physical sum ty frag) = kHeaderSize + size frag.
Proof.
  intros Hs. unfold raw_physical. rewrite size_app. change kHeaderSize with (4 + 3). unfold size. rewrite Hs. cbn. lia.
Qed.

Lemma Decode_app4 sum l : length sum = 4%nat -> DecodeFixed32 (sum ++ l) = DecodeFixed32 sum.
Proof. destruct sum as [|x0 [|x1 [|x2 [|x3 [|]]]]]; done. Qed.

(** The buffer at a physical record that ends within the block. *)
Lemma Rst_record r o sum ty frag D :
  Rst r o (raw_physical sum ty frag ++ D) -> 0 <= o -> o + kHeaderSize + size frag <= kLogBlockSize ->
  length sum = 4%nat ->
  exists rest, buffer_ r = raw_physical sum ty frag ++ rest /\
    size rest = Z.min (kLogBlockSize - o - (kHeaderSize + size frag)) (size D) /\
    (forall rem, raw_physical sum ty frag ++ D = buffer_ r ++ rem -> rest ++ rem = D).
Proof.
  intros HR Ho Hf Hsum. pose proof (size_nonneg frag) as Hn. pose proof (size_nonneg D) as HnD.
  assert (Hoff : offset_ok o) by (unfold offset_ok, kHeaderSize in *; lia).
  pose proof (raw_physical_size sum ty frag Hsum) as Hps. set (P := raw_physical sum ty frag) in *.
  assert (Ebuf : buffer_ r = P ++ take (Z.to_nat (kLogBlockSize - o) - length P) D).
  { rewrite (Rst_buffer r o _ HR Hoff). apply take_app_ge. unfold size in Hps at 1. lia. }
  exists (take (Z.to_nat (kLogBlockSize - o) - length P) D). split; [done|]. split.
  - unfold size. rewrite length_take. unfold size in Hps at 1. unfold size in Hf, Hn. unfold size in *. lia.
  - intros rem E. rewrite Ebuf, <- app_assoc in E. by apply app_inv_head in E.
Qed.

(** What parsing makes of such a buffer. *)
Lemma parse_raw r sum ty frag rest :
  buffer_ r = raw_physical sum ty frag ++ rest -> length sum = 4%nat -> size frag < 2 ^ 16 ->
  is_byte ty -> is_bytes frag ->
  parse_physical address r =
  (if (u32 (sext 8 ty) =? RecordType_val kZeroType) && (size frag =? 0)
   then modify (set_buffer []) ;;; ret (kBadRecord, None)
   else if checksum_ r && negb (Value 0 (ty :: frag) =? Unmask (DecodeFixed32 sum))
   then
     modify (set_buffer []) ;;;
     ReportCorruption (size (buffer_ r)) (chars "checksum mismatch") ;;; ret (kBadRecord, None)
   else
     modify (set_buffer rest) ;;;
     let* r := get in
     if u64 (end_of_buffer_offset_ r - size (buffer_ r) - kHeaderSize - size frag) <? initial_offset_ r
     then ret (kBadRecord, Some [])
     else ret (u32 (sext 8 ty), Some frag)) r.
Proof.
  intros Ebuf Hsum Hf Hty Hb. pose proof (size_nonneg frag) as Hn.
  unfold parse_physical, bind at 1, get at 1. rewrite Ebuf. unfold raw_physical at 1 2 3.
  assert (Hd : forall l, DecodeFixed32 (sum ++ l) = DecodeFixed32 sum) by (intros; by apply Decode_app4).
  destruct sum as [|x0 [|x1 [|x2 [|x3 [|]]]]] eqn:Ex; try done. rewrite <- Ex in *.
  replace ((sum ++ [Z.land (size frag) 255; size frag ≫ 8; ty] ++ frag) ++ rest) with
    ([x0; x1; x2; x3; Z.land (size frag) 255; Z.shiftr (size frag) 8; ty] ++ frag ++ rest) by (by rewrite Ex).
  cbn [app lookup list_lookup need]. unfold bind at 1 2 3, ret at 1 2 3. cbv zeta.
  destruct (length_bytes (size frag)) as (_ & _ & El); [lia|]. rewrite El.
  pose proof (raw_physical_size sum ty frag Hsum) as Hps. set (len := size frag) in *.
  set (P := raw_physical sum ty frag) in *. assert (EP : P = sum ++ [Z.land len 0xff; Z.shiftr len 8; ty] ++ frag) by done.
  assert (HlP : length P = Z.to_nat (kHeaderSize + len)) by (unfold size in Hps; lia).
  rewrite size_app, Hps. pose proof (size_nonneg rest) as Hnr.
  destruct (Z.gtb_spec (kHeaderSize + len) (kHeaderSize + len + size rest)); [lia|].
  rewrite take_app_length' by done. unfold Slice_remove_prefix. rewrite drop_app_length' by done.
  assert (E6 : drop 6 P = ty :: frag) by (by rewrite EP, Ex).
  assert (E7 : drop (Z.to_nat kHeaderSize) (P ++ rest) = frag ++ rest) by (by rewrite EP, Ex).
  rewrite E6, E7, (Value_addr _ 0) by (by constructor). 
  assert (EDc : DecodeFixed32 (P ++ rest) = DecodeFixed32 sum) by (by rewrite EP, <- app_assoc, Hd). rewrite EDc.
  rewrite (take_app_length' frag rest) by (unfold len, size; lia). done.
Qed.

(** One physical record. *)
Lemma parse_spec r o t frag D :
  Rst r o (physical t frag ++ D) -> 0 <= o -> o + kHeaderSize + size frag <= kLogBlockSize ->
  is_bytes frag -> t <> kZeroType ->
  exists r', parse_physical address r = Ret ((RecordType_val t, Some frag), r') /\
    Rst r' (o + (kHeaderSize + size frag)) D /\ same_reader r r'.
Proof.
  intros HR Ho Hf Hb Ht. pose proof (size_nonneg frag) as Hn. rewrite physical_raw in HR.
  set (crc := Value 0 (RecordType_val t :: frag)) in *.
  assert (Hc : 0 <= crc < 2 ^ 32) by (apply Value_range; constructor; [apply type_byte|done]).
  destruct (Mask_inverse crc Hc) as (Hmr & Hm & _).
  destruct (Rst_record r o _ _ frag D HR Ho Hf eq_refl) as (rest & Ebuf & Hrest & ErD).
  destruct HR as [(rem & HRem & ED & Heof) Hbs Hi Hl Hs]. apply ErD in ED. clear ErD.
  rewrite (parse_raw r _ _ frag rest Ebuf eq_refl) by
    (done || apply type_byte || (unfold kLogBlockSize, kHeaderSize in Hf; lia)).
  rewrite RecordType_byte. assert (Hz : RecordType_val t =? RecordType_val kZeroType = false) by (by destruct t).
  rewrite Hz. fold crc. rewrite <- (app_nil_r (EncodeFixed32 _)), DecodeFixed32_app, Hm, Z.eqb_refl by done.
  cbn [negb andb]. rewrite andb_false_r. unfold bind, modify, get. cbn [initial_offset_ set_buffer update]. rewrite Hi.
  match goal with |- context [u64 ?x <? 0] => assert (En : (u64 x <? 0) = false)
    by (apply Z.ltb_ge, wrap_range; lia); rewrite En end.
  eexists. split; [done|]. split; [|done].
  constructor; cbn [file_ buffer_ eof_ initial_offset_ last_record_offset_ resyncing_ set_buffer update]; [|lia|done..].
  by exists rem.
Qed.

Lemma same_reader_trans r1 r2 r3 : same_reader r1 r2 -> same_reader r2 r3 -> same_reader r1 r3.
Proof. unfold same_reader. intuition congruence. Qed.

(** A fragment at the next header. *)
Lemma ReadPhysical_spec r o t frag D :
  Rst r o (trailer o ++ physical t frag ++ D) -> offset_ok o ->
  size frag <= kLogBlockSize - header_at o - kHeaderSize -> is_bytes frag -> t <> kZeroType ->
  exists r', ReadPhysicalRecord address r = Ret ((RecordType_val t, Some frag), r') /\
    Rst r' (header_at o + (kHeaderSize + size frag)) D /\ same_reader r r'.
Proof.
  intros HR Ho Hf Hb Ht. pose proof (header_at_ok o Ho) as Hh. pose proof (size_nonneg frag) as Hs1. pose proof (size_nonneg D) as Hs2.
  destruct (load_spec 1 r o (physical t frag ++ D) HR Ho) as (r1 & E1 & H1 & S1).
  { rewrite size_app, physical_size. lia. }
  destruct (parse_spec r1 (header_at o) t frag D H1) as (r2 & E2 & H2 & S2); [lia|lia|done|done|].
  exists r2. unfold ReadPhysicalRecord. rewrite E1, E2. split; [done|]. split; [done|]. by apply (same_reader_trans r r1).
Qed.

Lemma Rst_modify r o D g :
  Rst r o D -> buffer_ (g r) = buffer_ r -> file_ (g r) = file_ r -> eof_ (g r) = eof_ r ->
  initial_offset_ (g r) = initial_offset_ r -> resyncing_ (g r) = false -> 0 <= last_record_offset_ (g r) ->
  Rst (g r) o D.
Proof. intros [HR Hb Hi Hl Hs] E1 E2 E3 E4 E5 E6. constructor; rewrite ?E1, ?E2, ?E3, ?E4; done. Qed.

Lemma ReadRecord_loop_spec begin o data bytes o' :
  Encodes begin o data bytes o' -> forall fuel r scratch prospective fragment D,
  Rst r o (bytes ++ D) -> offset_ok o -> is_bytes data -> (begin = true -> scratch = []) -> 0 <= prospective ->
  (length bytes <= fuel)%nat ->
  exists r', ReadRecord_loop address fuel scratch (negb begin) prospective fragment r =
      Ret (Some (scratch ++ data), r') /\ Rst r' o' D /\ same_reader r r'.
Proof.
  induction 1 as [begin o data Hd|begin o frag rest bytes o' Hfr Hne HE IH];
    intros fuel r scratch prospective fragment D HR Ho Hb Hsc Hpr Hfuel.
  all: assert (Hlen : forall t f x, (length (trailer o ++ physical t f ++ x) = length (trailer o) + (7 + length f) + length x)%nat)
    by (intros; rewrite !length_app; pose proof (physical_size t f) as Hps; unfold size, kHeaderSize in Hps; lia).
  - rewrite <- (app_nil_r (trailer o ++ _)), <- app_assoc, Hlen in Hfuel. destruct fuel as [|fuel]; [lia|].
    rewrite <- app_assoc in HR.
    destruct (ReadPhysical_spec r o (fragment_type begin true) data D HR Ho Hd Hb) as (r1 & E1 & H1 & S1);
      [by destruct begin|].
    cbn [ReadRecord_loop]. unfold bind at 1. rewrite E1. unfold bind at 1, get at 1. rewrite (rs_resync _ _ _ H1).
    cbn [andb]. set (off := u64 _). assert (0 <= off) by (apply wrap_range; lia).
    assert (Hs : forall n, 0 <= n -> Rst (set_last n (set_resyncing false r1)) (header_at o + (kHeaderSize + size data)) D).
    { intros n Hn. apply (Rst_modify r1 _ D (fun r => set_last n (set_resyncing false r))); done. }
    destruct begin; [rewrite Hsc by done|]; cbn [fragment_type andb negb]; unfold bind, modify, ret; cbn;
      (eexists; split; [done|]; split; [by apply Hs|done]).
  - rewrite Hlen in Hfuel. destruct fuel as [|fuel]; [lia|]. rewrite <- !app_assoc in HR.
    apply Forall_app in Hb as [Hbf Hbr].
    destruct (ReadPhysical_spec r o (fragment_type begin false) frag (bytes ++ D) HR Ho) as (r1 & E1 & H1 & S1);
      [lia|done|by destruct begin|].
    cbn [ReadRecord_loop]. unfold bind at 1. rewrite E1. unfold bind at 1, get at 1. rewrite (rs_resync _ _ _ H1).
    cbn [andb]. set (off := u64 _). assert (0 <= off) by (apply wrap_range; lia).
    replace (header_at o + (kHeaderSize + size frag)) with kLogBlockSize in H1 by lia.
    assert (H1' : Rst (set_resyncing false r1) kLogBlockSize (bytes ++ D)).
    { apply (Rst_modify r1 _ _ (set_resyncing false)); [done..|]. apply (rs_last _ _ _ H1). }
    destruct (IH fuel (set_resyncing false r1) (scratch ++ frag) (if begin then off else prospective) frag D)
      as (r' & E' & H' & S'); [done|unfold offset_ok, kLogBlockSize; lia|done|done|by destruct begin|lia|].
    exists r'. split; [|split; [done|by apply (same_reader_trans r r1)]]. rewrite <- app_assoc in E'.
    destruct begin; cbn [fragment_type andb negb]; unfold bind, modify, ret; cbn; [|exact E'].
    rewrite Hsc in E' |- * by done. exact E'.
Qed.

(** The end of the log. *)
Lemma ReadPhysical_eof r o :
  Rst r o [] -> exists r', ReadPhysicalRecord address r = Ret ((kEof, None), r') /\
    same_reader r r' /\ resyncing_ r' = false.
Proof.
  intros [(rem & HRem & ED & Heof) Hb Hi Hl Hs]. symmetry in ED. apply app_nil in ED as [Eb ->].
  assert (End_ : forall n r2, eof_ r2 = true -> buffer_ r2 = [] -> same_reader r r2 -> resyncing_ r2 = false ->
    exists r', ReadPhysicalRecord_loop address (S n) r2 = Ret ((kEof, None), r') /\ same_reader r r' /\ resyncing_ r' = false).
  { intros n r2 Ee Eb2 S2 R2. cbn [ReadPhysicalRecord_loop]. unfold bind at 1, get at 1. rewrite Eb2, Ee. by eexists. }
  unfold ReadPhysicalRecord. destruct (eof_ r) eqn:Ee; [by apply End_|].
  destruct (read_block 2 r [] HRem Ee) as (f' & b & _ & -> & ->); [by rewrite Eb|].
  rewrite take_nil. apply End_; [cbn; by rewrite orb_true_r|done|done|done].
Qed.

Lemma ReadRecord_eof r o fuel :
  Rst r o [] -> (0 < fuel)%nat -> exists r', ReadRecord address fuel r = Ret (None, r') /\ same_reader r r'.
Proof.
  intros HR Hf. destruct (ReadPhysical_eof r o HR) as (r1 & E1 & S1 & R1). destruct fuel as [|fuel]; [lia|].
  unfold ReadRecord, bind at 1, get at 1. rewrite (rs_initial _ _ _ HR).
  destruct (Z.ltb_spec (last_record_offset_ r) 0); [pose proof (rs_last _ _ _ HR); lia|].
  unfold bind at 1, ret at 1. cbn [negb ReadRecord_loop]. unfold bind at 1. rewrite E1.
  unfold bind at 1, get at 1. rewrite R1. cbn [andb]. by eexists.
Qed.

Lemma ReadRecord_next r o data bytes o' D fuel :
  Encodes true o data bytes o' -> Rst r o (bytes ++ D) -> offset_ok o -> is_bytes data ->
  (length bytes <= fuel)%nat ->
  exists r', ReadRecord address fuel r = Ret (Some data, r') /\ Rst r' o' D /\ same_reader r r'.
Proof.
  intros HE HR Ho Hb Hf. unfold ReadRecord, bind at 1, get at 1. rewrite (rs_initial _ _ _ HR).
  destruct (Z.ltb_spec (last_record_offset_ r) 0); [pose proof (rs_last _ _ _ HR); lia|].
  unfold bind at 1, ret at 1. cbn [negb].
  apply (ReadRecord_loop_spec true o data bytes o' HE fuel r [] 0 [] D HR Ho Hb); [done|lia|done].
Qed.
End Reading.

(** * Logs *)

(** [Records o rs W o']: the records [rs], one after the other. *)
Inductive Records : Z -> list Slice -> Slice -> Z -> Prop :=
| Rec_nil o : Records o [] [] o
| Rec_cons o s bytes o1 rs W o2 :
    is_bytes s -> Encodes true o s bytes o1 -> Records o1 rs W o2 -> Records o (s :: rs) (bytes ++ W) o2.

Lemma Records_app o1 rs1 W1 o2 rs2 W2 o3 :
  Records o1 rs1 W1 o2 -> Records o2 rs2 W2 o3 -> Records o1 (rs1 ++ rs2) (W1 ++ W2) o3.
Proof.
  induction 1 as [o|o s bytes oa rs W ob Hb HE HR IH]; intros H2; [done|]. rewrite <- app_assoc. cbn [app].
  eapply Rec_cons; [done|done|by apply IH].
Qed.

Lemma Records_ok o rs W o' : Records o rs W o' -> offset_ok o -> offset_ok o'.
Proof. induction 1; [done|]. intros. by eauto using Encodes_ok. Qed.

(** The offset in the block follows the length. *)
Lemma trailer_header o : offset_ok o -> (o + size (trailer o)) mod kLogBlockSize = header_at o mod kLogBlockSize.
Proof.
  unfold offset_ok, trailer, header_at, size. intros Ho. destruct (Z.ltb_spec (kLogBlockSize - o) kHeaderSize).
  - rewrite length_replicate. replace (o + _) with kLogBlockSize by lia. done.
  - cbn [length]. f_equal. lia.
Qed.

Lemma Encodes_offset begin o data bytes o' :
  Encodes begin o data bytes o' -> offset_ok o -> (o + size bytes) mod kLogBlockSize = o' mod kLogBlockSize.
Proof.
  assert (Step : forall o frag, offset_ok o ->
    (o + (size (trailer o) + (kHeaderSize + size frag))) mod kLogBlockSize =
    (header_at o + (kHeaderSize + size frag)) mod kLogBlockSize).
  { intros o0 f Ho0. rewrite Z.add_assoc, <- Z.add_mod_idemp_l, trailer_header, Z.add_mod_idemp_l by done. done. }
  induction 1 as [begin o data Hd|begin o frag rest bytes o' Hfr Hne HE IH]; intros Ho.
  - rewrite size_app, physical_size. by apply (Step o).
  - rewrite !size_app, physical_size, (Z.add_assoc (size (trailer o))), Z.add_assoc.
    rewrite <- Z.add_mod_idemp_l, (Step o), Z.add_mod_idemp_l by done.
    rewrite <- IH by (unfold offset_ok, kLogBlockSize; lia). do 2 f_equal. lia.
Qed.

Lemma Records_offset o rs W o' :
  Records o rs W o' -> offset_ok o -> (o + size W) mod kLogBlockSize = o' mod kLogBlockSize.
Proof.
  induction 1 as [o|o s bytes oa rs W ob Hb HE HR IH]; intros Ho; [unfold size; cbn [length]; f_equal; lia|].
  rewrite size_app, Z.add_assoc, <- Z.add_mod_idemp_l, (Encodes_offset _ _ _ _ _ HE Ho), Z.add_mod_idemp_l by done.
  apply IH. by apply (Encodes_ok _ _ _ _ _ HE).
Qed.

(** The end of a block and the start of the next are the same place. *)
Lemma Encodes_wrap begin o data bytes o' :
  Encodes begin o data bytes o' -> o = 0 -> Encodes begin kLogBlockSize data bytes o'.
Proof.
  intros HE E. destruct HE as [begin o data Hd|begin o frag rest bytes o' Hfr Hne HE]; subst o.
  - exact (Enc_last begin kLogBlockSize data Hd).
  - exact (Enc_more begin kLogBlockSize frag rest bytes o' Hfr Hne HE).
Qed.

Section Write_log.
Context {F : Type} `{WritableFile F} {Ready : F -> Slice -> Prop} `{WL : !WritableLaws F Ready}.

(** Adding records until one fails. *)
Fixpoint AddRecords (rs : list Slice) : M (Writer F) bool :=
  match rs with
  | [] => ret true
  | s :: rs => let* st := AddRecord address s in if Status_ok st then AddRecords rs else ret false
  end.

(** A writer at the end of the log [rs], [W]. *)
Definition At_end (w : Writer F) (rs : list Slice) (W : Slice) : Prop :=
  exists ow o, Wst (Ready := Ready) w ow W /\ Records kLogBlockSize rs W o /\ (ow = o \/ ow = 0 /\ o = kLogBlockSize).

Lemma AddRecords_spec rs : forall w rs0 W,
  At_end w rs0 W -> Forall is_bytes rs ->
  exists w' W', AddRecords rs w = Ret (true, w') /\ At_end w' (rs0 ++ rs) W'.
Proof.
  induction rs as [|s rs IH]; intros w rs0 W (ow & o & HW & HR & Ho) Hb.
  { exists w, W. rewrite app_nil_r. split; [done|]. by exists ow, o. }
  apply Forall_cons in Hb as [Hs Hb]. cbn [AddRecords].
  assert (Hok : offset_ok o) by (apply (Records_ok _ _ _ _ HR); unfold offset_ok, kLogBlockSize; lia).
  destruct (AddRecord_spec w ow W s HW) as (w1 & bytes & o1 & E & HE & HW1); [|done|].
  { destruct Ho as [->|[-> _]]; [done|]. unfold offset_ok, kLogBlockSize. lia. }
  unfold bind at 1. rewrite E. cbn [Status_ok Status_OK].
  assert (HE' : Encodes true o s bytes o1) by (destruct Ho as [->|[-> ->]]; [done|by apply (Encodes_wrap _ 0)]).
  destruct (IH w1 (rs0 ++ [s]) (W ++ bytes)) as (w2 & W2 & E2 & H2); [|done|].
  - exists o1, o1. split; [done|]. split; [|by left]. eapply Records_app; [exact HR|].
    rewrite <- (app_nil_r bytes). by eapply Rec_cons; [done|exact HE'|apply Rec_nil].
  - exists w2, W2. split; [done|]. by rewrite <- app_assoc in H2.
Qed.

(** Opening a writer on the file of a log. *)
Lemma Writer_new_at_end f rs W o :
  Ready f W -> Records kLogBlockSize rs W o -> At_end (Writer_new address f (size W)) rs W.
Proof.
  intros Hf HR. exists (size W mod kLogBlockSize), o. split; [by constructor|]. split; [done|].
  assert (Hk : offset_ok kLogBlockSize) by (unfold offset_ok, kLogBlockSize; lia).
  pose proof (Records_ok _ _ _ _ HR Hk) as Ho. apply Records_offset in HR; [|done].
  rewrite <- Z.add_mod_idemp_l, Z.mod_same, Z.add_0_l in HR by done. rewrite HR.
  unfold offset_ok in Ho. destruct (Z.eq_dec o kLogBlockSize) as [->|Hne]; [by right|left].
  apply Z.mod_small. lia.
Qed.
End Write_log.

Section Read_log.
Context {F : Type} `{SequentialFile F} {Remains : F -> Slice -> Prop} `{SL : !SequentialLaws F Remains}.

(** [n] calls of [ReadRecord]. *)
Fixpoint ReadAll (fuel n : nat) : M (Reader F) (list (option Slice)) :=
  match n with
  | O => ret []
  | S n => let* o := ReadRecord address fuel in let* os := ReadAll fuel n in ret (o :: os)
  end.

Lemma ReadAll_spec fuel o rs W o' : Records o rs W o' -> forall r,
  Rst (Remains := Remains) r o W -> offset_ok o -> (length W < fuel)%nat ->
  exists r', ReadAll fuel (S (length rs)) r = Ret (map Some rs ++ [None], r') /\ same_reader r r'.
Proof.
  induction 1 as [o|o s bytes oa rs W ob Hb HE HR IH]; intros r Hr Ho Hf.
  - cbn [length ReadAll]. destruct (ReadRecord_eof r o fuel Hr ltac:(lia)) as (r1 & E1 & S1).
    unfold bind, ret. rewrite E1. by exists r1.
  - rewrite length_app in Hf. destruct (ReadRecord_next r o s bytes oa W fuel HE Hr Ho Hb ltac:(lia)) as (r1 & E1 & H1 & S1).
    destruct (IH r1 H1) as (r2 & E2 & S2); [by apply (Encodes_ok _ _ _ _ _ HE)|lia|].
    exists r2. cbn [length map app]. change (ReadAll fuel (S (S (length rs)))) with
      (let* o := ReadRecord address fuel in let* os := ReadAll fuel (S (length rs)) in ret (o :: os)).
    unfold bind at 1. rewrite E1. unfold bind. rewrite E2. split; [done|]. by apply (same_reader_trans r r1).
Qed.
End Read_log.

(** C19: a log gives back what was written to it. Records of any lengths added to
    an empty file, and more added after the file is reopened with its length,
    are all written with success, and a reader of the file, with or without
    checksums, returns exactly these records in order and then the end of the
    log, and reports no corruption: the fragments, the trailers of the blocks
    and the offset a reopened writer starts from agree. *)
Theorem log_roundtrip {F G} `{WritableFile F, SequentialFile G} {Ready Remains}
    `{!WritableLaws F Ready, !SequentialLaws G Remains} (f : F) rs1 rs2 reporter checksum :
  Ready f [] -> Forall is_bytes rs1 -> Forall is_bytes rs2 ->
  exists w1 W1, AddRecords rs1 (Writer_new address f 0) = Ret (true, w1) /\ Ready (dest_ w1) W1 /\
  exists w2 W2, AddRecords rs2 (Writer_new address (dest_ w1) (size W1)) = Ret (true, w2) /\ Ready (dest_ w2) W2 /\
  forall g : G, Remains g W2 -> exists r,
    ReadAll (S (length W2)) (S (length (rs1 ++ rs2))) (Reader_new g reporter checksum 0) =
      Ret (map Some (rs1 ++ rs2) ++ [None], r) /\ reports r = [].
Proof.
  intros Hf H1 H2.
  destruct (AddRecords_spec rs1 (Writer_new address f 0) [] []) as (w1 & W1 & E1 & ow1 & o1 & HW1 & HR1 & _);
    [apply (Writer_new_at_end f [] [] kLogBlockSize Hf); by apply Rec_nil|done|].
  exists w1, W1. split; [done|]. split; [apply (ws_ready _ _ _ HW1)|].
  destruct (AddRecords_spec rs2 (Writer_new address (dest_ w1) (size W1)) rs1 W1) as (w2 & W2 & E2 & ow2 & o2 & HW2 & HR2 & _);
    [apply (Writer_new_at_end _ _ _ o1); [apply (ws_ready _ _ _ HW1)|done]|done|].
  exists w2, W2. split; [done|]. split; [apply (ws_ready _ _ _ HW2)|]. intros g Hg.
  destruct (ReadAll_spec (S (length W2)) _ _ _ _ HR2 (Reader_new g reporter checksum 0)) as (r & Er & [_ Sr]);
    [by apply Reader_new_st|unfold offset_ok, kLogBlockSize; lia|lia|].
  exists r. split; [done|]. by rewrite Sr.
Qed.
End Props.

Lemma log_roundtrip_witness :
  exists w1 W1, AddRecords (fun _ => 1) [chars "one"; []] (Writer_new (fun _ => 1) ([] : MemFile) 0) = Ret (true, w1) /\
  exists w2 W2, AddRecords (fun _ => 1) [chars "two"] (Writer_new (fun _ => 1) (dest_ w1) (size W1)) = Ret (true, w2) /\
  exists r, ReadAll (fun _ => 1) (S (length W2)) 4 (Reader_new (W2 : MemFile) true true 0) =
    Ret ([Some (chars "one"); Some []; Some (chars "two"); None], r) /\ reports r = [].
Proof.
  destruct (log_roundtrip (Ready := eq) (Remains := eq) (fun _ => 1) ([] : MemFile) [chars "one"; []] [chars "two"]
    true true eq_refl) as (w1 & W1 & E1 & _ & w2 & W2 & E2 & _ & Hr);
    [repeat constructor; by apply (bool_decide_unpack _)..|].
  exists w1, W1. split; [exact E1|]. exists w2, W2. split; [exact E2|]. exact (Hr W2 eq_refl).
Defined.
