(* ===== verification/LvLogSafe.v ===== *)
(** The log reader on any bytes: it always returns, and a corrupted physical
    record is never taken for a good one. *)

From stdpp Require Import base list gmap strings.
From Stdlib Require Import ZArith Lia.
From S2P Require Import Prelude LvSlice LvCoding LvCrc LvEnv LvLog LvLogProps.

Section Safe.
Variable address : list Z -> Z.
Context {F : Type} `{SequentialFile F} {Remains : F -> Slice -> Prop} `{SL : !SequentialLaws F Remains}.
Implicit Types r : Reader F.

(** What the reader has still to look at. *)
Definition Left r (n : nat) : Prop :=
  exists rem, Remains (file_ r) rem /\ n = (length (buffer_ r) + length rem)%nat /\ 0 <= initial_offset_ r.

(** A call that returns, and leaves less unless it found the end. *)
Definition Advances r (n : nat) (c : outcome ((Z * option Slice) * Reader F)) : Prop :=
  exists t o r' n', c = Ret ((t, o), r') /\ Left r' n' /\ (t = kEof \/ (n' < n)%nat) /\ (n' <= n)%nat.

Lemma ReportCorruption_left bytes reason r n : Left r n ->
  exists r', ReportCorruption bytes reason r = Ret (tt, r') /\ Left r' n /\ buffer_ r' = buffer_ r /\ file_ r' = file_ r.
Proof.
  intros HL. unfold ReportCorruption, ReportDrop, modify. eexists. split; [done|].
  by destruct (has_reporter r && _).
Qed.

Lemma parse_advances r n :
  Left r n -> kHeaderSize <= size (buffer_ r) -> Advances r n (parse_physical address r).
Proof.
  intros (rem & HR & -> & Hi) Hb. unfold kHeaderSize, size in Hb.
  unfold parse_physical, bind at 1, get at 1.
  destruct (buffer_ r) as [|x0 [|x1 [|x2 [|x3 [|x4 [|x5 [|x6 l]]]]]]] eqn:Eb; try (cbn in Hb; lia).
  cbn [lookup list_lookup need]. unfold bind at 1 2 3, ret at 1 2 3. cbv zeta.
  set (b := x0 :: _) in *. set (len := Z.lor _ _).
  assert (Hlen : 0 <= len) by (apply Z.lor_nonneg; split; [by apply Z.land_nonneg; right|
    apply Z.shiftl_nonneg; by apply Z.land_nonneg; right]).
  assert (Hn : (7 <= length b)%nat) by (cbn; lia).
  set (r0 := set_buffer [] r). assert (H0 : Left r0 (length rem)) by (by exists rem).
  destruct (_ >? _).
  { unfold bind at 1, modify at 1. fold r0. destruct (eof_ r).
    - eexists kEof, None, r0, _. split; [done|]. split; [done|]. split; [by left|]. lia.
    - cbn [negb]. unfold bind. destruct (ReportCorruption_left (size b) (chars "bad record length") r0 _ H0) as (r1 & -> & H1 & _).
      eexists kBadRecord, None, r1, _. split; [done|]. split; [done|]. split; [right|]; lia. }
  destruct (_ && (len =? 0)).
  { eexists kBadRecord, None, r0, _. split; [done|]. split; [done|]. split; [right|]; lia. }
  destruct (checksum_ r && _).
  { unfold bind, modify at 1. fold r0.
    destruct (ReportCorruption_left (size b) (chars "checksum mismatch") r0 _ H0) as (r1 & -> & H1 & _).
    eexists kBadRecord, None, r1, _. split; [done|]. split; [done|]. split; [right|]; lia. }
  set (r1 := set_buffer (Slice_remove_prefix b (kHeaderSize + len)) r).
  assert (H1 : Left r1 (length (Slice_remove_prefix b (kHeaderSize + len)) + length rem)) by (by exists rem).
  assert (Hlt : (length (Slice_remove_prefix b (kHeaderSize + len)) < length b)%nat)
    by (unfold Slice_remove_prefix, kHeaderSize; rewrite length_drop; lia).
  unfold bind, modify, get. fold r1.
  destruct (_ <? initial_offset_ r1); (eexists _, _, r1, _; split; [done|split; [done|split; [right|]; lia]]).
Qed.

Lemma ReadPhysical_advances r n : Left r n -> Advances r n (ReadPhysicalRecord address r).
Proof.
  intros HL. pose proof HL as (rem & HR & En & Hi).
  assert (Go : forall k r2 m, Left r2 m -> (m <= n)%nat -> (size (buffer_ r2) < kHeaderSize -> eof_ r2 = true) ->
    Advances r n (ReadPhysicalRecord_loop address (S k) r2)).
  { intros k r2 m H2 Hm He2. cbn [ReadPhysicalRecord_loop]. unfold bind at 1, get at 1.
    destruct (Z.ltb_spec (size (buffer_ r2)) kHeaderSize) as [Hlt|Hge].
    - rewrite (He2 Hlt). cbn [negb]. destruct H2 as (rem2 & HR2 & Em & Hi2).
      eexists kEof, None, _, (length rem2). split; [done|]. split; [by exists rem2|]. split; [by left|]. lia.
    - destruct (parse_advances r2 m H2 Hge) as (t & o & r' & n' & E & HL' & Hd & Hle).
      exists t, o, r', n'. split; [done|]. split; [done|]. split; [|lia]. destruct Hd; [by left|right; lia]. }
  unfold ReadPhysicalRecord. destruct (Z.ltb_spec (size (buffer_ r)) kHeaderSize) as [Hlt|Hge];
    [|apply (Go 2%nat r n HL); [lia|lia]].
  destruct (eof_ r) eqn:Ee; [by apply (Go 2%nat r n)|].
  destruct (read_block address 2 r rem HR Ee Hlt) as (f' & b & HR' & Eb & ->).
  apply (Go 1%nat (loaded r f' b) (length b + length (drop (Z.to_nat kLogBlockSize) rem))%nat).
  - by exists (drop (Z.to_nat kLogBlockSize) rem).
  - rewrite Eb, length_take, length_drop. lia.
  - intros Hs. cbn [loaded update buffer_ eof_] in *. rewrite Ee. cbn [orb]. apply Z.ltb_lt.
    unfold kLogBlockSize, kHeaderSize in *. lia.
Qed.

Lemma modify_left r n g : Left r n -> buffer_ (g r) = buffer_ r -> file_ (g r) = file_ r -> initial_offset_ (g r) = initial_offset_ r ->
  Left (g r) n.
Proof. intros (rem & HR & -> & Hi) Eb Ef Ei. exists rem. by rewrite Eb, Ef, Ei. Qed.

(** A call for a record that returns, and leaves less when it found one. *)
Definition Returns (n : nat) (c : outcome (option Slice * Reader F)) : Prop :=
  exists a r' n', c = Ret (a, r') /\ Left r' n' /\ (n' <= n)%nat /\ (a = None \/ (n' < n)%nat).

Lemma ReadRecord_loop_total fuel : forall scratch infrag prospective fragment r n,
  Left r n -> (n < fuel)%nat -> Returns n (ReadRecord_loop address fuel scratch infrag prospective fragment r).
Proof.
  induction fuel as [|fuel IH]; intros scratch infrag prospective fragment r n HL Hf; [lia|].
  cbn [ReadRecord_loop]. unfold bind at 1.
  destruct (ReadPhysical_advances r n HL) as (t & o & r1 & n1 & -> & H1 & Hd & Hle). unfold bind at 1, get at 1.
  set (frag := match o with Some f => f | None => fragment end). set (off := u64 _).
  assert (Hrec : forall s i p f r2, t <> kEof -> Left r2 n1 -> Returns n (ReadRecord_loop address fuel s i p f r2)).
  { intros s i p f r2 Ht H2. destruct Hd as [|Hlt]; [done|].
    destruct (IH s i p f r2 n1 H2 ltac:(lia)) as (a & r' & n' & E & HL' & Hle' & _).
    exists a, r', n'. split; [done|]. split; [done|]. split; [lia|right; lia]. }
  assert (Hfin : forall (a : option Slice) r2, Left r2 n1 -> a = None \/ t <> kEof -> Returns n (Ret (a, r2))).
  { intros a r2 H2 Ha. exists a, r2, n1. split; [done|]. split; [done|]. split; [done|]. destruct Ha; [by left|].
    destruct Hd; [done|by right]. }
  clear IH HL Hf Hle Hd.
  destruct (resyncing_ r1 && (t =? RecordType_val kMiddleType)) eqn:E1.
  { apply andb_prop in E1 as [_ Et]. apply Z.eqb_eq in Et. apply Hrec; [by rewrite Et|done]. }
  set (r2 := set_resyncing false r1). assert (H2 : Left r2 n1) by (by apply (modify_left r1 n1 (set_resyncing false))).
  destruct (resyncing_ r1 && (t =? RecordType_val kLastType)) eqn:E2.
  { apply andb_prop in E2 as [_ Et]. apply Z.eqb_eq in Et. unfold bind, modify. apply Hrec; [by rewrite Et|done]. }
  unfold bind at 1, modify at 1. fold r2. clearbody r2.
  assert (Rep : forall bytes reason, exists r3, ReportCorruption bytes reason r2 = Ret (tt, r3) /\ Left r3 n1).
  { intros bytes reason. destruct (ReportCorruption_left bytes reason r2 n1 H2) as (r3 & E & H3 & _). by exists r3. }
  assert (Opt : forall (b : bool) bytes reason, exists r3,
    (if b then ReportCorruption bytes reason else ret tt) r2 = Ret (tt, r3) /\ Left r3 n1).
  { intros [] bytes reason; [apply Rep|by exists r2]. }
  repeat match goal with
  | |- context [if t =? ?x then _ else _] => destruct (Z.eqb_spec t x) as [->|?]
  end.
  - unfold bind at 1. destruct (Opt (infrag && negb (Slice_empty scratch)) (size scratch) (chars "partial record without end(1)")) as (r3 & -> & H3).
    apply Hfin; [by apply (modify_left r3 n1 (set_last off))|by right].
  - unfold bind at 1. destruct (Opt (infrag && negb (Slice_empty scratch)) (size scratch) (chars "partial record without end(2)")) as (r3 & -> & H3).
    by apply Hrec.
  - destruct infrag; cbn [negb]; [by apply Hrec|]. unfold bind at 1.
    destruct (Rep (size frag) (chars "missing start of fragmented record(1)")) as (r3 & -> & H3). by apply Hrec.
  - destruct infrag; cbn [negb]; [apply Hfin; [by apply (modify_left r2 n1 (set_last prospective))|by right]|].
    unfold bind at 1. destruct (Rep (size frag) (chars "missing start of fragmented record(2)")) as (r3 & -> & H3). by apply Hrec.
  - apply Hfin; [done|by left].
  - destruct infrag; [|by apply Hrec]. unfold bind at 1.
    destruct (Rep (size scratch) (chars "error in middle of record")) as (r3 & -> & H3). by apply Hrec.
  - unfold bind at 1. edestruct Rep as (r3 & -> & H3). by apply Hrec.
Qed.

Lemma ReadRecord_total fuel r n :
  Left r n -> (n < fuel)%nat -> Returns n (ReadRecord address fuel r).
Proof.
  intros HL Hf. pose proof HL as (_ & _ & _ & Hi). unfold ReadRecord, bind at 1, get at 1. destruct (_ <? _).
  2: { unfold bind, ret at 1. cbn [negb]. by apply ReadRecord_loop_total. }
  unfold bind at 1, SkipToInitialBlock. unfold bind at 1, get at 1. cbv zeta.
  match goal with |- context [modify (set_end ?x)] => set (b := x) end.
  assert (Hb : 0 <= b).
  { unfold b. destruct (_ >? _); [apply wrap_range; lia|]. pose proof (Z.mod_le (initial_offset_ r) kLogBlockSize Hi). unfold kLogBlockSize in *. lia. }
  unfold bind at 1, modify at 1. destruct (b >? 0).
  - unfold bind at 1, on_file. cbn [file_ set_end update]. destruct HL as (rem & HR & En & _).
    destruct (skip_law (file_ r) rem b HR Hb) as (f' & -> & HR'). cbn [Status_ok Status_OK negb]. unfold ret at 1. cbn [negb].
    set (m := (length (buffer_ r) + length (drop (Z.to_nat b) rem))%nat).
    assert (Hm : (m <= n)%nat) by (unfold m; rewrite length_drop; lia).
    destruct (ReadRecord_loop_total fuel [] false 0 [] (set_file f' (set_end b r)) m) as (a & r' & n' & E & HL' & Hle & Hd);
      [by exists (drop (Z.to_nat b) rem)|lia|].
    exists a, r', n'. split; [done|]. split; [done|]. split; [lia|]. destruct Hd; [by left|right; lia].
  - unfold ret at 1. cbn [negb]. apply ReadRecord_loop_total; [|done]. by apply (modify_left r n (set_end b)).
Qed.

(** [while (reader.ReadRecord(&record, &scratch))]. *)
Fixpoint ReadLog (fuel k : nat) : M (Reader F) (list Slice) :=
  match k with
  | O => nofuel
  | S k =>
      let* o := ReadRecord address fuel in
      match o with
      | None => ret []
      | Some s => let* l := ReadLog fuel k in ret (s :: l)
      end
  end.

Lemma ReadLog_total fuel k : forall r n,
  Left r n -> (n < fuel)%nat -> (n < k)%nat ->
  exists rs r', ReadLog fuel k r = Ret (rs, r') /\ (length rs <= n)%nat.
Proof.
  induction k as [|k IH]; intros r n HL Hf Hk; [lia|]. cbn [ReadLog]. unfold bind at 1.
  destruct (ReadRecord_total fuel r n HL Hf) as (o & r1 & n1 & -> & H1 & Hle & Hd).
  destruct o as [s|]; [|exists [], r1; split; [done|cbn; lia]]. destruct Hd as [|Hlt]; [done|].
  destruct (IH r1 n1 H1 ltac:(lia) ltac:(lia)) as (rs & r2 & E2 & Hl). unfold bind. rewrite E2.
  exists (s :: rs), r2. split; [done|]. cbn. lia.
Qed.

(** C32: the log reader ends on any file. Whatever the bytes, the offset to start
    from, and whether checksums are verified, every [ReadRecord] of a reading
    loop returns (no access outside the buffer, and all its loops end) and the
    loop [while (ReadRecord(...))] itself ends, after at most as many records as
    the file has bytes. *)
Theorem log_reader_total f W reporter checksum initial_offset :
  Remains f W -> 0 <= initial_offset ->
  exists rs r', ReadLog (S (length W)) (S (length W)) (Reader_new f reporter checksum initial_offset) = Ret (rs, r') /\
    (length rs <= length W)%nat.
Proof. intros HR Hi. apply ReadLog_total; [by exists W|lia|lia]. Qed.

(** * Corrupted records *)

Lemma checksum_mismatch r o sum ty frag D :
  Rst (Remains := Remains) r o (raw_physical sum ty frag ++ D) -> 0 <= o ->
  o + kHeaderSize + size frag <= kLogBlockSize -> length sum = 4%nat -> is_byte ty -> is_bytes frag ->
  checksum_ r = true -> Value 0 (ty :: frag) <> Unmask (DecodeFixed32 sum) ->
  exists r', parse_physical address r = Ret ((kBadRecord, None), r') /\ buffer_ r' = [].
Proof.
  intros HR Ho Hf Hsum Hty Hb Hc Hv. destruct (Rst_record r o _ _ frag D HR Ho Hf Hsum) as (rest & Ebuf & _).
  rewrite (parse_raw address r sum ty frag rest Ebuf) by (done || unfold kLogBlockSize, kHeaderSize in Hf; lia).
  destruct (_ && _); [by eexists|]. apply Z.eqb_neq in Hv as ->. rewrite Hc. cbn [negb andb].
  unfold bind, modify at 1. set (r1 := set_buffer [] r). unfold ReportCorruption, ReportDrop, modify.
  eexists. split; [done|]. by destruct (has_reporter r1 && _).
Qed.

(** C31: with checksums on, a physical record of which up to four consecutive
    bytes of the type and the data were changed is never returned: the reader
    says that it is bad and drops the rest of the block. *)
Theorem log_detects_bursts r o t frag pre w1 w2 post ty' frag' D :
  RecordType_val t :: frag = pre ++ w1 ++ post -> ty' :: frag' = pre ++ w2 ++ post ->
  length w1 = length w2 -> (length w1 <= 4)%nat -> w1 <> w2 ->
  is_bytes frag -> is_byte ty' -> is_bytes frag' ->
  checksum_ r = true -> 0 <= o -> o + kHeaderSize + size frag <= kLogBlockSize ->
  Rst (Remains := Remains) r o
    (raw_physical (EncodeFixed32 (Mask (Value 0 (RecordType_val t :: frag)))) ty' frag' ++ D) ->
  exists r', parse_physical address r = Ret ((kBadRecord, None), r') /\ buffer_ r' = [].
Proof.
  intros E1 E2 Hl H4 Hne Hb Hty Hb' Hc Ho Hf HR.
  assert (Hlen : size frag' = size frag).
  { apply (f_equal length) in E1, E2. rewrite !length_app in *. cbn in E1, E2. unfold size. lia. }
  assert (B1 : is_bytes (pre ++ w1 ++ post)) by (rewrite <- E1; constructor; [apply type_byte|done]).
  assert (B2 : is_bytes (pre ++ w2 ++ post)) by (rewrite <- E2; by constructor).
  assert (Hr : 0 <= Value 0 (RecordType_val t :: frag) < 2 ^ 32)
    by (apply Value_range; constructor; [apply type_byte|done]).
  destruct (Mask_inverse _ Hr) as (Hmr & Hm & _).
  apply (checksum_mismatch r o _ _ _ D HR); [done|lia|done|done|done|done|].
  rewrite <- (app_nil_r (EncodeFixed32 _)), DecodeFixed32_app, Hm by done. rewrite E1, E2.
  apply Forall_app in B1 as [Bp [Bw1 Bq]%Forall_app]. apply Forall_app in B2 as [_ [Bw2 _]%Forall_app].
  intros E. symmetry in E. revert E. by apply Value_burst.
Qed.
End Safe.

Lemma log_reader_total_witness :
  exists rs r', ReadLog (fun _ => 0) 8 8 (Reader_new ([1; 2; 3; 4; 255; 255; 9] : MemFile) true true 3) = Ret (rs, r') /\
    (length rs <= 7)%nat.
Proof. apply (log_reader_total (Remains := eq) (fun _ => 0) _ [1; 2; 3; 4; 255; 255; 9]); [done|lia]. Defined.

(** A reader at a record whose data [1; 2] became [1; 3]. *)
Definition bad_file : MemFile := raw_physical (EncodeFixed32 (Mask (Value 0 [1; 1; 2]))) 1 [1; 3].

Lemma log_detects_bursts_witness :
  exists r', parse_physical (fun _ => 0)
    (set_buffer bad_file (Reader_new ([] : MemFile) true true 0)) = Ret ((kBadRecord, None), r') /\ buffer_ r' = [].
Proof.
  apply (log_detects_bursts (Remains := eq) (fun _ => 0) _ 0 kFullType [1; 2] [1; 1] [2] [3] [] 1 [1; 3] []);
    try done; try solve_bytes.
  constructor; [|done..]. exists []. split; [done|]. by rewrite !app_nil_r.
Defined.

(** A record of the unknown type 5 with a good checksum is taken for the end of
    the file: the type collides with [kEof], so what follows is not read and
    nothing is reported, unlike for the other unknown types. *)
Definition type5_file : MemFile :=
  raw_physical (EncodeFixed32 (Mask (Value 0 [5; 65]))) 5 [65] ++ physical kFullType [66].
Definition type7_file : MemFile :=
  raw_physical (EncodeFixed32 (Mask (Value 0 [7; 65]))) 7 [65] ++ physical kFullType [66].

Lemma type_five_ends_the_log :
  (exists r, ReadLog (fun _ => 0) 40 40 (Reader_new type5_file true true 0) = Ret ([], r) /\ reports r = []) /\
  (exists r, ReadLog (fun _ => 0) 40 40 (Reader_new type7_file true true 0) = Ret ([[66]], r) /\
     reports r = [(1, Status_Corruption (chars "unknown record type 7") [])]).
Proof. split; (eexists; split; [by vm_compute|by vm_compute]). Qed.
