(* ===== verification/LvFilename.v ===== *)
(** File names of a database ([db/filename.h], [db/filename.cc]), the switch of
    the CURRENT file, and the theorems that names are read back and that the
    switch is atomic. *)

From stdpp Require Import base list gmap strings.
From Stdlib Require Import ZArith Lia.
From S2P Require Import Prelude LvSlice LvLogging LvEnv.

Inductive FileType : Type :=
| kLogFile | kDBLockFile | kTableFile | kDescriptorFile | kCurrentFile | kTempFile | kInfoLogFile.

(** [%06llu]. *)
Definition pad6 (s : Slice) : Slice := replicate (6 - length s) 48 ++ s.

Definition MakeFileName (dbname : Slice) (number : Z) (suffix : Slice) : Slice :=
  dbname ++ chars "/" ++ pad6 (NumberToString number) ++ chars "." ++ suffix.

(** [assert(number > 0)]. *)
Definition checked (number : Z) (name : Slice) : option Slice := if number >? 0 then Some name else None.

Definition LogFileName (dbname : Slice) (number : Z) : option Slice :=
  checked number (MakeFileName dbname number (chars "log")).
Definition TableFileName (dbname : Slice) (number : Z) : option Slice :=
  checked number (MakeFileName dbname number (chars "ldb")).
Definition SSTTableFileName (dbname : Slice) (number : Z) : option Slice :=
  checked number (MakeFileName dbname number (chars "sst")).
Definition DescriptorFileName (dbname : Slice) (number : Z) : option Slice :=
  checked number (dbname ++ chars "/MANIFEST-" ++ pad6 (NumberToString number)).
Definition CurrentFileName (dbname : Slice) : Slice := dbname ++ chars "/CURRENT".
Definition LockFileName (dbname : Slice) : Slice := dbname ++ chars "/LOCK".
Definition TempFileName (dbname : Slice) (number : Z) : option Slice :=
  checked number (MakeFileName dbname number (chars "dbtmp")).
Definition InfoLogFileName (dbname : Slice) : Slice := dbname ++ chars "/LOG".
Definition OldInfoLogFileName (dbname : Slice) : Slice := dbname ++ chars "/LOG.old".

Definition ParseFileName (filename : Slice) : option (Z * FileType) :=
  let rest := filename in
  if Slice_eq rest (chars "CURRENT") then Some (0, kCurrentFile)
  else if Slice_eq rest (chars "LOCK") then Some (0, kDBLockFile)
  else if Slice_eq rest (chars "LOG") || Slice_eq rest (chars "LOG.old") then Some (0, kInfoLogFile)
  else if Slice_starts_with rest (chars "MANIFEST-") then
    let rest := Slice_remove_prefix rest (size (chars "MANIFEST-")) in
    match ConsumeDecimalNumber rest with
    | (true, Some num, rest) => if negb (Slice_empty rest) then None else Some (num, kDescriptorFile)
    | _ => None
    end
  else
    match ConsumeDecimalNumber rest with
    | (true, Some num, suffix) =>
        if Slice_eq suffix (chars ".log") then Some (num, kLogFile)
        else if Slice_eq suffix (chars ".sst") || Slice_eq suffix (chars ".ldb") then Some (num, kTableFile)
        else if Slice_eq suffix (chars ".dbtmp") then Some (num, kTempFile)
        else None
    | _ => None
    end.

(** The functions of [Env] that work on named files. *)
Class Env (E : Type) : Type := {
  Env_WriteStringToFileSync : Slice -> Slice -> M E Status;
  Env_RenameFile : Slice -> Slice -> M E Status;
  Env_DeleteFile : Slice -> M E Status
}.

Definition SetCurrentFile {E} `{Env E} (dbname : Slice) (descriptor_number : Z) : M E Status :=
  let* manifest := need (DescriptorFileName dbname descriptor_number) in
  if negb (Slice_starts_with manifest (dbname ++ chars "/")) then undef
  else
    let contents := Slice_remove_prefix manifest (size dbname + 1) in
    let* tmp := need (TempFileName dbname descriptor_number) in
    let* s := Env_WriteStringToFileSync (contents ++ [10]) tmp in
    let* s := if Status_ok s then Env_RenameFile tmp (CurrentFileName dbname) else ret s in
    (if negb (Status_ok s) then let* _ := Env_DeleteFile tmp in ret tt else ret tt) ;;;
    ret s.

(** * Names are read back *)

Lemma pad6_digits num : 0 <= num -> Forall is_digit (pad6 (NumberToString num)).
Proof.
  intros Hn. apply Forall_app. split; [|by apply NumberToString_digits]. apply Forall_replicate. by unfold is_digit.
Qed.

Lemma digits_value_zeros n ds : digits_value 0 (replicate n 48 ++ ds) = digits_value 0 ds.
Proof. induction n as [|n IH]; [done|]. cbn [replicate app digits_value fold_left]. exact IH. Qed.

Lemma Consume_pad6 num rest :
  0 <= num < 2 ^ 64 -> no_digit_head rest ->
  ConsumeDecimalNumber (pad6 (NumberToString num) ++ rest) = (true, Some num, rest).
Proof.
  intros Hn Hr. rewrite ConsumeDecimalNumber_app by (done || apply pad6_digits; lia).
  unfold pad6 at 1 3. rewrite !digits_value_zeros, NumberToString_value by done.
  destruct (Z.ltb_spec num (2 ^ 64)); [|lia]. do 2 f_equal.
  assert (Hs : 6 <= size (pad6 (NumberToString num)))
    by (unfold pad6, size; rewrite length_app, length_replicate; lia).
  destruct (Z.eqb_spec (size (pad6 (NumberToString num))) 0); [lia|done].
Qed.

(** A name that starts with a digit is none of the fixed names. *)
Lemma digit_name s : match s with c :: _ => is_digit c | [] => False end ->
  ParseFileName s =
    match ConsumeDecimalNumber s with
    | (true, Some num, suffix) =>
        if Slice_eq suffix (chars ".log") then Some (num, kLogFile)
        else if Slice_eq suffix (chars ".sst") || Slice_eq suffix (chars ".ldb") then Some (num, kTableFile)
        else if Slice_eq suffix (chars ".dbtmp") then Some (num, kTempFile)
        else None
    | _ => None
    end.
Proof.
  destruct s as [|c s]; [done|]. unfold is_digit. intros Hc.
  assert (E : forall x l, 57 < x -> Slice_eq (c :: s) (x :: l) = false).
  { intros x l Hx. unfold Slice_eq. destruct (_ =? _); [|done]. cbn [andb]. unfold size. rewrite Nat2Z.id.
    cbn [length memcmp]. destruct (Z.eqb_spec c x); [lia|]. apply Z.eqb_neq. lia. }
  assert (E' : forall x l, 57 < x -> Slice_starts_with (c :: s) (x :: l) = false).
  { intros x l Hx. unfold Slice_starts_with. destruct (_ >=? _); [|done]. cbn [andb]. unfold size. rewrite Nat2Z.id.
    cbn [length memcmp]. destruct (Z.eqb_spec c x); [lia|]. apply Z.eqb_neq. lia. }
  unfold ParseFileName. change (chars "CURRENT") with (67 :: chars "URRENT").
  change (chars "LOCK") with (76 :: chars "OCK"). change (chars "LOG") with (76 :: chars "OG").
  change (chars "LOG.old") with (76 :: chars "OG.old"). change (chars "MANIFEST-") with (77 :: chars "ANIFEST-").
  rewrite !E, E' by lia. done.
Qed.

Lemma digit_head ds rest : Forall is_digit ds -> ds <> [] -> match ds ++ rest with c :: _ => is_digit c | [] => False end.
Proof. intros Hd Hne. by destruct Hd. Qed.

Lemma pad6_nonempty s : pad6 s <> [].
Proof. unfold pad6. destruct s; [done|]. by destruct (6 - _)%nat. Qed.

Lemma parse_numbered num suffix :
  0 <= num < 2 ^ 64 -> no_digit_head suffix ->
  ParseFileName (pad6 (NumberToString num) ++ suffix) =
    if Slice_eq suffix (chars ".log") then Some (num, kLogFile)
    else if Slice_eq suffix (chars ".sst") || Slice_eq suffix (chars ".ldb") then Some (num, kTableFile)
    else if Slice_eq suffix (chars ".dbtmp") then Some (num, kTempFile)
    else None.
Proof.
  intros Hn Hs. rewrite digit_name; [by rewrite Consume_pad6|].
  apply digit_head; [apply pad6_digits; lia|apply pad6_nonempty].
Qed.

Lemma parse_manifest num :
  0 <= num < 2 ^ 64 ->
  ParseFileName (chars "MANIFEST-" ++ pad6 (NumberToString num)) = Some (num, kDescriptorFile).
Proof.
  intros Hn. unfold ParseFileName. set (p := pad6 (NumberToString num)).
  assert (E : forall x l, x <> 77 -> Slice_eq (chars "MANIFEST-" ++ p) (x :: l) = false).
  { intros x l Hx. unfold Slice_eq. destruct (_ =? _); [|done]. cbn [andb]. unfold size. rewrite Nat2Z.id.
    change (chars "MANIFEST-") with (77 :: chars "ANIFEST-"). cbn [app length memcmp].
    destruct (Z.eqb_spec 77 x); [lia|]. apply Z.eqb_neq. lia. }
  change (chars "CURRENT") with (67 :: chars "URRENT"). change (chars "LOCK") with (76 :: chars "OCK").
  change (chars "LOG") with (76 :: chars "OG"). change (chars "LOG.old") with (76 :: chars "OG.old").
  rewrite !E by lia. cbn [orb].
  assert (Es : Slice_starts_with (chars "MANIFEST-" ++ p) (chars "MANIFEST-") = true)
    by (apply starts_with_iff; by exists p).
  rewrite Es. unfold Slice_remove_prefix. rewrite drop_app_length' by (by vm_compute).
  rewrite <- (app_nil_r p). unfold p. by rewrite Consume_pad6.
Qed.

(** the names the database gives its files are read back: after the
    directory and the slash, [ParseFileName] returns the number and the type of
    a log, a table (under both suffixes), a descriptor and a temporary file, for
    every positive 64-bit number, and of the files without a number. *)
Theorem ParseFileName_roundtrip dbname num :
  0 < num < 2 ^ 64 ->
  (exists base, LogFileName dbname num = Some (dbname ++ chars "/" ++ base) /\ ParseFileName base = Some (num, kLogFile)) /\
  (exists base, TableFileName dbname num = Some (dbname ++ chars "/" ++ base) /\ ParseFileName base = Some (num, kTableFile)) /\
  (exists base, SSTTableFileName dbname num = Some (dbname ++ chars "/" ++ base) /\ ParseFileName base = Some (num, kTableFile)) /\
  (exists base, TempFileName dbname num = Some (dbname ++ chars "/" ++ base) /\ ParseFileName base = Some (num, kTempFile)) /\
  (exists base, DescriptorFileName dbname num = Some (dbname ++ chars "/" ++ base) /\
     ParseFileName base = Some (num, kDescriptorFile)) /\
  (exists base, CurrentFileName dbname = dbname ++ chars "/" ++ base /\ ParseFileName base = Some (0, kCurrentFile)) /\
  (exists base, LockFileName dbname = dbname ++ chars "/" ++ base /\ ParseFileName base = Some (0, kDBLockFile)) /\
  (exists base, InfoLogFileName dbname = dbname ++ chars "/" ++ base /\ ParseFileName base = Some (0, kInfoLogFile)) /\
  (exists base, OldInfoLogFileName dbname = dbname ++ chars "/" ++ base /\ ParseFileName base = Some (0, kInfoLogFile)).
Proof.
  intros Hn. unfold LogFileName, TableFileName, SSTTableFileName, TempFileName, DescriptorFileName, checked.
  destruct (Z.gtb_spec num 0); [|lia]. unfold MakeFileName.
  assert (P : forall suffix, no_digit_head (chars "." ++ suffix)) by (intros s; cbn; unfold is_digit; lia).
  do 4 (split; [eexists; split; [reflexivity|]; rewrite parse_numbered by (apply P || lia); reflexivity|]).
  split; [exists (chars "MANIFEST-" ++ pad6 (NumberToString num)); split; [done|apply parse_manifest; lia]|].
  split_and!; (eexists; split; [reflexivity|reflexivity]).
Qed.

Lemma ParseFileName_roundtrip_witness :
  LogFileName (chars "db") 7 = Some (chars "db/000007.log") /\
  exists base, LogFileName (chars "db") 7 = Some (chars "db" ++ chars "/" ++ base) /\
    ParseFileName base = Some (7, kLogFile).
Proof. split; [by vm_compute|]. apply (ParseFileName_roundtrip (chars "db") 7). lia. Defined.

(** * The CURRENT file *)

(** An environment with files [fs]: a write changes the file it names only,
    whatever its result, and leaves the data there when it succeeds; a rename
    happens as a whole or not at all. *)
Class EnvLaws (E : Type) `{Env E} (fs : E -> gmap Slice Slice) : Prop := {
  env_write_law e data fname : exists st e', Env_WriteStringToFileSync data fname e = Ret (st, e') /\
    (forall x, x <> fname -> fs e' !! x = fs e !! x) /\ (st = Status_OK -> fs e' !! fname = Some data);
  env_rename_law e a b : a <> b -> exists st e', Env_RenameFile a b e = Ret (st, e') /\
    (st = Status_OK -> fs e' !! b = fs e !! a /\ fs e' !! a = None /\
       forall x, x <> a -> x <> b -> fs e' !! x = fs e !! x) /\
    (st <> Status_OK -> fs e' = fs e);
  env_delete_law e fname : exists st e', Env_DeleteFile fname e = Ret (st, e') /\
    forall x, x <> fname -> fs e' !! x = fs e !! x
}.

Lemma temp_not_current dbname num tmp :
  0 <= num -> TempFileName dbname num = Some tmp -> tmp <> CurrentFileName dbname.
Proof.
  unfold TempFileName, checked, MakeFileName, CurrentFileName. intros Hn. destruct (num >? 0); [|done].
  intros Ht E. apply (inj Some) in Ht as <-. apply app_inv_head in E.
  change (chars "/CURRENT") with (chars "/" ++ 67 :: chars "URRENT") in E. apply app_inv_head in E.
  pose proof (pad6_digits num Hn) as Hd. pose proof (pad6_nonempty (NumberToString num)) as Hne.
  destruct (pad6 (NumberToString num)) as [|c s]; [done|].
  apply (f_equal (fun l => nth 0 l 0)) in E. cbn in E. apply Forall_inv in Hd. unfold is_digit in Hd. lia.
Qed.

(** pointing CURRENT to a new descriptor is atomic, whatever fails on the
    way: [SetCurrentFile] returns, and either it succeeds and CURRENT holds the
    name of the descriptor and a newline (a name that [ParseFileName] reads
    back) and the temporary file is gone, or it fails and CURRENT is what it
    was; no other file is touched. *)
Theorem SetCurrentFile_atomic {E} `{Env E} {fs} `{!EnvLaws E fs} (e : E) dbname num :
  0 < num < 2 ^ 64 ->
  exists st e' tmp base, SetCurrentFile dbname num e = Ret (st, e') /\ TempFileName dbname num = Some tmp /\
    ParseFileName base = Some (num, kDescriptorFile) /\
    (st = Status_OK -> fs e' !! CurrentFileName dbname = Some (base ++ [10]) /\ fs e' !! tmp = None) /\
    (st <> Status_OK -> fs e' !! CurrentFileName dbname = fs e !! CurrentFileName dbname) /\
    (forall x, x <> tmp -> x <> CurrentFileName dbname -> fs e' !! x = fs e !! x).
Proof.
  intros Hn. set (base := chars "MANIFEST-" ++ pad6 (NumberToString num)).
  assert (Ed : DescriptorFileName dbname num = Some (dbname ++ chars "/" ++ base))
    by (unfold DescriptorFileName, checked; destruct (Z.gtb_spec num 0); [done|lia]).
  destruct (TempFileName dbname num) as [tmp|] eqn:Et;
    [|unfold TempFileName, checked in Et; destruct (Z.gtb_spec num 0); [done|lia]].
  pose proof (temp_not_current dbname num tmp ltac:(lia) Et) as Hne.
  unfold SetCurrentFile, bind at 1. rewrite Ed. cbn [need ret].
  assert (Es : Slice_starts_with (dbname ++ chars "/" ++ base) (dbname ++ chars "/") = true)
    by (apply starts_with_iff; exists base; by rewrite <- app_assoc).
  rewrite Es, Et. cbn [negb]. unfold bind at 1. cbn [need ret].
  assert (Ec : Slice_remove_prefix (dbname ++ chars "/" ++ base) (size dbname + 1) = base).
  { unfold Slice_remove_prefix. rewrite app_assoc. apply drop_app_length'. rewrite length_app. unfold size.
    change (length (chars "/")) with 1%nat. lia. }
  rewrite Ec. pose proof (parse_manifest num ltac:(lia)) as Hbase. fold base in Hbase. clear Ec Es; clearbody base.
  unfold bind at 1. destruct (env_write_law e (base ++ [10]) tmp) as (st1 & e1 & -> & Hw1 & Hw2).
  unfold bind at 1. destruct st1 as [m|]; cbn [Status_ok].
  - unfold ret at 1. cbn [Status_ok negb]. unfold bind, ret.
    destruct (env_delete_law e1 tmp) as (st2 & e2 & -> & Hd). exists (Some m), e2, tmp, base.
    split; [done|]. split; [done|]. split; [done|]. split; [done|]. split; [|intros x Hx _; by rewrite Hd, Hw1].
    intros _. by rewrite Hd, Hw1.
  - destruct (env_rename_law e1 tmp (CurrentFileName dbname) Hne) as (st2 & e2 & -> & Hok & Hbad).
    destruct st2 as [m|]; cbn [Status_ok negb]; unfold bind, ret.
    + destruct (env_delete_law e2 tmp) as (st3 & e3 & -> & Hd). exists (Some m), e3, tmp, base.
      split; [done|]. split; [done|]. split; [done|]. split; [done|].
      split; [intros _|intros x Hx _]; by rewrite Hd, Hbad, Hw1.
    + destruct (Hok eq_refl) as (H1 & H2 & H3). exists None, e2, tmp, base.
      split; [done|]. split; [done|]. split; [done|]. split; [|split; [done|]].
      * intros _. by rewrite H1, Hw2.
      * intros x Hx Hx'. by rewrite H3, Hw1.
Qed.

(** Files in memory. *)
#[local] Instance map_env : Env (gmap Slice Slice) := {
  Env_WriteStringToFileSync data fname := fun e => Ret (Status_OK, <[fname := data]> e);
  Env_RenameFile a b := fun e =>
    match e !! a with
    | Some d => Ret (Status_OK, <[b := d]> (delete a e))
    | None => Ret (Status_NotFound a [], e)
    end;
  Env_DeleteFile fname := fun e => Ret (Status_OK, delete fname e)
}.

Lemma map_env_laws : EnvLaws (gmap Slice Slice) (fun e => e).
Proof.
  constructor.
  - intros e data fname. eexists _, _. split; [done|]. split; [intros x Hx; by apply lookup_insert_ne|].
    intros _. apply lookup_insert_eq.
  - intros e a b Hab. cbn. destruct (e !! a) as [d|] eqn:Ea; (eexists _, _; split; [done|]); [|by split].
    split; [|done]. intros _. split; [apply lookup_insert_eq|].
    split; [by rewrite lookup_insert_ne, lookup_delete_eq by congruence|].
    intros x Hx Hb. by rewrite lookup_insert_ne, lookup_delete_ne by congruence.
  - intros e fname. eexists _, _. split; [done|]. intros x Hx. by apply lookup_delete_ne.
Qed.

Lemma SetCurrentFile_atomic_witness :
  exists st e2 tmp base, SetCurrentFile (chars "db") 5 (∅ : gmap Slice Slice) = Ret (st, e2) /\
    TempFileName (chars "db") 5 = Some tmp /\ ParseFileName base = Some (5, kDescriptorFile).
Proof.
  destruct (SetCurrentFile_atomic (EnvLaws0 := map_env_laws) (∅ : gmap Slice Slice) (chars "db") 5)
    as (st & e2 & tmp & base & E1 & E2 & E3 & _); [lia|].
  exists st, e2, tmp, base. split; [exact E1|]. split; [exact E2|exact E3].
Defined.
