(* ===== verification/LvVersionEdit.v ===== *)
(** Version edits ([db/version_edit.h], [db/version_edit.cc]): the changes of a
    version, as a record, as the bytes of the descriptor, and as text.

    A [FileMetaData] keeps the bytes of its internal keys; [std::set] is the list
    of its elements in order. *)

From stdpp Require Import base list gmap strings sorting.
From Stdlib Require Import ZArith Lia.
From S2P Require Import Prelude LvSlice LvCoding LvBloom LvLogging LvFormat.

Definition kNumLevels : Z := 7.

Record FileMetaData : Type := {
  refs : Z; allowed_seeks : Z; number : Z; file_size : Z; smallest : Slice; largest : Slice
}.

(** The default constructor; [number] is left unset there, zero here. *)
Definition FileMetaData_new : FileMetaData := {|
  refs := 0; allowed_seeks := Z.shiftl 1 30; number := 0; file_size := 0; smallest := []; largest := []
|}.

(** [std::set<std::pair<int, uint64_t>>]. *)
Definition DeletedFileSet : Type := list (Z * Z).

Definition pair_ltb (a b : Z * Z) : bool := (a.1 <? b.1) || ((a.1 =? b.1) && (a.2 <? b.2)).

Fixpoint set_insert (x : Z * Z) (s : DeletedFileSet) : DeletedFileSet :=
  match s with
  | [] => [x]
  | y :: s' => if pair_ltb x y then x :: s else if pair_ltb y x then y :: set_insert x s' else s
  end.

Record VersionEdit : Type := {
  comparator_ : Slice; log_number_ : Z; prev_log_number_ : Z; next_file_number_ : Z; last_sequence_ : Z;
  has_comparator_ : bool; has_log_number_ : bool; has_prev_log_number_ : bool; has_next_file_number_ : bool;
  has_last_sequence_ : bool;
  compact_pointers_ : list (Z * Slice);
  deleted_files_ : DeletedFileSet;
  new_files_ : list (Z * FileMetaData)
}.

(** [Clear] leaves [compact_pointers_]. *)
Definition VersionEdit_Clear (e : VersionEdit) : VersionEdit := {|
  comparator_ := []; log_number_ := 0; prev_log_number_ := 0; next_file_number_ := 0; last_sequence_ := 0;
  has_comparator_ := false; has_log_number_ := false; has_prev_log_number_ := false;
  has_next_file_number_ := false; has_last_sequence_ := false;
  compact_pointers_ := compact_pointers_ e; deleted_files_ := []; new_files_ := []
|}.

Definition VersionEdit_new : VersionEdit := {|
  comparator_ := []; log_number_ := 0; prev_log_number_ := 0; next_file_number_ := 0; last_sequence_ := 0;
  has_comparator_ := false; has_log_number_ := false; has_prev_log_number_ := false;
  has_next_file_number_ := false; has_last_sequence_ := false;
  compact_pointers_ := []; deleted_files_ := []; new_files_ := []
|}.

(** * Setters *)

Definition SetComparatorName (name : Slice) (e : VersionEdit) : VersionEdit := {|
  comparator_ := name; log_number_ := log_number_ e; prev_log_number_ := prev_log_number_ e;
  next_file_number_ := next_file_number_ e; last_sequence_ := last_sequence_ e;
  has_comparator_ := true; has_log_number_ := has_log_number_ e; has_prev_log_number_ := has_prev_log_number_ e;
  has_next_file_number_ := has_next_file_number_ e; has_last_sequence_ := has_last_sequence_ e;
  compact_pointers_ := compact_pointers_ e; deleted_files_ := deleted_files_ e; new_files_ := new_files_ e
|}.
Definition SetLogNumber (num : Z) (e : VersionEdit) : VersionEdit := {|
  comparator_ := comparator_ e; log_number_ := num; prev_log_number_ := prev_log_number_ e;
  next_file_number_ := next_file_number_ e; last_sequence_ := last_sequence_ e;
  has_comparator_ := has_comparator_ e; has_log_number_ := true; has_prev_log_number_ := has_prev_log_number_ e;
  has_next_file_number_ := has_next_file_number_ e; has_last_sequence_ := has_last_sequence_ e;
  compact_pointers_ := compact_pointers_ e; deleted_files_ := deleted_files_ e; new_files_ := new_files_ e
|}.
Definition SetPrevLogNumber (num : Z) (e : VersionEdit) : VersionEdit := {|
  comparator_ := comparator_ e; log_number_ := log_number_ e; prev_log_number_ := num;
  next_file_number_ := next_file_number_ e; last_sequence_ := last_sequence_ e;
  has_comparator_ := has_comparator_ e; has_log_number_ := has_log_number_ e; has_prev_log_number_ := true;
  has_next_file_number_ := has_next_file_number_ e; has_last_sequence_ := has_last_sequence_ e;
  compact_pointers_ := compact_pointers_ e; deleted_files_ := deleted_files_ e; new_files_ := new_files_ e
|}.
Definition SetNextFile (num : Z) (e : VersionEdit) : VersionEdit := {|
  comparator_ := comparator_ e; log_number_ := log_number_ e; prev_log_number_ := prev_log_number_ e;
  next_file_number_ := num; last_sequence_ := last_sequence_ e;
  has_comparator_ := has_comparator_ e; has_log_number_ := has_log_number_ e;
  has_prev_log_number_ := has_prev_log_number_ e; has_next_file_number_ := true;
  has_last_sequence_ := has_last_sequence_ e;
  compact_pointers_ := compact_pointers_ e; deleted_files_ := deleted_files_ e; new_files_ := new_files_ e
|}.
Definition SetLastSequence (seq : Z) (e : VersionEdit) : VersionEdit := {|
  comparator_ := comparator_ e; log_number_ := log_number_ e; prev_log_number_ := prev_log_number_ e;
  next_file_number_ := next_file_number_ e; last_sequence_ := seq;
  has_comparator_ := has_comparator_ e; has_log_number_ := has_log_number_ e;
  has_prev_log_number_ := has_prev_log_number_ e; has_next_file_number_ := has_next_file_number_ e;
  has_last_sequence_ := true;
  compact_pointers_ := compact_pointers_ e; deleted_files_ := deleted_files_ e; new_files_ := new_files_ e
|}.

(** An edit with other lists. *)
Definition with_lists (cp : list (Z * Slice)) (df : DeletedFileSet) (nf : list (Z * FileMetaData)) (e : VersionEdit)
    : VersionEdit := {|
  comparator_ := comparator_ e; log_number_ := log_number_ e; prev_log_number_ := prev_log_number_ e;
  next_file_number_ := next_file_number_ e; last_sequence_ := last_sequence_ e;
  has_comparator_ := has_comparator_ e; has_log_number_ := has_log_number_ e;
  has_prev_log_number_ := has_prev_log_number_ e; has_next_file_number_ := has_next_file_number_ e;
  has_last_sequence_ := has_last_sequence_ e;
  compact_pointers_ := cp; deleted_files_ := df; new_files_ := nf
|}.

Definition SetCompactPointer (level : Z) (key : Slice) (e : VersionEdit) : VersionEdit :=
  with_lists (compact_pointers_ e ++ [(level, key)]) (deleted_files_ e) (new_files_ e) e.

Definition push_new_file (level : Z) (f : FileMetaData) (e : VersionEdit) : VersionEdit :=
  with_lists (compact_pointers_ e) (deleted_files_ e) (new_files_ e ++ [(level, f)]) e.

Definition AddFile (level file fsize : Z) (small large : Slice) (e : VersionEdit) : VersionEdit :=
  push_new_file level {|
    refs := refs FileMetaData_new; allowed_seeks := allowed_seeks FileMetaData_new;
    number := file; file_size := fsize; smallest := small; largest := large
  |} e.

Definition DeleteFile (level file : Z) (e : VersionEdit) : VersionEdit :=
  with_lists (compact_pointers_ e) (set_insert (level, file) (deleted_files_ e)) (new_files_ e) e.

(** * Encoding *)

Definition kComparator : Z := 1.
Definition kLogNumber : Z := 2.
Definition kNextFileNumber : Z := 3.
Definition kLastSequence : Z := 4.
Definition kCompactPointer : Z := 5.
Definition kDeletedFile : Z := 6.
Definition kNewFile : Z := 7.
Definition kPrevLogNumber : Z := 9.

(** [InternalKey::Encode]: [assert(!rep_.empty())]. *)
Definition InternalKey_Encode (rep : Slice) : option Slice := if Slice_empty rep then None else Some rep.

Definition encode_compact_pointer (dst : Slice) (p : Z * Slice) : option Slice :=
  key ← InternalKey_Encode p.2;
  Some (PutLengthPrefixedSlice (PutVarint32 (PutVarint32 dst kCompactPointer) (u32 p.1)) key).

Definition encode_deleted_file (dst : Slice) (p : Z * Z) : Slice :=
  PutVarint64 (PutVarint32 (PutVarint32 dst kDeletedFile) (u32 p.1)) p.2.

Definition encode_new_file (dst : Slice) (p : Z * FileMetaData) : option Slice :=
  let f := p.2 in
  small ← InternalKey_Encode (smallest f);
  large ← InternalKey_Encode (largest f);
  let dst := PutVarint32 (PutVarint32 dst kNewFile) (u32 p.1) in
  let dst := PutVarint64 (PutVarint64 dst (number f)) (file_size f) in
  Some (PutLengthPrefixedSlice (PutLengthPrefixedSlice dst small) large).

Fixpoint encode_all {A} (enc : Slice -> A -> option Slice) (dst : Slice) (l : list A) : option Slice :=
  match l with
  | [] => Some dst
  | x :: l => dst ← enc dst x; encode_all enc dst l
  end.

(** [None]: an assertion fails. *)
Definition VersionEdit_EncodeTo (e : VersionEdit) (dst : Slice) : option Slice :=
  let dst := if has_comparator_ e then PutLengthPrefixedSlice (PutVarint32 dst kComparator) (comparator_ e) else dst in
  let dst := if has_log_number_ e then PutVarint64 (PutVarint32 dst kLogNumber) (log_number_ e) else dst in
  let dst := if has_prev_log_number_ e then PutVarint64 (PutVarint32 dst kPrevLogNumber) (prev_log_number_ e) else dst in
  let dst := if has_next_file_number_ e then PutVarint64 (PutVarint32 dst kNextFileNumber) (next_file_number_ e) else dst in
  let dst := if has_last_sequence_ e then PutVarint64 (PutVarint32 dst kLastSequence) (last_sequence_ e) else dst in
  dst ← encode_all encode_compact_pointer dst (compact_pointers_ e);
  let dst := fold_left encode_deleted_file (deleted_files_ e) dst in
  encode_all encode_new_file dst (new_files_ e).

(** * Decoding *)

(** A key, possibly empty; [None] with the input left for [false]. *)
Definition GetInternalKey (input : Slice) : option Slice * Slice := GetLengthPrefixedSlice input.

Definition GetLevel (input : Slice) : option Z * Slice :=
  match GetVarint32 input with
  | Some (v, input) => if v <? kNumLevels then (Some v, input) else (None, input)
  | None => (None, input)
  end.

(** One round of the loop, after the tag: the edit and the input, or [msg]. *)
Definition decode_field (tag : Z) (input : Slice) (e : VersionEdit) : (VersionEdit * Slice) + Slice :=
  if tag =? kComparator then
    match GetLengthPrefixedSlice input with
    | (Some str, input) => inl (SetComparatorName str e, input)
    | _ => inr (chars "comparator name")
    end
  else if tag =? kLogNumber then
    match GetVarint64 input with
    | Some (n, input) => inl (SetLogNumber n e, input)
    | None => inr (chars "log number")
    end
  else if tag =? kPrevLogNumber then
    match GetVarint64 input with
    | Some (n, input) => inl (SetPrevLogNumber n e, input)
    | None => inr (chars "previous log number")
    end
  else if tag =? kNextFileNumber then
    match GetVarint64 input with
    | Some (n, input) => inl (SetNextFile n e, input)
    | None => inr (chars "next file number")
    end
  else if tag =? kLastSequence then
    match GetVarint64 input with
    | Some (n, input) => inl (SetLastSequence n e, input)
    | None => inr (chars "last sequence number")
    end
  else if tag =? kCompactPointer then
    match GetLevel input with
    | (Some level, input) =>
        match GetInternalKey input with
        | (Some key, input) => inl (SetCompactPointer level key e, input)
        | _ => inr (chars "compaction pointer")
        end
    | _ => inr (chars "compaction pointer")
    end
  else if tag =? kDeletedFile then
    match GetLevel input with
    | (Some level, input) =>
        match GetVarint64 input with
        | Some (n, input) => inl (DeleteFile level n e, input)
        | None => inr (chars "deleted file")
        end
    | _ => inr (chars "deleted file")
    end
  else if tag =? kNewFile then
    match GetLevel input with
    | (Some level, input) =>
        match (
          '(n, input) ← GetVarint64 input;
          '(fsize, input) ← GetVarint64 input;
          match GetInternalKey input with
          | (Some small, input) =>
              match GetInternalKey input with
              | (Some large, input) => Some (AddFile level n fsize small large e, input)
              | _ => None
              end
          | _ => None
          end)
        with
        | Some r => inl r
        | None => inr (chars "new-file entry")
        end
    | _ => inr (chars "new-file entry")
    end
  else inr (chars "unknown tag").

(** [while (msg == nullptr && GetVarint32(&input, &tag))]: the edit and [msg];
    [None] when out of fuel. A round takes at least the tag. *)
Fixpoint decode_loop (fuel : nat) (input : Slice) (e : VersionEdit) : option (VersionEdit * option Slice) :=
  match GetVarint32 input with
  | None => Some (e, if negb (Slice_empty input) then Some (chars "invalid tag") else None)
  | Some (tag, input) =>
      match fuel with
      | O => None
      | S fuel =>
          match decode_field tag input e with
          | inr msg => Some (e, Some msg)
          | inl (e, input) => decode_loop fuel input e
          end
      end
  end.

Definition VersionEdit_DecodeFrom (src : Slice) (e : VersionEdit) : option (Status * VersionEdit) :=
  '(e, msg) ← decode_loop (length src) src (VersionEdit_Clear e);
  Some (match msg with Some m => Status_Corruption (chars "VersionEdit") m | None => Status_OK end, e).

(** * Text *)

Definition VersionEdit_DebugString (e : VersionEdit) : Slice :=
  let r := chars "VersionEdit {" in
  let line name s := [10] ++ chars name ++ s in
  let r := if has_comparator_ e then r ++ line "  Comparator: "%string (comparator_ e) else r in
  let r := if has_log_number_ e then AppendNumberTo (r ++ line "  LogNumber: "%string []) (log_number_ e) else r in
  let r := if has_prev_log_number_ e then AppendNumberTo (r ++ line "  PrevLogNumber: "%string []) (prev_log_number_ e) else r in
  let r := if has_next_file_number_ e then AppendNumberTo (r ++ line "  NextFile: "%string []) (next_file_number_ e) else r in
  let r := if has_last_sequence_ e then AppendNumberTo (r ++ line "  LastSeq: "%string []) (last_sequence_ e) else r in
  let r := fold_left (fun r p =>
    AppendNumberTo (r ++ line "  CompactPointer: "%string []) (u64 p.1) ++ chars " " ++ InternalKey_DebugString p.2)
    (compact_pointers_ e) r in
  let r := fold_left (fun r p =>
    AppendNumberTo (AppendNumberTo (r ++ line "  DeleteFile: "%string []) (u64 p.1) ++ chars " ") p.2)
    (deleted_files_ e) r in
  let r := fold_left (fun r p =>
    let f := p.2 in
    let r := AppendNumberTo (r ++ line "  AddFile: "%string []) (u64 p.1) ++ chars " " in
    let r := AppendNumberTo r (number f) ++ chars " " in
    let r := AppendNumberTo r (file_size f) ++ chars " " in
    r ++ InternalKey_DebugString (smallest f) ++ chars " .. " ++ InternalKey_DebugString (largest f))
    (new_files_ e) r in
  r ++ [10] ++ chars "}" ++ [10].

(** * Properties

    Version edits: what is encoded is decoded, whatever is decoded is
    well-formed, and [Clear] forgets the compaction pointers. *)

(** * The set of deleted files *)

Definition pair_lt (a b : Z * Z) : Prop := pair_ltb a b = true.

Lemma pair_lt_iff a b : pair_lt a b <-> a.1 < b.1 \/ a.1 = b.1 /\ a.2 < b.2.
Proof. unfold pair_lt, pair_ltb. rewrite orb_true_iff, andb_true_iff, !Z.ltb_lt, Z.eqb_eq. done. Qed.

#[export] Instance pair_lt_trans : Transitive pair_lt.
Proof. intros a b c. rewrite !pair_lt_iff. lia. Qed.

Lemma set_insert_last x l : Forall (fun y => pair_lt y x) l -> set_insert x l = l ++ [x].
Proof.
  induction 1 as [|y l Hy Hl IH]; [done|]. cbn [set_insert app].
  assert (pair_ltb x y = false) as ->.
  { destruct (pair_ltb x y) eqn:E; [|done]. fold (pair_lt x y) in E. rewrite pair_lt_iff in *. lia. }
  unfold pair_lt in Hy. by rewrite Hy, IH.
Qed.

Lemma set_insert_elem x y l : y ∈ set_insert x l <-> y = x \/ y ∈ l.
Proof.
  induction l as [|z l IH]; cbn [set_insert]; [set_solver|].
  destruct (pair_ltb x z) eqn:E1; [set_solver|]. destruct (pair_ltb z x) eqn:E2; [set_solver|].
  assert (x = z) as ->.
  { destruct x as [x1 x2], z as [z1 z2]. unfold pair_ltb in *. cbn in *.
    destruct (Z.ltb_spec x1 z1), (Z.eqb_spec x1 z1), (Z.ltb_spec x2 z2), (Z.ltb_spec z1 x1), (Z.eqb_spec z1 x1),
      (Z.ltb_spec z2 x2); try done; try lia; f_equal; lia. }
  set_solver.
Qed.

Lemma set_insert_sorted x l : StronglySorted pair_lt l -> StronglySorted pair_lt (set_insert x l).
Proof.
  induction 1 as [|y l Hs IH Hy]; cbn [set_insert]; [by repeat constructor|].
  destruct (pair_ltb x y) eqn:E1.
  - constructor; [by constructor|]. constructor; [done|]. eapply Forall_impl; [exact Hy|].
    intros z Hz. by transitivity y.
  - destruct (pair_ltb y x) eqn:E2; [|by constructor]. constructor; [done|].
    rewrite Forall_forall in Hy |- *. intros z Hz. apply set_insert_elem in Hz as [->|Hz]; [done|by apply Hy].
Qed.

(** * Well-formed edits *)

Definition u64_ok (n : Z) : Prop := 0 <= n < 2 ^ 64.
Definition level_ok (n : Z) : Prop := 0 <= n < kNumLevels.
Definition str_ok (s : Slice) : Prop := size s < 2 ^ 32.

Definition file_ok (p : Z * FileMetaData) : Prop :=
  level_ok p.1 /\ refs p.2 = 0 /\ allowed_seeks p.2 = 2 ^ 30 /\ u64_ok (number p.2) /\ u64_ok (file_size p.2) /\
  str_ok (smallest p.2) /\ str_ok (largest p.2).

(** What the setters and the decoder make: fields that are not set are zero. *)
Record edit_ok (e : VersionEdit) : Prop := {
  ok_comparator : str_ok (comparator_ e) /\ (has_comparator_ e = false -> comparator_ e = []);
  ok_log : u64_ok (log_number_ e) /\ (has_log_number_ e = false -> log_number_ e = 0);
  ok_prev : u64_ok (prev_log_number_ e) /\ (has_prev_log_number_ e = false -> prev_log_number_ e = 0);
  ok_next : u64_ok (next_file_number_ e) /\ (has_next_file_number_ e = false -> next_file_number_ e = 0);
  ok_last : u64_ok (last_sequence_ e) /\ (has_last_sequence_ e = false -> last_sequence_ e = 0);
  ok_pointers : Forall (fun p => level_ok p.1 /\ str_ok p.2) (compact_pointers_ e);
  ok_deleted : Forall (fun p => level_ok p.1 /\ u64_ok p.2) (deleted_files_ e);
  ok_sorted : StronglySorted pair_lt (deleted_files_ e);
  ok_new : Forall file_ok (new_files_ e)
}.

(** * Decoding what was encoded *)

(** The input decodes to the edit [e'], starting from [e]. *)
Definition Dec (e : VersionEdit) (input : Slice) (e' : VersionEdit) : Prop :=
  forall fuel, (length input <= fuel)%nat -> decode_loop fuel input e = Some (e', None).

Lemma Dec_nil e : Dec e [] e.
Proof. intros [|fuel] _; done. Qed.

Lemma tag_size tag : 0 <= tag < 2 ^ 32 -> (1 <= length (EncodeVarint32 tag))%nat.
Proof. intros Ht. pose proof (EncodeVarint32_length tag Ht). lia. Qed.

(** A tag, and a field that [decode_field] consumes. *)
Lemma Dec_field tag field rest e e1 e' :
  0 <= tag < 2 ^ 32 -> decode_field tag (field ++ rest) e = inl (e1, rest) -> Dec e1 rest e' ->
  Dec e (EncodeVarint32 tag ++ field ++ rest) e'.
Proof.
  intros Ht Hf Hd fuel Hlen. rewrite !length_app in Hlen. pose proof (tag_size tag Ht).
  destruct fuel as [|fuel]; [lia|]. cbn [decode_loop]. unfold GetVarint32. rewrite GetVarint32_app by done.
  rewrite Hf. apply Hd. lia.
Qed.

Lemma GetLevel_app level rest : level_ok level -> GetLevel (EncodeVarint32 (u32 level) ++ rest) = (Some level, rest).
Proof.
  unfold level_ok, kNumLevels. intros Hl. unfold GetLevel, GetVarint32. rewrite wrap_small, GetVarint32_app by lia.
  unfold kNumLevels. destruct (Z.ltb_spec level 7); [done|lia].
Qed.

(** The fields, as bytes after the tag. *)
Definition new_file_bytes (p : Z * FileMetaData) : Slice :=
  EncodeVarint32 (u32 p.1) ++ EncodeVarint64 (number p.2) ++ EncodeVarint64 (file_size p.2) ++
  PutLengthPrefixedSlice [] (smallest p.2) ++ PutLengthPrefixedSlice [] (largest p.2).

Lemma Dec_new_files l : forall e,
  Forall file_ok l -> Dec e (concat (map (fun p => EncodeVarint32 kNewFile ++ new_file_bytes p) l))
    (with_lists (compact_pointers_ e) (deleted_files_ e) (new_files_ e ++ l) e).
Proof.
  induction l as [|p l IH]; intros e Hok.
  { rewrite app_nil_r. destruct e. apply Dec_nil. }
  apply Forall_cons in Hok as [Hp Hl]. cbn [map concat]. rewrite <- app_assoc.
  destruct p as [level f]. destruct Hp as (Hlev & Hr & Ha & Hn & Hf & Hs & Hg). cbn [fst snd] in *.
  apply (Dec_field kNewFile _ _ e (push_new_file level f e)); [done| |].
  - unfold decode_field. cbn [Z.eqb kNewFile kComparator kLogNumber kPrevLogNumber kNextFileNumber kLastSequence kCompactPointer kDeletedFile Pos.eqb].
    unfold new_file_bytes. cbn [fst snd]. rewrite <- !app_assoc, GetLevel_app by done.
    unfold GetVarint64. rewrite GetVarint64_app by done. cbn [mbind option_bind].
    rewrite GetVarint64_app by done. cbn [mbind option_bind]. unfold GetInternalKey.
    rewrite !GetLengthPrefixed_app by done. unfold AddFile. do 4 f_equal. destruct f; cbn in *. by subst.
  - replace (with_lists _ _ _ e) with
      (with_lists (compact_pointers_ (push_new_file level f e)) (deleted_files_ (push_new_file level f e))
         (new_files_ (push_new_file level f e) ++ l) (push_new_file level f e)); [by apply IH|].
    unfold push_new_file, with_lists. cbn. by rewrite <- app_assoc.
Qed.

Definition deleted_bytes (p : Z * Z) : Slice := EncodeVarint32 (u32 p.1) ++ EncodeVarint64 p.2.

Lemma Dec_deleted l : forall e rest e',
  Forall (fun p => level_ok p.1 /\ u64_ok p.2) l -> StronglySorted pair_lt (deleted_files_ e ++ l) ->
  Dec (with_lists (compact_pointers_ e) (deleted_files_ e ++ l) (new_files_ e) e) rest e' ->
  Dec e (concat (map (fun p => EncodeVarint32 kDeletedFile ++ deleted_bytes p) l) ++ rest) e'.
Proof.
  induction l as [|p l IH]; intros e rest e' Hok Hs Hd.
  { rewrite app_nil_r in Hd. by destruct e. }
  apply Forall_cons in Hok as [[Hlev Hn] Hl]. cbn [map concat]. rewrite <- !app_assoc.
  destruct p as [level n]. cbn [fst snd] in *.
  assert (Hins : set_insert (level, n) (deleted_files_ e) = deleted_files_ e ++ [(level, n)]).
  { apply set_insert_last, Forall_forall. intros y Hy.
    by apply (StronglySorted_app_1_elem_of _ _ _ y (level, n) Hs), elem_of_cons; [|left]. }
  unfold deleted_bytes at 1. cbn [fst snd].
  apply (Dec_field kDeletedFile _ _ e (DeleteFile level n e)); [done| |].
  - unfold decode_field. cbn [Z.eqb kComparator kLogNumber kPrevLogNumber kNextFileNumber kLastSequence kCompactPointer kDeletedFile Pos.eqb].
    rewrite <- app_assoc, GetLevel_app by done. unfold GetVarint64. by rewrite GetVarint64_app.
  - assert (Ed : deleted_files_ (DeleteFile level n e) ++ l = deleted_files_ e ++ (level, n) :: l)
      by (cbn [DeleteFile with_lists deleted_files_]; by rewrite Hins, <- app_assoc).
    apply IH; [done|by rewrite Ed|]. rewrite Ed. exact Hd.
Qed.

Definition pointer_bytes (p : Z * Slice) : Slice := EncodeVarint32 (u32 p.1) ++ PutLengthPrefixedSlice [] p.2.

Lemma Dec_pointers l : forall e rest e',
  Forall (fun p => level_ok p.1 /\ str_ok p.2) l ->
  Dec (with_lists (compact_pointers_ e ++ l) (deleted_files_ e) (new_files_ e) e) rest e' ->
  Dec e (concat (map (fun p => EncodeVarint32 kCompactPointer ++ pointer_bytes p) l) ++ rest) e'.
Proof.
  induction l as [|p l IH]; intros e rest e' Hok Hd.
  { rewrite app_nil_r in Hd. by destruct e. }
  apply Forall_cons in Hok as [[Hlev Hs] Hl]. cbn [map concat]. rewrite <- !app_assoc.
  destruct p as [level key]. cbn [fst snd] in *. unfold pointer_bytes at 1. cbn [fst snd].
  apply (Dec_field kCompactPointer _ _ e (SetCompactPointer level key e)); [done| |].
  - unfold decode_field. cbn [Z.eqb kComparator kLogNumber kPrevLogNumber kNextFileNumber kLastSequence kCompactPointer Pos.eqb].
    rewrite <- app_assoc, GetLevel_app by done. unfold GetInternalKey. by rewrite GetLengthPrefixed_app.
  - apply IH; [done|]. cbn [SetCompactPointer with_lists compact_pointers_ deleted_files_ new_files_].
    rewrite <- app_assoc. exact Hd.
Qed.

(** An optional field. *)
Lemma Dec_opt (b : bool) tag field rest e e1 e' :
  0 <= tag < 2 ^ 32 -> (forall r, b = true -> decode_field tag (field ++ r) e = inl (e1, r)) ->
  Dec (if b then e1 else e) rest e' ->
  Dec e ((if b then EncodeVarint32 tag ++ field else []) ++ rest) e'.
Proof.
  intros Ht Hf Hd. destruct b; [|done]. rewrite <- app_assoc. by apply (Dec_field tag _ _ e e1); [|apply Hf|].
Qed.

Definition scalar_bytes (e : VersionEdit) (rest : Slice) : Slice :=
  (if has_comparator_ e then EncodeVarint32 kComparator ++ PutLengthPrefixedSlice [] (comparator_ e) else []) ++
  (if has_log_number_ e then EncodeVarint32 kLogNumber ++ EncodeVarint64 (log_number_ e) else []) ++
  (if has_prev_log_number_ e then EncodeVarint32 kPrevLogNumber ++ EncodeVarint64 (prev_log_number_ e) else []) ++
  (if has_next_file_number_ e then EncodeVarint32 kNextFileNumber ++ EncodeVarint64 (next_file_number_ e) else []) ++
  (if has_last_sequence_ e then EncodeVarint32 kLastSequence ++ EncodeVarint64 (last_sequence_ e) else []) ++ rest.

Definition edit_bytes (e : VersionEdit) : Slice :=
  scalar_bytes e (concat (map (fun p => EncodeVarint32 kCompactPointer ++ pointer_bytes p) (compact_pointers_ e)) ++
    concat (map (fun p => EncodeVarint32 kDeletedFile ++ deleted_bytes p) (deleted_files_ e)) ++
    concat (map (fun p => EncodeVarint32 kNewFile ++ new_file_bytes p) (new_files_ e))).

(** The fields but for the lists. *)
Lemma Dec_scalars e e0 rest e' :
  edit_ok e ->
  Dec (with_lists (compact_pointers_ e0) [] [] e) rest e' -> Dec (VersionEdit_Clear e0) (scalar_bytes e rest) e'.
Proof.
  intros [[Hc Hc0] [Hl Hl0] [Hp Hp0] [Hn Hn0] [Hs Hs0] _ _ _ _] Hd. unfold scalar_bytes.
  apply (Dec_opt _ kComparator _ _ _ (SetComparatorName (comparator_ e) (VersionEdit_Clear e0))); [done| |].
  { intros r _. unfold decode_field. cbn [Z.eqb kComparator Pos.eqb]. by rewrite GetLengthPrefixed_app. }
  match goal with |- Dec ?x _ _ => set (e1 := x) end.
  apply (Dec_opt _ kLogNumber _ _ _ (SetLogNumber (log_number_ e) e1)); [done| |].
  { intros r _. unfold decode_field, GetVarint64. cbn [Z.eqb kComparator kLogNumber Pos.eqb]. by rewrite GetVarint64_app. }
  match goal with |- Dec ?x _ _ => set (e2 := x) end.
  apply (Dec_opt _ kPrevLogNumber _ _ _ (SetPrevLogNumber (prev_log_number_ e) e2)); [done| |].
  { intros r _. unfold decode_field, GetVarint64. cbn [Z.eqb kComparator kLogNumber kPrevLogNumber Pos.eqb]. by rewrite GetVarint64_app. }
  match goal with |- Dec ?x _ _ => set (e3 := x) end.
  apply (Dec_opt _ kNextFileNumber _ _ _ (SetNextFile (next_file_number_ e) e3)); [done| |].
  { intros r _. unfold decode_field, GetVarint64. cbn [Z.eqb kComparator kLogNumber kPrevLogNumber kNextFileNumber Pos.eqb]. by rewrite GetVarint64_app. }
  match goal with |- Dec ?x _ _ => set (e4 := x) end.
  apply (Dec_opt _ kLastSequence _ _ _ (SetLastSequence (last_sequence_ e) e4)); [done| |].
  { intros r _. unfold decode_field, GetVarint64. cbn [Z.eqb kComparator kLogNumber kPrevLogNumber kNextFileNumber kLastSequence Pos.eqb]. by rewrite GetVarint64_app. }
  assert (E : (if has_last_sequence_ e then SetLastSequence (last_sequence_ e) e4 else e4) =
    with_lists (compact_pointers_ e0) [] [] e); [|by rewrite E].
  unfold e4, e3, e2, e1. clear e4 e3 e2 e1 Hd. destruct e as [c l p n s hc hl hp hn hs cp df nf]. cbn in *.
  destruct hc, hl, hp, hn, hs; cbn; rewrite ?Hc0, ?Hl0, ?Hp0, ?Hn0, ?Hs0 by done; reflexivity.
Qed.

Lemma edit_decodes e e0 :
  edit_ok e -> Dec (VersionEdit_Clear e0) (edit_bytes e)
    (with_lists (compact_pointers_ e0 ++ compact_pointers_ e) (deleted_files_ e) (new_files_ e) e).
Proof.
  intros He. pose proof He as [_ _ _ _ _ Hcp Hdf Hs Hnf]. apply Dec_scalars; [done|].
  apply Dec_pointers; [done|]. apply Dec_deleted; [done|done|]. by apply Dec_new_files.
Qed.

(** * Encoding *)

Lemma encode_all_spec {A} (enc : Slice -> A -> option Slice) (b : A -> Slice) l : forall dst,
  (forall dst x, x ∈ l -> enc dst x = Some (dst ++ b x)) -> encode_all enc dst l = Some (dst ++ concat (map b l)).
Proof.
  induction l as [|x l IH]; intros dst H; [by rewrite app_nil_r|]. cbn [encode_all map concat].
  rewrite H by set_solver. cbn [mbind option_bind]. rewrite IH by (intros; apply H; set_solver). by rewrite <- app_assoc.
Qed.

Definition keys_present (e : VersionEdit) : Prop :=
  Forall (fun p => p.2 <> []) (compact_pointers_ e) /\
  Forall (fun p => smallest p.2 <> [] /\ largest p.2 <> []) (new_files_ e).

Lemma InternalKey_Encode_some s : s <> [] -> InternalKey_Encode s = Some s.
Proof. unfold InternalKey_Encode, Slice_empty. destruct s; [done|]. intros _. unfold size. cbn [length]. by destruct (Z.eqb_spec (Z.of_nat (S (length s))) 0); [lia|]. Qed.

Lemma encode_deleted_all l : forall dst,
  fold_left encode_deleted_file l dst = dst ++ concat (map (fun p => EncodeVarint32 kDeletedFile ++ deleted_bytes p) l).
Proof.
  induction l as [|p l IH]; intros dst; [by rewrite app_nil_r|]. cbn [fold_left map concat]. rewrite IH.
  unfold encode_deleted_file, PutVarint32, PutVarint64, deleted_bytes. by rewrite <- !app_assoc.
Qed.

Lemma EncodeTo_spec e dst : keys_present e -> VersionEdit_EncodeTo e dst = Some (dst ++ edit_bytes e).
Proof.
  intros [Hcp Hnf]. rewrite Forall_forall in Hcp. rewrite Forall_forall in Hnf. unfold VersionEdit_EncodeTo.
  rewrite (encode_all_spec _ (fun p => EncodeVarint32 kCompactPointer ++ pointer_bytes p)).
  2: { intros d p Hp. unfold encode_compact_pointer. rewrite InternalKey_Encode_some by (by apply Hcp).
       cbn [mbind option_bind]. rewrite PutLengthPrefixed_app. unfold PutVarint32, pointer_bytes. by rewrite <- !app_assoc. }
  cbn [mbind option_bind]. rewrite encode_deleted_all.
  rewrite (encode_all_spec _ (fun p => EncodeVarint32 kNewFile ++ new_file_bytes p)).
  2: { intros d p Hp. destruct (Hnf p Hp). unfold encode_new_file. rewrite !InternalKey_Encode_some by done.
       cbn [mbind option_bind]. rewrite PutLengthPrefixed_app, (PutLengthPrefixed_app (PutVarint64 _ _)).
       unfold PutVarint32, PutVarint64, new_file_bytes. by rewrite <- !app_assoc. }
  f_equal. unfold edit_bytes, scalar_bytes. rewrite (PutLengthPrefixed_app _ (comparator_ e)).
  unfold PutVarint32, PutVarint64.
  destruct (has_comparator_ e), (has_log_number_ e), (has_prev_log_number_ e), (has_next_file_number_ e), (has_last_sequence_ e);
    by rewrite <- ?app_assoc, ?app_nil_l.
Qed.

(** C30: version edits survive the descriptor. An edit as the setters make them
    (levels below seven, 64-bit numbers, non-empty keys) is encoded without
    failing an assertion, and decoding the bytes succeeds and gives the edit
    back, deleted and new files included. The decoder keeps the compaction
    pointers the edit it decodes into had before, since [Clear] does not forget
    them. *)
Theorem VersionEdit_roundtrip e e0 :
  edit_ok e -> keys_present e ->
  exists s, VersionEdit_EncodeTo e [] = Some s /\
    VersionEdit_DecodeFrom s VersionEdit_new = Some (Status_OK, e) /\
    exists e', VersionEdit_DecodeFrom s e0 = Some (Status_OK, e') /\
      compact_pointers_ e' = compact_pointers_ e0 ++ compact_pointers_ e.
Proof.
  intros He Hk. exists (edit_bytes e). split; [by apply (EncodeTo_spec e [])|]. unfold VersionEdit_DecodeFrom.
  rewrite (edit_decodes e VersionEdit_new He), (edit_decodes e e0 He) by lia. cbn [mbind option_bind]. split.
  - by destruct e.
  - eexists. split; [done|]. done.
Qed.

Definition sample_edit : VersionEdit :=
  DeleteFile 1 9 (DeleteFile 0 4 (AddFile 2 12 4096 (chars "a") (chars "k")
    (SetCompactPointer 1 (chars "key") (SetLogNumber 300 (SetComparatorName (chars "bytewise") VersionEdit_new))))).

Lemma sample_edit_ok : edit_ok sample_edit.
Proof.
  constructor; try (split; [by vm_compute|by intros]).
  - by repeat constructor.
  - by repeat constructor.
  - by repeat constructor.
  - by repeat constructor.
Qed.

Lemma VersionEdit_roundtrip_witness :
  exists s, VersionEdit_EncodeTo sample_edit [] = Some s /\
    VersionEdit_DecodeFrom s VersionEdit_new = Some (Status_OK, sample_edit).
Proof.
  destruct (VersionEdit_roundtrip sample_edit VersionEdit_new sample_edit_ok) as (s & E & D & _); [by repeat constructor|].
  by exists s.
Defined.

(** Decoding twice into the same edit repeats its compaction pointers. *)
Example pointers_accumulate :
  match VersionEdit_EncodeTo sample_edit [] with
  | Some s => match VersionEdit_DecodeFrom s sample_edit with
              | Some (st, e) => st = Status_OK /\ compact_pointers_ e = [(1, chars "key"); (1, chars "key")]
              | None => False
              end
  | None => False
  end.
Proof. by vm_compute. Qed.

(** * Decoding any bytes *)

(** What is left after reading something. *)
Definition shorter (input rest : Slice) : Prop := is_bytes rest /\ (length rest < length input)%nat.

Lemma suffix_shorter input u rest : is_bytes input -> input = u ++ rest -> u <> [] -> shorter input rest.
Proof.
  intros Hb -> Hu. apply Forall_app in Hb as [_ Hb]. split; [done|]. rewrite length_app. destruct u; [done|]. cbn. lia.
Qed.

Lemma read32 input v rest : is_bytes input -> GetVarint32 input = Some (v, rest) -> 0 <= v < 2 ^ 32 /\ shorter input rest.
Proof.
  intros Hb E. split; [by apply (GetVarint32_range input v rest)|].
  destruct (GetVarint32_suffix _ _ _ E) as (u & Eu & Hu). by apply (suffix_shorter input u).
Qed.

Lemma read64 input v rest : is_bytes input -> GetVarint64 input = Some (v, rest) -> u64_ok v /\ shorter input rest.
Proof.
  intros Hb E. split; [by apply (GetVarint64_range input v rest)|].
  destruct (GetVarint_loop_suffix _ _ _ _ _ _ _ E) as (u & Eu & Hu). by apply (suffix_shorter input u).
Qed.

Lemma read_str input s rest :
  is_bytes input -> GetLengthPrefixedSlice input = (Some s, rest) -> str_ok s /\ shorter input rest.
Proof.
  intros Hb E. destruct (GetLengthPrefixed_inv _ _ _ Hb E) as (u & Eu & Hu & Hs). split; [done|].
  apply (suffix_shorter input (u ++ s)); [done|by rewrite <- app_assoc|by destruct u].
Qed.

Lemma read_level input l rest : is_bytes input -> GetLevel input = (Some l, rest) -> level_ok l /\ shorter input rest.
Proof.
  unfold GetLevel. intros Hb E. destruct (GetVarint32 input) as [[v q]|] eqn:E1; [|done].
  apply read32 in E1 as [Hv Hs]; [|done]. destruct (Z.ltb_spec v kNumLevels); simplify_eq. split; [|done]. split; lia.
Qed.

Lemma shorter_trans a b c : shorter a b -> shorter b c -> shorter a c.
Proof. intros [_ H1] [H2 H3]. split; [done|lia]. Qed.

Lemma edit_ok_lists e cp df nf :
  edit_ok e -> Forall (fun p => level_ok p.1 /\ str_ok p.2) cp ->
  Forall (fun p => level_ok p.1 /\ u64_ok p.2) df -> StronglySorted pair_lt df -> Forall file_ok nf ->
  edit_ok (with_lists cp df nf e).
Proof. intros [] ????. by constructor. Qed.

Lemma Clear_ok e : edit_ok e -> edit_ok (VersionEdit_Clear e).
Proof.
  intros [_ _ _ _ _ Hp _ _ _].
  constructor; cbn [comparator_ log_number_ prev_log_number_ next_file_number_ last_sequence_ compact_pointers_
    deleted_files_ new_files_ VersionEdit_Clear]; first [exact Hp|by constructor|by split; [by vm_compute|]].
Qed.

Lemma decode_field_ok tag input e e' rest :
  is_bytes input -> edit_ok e -> decode_field tag input e = inl (e', rest) -> edit_ok e' /\ shorter input rest.
Proof.
  intros Hb He. pose proof He as [H1 H2 H3 H4 H5 H6 H7 H8 H9]. unfold decode_field, GetInternalKey.
  repeat match goal with |- context [if tag =? ?x then _ else _] => destruct (tag =? x) end; [..|done].
  - destruct (GetLengthPrefixedSlice input) as [[s|] r] eqn:E; intros; simplify_eq.
    apply read_str in E as [Hs Hr]; [|done]. split; [|done]. by constructor.
  - destruct (GetVarint64 input) as [[n r]|] eqn:E; intros; simplify_eq.
    apply read64 in E as [Hs Hr]; [|done]. split; [|done]. by constructor.
  - destruct (GetVarint64 input) as [[n r]|] eqn:E; intros; simplify_eq.
    apply read64 in E as [Hs Hr]; [|done]. split; [|done]. by constructor.
  - destruct (GetVarint64 input) as [[n r]|] eqn:E; intros; simplify_eq.
    apply read64 in E as [Hs Hr]; [|done]. split; [|done]. by constructor.
  - destruct (GetVarint64 input) as [[n r]|] eqn:E; intros; simplify_eq.
    apply read64 in E as [Hs Hr]; [|done]. split; [|done]. by constructor.
  - destruct (GetLevel input) as [[l|] r] eqn:E; [|done]. apply read_level in E as [Hl Hr]; [|done].
    destruct (GetLengthPrefixedSlice r) as [[s|] r2] eqn:E2; intros; simplify_eq. apply read_str in E2 as [Hs Hr2]; [|apply Hr].
    split; [|by apply (shorter_trans _ r)]. apply edit_ok_lists; [done| |done..]. apply Forall_app. split; [done|]. by apply Forall_singleton.
  - destruct (GetLevel input) as [[l|] r] eqn:E; [|done]. apply read_level in E as [Hl Hr]; [|done].
    destruct (GetVarint64 r) as [[n r2]|] eqn:E2; intros; simplify_eq. apply read64 in E2 as [Hs Hr2]; [|apply Hr].
    split; [|by apply (shorter_trans _ r)]. apply edit_ok_lists; [done|done| |by apply set_insert_sorted|done].
    rewrite Forall_forall in H7 |- *. intros y Hy. apply set_insert_elem in Hy as [->|Hy]; [done|by apply H7].
  - destruct (GetLevel input) as [[l|] r] eqn:E; [|done]. apply read_level in E as [Hl Hr]; [|done].
    destruct (GetVarint64 r) as [[n r2]|] eqn:E2; cbn [mbind option_bind]; [|done]. apply read64 in E2 as [Hn Hr2]; [|apply Hr].
    destruct (GetVarint64 r2) as [[z r3]|] eqn:E3; cbn [mbind option_bind]; [|done]. apply read64 in E3 as [Hz Hr3]; [|apply Hr2].
    destruct (GetLengthPrefixedSlice r3) as [[s|] r4] eqn:E4; [|done]. apply read_str in E4 as [Hs Hr4]; [|apply Hr3].
    destruct (GetLengthPrefixedSlice r4) as [[g|] r5] eqn:E5; [|done]. apply read_str in E5 as [Hg Hr5]; [|apply Hr4].
    intros; simplify_eq. split; [|eauto using shorter_trans]. apply edit_ok_lists; [done|done|done|done|].
    apply Forall_app. split; [done|]. by apply Forall_singleton.
Qed.

Lemma decode_loop_ok fuel : forall input e,
  is_bytes input -> edit_ok e -> (length input <= fuel)%nat ->
  exists e' msg, decode_loop fuel input e = Some (e', msg) /\ edit_ok e'.
Proof.
  induction fuel as [|fuel IH]; intros input e Hb He Hf; cbn [decode_loop];
    (destruct (GetVarint32 input) as [[tag r]|] eqn:E; [|by eexists _, _]);
    apply read32 in E as [_ [Hbr Hlt]]; try done; [lia|].
  destruct (decode_field tag r e) as [[e1 r1]|msg] eqn:Ef; [|by eexists _, _].
  apply decode_field_ok in Ef as [H1 [Hb1 Hlt1]]; [|done|done]. apply IH; [done|done|lia].
Qed.

(** decoding gives well-formed edits only. Whatever the bytes, and whatever
    well-formed edit they are decoded into, the decoder returns, with success or
    a corruption, and the edit it leaves (also after an error half way) has
    levels below seven, 64-bit numbers, a sorted set of deleted files without
    repetitions, and zero in the fields that are not set. *)
Theorem VersionEdit_DecodeFrom_wellformed src e :
  is_bytes src -> edit_ok e ->
  exists st e', VersionEdit_DecodeFrom src e = Some (st, e') /\
    (st = Status_OK \/ Status_IsCorruption st = true) /\ edit_ok e'.
Proof.
  intros Hb He. unfold VersionEdit_DecodeFrom.
  destruct (decode_loop_ok (length src) src (VersionEdit_Clear e) Hb (Clear_ok e He)) as (e' & msg & E & He'); [lia|].
  rewrite E. cbn [mbind option_bind]. destruct msg as [m|]; eexists _, e'; (split; [done|]); (split; [|done]); [by right|by left].
Qed.

Lemma VersionEdit_DecodeFrom_wellformed_witness :
  exists st e', VersionEdit_DecodeFrom [6; 1; 5; 6; 9] sample_edit = Some (st, e') /\ edit_ok e' /\
    deleted_files_ e' = [(1, 5)].
Proof.
  destruct (VersionEdit_DecodeFrom_wellformed [6; 1; 5; 6; 9] sample_edit) as (st & e' & E & _ & H);
    [solve_bytes|exact sample_edit_ok|]. exists st, e'. split; [exact E|]. split; [exact H|].
  vm_compute in E. by simplify_eq.
Defined.

(** An empty key is decoded, but its edit cannot be encoded: the assertion of
    [InternalKey::Encode] fails. *)
Example empty_key_not_encodable :
  match VersionEdit_DecodeFrom [5; 0; 0] VersionEdit_new with
  | Some (st, e) => st = Status_OK /\ VersionEdit_EncodeTo e [] = None
  | None => False
  end.
Proof. by vm_compute. Qed.
