(* ===== verification/LvIterator.v ===== *)
(** Iterators ([include/leveldb/iterator.h]): the virtual functions, and what an
    iterator over a sorted list of entries does. *)

From stdpp Require Import base list gmap strings.
From Stdlib Require Import ZArith Lia.
From S2P Require Import Prelude LvSlice.

(** The virtual functions of [Iterator], over its state. *)
Class Iterator (I : Type) : Type := {
  iter_Valid : I -> bool;
  iter_SeekToFirst : M I unit;
  iter_SeekToLast : M I unit;
  iter_Seek : Slice -> M I unit;
  iter_Next : M I unit;
  iter_Prev : M I unit;
  iter_key : M I Slice;
  iter_value : M I Slice;
  iter_status : I -> Status
}.

(** [At it i]: the iterator is at the entry number [i] of the list [kvs], or
    past its ends when [i] is the length. Keys compare with [cmp]; [ok] are the
    targets it may be given. *)
Class IteratorLaws (I : Type) (cmp : Slice -> Slice -> Z) (ok : Slice -> Prop) (kvs : list (Slice * Slice))
    `{Iterator I} (At : I -> nat -> Prop) : Prop := {
  it_bound it i : At it i -> (i <= length kvs)%nat;
  it_valid it i : At it i -> iter_Valid it = bool_decide (i < length kvs)%nat;
  it_status it i : At it i -> iter_status it = Status_OK;
  it_key it i k v : At it i -> kvs !! i = Some (k, v) -> iter_key it = Ret (k, it);
  it_value it i k v : At it i -> kvs !! i = Some (k, v) -> iter_value it = Ret (v, it);
  it_first it i : At it i -> exists it', iter_SeekToFirst it = Ret (tt, it') /\ At it' O;
  it_last it i : At it i -> exists it', iter_SeekToLast it = Ret (tt, it') /\ At it' (length kvs - 1)%nat;
  it_next it i : At it i -> (i < length kvs)%nat -> exists it', iter_Next it = Ret (tt, it') /\ At it' (S i);
  it_prev it i : At it i -> (i < length kvs)%nat ->
    exists it', iter_Prev it = Ret (tt, it') /\ At it' (match i with O => length kvs | S j => j end);
  it_seek it i target : At it i -> ok target ->
    exists it' m, iter_Seek target it = Ret (tt, it') /\ At it' m /\
      Forall (fun kv => cmp kv.1 target < 0) (take m kvs) /\
      Forall (fun kv => 0 <= cmp kv.1 target) (drop m kvs)
}.

(** * Walking an iterator *)

Section Walk.
Context {I : Type} `{Iterator I}.

(** [for (it->SeekToFirst(); it->Valid(); it->Next())], [n] rounds at most. *)
Fixpoint walk (n : nat) : M I (list (Slice * Slice)) :=
  match n with
  | O => nofuel
  | S n =>
      let* it := get in
      if iter_Valid it then
        let* k := iter_key in
        let* v := iter_value in
        iter_Next ;;;
        let* l := walk n in
        ret ((k, v) :: l)
      else ret []
  end.

Definition collect (n : nat) : M I (list (Slice * Slice)) := iter_SeekToFirst ;;; walk n.

(** The same backwards. *)
Fixpoint walk_back (n : nat) : M I (list (Slice * Slice)) :=
  match n with
  | O => nofuel
  | S n =>
      let* it := get in
      if iter_Valid it then
        let* k := iter_key in
        let* v := iter_value in
        iter_Prev ;;;
        let* l := walk_back n in
        ret ((k, v) :: l)
      else ret []
  end.

Definition collect_back (n : nat) : M I (list (Slice * Slice)) := iter_SeekToLast ;;; walk_back n.

Context {cmp : Slice -> Slice -> Z} {ok : Slice -> Prop} {kvs : list (Slice * Slice)} {At : I -> nat -> Prop}.
Context `{L : !IteratorLaws I cmp ok kvs At}.

Lemma walk_spec n : forall it i, At it i -> (length kvs - i < n)%nat ->
  exists it', walk n it = Ret (drop i kvs, it') /\ At it' (length kvs).
Proof.
  induction n as [|n IH]; intros it i HA Hn; [lia|]. cbn [walk]. unfold bind at 1, get at 1.
  rewrite (it_valid it i HA). pose proof (it_bound it i HA). case_bool_decide as Hi.
  - destruct (lookup_lt_is_Some_2 kvs i Hi) as [[k v] Ei].
    unfold bind at 1. rewrite (it_key it i k v HA Ei). unfold bind at 1. rewrite (it_value it i k v HA Ei).
    destruct (it_next it i HA Hi) as (it1 & E1 & H1). unfold bind at 1. rewrite E1.
    destruct (IH it1 (S i) H1) as (it2 & E2 & H2); [lia|]. unfold bind. rewrite E2. exists it2.
    by rewrite (drop_S kvs (k, v) i).
  - exists it. rewrite drop_ge by lia. replace (length kvs) with i by lia. done.
Qed.

Lemma collect_spec n it i : At it i -> (length kvs < n)%nat ->
  exists it', collect n it = Ret (kvs, it') /\ At it' (length kvs).
Proof.
  intros HA Hn. unfold collect, bind. destruct (it_first it i HA) as (it1 & -> & H1).
  destruct (walk_spec n it1 0 H1) as (it2 & E2 & H2); [lia|]. by exists it2.
Qed.

Lemma walk_back_spec n : forall it i, At it i -> (i < length kvs)%nat -> (i < n - 1)%nat ->
  exists it', walk_back n it = Ret (reverse (take (S i) kvs), it') /\ At it' (length kvs).
Proof.
  induction n as [|n IH]; intros it i HA Hi Hn; [lia|]. cbn [walk_back]. unfold bind at 1, get at 1.
  rewrite (it_valid it i HA). rewrite bool_decide_true by done.
  destruct (lookup_lt_is_Some_2 kvs i Hi) as [[k v] Ei].
  unfold bind at 1. rewrite (it_key it i k v HA Ei). unfold bind at 1. rewrite (it_value it i k v HA Ei).
  destruct (it_prev it i HA Hi) as (it1 & E1 & H1). unfold bind at 1. rewrite E1.
  rewrite (take_S_r kvs i (k, v)), reverse_app by done. cbn [reverse rev_append app]. unfold bind.
  destruct i as [|i].
  - destruct n as [|n]; [lia|]. cbn [walk_back]. unfold bind, get. rewrite (it_valid it1 _ H1), bool_decide_false by lia.
    by exists it1.
  - destruct (IH it1 i H1) as (it2 & -> & H2); [lia|lia|]. by exists it2.
Qed.

Lemma collect_back_spec n it i : At it i -> (length kvs < n)%nat ->
  exists it', collect_back n it = Ret (reverse kvs, it') /\ At it' (length kvs).
Proof.
  intros HA Hn. unfold collect_back, bind. destruct (it_last it i HA) as (it1 & -> & H1).
  destruct (decide (length kvs = 0)%nat) as [E0|E0].
  - destruct n as [|n]; [lia|]. cbn [walk_back]. unfold bind, get. rewrite (it_valid it1 _ H1), bool_decide_false by lia.
    exists it1. apply nil_length_inv in E0 as E1. assert (Er : reverse kvs = []) by (by rewrite E1). rewrite Er. split; [done|].
    by replace (length kvs - 1)%nat with (length kvs) in H1 by lia.
  - destruct (walk_back_spec n it1 (length kvs - 1) H1) as (it2 & E2 & H2); [lia|lia|].
    rewrite take_ge in E2 by lia. by exists it2.
Qed.
End Walk.
