(* ===== verification/LvBlock.v ===== *)
(** Blocks of tables: the builder with its key prefixes and restart points
    ([table/block_builder.cc]), and the reader and its iterator
    ([table/block.cc]).

    Pointers into the block are offsets; reading past the end of the block's
    memory is undefined behaviour. *)

From stdpp Require Import base list gmap strings.
From Stdlib Require Import ZArith Lia.
From S2P Require Import Prelude LvSlice LvCoding LvLogging LvEnv.

(** * Builder *)

Record BlockBuilder : Type := {
  buffer_ : Slice; restarts_ : list Z; counter_ : Z; finished_ : bool; last_key_ : Slice
}.

Definition BlockBuilder_Reset : BlockBuilder := {|
  buffer_ := []; restarts_ := [0]; counter_ := 0; finished_ := false; last_key_ := []
|}.

Section Builder.
(** The two members of [Options] the builder reads. *)
Variables (block_restart_interval : Z) (comparator : Comparator).

(** [assert(options->block_restart_interval >= 1)]. *)
Definition BlockBuilder_new : option BlockBuilder :=
  if block_restart_interval >=? 1 then Some BlockBuilder_Reset else None.

Definition BlockBuilder_empty (b : BlockBuilder) : bool := Slice_empty (buffer_ b).

Definition CurrentSizeEstimate (b : BlockBuilder) : Z :=
  size (buffer_ b) + Z.of_nat (length (restarts_ b)) * 4 + 4.

Definition BlockBuilder_Finish (b : BlockBuilder) : Slice * BlockBuilder :=
  let buffer := fold_left (fun buf r => PutFixed32 buf r) (restarts_ b) (buffer_ b) in
  let buffer := PutFixed32 buffer (u32 (Z.of_nat (length (restarts_ b)))) in
  (buffer, {| buffer_ := buffer; restarts_ := restarts_ b; counter_ := counter_ b; finished_ := true;
              last_key_ := last_key_ b |}).

(** [while ((shared < min_length) && (last_key_piece[shared] == key[shared]))]. *)
Fixpoint shared_prefix (last key : Slice) : nat :=
  match last, key with
  | x :: last, y :: key => if x =? y then S (shared_prefix last key) else O
  | _, _ => O
  end.

(** [None]: an assertion fails. *)
Definition BlockBuilder_Add (b : BlockBuilder) (key value : Slice) : option BlockBuilder :=
  let last_key_piece := last_key_ b in
  if finished_ b then None
  else if negb (counter_ b <=? block_restart_interval) then None
  else if negb (Slice_empty (buffer_ b) || (Compare comparator key last_key_piece >? 0)) then None
  else
    let '(shared, restarts, counter) :=
      if counter_ b <? block_restart_interval
      then (shared_prefix last_key_piece key, restarts_ b, counter_ b)
      else (O, restarts_ b ++ [u32 (size (buffer_ b))], 0) in
    let non_shared := (length key - shared)%nat in
    let buffer := PutVarint32 (buffer_ b) (u32 (Z.of_nat shared)) in
    let buffer := PutVarint32 buffer (u32 (Z.of_nat non_shared)) in
    let buffer := PutVarint32 buffer (u32 (size value)) in
    let buffer := buffer ++ take non_shared (drop shared key) ++ value in
    let last_key := take shared (last_key_ b) ++ take non_shared (drop shared key) in
    if Slice_eq last_key key
    then Some {| buffer_ := buffer; restarts_ := restarts; counter_ := counter + 1; finished_ := false;
                 last_key_ := last_key |}
    else None.
End Builder.

(** * Reader *)

(** [data_] with [size_], and [restart_offset_]; [owned_] says who frees. *)
Record Block : Type := { data_ : Slice; size_ : Z; restart_offset_ : Z }.

(** [assert(size_ >= sizeof(uint32_t))]. *)
Definition NumRestarts_at (data : Slice) (size : Z) : Z := DecodeFixed32 (drop (Z.to_nat (size - 4)) data).

Definition NumRestarts (b : Block) : Z := NumRestarts_at (data_ b) (size_ b).

(** When an error marks the block [restart_offset_] is not set; zero here. *)
Definition Block_new (contents : Slice) : Block :=
  let sz := size contents in
  if sz <? 4 then {| data_ := contents; size_ := 0; restart_offset_ := 0 |}
  else
    let max_restarts_allowed := (sz - 4) / 4 in
    let num := NumRestarts_at contents sz in
    if num >? max_restarts_allowed then {| data_ := contents; size_ := 0; restart_offset_ := 0 |}
    else {| data_ := contents; size_ := sz; restart_offset_ := u32 (sz - (1 + num) * 4) |}.

(** [DecodeEntry] on the bytes from [p] to [limit]: the three lengths and the
    bytes from the pointer returned. *)
Definition DecodeEntry (p : list Z) : option (Z * Z * Z * list Z) :=
  if size p <? 3 then None
  else
    let shared := nth 0 p 0 in
    let non_shared := nth 1 p 0 in
    let value_length := nth 2 p 0 in
    '(shared, non_shared, value_length, p) ←
      (if Z.lor (Z.lor shared non_shared) value_length <? 128
       then Some (shared, non_shared, value_length, drop 3 p)
       else
         '(shared, p) ← GetVarint32Ptr p;
         '(non_shared, p) ← GetVarint32Ptr p;
         '(value_length, p) ← GetVarint32Ptr p;
         Some (shared, non_shared, value_length, p));
    if u32 (size p) <? u32 (non_shared + value_length) then None
    else Some (shared, non_shared, value_length, p).

(** The members of [Block::Iter] that change. [value_] is an offset and a
    length, or the empty slice, which points elsewhere. *)
Record Iter : Type := {
  current_ : Z; restart_index_ : Z; key_ : Slice; value_ : option (Z * Z); status_ : Status
}.

Section Iter.
(** [comparator_], [data_], [restarts_] and [num_restarts_]. *)
Variables (comparator : Comparator) (data : Slice) (restarts num_restarts : Z).

(** [assert(num_restarts_ > 0)]. *)
Definition Iter_new : option Iter :=
  if num_restarts >? 0
  then Some {| current_ := restarts; restart_index_ := num_restarts; key_ := []; value_ := None; status_ := Status_OK |}
  else None.

Definition modify_iter (g : Iter -> Iter) : M Iter unit := fun it => Ret (tt, g it).

(** [n] bytes at an offset of the block's memory. *)
Definition bytes_at (offset n : Z) : option Slice :=
  if (0 <=? offset) && (0 <=? n) && (offset + n <=? size data)
  then Some (take (Z.to_nat n) (drop (Z.to_nat offset) data))
  else None.

(** The bytes between two pointers, none when they are the wrong way round. *)
Definition between (p limit : Z) : list Z := take (Z.to_nat (limit - p)) (drop (Z.to_nat p) data).

Definition NextEntryOffset (it : Iter) : option Z :=
  '(off, len) ← value_ it; Some (u32 (off + len)).

(** [assert(index < num_restarts_)]. *)
Definition GetRestartPoint (index : Z) : M Iter Z :=
  if negb (index <? num_restarts) then undef
  else let* b := need (bytes_at (restarts + index * 4) 4) in ret (DecodeFixed32 b).

Definition SeekToRestartPoint (index : Z) : M Iter unit :=
  let* offset := GetRestartPoint index in
  modify_iter (fun it => {| current_ := current_ it; restart_index_ := index; key_ := []; value_ := Some (offset, 0);
                            status_ := status_ it |}).

Definition Iter_Valid (it : Iter) : bool := current_ it <? restarts.
Definition Iter_status (it : Iter) : Status := status_ it.

Definition Iter_key : M Iter Slice :=
  let* it := get in if negb (Iter_Valid it) then undef else ret (key_ it).

Definition Iter_value : M Iter Slice :=
  let* it := get in
  if negb (Iter_Valid it) then undef
  else match value_ it with Some (off, len) => need (bytes_at off len) | None => ret [] end.

Definition CorruptionError : M Iter unit :=
  modify_iter (fun _ => {| current_ := restarts; restart_index_ := num_restarts; key_ := []; value_ := None;
                           status_ := Status_Corruption (chars "bad entry in block") [] |}).

(** [while (restart_index_ + 1 < num_restarts_ && GetRestartPoint(...) < current_)]. *)
Fixpoint advance_restart (fuel : nat) : M Iter unit :=
  match fuel with
  | O => nofuel
  | S fuel =>
      let* it := get in
      if restart_index_ it + 1 <? num_restarts then
        let* p := GetRestartPoint (restart_index_ it + 1) in
        if p <? current_ it then
          modify_iter (fun it => {| current_ := current_ it; restart_index_ := restart_index_ it + 1; key_ := key_ it;
                                    value_ := value_ it; status_ := status_ it |}) ;;;
          advance_restart fuel
        else ret tt
      else ret tt
  end.

Definition set_current (c ri : Z) (it : Iter) : Iter :=
  {| current_ := c; restart_index_ := ri; key_ := key_ it; value_ := value_ it; status_ := status_ it |}.

Definition ParseNextKey : M Iter bool :=
  let* it := get in
  let* current := need (NextEntryOffset it) in
  modify_iter (set_current current (restart_index_ it)) ;;;
  if current >=? restarts then
    modify_iter (set_current restarts num_restarts) ;;; ret false
  else
    match DecodeEntry (between current restarts) with
    | Some (shared, non_shared, value_length, p) =>
        if size (key_ it) <? shared then CorruptionError ;;; ret false
        else
          let p := restarts - size p in
          let* delta := need (bytes_at p non_shared) in
          modify_iter (fun it => {| current_ := current_ it; restart_index_ := restart_index_ it;
                                    key_ := take (Z.to_nat shared) (key_ it) ++ delta;
                                    value_ := Some (p + non_shared, value_length); status_ := status_ it |}) ;;;
          advance_restart (Z.to_nat num_restarts + 1) ;;;
          ret true
    | None => CorruptionError ;;; ret false
    end.

Definition Iter_Next : M Iter unit :=
  let* it := get in
  if negb (Iter_Valid it) then undef else let* _ := ParseNextKey in ret tt.

(** [while (GetRestartPoint(restart_index_) >= original)]: whether the function
    goes on. *)
Fixpoint Prev_restart (fuel : nat) (original : Z) : M Iter bool :=
  match fuel with
  | O => nofuel
  | S fuel =>
      let* it := get in
      let* p := GetRestartPoint (restart_index_ it) in
      if p >=? original then
        if restart_index_ it =? 0 then modify_iter (set_current restarts num_restarts) ;;; ret false
        else modify_iter (set_current (current_ it) (restart_index_ it - 1)) ;;; Prev_restart fuel original
      else ret true
  end.

(** [do {} while (ParseNextKey() && NextEntryOffset() < bound)]; every round
    takes at least three bytes of the block. *)
Fixpoint parse_while (fuel : nat) (bound : Z) : M Iter unit :=
  match fuel with
  | O => nofuel
  | S fuel =>
      let* more := ParseNextKey in
      if more then
        let* it := get in
        let* next := need (NextEntryOffset it) in
        if next <? bound then parse_while fuel bound else ret tt
      else ret tt
  end.

Definition scan_fuel : nat := length data + 1.

Definition Iter_Prev : M Iter unit :=
  let* it := get in
  if negb (Iter_Valid it) then undef
  else
    let original := current_ it in
    let* go := Prev_restart (Z.to_nat num_restarts + 1) original in
    if go then
      let* it := get in
      SeekToRestartPoint (restart_index_ it) ;;;
      parse_while scan_fuel original
    else ret tt.

(** [while (left < right)]: [left], or [None] after a corruption. *)
Fixpoint Seek_restart (fuel : nat) (target : Slice) (left right : Z) : M Iter (option Z) :=
  if left <? right then
    match fuel with
    | O => nofuel
    | S fuel =>
        let mid := u32 (u32 (left + right) + 1) / 2 in
        let* region_offset := GetRestartPoint mid in
        match DecodeEntry (between region_offset restarts) with
        | Some (shared, non_shared, value_length, p) =>
            if negb (shared =? 0) then CorruptionError ;;; ret None
            else
              let* mid_key := need (bytes_at (restarts - size p) non_shared) in
              if Compare comparator mid_key target <? 0 then Seek_restart fuel target mid right
              else Seek_restart fuel target left (mid - 1)
        | None => CorruptionError ;;; ret None
        end
    end
  else ret (Some left).

(** The linear search. *)
Fixpoint Seek_scan (fuel : nat) (target : Slice) : M Iter unit :=
  match fuel with
  | O => nofuel
  | S fuel =>
      let* more := ParseNextKey in
      if negb more then ret tt
      else
        let* it := get in
        if Compare comparator (key_ it) target >=? 0 then ret tt else Seek_scan fuel target
  end.

Definition Iter_Seek (target : Slice) : M Iter unit :=
  let* o := Seek_restart (Z.to_nat num_restarts) target 0 (num_restarts - 1) in
  match o with
  | Some left_ => SeekToRestartPoint left_ ;;; Seek_scan scan_fuel target
  | None => ret tt
  end.

Definition Iter_SeekToFirst : M Iter unit :=
  SeekToRestartPoint 0 ;;; let* _ := ParseNextKey in ret tt.

Definition Iter_SeekToLast : M Iter unit :=
  SeekToRestartPoint (num_restarts - 1) ;;; parse_while scan_fuel restarts.
End Iter.

(** [NewIterator]: an iterator over an error, over nothing, or over the block. *)
Inductive BlockIterator : Type :=
| ErrorIterator (s : Status)
| EmptyIterator
| NewIter (it : option Iter) (restarts num_restarts : Z).

Definition Block_NewIterator (b : Block) : BlockIterator :=
  if size_ b <? 4 then ErrorIterator (Status_Corruption (chars "bad block contents") [])
  else
    let num_restarts := NumRestarts b in
    if num_restarts =? 0 then EmptyIterator
    else NewIter (Iter_new (restart_offset_ b) num_restarts) (restart_offset_ b) num_restarts.
