(* ===== verification/LvBlockProps.v ===== *)
(** Blocks: how the builder lays entries out, and that a block's iterator is an
    iterator over the entries that were added. *)

From stdpp Require Import base list gmap strings sorting.
From Stdlib Require Import ZArith Lia.
From S2P Require Import Prelude LvSlice LvCoding LvIterator LvBlock.

(** * Entries *)

(** An entry, with the bytes it shares with the key before it. *)
Record Ent : Type := { be_key : Slice; be_val : Slice; be_shared : nat }.

Definition non_shared (e : Ent) : Z := Z.of_nat (length (be_key e) - be_shared e).

Definition enc (e : Ent) : Slice :=
  EncodeVarint32 (Z.of_nat (be_shared e)) ++ EncodeVarint32 (non_shared e) ++ EncodeVarint32 (size (be_val e))
  ++ drop (be_shared e) (be_key e) ++ be_val e.

Definition ent_ok (e : Ent) : Prop := size (be_key e) + size (be_val e) < 2 ^ 32 /\ (be_shared e <= length (be_key e))%nat.

(** The head of a varint tells whether it is a byte. *)
Lemma varint_head x : 0 <= x < 2 ^ 32 ->
  exists h t, EncodeVarint32 x = h :: t /\ 0 <= h < 256 /\
    (if x <? 128 then h = x /\ t = [] else 128 <= h).
Proof.
  intros Hx. rewrite EncodeVarint32_varint by lia. unfold varint. cbn [varint_enc].
  destruct (Z.ltb_spec x 128); [exists x, []; split_and!; done || lia|].
  eexists _, _. split; [done|]. pose proof (Z.mod_pos_bound x 128). lia.
Qed.

Lemma lor_lt_128 x y : 0 <= x -> 0 <= y -> Z.lor x y < 128 <-> x < 128 /\ y < 128.
Proof.
  intros Hx Hy. assert (E : forall z, 0 <= z -> z < 128 <-> Z.shiftr z 7 = 0).
  { intros z Hz. rewrite Z.shiftr_div_pow2 by lia. change (2 ^ 7) with 128. split.
    - intros. apply Z.div_small. lia.
    - intros E. pose proof (Z.mod_pos_bound z 128). pose proof (Z.div_mod z 128). lia. }
  rewrite !E by (done || by apply Z.lor_nonneg). rewrite Z.shiftr_lor. apply Z.lor_eq_0_iff.
Qed.

Lemma DecodeEntry_enc e rest :
  ent_ok e -> size (enc e ++ rest) < 2 ^ 32 ->
  DecodeEntry (enc e ++ rest) =
    Some (Z.of_nat (be_shared e), non_shared e, size (be_val e), drop (be_shared e) (be_key e) ++ be_val e ++ rest).
Proof.
  intros [Hs Hsh] Hlen. pose proof (size_nonneg (be_val e)) as Hv. pose proof (size_nonneg (be_key e)) as Hk.
  set (a := Z.of_nat (be_shared e)). set (b := non_shared e). set (c := size (be_val e)) in *.
  set (tail := drop (be_shared e) (be_key e) ++ be_val e ++ rest).
  assert (Ha : 0 <= a < 2 ^ 32) by (unfold a, size in *; lia).
  assert (Hb : 0 <= b < 2 ^ 32) by (unfold b, non_shared, size in *; lia).
  assert (Hc : 0 <= c < 2 ^ 32) by lia.
  assert (Ep : enc e ++ rest = EncodeVarint32 a ++ EncodeVarint32 b ++ EncodeVarint32 c ++ tail)
    by (unfold enc, tail; fold a b c; by rewrite <- !app_assoc).
  rewrite Ep in *. unfold DecodeEntry.
  destruct (varint_head a Ha) as (h1 & t1 & E1 & R1 & C1). destruct (varint_head b Hb) as (h2 & t2 & E2 & R2 & C2).
  destruct (varint_head c Hc) as (h3 & t3 & E3 & R3 & C3).
  assert (Hsz : (size (EncodeVarint32 a ++ EncodeVarint32 b ++ EncodeVarint32 c ++ tail) <? 3) = false).
  { apply Z.ltb_ge. rewrite E1, E2, E3. unfold size. rewrite !length_app. cbn [length]. lia. }
  rewrite Hsz.
  assert (Fin : u32 (size tail) <? u32 (b + c) = false).
  { rewrite !size_app in Hlen. pose proof (size_nonneg (EncodeVarint32 a)). pose proof (size_nonneg (EncodeVarint32 b)).
    pose proof (size_nonneg (EncodeVarint32 c)). pose proof (size_nonneg tail).
    assert (b + c <= size tail).
    { unfold tail, b, non_shared, c. rewrite !size_app. pose proof (size_nonneg rest).
      unfold size at 2. rewrite length_drop. lia. }
    rewrite !wrap_small by lia. apply Z.ltb_ge. lia. }
  assert (Hslow : ('(shared, p) ← GetVarint32Ptr (EncodeVarint32 a ++ EncodeVarint32 b ++ EncodeVarint32 c ++ tail);
    '(ns, p) ← GetVarint32Ptr p; '(vl, p) ← GetVarint32Ptr p; Some (shared, ns, vl, p)) = Some (a, b, c, tail)).
  { rewrite GetVarint32_app by done. cbn [mbind option_bind]. rewrite GetVarint32_app by done.
    cbn [mbind option_bind]. by rewrite GetVarint32_app. }
  assert (Hnn : forall n, (n < 3)%nat -> 0 <= nth n (EncodeVarint32 a ++ EncodeVarint32 b ++ EncodeVarint32 c ++ tail) 0).
  { intros n Hn. rewrite !app_assoc, app_nth1 by (rewrite E1, E2, E3, !length_app; cbn [length]; lia).
    assert (Hby : is_bytes ((EncodeVarint32 a ++ EncodeVarint32 b) ++ EncodeVarint32 c))
      by (rewrite !is_bytes_app; split; [split|]; by apply EncodeVarint32_is_bytes).
    destruct (nth_in_or_default n ((EncodeVarint32 a ++ EncodeVarint32 b) ++ EncodeVarint32 c) 0) as [Hin| ->]; [|lia].
    unfold is_bytes in Hby. rewrite Forall_forall in Hby. apply list_elem_of_In, Hby in Hin. apply Hin. }
  rewrite Hslow. set (P := EncodeVarint32 a ++ _) in *.
  destruct (Z.ltb_spec (Z.lor (Z.lor (nth 0 P 0) (nth 1 P 0)) (nth 2 P 0)) 128) as [Hlt|Hge];
    [|cbn [mbind option_bind]; by rewrite Fin].
  pose proof (Hnn 0%nat ltac:(lia)). pose proof (Hnn 1%nat ltac:(lia)). pose proof (Hnn 2%nat ltac:(lia)).
  rewrite !lor_lt_128 in Hlt by (done || by apply Z.lor_nonneg). destruct Hlt as [[L0 L1] L2].
  assert (EP : P = [a; b; c] ++ tail).
  { unfold P in *. rewrite E1 in *. cbn [app nth] in L0. destruct (Z.ltb_spec a 128); [|lia]. destruct C1 as [-> ->].
    rewrite E2 in *. cbn [app nth] in L1. destruct (Z.ltb_spec b 128); [|lia]. destruct C2 as [-> ->].
    rewrite E3 in *. cbn [app nth] in L2. destruct (Z.ltb_spec c 128); [|lia]. by destruct C3 as [-> ->]. }
  rewrite EP. cbn [app nth mbind option_bind]. change (drop 3 (a :: b :: c :: tail)) with tail. by rewrite Fin.
Qed.

(** * Layouts *)

Definition body (es : list Ent) : Slice := concat (map enc es).

(** Where entry [i] starts. *)
Definition off (es : list Ent) (i : nat) : Z := size (body (take i es)).

(** The key before entry [i]. *)
Definition key_before (es : list Ent) (i : nat) : Slice :=
  match i with O => [] | S j => match es !! j with Some e => be_key e | None => [] end end.

(** The prefix an entry takes over from [last]. *)
Definition linked (last : Slice) (e : Ent) : Prop :=
  (be_shared e <= length last)%nat /\ take (be_shared e) last = take (be_shared e) (be_key e).

(** Entries, and the numbers of those at restart points. *)
Record Layout (es : list Ent) (R : list nat) : Prop := {
  ly_ok : Forall ent_ok es;
  ly_linked i e : es !! i = Some e -> linked (key_before es i) e;
  ly_first : R !! 0%nat = Some 0%nat;
  ly_increasing j a b : R !! j = Some a -> R !! S j = Some b -> (a < b)%nat;
  ly_inside j a : R !! S j = Some a -> (a < length es)%nat;
  ly_restart a e : a ∈ R -> es !! a = Some e -> be_shared e = O
}.

Lemma body_app es es' : body (es ++ es') = body es ++ body es'.
Proof. unfold body. by rewrite map_app, concat_app. Qed.

Lemma body_cons e es : body (e :: es) = enc e ++ body es.
Proof. done. Qed.

Lemma enc_size e : ent_ok e -> 3 <= size (enc e).
Proof.
  intros [Hs Hsh]. pose proof (size_nonneg (be_val e)). pose proof (size_nonneg (be_key e)).
  pose proof (EncodeVarint32_length (Z.of_nat (be_shared e)) ltac:(unfold size in *; lia)).
  pose proof (EncodeVarint32_length (non_shared e) ltac:(unfold non_shared, size in *; lia)).
  pose proof (EncodeVarint32_length (size (be_val e)) ltac:(lia)).
  unfold enc. rewrite !size_app. pose proof (size_nonneg (drop (be_shared e) (be_key e))). unfold size in *. lia.
Qed.

Lemma off_S es i e : es !! i = Some e -> off es (S i) = off es i + size (enc e).
Proof.
  intros Hi. unfold off. rewrite (take_S_r _ _ _ Hi), body_app, size_app, body_cons. cbn [body map concat].
  by rewrite app_nil_r.
Qed.

Lemma off_end es i : (length es <= i)%nat -> off es i = size (body es).
Proof. intros Hi. unfold off. by rewrite take_ge. Qed.

Lemma off_lt es i j : Forall ent_ok es -> (i < j)%nat -> (j <= length es)%nat -> off es i < off es j.
Proof.
  intros Hok Hij. induction Hij as [|j Hij IH]; intros Hj.
  - destruct (lookup_lt_is_Some_2 es i) as [e He]; [lia|]. rewrite (off_S _ _ _ He).
    rewrite Forall_lookup in Hok. pose proof (enc_size e (Hok i e He)). lia.
  - destruct (lookup_lt_is_Some_2 es j) as [e He]; [lia|]. rewrite (off_S _ _ _ He).
    rewrite Forall_lookup in Hok. pose proof (enc_size e (Hok j e He)). specialize (IH ltac:(lia)). lia.
Qed.

Lemma off_le es i j : Forall ent_ok es -> (i <= j)%nat -> (j <= length es)%nat -> off es i <= off es j.
Proof. intros Hok Hij Hj. destruct (decide (i = j)) as [->|]; [lia|]. pose proof (off_lt es i j Hok). lia. Qed.

Lemma off_nonneg es i : 0 <= off es i.
Proof. apply size_nonneg. Qed.

Lemma off_app es es' i : (i <= length es)%nat -> off (es ++ es') i = off es i.
Proof. intros Hi. unfold off. by rewrite take_app_le. Qed.

Lemma key_before_app es es' i : (i <= length es)%nat -> key_before (es ++ es') i = key_before es i.
Proof. destruct i as [|i]; [done|]. intros Hi. cbn [key_before]. by rewrite lookup_app_l by lia. Qed.

(** One entry more, at a restart point or not. *)
Lemma Layout_add es R e :
  Layout es R -> ent_ok e -> linked (key_before es (length es)) e ->
  (forall a, a ∈ R -> a = length es -> be_shared e = O) ->
  Layout (es ++ [e]) R.
Proof.
  intros [Hok Hl Hf Hi Hn Hr] He HL HR. constructor; [|intros i x Hx|done|done| |].
  - apply Forall_app. by split; [|apply Forall_singleton].
  - apply lookup_app_Some in Hx as [Hx|[Hge Hx]].
    + apply lookup_lt_Some in Hx as Hlt. rewrite key_before_app by lia. by apply Hl.
    + apply list_lookup_singleton_Some in Hx as [Hx <-]. replace i with (length es) by lia.
      by rewrite key_before_app.
  - intros j a Ha. rewrite length_app. apply Hn in Ha. lia.
  - intros a x Ha Hx. apply lookup_app_Some in Hx as [Hx|[Hge Hx]]; [by apply (Hr a)|].
    apply list_lookup_singleton_Some in Hx as [Hx <-]. apply (HR a); [done|lia].
Qed.

Lemma Layout_restart es R e :
  Layout es R -> ent_ok e -> linked (key_before es (length es)) e -> be_shared e = O ->
  (forall a, a ∈ R -> (a < length es)%nat) -> Layout (es ++ [e]) (R ++ [length es]).
Proof.
  intros HLy He HL Hsh Hlt. pose proof (Layout_add es R e HLy He HL) as [Hok Hl Hf Hi Hn Hr]; [done|].
  constructor; [done|done|by rewrite lookup_app_l by (by apply lookup_lt_Some in Hf)| | |].
  - intros j a b Ha Hb. apply lookup_app_Some in Hb as [Hb|[Hge Hb]].
    + apply lookup_lt_Some in Hb as Hj. rewrite lookup_app_l in Ha by lia. by apply (Hi j).
    + apply list_lookup_singleton_Some in Hb as [Hj <-]. rewrite lookup_app_l in Ha by lia.
      apply Hlt. by apply list_elem_of_lookup_2 in Ha.
  - intros j a Ha. rewrite length_app. apply lookup_app_Some in Ha as [Ha|[Hge Ha]].
    + apply (Hn j) in Ha. by rewrite length_app in Ha.
    + apply list_lookup_singleton_Some in Ha as [_ <-]. cbn. lia.
  - intros a x Ha Hx. apply elem_of_app in Ha as [Ha|Ha]; [by apply (Hr a)|].
    apply list_elem_of_singleton in Ha as ->. rewrite lookup_app_r, Nat.sub_diag in Hx by lia.
    by injection Hx as <-.
Qed.

(** * The builder *)

Section Builder.
Variables (interval : Z) (cmp : Comparator).
Hypothesis Hinterval : 1 <= interval.

(** The builder after the entries [es] with the restarts [R]. *)
Record Built (b : BlockBuilder) (es : list Ent) (R : list nat) : Prop := {
  bt_layout : Layout es R;
  bt_buffer : buffer_ b = body es;
  bt_restarts : restarts_ b = map (off es) R;
  bt_counter : 0 <= counter_ b <= interval /\ forall a, a ∈ R -> Z.of_nat a + counter_ b <= Z.of_nat (length es);
  bt_finished : finished_ b = false;
  bt_last : last_key_ b = key_before es (length es)
}.

Lemma Reset_built : Built BlockBuilder_Reset [] [0%nat].
Proof.
  constructor; [|done|done| |done|done].
  - constructor; [done|done|done|intros [|j] a b Ha Hb; done|intros j a Ha; done|done].
  - split; [cbn; lia|]. intros a Ha. apply list_elem_of_singleton in Ha as ->. cbn. lia.
Qed.

Lemma shared_prefix_spec last key :
  (shared_prefix last key <= length last)%nat /\ (shared_prefix last key <= length key)%nat /\
  take (shared_prefix last key) last = take (shared_prefix last key) key.
Proof.
  revert key. induction last as [|x last IH]; intros [|y key]; cbn [shared_prefix]; try (cbn; split_and!; done || lia).
  destruct (Z.eqb_spec x y) as [->|]; [|cbn; split_and!; done || lia].
  destruct (IH key) as (H1 & H2 & H3). cbn [length take]. split_and!; [lia|lia|by f_equal].
Qed.

Lemma BlockBuilder_Add_spec b es R key value :
  Built b es R -> size key + size value < 2 ^ 32 -> size (body es) < 2 ^ 32 ->
  (es <> [] -> Compare cmp key (key_before es (length es)) > 0) ->
  exists b' e R', BlockBuilder_Add interval cmp b key value = Some b' /\ Built b' (es ++ [e]) R' /\
    be_key e = key /\ be_val e = value.
Proof.
  intros [HL Hb Hr [Hc Hc'] Hf Hl] Hsz Hbody Hcmp. pose proof (size_nonneg value). pose proof (size_nonneg key).
  unfold BlockBuilder_Add. rewrite Hf, Hl, Hb, Hr. destruct (Z.leb_spec (counter_ b) interval); [|lia]. cbn [negb].
  assert (Ha : Slice_empty (body es) || (Compare cmp key (key_before es (length es)) >? 0) = true).
  { destruct es as [|e es]; [done|]. apply orb_true_iff. right. apply Z.gtb_lt. specialize (Hcmp ltac:(done)). lia. }
  rewrite Ha. cbn [negb].
  assert (Fin : forall sh restarts counter R',
    (sh <= length key)%nat -> linked (key_before es (length es)) {| be_key := key; be_val := value; be_shared := sh |} ->
    Layout (es ++ [{| be_key := key; be_val := value; be_shared := sh |}]) R' ->
    restarts = map (off (es ++ [{| be_key := key; be_val := value; be_shared := sh |}])) R' ->
    0 <= counter < interval -> (forall a, a ∈ R' -> Z.of_nat a + counter <= Z.of_nat (length es)) ->
    exists b' e R', (
      if Slice_eq (take sh (key_before es (length es)) ++ take (length key - sh) (drop sh key)) key
      then Some {| buffer_ := PutVarint32 (PutVarint32 (PutVarint32 (body es) (u32 (Z.of_nat sh)))
                     (u32 (Z.of_nat (length key - sh)))) (u32 (size value)) ++ take (length key - sh) (drop sh key) ++ value;
                   restarts_ := restarts; counter_ := counter + 1; finished_ := false;
                   last_key_ := take sh (key_before es (length es)) ++ take (length key - sh) (drop sh key) |}
      else None) = Some b' /\ Built b' (es ++ [e]) R' /\ be_key e = key /\ be_val e = value).
  { intros sh restarts counter R' Hsh [_ Htk] HLy -> Hcnt Hcnt'. cbn [be_key be_shared] in Htk. rewrite Htk.
    rewrite (take_ge (drop sh key)) by (rewrite length_drop; lia). rewrite take_drop, (proj2 (Slice_eq_iff key key) eq_refl).
    eexists _, {| be_key := key; be_val := value; be_shared := sh |}, R'. split; [done|]. split; [|done].
    constructor; cbn [buffer_ restarts_ counter_ finished_ last_key_]; [done| |done| |done|].
    - unfold PutVarint32. rewrite body_app, body_cons. unfold enc, non_shared. cbn [be_key be_val be_shared body map concat].
      unfold size in *. rewrite !wrap_small by lia. by rewrite app_nil_r, <- !app_assoc.
    - split; [lia|]. intros a Ha'. rewrite length_app. cbn [length]. specialize (Hcnt' a Ha'). lia.
    - rewrite length_app, Nat.add_1_r. cbn [key_before]. by rewrite lookup_app_r, Nat.sub_diag by lia. }
  assert (Hoff : forall e, map (off es) R = map (off (es ++ [e])) R).
  { intros e. apply map_ext_in. intros a Ha'. apply list_elem_of_In, Hc' in Ha'. rewrite off_app by lia. done. }
  destruct (Z.ltb_spec (counter_ b) interval) as [Hlt|Hge].
  - destruct (shared_prefix_spec (key_before es (length es)) key) as (P1 & P2 & P3).
    apply (Fin _ _ _ R); [done|by split| |apply Hoff|lia|done].
    apply Layout_add; [done|by split|by split|]. intros a Ha' ->. cbn [be_shared].
    destruct es as [|e0 es0]; [done|]. apply list_elem_of_lookup in Ha' as [[|j] Hj].
    + rewrite (ly_first _ _ HL) in Hj. injection Hj as Hj. cbn in Hj. lia.
    + apply (ly_inside _ _ HL) in Hj. lia.
  - apply (Fin O _ 0 (R ++ [length es])); [lia|by split; [cbn; lia|]| | |lia|].
    + apply Layout_restart; [done|by split; [|cbn; lia]|by split; [cbn; lia|]|done|]. intros a Ha'. specialize (Hc' a Ha'). lia.
    + rewrite map_app. f_equal; [apply Hoff|]. cbn [map]. rewrite off_app by lia. rewrite off_end by lia.
      f_equal. apply wrap_small. pose proof (size_nonneg (body es)). lia.
    + intros a Ha'. apply elem_of_app in Ha' as [Ha'|Ha']; [specialize (Hc' a Ha'); lia|].
      apply list_elem_of_singleton in Ha' as ->. lia.
Qed.
End Builder.
