(* ===== verification/LvBlockIter.v ===== *)
(** The iterator of a block that was built from entries. *)

From stdpp Require Import base list gmap strings sorting.
From Stdlib Require Import ZArith Lia.
From S2P Require Import Prelude LvSlice LvCoding LvIterator LvBlock LvBlockProps.

(** The iterator of a block as an implementation of [Iterator]. *)
#[export] Instance Block_Iter (cmp : Comparator) (data : Slice) (restarts num_restarts : Z) : Iterator Iter := {
  iter_Valid := Iter_Valid restarts;
  iter_SeekToFirst := Iter_SeekToFirst data restarts num_restarts;
  iter_SeekToLast := Iter_SeekToLast data restarts num_restarts;
  iter_Seek := Iter_Seek cmp data restarts num_restarts;
  iter_Next := Iter_Next data restarts num_restarts;
  iter_Prev := Iter_Prev data restarts num_restarts;
  iter_key := Iter_key restarts;
  iter_value := Iter_value data restarts;
  iter_status := status_
}.

Section Iter.
Context (es : list Ent) (R : list nat) (HL : Layout es R).
Let n := length es.
Let restarts := size (body es).
Let num := Z.of_nat (length R).

(** The whole block: the entries, the restart points, and their number. *)
Definition restart_array : Slice := concat (map (fun a => EncodeFixed32 (off es a)) R).
Definition block_data : Slice := body es ++ restart_array ++ EncodeFixed32 num.
Context (Hsize : size block_data < 2 ^ 32).
Let data := block_data.

Lemma restart_array_size : size restart_array = num * 4.
Proof.
  unfold restart_array, num. clear. induction R as [|a l IH]; [done|]. cbn [map concat length]. rewrite size_app, IH.
  unfold size at 1. change (length (EncodeFixed32 (off es a))) with 4%nat. lia.
Qed.

Lemma data_size : size data = restarts + num * 4 + 4.
Proof.
  unfold data, block_data. rewrite !size_app, restart_array_size. fold restarts.
  unfold size. change (length (EncodeFixed32 num)) with 4%nat. lia.
Qed.

Lemma num_pos : 0 < num.
Proof. unfold num. pose proof (ly_first _ _ HL) as H. apply lookup_lt_Some in H. lia. Qed.

Lemma restarts_range : 0 <= restarts < 2 ^ 32.
Proof. pose proof data_size. pose proof num_pos. pose proof (size_nonneg (body es)). unfold restarts in *. fold data in Hsize. lia. Qed.

Lemma restart_bytes j a tl : R !! j = Some a ->
  take 4 (drop (j * 4) (restart_array ++ tl)) = EncodeFixed32 (off es a).
Proof.
  unfold restart_array. clear. revert j. induction R as [|x l IH]; intros [|j] H; [done..| |].
  - injection H as ->. cbn [map concat Nat.mul drop]. rewrite <- app_assoc. by apply take_app_length'.
  - cbn [map concat]. rewrite <- app_assoc. change (S j * 4)%nat with (4 + j * 4)%nat. rewrite <- drop_drop.
    rewrite (drop_app_length' (EncodeFixed32 (off es x))) by done. by apply IH.
Qed.

Lemma off_range i : 0 <= off es i <= restarts.
Proof.
  split; [apply off_nonneg|]. unfold restarts. destruct (decide (i <= length es)%nat).
  - rewrite <- (off_end es (length es)) by lia. apply off_le; [apply HL|done|done].
  - rewrite off_end by lia. lia.
Qed.

Lemma GetRestartPoint_spec j a (it : Iter) : R !! j = Some a ->
  GetRestartPoint data restarts num (Z.of_nat j) it = Ret (off es a, it).
Proof.
  intros Hj. apply lookup_lt_Some in Hj as Hlt. unfold GetRestartPoint, num.
  destruct (Z.ltb_spec (Z.of_nat j) (Z.of_nat (length R))); [|lia]. cbn [negb].
  unfold bytes_at. pose proof data_size as Hd. pose proof restarts_range. unfold num in Hd.
  destruct (Z.leb_spec 0 (restarts + Z.of_nat j * 4)); [|lia].
  destruct (Z.leb_spec (restarts + Z.of_nat j * 4 + 4) (size data)); [|lia]. cbn [andb Z.leb Z.compare].
  unfold bind, need, ret. do 2 f_equal.
  assert (E : take (Z.to_nat 4) (drop (Z.to_nat (restarts + Z.of_nat j * 4)) data) = EncodeFixed32 (off es a)).
  { unfold data, block_data. rewrite Z2Nat.inj_add, Z2Nat.inj_mul, Nat2Z.id by lia.
    rewrite <- drop_drop. unfold restarts at 1, size. rewrite Nat2Z.id, drop_app_length.
    change (Z.to_nat 4) with 4%nat. by apply restart_bytes. }
  rewrite E. pose proof (off_range a). rewrite <- (app_nil_r (EncodeFixed32 _)). f_equal. apply DecodeFixed32_app. lia.
Qed.

(** * Positions *)

(** The restart block [j] holds the entry [i], or ends where it starts. *)
Definition in_block (j i : nat) : Prop :=
  exists a, R !! j = Some a /\ (a <= i)%nat /\ (forall b, R !! S j = Some b -> (i <= b)%nat).

(** The iterator at the entry [i]. *)
Definition at_entry (it : Iter) (i : nat) : Prop :=
  exists e j, es !! i = Some e /\ in_block j i /\
    current_ it = off es i /\ restart_index_ it = Z.of_nat j /\ key_ it = be_key e /\
    value_ it = Some (off es (S i) - size (be_val e), size (be_val e)) /\ status_ it = Status_OK.

(** The iterator past the ends. *)
Definition at_end (it : Iter) : Prop :=
  current_ it = restarts /\ restart_index_ it = num /\ status_ it = Status_OK.

(** The iterator about to parse the entry [i]. *)
Definition before_entry (it : Iter) (i : nat) : Prop :=
  exists j a, R !! j = Some a /\ (a <= i <= n)%nat /\ restart_index_ it = Z.of_nat j /\
    NextEntryOffset it = Some (off es i) /\ status_ it = Status_OK /\
    (forall e, es !! i = Some e -> linked (key_ it) e).

Definition AtPos (it : Iter) (i : nat) : Prop :=
  (i <= n)%nat /\ if decide (i < n)%nat then at_entry it i else at_end it.

Lemma at_before it i : at_entry it i -> before_entry it (S i).
Proof.
  intros (e & j & Hi & (a & Ha & Hai & _) & Hc & Hj & Hk & Hv & Hs). apply lookup_lt_Some in Hi as Hlt.
  exists j, a. split; [done|]. split; [unfold n; lia|]. split; [done|]. split; [|split; [done|]].
  - unfold NextEntryOffset. rewrite Hv. cbn [mbind option_bind]. f_equal.
    replace (off es (S i) - size (be_val e) + size (be_val e)) with (off es (S i)) by lia.
    apply wrap_small. pose proof (off_range (S i)). pose proof restarts_range. lia.
  - intros e' He'. rewrite Hk. pose proof (ly_linked _ _ HL (S i) e' He') as Hl. cbn [key_before] in Hl. by rewrite Hi in Hl.
Qed.

Lemma SeekToRestartPoint_spec it j a : R !! j = Some a -> (a <= n)%nat -> status_ it = Status_OK ->
  exists it', SeekToRestartPoint data restarts num (Z.of_nat j) it = Ret (tt, it') /\ before_entry it' a.
Proof.
  intros Hj Ha Hs. unfold SeekToRestartPoint, bind. rewrite (GetRestartPoint_spec j a) by done.
  eexists. split; [done|]. exists j, a. split; [done|]. split; [lia|]. split; [done|]. split; [|split; [done|]].
  - cbn. rewrite Z.add_0_r. f_equal. apply wrap_small. pose proof (off_range a). pose proof restarts_range. lia.
  - intros e He. assert (be_shared e = O) as E by (apply (ly_restart _ _ HL a); [by apply list_elem_of_lookup_2 in Hj|done]).
    unfold linked. rewrite E. cbn. split; [lia|done].
Qed.

Lemma off_cmp i j : (i <= n)%nat -> (j <= n)%nat -> off es i < off es j <-> (i < j)%nat.
Proof.
  intros Hi Hj. split; [|intros; by apply off_lt; [apply HL| |]].
  intros Hlt. destruct (decide (i < j)%nat); [done|]. assert (off es j <= off es i) by (apply off_le; [apply HL|lia|done]). lia.
Qed.

(** Setting the restart index. *)
Definition with_index (it : Iter) (j : nat) : Iter := set_current (current_ it) (Z.of_nat j) it.

Lemma advance_spec fuel : forall it j a i,
  R !! j = Some a -> (a <= i)%nat -> (i < n)%nat -> current_ it = off es i -> restart_index_ it = Z.of_nat j ->
  (length R - j < fuel)%nat ->
  exists j', advance_restart data restarts num fuel it = Ret (tt, with_index it j') /\ in_block j' i.
Proof.
  induction fuel as [|fuel IH]; intros it j a i Hj Hai Hi Hc Hr Hf; [lia|].
  cbn [advance_restart]. unfold bind at 1, get at 1. rewrite Hr. apply lookup_lt_Some in Hj as Hlt.
  replace (Z.of_nat j + 1) with (Z.of_nat (S j)) by lia.
  assert (Hsame : with_index it j = it) by (unfold with_index, set_current; rewrite <- Hr; by destruct it).
  destruct (Z.ltb_spec (Z.of_nat (S j)) num) as [Hin|Hout]; [unfold num in Hin|unfold num in Hout].
  - destruct (lookup_lt_is_Some_2 R (S j)) as [b Hb]; [lia|].
    assert (b < n)%nat by (by apply (ly_inside _ _ HL j)).
    unfold bind at 1. rewrite (GetRestartPoint_spec (S j) b it Hb). rewrite Hc.
    destruct (Z.ltb_spec (off es b) (off es i)) as [Hlt'|Hge].
    + apply off_cmp in Hlt'; [|lia|lia]. unfold bind at 1, modify_iter.
      destruct (IH (with_index it (S j)) (S j) b i Hb) as (j' & E & Hb'); [lia|done|done|done|lia|].
      exists j'. split; [|done].
      assert (Ew : {| current_ := off es i; restart_index_ := Z.of_nat j + 1; key_ := key_ it;
        value_ := value_ it; status_ := status_ it |} = with_index it (S j))
        by (unfold with_index, set_current; rewrite Hc; f_equal; lia).
      rewrite Hr, Hc. rewrite Ew. exact E.
    + exists j. rewrite Hsame. split; [done|]. exists a. split; [done|]. split; [done|].
      intros b' Hb'. rewrite Hb in Hb'. injection Hb' as <-. destruct (decide (i <= b)%nat); [done|].
      assert (off es b < off es i) by (apply off_cmp; lia). lia.
  - exists j. rewrite Hsame. split; [done|]. exists a. split; [done|]. split; [done|].
    intros b Hb. apply lookup_lt_Some in Hb. lia.
Qed.

(** Splitting the block at the entry [i]. *)
Lemma body_split i e : es !! i = Some e -> body es = body (take i es) ++ enc e ++ body (drop (S i) es).
Proof.
  intros Hi. rewrite <- (take_drop i es) at 1. rewrite body_app. f_equal. by rewrite (drop_S _ _ _ Hi), body_cons.
Qed.

Lemma between_entry i e : es !! i = Some e ->
  between data (off es i) restarts = enc e ++ body (drop (S i) es).
Proof.
  intros Hi. unfold between, off. pose proof (body_split i e Hi) as E.
  assert (Ed : data = body (take i es) ++ (enc e ++ body (drop (S i) es)) ++ restart_array ++ EncodeFixed32 num)
    by (unfold data, block_data; rewrite E; by rewrite <- !app_assoc).
  rewrite Ed, drop_app_length' by (unfold size; lia). apply take_app_length'.
  unfold restarts. rewrite E, !size_app. unfold size. rewrite length_app. lia.
Qed.

Lemma between_end : between data restarts restarts = [].
Proof. unfold between. by rewrite Z.sub_diag. Qed.

(** The offset of the last part of an entry. *)
Lemma delta_at i e : es !! i = Some e ->
  let p := drop (be_shared e) (be_key e) ++ be_val e ++ body (drop (S i) es) in
  bytes_at data (restarts - size p) (non_shared e) = Some (drop (be_shared e) (be_key e)) /\
  restarts - size p + non_shared e = off es (S i) - size (be_val e).
Proof.
  intros Hi p. pose proof (body_split i e Hi) as E. pose proof (off_S es i e Hi) as Eo.
  assert (Hok : ent_ok e) by (pose proof (ly_ok _ _ HL) as H; rewrite Forall_lookup in H; by apply (H i)).
  destruct Hok as [_ Hsh].
  assert (Hd : size (drop (be_shared e) (be_key e)) = non_shared e) by (unfold size, non_shared; by rewrite length_drop).
  set (V := EncodeVarint32 (Z.of_nat (be_shared e)) ++ EncodeVarint32 (non_shared e) ++ EncodeVarint32 (size (be_val e))).
  assert (Ee : enc e = V ++ drop (be_shared e) (be_key e) ++ be_val e) by (unfold enc, V; by rewrite <- !app_assoc).
  assert (Ep : restarts - size p = size (body (take i es) ++ V)).
  { unfold restarts. rewrite E, Ee. unfold p. rewrite !size_app. lia. }
  split.
  - rewrite Ep. unfold bytes_at. pose proof (size_nonneg (body (take i es) ++ V)).
    assert (Ed : data = (body (take i es) ++ V) ++ drop (be_shared e) (be_key e) ++ be_val e ++ body (drop (S i) es)
      ++ restart_array ++ EncodeFixed32 num).
    { unfold data, block_data. rewrite E, Ee. by rewrite <- !app_assoc. }
    destruct (Z.leb_spec 0 (size (body (take i es) ++ V))); [|lia].
    destruct (Z.leb_spec 0 (non_shared e)); [|unfold non_shared in *; lia].
    destruct (Z.leb_spec (size (body (take i es) ++ V) + non_shared e) (size data)) as [_|Hbad].
    + cbn [andb]. f_equal. rewrite Ed, drop_app_length' by (unfold size; lia). apply take_app_length'. unfold size in Hd. lia.
    + rewrite Ed, !size_app, Hd in Hbad. pose proof (size_nonneg (be_val e)). pose proof (size_nonneg (body (drop (S i) es))).
      pose proof (size_nonneg restart_array). pose proof (size_nonneg (EncodeFixed32 num)). lia.
  - unfold restarts, p. rewrite E, Eo, Ee. unfold off. rewrite !size_app, Hd. lia.
Qed.

Lemma ParseNextKey_spec it i : before_entry it i ->
  exists it', ParseNextKey data restarts num it = Ret (bool_decide (i < n)%nat, it') /\ AtPos it' i.
Proof.
  intros (j & a & Hj & [Hai Hin] & Hri & Hnext & Hst & Hlink). unfold ParseNextKey, bind at 1, get at 1. rewrite Hnext.
  cbn [need]. unfold bind at 1, ret at 1. unfold bind at 1, modify_iter at 1. pose proof (off_range i) as Hoff.
  case_bool_decide as Hi.
  - destruct (lookup_lt_is_Some_2 es i Hi) as [e He]. pose proof (off_S es i e He) as Eo.
    assert (Hok : ent_ok e) by (pose proof (ly_ok _ _ HL) as H; rewrite Forall_lookup in H; by apply (H i)).
    assert (Hlt : off es i < restarts).
    { unfold restarts. rewrite <- (off_end es n) by lia. by apply off_cmp. }
    destruct (Z.geb_spec (off es i) restarts); [lia|]. rewrite (between_entry i e He), DecodeEntry_enc; [|done|].
    2: { rewrite <- (between_entry i e He). unfold between, size. rewrite length_take. pose proof restarts_range. lia. }
    destruct (Hlink e He) as [Hs1 Hs2]. destruct Hok as [_ Hsh].
    destruct (Z.ltb_spec (size (key_ it)) (Z.of_nat (be_shared e))); [unfold size in *; lia|].
    destruct (delta_at i e He) as [Ed Ev]. cbv zeta in Ed, Ev. rewrite Ed, Ev. cbn [need].
    unfold bind at 1, ret at 1. unfold bind at 1, modify_iter at 1. cbn [key_ current_ restart_index_ status_ set_current].
    rewrite Nat2Z.id, Hs2, take_drop.
    match goal with |- context [bind _ _ ?s] => set (it1 := s) end.
    destruct (advance_spec (Z.to_nat num + 1) it1 j a i Hj Hai Hi) as (j' & E & Hb'); [done|done|unfold num; lia|].
    unfold bind. rewrite E. exists (with_index it1 j'). split; [done|]. split; [lia|]. rewrite decide_True by done.
    exists e, j'. by repeat split.
  - assert (Hn : i = n) by lia. assert (Eo : off es i = restarts) by (unfold restarts; rewrite Hn; by apply off_end).
    rewrite Eo. destruct (Z.geb_spec restarts restarts); [|lia].
    unfold bind, modify_iter, ret. eexists. split; [done|]. split; [lia|]. rewrite decide_False by done. by repeat split.
Qed.

(** * Operations *)

Lemma AtPos_status it i : AtPos it i -> status_ it = Status_OK.
Proof.
  intros [_ H]. destruct (decide (i < n)%nat); [by destruct H as (e & j & _ & _ & _ & _ & _ & _ & Hs)|by destruct H as (_ & _ & Hs)].
Qed.

Lemma AtPos_current it i : AtPos it i -> current_ it = off es i.
Proof.
  intros [Hi H]. destruct (decide (i < n)%nat) as [|Hge]; [by destruct H as (e & j & _ & _ & Hc & _)|].
  destruct H as (Hc & _). rewrite Hc. unfold restarts. symmetry. apply off_end. unfold n in *. lia.
Qed.

Lemma AtPos_valid it i : AtPos it i -> Iter_Valid restarts it = bool_decide (i < n)%nat.
Proof.
  intros HA. unfold Iter_Valid. rewrite (AtPos_current it i HA). destruct HA as [Hi _]. case_bool_decide as H.
  - apply Z.ltb_lt. unfold restarts. rewrite <- (off_end es n) by lia. by apply off_cmp.
  - apply Z.ltb_ge. unfold restarts. rewrite off_end by (unfold n in *; lia). lia.
Qed.

Lemma Next_spec it i : AtPos it i -> (i < n)%nat ->
  exists it', Iter_Next data restarts num it = Ret (tt, it') /\ AtPos it' (S i).
Proof.
  intros HA Hi. pose proof (AtPos_valid it i HA) as Hv. destruct HA as [_ HA]. rewrite decide_True in HA by done.
  unfold Iter_Next, bind at 1, get at 1. rewrite Hv, bool_decide_true by done. cbn [negb].
  destruct (ParseNextKey_spec it (S i) (at_before it i HA)) as (it' & E & H'). unfold bind. rewrite E. by exists it'.
Qed.

Lemma SeekToFirst_spec it : status_ it = Status_OK ->
  exists it', Iter_SeekToFirst data restarts num it = Ret (tt, it') /\ AtPos it' 0.
Proof.
  intros Hs. unfold Iter_SeekToFirst, bind.
  destruct (SeekToRestartPoint_spec it 0 0 (ly_first _ _ HL)) as (it1 & E1 & H1); [lia|done|].
  change (Z.of_nat 0) with 0 in E1. rewrite E1. destruct (ParseNextKey_spec it1 0 H1) as (it' & -> & H'). by exists it'.
Qed.

(** Parsing up to an offset where an entry ends. *)
Lemma parse_while_spec fuel : forall it i m,
  before_entry it i -> (i < m)%nat -> (m <= n)%nat -> (m - i <= fuel)%nat ->
  exists it', parse_while data restarts num fuel (off es m) it = Ret (tt, it') /\ AtPos it' (m - 1).
Proof.
  induction fuel as [|fuel IH]; intros it i m Hb Him Hm Hf; [lia|]. cbn [parse_while]. unfold bind at 1.
  destruct (ParseNextKey_spec it i Hb) as (it1 & -> & H1). rewrite bool_decide_true by lia.
  pose proof H1 as [_ HA]. rewrite decide_True in HA by lia. pose proof (at_before it1 i HA) as Hb1.
  unfold bind at 1, get at 1. destruct Hb1 as (j & a & Hj & Ha & Hr & Hn & Hs & Hl). rewrite Hn.
  cbn [need]. unfold bind at 1, ret at 1. destruct (Z.ltb_spec (off es (S i)) (off es m)) as [Hlt|Hge].
  - apply off_cmp in Hlt; [|lia|lia]. apply (IH it1 (S i) m); [by exists j, a|lia|done|lia].
  - exists it1. split; [done|]. replace (m - 1)%nat with i; [done|]. destruct (decide (S i < m)%nat); [|lia].
    assert (off es (S i) < off es m) by (apply off_cmp; lia). lia.
Qed.

Lemma scan_fuel_enough : (n < scan_fuel data)%nat.
Proof.
  assert (H : Z.of_nat n <= size (body es)).
  { unfold n. pose proof (ly_ok _ _ HL) as Hok. clear -Hok. induction Hok as [|e l He Hl IH]; [unfold size; cbn; lia|].
    rewrite body_cons, size_app. pose proof (enc_size e He). cbn [length]. lia. }
  pose proof data_size. pose proof num_pos. fold restarts in H. unfold scan_fuel, size in *. lia.
Qed.

Lemma last_restart : exists a, R !! (length R - 1)%nat = Some a /\ (a <= n)%nat /\ (0 < n -> a < n)%nat.
Proof.
  pose proof num_pos as Hp. unfold num in Hp. destruct (lookup_lt_is_Some_2 R (length R - 1)) as [a Ha]; [lia|].
  exists a. split; [done|]. destruct (length R - 1)%nat as [|k].
  - rewrite (ly_first _ _ HL) in Ha. injection Ha as <-. lia.
  - apply (ly_inside _ _ HL) in Ha. unfold n. lia.
Qed.

Lemma SeekToLast_spec it : status_ it = Status_OK ->
  exists it', Iter_SeekToLast data restarts num it = Ret (tt, it') /\ AtPos it' (n - 1).
Proof.
  intros Hs. unfold Iter_SeekToLast, bind. pose proof num_pos as Hp. unfold num in Hp.
  destruct last_restart as (a & Ha & Han & Hlt).
  replace (num - 1) with (Z.of_nat (length R - 1)) by (unfold num; lia).
  destruct (SeekToRestartPoint_spec it _ a Ha Han Hs) as (it1 & -> & H1).
  destruct (decide (n = 0)%nat) as [E0|Hne].
  - assert (a = 0)%nat as -> by lia. unfold scan_fuel. rewrite Nat.add_1_r. cbn [parse_while]. unfold bind.
    destruct (ParseNextKey_spec it1 0 H1) as (it' & -> & H'). rewrite bool_decide_false by lia. exists it'.
    split; [done|]. by rewrite E0.
  - assert (Er : restarts = off es n) by (unfold restarts; symmetry; by apply off_end).
    pose proof scan_fuel_enough as Hf.
    destruct (parse_while_spec (scan_fuel data) it1 a n H1) as (it' & E & H'); [lia|lia|lia|].
    rewrite <- Er in E. by exists it'.
Qed.

(** Going back to a restart point before the entry [i]. *)
Lemma Prev_restart_spec fuel : forall it j i,
  status_ it = Status_OK -> restart_index_ it = Z.of_nat j -> (j < length R)%nat -> (j < fuel)%nat -> (i <= n)%nat ->
  exists it', status_ it' = Status_OK /\
    ((i = 0)%nat /\ Prev_restart data restarts num fuel (off es i) it = Ret (false, it') /\ at_end it' \/
     exists j' a, Prev_restart data restarts num fuel (off es i) it = Ret (true, it') /\
       restart_index_ it' = Z.of_nat j' /\ R !! j' = Some a /\ (a < i)%nat).
Proof.
  induction fuel as [|fuel IH]; intros it j i Hs Hr Hj Hf Hi; [lia|].
  destruct (lookup_lt_is_Some_2 R j Hj) as [a Ha].
  assert (E : Prev_restart data restarts num (S fuel) (off es i) it =
    if off es a >=? off es i then
      if Z.of_nat j =? 0 then Ret (false, set_current restarts num it)
      else Prev_restart data restarts num fuel (off es i) (set_current (current_ it) (Z.of_nat j - 1) it)
    else Ret (true, it)).
  { cbn [Prev_restart]. unfold bind at 1, get at 1. rewrite Hr. unfold bind at 1.
    rewrite (GetRestartPoint_spec j a it Ha). destruct (_ >=? _); [|done].
    destruct (_ =? 0); [done|]. unfold bind, modify_iter. done. }
  rewrite E. clear E.
  assert (Han : (a <= n)%nat).
  { destruct j as [|j]; [rewrite (ly_first _ _ HL) in Ha; injection Ha as <-; lia|].
    apply (ly_inside _ _ HL) in Ha. unfold n. lia. }
  destruct (Z.geb_spec (off es a) (off es i)) as [Hge|Hlt].
  - destruct j as [|j]; cbn [Z.of_nat Z.eqb].
    + exists (set_current restarts num it). split; [done|]. left.
      rewrite (ly_first _ _ HL) in Ha. injection Ha as <-. split; [|by split].
      destruct i; [done|]. assert (off es 0 < off es (S i)) by (apply off_cmp; lia). lia.
    + apply (IH (set_current (current_ it) (Z.of_nat (S j) - 1) it) j i); [done|cbn; lia|lia|lia|done].
  - exists it. split; [done|]. right. exists j, a. split; [done|]. split; [done|]. split; [done|]. by apply off_cmp; [| |lia].
Qed.

Lemma Prev_spec it i : AtPos it i -> (i < n)%nat ->
  exists it', Iter_Prev data restarts num it = Ret (tt, it') /\ AtPos it' (match i with O => n | S j => j end).
Proof.
  intros HA Hi. pose proof (AtPos_valid it i HA) as Hv. pose proof HA as [_ HE]. rewrite decide_True in HE by done.
  destruct HE as (e & j & He & (a & Ha & Hai & _) & Hc & Hr & _ & _ & Hs).
  unfold Iter_Prev, bind at 1, get at 1. rewrite Hv, bool_decide_true by done. cbn [negb]. rewrite Hc.
  apply lookup_lt_Some in Ha as Hj. unfold bind at 1.
  destruct (Prev_restart_spec (Z.to_nat num + 1) it j i Hs Hr Hj) as (it1 & Hs1 & [(-> & -> & He1)|(j' & a' & -> & Hr1 & Ha' & Hlt)]);
    [unfold num; lia|lia|..].
  - exists it1. split; [done|]. split; [done|]. by rewrite decide_False by lia.
  - unfold bind at 1, get at 1. rewrite Hr1. unfold bind at 1.
    destruct (SeekToRestartPoint_spec it1 j' a' Ha') as (it2 & -> & H2); [lia|done|].
    destruct (parse_while_spec (scan_fuel data) it2 a' i H2) as (it3 & E3 & H3); [done|lia|pose proof scan_fuel_enough; lia|].
    exists it3. split; [done|]. destruct i; [lia|]. by replace (S i - 1)%nat with i in H3 by lia.
Qed.

(** * Seeking *)

Section Seek.
Context (cmp : Comparator) (ok : Slice -> Prop) `{OL : !OrderLaws (Compare cmp) ok}.
Context (Hok : Forall (fun e => ok (be_key e)) es).
Context (Hsorted : StronglySorted (fun a b => Compare cmp (be_key a) (be_key b) < 0) es).
Context (target : Slice) (Htarget : ok target).

Lemma sorted_before i j a b : es !! i = Some a -> es !! j = Some b -> (i <= j)%nat ->
  Compare cmp (be_key b) target < 0 -> Compare cmp (be_key a) target < 0.
Proof.
  intros Ha Hb Hij Hlt. destruct (decide (i = j)) as [->|Hne]; [congruence|].
  rewrite Forall_lookup in Hok. apply (cmp_lt_trans _ (be_key b)); [by apply (Hok i)|by apply (Hok j)|done| |done].
  rewrite <- (take_drop j es) in Hsorted. pose proof (lookup_lt_Some _ _ _ Hb).
  apply (StronglySorted_app_1_elem_of _ _ _ a b Hsorted).
  - apply (list_elem_of_lookup_2 _ i). by rewrite lookup_take_lt by lia.
  - apply (list_elem_of_lookup_2 _ 0%nat). by rewrite lookup_drop, Nat.add_0_r.
Qed.

(** All entries before the entry [i] are before the target. *)
Definition all_before (i : nat) : Prop := forall j e, (j < i)%nat -> es !! j = Some e -> Compare cmp (be_key e) target < 0.

(** The key at a restart point. *)
Lemma restart_key j a e (it : Iter) : R !! j = Some a -> es !! a = Some e ->
  exists p, DecodeEntry (between data (off es a) restarts) = Some (0, non_shared e, size (be_val e), p) /\
    bytes_at data (restarts - size p) (non_shared e) = Some (be_key e).
Proof.
  intros Hj He. assert (E0 : be_shared e = O) by (apply (ly_restart _ _ HL a); [by apply list_elem_of_lookup_2 in Hj|done]).
  pose proof (off_range a).
  rewrite (between_entry a e He), DecodeEntry_enc.
  - exists (drop (be_shared e) (be_key e) ++ be_val e ++ body (drop (S a) es)). destruct (delta_at a e He) as [Ed _].
    cbv zeta in Ed. rewrite Ed. rewrite E0. done.
  - pose proof (ly_ok _ _ HL) as H'. rewrite Forall_lookup in H'. by apply (H' a).
  - rewrite <- (between_entry a e He). unfold between, size. rewrite length_take. pose proof restarts_range. lia.
Qed.

Lemma num_small : num < 2 ^ 30.
Proof. pose proof data_size. pose proof restarts_range. fold data in Hsize. lia. Qed.

Lemma Seek_restart_spec fuel : forall it left_ right_,
  (left_ <= right_)%nat -> (right_ < length R)%nat -> (right_ - left_ <= fuel)%nat ->
  (forall a, R !! left_ = Some a -> all_before a) ->
  exists j, Seek_restart cmp data restarts num fuel target (Z.of_nat left_) (Z.of_nat right_) it =
      Ret (Some (Z.of_nat j), it) /\ (j < length R)%nat /\ (forall a, R !! j = Some a -> all_before a).
Proof.
  induction fuel as [|fuel IH]; intros it l r Hlr Hr Hf Hb; cbn [Seek_restart];
    (destruct (Z.ltb_spec (Z.of_nat l) (Z.of_nat r)) as [Hlt|Hge]; [|exists l; split; [done|split; [lia|done]]]); [lia|].
  pose proof num_small as Hnum. unfold num in Hnum.
  assert (Em : u32 (u32 (Z.of_nat l + Z.of_nat r) + 1) / 2 = Z.of_nat ((l + r + 1) / 2)).
  { rewrite (wrap_small 32 (Z.of_nat l + Z.of_nat r)), (wrap_small 32 (_ + 1)), Nat2Z.inj_div by lia. f_equal; lia. }
  rewrite Em. set (mid := ((l + r + 1) / 2)%nat).
  assert (Hmid : (l < mid <= r)%nat).
  { unfold mid. split.
    - apply Nat.div_le_lower_bound; lia.
    - assert ((l + r + 1) / 2 < r + 1)%nat by (apply Nat.Div0.div_lt_upper_bound; lia). lia. }
  clearbody mid. destruct (lookup_lt_is_Some_2 R mid) as [a Ha]; [lia|].
  assert (Han : (a < n)%nat) by (destruct mid as [|k]; [lia|]; by apply (ly_inside _ _ HL k)).
  destruct (lookup_lt_is_Some_2 es a Han) as [e He].
  unfold bind at 1. rewrite (GetRestartPoint_spec mid a it Ha).
  destruct (restart_key mid a e it Ha He) as (p & -> & Ep). cbn [Z.eqb negb]. rewrite Ep. cbn [need].
  unfold bind at 1, ret at 1. destruct (Z.ltb_spec (Compare cmp (be_key e) target) 0) as [Hc|Hc].
  - apply IH; [lia|done|lia|]. intros a' Ha'. rewrite Ha in Ha'. injection Ha' as <-.
    intros i e' Hi He'. apply (sorted_before i a e' e He' He); [lia|done].
  - replace (Z.of_nat mid - 1) with (Z.of_nat (mid - 1)) by lia. apply IH; [lia|lia|lia|done].
Qed.

Lemma Seek_scan_spec fuel : forall it i,
  before_entry it i -> all_before i -> (i <= n)%nat -> (n - i < fuel)%nat ->
  exists it' m, Seek_scan cmp data restarts num fuel target it = Ret (tt, it') /\ AtPos it' m /\ all_before m /\
    forall e, es !! m = Some e -> 0 <= Compare cmp (be_key e) target.
Proof.
  induction fuel as [|fuel IH]; intros it i Hbe Hall Hi Hf; [lia|]. cbn [Seek_scan]. unfold bind at 1.
  destruct (ParseNextKey_spec it i Hbe) as (it1 & -> & H1). case_bool_decide as Hlt; cbn [negb].
  - pose proof H1 as [_ HE]. rewrite decide_True in HE by done. pose proof (at_before it1 i HE) as Hb1.
    destruct HE as (e & j & He & _ & _ & _ & Hk & _). unfold bind, get. rewrite Hk.
    destruct (Z.geb_spec (Compare cmp (be_key e) target) 0) as [Hge|Hlt'].
    + exists it1, i. split; [done|]. split; [done|]. split; [done|]. intros e' He'. congruence.
    + apply (IH it1 (S i)); [done| |lia|lia]. intros k e' Hk' He'.
      destruct (decide (k = i)) as [->|]; [congruence|]. apply (Hall k e'); [lia|done].
  - exists it1, i. split; [done|]. split; [done|]. split; [done|]. intros e He. apply lookup_lt_Some in He. unfold n in *. lia.
Qed.

Lemma all_before_take m : all_before m -> Forall (fun e => Compare cmp (be_key e) target < 0) (take m es).
Proof.
  intros H. apply Forall_lookup. intros i e He. apply lookup_take_Some in He as [He Hi]. by apply (H i).
Qed.

Lemma after_drop m : (forall e, es !! m = Some e -> 0 <= Compare cmp (be_key e) target) ->
  Forall (fun e => 0 <= Compare cmp (be_key e) target) (drop m es).
Proof.
  intros H. apply Forall_lookup. intros i e He. rewrite lookup_drop in He.
  destruct (Z.le_gt_cases 0 (Compare cmp (be_key e) target)) as [|Hlt]; [done|].
  pose proof (lookup_lt_Some _ _ _ He). destruct (lookup_lt_is_Some_2 es m) as [e0 He0]; [lia|].
  pose proof (sorted_before m (m + i) e0 e He0 He ltac:(lia) Hlt). specialize (H e0 He0). lia.
Qed.

Lemma Seek_spec it : status_ it = Status_OK ->
  exists it' m, Iter_Seek cmp data restarts num target it = Ret (tt, it') /\ AtPos it' m /\
    Forall (fun e => Compare cmp (be_key e) target < 0) (take m es) /\
    Forall (fun e => 0 <= Compare cmp (be_key e) target) (drop m es).
Proof.
  intros Hs. unfold Iter_Seek, bind at 1. pose proof num_pos as Hp. unfold num in Hp.
  destruct (Seek_restart_spec (Z.to_nat num) it 0 (length R - 1)) as (j & E & Hj & Hall); [lia|lia|unfold num; lia| |].
  { intros a Ha. rewrite (ly_first _ _ HL) in Ha. injection Ha as <-. intros i e Hi. lia. }
  replace (Z.of_nat (length R - 1)) with (num - 1) in E by (unfold num; lia). change (Z.of_nat 0) with 0 in E. rewrite E.
  destruct (lookup_lt_is_Some_2 R j Hj) as [a Ha].
  assert (Han : (a <= n)%nat).
  { destruct j as [|k]; [rewrite (ly_first _ _ HL) in Ha; injection Ha as <-; lia|].
    apply (ly_inside _ _ HL) in Ha. unfold n. lia. }
  unfold bind at 1. destruct (SeekToRestartPoint_spec it j a Ha Han Hs) as (it1 & -> & H1).
  destruct (Seek_scan_spec (scan_fuel data) it1 a H1) as (it2 & m & E2 & H2 & Hb & Hge); [by apply Hall|done| |].
  { pose proof scan_fuel_enough. lia. }
  exists it2, m. split; [done|]. split; [done|]. split; [by apply all_before_take|by apply after_drop].
Qed.
End Seek.

(** * The iterator over the entries *)

Definition kvs_of : list (Slice * Slice) := map (fun e => (be_key e, be_val e)) es.

Lemma kvs_length : length kvs_of = n.
Proof. unfold kvs_of. by rewrite length_map. Qed.

Lemma kvs_lookup i k v : kvs_of !! i = Some (k, v) -> exists e, es !! i = Some e /\ be_key e = k /\ be_val e = v.
Proof. unfold kvs_of. rewrite list_lookup_fmap. destruct (es !! i) as [e|]; [|done]. intros [= <- <-]. by exists e. Qed.

Lemma key_spec it i k v : AtPos it i -> kvs_of !! i = Some (k, v) -> Iter_key restarts it = Ret (k, it).
Proof.
  intros HA Hk. destruct (kvs_lookup i k v Hk) as (e & He & <- & _). apply lookup_lt_Some in He as Hi. fold n in Hi.
  unfold Iter_key, bind, get. rewrite (AtPos_valid it i HA), bool_decide_true by done. cbn [negb].
  destruct HA as [_ HE]. rewrite decide_True in HE by done. destruct HE as (e' & j & He' & _ & _ & _ & Hkey & _).
  rewrite Hkey. by simplify_eq.
Qed.

Lemma value_spec it i k v : AtPos it i -> kvs_of !! i = Some (k, v) -> Iter_value data restarts it = Ret (v, it).
Proof.
  intros HA Hk. destruct (kvs_lookup i k v Hk) as (e & He & _ & <-). apply lookup_lt_Some in He as Hi. fold n in Hi.
  unfold Iter_value, bind, get. rewrite (AtPos_valid it i HA), bool_decide_true by done. cbn [negb].
  destruct HA as [_ HE]. rewrite decide_True in HE by done. destruct HE as (e' & j & He' & _ & _ & _ & _ & Hv & _).
  rewrite Hv. rewrite He in He'. injection He' as <-. pose proof (body_split i e He) as E. pose proof (off_S es i e He) as Eo.
  set (pre := body (take i es) ++ EncodeVarint32 (Z.of_nat (be_shared e)) ++ EncodeVarint32 (non_shared e)
    ++ EncodeVarint32 (size (be_val e)) ++ drop (be_shared e) (be_key e)).
  assert (Ed : data = pre ++ be_val e ++ body (drop (S i) es) ++ restart_array ++ EncodeFixed32 num).
  { unfold data, block_data, pre. rewrite E. unfold enc. by rewrite <- !app_assoc. }
  assert (Ep : off es (S i) - size (be_val e) = size pre).
  { rewrite Eo. unfold pre, enc, off. rewrite !size_app. lia. }
  rewrite Ep. unfold bytes_at. pose proof (size_nonneg pre). pose proof (size_nonneg (be_val e)).
  destruct (Z.leb_spec 0 (size pre)); [|lia]. destruct (Z.leb_spec 0 (size (be_val e))); [|lia].
  assert (Hle : size pre + size (be_val e) <=? size data = true).
  { apply Z.leb_le. rewrite Ed, !size_app. pose proof (size_nonneg (body (drop (S i) es))).
    pose proof (size_nonneg restart_array). pose proof (size_nonneg (EncodeFixed32 num)). lia. }
  rewrite Hle. cbn [andb need]. rewrite Ed, drop_app_length' by (unfold size; lia).
  by rewrite take_app_length' by (unfold size; lia).
Qed.

Section Laws.
Context (cmp : Comparator) (ok : Slice -> Prop) `{OL : !OrderLaws (Compare cmp) ok}.
Context (Hok : Forall (fun e => ok (be_key e)) es).
Context (Hsorted : StronglySorted (fun a b => Compare cmp (be_key a) (be_key b) < 0) es).

Lemma Block_Iter_laws :
  IteratorLaws Iter (Compare cmp) ok kvs_of (H := Block_Iter cmp data restarts num) AtPos.
Proof.
  constructor; intros it i; try rewrite kvs_length.
  - by intros [Hi _].
  - apply AtPos_valid.
  - apply AtPos_status.
  - intros k v. apply key_spec.
  - intros k v. apply value_spec.
  - intros HA. by apply SeekToFirst_spec, (AtPos_status it i).
  - intros HA. by apply SeekToLast_spec, (AtPos_status it i).
  - apply Next_spec.
  - apply Prev_spec.
  - intros target HA Ht.
    destruct (Seek_spec cmp ok Hok Hsorted target Ht it (AtPos_status it i HA)) as (it' & m & E & H' & H1 & H2).
    exists it', m. split; [done|]. split; [done|]. unfold kvs_of. rewrite firstn_map, skipn_map, !Forall_map. by split.
Qed.

(** The number of restart points ends the block. *)
Lemma NumRestarts_at_end : NumRestarts_at data (size data) = num.
Proof.
  pose proof data_size as Hd. pose proof num_small. pose proof num_pos.
  unfold NumRestarts_at. assert (Ed : drop (Z.to_nat (size data - 4)) data = EncodeFixed32 num).
  { assert (E : size (body es ++ restart_array) = size data - 4) by (rewrite size_app, restart_array_size; fold restarts; lia).
    rewrite <- E. unfold data, block_data. rewrite app_assoc. apply drop_app_length'. unfold size. lia. }
  rewrite Ed, <- (app_nil_r (EncodeFixed32 num)). apply DecodeFixed32_app. lia.
Qed.

(** The block read back. *)
Lemma Block_new_spec : Block_new data = {| data_ := data; size_ := size data; restart_offset_ := restarts |}.
Proof.
  pose proof data_size as Hd. pose proof restarts_range. pose proof num_pos. pose proof num_small. fold data in Hsize.
  unfold Block_new. destruct (Z.ltb_spec (size data) 4); [lia|]. rewrite NumRestarts_at_end.
  destruct (Z.gtb_spec num ((size data - 4) / 4)) as [Hg|_].
  - rewrite Hd in Hg. replace (restarts + num * 4 + 4 - 4) with (num * 4 + restarts) in Hg by lia.
    rewrite Z.div_add_l in Hg by lia. pose proof (Z.div_pos restarts 4). lia.
  - f_equal. rewrite wrap_small by lia. lia.
Qed.

Lemma NewIterator_spec :
  exists it, Block_NewIterator (Block_new data) = NewIter (Some it) restarts num /\ AtPos it n.
Proof.
  pose proof data_size as Hd. pose proof restarts_range. pose proof num_pos. pose proof num_small.
  rewrite Block_new_spec. unfold Block_NewIterator, NumRestarts. cbn [size_ data_ restart_offset_].
  destruct (Z.ltb_spec (size data) 4); [lia|].
  rewrite NumRestarts_at_end. destruct (Z.eqb_spec num 0); [lia|]. unfold Iter_new. destruct (Z.gtb_spec num 0); [|lia].
  eexists. split; [done|]. split; [done|]. rewrite decide_False by lia. by repeat split.
Qed.
End Laws.
End Iter.

(** * Properties

    Blocks written and read back: what the builder makes of a sorted list of
    entries, and what the iterator of that block returns. *)

(** [Add] for every entry, in order. *)
Definition add_entries (interval : Z) (cmp : Comparator) (b : BlockBuilder) (kvs : list (Slice * Slice)) : option BlockBuilder :=
  foldl (fun o kv => b ← o; BlockBuilder_Add interval cmp b kv.1 kv.2) (Some b) kvs.

(** A bound of a block's size: three lengths of five bytes at most with every
    entry, and a restart point of four. *)
Definition block_cost (kvs : list (Slice * Slice)) : Z :=
  foldr (fun kv n => size kv.1 + size kv.2 + 19 + n) 8 kvs.

Lemma block_cost_cons kv l : block_cost (kv :: l) = size kv.1 + size kv.2 + 19 + block_cost l.
Proof. done. Qed.

Lemma block_cost_pos kvs : 8 <= block_cost kvs.
Proof.
  induction kvs as [|[k v] kvs IH]; [done|]. rewrite block_cost_cons.
  pose proof (size_nonneg k). pose proof (size_nonneg v). cbn [fst snd]. lia.
Qed.

Lemma block_cost_app l1 l2 : block_cost (l1 ++ l2) = block_cost l1 + block_cost l2 - 8.
Proof.
  induction l1 as [|kv l1 IH]; [cbn [app]; change (block_cost []) with 8; lia|].
  cbn [app]. rewrite !block_cost_cons. lia.
Qed.

Lemma enc_size_le e : ent_ok e -> size (enc e) <= size (be_key e) + size (be_val e) + 15.
Proof.
  intros [Hs Hsh]. pose proof (size_nonneg (be_val e)). pose proof (size_nonneg (be_key e)).
  assert (B : forall x, 0 <= x < 2 ^ 32 -> size (EncodeVarint32 x) <= 5).
  { intros x Hx. pose proof (EncodeVarint32_length x Hx). unfold size. lia. }
  unfold enc. rewrite !size_app.
  pose proof (B (Z.of_nat (be_shared e)) ltac:(unfold size in *; lia)).
  pose proof (B (non_shared e) ltac:(unfold non_shared, size in *; lia)).
  pose proof (B (size (be_val e)) ltac:(lia)).
  assert (size (drop (be_shared e) (be_key e)) <= size (be_key e)) by (unfold size; rewrite length_drop; lia). lia.
Qed.

Lemma body_cost es : Forall ent_ok es -> size (body es) + 4 * Z.of_nat (length es) + 8 <= block_cost (kvs_of es).
Proof.
  induction 1 as [|e es He _ IH]; [done|]. rewrite body_cons, size_app. pose proof (enc_size_le e He).
  cbn [kvs_of map length]. fold (kvs_of es). rewrite block_cost_cons. cbn [fst snd]. lia.
Qed.

(** Restart points are at distinct entries. *)
Lemma restarts_le es R : Layout es R -> (length R <= Nat.max 1 (length es))%nat.
Proof.
  intros HL. assert (H : forall j a, R !! j = Some a -> (j <= a)%nat).
  { induction j as [|j IH]; intros a Ha; [lia|].
    destruct (lookup_lt_is_Some_2 R j) as [b Hb]; [apply lookup_lt_Some in Ha; lia|].
    pose proof (ly_increasing _ _ HL j b a Hb Ha). specialize (IH b Hb). lia. }
  destruct (decide (length R <= 1)%nat); [lia|]. destruct (length R) as [|[|k]] eqn:E; [lia|lia|].
  destruct (lookup_lt_is_Some_2 R (S k)) as [a Ha]; [lia|].
  pose proof (ly_inside _ _ HL k a Ha). specialize (H _ _ Ha). lia.
Qed.

Lemma block_data_cost es R : Layout es R -> size (block_data es R) <= block_cost (kvs_of es).
Proof.
  intros HL. rewrite data_size. pose proof (body_cost es (ly_ok _ _ HL)). pose proof (restarts_le es R HL).
  destruct es as [|e es]; [cbn in *; lia|]. cbn [length] in *. lia.
Qed.

Section Build.
Context (interval : Z) (cmp : Comparator) (ok : Slice -> Prop) `{OL : !OrderLaws (Compare cmp) ok}.
Hypothesis Hinterval : 1 <= interval.

Definition key_lt (a b : Slice * Slice) : Prop := Compare cmp a.1 b.1 < 0.

Lemma add_entries_app b l1 l2 :
  add_entries interval cmp b (l1 ++ l2) = (b1 ← add_entries interval cmp b l1; add_entries interval cmp b1 l2).
Proof.
  unfold add_entries. rewrite foldl_app. destruct (foldl _ _ l1) as [b1|]; [done|]. cbn [mbind option_bind].
  induction l2 as [|x l2 IH]; [done|]. cbn [foldl]. done.
Qed.

Lemma add_entries_spec kvs :
  StronglySorted key_lt kvs -> Forall (fun kv => ok kv.1) kvs -> block_cost kvs < 2 ^ 32 ->
  exists b es R, add_entries interval cmp BlockBuilder_Reset kvs = Some b /\ Built interval b es R /\ kvs_of es = kvs.
Proof.
  induction kvs as [|[k v] kvs IH] using rev_ind; intros HS Hk Hc.
  - exists BlockBuilder_Reset, [], [0%nat]. split; [done|]. split; [|done]. by apply Reset_built.
  - rewrite block_cost_app, block_cost_cons in Hc. pose proof (block_cost_pos kvs). pose proof (size_nonneg k). pose proof (size_nonneg v).
    change (block_cost []) with 8 in Hc. cbn [fst snd] in Hc. apply Forall_app in Hk as [Hk Hk1]. apply Forall_inv in Hk1.
    destruct IH as (b & es & R & E & HB & Hes); [by eapply StronglySorted_app_1_l|done|lia|].
    pose proof (body_cost es (ly_ok _ _ (bt_layout _ _ _ _ HB))) as Hbc. rewrite Hes in Hbc.
    destruct (BlockBuilder_Add_spec interval cmp Hinterval b es R k v HB) as (b' & e & R' & E' & HB' & Ek & Ev); [lia|lia| |].
    + intros Hne. destruct (length es) as [|m] eqn:Em; [by apply nil_length_inv in Em|]. cbn [key_before].
      destruct (lookup_lt_is_Some_2 es m) as [e He]; [lia|]. rewrite He.
      assert (Hin : (be_key e, be_val e) ∈ kvs).
      { rewrite <- Hes. unfold kvs_of. apply list_elem_of_lookup. exists m. by rewrite list_lookup_fmap, He. }
      assert (Hlt : key_lt (be_key e, be_val e) (k, v)).
      { eapply StronglySorted_app_1_elem_of; [exact HS|done|by apply list_elem_of_singleton]. }
      unfold key_lt in Hlt. cbn [fst] in Hlt. rewrite Forall_forall in Hk. specialize (Hk _ Hin). cbn [fst] in Hk, Hk1.
      pose proof (cmp_flip k (be_key e) Hk1 Hk). lia.
    + exists b', (es ++ [e]), R'. split.
      * rewrite add_entries_app, E. cbn [mbind option_bind add_entries foldl fst snd]. done.
      * split; [done|]. unfold kvs_of in *. rewrite map_app, Hes. cbn [map]. by rewrite Ek, Ev.
Qed.

(** [Finish] appends the restart points and their number. *)
Lemma Finish_spec b es R : Built interval b es R -> size (block_data es R) < 2 ^ 32 ->
  (BlockBuilder_Finish b).1 = block_data es R.
Proof.
  intros [HL Hb Hr _ _ _] Hsz. unfold BlockBuilder_Finish. cbn [fst]. rewrite Hr, length_map.
  pose proof (data_size es R) as Hd. pose proof (size_nonneg (body es)). rewrite wrap_small by lia.
  unfold PutFixed32, block_data. rewrite app_assoc. f_equal. rewrite Hb. unfold restart_array. generalize (body es) as buf.
  clear. induction R as [|a R IH]; intros buf; cbn [map fold_left concat]; [by rewrite app_nil_r|].
  by rewrite IH, app_assoc.
Qed.
End Build.

(** A block from its entries: the constructor, [Add] for each, [Finish]. *)
Definition build_block (interval : Z) (cmp : Comparator) (kvs : list (Slice * Slice)) : option Slice :=
  b ← BlockBuilder_new interval;
  b ← add_entries interval cmp b kvs;
  Some (BlockBuilder_Finish b).1.

Lemma build_block_spec interval cmp ok `{OL : !OrderLaws (Compare cmp) ok} kvs :
  1 <= interval -> StronglySorted (key_lt cmp) kvs -> Forall (fun kv => ok kv.1) kvs -> block_cost kvs < 2 ^ 32 ->
  exists es R, build_block interval cmp kvs = Some (block_data es R) /\ Layout es R /\ kvs_of es = kvs.
Proof.
  intros Hi HS Hk Hc. destruct (add_entries_spec interval cmp ok Hi kvs HS Hk Hc) as (b & es & R & E & HB & Hes).
  exists es, R. unfold build_block, BlockBuilder_new. destruct (Z.geb_spec interval 1); [|lia]. cbn [mbind option_bind]. rewrite E.
  cbn [mbind option_bind]. pose proof (bt_layout _ _ _ _ HB) as HL. split; [|done]. f_equal.
  apply (Finish_spec interval); [done|]. pose proof (block_data_cost es R HL) as Hb. rewrite Hes in Hb. lia.
Qed.

(** The entries of a layout are as sorted as their pairs. *)
Lemma kvs_sorted cmp es : StronglySorted (key_lt cmp) (kvs_of es) ->
  StronglySorted (fun a b => Compare cmp (be_key a) (be_key b) < 0) es.
Proof.
  induction es as [|e es IH]; cbn [kvs_of map]; [constructor|]. intros HS. apply StronglySorted_inv in HS as [HS HF].
  constructor; [by apply IH|]. rewrite Forall_map in HF. exact HF.
Qed.

(** What is read from an iterator that keeps the laws. *)
Lemma reads_back {I} `{HI : Iterator I} cmp ok kvs (At : I -> nat -> Prop) {L : IteratorLaws I cmp ok kvs At} it i target :
  At it i -> ok target ->
  (exists it', collect (S (length kvs)) it = Ret (kvs, it')) /\
  (exists it', collect_back (S (length kvs)) it = Ret (reverse kvs, it')) /\
  exists it' it'' m, iter_Seek target it = Ret (tt, it') /\ walk (S (length kvs)) it' = Ret (drop m kvs, it'') /\
    Forall (fun kv => cmp kv.1 target < 0) (take m kvs) /\ Forall (fun kv => 0 <= cmp kv.1 target) (drop m kvs).
Proof.
  intros HA Ht. split; [|split].
  - destruct (collect_spec (S (length kvs)) it i HA) as (it' & E & _); [lia|]. by exists it'.
  - destruct (collect_back_spec (S (length kvs)) it i HA) as (it' & E & _); [lia|]. by exists it'.
  - destruct (it_seek it i target HA Ht) as (it' & m & E & HA' & Hlo & Hhi).
    destruct (walk_spec (S (length kvs)) it' m HA') as (it'' & E' & _); [lia|]. by exists it', it'', m.
Qed.

(** C21: a block round trip: [BlockBuilder] given entries whose keys increase,
    at any restart interval, refuses none of them, and the block it finishes,
    read back through [Block] and its iterator, gives the entries in order from
    [SeekToFirst] and [Next], in reverse from [SeekToLast] and [Prev], and after
    [Seek] exactly the entries whose keys are not before the target. *)
Theorem Block_roundtrip interval cmp ok `{OL : !OrderLaws (Compare cmp) ok} kvs target :
  1 <= interval -> StronglySorted (key_lt cmp) kvs -> Forall (fun kv => ok kv.1) kvs -> block_cost kvs < 2 ^ 32 ->
  ok target ->
  exists data it restarts num,
    build_block interval cmp kvs = Some data /\ size data <= block_cost kvs /\
    Block_NewIterator (Block_new data) = NewIter (Some it) restarts num /\
    let _ := Block_Iter cmp data restarts num in
    (exists it', collect (S (length kvs)) it = Ret (kvs, it')) /\
    (exists it', collect_back (S (length kvs)) it = Ret (reverse kvs, it')) /\
    exists it' it'' m, Iter_Seek cmp data restarts num target it = Ret (tt, it') /\
      walk (S (length kvs)) it' = Ret (drop m kvs, it'') /\
      Forall (fun kv => Compare cmp kv.1 target < 0) (take m kvs) /\
      Forall (fun kv => 0 <= Compare cmp kv.1 target) (drop m kvs).
Proof.
  intros Hi HS Hk Hc Ht. destruct (build_block_spec interval cmp ok kvs Hi HS Hk Hc) as (es & R & E & HL & <-).
  pose proof (block_data_cost es R HL) as Hs. destruct (NewIterator_spec es R HL) as (it & En & HA); [lia|].
  exists (block_data es R), it. do 2 eexists. split; [done|]. split; [done|]. split; [exact En|].
  apply (reads_back (HI := Block_Iter cmp (block_data es R) _ _) _ ok _ _ (L := Block_Iter_laws es R HL ltac:(lia) cmp ok
    ltac:(unfold kvs_of in Hk; by rewrite Forall_map in Hk) ltac:(by apply kvs_sorted)) it (length es)); done.
Qed.

(** Concrete lists: sorted, and of byte strings. *)
Ltac solve_sorted :=
  repeat first [apply SSorted_nil | apply SSorted_cons | apply Forall_nil_2 | apply Forall_cons_2]; vm_compute; reflexivity.
Ltac solve_keys := repeat first [apply Forall_nil_2 | apply Forall_cons_2]; cbn [fst]; solve_bytes.

Definition sample_entries : list (Slice * Slice) :=
  [(chars "apple", chars "1"); (chars "apply", chars "2"); (chars "apt", []); (chars "bar", chars "4")].

Lemma Block_roundtrip_witness :
  1 <= 2 /\
  exists data it restarts num,
    build_block 2 BytewiseComparator sample_entries = Some data /\
    Block_NewIterator (Block_new data) = NewIter (Some it) restarts num /\
    let _ := Block_Iter BytewiseComparator data restarts num in
    exists it', collect 5 it = Ret (sample_entries, it').
Proof.
  split; [lia|].
  destruct (Block_roundtrip 2 BytewiseComparator is_bytes sample_entries (chars "apq")) as (data & it & r & n & E & _ & En & C & _).
  - lia.
  - solve_sorted.
  - solve_keys.
  - by vm_compute.
  - solve_bytes.
  - exists data, it, r, n. split; [exact E|]. split; [exact En|]. exact C.
Defined.

(** * Damaged blocks *)

(** The sum of the two lengths of an entry, taken modulo [2^32], passes
    [DecodeEntry]'s check, and the key is then read from past the block. *)
Definition overflowing_entry : Slice :=
  EncodeVarint32 0 ++ EncodeVarint32 (2 ^ 32 - 1) ++ EncodeVarint32 1 ++ chars "x".

Example damaged_lengths_accepted :
  exists p, DecodeEntry overflowing_entry = Some (0, 2 ^ 32 - 1, 1, p) /\ size p = 1.
Proof. eexists. by vm_compute. Qed.

(** A block with this entry and one restart point: [SeekToFirst] reads outside it. *)
Definition overflowing_block : Slice := overflowing_entry ++ EncodeFixed32 0 ++ EncodeFixed32 1.

Example damaged_block_read_outside :
  match Block_NewIterator (Block_new overflowing_block) with
  | NewIter (Some it) restarts num => Iter_SeekToFirst overflowing_block restarts num it = Undef
  | _ => False
  end.
Proof. by vm_compute. Qed.
