(* ===== verification/LvFilterBlock.v ===== *)
(** Filter blocks ([table/filter_block.cc]): one filter for the keys of all data
    blocks that start in the same two kilobytes of a table; its builder, its
    reader, and that the reader never denies a key the builder was given. *)

From stdpp Require Import base list gmap strings sorting.
From Stdlib Require Import ZArith Lia.
From S2P Require Import Prelude LvSlice LvCoding LvBloom.

(** * The code *)

Definition kFilterBaseLg : Z := 11.
Definition kFilterBase : Z := Z.shiftl 1 kFilterBaseLg.

(** The members that outlive a call; [tmp_keys_] does not. *)
Record FilterBlockBuilder : Type := {
  keys_ : Slice; start_ : list Z; result_ : Slice; filter_offsets_ : list Z
}.

Definition FilterBlockBuilder_new : FilterBlockBuilder :=
  {| keys_ := []; start_ := []; result_ := []; filter_offsets_ := [] |}.

Section Builder.
Variable policy : FilterPolicy.

Definition GenerateFilter (b : FilterBlockBuilder) : FilterBlockBuilder :=
  let num_keys := length (start_ b) in
  let offsets := filter_offsets_ b ++ [u32 (size (result_ b))] in
  if (num_keys =? 0)%nat then
    {| keys_ := keys_ b; start_ := start_ b; result_ := result_ b; filter_offsets_ := offsets |}
  else
    let start := start_ b ++ [size (keys_ b)] in
    let tmp_keys := map (fun i =>
      let base := nth i start 0 in
      take (Z.to_nat (nth (S i) start 0 - base)) (drop (Z.to_nat base) (keys_ b))) (seq 0 num_keys) in
    {| keys_ := []; start_ := []; result_ := CreateFilter policy tmp_keys (result_ b); filter_offsets_ := offsets |}.

(** [while (filter_index > filter_offsets_.size())]; every round adds one. *)
Fixpoint StartBlock_loop (fuel : nat) (filter_index : Z) (b : FilterBlockBuilder) : option FilterBlockBuilder :=
  if filter_index >? Z.of_nat (length (filter_offsets_ b)) then
    match fuel with
    | O => None
    | S fuel => StartBlock_loop fuel filter_index (GenerateFilter b)
    end
  else Some b.

(** [None]: the assertion fails. *)
Definition StartBlock (block_offset : Z) (b : FilterBlockBuilder) : option FilterBlockBuilder :=
  let filter_index := block_offset / kFilterBase in
  if filter_index >=? Z.of_nat (length (filter_offsets_ b))
  then StartBlock_loop (Z.to_nat filter_index - length (filter_offsets_ b)) filter_index b
  else None.

Definition AddKey (key : Slice) (b : FilterBlockBuilder) : FilterBlockBuilder :=
  {| keys_ := keys_ b ++ key; start_ := start_ b ++ [size (keys_ b)]; result_ := result_ b;
     filter_offsets_ := filter_offsets_ b |}.

Definition FilterBlock_Finish (b : FilterBlockBuilder) : Slice * FilterBlockBuilder :=
  let b := match start_ b with [] => b | _ => GenerateFilter b end in
  let array_offset := u32 (size (result_ b)) in
  let result := fold_left (fun r o => PutFixed32 r o) (filter_offsets_ b) (result_ b) in
  let result := PutFixed32 result array_offset ++ [kFilterBaseLg] in
  (result, {| keys_ := keys_ b; start_ := start_ b; result_ := result; filter_offsets_ := filter_offsets_ b |}).

(** [data_] and [offset_] as the bytes they point to and the distance between
    them. *)
Record FilterBlockReader : Type := { data_ : Slice; offset_ : Z; num_ : Z; base_lg_ : Z }.

Definition FilterBlockReader_new (contents : Slice) : FilterBlockReader :=
  let n := size contents in
  if n <? 5 then {| data_ := []; offset_ := 0; num_ := 0; base_lg_ := 0 |}
  else
    let base_lg := u64 (sext 8 (nth (Z.to_nat (n - 1)) contents 0)) in
    let last_word := DecodeFixed32 (drop (Z.to_nat (n - 5)) contents) in
    if last_word >? n - 5 then {| data_ := []; offset_ := 0; num_ := 0; base_lg_ := base_lg |}
    else {| data_ := contents; offset_ := last_word; num_ := (n - 5 - last_word) / 4; base_lg_ := base_lg |}.

(** [None]: a 64-bit number shifted by 64 or more. *)
Definition FilterBlock_KeyMayMatch (r : FilterBlockReader) (block_offset : Z) (key : Slice) : option bool :=
  if base_lg_ r >=? 64 then None
  else
    let index := Z.shiftr block_offset (base_lg_ r) in
    Some
      (if index <? num_ r then
        let start := DecodeFixed32 (drop (Z.to_nat (offset_ r + index * 4)) (data_ r)) in
        let limit := DecodeFixed32 (drop (Z.to_nat (offset_ r + index * 4 + 4)) (data_ r)) in
        if (start <=? limit) && (limit <=? offset_ r) then
          KeyMayMatch policy key (take (Z.to_nat (limit - start)) (drop (Z.to_nat start) (data_ r)))
        else if start =? limit then false
        else true
      else true).

(** * What the builder holds *)

(** The filter of a group of keys; an empty one for none. *)
Definition filter_of (g : list Slice) : Slice := match g with [] => [] | _ => CreateFilter policy g [] end.

Definition filters (gs : list (list Slice)) : Slice := concat (map filter_of gs).

Definition filter_at (gs : list (list Slice)) (i : nat) : Z := size (filters (take i gs)).

(** The groups [gs] have their filters, the keys [pending] not yet. *)
Record Groups (b : FilterBlockBuilder) (gs : list (list Slice)) (pending : list Slice) : Prop := {
  gr_keys : keys_ b = concat pending;
  gr_start : start_ b = map (fun i => size (concat (take i pending))) (seq 0 (length pending));
  gr_result : result_ b = filters gs;
  gr_offsets : filter_offsets_ b = map (fun i => u32 (filter_at gs i)) (seq 0 (length gs))
}.

Lemma Groups_new : Groups FilterBlockBuilder_new [] [].
Proof. by constructor. Qed.

Lemma offsets_length b gs pending : Groups b gs pending -> length (filter_offsets_ b) = length gs.
Proof. intros HG. rewrite (gr_offsets _ _ _ HG). by rewrite length_map, length_seq. Qed.

Lemma map_seq_snoc {A} (f g : nat -> A) n : (forall i, (i < n)%nat -> f i = g i) ->
  map g (seq 0 (n + 1)) = map f (seq 0 n) ++ [g n].
Proof.
  intros H. rewrite seq_app, map_app. f_equal. apply map_ext_in. intros i Hi. apply in_seq in Hi. symmetry. apply H. lia.
Qed.

Lemma AddKey_groups b gs pending key : Groups b gs pending -> Groups (AddKey key b) gs (pending ++ [key]).
Proof.
  intros [Hk Hs Hr Ho]. constructor; cbn [AddKey keys_ start_ result_ filter_offsets_]; [| |done|done].
  - rewrite Hk, concat_app. cbn [concat]. by rewrite app_nil_r.
  - rewrite Hs, length_app, Hk. cbn [length]. symmetry.
    rewrite (map_seq_snoc (fun i => size (concat (take i pending)))).
    + by rewrite take_app_length.
    + intros i Hi. by rewrite take_app_le by lia.
Qed.

Lemma tmp_keys pending :
  let start := map (fun i => size (concat (take i pending))) (seq 0 (length pending)) ++ [size (concat pending)] in
  map (fun i => take (Z.to_nat (nth (S i) start 0 - nth i start 0)) (drop (Z.to_nat (nth i start 0)) (concat pending)))
    (seq 0 (length pending)) = pending.
Proof.
  intros start. assert (E : forall i, (i <= length pending)%nat -> nth i start 0 = size (concat (take i pending))).
  { intros i Hi. unfold start. destruct (decide (i = length pending)) as [->|Hne].
    - rewrite app_nth2 by (rewrite length_map, length_seq; lia). rewrite length_map, length_seq, Nat.sub_diag. by rewrite take_ge.
    - rewrite app_nth1 by (rewrite length_map, length_seq; lia). rewrite (nth_indep _ 0 (size (concat (take 0 pending))))
        by (rewrite length_map, length_seq; lia).
      rewrite (map_nth (fun i => size (concat (take i pending)))), seq_nth by lia. done. }
  apply list_eq. intros i. rewrite list_lookup_fmap. destruct (decide (i < length pending)%nat) as [Hi|Hi].
  - rewrite lookup_seq_lt by done. cbn [fmap option_fmap option_map Nat.add].
    destruct (lookup_lt_is_Some_2 pending i Hi) as [k Hk]. rewrite Hk. f_equal. rewrite !E by lia.
    rewrite (take_S_r _ _ _ Hk), concat_app, size_app. cbn [concat]. rewrite app_nil_r.
    replace (Z.to_nat (size (concat (take i pending)))) with (length (concat (take i pending))) by (unfold size; lia).
    replace (Z.to_nat _) with (length k) by (unfold size; lia).
    rewrite <- (take_drop i pending) at 2. rewrite concat_app, drop_app_length, (drop_S _ _ _ Hk). cbn [concat].
    by rewrite take_app_length.
  - rewrite (lookup_seq_ge 0) by lia. symmetry. apply lookup_ge_None. lia.
Qed.

Section Laws.
Context {ok : Slice -> Prop} `{PL : !FilterPolicyLaws policy ok}.

Lemma filters_app gs g : filters (gs ++ [g]) = filters gs ++ filter_of g.
Proof. unfold filters. rewrite map_app, concat_app. cbn [map concat]. by rewrite app_nil_r. Qed.

Lemma filter_at_app gs g i : (i <= length gs)%nat -> filter_at (gs ++ [g]) i = filter_at gs i.
Proof. intros Hi. unfold filter_at. by rewrite take_app_le. Qed.

Lemma GenerateFilter_groups b gs pending : Groups b gs pending -> Groups (GenerateFilter b) (gs ++ [pending]) [].
Proof.
  intros [Hk Hs Hr Ho].
  assert (Hoff : filter_offsets_ b ++ [u32 (size (result_ b))] =
    map (fun i => u32 (filter_at (gs ++ [pending]) i)) (seq 0 (length (gs ++ [pending])))).
  { rewrite length_app. cbn [length]. rewrite (map_seq_snoc (fun i => u32 (filter_at gs i))).
    - rewrite Ho, Hr, filter_at_app by lia. unfold filter_at. by rewrite take_ge.
    - intros i Hi. by rewrite filter_at_app by lia. }
  unfold GenerateFilter. destruct pending as [|k pending].
  - rewrite Hs. cbn [length seq map Nat.eqb]. constructor; cbn [keys_ start_ result_ filter_offsets_];
      [done|done|by rewrite filters_app, app_nil_r|done].
  - assert (El : length (start_ b) = S (length pending)) by (rewrite Hs, length_map, length_seq; done).
    rewrite El. cbn [Nat.eqb]. constructor; cbn [keys_ start_ result_ filter_offsets_]; [done|done| |exact Hoff].
    rewrite filters_app, Hk, Hs, Hr. change (S (length pending)) with (length (k :: pending)).
    rewrite (tmp_keys (k :: pending)), (filter_append (ok := ok)). done.
Qed.

Definition empty_groups (n : nat) : list (list Slice) := replicate n [].

(** Groups after [n] more filters. *)
Definition more_groups (gs : list (list Slice)) (pending : list Slice) (n : nat) : list (list Slice) * list Slice :=
  match n with O => (gs, pending) | S n => (gs ++ [pending] ++ empty_groups n, []) end.

Lemma more_groups_S gs pending n :
  more_groups gs pending (S n) = more_groups (gs ++ [pending]) [] n.
Proof.
  destruct n as [|n]; cbn [more_groups empty_groups replicate]; [by rewrite app_nil_r|].
  by rewrite <- app_assoc.
Qed.

Lemma StartBlock_loop_groups fuel : forall b gs pending index,
  Groups b gs pending -> Z.of_nat (length gs) <= index -> fuel = (Z.to_nat index - length gs)%nat ->
  exists b', StartBlock_loop fuel index b = Some b' /\
    Groups b' (more_groups gs pending fuel).1 (more_groups gs pending fuel).2.
Proof.
  induction fuel as [|fuel IH]; intros b gs pending index HG Hi Hf; cbn [StartBlock_loop];
    rewrite (offsets_length _ _ _ HG).
  - destruct (Z.gtb_spec index (Z.of_nat (length gs))); [lia|]. by exists b.
  - destruct (Z.gtb_spec index (Z.of_nat (length gs))); [|lia]. rewrite more_groups_S.
    apply IH; [by apply GenerateFilter_groups| |]; rewrite length_app; cbn [length]; lia.
Qed.

Lemma StartBlock_groups b gs pending o :
  Groups b gs pending -> Z.of_nat (length gs) <= o / kFilterBase ->
  exists b', StartBlock o b = Some b' /\
    let m := more_groups gs pending (Z.to_nat (o / kFilterBase) - length gs) in Groups b' m.1 m.2.
Proof.
  intros HG Ho. unfold StartBlock. rewrite (offsets_length _ _ _ HG).
  destruct (Z.geb_spec (o / kFilterBase) (Z.of_nat (length gs))); [|lia]. by apply StartBlock_loop_groups.
Qed.

(** * Tables of blocks *)

(** A key of the group [i], with or without its filter yet. *)
Definition in_group (gs : list (list Slice)) (pending : list Slice) (i : nat) (k : Slice) : Prop :=
  (exists g, gs !! i = Some g /\ k ∈ g) \/ i = length gs /\ k ∈ pending.

Lemma in_more_groups gs pending n i k : in_group gs pending i k ->
  in_group (more_groups gs pending n).1 (more_groups gs pending n).2 i k.
Proof.
  destruct n as [|n]; [done|]. cbn [more_groups fst snd]. intros [(g & Hg & Hk)|[-> Hk]]; left.
  - exists g. split; [|done]. by rewrite lookup_app_l by (by eapply lookup_lt_Some).
  - exists pending. split; [|done]. by rewrite lookup_app_r, Nat.sub_diag by lia.
Qed.

Lemma more_groups_length gs pending n : length (more_groups gs pending n).1 = (length gs + n)%nat.
Proof.
  destruct n as [|n]; cbn [more_groups fst]; [lia|]. rewrite !length_app. unfold empty_groups. rewrite length_replicate. cbn. lia.
Qed.

(** How many keys, and which. *)
Lemma more_groups_keys gs pending n :
  concat (more_groups gs pending n).1 ++ (more_groups gs pending n).2 = concat gs ++ pending.
Proof.
  destruct n as [|n]; [done|]. cbn [more_groups fst snd]. rewrite !concat_app. cbn [concat]. rewrite !app_nil_r.
  assert (E : concat (empty_groups n) = []) by (induction n; [done|by cbn]). by rewrite E, app_nil_r.
Qed.

(** A data block: where it starts, and its keys. *)
Definition AddBlock (b : FilterBlockBuilder) (blk : Z * list Slice) : option FilterBlockBuilder :=
  b ← StartBlock blk.1 b; Some (fold_left (fun b k => AddKey k b) blk.2 b).

Definition AddBlocks (b : FilterBlockBuilder) (blks : list (Z * list Slice)) : option FilterBlockBuilder :=
  foldl (fun o blk => b ← o; AddBlock b blk) (Some b) blks.

Lemma AddKeys_groups ks : forall b gs pending, Groups b gs pending ->
  Groups (fold_left (fun b k => AddKey k b) ks b) gs (pending ++ ks).
Proof.
  induction ks as [|k ks IH]; intros b gs pending HG; cbn [fold_left]; [by rewrite app_nil_r|].
  replace (pending ++ k :: ks) with ((pending ++ [k]) ++ ks) by (by rewrite <- app_assoc). by apply IH, AddKey_groups.
Qed.

(** The index of the filter of a block. *)
Definition block_index (blk : Z * list Slice) : nat := Z.to_nat (blk.1 / kFilterBase).

Lemma AddBlock_groups b gs pending blk :
  Groups b gs pending -> 0 <= blk.1 -> Z.of_nat (length gs) <= blk.1 / kFilterBase ->
  exists b' gs' pending', AddBlock b blk = Some b' /\ Groups b' gs' pending' /\ length gs' = block_index blk /\
    concat gs' ++ pending' = concat gs ++ pending ++ blk.2 /\
    (forall i k, in_group gs pending i k -> in_group gs' pending' i k) /\
    (forall k, k ∈ blk.2 -> in_group gs' pending' (block_index blk) k).
Proof.
  intros HG H0 Ho. destruct (StartBlock_groups b gs pending blk.1 HG Ho) as (b1 & E & H1). cbn zeta in H1.
  set (n := (Z.to_nat (blk.1 / kFilterBase) - length gs)%nat) in *. unfold AddBlock. rewrite E. cbn [mbind option_bind].
  eexists _, _, _. split; [done|]. split; [by apply AddKeys_groups|].
  assert (El : length (more_groups gs pending n).1 = block_index blk) by (rewrite more_groups_length; unfold block_index; lia).
  split; [exact El|]. split; [by rewrite !app_assoc, more_groups_keys|].
  split; [|intros k Hk; right; split; [done|apply elem_of_app; by right]].
  intros i k Hi. destruct (in_more_groups _ _ n _ _ Hi) as [Hg|[-> Hp]]; [by left|right].
  split; [done|]. apply elem_of_app. by left.
Qed.

Lemma AddBlocks_groups blks : forall b gs pending,
  Groups b gs pending -> Forall (fun blk => Z.of_nat (length gs) <= blk.1 / kFilterBase) blks ->
  Sorted Z.le blks.*1 ->
  exists b' gs' pending', AddBlocks b blks = Some b' /\ Groups b' gs' pending' /\
    concat gs' ++ pending' = concat gs ++ pending ++ concat blks.*2 /\
    (forall i k, in_group gs pending i k -> in_group gs' pending' i k) /\
    (forall blk k, blk ∈ blks -> k ∈ blk.2 -> in_group gs' pending' (block_index blk) k).
Proof.
  induction blks as [|blk blks IH]; intros b gs pending HG HF HS.
  - exists b, gs, pending. split; [done|]. split; [done|]. cbn. rewrite app_nil_r. split; [done|]. split; [done|].
    intros blk k Hin. by apply elem_of_nil in Hin.
  - apply Forall_cons in HF as [Hb HF]. cbn [fmap list_fmap] in HS. apply Sorted_StronglySorted in HS; [|intros x y z; lia].
    apply StronglySorted_inv in HS as [HS HA]. assert (Hk : 0 < kFilterBase) by done.
    assert (H0 : 0 <= blk.1) by (destruct (Z.lt_ge_cases blk.1 0); [pose proof (Z.div_lt_upper_bound blk.1 kFilterBase 0); lia|done]).
    destruct (AddBlock_groups b gs pending blk HG H0 Hb) as (b1 & gs1 & p1 & E1 & H1 & Hl & Hc & Hold & Hnew).
    destruct (IH b1 gs1 p1 H1) as (b2 & gs2 & p2 & E2 & H2 & Hc2 & Hold2 & Hnew2).
    + rewrite Hl. rewrite Forall_fmap in HA. eapply Forall_impl; [exact HA|]. intros x Hx. cbn in Hx.
      unfold block_index. pose proof (Z.div_pos blk.1 kFilterBase H0 Hk). pose proof (Z.div_le_mono _ _ _ Hk Hx). lia.
    + by apply StronglySorted_Sorted.
    + exists b2, gs2, p2. split; [unfold AddBlocks in *; cbn [foldl mbind option_bind]; by rewrite E1|]. split; [done|].
      split; [rewrite Hc2, app_assoc, Hc; cbn [fmap list_fmap concat]; by rewrite <- !app_assoc|]. split; [by eauto|].
      intros blk' k [->|Hin]%elem_of_cons Hk'; [by apply Hold2, Hnew|by apply (Hnew2 blk')].
Qed.

(** The finished block: all groups, their offsets, where these start, and the
    parameter. *)
Definition offset_array (gs : list (list Slice)) : Slice :=
  concat (map (fun i => EncodeFixed32 (u32 (filter_at gs i))) (seq 0 (length gs))).

Definition filter_block (gs : list (list Slice)) : Slice :=
  filters gs ++ offset_array gs ++ EncodeFixed32 (u32 (size (filters gs))) ++ [kFilterBaseLg].

Lemma put_offsets (l : list Z) : forall buf, fold_left (fun r o => PutFixed32 r o) l buf = buf ++ concat (map EncodeFixed32 l).
Proof.
  induction l as [|o l IH]; intros buf; cbn [fold_left map concat]; [by rewrite app_nil_r|].
  rewrite IH. unfold PutFixed32. by rewrite app_assoc.
Qed.

Lemma Finish_groups b gs pending : Groups b gs pending ->
  exists gs', (FilterBlock_Finish b).1 = filter_block gs' /\ concat gs' = concat gs ++ pending /\
    (forall i k, in_group gs pending i k -> exists g, gs' !! i = Some g /\ k ∈ g) /\ (length gs' <= S (length gs))%nat.
Proof.
  intros HG. assert (Fin : forall b' gs', Groups b' gs' [] ->
    PutFixed32 (fold_left (fun r o => PutFixed32 r o) (filter_offsets_ b') (result_ b')) (u32 (size (result_ b')))
      ++ [kFilterBaseLg] = filter_block gs').
  { intros b' gs' [_ _ Hr Ho]. rewrite put_offsets. unfold PutFixed32, filter_block, offset_array.
    rewrite Ho, Hr, map_map. by rewrite <- !app_assoc. }
  unfold FilterBlock_Finish. cbn [fst]. pose proof (gr_start _ _ _ HG) as Hs. destruct pending as [|k pending].
  - rewrite Hs. cbn [length seq map]. exists gs. split; [by apply Fin|]. split; [by rewrite app_nil_r|].
    split; [|lia]. intros i k [Hg|[_ Hk]]; [done|by apply elem_of_nil in Hk].
  - destruct (start_ b) eqn:Es; [done|]. exists (gs ++ [k :: pending]). split; [apply Fin; by apply GenerateFilter_groups|].
    split; [by rewrite concat_app; cbn [concat]; rewrite app_nil_r|]. split; [|rewrite length_app; cbn; lia].
    intros i k' [(g & Hg & Hk)|[-> Hk]].
    + exists g. split; [|done]. by rewrite lookup_app_l by (by eapply lookup_lt_Some).
    + exists (k :: pending). split; [|done]. by rewrite lookup_app_r, Nat.sub_diag by lia.
Qed.

(** * Reading *)

Lemma drop_concat_4 {A} (f : A -> Slice) (l : list A) j : (forall x, length (f x) = 4%nat) ->
  drop (j * 4) (concat (map f l)) = concat (map f (drop j l)).
Proof.
  intros Hf. revert j. induction l as [|x l IH]; intros j; [cbn [map concat]; by rewrite !drop_nil|]. destruct j as [|j]; [done|].
  cbn [map concat drop Nat.mul Nat.add]. rewrite drop_app. replace (S (S (S (S (j * 4)))) - length (f x))%nat with (j * 4)%nat by (rewrite Hf; lia).
  rewrite (drop_ge (f x)) by (rewrite Hf; lia). apply IH.
Qed.

Section Read.
Context (gs : list (list Slice)) (Hsize : size (filter_block gs) < 2 ^ 32).

Lemma filter_at_end : filter_at gs (length gs) = size (filters gs).
Proof. unfold filter_at. by rewrite take_ge. Qed.

(** The offsets and what follows them. *)
Lemma filter_block_eq : filter_block gs =
  filters gs ++ concat (map (fun i => EncodeFixed32 (u32 (filter_at gs i))) (seq 0 (S (length gs)))) ++ [kFilterBaseLg].
Proof.
  unfold filter_block, offset_array. f_equal. rewrite <- Nat.add_1_r, seq_app, map_app, concat_app. cbn [seq map concat Nat.add].
  by rewrite app_nil_r, <- app_assoc, filter_at_end.
Qed.

Lemma offsets_size {A} (f : A -> Z) l : size (concat (map (fun i => EncodeFixed32 (f i)) l)) = 4 * Z.of_nat (length l).
Proof.
  induction l as [|x l IH]; [done|]. cbn [map concat length]. rewrite size_app, IH.
  change (size (EncodeFixed32 (f x))) with 4. lia.
Qed.

Lemma filter_block_size : size (filter_block gs) = size (filters gs) + 4 * Z.of_nat (length gs) + 5.
Proof. rewrite filter_block_eq, !size_app, offsets_size, length_seq. change (size [kFilterBaseLg]) with 1. lia. Qed.

Lemma filter_at_le i : 0 <= filter_at gs i <= size (filters gs).
Proof.
  split; [apply size_nonneg|]. unfold filter_at. rewrite <- (take_drop i gs) at 2. unfold filters at 2.
  rewrite map_app, concat_app, size_app. fold (filters (take i gs)). pose proof (size_nonneg (concat (map filter_of (drop i gs)))). lia.
Qed.

Lemma offset_read j : (j <= length gs)%nat ->
  DecodeFixed32 (drop (Z.to_nat (size (filters gs) + Z.of_nat j * 4)) (filter_block gs)) = filter_at gs j.
Proof.
  intros Hj. pose proof (filter_at_le j). pose proof filter_block_size. pose proof (size_nonneg (filters gs)).
  rewrite filter_block_eq. set (f := fun i => EncodeFixed32 (u32 (filter_at gs i))).
  assert (El : length (concat (map f (seq 0 (S (length gs))))) = (4 * S (length gs))%nat).
  { pose proof (offsets_size (fun i => u32 (filter_at gs i)) (seq 0 (S (length gs)))) as E. unfold size in E.
    rewrite length_seq in E. unfold f. lia. }
  replace (Z.to_nat _) with (length (filters gs) + j * 4)%nat by (unfold size; lia).
  rewrite <- drop_drop, drop_app_length, drop_app_le by lia.
  rewrite drop_concat_4, drop_seq by done. replace (S (length gs) - j)%nat with (S (length gs - j)) by lia.
  cbn [seq map concat Nat.add]. rewrite <- app_assoc. unfold f at 1. rewrite DecodeFixed32_app; [apply wrap_small|apply wrap_range]; lia.
Qed.

Lemma read_groups i g key o : gs !! i = Some g -> key ∈ g -> Forall ok g -> Z.of_nat (length g) < 2 ^ 31 ->
  0 <= o -> i = Z.to_nat (o / kFilterBase) ->
  FilterBlock_KeyMayMatch (FilterBlockReader_new (filter_block gs)) o key = Some true.
Proof.
  intros Hg Hk Hok Hn Ho Hi. pose proof filter_block_size as Hs. pose proof (size_nonneg (filters gs)).
  unfold FilterBlockReader_new. destruct (Z.ltb_spec (size (filter_block gs)) 5); [lia|].
  assert (Hlast : nth (Z.to_nat (size (filter_block gs) - 1)) (filter_block gs) 0 = kFilterBaseLg).
  { unfold filter_block. rewrite !app_assoc. rewrite app_nth2; [|].
    - replace (_ - _)%nat with 0%nat; [done|]. unfold filter_block. rewrite !size_app. rewrite !length_app. unfold size. cbn [length]. lia.
    - rewrite !size_app. rewrite !length_app. unfold size. cbn [length]. lia. }
  rewrite Hlast. change (u64 (sext 8 kFilterBaseLg)) with 11.
  replace (size (filter_block gs) - 5) with (size (filters gs) + Z.of_nat (length gs) * 4) by lia.
  rewrite offset_read, filter_at_end by done.
  destruct (Z.gtb_spec (size (filters gs)) (size (filters gs) + Z.of_nat (length gs) * 4)); [lia|].
  unfold FilterBlock_KeyMayMatch. cbn [base_lg_ num_ offset_ data_]. change (11 >=? 64) with false. cbv iota.
  replace (size (filters gs) + Z.of_nat (length gs) * 4 - size (filters gs)) with (Z.of_nat (length gs) * 4) by lia.
  rewrite Z.div_mul, Z.shiftr_div_pow2 by lia. change (2 ^ 11) with kFilterBase.
  pose proof (lookup_lt_Some _ _ _ Hg) as Hlt. assert (Hk0 : 0 < kFilterBase) by done. pose proof (Z.div_pos o kFilterBase Ho Hk0).
  assert (Ei : o / kFilterBase = Z.of_nat i) by lia. rewrite Ei.
  destruct (Z.ltb_spec (Z.of_nat i) (Z.of_nat (length gs))); [|lia]. rewrite offset_read by lia.
  replace (size (filters gs) + Z.of_nat i * 4 + 4) with (size (filters gs) + Z.of_nat (S i) * 4) by lia. rewrite offset_read by lia.
  pose proof (filter_at_le i). pose proof (filter_at_le (S i)).
  assert (Es : filter_at gs (S i) = filter_at gs i + size (filter_of g)).
  { unfold filter_at. by rewrite (take_S_r _ _ _ Hg), filters_app, size_app. }
  pose proof (size_nonneg (filter_of g)). destruct (Z.leb_spec (filter_at gs i) (filter_at gs (S i))); [|lia].
  destruct (Z.leb_spec (filter_at gs (S i)) (size (filters gs))); [|lia]. cbn [andb]. f_equal.
  assert (Ed : take (Z.to_nat (filter_at gs (S i) - filter_at gs i)) (drop (Z.to_nat (filter_at gs i)) (filter_block gs)) = filter_of g).
  { replace (filter_block gs) with (filters (take i gs) ++ filter_of g ++ filters (drop (S i) gs) ++ drop (length (filters gs)) (filter_block gs)).
    - rewrite drop_app_length' by (unfold filter_at, size; lia). rewrite take_app_length' by (unfold size in *; lia). done.
    - unfold filter_block. rewrite drop_app_length, (app_assoc (filters (take i gs))), (app_assoc (filters (take i gs) ++ _)).
      f_equal. rewrite <- filters_app, <- (take_S_r _ _ _ Hg). unfold filters. by rewrite <- concat_app, <- map_app, take_drop. }
  rewrite Ed. destruct g as [|k0 g]; [by apply elem_of_nil in Hk|]. cbn [filter_of]. by apply filter_match.
Qed.
End Read.
End Laws.

(** The whole filter block of a table with these data blocks. *)
Definition build_filter_block (blks : list (Z * list Slice)) : option Slice :=
  b ← AddBlocks FilterBlockBuilder_new blks; Some (FilterBlock_Finish b).1.
End Builder.

Lemma FilterBlock_spec policy ok `{PL : !FilterPolicyLaws policy ok} blks :
  Sorted Z.le blks.*1 -> Forall (fun blk => 0 <= blk.1) blks -> Forall ok (concat blks.*2) ->
  Z.of_nat (length (concat blks.*2)) < 2 ^ 31 ->
  exists contents, build_filter_block policy blks = Some contents /\
    (size contents < 2 ^ 32 -> forall o ks k, (o, ks) ∈ blks -> k ∈ ks ->
       FilterBlock_KeyMayMatch policy (FilterBlockReader_new contents) o k = Some true).
Proof.
  intros HS H0 Hok Hn.
  destruct (AddBlocks_groups policy (ok := ok) blks FilterBlockBuilder_new [] []) as (b & gs & p & E & HG & Hc & _ & Hin); [apply Groups_new| |done|].
  { eapply Forall_impl; [exact H0|]. intros blk Hb. cbn in Hb. by apply Z.div_pos. }
  destruct (Finish_groups policy b gs p HG) as (gs' & Ef & Hc' & Hin' & _).
  cbn [concat app] in Hc. rewrite Hc in Hc'. unfold build_filter_block. rewrite E. cbn [mbind option_bind].
  exists (filter_block policy gs'). split; [by rewrite Ef|]. intros Hs o ks k Hb Hk.
  destruct (Hin' _ _ (Hin (o, ks) k Hb Hk)) as (g & Hg & Hkg). rewrite Forall_forall in H0.
  assert (Hsub : gs' = take (block_index (o, ks)) gs' ++ g :: drop (S (block_index (o, ks))) gs')
    by (rewrite <- (drop_S _ _ _ Hg); by rewrite take_drop).
  rewrite <- Hc', Hsub, concat_app in Hok, Hn. cbn [concat] in Hok, Hn. rewrite !length_app in Hn.
  apply Forall_app in Hok as [_ Hok]. apply Forall_app in Hok as [Hok _].
  apply (read_groups policy gs' Hs (block_index (o, ks)) g); [done|done|done|lia|by apply (H0 (o, ks))|done].
Qed.

(** What is read from a block that was built never shifts too far. *)
Lemma FilterBlock_defined policy blks contents o key : build_filter_block policy blks = Some contents ->
  exists b, FilterBlock_KeyMayMatch policy (FilterBlockReader_new contents) o key = Some b.
Proof.
  unfold build_filter_block. destruct (AddBlocks policy FilterBlockBuilder_new blks) as [b|]; [|done]. cbn [mbind option_bind].
  intros Heq. apply (inj Some) in Heq.
  assert (Hc : exists pre, contents = pre ++ [kFilterBaseLg]) by (unfold FilterBlock_Finish in Heq; cbn [fst] in Heq; by eexists).
  destruct Hc as (pre & ->). assert (Hb : base_lg_ (FilterBlockReader_new (pre ++ [kFilterBaseLg])) < 64).
  { unfold FilterBlockReader_new. destruct (size _ <? 5); [done|]. rewrite size_app. change (size [kFilterBaseLg]) with 1.
    replace (Z.to_nat (size pre + 1 - 1)) with (length pre) by (unfold size; lia). rewrite nth_middle. change (u64 (sext 8 kFilterBaseLg)) with 11.
    by destruct (_ >? _). }
  unfold FilterBlock_KeyMayMatch. destruct (Z.geb_spec (base_lg_ (FilterBlockReader_new (pre ++ [kFilterBaseLg]))) 64); [lia|]. by eexists.
Qed.

(** Keys the policy does not tell apart. *)
Definition same_to (policy : FilterPolicy) (k k' : Slice) : Prop := forall f, KeyMayMatch policy k f = KeyMayMatch policy k' f.

Lemma FilterBlock_same policy r o k k' : same_to policy k k' ->
  FilterBlock_KeyMayMatch policy r o k = FilterBlock_KeyMayMatch policy r o k'.
Proof. intros Hs. unfold FilterBlock_KeyMayMatch. by rewrite Hs. Qed.

(** C23: filter blocks have no false negatives: for data blocks with increasing
    offsets the builder, called for each of them and its keys and then
    finished, fails no assertion, and the reader of what it returns says for
    every key of every block that it may be at that block's offset, whatever
    policy made the filters and however many blocks share one. *)
Theorem FilterBlock_no_false_negatives policy ok `{PL : !FilterPolicyLaws policy ok} blks :
  Sorted Z.le blks.*1 -> Forall (fun blk => 0 <= blk.1) blks -> Forall ok (concat blks.*2) ->
  Z.of_nat (length (concat blks.*2)) < 2 ^ 31 ->
  exists contents, build_filter_block policy blks = Some contents /\
    (size contents < 2 ^ 32 -> forall o ks k, (o, ks) ∈ blks -> k ∈ ks ->
       FilterBlock_KeyMayMatch policy (FilterBlockReader_new contents) o k = Some true).
Proof. exact (FilterBlock_spec policy ok blks). Qed.

Definition sample_blocks : list (Z * list Slice) :=
  [(0, [chars "a"; chars "b"]); (100, [chars "c"]); (5000, [chars "d"]); (5000, []); (9000, [chars "e"])].

Lemma FilterBlock_no_false_negatives_witness :
  exists contents, build_filter_block (BloomFilterPolicy 10) sample_blocks = Some contents /\
    FilterBlock_KeyMayMatch (BloomFilterPolicy 10) (FilterBlockReader_new contents) 100 (chars "c") = Some true /\
    FilterBlock_KeyMayMatch (BloomFilterPolicy 10) (FilterBlockReader_new contents) 9000 (chars "d") = Some false.
Proof.
  destruct (FilterBlock_no_false_negatives (BloomFilterPolicy 10) (fun _ => True) (PL := Bloom_laws 10 ltac:(lia)) sample_blocks)
    as (c & E & H).
  - cbn. repeat constructor; lia.
  - repeat constructor; cbn; lia.
  - repeat constructor.
  - by vm_compute.
  - exists c. split; [exact E|]. revert H. vm_compute in E. injection E as <-. intros H. split; [|by vm_compute].
    apply (H ltac:(by vm_compute) 100 [chars "c"]); [unfold sample_blocks; set_solver|set_solver].
Defined.

(** A parameter of 64 or more in a damaged block is used as a shift. *)
Example damaged_base_lg :
  FilterBlock_KeyMayMatch (BloomFilterPolicy 10) (FilterBlockReader_new (EncodeFixed32 0 ++ [64])) 0 (chars "a") = None.
Proof. by vm_compute. Qed.
