(* ===== verification/LvTableFormat.v ===== *)
(** The parts of a table file ([table/format.cc]): block handles, the footer, and
    reading a block with its trailer. *)

From stdpp Require Import base list gmap strings.
From Stdlib Require Import ZArith Lia.
From S2P Require Import Prelude LvSlice LvCoding LvCrc LvEnv.

(** * Block handles *)

Record BlockHandle : Type := { offset_ : Z; size_ : Z }.

Definition kMaxEncodedLength : Z := 10 + 10.

Definition BlockHandle_new : BlockHandle := {| offset_ := u64 (Z.lnot 0); size_ := u64 (Z.lnot 0) |}.

(** [None]: an assertion fails. *)
Definition BlockHandle_EncodeTo (h : BlockHandle) (dst : Slice) : option Slice :=
  if negb (offset_ h =? u64 (Z.lnot 0)) && negb (size_ h =? u64 (Z.lnot 0))
  then Some (PutVarint64 (PutVarint64 dst (offset_ h)) (size_ h))
  else None.

(** The status, the handle and the rest of the input. *)
Definition BlockHandle_DecodeFrom (h : BlockHandle) (input : Slice) : Status * BlockHandle * Slice :=
  let bad := Status_Corruption (chars "bad block handle") [] in
  match GetVarint64 input with
  | Some (offset, input) =>
      match GetVarint64 input with
      | Some (size, input) => (Status_OK, {| offset_ := offset; size_ := size |}, input)
      | None => (bad, {| offset_ := offset; size_ := size_ h |}, input)
      end
  | None => (bad, h, input)
  end.

(** * Footer *)

Record Footer : Type := { metaindex_handle_ : BlockHandle; index_handle_ : BlockHandle }.

Definition Footer_new : Footer := {| metaindex_handle_ := BlockHandle_new; index_handle_ := BlockHandle_new |}.

Definition kEncodedLength : Z := 2 * kMaxEncodedLength + 8.

Definition kTableMagicNumber : Z := 0xdb4775248b80fb57.

(** [std::string::resize]. *)
Definition resize (s : Slice) (n : Z) : Slice := take (Z.to_nat n) (s ++ replicate (Z.to_nat n - length s) 0).

Definition Footer_EncodeTo (f : Footer) (dst : Slice) : option Slice :=
  let original_size := size dst in
  dst ← BlockHandle_EncodeTo (metaindex_handle_ f) dst;
  dst ← BlockHandle_EncodeTo (index_handle_ f) dst;
  let dst := resize dst (2 * kMaxEncodedLength) in
  let dst := PutFixed32 dst (Z.land kTableMagicNumber 0xffffffff) in
  let dst := PutFixed32 dst (Z.shiftr kTableMagicNumber 32) in
  if size dst =? original_size + kEncodedLength then Some dst else None.

(** [None]: the magic number is read from past the end of the input. *)
Definition Footer_DecodeFrom (f : Footer) (input : Slice) : option (Status * Footer * Slice) :=
  if size input <? kEncodedLength then None
  else
    let magic_ptr := drop (Z.to_nat (kEncodedLength - 8)) input in
    let magic_lo := DecodeFixed32 magic_ptr in
    let magic_hi := DecodeFixed32 (drop 4 magic_ptr) in
    let magic := Z.lor (Z.shiftl magic_hi 32) magic_lo in
    if negb (magic =? kTableMagicNumber)
    then Some (Status_Corruption (chars "not an sstable (bad magic number)") [], f, input)
    else
      let '(result, meta, rest) := BlockHandle_DecodeFrom (metaindex_handle_ f) input in
      if negb (Status_ok result)
      then Some (result, {| metaindex_handle_ := meta; index_handle_ := index_handle_ f |}, rest)
      else
        let '(result, index, rest) := BlockHandle_DecodeFrom (index_handle_ f) rest in
        Some (result, {| metaindex_handle_ := meta; index_handle_ := index |},
              if Status_ok result then drop 8 magic_ptr else rest).

(** * Blocks *)

Inductive CompressionType : Type := kNoCompression | kSnappyCompression.

Definition CompressionType_val (t : CompressionType) : Z :=
  match t with kNoCompression => 0 | kSnappyCompression => 1 end.

(** The port is built without Snappy. *)
Definition Snappy_Compress (input : Slice) : option Slice := None.
Definition Snappy_GetUncompressedLength (input : Slice) : option Z := None.
Definition Snappy_Uncompress (input : Slice) : option Slice := None.

Definition kBlockTrailerSize : Z := 5.

Record BlockContents : Type := { data : Slice; cachable : bool; heap_allocated : bool }.

Definition no_contents : BlockContents := {| data := []; cachable := false; heap_allocated := false |}.

Section ReadBlock.
Context {F : Type} `{RandomAccessFile F}.
(** Where the bytes of a block lie when their CRC is computed. *)
Variable address : Z.

(** Whether the stored checksum is that of the data and its type. *)
Definition block_checksum_ok (n : Z) (contents : Slice) : bool :=
  Value address (take (Z.to_nat (n + 1)) contents) =? Unmask (DecodeFixed32 (drop (Z.to_nat (n + 1)) contents)).

Definition ReadBlock (verify_checksums : bool) (handle : BlockHandle) : M F (Status * BlockContents) :=
  let n := size_ handle in
  let* '(s, contents, scratch) := RandomAccess_Read (offset_ handle) (u64 (n + kBlockTrailerSize)) in
  if negb (Status_ok s) then ret (s, no_contents)
  else if negb (size contents =? u64 (n + kBlockTrailerSize))
  then ret (Status_Corruption (chars "truncated block read") [], no_contents)
  else if size contents <? n + kBlockTrailerSize then undef
  else if verify_checksums && negb (block_checksum_ok n contents)
  then ret (Status_Corruption (chars "block checksum mismatch") [], no_contents)
  else
    let type := nth (Z.to_nat n) contents 0 in
    if type =? CompressionType_val kNoCompression then
      ret (Status_OK, {| data := take (Z.to_nat n) contents; cachable := scratch; heap_allocated := scratch |})
    else if type =? CompressionType_val kSnappyCompression then
      let bad := ret (Status_Corruption (chars "corrupted compressed block contents") [], no_contents) in
      match Snappy_GetUncompressedLength (take (Z.to_nat n) contents) with
      | Some _ =>
          match Snappy_Uncompress (take (Z.to_nat n) contents) with
          | Some u => ret (Status_OK, {| data := u; cachable := true; heap_allocated := true |})
          | None => bad
          end
      | None => bad
      end
    else ret (Status_Corruption (chars "bad block type") [], no_contents).
End ReadBlock.

(** * Properties

    Handles and footers survive the file; blocks are read back as they were
    written, and damaged ones are refused. *)

(** * Handles and footers *)

Definition handle_ok (h : BlockHandle) : Prop := 0 <= offset_ h < 2 ^ 64 - 1 /\ 0 <= size_ h < 2 ^ 64 - 1.

Definition handle_bytes (h : BlockHandle) : Slice := EncodeVarint64 (offset_ h) ++ EncodeVarint64 (size_ h).

Lemma EncodeVarint64_length v : 0 <= v < 2 ^ 64 -> (1 <= length (EncodeVarint64 v) <= 10)%nat.
Proof. intros Hv. rewrite EncodeVarint64_varint by lia. pose proof (varint_length v). lia. Qed.

Lemma handle_bytes_size h : handle_ok h -> 2 <= size (handle_bytes h) <= 20.
Proof.
  intros [H1 H2]. unfold handle_bytes. rewrite size_app. unfold size.
  pose proof (EncodeVarint64_length (offset_ h)). pose proof (EncodeVarint64_length (size_ h)). lia.
Qed.

Lemma EncodeTo_handle h dst : handle_ok h -> BlockHandle_EncodeTo h dst = Some (dst ++ handle_bytes h).
Proof.
  intros [H1 H2]. unfold BlockHandle_EncodeTo. change (u64 (Z.lnot 0)) with (2 ^ 64 - 1).
  destruct (Z.eqb_spec (offset_ h) (2 ^ 64 - 1)); [lia|]. destruct (Z.eqb_spec (size_ h) (2 ^ 64 - 1)); [lia|].
  cbn [negb andb]. unfold PutVarint64, handle_bytes. by rewrite app_assoc.
Qed.

Lemma DecodeFrom_handle h h0 rest : handle_ok h ->
  BlockHandle_DecodeFrom h0 (handle_bytes h ++ rest) = (Status_OK, h, rest).
Proof.
  intros [H1 H2]. unfold BlockHandle_DecodeFrom, handle_bytes, GetVarint64. rewrite <- app_assoc, !GetVarint64_app by lia.
  by destruct h.
Qed.

(** The 48 bytes of a footer. *)
Definition footer_bytes (f : Footer) : Slice :=
  let hs := handle_bytes (metaindex_handle_ f) ++ handle_bytes (index_handle_ f) in
  hs ++ replicate (40 - length hs) 0 ++ EncodeFixed32 0x8b80fb57 ++ EncodeFixed32 0xdb477524.

Definition footer_ok (f : Footer) : Prop := handle_ok (metaindex_handle_ f) /\ handle_ok (index_handle_ f).

Lemma footer_size f : footer_ok f -> size (footer_bytes f) = 48.
Proof.
  intros [H1 H2]. pose proof (handle_bytes_size _ H1) as S1. pose proof (handle_bytes_size _ H2) as S2.
  unfold footer_bytes. cbv zeta. unfold size in *. rewrite !length_app, length_replicate.
  change (length (EncodeFixed32 0x8b80fb57)) with 4%nat. change (length (EncodeFixed32 0xdb477524)) with 4%nat. lia.
Qed.

Lemma EncodeTo_footer f : footer_ok f -> Footer_EncodeTo f [] = Some (footer_bytes f).
Proof.
  intros Hf. pose proof (footer_size f Hf) as Hs. destruct Hf as [H1 H2]. unfold Footer_EncodeTo.
  rewrite (EncodeTo_handle _ _ H1). cbn [mbind option_bind app]. rewrite (EncodeTo_handle _ _ H2). cbn [mbind option_bind].
  pose proof (handle_bytes_size _ H1) as S1. pose proof (handle_bytes_size _ H2) as S2.
  set (hs := handle_bytes (metaindex_handle_ f) ++ handle_bytes (index_handle_ f)).
  assert (Hl : (length hs <= 40)%nat) by (unfold hs, size in *; rewrite length_app; lia).
  assert (Er : resize hs (2 * kMaxEncodedLength) = hs ++ replicate (40 - length hs) 0).
  { unfold resize. change (Z.to_nat (2 * kMaxEncodedLength)) with 40%nat. apply take_ge. rewrite length_app, length_replicate. lia. }
  rewrite Er. unfold PutFixed32.
  change (Z.land kTableMagicNumber 0xffffffff) with 0x8b80fb57. change (Z.shiftr kTableMagicNumber 32) with 0xdb477524.
  rewrite <- !app_assoc. change (hs ++ _) with (footer_bytes f). rewrite Hs. done.
Qed.

Lemma DecodeFrom_footer f f0 rest : footer_ok f ->
  Footer_DecodeFrom f0 (footer_bytes f ++ rest) = Some (Status_OK, f, rest).
Proof.
  intros Hf. pose proof (footer_size f Hf) as Hs. unfold Footer_DecodeFrom. rewrite size_app, Hs. change kEncodedLength with 48.
  pose proof (size_nonneg rest). destruct (Z.ltb_spec (48 + size rest) 48); [lia|]. change (Z.to_nat (48 - 8)) with 40%nat.
  destruct Hf as [H1 H2]. pose proof (handle_bytes_size _ H1) as S1. pose proof (handle_bytes_size _ H2) as S2.
  unfold footer_bytes. cbv zeta. set (hs := handle_bytes (metaindex_handle_ f) ++ handle_bytes (index_handle_ f)).
  assert (Hl : (length hs <= 40)%nat) by (unfold hs, size in *; rewrite length_app; lia).
  assert (Ed : drop 40 ((hs ++ replicate (40 - length hs) 0 ++ EncodeFixed32 0x8b80fb57 ++ EncodeFixed32 0xdb477524) ++ rest)
    = EncodeFixed32 0x8b80fb57 ++ EncodeFixed32 0xdb477524 ++ rest).
  { rewrite <- !app_assoc, (app_assoc hs). apply drop_app_length'. rewrite length_app, length_replicate. lia. }
  rewrite Ed, DecodeFixed32_app by lia. change (drop 4 (EncodeFixed32 0x8b80fb57 ++ EncodeFixed32 0xdb477524 ++ rest))
    with (EncodeFixed32 0xdb477524 ++ rest). rewrite DecodeFixed32_app by lia.
  change (Z.lor (Z.shiftl 0xdb477524 32) 0x8b80fb57 =? kTableMagicNumber) with true. cbn [negb].
  unfold hs at 1. rewrite <- !app_assoc. rewrite (DecodeFrom_handle _ _ _ H1). cbn [Status_ok Status_OK negb].
  rewrite (DecodeFrom_handle _ _ _ H2). cbn [Status_ok Status_OK negb]. by destruct f.
Qed.

(** handles and footers survive the file: what [EncodeTo] appends, whatever
    follows it, is decoded to the same handle or footer with the rest of the
    input left over; a footer is always 48 bytes. *)
Theorem Footer_roundtrip f f0 h h0 dst rest :
  footer_ok f -> handle_ok h ->
  (exists bytes, BlockHandle_EncodeTo h dst = Some (dst ++ bytes) /\
    BlockHandle_DecodeFrom h0 (bytes ++ rest) = (Status_OK, h, rest)) /\
  exists bytes, Footer_EncodeTo f [] = Some bytes /\ size bytes = kEncodedLength /\
    Footer_DecodeFrom f0 (bytes ++ rest) = Some (Status_OK, f, rest).
Proof.
  intros Hf Hh. split.
  - exists (handle_bytes h). split; [by apply EncodeTo_handle|by apply DecodeFrom_handle].
  - exists (footer_bytes f). split; [by apply EncodeTo_footer|]. split; [by apply footer_size|by apply DecodeFrom_footer].
Qed.

Lemma Footer_roundtrip_witness :
  exists bytes, Footer_EncodeTo {| metaindex_handle_ := {| offset_ := 300; size_ := 8 |};
    index_handle_ := {| offset_ := 313; size_ := 2 ^ 40 |} |} [] = Some bytes /\ size bytes = kEncodedLength.
Proof.
  destruct (Footer_roundtrip {| metaindex_handle_ := {| offset_ := 300; size_ := 8 |};
    index_handle_ := {| offset_ := 313; size_ := 2 ^ 40 |} |} Footer_new {| offset_ := 1; size_ := 2 |} BlockHandle_new [] [])
    as [_ (bytes & E & Hs & _)].
  - split; split; cbn [metaindex_handle_ index_handle_ offset_ size_]; lia.
  - split; cbn [offset_ size_]; lia.
  - exists bytes. split; [exact E|exact Hs].
Defined.

(** The footer replaces what the string it is appended to has beyond 40 bytes:
    the assertion at its end fails unless the string was empty. *)
Example footer_needs_empty_string :
  Footer_EncodeTo {| metaindex_handle_ := {| offset_ := 1; size_ := 8 |}; index_handle_ := {| offset_ := 2; size_ := 3 |} |} [65]
  = None.
Proof. by vm_compute. Qed.

(** * Blocks *)

(** A block in the file: its data, its type, and the masked CRC of both. *)
Definition raw_block (type : CompressionType) (c : Slice) : Slice :=
  let body := c ++ [CompressionType_val type] in body ++ EncodeFixed32 (Mask (Value 0 body)).

Lemma raw_block_size type c : size (raw_block type c) = size c + kBlockTrailerSize.
Proof.
  unfold raw_block. rewrite !size_app. change (size (EncodeFixed32 _)) with 4. change (size [_]) with 1.
  unfold kBlockTrailerSize. lia.
Qed.

Section ReadBlock.
Context {F : Type} `{RF : RandomAccessFile F} {Contains : F -> Slice -> Prop} `{RL : !RandomAccessLaws F Contains}.
Variable address : Z.

(** Reading a block of [n] bytes of which the file has data, type and CRC. *)
Lemma ReadBlock_stored f w pre c ty crc post verify :
  Contains f w -> w = pre ++ (c ++ [ty]) ++ EncodeFixed32 (Mask crc) ++ post -> size w < 2 ^ 64 -> 0 <= crc < 2 ^ 32 ->
  exists f' b, Contains f' w /\
    ReadBlock address verify {| offset_ := size pre; size_ := size c |} f =
      (if verify && negb (Value address (c ++ [ty]) =? crc)
       then Ret ((Status_Corruption (chars "block checksum mismatch") [], no_contents), f')
       else if ty =? 0 then Ret ((Status_OK, {| data := c; cachable := b; heap_allocated := b |}), f')
       else if ty =? 1 then Ret ((Status_Corruption (chars "corrupted compressed block contents") [], no_contents), f')
       else Ret ((Status_Corruption (chars "bad block type") [], no_contents), f')).
Proof.
  intros HC Hw Hs Hcrc. assert (Hsz : size w = size pre + size c + 5 + size post).
  { rewrite Hw, !size_app. change (size (EncodeFixed32 _)) with 4. change (size [ty]) with 1. lia. }
  pose proof (size_nonneg pre). pose proof (size_nonneg c). pose proof (size_nonneg post).
  destruct (random_read_law f w (size pre) (size c + 5) HC) as (f' & b & E & HC'); [lia..|].
  exists f', b. split; [done|]. unfold ReadBlock. cbn [offset_ size_]. unfold kBlockTrailerSize.
  unfold bind. rewrite wrap_small, E by lia. cbn [Status_ok Status_OK negb].
  assert (Ec : take (Z.to_nat (size c + 5)) (drop (Z.to_nat (size pre)) w) = (c ++ [ty]) ++ EncodeFixed32 (Mask crc)).
  { rewrite Hw, drop_app_length' by (unfold size; lia). rewrite (app_assoc _ _ post). apply take_app_length'.
    rewrite !length_app. change (length (EncodeFixed32 (Mask crc))) with 4%nat. cbn [length]. unfold size. lia. }
  rewrite Ec. assert (Es : size ((c ++ [ty]) ++ EncodeFixed32 (Mask crc)) = size c + 5).
  { rewrite !size_app. change (size (EncodeFixed32 _)) with 4. change (size [ty]) with 1. lia. }
  rewrite Es, Z.eqb_refl, Z.ltb_irrefl. cbn [negb].
  assert (Eb : block_checksum_ok address (size c) ((c ++ [ty]) ++ EncodeFixed32 (Mask crc)) = (Value address (c ++ [ty]) =? crc)).
  { unfold block_checksum_ok. assert (El : Z.to_nat (size c + 1) = length (c ++ [ty])) by (rewrite length_app; cbn [length]; unfold size; lia).
    rewrite El, take_app_length, drop_app_length, <- (app_nil_r (EncodeFixed32 _)). destruct (Mask_inverse crc Hcrc) as (Hm & Hu & _).
    by rewrite DecodeFixed32_app, Hu. }
  rewrite Eb. destruct (verify && negb (Value address (c ++ [ty]) =? crc)); [done|].
  assert (En : nth (Z.to_nat (size c)) ((c ++ [ty]) ++ EncodeFixed32 (Mask crc)) 0 = ty).
  { rewrite <- app_assoc, app_nth2 by (unfold size; lia). by replace (Z.to_nat (size c) - length c)%nat with 0%nat by (unfold size; lia). }
  rewrite En. cbn [CompressionType_val]. destruct (ty =? 0); [|by destruct (ty =? 1)].
  rewrite <- app_assoc, take_app_length' by (unfold size; lia). done.
Qed.

Lemma ReadBlock_raw f w pre c post verify :
  Contains f w -> w = pre ++ raw_block kNoCompression c ++ post -> size w < 2 ^ 64 -> is_bytes c ->
  exists f' b, Contains f' w /\
    ReadBlock address verify {| offset_ := size pre; size_ := size c |} f =
      Ret ((Status_OK, {| data := c; cachable := b; heap_allocated := b |}), f').
Proof.
  intros HC Hw Hs Hb. unfold raw_block in Hw. cbn [CompressionType_val] in Hw. rewrite <- (app_assoc (c ++ [0])) in Hw.
  assert (Hb0 : is_bytes (c ++ [0])) by (apply is_bytes_app; split; [done|by constructor]).
  destruct (ReadBlock_stored f w pre c 0 (Value 0 (c ++ [0])) post verify HC Hw Hs (Value_range 0 _ Hb0)) as (f' & b & HC' & E).
  exists f', b. split; [done|]. rewrite E, (Value_addr address 0), Z.eqb_refl by done. by rewrite andb_false_r.
Qed.

(** a block of a table of which up to four consecutive bytes of data and
    type changed on disk is refused by a reader that verifies checksums: it
    gets a corruption and no data, never the changed block. *)
Theorem ReadBlock_detects_bursts f w pre c ty c' ty' w1 w2 x y post :
  Contains f w -> size w < 2 ^ 64 ->
  c ++ [ty] = x ++ w1 ++ y -> c' ++ [ty'] = x ++ w2 ++ y ->
  length w1 = length w2 -> (length w1 <= 4)%nat -> w1 <> w2 -> is_bytes (c ++ [ty]) -> is_bytes (c' ++ [ty']) ->
  w = pre ++ (c' ++ [ty']) ++ EncodeFixed32 (Mask (Value 0 (c ++ [ty]))) ++ post ->
  exists f', ReadBlock address true {| offset_ := size pre; size_ := size c' |} f =
    Ret ((Status_Corruption (chars "block checksum mismatch") [], no_contents), f').
Proof.
  intros HC Hs E1 E2 Hl H4 Hne B1 B2 Hw.
  destruct (ReadBlock_stored f w pre c' ty' _ post true HC Hw Hs (Value_range 0 _ B1)) as (f' & b & _ & E).
  exists f'. rewrite E. cbn [andb]. destruct (Z.eqb_spec (Value address (c' ++ [ty'])) (Value 0 (c ++ [ty]))) as [Eq|]; [|done].
  exfalso. revert Eq. rewrite (Value_addr address 0) by done. rewrite E1 in *. rewrite E2 in *.
  apply Forall_app in B1 as [Bp [Bw1 Bq]%Forall_app]. apply Forall_app in B2 as [_ [Bw2 _]%Forall_app].
  intros Eq. symmetry in Eq. revert Eq. by apply Value_burst.
Qed.
End ReadBlock.

Lemma ReadBlock_detects_bursts_witness :
  exists f', ReadBlock 0 true {| offset_ := 2; size_ := 3 |}
    ([9; 9; 1; 7; 3; 0] ++ EncodeFixed32 (Mask (Value 0 [1; 2; 3; 0])) ++ [8] : MemFile) =
    Ret ((Status_Corruption (chars "block checksum mismatch") [], no_contents), f').
Proof.
  set (f := [9; 9; 1; 7; 3; 0] ++ EncodeFixed32 (Mask (Value 0 [1; 2; 3; 0])) ++ [8] : MemFile).
  apply (ReadBlock_detects_bursts (Contains := eq) 0 f f [9; 9] [1; 2; 3] 0 [1; 7; 3] 0 [2] [7] [1] [3; 0] [8]);
    try reflexivity; try (simpl; lia); try done; solve_bytes.
Defined.

(** A handle whose size is near [2^64] makes the sum with the trailer wrap, and
    the type is read outside the buffer. *)
Example wrapping_block_size :
  ReadBlock 0 false {| offset_ := 0; size_ := 2 ^ 64 - 5 |} ([] : MemFile) = Undef.
Proof. by vm_compute. Qed.
