(* ===== verification/LvIterWrap.v ===== *)
(** Iterators that wrap or replace others: the empty iterator and cleanup
    functions of [table/iterator.cc], and [IteratorWrapper]
    ([table/iterator_wrapper.h]), which caches [Valid] and [key]. *)

From stdpp Require Import base list gmap strings sorting.
From Stdlib Require Import ZArith Lia.
From S2P Require Import Prelude LvSlice LvIterator LvBlock LvBlockProps LvBlockIter.

(** * The empty iterator *)

Definition EmptyIterator : Type := Status.

#[export] Instance EmptyIterator_iterator : Iterator EmptyIterator := {
  iter_Valid _ := false;
  iter_SeekToFirst := ret tt;
  iter_SeekToLast := ret tt;
  iter_Seek _ := ret tt;
  iter_Next := undef;
  iter_Prev := undef;
  iter_key := undef;
  iter_value := undef;
  iter_status s := s
}.

Definition NewEmptyIterator : EmptyIterator := Status_OK.
Definition NewErrorIterator (status : Status) : EmptyIterator := status.

#[export] Instance EmptyIterator_laws cmp ok :
  IteratorLaws EmptyIterator cmp ok [] (fun s i => s = Status_OK /\ i = O).
Proof.
  constructor; intros s i.
  - intros [-> ->]. done.
  - intros [-> ->]. done.
  - by intros [-> _].
  - intros k v _. by rewrite lookup_nil.
  - intros k v _. by rewrite lookup_nil.
  - intros [-> _]. by exists Status_OK.
  - intros [-> _]. by exists Status_OK.
  - cbn. lia.
  - cbn. lia.
  - intros target [-> _] _. by exists Status_OK, O.
Qed.

(** * Cleanup functions *)

Section Cleanup.
Context {C : Type}.

(** The list of nodes from [cleanup_head_]; a function registered when the head
    is used goes right after it. *)
Definition RegisterCleanup (func : C) (cleanups : list C) : list C :=
  match cleanups with [] => [func] | head :: rest => head :: func :: rest end.

(** [~Iterator]. *)
Definition run_cleanups {S} (run : C -> M S unit) (cleanups : list C) : M S unit :=
  fold_right (fun c k => run c ;;; k) (ret tt) cleanups.

Lemma RegisterCleanup_perm func cleanups : RegisterCleanup func cleanups ≡ₚ func :: cleanups.
Proof. destruct cleanups as [|h t]; [done|]. cbn. apply perm_swap. Qed.
End Cleanup.

(** * Wrappers *)

Record IteratorWrapper (I : Type) : Type := { iter_ : option I; valid_ : bool; key_ : Slice }.
Arguments iter_ {I} _.
Arguments valid_ {I} _.
Arguments key_ {I} _.
Arguments Build_IteratorWrapper {I} _ _ _.

Section Wrapper.
Context {I : Type} `{Iterator I}.
Abbreviation W := (IteratorWrapper I).

(** A call of the wrapped iterator; [assert(iter_)]. *)
Definition on_iter {A} (c : M I A) : M W A :=
  fun w => match iter_ w with
           | None => Undef
           | Some it => match c it with
                        | Ret (a, it) => Ret (a, {| iter_ := Some it; valid_ := valid_ w; key_ := key_ w |})
                        | Undef => Undef
                        | NoFuel => NoFuel
                        end
           end.

Definition Wrapper_Update : M W unit :=
  let* valid := on_iter (let* it := get in ret (iter_Valid it)) in
  let* key := if valid then let* k := on_iter iter_key in ret (Some k) else ret None in
  fun w => Ret (tt, {| iter_ := iter_ w; valid_ := valid; key_ := match key with Some k => k | None => key_ w end |}).

(** [Set] without the deletion of the old iterator. *)
Definition Wrapper_Set (iter : option I) : M W unit :=
  let* w := get in
  match iter with
  | None => put {| iter_ := None; valid_ := false; key_ := key_ w |}
  | Some it => put {| iter_ := Some it; valid_ := valid_ w; key_ := key_ w |} ;;; Wrapper_Update
  end.

Definition Wrapper_new : W := {| iter_ := None; valid_ := false; key_ := [] |}.

Definition Wrapper_Valid (w : W) : bool := valid_ w.
Definition Wrapper_key : M W Slice := let* w := get in if valid_ w then ret (key_ w) else undef.
Definition Wrapper_value : M W Slice := let* w := get in if valid_ w then on_iter iter_value else undef.
Definition Wrapper_status : M W Status := on_iter (let* it := get in ret (iter_status it)).
Definition Wrapper_Next : M W unit := on_iter iter_Next ;;; Wrapper_Update.
Definition Wrapper_Prev : M W unit := on_iter iter_Prev ;;; Wrapper_Update.
Definition Wrapper_Seek (k : Slice) : M W unit := on_iter (iter_Seek k) ;;; Wrapper_Update.
Definition Wrapper_SeekToFirst : M W unit := on_iter iter_SeekToFirst ;;; Wrapper_Update.
Definition Wrapper_SeekToLast : M W unit := on_iter iter_SeekToLast ;;; Wrapper_Update.

(** ** A wrapper does what its iterator does *)

Context {cmp : Slice -> Slice -> Z} {ok : Slice -> Prop} {kvs : list (Slice * Slice)} {At : I -> nat -> Prop}.
Context `{L : !IteratorLaws I cmp ok kvs At}.

(** The iterator is there, and the cache agrees with it. *)
Definition WrapAt (w : W) (i : nat) : Prop :=
  exists it, iter_ w = Some it /\ At it i /\ valid_ w = bool_decide (i < length kvs)%nat /\
    forall k v, kvs !! i = Some (k, v) -> key_ w = k.

Lemma Update_spec w it i : iter_ w = Some it -> At it i ->
  exists w', Wrapper_Update w = Ret (tt, w') /\ WrapAt w' i.
Proof.
  intros Hw HA. unfold Wrapper_Update, bind, on_iter, get, ret. rewrite Hw. cbn [iter_ valid_ key_].
  rewrite (it_valid it i HA). case_bool_decide as Hi.
  - destruct (lookup_lt_is_Some_2 kvs i Hi) as [[k v] Ek]. cbn [iter_ valid_ key_]. rewrite (it_key it i k v HA Ek). cbn [iter_ valid_ key_].
    eexists. split; [done|]. exists it. cbn [iter_ valid_ key_]. split; [done|]. split; [done|].
    split; [by rewrite bool_decide_true|]. intros k' v' E'. by simplify_eq.
  - eexists. split; [done|]. exists it. cbn [iter_ valid_ key_]. split; [done|]. split; [done|].
    split; [by rewrite bool_decide_false|]. intros k v Ek. by apply lookup_lt_Some in Ek.
Qed.

Lemma wrap_spec w it it' i (c : M I unit) : iter_ w = Some it -> c it = Ret (tt, it') -> At it' i ->
  exists w', (on_iter c ;;; Wrapper_Update) w = Ret (tt, w') /\ WrapAt w' i.
Proof.
  intros Hw Hc HA. unfold bind at 1, on_iter. rewrite Hw, Hc. by apply (Update_spec _ it').
Qed.

Lemma Set_spec w it i : At it i -> exists w', Wrapper_Set (Some it) w = Ret (tt, w') /\ WrapAt w' i.
Proof. intros HA. unfold Wrapper_Set, bind, get, put. by apply (Update_spec _ it). Qed.

Lemma WrapAt_bound w i : WrapAt w i -> (i <= length kvs)%nat.
Proof. intros (it & _ & HA & _). by eapply it_bound. Qed.

Lemma WrapAt_valid w i : WrapAt w i -> valid_ w = bool_decide (i < length kvs)%nat.
Proof. by intros (it & _ & _ & Hv & _). Qed.

Lemma Wrap_key_spec w i k v : WrapAt w i -> kvs !! i = Some (k, v) -> Wrapper_key w = Ret (k, w).
Proof.
  intros (it & _ & HA & Hv & Hk) Hi. unfold Wrapper_key, bind, get. rewrite Hv, bool_decide_true by by eapply lookup_lt_Some.
  by rewrite (Hk k v Hi).
Qed.

Lemma Wrap_value_spec w i k v : WrapAt w i -> kvs !! i = Some (k, v) -> Wrapper_value w = Ret (v, w).
Proof.
  intros (it & Hw & HA & Hv & _) Hi. unfold Wrapper_value, bind, get. rewrite Hv, bool_decide_true by by eapply lookup_lt_Some.
  unfold on_iter. rewrite Hw, (it_value it i k v HA Hi). destruct w as [it0 b k0]. cbn in *. by subst.
Qed.

Lemma Wrap_status_spec w i : WrapAt w i -> Wrapper_status w = Ret (Status_OK, w).
Proof.
  intros (it & Hw & HA & _). unfold Wrapper_status, on_iter, bind, get, ret. rewrite Hw, (it_status it i HA).
  destruct w as [it0 b k0]. cbn in *. by subst.
Qed.

Lemma Wrap_first_spec w i : WrapAt w i -> exists w', Wrapper_SeekToFirst w = Ret (tt, w') /\ WrapAt w' O.
Proof. intros (it & Hw & HA & _). destruct (it_first it i HA) as (it' & E & HA'). by apply (wrap_spec w it it'). Qed.

Lemma Wrap_last_spec w i : WrapAt w i -> exists w', Wrapper_SeekToLast w = Ret (tt, w') /\ WrapAt w' (length kvs - 1)%nat.
Proof. intros (it & Hw & HA & _). destruct (it_last it i HA) as (it' & E & HA'). by apply (wrap_spec w it it'). Qed.

Lemma Wrap_next_spec w i : WrapAt w i -> (i < length kvs)%nat -> exists w', Wrapper_Next w = Ret (tt, w') /\ WrapAt w' (S i).
Proof. intros (it & Hw & HA & _) Hi. destruct (it_next it i HA Hi) as (it' & E & HA'). by apply (wrap_spec w it it'). Qed.

Lemma Wrap_prev_spec w i : WrapAt w i -> (i < length kvs)%nat ->
  exists w', Wrapper_Prev w = Ret (tt, w') /\ WrapAt w' (match i with O => length kvs | S j => j end).
Proof. intros (it & Hw & HA & _) Hi. destruct (it_prev it i HA Hi) as (it' & E & HA'). by apply (wrap_spec w it it'). Qed.

Lemma Wrap_seek_spec w i target : WrapAt w i -> ok target ->
  exists w' m, Wrapper_Seek target w = Ret (tt, w') /\ WrapAt w' m /\
    Forall (fun kv => cmp kv.1 target < 0) (take m kvs) /\ Forall (fun kv => 0 <= cmp kv.1 target) (drop m kvs).
Proof.
  intros (it & Hw & HA & _) Ht. destruct (it_seek it i target HA Ht) as (it' & m & E & HA' & H1 & H2).
  destruct (wrap_spec w it it' m (iter_Seek target) Hw E HA') as (w' & E' & HW). by exists w', m.
Qed.
End Wrapper.
Arguments WrapAt {I} kvs At w i.

(** * Properties

    The iterators [Block::NewIterator] returns, as one type with virtual
    functions: over a block, over nothing, or over an error, each with the
    cleanup functions registered with it. *)

Inductive AnyKind : Type :=
| AnyEmpty (it : LvIterWrap.EmptyIterator)
| AnyBlock (data : Slice) (restarts num_restarts : Z) (it : Iter).

(** [C]: the cleanup functions with their arguments. *)
Record AnyIter (C : Type) : Type := { any_kind : AnyKind; any_cleanups : list C }.
Arguments any_kind {C} _.
Arguments any_cleanups {C} _.
Arguments Build_AnyIter {C} _ _.

Section AnyIter.
Context {C : Type}.
Variable comparator : Comparator.

(** The virtual functions: a call on whatever object it is. *)
Definition on_kind {A} (e : M LvIterWrap.EmptyIterator A) (b : Slice -> Z -> Z -> M Iter A) : M (AnyIter C) A :=
  fun it => match any_kind it with
            | AnyEmpty s => match e s with
                            | Ret (a, s) => Ret (a, Build_AnyIter (AnyEmpty s) (any_cleanups it))
                            | Undef => Undef
                            | NoFuel => NoFuel
                            end
            | AnyBlock data restarts num i => match b data restarts num i with
                                              | Ret (a, i) => Ret (a, Build_AnyIter (AnyBlock data restarts num i) (any_cleanups it))
                                              | Undef => Undef
                                              | NoFuel => NoFuel
                                              end
            end.

#[export] Instance AnyIter_iterator : Iterator (AnyIter C) := {
  iter_Valid it := match any_kind it with AnyEmpty s => iter_Valid s | AnyBlock _ restarts _ i => Iter_Valid restarts i end;
  iter_SeekToFirst := on_kind iter_SeekToFirst Iter_SeekToFirst;
  iter_SeekToLast := on_kind iter_SeekToLast Iter_SeekToLast;
  iter_Seek target := on_kind (iter_Seek target) (fun data restarts num => Iter_Seek comparator data restarts num target);
  iter_Next := on_kind iter_Next Iter_Next;
  iter_Prev := on_kind iter_Prev Iter_Prev;
  iter_key := on_kind iter_key (fun _ restarts _ => Iter_key restarts);
  iter_value := on_kind iter_value (fun data restarts _ => Iter_value data restarts);
  iter_status it := match any_kind it with AnyEmpty s => iter_status s | AnyBlock _ _ _ i => Iter_status i end
}.

Definition of_kind (k : AnyKind) : AnyIter C := Build_AnyIter k [].

(** [Block::NewIterator], [Undef] when the assertion of [Iter]'s constructor fails. *)
Definition NewIterator (b : Block) : outcome (AnyIter C) :=
  match Block_NewIterator b with
  | LvBlock.ErrorIterator s => Ret (of_kind (AnyEmpty (NewErrorIterator s)))
  | LvBlock.EmptyIterator => Ret (of_kind (AnyEmpty NewEmptyIterator))
  | NewIter (Some it) restarts num => Ret (of_kind (AnyBlock (LvBlock.data_ b) restarts num it))
  | NewIter None _ _ => Undef
  end.

Definition Iterator_RegisterCleanup (c : C) (it : AnyIter C) : AnyIter C :=
  Build_AnyIter (any_kind it) (RegisterCleanup c (any_cleanups it)).

(** ** Over a block that was built *)

Context {ok : Slice -> Prop} `{OL : !OrderLaws (Compare comparator) ok}.

(** The block [data] has the entries [kvs]. *)
Definition is_block (kvs : list (Slice * Slice)) (data : Slice) : Prop :=
  exists es R, data = block_data es R /\ Layout es R /\ size data < 2 ^ 32 /\ kvs_of es = kvs.

Definition AnyAt (kvs : list (Slice * Slice)) (it : AnyIter C) (i : nat) : Prop :=
  exists es R it0, Layout es R /\ size (block_data es R) < 2 ^ 32 /\ kvs_of es = kvs /\
    any_kind it = AnyBlock (block_data es R) (size (body es)) (Z.of_nat (length R)) it0 /\ AtPos es R it0 i.

Lemma build_is_block interval kvs data :
  1 <= interval -> StronglySorted (key_lt comparator) kvs -> Forall (fun kv => ok kv.1) kvs -> block_cost kvs < 2 ^ 32 ->
  build_block interval comparator kvs = Some data -> is_block kvs data.
Proof.
  intros Hi HS Hk Hc Hb. destruct (build_block_spec interval comparator ok kvs Hi HS Hk Hc) as (es & R & E & HL & Hes).
  rewrite Hb in E. injection E as ->. exists es, R. split_and!; [done|done| |done].
  pose proof (block_data_cost es R HL) as Hs. rewrite Hes in Hs. lia.
Qed.

Lemma NewIterator_at kvs data : is_block kvs data ->
  exists it, NewIterator (Block_new data) = Ret it /\ AnyAt kvs it (length kvs) /\ any_cleanups it = [].
Proof.
  intros (es & R & -> & HL & Hs & <-). destruct (LvBlockIter.NewIterator_spec es R HL Hs) as (it & En & HA).
  unfold NewIterator. rewrite En, (Block_new_spec es R HL Hs). eexists. split; [done|]. split; [|done].
  exists es, R, it. split_and!; [done|done|done|done|by rewrite kvs_length].
Qed.

Section Laws.
Context {kvs : list (Slice * Slice)}.
Context (Hok : Forall (fun kv => ok kv.1) kvs) (Hsorted : StronglySorted (key_lt comparator) kvs).

Lemma on_block_laws es R : Layout es R -> size (block_data es R) < 2 ^ 32 -> kvs_of es = kvs ->
  @IteratorLaws Iter (Compare comparator) ok kvs (Block_Iter comparator (block_data es R) (size (body es)) (Z.of_nat (length R))) (AtPos es R).
Proof.
  intros HL Hs Hes. destruct Hes. apply (Block_Iter_laws es R HL Hs comparator ok); [|by apply kvs_sorted].
  clear -Hok. unfold kvs_of in Hok. by rewrite Forall_map in Hok.
Qed.

(** A call that moves. *)
Lemma on_kind_move (f : M LvIterWrap.EmptyIterator unit) (g : Slice -> Z -> Z -> M Iter unit) it i (Q : nat -> Prop) :
  AnyAt kvs it i ->
  (forall es R it0, Layout es R -> size (block_data es R) < 2 ^ 32 -> kvs_of es = kvs -> AtPos es R it0 i ->
     exists it1 j, g (block_data es R) (size (body es)) (Z.of_nat (length R)) it0 = Ret (tt, it1) /\ AtPos es R it1 j /\ Q j) ->
  exists it' j, on_kind f g it = Ret (tt, it') /\ AnyAt kvs it' j /\ Q j.
Proof.
  intros (es & R & it0 & HL & Hs & Hes & Hk & HA) Hg. destruct (Hg es R it0 HL Hs Hes HA) as (it1 & j & E1 & HA1 & HQ).
  unfold on_kind. rewrite Hk, E1. eexists. exists j. split; [done|]. split; [|done]. by exists es, R, it1.
Qed.

Lemma on_kind_to (f : M LvIterWrap.EmptyIterator unit) (g : Slice -> Z -> Z -> M Iter unit) it i j :
  AnyAt kvs it i ->
  (forall es R it0, Layout es R -> size (block_data es R) < 2 ^ 32 -> kvs_of es = kvs -> AtPos es R it0 i ->
     exists it1, g (block_data es R) (size (body es)) (Z.of_nat (length R)) it0 = Ret (tt, it1) /\ AtPos es R it1 j) ->
  exists it', on_kind f g it = Ret (tt, it') /\ AnyAt kvs it' j.
Proof.
  intros HA Hg. destruct (on_kind_move f g it i (eq j) HA) as (it' & j' & E & HA' & <-); [|by exists it'].
  intros es R it0 HL Hs Hes H0. destruct (Hg es R it0 HL Hs Hes H0) as (it1 & E1 & H1). by exists it1, j.
Qed.

(** A call that reads. *)
Lemma on_kind_read (f : M LvIterWrap.EmptyIterator Slice) (g : Slice -> Z -> Z -> M Iter Slice) it i a : AnyAt kvs it i ->
  (forall es R it0, Layout es R -> size (block_data es R) < 2 ^ 32 -> kvs_of es = kvs -> AtPos es R it0 i ->
     g (block_data es R) (size (body es)) (Z.of_nat (length R)) it0 = Ret (a, it0)) ->
  on_kind f g it = Ret (a, it).
Proof.
  intros (es & R & it0 & HL & Hs & Hes & Hk & HA) Hg. unfold on_kind. rewrite Hk, (Hg es R it0 HL Hs Hes HA).
  destruct it as [k c]. cbn in *. by subst k.
Qed.

Lemma AnyAt_laws : IteratorLaws (AnyIter C) (Compare comparator) ok kvs (AnyAt kvs).
Proof.
  constructor.
  - intros it i (es & R & it0 & HL & Hs & Hes & Hk & HA). apply (it_bound (IteratorLaws := on_block_laws es R HL Hs Hes) it0 i HA).
  - intros it i (es & R & it0 & HL & Hs & Hes & Hk & HA). cbn [iter_Valid AnyIter_iterator]. rewrite Hk.
    apply (it_valid (IteratorLaws := on_block_laws es R HL Hs Hes) it0 i HA).
  - intros it i (es & R & it0 & HL & Hs & Hes & Hk & HA). cbn [iter_status AnyIter_iterator]. rewrite Hk.
    apply (it_status (IteratorLaws := on_block_laws es R HL Hs Hes) it0 i HA).
  - intros it i k v HA Hi. apply (on_kind_read _ _ it i k HA). intros es R it0 HL Hs Hes H0.
    apply (it_key (IteratorLaws := on_block_laws es R HL Hs Hes) it0 i k v H0 Hi).
  - intros it i k v HA Hi. apply (on_kind_read _ _ it i v HA). intros es R it0 HL Hs Hes H0.
    apply (it_value (IteratorLaws := on_block_laws es R HL Hs Hes) it0 i k v H0 Hi).
  - intros it i HA. apply (on_kind_to _ _ it i _ HA). intros es R it0 HL Hs Hes H0.
    apply (it_first (IteratorLaws := on_block_laws es R HL Hs Hes) it0 i H0).
  - intros it i HA. apply (on_kind_to _ _ it i _ HA). intros es R it0 HL Hs Hes H0.
    apply (it_last (IteratorLaws := on_block_laws es R HL Hs Hes) it0 i H0).
  - intros it i HA Hi. apply (on_kind_to _ _ it i _ HA). intros es R it0 HL Hs Hes H0.
    apply (it_next (IteratorLaws := on_block_laws es R HL Hs Hes) it0 i H0 Hi).
  - intros it i HA Hi. apply (on_kind_to _ _ it i _ HA). intros es R it0 HL Hs Hes H0.
    apply (it_prev (IteratorLaws := on_block_laws es R HL Hs Hes) it0 i H0 Hi).
  - intros it i target HA Ht. destruct (on_kind_move (iter_Seek target) (fun data restarts num => Iter_Seek comparator data restarts num target) it i
      (fun m => Forall (fun kv => Compare comparator kv.1 target < 0) (take m kvs) /\ Forall (fun kv => 0 <= Compare comparator kv.1 target) (drop m kvs)) HA)
      as (it' & j & E & HA' & HQ1 & HQ2); [|by exists it', j].
    intros es R it0 HL Hs Hes H0.
    destruct (it_seek (IteratorLaws := on_block_laws es R HL Hs Hes) it0 i target H0 Ht) as (it1 & m & E & HA1 & H1 & H2). by exists it1, m.
Qed.
End Laws.
End AnyIter.
