(* ===== verification/LvTwoLevel.v ===== *)
(** The two-level iterator ([table/two_level_iterator.cc]): an index whose values
    lead to blocks of entries. The file and the cache the blocks come from are
    its environment. *)

From stdpp Require Import base list gmap strings sorting.
From Stdlib Require Import ZArith Lia.
From S2P Require Import Prelude LvSlice LvIterator LvIterWrap.

(** * The code *)

Record TwoLevelIterator (E X D : Type) : Type := {
  env_ : E; status_ : Status; index_iter_ : IteratorWrapper X; data_iter_ : IteratorWrapper D;
  data_block_handle_ : Slice
}.
Arguments env_ {E X D} _.
Arguments status_ {E X D} _.
Arguments index_iter_ {E X D} _.
Arguments data_iter_ {E X D} _.
Arguments data_block_handle_ {E X D} _.
Arguments Build_TwoLevelIterator {E X D} _ _ _ _ _.

Section TwoLevel.
Context {E X D : Type} `{IX : Iterator X} `{ID : Iterator D}.
(** [block_function_] with its argument and the read options, and what deleting
    the iterators it makes does. *)
Variables (block_function : Slice -> M E D) (delete_iter : D -> M E unit).
(** More than the blocks the index has. *)
Variable skip_fuel : nat.
Abbreviation T := (TwoLevelIterator E X D).

Definition on_env {A} (c : M E A) : M T A :=
  fun t => match c (env_ t) with
           | Ret (a, e) => Ret (a, Build_TwoLevelIterator e (status_ t) (index_iter_ t) (data_iter_ t) (data_block_handle_ t))
           | Undef => Undef
           | NoFuel => NoFuel
           end.

Definition on_index {A} (c : M (IteratorWrapper X) A) : M T A :=
  fun t => match c (index_iter_ t) with
           | Ret (a, w) => Ret (a, Build_TwoLevelIterator (env_ t) (status_ t) w (data_iter_ t) (data_block_handle_ t))
           | Undef => Undef
           | NoFuel => NoFuel
           end.

Definition on_data {A} (c : M (IteratorWrapper D) A) : M T A :=
  fun t => match c (data_iter_ t) with
           | Ret (a, w) => Ret (a, Build_TwoLevelIterator (env_ t) (status_ t) (index_iter_ t) w (data_block_handle_ t))
           | Undef => Undef
           | NoFuel => NoFuel
           end.

Definition SaveError (s : Status) : M T unit :=
  fun t => Ret (tt, Build_TwoLevelIterator (env_ t) (if Status_ok (status_ t) && negb (Status_ok s) then s else status_ t)
    (index_iter_ t) (data_iter_ t) (data_block_handle_ t)).

Definition SetDataIterator (data_iter : option D) : M T unit :=
  let* t := get in
  match iter_ (data_iter_ t) with
  | Some old => SaveError (iter_status old) ;;; on_env (delete_iter old)
  | None => ret tt
  end ;;;
  on_data (Wrapper_Set data_iter).

Definition InitDataBlock : M T unit :=
  let* t := get in
  if negb (Wrapper_Valid (index_iter_ t)) then SetDataIterator None
  else
    let* handle := on_index Wrapper_value in
    if match iter_ (data_iter_ t) with Some _ => Slice_compare handle (data_block_handle_ t) =? 0 | None => false end
    then ret tt
    else
      let* iter := on_env (block_function handle) in
      (fun t => Ret (tt, Build_TwoLevelIterator (env_ t) (status_ t) (index_iter_ t) (data_iter_ t) handle)) ;;;
      SetDataIterator (Some iter).

(** [if (data_iter_.iter() != nullptr) ...]. *)
Definition if_data (c : M (IteratorWrapper D) unit) : M T unit :=
  let* t := get in match iter_ (data_iter_ t) with Some _ => on_data c | None => ret tt end.

(** [data_iter_.iter() == nullptr || !data_iter_.Valid()]. *)
Definition no_data (t : T) : bool :=
  match iter_ (data_iter_ t) with None => true | Some _ => negb (Wrapper_Valid (data_iter_ t)) end.

Fixpoint SkipEmptyDataBlocksForward (fuel : nat) : M T unit :=
  match fuel with
  | O => nofuel
  | S fuel =>
      let* t := get in
      if no_data t then
        if negb (Wrapper_Valid (index_iter_ t)) then SetDataIterator None
        else
          on_index Wrapper_Next ;;;
          InitDataBlock ;;;
          if_data Wrapper_SeekToFirst ;;;
          SkipEmptyDataBlocksForward fuel
      else ret tt
  end.

Fixpoint SkipEmptyDataBlocksBackward (fuel : nat) : M T unit :=
  match fuel with
  | O => nofuel
  | S fuel =>
      let* t := get in
      if no_data t then
        if negb (Wrapper_Valid (index_iter_ t)) then SetDataIterator None
        else
          on_index Wrapper_Prev ;;;
          InitDataBlock ;;;
          if_data Wrapper_SeekToLast ;;;
          SkipEmptyDataBlocksBackward fuel
      else ret tt
  end.

Definition TwoLevel_Seek (target : Slice) : M T unit :=
  on_index (Wrapper_Seek target) ;;;
  InitDataBlock ;;;
  if_data (Wrapper_Seek target) ;;;
  SkipEmptyDataBlocksForward skip_fuel.

Definition TwoLevel_SeekToFirst : M T unit :=
  on_index Wrapper_SeekToFirst ;;;
  InitDataBlock ;;;
  if_data Wrapper_SeekToFirst ;;;
  SkipEmptyDataBlocksForward skip_fuel.

Definition TwoLevel_SeekToLast : M T unit :=
  on_index Wrapper_SeekToLast ;;;
  InitDataBlock ;;;
  if_data Wrapper_SeekToLast ;;;
  SkipEmptyDataBlocksBackward skip_fuel.

Definition TwoLevel_Valid (t : T) : bool := Wrapper_Valid (data_iter_ t).

Definition TwoLevel_Next : M T unit :=
  let* t := get in
  if negb (TwoLevel_Valid t) then undef
  else on_data Wrapper_Next ;;; SkipEmptyDataBlocksForward skip_fuel.

Definition TwoLevel_Prev : M T unit :=
  let* t := get in
  if negb (TwoLevel_Valid t) then undef
  else on_data Wrapper_Prev ;;; SkipEmptyDataBlocksBackward skip_fuel.

Definition TwoLevel_key : M T Slice :=
  let* t := get in if negb (TwoLevel_Valid t) then undef else on_data Wrapper_key.

Definition TwoLevel_value : M T Slice :=
  let* t := get in if negb (TwoLevel_Valid t) then undef else on_data Wrapper_value.

(** The wrapped index iterator is never null ([assert(iter_)]). *)
Definition TwoLevel_status (t : T) : Status :=
  let index_status := match iter_ (index_iter_ t) with Some it => iter_status it | None => Status_OK end in
  if negb (Status_ok index_status) then index_status
  else match iter_ (data_iter_ t) with
       | Some it => if negb (Status_ok (iter_status it)) then iter_status it else status_ t
       | None => status_ t
       end.

(** [NewTwoLevelIterator]. *)
Definition NewTwoLevelIterator (e : E) (index_iter : X) : outcome (T) :=
  match Wrapper_Set (Some index_iter) Wrapper_new with
  | Ret (_, w) => Ret (Build_TwoLevelIterator e Status_OK w Wrapper_new [])
  | Undef => Undef
  | NoFuel => NoFuel
  end.

(** [~TwoLevelIterator]: the members are deleted in reverse order. What is left
    is the environment. *)
Definition TwoLevel_delete (delete_index : X -> M E unit) (t : T) : outcome E :=
  match (match iter_ (data_iter_ t) with Some d => delete_iter d | None => ret tt end ;;;
         match iter_ (index_iter_ t) with Some x => delete_index x | None => ret tt end) (env_ t) with
  | Ret (_, e) => Ret e
  | Undef => Undef
  | NoFuel => NoFuel
  end.

#[export] Instance TwoLevel_iterator : Iterator T := {
  iter_Valid := TwoLevel_Valid;
  iter_SeekToFirst := TwoLevel_SeekToFirst;
  iter_SeekToLast := TwoLevel_SeekToLast;
  iter_Seek := TwoLevel_Seek;
  iter_Next := TwoLevel_Next;
  iter_Prev := TwoLevel_Prev;
  iter_key := TwoLevel_key;
  iter_value := TwoLevel_value;
  iter_status := TwoLevel_status
}.
End TwoLevel.

(** * Properties

    The two-level iterator over an index and its blocks is an iterator over the
    entries of all blocks, in order. *)

Section Laws.
Context {E X D Own : Type} {IX : Iterator X} {ID : Iterator D}.
Context {block_function : Slice -> M E D} {delete_iter : D -> M E unit} {skip_fuel : nat}.
Context {cmp : Slice -> Slice -> Z} {ok : Slice -> Prop} {OL : OrderLaws cmp ok}.
Context {idx : list (Slice * Slice)} {blocks : list (list (Slice * Slice))}.
Context {XAt : X -> nat -> Prop} {DAt : nat -> Own -> D -> nat -> Prop} {env_ok : list Own -> E -> Prop}.

Definition block (j : nat) : list (Slice * Slice) := nth j blocks [].

(** The index, the blocks it leads to, and the environment they come from. An
    iterator over a block owns something of the environment, which is given back
    when the iterator is deleted: [env_ok os e] says that [os] is owned. *)
Class TwoLevelOk : Prop := {
  tl_index :: IteratorLaws X cmp ok idx XAt;
  tl_block j o : IteratorLaws D cmp ok (block j) (DAt j o);
  tl_length : length idx = length blocks;
  tl_function j ik h os e : idx !! j = Some (ik, h) -> (length os <= 1)%nat -> env_ok os e ->
    exists d e' o p, block_function h e = Ret (d, e') /\ env_ok (o :: os) e' /\ DAt j o d p;
  tl_handles : NoDup idx.*2;
  tl_delete j o d p os1 os2 e : DAt j o d p -> env_ok (os1 ++ o :: os2) e ->
    exists e', delete_iter d e = Ret (tt, e') /\ env_ok (os1 ++ os2) e';
  tl_fuel : (length idx < skip_fuel)%nat
}.
Context {HT : TwoLevelOk}.
#[local] Existing Instance tl_block.

Abbreviation T := (TwoLevelIterator E X D).
Abbreviation Init := (InitDataBlock block_function delete_iter).
Abbreviation Forward := (SkipEmptyDataBlocksForward block_function delete_iter).
Abbreviation Backward := (SkipEmptyDataBlocksBackward block_function delete_iter).

Definition kvs : list (Slice * Slice) := concat blocks.
Definition base (j : nat) : nat := length (concat (take j blocks)).

(** ** States *)

Definition IndexAt (t : T) (j : nat) : Prop := status_ t = Status_OK /\ WrapAt idx XAt (index_iter_ t) j.

(** What the open block owns. *)
Definition Owns (t : T) (os : list Own) : Prop :=
  (iter_ (data_iter_ t) = None /\ valid_ (data_iter_ t) = false /\ os = []) \/
  exists k o p, WrapAt (block k) (DAt k o) (data_iter_ t) p /\ os = [o].

Definition NoData (t : T) : Prop := iter_ (data_iter_ t) = None /\ valid_ (data_iter_ t) = false /\ env_ok [] (env_ t).

Definition DataAt (t : T) (j p : nat) : Prop :=
  exists o, WrapAt (block j) (DAt j o) (data_iter_ t) p /\ env_ok [o] (env_ t) /\ exists ik, idx !! j = Some (ik, data_block_handle_ t).

(** Whatever block is open. *)
Definition AnyData (t : T) : Prop := NoData t \/ exists j p, DataAt t j p.

(** At the entry [p] of the block [j], or at its end. *)
Definition At2 (t : T) (j p : nat) : Prop := IndexAt t j /\ DataAt t j p.

Definition TLAt (t : T) (i : nat) : Prop :=
  (i = length kvs /\ exists j, IndexAt t j /\ NoData t) \/
  (exists j p, i = (base j + p)%nat /\ (p < length (block j))%nat /\ At2 t j p).

(** ** Numbers of entries *)

Lemma block_lookup j b : blocks !! j = Some b -> block j = b.
Proof. intros Hj. unfold block. by apply nth_lookup_Some. Qed.

Lemma base_S j : base (S j) = (base j + length (block j))%nat.
Proof.
  unfold base. destruct (decide (j < length blocks)%nat) as [Hj|Hj].
  - destruct (lookup_lt_is_Some_2 blocks j Hj) as [b Hb]. rewrite (take_S_r _ _ _ Hb), concat_app, length_app. cbn [concat].
    by rewrite app_nil_r, (block_lookup j b Hb).
  - unfold block. rewrite !take_ge, nth_overflow by lia. cbn. lia.
Qed.

Lemma base_end j : (length blocks <= j)%nat -> base j = length kvs.
Proof. intros Hj. unfold base, kvs. by rewrite take_ge. Qed.

Lemma kvs_split j : (j < length blocks)%nat -> kvs = concat (take j blocks) ++ block j ++ concat (drop (S j) blocks).
Proof.
  intros Hj. destruct (lookup_lt_is_Some_2 blocks j Hj) as [b Hb]. unfold kvs. rewrite <- (take_drop j blocks) at 1.
  by rewrite concat_app, (drop_S _ _ _ Hb), (block_lookup j b Hb).
Qed.

Lemma DataAt_lt t j p : DataAt t j p -> (j < length blocks)%nat.
Proof. intros (o & _ & _ & ik & Hj). apply lookup_lt_Some in Hj. by rewrite <- tl_length. Qed.

Lemma blocks_lookup t j p : DataAt t j p -> (p < length (block j))%nat -> kvs !! (base j + p)%nat = block j !! p.
Proof.
  intros HD Hp. rewrite (kvs_split j) by by eapply DataAt_lt. rewrite lookup_app_r by (unfold base; lia).
  unfold base. rewrite Nat.add_comm, Nat.add_sub. by rewrite lookup_app_l.
Qed.

(** ** The parts of the iterator *)

Lemma Owns_status t os old : Owns t os -> iter_ (data_iter_ t) = Some old -> iter_status old = Status_OK.
Proof.
  intros [[Hn _]|(k & o & p & (d & Hd & HD & _) & _)] Ho; [congruence|]. rewrite Ho in Hd. injection Hd as ->. by eapply (it_status (IteratorLaws := tl_block k o)).
Qed.

Lemma AnyData_owns t : AnyData t -> exists os, Owns t os /\ env_ok os (env_ t).
Proof.
  intros [(Hn & Hv & He)|(k & p & o & HW & He & _)]; [exists []; split; [by left|done]|]. exists [o]. split; [|done]. right. by exists k, o, p.
Qed.

Lemma Owns_length t os : Owns t os -> (length os <= 1)%nat.
Proof. intros [(_ & _ & ->)|(k & o & p & _ & ->)]; cbn [length]; lia. Qed.

(** Deleting the old iterator, without an error to save. *)
Lemma SetDataIterator_eq t j new os1 os : IndexAt t j -> Owns t os -> env_ok (os1 ++ os) (env_ t) ->
  exists t1, SetDataIterator delete_iter new t = on_data (Wrapper_Set new) t1 /\
    IndexAt t1 j /\ env_ok os1 (env_ t1) /\ index_iter_ t1 = index_iter_ t /\ data_iter_ t1 = data_iter_ t /\
    data_block_handle_ t1 = data_block_handle_ t.
Proof.
  intros (Hs & Hi) HO He. pose proof (Owns_status t os) as Hst. unfold SetDataIterator, bind at 1, get at 1.
  destruct HO as [(Hn & Hv & ->)|(k & o & p & HW & ->)].
  - rewrite Hn. rewrite app_nil_r in He. by exists t.
  - destruct HW as (old & Ed & HD & Hv & Hk). rewrite Ed.
    destruct (tl_delete k o old p os1 [] (env_ t) HD He) as (e' & Edel & He'). rewrite app_nil_r in He'.
    specialize (Hst old ltac:(right; exists k, o, p; split; [by exists old|done]) Ed). unfold bind, SaveError, on_env. rewrite Hst, Hs.
    cbn [env_ status_ Status_ok Status_OK negb andb]. rewrite Edel.
    exists (Build_TwoLevelIterator e' Status_OK (index_iter_ t) (data_iter_ t) (data_block_handle_ t)). by split_and!.
Qed.

Lemma SetDataIterator_none t j : IndexAt t j -> AnyData t ->
  exists t', SetDataIterator delete_iter None t = Ret (tt, t') /\ IndexAt t' j /\ NoData t'.
Proof.
  intros HI HA. destruct (AnyData_owns t HA) as (os & HO & He).
  destruct (SetDataIterator_eq t j None [] os HI HO He) as (t1 & -> & (Hs & Hi) & He1 & _).
  eexists. split; [done|]. by split_and!.
Qed.

Lemma SetDataIterator_some t j d p k o os ik : IndexAt t j -> Owns t os -> env_ok (o :: os) (env_ t) ->
  DAt k o d p -> idx !! k = Some (ik, data_block_handle_ t) ->
  exists t', SetDataIterator delete_iter (Some d) t = Ret (tt, t') /\ IndexAt t' j /\ DataAt t' k p.
Proof.
  intros HI HO He HD Hk. destruct (SetDataIterator_eq t j (Some d) [o] os HI HO He) as (t1 & -> & (Hs & Hi) & He1 & _ & _ & Eh).
  destruct (Set_spec (data_iter_ t1) d p HD) as (w' & E' & HW). unfold on_data. rewrite E'.
  eexists. split; [done|]. split; [by split_and!|]. exists o. split; [done|]. split; [done|]. exists ik. cbn [data_block_handle_]. by rewrite Eh.
Qed.

Lemma index_valid t j : IndexAt t j -> Wrapper_Valid (index_iter_ t) = bool_decide (j < length idx)%nat.
Proof. intros (_ & Hi). by apply WrapAt_valid in Hi. Qed.

(** A step of the index leaves the data alone. *)
Lemma on_index_step t j j' c : IndexAt t j -> AnyData t ->
  (exists w', c (index_iter_ t) = Ret (tt, w') /\ WrapAt idx XAt w' j') ->
  exists t', on_index c t = Ret (tt, t') /\ IndexAt t' j' /\ AnyData t'.
Proof.
  intros (Hs & Hi) HA (w' & Ec & HW). unfold on_index. rewrite Ec. eexists. split; [done|]. by split.
Qed.

Lemma on_data_step t j p p' c : At2 t j p ->
  (forall o w, WrapAt (block j) (DAt j o) w p -> exists w', c w = Ret (tt, w') /\ WrapAt (block j) (DAt j o) w' p') ->
  exists t', on_data c t = Ret (tt, t') /\ At2 t' j p'.
Proof.
  intros [HI (o & HW & He & Hh)] Hc. destruct (Hc o _ HW) as (w' & Ec & HW'). unfold on_data. rewrite Ec. eexists. split; [done|].
  split; [done|]. by exists o.
Qed.

Lemma handle_inj j k ik ik' h : idx !! j = Some (ik, h) -> idx !! k = Some (ik', h) -> j = k.
Proof.
  intros Hj Hk. pose proof tl_handles as HN. eapply NoDup_lookup; [exact HN| |]; rewrite list_lookup_fmap.
  - by rewrite Hj.
  - by rewrite Hk.
Qed.

(** [InitDataBlock] opens the block the index is at. *)
Lemma Init_spec t j : IndexAt t j -> AnyData t ->
  exists t', Init t = Ret (tt, t') /\ IndexAt t' j /\
    (if decide (j < length idx)%nat then exists p, DataAt t' j p else NoData t').
Proof.
  intros HI HA. unfold InitDataBlock, bind at 1, get at 1. rewrite (index_valid t j HI).
  case_bool_decide as Hj; cbn [negb].
  2:{ destruct (decide (j < length idx)%nat) as [|_]; [done|]. by apply SetDataIterator_none. }
  destruct (decide (j < length idx)%nat) as [_|]; [|done]. destruct (lookup_lt_is_Some_2 idx j Hj) as [[ik h] Ej].
  assert (Ev : on_index Wrapper_value t = Ret (h, t)).
  { unfold on_index. destruct HI as (_ & Hi). rewrite (Wrap_value_spec _ _ _ _ Hi Ej). by destruct t. }
  unfold bind at 1. rewrite Ev.
  destruct (match iter_ (data_iter_ t) with Some _ => Slice_compare h (data_block_handle_ t) =? 0 | None => false end) eqn:Er.
  - exists t. split; [done|]. split; [done|]. destruct HA as [[Hn _]|(k & p & HD)]; [by rewrite Hn in Er|].
    destruct (iter_ (data_iter_ t)); [|done]. apply Z.eqb_eq, compare_eq_iff in Er. exists p.
    destruct HD as (o & HW & He & ik' & Hk). rewrite <- Er in Hk. rewrite (handle_inj j k ik ik' h Ej Hk) in *. exists o. split; [done|].
    split; [done|]. exists ik'. by rewrite <- Er.
  - destruct HI as (Hs & Hi). destruct (AnyData_owns t HA) as (os & HO & He). destruct (tl_function j ik h os (env_ t) Ej (Owns_length t os HO) He) as (d & e' & o & p & Ef & He' & HD).
    unfold bind at 1, on_env. rewrite Ef. unfold bind at 1.
    destruct (SetDataIterator_some (Build_TwoLevelIterator e' (status_ t) (index_iter_ t) (data_iter_ t) h) j d p j o os ik)
      as (t' & Et & HI' & HD'); [by split_and!|exact HO|done|done|done|].
    exists t'. split; [exact Et|]. split; [done|]. by exists p.
Qed.

Lemma if_data_none t c : NoData t -> if_data c t = Ret (tt, t).
Proof. intros [Hn _]. unfold if_data, bind, get. by rewrite Hn. Qed.

(** [if_data] on a block that is open, whoever owns it. *)
Lemma if_data_one t j o p p' c w' : IndexAt t j -> WrapAt (block j) (DAt j o) (data_iter_ t) p -> env_ok [o] (env_ t) ->
  (exists ik, idx !! j = Some (ik, data_block_handle_ t)) -> c (data_iter_ t) = Ret (tt, w') -> WrapAt (block j) (DAt j o) w' p' ->
  exists t', if_data c t = Ret (tt, t') /\ At2 t' j p'.
Proof.
  intros HI (d & Hd & _) He Hh Ec HW'. unfold if_data, bind, get. rewrite Hd. unfold on_data. rewrite Ec. eexists. split; [done|].
  split; [done|]. by exists o.
Qed.

Lemma if_data_at t j p p' c : At2 t j p ->
  (forall o w, WrapAt (block j) (DAt j o) w p -> exists w', c w = Ret (tt, w') /\ WrapAt (block j) (DAt j o) w' p') ->
  exists t', if_data c t = Ret (tt, t') /\ At2 t' j p'.
Proof.
  intros [HI (o & HW & He & Hh)] Hc. destruct (Hc o _ HW) as (w' & Ec & HW'). by eapply (if_data_one t j o p p' c w').
Qed.

Lemma no_data_none t : NoData t -> no_data t = true.
Proof. intros [Hn _]. unfold no_data. by rewrite Hn. Qed.

Lemma no_data_at t j p : DataAt t j p -> no_data t = negb (bool_decide (p < length (block j))%nat).
Proof. intros (o & HW & _). pose proof (WrapAt_valid _ _ HW) as Hv. destruct HW as (d & Hd & _). unfold no_data, Wrapper_Valid. by rewrite Hd, Hv. Qed.

(** Out of blocks. *)
Lemma skip_end (skip : M T unit) t : IndexAt t (length idx) -> NoData t ->
  (skip t = SetDataIterator delete_iter None t) -> exists t', skip t = Ret (tt, t') /\ TLAt t' (length kvs).
Proof.
  intros HI HN ->. destruct (SetDataIterator_none t _ HI (or_introl HN)) as (t' & Et & HI' & HN').
  exists t'. split; [done|]. left. split; [done|]. by exists (length idx).
Qed.

Lemma Forward_end fuel t : IndexAt t (length idx) -> NoData t ->
  exists t', Forward (S fuel) t = Ret (tt, t') /\ TLAt t' (length kvs).
Proof.
  intros HI HN. apply skip_end; [done|done|]. cbn [SkipEmptyDataBlocksForward]. unfold bind at 1, get at 1.
  by rewrite (no_data_none t HN), (index_valid t _ HI), bool_decide_false by lia.
Qed.

Lemma Backward_end fuel t : IndexAt t (length idx) -> NoData t ->
  exists t', Backward (S fuel) t = Ret (tt, t') /\ TLAt t' (length kvs).
Proof.
  intros HI HN. apply skip_end; [done|done|]. cbn [SkipEmptyDataBlocksBackward]. unfold bind at 1, get at 1.
  by rewrite (no_data_none t HN), (index_valid t _ HI), bool_decide_false by lia.
Qed.

Lemma Forward_spec fuel : forall t j p, At2 t j p -> (length idx - j < fuel)%nat ->
  exists t', Forward fuel t = Ret (tt, t') /\ TLAt t' (base j + p).
Proof.
  induction fuel as [|fuel IH]; intros t j p HA Hf; [lia|]. cbn [SkipEmptyDataBlocksForward]. unfold bind at 1, get at 1.
  pose proof HA as [HI HD]. pose proof (DataAt_lt _ _ _ HD) as Hj. rewrite <- tl_length in Hj.
  rewrite (no_data_at t j p HD). case_bool_decide as Hp; cbn [negb].
  - exists t. split; [done|]. right. by exists j, p.
  - assert (Ep : p = length (block j)) by (destruct HD as (o & HW & _); pose proof (WrapAt_bound _ _ HW); lia).
    rewrite (index_valid t j HI), bool_decide_true by done. cbn [negb].
    destruct (on_index_step t j (S j) Wrapper_Next HI (or_intror (ex_intro _ j (ex_intro _ p HD)))) as (t1 & E1 & HI1 & HA1).
    { destruct HI as (_ & Hi). by apply (Wrap_next_spec (index_iter_ t) j Hi). }
    destruct (Init_spec t1 (S j) HI1 HA1) as (t2 & E2 & HI2 & HD2). unfold bind at 1. rewrite E1. unfold bind at 1. rewrite E2.
    replace (base j + p)%nat with (base (S j)) by (rewrite base_S; lia). unfold bind at 1.
    destruct (decide (S j < length idx)%nat) as [Hj'|Hj'].
    + destruct HD2 as (p2 & HD2). destruct (if_data_at t2 (S j) p2 0 Wrapper_SeekToFirst) as (t3 & E3 & HA3); [by split| |].
      { intros o w HW. by apply (Wrap_first_spec w p2). }
      rewrite E3. destruct (IH t3 (S j) 0%nat HA3) as (t4 & E4 & H4); [lia|]. exists t4. by rewrite Nat.add_0_r in H4.
    + rewrite (if_data_none t2 _ HD2). rewrite base_end by (rewrite <- tl_length; lia).
      destruct fuel as [|fuel]; [lia|]. replace (S j) with (length idx) in HI2 by lia. by apply Forward_end.
Qed.

(** The position before the entry [i]. *)
Definition before (i : nat) : nat := match i with O => length kvs | S k => k end.

Lemma Backward_spec fuel : forall t j p, At2 t j p -> (j + 1 < fuel)%nat ->
  exists t', Backward fuel t = Ret (tt, t') /\
    TLAt t' (if decide (p < length (block j))%nat then (base j + p)%nat else before (base j)).
Proof.
  induction fuel as [|fuel IH]; intros t j p HA Hf; [lia|]. cbn [SkipEmptyDataBlocksBackward]. unfold bind at 1, get at 1.
  pose proof HA as [HI HD]. pose proof (DataAt_lt _ _ _ HD) as Hj. rewrite <- tl_length in Hj.
  rewrite (no_data_at t j p HD). destruct (decide (p < length (block j))%nat) as [Hp|Hp].
  - rewrite bool_decide_true by done. cbn [negb]. exists t. split; [done|]. right. by exists j, p.
  - rewrite bool_decide_false by done. cbn [negb]. rewrite (index_valid t j HI), bool_decide_true by done. cbn [negb].
    destruct (on_index_step t j (match j with O => length idx | S k => k end) Wrapper_Prev HI (or_intror (ex_intro _ j (ex_intro _ p HD))))
      as (t1 & E1 & HI1 & HA1).
    { destruct HI as (_ & Hi). by apply (Wrap_prev_spec (index_iter_ t) j Hi). }
    destruct (Init_spec t1 _ HI1 HA1) as (t2 & E2 & HI2 & HD2). unfold bind at 1. rewrite E1. unfold bind at 1. rewrite E2.
    unfold bind at 1. destruct j as [|k].
    + destruct (decide (length idx < length idx)%nat); [lia|]. rewrite (if_data_none t2 _ HD2).
      destruct fuel as [|fuel]; [lia|]. by apply Backward_end.
    + destruct (decide (k < length idx)%nat); [|lia]. destruct HD2 as (p2 & HD2).
      destruct (if_data_at t2 k p2 (length (block k) - 1) Wrapper_SeekToLast) as (t3 & E3 & HA3); [by split| |].
      { intros o w HW. by apply (Wrap_last_spec w p2). }
      rewrite E3. destruct (IH t3 k _ HA3) as (t4 & E4 & H4); [lia|]. exists t4. split; [done|]. rewrite base_S.
      destruct (decide (length (block k) - 1 < length (block k))%nat) as [Hk|Hk].
      * replace (before (base k + length (block k))) with (base k + (length (block k) - 1))%nat; [done|].
        destruct (base k + length (block k))%nat eqn:Eb; cbn [before]; lia.
      * by replace (base k + length (block k))%nat with (base k) by lia.
Qed.

(** ** The laws *)

Lemma TLAt_status t i : TLAt t i -> TwoLevel_status t = Status_OK.
Proof.
  intros HA. assert (HI : exists j, IndexAt t j) by (destruct HA as [[_ (j & HI & _)]|(j & p & _ & _ & HI & _)]; by exists j).
  destruct HI as (j & Hs & (x & Hx & HX & _)). unfold TwoLevel_status. rewrite Hx, (it_status x j HX). cbn [Status_ok Status_OK negb].
  destruct (iter_ (data_iter_ t)) as [d|] eqn:Ed; [|done].
  assert (HD : AnyData t) by (destruct HA as [[_ (k & _ & HN)]|(k & p & _ & _ & _ & HD)]; [by left|right; by exists k, p]).
  destruct (AnyData_owns t HD) as (os & HO & _). by rewrite (Owns_status t os d HO Ed).
Qed.

Lemma TLAt_any t i : TLAt t i -> exists j, IndexAt t j /\ AnyData t.
Proof.
  intros [[_ (j & HI & HN)]|(j & p & _ & _ & HI & HD)]; exists j; (split; [done|]); [by left|right; by exists j, p].
Qed.

Lemma base_le j p : (j < length blocks)%nat -> (p < length (block j))%nat -> (base j + p < length kvs)%nat.
Proof.
  intros Hj Hp. rewrite (kvs_split j Hj), !length_app. unfold base. lia.
Qed.

Lemma TLAt_bound t i : TLAt t i -> (i <= length kvs)%nat.
Proof.
  intros [[-> _]|(j & p & -> & Hp & _ & HD)]; [done|]. apply DataAt_lt in HD. by apply Nat.lt_le_incl, base_le.
Qed.

Lemma TLAt_valid t i : TLAt t i -> TwoLevel_Valid t = bool_decide (i < length kvs)%nat.
Proof.
  intros [[-> (j & _ & (_ & Hv & _))]|(j & p & -> & Hp & _ & HD)]; unfold TwoLevel_Valid, Wrapper_Valid.
  - by rewrite Hv, bool_decide_false by lia.
  - pose proof (DataAt_lt _ _ _ HD) as Hj. destruct HD as (o & HW & _). rewrite (WrapAt_valid _ _ HW).
    rewrite !bool_decide_true; [done|by apply base_le|done].
Qed.

Lemma TLAt_inside t i : TLAt t i -> (i < length kvs)%nat ->
  exists j p, i = (base j + p)%nat /\ (p < length (block j))%nat /\ At2 t j p.
Proof. intros [[-> _]|H] Hi; [lia|done]. Qed.

(** Opening the block after a seek of the index to [j]. *)
Lemma open_spec t i j (c : M (IteratorWrapper X) unit) : TLAt t i ->
  (exists w', c (index_iter_ t) = Ret (tt, w') /\ WrapAt idx XAt w' j) ->
  exists t', (on_index c ;;; Init) t = Ret (tt, t') /\ IndexAt t' j /\
    (if decide (j < length idx)%nat then exists p, DataAt t' j p else NoData t').
Proof.
  intros HA Hc. destruct (TLAt_any t i HA) as (k & HI & HAny). destruct (on_index_step t k j c HI HAny Hc) as (t1 & E1 & HI1 & HA1).
  unfold bind. rewrite E1. by apply Init_spec.
Qed.

(** A seek: of the index, opening the block, of the block, then [skip]. *)
Lemma seek_run t i j (R : nat -> Prop) (c : M (IteratorWrapper X) unit) (cd : M (IteratorWrapper D) unit) (skip : M T unit) (Q : T -> Prop) :
  TLAt t i -> (exists w', c (index_iter_ t) = Ret (tt, w') /\ WrapAt idx XAt w' j) ->
  ((j < length idx)%nat -> forall o d q, WrapAt (block j) (DAt j o) d q -> exists w' p, cd d = Ret (tt, w') /\ WrapAt (block j) (DAt j o) w' p /\ R p) ->
  ((j < length idx)%nat -> forall t' p, R p -> At2 t' j p -> exists t'', skip t' = Ret (tt, t'') /\ Q t'') ->
  ((length idx <= j)%nat -> forall t', IndexAt t' j -> NoData t' -> exists t'', skip t' = Ret (tt, t'') /\ Q t'') ->
  exists t', (on_index c ;;; Init ;;; if_data cd ;;; skip) t = Ret (tt, t') /\ Q t'.
Proof.
  intros HA Hc Hd H1 H2. destruct (open_spec t i j c HA Hc) as (t1 & Et & HI1 & HD1).
  assert (Eb : (on_index c ;;; Init ;;; if_data cd ;;; skip) t = (if_data cd ;;; skip) t1).
  { unfold bind in Et |- *. destruct (on_index c t) as [[u t0]| |]; [|done..]. by rewrite Et. }
  rewrite Eb. unfold bind. destruct (decide (j < length idx)%nat) as [Hj|Hj].
  - destruct HD1 as (q & o & HW1 & He & Hh). destruct (Hd Hj o (data_iter_ t1) q HW1) as (w' & p & Ew & HW & HR).
    destruct (if_data_one t1 j o q p cd w' HI1 HW1 He Hh Ew HW) as (t2 & E2 & H2').
    rewrite E2. by apply (H1 Hj t2 p).
  - rewrite (if_data_none t1 cd HD1). apply H2; [lia|done|done].
Qed.

(** What the keys of the index say about the blocks. *)
Definition separates : Prop :=
  Forall (fun kv => ok kv.1) idx /\ Forall (fun kv => ok kv.1) kvs /\
  (forall j ik h kv, idx !! j = Some (ik, h) -> kv ∈ block j -> cmp kv.1 ik <= 0) /\
  (forall j k ik h kv, idx !! j = Some (ik, h) -> (j < k)%nat -> kv ∈ block k -> cmp ik kv.1 < 0).
Context (Hsep : separates).

Lemma in_block_kvs j kv : kv ∈ block j -> kv ∈ kvs.
Proof.
  intros Hkv. unfold block in Hkv. destruct (decide (j < length blocks)%nat) as [Hj|Hj].
  - rewrite (kvs_split j Hj). unfold block. apply elem_of_app. right. apply elem_of_app. by left.
  - rewrite nth_overflow in Hkv by lia. by apply elem_of_nil in Hkv.
Qed.

Lemma in_take j kv : kv ∈ concat (take j blocks) -> exists k, (k < j)%nat /\ (k < length blocks)%nat /\ kv ∈ block k.
Proof.
  intros Hkv. apply list_elem_of_In, in_concat in Hkv as (b & Hb & Hk). apply list_elem_of_In in Hb, Hk.
  apply list_elem_of_lookup in Hb as (k & Hb). apply lookup_take_Some in Hb as [Hb Hlt]. exists k. split; [done|].
  split; [by eapply lookup_lt_Some|]. by rewrite (block_lookup k b Hb).
Qed.

Lemma in_drop j kv : kv ∈ concat (drop j blocks) -> exists k, (j <= k)%nat /\ kv ∈ block k.
Proof.
  intros Hkv. apply list_elem_of_In, in_concat in Hkv as (b & Hb & Hk). apply list_elem_of_In in Hb, Hk.
  apply list_elem_of_lookup in Hb as (k & Hb). rewrite lookup_drop in Hb. exists (j + k)%nat. split; [lia|].
  by rewrite (block_lookup _ b Hb).
Qed.

Lemma ok_kvs kv : kv ∈ kvs -> ok kv.1.
Proof. destruct Hsep as (_ & H & _). rewrite Forall_forall in H. apply H. Qed.

Lemma ok_idx j ik h : idx !! j = Some (ik, h) -> ok ik.
Proof. destruct Hsep as (H & _). rewrite Forall_lookup in H. apply (H j). Qed.

(** Before the block the index sends a seek to all keys are smaller, after it
    none is. *)
Lemma before_block target m : ok target -> Forall (fun kv => cmp kv.1 target < 0) (take m idx) ->
  Forall (fun kv => cmp kv.1 target < 0) (concat (take m blocks)).
Proof.
  intros Ht HF. apply Forall_forall. intros kv Hkv. destruct (in_take m kv Hkv) as (k & Hk & Hlt & Hin).
  destruct (lookup_lt_is_Some_2 idx k) as [[ik h] Ek]; [by rewrite tl_length|]. rewrite Forall_lookup in HF.
  specialize (HF k (ik, h)). rewrite lookup_take_lt in HF by done. specialize (HF Ek). cbn [fst] in HF.
  destruct Hsep as (_ & _ & H1 & _). specialize (H1 k ik h kv Ek Hin).
  apply (cmp_le_lt_trans _ ik); [by apply ok_kvs, (in_block_kvs k)|by eapply ok_idx|done|done|done].
Qed.

Lemma after_block target m ik h : ok target -> idx !! m = Some (ik, h) -> 0 <= cmp ik target ->
  Forall (fun kv => 0 <= cmp kv.1 target) (concat (drop (S m) blocks)).
Proof.
  intros Ht Em Hge. apply Forall_forall. intros kv Hkv. destruct (in_drop (S m) kv Hkv) as (k & Hk & Hin).
  destruct Hsep as (_ & _ & _ & H2). specialize (H2 m k ik h kv Em ltac:(lia) Hin).
  assert (Hok : ok kv.1) by by apply ok_kvs, (in_block_kvs k).
  destruct (Z.le_gt_cases 0 (cmp kv.1 target)) as [|Hlt]; [done|]. exfalso.
  pose proof (cmp_lt_trans ik kv.1 target (ok_idx m ik h Em) Hok Ht H2 Hlt). lia.
Qed.

Lemma take_base j p : (p <= length (block j))%nat -> (j < length blocks)%nat ->
  take (base j + p) kvs = concat (take j blocks) ++ take p (block j) /\
  drop (base j + p) kvs = drop p (block j) ++ concat (drop (S j) blocks).
Proof.
  intros Hp Hj. rewrite (kvs_split j Hj). unfold base. rewrite take_app_add, drop_app_add. by rewrite take_app_le, drop_app_le by done.
Qed.

Lemma index_wrap t i : TLAt t i -> exists j, WrapAt idx XAt (index_iter_ t) j.
Proof. intros HA. destruct (TLAt_any t i HA) as (j & (_ & Hi) & _). by exists j. Qed.

Lemma TL_first t i : TLAt t i ->
  exists t', TwoLevel_SeekToFirst block_function delete_iter skip_fuel t = Ret (tt, t') /\ TLAt t' 0.
Proof.
  intros HA. destruct (index_wrap t i HA) as (j & Hi). pose proof tl_fuel as Hf.
  apply (seek_run t i 0 (fun p => p = 0%nat)); [done|by apply (Wrap_first_spec _ j)| | |].
  - intros _ o d q HW. destruct (Wrap_first_spec _ q HW) as (w' & Ew & HW'). by exists w', 0%nat.
  - intros Hl t' p -> H2. destruct (Forward_spec skip_fuel t' 0 0 H2) as (t'' & Et & H); [lia|]. by exists t''.
  - intros Hl t' HI HN. assert (E0 : length idx = 0%nat) by lia. destruct skip_fuel as [|f] eqn:Ef; [lia|].
    rewrite <- E0 in HI. destruct (Forward_end f t' HI HN) as (t'' & Et & H). exists t''. split; [done|].
    by rewrite <- (base_end 0) in H by (rewrite <- tl_length; lia).
Qed.

Lemma TL_last t i : TLAt t i ->
  exists t', TwoLevel_SeekToLast block_function delete_iter skip_fuel t = Ret (tt, t') /\ TLAt t' (length kvs - 1).
Proof.
  intros HA. destruct (index_wrap t i HA) as (j & Hi). pose proof tl_fuel as Hf. pose proof tl_length as Hlen.
  apply (seek_run t i (length idx - 1) (fun p => p = length (block (length idx - 1)) - 1)%nat); [done|by apply (Wrap_last_spec _ j)| | |].
  - intros _ o d q HW. destruct (Wrap_last_spec _ q HW) as (w' & Ew & HW'). by eexists w', _.
  - intros Hl t' p -> H2. destruct (Backward_spec skip_fuel t' _ _ H2) as (t'' & Et & H); [lia|]. exists t''. split; [done|].
    assert (Eb : length kvs = (base (length idx - 1) + length (block (length idx - 1)))%nat).
    { rewrite <- base_S. symmetry. apply base_end. lia. }
    destruct (decide _) as [Hd|Hd].
    + by replace (length kvs - 1)%nat with (base (length idx - 1) + (length (block (length idx - 1)) - 1))%nat by lia.
    + replace (length kvs - 1)%nat with (before (base (length idx - 1))); [done|].
      destruct (base (length idx - 1)) eqn:E0; cbn [before]; lia.
  - intros Hl t' HI HN. assert (E0 : length idx = 0%nat) by lia. destruct skip_fuel as [|f] eqn:Ef; [lia|].
    replace (length idx - 1)%nat with (length idx) in HI by lia. destruct (Backward_end f t' HI HN) as (t'' & Et & H).
    exists t''. split; [done|]. pose proof (base_end 0 ltac:(lia)) as Eb. change (base 0) with 0%nat in Eb.
    by replace (length kvs - 1)%nat with (length kvs) by lia.
Qed.

Lemma TL_seek t i target : TLAt t i -> ok target ->
  exists t' m, TwoLevel_Seek block_function delete_iter skip_fuel target t = Ret (tt, t') /\ TLAt t' m /\
    Forall (fun kv => cmp kv.1 target < 0) (take m kvs) /\ Forall (fun kv => 0 <= cmp kv.1 target) (drop m kvs).
Proof.
  intros HA Ht. destruct (index_wrap t i HA) as (j & Hi). pose proof tl_fuel as Hf. pose proof tl_length as Hlen.
  destruct (Wrap_seek_spec _ _ target Hi Ht) as (wi & m & Ew & HW & Hlo & Hhi).
  pose proof (before_block target m Ht Hlo) as Hbefore.
  set (Q t' := exists n, TLAt t' n /\ Forall (fun kv => cmp kv.1 target < 0) (take n kvs) /\
    Forall (fun kv => 0 <= cmp kv.1 target) (drop n kvs)).
  cut (exists t', TwoLevel_Seek block_function delete_iter skip_fuel target t = Ret (tt, t') /\ Q t').
  { intros (t' & Et & n & H1 & H2 & H3). by exists t', n. }
  apply (seek_run t i m (fun p => (p <= length (block m))%nat /\
      Forall (fun kv => cmp kv.1 target < 0) (take p (block m)) /\ Forall (fun kv => 0 <= cmp kv.1 target) (drop p (block m))));
    [done|by exists wi| | |].
  - intros _ o d q HWd. destruct (Wrap_seek_spec _ _ target HWd Ht) as (w' & p & Ew' & HW' & Hl & Hh). exists w', p.
    by pose proof (WrapAt_bound _ _ HW').
  - intros Hm t' p (Hp & Hl & Hh) H2. destruct (Forward_spec skip_fuel t' m p H2) as (t'' & Et & H); [lia|]. exists t''.
    split; [done|]. exists (base m + p)%nat. split; [done|]. destruct (lookup_lt_is_Some_2 idx m Hm) as [[ik h] Em].
    rewrite (drop_S _ _ _ Em) in Hhi. apply Forall_cons in Hhi as [Hge _]. destruct (take_base m p Hp) as [-> ->]; [lia|].
    split; apply Forall_app; (split; [done|]); [done|]. by apply (after_block target m ik h).
  - intros Hm t' HI HN. pose proof (WrapAt_bound _ _ HW). assert (m = length idx) as -> by lia.
    destruct skip_fuel as [|f] eqn:Ef; [lia|]. destruct (Forward_end f t' HI HN) as (t'' & Et & H'). exists t''. split; [done|].
    exists (length kvs). split; [done|]. rewrite take_ge, drop_ge by done. split; [|done]. unfold kvs. by rewrite take_ge in Hbefore by lia.
Qed.

Lemma TL_next t i : TLAt t i -> (i < length kvs)%nat ->
  exists t', TwoLevel_Next block_function delete_iter skip_fuel t = Ret (tt, t') /\ TLAt t' (S i).
Proof.
  intros HA Hi. unfold TwoLevel_Next, bind at 1, get at 1. rewrite (TLAt_valid t i HA), bool_decide_true by done. cbn [negb].
  destruct (TLAt_inside t i HA Hi) as (j & p & -> & Hp & H2). pose proof tl_fuel.
  destruct (on_data_step t j p (S p) Wrapper_Next H2) as (t1 & E1 & H1).
  { intros o w HW. by apply (Wrap_next_spec w p HW). }
  unfold bind. rewrite E1. destruct (Forward_spec skip_fuel t1 j (S p) H1) as (t' & Et & H'); [lia|]. exists t'.
  by replace (S (base j + p)) with (base j + S p)%nat by lia.
Qed.

Lemma TL_prev t i : TLAt t i -> (i < length kvs)%nat ->
  exists t', TwoLevel_Prev block_function delete_iter skip_fuel t = Ret (tt, t') /\
    TLAt t' (match i with O => length kvs | S k => k end).
Proof.
  intros HA Hi. unfold TwoLevel_Prev, bind at 1, get at 1. rewrite (TLAt_valid t i HA), bool_decide_true by done. cbn [negb].
  destruct (TLAt_inside t i HA Hi) as (j & p & -> & Hp & H2). pose proof tl_fuel. pose proof tl_length.
  assert (Hj : (j < length blocks)%nat) by (destruct H2 as [_ HD]; by eapply DataAt_lt).
  destruct (on_data_step t j p (match p with O => length (block j) | S k => k end) Wrapper_Prev H2) as (t1 & E1 & H1).
  { intros o w HW. by apply (Wrap_prev_spec w p HW). }
  unfold bind. rewrite E1. destruct (Backward_spec skip_fuel t1 j _ H1) as (t' & Et & H'); [lia|]. exists t'.
  split; [done|]. destruct p as [|p].
  - rewrite decide_False in H' by lia. by rewrite Nat.add_0_r.
  - rewrite decide_True in H' by lia. by rewrite Nat.add_succ_r.
Qed.

Lemma TwoLevel_laws :
  IteratorLaws T cmp ok kvs (H := TwoLevel_iterator block_function delete_iter skip_fuel) TLAt.
Proof.
  constructor; intros t i.
  - apply TLAt_bound.
  - apply TLAt_valid.
  - apply TLAt_status.
  - intros k v HA Hk. pose proof (TLAt_valid t i HA) as Hv. pose proof (lookup_lt_Some _ _ _ Hk) as Hi.
    rewrite bool_decide_true in Hv by done. destruct (TLAt_inside t i HA Hi) as (j & p & -> & Hp & _ & HD).
    rewrite (blocks_lookup t j p HD Hp) in Hk. destruct HD as (o & HW & _). cbn. unfold TwoLevel_key, bind, get. rewrite Hv. cbn [negb].
    unfold on_data. rewrite (Wrap_key_spec _ _ _ _ HW Hk). by destruct t.
  - intros k v HA Hk. pose proof (TLAt_valid t i HA) as Hv. pose proof (lookup_lt_Some _ _ _ Hk) as Hi.
    rewrite bool_decide_true in Hv by done. destruct (TLAt_inside t i HA Hi) as (j & p & -> & Hp & _ & HD).
    rewrite (blocks_lookup t j p HD Hp) in Hk. destruct HD as (o & HW & _). cbn. unfold TwoLevel_value, bind, get. rewrite Hv. cbn [negb].
    unfold on_data. rewrite (Wrap_value_spec _ _ _ _ HW Hk). by destruct t.
  - apply TL_first.
  - apply TL_last.
  - apply TL_next.
  - apply TL_prev.
  - intros target. apply TL_seek.
Qed.

Lemma TwoLevel_new_spec e x j : env_ok [] e -> XAt x j ->
  exists t, NewTwoLevelIterator (D := D) e x = Ret t /\ TLAt t (length kvs).
Proof.
  intros He HX. unfold NewTwoLevelIterator. destruct (Set_spec Wrapper_new x j HX) as (w & Ew & HW). rewrite Ew.
  eexists. split; [done|]. left. split; [done|]. exists j. by split_and!.
Qed.
(** Deleting the iterator gives back what it owns. *)
Lemma TwoLevel_delete_spec t i (delete_index : X -> M E unit) : TLAt t i ->
  (forall x j e, XAt x j -> env_ok [] e -> exists e', delete_index x e = Ret (tt, e') /\ env_ok [] e') ->
  exists e', TwoLevel_delete delete_iter delete_index t = Ret e' /\ env_ok [] e'.
Proof.
  intros HA Hdel. destruct (TLAt_any t i HA) as (j & (_ & (x & Ex & HX & _)) & HD). destruct (AnyData_owns t HD) as (os & HO & He).
  assert (H1 : exists e1, (match iter_ (data_iter_ t) with Some d => delete_iter d | None => ret tt end) (env_ t) = Ret (tt, e1) /\ env_ok [] e1).
  { destruct HO as [(Hn & _ & ->)|(k & o & p & (d & Ed & Hd & _) & ->)]; [rewrite Hn; by exists (env_ t)|]. rewrite Ed.
    exact (tl_delete k o d p [] [] (env_ t) Hd He). }
  destruct H1 as (e1 & E1 & He1). destruct (Hdel x j e1 HX He1) as (e2 & E2 & He2). exists e2. split; [|done].
  unfold TwoLevel_delete. rewrite (bind_eq _ _ _ _ _ E1), Ex. by rewrite E2.
Qed.
End Laws.
Arguments TwoLevelOk {E X D Own IX ID} block_function delete_iter skip_fuel cmp ok idx blocks XAt DAt env_ok.
