(* ===== verification/LvOptions.v ===== *)
(** Options ([include/leveldb/options.h], [util/options.cc]). *)

From stdpp Require Import base list gmap strings.
From Stdlib Require Import ZArith Lia.
From S2P Require Import Prelude LvSlice LvBloom LvTableFormat.

(** [env], [info_log] and the pointer to the block cache are not values of the
    model: who uses them has them as parameters; [block_cache] says whether
    there is one. *)
Record Options : Type := {
  comparator : Comparator;
  create_if_missing : bool;
  error_if_exists : bool;
  paranoid_checks : bool;
  write_buffer_size : Z;
  max_open_files : Z;
  block_cache : bool;
  block_size : Z;
  block_restart_interval : Z;
  max_file_size : Z;
  compression : CompressionType;
  reuse_logs : bool;
  filter_policy : option FilterPolicy
}.

Definition Options_new : Options := {|
  comparator := BytewiseComparator;
  create_if_missing := false;
  error_if_exists := false;
  paranoid_checks := false;
  write_buffer_size := 4 * 1024 * 1024;
  max_open_files := 1000;
  block_cache := false;
  block_size := 4 * 1024;
  block_restart_interval := 16;
  max_file_size := 2 * 1024 * 1024;
  compression := kSnappyCompression;
  reuse_logs := false;
  filter_policy := None
|}.

(** [snapshot]: the number of the snapshot. *)
Record ReadOptions : Type := { verify_checksums : bool; fill_cache : bool; snapshot : option Z }.

Definition ReadOptions_new : ReadOptions := {| verify_checksums := false; fill_cache := true; snapshot := None |}.

Record WriteOptions : Type := { sync : bool }.

Definition WriteOptions_new : WriteOptions := {| sync := false |}.

(** [options.block_restart_interval = n]. *)
Definition set_block_restart_interval (n : Z) (o : Options) : Options := {|
  comparator := comparator o;
  create_if_missing := create_if_missing o;
  error_if_exists := error_if_exists o;
  paranoid_checks := paranoid_checks o;
  write_buffer_size := write_buffer_size o;
  max_open_files := max_open_files o;
  block_cache := block_cache o;
  block_size := block_size o;
  block_restart_interval := n;
  max_file_size := max_file_size o;
  compression := compression o;
  reuse_logs := reuse_logs o;
  filter_policy := filter_policy o
|}.
