(* ===== verification/LvMerger.v ===== *)
(** The merging iterator ([table/merger.cc]). *)

From stdpp Require Import base list gmap strings sorting.
From Stdlib Require Import ZArith Lia.
From S2P Require Import Prelude LvSlice LvIterator LvBlock LvBlockIter LvIterWrap.

Inductive Direction : Type := kForward | kReverse.

(** [children_] and the index of [current_] among them. *)
Record MergingIterator (I : Type) : Type := {
  children_ : list (IteratorWrapper I); current_ : option nat; direction_ : Direction
}.
Arguments children_ {I} _.
Arguments current_ {I} _.
Arguments direction_ {I} _.
Arguments Build_MergingIterator {I} _ _ _.

Section Merger.
Context {I : Type} `{II : Iterator I}.
Variable comparator : Comparator.
Abbreviation G := (MergingIterator I).

(** The constructor: every child is [Set]. *)
Fixpoint set_children (children : list I) : outcome (list (IteratorWrapper I)) :=
  match children with
  | [] => Ret []
  | child :: children =>
      match Wrapper_Set (Some child) Wrapper_new, set_children children with
      | Ret (_, w), Ret ws => Ret (w :: ws)
      | Undef, _ | _, Undef => Undef
      | _, _ => NoFuel
      end
  end.

Definition MergingIterator_new (children : list I) : outcome G :=
  match set_children children with
  | Ret ws => Ret {| children_ := ws; current_ := None; direction_ := kForward |}
  | Undef => Undef
  | NoFuel => NoFuel
  end.

(** A call of a child. *)
Definition on_child {A} (i : nat) (c : M (IteratorWrapper I) A) : M G A :=
  fun m => match children_ m !! i with
           | None => Undef
           | Some w => match c w with
                       | Ret (a, w) => Ret (a, {| children_ := <[i := w]> (children_ m); current_ := current_ m;
                                                  direction_ := direction_ m |})
                       | Undef => Undef
                       | NoFuel => NoFuel
                       end
           end.

Definition child_valid (i : nat) : M G bool := on_child i (let* w := get in ret (Wrapper_Valid w)).

(** [for] over children. *)
Fixpoint for_children (todo : list nat) (f : nat -> M G unit) : M G unit :=
  match todo with [] => ret tt | i :: todo => f i ;;; for_children todo f end.

Definition all_children (m : G) : list nat := seq 0 (length (children_ m)).

Definition set_current (current : option nat) : M G unit :=
  fun m => Ret (tt, {| children_ := children_ m; current_ := current; direction_ := direction_ m |}).

Definition set_direction (direction : Direction) : M G unit :=
  fun m => Ret (tt, {| children_ := children_ m; current_ := current_ m; direction_ := direction |}).

(** The loops of [FindSmallest] and [FindLargest]: [better] tells whether the
    comparison with the best child so far makes a child the best. *)
Fixpoint Find_loop (better : Z -> bool) (todo : list nat) (best : option nat) : M G (option nat) :=
  match todo with
  | [] => ret best
  | i :: todo =>
      let* valid := child_valid i in
      if valid then
        match best with
        | None => Find_loop better todo (Some i)
        | Some b =>
            let* k := on_child i Wrapper_key in
            let* kb := on_child b Wrapper_key in
            if better (Compare comparator k kb) then Find_loop better todo (Some i) else Find_loop better todo best
        end
      else Find_loop better todo best
  end.

Definition FindSmallest : M G unit :=
  let* m := get in
  let* smallest := Find_loop (fun r => r <? 0) (all_children m) None in
  set_current smallest.

Definition FindLargest : M G unit :=
  let* m := get in
  let* largest := Find_loop (fun r => r >? 0) (rev (all_children m)) None in
  set_current largest.

Definition Merging_Valid (m : G) : bool := match current_ m with Some _ => true | None => false end.

Definition Merging_SeekToFirst : M G unit :=
  let* m := get in
  for_children (all_children m) (fun i => on_child i Wrapper_SeekToFirst) ;;;
  FindSmallest ;;;
  set_direction kForward.

Definition Merging_SeekToLast : M G unit :=
  let* m := get in
  for_children (all_children m) (fun i => on_child i Wrapper_SeekToLast) ;;;
  FindLargest ;;;
  set_direction kReverse.

Definition Merging_Seek (target : Slice) : M G unit :=
  let* m := get in
  for_children (all_children m) (fun i => on_child i (Wrapper_Seek target)) ;;;
  FindSmallest ;;;
  set_direction kForward.

Definition Merging_key : M G Slice :=
  let* m := get in match current_ m with None => undef | Some c => on_child c Wrapper_key end.

Definition Merging_value : M G Slice :=
  let* m := get in match current_ m with None => undef | Some c => on_child c Wrapper_value end.

(** Positioning a child after, or before, [key()]. *)
Definition child_after (current i : nat) : M G unit :=
  if (i =? current)%nat then ret tt
  else
    let* key := Merging_key in
    on_child i (Wrapper_Seek key) ;;;
    let* valid := child_valid i in
    if valid then
      let* key := Merging_key in
      let* k := on_child i Wrapper_key in
      if Compare comparator key k =? 0 then on_child i Wrapper_Next else ret tt
    else ret tt.

Definition child_before (current i : nat) : M G unit :=
  if (i =? current)%nat then ret tt
  else
    let* key := Merging_key in
    on_child i (Wrapper_Seek key) ;;;
    let* valid := child_valid i in
    if valid then on_child i Wrapper_Prev else on_child i Wrapper_SeekToLast.

Definition Merging_Next : M G unit :=
  let* m := get in
  match current_ m with
  | None => undef
  | Some current =>
      match direction_ m with
      | kForward => ret tt
      | kReverse => for_children (all_children m) (child_after current) ;;; set_direction kForward
      end ;;;
      on_child current Wrapper_Next ;;;
      FindSmallest
  end.

Definition Merging_Prev : M G unit :=
  let* m := get in
  match current_ m with
  | None => undef
  | Some current =>
      match direction_ m with
      | kReverse => ret tt
      | kForward => for_children (all_children m) (child_before current) ;;; set_direction kReverse
      end ;;;
      on_child current Wrapper_Prev ;;;
      FindLargest
  end.

(** The status of the first child that has an error. *)
Definition Merging_status (m : G) : Status :=
  fold_left (fun s w => if Status_ok s then match iter_ w with Some it => iter_status it | None => s end else s)
    (children_ m) Status_OK.

#[export] Instance Merging_iterator : Iterator G := {
  iter_Valid := Merging_Valid;
  iter_SeekToFirst := Merging_SeekToFirst;
  iter_SeekToLast := Merging_SeekToLast;
  iter_Seek := Merging_Seek;
  iter_Next := Merging_Next;
  iter_Prev := Merging_Prev;
  iter_key := Merging_key;
  iter_value := Merging_value;
  iter_status := Merging_status
}.

(** [NewMergingIterator]: no child, one child, or several. *)
Inductive NewMerging : Type :=
| MergeEmpty (it : EmptyIterator)
| MergeOne (it : I)
| MergeMany (m : outcome G).

Definition NewMergingIterator (children : list I) : NewMerging :=
  match children with
  | [] => MergeEmpty NewEmptyIterator
  | [child] => MergeOne child
  | _ => MergeMany (MergingIterator_new children)
  end.
End Merger.

(** * Properties

    The merging iterator over children whose keys are distinct is an iterator
    over the merge of their entries. *)

Section Laws.
Context {I : Type} {II : Iterator I} {comparator : Comparator} {ok : Slice -> Prop}.
Abbreviation cmp := (Compare comparator).
Context {OL : OrderLaws cmp ok}.
Context {Ls : list (list (Slice * Slice))} {kvs : list (Slice * Slice)} {CAt : nat -> I -> nat -> Prop}.

Abbreviation kv_lt := (fun a b : Slice * Slice => cmp a.1 b.1 < 0).
Definition L (c : nat) : list (Slice * Slice) := nth c Ls [].

(** The children, and their merge. *)
Class MergeOk : Prop := {
  mg_child c : IteratorLaws I cmp ok (L c) (CAt c);
  mg_sorted c : StronglySorted kv_lt (L c);
  mg_merge : StronglySorted kv_lt kvs;
  mg_perm : kvs ≡ₚ concat Ls;
  mg_ok : Forall (fun kv => ok kv.1) kvs
}.
Context {HM : MergeOk}.
#[local] Existing Instance mg_child.

Abbreviation n := (length Ls).
Abbreviation G := (MergingIterator I).

(** ** Ranks *)

Lemma L_lookup c l : Ls !! c = Some l -> L c = l.
Proof. intros Hc. unfold L. by apply nth_lookup_Some. Qed.

Lemma L_elem c kv : kv ∈ L c -> (c < n)%nat /\ kv ∈ kvs.
Proof.
  intros Hk. unfold L in Hk. destruct (decide (c < n)%nat) as [Hc|Hc].
  - split; [done|]. destruct (lookup_lt_is_Some_2 Ls c Hc) as [l Hl]. rewrite (nth_lookup_Some _ _ _ _ Hl) in Hk.
    rewrite mg_perm. apply list_elem_of_In, in_concat. exists l. split; apply list_elem_of_In; [by eapply list_elem_of_lookup_2|done].
  - rewrite nth_overflow in Hk by lia. by apply elem_of_nil in Hk.
Qed.

Lemma kv_ok kv : kv ∈ kvs -> ok kv.1.
Proof. pose proof mg_ok as H. rewrite Forall_forall in H. apply H. Qed.

Lemma kv_irrefl kv : kv ∈ kvs -> ~ cmp kv.1 kv.1 < 0.
Proof. intros Hk Hlt. pose proof (cmp_flip kv.1 kv.1 (kv_ok _ Hk) (kv_ok _ Hk)). lia. Qed.

Lemma sorted_app_lt (l1 l2 : list (Slice * Slice)) x y :
  StronglySorted kv_lt (l1 ++ l2) -> x ∈ l1 -> y ∈ l2 -> cmp x.1 y.1 < 0.
Proof. intros HS Hx Hy. change (kv_lt x y). eapply StronglySorted_app_1_elem_of; [exact HS|exact Hx|exact Hy]. Qed.

Lemma kv_before i j a b : kvs !! i = Some a -> kvs !! j = Some b -> (i < j)%nat -> cmp a.1 b.1 < 0.
Proof.
  intros Ha Hb Hij. pose proof mg_merge as HS. rewrite <- (take_drop j kvs) in HS. rewrite (drop_S _ _ _ Hb) in HS.
  assert (Ha' : a ∈ take j kvs) by (apply list_elem_of_lookup; exists i; by rewrite lookup_take_lt).
  assert (Hb' : b ∈ b :: drop (S j) kvs) by (apply elem_of_cons; by left).
  by eapply sorted_app_lt.
Qed.

Lemma kvs_inj i j a : kvs !! i = Some a -> kvs !! j = Some a -> i = j.
Proof.
  intros Hi Hj. assert (Ha : a ∈ kvs) by by eapply list_elem_of_lookup_2.
  destruct (Nat.lt_trichotomy i j) as [Hlt|[->|Hlt]]; [|done|]; exfalso; apply (kv_irrefl a Ha).
  - exact (kv_before i j a a Hi Hj Hlt).
  - exact (kv_before j i a a Hj Hi Hlt).
Qed.

Lemma kvs_NoDup : NoDup kvs.
Proof. apply NoDup_alt. intros i j a. apply kvs_inj. Qed.

Lemma NoDup_concat (ls : list (list (Slice * Slice))) c c' l l' x :
  NoDup (concat ls) -> ls !! c = Some l -> ls !! c' = Some l' -> x ∈ l -> x ∈ l' -> c = c'.
Proof.
  revert c c'. induction ls as [|l0 ls IH]; intros c c' HN Hc Hc' Hx Hx'; [done|].
  cbn [concat] in HN. apply NoDup_app in HN as (_ & Hd & HN).
  assert (Hin : forall k m, ls !! k = Some m -> x ∈ m -> x ∈ concat ls).
  { intros k m Hk Hm. apply list_elem_of_In, in_concat. exists m. split; apply list_elem_of_In; [by eapply list_elem_of_lookup_2|done]. }
  destruct c as [|c], c' as [|c']; cbn in Hc, Hc'; simplify_eq; [done| | |].
  - exfalso. apply (Hd x Hx). by eapply Hin.
  - exfalso. apply (Hd x Hx'). by eapply Hin.
  - f_equal. by apply (IH c c').
Qed.

(** No entry is in two children. *)
Lemma owner_unique c c' kv : kv ∈ L c -> kv ∈ L c' -> c = c'.
Proof.
  intros Hc Hc'. destruct (L_elem c kv Hc) as [Hlt _]. destruct (L_elem c' kv Hc') as [Hlt' _].
  destruct (lookup_lt_is_Some_2 Ls c Hlt) as [l Hl]. destruct (lookup_lt_is_Some_2 Ls c' Hlt') as [l' Hl'].
  rewrite (L_lookup _ _ Hl) in Hc. rewrite (L_lookup _ _ Hl') in Hc'.
  eapply NoDup_concat; [|exact Hl|exact Hl'|exact Hc|exact Hc']. rewrite <- mg_perm. apply kvs_NoDup.
Qed.

Lemma owner_exists i kv : kvs !! i = Some kv -> exists c, (c < n)%nat /\ kv ∈ L c.
Proof.
  intros Hi. assert (Hk : kv ∈ concat Ls) by (rewrite <- mg_perm; by eapply list_elem_of_lookup_2).
  apply list_elem_of_In, in_concat in Hk as (l & Hl & Hk). apply list_elem_of_In, list_elem_of_lookup in Hl as (c & Hl).
  apply list_elem_of_In in Hk. exists c. rewrite (L_lookup c l Hl). split; [by eapply lookup_lt_Some|done].
Qed.

(** How many entries of a child are among the first [i]. *)
Definition rank (c i : nat) : nat := length (filter (fun kv => kv ∈ take i kvs) (L c)).

(** A property that holds of whatever is before an entry with it cuts a sorted
    list in two. *)
Lemma filter_cut (P : Slice * Slice -> Prop) `{!forall x, Decision (P x)} l :
  StronglySorted kv_lt l -> (forall a b, a ∈ l -> b ∈ l -> kv_lt a b -> P b -> P a) ->
  Forall P (take (length (filter P l)) l) /\ Forall (fun x => ~ P x) (drop (length (filter P l)) l).
Proof.
  induction l as [|x l IH]; intros HS HP; [done|]. apply StronglySorted_inv in HS as [HS HF]. rewrite filter_cons.
  destruct (decide (P x)) as [Hx|Hx].
  - cbn [length take drop]. destruct IH as [H1 H2]; [done| |]. { intros a b Ha Hb. apply HP; by right. }
    split; [by constructor|done].
  - assert (Hn : forall y, y ∈ l -> ~ P y).
    { intros y Hy HPy. apply Hx. rewrite Forall_forall in HF. apply (HP x y); [by left|by right|by apply HF|done]. }
    assert (E : filter P l = []).
    { clear -Hn. induction l as [|y l IH]; [done|]. rewrite filter_cons_False by (apply Hn; by left). apply IH. intros z Hz. apply Hn. by right. }
    rewrite E. cbn [length take drop]. split; [done|]. constructor; [done|]. apply Forall_forall. exact Hn.
Qed.

Lemma in_take_iff i kv : kv ∈ kvs -> kv ∈ take i kvs <-> exists j, (j < i)%nat /\ kvs !! j = Some kv.
Proof.
  intros _. rewrite list_elem_of_lookup. split.
  - intros (j & Hj). apply lookup_take_Some in Hj as [Hj Hlt]. by exists j.
  - intros (j & Hlt & Hj). exists j. by rewrite lookup_take_lt.
Qed.

Lemma rank_cut c i :
  Forall (fun kv => kv ∈ take i kvs) (take (rank c i) (L c)) /\ Forall (fun kv => kv ∉ take i kvs) (drop (rank c i) (L c)).
Proof.
  unfold rank. apply filter_cut; [apply mg_sorted|]. intros a b Ha Hb Hlt Hin.
  destruct (L_elem c a Ha) as [_ Hka]. destruct (L_elem c b Hb) as [_ Hkb].
  apply in_take_iff in Hin as (j & Hj & Ej); [|done]. apply in_take_iff; [done|].
  apply list_elem_of_lookup in Hka as (k & Ek). exists k. split; [|done].
  destruct (decide (k < i)%nat) as [|Hge]; [done|]. exfalso.
  pose proof (kv_before j k b a Ej Ek ltac:(lia)) as Hba. pose proof (cmp_flip a.1 b.1 ltac:(eapply kv_ok, list_elem_of_lookup_2, Ek)
    ltac:(eapply kv_ok, list_elem_of_lookup_2, Ej)). lia.
Qed.

Lemma rank_le c i : (rank c i <= length (L c))%nat.
Proof. unfold rank. apply length_filter. Qed.

Lemma cut_unique {A} (P : A -> Prop) (l : list A) p q :
  (p <= length l)%nat -> (q <= length l)%nat ->
  Forall P (take p l) -> Forall (fun x => ~ P x) (drop p l) -> Forall P (take q l) -> Forall (fun x => ~ P x) (drop q l) -> p = q.
Proof.
  assert (H : forall p q, (q <= length l)%nat -> Forall (fun x => ~ P x) (drop p l) -> Forall P (take q l) -> (q <= p)%nat).
  { intros p' q' Hq H1 H2. destruct (decide (q' <= p')%nat) as [|Hlt]; [done|]. exfalso.
    destruct (lookup_lt_is_Some_2 l p') as [x Hx]; [lia|]. rewrite Forall_lookup in H1. specialize (H1 0%nat x).
    rewrite lookup_drop, Nat.add_0_r in H1. apply (H1 Hx). rewrite Forall_lookup in H2. apply (H2 p').
    by rewrite lookup_take_lt by lia. }
  intros Hp Hq P1 P2 Q1 Q2. pose proof (H p q Hq P2 Q1). pose proof (H q p Hp Q2 P1). lia.
Qed.

Lemma rank_is c i p : (p <= length (L c))%nat ->
  Forall (fun kv => kv ∈ take i kvs) (take p (L c)) -> Forall (fun kv => kv ∉ take i kvs) (drop p (L c)) -> rank c i = p.
Proof. intros Hp H1 H2. destruct (rank_cut c i) as [R1 R2]. eapply cut_unique; [apply rank_le|exact Hp|exact R1|exact R2|exact H1|exact H2]. Qed.

Lemma rank_0 c : rank c 0 = 0%nat.
Proof. apply rank_is; [lia|constructor|]. apply Forall_forall. intros x _ Hx. by apply elem_of_nil in Hx. Qed.

Lemma rank_all c i : (length kvs <= i)%nat -> rank c i = length (L c).
Proof.
  intros Hi. apply rank_is; [done| |by rewrite drop_ge]. rewrite (take_ge (L c)), (take_ge kvs) by lia.
  apply Forall_forall. intros x Hx. by apply (L_elem c).
Qed.

(** The entry [i] is the next one of its child. *)
Lemma rank_owner c i kv : kvs !! i = Some kv -> kv ∈ L c -> L c !! rank c i = Some kv /\ rank c (S i) = S (rank c i).
Proof.
  intros Hi Hc. destruct (rank_cut c i) as [R1 R2]. apply list_elem_of_lookup in Hc as (p & Hp).
  assert (Hni : kv ∉ take i kvs).
  { intros Hin. apply in_take_iff in Hin as (j & Hj & Ej); [|by eapply list_elem_of_lookup_2]. pose proof (kvs_inj i j kv Hi Ej). lia. }
  assert (Hge : (rank c i <= p)%nat).
  { destruct (decide (rank c i <= p)%nat) as [|Hlt]; [done|]. exfalso. apply Hni. rewrite Forall_lookup in R1.
    apply (R1 p). by rewrite lookup_take_lt by lia. }
  assert (Hmem : forall q x, L c !! q = Some x -> (q < p)%nat -> x ∈ take i kvs).
  { intros q x Hq Hlt. pose proof (mg_sorted c) as HS. rewrite <- (take_drop p (L c)), (drop_S _ _ _ Hp) in HS.
    assert (Hx' : x ∈ take p (L c)) by (apply list_elem_of_lookup; exists q; by rewrite lookup_take_lt).
    assert (Hk' : kv ∈ kv :: drop (S p) (L c)) by (apply elem_of_cons; by left).
    pose proof (sorted_app_lt _ _ x kv HS Hx' Hk') as Hxk.
    destruct (L_elem c x) as [_ Hx]; [by eapply list_elem_of_lookup_2|]. apply in_take_iff; [done|].
    apply list_elem_of_lookup in Hx as (j & Hj). exists j. split; [|done]. destruct (decide (j < i)%nat) as [|Hge']; [done|]. exfalso.
    destruct (decide (i = j)) as [->|Hne].
    - rewrite Hi in Hj. injection Hj as ->. apply (kv_irrefl x); [by eapply list_elem_of_lookup_2|done].
    - pose proof (kv_before i j kv x Hi Hj ltac:(lia)) as Hkx.
      pose proof (cmp_flip x.1 kv.1 ltac:(eapply kv_ok, list_elem_of_lookup_2, Hj) ltac:(eapply kv_ok, list_elem_of_lookup_2, Hi)). lia. }
  assert (Ep : rank c i = p).
  { destruct (decide (rank c i = p)) as [|Hne]; [done|]. exfalso.
    destruct (lookup_lt_is_Some_2 (L c) (rank c i)) as [x Hx]; [apply lookup_lt_Some in Hp; lia|]. rewrite Forall_lookup in R2.
    apply (R2 0%nat x); [by rewrite lookup_drop, Nat.add_0_r|]. apply (Hmem (rank c i)); [done|lia]. }
  rewrite Ep in *. split; [done|]. pose proof (lookup_lt_Some _ _ _ Hp) as Hlt. apply rank_is; [lia| |].
  - rewrite (take_S_r _ _ _ Hp), (take_S_r _ _ _ Hi). apply Forall_app. split.
    + eapply Forall_impl; [exact R1|]. intros x Hx. apply elem_of_app. by left.
    + constructor; [|done]. apply elem_of_app. right. by apply list_elem_of_singleton.
  - rewrite (drop_S _ _ _ Hp) in R2. apply Forall_cons in R2 as [_ R2]. rewrite Forall_forall in R2. apply Forall_forall.
    intros x Hx. rewrite (take_S_r _ _ _ Hi). intros Hin. apply elem_of_app in Hin as [Hin|Hin]; [by apply (R2 x)|].
    apply list_elem_of_singleton in Hin as ->. pose proof (mg_sorted c) as HS. rewrite <- (take_drop (S p) (L c)) in HS.
    assert (Hk' : kv ∈ take (S p) (L c)) by (rewrite (take_S_r _ _ _ Hp); apply elem_of_app; right; by apply list_elem_of_singleton).
    pose proof (sorted_app_lt _ _ kv kv HS Hk' Hx). apply (kv_irrefl kv); [by eapply list_elem_of_lookup_2|done].
Qed.

Lemma rank_other c i kv : kvs !! i = Some kv -> kv ∉ L c -> rank c (S i) = rank c i.
Proof.
  intros Hi Hc. destruct (rank_cut c i) as [R1 R2]. apply rank_is; [apply rank_le| |].
  - eapply Forall_impl; [exact R1|]. intros x Hx. rewrite (take_S_r _ _ _ Hi). apply elem_of_app. by left.
  - rewrite Forall_forall in R2. apply Forall_forall. intros x Hx Hin. rewrite (take_S_r _ _ _ Hi) in Hin.
    apply elem_of_app in Hin as [Hin|Hin]; [by apply (R2 x)|]. apply list_elem_of_singleton in Hin as ->.
    apply Hc. rewrite <- (take_drop (rank c i) (L c)). apply elem_of_app. by right.
Qed.
(** ** Where the children are *)

Definition Pos (m : G) (pos : nat -> nat) : Prop :=
  length (children_ m) = n /\ forall c w, children_ m !! c = Some w -> WrapAt (L c) (CAt c) w (pos c).

Lemma Pos_ext m pos pos' : (forall c, (c < n)%nat -> pos c = pos' c) -> Pos m pos -> Pos m pos'.
Proof.
  intros He [Hl HP]. split; [done|]. intros c w Hw. rewrite <- He by (rewrite <- Hl; by eapply lookup_lt_Some). by apply HP.
Qed.

Lemma Pos_child m pos c : Pos m pos -> (c < n)%nat -> exists w, children_ m !! c = Some w /\ WrapAt (L c) (CAt c) w (pos c).
Proof.
  intros [Hl HP] Hc. destruct (lookup_lt_is_Some_2 (children_ m) c) as [w Hw]; [lia|]. exists w. split; [done|]. by apply HP.
Qed.

(** A call that moves one child. *)
Lemma on_child_move m pos c p' (f : M (IteratorWrapper I) unit) : Pos m pos -> (c < n)%nat ->
  (forall w, WrapAt (L c) (CAt c) w (pos c) -> exists w', f w = Ret (tt, w') /\ WrapAt (L c) (CAt c) w' p') ->
  exists m', on_child c f m = Ret (tt, m') /\ current_ m' = current_ m /\ direction_ m' = direction_ m /\
    Pos m' (fun c' => if decide (c' = c) then p' else pos c').
Proof.
  intros HP Hc Hf. destruct (Pos_child m pos c HP Hc) as (w & Hw & HW). destruct (Hf w HW) as (w' & Ef & HW').
  unfold on_child. rewrite Hw, Ef. eexists. split; [done|]. split; [done|]. split; [done|].
  destruct HP as [Hl HP]. split; cbn [children_]; [by rewrite length_insert|]. intros c' w'' Hw''. destruct (decide (c' = c)) as [->|Hne].
  - rewrite list_lookup_insert_eq in Hw'' by lia. by simplify_eq.
  - rewrite list_lookup_insert_ne in Hw'' by done. by apply HP.
Qed.

(** A call that reads a child. *)
Lemma on_child_read {A} m pos c (f : M (IteratorWrapper I) A) a : Pos m pos -> (c < n)%nat ->
  (forall w, WrapAt (L c) (CAt c) w (pos c) -> f w = Ret (a, w)) -> on_child c f m = Ret (a, m).
Proof.
  intros HP Hc Hf. destruct (Pos_child m pos c HP Hc) as (w & Hw & HW). unfold on_child. rewrite Hw, (Hf w HW).
  rewrite list_insert_id by done. by destruct m.
Qed.

Lemma child_valid_spec m pos c : Pos m pos -> (c < n)%nat ->
  child_valid c m = Ret (bool_decide (pos c < length (L c))%nat, m).
Proof.
  intros HP Hc. apply (on_child_read m pos); [done|done|]. intros w HW. unfold bind, get, ret, Wrapper_Valid.
  by rewrite (WrapAt_valid w (pos c) HW).
Qed.

Lemma child_key_spec m pos c kv : Pos m pos -> L c !! pos c = Some kv -> on_child c Wrapper_key m = Ret (kv.1, m).
Proof.
  intros HP Hk. apply (on_child_read m pos); [done| |].
  - apply (L_elem c kv). by eapply list_elem_of_lookup_2.
  - intros w HW. apply (Wrap_key_spec w (pos c) kv.1 kv.2 HW). by rewrite Hk, <- surjective_pairing.
Qed.

(** A loop that moves the children one after the other. *)
Lemma for_children_spec (f : nat -> M G unit) pos pos' cur dir :
  (forall m k, (k < n)%nat -> Pos m (fun c => if decide (c < k)%nat then pos' c else pos c) ->
     current_ m = cur -> direction_ m = dir ->
     exists m', f k m = Ret (tt, m') /\ Pos m' (fun c => if decide (c < S k)%nat then pos' c else pos c) /\
       current_ m' = cur /\ direction_ m' = dir) ->
  forall m, Pos m pos -> current_ m = cur -> direction_ m = dir ->
  exists m', for_children (all_children m) f m = Ret (tt, m') /\ Pos m' pos' /\ current_ m' = cur /\ direction_ m' = dir.
Proof.
  intros Hf m HP Hc Hd. assert (Hloop : forall d k m, (k + d = n)%nat ->
    Pos m (fun c => if decide (c < k)%nat then pos' c else pos c) -> current_ m = cur -> direction_ m = dir ->
    exists m', for_children (seq k d) f m = Ret (tt, m') /\ Pos m' pos' /\ current_ m' = cur /\ direction_ m' = dir).
  { induction d as [|d IH]; intros k m0 Hk HP0 Hc0 Hd0.
    - exists m0. split; [done|]. split; [|done]. eapply Pos_ext; [|exact HP0]. intros c Hlt. cbn. by rewrite decide_True by lia.
    - destruct (Hf m0 k ltac:(lia) HP0 Hc0 Hd0) as (m1 & E1 & HP1 & Hc1 & Hd1). cbn [seq for_children]. unfold bind. rewrite E1.
      apply IH; [lia|done..]. }
  unfold all_children. destruct HP as [Hl HP]. rewrite Hl. apply Hloop; [done| |done|done]. split; [done|]. intros c w Hw.
  rewrite decide_False by lia. by apply HP.
Qed.

(** One and the same call for each child. *)
Lemma for_children_moves (f : M (IteratorWrapper I) unit) pos pos' m : Pos m pos ->
  (forall c w, (c < n)%nat -> WrapAt (L c) (CAt c) w (pos c) -> exists w', f w = Ret (tt, w') /\ WrapAt (L c) (CAt c) w' (pos' c)) ->
  exists m', for_children (all_children m) (fun i => on_child i f) m = Ret (tt, m') /\ Pos m' pos' /\
    current_ m' = current_ m /\ direction_ m' = direction_ m.
Proof.
  intros HP Hf. apply (for_children_spec _ pos pos' (current_ m) (direction_ m)); [|done..].
  intros m0 k Hk HP0 Hc0 Hd0. destruct (on_child_move m0 _ k (pos' k) f HP0 Hk) as (m1 & E1 & Hc1 & Hd1 & HP1).
  { intros w. rewrite decide_False by lia. by apply Hf. }
  exists m1. split; [done|]. split; [|by rewrite Hc1, Hd1]. eapply Pos_ext; [|exact HP1]. intros c Hc. cbn.
  destruct (decide (c = k)) as [->|]; [by rewrite decide_True by lia|]. destruct (decide (c < k)%nat); destruct (decide (c < S k)%nat); [done|lia|lia|done].
Qed.

(** ** The best child *)

Section Best.
Context (better : Z -> bool) (m : G) (pos : nat -> nat) (c0 : nat) (kv0 : Slice * Slice).
Hypothesis HP : Pos m pos.
Hypothesis H0 : L c0 !! pos c0 = Some kv0.
Hypothesis Hkeep : forall c kv, L c !! pos c = Some kv -> better (cmp kv.1 kv0.1) = false.
Hypothesis Hbest : forall c kv, c <> c0 -> L c !! pos c = Some kv -> better (cmp kv0.1 kv.1) = true.

Lemma Find_step i todo best : (i < n)%nat ->
  Find_loop comparator better (i :: todo) best m =
  match L i !! pos i with
  | None => Find_loop comparator better todo best m
  | Some kv => match best with
               | None => Find_loop comparator better todo (Some i) m
               | Some b => match L b !! pos b with
                           | None => Find_loop comparator better (i :: todo) best m
                           | Some kvb => Find_loop comparator better todo (if better (cmp kv.1 kvb.1) then Some i else best) m
                           end
               end
  end.
Proof.
  intros Hi. destruct (L i !! pos i) as [kv|] eqn:Ei.
  2:{ cbn [Find_loop]. unfold bind at 1. rewrite (child_valid_spec m pos i HP Hi), bool_decide_false; [done|].
      apply lookup_ge_None in Ei. lia. }
  destruct best as [b|]; [destruct (L b !! pos b) as [kvb|] eqn:Eb; [|done]|];
    cbn [Find_loop]; unfold bind at 1; rewrite (child_valid_spec m pos i HP Hi), bool_decide_true by (by eapply lookup_lt_Some); [|done].
  unfold bind at 1. rewrite (child_key_spec m pos i kv HP Ei). unfold bind at 1. rewrite (child_key_spec m pos b kvb HP Eb).
  by destruct (better (cmp kv.1 kvb.1)).
Qed.

Lemma Find_keep todo : Forall (fun c => (c < n)%nat) todo -> Find_loop comparator better todo (Some c0) m = Ret (Some c0, m).
Proof.
  induction 1 as [|i todo Hi _ IH]; [done|]. rewrite Find_step by done. destruct (L i !! pos i) as [kv|] eqn:Ei; [|done].
  rewrite H0, (Hkeep i kv Ei). done.
Qed.

Lemma Find_reach todo best : Forall (fun c => (c < n)%nat) todo -> c0 ∈ todo ->
  (forall b, best = Some b -> b <> c0 /\ exists kvb, L b !! pos b = Some kvb) ->
  Find_loop comparator better todo best m = Ret (Some c0, m).
Proof.
  intros HF. revert best. induction HF as [|i todo Hi HF IH]; intros best Hin Hb; [by apply elem_of_nil in Hin|].
  rewrite Find_step by done. destruct (decide (i = c0)) as [->|Hne].
  - rewrite H0. destruct best as [b|]; [|by apply Find_keep]. destruct (Hb b eq_refl) as [Hbne [kvb Ekb]].
    rewrite Ekb, (Hbest b kvb Hbne Ekb). by apply Find_keep.
  - apply elem_of_cons in Hin as [->|Hin]; [done|]. destruct (L i !! pos i) as [kv|] eqn:Ei; [|by apply IH].
    destruct best as [b|]; [|apply IH; [done|]; intros b' [= <-]; by eauto].
    destruct (Hb b eq_refl) as [Hbne [kvb Ekb]]. rewrite Ekb.
    destruct (better (cmp kv.1 kvb.1)); apply IH; try done; intros b' [= <-]; by eauto.
Qed.
End Best.

Lemma Find_none better m pos todo : Pos m pos -> (forall c, L c !! pos c = None) -> Forall (fun c => (c < n)%nat) todo ->
  Find_loop comparator better todo None m = Ret (None, m).
Proof.
  intros HP HN. induction 1 as [|i todo Hi _ IH]; [done|]. rewrite (Find_step better m pos HP) by done. by rewrite HN.
Qed.

Lemma all_children_lt m pos : Pos m pos -> Forall (fun c => (c < n)%nat) (all_children m).
Proof. intros [Hl _]. apply Forall_forall. intros c Hc. unfold all_children in Hc. apply elem_of_seq in Hc. lia. Qed.
(** ** States *)

(** The position before [p] in a child, its length before its first entry. *)
Definition prev_in (c p : nat) : nat := match p with O => length (L c) | S q => q end.
Definition before (i : nat) : nat := match i with O => length kvs | S k => k end.

Definition CurAt (m : G) (i : nat) : Prop :=
  exists c kv, kvs !! i = Some kv /\ kv ∈ L c /\ current_ m = Some c /\
    match direction_ m with
    | kForward => Pos m (fun c' => rank c' i)
    | kReverse => Pos m (fun c' => prev_in c' (rank c' (S i)))
    end.

Definition MAt (m : G) (i : nat) : Prop :=
  (i = length kvs /\ current_ m = None /\ exists pos, Pos m pos) \/ CurAt m i.

(** An entry a child has from its rank on is not one of the first. *)
Lemma rank_entry c i p kv : L c !! p = Some kv -> exists j, kvs !! j = Some kv /\ ((rank c i <= p)%nat <-> (i <= j)%nat).
Proof.
  intros Hp. assert (Hk : kv ∈ kvs) by (apply (L_elem c), (list_elem_of_lookup_2 _ _ _ Hp)).
  pose proof Hk as Hj. apply list_elem_of_lookup in Hj as (j & Hj). exists j. split; [done|]. destruct (rank_cut c i) as [R1 R2].
  destruct (decide (rank c i <= p)%nat) as [Hge|Hlt]; [split; [intros _|done]|split; [done|intros Hij]].
  - rewrite Forall_lookup in R2. specialize (R2 (p - rank c i)%nat kv). rewrite lookup_drop in R2.
    replace (rank c i + (p - rank c i))%nat with p in R2 by lia. destruct (decide (i <= j)%nat) as [|Hji]; [done|].
    exfalso. apply (R2 Hp). apply in_take_iff; [done|]. exists j. split; [lia|done].
  - exfalso. rewrite Forall_lookup in R1. specialize (R1 p kv). rewrite lookup_take_lt in R1 by lia.
    specialize (R1 Hp). apply in_take_iff in R1 as (j' & Hj' & Ej'); [|done]. rewrite (kvs_inj j j' kv Hj Ej') in Hij. lia.
Qed.

Lemma kv_cmp i j a b : kvs !! i = Some a -> kvs !! j = Some b -> (i <= j)%nat -> cmp b.1 a.1 < 0 -> False.
Proof.
  intros Ha Hb Hij Hlt. assert (Hok : ok a.1 /\ ok b.1) by (split; eapply kv_ok, list_elem_of_lookup_2; done).
  destruct (decide (i = j)) as [->|Hne].
  - rewrite Ha in Hb. injection Hb as ->. apply (kv_irrefl b); [by eapply list_elem_of_lookup_2|done].
  - pose proof (kv_before i j a b Ha Hb ltac:(lia)). destruct Hok as [H1 H2]. pose proof (cmp_flip _ _ H1 H2). lia.
Qed.

Lemma kv_differ c c0 j i kv kv0 : c <> c0 -> kvs !! j = Some kv -> kvs !! i = Some kv0 -> kv ∈ L c -> kv0 ∈ L c0 -> j <> i.
Proof. intros Hne Hj Hi Hc Hc0 ->. rewrite Hj in Hi. injection Hi as ->. by apply Hne, (owner_unique c c0 kv0). Qed.

Lemma FindSmallest_spec m i : Pos m (fun c => rank c i) -> (i <= length kvs)%nat ->
  exists cur, FindSmallest comparator m = Ret (tt, Build_MergingIterator (children_ m) cur (direction_ m)) /\
    MAt (Build_MergingIterator (children_ m) cur kForward) i.
Proof.
  intros HP Hi. unfold FindSmallest, bind at 1, get at 1. pose proof (all_children_lt m _ HP) as HF. unfold bind, set_current.
  destruct (decide (i = length kvs)) as [->|Hne].
  - rewrite (Find_none _ m _ _ HP); [|intros c; apply lookup_ge_None; by rewrite rank_all|done].
    exists None. split; [done|]. left. split; [done|]. split; [done|]. by eexists.
  - destruct (lookup_lt_is_Some_2 kvs i) as [kv0 E0]; [lia|]. destruct (owner_exists i kv0 E0) as (c0 & Hc0 & Hin0).
    rewrite (Find_reach _ m _ c0 kv0 HP); [| | | |done| |done].
    + exists (Some c0). split; [done|]. right. by exists c0, kv0.
    + by apply rank_owner.
    + intros c kv Hk. apply Z.ltb_ge. destruct (decide (cmp kv.1 kv0.1 < 0)) as [Hlt|]; [|lia]. exfalso.
      destruct (rank_entry c i _ kv Hk) as (j & Hj & Hij). eapply (kv_cmp i j); [done|done|by apply Hij|done].
    + intros c kv Hne' Hk. apply Z.ltb_lt. destruct (rank_entry c i _ kv Hk) as (j & Hj & Hij).
      pose proof (kv_differ c c0 j i kv kv0 Hne' Hj E0 (list_elem_of_lookup_2 _ _ _ Hk) Hin0) as Hji.
      apply (kv_before i j); [done..|]. destruct Hij as [Hij _]. specialize (Hij ltac:(lia)). lia.
    + unfold all_children. apply elem_of_seq. destruct HP as [Hl _]. lia.
Qed.

Lemma prev_lookup c r kv : L c !! prev_in c r = Some kv -> exists p, r = S p /\ L c !! p = Some kv.
Proof.
  destruct r as [|p]; cbn [prev_in]; [|intros H; by exists p]. intros H. by rewrite lookup_ge_None_2 in H.
Qed.

Lemma FindLargest_spec m i : Pos m (fun c => prev_in c (rank c i)) -> (i <= length kvs)%nat ->
  exists cur, FindLargest comparator m = Ret (tt, Build_MergingIterator (children_ m) cur (direction_ m)) /\
    MAt (Build_MergingIterator (children_ m) cur kReverse) (before i).
Proof.
  intros HP Hi. unfold FindLargest, bind at 1, get at 1. pose proof (all_children_lt m _ HP) as HF. unfold bind, set_current.
  assert (HFr : Forall (fun c => (c < n)%nat) (rev (all_children m))) by (by apply Forall_rev).
  destruct i as [|k].
  - rewrite (Find_none _ m _ _ HP); [|intros c; apply lookup_ge_None; by rewrite rank_0|done].
    exists None. split; [done|]. left. split; [done|]. split; [done|]. by eexists.
  - destruct (lookup_lt_is_Some_2 kvs k) as [kv0 E0]; [lia|]. destruct (owner_exists k kv0 E0) as (c0 & Hc0 & Hin0).
    destruct (rank_owner c0 k kv0 E0 Hin0) as [Er0 Er1].
    assert (Hbelow : forall c kv, L c !! prev_in c (rank c (S k)) = Some kv -> exists j, kvs !! j = Some kv /\ (j <= k)%nat /\ kv ∈ L c).
    { intros c kv Hk. apply prev_lookup in Hk as (p & Hr & Hk). destruct (rank_entry c (S k) _ kv Hk) as (j & Hj & Hij).
      exists j. split; [done|]. split; [|by eapply list_elem_of_lookup_2]. destruct (decide (j <= k)%nat); [done|].
      destruct Hij as [_ Hij]. specialize (Hij ltac:(lia)). lia. }
    rewrite (Find_reach _ m _ c0 kv0 HP); [| | | |done| |done].
    + exists (Some c0). split; [done|]. right. by exists c0, kv0.
    + by rewrite Er1.
    + intros c kv Hk. rewrite Z.gtb_ltb. apply Z.ltb_ge. destruct (Hbelow c kv Hk) as (j & Hj & Hjk & _).
      destruct (decide (cmp kv.1 kv0.1 <= 0)) as [|Hgt]; [done|]. exfalso. eapply (kv_cmp j k kv kv0); [done..|].
      pose proof (cmp_flip kv.1 kv0.1 ltac:(eapply kv_ok, list_elem_of_lookup_2; done) ltac:(eapply kv_ok, list_elem_of_lookup_2; done)). lia.
    + intros c kv Hne' Hk. rewrite Z.gtb_ltb. apply Z.ltb_lt. destruct (Hbelow c kv Hk) as (j & Hj & Hjk & Hin).
      pose proof (kv_differ c c0 j k kv kv0 Hne' Hj E0 Hin Hin0) as Hji. pose proof (kv_before j k kv kv0 Hj E0 ltac:(lia)).
      pose proof (cmp_flip kv.1 kv0.1 ltac:(eapply kv_ok, list_elem_of_lookup_2; done) ltac:(eapply kv_ok, list_elem_of_lookup_2; done)). lia.
    + apply list_elem_of_In. rewrite <- in_rev. apply list_elem_of_In. unfold all_children. apply elem_of_seq. destruct HP as [Hl _]. lia.
Qed.
(** ** Seeking a child *)

Definition cut (target : Slice) : nat := length (filter (fun kv => cmp kv.1 target < 0) kvs).

Lemma cut_split target : ok target ->
  Forall (fun kv => cmp kv.1 target < 0) (take (cut target) kvs) /\ Forall (fun kv => ~ cmp kv.1 target < 0) (drop (cut target) kvs).
Proof.
  intros Ht. apply filter_cut; [apply mg_merge|]. intros a b Ha Hb Hlt Hbt.
  pose proof (kv_ok a Ha) as Oa. pose proof (kv_ok b Hb) as Ob. eapply (cmp_lt_le_trans a.1 b.1 target); [done..|lia].
Qed.

Lemma cut_le target : (cut target <= length kvs)%nat.
Proof. unfold cut. apply length_filter. Qed.

Lemma child_cut c target p : ok target -> (p <= length (L c))%nat ->
  Forall (fun kv => cmp kv.1 target < 0) (take p (L c)) -> Forall (fun kv => 0 <= cmp kv.1 target) (drop p (L c)) ->
  p = rank c (cut target).
Proof.
  intros Ht Hp H1 H2. destruct (cut_split target Ht) as [C1 C2]. symmetry. rewrite Forall_forall in H1, H2, C1, C2.
  apply rank_is; [done| |]; apply Forall_forall; intros kv Hin.
  - assert (Hk : kv ∈ kvs) by (apply (L_elem c); rewrite <- (take_drop p (L c)); apply elem_of_app; by left).
    rewrite <- (take_drop (cut target) kvs) in Hk. apply elem_of_app in Hk as [Hk|Hk]; [done|]. by destruct (C2 kv Hk (H1 kv Hin)).
  - intros Hk. specialize (C1 kv Hk). specialize (H2 kv Hin). lia.
Qed.

Lemma child_seek c w p target : WrapAt (L c) (CAt c) w p -> ok target ->
  exists w', Wrapper_Seek target w = Ret (tt, w') /\ WrapAt (L c) (CAt c) w' (rank c (cut target)).
Proof.
  intros HW Ht. destruct (Wrap_seek_spec w p target HW Ht) as (w' & q & Es & HW' & H1 & H2). exists w'. split; [done|].
  rewrite <- (child_cut c target q); [done..|by eapply WrapAt_bound|done|done].
Qed.

(** The cut at the key of the entry [i]. *)
Lemma cut_key i kv : kvs !! i = Some kv -> cut kv.1 = i.
Proof.
  intros Hi. assert (Hok : ok kv.1) by (eapply kv_ok, list_elem_of_lookup_2; done).
  destruct (cut_split kv.1 Hok) as [C1 C2]. pose proof (lookup_lt_Some _ _ _ Hi) as Hlt.
  apply (cut_unique (fun x => cmp x.1 kv.1 < 0) kvs); [apply cut_le|lia|done|done| |]; apply Forall_lookup; intros j x Hx.
  - apply lookup_take_Some in Hx as [Hx Hj]. by apply (kv_before j i).
  - rewrite lookup_drop in Hx. intros Hc. eapply (kv_cmp i (i + j) kv x); [done|done|lia|done].
Qed.

(** ** The operations *)

Lemma MAt_pos m i : MAt m i -> exists pos, Pos m pos.
Proof.
  intros [(_ & _ & H)|(c & kv & _ & _ & _ & H)]; [done|]. by destruct (direction_ m); eexists.
Qed.

Lemma MAt_bound m i : MAt m i -> (i <= length kvs)%nat.
Proof. intros [[-> _]|(c & kv & Hi & _)]; [done|]. by apply Nat.lt_le_incl, (lookup_lt_Some kvs i kv). Qed.

Lemma MAt_inside m i : MAt m i -> (i < length kvs)%nat -> CurAt m i.
Proof. intros [[-> _]|H] Hi; [lia|done]. Qed.

Lemma forward_from m i j (f : M (IteratorWrapper I) unit) : MAt m i ->
  (forall c w p, (c < n)%nat -> WrapAt (L c) (CAt c) w p -> exists w', f w = Ret (tt, w') /\ WrapAt (L c) (CAt c) w' (rank c j)) ->
  (j <= length kvs)%nat ->
  exists m', (let* m := get in for_children (all_children m) (fun i => on_child i f) ;;;
              FindSmallest comparator ;;; set_direction kForward) m = Ret (tt, m') /\ MAt m' j.
Proof.
  intros HA Hf Hj. destruct (MAt_pos m i HA) as [p HP]. unfold bind at 1, get at 1.
  destruct (for_children_moves f p (fun c => rank c j) m HP) as (m2 & E2 & HP2 & _ & _).
  { intros c w Hc HW. by apply (Hf c w (p c)). }
  unfold bind. rewrite E2. destruct (FindSmallest_spec m2 j HP2 Hj) as (cur & E3 & HA3). rewrite E3. by eexists.
Qed.
Lemma Merging_key_spec m i kv : CurAt m i -> kvs !! i = Some kv -> Merging_key m = Ret (kv.1, m).
Proof.
  intros (c & kv' & Hi & Hc & Hcur & HP) Hk. rewrite Hk in Hi. injection Hi as <-. destruct (rank_owner c i kv Hk Hc) as [R1 R2].
  unfold Merging_key, bind, get. rewrite Hcur. destruct (direction_ m).
  - by apply (child_key_spec m _ c kv HP).
  - apply (child_key_spec m _ c kv HP). by rewrite R2.
Qed.

Lemma Merging_value_spec m i kv : CurAt m i -> kvs !! i = Some kv -> Merging_value m = Ret (kv.2, m).
Proof.
  intros (c & kv' & Hi & Hc & Hcur & HP) Hk. rewrite Hk in Hi. injection Hi as <-. destruct (rank_owner c i kv Hk Hc) as [R1 R2].
  unfold Merging_value, bind, get. rewrite Hcur. destruct (L_elem c kv Hc) as [Hn _].
  assert (Hp : exists pos, Pos m pos /\ pos c = rank c i).
  { destruct (direction_ m); eexists; (split; [exact HP|]); cbn; [done|]. by rewrite R2. }
  destruct Hp as (pos & HP' & Ep). apply (on_child_read m pos c _ _ HP' Hn). intros w HW. rewrite Ep in HW.
  apply (Wrap_value_spec w (rank c i) kv.1 kv.2 HW). by rewrite R1, <- surjective_pairing.
Qed.

(** A key read while the other children are being moved. *)
Lemma moving_key m pos c p kv : Pos m pos -> current_ m = Some c -> pos c = p -> L c !! p = Some kv -> Merging_key m = Ret (kv.1, m).
Proof.
  intros HP Hcur Hp Hk. unfold Merging_key, bind, get. rewrite Hcur. apply (child_key_spec m pos c kv HP). by rewrite Hp.
Qed.

Lemma Pos_update m pos pos' k : Pos m (fun c => if decide (c = k) then pos' c else if decide (c < k)%nat then pos' c else pos c) ->
  Pos m (fun c => if decide (c < S k)%nat then pos' c else pos c).
Proof.
  apply Pos_ext. intros c _. destruct (decide (c = k)) as [->|]; [by rewrite decide_True by lia|].
  destruct (decide (c < k)%nat); destruct (decide (c < S k)%nat); [done|lia|lia|done].
Qed.

(** Moving the others after, or before, the current entry. *)
Section Turn.
Context (c0 i : nat) (kv0 : Slice * Slice).
Hypothesis Hi : kvs !! i = Some kv0.
Hypothesis Hc0 : kv0 ∈ L c0.

Lemma child_after_step m k pos : (k < n)%nat -> Pos m pos -> current_ m = Some c0 -> pos c0 = rank c0 i ->
  exists m', child_after comparator c0 k m = Ret (tt, m') /\ current_ m' = Some c0 /\ direction_ m' = direction_ m /\
    Pos m' (fun c => if decide (c = k) then rank c i else pos c).
Proof.
  intros Hk HP Hcur Hpos. unfold child_after. destruct (rank_owner c0 i kv0 Hi Hc0) as [R1 _].
  assert (Ok : ok kv0.1) by (eapply kv_ok, list_elem_of_lookup_2; done). destruct (Nat.eqb_spec k c0) as [->|Hne].
  - exists m. split_and!; [done..|]. eapply Pos_ext; [|exact HP]. intros c _. cbn. by destruct (decide (c = c0)) as [->|].
  - unfold bind at 1. rewrite (moving_key m pos c0 _ kv0 HP Hcur Hpos R1). unfold bind at 1.
    destruct (on_child_move m pos k (rank k (cut kv0.1)) (Wrapper_Seek kv0.1) HP Hk) as (m1 & E1 & Hcur1 & Hd1 & HP1).
    { intros w HW. by apply (child_seek k w (pos k)). }
    rewrite (cut_key i kv0 Hi) in HP1. rewrite E1. unfold bind at 1. rewrite (child_valid_spec m1 _ k HP1 Hk).
    rewrite decide_True by done.
    assert (HP1' : Pos m1 (fun c => if decide (c = k) then rank c i else pos c)).
    { eapply Pos_ext; [|exact HP1]. intros c _. cbn. by destruct (decide (c = k)) as [->|]. }
    case_bool_decide as Hv; [|exists m1; split_and!; [done|congruence|done|done]].
    destruct (lookup_lt_is_Some_2 (L k) (rank k i) Hv) as [kv Ekv]. unfold bind at 1.
    rewrite (moving_key m1 _ c0 (rank c0 i) kv0 HP1 ltac:(congruence)); [|by destruct (decide (c0 = k))|done]. unfold bind at 1.
    rewrite (child_key_spec m1 _ k kv HP1); [|by rewrite decide_True].
    destruct (rank_entry k i _ kv Ekv) as (j & Hj & Hij).
    pose proof (kv_differ k c0 j i kv kv0 Hne Hj Hi (list_elem_of_lookup_2 _ _ _ Ekv) Hc0) as Hji.
    pose proof (kv_before i j kv0 kv Hi Hj ltac:(destruct Hij as [Hij _]; specialize (Hij ltac:(lia)); lia)) as Hlt.
    destruct (Z.eqb_spec (cmp kv0.1 kv.1) 0); [lia|]. exists m1. split_and!; [done|congruence|done|done].
Qed.

Lemma child_before_step m k pos : (k < n)%nat -> Pos m pos -> current_ m = Some c0 -> pos c0 = rank c0 i ->
  exists m', child_before c0 k m = Ret (tt, m') /\ current_ m' = Some c0 /\ direction_ m' = direction_ m /\
    Pos m' (fun c => if decide (c = k) then prev_in c (rank c (S i)) else pos c).
Proof.
  intros Hk HP Hcur Hpos. unfold child_before. destruct (rank_owner c0 i kv0 Hi Hc0) as [R1 R2].
  assert (Ok : ok kv0.1) by (eapply kv_ok, list_elem_of_lookup_2; done). destruct (Nat.eqb_spec k c0) as [->|Hne].
  - exists m. split_and!; [done..|]. eapply Pos_ext; [|exact HP]. intros c _. cbn. destruct (decide (c = c0)) as [->|]; [|done].
    by rewrite R2.
  - unfold bind at 1. rewrite (moving_key m pos c0 _ kv0 HP Hcur Hpos R1). unfold bind at 1.
    destruct (on_child_move m pos k (rank k (cut kv0.1)) (Wrapper_Seek kv0.1) HP Hk) as (m1 & E1 & Hcur1 & Hd1 & HP1).
    { intros w HW. by apply (child_seek k w (pos k)). }
    rewrite (cut_key i kv0 Hi) in HP1. rewrite E1. unfold bind at 1. rewrite (child_valid_spec m1 _ k HP1 Hk).
    rewrite decide_True by done.
    assert (Hr : rank k (S i) = rank k i). { apply (rank_other k i kv0 Hi). intros Hin. by apply Hne, (owner_unique k c0 kv0). }
    assert (Hstep : forall f, (forall w, WrapAt (L k) (CAt k) w (rank k i) ->
        exists w', f w = Ret (tt, w') /\ WrapAt (L k) (CAt k) w' (prev_in k (rank k i))) ->
      exists m', on_child k f m1 = Ret (tt, m') /\ current_ m' = Some c0 /\ direction_ m' = direction_ m /\
        Pos m' (fun c => if decide (c = k) then prev_in c (rank c (S i)) else pos c)).
    { intros f Hf. destruct (on_child_move m1 _ k (prev_in k (rank k i)) f HP1 Hk) as (m2 & E2 & Hcur2 & Hd2 & HP2).
      { intros w. rewrite decide_True by done. apply Hf. }
      exists m2. split_and!; [done|congruence|congruence|]. eapply Pos_ext; [|exact HP2]. intros c _. cbn.
      destruct (decide (c = k)) as [->|]; [by rewrite Hr|done]. }
    case_bool_decide as Hv; apply Hstep; intros w HW.
    + by apply Wrap_prev_spec.
    + pose proof (rank_le k i). destruct (Wrap_last_spec w _ HW) as (w' & Ew & HW'). exists w'. split; [done|].
      replace (prev_in k (rank k i)) with (length (L k) - 1)%nat; [done|].
      destruct (rank k i) as [|q]; cbn [prev_in]; lia.
Qed.
End Turn.
(** All of them. *)
Lemma turn_spec m c0 i kv0 (f : nat -> M G unit) pos pos' : kvs !! i = Some kv0 -> kv0 ∈ L c0 ->
  pos c0 = rank c0 i -> pos' c0 = rank c0 i -> Pos m pos -> current_ m = Some c0 ->
  (forall m k pos, (k < n)%nat -> Pos m pos -> current_ m = Some c0 -> pos c0 = rank c0 i ->
     exists m', f k m = Ret (tt, m') /\ current_ m' = Some c0 /\ direction_ m' = direction_ m /\
       Pos m' (fun c => if decide (c = k) then pos' c else pos c)) ->
  exists m', for_children (all_children m) f m = Ret (tt, m') /\ Pos m' pos' /\ current_ m' = Some c0.
Proof.
  intros Hi Hc0 Hp Hp' HP Hcur Hf.
  destruct (for_children_spec f pos pos' (Some c0) (direction_ m)) with (m := m) as (m' & E & HP' & Hc' & _); [|done..|].
  - intros m0 k Hk HP0 Hcur0 Hd0. destruct (Hf m0 k _ Hk HP0 Hcur0) as (m1 & E1 & Hcur1 & Hd1 & HP1).
    { cbn. by destruct (decide (c0 < k)%nat). }
    exists m1. split_and!; [done|by apply Pos_update|done|congruence].
  - by exists m'.
Qed.

Lemma next_tail m c0 i kv0 : kvs !! i = Some kv0 -> kv0 ∈ L c0 -> Pos m (fun c => rank c i) -> direction_ m = kForward ->
  exists m', (on_child c0 Wrapper_Next ;;; FindSmallest comparator) m = Ret (tt, m') /\ MAt m' (S i).
Proof.
  intros Hi Hc0 HP Hd. destruct (rank_owner c0 i kv0 Hi Hc0) as [R1 R2]. destruct (L_elem c0 kv0 Hc0) as [Hn _].
  destruct (on_child_move m _ c0 (S (rank c0 i)) Wrapper_Next HP Hn) as (m1 & E1 & _ & Hd1 & HP1).
  { intros w HW. apply Wrap_next_spec; [done|]. by eapply lookup_lt_Some. }
  assert (HP1' : Pos m1 (fun c => rank c (S i))).
  { eapply Pos_ext; [|exact HP1]. intros c _. cbn. destruct (decide (c = c0)) as [->|Hne]; [done|].
    symmetry. apply (rank_other c i kv0 Hi). intros Hin. by apply Hne, (owner_unique c c0 kv0). }
  destruct (FindSmallest_spec m1 (S i) HP1' ltac:(apply lookup_lt_Some in Hi; lia)) as (cur & E2 & HA).
  unfold bind. rewrite E1, E2. eexists. split; [done|]. by rewrite Hd1, Hd.
Qed.

Lemma prev_tail m c0 i kv0 : kvs !! i = Some kv0 -> kv0 ∈ L c0 -> Pos m (fun c => prev_in c (rank c (S i))) -> direction_ m = kReverse ->
  exists m', (on_child c0 Wrapper_Prev ;;; FindLargest comparator) m = Ret (tt, m') /\ MAt m' (before i).
Proof.
  intros Hi Hc0 HP Hd. destruct (rank_owner c0 i kv0 Hi Hc0) as [R1 R2]. destruct (L_elem c0 kv0 Hc0) as [Hn _].
  destruct (on_child_move m _ c0 (prev_in c0 (rank c0 i)) Wrapper_Prev HP Hn) as (m1 & E1 & _ & Hd1 & HP1).
  { intros w. rewrite R2. cbn [prev_in]. intros HW. apply Wrap_prev_spec; [done|]. by eapply lookup_lt_Some. }
  assert (HP1' : Pos m1 (fun c => prev_in c (rank c i))).
  { eapply Pos_ext; [|exact HP1]. intros c _. cbn. destruct (decide (c = c0)) as [->|Hne]; [done|].
    by rewrite (rank_other c i kv0 Hi) by (intros Hin; by apply Hne, (owner_unique c c0 kv0)). }
  destruct (FindLargest_spec m1 i HP1' ltac:(apply lookup_lt_Some in Hi; lia)) as (cur & E2 & HA).
  unfold bind. rewrite E1, E2. eexists. split; [done|]. by rewrite Hd1, Hd.
Qed.

Lemma Merging_Next_spec m i : MAt m i -> (i < length kvs)%nat ->
  exists m', Merging_Next comparator m = Ret (tt, m') /\ MAt m' (S i).
Proof.
  intros HA Hlt. destruct (MAt_inside m i HA Hlt) as (c0 & kv0 & Hi & Hc0 & Hcur & HP). destruct (rank_owner c0 i kv0 Hi Hc0) as [R1 R2].
  unfold Merging_Next. unfold bind at 1, get at 1. rewrite Hcur. destruct (direction_ m) eqn:Ed.
  - unfold bind at 1, ret at 1. by apply (next_tail m c0 i kv0).
  - destruct (turn_spec m c0 i kv0 (child_after comparator c0) (fun c => prev_in c (rank c (S i))) (fun c => rank c i) Hi Hc0 ltac:(cbn; by rewrite R2) eq_refl HP Hcur) as (m1 & E1 & HP1 & Hcur1).
    { intros m0 k pos. by apply (child_after_step c0 i kv0 Hi Hc0). }
    unfold bind at 1. unfold bind at 1. rewrite E1. unfold set_direction at 1. by apply (next_tail _ c0 i kv0).
Qed.

Lemma Merging_Prev_spec m i : MAt m i -> (i < length kvs)%nat ->
  exists m', Merging_Prev comparator m = Ret (tt, m') /\ MAt m' (before i).
Proof.
  intros HA Hlt. destruct (MAt_inside m i HA Hlt) as (c0 & kv0 & Hi & Hc0 & Hcur & HP). destruct (rank_owner c0 i kv0 Hi Hc0) as [R1 R2].
  unfold Merging_Prev. unfold bind at 1, get at 1. rewrite Hcur. destruct (direction_ m) eqn:Ed.
  - destruct (turn_spec m c0 i kv0 (child_before c0) (fun c => rank c i) (fun c => prev_in c (rank c (S i))) Hi Hc0 eq_refl ltac:(cbn; by rewrite R2) HP Hcur) as (m1 & E1 & HP1 & Hcur1).
    { intros m0 k pos. by apply (child_before_step c0 i kv0 Hi Hc0). }
    unfold bind at 1. unfold bind at 1. rewrite E1. unfold set_direction at 1. by apply (prev_tail _ c0 i kv0).
  - unfold bind at 1, ret at 1. by apply (prev_tail m c0 i kv0).
Qed.

Lemma Merging_SeekToLast_spec m i : MAt m i ->
  exists m', Merging_SeekToLast comparator m = Ret (tt, m') /\ MAt m' (before (length kvs)).
Proof.
  intros HA. destruct (MAt_pos m i HA) as [p HP]. unfold Merging_SeekToLast. unfold bind at 1, get at 1.
  destruct (for_children_moves Wrapper_SeekToLast p (fun c => prev_in c (rank c (length kvs))) m HP) as (m2 & E2 & HP2 & _ & _).
  { intros c w Hc HW. destruct (Wrap_last_spec w _ HW) as (w' & Ew & HW'). exists w'. split; [done|]. rewrite rank_all by done.
    replace (prev_in c (length (L c))) with (length (L c) - 1)%nat; [done|]. destruct (length (L c)) eqn:El; cbn [prev_in]; lia. }
  unfold bind. rewrite E2. destruct (FindLargest_spec m2 _ HP2 ltac:(done)) as (cur & E3 & HA3). rewrite E3. by eexists.
Qed.

Lemma Merging_status_spec m i : MAt m i -> Merging_status m = Status_OK.
Proof.
  intros HA. destruct (MAt_pos m i HA) as [p [Hl HP]]. unfold Merging_status. clear Hl.
  assert (HF : Forall (fun w => exists it, iter_ w = Some it /\ iter_status it = Status_OK) (children_ m)).
  { apply Forall_lookup. intros c w Hw. destruct (HP c w Hw) as (it & Hit & HC & _). exists it. split; [done|]. exact (it_status it (p c) HC). }
  clear HP. induction HF as [|w ws (it & Hit & Hs) _ IH]; [done|]. cbn [fold_left]. change (Status_ok Status_OK) with true. cbn. by rewrite Hit, Hs.
Qed.

Lemma Merging_valid_spec m i : MAt m i -> Merging_Valid m = bool_decide (i < length kvs)%nat.
Proof.
  unfold Merging_Valid. intros [(-> & -> & _)|(c & kv & Hi & _ & -> & _)]; symmetry; [apply bool_decide_eq_false; lia|].
  apply bool_decide_eq_true. by eapply lookup_lt_Some.
Qed.

(** ** The laws *)

#[export] Instance Merging_laws : @IteratorLaws G cmp ok kvs (Merging_iterator comparator) MAt.
Proof.
  constructor.
  - apply MAt_bound.
  - apply Merging_valid_spec.
  - apply Merging_status_spec.
  - intros m i k v HA Hi. apply (Merging_key_spec m i (k, v)); [|done]. apply MAt_inside; [done|by eapply lookup_lt_Some].
  - intros m i k v HA Hi. apply (Merging_value_spec m i (k, v)); [|done]. apply MAt_inside; [done|by eapply lookup_lt_Some].
  - intros m i HA. apply (forward_from m i 0 Wrapper_SeekToFirst HA); [|lia]. intros c w p _ HW. rewrite rank_0. by apply (Wrap_first_spec w p).
  - intros m i HA. destruct (Merging_SeekToLast_spec m i HA) as (m' & Em & HA'). exists m'. split; [done|].
    by replace (length kvs - 1)%nat with (before (length kvs)) by (unfold before; destruct (length kvs); lia).
  - apply Merging_Next_spec.
  - apply Merging_Prev_spec.
  - intros m i target HA Ht. destruct (forward_from m i (cut target) (Wrapper_Seek target) HA) as (m' & Em & HA').
    + intros c w p _ HW. by apply (child_seek c w p).
    + apply cut_le.
    + destruct (cut_split target Ht) as [C1 C2]. exists m', (cut target). split_and!; [done|done|done|].
      eapply Forall_impl; [exact C2|]. cbn. lia.
Qed.

(** A new merging iterator. *)
Lemma set_children_spec cs : forall k (p : nat -> nat), (forall c it, cs !! c = Some it -> CAt (k + c) it (p c)) ->
  exists ws, set_children cs = Ret ws /\ length ws = length cs /\
    forall c w, ws !! c = Some w -> WrapAt (L (k + c)) (CAt (k + c)) w (p c).
Proof.
  induction cs as [|it cs IH]; intros k p HC; [by exists []|].
  destruct (Set_spec (kvs := L k) (At := CAt k) Wrapper_new it (p O)) as (w & Ew & HW).
  { specialize (HC O it eq_refl). by rewrite Nat.add_0_r in HC. }
  destruct (IH (S k) (fun c => p (S c))) as (ws & Ews & Hl & HWs).
  { intros c it' Hc. specialize (HC (S c) it' Hc). by rewrite Nat.add_succ_r in HC. }
  cbn [set_children]. rewrite Ew, Ews. exists (w :: ws). split; [done|]. split; [by cbn; rewrite Hl|].
  intros [|c] w' Hw'; cbn in Hw'; [injection Hw' as <-; by rewrite Nat.add_0_r|]. rewrite Nat.add_succ_r. by apply HWs.
Qed.

Lemma Merging_new_spec cs : length cs = n -> (forall c it, cs !! c = Some it -> exists p, CAt c it p) ->
  exists m, MergingIterator_new cs = Ret m /\ MAt m (length kvs).
Proof.
  intros Hl HC. assert (Hp : exists p, forall c it, cs !! c = Some it -> CAt c it (p c)).
  { clear Hl. revert HC. generalize CAt. induction cs as [|it cs IH]; intros R HC; [by exists (fun _ => O)|].
    destruct (HC O it eq_refl) as [p0 Hp0]. destruct (IH (fun c => R (S c))) as [p Hp]; [intros c it' Hc; by apply (HC (S c))|].
    exists (fun c => match c with O => p0 | S c => p c end). intros [|c] it' Hc; cbn in Hc; [by simplify_eq|]. by apply Hp. }
  destruct Hp as [p Hp]. destruct (set_children_spec cs 0 p Hp) as (ws & Ews & Hlw & HWs). unfold MergingIterator_new. rewrite Ews.
  eexists. split; [done|]. left. split; [done|]. split; [done|]. exists p. split; cbn [children_]; [lia|done].
Qed.
End Laws.
Arguments MergeOk {I II} comparator ok Ls kvs CAt.

(** C22: the merging iterator is an iterator over the merge: over children that
    are iterators over sorted lists of entries, no two with equal keys, the
    merging iterator keeps the laws of iterators for the sorted list of all
    entries, wherever it turns round; walking it forwards gives that list,
    backwards its reverse, and after a seek what is not before the target. *)
Theorem Merging_is_the_merge {I} {II : Iterator I} comparator ok `{OL : !OrderLaws (Compare comparator) ok}
    Ls kvs CAt (HM : MergeOk comparator ok Ls kvs CAt) cs target :
  length cs = length Ls -> (forall c it, cs !! c = Some it -> exists p, CAt c it p) -> ok target ->
  exists m, MergingIterator_new cs = Ret m /\ MAt (Ls := Ls) (kvs := kvs) (CAt := CAt) m (length kvs) /\
    let _ := Merging_iterator comparator in
    IteratorLaws (MergingIterator I) (Compare comparator) ok kvs (MAt (Ls := Ls) (kvs := kvs) (CAt := CAt)) /\
    (exists m', collect (S (length kvs)) m = Ret (kvs, m')) /\
    (exists m', collect_back (S (length kvs)) m = Ret (reverse kvs, m')) /\
    exists m' m'' i, Merging_Seek comparator target m = Ret (tt, m') /\
      walk (S (length kvs)) m' = Ret (drop i kvs, m'') /\
      Forall (fun kv => Compare comparator kv.1 target < 0) (take i kvs) /\
      Forall (fun kv => 0 <= Compare comparator kv.1 target) (drop i kvs).
Proof.
  intros Hl HC Ht. destruct (Merging_new_spec cs Hl HC) as (m & E & HA). exists m. split; [done|]. split; [done|].
  split; [apply Merging_laws|]. by apply (reads_back (HI := Merging_iterator comparator) _ ok kvs _ (L := Merging_laws) m (length kvs)).
Qed.

Definition sample_left : list (Slice * Slice) := [(chars "apple", chars "1"); (chars "bar", chars "2")].
Definition sample_right : list (Slice * Slice) := [(chars "apply", chars "3"); (chars "c", [])].
Definition sample_merge : list (Slice * Slice) :=
  [(chars "apple", chars "1"); (chars "apply", chars "3"); (chars "bar", chars "2"); (chars "c", [])].

Definition sample_at (c : nat) : AnyIter unit -> nat -> Prop :=
  match c with O => AnyAt sample_left | S O => AnyAt sample_right | _ => fun _ _ => False end.

#[local] Instance sample_MergeOk :
  @MergeOk _ (AnyIter_iterator BytewiseComparator) BytewiseComparator is_bytes [sample_left; sample_right] sample_merge sample_at.
Proof.
  constructor.
  - intros [|[|c]]; unfold L; cbn [nth sample_at]; [refine (AnyAt_laws BytewiseComparator (ok := is_bytes) _ _); [solve_keys|solve_sorted]..|]. constructor; by intros.
  - intros [|[|c]]; unfold L; cbn [nth]; [solve_sorted..|]. destruct c; constructor.
  - solve_sorted.
  - unfold sample_merge, sample_left, sample_right. cbn [concat app]. apply Permutation_cons; [done|]. apply perm_swap.
  - solve_keys.
Qed.

Lemma Merging_is_the_merge_witness :
  exists left right l r m,
    build_block 1 BytewiseComparator sample_left = Some left /\ NewIterator (Block_new left) = Ret l /\
    build_block 1 BytewiseComparator sample_right = Some right /\ NewIterator (Block_new right) = Ret r /\
    MergingIterator_new (II := AnyIter_iterator (C := unit) BytewiseComparator) [l; r] = Ret m /\
    let _ := AnyIter_iterator (C := unit) BytewiseComparator in
    let _ := Merging_iterator BytewiseComparator in
    exists m', collect 5 m = Ret (sample_merge, m').
Proof.
  assert (Hb : forall kvs, StronglySorted (key_lt BytewiseComparator) kvs -> Forall (fun kv => is_bytes kv.1) kvs -> block_cost kvs < 2 ^ 32 ->
    exists data (it : AnyIter unit), build_block 1 BytewiseComparator kvs = Some data /\ NewIterator (Block_new data) = Ret it /\ AnyAt kvs it (length kvs)).
  { intros kvs HS HK Hc. destruct (build_block_spec 1 BytewiseComparator is_bytes kvs ltac:(lia) HS HK Hc) as (es & R & E & _ & _).
    destruct (NewIterator_at (C := unit) kvs _ (build_is_block BytewiseComparator 1 kvs _ ltac:(lia) HS HK Hc E)) as (it & En & HA & _).
    by exists (LvBlockIter.block_data es R), it. }
  destruct (Hb sample_left) as (dl & l & E1 & E2 & A1); [solve_sorted|solve_keys|by vm_compute|].
  destruct (Hb sample_right) as (dr & r & E3 & E4 & A2); [solve_sorted|solve_keys|by vm_compute|].
  destruct (Merging_is_the_merge BytewiseComparator is_bytes [sample_left; sample_right] sample_merge sample_at sample_MergeOk
    [l; r] (chars "b")) as (m & E & _ & _ & C & _).
  - done.
  - intros [|[|c]] it Hc; cbn in Hc; simplify_eq; cbn [sample_at]; by eexists.
  - solve_bytes.
  - exists dl, dr, l, r, m. split_and!; [exact E1|exact E2|exact E3|exact E4|exact E|exact C].
Defined.
