(* ===== verification/LvTableBuilder.v ===== *)
(** The table builder ([table/table_builder.cc]). *)

From stdpp Require Import base list gmap strings.
From Stdlib Require Import ZArith Lia.
From S2P Require Import Prelude LvSlice LvCoding LvCrc LvBloom LvEnv LvBlock LvFilterBlock LvTableFormat LvOptions.

Section TableBuilder.
Context {F : Type} `{WritableFile F}.
(** Where the contents of a block and the trailer lie when their CRC is computed. *)
Variables (address trailer_address : Z).

(** [compressed_output] does not outlive a call. A filter block keeps the
    policy it was made with. *)
Record Rep : Type := {
  options : Options; index_block_options : Options; file : F; offset : Z; status : Status;
  data_block : BlockBuilder; index_block : BlockBuilder; last_key : Slice; num_entries : Z; closed : bool;
  filter_block : option (FilterPolicy * FilterBlockBuilder); pending_index_entry : bool; pending_handle : BlockHandle
}.

Definition on_file {A} (c : M F A) : M Rep A :=
  fun r => match c (file r) with
           | Ret (a, f) => Ret (a, Build_Rep (options r) (index_block_options r) f (offset r) (status r) (data_block r) (index_block r)
                                 (last_key r) (num_entries r) (closed r) (filter_block r) (pending_index_entry r) (pending_handle r))
           | Undef => Undef
           | NoFuel => NoFuel
           end.

Definition set_status (s : Status) : M Rep unit := fun r =>
  Ret (tt, Build_Rep (options r) (index_block_options r) (file r) (offset r) s (data_block r) (index_block r)
    (last_key r) (num_entries r) (closed r) (filter_block r) (pending_index_entry r) (pending_handle r)).
Definition set_offset (o : Z) : M Rep unit := fun r =>
  Ret (tt, Build_Rep (options r) (index_block_options r) (file r) o (status r) (data_block r) (index_block r)
    (last_key r) (num_entries r) (closed r) (filter_block r) (pending_index_entry r) (pending_handle r)).
Definition set_data_block (b : BlockBuilder) : M Rep unit := fun r =>
  Ret (tt, Build_Rep (options r) (index_block_options r) (file r) (offset r) (status r) b (index_block r)
    (last_key r) (num_entries r) (closed r) (filter_block r) (pending_index_entry r) (pending_handle r)).
Definition set_index_block (b : BlockBuilder) : M Rep unit := fun r =>
  Ret (tt, Build_Rep (options r) (index_block_options r) (file r) (offset r) (status r) (data_block r) b
    (last_key r) (num_entries r) (closed r) (filter_block r) (pending_index_entry r) (pending_handle r)).
Definition set_last_key (k : Slice) : M Rep unit := fun r =>
  Ret (tt, Build_Rep (options r) (index_block_options r) (file r) (offset r) (status r) (data_block r) (index_block r)
    k (num_entries r) (closed r) (filter_block r) (pending_index_entry r) (pending_handle r)).
Definition set_num_entries (n : Z) : M Rep unit := fun r =>
  Ret (tt, Build_Rep (options r) (index_block_options r) (file r) (offset r) (status r) (data_block r) (index_block r)
    (last_key r) n (closed r) (filter_block r) (pending_index_entry r) (pending_handle r)).
Definition set_closed (b : bool) : M Rep unit := fun r =>
  Ret (tt, Build_Rep (options r) (index_block_options r) (file r) (offset r) (status r) (data_block r) (index_block r)
    (last_key r) (num_entries r) b (filter_block r) (pending_index_entry r) (pending_handle r)).
Definition set_filter_block (fb : option (FilterPolicy * FilterBlockBuilder)) : M Rep unit := fun r =>
  Ret (tt, Build_Rep (options r) (index_block_options r) (file r) (offset r) (status r) (data_block r) (index_block r)
    (last_key r) (num_entries r) (closed r) fb (pending_index_entry r) (pending_handle r)).
Definition set_pending_index_entry (b : bool) : M Rep unit := fun r =>
  Ret (tt, Build_Rep (options r) (index_block_options r) (file r) (offset r) (status r) (data_block r) (index_block r)
    (last_key r) (num_entries r) (closed r) (filter_block r) b (pending_handle r)).
Definition set_pending_handle (h : BlockHandle) : M Rep unit := fun r =>
  Ret (tt, Build_Rep (options r) (index_block_options r) (file r) (offset r) (status r) (data_block r) (index_block r)
    (last_key r) (num_entries r) (closed r) (filter_block r) (pending_index_entry r) h).

(** The constructors of [Rep] and [TableBuilder]. [None]: an assertion fails. *)
Definition TableBuilder_new (opt : Options) (f : F) : option Rep :=
  data_block ← BlockBuilder_new (block_restart_interval opt);
  index_block ← BlockBuilder_new (block_restart_interval opt);
  filter_block ← (match filter_policy opt with
                  | None => Some None
                  | Some policy => fb ← StartBlock policy 0 FilterBlockBuilder_new; Some (Some (policy, fb))
                  end : option (option (FilterPolicy * FilterBlockBuilder)));
  Some {| options := opt; index_block_options := set_block_restart_interval 1 opt; file := f; offset := 0; status := Status_OK;
          data_block := data_block; index_block := index_block; last_key := []; num_entries := 0; closed := false;
          filter_block := filter_block; pending_index_entry := false; pending_handle := BlockHandle_new |}.

(** [~TableBuilder]. *)
Definition TableBuilder_delete (r : Rep) : option unit := if closed r then Some tt else None.

(** [same_comparator] is the outcome of comparing the two pointers. *)
Definition ChangeOptions (same_comparator : bool) (opt : Options) : M Rep Status :=
  if negb same_comparator then ret (Status_InvalidArgument (chars "changing comparator while building table") [])
  else fun r =>
    Ret (Status_OK, Build_Rep opt (set_block_restart_interval 1 opt) (file r) (offset r) (status r) (data_block r) (index_block r)
      (last_key r) (num_entries r) (closed r) (filter_block r) (pending_index_entry r) (pending_handle r)).

Definition TableBuilder_ok (r : Rep) : bool := Status_ok (status r).

Definition WriteRawBlock (block_contents : Slice) (type : CompressionType) : M Rep BlockHandle :=
  let* r := get in
  let handle := {| offset_ := offset r; size_ := size block_contents |} in
  let* s := on_file (File_Append block_contents) in
  set_status s ;;;
  if Status_ok s then
    let crc := Value address block_contents in
    let crc := Extend trailer_address crc [CompressionType_val type] in
    let trailer := CompressionType_val type :: EncodeFixed32 (Mask crc) in
    let* s := on_file (File_Append trailer) in
    set_status s ;;;
    (if Status_ok s then set_offset (u64 (offset r + (size block_contents + kBlockTrailerSize))) else ret tt) ;;;
    ret handle
  else ret handle.

(** The handle, and the block after [Reset]. *)
Definition WriteBlock (block : BlockBuilder) : M Rep (BlockHandle * BlockBuilder) :=
  let* r := get in
  if negb (TableBuilder_ok r) then undef
  else
    let raw := (BlockBuilder_Finish block).1 in
    let '(block_contents, type) :=
      match compression (options r) with
      | kNoCompression => (raw, kNoCompression)
      | kSnappyCompression =>
          match Snappy_Compress raw with
          | Some compressed => if size compressed <? size raw - size raw / 8 then (compressed, kSnappyCompression) else (raw, kNoCompression)
          | None => (raw, kNoCompression)
          end
      end in
    let* handle := WriteRawBlock block_contents type in
    ret (handle, BlockBuilder_Reset).

Definition TableBuilder_Flush : M Rep unit :=
  let* r := get in
  if closed r then undef
  else if negb (TableBuilder_ok r) then ret tt
  else if BlockBuilder_empty (data_block r) then ret tt
  else if pending_index_entry r then undef
  else
    let* '(handle, block) := WriteBlock (data_block r) in
    set_pending_handle handle ;;;
    set_data_block block ;;;
    let* r := get in
    (if TableBuilder_ok r then
       set_pending_index_entry true ;;;
       let* s := on_file File_Flush in set_status s
     else ret tt) ;;;
    let* r := get in
    match filter_block r with
    | None => ret tt
    | Some (policy, fb) => let* fb := need (StartBlock policy (offset r) fb) in set_filter_block (Some (policy, fb))
    end.

(** The index entry of the block before, under the key [last]. *)
Definition add_index_entry (last : Slice) : M Rep unit :=
  let* r := get in
  set_last_key last ;;;
  let* handle_encoding := need (BlockHandle_EncodeTo (pending_handle r) []) in
  let* b := need (BlockBuilder_Add (block_restart_interval (index_block_options r)) (comparator (index_block_options r))
                    (index_block r) last handle_encoding) in
  set_index_block b ;;;
  set_pending_index_entry false.

Definition TableBuilder_Add (key value : Slice) : M Rep unit :=
  let* r := get in
  if closed r then undef
  else if negb (TableBuilder_ok r) then ret tt
  else if (num_entries r >? 0) && negb (Compare (comparator (options r)) key (last_key r) >? 0) then undef
  else
    (if pending_index_entry r then
       if negb (BlockBuilder_empty (data_block r)) then undef
       else add_index_entry (FindShortestSeparator (comparator (options r)) (last_key r) key)
     else ret tt) ;;;
    match filter_block r with
    | None => ret tt
    | Some (policy, fb) => set_filter_block (Some (policy, AddKey key fb))
    end ;;;
    set_last_key key ;;;
    set_num_entries (num_entries r + 1) ;;;
    let* b := need (BlockBuilder_Add (block_restart_interval (options r)) (comparator (options r)) (data_block r) key value) in
    set_data_block b ;;;
    if CurrentSizeEstimate b >=? block_size (options r) then TableBuilder_Flush else ret tt.

(** The parts of [Finish]. *)
Definition write_filter_block : M Rep BlockHandle :=
  let* r := get in
  match filter_block r with
  | Some (policy, fb) =>
      if TableBuilder_ok r then
        let '(contents, fb) := FilterBlock_Finish policy fb in
        set_filter_block (Some (policy, fb)) ;;;
        WriteRawBlock contents kNoCompression
      else ret BlockHandle_new
  | None => ret BlockHandle_new
  end.

Definition write_metaindex_block (filter_block_handle : BlockHandle) : M Rep BlockHandle :=
  let* r := get in
  if TableBuilder_ok r then
    let* meta_index_block := need (BlockBuilder_new (block_restart_interval (options r))) in
    let* meta_index_block :=
      match filter_block r with
      | None => ret meta_index_block
      | Some _ =>
          let* policy := need (filter_policy (options r)) in
          let* handle_encoding := need (BlockHandle_EncodeTo filter_block_handle []) in
          need (BlockBuilder_Add (block_restart_interval (options r)) (comparator (options r)) meta_index_block
                  (chars "filter." ++ FilterPolicy_Name policy) handle_encoding)
      end in
    let* '(handle, _) := WriteBlock meta_index_block in
    ret handle
  else ret BlockHandle_new.

Definition write_index_block : M Rep BlockHandle :=
  let* r := get in
  if TableBuilder_ok r then
    (if pending_index_entry r then add_index_entry (FindShortSuccessor (comparator (options r)) (last_key r)) else ret tt) ;;;
    let* r := get in
    let* '(handle, block) := WriteBlock (index_block r) in
    set_index_block block ;;;
    ret handle
  else ret BlockHandle_new.

Definition write_footer (metaindex_block_handle index_block_handle : BlockHandle) : M Rep unit :=
  let* r := get in
  if TableBuilder_ok r then
    let footer := {| metaindex_handle_ := metaindex_block_handle; index_handle_ := index_block_handle |} in
    let* footer_encoding := need (Footer_EncodeTo footer []) in
    let* s := on_file (File_Append footer_encoding) in
    set_status s ;;;
    if Status_ok s then set_offset (u64 (offset r + size footer_encoding)) else ret tt
  else ret tt.

Definition TableBuilder_Finish : M Rep Status :=
  TableBuilder_Flush ;;;
  let* r := get in
  if closed r then undef
  else
    set_closed true ;;;
    let* filter_block_handle := write_filter_block in
    let* metaindex_block_handle := write_metaindex_block filter_block_handle in
    let* index_block_handle := write_index_block in
    write_footer metaindex_block_handle index_block_handle ;;;
    let* r := get in
    ret (status r).

Definition TableBuilder_Abandon : M Rep unit :=
  let* r := get in if closed r then undef else set_closed true.

Definition TableBuilder_NumEntries (r : Rep) : Z := num_entries r.
Definition TableBuilder_FileSize (r : Rep) : Z := offset r.
Definition TableBuilder_status (r : Rep) : Status := status r.
End TableBuilder.
Arguments Rep : clear implicits.
