(* ===== verification/LvTableBuildProps.v ===== *)
(** What the table builder writes: the data blocks of the entries, the filter
    block, the metaindex block, the index of separators and handles, and the
    footer. *)

From stdpp Require Import base list gmap strings sorting.
From Stdlib Require Import ZArith Lia.
From S2P Require Import Prelude LvSlice LvCoding LvCrc LvBloom LvEnv LvBlock LvBlockProps LvBlockIter LvFilterBlock LvTableFormat LvOptions LvTableBuilder.

(** * What a table asks of its comparator and its filter policy *)

(** Keys are bytes, and shortened keys are no longer. Readers look together for
    keys that are the [tc_same], such as the versions of a user key: keys that
    follow each other, and a separator never comes between a key it may be looked
    up with and the limit. *)
Class TableComparator (c : Comparator) (ok : Slice -> Prop) : Type := {
  tc_same : Slice -> Slice -> Prop;
  tc_laws :: ComparatorLaws c ok;
  tc_same_refl k : ok k -> tc_same k k;
  tc_same_between q x k : ok q -> ok x -> ok k -> Compare c q x <= 0 -> Compare c x k <= 0 -> tc_same q k -> tc_same q x;
  tc_same_separator s l q : ok s -> ok l -> ok q -> Compare c s l < 0 -> tc_same q l -> 0 <= Compare c (FindShortestSeparator c s l) q -> 0 <= Compare c s q;
  tc_bytes k : ok k -> is_bytes k;
  tc_separator_size s l : ok s -> ok l -> size (FindShortestSeparator c s l) <= size s;
  tc_successor_size k : ok k -> size (FindShortSuccessor c k) <= size k
}.

#[export] Instance Bytewise_table : TableComparator BytewiseComparator is_bytes.
Proof.
  apply (Build_TableComparator _ _ eq); [apply _|done|..|done| |].
  - intros q x k Hq Hx _ H1 H2 <-. apply compare_eq_iff. pose proof (cmp_flip (cmp := Compare BytewiseComparator) q x Hq Hx) as Hf.
    change (Slice_compare q x = 0). change (Compare BytewiseComparator q x = 0). lia.
  - intros s l q Hs Hl Hq Hlt -> Hge. destruct (cmp_separator s l Hs Hl Hlt) as (_ & _ & H). lia.
  - intros s l Hs Hl. destruct (separator_bounds s l Hs Hl) as (_ & _ & H & _).
    change (FindShortestSeparator BytewiseComparator s l) with (Bytewise_FindShortestSeparator s l). unfold size. lia.
  - intros k Hk. destruct (successor_bounds k Hk) as (_ & _ & H).
    change (FindShortSuccessor BytewiseComparator k) with (Bytewise_FindShortSuccessor k). unfold size. lia.
Qed.

(** Filters are bytes, at most [c] for every key and [c] more; the name is short. *)
Class TablePolicy (p : FilterPolicy) (ok : Slice -> Prop) (c : Z) : Prop := {
  tp_laws :: FilterPolicyLaws p ok;
  tp_c : 0 <= c;
  tp_name : is_bytes (FilterPolicy_Name p) /\ size (FilterPolicy_Name p) < 2 ^ 16;
  tp_bytes keys : is_bytes (CreateFilter p keys []);
  tp_size keys : Z.of_nat (length keys) < 2 ^ 31 -> size (CreateFilter p keys []) <= c * (1 + Z.of_nat (length keys))
}.

(** ** The size of a filter block *)

Section FilterSize.
Context (p : FilterPolicy) (ok : Slice -> Prop) (c : Z) `{TP : !TablePolicy p ok c}.

Lemma AddBlocks_length blks b : AddBlocks p FilterBlockBuilder_new blks = Some b -> Forall (fun blk => 0 <= blk.1) blks ->
  exists gs pending, Groups p b gs pending /\ concat gs ++ pending = concat blks.*2 /\
    (length gs <= match last blks with Some blk => block_index blk | None => 0 end)%nat.
Proof.
  revert b. induction blks as [|blk blks IH] using rev_ind; intros b Hb HF.
  - injection Hb as <-. exists [], []. split; [apply Groups_new|]. split; [done|cbn; lia].
  - apply Forall_app in HF as [HF H0]. apply Forall_inv in H0. unfold AddBlocks in Hb. rewrite foldl_app in Hb.
    fold (AddBlocks p FilterBlockBuilder_new blks) in Hb. cbn [foldl] in Hb.
    destruct (AddBlocks p FilterBlockBuilder_new blks) as [b1|] eqn:E1; [|done]. cbn [mbind option_bind] in Hb.
    destruct (IH b1 eq_refl HF) as (gs & pending & HG & Hc & _).
    assert (Hidx : Z.of_nat (length gs) <= blk.1 / kFilterBase).
    { unfold AddBlock, StartBlock in Hb. rewrite (offsets_length _ _ _ _ HG) in Hb.
      destruct (Z.geb_spec (blk.1 / kFilterBase) (Z.of_nat (length gs))); [lia|done]. }
    destruct (AddBlock_groups p (ok := ok) b1 gs pending blk HG H0 Hidx) as (b' & gs' & pending' & E & HG' & Hl & Hc' & _).
    rewrite E in Hb. injection Hb as <-. exists gs', pending'. split; [done|]. split.
    + rewrite Hc', app_assoc, Hc, fmap_app, concat_app. cbn [fmap list_fmap concat]. by rewrite app_nil_r.
    + rewrite last_snoc. lia.
Qed.

Lemma filters_bound gs : Z.of_nat (length (concat gs)) < 2 ^ 31 ->
  is_bytes (filters p gs) /\ size (filters p gs) <= 2 * c * Z.of_nat (length (concat gs)).
Proof.
  pose proof (tp_c (ok := ok)). induction gs as [|g gs IH]; intros Hn; [split; [by apply Forall_nil_2|change (0 <= 2 * c * 0); lia]|]. cbn [concat] in *. rewrite length_app in *.
  destruct IH as [IH1 IH2]; [lia|]. unfold filters in *. cbn [map concat]. rewrite size_app, is_bytes_app.
  destruct g as [|k g]; [cbn [filter_of]; split; [split; [constructor|done]|]; change (size []) with 0; cbn [length]; lia|].
  cbn [filter_of]. pose proof (tp_size (ok := ok) (k :: g) ltac:(lia)). split; [split; [apply (tp_bytes (ok := ok))|done]|]. cbn [length] in *. nia.
Qed.

Lemma filter_block_bound blks contents m : build_filter_block p blks = Some contents -> 0 <= m ->
  Forall (fun blk => 0 <= blk.1 <= m) blks -> Z.of_nat (length (concat blks.*2)) < 2 ^ 31 ->
  is_bytes contents /\ size contents <= 2 * c * Z.of_nat (length (concat blks.*2)) + 4 * (m / kFilterBase + 1) + 5.
Proof.
  intros Hb Hm HF Hn. unfold build_filter_block in Hb. destruct (AddBlocks p FilterBlockBuilder_new blks) as [b|] eqn:E; [|done].
  cbn [mbind option_bind] in Hb. apply (inj Some) in Hb.
  destruct (AddBlocks_length blks b E) as (gs & pending & HG & Hc & Hl); [eapply Forall_impl; [exact HF|]; cbn; lia|].
  destruct (Finish_groups p (ok := ok) b gs pending HG) as (gs' & Ef & Hc' & _ & Hl'). rewrite Hc in Hc'. rewrite Hb in Ef. rewrite Ef. clear Hb Ef contents.
  destruct (filters_bound gs') as [F1 F2]; [by rewrite Hc'|]. split.
  - unfold LvFilterBlock.filter_block, offset_array. rewrite !is_bytes_app. split_and!; [done| |apply EncodeFixed32_bytes|by repeat constructor].
    clear. induction (seq 0 (length gs')) as [|i l IH]; [constructor|]. cbn [map concat]. apply is_bytes_app. split; [apply EncodeFixed32_bytes|done].
  - rewrite (filter_block_size p), <- Hc'. assert (Hlen : Z.of_nat (length gs) <= Z.max 0 (m / kFilterBase)).
    { destruct (last blks) as [blk|] eqn:El; [|lia]. apply last_Some_elem_of in El. rewrite Forall_forall in HF. specialize (HF blk El).
      assert (Hk : 0 < kFilterBase) by done. unfold block_index in Hl. pose proof (Z.div_le_mono blk.1 m kFilterBase Hk ltac:(lia)).
      pose proof (Z.div_pos blk.1 kFilterBase ltac:(lia) Hk). lia. }
    pose proof (Z.div_pos m kFilterBase Hm ltac:(done)).
    lia.
Qed.
End FilterSize.

(** * Blocks as bytes *)

Lemma enc_bytes e : ent_ok e -> is_bytes (be_key e) -> is_bytes (be_val e) -> is_bytes (enc e).
Proof.
  intros [Hs Hsh] Hk Hv. pose proof (size_nonneg (be_key e)). pose proof (size_nonneg (be_val e)). unfold enc.
  rewrite !is_bytes_app. split_and!; [apply EncodeVarint32_is_bytes; unfold size in *; lia|
    apply EncodeVarint32_is_bytes; unfold non_shared, size in *; lia|apply EncodeVarint32_is_bytes; lia|by apply Forall_drop|done].
Qed.

Lemma concat_bytes ls : Forall is_bytes ls -> is_bytes (concat ls).
Proof. induction 1 as [|l ls Hl _ IH]; [constructor|]. cbn [concat]. by apply is_bytes_app. Qed.

Lemma block_data_bytes es R : Layout es R -> Forall (fun kv => is_bytes kv.1 /\ is_bytes kv.2) (kvs_of es) -> is_bytes (block_data es R).
Proof.
  intros HL HF. unfold kvs_of in HF. rewrite Forall_map in HF. unfold block_data, body, restart_array. rewrite !is_bytes_app. split_and!.
  - apply concat_bytes. rewrite Forall_map. pose proof (ly_ok _ _ HL) as Hok. rewrite Forall_forall in HF, Hok. apply Forall_forall.
    intros e He. destruct (HF e He) as [H1 H2]. apply enc_bytes; [by apply Hok|done..].
  - apply concat_bytes. rewrite Forall_map. apply Forall_forall. intros a _. apply EncodeFixed32_bytes.
  - apply EncodeFixed32_bytes.
Qed.

Section Blocks.
Context (interval : Z) (cmp : Comparator) (ok : Slice -> Prop) `{TC : !TableComparator cmp ok}.
Hypothesis Hinterval : 1 <= interval.
Abbreviation KV := (Slice * Slice)%type.

(** Entries a table may have. *)
Definition entries_ok (kvs : list KV) : Prop :=
  StronglySorted (key_lt cmp) kvs /\ Forall (fun kv => ok kv.1 /\ is_bytes kv.2) kvs.

Lemma entries_ok_app l1 l2 : entries_ok (l1 ++ l2) ->
  entries_ok l1 /\ entries_ok l2 /\ forall a b, a ∈ l1 -> b ∈ l2 -> Compare cmp a.1 b.1 < 0.
Proof.
  intros [HS HF]. apply Forall_app in HF as [H1 H2]. split_and!.
  - split; [by eapply StronglySorted_app_1_l|done].
  - split; [by eapply StronglySorted_app_1_r|done].
  - intros a b Ha Hb. change (key_lt cmp a b). eapply StronglySorted_app_1_elem_of; [exact HS|done|done].
Qed.

Lemma entries_keys kvs : entries_ok kvs -> Forall (fun kv => ok kv.1) kvs.
Proof. intros [_ HF]. eapply Forall_impl; [exact HF|]. by intros ? [? _]. Qed.

(** The block of these entries. *)
Definition data_of (kvs : list KV) : Slice := default [] (build_block interval cmp kvs).

Lemma data_of_spec kvs : entries_ok kvs -> block_cost kvs < 2 ^ 32 ->
  build_block interval cmp kvs = Some (data_of kvs) /\ is_bytes (data_of kvs) /\ size (data_of kvs) <= block_cost kvs.
Proof.
  intros He Hc. pose proof (entries_keys kvs He) as Hk. destruct He as [HS HF].
  destruct (build_block_spec interval cmp ok kvs Hinterval HS Hk Hc) as (es & R & E & HL & <-). unfold data_of. rewrite E. cbn [default].
  split; [done|]. split; [|by apply block_data_cost]. apply (block_data_bytes es R HL). eapply Forall_impl; [exact HF|].
  intros kv [H1 H2]. split; [by eapply tc_bytes|done].
Qed.

(** A builder that has taken entries. *)
Definition holds_entries (b : BlockBuilder) (kvs : list KV) : Prop := add_entries interval cmp BlockBuilder_Reset kvs = Some b.

Lemma holds_finish b kvs : holds_entries b kvs -> (BlockBuilder_Finish b).1 = data_of kvs.
Proof.
  unfold holds_entries, data_of, build_block, BlockBuilder_new. destruct (Z.geb_spec interval 1); [|lia]. cbn [mbind option_bind].
  by intros ->.
Qed.

Lemma holds_built b kvs : holds_entries b kvs -> entries_ok kvs -> block_cost kvs < 2 ^ 32 ->
  exists es R, Built interval b es R /\ kvs_of es = kvs.
Proof.
  intros Hb He Hc. destruct (add_entries_spec interval cmp ok Hinterval kvs (proj1 He) (entries_keys _ He) Hc) as (b' & es & R & E & HB & Hes).
  unfold holds_entries in Hb. rewrite Hb in E. injection E as <-. by exists es, R.
Qed.

Lemma holds_add b kvs k v : holds_entries b kvs -> entries_ok (kvs ++ [(k, v)]) -> block_cost (kvs ++ [(k, v)]) < 2 ^ 32 ->
  exists b', BlockBuilder_Add interval cmp b k v = Some b' /\ holds_entries b' (kvs ++ [(k, v)]).
Proof.
  intros Hb He Hc. destruct (add_entries_spec interval cmp ok Hinterval (kvs ++ [(k, v)]) (proj1 He) (entries_keys _ He) Hc) as (b' & es & R & E & HB & Hes).
  exists b'. split; [|done]. rewrite add_entries_app in E. unfold holds_entries in Hb. rewrite Hb in E. exact E.
Qed.

Lemma holds_empty b kvs : holds_entries b kvs -> entries_ok kvs -> block_cost kvs < 2 ^ 32 ->
  BlockBuilder_empty b = match kvs with [] => true | _ => false end.
Proof.
  intros Hb He Hc. destruct (holds_built b kvs Hb He Hc) as (es & R & HB & <-). unfold BlockBuilder_empty.
  rewrite (bt_buffer _ _ _ _ HB). destruct es as [|e es]; [done|]. pose proof (ly_ok _ _ (bt_layout _ _ _ _ HB)) as Ho.
  apply Forall_inv in Ho. pose proof (enc_size e Ho) as Hs. rewrite body_cons. cbn [kvs_of map]. destruct (enc e); [by cbn in Hs|done].
Qed.
(** ** Blocks in a file *)

Definition stored (bs : list (list KV)) : Slice := concat (map (fun b => raw_block kNoCompression (data_of b)) bs).

Definition handle_of (bs : list (list KV)) (j : nat) : BlockHandle :=
  {| offset_ := size (stored (take j bs)); size_ := size (data_of (nth j bs [])) |}.

(** The index: a separator and the handle for each block. *)
Definition idx_of (bs : list (list KV)) (seps : list Slice) : list KV :=
  imap (fun j s => (s, handle_bytes (handle_of bs j))) seps.

(** A bound for each block of a table, and for all of them. *)
Definition table_cost (kvs : list KV) : Z := block_cost kvs + 20 * Z.of_nat (length kvs).

Lemma table_cost_app l1 l2 : table_cost (l1 ++ l2) = table_cost l1 + table_cost l2 - 8.
Proof. unfold table_cost. rewrite block_cost_app, length_app. lia. Qed.

Lemma table_cost_pos kvs : 8 <= block_cost kvs <= table_cost kvs.
Proof. unfold table_cost. pose proof (block_cost_pos kvs). lia. Qed.

Lemma table_cost_elem kvs kv : kv ∈ kvs -> size kv.1 + size kv.2 + 39 + 8 <= table_cost kvs.
Proof.
  intros Hk. apply list_elem_of_split in Hk as (l1 & l2 & ->). rewrite table_cost_app.
  pose proof (table_cost_pos l1). pose proof (table_cost_pos l2). unfold table_cost at 2. cbn [length]. rewrite block_cost_cons.
  unfold table_cost in *. lia.
Qed.

Lemma stored_app bs bs' : stored (bs ++ bs') = stored bs ++ stored bs'.
Proof. unfold stored. by rewrite map_app, concat_app. Qed.

Lemma stored_snoc bs b : stored (bs ++ [b]) = stored bs ++ raw_block kNoCompression (data_of b).
Proof. rewrite stored_app. unfold stored at 2. cbn [map concat]. by rewrite app_nil_r. Qed.

Lemma handle_of_snoc bs b j : (j < length bs)%nat -> handle_of (bs ++ [b]) j = handle_of bs j.
Proof. intros Hj. unfold handle_of. by rewrite take_app_le, app_nth1 by lia. Qed.

Lemma handle_of_last bs b : handle_of (bs ++ [b]) (length bs) = {| offset_ := size (stored bs); size_ := size (data_of b) |}.
Proof. unfold handle_of. by rewrite take_app_length, nth_middle. Qed.

Lemma idx_of_blocks bs b seps : (length seps <= length bs)%nat -> idx_of (bs ++ [b]) seps = idx_of bs seps.
Proof. intros Hl. unfold idx_of. apply imap_ext. intros j s Hj. rewrite handle_of_snoc; [done|]. apply lookup_lt_Some in Hj. lia. Qed.

Lemma idx_of_snoc bs seps s : idx_of bs (seps ++ [s]) = idx_of bs seps ++ [(s, handle_bytes (handle_of bs (length seps)))].
Proof. unfold idx_of. rewrite imap_app. cbn. by rewrite Nat.add_0_r. Qed.

Lemma idx_of_lookup bs seps j s h : idx_of bs seps !! j = Some (s, h) <-> seps !! j = Some s /\ h = handle_bytes (handle_of bs j).
Proof.
  unfold idx_of. rewrite list_lookup_imap. destruct (seps !! j) as [s'|]; cbn [fmap option_fmap option_map].
  - split; [intros Heq; injection Heq as <- <-; split; reflexivity|intros [Heq ->]; injection Heq as ->; reflexivity].
  - split; [discriminate|intros [Heq _]; discriminate].
Qed.

Lemma idx_of_length bs seps : length (idx_of bs seps) = length seps.
Proof. unfold idx_of. apply length_imap. Qed.

(** How separators lie between the blocks. *)
Record SepOk (bs : list (list KV)) (seps : list Slice) : Prop := {
  so_length : (length seps <= length bs)%nat;
  so_full j b : bs !! j = Some b -> (j < length seps)%nat -> b <> [];
  so_ok : Forall ok seps;
  so_ge j s kv : seps !! j = Some s -> kv ∈ nth j bs [] -> Compare cmp kv.1 s <= 0;
  so_lt j k s kv : seps !! j = Some s -> (j < k)%nat -> kv ∈ nth k bs [] -> Compare cmp s kv.1 < 0;
  so_tight j k s kv q : seps !! j = Some s -> (j < k)%nat -> kv ∈ nth k bs [] -> ok q -> tc_same q kv.1 -> 0 <= Compare cmp s q ->
    exists y, y ∈ nth j bs [] /\ 0 <= Compare cmp y.1 q
}.

Lemma nth_concat bs k (kv : KV) : kv ∈ nth k bs [] -> kv ∈ concat bs.
Proof.
  intros Hk. destruct (decide (k < length bs)%nat) as [Hlt|Hge].
  - destruct (lookup_lt_is_Some_2 bs k Hlt) as [b Hb]. rewrite (nth_lookup_Some _ _ _ _ Hb) in Hk.
    apply list_elem_of_In, in_concat. exists b. split; apply list_elem_of_In; [by eapply list_elem_of_lookup_2|done].
  - rewrite nth_overflow in Hk by lia. by apply elem_of_nil in Hk.
Qed.

Definition small (h : BlockHandle) : Prop := 0 <= offset_ h < 2 ^ 40 /\ 0 <= size_ h < 2 ^ 32.

Lemma small_ok h : small h -> handle_ok h.
Proof. intros [H1 H2]. split; lia. Qed.

Lemma idx_entries bs seps : SepOk bs seps -> Forall (fun kv => ok kv.1) (concat bs) -> (forall j, (j < length seps)%nat -> small (handle_of bs j)) ->
  entries_ok (idx_of bs seps).
Proof.
  intros HS Hok Hh. rewrite Forall_forall in Hok. pose proof (so_ok _ _ HS) as Hs. rewrite Forall_forall in Hs. split.
  - assert (HSS : forall l k, (forall j s, l !! j = Some s -> seps !! (k + j)%nat = Some s) ->
      StronglySorted (key_lt cmp) (imap (fun j s => (s, handle_bytes (handle_of bs (k + j)))) l)).
    { induction l as [|s l IH]; intros k Hl; [constructor|]. cbn [imap]. constructor.
      - rewrite (imap_ext _ (fun j s => (s, handle_bytes (handle_of bs (S k + j)))) l).
        + apply (IH (S k)). intros j s' Hj. replace (S k + j)%nat with (k + S j)%nat by lia. by apply (Hl (S j)).
        + intros j x _. cbv beta delta [compose]. by replace (S k + j)%nat with (k + S j)%nat by lia.
      - apply Forall_lookup. intros j [s' h] Hj. rewrite list_lookup_imap in Hj. destruct (l !! j) as [x|] eqn:Ej; [|done]. cbn [fmap option_fmap option_map] in Hj. injection Hj as <- <-.
        unfold key_lt. cbn [fst]. pose proof (Hl O s eq_refl) as E0. pose proof (Hl (S j) x Ej) as E1. rewrite Nat.add_0_r in E0.
        pose proof (lookup_lt_Some _ _ _ E1) as Hlt. pose proof (so_length _ _ HS) as Hlen.
        destruct (lookup_lt_is_Some_2 bs (k + S j)) as [b Hb]; [lia|].
        pose proof (so_full _ _ HS _ b Hb Hlt) as Hf. destruct b as [|kv b]; [done|].
        assert (Hin : kv ∈ nth (k + S j) bs []) by (rewrite (nth_lookup_Some _ _ _ _ Hb); apply elem_of_cons; by left).
        assert (Os : ok s) by (apply Hs; exact (list_elem_of_lookup_2 _ _ _ E0)).
        assert (Ox : ok x) by (apply Hs; exact (list_elem_of_lookup_2 _ _ _ E1)).
        assert (Okv : ok kv.1) by (apply Hok, (nth_concat bs (k + S j)), Hin).
        apply (cmp_lt_le_trans s kv.1 x Os Okv Ox).
        + apply (so_lt _ _ HS k (k + S j) s kv E0); [lia|done].
        + by apply (so_ge _ _ HS (k + S j) x kv E1). }
    apply (HSS seps O). done.
  - apply Forall_lookup. intros j [s h] Hj. apply idx_of_lookup in Hj as [Hj ->]. cbn [fst snd]. split.
    + apply Hs. by eapply list_elem_of_lookup_2.
    + destruct (Hh j) as [H1 H2]; [by eapply lookup_lt_Some|]. unfold handle_bytes. apply is_bytes_app. split; apply EncodeVarint64_is_bytes; lia.
Qed.
End Blocks.

(** * Properties

    The table builder step by step: the invariant of [Add] and [Flush], and the
    file that [Finish] leaves. *)

(** The fields of an updated builder. *)
Ltac rep := cbn [file options index_block_options offset status data_block index_block last_key num_entries closed filter_block pending_index_entry pending_handle].

(** * Filter blocks key by key *)

Section Filter.
Variable p : FilterPolicy.

Lemma AddBlocks_snoc b l blk : AddBlocks p b (l ++ [blk]) = (b ← AddBlocks p b l; AddBlock p b blk).
Proof. unfold AddBlocks. by rewrite foldl_app. Qed.

Lemma AddBlocks_key b l o ks k : AddBlocks p b (l ++ [(o, ks ++ [k])]) = AddKey k <$> AddBlocks p b (l ++ [(o, ks)]).
Proof.
  rewrite !AddBlocks_snoc. destruct (AddBlocks p b l) as [b1|]; [|done]. cbn [mbind option_bind]. unfold AddBlock. cbn [fst snd].
  destruct (StartBlock p o b1) as [b2|]; [|done]. cbn [mbind option_bind fmap option_fmap option_map]. by rewrite fold_left_app.
Qed.

Lemma AddBlocks_start b l o : AddBlocks p b (l ++ [(o, [])]) = (b ← AddBlocks p b l; StartBlock p o b).
Proof.
  rewrite AddBlocks_snoc. destruct (AddBlocks p b l) as [b1|]; [|done]. cbn [mbind option_bind]. unfold AddBlock. cbn [fst snd].
  by destruct (StartBlock p o b1).
Qed.
End Filter.

Section Build.
Context {F : Type} `{WF : WritableFile F} {Ready : F -> Slice -> Prop} `{WL : !WritableLaws F Ready}.
Context (address taddr : Z) (o : Options) (ok : Slice -> Prop) (c : Z).
Abbreviation cmp := (comparator o).
Abbreviation interval := (block_restart_interval o).
Context `{TC : !TableComparator cmp ok}.
Hypothesis Hinterval : 1 <= interval.
Hypothesis Hpolicy : forall p, filter_policy o = Some p -> TablePolicy p ok c.
Abbreviation KV := (Slice * Slice)%type.
Abbreviation R := (Rep F).
Abbreviation data := (data_of interval cmp).
Abbreviation stored := (stored interval cmp).
Abbreviation handle_of := (handle_of interval cmp).
Abbreviation idx_of := (idx_of interval cmp).

(** The data blocks as the filter block sees them. *)
Definition fblks (bs : list (list KV)) : list (Z * list Slice) :=
  imap (fun j b => (size (stored (take j bs)), b.*1)) bs.

Record Core (r : R) (bs : list (list KV)) (pending : list KV) (seps : list Slice) : Prop := {
  co_options : options r = o;
  co_index_options : index_block_options r = set_block_restart_interval 1 o;
  co_file : Ready (file r) (stored bs);
  co_offset : offset r = size (stored bs);
  co_status : status r = Status_OK;
  co_data : holds_entries interval cmp (data_block r) pending;
  co_index : holds_entries 1 cmp (index_block r) (idx_of bs seps);
  co_entries : num_entries r = Z.of_nat (length (concat bs ++ pending));
  co_filter : match filter_policy o with
              | None => filter_block r = None
              | Some p => exists fb, filter_block r = Some (p, fb) /\ AddBlocks p FilterBlockBuilder_new (fblks (bs ++ [pending])) = Some fb
              end;
  co_seps : SepOk cmp ok (bs ++ [pending]) seps;
  co_nonempty : Forall (fun b => b <> []) bs;
  co_cost : block_cost (idx_of bs seps) <= table_cost (concat (take (length seps) bs))
}.

(** Between two calls. *)
Record Inv (r : R) (bs : list (list KV)) (pending : list KV) (seps : list Slice) : Prop := {
  in_core : Core r bs pending seps;
  in_closed : closed r = false;
  in_last l kv : concat bs ++ pending = l ++ [kv] -> last_key r = kv.1;
  in_pending : if pending_index_entry r
               then pending = [] /\ length bs = S (length seps) /\ pending_handle r = handle_of bs (length seps)
               else length seps = length bs /\ (pending = [] -> bs = [])
}.

(** ** Sizes *)

Lemma stored_size bs : Forall (fun b => b <> []) bs -> entries_ok cmp ok (concat bs) -> table_cost (concat bs) < 2 ^ 32 ->
  size (stored bs) + 8 <= table_cost (concat bs).
Proof.
  induction bs as [|b bs IH] using rev_ind; intros HN He Hc; [apply Z.le_refl|]. rewrite concat_app in *. cbn [concat] in *. rewrite app_nil_r in *.
  apply Forall_app in HN as [HN Hb]. apply Forall_inv in Hb. apply entries_ok_app in He as (He1 & He2 & _). rewrite table_cost_app in *.
  pose proof (table_cost_pos b). pose proof (table_cost_pos (concat bs)). specialize (IH HN He1 ltac:(lia)).
  destruct (data_of_spec interval cmp ok Hinterval b He2) as (_ & _ & Hs); [lia|]. rewrite stored_snoc, size_app, raw_block_size.
  unfold kBlockTrailerSize. destruct b as [|kv b]; [done|]. assert (1 <= Z.of_nat (length (kv :: b))) by (cbn; lia). unfold table_cost at 2. lia.
Qed.

(** ** Writing *)

(** The builder after a write. *)
Definition moved (r : R) (f : F) (off : Z) : R :=
  Build_Rep (options r) (index_block_options r) f off Status_OK (data_block r) (index_block r)
    (last_key r) (num_entries r) (closed r) (filter_block r) (pending_index_entry r) (pending_handle r).

Lemma WriteRawBlock_spec r w b : Ready (file r) w -> offset r = size w -> status r = Status_OK -> is_bytes b ->
  size w + size b + 5 < 2 ^ 64 ->
  exists f', WriteRawBlock address taddr b kNoCompression r =
      Ret ({| offset_ := size w; size_ := size b |}, moved r f' (size (w ++ raw_block kNoCompression b))) /\
    Ready f' (w ++ raw_block kNoCompression b).
Proof.
  intros HR Ho Hs Hb Hsz. unfold WriteRawBlock, bind, get, on_file, set_status, set_offset, ret.
  destruct (append_law (file r) w b HR) as (f1 & -> & HR1). rep.
  change (Status_ok Status_OK) with true. cbv iota. cbn [CompressionType_val].
  assert (Et : 0 :: EncodeFixed32 (Mask (Extend taddr (Value address b) [0])) = [0] ++ EncodeFixed32 (Mask (Value 0 (b ++ [0])))).
  { cbn [app]. by rewrite (Value_app taddr address 0 b [0]) by (done || by repeat constructor). }
  rewrite Et. rep. destruct (append_law f1 (w ++ b) ([0] ++ EncodeFixed32 (Mask (Value 0 (b ++ [0])))) HR1) as (f2 & E2 & HR2). rewrite E2. clear E2.
  rep.
  change (Status_ok Status_OK) with true. cbv iota. exists f2. split.
  - unfold moved. rewrite Ho. do 3 f_equal. rewrite size_app, raw_block_size. pose proof (size_nonneg w). pose proof (size_nonneg b).
    unfold kBlockTrailerSize. apply wrap_small. lia.
  - unfold raw_block. cbn [CompressionType_val]. by rewrite !app_assoc in *.
Qed.

Lemma WriteBlock_spec r w b raw : Ready (file r) w -> offset r = size w -> status r = Status_OK -> options r = o ->
  (BlockBuilder_Finish b).1 = raw -> is_bytes raw -> size w + size raw + 5 < 2 ^ 64 ->
  exists f', WriteBlock address taddr b r =
      Ret (({| offset_ := size w; size_ := size raw |}, BlockBuilder_Reset), moved r f' (size (w ++ raw_block kNoCompression raw))) /\
    Ready f' (w ++ raw_block kNoCompression raw).
Proof.
  intros HR Ho Hs Hopt Hraw Hb Hsz. destruct (WriteRawBlock_spec r w raw HR Ho Hs Hb Hsz) as (f' & E & HR').
  exists f'. split; [|done]. unfold WriteBlock. unfold bind at 1, get at 1. unfold TableBuilder_ok. rewrite Hs, Hraw.
  change (Status_ok Status_OK) with true. cbn [negb].
  assert (Et : match compression (options r) with
      | kNoCompression => (raw, kNoCompression)
      | kSnappyCompression =>
          match Snappy_Compress raw with
          | Some compressed => if size compressed <? size raw - size raw / 8 then (compressed, kSnappyCompression) else (raw, kNoCompression)
          | None => (raw, kNoCompression)
          end
      end = (raw, kNoCompression)) by (by destruct (compression (options r))).
  rewrite Et. unfold bind. by rewrite E.
Qed.
(** ** The index *)

Lemma stored_take bs j : size (stored (take j bs)) <= size (stored bs).
Proof.
  rewrite <- (take_drop j bs) at 2. rewrite stored_app, size_app. pose proof (size_nonneg (stored (drop j bs))). lia.
Qed.

Lemma data_small bs j : entries_ok cmp ok (concat bs) -> table_cost (concat bs) < 2 ^ 32 -> (j < length bs)%nat ->
  is_bytes (data (nth j bs [])) /\ size (data (nth j bs [])) <= table_cost (concat bs).
Proof.
  intros He Hc Hj. destruct (lookup_lt_is_Some_2 bs j Hj) as [b Hb]. rewrite (nth_lookup_Some _ _ _ _ Hb).
  rewrite <- (take_drop j bs), (drop_S _ _ _ Hb), concat_app in He, Hc |- *. cbn [concat] in *.
  apply entries_ok_app in He as (_ & He & _). apply entries_ok_app in He as (He & _ & _). rewrite !table_cost_app in *.
  pose proof (table_cost_pos (concat (take j bs))). pose proof (table_cost_pos b). pose proof (table_cost_pos (concat (drop (S j) bs))).
  destruct (data_of_spec interval cmp ok Hinterval b He) as (_ & Hb' & Hs); [lia|]. split; [done|lia].
Qed.

Lemma handle_small bs j : Forall (fun b => b <> []) bs -> entries_ok cmp ok (concat bs) -> table_cost (concat bs) < 2 ^ 32 -> (j < length bs)%nat ->
  small (handle_of bs j).
Proof.
  intros HN He Hc Hj. pose proof (stored_size bs HN He Hc). pose proof (stored_take bs j). pose proof (size_nonneg (stored (take j bs))).
  destruct (data_small bs j He Hc Hj) as [_ Hs]. pose proof (size_nonneg (data (nth j bs []))).
  unfold small, LvTableBuildProps.handle_of. cbn [offset_ size_]. lia.
Qed.

Lemma no_later bs seps (s : Slice) j k s' (kv : KV) : length bs = S (length seps) -> (seps ++ [s]) !! j = Some s' -> ~ (j < length seps)%nat -> (j < k)%nat ->
  ~ kv ∈ nth k (bs ++ [[]]) [].
Proof.
  intros Hl Hj Hge Hjk Hin. pose proof (lookup_lt_Some _ _ _ Hj) as Hlt. rewrite length_app in Hlt. cbn in Hlt. destruct (decide (k = length bs)) as [->|Hne].
  - rewrite nth_middle in Hin. by apply elem_of_nil in Hin.
  - rewrite nth_overflow in Hin by (rewrite length_app; cbn; lia). by apply elem_of_nil in Hin.
Qed.

Lemma SepOk_last bs seps s kv : SepOk cmp ok (bs ++ [[]]) seps -> length bs = S (length seps) -> Forall (fun b => b <> []) bs ->
  entries_ok cmp ok (concat bs) -> (exists l, concat bs = l ++ [kv]) -> ok s -> Compare cmp kv.1 s <= 0 ->
  SepOk cmp ok (bs ++ [[]]) (seps ++ [s]).
Proof.
  intros [H1 H2 H3 H4 H5 H6] Hl HN He (l & Hlast) Hs Hle. constructor.
  - rewrite !length_app. cbn. lia.
  - intros j b Hj Hlt. rewrite length_app in Hlt. cbn in Hlt. rewrite lookup_app_l in Hj by lia.
    rewrite Forall_forall in HN. apply HN. by eapply list_elem_of_lookup_2.
  - apply Forall_app. split; [done|by constructor].
  - intros j s' kv' Hj Hin. destruct (decide (j < length seps)%nat) as [Hlt|Hge].
    + rewrite lookup_app_l in Hj by done. by apply (H4 j).
    + pose proof (lookup_lt_Some _ _ _ Hj) as Hlt. rewrite length_app in Hlt. cbn in Hlt. assert (j = length seps) as -> by lia.
      rewrite lookup_app_r, Nat.sub_diag in Hj by lia. injection Hj as <-. rewrite app_nth1 in Hin by lia. apply nth_concat in Hin.
      assert (Hk : kv ∈ concat bs) by (rewrite Hlast; apply elem_of_app; right; by apply list_elem_of_singleton).
      pose proof (entries_keys cmp ok _ He) as Hok. rewrite Forall_forall in Hok. rewrite Hlast in Hin. apply elem_of_app in Hin as [Hin|Hin].
      * rewrite Hlast in He. apply entries_ok_app in He as (_ & _ & He). specialize (He kv' kv Hin ltac:(by apply list_elem_of_singleton)).
        apply (cmp_le_trans kv'.1 kv.1 s); [apply Hok; rewrite Hlast; apply elem_of_app; by left|by apply Hok|done|lia|done].
      * apply list_elem_of_singleton in Hin as ->. done.
  - intros j k s' kv' Hj Hjk Hin. destruct (decide (j < length seps)%nat) as [Hlt|Hge].
    + rewrite lookup_app_l in Hj by done. by apply (H5 j k).
    + exfalso. by apply (no_later bs seps s j k s' kv').
  - intros j k s' kv' q Hj Hjk Hin Hq Hsame Hge. destruct (decide (j < length seps)%nat) as [Hlt|Hgej].
    + rewrite lookup_app_l in Hj by done. by apply (H6 j k s' kv' q).
    + exfalso. by apply (no_later bs seps s j k s' kv').
Qed.

(** One more entry in the index. *)
Lemma index_entry ib bs seps s kv : holds_entries 1 cmp ib (idx_of bs seps) -> SepOk cmp ok (bs ++ [[]]) seps ->
  Forall (fun b => b <> []) bs -> block_cost (idx_of bs seps) <= table_cost (concat (take (length seps) bs)) ->
  length bs = S (length seps) -> entries_ok cmp ok (concat bs) -> table_cost (concat bs) < 2 ^ 32 -> (exists l, concat bs = l ++ [kv]) ->
  ok s -> Compare cmp kv.1 s <= 0 -> size s <= size kv.1 ->
  exists ib', BlockBuilder_Add 1 cmp ib s (handle_bytes (handle_of bs (length seps))) = Some ib' /\
    holds_entries 1 cmp ib' (idx_of bs (seps ++ [s])) /\ SepOk cmp ok (bs ++ [[]]) (seps ++ [s]) /\
    block_cost (idx_of bs (seps ++ [s])) <= table_cost (concat (take (S (length seps)) bs)) /\ handle_ok (handle_of bs (length seps)).
Proof.
  intros Hib HS HN Hcost Hl He Hc Hlast Hs Hle Hsz.
  assert (HSep : SepOk cmp ok (bs ++ [[]]) (seps ++ [s])) by by apply (SepOk_last bs seps s kv).
  assert (Hsm : forall j, (j < length (seps ++ [s]))%nat -> small (handle_of (bs ++ [[]]) j)).
  { intros j Hj. rewrite length_app in Hj. cbn in Hj. rewrite handle_of_snoc by lia. apply handle_small; [done..|lia]. }
  assert (Eidx : idx_of bs (seps ++ [s]) = idx_of bs seps ++ [(s, handle_bytes (handle_of bs (length seps)))]) by apply idx_of_snoc.
  assert (Hei : entries_ok cmp ok (idx_of bs (seps ++ [s]))).
  { rewrite <- (idx_of_blocks _ _ bs []) by (rewrite length_app; cbn; lia). apply (idx_entries interval cmp ok); [done| |done].
    rewrite concat_app. cbn [concat]. rewrite !app_nil_r. by apply (entries_keys cmp ok). }
  assert (Hh' : handle_ok (handle_of bs (length seps))) by (apply small_ok, handle_small; [done..|lia]).
  pose proof (handle_bytes_size _ Hh') as Hhs.
  assert (Htk : table_cost (concat (take (S (length seps)) bs)) <= table_cost (concat bs)) by (by rewrite take_ge by lia).
  assert (Hcost' : block_cost (idx_of bs (seps ++ [s])) <= table_cost (concat (take (S (length seps)) bs))).
  { destruct (lookup_lt_is_Some_2 bs (length seps)) as [b Hb]; [lia|]. rewrite (take_S_r _ _ _ Hb), concat_app, table_cost_app. cbn [concat].
    rewrite app_nil_r, Eidx, block_cost_app, block_cost_cons. change (block_cost []) with 8. cbn [fst snd].
    assert (Hin : kv ∈ b).
    { destruct Hlast as [l Hlast]. rewrite <- (take_drop (length seps) bs), (drop_S _ _ _ Hb), (drop_ge _ (S _)), concat_app in Hlast by lia.
      cbn [concat] in Hlast. rewrite app_nil_r in Hlast. rewrite Forall_forall in HN. specialize (HN b (list_elem_of_lookup_2 _ _ _ Hb)).
      destruct b as [|kv' b _] using rev_ind; [done|]. rewrite app_assoc in Hlast. apply app_inj_tail in Hlast as [_ ->].
      apply elem_of_app. right. by apply list_elem_of_singleton. }
    pose proof (table_cost_elem b kv Hin). pose proof (size_nonneg kv.2). lia. }
  destruct (holds_add 1 cmp ok ltac:(lia) ib (idx_of bs seps) s (handle_bytes (handle_of bs (length seps))) Hib)
    as (ib' & Eib & Hib'); [by rewrite <- Eidx|rewrite <- Eidx; lia|].
  exists ib'. split_and!; [done|by rewrite Eidx|done|done|done].
Qed.

Lemma add_index_entry_run (r : R) s h ib' : index_block_options r = set_block_restart_interval 1 o -> pending_handle r = h -> handle_ok h ->
  BlockBuilder_Add 1 cmp (index_block r) s (handle_bytes h) = Some ib' ->
  add_index_entry s r = Ret (tt, Build_Rep (options r) (index_block_options r) (file r) (offset r) (status r) (data_block r) ib'
    s (num_entries r) (closed r) (filter_block r) false (pending_handle r)).
Proof.
  intros Hio Hh Hok Eib. unfold add_index_entry, bind, get, ret, set_last_key, set_index_block, set_pending_index_entry, need. rep.
  rewrite Hh, (EncodeTo_handle h [] Hok). cbn [app ret]. rep. rewrite Hio. cbn [block_restart_interval comparator set_block_restart_interval].
  by rewrite Eib.
Qed.

Lemma add_index_entry_spec r bs seps s kv : Core r bs [] seps ->
  length bs = S (length seps) -> pending_handle r = handle_of bs (length seps) ->
  entries_ok cmp ok (concat bs) -> table_cost (concat bs) < 2 ^ 32 -> (exists l, concat bs = l ++ [kv]) ->
  ok s -> Compare cmp kv.1 s <= 0 -> size s <= size kv.1 ->
  exists r', add_index_entry s r = Ret (tt, r') /\ Core r' bs [] (seps ++ [s]) /\ pending_index_entry r' = false /\
    closed r' = closed r.
Proof.
  intros HC Hl Hh He Hc Hlast Hs Hle Hsz.
  destruct (index_entry (index_block r) bs seps s kv (co_index _ _ _ _ HC) (co_seps _ _ _ _ HC) (co_nonempty _ _ _ _ HC) (co_cost _ _ _ _ HC) Hl He Hc Hlast Hs Hle Hsz)
    as (ib' & Eib & Hib' & HSep & Hcost & Hok).
  eexists. split; [by apply (add_index_entry_run r s _ ib' (co_index_options _ _ _ _ HC) Hh Hok)|]. split; [|done].
  destruct HC. constructor; rep; try done. rewrite length_app. cbn [length]. by rewrite Nat.add_1_r.
Qed.

(** ** A finished data block *)

Lemma fblks_snoc bs b : fblks (bs ++ [b]) = fblks bs ++ [(size (stored bs), b.*1)].
Proof.
  unfold fblks. rewrite imap_app. cbn [imap]. f_equal.
  - apply imap_ext. intros j x Hj. apply lookup_lt_Some in Hj. by rewrite take_app_le by lia.
  - f_equal. unfold compose. by rewrite Nat.add_0_r, take_app_length.
Qed.

Lemma fblks_keys bs : (fblks bs).*2 = map (fun b => b.*1) bs.
Proof.
  induction bs as [|b bs IH] using rev_ind; [done|]. rewrite fblks_snoc, fmap_app, IH, map_app. done.
Qed.

Lemma fblks_sorted bs : StronglySorted Z.le (fblks bs).*1 /\ Forall (fun x => 0 <= x.1 <= size (stored bs)) (fblks bs).
Proof.
  induction bs as [|b bs [IH1 IH2]] using rev_ind; [split; constructor|]. rewrite fblks_snoc, fmap_app. cbn [fmap list_fmap fst].
  pose proof (size_nonneg (stored bs)). assert (Hle : size (stored bs) <= size (stored (bs ++ [b]))).
  { rewrite stored_app, size_app. pose proof (size_nonneg (stored [b])). lia. }
  split.
  - apply StronglySorted_app_2; [|done|by repeat constructor]. intros x y Hx Hy. apply list_elem_of_singleton in Hy as ->.
    apply list_elem_of_fmap in Hx as ([o' ks] & -> & Hx). rewrite Forall_forall in IH2. specialize (IH2 _ Hx). cbn in IH2 |- *. lia.
  - apply Forall_app. split; [eapply Forall_impl; [exact IH2|]; cbn; intros; lia|]. constructor; [|done]. cbn [fst]. lia.
Qed.

(** The filter block takes any blocks. *)
Lemma fblks_added p bs : filter_policy o = Some p -> exists fb, AddBlocks p FilterBlockBuilder_new (fblks bs) = Some fb.
Proof.
  intros Hp. pose proof (Hpolicy p Hp) as TP. destruct (fblks_sorted bs) as [HS HF].
  destruct (AddBlocks_groups p (ok := ok) (fblks bs) FilterBlockBuilder_new [] []) as (fb & _ & _ & E & _).
  - apply Groups_new.
  - eapply Forall_impl; [exact HF|]. intros x [Hx _]. cbn. by apply Z.div_pos.
  - by apply StronglySorted_Sorted.
  - by exists fb.
Qed.

Lemma SepOk_more bs seps : SepOk cmp ok bs seps -> SepOk cmp ok (bs ++ [[]]) seps.
Proof.
  assert (Hnth : forall k kv, kv ∈ nth k (bs ++ [[]]) [] -> kv ∈ nth k bs []).
  { intros k kv Hin. destruct (decide (k < length bs)%nat); [by rewrite app_nth1 in Hin by lia|]. exfalso.
    destruct (decide (k = length bs)) as [->|]; [rewrite nth_middle in Hin|rewrite nth_overflow in Hin by (rewrite length_app; cbn; lia)];
      by apply elem_of_nil in Hin. }
  intros [H1 H2 H3 H4 H5 H6]. constructor; [rewrite length_app; lia| |done|eauto|eauto|].
  - intros j b Hj Hlt. rewrite lookup_app_l in Hj by lia. by apply (H2 j).
  - intros j k s kv q Hj Hjk Hin%Hnth Hq Hsame Hge. destruct (H6 j k s kv q Hj Hjk Hin Hq Hsame Hge) as (y & Hy & Hyq). exists y. split; [|done].
    apply lookup_lt_Some in Hj. by rewrite app_nth1 by lia.
Qed.

Lemma Flush_spec r bs pending seps kv : Core r bs pending seps -> closed r = false -> pending_index_entry r = false -> length seps = length bs ->
  pending <> [] -> last_key r = kv -> entries_ok cmp ok (concat bs ++ pending) -> table_cost (concat bs ++ pending) < 2 ^ 32 ->
  exists r', TableBuilder_Flush address taddr r = Ret (tt, r') /\ Core r' (bs ++ [pending]) [] seps /\
    pending_index_entry r' = true /\ pending_handle r' = handle_of (bs ++ [pending]) (length bs) /\ last_key r' = kv /\ closed r' = false.
Proof.
  intros HC Hcl Hpi Hl Hne Hk He Hc. pose proof (entries_ok_app cmp ok _ _ He) as (He1 & He2 & _). pose proof (co_nonempty _ _ _ _ HC) as HN.
  rewrite table_cost_app in Hc. pose proof (table_cost_pos pending) as Hp1. pose proof (table_cost_pos (concat bs)) as Hp2.
  destruct (data_of_spec interval cmp ok Hinterval pending He2) as (_ & Hbytes & Hds); [lia|].
  pose proof (stored_size bs HN He1 ltac:(lia)) as Hss. pose proof (size_nonneg (stored bs)).
  destruct (WriteBlock_spec r (stored bs) (data_block r) (data pending) (co_file _ _ _ _ HC) (co_offset _ _ _ _ HC) (co_status _ _ _ _ HC) (co_options _ _ _ _ HC))
    as (f1 & Ew & HR1); [apply (holds_finish interval cmp Hinterval), (co_data _ _ _ _ HC)|done|lia|].
  rewrite <- stored_snoc in Ew, HR1. destruct (flush_law f1 _ HR1) as (f2 & Ef & HR2).
  assert (Hem : BlockBuilder_empty (data_block r) = false).
  { rewrite (holds_empty interval cmp ok Hinterval (data_block r) pending (co_data _ _ _ _ HC) He2) by lia. by destruct pending. }
  assert (Hst : exists r1, TableBuilder_Flush address taddr r =
      (match filter_block r with None => ret tt | Some (policy, fb) => let* fb := need (StartBlock policy (offset r1) fb) in set_filter_block (Some (policy, fb)) end) r1 /\
    options r1 = o /\ index_block_options r1 = set_block_restart_interval 1 o /\ Ready (file r1) (stored (bs ++ [pending])) /\ offset r1 = size (stored (bs ++ [pending])) /\
    status r1 = Status_OK /\ closed r1 = false /\ data_block r1 = BlockBuilder_Reset /\ index_block r1 = index_block r /\ num_entries r1 = num_entries r /\
    filter_block r1 = filter_block r /\ pending_index_entry r1 = true /\ pending_handle r1 = {| offset_ := size (stored bs); size_ := size (data pending) |} /\ last_key r1 = kv).
  { unfold TableBuilder_Flush. unfold bind at 1, get at 1. rewrite Hcl, Hem, Hpi. unfold TableBuilder_ok. rewrite (co_status _ _ _ _ HC).
    change (Status_ok Status_OK) with true. cbn [negb]. rewrite (bind_eq _ _ _ _ _ Ew). unfold moved, bind, set_pending_handle, set_data_block, get, set_pending_index_entry, on_file, set_status, ret.
    rep. change (Status_ok Status_OK) with true. cbv iota. rep. rewrite Ef. rep.
    exists (Build_Rep (options r) (index_block_options r) f2 (size (stored (bs ++ [pending]))) Status_OK BlockBuilder_Reset (index_block r) (last_key r)
      (num_entries r) (closed r) (filter_block r) true {| offset_ := size (stored bs); size_ := size (data pending) |}).
    split; [reflexivity|]. rep. destruct HC. by split_and!. }
  destruct Hst as (r1 & -> & S1 & S2 & S3 & S4 & S5 & S6 & S7 & S8 & S9 & S10 & S11 & S12 & S13).
  assert (Hfin : forall r', options r' = o -> index_block_options r' = set_block_restart_interval 1 o -> Ready (file r') (stored (bs ++ [pending])) ->
      offset r' = size (stored (bs ++ [pending])) -> status r' = Status_OK -> data_block r' = BlockBuilder_Reset ->
      index_block r' = index_block r -> num_entries r' = num_entries r ->
      match filter_policy o with None => filter_block r' = None
        | Some p => exists fb, filter_block r' = Some (p, fb) /\ AddBlocks p FilterBlockBuilder_new (fblks ((bs ++ [pending]) ++ [[]])) = Some fb end ->
      Core r' (bs ++ [pending]) [] seps).
  { intros r' T1 T2 T3 T4 T5 T7 T8 T9 T10. constructor; try done.
    - rewrite T7. done.
    - rewrite T8, (idx_of_blocks _ _ bs pending) by lia. apply (co_index _ _ _ _ HC).
    - rewrite T9, (co_entries _ _ _ _ HC). rewrite concat_app. cbn [concat]. by rewrite !app_nil_r.
    - apply SepOk_more, (co_seps _ _ _ _ HC).
    - apply Forall_app. split; [done|by constructor].
    - rewrite (idx_of_blocks _ _ bs pending) by lia. rewrite take_app_le by lia. apply (co_cost _ _ _ _ HC). }
  rewrite <- handle_of_last in S12. pose proof (co_filter _ _ _ _ HC) as Hfl.
  pose proof (fun p => fblks_added p ((bs ++ [pending]) ++ [[]])) as Hadd. clear Hpolicy. destruct (filter_policy o) as [p|].
  - destruct Hfl as (fb & Efb & Eadd). rewrite Efb. destruct (Hadd p eq_refl) as (fb' & Eadd').
    rewrite fblks_snoc in Eadd'. cbn [fmap list_fmap] in Eadd'. rewrite AddBlocks_start, Eadd in Eadd'. cbn [mbind option_bind] in Eadd'.
    rewrite S4, Eadd'. cbn [need]. unfold bind, ret, set_filter_block. eexists. split; [reflexivity|]. rep. split; [|done].
    apply Hfin; try done. exists fb'. split; [done|]. rewrite fblks_snoc. cbn [fmap list_fmap]. by rewrite AddBlocks_start, Eadd.
  - rewrite Hfl. exists r1. split; [done|]. split; [|done]. apply Hfin; try done. by rewrite S10.
Qed.
(** ** A new entry *)

Lemma last_before kvs kv (k : KV) : entries_ok cmp ok (kvs ++ [kv] ++ [k]) -> Compare cmp kv.1 k.1 < 0 /\ ok kv.1 /\ ok k.1.
Proof.
  intros He. rewrite app_assoc in He. apply entries_ok_app in He as (H1 & H2 & H3). apply entries_keys in H1, H2.
  rewrite Forall_forall in H1, H2.
  assert (Hkv : kv ∈ kvs ++ [kv]) by (apply elem_of_app; right; by apply list_elem_of_singleton).
  assert (Hk : k ∈ [k]) by by apply list_elem_of_singleton. split_and!; [by apply H3|by apply H1|by apply H2].
Qed.

(** What [so_tight] will ask when an entry with the key [k] is added. *)
Definition tight_for (bs : list (list KV)) (seps : list Slice) (k : Slice) : Prop := forall j s q, seps !! j = Some s -> ok q -> tc_same q k -> 0 <= Compare cmp s q ->
  exists y, y ∈ nth j bs [] /\ 0 <= Compare cmp y.1 q.

Lemma in_last_block bs (kv : KV) : (exists l, concat bs = l ++ [kv]) -> Forall (fun b => b <> []) bs -> exists n, length bs = S n /\ kv ∈ nth n bs [].
Proof.
  intros (l & E) HN. destruct bs as [|b bs _] using rev_ind; [by destruct l|]. exists (length bs). split; [rewrite length_app; cbn; lia|]. rewrite nth_middle.
  apply Forall_app in HN as [_ HN]. apply Forall_inv in HN. destruct b as [|x b _] using rev_ind; [done|]. rewrite concat_app in E. cbn [concat] in E. rewrite app_nil_r, app_assoc in E.
  apply app_inj_tail in E as [_ ->]. apply elem_of_app. right. by apply list_elem_of_singleton.
Qed.

(** A separator with a block after it. *)
Lemma tight_before bs pending seps k j s q : SepOk cmp ok (bs ++ [pending]) seps -> Forall (fun kv => ok kv.1 /\ Compare cmp kv.1 k < 0) (concat bs ++ pending) -> ok k ->
  (j < length bs)%nat -> seps !! j = Some s -> (exists kv, kv ∈ nth (S j) (bs ++ [pending]) []) -> ok q -> tc_same q k -> 0 <= Compare cmp s q ->
  exists y, y ∈ nth j bs [] /\ 0 <= Compare cmp y.1 q.
Proof.
  intros HS Hb Okk Hj Es (x & Hx) Hq Hsame Hge. assert (Hin : x ∈ concat bs ++ pending).
  { apply nth_concat in Hx. rewrite concat_app in Hx. cbn [concat] in Hx. by rewrite app_nil_r in Hx. }
  rewrite Forall_forall in Hb. destruct (Hb x Hin) as [Okx Hxk]. pose proof (so_lt _ _ _ _ HS j (S j) s x Es ltac:(lia) Hx) as Hsx.
  pose proof (so_ok _ _ _ _ HS) as Hs. rewrite Forall_forall in Hs. pose proof (Hs s ltac:(by eapply list_elem_of_lookup_2)) as Oks.
  assert (Hqx : Compare cmp q x.1 <= 0).
  { pose proof (cmp_flip (cmp := Compare cmp) s q Oks Hq). apply (cmp_le_trans q s x.1); [done..|lia|lia]. }
  destruct (so_tight _ _ _ _ HS j (S j) s x q Es ltac:(lia) Hx Hq) as (y & Hy & Hyq); [|done|exists y; by rewrite app_nth1 in Hy by lia].
  apply (tc_same_between q x.1 k); [done..|lia|done].
Qed.

(** The index entry of the block before, when it is due. *)
Lemma index_step r bs pending seps k v : Inv r bs pending seps ->
  entries_ok cmp ok ((concat bs ++ pending) ++ [(k, v)]) -> table_cost (concat bs ++ pending) < 2 ^ 32 ->
  exists r1 seps1, (if pending_index_entry r then
       if negb (BlockBuilder_empty (data_block r)) then undef
       else add_index_entry (FindShortestSeparator (comparator (options r)) (last_key r) k) else ret tt) r = Ret (tt, r1) /\
    Core r1 bs pending seps1 /\ pending_index_entry r1 = false /\ closed r1 = false /\ length seps1 = length bs /\
    Forall (fun s => Compare cmp s k < 0) seps1 /\ tight_for bs seps1 k.
Proof.
  intros [HC Hcl Hlast Hp] He Hc. pose proof (co_seps _ _ _ _ HC) as HS. pose proof (co_nonempty _ _ _ _ HC) as HN.
  pose proof (entries_ok_app cmp ok _ _ He) as (He1 & _ & Hbelow). pose proof (entries_keys cmp ok _ He1) as Hok. rewrite Forall_forall in Hok.
  assert (Hk : (k, v) ∈ [(k, v)]) by by apply list_elem_of_singleton.
  assert (Okk : ok k). { pose proof (entries_keys cmp ok _ He) as Ho. apply Forall_app in Ho as [_ Ho]. by apply Forall_inv in Ho. }
  assert (Hall : Forall (fun kv => ok kv.1 /\ Compare cmp kv.1 k < 0) (concat bs ++ pending)).
  { apply Forall_forall. intros x Hx. split; [by apply Hok|by apply (Hbelow x (k, v))]. }
  (* a separator with a block after it *)
  assert (Hbefore : forall j s, seps !! j = Some s -> (exists kv, kv ∈ nth (S j) (bs ++ [pending]) []) -> Compare cmp s k < 0).
  { intros j s Hj (kv & Hkv). pose proof (so_ok _ _ _ _ HS) as Hs. rewrite Forall_forall in Hs.
    assert (Hin : kv ∈ concat bs ++ pending).
    { apply nth_concat in Hkv. rewrite concat_app in Hkv. cbn [concat] in Hkv. by rewrite app_nil_r in Hkv. }
    apply (cmp_lt_trans s kv.1 k); [apply Hs; by eapply list_elem_of_lookup_2|by apply Hok|done| |by apply (Hbelow kv (k, v))].
    apply (so_lt _ _ _ _ HS j (S j) s kv Hj); [lia|done]. }
  assert (Hblock : forall j, (j < length bs)%nat -> exists kv, kv ∈ nth j (bs ++ [pending]) []).
  { intros j Hj. destruct (lookup_lt_is_Some_2 bs j Hj) as [b Hb]. rewrite app_nth1, (nth_lookup_Some _ _ _ _ Hb) by lia.
    rewrite Forall_forall in HN. specialize (HN b (list_elem_of_lookup_2 _ _ _ Hb)). destruct b as [|kv b]; [done|]. exists kv. apply elem_of_cons. by left. }
  destruct (pending_index_entry r) eqn:Epi.
  - destruct Hp as (-> & Hl & Hh). rewrite app_nil_r in *. assert (Hem : BlockBuilder_empty (data_block r) = true).
    { pose proof (co_data _ _ _ _ HC) as Hd. injection Hd as <-. done. }
    rewrite Hem. cbn [negb]. destruct (concat bs) as [|kv0 kvs0 _] eqn:Econ using rev_ind.
    { destruct bs as [|b bs]; [cbn in Hl; lia|]. apply Forall_inv in HN. cbn in Econ. apply app_eq_nil in Econ as [-> _]. done. }
    rewrite (Hlast kvs0 kv0 eq_refl), (co_options _ _ _ _ HC). rewrite <- app_assoc in He.
    destruct (last_before kvs0 kv0 (k, v) He) as (Hlt & Ok0 & _). cbn [fst] in Hlt.
    destruct (cmp_separator kv0.1 k Ok0 Okk Hlt) as (Os & Hle & Hlt').
    destruct (add_index_entry_spec r bs seps (FindShortestSeparator cmp kv0.1 k) kv0 HC Hl Hh) as (r1 & E1 & HC1 & Hpi1 & Hcl1);
      [by rewrite Econ|by rewrite Econ|by exists kvs0|done|done|by apply (tc_separator_size (ok := ok))|].
    exists r1, (seps ++ [FindShortestSeparator cmp kv0.1 k]). split_and!; [done|done|done|by rewrite Hcl1|rewrite length_app; cbn; lia|..].
    + apply Forall_app. split; [|by constructor]. apply Forall_lookup. intros j s Hj. apply (Hbefore j s Hj), Hblock.
      apply lookup_lt_Some in Hj. lia.
    + intros j s q Hj Hq Hsame Hge. apply lookup_app_Some in Hj as [Hj|[Hjl Hj]].
      * apply lookup_lt_Some in Hj as Hjl. apply (tight_before bs [] seps k j s q HS); [|done|lia|done|by apply Hblock; lia|done..].
        by rewrite app_nil_r, Econ.
      * apply list_lookup_singleton_Some in Hj as [Hj <-]. destruct (in_last_block bs kv0) as (n & Hn & Hin); [by rewrite Econ; eexists|done|].
        exists kv0. replace j with n by lia. split; [done|]. by apply (tc_same_separator kv0.1 k q).
  - destruct Hp as (Hl & Hp). assert (Hlater : forall j s, seps !! j = Some s -> (j < length bs)%nat /\ exists kv, kv ∈ nth (S j) (bs ++ [pending]) []).
    { intros j s Hj. pose proof (lookup_lt_Some _ _ _ Hj) as Hlt. split; [lia|]. destruct (decide (S j < length bs)%nat); [by apply Hblock|].
      destruct pending as [|kv pending]; [rewrite Hp in * by done; cbn in *; lia|]. exists kv. replace (S j) with (length bs) by lia.
      rewrite nth_middle. apply elem_of_cons. by left. }
    exists r, seps. split_and!; [done|done|done|done|done|..].
    + apply Forall_lookup. intros j s Hj. apply (Hbefore j s Hj). by apply (Hlater j s).
    + intros j s q Hj Hq Hsame Hge. destruct (Hlater j s Hj) as [Hjb Hex]. by apply (tight_before bs pending seps k j s q HS).
Qed.

Lemma SepOk_add bs pending seps kv : SepOk cmp ok (bs ++ [pending]) seps -> length seps = length bs ->
  Forall (fun s => Compare cmp s kv.1 < 0) seps -> tight_for bs seps kv.1 -> SepOk cmp ok (bs ++ [pending ++ [kv]]) seps.
Proof.
  intros [H1 H2 H3 H4 H5 H6] Hl Hlt Ht. rewrite Forall_forall in Hlt. constructor.
  - by rewrite length_app in *.
  - intros j b Hj Hjl. rewrite lookup_app_l in Hj by lia. apply (H2 j); [by rewrite lookup_app_l by lia|done].
  - done.
  - intros j s x Hj Hin. pose proof (lookup_lt_Some _ _ _ Hj). rewrite app_nth1 in Hin by lia. apply (H4 j s x Hj). by rewrite app_nth1 by lia.
  - intros j k s x Hj Hjk Hin. destruct (decide (k = length bs)) as [->|Hne].
    + rewrite nth_middle in Hin. apply elem_of_app in Hin as [Hin|Hin].
      * apply (H5 j (length bs) s x Hj Hjk). by rewrite nth_middle.
      * apply list_elem_of_singleton in Hin as ->. apply Hlt. by eapply list_elem_of_lookup_2.
    + apply (H5 j k s x Hj Hjk). destruct (decide (k < length bs)%nat); [by rewrite app_nth1 in * by lia|].
      rewrite nth_overflow in Hin by (rewrite length_app; cbn; lia). by apply elem_of_nil in Hin.
  - intros j k s x q Hj Hjk Hin Hq Hsame Hge. pose proof (lookup_lt_Some _ _ _ Hj) as Hjl. rewrite app_nth1 by lia.
    assert (Hnth : forall b, nth j (bs ++ [b]) [] = nth j bs []) by (intros b; by rewrite app_nth1 by lia).
    destruct (decide (k = length bs)) as [->|Hne].
    + rewrite nth_middle in Hin. apply elem_of_app in Hin as [Hin|Hin].
      * rewrite <- (Hnth pending). apply (H6 j (length bs) s x q Hj Hjk); [by rewrite nth_middle|done..].
      * apply list_elem_of_singleton in Hin as ->. by apply (Ht j s q).
    + rewrite <- (Hnth pending). apply (H6 j k s x q Hj Hjk); [|done..]. destruct (decide (k < length bs)%nat); [by rewrite app_nth1 in * by lia|].
      rewrite nth_overflow in Hin by (rewrite length_app; cbn; lia). by apply elem_of_nil in Hin.
Qed.
(** The entry goes to the filter and to the data block. *)
Lemma entry_step r1 bs pending seps k v : Core r1 bs pending seps -> length seps = length bs -> Forall (fun s => Compare cmp s k < 0) seps -> tight_for bs seps k ->
  pending_index_entry r1 = false -> entries_ok cmp ok (concat bs ++ pending ++ [(k, v)]) -> table_cost (concat bs ++ pending ++ [(k, v)]) < 2 ^ 32 ->
  exists r2 b, (forall K : BlockBuilder -> M R unit,
      (match filter_block r1 with None => ret tt | Some (policy, fb) => set_filter_block (Some (policy, AddKey k fb)) end ;;;
       set_last_key k ;;; set_num_entries (num_entries r1 + 1) ;;;
       let* b := need (BlockBuilder_Add interval cmp (data_block r1) k v) in set_data_block b ;;; K b) r1 = K b r2) /\
    Core r2 bs (pending ++ [(k, v)]) seps /\ pending_index_entry r2 = false /\ last_key r2 = k /\ data_block r2 = b /\ closed r2 = closed r1.
Proof.
  intros HC Hl Hlt Ht Hpi He Hc. pose proof (entries_ok_app cmp ok _ _ He) as (_ & He2 & _). rewrite table_cost_app in Hc.
  pose proof (table_cost_pos (concat bs)). pose proof (table_cost_pos (pending ++ [(k, v)])).
  destruct (holds_add interval cmp ok Hinterval (data_block r1) pending k v (co_data _ _ _ _ HC) He2) as (b & Eb & Hb); [lia|].
  set (fb' := match filter_block r1 with None => None | Some (policy, fb) => Some (policy, AddKey k fb) end).
  exists (Build_Rep (options r1) (index_block_options r1) (file r1) (offset r1) (status r1) b (index_block r1) k (num_entries r1 + 1)
    (closed r1) fb' (pending_index_entry r1) (pending_handle r1)), b. split; [|split; [|done]].
  - intros K. rewrite Eb. unfold fb', bind, need, set_filter_block, set_last_key, set_num_entries, set_data_block, ret. destruct (filter_block r1) as [[policy fb]|] eqn:Ef; rep; [done|by rewrite Ef].
  - destruct HC. constructor; rep; try done.
    + rewrite co_entries0, !length_app. cbn [length]. lia.
    + unfold fb'. destruct (filter_policy o) as [p|].
      * destruct co_filter0 as (fb & -> & Eadd). exists (AddKey k fb). split; [done|]. rewrite fblks_snoc in Eadd |- *.
        rewrite fmap_app. cbn [fmap list_fmap fst]. by rewrite AddBlocks_key, Eadd.
      * by rewrite co_filter0.
    + by apply SepOk_add.
Qed.

Lemma TableBuilder_Add_spec r bs pending seps k v : Inv r bs pending seps ->
  entries_ok cmp ok (concat bs ++ pending ++ [(k, v)]) -> table_cost (concat bs ++ pending ++ [(k, v)]) < 2 ^ 32 ->
  exists r' bs' pending' seps', TableBuilder_Add address taddr k v r = Ret (tt, r') /\ Inv r' bs' pending' seps' /\
    concat bs' ++ pending' = concat bs ++ pending ++ [(k, v)].
Proof.
  intros HI He Hc. pose proof (in_core _ _ _ _ HI) as HC. assert (He' := He). rewrite app_assoc in He'. assert (Hc' := Hc). rewrite app_assoc, table_cost_app in Hc'.
  pose proof (table_cost_pos [(k, v)]). destruct (index_step r bs pending seps k v HI He' ltac:(lia)) as (r1 & seps1 & E1 & HC1 & Hpi1 & Hcl1 & Hl1 & Hlt1 & Ht1).
  destruct (entry_step r1 bs pending seps1 k v HC1 Hl1 Hlt1 Ht1 Hpi1 He Hc) as (r2 & b & E2 & HC2 & Hpi2 & Hk2 & Hd2 & Hcl2). rewrite Hcl1 in Hcl2.
  assert (Hguard : (num_entries r >? 0) && negb (Compare cmp k (last_key r) >? 0) = false).
  { rewrite (co_entries _ _ _ _ HC). destruct (concat bs ++ pending) as [|kv l _] eqn:El using rev_ind; [done|].
    rewrite (in_last _ _ _ _ HI l kv El). rewrite <- app_assoc in He'. destruct (last_before l kv (k, v) He') as (Hlt & Ok0 & Okk).
    cbn [fst] in *. pose proof (cmp_gt_lt k kv.1 Okk Ok0). destruct (Z.gtb_spec (Compare cmp k kv.1) 0); [by rewrite andb_false_r|lia]. }
  assert (Eadd : TableBuilder_Add address taddr k v r =
      (if CurrentSizeEstimate b >=? block_size o then TableBuilder_Flush address taddr else ret tt) r2).
  { unfold TableBuilder_Add. unfold bind at 1, get at 1. rewrite (in_closed _ _ _ _ HI). unfold TableBuilder_ok. rewrite (co_status _ _ _ _ HC).
    change (Status_ok Status_OK) with true. cbn [negb]. rewrite (co_options _ _ _ _ HC), Hguard. rewrite (co_options _ _ _ _ HC) in E1.
    assert (Es : num_entries r = num_entries r1 /\ filter_block r = filter_block r1 /\ data_block r = data_block r1).
    { destruct (pending_index_entry r); [|injection E1 as <-; done]. destruct (negb _); [done|].
      unfold add_index_entry, bind, get, need, ret, set_last_key, set_index_block, set_pending_index_entry in E1.
      destruct (BlockHandle_EncodeTo (pending_handle r) []); [|done]. rep.
      destruct (BlockBuilder_Add _ _ (index_block r) _ _); [|done]. injection E1 as <-. done. }
    destruct Es as (Es1 & Es2 & Es3). rewrite (bind_eq _ _ _ _ _ E1), Es1, Es2, Es3. exact (E2 _). }
  rewrite Eadd. destruct (CurrentSizeEstimate b >=? block_size o).
  - destruct (Flush_spec r2 bs (pending ++ [(k, v)]) seps1 k HC2 Hcl2 Hpi2 Hl1) as (r3 & E3 & HC3 & Hpi3 & Hh3 & Hk3 & Hcl3); [by destruct pending|done|done|done|].
    exists r3, (bs ++ [pending ++ [(k, v)]]), [], seps1. split; [done|]. split; [|rewrite concat_app; cbn [concat]; by rewrite !app_nil_r].
    constructor; [done|done| |rewrite Hpi3; split_and!; [done|rewrite length_app; cbn; lia|by rewrite Hl1]].
    intros l kv. rewrite concat_app. cbn [concat]. rewrite !app_nil_r, app_assoc. intros [_ <-]%app_inj_tail. done.
  - exists r2, bs, (pending ++ [(k, v)]), seps1. split; [done|]. split; [|done]. constructor; [done|done| |by rewrite Hpi2; split; [|by destruct pending]].
    intros l kv. rewrite app_assoc. intros [_ <-]%app_inj_tail. done.
Qed.

(** ** All entries *)

Fixpoint add_all (kvs : list KV) : M R unit :=
  match kvs with [] => ret tt | kv :: kvs => TableBuilder_Add address taddr kv.1 kv.2 ;;; add_all kvs end.

Lemma add_all_spec kvs : forall r bs pending seps, Inv r bs pending seps ->
  entries_ok cmp ok (concat bs ++ pending ++ kvs) -> table_cost (concat bs ++ pending ++ kvs) < 2 ^ 32 ->
  exists r' bs' pending' seps', add_all kvs r = Ret (tt, r') /\ Inv r' bs' pending' seps' /\ concat bs' ++ pending' = concat bs ++ pending ++ kvs.
Proof.
  induction kvs as [|[k v] kvs IH]; intros r bs pending seps HI He Hc.
  - exists r, bs, pending, seps. by rewrite app_nil_r.
  - assert (Eq : concat bs ++ pending ++ (k, v) :: kvs = (concat bs ++ pending ++ [(k, v)]) ++ kvs) by (by rewrite <- !app_assoc).
    rewrite Eq in He, Hc |- *. pose proof (entries_ok_app cmp ok _ _ He) as (He1 & _ & _).
    assert (Hc1 : table_cost (concat bs ++ pending ++ [(k, v)]) < 2 ^ 32) by (rewrite table_cost_app in Hc; pose proof (table_cost_pos kvs); lia).
    destruct (TableBuilder_Add_spec r bs pending seps k v HI He1 Hc1) as (r1 & bs1 & p1 & seps1 & E1 & HI1 & Hk1).
    destruct (IH r1 bs1 p1 seps1 HI1) as (r2 & bs2 & p2 & seps2 & E2 & HI2 & Hk2); [by rewrite app_assoc, Hk1|by rewrite app_assoc, Hk1|].
    exists r2, bs2, p2, seps2. split; [|split; [done|by rewrite Hk2, app_assoc, Hk1]]. cbn [add_all fst snd]. by rewrite (bind_eq _ _ _ _ _ E1).
Qed.

Lemma TableBuilder_new_spec f : Ready f [] -> exists r, TableBuilder_new o f = Some r /\ Inv r [] [] [].
Proof.
  intros HR. unfold TableBuilder_new, BlockBuilder_new. destruct (Z.geb_spec interval 1); [|lia]. cbn [mbind option_bind].
  assert (Hb : forall fb, match filter_policy o with
      | None => fb = None
      | Some p => exists b, fb = Some (p, b) /\ AddBlocks p FilterBlockBuilder_new (fblks ([] ++ [[]])) = Some b end ->
    Inv {| options := o; index_block_options := set_block_restart_interval 1 o; file := f; offset := 0; status := Status_OK;
          data_block := BlockBuilder_Reset; index_block := BlockBuilder_Reset; last_key := []; num_entries := 0; closed := false;
          filter_block := fb; pending_index_entry := false; pending_handle := BlockHandle_new |} [] [] []).
  { intros fb Hfb. constructor; rep; [|done|by intros [|? ?] ?|done]. constructor; rep; try done.
    constructor; [cbn; lia|cbn; intros; lia|constructor|intros j s kv Hj; done|intros j k s kv Hj; done|intros j k s kv q Hj; done]. }
  pose proof (fun p => fblks_added p ([] ++ [[]])) as Hadd. clear Hpolicy. destruct (filter_policy o) as [p|].
  - destruct (Hadd p eq_refl) as (fb & Eadd). assert (Es : StartBlock p 0 FilterBlockBuilder_new = Some fb).
    { change (fblks ([] ++ [[]])) with ([] ++ [(0, @nil Slice)]) in Eadd. by rewrite AddBlocks_start in Eadd. }
    rewrite Es. cbn [mbind option_bind]. eexists. split; [done|]. apply Hb. by exists fb.
  - cbn [mbind option_bind]. eexists. split; [done|]. by apply Hb.
Qed.
(** ** The finished file *)

Definition filter_data (bs : list (list KV)) : Slice :=
  match filter_policy o with None => [] | Some p => default [] (build_filter_block p (fblks (bs ++ [[]]))) end.

Definition filter_raw (bs : list (list KV)) : Slice :=
  match filter_policy o with None => [] | Some _ => raw_block kNoCompression (filter_data bs) end.

Definition filter_handle (bs : list (list KV)) : BlockHandle := {| offset_ := size (stored bs); size_ := size (filter_data bs) |}.

Definition meta_entries (bs : list (list KV)) : list KV :=
  match filter_policy o with None => [] | Some p => [(chars "filter." ++ FilterPolicy_Name p, handle_bytes (filter_handle bs))] end.

(** The only entry needs no comparison. *)
Definition meta_data (bs : list (list KV)) : Slice := data_of interval BytewiseComparator (meta_entries bs).

Definition meta_handle (bs : list (list KV)) : BlockHandle :=
  {| offset_ := size (stored bs ++ filter_raw bs); size_ := size (meta_data bs) |}.

Definition index_data (bs : list (list KV)) (seps : list Slice) : Slice := data_of 1 cmp (idx_of bs seps).

Definition before_index (bs : list (list KV)) : Slice := stored bs ++ filter_raw bs ++ raw_block kNoCompression (meta_data bs).

Definition index_handle (bs : list (list KV)) (seps : list Slice) : BlockHandle :=
  {| offset_ := size (before_index bs); size_ := size (index_data bs seps) |}.

Definition table_footer (bs : list (list KV)) (seps : list Slice) : Footer :=
  {| metaindex_handle_ := meta_handle bs; index_handle_ := index_handle bs seps |}.

Definition table_file (bs : list (list KV)) (seps : list Slice) : Slice :=
  before_index bs ++ raw_block kNoCompression (index_data bs seps) ++ footer_bytes (table_footer bs seps).

(** What makes all of it fit. *)
Record Fits (bs : list (list KV)) : Prop := {
  ft_entries : entries_ok cmp ok (concat bs);
  ft_cost : table_cost (concat bs) < 2 ^ 32;
  ft_filter : 2 * c * Z.of_nat (length (concat bs)) < 2 ^ 31;
  ft_nonempty : Forall (fun b => b <> []) bs
}.

Lemma filter_data_spec bs p : Fits bs -> filter_policy o = Some p ->
  build_filter_block p (fblks (bs ++ [[]])) = Some (filter_data bs) /\ is_bytes (filter_data bs) /\ size (filter_data bs) < 2 ^ 32.
Proof.
  intros [He Hc Hf HN] Hp. pose proof (Hpolicy p Hp) as TP. destruct (fblks_added p (bs ++ [[]]) Hp) as (fb & Eadd).
  destruct (fblks_sorted (bs ++ [[]])) as [_ HF]. unfold filter_data. rewrite Hp.
  assert (Eb : exists contents, build_filter_block p (fblks (bs ++ [[]])) = Some contents) by (unfold build_filter_block; rewrite Eadd; by eexists).
  destruct Eb as (contents & Eb). rewrite Eb. cbn [default]. split; [done|].
  assert (Elen : length (concat (fblks (bs ++ [[]])).*2) = length (concat bs)).
  { rewrite fblks_keys, map_app, concat_app. cbn [map concat fmap list_fmap]. rewrite !app_nil_r. clear. induction bs as [|b bs IH]; [done|].
    cbn [map concat]. by rewrite !length_app, IH, length_fmap. }
  assert (Hst : size (stored (bs ++ [[]])) = size (stored bs) + size (data []) + 5).
  { rewrite stored_snoc, size_app, raw_block_size. unfold kBlockTrailerSize. lia. }
  pose proof (stored_size bs HN He Hc) as Hss. pose proof (size_nonneg (stored bs)).
  assert (Hn : Z.of_nat (length (concat bs)) < 2 ^ 31) by (unfold table_cost in Hc; pose proof (block_cost_pos (concat bs)); lia).
  destruct (filter_block_bound p ok c (fblks (bs ++ [[]])) contents (size (stored bs)) Eb) as [B1 B2]; [done| |by rewrite Elen|].
  - rewrite fblks_snoc. apply Forall_app. destruct (fblks_sorted bs) as [_ HF']. split; [exact HF'|]. constructor; [cbn [fst]; lia|done].
  - split; [done|]. rewrite Elen in B2. pose proof (Z.div_le_upper_bound (size (stored bs)) kFilterBase (2 ^ 21) ltac:(done)) as Hd.
    change kFilterBase with 2048 in Hd, B2. specialize (Hd ltac:(lia)). unfold id. lia.
Qed.

Lemma meta_data_spec bs : Fits bs -> exists b,
  match filter_policy o with
  | None => b = BlockBuilder_Reset
  | Some p => BlockBuilder_Add interval cmp BlockBuilder_Reset (chars "filter." ++ FilterPolicy_Name p) (handle_bytes (filter_handle bs)) = Some b
  end /\ (BlockBuilder_Finish b).1 = meta_data bs /\ is_bytes (meta_data bs) /\ size (meta_data bs) < 2 ^ 20 /\
  entries_ok BytewiseComparator is_bytes (meta_entries bs) /\ block_cost (meta_entries bs) < 2 ^ 20.
Proof.
  intros HF. assert (Hm : entries_ok BytewiseComparator is_bytes (meta_entries bs) /\ block_cost (meta_entries bs) < 2 ^ 20).
  { unfold meta_entries. pose proof (fun p => filter_data_spec bs p HF) as Hfd. pose proof Hpolicy as HP. clear Hpolicy.
    destruct (filter_policy o) as [p|]; [|split; [split; constructor|done]]. destruct (HP p eq_refl) as [_ _ [N1 N2] _ _].
    destruct (Hfd p eq_refl) as (_ & _ & Hs). destruct HF as [He Hc _ HN]. pose proof (stored_size bs HN He Hc) as Hss.
    pose proof (size_nonneg (stored bs)). pose proof (size_nonneg (filter_data bs)).
    assert (Hh : handle_ok (filter_handle bs)) by (unfold handle_ok, filter_handle; cbn [offset_ size_]; lia). pose proof (handle_bytes_size _ Hh).
    split; [split|].
    - repeat constructor.
    - constructor; [|done]. cbn [fst snd]. split; [apply is_bytes_app; split; [solve_bytes|done]|].
      unfold handle_bytes, filter_handle. cbn [offset_ size_]. apply is_bytes_app. split; apply EncodeVarint64_is_bytes; lia.
    - rewrite block_cost_cons. cbn [fst snd]. rewrite size_app. change (size (chars "filter.")) with 7. change (block_cost []) with 8. lia. }
  destruct Hm as [Hm Hmc]. destruct (data_of_spec interval BytewiseComparator is_bytes Hinterval (meta_entries bs) Hm ltac:(lia)) as (Eb & Hb & Hs).
  unfold build_block, BlockBuilder_new in Eb. destruct (Z.geb_spec interval 1); [|lia]. cbn [mbind option_bind] in Eb.
  destruct (add_entries interval BytewiseComparator BlockBuilder_Reset (meta_entries bs)) as [b|] eqn:Ea; [|done]. cbn [mbind option_bind] in Eb.
  exists b. apply (inj Some) in Eb. split_and!; [|done|done|unfold meta_data; lia|done|done]. unfold meta_entries in Ea. destruct (filter_policy o) as [p|]; [exact Ea|by injection Ea as <-].
Qed.

Lemma Flush_inv r bs pending seps : Inv r bs pending seps -> entries_ok cmp ok (concat bs ++ pending) -> table_cost (concat bs ++ pending) < 2 ^ 32 ->
  exists r1 bs1, TableBuilder_Flush address taddr r = Ret (tt, r1) /\ Inv r1 bs1 [] seps /\ concat bs1 = concat bs ++ pending.
Proof.
  intros HI He Hc. pose proof (in_core _ _ _ _ HI) as HC. destruct pending as [|kv pending _] using rev_ind.
  - exists r, bs. rewrite app_nil_r. split; [|done]. unfold TableBuilder_Flush. unfold bind at 1, get at 1. rewrite (in_closed _ _ _ _ HI).
    unfold TableBuilder_ok. rewrite (co_status _ _ _ _ HC). pose proof (co_data _ _ _ _ HC) as Hd. injection Hd as <-. done.
  - pose proof (in_pending _ _ _ _ HI) as Hp. destruct (pending_index_entry r) eqn:Epi; [destruct Hp as [Hp _]; by destruct pending|].
    destruct Hp as [Hl _]. assert (Hlast : last_key r = kv.1) by (apply (in_last _ _ _ _ HI (concat bs ++ pending)); by rewrite app_assoc).
    destruct (Flush_spec r bs (pending ++ [kv]) seps kv.1 HC (in_closed _ _ _ _ HI) Epi Hl) as (r1 & E1 & HC1 & Hpi1 & Hh1 & Hk1 & Hcl1); [by destruct pending|done|done|done|].
    exists r1, (bs ++ [pending ++ [kv]]). assert (Ec : concat (bs ++ [pending ++ [kv]]) = concat bs ++ pending ++ [kv]) by (rewrite concat_app; cbn [concat]; by rewrite app_nil_r).
    split; [done|]. split; [|done]. constructor; [done|done| |].
    + intros l kv'. rewrite app_nil_r, Ec, app_assoc. intros [_ <-]%app_inj_tail. done.
    + rewrite Hpi1. split_and!; [done|rewrite length_app; cbn; lia|by rewrite Hl].
Qed.
(** ** [Finish] *)

(** A builder whose file has [w]. *)
Definition At (r : R) (w : Slice) : Prop :=
  options r = o /\ index_block_options r = set_block_restart_interval 1 o /\ Ready (file r) w /\ offset r = size w /\ status r = Status_OK.

Lemma moved_at r w w' f' : At r w -> Ready f' w' -> At (moved r f' (size w')) w'.
Proof. intros (H1 & H2 & _) HR. by split_and!. Qed.

Lemma write_filter_spec r bs seps : Core r bs [] seps -> Fits bs ->
  exists h r', write_filter_block address taddr r = Ret (h, r') /\ (filter_policy o <> None -> h = filter_handle bs) /\
    At r' (stored bs ++ filter_raw bs) /\
    (filter_policy o = None <-> filter_block r' = None) /\ index_block r' = index_block r /\ pending_index_entry r' = pending_index_entry r /\
    pending_handle r' = pending_handle r /\ last_key r' = last_key r /\ closed r' = closed r.
Proof.
  intros HC HF. unfold write_filter_block. unfold bind at 1, get at 1. pose proof (co_filter _ _ _ _ HC) as Hfl.
  pose proof (fun p => filter_data_spec bs p HF) as Hfd. unfold filter_raw. unfold TableBuilder_ok. rewrite (co_status _ _ _ _ HC).
  pose proof HC as [C1 C2 C3 C4 C5 _ _ _ _ _ _ _].
  clear Hpolicy. destruct (filter_policy o) as [p|].
  - destruct Hfl as (fb & -> & Eadd). destruct (Hfd p eq_refl) as (Eb & Hby & Hs). unfold build_filter_block in Eb. rewrite Eadd in Eb.
    cbn [mbind option_bind] in Eb. apply (inj Some) in Eb. destruct (FilterBlock_Finish p fb) as [contents fb'] eqn:Ef. cbn [fst] in Eb. subst contents.
    change (Status_ok Status_OK) with true. cbv iota. set (r0 := Build_Rep (options r) (index_block_options r) (file r) (offset r) (status r) (data_block r) (index_block r)
      (last_key r) (num_entries r) (closed r) (Some (p, fb')) (pending_index_entry r) (pending_handle r)).
    destruct HF as [He Hc _ HN]. pose proof (stored_size bs HN He Hc). pose proof (size_nonneg (stored bs)).
    destruct (WriteRawBlock_spec r0 (stored bs) (filter_data bs)) as (f' & Ew & HR); [done..|lia|].
    rewrite (bind_eq (set_filter_block (Some (p, fb'))) _ r tt r0 eq_refl), Ew. eexists _, _. split; [reflexivity|]. split; [done|]. split; [by apply (moved_at r0 (stored bs))|].
    by split_and!.
  - rewrite Hfl. exists BlockHandle_new, r. split; [done|]. split; [done|]. rewrite app_nil_r. by split_and!.
Qed.
Lemma sizes_small bs : Fits bs -> size (stored bs ++ filter_raw bs) < 2 ^ 34 /\ handle_ok (filter_handle bs) /\ handle_ok (meta_handle bs) /\
  size (before_index bs) < 2 ^ 35.
Proof.
  intros HF. assert (Hfr : size (filter_raw bs) < 2 ^ 32 + 5 /\ 0 <= size (filter_data bs) < 2 ^ 32).
  { unfold filter_raw. pose proof (fun p => filter_data_spec bs p HF) as Hfd. pose proof (size_nonneg (filter_data bs)). clear Hpolicy. revert H Hfd. unfold filter_data.
    destruct (filter_policy o) as [p|]; intros H Hfd; [destruct (Hfd p eq_refl) as (_ & _ & Hs); rewrite raw_block_size; unfold kBlockTrailerSize; lia|].
    change (size []) with 0. lia. }
  destruct (meta_data_spec bs HF) as (_ & _ & _ & _ & Hm & _). destruct HF as [He Hc _ HN]. pose proof (stored_size bs HN He Hc).
  pose proof (size_nonneg (stored bs)). pose proof (size_nonneg (filter_raw bs)). pose proof (size_nonneg (meta_data bs)).
  unfold before_index, handle_ok, filter_handle, meta_handle. cbn [offset_ size_]. rewrite !size_app, raw_block_size. unfold kBlockTrailerSize. lia.
Qed.

Lemma write_metaindex_spec r bs h : At r (stored bs ++ filter_raw bs) -> Fits bs -> (filter_policy o <> None -> h = filter_handle bs) ->
  (filter_policy o = None <-> filter_block r = None) ->
  exists f', write_metaindex_block address taddr h r = Ret (meta_handle bs, moved r f' (size (before_index bs))) /\
    Ready f' (before_index bs).
Proof.
  intros (H1 & H2 & HR & Ho & Hs) HF Hh Hfb. destruct (meta_data_spec bs HF) as (b & Eb & Ef & Hby & Hsz & _).
  destruct (sizes_small bs HF) as (Hs1 & Hok & _). pose proof (size_nonneg (stored bs ++ filter_raw bs)). pose proof (size_nonneg (meta_data bs)).
  destruct (WriteBlock_spec r _ b (meta_data bs) HR Ho Hs H1 Ef Hby) as (f' & Ew & HR'); [lia|].
  rewrite <- app_assoc in Ew, HR'. fold (before_index bs) in Ew, HR'. exists f'. split; [|done].
  unfold write_metaindex_block. unfold bind at 1, get at 1. unfold TableBuilder_ok. rewrite Hs. change (Status_ok Status_OK) with true. cbv iota.
  rewrite H1. unfold BlockBuilder_new. destruct (Z.geb_spec interval 1); [|lia]. cbn [need]. rewrite (bind_eq _ _ r BlockBuilder_Reset r eq_refl).
  assert (Em : match filter_block r with
      | None => ret BlockBuilder_Reset
      | Some _ => let* policy := need (filter_policy o) in let* handle_encoding := need (BlockHandle_EncodeTo h []) in
          need (BlockBuilder_Add interval cmp BlockBuilder_Reset (chars "filter." ++ FilterPolicy_Name policy) handle_encoding)
      end r = Ret (b, r)).
  { clear Hpolicy. destruct (filter_policy o) as [p|].
    - destruct (filter_block r) as [[p' fb]|]; [|discriminate (proj2 Hfb eq_refl)]. rewrite (Hh ltac:(done)). cbn [need].
      rewrite (bind_eq _ _ r p r eq_refl), (EncodeTo_handle _ [] Hok). cbn [need app]. rewrite (bind_eq _ _ r (handle_bytes (filter_handle bs)) r eq_refl).
      by rewrite Eb.
    - by rewrite (proj1 Hfb eq_refl), Eb. }
  rewrite (bind_eq _ _ _ _ _ Em). by rewrite (bind_eq _ _ _ _ _ Ew).
Qed.

(** The index has a separator for every block. *)
Definition Indexed (bs : list (list KV)) (seps : list Slice) : Prop := SepOk cmp ok bs seps /\ length seps = length bs /\ block_cost (idx_of bs seps) < 2 ^ 32.

Lemma SepOk_less bs seps : SepOk cmp ok (bs ++ [[]]) seps -> (length seps <= length bs)%nat -> SepOk cmp ok bs seps.
Proof.
  assert (Hnth : forall k kv, kv ∈ nth k bs [] -> kv ∈ nth k (bs ++ [[]]) []).
  { intros k kv Hin. destruct (decide (k < length bs)%nat); [by rewrite app_nth1 by lia|]. rewrite nth_overflow in Hin by lia. by apply elem_of_nil in Hin. }
  intros [H1 H2 H3 H4 H5 H6] Hl. constructor; [done| |done|eauto|eauto|].
  - intros j b Hj Hlt. apply (H2 j); [|done]. by rewrite lookup_app_l by lia.
  - intros j k s kv q Hj Hjk Hin%Hnth Hq Hsame Hge. destruct (H6 j k s kv q Hj Hjk Hin Hq Hsame Hge) as (y & Hy & Hyq). exists y. split; [|done].
    apply lookup_lt_Some in Hj. by rewrite app_nth1 in Hy by lia.
Qed.

Lemma index_data_spec bs seps : Fits bs -> Indexed bs seps ->
  is_bytes (index_data bs seps) /\ size (index_data bs seps) < 2 ^ 32 /\ entries_ok cmp ok (idx_of bs seps).
Proof.
  intros [He Hc _ HN] (HS & Hl & Hcost).
  assert (Hei : entries_ok cmp ok (idx_of bs seps)).
  { apply (idx_entries interval cmp ok); [done|by apply (entries_keys cmp ok)|]. intros j Hj. apply handle_small; [done..|lia]. }
  destruct (data_of_spec 1 cmp ok ltac:(lia) (idx_of bs seps) Hei Hcost) as (_ & Hb & Hs). split_and!; [done|unfold index_data; lia|done].
Qed.

Lemma table_sizes bs seps : Fits bs -> Indexed bs seps -> footer_ok (table_footer bs seps) /\ size (table_file bs seps) < 2 ^ 40.
Proof.
  intros HF HIdx. destruct (sizes_small bs HF) as (_ & _ & Hm & Hs). destruct (index_data_spec bs seps HF HIdx) as (_ & Hd & _).
  pose proof (size_nonneg (before_index bs)). pose proof (size_nonneg (index_data bs seps)).
  assert (Hfo : footer_ok (table_footer bs seps)) by (split; [done|]; unfold handle_ok, table_footer, index_handle; cbn [index_handle_ offset_ size_]; lia).
  split; [done|]. pose proof (footer_size _ Hfo) as Hfs. unfold table_file. rewrite !size_app, Hfs, raw_block_size. unfold kBlockTrailerSize. lia.
Qed.

Lemma write_index_spec r r0 bs seps : Core r0 bs [] seps -> Fits bs -> At r (before_index bs) ->
  index_block r = index_block r0 -> pending_index_entry r = pending_index_entry r0 -> pending_handle r = pending_handle r0 -> last_key r = last_key r0 ->
  Inv r0 bs [] seps ->
  exists r' seps', write_index_block address taddr r = Ret (index_handle bs seps', r') /\
    At r' (before_index bs ++ raw_block kNoCompression (index_data bs seps')) /\ Indexed bs seps' /\ closed r' = closed r.
Proof.
  intros HC HF HA Hib Hpi Hph Hlk HI. pose proof HF as [He Hc _ HN]. destruct HA as (A1 & A2 & A3 & A4 & A5).
  (* after the index entry that was due *)
  assert (Hstep : exists r1 seps1, (if pending_index_entry r then add_index_entry (FindShortSuccessor (comparator (options r)) (last_key r)) else ret tt) r = Ret (tt, r1) /\
    At r1 (before_index bs) /\ holds_entries 1 cmp (index_block r1) (idx_of bs seps1) /\ Indexed bs seps1 /\ closed r1 = closed r).
  { pose proof (in_pending _ _ _ _ HI) as Hp. pose proof (in_last _ _ _ _ HI) as Hlast. rewrite Hpi. pose proof (co_seps _ _ _ _ HC) as HS. pose proof (co_cost _ _ _ _ HC) as Hcost.
    destruct (pending_index_entry r0).
    - destruct Hp as (_ & Hl & Hh). rewrite app_nil_r in Hlast. destruct (concat bs) as [|kv0 kvs0 _] eqn:Econ using rev_ind.
      { destruct bs as [|b bs]; [cbn in Hl; lia|]. apply Forall_inv in HN. cbn in Econ. apply app_eq_nil in Econ as [-> _]. done. }
      pose proof (entries_keys cmp ok _ He) as Hok0. apply Forall_app in Hok0 as [_ Hok0]. apply Forall_inv in Hok0.
      destruct (cmp_successor kv0.1 Hok0) as (Os & Hle). rewrite Hlk, (Hlast kvs0 kv0 eq_refl), A1.
      destruct (index_entry (index_block r) bs seps (FindShortSuccessor cmp kv0.1) kv0) as (ib' & Eib & Hib' & HSep & Hcost' & Hok);
        [rewrite Hib; apply (co_index _ _ _ _ HC)|done|done|done|done|by rewrite Econ|by rewrite Econ|by exists kvs0|done|done|by apply (tc_successor_size (ok := ok))|].
      eexists _, (seps ++ [FindShortSuccessor cmp kv0.1]). split; [apply (add_index_entry_run r _ _ ib' A2 (eq_trans Hph Hh) Hok Eib)|].
      split; [by split_and!|]. split; [done|]. split; [|done]. split; [apply SepOk_less; [done|rewrite length_app; cbn; lia]|].
      split; [rewrite length_app; cbn; lia|]. rewrite take_ge, Econ in Hcost' by lia. lia.
    - destruct Hp as (Hl & _). exists r, seps. split; [done|]. split; [by split_and!|]. rewrite Hib. split; [apply (co_index _ _ _ _ HC)|]. split; [|done].
      split; [apply SepOk_less; [done|lia]|]. split; [done|]. rewrite take_ge in Hcost by lia. lia. }
  destruct Hstep as (r1 & seps1 & E1 & (B1 & B2 & B3 & B4 & B5) & Hib1 & HIdx & Hcl). destruct (index_data_spec bs seps1 HF HIdx) as (Hby & Hsz & _).
  pose proof (holds_finish 1 cmp ltac:(lia) _ _ Hib1 : _ = index_data bs seps1) as Ef.
  destruct (sizes_small bs HF) as (_ & _ & _ & Hs4). pose proof (size_nonneg (before_index bs)).
  destruct (WriteBlock_spec r1 _ (index_block r1) _ B3 B4 B5 B1 Ef Hby) as (f' & Ew & HR'); [lia|].
  unfold write_index_block. unfold bind at 1, get at 1. unfold TableBuilder_ok. rewrite A5. change (Status_ok Status_OK) with true. cbv iota.
  rewrite (bind_eq _ _ _ _ _ E1). unfold bind at 1, get at 1. rewrite (bind_eq _ _ _ _ _ Ew). eexists _, seps1. split; [reflexivity|].
  split; [by split_and!|]. by split.
Qed.

Lemma TableBuilder_Finish_spec r bs pending seps : Inv r bs pending seps ->
  entries_ok cmp ok (concat bs ++ pending) -> table_cost (concat bs ++ pending) < 2 ^ 32 -> 2 * c * Z.of_nat (length (concat bs ++ pending)) < 2 ^ 31 ->
  exists r' bs' seps', TableBuilder_Finish address taddr r = Ret (Status_OK, r') /\ closed r' = true /\
    Ready (file r') (table_file bs' seps') /\ offset r' = size (table_file bs' seps') /\
    Fits bs' /\ Indexed bs' seps' /\ concat bs' = concat bs ++ pending.
Proof.
  intros HI He Hc Hf. destruct (Flush_inv r bs pending seps HI He Hc) as (r1 & bs1 & E1 & HI1 & Hcat). rewrite <- Hcat in He, Hc, Hf.
  pose proof (in_core _ _ _ _ HI1) as HC1. assert (HF : Fits bs1) by (constructor; [done..|apply (co_nonempty _ _ _ _ HC1)]).
  set (r2 := Build_Rep (options r1) (index_block_options r1) (file r1) (offset r1) (status r1) (data_block r1) (index_block r1)
    (last_key r1) (num_entries r1) true (filter_block r1) (pending_index_entry r1) (pending_handle r1)).
  assert (HC2 : Core r2 bs1 [] seps) by (destruct HC1; by constructor).
  destruct (write_filter_spec r2 bs1 seps HC2 HF) as (h & r3 & E3 & Hh & HA3 & Hfb & G1 & G2 & G3 & G4 & G5).
  destruct (write_metaindex_spec r3 bs1 h HA3 HF Hh Hfb) as (f4 & E4 & HR4). pose proof (moved_at r3 _ _ f4 HA3 HR4) as HA4.
  destruct (write_index_spec (moved r3 f4 (size (before_index bs1))) r1 bs1 seps HC1 HF HA4 G1 G2 G3 G4 HI1) as (r5 & seps' & E5 & (D1 & D2 & D3 & D4 & D5) & HIdx & G6).
  destruct (table_sizes bs1 seps' HF HIdx) as [Hfo Hsz].
  destruct (append_law (file r5) _ (footer_bytes (table_footer bs1 seps')) D3) as (f6 & Ea & HR6).
  rewrite <- app_assoc in HR6. fold (table_file bs1 seps') in HR6.
  exists (moved r5 f6 (size (table_file bs1 seps'))), bs1, seps'. split; [|split; [exact (eq_trans G6 G5)|by split_and!]].
  unfold TableBuilder_Finish. rewrite (bind_eq _ _ _ _ _ E1). unfold bind at 1, get at 1. rewrite (in_closed _ _ _ _ HI1).
  rewrite (bind_eq (set_closed true) _ r1 tt r2 eq_refl), (bind_eq _ _ _ _ _ E3), (bind_eq _ _ _ _ _ E4), (bind_eq _ _ _ _ _ E5).
  unfold write_footer. unfold bind at 1. unfold bind at 1, get at 1. unfold TableBuilder_ok. rewrite D5. change (Status_ok Status_OK) with true. cbv iota.
  change {| metaindex_handle_ := meta_handle bs1; index_handle_ := index_handle bs1 seps' |} with (table_footer bs1 seps').
  rewrite (EncodeTo_footer _ Hfo). unfold need, bind, ret, on_file, get, set_status, set_offset. rewrite Ea. rep. change (Status_ok Status_OK) with true. cbv iota. rep.
  rewrite D4. unfold moved. do 3 f_equal. rewrite <- size_app, <- app_assoc. fold (table_file bs1 seps'). apply wrap_small.
  pose proof (size_nonneg (table_file bs1 seps')). lia.
Qed.
End Build.
