(* ===== verification/LvCacheApi.v ===== *)
(** The interface [Cache] ([include/leveldb/cache.h]) and what its clients rely
    on. *)

From stdpp Require Import base list gmap strings.
From Stdlib Require Import ZArith Lia.
From S2P Require Import Prelude LvSlice.

(** The virtual functions over the state [C] of the cache, its handles [H] and
    the values [V] of one client. The deleter is the client's, always the same. *)
Class Cache (C H V : Type) : Type := {
  Cache_Insert : Slice -> V -> Z -> M C H;
  Cache_Lookup : Slice -> M C (option H);
  Cache_Release : H -> M C unit;
  Cache_Value : H -> M C V;
  Cache_Erase : Slice -> M C unit;
  Cache_NewId : M C Z;
  Cache_Prune : M C unit;
  Cache_TotalCharge : M C Z
}.

(** Fewer than [m] different keys may be cached. *)
Definition few_keys {V : Type} (m : Z) (P : Slice -> V -> Prop) : Prop :=
  exists ks : list Slice, Z.of_nat (length ks) < m /\ forall k v, P k v -> k ∈ ks.

(** [Holds P n held c]: what is cached under a key satisfies [P], the last id was
    [n], and [held] are the handles that were returned and not released yet, with
    their values. Fewer than 2^31 keys may be cached, and fewer handles be held: the
    number of entries and the reference counts have 32 bits. *)
Class CacheLaws (C H V : Type) `{CA : Cache C H V} (Holds : (Slice -> V -> Prop) -> Z -> list (H * V) -> C -> Prop) : Prop := {
  holds_weaken (P Q : Slice -> V -> Prop) n held c : (forall k v, P k v -> Q k v) -> few_keys (2 ^ 31) Q -> Holds P n held c -> Holds Q n held c;
  insert_law P n held c k v charge : Holds P n held c -> is_bytes k -> size k < 2 ^ 31 -> P k v -> 0 <= charge < 2 ^ 32 ->
    Z.of_nat (length held) + 2 < 2 ^ 31 ->
    exists h c', Cache_Insert k v charge c = Ret (h, c') /\ Holds P n ((h, v) :: held) c';
  lookup_law P n held c k : Holds P n held c -> is_bytes k -> size k < 2 ^ 31 -> Z.of_nat (length held) + 2 < 2 ^ 31 ->
    exists o c', Cache_Lookup k c = Ret (o, c') /\
      match o with
      | None => Holds P n held c'
      | Some h => exists v, P k v /\ Holds P n ((h, v) :: held) c'
      end;
  release_law P n held1 held2 c h v : Holds P n (held1 ++ (h, v) :: held2) c ->
    exists c', Cache_Release h c = Ret (tt, c') /\ Holds P n (held1 ++ held2) c';
  value_law P n held c h v : Holds P n held c -> (h, v) ∈ held -> Cache_Value h c = Ret (v, c);
  erase_law P n held c k : Holds P n held c -> is_bytes k -> size k < 2 ^ 31 -> Z.of_nat (length held) + 2 < 2 ^ 31 ->
    exists c', Cache_Erase k c = Ret (tt, c') /\ Holds P n held c';
  new_id_law P n held c : Holds P n held c -> n + 1 < 2 ^ 64 ->
    exists c', Cache_NewId c = Ret (n + 1, c') /\ Holds P (n + 1) held c'
}.
