(* ===== verification/LvCache.v ===== *)
(** The block cache ([util/cache.cc]): entries in a hash table with chains and in
    two circular doubly-linked lists, reference counts, and the shards.

    Addresses are numbers, zero the null pointer. Memory is divided into regions,
    one for each shard: the entries of a shard and its two list heads are in its
    region. Each operation holds the shard's mutex from beginning to end and is
    one step here. *)

From stdpp Require Import base list gmap strings.
From Stdlib Require Import ZArith Lia.
From S2P Require Import Prelude LvSlice LvBloom LvCacheApi.

(** [next] and [prev] are in maps of their own, which have them for the heads of
    the lists too. *)
Record LRUHandle (V : Type) : Type := {
  value : V; next_hash : nat; charge : Z; key_data : Slice; in_cache : bool; refs : Z; hash : Z
}.
Arguments value {V} _.
Arguments next_hash {V} _.
Arguments charge {V} _.
Arguments key_data {V} _.
Arguments in_cache {V} _.
Arguments refs {V} _.
Arguments hash {V} _.
Arguments Build_LRUHandle {V} _ _ _ _ _ _ _.

(** [HandleTable]. *)
Record HandleTable : Type := { length_ : Z; elems_ : Z; list_ : list nat }.

(** [LRUCache] with its memory: [nexts], [prevs] and [entries]; [deleted] are the
    calls of the deleters. *)
Record LRUCache (V : Type) : Type := {
  capacity_ : Z; usage_ : Z; table_ : HandleTable;
  nexts : gmap nat nat; prevs : gmap nat nat; entries : gmap nat (LRUHandle V); deleted : list (Slice * V)
}.
Arguments capacity_ {V} _.
Arguments usage_ {V} _.
Arguments table_ {V} _.
Arguments nexts {V} _.
Arguments prevs {V} _.
Arguments entries {V} _.
Arguments deleted {V} _.
Arguments Build_LRUCache {V} _ _ _ _ _ _ _.

(** [&lru_] and [&in_use_]. *)
Definition lru_ : nat := 1.
Definition in_use_ : nat := 2.

Section Shard.
Context {V : Type}.
Abbreviation C := (LRUCache V).
Abbreviation Handle := (LRUHandle V).
(** An address that is not in use. *)
Variable malloc : gset nat -> nat.

(** ** Memory *)

Definition get_next (p : nat) : M C nat := let* c := get in need (nexts c !! p).
Definition get_prev (p : nat) : M C nat := let* c := get in need (prevs c !! p).
Definition set_next (p q : nat) : M C unit := fun c =>
  Ret (tt, Build_LRUCache (capacity_ c) (usage_ c) (table_ c) (<[p := q]> (nexts c)) (prevs c) (entries c) (deleted c)).
Definition set_prev (p q : nat) : M C unit := fun c =>
  Ret (tt, Build_LRUCache (capacity_ c) (usage_ c) (table_ c) (nexts c) (<[p := q]> (prevs c)) (entries c) (deleted c)).
Definition entry (p : nat) : M C Handle := let* c := get in need (entries c !! p).
Definition set_entries (es : gmap nat Handle) : M C unit := fun c =>
  Ret (tt, Build_LRUCache (capacity_ c) (usage_ c) (table_ c) (nexts c) (prevs c) es (deleted c)).
Definition set_entry (p : nat) (h : Handle) : M C unit := let* c := get in set_entries (<[p := h]> (entries c)).
Definition set_usage (u : Z) : M C unit := fun c =>
  Ret (tt, Build_LRUCache (capacity_ c) u (table_ c) (nexts c) (prevs c) (entries c) (deleted c)).
Definition set_table (t : HandleTable) : M C unit := fun c =>
  Ret (tt, Build_LRUCache (capacity_ c) (usage_ c) t (nexts c) (prevs c) (entries c) (deleted c)).

Definition with_next_hash (n : nat) (h : Handle) : Handle :=
  Build_LRUHandle (value h) n (charge h) (key_data h) (in_cache h) (refs h) (hash h).
Definition with_refs (r : Z) (h : Handle) : Handle :=
  Build_LRUHandle (value h) (next_hash h) (charge h) (key_data h) (in_cache h) r (hash h).
Definition with_in_cache (b : bool) (h : Handle) : Handle :=
  Build_LRUHandle (value h) (next_hash h) (charge h) (key_data h) b (refs h) (hash h).

Definition delete_entry (p : nat) (k : Slice) (v : V) : M C unit := fun c =>
  Ret (tt, Build_LRUCache (capacity_ c) (usage_ c) (table_ c) (delete p (nexts c)) (delete p (prevs c)) (delete p (entries c))
             (deleted c ++ [(k, v)])).

(** [key()] with its assertion. *)
Definition handle_key (p : nat) : M C Slice :=
  let* h := entry p in let* n := get_next p in if (n =? p)%nat then undef else ret (key_data h).

(** ** Hash table *)

(** A pointer to a pointer: to a bucket, or to the [next_hash] of an entry. *)
Inductive slot : Type := Bucket (i : nat) | NextHash (p : nat).

Definition read_slot (s : slot) : M C nat :=
  match s with
  | Bucket i => let* c := get in need (list_ (table_ c) !! i)
  | NextHash p => let* h := entry p in ret (next_hash h)
  end.

Definition write_slot (s : slot) (q : nat) : M C unit :=
  match s with
  | Bucket i =>
      let* c := get in
      let t := table_ c in
      match list_ t !! i with
      | Some _ => set_table {| length_ := length_ t; elems_ := elems_ t; list_ := <[i := q]> (list_ t) |}
      | None => undef
      end
  | NextHash p => let* h := entry p in set_entry p (with_next_hash q h)
  end.

(** No chain is longer than the number of entries. *)
Definition chain_fuel (c : C) : nat := S (base.size (entries c)).

Fixpoint FindPointer_loop (fuel : nat) (key : Slice) (hsh : Z) (s : slot) : M C slot :=
  match fuel with
  | O => nofuel
  | S fuel =>
      let* p := read_slot s in
      if (p =? 0)%nat then ret s
      else
        let* h := entry p in
        let* differs := if negb (hash h =? hsh) then ret true else let* k := handle_key p in ret (negb (Slice_eq key k)) in
        if (differs : bool) then FindPointer_loop fuel key hsh (NextHash p) else ret s
  end.

Definition bucket_of (hsh length : Z) : nat := Z.to_nat (Z.land hsh (u32 (length - 1))).

Definition FindPointer (key : Slice) (hsh : Z) : M C slot :=
  let* c := get in FindPointer_loop (chain_fuel c) key hsh (Bucket (bucket_of hsh (length_ (table_ c)))).

Definition HandleTable_Lookup (key : Slice) (hsh : Z) : M C nat := let* s := FindPointer key hsh in read_slot s.

(** [while (new_length < elems_) new_length *= 2]. *)
Fixpoint grow (fuel : nat) (new_length elems : Z) : option Z :=
  match fuel with
  | O => None
  | S fuel => if new_length <? elems then grow fuel (u32 (new_length * 2)) elems else Some new_length
  end.

(** One chain, moved to the new buckets; the number of entries. *)
Fixpoint rehash_chain (fuel : nat) (p : nat) (new_length : Z) (new_list : list nat) (count : Z) : M C (list nat * Z) :=
  match fuel with
  | O => nofuel
  | S fuel =>
      if (p =? 0)%nat then ret (new_list, count)
      else
        let* h := entry p in
        let next := next_hash h in
        let i := bucket_of (hash h) new_length in
        let* head := need (new_list !! i) in
        set_entry p (with_next_hash head h) ;;;
        rehash_chain fuel next new_length (<[i := p]> new_list) (u32 (count + 1))
  end.

Fixpoint rehash (buckets : list nat) (new_length : Z) (new_list : list nat) (count : Z) : M C (list nat * Z) :=
  match buckets with
  | [] => ret (new_list, count)
  | p :: buckets =>
      let* c := get in
      let* '(new_list, count) := rehash_chain (chain_fuel c) p new_length new_list count in
      rehash buckets new_length new_list count
  end.

(** The constructor of the table calls it with no buckets. *)
Definition Resize : M C unit :=
  let* c := get in
  let t := table_ c in
  match grow 33 4 (elems_ t) with
  | None => nofuel
  | Some new_length =>
      let* '(new_list, count) := rehash (list_ t) new_length (replicate (Z.to_nat new_length) 0%nat) 0 in
      if elems_ t =? count then set_table {| length_ := new_length; elems_ := elems_ t; list_ := new_list |} else undef
  end.

Definition add_elems (n : Z) : M C unit :=
  let* c := get in
  set_table {| length_ := length_ (table_ c); elems_ := u32 (elems_ (table_ c) + n); list_ := list_ (table_ c) |}.

(** The old entry, or null. *)
Definition HandleTable_Insert (p : nat) : M C nat :=
  let* h := entry p in
  let* k := handle_key p in
  let* s := FindPointer k (hash h) in
  let* old := read_slot s in
  let* nh := if (old =? 0)%nat then ret 0%nat else let* o := entry old in ret (next_hash o) in
  let* h := entry p in
  set_entry p (with_next_hash nh h) ;;;
  write_slot s p ;;;
  (if (old =? 0)%nat then
     add_elems 1 ;;;
     let* c := get in if elems_ (table_ c) >? length_ (table_ c) then Resize else ret tt
   else ret tt) ;;;
  ret old.

Definition HandleTable_Remove (key : Slice) (hsh : Z) : M C nat :=
  let* s := FindPointer key hsh in
  let* result := read_slot s in
  (if (result =? 0)%nat then ret tt
   else let* h := entry result in write_slot s (next_hash h) ;;; add_elems (-1)) ;;;
  ret result.

(** ** Lists *)

Definition LRU_Remove (e : nat) : M C unit :=
  let* n := get_next e in
  let* p := get_prev e in
  set_prev n p ;;;
  let* p := get_prev e in
  let* n := get_next e in
  set_next p n.

Definition LRU_Append (l e : nat) : M C unit :=
  set_next e l ;;;
  let* p := get_prev l in
  set_prev e p ;;;
  let* p := get_prev e in
  set_next p e ;;;
  let* n := get_next e in
  set_prev n e.

Definition Ref (e : nat) : M C unit :=
  let* h := entry e in
  (if (refs h =? 1) && in_cache h then LRU_Remove e ;;; LRU_Append in_use_ e else ret tt) ;;;
  let* h := entry e in
  set_entry e (with_refs (u32 (refs h + 1)) h).

Definition Unref (e : nat) : M C unit :=
  let* h := entry e in
  if refs h >? 0 then
    let h := with_refs (u32 (refs h - 1)) h in
    set_entry e h ;;;
    if refs h =? 0 then
      if in_cache h then undef
      else let* k := handle_key e in delete_entry e k (value h)
    else if in_cache h && (refs h =? 1) then LRU_Remove e ;;; LRU_Append lru_ e
    else ret tt
  else undef.

(** ** The cache *)

Definition FinishErase (e : nat) : M C bool :=
  if (e =? 0)%nat then ret false
  else
    let* h := entry e in
    if negb (in_cache h) then undef
    else
      LRU_Remove e ;;;
      set_entry e (with_in_cache false h) ;;;
      let* c := get in
      set_usage (u64 (usage_ c - charge h)) ;;;
      Unref e ;;;
      ret true.

Definition LRUCache_Lookup (key : Slice) (hsh : Z) : M C nat :=
  let* e := HandleTable_Lookup key hsh in
  (if (e =? 0)%nat then ret tt else Ref e) ;;;
  ret e.

Definition LRUCache_Release (handle : nat) : M C unit := Unref handle.

(** The oldest entry is removed. *)
Definition evict : M C unit :=
  let* old := get_next lru_ in
  let* h := entry old in
  if negb (refs h =? 1) then undef
  else
    let* k := handle_key old in
    let* r := HandleTable_Remove k (hash h) in
    let* erased := FinishErase r in
    if (erased : bool) then ret tt else undef.

(** [while (usage_ > capacity_ && lru_.next != &lru_)], or without the first
    condition. *)
Fixpoint evict_loop (fuel : nat) (always : bool) : M C unit :=
  match fuel with
  | O => nofuel
  | S fuel =>
      let* c := get in
      let* n := get_next lru_ in
      if (always || (usage_ c >? capacity_ c)) && negb (n =? lru_)%nat then evict ;;; evict_loop fuel always else ret tt
  end.

Definition allocate (h : Handle) : M C nat :=
  let* c := get in
  let e := malloc (dom (nexts c) ∪ dom (entries c)) in
  set_entry e h ;;;
  set_next e 0%nat ;;;
  set_prev e 0%nat ;;;
  ret e.

Definition LRUCache_Insert (key : Slice) (hsh : Z) (v : V) (chg : Z) : M C nat :=
  let* e := allocate (Build_LRUHandle v 0%nat chg key false 1 hsh) in
  let* c := get in
  (if capacity_ c >? 0 then
     let* h := entry e in
     set_entry e (with_in_cache true (with_refs (u32 (refs h + 1)) h)) ;;;
     LRU_Append in_use_ e ;;;
     let* c := get in
     set_usage (u64 (usage_ c + chg)) ;;;
     let* old := HandleTable_Insert e in
     let* _ := FinishErase old in
     ret tt
   else set_next e 0%nat) ;;;
  let* c := get in
  evict_loop (chain_fuel c) false ;;;
  ret e.

Definition LRUCache_Erase (key : Slice) (hsh : Z) : M C unit :=
  let* r := HandleTable_Remove key hsh in
  let* _ := FinishErase r in
  ret tt.

Definition LRUCache_Prune : M C unit := let* c := get in evict_loop (chain_fuel c) true.

Definition LRUCache_TotalCharge : M C Z := let* c := get in ret (usage_ c).

(** The constructor, with [SetCapacity]. The table starts with four buckets. *)
Definition LRUCache_new (capacity : Z) : C :=
  Build_LRUCache capacity 0 {| length_ := 4; elems_ := 0; list_ := replicate 4 0%nat |}
    {[lru_ := lru_; in_use_ := in_use_]} {[lru_ := lru_; in_use_ := in_use_]} ∅ [].

(** [~LRUCache]; the loop reads [next] before the entry is freed. *)
Fixpoint destroy_loop (fuel : nat) (e : nat) : M C unit :=
  match fuel with
  | O => nofuel
  | S fuel =>
      if (e =? lru_)%nat then ret tt
      else
        let* next := get_next e in
        let* h := entry e in
        if negb (in_cache h) || negb (refs h =? 1) then undef
        else
          set_entry e (with_in_cache false h) ;;;
          Unref e ;;;
          destroy_loop fuel next
  end.

Definition LRUCache_delete : M C unit :=
  let* n := get_next in_use_ in
  if (n =? in_use_)%nat then
    let* c := get in
    let* e := get_next lru_ in
    destroy_loop (chain_fuel c) e
  else undef.
End Shard.

(** ** Shards *)

Definition kNumShardBits : Z := 4.
Definition kNumShards : Z := Z.shiftl 1 kNumShardBits.

(** A handle: the region and the address. *)
Definition CacheHandle : Type := nat * nat.

Record ShardedLRUCache (V : Type) : Type := { shard_ : list (LRUCache V); last_id_ : Z }.
Arguments shard_ {V} _.
Arguments last_id_ {V} _.
Arguments Build_ShardedLRUCache {V} _ _.

Definition HashSlice (s : Slice) : Z := Hash s 0.
Definition Shard (hsh : Z) : nat := Z.to_nat (Z.shiftr hsh (32 - kNumShardBits)).

Section Sharded.
Context {V : Type}.
Variable malloc : gset nat -> nat.
Abbreviation S := (ShardedLRUCache V).

Definition ShardedLRUCache_new (capacity : Z) : S :=
  let per_shard := u64 (capacity + (kNumShards - 1)) / kNumShards in
  Build_ShardedLRUCache (replicate (Z.to_nat kNumShards) (LRUCache_new per_shard)) 0.

Definition on_shard {A} (i : nat) (f : M (LRUCache V) A) : M S A :=
  fun s => match shard_ s !! i with
           | None => Undef
           | Some c => match f c with
                       | Ret (a, c) => Ret (a, Build_ShardedLRUCache (<[i := c]> (shard_ s)) (last_id_ s))
                       | Undef => Undef
                       | NoFuel => NoFuel
                       end
           end.

Definition Sharded_Insert (key : Slice) (v : V) (chg : Z) : M S CacheHandle :=
  let hsh := HashSlice key in
  let* e := on_shard (Shard hsh) (LRUCache_Insert malloc key hsh v chg) in
  ret (Shard hsh, e).

Definition Sharded_Lookup (key : Slice) : M S (option CacheHandle) :=
  let hsh := HashSlice key in
  let* e := on_shard (Shard hsh) (LRUCache_Lookup key hsh) in
  ret (if (e =? 0)%nat then None else Some (Shard hsh, e)).

(** The shard is that of the hash in the entry. *)
Definition Sharded_Release (h : CacheHandle) : M S unit :=
  let* e := on_shard h.1 (entry h.2) in
  if (Shard (hash e) =? h.1)%nat then on_shard (Shard (hash e)) (LRUCache_Release h.2) else undef.

Definition Sharded_Erase (key : Slice) : M S unit :=
  let hsh := HashSlice key in on_shard (Shard hsh) (LRUCache_Erase key hsh).

Definition Sharded_Value (h : CacheHandle) : M S V := let* e := on_shard h.1 (entry h.2) in ret (value e).

Definition Sharded_NewId : M S Z :=
  fun s => let id := u64 (last_id_ s + 1) in Ret (id, Build_ShardedLRUCache (shard_ s) id).

(** [for (int s = 0; s < kNumShards; s++)]. *)
Fixpoint each_shard {A} (n : nat) (f : A -> M (LRUCache V) A) (a : A) (i : nat) : M S A :=
  match n with
  | O => ret a
  | Datatypes.S n => let* a := on_shard i (f a) in each_shard n f a (Datatypes.S i)
  end.

Definition Sharded_Prune : M S unit := each_shard (Z.to_nat kNumShards) (fun _ => LRUCache_Prune) tt 0.

Definition Sharded_TotalCharge : M S Z :=
  each_shard (Z.to_nat kNumShards) (fun total => let* n := LRUCache_TotalCharge in ret (u64 (total + n))) 0 0.

(** The destructor: the elements of the array, the last one first. *)
Fixpoint destroy_shards (n : nat) : M S unit :=
  match n with
  | O => ret tt
  | Datatypes.S n => on_shard n LRUCache_delete ;;; destroy_shards n
  end.

Definition ShardedLRUCache_delete : M S unit := destroy_shards (Z.to_nat kNumShards).

#[export] Instance Sharded_cache : Cache S CacheHandle V := {
  Cache_Insert := Sharded_Insert;
  Cache_Lookup := Sharded_Lookup;
  Cache_Release := Sharded_Release;
  Cache_Value := Sharded_Value;
  Cache_Erase := Sharded_Erase;
  Cache_NewId := Sharded_NewId;
  Cache_Prune := Sharded_Prune;
  Cache_TotalCharge := Sharded_TotalCharge
}.
End Sharded.

(** An allocator. *)
Definition next_address (used : gset nat) : nat := S (set_fold max 2%nat used).

(** A cache of three entries for each shard: the oldest ones go; one that is in
    use stays. *)
Definition sample_cache : M (LRUCache nat) (list nat * nat * nat * list (Slice * nat)) :=
  let ins k v := LRUCache_Insert next_address (chars k) (HashSlice (chars k)) v 1 in
  let look k := LRUCache_Lookup (chars k) (HashSlice (chars k)) in
  let* a := ins "a" 10%nat in
  let* b := ins "b" 11%nat in
  let* c := ins "c" 12%nat in
  LRUCache_Release a ;;; LRUCache_Release b ;;; LRUCache_Release c ;;;
  let* a2 := look "a" in
  let* d := ins "d" 13%nat in
  let* b2 := look "b" in
  let* e := ins "e" 14%nat in
  let* c2 := look "c" in
  let* s := get in
  ret ([a; b; c; d; e], a2, (b2 + c2)%nat, deleted s).

Example sample_cache_runs :
  match sample_cache (LRUCache_new 3) with
  | Ret ((_, a2, gone, del), _) => a2 = 3%nat /\ gone = 0%nat /\ del = [(chars "b", 11%nat); (chars "c", 12%nat)]
  | _ => False
  end.
Proof. by vm_compute. Qed.
