(* ===== verification/LvCacheProps.v ===== *)
(** The lists and the hash table of the cache: circular doubly-linked lists and
    chains as lists of addresses. *)

From stdpp Require Import base list gmap strings sorting.
From Stdlib Require Import ZArith Lia.
From S2P Require Import Prelude LvSlice LvBloom LvCacheApi LvCache.

(** * Circular lists *)

Section Ring.
Implicit Types (nx pv : gmap nat nat) (xs ys : list nat).

(** Each node's [next] is the one after it, whose [prev] it is. *)
Fixpoint seg nx pv xs : Prop :=
  match xs with
  | a :: ((b :: _) as t) => nx !! a = Some b /\ pv !! b = Some a /\ seg nx pv t
  | _ => True
  end.

(** The nodes of the list with the head [h], in order. *)
Definition ring nx pv (h : nat) (l : list nat) : Prop := seg nx pv (h :: l ++ [h]).

Lemma seg_app nx pv xs a ys : seg nx pv (xs ++ a :: ys) <-> seg nx pv (xs ++ [a]) /\ seg nx pv (a :: ys).
Proof.
  induction xs as [|x xs IH]; [cbn; tauto|]. destruct xs as [|y xs].
  - cbn [app] in *. cbn. destruct ys; tauto.
  - cbn [app seg] in *. tauto.
Qed.

Lemma seg_cons nx pv a b xs : seg nx pv (a :: b :: xs) <-> nx !! a = Some b /\ pv !! b = Some a /\ seg nx pv (b :: xs).
Proof. done. Qed.

Lemma seg_frame nx pv nx' pv' xs :
  (forall a, a ∈ removelast xs -> nx' !! a = nx !! a) -> (forall b, b ∈ tail xs -> pv' !! b = pv !! b) -> seg nx pv xs -> seg nx' pv' xs.
Proof.
  induction xs as [|a [|b xs] IH]; [done|done|]. intros Hn Hp (H1 & H2 & H3). split; [|split].
  - rewrite Hn; [done|]. cbn [removelast]. set_solver.
  - rewrite Hp; [done|]. cbn [tail]. set_solver.
  - apply IH; [|cbn [tail] in *; set_solver|done]. intros x Hx. apply Hn. cbn [removelast] in *. set_solver.
Qed.

Lemma removelast_app1 xs (a : nat) : removelast (xs ++ [a]) = xs.
Proof. by rewrite removelast_app, app_nil_r by done. Qed.

Lemma ring_frame nx pv nx' pv' h l :
  (forall a, a ∈ h :: l -> nx' !! a = nx !! a /\ pv' !! a = pv !! a) -> ring nx pv h l -> ring nx' pv' h l.
Proof.
  intros Hf. unfold ring. apply seg_frame; intros a Ha; apply Hf.
  - rewrite app_comm_cons, removelast_app1 in Ha. done.
  - cbn [tail] in Ha. set_solver.
Qed.

(** The first and the last node. *)
Lemma ring_first nx pv h l : ring nx pv h l -> nx !! h = Some (hd h l).
Proof. unfold ring. destruct l as [|a l]; cbn; tauto. Qed.

Lemma snoc_last (h : nat) l : exists ys a, h :: l = ys ++ [a] /\ a = List.last l h.
Proof.
  destruct l as [|x l _] using rev_ind; [by exists [], h|]. exists (h :: l), x. split; [done|]. by rewrite last_last.
Qed.

Lemma ring_last nx pv h l : ring nx pv h l -> pv !! h = Some (List.last l h).
Proof.
  unfold ring. destruct (snoc_last h l) as (ys & a & E & <-). rewrite app_comm_cons, E, <- app_assoc. cbn [app].
  intros [_ H]%seg_app. cbn in H. tauto.
Qed.

(** [LRU_Remove] on the maps. *)
Lemma ring_remove nx pv h l1 e l2 : NoDup (h :: l1 ++ e :: l2) -> ring nx pv h (l1 ++ e :: l2) ->
  exists a b, nx !! e = Some b /\ pv !! e = Some a /\ a ∈ h :: l1 /\ b ∈ h :: l2 /\ ring (<[a := b]> nx) (<[b := a]> pv) h (l1 ++ l2).
Proof.
  intros HN HR. unfold ring in *. destruct (snoc_last h l1) as (ys & a & Ea & _).
  assert (Eb : exists b zs, l2 ++ [h] = b :: zs) by (destruct l2 as [|b l2]; [by exists h, []|by exists b, (l2 ++ [h])]). destruct Eb as (b & zs & Eb).
  replace (h :: (l1 ++ e :: l2) ++ [h]) with (ys ++ a :: e :: b :: zs) in HR.
  2:{ rewrite <- Eb, <- app_assoc. cbn [app]. rewrite (app_comm_cons l1), Ea, <- app_assoc. done. }
  replace (h :: (l1 ++ l2) ++ [h]) with (ys ++ a :: b :: zs).
  2:{ rewrite <- Eb, <- app_assoc, (app_comm_cons l1), Ea, <- app_assoc. done. }
  apply seg_app in HR as [H1 H2]. rewrite !seg_cons in H2. destruct H2 as (Hae & Hea & Heb & Hbe & H3).
  assert (Ha : a ∈ h :: l1) by (rewrite Ea; set_solver).
  assert (Hb : b ∈ h :: l2) by (assert (b ∈ l2 ++ [h]) by (rewrite Eb; set_solver); set_solver).
  exists a, b. split_and!; [done..|]. rewrite app_comm_cons, Ea in HN. rewrite <- app_assoc in HN. cbn [app] in HN. apply NoDup_app in HN as (HN1 & HN2 & HN3).
  apply NoDup_cons in HN3 as [HN3 HN4]. apply NoDup_cons in HN4 as [HN4 HN5].
  apply seg_app. split; [|apply seg_cons; split; [by rewrite lookup_insert_eq|split; [by rewrite lookup_insert_eq|]]].
  - apply (seg_frame nx pv); [| |done].
    + intros x Hx. rewrite removelast_app1 in Hx. rewrite lookup_insert_ne; [done|]. intros <-. apply (HN2 a Hx). set_solver.
    + intros x Hx. rewrite lookup_insert_ne; [done|]. intros <-.
      assert (Hbl : b ∈ l1) by (rewrite <- Ea in Hx; exact Hx).
      assert (Hby : h :: l1 = ys ++ [a]) by done. apply elem_of_cons in Hb as [->|Hb].
      * assert (NoDup (h :: l1)) as [Hh _]%NoDup_cons; [|done]. rewrite Hby. apply NoDup_app. split; [done|]. split; [|apply NoDup_singleton].
        intros x Hx' Hy. apply (HN2 x Hx'). set_solver.
      * assert (b ∈ ys ++ [a]) as [Hy|Hy]%elem_of_app by (rewrite <- Hby; set_solver).
        -- apply (HN2 b Hy). set_solver.
        -- apply list_elem_of_singleton in Hy as ->. set_solver.
  - apply (seg_frame nx pv); [| |done].
    + intros x Hx. rewrite <- Eb, removelast_app1 in Hx. rewrite lookup_insert_ne; [done|]. intros <-. set_solver.
    + intros x Hx. rewrite lookup_insert_ne; [done|]. intros <-. cbn [tail] in Hx. destruct l2 as [|y l2].
      * injection Eb as <- <-. set_solver.
      * injection Eb as <- <-. apply NoDup_cons in HN5 as [HN5 _]. apply elem_of_app in Hx as [Hx|Hx]; [done|].
        apply list_elem_of_singleton in Hx as ->. assert (h ∈ ys ++ [a]) as [Hy|Hy]%elem_of_app by (rewrite <- Ea; set_solver).
        -- apply (HN2 h Hy). set_solver.
        -- apply list_elem_of_singleton in Hy as <-. set_solver.
Qed.

(** [LRU_Append] on the maps. *)
Lemma ring_append nx pv h l e : NoDup (h :: l) -> e ∉ h :: l -> ring nx pv h l ->
  exists a, pv !! h = Some a /\ a ∈ h :: l /\ ring (<[a := e]> (<[e := h]> nx)) (<[h := e]> (<[e := a]> pv)) h (l ++ [e]).
Proof.
  intros HN He HR. pose proof (ring_last _ _ _ _ HR) as Hl. unfold ring in *. destruct (snoc_last h l) as (ys & a & Ea & Hlast). rewrite <- Hlast in Hl.
  exists a. split; [done|]. assert (Ha : a ∈ h :: l) by (rewrite Ea; set_solver). split; [done|].
  rewrite app_comm_cons, Ea, <- app_assoc in HR. cbn [app] in HR. apply seg_app in HR as [H1 H2].
  replace (h :: (l ++ [e]) ++ [h]) with (ys ++ a :: e :: [h]) by (rewrite <- app_assoc, (app_comm_cons l), Ea, <- app_assoc; done).
  assert (Hae : a <> e) by set_solver. assert (Hhe : h <> e) by set_solver. apply seg_app. split.
  - apply (seg_frame nx pv); [| |done].
    + intros x Hx. rewrite removelast_app1 in Hx. rewrite Ea in HN. apply NoDup_app in HN as (_ & HN & _).
      assert (x <> a) by (intros ->; apply (HN a Hx); set_solver). assert (x <> e) by (intros ->; rewrite Ea in He; set_solver).
      by rewrite !lookup_insert_ne by done.
    + intros x Hx. rewrite <- Ea in Hx. cbn [tail] in Hx. apply NoDup_cons in HN as [HN _].
      assert (x <> h) by (by intros ->). assert (x <> e) by set_solver. by rewrite !lookup_insert_ne by done.
  - cbn [seg]. rewrite lookup_insert_eq. split; [done|]. rewrite lookup_insert_ne, lookup_insert_eq by done. split; [done|].
    rewrite lookup_insert_ne, lookup_insert_eq by done. by rewrite lookup_insert_eq.
Qed.
End Ring.

Section Cache.
Context {V : Type}.
Abbreviation C := (LRUCache V).
Abbreviation Handle := (LRUHandle V).
Implicit Types (c : C) (es : gmap nat Handle) (T : list (list nat)).

(** What the operations on the lists and on the table leave alone. *)
Definition set_links c (nx pv : gmap nat nat) : C :=
  Build_LRUCache (capacity_ c) (usage_ c) (table_ c) nx pv (entries c) (deleted c).
Definition set_tab c (t : HandleTable) es : C :=
  Build_LRUCache (capacity_ c) (usage_ c) t (nexts c) (prevs c) es (deleted c).

(** Unfolds a straight line of memory operations. *)
Ltac fields := cbn [capacity_ usage_ table_ nexts prevs entries deleted length_ elems_ list_ set_links set_tab].
Ltac run := unfold set_entry; unfold get_next, get_prev, set_next, set_prev, entry, set_entries, set_usage, set_table; unfold bind, get, need; unfold ret, undef; fields.

Ltac step E := rewrite E; fields.

(** * [LRU_Remove] and [LRU_Append] *)

Lemma LRU_Remove_spec c h l1 e l2 : NoDup (h :: l1 ++ e :: l2) -> ring (nexts c) (prevs c) h (l1 ++ e :: l2) ->
  exists nx pv, LRU_Remove e c = Ret (tt, set_links c nx pv) /\ ring nx pv h (l1 ++ l2) /\
    forall x, x ∉ h :: l1 ++ l2 -> nx !! x = nexts c !! x /\ pv !! x = prevs c !! x.
Proof.
  intros HN HR. destruct (ring_remove _ _ h l1 e l2 HN HR) as (a & b & Hn & Hp & Ha & Hb & HR').
  assert (Hbe : b <> e) by (intros ->; apply NoDup_cons in HN as [HN1 HN2]; apply elem_of_cons in Hb as [->|Hb]; [set_solver|];
    apply NoDup_app in HN2 as (_ & _ & HN2); apply NoDup_cons in HN2 as [HN2 _]; done).
  eexists _, _. split; [|split; [exact HR'|]].
  - unfold LRU_Remove. run. step Hn. step Hp. rewrite lookup_insert_ne by done. step Hp. step Hn. done.
  - intros x Hx. rewrite !lookup_insert_ne; [done|..]; set_solver.
Qed.

Lemma LRU_Append_spec c h l e : NoDup (h :: l) -> e ∉ h :: l -> ring (nexts c) (prevs c) h l ->
  exists nx pv, LRU_Append h e c = Ret (tt, set_links c nx pv) /\ ring nx pv h (l ++ [e]) /\
    forall x, x ∉ h :: l ++ [e] -> nx !! x = nexts c !! x /\ pv !! x = prevs c !! x.
Proof.
  intros HN He HR. destruct (ring_append _ _ h l e HN He HR) as (a & Hp & Ha & HR').
  assert (Hae : a <> e) by set_solver. assert (Hhe : h <> e) by set_solver.
  eexists _, _. split; [|split; [exact HR'|]].
  - unfold LRU_Append. run. step Hp. rewrite lookup_insert_eq. fields.
    rewrite lookup_insert_ne, lookup_insert_eq by done. done.
  - intros x Hx. rewrite !lookup_insert_ne; [done|..]; set_solver.
Qed.

(** * Chains *)

Fixpoint chain es (p : nat) (l : list nat) : Prop :=
  match l with
  | [] => p = 0%nat
  | a :: l => p = a /\ a <> 0%nat /\ exists h, es !! a = Some h /\ chain es (next_hash h) l
  end.

Lemma chain_frame es es' p l : (forall a, a ∈ l -> next_hash <$> es' !! a = next_hash <$> es !! a) -> chain es p l -> chain es' p l.
Proof.
  revert p. induction l as [|a l IH]; intros p Hf; [done|]. intros (-> & Ha & h & Eh & Hc). split; [done|]. split; [done|].
  pose proof (Hf a ltac:(set_solver)) as E. rewrite Eh in E. destruct (es' !! a) as [h'|] eqn:Eh'; [|done]. cbn in E. injection E as E.
  exists h'. split; [done|]. rewrite E. apply IH; [|done]. set_solver.
Qed.

(** The slot after these nodes of a bucket. *)
Definition slot_at (i : nat) (l1 : list nat) : slot := match last l1 with None => Bucket i | Some b => NextHash b end.

Lemma slot_at_snoc i l1 a : slot_at i (l1 ++ [a]) = NextHash a.
Proof. unfold slot_at. by rewrite last_snoc. Qed.

Lemma chain_after es p l1 b l2 : chain es p (l1 ++ b :: l2) -> exists h, es !! b = Some h /\ chain es (next_hash h) l2.
Proof.
  revert p. induction l1 as [|x l1 IH]; intros p; cbn [app chain]; [intros (_ & _ & h & Eh & Hc); by exists h|].
  intros (_ & _ & h & _ & Hc). by apply (IH (next_hash h)).
Qed.

Lemma read_slot_spec c i p l1 l2 : list_ (table_ c) !! i = Some p -> chain (entries c) p (l1 ++ l2) ->
  exists q, read_slot (slot_at i l1) c = Ret (q, c) /\ chain (entries c) q l2.
Proof.
  intros Hi Hc. destruct l1 as [|b l1 _] using rev_ind.
  - exists p. split; [|done]. unfold slot_at. cbn [last read_slot]. run. by rewrite Hi.
  - rewrite slot_at_snoc. rewrite <- app_assoc in Hc. destruct (chain_after _ _ _ _ _ Hc) as (h & Eh & Hc').
    exists (next_hash h). split; [|done]. cbn [read_slot]. run. by rewrite Eh.
Qed.

(** An entry with this key. *)
Definition matches es (key : Slice) (hsh : Z) (a : nat) : Prop := exists h, es !! a = Some h /\ hash h = hsh /\ key_data h = key.

(** [key()] does not fail. *)
Definition linked c (a : nat) : Prop := exists n, nexts c !! a = Some n /\ n <> a.

Lemma handle_key_spec c a h : entries c !! a = Some h -> linked c a -> handle_key a c = Ret (key_data h, c).
Proof.
  intros Eh (n & En & Hn). unfold handle_key. run. rewrite Eh, En. by destruct (Nat.eqb_spec n a).
Qed.

Lemma FindPointer_loop_spec c i p key hsh fuel : list_ (table_ c) !! i = Some p -> forall l1 l2,
  chain (entries c) p (l1 ++ l2) -> (length l2 < fuel)%nat -> (forall a, a ∈ l2 -> linked c a) -> (forall a, a ∈ l1 -> ~ matches (entries c) key hsh a) ->
  exists m1 m2, l1 ++ l2 = m1 ++ m2 /\ FindPointer_loop fuel key hsh (slot_at i l1) c = Ret (slot_at i m1, c) /\
    (forall a, a ∈ m1 -> ~ matches (entries c) key hsh a) /\ match m2 with [] => True | a :: _ => matches (entries c) key hsh a end.
Proof.
  intros Hi. induction fuel as [|fuel IH]; intros l1 l2 Hc Hf Hl Hno; [lia|].
  destruct (read_slot_spec c i p l1 l2 Hi Hc) as (q & Eq & Hq). cbn [FindPointer_loop]. rewrite (bind_eq _ _ _ _ _ Eq).
  destruct l2 as [|a l2].
  - cbn in Hq. subst q. exists l1, []. done.
  - destruct Hq as (-> & Ha & h & Eh & Hq). destruct (Nat.eqb_spec a 0); [done|].
    rewrite (bind_eq (entry a) _ c h c) by (run; by rewrite Eh).
    pose proof (handle_key_spec c a h Eh (Hl a ltac:(set_solver))) as Ek.
    assert (Ed : exists d : bool, (if negb (hash h =? hsh) then ret true else let* k := handle_key a in ret (negb (Slice_eq key k))) c = Ret (d, c) /\
      (d = false <-> matches (entries c) key hsh a)).
    { destruct (Z.eqb_spec (hash h) hsh) as [E1|E1]; cbn [negb].
      - rewrite (bind_eq _ _ _ _ _ Ek). eexists. split; [reflexivity|]. rewrite negb_false_iff, Slice_eq_iff. unfold matches. split.
        + intros ->. by exists h.
        + intros (h' & Eh' & _ & <-). by rewrite Eh in Eh'; injection Eh' as <-.
      - exists true. split; [done|]. split; [done|]. intros (h' & Eh' & <- & _). rewrite Eh in Eh'. by injection Eh' as <-. }
    destruct Ed as (d & Ed & Hd). rewrite (bind_eq _ _ _ _ _ Ed). destruct d.
    + destruct (IH (l1 ++ [a]) l2) as (m1 & m2 & Em & E & Hm1 & Hm2).
      * by rewrite <- app_assoc.
      * cbn [length] in Hf. lia.
      * set_solver.
      * intros x [Hx|Hx%list_elem_of_singleton]%elem_of_app; [by apply Hno|]. subst x. intros Hm. by apply Hd in Hm.
      * rewrite slot_at_snoc in E. exists m1, m2. by rewrite <- Em, <- app_assoc.
    + exists l1, (a :: l2). split; [done|]. split; [done|]. split; [done|]. by apply Hd.
Qed.
(** * The table *)

(** Nothing but [next_hash] differs. *)
Definition same_info es es' : Prop := forall a, with_next_hash 0 <$> es' !! a = with_next_hash 0 <$> es !! a.

Lemma same_info_refl es : same_info es es.
Proof. done. Qed.

Lemma same_info_trans es1 es2 es3 : same_info es1 es2 -> same_info es2 es3 -> same_info es1 es3.
Proof. intros H1 H2 a. by rewrite H2, H1. Qed.

Lemma same_info_lookup es es' a h : same_info es es' -> es !! a = Some h -> exists n, es' !! a = Some (with_next_hash n h).
Proof.
  intros Hs Eh. specialize (Hs a). rewrite Eh in Hs. destruct (es' !! a) as [h'|]; [|done]. cbn in Hs. exists (next_hash h').
  destruct h, h'. cbn in Hs. injection Hs. intros. by subst.
Qed.

Lemma same_info_sym es es' : same_info es es' -> same_info es' es.
Proof. intros H a. by rewrite H. Qed.

Lemma same_info_insert es p h n : es !! p = Some h -> same_info es (<[p := with_next_hash n h]> es).
Proof.
  intros Eh a. destruct (decide (a = p)) as [->|]; [|by rewrite lookup_insert_ne]. rewrite lookup_insert_eq, Eh. by destruct h.
Qed.

Lemma same_info_dom es es' : same_info es es' -> dom es' = dom es.
Proof.
  intros Hs. apply set_eq. intros a. rewrite !elem_of_dom. specialize (Hs a).
  destruct (es' !! a), (es !! a); try done; split; intros [? ?]; done.
Qed.

Lemma matches_same es es' key hsh a : same_info es es' -> matches es key hsh a <-> matches es' key hsh a.
Proof.
  intros Hs. split; intros (h & Eh & H1 & H2).
  - destruct (same_info_lookup _ _ _ _ Hs Eh) as (n & En). eexists. split; [exact En|]. by destruct h.
  - destruct (same_info_lookup _ _ _ _ (same_info_sym _ _ Hs) Eh) as (n & En). eexists. split; [exact En|]. by destruct h.
Qed.

(** The chains [T] of the table. *)
Record TableOk es (t : HandleTable) T : Prop := {
  to_len : length (list_ t) = length T /\ length_ t = Z.of_nat (length T);
  to_pow : exists k, 2 <= k <= 31 /\ length_ t = 2 ^ k;
  to_chain i l : T !! i = Some l -> exists p, list_ t !! i = Some p /\ chain es p l;
  to_bucket i l a : T !! i = Some l -> a ∈ l -> exists h, es !! a = Some h /\ 0 <= hash h < 2 ^ 32 /\ bucket_of (hash h) (length_ t) = i;
  to_nodup : NoDup (concat T);
  to_elems : elems_ t = Z.of_nat (length (concat T))
}.

Lemma bucket_of_range hsh k : 0 <= k <= 31 -> 0 <= hsh -> (Z.of_nat (bucket_of hsh (2 ^ k)) < 2 ^ k) /\ Z.of_nat (bucket_of hsh (2 ^ k)) = hsh mod 2 ^ k.
Proof.
  intros Hk Hh. assert (Hp : 1 <= 2 ^ k <= 2 ^ 31) by (split; [apply (Z.pow_le_mono_r 2 0 k); lia|apply Z.pow_le_mono_r; lia]).
  unfold bucket_of. rewrite wrap_small by lia. rewrite <- Z.ones_equiv || (replace (2 ^ k - 1) with (Z.ones k) by (rewrite Z.ones_equiv; lia)).
  rewrite Z.land_ones by lia. pose proof (Z.mod_pos_bound hsh (2 ^ k) ltac:(lia)). lia.
Qed.

Lemma in_chain_concat T i l a : T !! i = Some l -> a ∈ l -> a ∈ concat T.
Proof. intros Hi Ha. apply list_elem_of_In, in_concat. exists l. split; apply list_elem_of_In; [by eapply list_elem_of_lookup_2|done]. Qed.

Lemma concat_in_chain T a : a ∈ concat T -> exists i l, T !! i = Some l /\ a ∈ l.
Proof.
  intros Ha. apply list_elem_of_In, in_concat in Ha as (l & Hl & Ha). apply list_elem_of_In in Hl, Ha.
  apply list_elem_of_lookup in Hl as (i & Hl). by exists i, l.
Qed.

Lemma concat_length_lt es T : NoDup (concat T) -> (forall a, a ∈ concat T -> is_Some (es !! a)) -> (length (concat T) <= base.size es)%nat.
Proof.
  intros HN Hs. rewrite <- (size_list_to_set (C := gset nat) (concat T) HN), <- size_dom. apply subseteq_size.
  intros a Ha. apply elem_of_list_to_set in Ha. apply elem_of_dom. by apply Hs.
Qed.

Lemma table_entries es t T a : TableOk es t T -> a ∈ concat T -> exists h, es !! a = Some h /\ 0 <= hash h < 2 ^ 32.
Proof. intros HT Ha. destruct (concat_in_chain T a Ha) as (i & l & Hi & Hl). destruct (to_bucket _ _ _ HT i l a Hi Hl) as (h & Eh & Hh & _). by exists h. Qed.

Lemma bucket_lookup es t T hsh : TableOk es t T -> 0 <= hsh -> exists l, T !! bucket_of hsh (length_ t) = Some l.
Proof.
  intros HT Hh. destruct (to_pow _ _ _ HT) as (k & Hk & Ek). destruct (to_len _ _ _ HT) as [_ El].
  destruct (bucket_of_range hsh k ltac:(lia) Hh) as [Hb _]. rewrite Ek in *. destruct (lookup_lt_is_Some_2 T (bucket_of hsh (2 ^ k))) as [l Hl]; [lia|]. by exists l.
Qed.

(** [FindPointer] stops before the entry with the key, or at the end of the
    chain where it would be. *)
Lemma FindPointer_spec c T key hsh : TableOk (entries c) (table_ c) T -> 0 <= hsh -> (forall a, a ∈ concat T -> linked c a) ->
  exists m1 m2, T !! bucket_of hsh (length_ (table_ c)) = Some (m1 ++ m2) /\
    FindPointer key hsh c = Ret (slot_at (bucket_of hsh (length_ (table_ c))) m1, c) /\
    (forall a, a ∈ m1 -> ~ matches (entries c) key hsh a) /\ match m2 with [] => True | a :: _ => matches (entries c) key hsh a end.
Proof.
  intros HT Hh Hl. destruct (bucket_lookup _ _ _ hsh HT Hh) as (l & El). destruct (to_chain _ _ _ HT _ l El) as (p & Ep & Hc).
  set (i := bucket_of _ _) in *. destruct (FindPointer_loop_spec c i p key hsh (chain_fuel c) Ep [] l Hc) as (m1 & m2 & Em & E & H1 & H2).
  - assert (Hlen : (length l <= length (concat T))%nat).
    { rewrite <- (take_drop i T), (drop_S _ _ _ El), concat_app. cbn [concat]. rewrite !length_app. lia. }
    pose proof (concat_length_lt (entries c) T (to_nodup _ _ _ HT)) as Hs. unfold chain_fuel. cut (length (concat T) <= base.size (entries c))%nat; [lia|].
    apply Hs. intros a Ha. destruct (table_entries _ _ _ a HT Ha) as (h & Eh & _). by exists h.
  - intros a Ha. by apply Hl, (in_chain_concat T i l).
  - set_solver.
  - cbn [app] in Em. subst l. exists m1, m2. split; [done|]. split; [|done]. unfold FindPointer. run. exact E.
Qed.

(** No entry elsewhere has the key. *)
Lemma matches_bucket es t T key hsh a i l : TableOk es t T -> T !! i = Some l -> a ∈ l -> matches es key hsh a -> i = bucket_of hsh (length_ t).
Proof.
  intros HT Hi Ha (h & Eh & Hh & _). destruct (to_bucket _ _ _ HT i l a Hi Ha) as (h' & Eh' & _ & Hb). rewrite Eh in Eh'. injection Eh' as <-. congruence.
Qed.
(** ** Changing a chain *)

Lemma concat_split T i l : T !! i = Some l -> exists rest, concat T ≡ₚ l ++ rest /\ forall l', concat (<[i := l']> T) ≡ₚ l' ++ rest.
Proof.
  intros Hi. pose proof (lookup_lt_Some _ _ _ Hi) as Hlt. exists (concat (take i T) ++ concat (drop (S i) T)). split.
  - rewrite <- (take_drop i T) at 1. rewrite (drop_S _ _ _ Hi), concat_app. cbn [concat]. solve_Permutation.
  - intros l'. rewrite insert_take_drop, concat_app by done. cbn [concat]. solve_Permutation.
Qed.

Lemma chains_disjoint es t T i j l l' a : TableOk es t T -> T !! i = Some l -> T !! j = Some l' -> a ∈ l -> a ∈ l' -> i = j.
Proof.
  intros HT Hi Hj Ha Ha'. destruct (to_bucket _ _ _ HT i l a Hi Ha) as (h & Eh & _ & B1). destruct (to_bucket _ _ _ HT j l' a Hj Ha') as (h' & Eh' & _ & B2).
  rewrite Eh in Eh'. injection Eh' as <-. congruence.
Qed.

Lemma table_update es t T es' t' i l lnew :
  TableOk es t T -> T !! i = Some l -> same_info es es' -> length_ t' = length_ t -> length (list_ t') = length (list_ t) ->
  (exists p, list_ t' !! i = Some p /\ chain es' p lnew) -> (forall j, j <> i -> list_ t' !! j = list_ t !! j) ->
  (forall a, a ∉ l -> a ∉ lnew -> es' !! a = es !! a) -> NoDup lnew ->
  (forall a, a ∈ lnew -> a ∈ l \/ (a ∉ concat T /\ exists h, es !! a = Some h /\ 0 <= hash h < 2 ^ 32 /\ bucket_of (hash h) (length_ t) = i)) ->
  elems_ t' = Z.of_nat (length (concat (<[i := lnew]> T))) -> TableOk es' t' (<[i := lnew]> T).
Proof.
  intros HT Hi Hs Hl1 Hl2 Hp Hj Hes HN Hnew Hel. pose proof (lookup_lt_Some _ _ _ Hi) as Hlt.
  destruct (concat_split T i l Hi) as (rest & Hrest & Hrest'). pose proof (to_nodup _ _ _ HT) as HNT. rewrite Hrest in HNT.
  apply NoDup_app in HNT as (HNl & Hdis & HNr). constructor.
  - rewrite length_insert, Hl1, Hl2. apply (to_len _ _ _ HT).
  - rewrite Hl1. apply (to_pow _ _ _ HT).
  - intros j l' Hl'. destruct (decide (j = i)) as [->|Hne].
    + rewrite list_lookup_insert_eq in Hl' by done. by injection Hl' as <-.
    + rewrite list_lookup_insert_ne in Hl' by done. destruct (to_chain _ _ _ HT j l' Hl') as (q & Hq & Hc). exists q. rewrite Hj by done. split; [done|].
      apply (chain_frame es); [|done]. intros a Ha. rewrite Hes; [done|..].
      * intros Hal. by apply Hne, (chains_disjoint es t T j i l' l a).
      * intros Han. destruct (Hnew a Han) as [Hal|[Hno _]]; [by apply Hne, (chains_disjoint es t T j i l' l a)|].
        by apply Hno, (in_chain_concat T j l').
  - intros j l' a Hl' Ha. rewrite Hl1.
    assert (Hb : exists h, es !! a = Some h /\ 0 <= hash h < 2 ^ 32 /\ bucket_of (hash h) (length_ t) = j).
    { destruct (decide (j = i)) as [->|Hne].
      - rewrite list_lookup_insert_eq in Hl' by done. injection Hl' as <-. destruct (Hnew a Ha) as [Hal|[_ Hh]]; [|done]. by apply (to_bucket _ _ _ HT i l).
      - rewrite list_lookup_insert_ne in Hl' by done. by apply (to_bucket _ _ _ HT j l'). }
    destruct Hb as (h & Eh & Hh & Hb). destruct (same_info_lookup _ _ _ _ Hs Eh) as (n & En). eexists. split; [exact En|]. by destruct h.
  - rewrite Hrest'. apply NoDup_app. split; [done|]. split; [|done]. intros a Ha Hr. destruct (Hnew a Ha) as [Hal|[Hno _]]; [by apply (Hdis a Hal)|].
    apply Hno. rewrite Hrest. apply elem_of_app. by right.
  - done.
Qed.

Lemma write_slot_spec c i p l1 l2 q l' : list_ (table_ c) !! i = Some p -> chain (entries c) p (l1 ++ l2) -> NoDup l1 ->
  chain (entries c) q l' -> (forall a, a ∈ l1 -> a ∉ l') ->
  exists t' es', write_slot (slot_at i l1) q c = Ret (tt, set_tab c t' es') /\ length_ t' = length_ (table_ c) /\ elems_ t' = elems_ (table_ c) /\
    length (list_ t') = length (list_ (table_ c)) /\ (exists p', list_ t' !! i = Some p' /\ chain es' p' (l1 ++ l')) /\
    (forall j, j <> i -> list_ t' !! j = list_ (table_ c) !! j) /\ same_info (entries c) es' /\ (forall a, a ∉ l1 -> es' !! a = entries c !! a).
Proof.
  intros Hi Hc HN Hq Hdis. destruct l1 as [|b l1 _] using rev_ind.
  - eexists _, (entries c). unfold slot_at. cbn [last write_slot]. run. rewrite Hi. split; [reflexivity|]. fields. rewrite length_insert.
    split_and!; [done..| |by intros; rewrite list_lookup_insert_ne|done|done].
    exists q. split; [|done]. apply list_lookup_insert_eq. by eapply lookup_lt_Some.
  - rewrite slot_at_snoc. rewrite <- app_assoc in Hc. destruct (chain_after _ _ _ _ _ Hc) as (h & Eh & _). apply NoDup_app in HN as (HN1 & HN2 & _).
    assert (Hb : b ∉ l1) by (intros Hb; apply (HN2 b Hb); set_solver).
    eexists (table_ c), (<[b := with_next_hash q h]> (entries c)). cbn [write_slot]. run. rewrite Eh. split; [reflexivity|].
    split_and!; [done..| |done|by apply same_info_insert|intros a Ha; rewrite lookup_insert_ne; [done|set_solver]].
    exists p. split; [done|]. clear Hi HN1 HN2. revert p Hc. induction l1 as [|x l1 IH]; intros p; cbn [app chain].
    + intros (-> & Hb0 & _). split; [done|]. split; [done|]. eexists. split; [apply lookup_insert_eq|]. cbn [next_hash with_next_hash].
      apply (chain_frame (entries c)); [|done]. intros a Ha. rewrite lookup_insert_ne; [done|]. intros <-. by apply (Hdis b ltac:(set_solver)).
    + intros (-> & Hx0 & hx & Ehx & Hcx). split; [done|]. split; [done|]. exists hx. split; [rewrite lookup_insert_ne; [done|set_solver]|].
      apply IH; [|set_solver|done]. intros a Ha. apply Hdis. set_solver.
Qed.
(** ** [Resize] *)

Lemma grow_spec elems fuel : forall k, 2 <= k <= 31 -> (Z.to_nat (31 - k) < fuel)%nat -> elems <= 2 ^ 31 ->
  exists k', k <= k' <= 31 /\ grow fuel (2 ^ k) elems = Some (2 ^ k') /\ elems <= 2 ^ k'.
Proof.
  induction fuel as [|fuel IH]; intros k Hk Hf He; [lia|]. cbn [grow]. destruct (Z.ltb_spec (2 ^ k) elems) as [Hlt|Hge].
  - assert (k < 31) by (destruct (Z.eq_dec k 31); [subst k; lia|lia]).
    replace (u32 (2 ^ k * 2)) with (2 ^ (k + 1)).
    2:{ rewrite Z.pow_add_r by lia. change (2 ^ 1) with 2. symmetry. apply wrap_small. split; [apply Z.mul_nonneg_nonneg; [apply Z.pow_nonneg; lia|lia]|].
        change 32 with (31 + 1). rewrite Z.pow_add_r by lia. assert (2 ^ k < 2 ^ 31) by (apply Z.pow_lt_mono_r; lia). lia. }
    destruct (IH (k + 1)) as (k' & Hk' & E & Hle); [lia|lia|done|]. exists k'. split; [lia|done].
  - exists k. by split; [lia|].
Qed.

Definition new_table (k : Z) (nl : list nat) (T : list (list nat)) : HandleTable :=
  {| length_ := 2 ^ k; elems_ := Z.of_nat (length (concat T)); list_ := nl |}.

Lemma set_tab_id c : set_tab c (table_ c) (entries c) = c.
Proof. by destruct c. Qed.

Lemma rehash_chain_spec k fuel : forall rem p c nl NT,
  chain (entries c) p rem -> TableOk (entries c) (new_table k nl NT) NT -> NoDup (rem ++ concat NT) ->
  (forall a, a ∈ rem -> exists h, entries c !! a = Some h /\ 0 <= hash h < 2 ^ 32) -> (length rem < fuel)%nat ->
  Z.of_nat (length (rem ++ concat NT)) < 2 ^ 32 ->
  exists nl' NT' es', rehash_chain fuel p (2 ^ k) nl (Z.of_nat (length (concat NT))) c =
      Ret ((nl', Z.of_nat (length (concat NT'))), set_tab c (table_ c) es') /\
    TableOk es' (new_table k nl' NT') NT' /\ concat NT' ≡ₚ rem ++ concat NT /\ same_info (entries c) es' /\
    forall a, a ∉ rem -> es' !! a = entries c !! a.
Proof.
  induction fuel as [|fuel IH]; intros rem p c nl NT Hc HT HN Hh Hf Hlen; [lia|]. cbn [rehash_chain].
  destruct rem as [|a rem].
  - cbn in Hc. subst p. exists nl, NT, (entries c). rewrite set_tab_id. done.
  - destruct Hc as (-> & Ha & h & Eh & Hc). destruct (Nat.eqb_spec a 0); [done|]. rewrite (bind_eq (entry a) _ c h c) by (run; by rewrite Eh).
    destruct (Hh a ltac:(set_solver)) as (h' & Eh' & Hr). rewrite Eh in Eh'. injection Eh' as <-.
    destruct (bucket_lookup _ _ _ (hash h) HT ltac:(lia)) as (l & El). cbn [length_ new_table] in El. set (i := bucket_of (hash h) (2 ^ k)) in *.
    destruct (to_chain _ _ _ HT i l El) as (q & Hq & Hcl). cbn [list_ new_table] in Hq. rewrite Hq. cbn [need].
    rewrite (bind_eq (ret q) _ c q c eq_refl). set (es1 := <[a := with_next_hash q h]> (entries c)).
    rewrite (bind_eq (set_entry a (with_next_hash q h)) _ c tt (set_tab c (table_ c) es1)) by done.
    cbn [app] in HN. apply NoDup_cons in HN as [HN1 HN2]. assert (Hal : a ∉ l) by (intros Hal; apply HN1, elem_of_app; right; by apply (in_chain_concat NT i l)).
    destruct (concat_split NT i l El) as (rest & Hrest & Hrest'). pose proof (to_nodup _ _ _ HT) as HNT. rewrite Hrest in HNT.
    assert (HT1 : TableOk es1 (new_table k (<[i := a]> nl) (<[i := a :: l]> NT)) (<[i := a :: l]> NT)).
    { apply (table_update (entries c) (new_table k nl NT) NT _ _ i l); [done|done|by apply same_info_insert|done|cbn; by rewrite length_insert| | | | | |].
      - exists a. split; [apply list_lookup_insert_eq; by eapply lookup_lt_Some|]. split; [done|]. split; [done|]. eexists. split; [apply lookup_insert_eq|].
        apply (chain_frame (entries c)); [|done]. intros x Hx. unfold es1. rewrite lookup_insert_ne; [done|]. by intros <-.
      - intros j Hj. cbn. by rewrite list_lookup_insert_ne.
      - intros x _ Hx. unfold es1. rewrite lookup_insert_ne; [done|set_solver].
      - apply NoDup_cons. split; [done|]. by apply NoDup_app in HNT as (HNT & _).
      - intros x [->|Hx]%elem_of_cons; [|by left]. right. split; [set_solver|]. by exists h.
      - done. }
    assert (Hlen' : length (concat (<[i:=a :: l]> NT)) = S (length (concat NT))) by (rewrite Hrest, Hrest'; done).
    replace (u32 (Z.of_nat (length (concat NT)) + 1)) with (Z.of_nat (length (concat (<[i:=a :: l]> NT)))).
    2:{ rewrite Hlen'. cbn [app length] in Hlen. rewrite length_app in Hlen. rewrite wrap_small by lia. lia. }
    destruct (IH rem (next_hash h) (set_tab c (table_ c) es1) (<[i := a]> nl) (<[i := a :: l]> NT)) as (nl' & NT' & es' & E & HT' & HP & HS & Hout).
    + fields. apply (chain_frame (entries c)); [|done]. intros x Hx. unfold es1. rewrite lookup_insert_ne; [done|]. intros <-. set_solver.
    + done.
    + rewrite Hrest'. rewrite Hrest in HN1, HN2. apply (NoDup_Permutation_proper _ (a :: rem ++ l ++ rest)); [solve_Permutation|]. by apply NoDup_cons.
    + fields. intros x Hx. destruct (Hh x ltac:(set_solver)) as (hx & Ex & Hrx). exists hx. split; [|done]. unfold es1.
      rewrite lookup_insert_ne; [done|]. intros <-. set_solver.
    + cbn [length] in Hf. lia.
    + cbn [app length] in Hlen. rewrite length_app in Hlen |- *. rewrite Hlen'. lia.
    + exists nl', NT', es'. split; [exact E|]. split; [done|]. split; [|split].
      * rewrite HP, Hrest', Hrest. solve_Permutation.
      * fields. eapply same_info_trans; [|exact HS]. by apply same_info_insert.
      * fields. intros x Hx. rewrite Hout by set_solver. fields. unfold es1. rewrite lookup_insert_ne; [done|set_solver].
Qed.

Lemma chains_frame es es' (buckets : list nat) T : Forall2 (chain es) buckets T -> (forall a, a ∈ concat T -> es' !! a = es !! a) ->
  Forall2 (chain es') buckets T.
Proof.
  induction 1 as [|p l buckets T Hc HF IH]; intros Hf; [constructor|]. cbn [concat] in Hf. constructor.
  - apply (chain_frame es); [|done]. intros a Ha. rewrite Hf; [done|set_solver].
  - apply IH. intros a Ha. apply Hf. set_solver.
Qed.

Lemma rehash_spec k (buckets : list nat) : forall T c nl NT,
  Forall2 (chain (entries c)) buckets T -> TableOk (entries c) (new_table k nl NT) NT -> NoDup (concat T ++ concat NT) ->
  (forall a, a ∈ concat T -> exists h, entries c !! a = Some h /\ 0 <= hash h < 2 ^ 32) -> Z.of_nat (length (concat T ++ concat NT)) < 2 ^ 32 ->
  exists nl' NT' es', rehash buckets (2 ^ k) nl (Z.of_nat (length (concat NT))) c =
      Ret ((nl', Z.of_nat (length (concat NT'))), set_tab c (table_ c) es') /\
    TableOk es' (new_table k nl' NT') NT' /\ concat NT' ≡ₚ concat T ++ concat NT /\ same_info (entries c) es'.
Proof.
  induction buckets as [|p buckets IH]; intros T c nl NT HF HT HN Hh Hlen.
  - apply Forall2_nil_inv_l in HF as ->. exists nl, NT, (entries c). rewrite set_tab_id. done.
  - apply Forall2_cons_inv_l in HF as (l & T' & Hl & HF & ->). cbn [concat] in *. rewrite <- app_assoc in HN, Hlen.
    pose proof HN as HN'. apply NoDup_app in HN' as (HNl & Hdl & HN2). apply NoDup_app in HN2 as (HN2 & HN3 & HN4).
    cbn [rehash]. unfold bind at 1, get at 1.
    destruct (rehash_chain_spec k (chain_fuel c) l p c nl NT Hl HT) as (nl1 & NT1 & es1 & E1 & HT1 & HP1 & HS1 & Hout1).
    { apply NoDup_app. split; [done|]. split; [|done]. intros x Hx Hx'. apply (Hdl x Hx). set_solver. }
    { intros a Ha. apply Hh. set_solver. }
    { unfold chain_fuel. pose proof (concat_length_lt (entries c) [l]) as Hs. cbn [concat] in Hs. rewrite app_nil_r in Hs.
      cut (length l <= base.size (entries c))%nat; [lia|]. apply Hs; [done|]. intros a Ha. destruct (Hh a ltac:(set_solver)) as (h & Eh & _). by exists h. }
    { rewrite !length_app in Hlen. rewrite length_app. lia. }
    rewrite (bind_eq _ _ _ _ _ E1).
    destruct (IH T' (set_tab c (table_ c) es1) nl1 NT1) as (nl2 & NT2 & es2 & E2 & HT2 & HP2 & HS2).
    { fields. apply (chains_frame (entries c)); [done|]. intros a Ha. apply Hout1. intros Hal. apply (Hdl a Hal). set_solver. }
    { done. }
    { rewrite HP1. apply (NoDup_Permutation_proper _ (l ++ concat T' ++ concat NT)); [solve_Permutation|done]. }
    { fields. intros a Ha. destruct (Hh a ltac:(set_solver)) as (h & Eh & Hr). destruct (same_info_lookup _ _ _ _ HS1 Eh) as (n & En).
      eexists. split; [exact En|]. by destruct h. }
    { rewrite length_app, HP1. rewrite !length_app in *. lia. }
    exists nl2, NT2, es2. split; [exact E2|]. split; [done|]. split; [rewrite HP2, HP1; solve_Permutation|]. eapply same_info_trans; [exact HS1|exact HS2].
Qed.

Lemma table_chains es t T : TableOk es t T -> Forall2 (chain es) (list_ t) T.
Proof.
  intros HT. apply Forall2_same_length_lookup_2; [apply (to_len _ _ _ HT)|]. intros i p l Hp Hl.
  destruct (to_chain _ _ _ HT i l Hl) as (q & Hq & Hc). congruence.
Qed.

Lemma empty_table es k : 2 <= k <= 31 -> TableOk es (new_table k (replicate (Z.to_nat (2 ^ k)) 0%nat) (replicate (Z.to_nat (2 ^ k)) [])) (replicate (Z.to_nat (2 ^ k)) []).
Proof.
  intros Hk. assert (0 < 2 ^ k) by (apply Z.pow_pos_nonneg; lia).
  assert (Hc : concat (replicate (Z.to_nat (2 ^ k)) (@nil nat)) = []) by (induction (Z.to_nat (2 ^ k)); [done|]; by cbn).
  constructor.
  - cbn. rewrite !length_replicate. lia.
  - by exists k.
  - intros i l [-> Hi]%lookup_replicate. exists 0%nat. split; [|done]. cbn. by apply lookup_replicate.
  - intros i l a [-> Hi]%lookup_replicate Ha. by apply elem_of_nil in Ha.
  - rewrite Hc. constructor.
  - done.
Qed.

Lemma Resize_spec c T : TableOk (entries c) (table_ c) T -> Z.of_nat (length (concat T)) <= 2 ^ 31 ->
  exists t' es' T', Resize c = Ret (tt, set_tab c t' es') /\ TableOk es' t' T' /\ concat T' ≡ₚ concat T /\ same_info (entries c) es' /\
    elems_ t' <= length_ t'.
Proof.
  intros HT Hlen. unfold Resize. unfold bind at 1, get at 1. pose proof (to_elems _ _ _ HT) as Hel.
  destruct (grow_spec (elems_ (table_ c)) 33 2) as (k & Hk & E & Hle); [lia|lia|lia|]. change (2 ^ 2) with 4 in E. rewrite E.
  pose proof (empty_table (entries c) k Hk) as HE. set (nl := replicate (Z.to_nat (2 ^ k)) 0%nat) in *. set (NT := replicate (Z.to_nat (2 ^ k)) (@nil nat)) in *.
  assert (Hc0 : concat NT = []) by (unfold NT; clear; induction (Z.to_nat (2 ^ k)); [done|]; by cbn).
  destruct (rehash_spec k (list_ (table_ c)) T c nl NT) as (nl' & NT' & es' & Er & HT' & HP & HS).
  - by apply table_chains.
  - done.
  - rewrite Hc0, app_nil_r. apply (to_nodup _ _ _ HT).
  - intros a Ha. by apply (table_entries _ _ _ a HT).
  - rewrite Hc0, app_nil_r. lia.
  - rewrite Hc0 in Er. cbn [length] in Er. change (Z.of_nat 0) with 0 in Er. rewrite (bind_eq _ _ _ _ _ Er). rewrite Hc0, app_nil_r in HP. pose proof (Permutation_length HP) as HL. rewrite HL, <- Hel, Z.eqb_refl.
    exists (new_table k nl' NT'), es', NT'. split; [|split_and!; [done..|cbn; by rewrite HL, <- Hel]].
    run. unfold new_table, set_tab. by rewrite HL, <- Hel.
Qed.
(** ** The operations *)

Lemma TableOk_elems es t T n : TableOk es t T -> n = Z.of_nat (length (concat T)) -> TableOk es {| length_ := length_ t; elems_ := n; list_ := list_ t |} T.
Proof. intros [H1 H2 H3 H4 H5 H6] ->. by constructor. Qed.

Lemma table_fresh es es' t T p : TableOk es t T -> p ∉ concat T -> (forall a, a <> p -> es' !! a = es !! a) -> TableOk es' t T.
Proof.
  intros [H1 H2 H3 H4 H5 H6] Hp He. constructor; [done|done| | |done|done].
  - intros i l Hi. destruct (H3 i l Hi) as (q & Hq & Hc). exists q. split; [done|]. apply (chain_frame es); [|done].
    intros a Ha. rewrite He; [done|]. intros ->. by apply Hp, (in_chain_concat T i l).
  - intros i l a Hi Ha. destruct (H4 i l a Hi Ha) as (h & Eh & Hh). exists h. split; [|done]. rewrite He; [done|].
    intros ->. by apply Hp, (in_chain_concat T i l).
Qed.

Lemma chain_null es p l : chain es p l -> (p =? 0)%nat = match l with [] => true | _ => false end.
Proof. destruct l as [|a l]; [by intros ->|]. intros (-> & Ha & _). by apply Nat.eqb_neq. Qed.

Lemma HandleTable_Remove_spec c T key hsh : TableOk (entries c) (table_ c) T -> 0 <= hsh -> (forall a, a ∈ concat T -> linked c a) ->
  Z.of_nat (length (concat T)) < 2 ^ 32 ->
  exists r t' es' T', HandleTable_Remove key hsh c = Ret (r, set_tab c t' es') /\ TableOk es' t' T' /\ same_info (entries c) es' /\
    ((r = 0%nat /\ concat T' ≡ₚ concat T /\ forall a, a ∈ concat T -> ~ matches (entries c) key hsh a) \/
     (r <> 0%nat /\ matches (entries c) key hsh r /\ concat T ≡ₚ r :: concat T')).
Proof.
  intros HT Hh Hl Hlen. destruct (FindPointer_spec c T key hsh HT Hh Hl) as (m1 & m2 & Hi & E & Hm1 & Hm2). set (i := bucket_of _ _) in *.
  destruct (to_chain _ _ _ HT i _ Hi) as (p & Hp & Hc). destruct (read_slot_spec c i p m1 m2 Hp Hc) as (q & Eq & Hq).
  unfold HandleTable_Remove. rewrite (bind_eq _ _ _ _ _ E), (bind_eq _ _ _ _ _ Eq), (chain_null _ _ _ Hq). destruct m2 as [|a m2].
  - exists q, (table_ c), (entries c), T. rewrite set_tab_id. split; [done|]. split; [done|]. split; [done|]. left. split; [done|]. split; [done|].
    intros x Hx Hm. destruct (concat_in_chain T x Hx) as (j & l & Hj & Hxl). pose proof (matches_bucket _ _ _ _ _ _ _ _ HT Hj Hxl Hm) as ->. fold i in Hj.
    rewrite Hi in Hj. injection Hj as <-. rewrite app_nil_r in Hxl. by apply (Hm1 x).
  - destruct Hq as (-> & Ha & h & Eh & Hq). destruct (concat_split T i _ Hi) as (rest & Hrest & Hrest').
    pose proof (to_nodup _ _ _ HT) as HN. rewrite Hrest in HN. apply NoDup_app in HN as (HN & _ & _). apply NoDup_app in HN as (HN1 & HN2 & HN3).
    apply NoDup_cons in HN3 as [HN3 HN4].
    destruct (write_slot_spec c i p m1 (a :: m2) (next_hash h) m2 Hp Hc HN1 Hq ltac:(set_solver))
      as (t' & es' & Ew & L1 & L2 & L3 & L4 & L5 & L6 & L7).
    unfold bind at 1.
    rewrite (bind_eq (entry a) _ c h c) by (run; by rewrite Eh). rewrite (bind_eq _ _ _ _ _ Ew).
    eexists a, {| length_ := length_ t'; elems_ := u32 (elems_ t' + -1); list_ := list_ t' |}, es', (<[i := m1 ++ m2]> T). split; [done|].
    assert (Hlen' : length (concat T) = S (length (concat (<[i:=m1 ++ m2]> T)))) by (rewrite Hrest, Hrest', !length_app; cbn [length]; lia).
    split; [|split; [done|]].
    + apply (table_update (entries c) (table_ c) T _ _ i (m1 ++ a :: m2)); [done|done|done|done|done|done|done| | | |].
      * intros x Hx _. apply L7. set_solver.
      * apply NoDup_app. split; [done|]. split; [|done]. intros x Hx Hx'. apply (HN2 x Hx). set_solver.
      * intros x Hx. left. set_solver.
      * cbn [elems_]. rewrite L2, (to_elems _ _ _ HT), wrap_small by lia. lia.
    + right. split; [done|]. split; [done|]. rewrite Hrest, Hrest'. solve_Permutation.
Qed.

Lemma HandleTable_Lookup_spec c T key hsh : TableOk (entries c) (table_ c) T -> 0 <= hsh -> (forall a, a ∈ concat T -> linked c a) ->
  exists r, HandleTable_Lookup key hsh c = Ret (r, c) /\
    ((r = 0%nat /\ forall a, a ∈ concat T -> ~ matches (entries c) key hsh a) \/ (r <> 0%nat /\ matches (entries c) key hsh r /\ r ∈ concat T)).
Proof.
  intros HT Hh Hl. destruct (FindPointer_spec c T key hsh HT Hh Hl) as (m1 & m2 & Hi & E & Hm1 & Hm2). set (i := bucket_of _ _) in *.
  destruct (to_chain _ _ _ HT i _ Hi) as (p & Hp & Hc). destruct (read_slot_spec c i p m1 m2 Hp Hc) as (q & Eq & Hq).
  exists q. unfold HandleTable_Lookup. rewrite (bind_eq _ _ _ _ _ E). split; [done|]. destruct m2 as [|a m2].
  - left. split; [done|]. intros x Hx Hm. destruct (concat_in_chain T x Hx) as (j & l & Hj & Hxl).
    pose proof (matches_bucket _ _ _ _ _ _ _ _ HT Hj Hxl Hm) as ->. fold i in Hj.
    rewrite Hi in Hj. injection Hj as <-. rewrite app_nil_r in Hxl. by apply (Hm1 x).
  - destruct Hq as (-> & Ha & _). right. split; [done|]. split; [done|]. apply (in_chain_concat T i (m1 ++ a :: m2)); [done|set_solver].
Qed.
Lemma HandleTable_Insert_spec c T p h : TableOk (entries c) (table_ c) T -> entries c !! p = Some h -> p <> 0%nat -> p ∉ concat T ->
  0 <= hash h < 2 ^ 32 -> linked c p -> (forall a, a ∈ concat T -> linked c a) -> Z.of_nat (length (concat T)) < 2 ^ 31 ->
  exists old t' es' T', HandleTable_Insert p c = Ret (old, set_tab c t' es') /\ TableOk es' t' T' /\ same_info (entries c) es' /\
    ((old = 0%nat /\ concat T' ≡ₚ p :: concat T /\ forall a, a ∈ concat T -> ~ matches (entries c) (key_data h) (hash h) a) \/
     (old <> 0%nat /\ old ∈ concat T /\ matches (entries c) (key_data h) (hash h) old /\ p :: concat T ≡ₚ old :: concat T')).
Proof.
  intros HT Ep Hp0 Hp Hh Hlp Hl Hlen. destruct (FindPointer_spec c T (key_data h) (hash h) HT ltac:(lia) Hl) as (m1 & m2 & Hi & E & Hm1 & Hm2).
  set (i := bucket_of _ _) in *. destruct (to_chain _ _ _ HT i _ Hi) as (hd & Hhd & Hc). destruct (read_slot_spec c i hd m1 m2 Hhd Hc) as (q & Eq & Hq).
  destruct (concat_split T i _ Hi) as (rest & Hrest & Hrest').
  pose proof (to_nodup _ _ _ HT) as HN. rewrite Hrest in HN. apply NoDup_app in HN as (HN & _ & _). apply NoDup_app in HN as (HN1 & HN2 & HN3).
  assert (Hpm : p ∉ m1 ++ m2) by (intros Hx; by apply Hp, (in_chain_concat T i (m1 ++ m2))).
  unfold HandleTable_Insert. rewrite (bind_eq (entry p) _ c h c) by (run; by rewrite Ep).
  rewrite (bind_eq _ _ _ _ _ (handle_key_spec c p h Ep Hlp)), (bind_eq _ _ _ _ _ E), (bind_eq _ _ _ _ _ Eq), (chain_null _ _ _ Hq).
  (* what follows the new entry *)
  assert (Hnh : exists nh, (if match m2 with [] => true | _ => false end then ret 0%nat else let* o := entry q in ret (next_hash o)) c = Ret (nh, c) /\
    chain (entries c) nh (tail m2)).
  { destruct m2 as [|a m2]; [by exists 0%nat|]. destruct Hq as (-> & Ha & ha & Eha & Hq). exists (next_hash ha). split; [|done]. run. by rewrite Eha. }
  destruct Hnh as (nh & Enh & Hnh). rewrite (bind_eq _ _ _ _ _ Enh). rewrite (bind_eq (entry p) _ c h c) by (run; by rewrite Ep).
  set (es1 := <[p := with_next_hash nh h]> (entries c)). set (c1 := set_tab c (table_ c) es1).
  rewrite (bind_eq (set_entry p (with_next_hash nh h)) _ c tt c1) by done.
  assert (Hes1 : forall a, a <> p -> es1 !! a = entries c !! a) by (intros a Ha; unfold es1; by rewrite lookup_insert_ne).
  assert (HT1 : TableOk es1 (table_ c) T) by (apply (table_fresh (entries c) _ _ _ p); done).
  assert (Hfr : forall l x, chain (entries c) x l -> p ∉ l -> chain es1 x l).
  { intros l x Hx Hpl. apply (chain_frame (entries c)); [|done]. intros a Ha. rewrite Hes1; [done|]. by intros ->. }
  assert (Htl : forall x, x ∈ tail m2 -> x ∈ m2) by (destruct m2; [done|set_solver]).
  assert (Hc1 : chain es1 p (p :: tail m2)).
  { split; [done|]. split; [done|]. eexists. split; [apply lookup_insert_eq|]. cbn [next_hash with_next_hash]. apply Hfr; [done|].
    intros Hx. apply Hpm, elem_of_app. right. by apply Htl. }
  destruct (write_slot_spec c1 i hd m1 m2 p (p :: tail m2) Hhd (Hfr _ _ Hc Hpm) HN1 Hc1) as (t' & es' & Ew & L1 & L2 & L3 & L4 & L5 & L6 & L7).
  { intros a Ha [->|Hx]%elem_of_cons; [apply Hpm; set_solver|]. by apply (HN2 a Ha), Htl. }
  rewrite (bind_eq _ _ _ _ _ Ew). assert (Hsame : same_info (entries c) es').
  { eapply same_info_trans; [by apply (same_info_insert (entries c) p h nh)|]. exact L6. }
  (* the table with the new chain, whatever the number of elements is set to *)
  assert (HT2 : forall n, n = Z.of_nat (length (concat (<[i := m1 ++ p :: tail m2]> T))) ->
    TableOk es' {| length_ := length_ t'; elems_ := n; list_ := list_ t' |} (<[i := m1 ++ p :: tail m2]> T)).
  { intros n ->. apply (table_update es1 (table_ c) T _ _ i (m1 ++ m2)); [done|done|done|done|done|done|done| | | |done].
    - intros x Hx _. apply L7. set_solver.
    - apply NoDup_app. split; [done|]. split.
      + intros x Hx [->|Hx']%elem_of_cons; [apply Hpm; set_solver|]. by apply (HN2 x Hx), Htl.
      + apply NoDup_cons. split; [intros Hx; apply Hpm, elem_of_app; right; by apply Htl|]. destruct m2; [done|]. by apply NoDup_cons in HN3 as [_ HN3].
    - intros x [Hx|[->|Hx]%elem_of_cons]%elem_of_app; [left; set_solver| |left; apply elem_of_app; right; by apply Htl].
      right. split; [done|]. eexists. split; [apply lookup_insert_eq|]. by destruct h. }
  destruct m2 as [|a m2]; cbn [tail] in *.
  - (* a new key *)
    assert (HP : concat (<[i:=m1 ++ [p]]> T) ≡ₚ p :: concat T) by (rewrite Hrest', Hrest; solve_Permutation).
    pose proof (Permutation_length HP) as HPl. cbn [length] in HPl. set (T1 := <[i := m1 ++ [p]]> T) in *.
    assert (Hel : u32 (elems_ t' + 1) = Z.of_nat (length (concat T1))).
    { rewrite L2. unfold c1. fields. rewrite (to_elems _ _ _ HT), wrap_small by lia. lia. }
    set (t1 := {| length_ := length_ t'; elems_ := u32 (elems_ t' + 1); list_ := list_ t' |}). pose proof (HT2 _ Hel) as HT3.
    set (c2 := set_tab c t1 es'). rewrite Hq. cbv iota.
    assert (Hno : forall x, x ∈ concat T -> ~ matches (entries c) (key_data h) (hash h) x).
    { intros x Hx Hm. destruct (concat_in_chain T x Hx) as (j & l & Hj & Hxl). pose proof (matches_bucket _ _ _ _ _ _ _ _ HT Hj Hxl Hm) as ->. fold i in Hj.
      rewrite Hi in Hj. injection Hj as <-. rewrite app_nil_r in Hxl. by apply (Hm1 x). }
    assert (Hres : exists t2 es2 T2, (add_elems 1 ;;; let* c := get in if elems_ (table_ c) >? length_ (table_ c) then Resize else ret tt) (set_tab c1 t' es') =
        Ret (tt, set_tab c t2 es2) /\ TableOk es2 t2 T2 /\ concat T2 ≡ₚ concat T1 /\ same_info es' es2).
    { rewrite (bind_eq (add_elems 1) _ _ tt c2) by done. unfold bind, get. destruct (_ >? _).
      - destruct (Resize_spec c2 T1 HT3) as (t2 & es2 & T2 & Er & HT4 & HP4 & HS4 & _); [lia|]. by exists t2, es2, T2.
      - exists t1, es', T1. by split_and!. }
    destruct Hres as (t2 & es2 & T2 & Er & HT4 & HP4 & HS4). rewrite (bind_eq _ _ _ _ _ Er). exists 0%nat, t2, es2, T2. split; [done|]. split; [done|].
    split; [by eapply same_info_trans|]. left. split; [done|]. split; [by rewrite HP4, HP|done].
  - (* the entry with the key goes *)
    destruct Hq as (-> & Ha & _). cbv iota. rewrite (bind_eq (ret tt) _ _ tt _ eq_refl).
    assert (HP : a :: concat (<[i:=m1 ++ p :: m2]> T) ≡ₚ p :: concat T) by (rewrite Hrest', Hrest; solve_Permutation).
    pose proof (Permutation_length HP) as HPl. cbn [length] in HPl.
    exists a, t', es', (<[i := m1 ++ p :: m2]> T). split; [done|]. split; [|split; [done|]].
    + destruct t' as [x y z]. cbn [length_ elems_ list_] in *. apply HT2. rewrite L2. unfold c1. fields. rewrite (to_elems _ _ _ HT). lia.
    + right. split; [done|]. split; [apply (in_chain_concat T i (m1 ++ a :: m2)); [done|set_solver]|]. split; [done|]. by rewrite HP.
Qed.
End Cache.
