(* ===== verification/LvCacheSpec.v ===== *)
(** A shard of the cache keeps its invariant: the two lists, the table, the
    reference counts and the handles that clients hold. *)

From stdpp Require Import base list gmap strings sorting.
From Stdlib Require Import ZArith Lia.
From S2P Require Import Prelude LvSlice LvBloom LvCacheApi LvCache LvCacheProps.

Section Shard.
Context {V : Type}.
Abbreviation C := (LRUCache V).
Abbreviation Handle := (LRUHandle V).
Abbreviation Held := (list (nat * V)).
(** What may be cached, and the shard. *)
Context (P : Slice -> V -> Prop) (shard : nat).
(** Not too many different keys. *)
Context (ks : list Slice) (Hks : Z.of_nat (length ks) < 2 ^ 31) (HPks : forall k v, P k v -> k ∈ ks).
Implicit Types (c : C) (held : Held) (L U S : list nat).

(** How often an entry is held. *)
Definition uses (a : nat) held : Z := Z.of_nat (length (filter (fun x => x.1 = a) held)).

Lemma uses_cons a x held : uses a (x :: held) = (if decide (x.1 = a) then 1 else 0) + uses a held.
Proof. unfold uses. rewrite filter_cons. destruct (decide (x.1 = a)); cbn [length]; lia. Qed.

Lemma uses_app a h1 h2 : uses a (h1 ++ h2) = uses a h1 + uses a h2.
Proof. unfold uses. rewrite filter_app, length_app. lia. Qed.

Lemma uses_pos a held : 0 <= uses a held <= Z.of_nat (length held).
Proof. unfold uses. pose proof (length_filter (fun x => x.1 = a) held). lia. Qed.

Lemma uses_in a v held : (a, v) ∈ held -> 1 <= uses a held.
Proof.
  intros Hin. apply list_elem_of_split in Hin as (h1 & h2 & ->). rewrite uses_app, uses_cons. cbn [fst].
  destruct (decide (a = a)); [|done]. pose proof (uses_pos a h1). pose proof (uses_pos a h2). lia.
Qed.

(** ** The invariant *)

Record Rings c L U : Prop := {
  rg_lru : ring (nexts c) (prevs c) lru_ L;
  rg_use : ring (nexts c) (prevs c) in_use_ U;
  rg_nodup : NoDup (lru_ :: in_use_ :: L ++ U)
}.

Record EntryOk c L U held (a : nat) (h : Handle) : Prop := {
  eo_addr : a <> 0%nat /\ a <> lru_ /\ a <> in_use_;
  eo_linked : linked c a;
  eo_hash : hash h = HashSlice (key_data h) /\ Shard (hash h) = shard;
  eo_charge : 0 <= charge h < 2 ^ 32;
  eo_in : in_cache h = true <-> a ∈ L ++ U;
  eo_refs : refs h = (if in_cache h then 1 else 0) + uses a held;
  eo_lru : a ∈ L -> uses a held = 0;
  eo_use : a ∉ L -> 1 <= uses a held;
  eo_P : a ∈ L ++ U -> P (key_data h) (value h)
}.

Record Entries c L U held : Prop := {
  en_entry a h : entries c !! a = Some h -> EntryOk c L U held a h;
  en_held a v : (a, v) ∈ held -> exists h, entries c !! a = Some h /\ value h = v;
  en_list a : a ∈ L ++ U -> is_Some (entries c !! a)
}.

Definition charge_of (es : gmap nat Handle) (a : nat) : Z := match es !! a with Some h => charge h | None => 0 end.
Definition charges (es : gmap nat Handle) (l : list nat) : Z := fold_right Z.add 0 (map (charge_of es) l).

(** The table has the entries [S], with different keys. *)
Record Tables c S (T : list (list nat)) : Prop := {
  tb_ok : TableOk (entries c) (table_ c) T;
  tb_perm : concat T ≡ₚ S;
  tb_keys a b ha hb : a ∈ S -> b ∈ S -> entries c !! a = Some ha -> entries c !! b = Some hb -> key_data ha = key_data hb -> a = b
}.

Record ShardOk c L U held : Prop := {
  so_rings : Rings c L U;
  so_entries : Entries c L U held;
  so_usage : usage_ c = charges (entries c) (L ++ U);
  so_table : exists T, Tables c (L ++ U) T
}.

(** ** What operations on the table leave alone *)

Lemma charges_perm es l l' : l ≡ₚ l' -> charges es l = charges es l'.
Proof. unfold charges. induction 1; cbn; lia. Qed.

Lemma charges_cons es a l : charges es (a :: l) = charge_of es a + charges es l.
Proof. done. Qed.

Lemma charges_ext es es' l : (forall a, a ∈ l -> charge_of es' a = charge_of es a) -> charges es' l = charges es l.
Proof.
  induction l as [|a l IH]; intros Hf; [done|]. rewrite !charges_cons, IH by set_solver. rewrite Hf; [done|set_solver].
Qed.

Lemma same_info_charge (es es' : gmap nat Handle) a : same_info es es' -> charge_of es' a = charge_of es a.
Proof.
  intros Hs. unfold charge_of. destruct (es !! a) as [h|] eqn:E.
  - destruct (same_info_lookup _ _ _ _ Hs E) as (n & ->). by destruct h.
  - specialize (Hs a). rewrite E in Hs. by destruct (es' !! a).
Qed.

Lemma Rings_tab c t es L U : Rings c L U -> Rings (set_tab c t es) L U.
Proof. by intros [H1 H2 H3]. Qed.

Lemma Entries_tab c t es L U held : same_info (entries c) es -> Entries c L U held -> Entries (set_tab c t es) L U held.
Proof.
  intros Hs [H1 H2 H3]. constructor; cbn [entries set_tab].
  - intros a h Eh. destruct (same_info_lookup _ _ _ _ (same_info_sym _ _ Hs) Eh) as (n & En). destruct (H1 a _ En) as [A1 A2 A3 A4 A5 A6 A7 A8 A9].
    destruct h. by constructor.
  - intros a v Ha. destruct (H2 a v Ha) as (h & Eh & Hv). destruct (same_info_lookup _ _ _ _ Hs Eh) as (n & En). eexists. split; [exact En|]. by destruct h.
  - intros a Ha. destruct (H3 a Ha) as [h Eh]. destruct (same_info_lookup _ _ _ _ Hs Eh) as (n & En). by eexists.
Qed.

(** ** Entries are linked *)

Lemma ring_linked c h l a : NoDup (h :: l) -> ring (nexts c) (prevs c) h l -> a ∈ l -> linked c a.
Proof.
  intros HN HR Ha. apply list_elem_of_split in Ha as (l1 & l2 & ->). destruct (ring_remove _ _ h l1 a l2 HN HR) as (p & n & Hn & _ & _ & Hin & _).
  exists n. split; [done|]. intros ->. apply NoDup_cons in HN as [HN1 HN2]. apply elem_of_cons in Hin as [->|Hin]; [set_solver|].
  apply NoDup_app in HN2 as (_ & _ & HN2). by apply NoDup_cons in HN2 as [HN2 _].
Qed.

Lemma Rings_linked c L U a : Rings c L U -> a ∈ L ++ U -> linked c a.
Proof.
  intros [H1 H2 HN] Ha. apply NoDup_cons in HN as [HN1 HN]. apply NoDup_cons in HN as [HN2 HN]. apply NoDup_app in HN as (HNL & Hd & HNU).
  apply elem_of_app in Ha as [Ha|Ha]; [apply (ring_linked c lru_ L)|apply (ring_linked c in_use_ U)]; try done; apply NoDup_cons; set_solver.
Qed.

Lemma linked_links c nx pv a : nx !! a = nexts c !! a -> linked c a -> linked (set_links c nx pv) a.
Proof. intros E (n & En & Hn). exists n. by rewrite <- E in En. Qed.
(** ** Moving between the lists *)

(** The two lists in either order. *)
Definition Rings2 c (h1 : nat) (l1 : list nat) (h2 : nat) (l2 : list nat) : Prop :=
  ring (nexts c) (prevs c) h1 l1 /\ ring (nexts c) (prevs c) h2 l2 /\ NoDup ((h1 :: l1) ++ h2 :: l2).

Lemma Rings_lru c L U : Rings c L U <-> Rings2 c lru_ L in_use_ U.
Proof.
  assert (HP : lru_ :: in_use_ :: L ++ U ≡ₚ (lru_ :: L) ++ in_use_ :: U) by (cbn; solve_Permutation).
  split; [intros [H1 H2 H3]|intros (H1 & H2 & H3)]; [split_and!; [done..|by rewrite <- HP]|constructor; [done..|by rewrite HP]].
Qed.

Lemma Rings_use c L U : Rings c L U <-> Rings2 c in_use_ U lru_ L.
Proof.
  rewrite Rings_lru. unfold Rings2. rewrite (Permutation_app_comm (lru_ :: L)). tauto.
Qed.

Lemma remove_from c h1 l1 e l2 h2 l : Rings2 c h1 (l1 ++ e :: l2) h2 l ->
  exists nx pv, LRU_Remove e c = Ret (tt, set_links c nx pv) /\ Rings2 (set_links c nx pv) h1 (l1 ++ l2) h2 l /\
    forall x, x ∉ h1 :: l1 ++ l2 -> nx !! x = nexts c !! x.
Proof.
  intros (H1 & H2 & HN). pose proof HN as HN'. apply NoDup_app in HN' as (HN1 & Hd & HN2).
  destruct (LRU_Remove_spec c h1 l1 e l2 HN1 H1) as (nx & pv & E & HR & Hf). exists nx, pv. split; [done|]. split; [|intros x Hx; by apply Hf].
  split; [done|]. split.
  - cbn [nexts prevs set_links]. apply (ring_frame (nexts c) (prevs c)); [|done]. intros a Ha. apply Hf. intros Hx. apply (Hd a); [set_solver|done].
  - assert (HP : (h1 :: l1 ++ e :: l2) ++ h2 :: l ≡ₚ e :: (h1 :: l1 ++ l2) ++ h2 :: l) by (cbn; solve_Permutation).
    rewrite HP in HN. by apply NoDup_cons in HN as [_ HN].
Qed.

Lemma append_to c h1 l1 h2 l e : Rings2 c h1 l1 h2 l -> e ∉ (h1 :: l1) ++ h2 :: l ->
  exists nx pv, LRU_Append h1 e c = Ret (tt, set_links c nx pv) /\ Rings2 (set_links c nx pv) h1 (l1 ++ [e]) h2 l /\
    forall x, x ∉ h1 :: l1 ++ [e] -> nx !! x = nexts c !! x.
Proof.
  intros (H1 & H2 & HN) He. pose proof HN as HN'. apply NoDup_app in HN' as (HN1 & Hd & HN2).
  destruct (LRU_Append_spec c h1 l1 e HN1 ltac:(set_solver) H1) as (nx & pv & E & HR & Hf). exists nx, pv. split; [done|]. split; [|intros x Hx; by apply Hf].
  split; [done|]. split.
  - cbn [nexts prevs set_links]. apply (ring_frame (nexts c) (prevs c)); [|done]. intros a Ha. apply Hf.
    intros [Hx|Hx]%(elem_of_app (h1 :: l1)); [by apply (Hd a)|]. apply list_elem_of_singleton in Hx as ->. set_solver.
  - assert (HP : (h1 :: l1 ++ [e]) ++ h2 :: l ≡ₚ e :: (h1 :: l1) ++ h2 :: l) by (cbn; solve_Permutation). rewrite HP. by apply NoDup_cons.
Qed.

(** Links of entries survive what changes only the nodes of a list. *)
Lemma linked_frame c c' L U a : Rings c' L U -> (a ∉ L ++ U -> nexts c' !! a = nexts c !! a) -> linked c a -> linked c' a.
Proof.
  intros HR Hf (n & En & Hn). destruct (decide (a ∈ L ++ U)) as [Hin|Hout]; [by eapply Rings_linked|]. exists n. by rewrite Hf.
Qed.

(** ** Changing one entry *)

Lemma Entries_set c c' L U L' U' held held' e h h' :
  Entries c L U held -> entries c !! e = Some h -> entries c' = <[e := h']> (entries c) -> value h' = value h ->
  (forall a ha, a <> e -> entries c !! a = Some ha -> linked c' a) ->
  (forall a, a <> e -> (a ∈ L' <-> a ∈ L) /\ (a ∈ U' <-> a ∈ U)) -> (forall a, a <> e -> uses a held' = uses a held) ->
  (forall a v, (a, v) ∈ held' -> (a, v) ∈ held \/ a = e /\ v = value h) ->
  EntryOk c' L' U' held' e h' -> Entries c' L' U' held'.
Proof.
  intros [H1 H2 H3] Ee Ec Hv Hl Hin Hu Hh He. constructor; rewrite Ec.
  - intros a ha Ea. destruct (decide (a = e)) as [->|Hne].
    + rewrite lookup_insert_eq in Ea. by injection Ea as <-.
    + rewrite lookup_insert_ne in Ea by done. destruct (H1 a ha Ea) as [A1 A2 A3 A4 A5 A6 A7 A8 A9]. destruct (Hin a Hne) as [I1 I2].
      assert (Iapp : a ∈ L' ++ U' <-> a ∈ L ++ U) by (rewrite !elem_of_app; tauto).
      constructor; [done|by eapply Hl|done|done|by rewrite Iapp|by rewrite Hu|rewrite Hu by done; tauto|rewrite Hu by done; tauto|by rewrite Iapp].
  - intros a v Ha. destruct (Hh a v Ha) as [Ho|[-> ->]].
    + destruct (decide (a = e)) as [->|Hne]; [|rewrite lookup_insert_ne by done; by apply H2]. destruct (H2 e v Ho) as (h0 & E0 & <-).
      rewrite Ee in E0. injection E0 as <-. exists h'. by rewrite lookup_insert_eq.
    + exists h'. by rewrite lookup_insert_eq.
  - intros a Ha. destruct (decide (a = e)) as [->|Hne]; [rewrite lookup_insert_eq; by eexists|]. rewrite lookup_insert_ne by done. apply H3.
    destruct (Hin a Hne) as [I1 I2]. rewrite elem_of_app in Ha |- *. tauto.
Qed.

Lemma Entries_delete c c' L U held held' e :
  Entries c L U held -> entries c' = delete e (entries c) -> e ∉ L ++ U ->
  (forall a ha, a <> e -> entries c !! a = Some ha -> linked c' a) ->
  (forall a, a <> e -> uses a held' = uses a held) -> (forall a v, (a, v) ∈ held' -> (a, v) ∈ held /\ a <> e) -> Entries c' L U held'.
Proof.
  intros [H1 H2 H3] Ec He Hl Hu Hh. constructor; rewrite Ec.
  - intros a ha Ea. apply lookup_delete_Some in Ea as [Hne Ea]. destruct (H1 a ha Ea) as [A1 A2 A3 A4 A5 A6 A7 A8 A9].
    constructor; rewrite ?Hu by done; try done. by eapply Hl.
  - intros a v Ha. destruct (Hh a v Ha) as [Ho Hne]. rewrite lookup_delete_ne by done. by apply H2.
  - intros a Ha. rewrite lookup_delete_ne; [by apply H3|]. by intros ->.
Qed.

(** The table does not see changes of reference counts, nor of other entries. *)
Lemma Tables_set c c' S T : Tables c S T -> table_ c' = table_ c ->
  (forall a, a ∈ S -> (fun h => (next_hash h, key_data h, hash h)) <$> entries c' !! a = (fun h => (next_hash h, key_data h, hash h)) <$> entries c !! a) ->
  Tables c' S T.
Proof.
  intros [[H1 H2 H3 H4 H5 H6] HP HK] Et He.
  assert (Hc : forall a h, a ∈ S -> entries c !! a = Some h -> exists h', entries c' !! a = Some h' /\ next_hash h' = next_hash h /\ key_data h' = key_data h /\ hash h' = hash h).
  { intros a h Ha Eh. specialize (He a Ha). rewrite Eh in He. destruct (entries c' !! a) as [h'|]; [|done]. cbn in He. injection He as ? ? ?. by exists h'. }
  assert (Hc' : forall a h, a ∈ S -> entries c' !! a = Some h -> exists h', entries c !! a = Some h' /\ key_data h' = key_data h).
  { intros a h Ha Eh. specialize (He a Ha). rewrite Eh in He. destruct (entries c !! a) as [h'|]; [|done]. cbn in He. injection He as ? ? ?. by exists h'. }
  assert (HS : forall i l a, T !! i = Some l -> a ∈ l -> a ∈ S) by (intros i l a Hi Ha; rewrite <- HP; by apply (in_chain_concat T i l)).
  constructor; [|done|].
  - constructor; rewrite ?Et; [done|done| | |done|done].
    + intros i l Hi. destruct (H3 i l Hi) as (p & Hp & Hch). exists p. split; [done|]. apply (chain_frame (entries c)); [|done].
      intros a Ha. specialize (He a (HS i l a Hi Ha)). destruct (entries c' !! a), (entries c !! a); cbn in *; congruence.
    + intros i l a Hi Ha. destruct (H4 i l a Hi Ha) as (h & Eh & Hr & Hb). destruct (Hc a h (HS i l a Hi Ha) Eh) as (h' & Eh' & _ & _ & Hh).
      exists h'. by rewrite Hh.
  - intros a b ha hb Ha Hb Ea Eb Hk. destruct (Hc' a ha Ha Ea) as (ha' & Ea' & Hka). destruct (Hc' b hb Hb Eb) as (hb' & Eb' & Hkb).
    apply (HK a b ha' hb'); congruence.
Qed.
(** ** What stays in the entries *)

Definition content (h : Handle) : Slice * V * Z := (key_data h, value h, charge h).

(** The keys and values that are in memory, and those that were deleted. *)
Definition contents (es : gmap nat Handle) : list (Slice * V) := (map_to_list ((fun h => (key_data h, value h)) <$> es)).*2.
Definition ledger c : list (Slice * V) := deleted c ++ contents (entries c).

Lemma contents_insert es e h : es !! e = None -> contents (<[e := h]> es) ≡ₚ (key_data h, value h) :: contents es.
Proof.
  intros Ee. unfold contents. rewrite fmap_insert, map_to_list_insert; [done|]. by rewrite lookup_fmap, Ee.
Qed.

Lemma contents_delete es e h : es !! e = Some h -> contents es ≡ₚ (key_data h, value h) :: contents (delete e es).
Proof.
  intros Ee. unfold contents. rewrite fmap_delete, <- (map_to_list_delete _ e (key_data h, value h)); [done|]. by rewrite lookup_fmap, Ee.
Qed.

Lemma contents_eq (es es' : gmap nat Handle) : (forall a, content <$> es' !! a = content <$> es !! a) -> contents es' = contents es.
Proof.
  intros Hc. unfold contents. f_equal. f_equal. apply map_eq. intros a. rewrite !lookup_fmap. specialize (Hc a).
  destruct (es !! a), (es' !! a); cbn in *; unfold content in Hc; congruence.
Qed.

(** Every entry that is left has its contents, and what is gone was deleted. *)
Record keeps c c' : Prop := {
  kp_content a : is_Some (entries c' !! a) -> content <$> entries c' !! a = content <$> entries c !! a;
  kp_ledger : ledger c' ≡ₚ ledger c
}.

Lemma keeps_refl c : keeps c c.
Proof. done. Qed.

Lemma keeps_trans c1 c2 c3 : keeps c1 c2 -> keeps c2 c3 -> keeps c1 c3.
Proof.
  intros [H1 P1] [H2 P2]. split; [|by rewrite P2, P1]. intros a Ha. pose proof (H2 a Ha) as E. rewrite E. apply H1. destruct (entries c2 !! a); [by eexists|].
  destruct Ha as [h Eh]. by rewrite Eh in E.
Qed.

(** Nothing goes. *)
Lemma keeps_all c c' : (forall a, content <$> entries c' !! a = content <$> entries c !! a) -> deleted c' = deleted c -> keeps c c'.
Proof. intros Hc Hd. split; [done|]. unfold ledger. by rewrite Hd, (contents_eq _ _ Hc). Qed.

Lemma keeps_set c c' e h h' : entries c !! e = Some h -> entries c' = <[e := h']> (entries c) -> deleted c' = deleted c -> content h' = content h -> keeps c c'.
Proof.
  intros Ee Ec Hd Hh. apply keeps_all; [|done]. intros a. rewrite Ec. destruct (decide (a = e)) as [->|]; [|by rewrite lookup_insert_ne].
  rewrite lookup_insert_eq, Ee. cbn. by rewrite Hh.
Qed.

Lemma keeps_delete c c' e h : entries c !! e = Some h -> entries c' = delete e (entries c) -> deleted c' = deleted c ++ [(key_data h, value h)] -> keeps c c'.
Proof.
  intros Ee Ec Hd. split.
  - intros a [x Ha]. rewrite Ec in *. apply lookup_delete_Some in Ha as [Hne Ha]. by rewrite lookup_delete_ne.
  - unfold ledger. rewrite Hd, Ec, (contents_delete (entries c) e h Ee), <- app_assoc. done.
Qed.

Lemma keeps_info c c' : same_info (entries c) (entries c') -> deleted c' = deleted c -> keeps c c'.
Proof.
  intros Hs. apply keeps_all. intros a. destruct (entries c !! a) as [h|] eqn:E.
  - destruct (same_info_lookup _ _ _ _ Hs E) as (n & ->). by destruct h.
  - specialize (Hs a). rewrite E in Hs. by destruct (entries c' !! a).
Qed.

Lemma keeps_charge c c' a : keeps c c' -> is_Some (entries c' !! a) -> charge_of (entries c') a = charge_of (entries c) a.
Proof.
  intros [Hk _] Ha. specialize (Hk a Ha). unfold charge_of. destruct (entries c' !! a) as [h'|], (entries c !! a) as [h|]; try done. cbn in Hk. by injection Hk.
Qed.

(** ** [Ref] *)

Abbreviation set_es c es := (set_tab c (table_ c) es).

Lemma entry_eq c e h : entries c !! e = Some h -> entry e c = Ret (h, c).
Proof. intros Ee. unfold entry, bind, get. by rewrite Ee. Qed.

Lemma set_entry_eq c e h : set_entry e h c = Ret (tt, set_es c (<[e := h]> (entries c))).
Proof. done. Qed.

Lemma charges_set c e h h' L L' : entries c !! e = Some h -> charge h' = charge h -> L' ≡ₚ L ->
  charges (<[e := h']> (entries c)) L' = charges (entries c) L.
Proof.
  intros Ee Hc HP. rewrite (charges_perm _ _ _ HP). apply charges_ext. intros a _. unfold charge_of.
  destruct (decide (a = e)) as [->|]; [by rewrite lookup_insert_eq, Ee|by rewrite lookup_insert_ne].
Qed.

Lemma Tables_entry c c' e h h' S S' T : Tables c S T -> S' ≡ₚ S -> table_ c' = table_ c -> entries c !! e = Some h ->
  entries c' = <[e := h']> (entries c) -> next_hash h' = next_hash h -> key_data h' = key_data h -> hash h' = hash h -> Tables c' S' T.
Proof.
  intros HT HP Et Ee Ec H1 H2 H3. assert (HT' : Tables c' S T).
  { apply (Tables_set c); [done|done|]. intros a _. rewrite Ec. destruct (decide (a = e)) as [->|]; [|by rewrite lookup_insert_ne].
    rewrite lookup_insert_eq, Ee. cbn. by rewrite H1, H2, H3. }
  destruct HT' as [A B D]. constructor; [done|by rewrite HP|]. intros a b ha hb. rewrite HP. apply D.
Qed.

Lemma heads_out c L U held e h : Entries c L U held -> entries c !! e = Some h -> e <> lru_ /\ e <> in_use_.
Proof. intros [H _ _] Ee. destruct (H e h Ee) as [A _ _ _ _ _ _ _ _]. tauto. Qed.

Lemma uses_other e v held a : a <> e -> uses a ((e, v) :: held) = uses a held.
Proof. intros Hne. rewrite uses_cons. cbn [fst]. destruct (decide (e = a)); [by subst|lia]. Qed.

Lemma uses_self e v held : uses e ((e, v) :: held) = 1 + uses e held.
Proof. rewrite uses_cons. cbn [fst]. by destruct (decide (e = e)). Qed.

(** An entry in use is used once more. *)
Lemma Ref_use c L U held e h : ShardOk c L U held -> e ∈ U -> entries c !! e = Some h -> Z.of_nat (length held) < 2 ^ 31 ->
  exists c', Ref e c = Ret (tt, c') /\ ShardOk c' L U ((e, value h) :: held) /\ capacity_ c' = capacity_ c /\ deleted c' = deleted c /\ keeps c c'.
Proof.
  intros [HR HE Hu (T & HT)] Hin Ee Hlen. pose proof (en_entry _ _ _ _ HE e h Ee) as Ho. destruct Ho as [A1 A2 A3 A4 A5 A6 A7 A8 A9].
  assert (HeL : e ∉ L).
  { destruct HR as [_ _ HN]. apply NoDup_cons in HN as [_ HN]. apply NoDup_cons in HN as [_ HN]. apply NoDup_app in HN as (_ & HN & _). intros Hx. by apply (HN e Hx). }
  assert (Hic : in_cache h = true) by (apply A5, elem_of_app; by right). rewrite Hic in A6. specialize (A8 HeL). pose proof (uses_pos e held).
  set (h' := with_refs (u32 (refs h + 1)) h). exists (set_es c (<[e := h']> (entries c))). split.
  - unfold Ref. rewrite (bind_eq _ _ _ _ _ (entry_eq c e h Ee)). destruct (Z.eqb_spec (refs h) 1); [lia|]. cbn [andb].
    rewrite (bind_eq (ret tt) _ _ tt c eq_refl), (bind_eq _ _ _ _ _ (entry_eq c e h Ee)). by rewrite set_entry_eq.
  - split; [|split; [done|split; [done|by apply (keeps_set c _ e h h')]]]. constructor.
    + by apply Rings_tab.
    + apply (Entries_set c _ L U L U held _ e h h'); [done|done|done|done| |done|by intros; apply uses_other| |].
      * intros a ha _ Ea. by destruct (en_entry _ _ _ _ HE a ha Ea).
      * intros a v [Hx|Hx]%elem_of_cons; [right; by simplify_eq|by left].
      * constructor; try done; cbn [refs in_cache with_refs h']; [rewrite Hic, uses_self, wrap_small; lia|rewrite uses_self; lia].
    + cbn [usage_ entries set_tab]. by rewrite (charges_set c e h h' (L ++ U) (L ++ U) Ee).
    + exists T. by apply (Tables_entry c _ e h h' (L ++ U)).
Qed.

(** One that was not is moved to the other list. *)
Lemma Ref_lru c l1 e l2 U held h : ShardOk c (l1 ++ e :: l2) U held -> entries c !! e = Some h ->
  exists c', Ref e c = Ret (tt, c') /\ ShardOk c' (l1 ++ l2) (U ++ [e]) ((e, value h) :: held) /\ capacity_ c' = capacity_ c /\ deleted c' = deleted c /\ keeps c c'.
Proof.
  intros [HR HE Hu (T & HT)] Ee. pose proof (en_entry _ _ _ _ HE e h Ee) as Ho. destruct Ho as [A1 A2 A3 A4 A5 A6 A7 A8 A9].
  assert (HeL : e ∈ l1 ++ e :: l2) by set_solver. specialize (A7 HeL).
  assert (HeU : e ∈ (l1 ++ e :: l2) ++ U) by (apply elem_of_app; by left).
  assert (Hic : in_cache h = true) by by apply A5. rewrite Hic, A7 in A6.
  pose proof (proj1 (Rings_lru _ _ _) HR) as HR2. destruct (remove_from c _ _ _ _ _ _ HR2) as (nx & pv & E1 & HR3 & Hf1).
  set (c1 := set_links c nx pv). assert (HeLU : e ∉ (in_use_ :: U) ++ lru_ :: l1 ++ l2).
  { destruct HR as [_ _ HN]. assert (HP : lru_ :: in_use_ :: (l1 ++ e :: l2) ++ U ≡ₚ e :: (in_use_ :: U) ++ lru_ :: l1 ++ l2) by (cbn; solve_Permutation).
    rewrite HP in HN. by apply NoDup_cons in HN as [HN _]. }
  destruct (append_to c1 in_use_ U lru_ (l1 ++ l2) e) as (nx2 & pv2 & E2 & HR4 & Hf2); [by apply Rings_use, Rings_lru|done|].
  set (c2 := set_links c1 nx2 pv2). set (h' := with_refs (u32 (refs h + 1)) h). exists (set_es c2 (<[e := h']> (entries c))). split.
  - unfold Ref. rewrite (bind_eq _ _ _ _ _ (entry_eq c e h Ee)), A6, Hic. cbn [Z.eqb Z.add Pos.eqb andb].
    rewrite (bind_eq (LRU_Remove e ;;; LRU_Append in_use_ e) _ c tt c2) by (rewrite (bind_eq _ _ _ _ _ E1); exact E2).
    rewrite (bind_eq _ _ _ _ _ (entry_eq c2 e h Ee)).
    by rewrite set_entry_eq.
  - split; [|split; [done|split; [done|by apply (keeps_set c _ e h h')]]]. assert (HR5 : Rings (set_es c2 (<[e := h']> (entries c))) (l1 ++ l2) (U ++ [e])) by by apply Rings_tab, Rings_use.
    assert (HP : (l1 ++ l2) ++ U ++ [e] ≡ₚ (l1 ++ e :: l2) ++ U) by solve_Permutation.
    constructor; [done| | |].
    + apply (Entries_set c _ (l1 ++ e :: l2) U _ _ held _ e h h'); [done|done|done|done| | |by intros; apply uses_other| |].
      * intros a ha Hne Ea. destruct (en_entry _ _ _ _ HE a ha Ea) as [B1 B2 _ _ _ _ _ _ _]. apply (linked_frame c _ _ _ a HR5); [|done].
        rewrite !elem_of_app, list_elem_of_singleton. intros Hout. change (nx2 !! a = nexts c !! a).
        rewrite Hf2 by (rewrite elem_of_cons, elem_of_app, list_elem_of_singleton; tauto). change (nx !! a = nexts c !! a). apply Hf1.
        rewrite elem_of_cons, elem_of_app. tauto.
      * intros a Hne. rewrite !elem_of_app, !elem_of_cons, elem_of_nil. tauto.
      * intros a v [Hx|Hx]%elem_of_cons; [right; by simplify_eq|by left].
      * assert (Hin : e ∈ (l1 ++ l2) ++ U ++ [e]) by (rewrite !elem_of_app, list_elem_of_singleton; tauto).
        constructor; try done; cbn [refs in_cache with_refs h'].
        -- by apply (Rings_linked _ _ _ _ HR5).
        -- rewrite Hic, uses_self, A6, A7, wrap_small; lia.
        -- intros Hx. exfalso. apply HeLU, elem_of_app. right. apply elem_of_cons. by right.
        -- rewrite uses_self. lia.
        -- intros _. by apply A9.
    + change (usage_ c = charges (<[e := h']> (entries c)) ((l1 ++ l2) ++ U ++ [e])). by rewrite (charges_set c e h h' ((l1 ++ e :: l2) ++ U) _ Ee).
    + exists T. by apply (Tables_entry c _ e h h' ((l1 ++ e :: l2) ++ U)).
Qed.
(** ** [Unref] for a handle *)

Lemma uses_drop h1 e (v : V) h2 a : uses a (h1 ++ (e, v) :: h2) = (if decide (e = a) then 1 else 0) + uses a (h1 ++ h2).
Proof. rewrite !uses_app, uses_cons. cbn [fst]. lia. Qed.

Lemma held_value c L U h1 e v h2 h : Entries c L U (h1 ++ (e, v) :: h2) -> entries c !! e = Some h -> value h = v.
Proof. intros [_ H2 _] Ee. destruct (H2 e v ltac:(set_solver)) as (h0 & E0 & Hv). rewrite Ee in E0. by injection E0 as ->. Qed.

Lemma held_drop (h1 : Held) e v h2 a x : (a, x) ∈ h1 ++ h2 -> (a, x) ∈ h1 ++ (e, v) :: h2.
Proof. rewrite !elem_of_app, elem_of_cons. tauto. Qed.

(** The entry is used elsewhere too. *)
Lemma Unref_more c L U h1 e v h2 h : ShardOk c L U (h1 ++ (e, v) :: h2) -> entries c !! e = Some h ->
  Z.of_nat (length (h1 ++ (e, v) :: h2)) < 2 ^ 31 -> 1 <= uses e (h1 ++ h2) ->
  exists c', Unref e c = Ret (tt, c') /\ ShardOk c' L U (h1 ++ h2) /\ capacity_ c' = capacity_ c /\ deleted c' = deleted c /\ keeps c c'.
Proof.
  intros [HR HE Hu (T & HT)] Ee Hlen Hmore. pose proof (en_entry _ _ _ _ HE e h Ee) as Ho. destruct Ho as [A1 A2 A3 A4 A5 A6 A7 A8 A9].
  pose proof (uses_pos e (h1 ++ h2)) as Hp. rewrite uses_drop in A6, A7, A8. destruct (decide (e = e)) as [_|]; [|done].
  assert (Hl2 : Z.of_nat (length (h1 ++ h2)) < 2 ^ 31) by (rewrite length_app in *; cbn [length] in Hlen; lia).
  set (h' := with_refs (u32 (refs h - 1)) h). exists (set_es c (<[e := h']> (entries c))).
  assert (Er : u32 (refs h - 1) = (if in_cache h then 1 else 0) + uses e (h1 ++ h2)) by (rewrite wrap_small; destruct (in_cache h); lia).
  split.
  - unfold Unref. rewrite (bind_eq _ _ _ _ _ (entry_eq c e h Ee)). destruct (Z.gtb_spec (refs h) 0); [|destruct (in_cache h); lia]. cbv zeta. fold h'.
    rewrite (bind_eq (set_entry e h') _ c tt (set_es c (<[e := h']> (entries c))) eq_refl). cbn [refs in_cache with_refs h'].
    rewrite Er. destruct (Z.eqb_spec ((if in_cache h then 1 else 0) + uses e (h1 ++ h2)) 0); [destruct (in_cache h); lia|].
    destruct (in_cache h); cbn [andb]; [|done]. destruct (Z.eqb_spec (1 + uses e (h1 ++ h2)) 1); [lia|done].
  - split; [|split; [done|split; [done|by apply (keeps_set c _ e h h')]]]. constructor.
    + by apply Rings_tab.
    + apply (Entries_set c _ L U L U (h1 ++ (e, v) :: h2) _ e h h'); [done|done|done|done| |done| | |].
      * intros a ha _ Ea. by destruct (en_entry _ _ _ _ HE a ha Ea).
      * intros a Hne. rewrite uses_drop. destruct (decide (e = a)); [by subst|lia].
      * intros a x Hx. left. by apply held_drop.
      * constructor; try done; cbn [refs in_cache with_refs h']; [intros Hx; specialize (A7 Hx); lia].
    + cbn [usage_ entries set_tab]. by rewrite (charges_set c e h h' (L ++ U) (L ++ U) Ee).
    + exists T. by apply (Tables_entry c _ e h h' (L ++ U)).
Qed.

(** The last use of an entry in the cache: it is the newest of the other list. *)
Lemma Unref_last c L u1 e u2 h1 v h2 h : ShardOk c L (u1 ++ e :: u2) (h1 ++ (e, v) :: h2) -> entries c !! e = Some h -> uses e (h1 ++ h2) = 0 ->
  exists c', Unref e c = Ret (tt, c') /\ ShardOk c' (L ++ [e]) (u1 ++ u2) (h1 ++ h2) /\ capacity_ c' = capacity_ c /\ deleted c' = deleted c /\ keeps c c'.
Proof.
  intros [HR HE Hu (T & HT)] Ee Hz. pose proof (en_entry _ _ _ _ HE e h Ee) as Ho. destruct Ho as [A1 A2 A3 A4 A5 A6 A7 A8 A9].
  rewrite uses_drop, Hz in A6. destruct (decide (e = e)) as [_|]; [|done]. assert (HeU : e ∈ L ++ u1 ++ e :: u2) by set_solver.
  assert (Hic : in_cache h = true) by by apply A5. rewrite Hic in A6.
  set (h' := with_refs (u32 (refs h - 1)) h). set (c0 := set_es c (<[e := h']> (entries c))).
  assert (HR0 : Rings c0 L (u1 ++ e :: u2)) by by apply Rings_tab.
  destruct (remove_from c0 _ _ _ _ _ _ (proj1 (Rings_use _ _ _) HR0)) as (nx & pv & E1 & HR3 & Hf1).
  set (c1 := set_links c0 nx pv). assert (HeLU : e ∉ (lru_ :: L) ++ in_use_ :: u1 ++ u2).
  { destruct HR as [_ _ HN]. assert (HP : lru_ :: in_use_ :: L ++ u1 ++ e :: u2 ≡ₚ e :: (lru_ :: L) ++ in_use_ :: u1 ++ u2) by (cbn; solve_Permutation).
    rewrite HP in HN. by apply NoDup_cons in HN as [HN _]. }
  destruct (append_to c1 lru_ L in_use_ (u1 ++ u2) e) as (nx2 & pv2 & E2 & HR4 & Hf2); [by apply Rings_lru, Rings_use|done|].
  set (c2 := set_links c1 nx2 pv2). exists c2. split.
  - unfold Unref. rewrite (bind_eq _ _ _ _ _ (entry_eq c e h Ee)). destruct (Z.gtb_spec (refs h) 0); [|lia]. cbv zeta. fold h'.
    rewrite (bind_eq (set_entry e h') _ c tt c0 eq_refl). cbn [refs in_cache with_refs h'].
    replace (u32 (refs h - 1)) with 1 by by rewrite A6. rewrite Hic. cbn [Z.eqb Pos.eqb andb]. rewrite (bind_eq _ _ _ _ _ E1). exact E2.
  - split; [|split; [done|split; [done|by apply (keeps_set c _ e h h')]]]. assert (HR5 : Rings c2 (L ++ [e]) (u1 ++ u2)) by by apply Rings_lru.
    assert (HP : (L ++ [e]) ++ u1 ++ u2 ≡ₚ L ++ u1 ++ e :: u2) by solve_Permutation.
    constructor; [done| | |].
    + apply (Entries_set c _ L (u1 ++ e :: u2) _ _ (h1 ++ (e, v) :: h2) _ e h h'); [done|done|done|done| | | | |].
      * intros a ha Hne Ea. destruct (en_entry _ _ _ _ HE a ha Ea) as [B1 B2 _ _ _ _ _ _ _]. apply (linked_frame c _ _ _ a HR5); [|done].
        rewrite !elem_of_app, list_elem_of_singleton. intros Hout. change (nx2 !! a = nexts c !! a).
        rewrite Hf2 by (rewrite elem_of_cons, elem_of_app, list_elem_of_singleton; tauto). change (nx !! a = nexts c !! a). apply Hf1.
        rewrite elem_of_cons, elem_of_app. tauto.
      * intros a Hne. rewrite !elem_of_app, !elem_of_cons, elem_of_nil. tauto.
      * intros a Hne. rewrite uses_drop. destruct (decide (e = a)); [by subst|lia].
      * intros a x Hx. left. by apply held_drop.
      * assert (Hin : e ∈ (L ++ [e]) ++ u1 ++ u2) by (rewrite !elem_of_app, list_elem_of_singleton; tauto).
        constructor; try done; cbn [refs in_cache with_refs h'].
        -- by apply (Rings_linked _ _ _ _ HR5).
        -- by rewrite Hic, A6, Hz.
        -- intros Hx. exfalso. apply Hx, elem_of_app. right. by apply list_elem_of_singleton.
        -- intros _. by apply A9.
    + change (usage_ c = charges (<[e := h']> (entries c)) ((L ++ [e]) ++ u1 ++ u2)). by rewrite (charges_set c e h h' (L ++ u1 ++ e :: u2) _ Ee).
    + exists T. by apply (Tables_entry c _ e h h' (L ++ u1 ++ e :: u2)).
Qed.

(** The last use of one that is not in the cache: it is deleted. *)
Lemma Unref_delete c L U h1 e v h2 h : ShardOk c L U (h1 ++ (e, v) :: h2) -> entries c !! e = Some h -> e ∉ L ++ U -> uses e (h1 ++ h2) = 0 ->
  exists c', Unref e c = Ret (tt, c') /\ ShardOk c' L U (h1 ++ h2) /\ capacity_ c' = capacity_ c /\ deleted c' = deleted c ++ [(key_data h, v)] /\ keeps c c'.
Proof.
  intros [HR HE Hu (T & HT)] Ee Hout Hz. pose proof (en_entry _ _ _ _ HE e h Ee) as Ho. destruct Ho as [A1 A2 A3 A4 A5 A6 A7 A8 A9].
  rewrite uses_drop, Hz in A6. destruct (decide (e = e)) as [_|]; [|done].
  assert (Hic : in_cache h = false) by (destruct (in_cache h); [exfalso; by apply Hout, A5|done]). rewrite Hic in A6.
  pose proof (held_value _ _ _ _ _ _ _ _ HE Ee) as Hv.
  set (h' := with_refs (u32 (refs h - 1)) h). set (c0 := set_es c (<[e := h']> (entries c))).
  assert (Ek : handle_key e c0 = Ret (key_data h, c0)) by (apply (handle_key_spec c0 e h'); [apply lookup_insert_eq|done]).
  eexists. split.
  - unfold Unref. rewrite (bind_eq _ _ _ _ _ (entry_eq c e h Ee)). destruct (Z.gtb_spec (refs h) 0); [|lia]. cbv zeta. fold h'.
    rewrite (bind_eq (set_entry e h') _ c tt c0 eq_refl). cbn [refs in_cache with_refs h' value].
    replace (u32 (refs h - 1)) with 0 by by rewrite A6. rewrite Hic. cbn [Z.eqb]. rewrite (bind_eq _ _ _ _ _ Ek). unfold delete_entry. reflexivity.
  - destruct HR as [R1 R2 R3]. assert (Hh : e ∉ lru_ :: L /\ e ∉ in_use_ :: U).
    { rewrite !elem_of_cons. rewrite elem_of_app in Hout. tauto. }
    split; [|split; [done|]; split; [cbn [deleted]; by rewrite Hv|]; apply (keeps_delete c _ e h); cbn [entries deleted set_tab c0]; by rewrite ?delete_insert_eq, ?Hv]. constructor.
    + constructor; [| |done]; cbn [nexts prevs]; (eapply ring_frame; [|eassumption]); intros a Ha;
        rewrite !lookup_delete_ne by (intros ->; tauto); done.
    + eapply (Entries_delete c _ L U (h1 ++ (e, v) :: h2) _ e); [done| |done| | |].
      * cbn [entries set_tab c0]. by rewrite delete_insert_eq.
      * intros a ha Hne Ea. destruct (en_entry _ _ _ _ HE a ha Ea) as [_ (n & En & Hn) _ _ _ _ _ _ _]. exists n. cbn [nexts set_tab c0]. by rewrite lookup_delete_ne.
      * intros a Hne. rewrite uses_drop. destruct (decide (e = a)); [by subst|lia].
      * intros a x Hx. split; [by apply held_drop|]. intros ->. apply uses_in in Hx. lia.
    + cbn [usage_ entries set_tab c0]. rewrite delete_insert_eq, Hu. symmetry. apply charges_ext. intros a Ha. unfold charge_of.
      rewrite lookup_delete_ne; [done|by intros ->].
    + exists T. apply (Tables_set c); [done|done|]. intros a Ha. cbn [entries set_tab c0]. rewrite delete_insert_eq, lookup_delete_ne; [done|by intros ->].
Qed.
Lemma Release_spec c L U h1 e v h2 : ShardOk c L U (h1 ++ (e, v) :: h2) -> Z.of_nat (length (h1 ++ (e, v) :: h2)) < 2 ^ 31 ->
  exists c' L' U', Unref e c = Ret (tt, c') /\ ShardOk c' L' U' (h1 ++ h2) /\ capacity_ c' = capacity_ c /\ keeps c c' /\
    (L' = L /\ U' = U \/ exists u1 u2, U = u1 ++ e :: u2 /\ U' = u1 ++ u2 /\ L' = L ++ [e] /\ deleted c' = deleted c).
Proof.
  intros HS Hlen. destruct HS as [HR HE Hu HT]. destruct (en_held _ _ _ _ HE e v ltac:(set_solver)) as (h & Ee & Hv).
  pose proof (uses_pos e (h1 ++ h2)) as Hp. destruct (en_entry _ _ _ _ HE e h Ee) as [_ _ _ _ _ _ A7 _ _].
  destruct (Z.eq_dec (uses e (h1 ++ h2)) 0) as [Hz|Hnz].
  - destruct (decide (e ∈ L ++ U)) as [Hin|Hout].
    + assert (HeU : e ∈ U).
      { apply elem_of_app in Hin as [Hin|Hin]; [|done]. specialize (A7 Hin). rewrite uses_drop, Hz in A7. by destruct (decide (e = e)). }
      apply list_elem_of_split in HeU as (u1 & u2 & ->).
      destruct (Unref_last c L u1 e u2 h1 v h2 h (Build_ShardOk _ _ _ _ HR HE Hu HT) Ee Hz) as (c' & E & HS' & Hc & Hd & Hkp).
      exists c', (L ++ [e]), (u1 ++ u2). split_and!; [done..|]. right. by exists u1, u2.
    + destruct (Unref_delete c L U h1 e v h2 h (Build_ShardOk _ _ _ _ HR HE Hu HT) Ee Hout Hz) as (c' & E & HS' & Hc & _ & Hkp).
      exists c', L, U. split_and!; [done..|]. by left.
  - destruct (Unref_more c L U h1 e v h2 h (Build_ShardOk _ _ _ _ HR HE Hu HT) Ee Hlen ltac:(lia)) as (c' & E & HS' & Hc & _ & Hkp).
    exists c', L, U. split_and!; [done..|]. by left.
Qed.

(** ** Sizes *)

Lemma charges_bound (es : gmap nat Handle) l : (forall a, a ∈ l -> 0 <= charge_of es a < 2 ^ 32) ->
  0 <= charges es l <= 2 ^ 32 * Z.of_nat (length l).
Proof.
  induction l as [|a l IH]; intros Hf; [done|]. rewrite charges_cons. cbn [length].
  pose proof (Hf a ltac:(set_solver)). assert (0 <= charges es l <= 2 ^ 32 * Z.of_nat (length l)) by (apply IH; set_solver). lia.
Qed.

Lemma entry_charge c L U held a : Entries c L U held -> 0 <= charge_of (entries c) a < 2 ^ 32.
Proof.
  intros HE. unfold charge_of. destruct (entries c !! a) as [h|] eqn:Ea; [|done]. by destruct (en_entry _ _ _ _ HE a h Ea).
Qed.

Lemma few_entries c S T : Tables c S T -> (forall a, a ∈ S -> exists h, entries c !! a = Some h /\ P (key_data h) (value h)) ->
  Z.of_nat (length S) < 2 ^ 31.
Proof.
  intros [HT HP HK] Hf. set (key a := match entries c !! a with Some h => key_data h | None => [] end).
  assert (HN : NoDup (map key S)).
  { assert (HNS : NoDup S) by (rewrite <- HP; apply (to_nodup _ _ _ HT)). apply NoDup_fmap_2_strong; [|done]. intros a b Ha Hb E.
    destruct (Hf a Ha) as (ha & Ea & _). destruct (Hf b Hb) as (hb & Eb & _). apply (HK a b ha hb Ha Hb Ea Eb). unfold key in E. by rewrite Ea, Eb in E. }
  assert (Hsub : map key S ⊆ ks).
  { intros k Hk. apply list_elem_of_fmap in Hk as (a & -> & Ha). destruct (Hf a Ha) as (h & Eh & Hp). unfold key. rewrite Eh. by eapply HPks. }
  pose proof (NoDup_incl_length (l := map key S) (l' := ks)) as Hl. rewrite length_map in Hl.
  assert (length S <= length ks)%nat; [|lia]. apply Hl; [by apply NoDup_ListNoDup|]. intros k Hk. apply list_elem_of_In, Hsub. by apply list_elem_of_In.
Qed.

(** ** [FinishErase] *)

(** After an entry left its list. *)
Lemma erase_rest c L U held S T e h nx pv L' U' :
  Entries c L U held -> usage_ c = charges (entries c) (L ++ U) -> Tables c S T -> L ++ U ≡ₚ e :: S ->
  entries c !! e = Some h -> Z.of_nat (length held) + 1 < 2 ^ 31 ->
  Rings (set_links c nx pv) L' U' -> L ++ U ≡ₚ e :: L' ++ U' -> NoDup (e :: L' ++ U') ->
  (forall a, a <> e -> (a ∈ L' <-> a ∈ L) /\ (a ∈ U' <-> a ∈ U)) ->
  (forall a, a <> lru_ -> a <> in_use_ -> a ∉ L' ++ U' -> nx !! a = nexts c !! a) ->
  let c1 := Build_LRUCache (capacity_ c) (u64 (usage_ c - charge h)) (table_ c) nx pv (<[e := with_in_cache false h]> (entries c)) (deleted c) in
  ShardOk c1 L' U' ((e, value h) :: held).
Proof.
  intros HE Hu HT HS Ee Hlen HR HP HN Hin Hf c1. apply NoDup_cons in HN as [HN1 HN2].
  pose proof (en_entry _ _ _ _ HE e h Ee) as [A1 A2 A3 A4 A5 A6 A7 A8 A9]. assert (HeLU : e ∈ L ++ U) by (rewrite HP; set_solver).
  assert (Hic : in_cache h = true) by by apply A5. rewrite Hic in A6.
  assert (HP' : L' ++ U' ≡ₚ S) by (apply (Permutation_cons_inv (a := e)); by rewrite <- HP).
  assert (HR1 : Rings c1 L' U') by by destruct HR.
  assert (Hlk : forall a ha, entries c !! a = Some ha -> linked c1 a).
  { intros a ha Ea. destruct (en_entry _ _ _ _ HE a ha Ea) as [B1 B2 _ _ _ _ _ _ _]. apply (linked_frame c c1 L' U' a HR1); [|done].
    intros Hout. apply Hf; tauto. }
  assert (Hold : forall a, a ∈ S -> exists ha, entries c !! a = Some ha /\ P (key_data ha) (value ha)).
  { intros a Ha. assert (HaL : a ∈ L ++ U) by (rewrite HS; set_solver). destruct (en_list _ _ _ _ HE a HaL) as [ha Ea]. exists ha. split; [done|].
    by destruct (en_entry _ _ _ _ HE a ha Ea) as [_ _ _ _ _ _ _ _ B9]; apply B9. }
  assert (Hcs : charges (entries c1) (L' ++ U') = charges (entries c) (L' ++ U')).
  { cbn [entries c1]. apply charges_ext. intros a _. unfold charge_of. destruct (decide (a = e)) as [->|]; [by rewrite lookup_insert_eq, Ee|by rewrite lookup_insert_ne]. }
  constructor.
  - done.
  - apply (Entries_set c c1 L U L' U' held _ e h (with_in_cache false h)); [done|done|done|done| |done|by intros; apply uses_other| |].
    + intros a ha _ Ea. by eapply Hlk.
    + intros a v [Hx|Hx]%elem_of_cons; [right; by simplify_eq|by left].
    + constructor; try done; cbn [refs in_cache with_in_cache].
      * by eapply Hlk.
      * rewrite uses_self, A6. lia.
      * intros Hx. exfalso. apply HN1, elem_of_app. by left.
      * intros _. rewrite uses_self. pose proof (uses_pos e held). lia.
  - change (u64 (usage_ c - charge h) = charges (entries c1) (L' ++ U')). rewrite Hcs, Hu, (charges_perm _ _ _ HP), charges_cons.
    unfold charge_of at 1. rewrite Ee. pose proof (few_entries c S T HT Hold) as Hfew. rewrite <- HP' in Hfew.
    destruct (charges_bound (entries c) (L' ++ U') ltac:(intros a _; by eapply entry_charge)). rewrite wrap_small; lia.
  - exists T. apply (Tables_entry c c1 e h (with_in_cache false h) S); done.
Qed.
(** From the list it is in, with what is left of the other. *)
Definition erased_from c L U e c' L' U' : Prop :=
  (exists l1 l2 h, L = l1 ++ e :: l2 /\ L' = l1 ++ l2 /\ U' = U /\ entries c !! e = Some h /\ deleted c' = deleted c ++ [(key_data h, value h)]) \/
  (exists u1 u2, U = u1 ++ e :: u2 /\ U' = u1 ++ u2 /\ L' = L /\ deleted c' = deleted c).

Lemma FinishErase_spec c L U held S T e : Rings c L U -> Entries c L U held -> usage_ c = charges (entries c) (L ++ U) -> Tables c S T ->
  L ++ U ≡ₚ e :: S -> Z.of_nat (length held) + 1 < 2 ^ 31 ->
  exists c' L' U', FinishErase e c = Ret (true, c') /\ ShardOk c' L' U' held /\ capacity_ c' = capacity_ c /\ keeps c c' /\ erased_from c L U e c' L' U'.
Proof.
  intros HR HE Hu HT HS Hlen. assert (HeLU : e ∈ L ++ U) by (rewrite HS; set_solver). destruct (en_list _ _ _ _ HE e HeLU) as [h Ee].
  pose proof (en_entry _ _ _ _ HE e h Ee) as [A1 A2 A3 A4 A5 A6 A7 A8 A9]. assert (Hic : in_cache h = true) by by apply A5.
  assert (HNe : NoDup (L ++ U)) by (destruct HR as [_ _ HN]; apply NoDup_cons in HN as [_ HN]; by apply NoDup_cons in HN as [_ HN]).
  (* what the code does after the removal *)
  assert (Hrun : forall nx pv, LRU_Remove e c = Ret (tt, set_links c nx pv) ->
    let c1 := Build_LRUCache (capacity_ c) (u64 (usage_ c - charge h)) (table_ c) nx pv (<[e := with_in_cache false h]> (entries c)) (deleted c) in
    forall c', Unref e c1 = Ret (tt, c') -> FinishErase e c = Ret (true, c')).
  { intros nx pv E1 c1 c' E2. unfold FinishErase. destruct (Nat.eqb_spec e 0); [tauto|]. rewrite (bind_eq _ _ _ _ _ (entry_eq c e h Ee)), Hic. cbn [negb].
    rewrite (bind_eq _ _ _ _ _ E1). rewrite (bind_eq (set_entry e (with_in_cache false h)) _ _ tt (set_es (set_links c nx pv) (<[e := with_in_cache false h]> (entries c))) eq_refl).
    unfold bind at 1, get at 1. cbn [usage_ set_tab set_links].
    rewrite (bind_eq (set_usage (u64 (usage_ c - charge h))) _ (set_es (set_links c nx pv) (<[e := with_in_cache false h]> (entries c))) tt c1 eq_refl).
    by rewrite (bind_eq _ _ _ _ _ E2). }
  apply elem_of_app in HeLU as [HeL|HeU].
  - apply list_elem_of_split in HeL as (l1 & l2 & ->). destruct (remove_from c _ _ _ _ _ _ (proj1 (Rings_lru _ _ _) HR)) as (nx & pv & E1 & HR1 & Hf).
    apply Rings_lru in HR1. assert (HP : (l1 ++ e :: l2) ++ U ≡ₚ e :: (l1 ++ l2) ++ U) by solve_Permutation.
    assert (HN1 : NoDup (e :: (l1 ++ l2) ++ U)) by by rewrite <- HP.
    pose proof (erase_rest c _ _ held S T e h nx pv (l1 ++ l2) U HE Hu HT HS Ee Hlen HR1 HP HN1) as HS1. cbv zeta in HS1.
    specialize (HS1 ltac:(intros a Hne; rewrite !elem_of_app, elem_of_cons; tauto)
      ltac:(intros a H1 H2 Ho; apply Hf; rewrite elem_of_app in Ho; rewrite elem_of_cons; tauto)).
    destruct (Unref_delete _ _ _ [] e (value h) held (with_in_cache false h) HS1) as (c' & E2 & HS2 & Hc & Hd & Hkp).
    + apply lookup_insert_eq.
    + by apply NoDup_cons in HN1 as [HN1 _].
    + cbn [app]. apply A7. set_solver.
    + exists c', (l1 ++ l2), U. split; [by eapply Hrun|]. split; [done|]. split; [done|]. split; [eapply keeps_trans; [|exact Hkp]; by apply (keeps_set c _ e h (with_in_cache false h))|]. left. by exists l1, l2, h.
  - apply list_elem_of_split in HeU as (u1 & u2 & ->). destruct (remove_from c _ _ _ _ _ _ (proj1 (Rings_use _ _ _) HR)) as (nx & pv & E1 & HR1 & Hf).
    apply Rings_use in HR1. assert (HP : L ++ u1 ++ e :: u2 ≡ₚ e :: L ++ u1 ++ u2) by solve_Permutation.
    assert (HN1 : NoDup (e :: L ++ u1 ++ u2)) by by rewrite <- HP.
    pose proof (erase_rest c _ _ held S T e h nx pv L (u1 ++ u2) HE Hu HT HS Ee Hlen HR1 HP HN1) as HS1. cbv zeta in HS1.
    specialize (HS1 ltac:(intros a Hne; rewrite !elem_of_app, elem_of_cons; tauto)
      ltac:(intros a H1 H2 Ho; apply Hf; rewrite elem_of_app in Ho; rewrite elem_of_cons; tauto)).
    assert (HeL : e ∉ L) by (apply NoDup_cons in HN1 as [HN1 _]; intros Hx; apply HN1, elem_of_app; by left).
    destruct (Unref_more _ _ _ [] e (value h) held (with_in_cache false h) HS1) as (c' & E2 & HS2 & Hc & Hd & Hkp).
    + apply lookup_insert_eq.
    + cbn [app length]. lia.
    + cbn [app]. by apply A8.
    + exists c', L, (u1 ++ u2). split; [by eapply Hrun|]. split; [done|]. split; [done|]. split; [eapply keeps_trans; [|exact Hkp]; by apply (keeps_set c _ e h (with_in_cache false h))|]. right. by exists u1, u2.
Qed.

(** ** Lookups *)

(** The entry with this key. *)
Definition has_key c key (a : nat) : Prop := exists h, entries c !! a = Some h /\ key_data h = key.

Lemma matches_key c L U held a key : Entries c L U held -> matches (entries c) key (HashSlice key) a <-> has_key c key a.
Proof.
  intros HE. split.
  - intros (h & Eh & _ & Hk). by exists h.
  - intros (h & Eh & <-). exists h. split; [done|]. split; [|done]. by destruct (en_entry _ _ _ _ HE a h Eh) as [_ _ [B _] _ _ _ _ _ _].
Qed.

Lemma HashSlice_range k : 0 <= HashSlice k < 2 ^ 32.
Proof. apply Hash_range. lia. Qed.

Lemma table_linked c L U T a : Rings c L U -> Tables c (L ++ U) T -> a ∈ concat T -> linked c a.
Proof. intros HR [_ HP _] Ha. apply (Rings_linked _ _ _ _ HR). by rewrite <- HP. Qed.

(** What a lookup does to the lists: a hit makes the entry one in use. *)
Lemma LRUCache_Lookup_spec c L U held key : ShardOk c L U held -> Z.of_nat (length held) < 2 ^ 31 ->
  exists r c', LRUCache_Lookup key (HashSlice key) c = Ret (r, c') /\ capacity_ c' = capacity_ c /\ deleted c' = deleted c /\ keeps c c' /\
    ((r = 0%nat /\ c' = c /\ forall a, a ∈ L ++ U -> ~ has_key c key a) \/
     (r <> 0%nat /\ exists h L' U', entries c !! r = Some h /\ key_data h = key /\ P key (value h) /\ ShardOk c' L' U' ((r, value h) :: held) /\
        (r ∈ U /\ L' = L /\ U' = U \/ exists l1 l2, L = l1 ++ r :: l2 /\ L' = l1 ++ l2 /\ U' = U ++ [r]))).
Proof.
  intros HS Hlen. pose proof HS as [HR HE Hu (T & HT)]. pose proof HT as [HTok HP HK].
  destruct (HandleTable_Lookup_spec c T key (HashSlice key) HTok ltac:(apply HashSlice_range)) as (r & E & Hr); [intros a; by apply (table_linked c L U T)|].
  unfold LRUCache_Lookup. rewrite (bind_eq _ _ _ _ _ E). destruct Hr as [[-> Hno]|(Hr0 & Hm & Hin)].
  - exists 0%nat, c. split; [done|]. split; [done|]. split; [done|]. split; [done|]. left. split; [done|]. split; [done|]. intros a Ha Hk.
    apply (Hno a); [by rewrite HP|]. by apply (matches_key c L U held).
  - destruct (Nat.eqb_spec r 0); [done|]. destruct Hm as (h & Eh & _ & Hk). rewrite HP in Hin.
    pose proof (en_entry _ _ _ _ HE r h Eh) as [_ _ _ _ _ _ _ _ A9]. specialize (A9 Hin). rewrite Hk in A9. apply elem_of_app in Hin as [Hin|Hin].
    + apply list_elem_of_split in Hin as (l1 & l2 & ->). destruct (Ref_lru c l1 r l2 U held h HS Eh) as (c' & E' & HS' & Hc & Hd & Hkp).
      rewrite (bind_eq _ _ _ _ _ E'). exists r, c'. split_and!; [done..|]. right. split; [done|]. exists h, (l1 ++ l2), (U ++ [r]). split_and!; [done..|].
      right. by exists l1, l2.
    + destruct (Ref_use c L U held r h HS Hin Eh Hlen) as (c' & E' & HS' & Hc & Hd & Hkp).
      rewrite (bind_eq _ _ _ _ _ E'). exists r, c'. split_and!; [done..|]. right. split; [done|]. exists h, L, U. split_and!; [done..|]. by left.
Qed.

(** [Remove] and [FinishErase], of any key. *)
Lemma erase_key c L U held key : ShardOk c L U held -> Z.of_nat (length held) + 1 < 2 ^ 31 ->
  exists b c' L' U', bind (HandleTable_Remove key (HashSlice key)) FinishErase c = Ret (b, c') /\ ShardOk c' L' U' held /\ capacity_ c' = capacity_ c /\ keeps c c' /\
    ((b = false /\ L' = L /\ U' = U /\ forall a, a ∈ L ++ U -> ~ has_key c key a) \/
     b = true /\ exists r, has_key c key r /\ r ∈ L ++ U /\ erased_from c L U r c' L' U').
Proof.
  intros HS Hlen. pose proof HS as [HR HE Hu (T & HT)]. pose proof HT as [HTok HP HK].
  assert (Hfew : Z.of_nat (length (L ++ U)) < 2 ^ 31).
  { apply (few_entries c _ T HT). intros a Ha. destruct (en_list _ _ _ _ HE a Ha) as [h Ea]. exists h. split; [done|].
    by destruct (en_entry _ _ _ _ HE a h Ea) as [_ _ _ _ _ _ _ _ A9]; apply A9. }
  destruct (HandleTable_Remove_spec c T key (HashSlice key) HTok ltac:(apply HashSlice_range)) as (r & t' & es' & T' & E & HT' & Hsame & Hr);
    [intros a; by apply (table_linked c L U T)|rewrite (Permutation_length HP); lia|].
  rewrite (bind_eq _ _ _ _ _ E). set (c1 := set_tab c t' es') in *.
  assert (HR1 : Rings c1 L U) by by apply Rings_tab. assert (HE1 : Entries c1 L U held) by by apply Entries_tab.
  assert (Hu1 : usage_ c1 = charges (entries c1) (L ++ U)).
  { change (usage_ c = charges es' (L ++ U)). rewrite Hu. symmetry. apply charges_ext. intros a _. by apply same_info_charge. }
  assert (HK1 : forall S, (forall a, a ∈ S -> a ∈ L ++ U) -> forall a b ha hb, a ∈ S -> b ∈ S -> es' !! a = Some ha -> es' !! b = Some hb -> key_data ha = key_data hb -> a = b).
  { intros S HSub a b ha hb Ha Hb Ea Eb Hk. destruct (same_info_lookup _ _ _ _ (same_info_sym _ _ Hsame) Ea) as (na & Ea').
    destruct (same_info_lookup _ _ _ _ (same_info_sym _ _ Hsame) Eb) as (nb & Eb'). apply (HK a b _ _ (HSub a Ha) (HSub b Hb) Ea' Eb'). by destruct ha, hb. }
  destruct Hr as [(-> & HP1 & Hno)|(Hr0 & Hm & HP1)].
  - exists false, c1, L, U. split; [done|]. split; [|split; [done|split; [by apply keeps_info|]]].
    + constructor; [done..|]. exists T'. constructor; [done|by rewrite HP1|by apply HK1].
    + left. split; [done|]. split; [done|]. split; [done|]. intros a Ha Hk. apply (Hno a); [by rewrite HP|]. by apply (matches_key c L U held).
  - assert (HS1 : L ++ U ≡ₚ r :: concat T') by by rewrite <- HP, HP1.
    destruct (FinishErase_spec c1 L U held (concat T') T' r HR1 HE1 Hu1) as (c' & L' & U' & E' & HS' & Hc & Hkp & Her); [|done|done|].
    + constructor; [done|done|]. apply HK1. intros a Ha. rewrite HS1. set_solver.
    + exists true, c', L', U'. split; [done|]. split; [done|]. split; [done|].
      split; [eapply keeps_trans; [by apply (keeps_info c c1)|done]|]. right. split; [done|]. exists r.
      split; [by apply (matches_key c L U held)|]. split; [rewrite HS1; set_solver|].
      destruct Her as [(l1 & l2 & h & H1 & H2 & H3 & Eh & Hd)|Her]; [|by right]. left.
      destruct (same_info_lookup _ _ _ _ (same_info_sym _ _ Hsame) Eh) as (n & En). exists l1, l2, (with_next_hash n h). split_and!; [done..|]. by destruct h.
Qed.
Lemma bind_bind {St A B D} (f : M St A) (g : A -> M St B) (k : B -> M St D) s : bind f (fun a => bind (g a) k) s = bind (bind f g) k s.
Proof. unfold bind. by destruct (f s) as [[a s']| |]. Qed.

Lemma LRUCache_Erase_spec c L U held key : ShardOk c L U held -> Z.of_nat (length held) + 1 < 2 ^ 31 ->
  exists c' L' U', LRUCache_Erase key (HashSlice key) c = Ret (tt, c') /\ ShardOk c' L' U' held /\ capacity_ c' = capacity_ c /\ keeps c c' /\
    ((L' = L /\ U' = U /\ forall a, a ∈ L ++ U -> ~ has_key c key a) \/ exists r, has_key c key r /\ r ∈ L ++ U /\ erased_from c L U r c' L' U').
Proof.
  intros HS Hlen. destruct (erase_key c L U held key HS Hlen) as (b & c' & L' & U' & E & HS' & Hc & Hkp & Hcase). exists c', L', U'.
  unfold LRUCache_Erase. rewrite bind_bind, (bind_eq _ _ _ _ _ E). split; [done|]. split; [done|]. split; [done|]. split; [done|]. tauto.
Qed.

(** ** Eviction *)

(** The oldest entry that is not in use goes, and nothing else. *)
Lemma evict_spec c old L U held : ShardOk c (old :: L) U held -> Z.of_nat (length held) + 1 < 2 ^ 31 ->
  exists c' h, evict c = Ret (tt, c') /\ ShardOk c' L U held /\ capacity_ c' = capacity_ c /\ keeps c c' /\ entries c !! old = Some h /\
    deleted c' = deleted c ++ [(key_data h, value h)].
Proof.
  intros HS Hlen. pose proof HS as [HR HE Hu (T & HT)]. destruct (en_list _ _ _ _ HE old ltac:(cbn; set_solver)) as [h Eh].
  pose proof (en_entry _ _ _ _ HE old h Eh) as [A1 A2 [A3 _] A4 A5 A6 A7 A8 A9].
  assert (Hic : in_cache h = true) by (apply A5, elem_of_app; left; apply elem_of_cons; by left). rewrite Hic, A7 in A6 by (apply elem_of_cons; by left).
  assert (Hn : get_next lru_ c = Ret (old, c)).
  { destruct HR as [H1 _ _]. apply ring_first in H1. unfold get_next, bind, get. by rewrite H1. }
  destruct (erase_key c (old :: L) U held (key_data h) HS Hlen) as (b & c' & L' & U' & E & HS' & Hc & Hkp & Hcase).
  assert (Hk : has_key c (key_data h) old) by by exists h.
  destruct Hcase as [(_ & _ & _ & Hno)|(-> & r & (hr & Er & Hkr) & Hin & Her)]; [exfalso; apply (Hno old); [cbn; set_solver|done]|].
  assert (r = old) as -> by (destruct HT as [_ _ HK]; by apply (HK r old hr h Hin ltac:(cbn; set_solver))).
  assert (HNd : NoDup ((old :: L) ++ U)) by (destruct HR as [_ _ HN]; apply NoDup_cons in HN as [_ HN]; by apply NoDup_cons in HN as [_ HN]).
  cbn [app] in HNd. apply NoDup_cons in HNd as [HNd _]. rewrite elem_of_app in HNd.
  assert (Hres : L' = L /\ U' = U /\ deleted c' = deleted c ++ [(key_data h, value h)]).
  { destruct Her as [(l1 & l2 & h0 & EL & -> & -> & E0 & Hd)|(u1 & u2 & EU & _)].
    - rewrite Eh in E0. injection E0 as <-. destruct l1 as [|x l1]; [by injection EL as ->|]. injection EL as -> ->. exfalso. apply HNd. left. set_solver.
    - exfalso. apply HNd. right. rewrite EU. set_solver. }
  destruct Hres as (-> & -> & Hd). exists c', h. split; [|done]. unfold evict. rewrite (bind_eq _ _ _ _ _ Hn), (bind_eq _ _ _ _ _ (entry_eq c old h Eh)).
  destruct (Z.eqb_spec (refs h) 1); [|lia]. cbn [negb]. rewrite (bind_eq _ _ _ _ _ (handle_key_spec c old h Eh A2)), A3, bind_bind. by rewrite (bind_eq _ _ _ _ _ E).
Qed.

(** The oldest [n] entries go, as few as make the cache fit, or all. *)
Lemma evict_loop_spec always U held fuel : Z.of_nat (length held) + 1 < 2 ^ 31 -> forall c L, ShardOk c L U held -> (length L < fuel)%nat ->
  exists c' n, evict_loop fuel always c = Ret (tt, c') /\ ShardOk c' (drop n L) U held /\ capacity_ c' = capacity_ c /\ keeps c c' /\ (n <= length L)%nat /\
    (drop n L = [] \/ always = false /\ usage_ c' <= capacity_ c') /\
    (forall m, (m < n)%nat -> always = true \/ capacity_ c < charges (entries c) (drop m L ++ U)).
Proof.
  intros Hlen. induction fuel as [|fuel IH]; intros c L HS Hf; [lia|]. cbn [evict_loop]. unfold bind at 1, get at 1.
  assert (Hn : get_next lru_ c = Ret (hd lru_ L, c)).
  { destruct HS as [[H1 _ _] _ _ _]. apply ring_first in H1. unfold get_next, bind, get. by rewrite H1. }
  rewrite (bind_eq _ _ _ _ _ Hn). destruct L as [|old L]; cbn [hd].
  - rewrite andb_false_r. exists c, 0%nat. split; [done|]. split; [done|]. split; [done|]. split; [done|]. split; [done|]. split; [by left|]. lia.
  - assert (Hne : (old =? lru_)%nat = false).
    { apply Nat.eqb_neq. destruct HS as [[_ _ HN] _ _ _]. apply NoDup_cons in HN as [HN _]. intros ->. apply HN. set_solver. }
    rewrite Hne, andb_true_r. destruct (always || (usage_ c >? capacity_ c)) eqn:Eb.
    + destruct (evict_spec c old L U held HS Hlen) as (c1 & h & E1 & HS1 & Hc1 & Hk1 & Eh & _). rewrite (bind_eq _ _ _ _ _ E1). cbn [length] in Hf.
      destruct (IH c1 L HS1 ltac:(lia)) as (c2 & n & E2 & HS2 & Hc2 & Hk2 & Hnl & Hend & Hmin). exists c2, (S n). split; [done|]. split; [done|].
      split; [congruence|]. split; [by eapply keeps_trans|]. split; [cbn; lia|]. split; [done|]. intros m Hm.
      assert (Hbig : always = true \/ capacity_ c < usage_ c).
      { apply orb_true_iff in Eb as [->|Hg]; [by left|right]. destruct (Z.gtb_spec (usage_ c) (capacity_ c)); [lia|done]. }
      destruct m as [|m]; [by rewrite (so_usage _ _ _ _ HS) in Hbig|]. cbn [drop]. destruct (Hmin m ltac:(lia)) as [|Hlt]; [by left|]. right.
      rewrite <- Hc1. rewrite <- (charges_ext (entries c) (entries c1)); [exact Hlt|]. intros a Ha. apply keeps_charge; [done|].
      destruct HS1 as [_ HE1 _ _]. apply (en_list _ _ _ _ HE1). apply elem_of_app in Ha as [Ha|Ha]; apply elem_of_app; [left|by right].
      apply list_elem_of_lookup in Ha as (i & Ha). rewrite lookup_drop in Ha. by eapply list_elem_of_lookup_2.
    + exists c, 0%nat. split; [done|]. split; [done|]. split; [done|]. split; [done|]. split; [cbn; lia|]. split; [|lia]. right. apply orb_false_iff in Eb as [-> Hg].
      split; [done|]. destruct (Z.gtb_spec (usage_ c) (capacity_ c)); [done|lia].
Qed.
(** ** [Insert] *)

Context (malloc : gset nat -> nat) (Hmalloc : forall X, malloc X ∉ X /\ malloc X <> 0%nat).

Lemma charges_app (es : gmap nat Handle) l a : charges es (l ++ [a]) = charges es l + charge_of es a.
Proof. rewrite (charges_perm es (l ++ [a]) (a :: l)) by solve_Permutation. rewrite charges_cons. lia. Qed.

(** A new entry, held once and not in the cache. *)
Lemma allocate_spec c L U held key v chg : ShardOk c L U held -> Shard (HashSlice key) = shard -> 0 <= chg < 2 ^ 32 ->
  let h := Build_LRUHandle v 0%nat chg key false 1 (HashSlice key) in
  exists e nx pv, let c' := Build_LRUCache (capacity_ c) (usage_ c) (table_ c) nx pv (<[e := h]> (entries c)) (deleted c) in
    allocate malloc h c = Ret (e, c') /\ ShardOk c' L U ((e, v) :: held) /\ e ∉ L ++ U /\ entries c !! e = None /\ nx !! e = Some 0%nat.
Proof.
  intros [HR HE Hu (T & HT)] Hsh Hchg h. set (e := malloc (dom (nexts c) ∪ dom (entries c))). destruct (Hmalloc (dom (nexts c) ∪ dom (entries c))) as [Hfr He0].
  fold e in Hfr, He0. apply not_elem_of_union in Hfr as [Hfn Hfe]. apply not_elem_of_dom in Hfn, Hfe.
  exists e, (<[e := 0%nat]> (nexts c)), (<[e := 0%nat]> (prevs c)). cbv zeta. split; [reflexivity|].
  assert (HeLU : e ∉ L ++ U) by (intros Hin; destruct (en_list _ _ _ _ HE e Hin) as [x Hx]; congruence).
  assert (Hh : e <> lru_ /\ e <> in_use_).
  { destruct HR as [H1 H2 _]. apply ring_first in H1, H2. split; intros ->; congruence. }
  assert (Hne : forall a x, entries c !! a = Some x -> a <> e) by (intros a x Ha ->; congruence).
  split; [|split; [done|split; [done|apply lookup_insert_eq]]]. constructor.
  - destruct HR as [H1 H2 HN]. rewrite elem_of_app in HeLU. constructor; [| |done]; cbn [nexts prevs]; (eapply ring_frame; [|eassumption]); intros a Ha;
      rewrite !elem_of_cons in Ha; rewrite !lookup_insert_ne by (intros <-; tauto); done.
  - destruct HE as [E1 E2 E3]. assert (Hz : uses e held = 0).
    { destruct (Z.eq_dec (uses e held) 0) as [|Hnz]; [done|]. exfalso. assert (Hin : exists x, (e, x) ∈ held).
      { unfold uses in Hnz. destruct (filter (fun x => x.1 = e) held) as [|[a x] l] eqn:Ef; [done|]. exists x.
        assert (Hx : (a, x) ∈ filter (fun x => x.1 = e) held) by (rewrite Ef; apply elem_of_cons; by left). apply list_elem_of_filter in Hx as [Hx1 Hx2]. cbn in Hx1. by subst. }
      destruct Hin as (x & Hx). destruct (E2 e x Hx) as (y & Hy & _). congruence. }
    constructor; cbn [entries].
    + intros a ha Ea. destruct (decide (a = e)) as [->|Hae].
      * rewrite lookup_insert_eq in Ea. injection Ea as <-. constructor; try done; cbn [in_cache refs h].
        -- exists 0%nat. cbn [nexts]. split; [apply lookup_insert_eq|]. by intros <-.
        -- rewrite uses_self, Hz. done.
        -- intros Hx. exfalso. apply HeLU, elem_of_app. by left.
        -- rewrite uses_self, Hz. done.
      * rewrite lookup_insert_ne in Ea by done. destruct (E1 a ha Ea) as [A1 (n & En & Hn) A3 A4 A5 A6 A7 A8 A9].
        constructor; rewrite ?uses_other by done; try done. exists n. cbn [nexts]. by rewrite lookup_insert_ne.
    + intros a x [Hx|Hx]%elem_of_cons.
      * simplify_eq. exists h. by rewrite lookup_insert_eq.
      * destruct (E2 a x Hx) as (y & Hy & Hv). exists y. rewrite lookup_insert_ne; [done|]. intros <-. by apply (Hne e y).
    + intros a Ha. rewrite lookup_insert_ne; [by apply E3|]. by intros <-.
  - cbn [usage_ entries]. rewrite Hu. symmetry. apply charges_ext. intros a Ha. unfold charge_of. rewrite lookup_insert_ne; [done|by intros <-].
  - exists T. apply (Tables_set c); [done|done|]. intros a Ha. cbn [entries]. rewrite lookup_insert_ne; [done|by intros <-].
Qed.
(** The new entry gets into the list of those in use, before the table knows it. *)
Lemma link_new c L U held e h : ShardOk c L U held -> entries c !! e = Some h -> e ∉ L ++ U -> uses e held = 1 -> P (key_data h) (value h) ->
  Z.of_nat (length (L ++ U)) < 2 ^ 31 ->
  let h' := with_in_cache true (with_refs (u32 (refs h + 1)) h) in
  exists nx pv, let c0 := set_es c (<[e := h']> (entries c)) in
    let c' := Build_LRUCache (capacity_ c) (u64 (usage_ c + charge h)) (table_ c) nx pv (<[e := h']> (entries c)) (deleted c) in
    LRU_Append in_use_ e c0 = Ret (tt, set_links c0 nx pv) /\ Rings c' L (U ++ [e]) /\ Entries c' L (U ++ [e]) held /\
    usage_ c' = charges (entries c') (L ++ U ++ [e]) /\ exists T, Tables c' (L ++ U) T.
Proof.
  intros [HR HE Hu (T & HT)] Ee Hout Huse HPe Hlen h'. pose proof (en_entry _ _ _ _ HE e h Ee) as [A1 A2 A3 A4 A5 A6 A7 A8 A9].
  assert (Hic : in_cache h = false) by (destruct (in_cache h); [exfalso; by apply Hout, A5|done]). rewrite Hic, Huse in A6.
  set (c0 := set_es c (<[e := h']> (entries c))).
  assert (Hnot : e ∉ (in_use_ :: U) ++ lru_ :: L) by (rewrite elem_of_app, !elem_of_cons; rewrite elem_of_app in Hout; tauto).
  destruct (append_to c0 in_use_ U lru_ L e) as (nx & pv & E1 & HR1 & Hf); [apply Rings_use; by apply Rings_tab|done|].
  exists nx, pv. cbv zeta. split; [exact E1|]. set (c' := Build_LRUCache _ _ _ _ _ _ _).
  assert (HR' : Rings c' L (U ++ [e])) by (apply Rings_use in HR1; by destruct HR1).
  split; [done|]. assert (Hin : e ∈ L ++ U ++ [e]) by (rewrite !elem_of_app, list_elem_of_singleton; tauto). split; [|split].
  - apply (Entries_set c c' L U L (U ++ [e]) held held e h h'); [done|done|done|done| | |done| |].
    + intros a ha Hne Ea. destruct (en_entry _ _ _ _ HE a ha Ea) as [B1 B2 _ _ _ _ _ _ _]. apply (linked_frame c c' L (U ++ [e]) a HR'); [|done].
      rewrite !elem_of_app, list_elem_of_singleton. intros Ho. change (nx !! a = nexts c !! a). apply Hf.
      rewrite elem_of_cons, elem_of_app, list_elem_of_singleton. tauto.
    + intros a Hne. rewrite elem_of_app, list_elem_of_singleton. tauto.
    + intros a x Hx. by left.
    + constructor; try done; cbn [refs in_cache with_refs with_in_cache h'].
      * by apply (Rings_linked c' L (U ++ [e])).
      * by rewrite A6, Huse.
  - change (u64 (usage_ c + charge h) = charges (<[e := h']> (entries c)) (L ++ U ++ [e])).
    rewrite (charges_set c e h h' (L ++ U ++ [e]) _ Ee) by done. rewrite app_assoc, charges_app, Hu. unfold charge_of. rewrite Ee.
    destruct (charges_bound (entries c) (L ++ U) ltac:(intros a _; by eapply entry_charge)). rewrite wrap_small; lia.
  - exists T. apply (Tables_set c); [done|done|]. intros a Ha. cbn [entries c']. rewrite lookup_insert_ne; [done|]. by intros <-.
Qed.

Lemma table_few c L U held S T : Entries c L U held -> Tables c S T -> (forall a, a ∈ S -> a ∈ L ++ U) -> Z.of_nat (length S) < 2 ^ 31.
Proof.
  intros HE HT HSub. apply (few_entries c S T HT). intros a Ha. destruct (en_list _ _ _ _ HE a (HSub a Ha)) as [h Ea]. exists h. split; [done|].
  destruct (en_entry _ _ _ _ HE a h Ea) as [_ _ _ _ _ _ _ _ A9]. apply A9. by apply HSub.
Qed.

(** The table takes it, and the old entry with its key is finished. *)
Lemma table_new c L U held e h T : Rings c L (U ++ [e]) -> Entries c L (U ++ [e]) held -> usage_ c = charges (entries c) (L ++ U ++ [e]) ->
  Tables c (L ++ U) T -> entries c !! e = Some h -> Z.of_nat (length held) + 1 < 2 ^ 31 ->
  exists b c' L' U', bind (HandleTable_Insert e) FinishErase c = Ret (b, c') /\ ShardOk c' L' (U' ++ [e]) held /\ capacity_ c' = capacity_ c /\
    keeps c c' /\
    (L' = L /\ U' = U /\ deleted c' = deleted c /\ (forall a, a ∈ L ++ U -> ~ has_key c (key_data h) a) \/
     exists old, old ∈ L ++ U /\ has_key c (key_data h) old /\ erased_from c L (U ++ [e]) old c' L' (U' ++ [e])).
Proof.
  intros HR HE Hu HT Ee Hlen. pose proof HT as [HTok HP HK].
  assert (HNd : NoDup (L ++ U ++ [e])) by (destruct HR as [_ _ HN]; apply NoDup_cons in HN as [_ HN]; by apply NoDup_cons in HN as [_ HN]).
  assert (He : e ∉ L ++ U) by (rewrite app_assoc in HNd; apply NoDup_app in HNd as (_ & Hd & _); intros Hx; apply (Hd e Hx); set_solver).
  assert (Hin : e ∈ L ++ U ++ [e]) by (rewrite !elem_of_app, list_elem_of_singleton; tauto).
  assert (HSub : forall a, a ∈ L ++ U -> a ∈ L ++ U ++ [e]) by (intros a; rewrite !elem_of_app; tauto).
  pose proof (en_entry _ _ _ _ HE e h Ee) as [A1 A2 [A3 _] A4 A5 A6 A7 A8 A9].
  pose proof (table_few c L (U ++ [e]) held _ T HE HT HSub) as Hfew.
  destruct (HandleTable_Insert_spec c T e h HTok Ee) as (old & t' & es' & T' & E & HT' & Hsame & Hr).
  - tauto.
  - by rewrite HP.
  - rewrite A3. apply HashSlice_range.
  - done.
  - intros a Ha. apply (Rings_linked c L (U ++ [e])); [done|]. apply HSub. by rewrite <- HP.
  - by rewrite (Permutation_length HP).
  - rewrite (bind_eq _ _ _ _ _ E). set (c1 := set_tab c t' es') in *. rewrite A3 in Hr.
    assert (HR1 : Rings c1 L (U ++ [e])) by by apply Rings_tab. assert (HE1 : Entries c1 L (U ++ [e]) held) by by apply Entries_tab.
    assert (Hu1 : usage_ c1 = charges (entries c1) (L ++ U ++ [e])).
    { change (usage_ c = charges es' (L ++ U ++ [e])). rewrite Hu. symmetry. apply charges_ext. intros a _. by apply same_info_charge. }
    assert (HK1 : forall a b ha hb, a ∈ L ++ U -> b ∈ L ++ U -> es' !! a = Some ha -> es' !! b = Some hb -> key_data ha = key_data hb -> a = b).
    { intros a b ha hb Ha Hb Ea Eb Hk. destruct (same_info_lookup _ _ _ _ (same_info_sym _ _ Hsame) Ea) as (na & Ea').
      destruct (same_info_lookup _ _ _ _ (same_info_sym _ _ Hsame) Eb) as (nb & Eb'). apply (HK a b _ _ Ha Hb Ea' Eb'). by destruct ha, hb. }
    (* an entry with the key of the new one *)
    assert (Hkey : forall a ha hb, es' !! a = Some ha -> es' !! e = Some hb -> key_data ha = key_data hb -> has_key c (key_data h) a).
    { intros a ha hb Ea Eb Hk. destruct (same_info_lookup _ _ _ _ (same_info_sym _ _ Hsame) Ea) as (na & Ea').
      destruct (same_info_lookup _ _ _ _ Hsame Ee) as (nb & Eb'). rewrite Eb in Eb'. injection Eb' as ->. exists (with_next_hash na ha). split; [done|]. by destruct ha, h. }
    destruct Hr as [(-> & HP1 & Hno)|(Hr0 & Hold & Hm & HP1)].
    + exists false, c1, L, U. split; [done|]. split; [|split; [done|split; [by apply keeps_info|]]].
      * constructor; [done..|]. exists T'. constructor; [done|rewrite HP1, HP; solve_Permutation|].
        assert (Hnk : forall a, a ∈ L ++ U -> ~ has_key c (key_data h) a).
        { intros a Ha Hk. apply (Hno a); [by rewrite HP|]. by apply (matches_key c L (U ++ [e]) held). }
        intros a b ha hb Ha Hb Ea Eb Hk. rewrite app_assoc in Ha, Hb. apply elem_of_app in Ha as [Ha|Ha%list_elem_of_singleton], Hb as [Hb|Hb%list_elem_of_singleton]; subst.
        -- by eapply HK1.
        -- exfalso. apply (Hnk a Ha). by eapply Hkey.
        -- exfalso. apply (Hnk b Hb). eapply Hkey; [exact Eb|exact Ea|done].
        -- done.
      * left. split; [done|]. split; [done|]. split; [done|]. intros a Ha Hk. apply (Hno a); [by rewrite HP|]. by apply (matches_key c L (U ++ [e]) held).
    + rewrite HP in Hold. assert (HS1 : L ++ U ++ [e] ≡ₚ old :: concat T') by (rewrite <- HP1, HP; solve_Permutation).
      apply (matches_key c L (U ++ [e]) held) in Hm; [|done].
      assert (HNT : old ∉ concat T') by (rewrite HS1 in HNd; by apply NoDup_cons in HNd as [HNd _]).
      destruct (FinishErase_spec c1 L (U ++ [e]) held (concat T') T' old HR1 HE1 Hu1) as (c' & L' & U1 & E' & HS' & Hc & Hkp & Her); [|done|done|].
      * constructor; [done|done|]. assert (Hsplit : forall a, a ∈ concat T' -> a ∈ L ++ U \/ a = e).
        { intros a Ha. assert (Hx : a ∈ L ++ U ++ [e]) by (rewrite HS1; apply elem_of_cons; by right).
          rewrite app_assoc, elem_of_app, list_elem_of_singleton in Hx. done. }
        assert (Hone : forall a ha hb, a ∈ concat T' -> a ∈ L ++ U -> es' !! a = Some ha -> es' !! e = Some hb -> key_data ha = key_data hb -> False).
        { intros a ha hb Ha HaL Ea Eb Hk. destruct (Hkey a ha hb Ea Eb Hk) as (h1 & E1 & K1). destruct Hm as (h2 & E2 & K2).
          apply HNT. rewrite (HK old a h2 h1 Hold HaL E2 E1 ltac:(congruence)). done. }
        intros a b ha hb Ha Hb Ea Eb Hk. destruct (Hsplit a Ha) as [HaL| ->], (Hsplit b Hb) as [HbL| ->].
        -- by eapply HK1.
        -- exfalso. by eapply (Hone a ha hb).
        -- exfalso. by eapply (Hone b hb ha).
        -- done.
      * assert (HU : exists U', U1 = U' ++ [e]).
        { destruct Her as [(l1 & l2 & h0 & _ & _ & -> & _)|(u1 & u2 & EU & -> & _)]; [by exists U|].
          destruct u2 as [|x u2 _] using rev_ind.
          - apply app_inj_tail in EU as [_ <-]. exfalso. by apply He.
          - rewrite app_comm_cons, app_assoc in EU. apply app_inj_tail in EU as [_ <-]. exists (u1 ++ u2). by rewrite app_assoc. }
        destruct HU as (U' & ->). exists true, c', L', U'. split; [done|]. split; [done|]. split; [done|].
        split; [eapply keeps_trans; [by apply (keeps_info c c1)|done]|]. right. exists old. split; [done|]. split; [done|].
        destruct Her as [(l1 & l2 & h0 & H1 & H2 & H3 & Eh & Hd)|Her]; [|by right]. left.
        destruct (same_info_lookup _ _ _ _ (same_info_sym _ _ Hsame) Eh) as (n & En). exists l1, l2, (with_next_hash n h0). split_and!; [done..|]. by destruct h0.
Qed.

(** The loops over the entries have enough fuel. *)
Lemma list_fuel c L U held : Entries c L U held -> NoDup (L ++ U) -> (length L < chain_fuel c)%nat.
Proof.
  clear ks Hks HPks. intros HE HN. unfold chain_fuel. pose proof (concat_length_lt (entries c) [L ++ U]) as Hs. cbn [concat] in Hs. rewrite app_nil_r in Hs.
  specialize (Hs HN (en_list _ _ _ _ HE)). rewrite length_app in Hs. lia.
Qed.

Lemma Rings_nodup c L U : Rings c L U -> NoDup (L ++ U).
Proof. intros [_ _ HN]. apply NoDup_cons in HN as [_ HN]. by apply NoDup_cons in HN as [_ HN]. Qed.

(** What an insertion does before it makes room. *)
Definition insert_entry (e : nat) (chg : Z) : M C unit :=
  let* h := entry e in
  set_entry e (with_in_cache true (with_refs (u32 (refs h + 1)) h)) ;;;
  LRU_Append in_use_ e ;;;
  let* c := get in
  set_usage (u64 (usage_ c + chg)) ;;;
  let* old := HandleTable_Insert e in
  let* _ := FinishErase old in
  ret tt.

Lemma insert_entry_spec c L U held e h : ShardOk c L U held -> entries c !! e = Some h -> e ∉ L ++ U -> uses e held = 1 -> P (key_data h) (value h) ->
  Z.of_nat (length held) + 1 < 2 ^ 31 ->
  exists c' L' U', insert_entry e (charge h) c = Ret (tt, c') /\ ShardOk c' L' (U' ++ [e]) held /\ capacity_ c' = capacity_ c /\ keeps c c' /\
    (L' = L /\ U' = U /\ deleted c' = deleted c /\ (forall a, a ∈ L ++ U -> ~ has_key c (key_data h) a) \/
     exists old, old ∈ L ++ U /\ has_key c (key_data h) old /\ erased_from c L (U ++ [e]) old c' L' (U' ++ [e])).
Proof.
  intros HS Ee Hout Huse HP Hlen. pose proof HS as [_ HE _ (T0 & HT0)].
  pose proof (table_few c L U held _ T0 HE HT0 (fun _ => id)) as Hfew.
  destruct (link_new c L U held e h HS Ee Hout Huse HP Hfew) as (nx & pv & E1 & HR1 & HE1 & Hu1 & T & HT). cbv zeta in *.
  set (h' := with_in_cache true (with_refs (u32 (refs h + 1)) h)) in *. set (c0 := set_es c (<[e := h']> (entries c))) in *.
  set (c1 := Build_LRUCache _ _ _ _ _ _ _) in *.
  assert (Ee1 : entries c1 !! e = Some h') by apply lookup_insert_eq.
  destruct (table_new c1 L U held e h' T HR1 HE1 Hu1 HT Ee1 Hlen) as (b & c' & L' & U' & E2 & HS' & Hc & Hk & Hcase).
  assert (Hold : forall a, a ∈ L ++ U -> entries c1 !! a = entries c !! a).
  { intros a Ha. apply lookup_insert_ne. by intros <-. }
  exists c', L', U'. split; [|split; [done|split; [done|split; [eapply keeps_trans; [|exact Hk]; by apply (keeps_set c c1 e h h')|]]]].
  - unfold insert_entry. rewrite (bind_eq _ _ _ _ _ (entry_eq c e h Ee)). fold h'. rewrite (bind_eq _ _ _ _ _ (set_entry_eq c e h')). fold c0.
    rewrite (bind_eq _ _ _ _ _ E1). unfold bind at 1, get at 1. rewrite (bind_eq (set_usage (u64 (usage_ c + charge h))) _ (set_links c0 nx pv) tt c1 eq_refl).
    rewrite bind_bind, (bind_eq _ _ _ _ _ E2). done.
  - destruct Hcase as [(-> & -> & Hd & Hno)|(old & Hin & (ho & Eo & Hko) & Her)]; [left|right].
    + split; [done|]. split; [done|]. split; [done|]. intros a Ha (ha & Ea & Hka). apply (Hno a Ha). exists ha. by rewrite Hold.
    + exists old. split; [done|]. rewrite Hold in Eo by done. split; [by exists ho|].
      destruct Her as [(l1 & l2 & h0 & H1 & H2 & H3 & Eh & Hd)|Her]; [|by right]. left. rewrite Hold in Eh by done. by exists l1, l2, h0.
Qed.

Lemma Insert_unfold c key hsh v chg : LRUCache_Insert malloc key hsh v chg c =
  (let* e := allocate malloc (Build_LRUHandle v 0%nat chg key false 1 hsh) in
   let* c := get in
   (if capacity_ c >? 0 then insert_entry e chg else set_next e 0%nat) ;;;
   let* c := get in
   evict_loop (chain_fuel c) false ;;;
   ret e) c.
Proof. done. Qed.

Lemma keeps_key c c' e v key chg h : keeps c c' -> entries c !! e = Some h -> content h = (key, v, chg) -> is_Some (entries c' !! e) -> has_key c' key e.
Proof.
  intros [Hk _] Eh Hh Hs. specialize (Hk e Hs). rewrite Eh in Hk. destruct (entries c' !! e) as [h'|] eqn:E'; [|done]. exists h'. split; [done|].
  cbn in Hk. rewrite Hh in Hk. by injection Hk.
Qed.

(** The loop that makes room. *)
Lemma make_room always c L U held : ShardOk c L U held -> Z.of_nat (length held) + 1 < 2 ^ 31 ->
  exists c' n, bind get (fun c => evict_loop (chain_fuel c) always) c = Ret (tt, c') /\ ShardOk c' (drop n L) U held /\ capacity_ c' = capacity_ c /\ keeps c c' /\
    (n <= length L)%nat /\ (drop n L = [] \/ always = false /\ usage_ c' <= capacity_ c') /\
    (forall m, (m < n)%nat -> always = true \/ capacity_ c < charges (entries c) (drop m L ++ U)).
Proof.
  intros HS Hlen. unfold bind, get. apply evict_loop_spec; [done|done|]. destruct HS as [HR HE _ _]. eapply list_fuel; [done|]. by apply Rings_nodup in HR.
Qed.

(** The lists with the new entry [e] in use, instead of an old one with its key. *)
Definition replaced c L U key e L1 U1 : Prop :=
  (L1 = L /\ U1 = U ++ [e] /\ forall a, a ∈ L ++ U -> ~ has_key c key a) \/
  exists old, has_key c key old /\
    ((exists l1 l2, L = l1 ++ old :: l2 /\ L1 = l1 ++ l2 /\ U1 = U ++ [e]) \/
     (exists u1 u2, U = u1 ++ old :: u2 /\ L1 = L /\ U1 = (u1 ++ u2) ++ [e])).

(** The charges of the entries [l], of which [e] is new. *)
Definition charges_with c e chg (l : list nat) : Z :=
  fold_right Z.add 0 (map (fun a => if decide (a = e) then chg else charge_of (entries c) a) l).

Lemma replaced_from c c' L U key e old L' U' : e ∉ L ++ U -> old ∈ L ++ U -> has_key c key old ->
  erased_from c L (U ++ [e]) old c' L' (U' ++ [e]) -> replaced c L U key e L' (U' ++ [e]).
Proof.
  intros He Hold Hk Her. right. exists old. split; [done|]. destruct Her as [(l1 & l2 & h & -> & -> & EU & _)|(u1 & u2 & EU & EU' & -> & _)].
  - left. by exists l1, l2.
  - right. destruct u2 as [|x u2 _] using rev_ind.
    + apply app_inj_tail in EU as [_ <-]. done.
    + rewrite app_comm_cons, app_assoc in EU. apply app_inj_tail in EU as [-> <-]. rewrite app_assoc in EU'. apply app_inj_tail in EU' as [-> _].
      by exists u1, u2.
Qed.

(** An insertion puts the entry in use, removes the one with the same key and
    evicts the oldest entries, no more than it must. *)
Lemma LRUCache_Insert_spec c L U held key v chg : ShardOk c L U held -> Shard (HashSlice key) = shard -> P key v -> 0 <= chg < 2 ^ 32 ->
  Z.of_nat (length held) + 2 < 2 ^ 31 ->
  exists e c' L1 U1 n, LRUCache_Insert malloc key (HashSlice key) v chg c = Ret (e, c') /\ ShardOk c' (drop n L1) U1 ((e, v) :: held) /\
    capacity_ c' = capacity_ c /\ has_key c' key e /\ ledger c' ≡ₚ (key, v) :: ledger c /\
    (if capacity_ c >? 0 then replaced c L U key e L1 U1 else L1 = L /\ U1 = U) /\
    (drop n L1 = [] \/ usage_ c' <= capacity_ c) /\ forall m, (m < n)%nat -> capacity_ c < charges_with c e chg (drop m L1 ++ U1).
Proof.
  intros HS Hsh HP Hchg Hlen. rewrite Insert_unfold. pose proof HS as [_ HE0 _ _].
  destruct (allocate_spec c L U held key v chg HS Hsh Hchg) as (e & nx & pv & E1 & HS1 & Hout & Efresh & Enx). cbv zeta in *.
  set (h := Build_LRUHandle v 0%nat chg key false 1 (HashSlice key)) in *. set (c1 := Build_LRUCache _ _ _ _ _ _ _) in *.
  assert (Ee1 : entries c1 !! e = Some h) by apply lookup_insert_eq.
  assert (Hold1 : forall a, a ∈ L ++ U -> entries c1 !! a = entries c !! a) by (intros a Ha; apply lookup_insert_ne; by intros <-).
  rewrite (bind_eq _ _ _ _ _ E1). unfold bind at 1, get at 1. change (capacity_ c1) with (capacity_ c).
  assert (Huse : uses e ((e, v) :: held) = 1).
  { destruct (en_entry _ _ _ _ (so_entries _ _ _ _ HS1) e h Ee1) as [_ _ _ _ _ A6 _ _ _]. cbn [refs in_cache h] in A6. lia. }
  assert (Hmid : exists c2 L2 U2, (if capacity_ c >? 0 then insert_entry e chg else set_next e 0%nat) c1 = Ret (tt, c2) /\ ShardOk c2 L2 U2 ((e, v) :: held) /\
    capacity_ c2 = capacity_ c /\ keeps c1 c2 /\ if capacity_ c >? 0 then replaced c L U key e L2 U2 else L2 = L /\ U2 = U).
  { destruct (Z.gtb_spec (capacity_ c) 0) as [Hg|Hg].
    - destruct (insert_entry_spec c1 L U _ e h HS1 Ee1 Hout Huse HP ltac:(cbn [length]; lia)) as (c2 & L2 & U2 & E2 & HS2 & Hc2 & Hk2 & Hcase).
      exists c2, L2, (U2 ++ [e]). split; [exact E2|]. split; [done|]. split; [done|]. split; [done|].
      destruct Hcase as [(-> & -> & _ & Hno)|(old & Hin & (ho & Eo & Hko) & Her)].
      + left. split; [done|]. split; [done|]. intros a Ha (ha & Ea & Hka). apply (Hno a Ha). exists ha. by rewrite Hold1.
      + rewrite Hold1 in Eo by done. apply (replaced_from c c2 L U key e old); [done|done|by exists ho|].
        destruct Her as [(l1 & l2 & h0 & H1 & H2 & H3 & Eh & Hd)|Her]; [|by right]. left. rewrite Hold1 in Eh by done. by exists l1, l2, h0.
    - exists c1, L, U. split; [|done]. unfold set_next. unfold c1 at 1 2 3 4 5 6 7.
      cbn [capacity_ usage_ table_ nexts prevs entries deleted]. by rewrite (insert_id nx). }
  destruct Hmid as (c2 & L2 & U2 & E2 & HS2 & Hc2 & Hk2 & Hcase). rewrite (bind_eq _ _ _ _ _ E2).
  destruct (make_room false c2 L2 U2 _ HS2 ltac:(cbn [length]; lia)) as (c3 & n & E3 & HS3 & Hc3 & Hk3 & Hn & Hend & Hmin).
  exists e, c3, L2, U2, n. rewrite bind_bind, (bind_eq _ _ _ _ _ E3). split; [done|]. split; [done|]. split; [congruence|]. split_and!; [| |done| |].
  - apply (keeps_key c1 c3 e v key chg h); [by eapply keeps_trans|done|done|].
    destruct (en_held _ _ _ _ (so_entries _ _ _ _ HS3) e v ltac:(apply elem_of_cons; by left)) as (h3 & E3' & _). by eexists.
  - rewrite (kp_ledger _ _ Hk3), (kp_ledger _ _ Hk2). unfold ledger. cbn [deleted entries c1]. rewrite (contents_insert _ e h Efresh). cbn [key_data value h]. solve_Permutation.
  - destruct Hend as [|[_ Hend]]; [by left|right]. lia.
  - intros m Hm. destruct (Hmin m Hm) as [|Hlt]; [done|]. rewrite Hc2 in Hlt. unfold charges_with, charges in *.
    erewrite map_ext_in; [exact Hlt|]. intros a Ha. apply list_elem_of_In in Ha. cbn beta.
    assert (Ha2 : a ∈ L2 ++ U2).
    { apply elem_of_app in Ha as [Ha|Ha]; apply elem_of_app; [left|by right]. rewrite <- (take_drop m L2). apply elem_of_app. by right. }
    rewrite (keeps_charge c1 c2 a Hk2 (en_list _ _ _ _ (so_entries _ _ _ _ HS2) a Ha2)). unfold charge_of. cbn [entries c1].
    destruct (decide (a = e)) as [->|]; [by rewrite lookup_insert_eq|by rewrite lookup_insert_ne].
Qed.

Lemma LRUCache_Prune_spec c L U held : ShardOk c L U held -> Z.of_nat (length held) + 1 < 2 ^ 31 ->
  exists c', LRUCache_Prune c = Ret (tt, c') /\ ShardOk c' [] U held /\ capacity_ c' = capacity_ c /\ keeps c c'.
Proof.
  intros HS Hlen. destruct (make_room true c L U held HS Hlen) as (c' & n & E & HS' & Hc & Hk & _ & [Hd|[? _]] & _); [|done].
  rewrite Hd in HS'. by exists c'.
Qed.

(** ** The beginning and the end *)

Lemma LRUCache_new_ok cap : ShardOk (LRUCache_new cap) [] [] [].
Proof.
  assert (Hr : forall h, h = lru_ \/ h = in_use_ -> ring (nexts (LRUCache_new (V:=V) cap)) (prevs (LRUCache_new (V:=V) cap)) h []).
  { intros h [->| ->]; done. }
  constructor.
  - constructor; [apply Hr; tauto..|]. apply (bool_decide_unpack _). by vm_compute.
  - constructor; [done| |]; intros *; by rewrite ?elem_of_nil.
  - done.
  - exists (replicate 4 []). constructor; [|done|intros a b ha hb Ha; by apply elem_of_nil in Ha]. constructor.
    + done.
    + by exists 2.
    + intros i l Hi. apply lookup_replicate in Hi as [-> Hi]. exists 0%nat. split; [|done]. cbn [list_ table_ LRUCache_new]. by apply lookup_replicate.
    + intros i l a Hi Ha. apply lookup_replicate in Hi as [-> _]. by apply elem_of_nil in Ha.
    + apply NoDup_nil_2.
    + done.
Qed.
End Shard.
