(* ===== verification/LvCacheSharded.v ===== *)
(** The sharded cache keeps the contract of [LvCacheApi]; what it evicts, and what
    is left when it is destroyed. *)

From stdpp Require Import base list gmap strings sorting.
From Stdlib Require Import ZArith Lia.
From S2P Require Import Prelude LvSlice LvBloom LvCacheApi LvCache LvCacheProps LvCacheSpec.

(** * Destruction of a shard *)

Section Destroy.
Context {V : Type}.
Implicit Types (c : LRUCache V).

Lemma destroy_loop_spec fuel : forall c l, (length l < fuel)%nat -> NoDup (lru_ :: l) -> seg (nexts c) (prevs c) (l ++ [lru_]) ->
  (forall a, a ∈ l -> exists h, entries c !! a = Some h /\ in_cache h = true /\ refs h = 1) ->
  exists c', destroy_loop fuel (hd lru_ l) c = Ret (tt, c') /\ keeps c c' /\ forall a, entries c' !! a = if decide (a ∈ l) then None else entries c !! a.
Proof.
  induction fuel as [|fuel IH]; intros c l Hf HN Hseg He; [lia|]. cbn [destroy_loop]. destruct l as [|e l]; cbn [hd].
  - rewrite Nat.eqb_refl. exists c. split; [done|]. split; [apply keeps_refl|]. intros a. by destruct (decide (a ∈ [])) as [Ha%elem_of_nil|].
  - apply NoDup_cons in HN as [Hl HN]. pose proof HN as HN2. apply NoDup_cons in HN2 as [Hel HN2].
    destruct (Nat.eqb_spec e lru_) as [->|Hne]; [exfalso; apply Hl, elem_of_cons; by left|].
    assert (Hnext : nexts c !! e = Some (hd lru_ l) /\ seg (nexts c) (prevs c) (l ++ [lru_])) by (destruct l; cbn in Hseg |- *; tauto).
    destruct Hnext as [Hn Hseg2]. destruct (He e ltac:(apply elem_of_cons; by left)) as (h & Eh & Hic & Hr).
    set (h1 := with_in_cache false h). set (h2 := with_refs (u32 (1 - 1)) h1). set (c1 := set_tab c (table_ c) (<[e := h1]> (entries c))).
    set (c2 := set_tab c1 (table_ c) (<[e := h2]> (entries c1))).
    assert (Hhd : hd lru_ l <> e) by (destruct l as [|x l]; cbn [hd]; [done|]; intros ->; apply Hel, elem_of_cons; by left).
    assert (Ek : handle_key e c2 = Ret (key_data h, c2)).
    { rewrite (handle_key_spec c2 e h2); [done|apply lookup_insert_eq|]. by exists (hd lru_ l). }
    set (c3 := Build_LRUCache (capacity_ c) (usage_ c) (table_ c) (delete e (nexts c)) (delete e (prevs c)) (delete e (entries c)) (deleted c ++ [(key_data h, value h)])).
    assert (Eu : Unref e c1 = Ret (tt, c3)).
    { unfold Unref. rewrite (bind_eq _ _ _ _ _ (entry_eq c1 e h1 (lookup_insert_eq _ _ _))). cbn [refs h1 with_in_cache]. rewrite Hr. cbn [Z.gtb Z.compare]. cbv zeta. fold h2.
      rewrite (bind_eq (set_entry e h2) _ c1 tt c2 eq_refl). cbn [refs in_cache with_refs with_in_cache h2 h1 value]. change (u32 (1 - 1) =? 0) with true. cbv iota.
      rewrite (bind_eq _ _ _ _ _ Ek). unfold delete_entry, c2, c1. cbn [capacity_ usage_ table_ nexts prevs entries deleted set_tab].
      by rewrite !delete_insert_eq. }
    destruct (IH c3 l ltac:(cbn [length] in Hf; lia)) as (c' & E' & Hk & Hent).
    + apply NoDup_cons. split; [|done]. intros Hx. apply Hl, elem_of_cons. by right.
    + apply (seg_frame (nexts c) (prevs c)); [| |done]; intros a Ha; cbn [nexts prevs c3]; apply lookup_delete_ne; intros <-.
      * rewrite removelast_app1 in Ha. done.
      * assert (Hx : e ∈ l ++ [lru_]) by (destruct l; cbn in Ha |- *; [by apply elem_of_nil in Ha|]; apply elem_of_cons; by right).
        apply elem_of_app in Hx as [Hx|Hx%list_elem_of_singleton]; done.
    + intros a Ha. cbn [entries c3]. destruct (He a ltac:(apply elem_of_cons; by right)) as (x & Ex & Hx). exists x. split; [|done].
      rewrite lookup_delete_ne; [done|]. by intros <-.
    + exists c'. split; [|split].
      * unfold get_next. rewrite (bind_eq _ _ c (hd lru_ l) c) by (unfold bind, get; by rewrite Hn). rewrite (bind_eq _ _ _ _ _ (entry_eq c e h Eh)), Hic, Hr. cbn [negb orb Z.eqb Pos.eqb].
        rewrite (bind_eq (set_entry e h1) _ c tt c1 eq_refl), (bind_eq _ _ _ _ _ Eu). done.
      * eapply keeps_trans; [|exact Hk]. by apply (keeps_delete c c3 e h).
      * intros a. rewrite Hent. cbn [entries c3]. destruct (decide (a = e)) as [->|Hae].
        -- rewrite lookup_delete_eq, (decide_True (P := e ∈ e :: l)) by (apply elem_of_cons; by left). by destruct (decide (e ∈ l)).
        -- rewrite lookup_delete_ne by done. destruct (decide (a ∈ l)); [rewrite decide_True; [done|apply elem_of_cons; by right]|].
           rewrite decide_False; [done|]. rewrite elem_of_cons. tauto.
Qed.

(** Every entry is deleted, when no handle is held. *)
Lemma LRUCache_delete_spec P i c L U : ShardOk P i c L U [] -> exists c', LRUCache_delete c = Ret (tt, c') /\ entries c' = ∅ /\ deleted c' ≡ₚ ledger c.
Proof.
  intros [HR HE Hu HT]. assert (Huse : forall a h, entries c !! a = Some h -> a ∈ L).
  { intros a h Ea. destruct (en_entry _ _ _ _ _ _ HE a h Ea) as [_ _ _ _ _ _ _ A8 _]. destruct (decide (a ∈ L)) as [|Hn]; [done|].
    specialize (A8 Hn). unfold uses in A8. cbn in A8. lia. }
  pose proof (Rings_nodup _ _ _ HR) as HN. assert (U = []) as ->.
  { destruct U as [|a U]; [done|]. exfalso. destruct (en_list _ _ _ _ _ _ HE a ltac:(apply elem_of_app; right; apply elem_of_cons; by left)) as [h Ea].
    apply NoDup_app in HN as (_ & Hd & _). apply (Hd a (Huse a h Ea)), elem_of_cons. by left. }
  pose proof (list_fuel P i c L [] [] HE HN) as Hfuel. rewrite app_nil_r in HN. destruct HR as [R1 R2 R3].
  destruct (destroy_loop_spec (chain_fuel c) c L Hfuel) as (c' & E & Hk & Hent).
  - apply NoDup_cons in R3 as [Hl _]. apply NoDup_cons. split; [|done]. intros Hx. apply Hl, elem_of_cons. right. apply elem_of_app. by left.
  - unfold ring in R1. destruct L as [|a L]; cbn in R1 |- *; tauto.
  - intros a Ha. destruct (en_list _ _ _ _ _ _ HE a ltac:(rewrite app_nil_r; done)) as [h Ea]. exists h. split; [done|].
    destruct (en_entry _ _ _ _ _ _ HE a h Ea) as [_ _ _ _ A5 A6 A7 _ _]. assert (Hic : in_cache h = true) by (apply A5; by rewrite app_nil_r).
    rewrite Hic, A7 in A6 by done. done.
  - exists c'. apply ring_first in R1, R2. split; [|assert (Hem : entries c' = ∅); [|split; [done|]]].
    + unfold LRUCache_delete. unfold get_next at 1. rewrite (bind_eq _ _ c (hd in_use_ []) c) by (unfold bind, get; by rewrite R2). cbn [hd]. rewrite Nat.eqb_refl.
      unfold bind at 1, get at 1, get_next. rewrite (bind_eq _ _ c (hd lru_ L) c) by (unfold bind, get; by rewrite R1). done.
    + apply map_eq. intros a. rewrite Hent, lookup_empty. destruct (decide (a ∈ L)) as [|Hn]; [done|].
      destruct (entries c !! a) as [h|] eqn:Ea; [|done]. by destruct (Hn (Huse a h Ea)).
    + rewrite <- (kp_ledger _ _ Hk). unfold ledger. rewrite Hem. unfold contents. rewrite fmap_empty, map_to_list_empty. cbn. by rewrite app_nil_r.
Qed.
End Destroy.

(** * The shards together *)

Section Sharded.
Context {V : Type} (malloc : gset nat -> nat) (Hmalloc : forall X, malloc X ∉ X /\ malloc X <> 0%nat).
Abbreviation S := (ShardedLRUCache V).
Abbreviation HeldAll := (list (CacheHandle * V)).
Implicit Types (P : Slice -> V -> Prop) (held : HeldAll) (c : S).

(** The handles into one shard. *)
Definition part (i : nat) held : list (nat * V) := omap (fun x => if decide (x.1.1 = i) then Some (x.1.2, x.2) else None) held.

Lemma part_app i l1 l2 : part i (l1 ++ l2) = part i l1 ++ part i l2.
Proof. apply omap_app. Qed.

Lemma part_same i a v held : part i ((i, a, v) :: held) = (a, v) :: part i held.
Proof. cbn. by destruct (decide (i = i)). Qed.

Lemma part_other i j a v held : j <> i -> part i ((j, a, v) :: held) = part i held.
Proof. intros Hne. cbn. by destruct (decide (j = i)). Qed.

Lemma part_length i held : (length (part i held) <= length held)%nat.
Proof. induction held as [|x l IH]; [done|]. destruct x as [[j a] v]. destruct (decide (j = i)) as [->|Hne].
  - rewrite part_same. cbn [length]. lia.
  - rewrite part_other by done. cbn [length]. lia. Qed.

Lemma part_in i a v held : (i, a, v) ∈ held -> (a, v) ∈ part i held.
Proof. intros Hin. apply list_elem_of_omap. exists (i, a, v). split; [done|]. cbn. by destruct (decide (i = i)). Qed.

(** A shard that caches nothing has no entries in its lists. *)
Definition caching (s : LRUCache V) (L U : list nat) : Prop := 0 < capacity_ s \/ L = [] /\ U = [].

Record Sharded_Holds P (n : Z) held c : Prop := {
  sh_few : few_keys (2 ^ 31) P;
  sh_length : length (shard_ c) = Z.to_nat kNumShards;
  sh_shard i s : shard_ c !! i = Some s -> exists L U, ShardOk P i s L U (part i held) /\ caching s L U;
  sh_held h v : (h, v) ∈ held -> (h.1 < Z.to_nat kNumShards)%nat;
  sh_count : Z.of_nat (length held) < 2 ^ 31;
  sh_id : last_id_ c = n /\ 0 <= n
}.

(** The keys and values of all shards. *)
Definition ledgers c : list (Slice * V) := concat (map ledger (shard_ c)).

Lemma Shard_range k : (Shard (HashSlice k) < Z.to_nat kNumShards)%nat.
Proof.
  pose proof (Hash_range k 0 ltac:(lia)) as Hr. fold (HashSlice k) in Hr. unfold Shard. change (32 - kNumShardBits) with 28.
  rewrite Z.shiftr_div_pow2 by lia. change (Z.to_nat kNumShards) with 16%nat.
  assert (0 <= HashSlice k / 2 ^ 28 < 16) by (split; [apply Z.div_pos; lia|apply Z.div_lt_upper_bound; lia]). lia.
Qed.

(** One shard works. *)
Lemma on_shard_eq {A} i (f : M (LRUCache V) A) c s a s' : shard_ c !! i = Some s -> f s = Ret (a, s') ->
  on_shard i f c = Ret (a, Build_ShardedLRUCache (<[i := s']> (shard_ c)) (last_id_ c)).
Proof. intros Es Ef. unfold on_shard. by rewrite Es, Ef. Qed.

Lemma shard_exists P n held c i : Sharded_Holds P n held c -> (i < Z.to_nat kNumShards)%nat ->
  exists s L U, shard_ c !! i = Some s /\ ShardOk P i s L U (part i held) /\ caching s L U.
Proof.
  intros HS Hi. destruct (lookup_lt_is_Some_2 (shard_ c) i) as [s Es]; [by rewrite (sh_length _ _ _ _ HS)|].
  destruct (sh_shard _ _ _ _ HS i s Es) as (L & U & Hs). by exists s, L, U.
Qed.

(** ** What is cached *)

Lemma ShardOk_change P Q i s L U (held : list (nat * V)) : ShardOk P i s L U held ->
  (forall a h, a ∈ L ++ U -> entries s !! a = Some h -> P (key_data h) (value h) -> Q (key_data h) (value h)) -> ShardOk Q i s L U held.
Proof.
  intros [R [E1 E2 E3] Hu HT] HQ. constructor; [done| |done|done]. constructor; [|done|done]. intros a h Ea. destruct (E1 a h Ea). constructor; try done.
  intros Ha. by apply (HQ a h); auto.
Qed.

Lemma ShardOk_weaken P Q i s L U (held : list (nat * V)) : (forall k v, P k v -> Q k v) -> ShardOk P i s L U held -> ShardOk Q i s L U held.
Proof. intros HPQ HS. apply (ShardOk_change P); auto. Qed.

Lemma has_key_unique P i s L U (held : list (nat * V)) k a b : ShardOk P i s L U held -> a ∈ L ++ U -> b ∈ L ++ U -> has_key s k a -> has_key s k b -> a = b.
Proof. intros [_ _ _ (T & [_ _ HK])] Ha Hb (ha & Ea & Hka) (hb & Eb & Hkb). apply (HK a b ha hb Ha Hb Ea Eb). congruence. Qed.

Lemma key_back (s s' : LRUCache V) a h : keeps s s' -> entries s' !! a = Some h -> has_key s (key_data h) a.
Proof.
  intros [Hk _] Ea. specialize (Hk a ltac:(by eexists)). rewrite Ea in Hk. destruct (entries s !! a) as [x|] eqn:Ex; [|done].
  exists x. split; [done|]. cbn in Hk. unfold content in Hk. congruence.
Qed.

(** Keys are in the shard of their hash. *)
Lemma other_shard P j s L U (held : list (nat * V)) a h : ShardOk P j s L U held -> entries s !! a = Some h -> Shard (HashSlice (key_data h)) = j.
Proof. intros [_ HE _ _] Ea. destruct (en_entry _ _ _ _ _ _ HE a h Ea) as [_ _ [Eh Hs] _ _ _ _ _ _]. by rewrite <- Eh. Qed.

(** Only keys of the shard [i] are different. *)
Definition same_but (i : nat) P (Q : Slice -> V -> Prop) : Prop := forall k v, Shard (HashSlice k) <> i -> P k v -> Q k v.

(** The others are as they were. *)
Lemma Holds_update P Q n held held' c i s s' L U l : Sharded_Holds P n held c -> shard_ c !! i = Some s -> ShardOk Q i s' L U (part i held') -> caching s' L U ->
  (forall j, j <> i -> part j held' = part j held) -> (forall h v, (h, v) ∈ held' -> (h.1 < Z.to_nat kNumShards)%nat) ->
  Z.of_nat (length held') < 2 ^ 31 -> few_keys (2 ^ 31) Q -> same_but i P Q -> ledger s' ≡ₚ l ++ ledger s ->
  let c' := Build_ShardedLRUCache (<[i := s']> (shard_ c)) (last_id_ c) in Sharded_Holds Q n held' c' /\ ledgers c' ≡ₚ l ++ ledgers c.
Proof.
  intros [H1 H2 H3 H4 H5 H6] Es Hs Hca Hp Hh Hl HQ Hsame Hlg c'. split.
  - constructor; try done.
    + cbn [c' shard_]. by rewrite length_insert.
    + cbn [c' shard_]. intros j x Ej. destruct (decide (j = i)) as [->|Hne].
      * pose proof (lookup_lt_Some _ _ _ Ej) as Hlt. rewrite length_insert in Hlt. rewrite list_lookup_insert_eq in Ej by done. injection Ej as <-. by exists L, U.
      * rewrite list_lookup_insert_ne in Ej by done. rewrite Hp by done. destruct (H3 j x Ej) as (L' & U' & HS & Hc). exists L', U'. split; [|done].
        apply (ShardOk_change P); [done|]. intros a h _ Ea. apply Hsame. by rewrite (other_shard P j x L' U' _ a h HS Ea).
  - unfold ledgers. cbn [c' shard_]. rewrite <- (take_drop_middle _ _ _ Es) at 2. rewrite (insert_take_drop _ _ _ (lookup_lt_Some _ _ _ Es)).
    rewrite !map_app, !concat_app. cbn [map concat]. rewrite Hlg. solve_Permutation.
Qed.

Lemma same_but_refl i P : same_but i P P.
Proof. by intros k v _. Qed.
#[local] Hint Resolve same_but_refl : core.

Lemma Sharded_weaken P Q n held c : (forall k v, P k v -> Q k v) -> few_keys (2 ^ 31) Q -> Sharded_Holds P n held c -> Sharded_Holds Q n held c.
Proof.
  intros HPQ HQ [H1 H2 H3 H4 H5 H6]. constructor; try done. intros i s Es. destruct (H3 i s Es) as (L & U & HS & Hc). exists L, U. split; [|done].
  by apply (ShardOk_weaken P).
Qed.

(** ** The operations *)

(** The new value is the only one of its key. *)
Definition latest P (k : Slice) (v : V) (k' : Slice) (v' : V) : Prop := P k' v' /\ (k' = k -> v' = v).

Lemma few_sub P Q m : few_keys m P -> (forall k v, Q k v -> P k v) -> few_keys m Q.
Proof. intros (ks & Hl & Hks) HQ. exists ks. split; [done|]. intros k v Hk. by eapply Hks, HQ. Qed.

Lemma Sharded_Insert_spec P n held c k v charge : Sharded_Holds P n held c -> P k v -> 0 <= charge < 2 ^ 32 -> Z.of_nat (length held) + 2 < 2 ^ 31 ->
  exists h c', Sharded_Insert malloc k v charge c = Ret (h, c') /\ Sharded_Holds (latest P k v) n ((h, v) :: held) c' /\ ledgers c' ≡ₚ (k, v) :: ledgers c.
Proof.
  intros HS HP Hch Hlen. pose proof (Shard_range k) as Hr. destruct (shard_exists _ _ _ _ _ HS Hr) as (s & L & U & Es & Hs & Hca).
  destruct (sh_few _ _ _ _ HS) as (ks & Hks & HPks). set (i := Shard (HashSlice k)) in *. pose proof (part_length i held).
  destruct (LRUCache_Insert_spec P i ks Hks HPks malloc Hmalloc s L U (part i held) k v charge Hs eq_refl HP Hch ltac:(lia))
    as (e & s' & L1 & U1 & m & E & Hs' & Hc & Hk & Hlg & Hcase & _). unfold Sharded_Insert. fold i.
  rewrite (bind_eq _ _ _ _ _ (on_shard_eq i _ c s e s' Es E)). exists (i, e). eexists. split; [reflexivity|].
  apply (Holds_update P (latest P k v) n held _ c i s s' (drop m L1) U1 [(k, v)]); try done.
  - rewrite part_same. apply (ShardOk_change P); [done|]. intros a h Ha Ea HPa. split; [done|]. intros Hka.
    assert (HU : e ∈ drop m L1 ++ U1).
    { apply elem_of_app. right. destruct (Z.gtb_spec (capacity_ s) 0) as [Hg|Hg].
      - destruct Hcase as [(_ & -> & _)|(old & _ & [(l1 & l2 & _ & _ & ->)|(u1 & u2 & _ & _ & ->)])]; apply elem_of_app; right; by apply list_elem_of_singleton.
      - destruct Hca as [|[-> ->]]; [lia|]. destruct Hcase as [-> ->]. rewrite drop_nil in Ha. by apply elem_of_nil in Ha. }
    assert (a = e) as -> by (apply (has_key_unique P i s' _ _ _ k a e Hs' Ha HU); [by exists h|done]).
    destruct Hs' as [_ HE _ _]. destruct (en_held _ _ _ _ _ _ HE e v ltac:(apply elem_of_cons; by left)) as (h' & E' & <-). congruence.
  - unfold caching. rewrite Hc. destruct Hca as [|[-> ->]]; [by left|]. destruct (Z.gtb_spec (capacity_ s) 0) as [Hg|Hg]; [left; lia|].
    destruct Hcase as [-> ->]. right. by rewrite drop_nil.
  - intros j Hj. by apply part_other.
  - intros h x [Hx|Hx]%elem_of_cons; [by simplify_eq|by eapply (sh_held _ _ _ _ HS)].
  - cbn [length]. lia.
  - apply (few_sub P); [apply (sh_few _ _ _ _ HS)|]. by intros k' v' [? _].
  - intros k' v' Hne HP'. split; [done|]. intros ->. by destruct Hne.
Qed.

Lemma Sharded_Lookup_spec P n held c k : Sharded_Holds P n held c -> Z.of_nat (length held) + 2 < 2 ^ 31 ->
  exists o c', Sharded_Lookup k c = Ret (o, c') /\ ledgers c' ≡ₚ ledgers c /\
    match o with
    | None => Sharded_Holds P n held c'
    | Some h => exists v, P k v /\ Sharded_Holds P n ((h, v) :: held) c'
    end.
Proof.
  intros HS Hlen. pose proof (Shard_range k) as Hr. destruct (shard_exists _ _ _ _ _ HS Hr) as (s & L & U & Es & Hs & Hca).
  pose proof (sh_few _ _ _ _ HS) as Hfew. pose proof Hfew as (ks & Hks & HPks). set (i := Shard (HashSlice k)) in *. pose proof (part_length i held).
  destruct (LRUCache_Lookup_spec P i ks Hks HPks s L U (part i held) k Hs ltac:(lia)) as (r & s' & E & Hc & _ & Hkp & Hcase).
  unfold Sharded_Lookup. fold i. rewrite (bind_eq _ _ _ _ _ (on_shard_eq i _ c s r s' Es E)). eexists _, _. split; [reflexivity|].
  destruct Hcase as [(-> & -> & _)|(Hr0 & h & L' & U' & _ & Hk & HPv & Hs' & Hlists)].
  - cbn [Nat.eqb]. destruct (Holds_update P P n held held c i s s L U [] HS Es Hs Hca) as [G1 G2]; try done; [apply (sh_held _ _ _ _ HS)|lia].
  - destruct (Nat.eqb_spec r 0); [done|].
    assert (G : let c' := Build_ShardedLRUCache (<[i := s']> (shard_ c)) (last_id_ c) in Sharded_Holds P n ((i, r, value h) :: held) c' /\ ledgers c' ≡ₚ [] ++ ledgers c).
    { apply (Holds_update P P n held _ c i s s' L' U' []); try done.
      - by rewrite part_same.
      - unfold caching. rewrite Hc. destruct Hca as [|[-> ->]]; [by left|]. exfalso.
        destruct Hlists as [(Hx & _)|(l1 & l2 & Hx & _)]; [by apply elem_of_nil in Hx|by destruct l1].
      - intros j Hj. by apply part_other.
      - intros x y [Hx|Hx]%elem_of_cons; [by simplify_eq|by eapply (sh_held _ _ _ _ HS)].
      - cbn [length]. lia.
      - apply Hkp. }
    destruct G as [G1 G2]. split; [done|]. by exists (value h).
Qed.

Lemma held_entry P i s L U (held : list (nat * V)) a v : ShardOk P i s L U held -> (a, v) ∈ held -> exists h, entries s !! a = Some h /\ value h = v /\ Shard (hash h) = i.
Proof.
  intros [_ HE _ _] Hin. destruct (en_held _ _ _ _ _ _ HE a v Hin) as (h & Eh & Hv). exists h. split; [done|]. split; [done|].
  by destruct (en_entry _ _ _ _ _ _ HE a h Eh) as [_ _ [_ Hsh] _ _ _ _ _ _].
Qed.

Lemma insert_same c i s : shard_ c !! i = Some s -> Build_ShardedLRUCache (<[i := s]> (shard_ c)) (last_id_ c) = c.
Proof. intros Es. rewrite list_insert_id by done. by destruct c. Qed.

Lemma Sharded_Release_spec P n held1 held2 c h v : Sharded_Holds P n (held1 ++ (h, v) :: held2) c ->
  exists c', Sharded_Release h c = Ret (tt, c') /\ Sharded_Holds P n (held1 ++ held2) c' /\ ledgers c' ≡ₚ ledgers c.
Proof.
  intros HS. destruct h as [i a]. pose proof (sh_held _ _ _ _ HS (i, a) v ltac:(apply elem_of_app; right; apply elem_of_cons; by left)) as Hi.
  destruct (shard_exists _ _ _ _ _ HS Hi) as (s & L & U & Es & Hs & Hca). cbn [fst] in *. pose proof (sh_count _ _ _ _ HS) as Hl.
  pose proof (sh_few _ _ _ _ HS) as Hfew. pose proof Hfew as (ks & Hks & HPks). pose proof (part_length i (held1 ++ (i, a, v) :: held2)) as Hpl. rewrite part_app, part_same in Hs, Hpl.
  destruct (held_entry P i s L U _ a v Hs ltac:(apply elem_of_app; right; apply elem_of_cons; by left)) as (h & Eh & Hv & Hsh).
  destruct (Release_spec P i ks Hks HPks s L U (part i held1) a v (part i held2) Hs (Z.le_lt_trans _ _ _ (proj1 (Nat2Z.inj_le _ _) Hpl) Hl))
    as (s' & L' & U' & E & Hs' & Hc & Hkp & Hlists).
  unfold Sharded_Release. cbn [fst snd]. rewrite (bind_eq _ _ _ _ _ (on_shard_eq i _ c s h s Es (entry_eq s a h Eh))), (insert_same c i s Es), Hsh.
  rewrite Nat.eqb_refl. unfold LRUCache_Release. rewrite (on_shard_eq i _ c s tt s' Es E). eexists. split; [reflexivity|].
  apply (Holds_update P P n (held1 ++ (i, a, v) :: held2) _ c i s s' L' U' []); try done.
  - by rewrite part_app.
  - unfold caching. rewrite Hc. destruct Hca as [|[-> ->]]; [by left|right]. destruct Hlists as [[-> ->]|(u1 & u2 & Hx & _)]; [done|by destruct u1].
  - intros j Hj. by rewrite !part_app, part_other.
  - intros x y Hx. apply (sh_held _ _ _ _ HS x y). rewrite elem_of_app, elem_of_cons. rewrite elem_of_app in Hx. tauto.
  - rewrite length_app in *. cbn [length] in Hl. lia.
  - apply Hkp.
Qed.

Lemma Sharded_Value_spec P n held c h v : Sharded_Holds P n held c -> (h, v) ∈ held -> Sharded_Value h c = Ret (v, c).
Proof.
  intros HS Hin. destruct h as [i a]. destruct (shard_exists _ _ _ _ _ HS (sh_held _ _ _ _ HS _ _ Hin)) as (s & L & U & Es & Hs & _). cbn [fst] in *.
  destruct (held_entry P i s L U _ a v Hs (part_in i a v held Hin)) as (h & Eh & Hv & _).
  unfold Sharded_Value. cbn [fst snd]. rewrite (bind_eq _ _ _ _ _ (on_shard_eq i _ c s h s Es (entry_eq s a h Eh))), (insert_same c i s Es). by rewrite Hv.
Qed.

(** Nothing is cached for an erased key. *)
Definition without P (k : Slice) (k' : Slice) (v : V) : Prop := P k' v /\ k' <> k.

Lemma Rings_NoDup P i s L U (held : list (nat * V)) : ShardOk P i s L U held -> NoDup (L ++ U).
Proof. intros [HR _ _ _]. by apply Rings_nodup in HR. Qed.

Lemma erased_rest s L U r s' L' U' : erased_from (V := V) s L U r s' L' U' -> L ++ U ≡ₚ r :: L' ++ U'.
Proof. intros [(l1 & l2 & h & -> & -> & -> & _)|(u1 & u2 & -> & -> & -> & _)]; solve_Permutation. Qed.

Lemma Sharded_Erase_spec P n held c k : Sharded_Holds P n held c -> Z.of_nat (length held) + 2 < 2 ^ 31 ->
  exists c', Sharded_Erase k c = Ret (tt, c') /\ Sharded_Holds (without P k) n held c' /\ ledgers c' ≡ₚ ledgers c.
Proof.
  intros HS Hlen. pose proof (Shard_range k) as Hr. destruct (shard_exists _ _ _ _ _ HS Hr) as (s & L & U & Es & Hs & Hca).
  pose proof (sh_few _ _ _ _ HS) as Hfew. pose proof Hfew as (ks & Hks & HPks). set (i := Shard (HashSlice k)) in *. pose proof (part_length i held).
  destruct (LRUCache_Erase_spec P i ks Hks HPks s L U (part i held) k Hs ltac:(lia)) as (s' & L' & U' & E & Hs' & Hc & Hkp & Hcase).
  unfold Sharded_Erase. fold i. rewrite (on_shard_eq i _ c s tt s' Es E). eexists. split; [reflexivity|].
  apply (Holds_update P (without P k) n held held c i s s' L' U' []); try done.
  - apply (ShardOk_change P); [done|]. intros a h Ha Ea HPa. split; [done|]. intros Hk. pose proof (key_back s s' a h Hkp Ea) as Hb. rewrite Hk in Hb.
    destruct Hcase as [(-> & -> & Hno)|(r & Hkr & Hin & Her)]; [by apply (Hno a)|]. pose proof (erased_rest _ _ _ _ _ _ _ Her) as HP.
    assert (Hin' : a ∈ L ++ U) by (rewrite HP; apply elem_of_cons; by right). pose proof (has_key_unique P i s L U _ k a r Hs Hin' Hin Hb Hkr) as ->.
    pose proof (Rings_NoDup _ _ _ _ _ _ Hs) as HN. rewrite HP in HN. by apply NoDup_cons in HN as [HN _].
  - unfold caching. rewrite Hc. destruct Hca as [|[-> ->]]; [by left|right]. destruct Hcase as [(-> & -> & _)|(r & _ & Hin & _)]; [done|by apply elem_of_nil in Hin].
  - apply (sh_held _ _ _ _ HS).
  - lia.
  - apply (few_sub P); [done|]. by intros k' v' [? _].
  - intros k' v' Hne HP. split; [done|]. intros ->. by destruct Hne.
  - apply Hkp.
Qed.

Lemma Sharded_NewId_spec P n held c : Sharded_Holds P n held c -> n + 1 < 2 ^ 64 ->
  exists c', Sharded_NewId c = Ret (n + 1, c') /\ Sharded_Holds P (n + 1) held c'.
Proof.
  intros [H1 H2 H3 H4 H5 [<- H6]] Hn. unfold Sharded_NewId. rewrite wrap_small by lia. eexists. split; [reflexivity|]. constructor; try done. cbn [last_id_]. lia.
Qed.

#[export] Instance Sharded_laws : CacheLaws (CA := Sharded_cache malloc) S CacheHandle V Sharded_Holds.
Proof.
  constructor.
  - apply Sharded_weaken.
  - intros P n held c k v charge HS _ _ HP Hc Hl. destruct (Sharded_Insert_spec P n held c k v charge HS HP Hc Hl) as (h & c' & E & HS' & _). exists h, c'.
    split; [done|]. apply (Sharded_weaken (latest P k v)); [by intros k' v' [? _]|apply (sh_few _ _ _ _ HS)|done].
  - intros P n held c k HS _ _ Hl. destruct (Sharded_Lookup_spec P n held c k HS Hl) as (o & c' & E & _ & Ho). by exists o, c'.
  - intros P n h1 h2 c h v HS. destruct (Sharded_Release_spec P n h1 h2 c h v HS) as (c' & E & HS' & _). by exists c'.
  - intros P n held c h v. apply Sharded_Value_spec.
  - intros P n held c k HS _ _ Hl. destruct (Sharded_Erase_spec P n held c k HS Hl) as (c' & E & HS' & _). exists c'. split; [done|].
    apply (Sharded_weaken (without P k)); [by intros k' v' [? _]|apply (sh_few _ _ _ _ HS)|done].
  - intros P n held c. apply Sharded_NewId_spec.
Qed.

(** A new cache. *)
Lemma Sharded_new_spec P capacity : few_keys (2 ^ 31) P -> Sharded_Holds P 0 [] (ShardedLRUCache_new capacity).
Proof.
  intros HP. constructor; try done.
  - intros i s Es. cbn [ShardedLRUCache_new shard_] in Es. apply lookup_replicate in Es as [-> _]. exists [], []. split; [apply LRUCache_new_ok|by right].
  - intros h v Hx. by apply elem_of_nil in Hx.
Qed.
End Sharded.

(** The allocator. *)
Lemma next_address_fresh X : next_address X ∉ X /\ next_address X <> 0%nat.
Proof.
  split; [|done]. unfold next_address. intros Hin. assert (Hle : forall a, a ∈ X -> (a <= set_fold max 2 X)%nat); [|specialize (Hle _ Hin); lia].
  apply (set_fold_ind_L (fun r X => forall a, a ∈ X -> (a <= r)%nat)); [set_solver|]. intros x X' r _ IH a [->%elem_of_singleton|Ha]%elem_of_union; [lia|].
  specialize (IH a Ha). lia.
Qed.
