(* ===== verification/LvCacheClient.v ===== *)
(** Clients of the cache: to them it is a map that forgets, and every value that
    they gave it is deleted once. *)

From stdpp Require Import base list gmap strings sorting.
From Stdlib Require Import ZArith Lia.
From S2P Require Import Prelude LvSlice LvBloom LvCacheApi LvCache LvCacheProps LvCacheSpec LvCacheSharded.

Section Client.
Context {V : Type} (malloc : gset nat -> nat).
Abbreviation S := (ShardedLRUCache V).
Abbreviation HeldAll := (list (CacheHandle * V)).
Implicit Types (c : S) (held : HeldAll).

(** Calls of a client. A release is of the handle number [i] of those it has, the
    newest first. *)
Inductive CacheOp : Type :=
  | OpInsert (k : Slice) (v : V) (charge : Z)
  | OpLookup (k : Slice)
  | OpRelease (i : nat)
  | OpErase (k : Slice)
  | OpPrune.

(** The handles after a call, and the values that a lookup found. *)
Definition client_op (op : CacheOp) (hs : list CacheHandle) : M S (list CacheHandle * list (option V)) :=
  match op with
  | OpInsert k v charge => let* h := Sharded_Insert malloc k v charge in ret (h :: hs, [])
  | OpLookup k =>
      let* o := Sharded_Lookup k in
      match o with
      | None => ret (hs, [None])
      | Some h => let* v := Sharded_Value h in ret (h :: hs, [Some v])
      end
  | OpRelease i =>
      match hs !! i with
      | Some h => Sharded_Release h ;;; ret (take i hs ++ drop (i + 1) hs, [])
      | None => ret (hs, [])
      end
  | OpErase k => Sharded_Erase k ;;; ret (hs, [])
  | OpPrune => Sharded_Prune ;;; ret (hs, [])
  end.

Fixpoint client (ops : list CacheOp) (hs : list CacheHandle) : M S (list CacheHandle * list (option V)) :=
  match ops with
  | [] => ret (hs, [])
  | op :: ops => let* '(hs, r) := client_op op hs in let* '(hs, rs) := client ops hs in ret (hs, r ++ rs)
  end.

Fixpoint release_all (hs : list CacheHandle) : M S unit :=
  match hs with
  | [] => ret tt
  | h :: hs => Sharded_Release h ;;; release_all hs
  end.

(** Each lookup finds nothing or what the map has. *)
Fixpoint lookups_ok (m : gmap Slice V) (ops : list CacheOp) (rs : list (option V)) : Prop :=
  match ops with
  | [] => rs = []
  | OpInsert k v _ :: ops => lookups_ok (<[k := v]> m) ops rs
  | OpErase k :: ops => lookups_ok (delete k m) ops rs
  | OpLookup k :: ops => match rs with [] => False | r :: rs => (r = None \/ r = m !! k) /\ lookups_ok m ops rs end
  | _ :: ops => lookups_ok m ops rs
  end.

Definition inserted (ops : list CacheOp) : list (Slice * V) :=
  omap (fun op => match op with OpInsert k v _ => Some (k, v) | _ => None end) ops.

Definition charge_ok (op : CacheOp) : Prop := match op with OpInsert _ _ charge => 0 <= charge < 2 ^ 32 | _ => True end.

Context (Hmalloc : forall X, malloc X ∉ X /\ malloc X <> 0%nat).

(** [Prune]. *)
Lemma prune_shards P n held : Z.of_nat (length held) + 2 < 2 ^ 31 -> forall k i c, Sharded_Holds P n held c -> (i + k <= Z.to_nat kNumShards)%nat ->
  exists c', each_shard k (fun _ => LRUCache_Prune) tt i c = Ret (tt, c') /\ Sharded_Holds P n held c' /\ ledgers c' ≡ₚ ledgers c.
Proof.
  intros Hlen k. induction k as [|k IH]; intros i c HS Hi; [by exists c|].
  destruct (shard_exists _ _ _ _ i HS ltac:(lia)) as (s & L & U & Es & Hs & Hca). pose proof (sh_few _ _ _ _ HS) as Hfew. pose proof Hfew as (ks & Hks & HPks).
  pose proof (part_length i held). destruct (LRUCache_Prune_spec P i ks Hks HPks s L U (part i held) Hs ltac:(lia)) as (s' & E & Hs' & Hc & Hk).
  destruct (Holds_update P P n held held c i s s' [] U [] HS Es Hs') as [HS1 Hl1]; [|done|apply (sh_held _ _ _ _ HS)|lia|done|apply same_but_refl|apply Hk|].
  { unfold caching. rewrite Hc. destruct Hca as [|[_ ->]]; [by left|by right]. }
  destruct (IH (Datatypes.S i) _ HS1 ltac:(lia)) as (c' & E' & HS' & Hl'). exists c'. cbn [each_shard].
  rewrite (bind_eq _ _ _ _ _ (on_shard_eq i _ c s tt s' Es E)). split; [done|]. split; [done|]. by rewrite Hl'.
Qed.

(** The destructor. *)
Lemma destroy_shards_spec P k : forall c, (k <= length (shard_ c))%nat ->
  (forall j s, (j < k)%nat -> shard_ c !! j = Some s -> exists L U, ShardOk P j s L U []) ->
  exists c', destroy_shards k c = Ret (tt, c') /\ drop k (shard_ c') = drop k (shard_ c) /\ length (shard_ c') = length (shard_ c) /\
    Forall (fun s => entries s = ∅) (take k (shard_ c')) /\ concat (map deleted (take k (shard_ c'))) ≡ₚ concat (map ledger (take k (shard_ c))).
Proof.
  induction k as [|k IH]; intros c Hk HS; [by exists c|].
  destruct (lookup_lt_is_Some_2 (shard_ c) k Hk) as [s Es]. destruct (HS k s ltac:(lia) Es) as (L & U & Hs).
  destruct (LRUCache_delete_spec P k s L U Hs) as (s' & E & He & Hd).
  cbn [destroy_shards]. rewrite (bind_eq _ _ _ _ _ (on_shard_eq k _ c s tt s' Es E)). set (c1 := Build_ShardedLRUCache _ _).
  destruct (IH c1) as (c' & E' & Hdrop & Hl & Hem & Hdel).
  - cbn [c1 shard_]. rewrite length_insert. lia.
  - intros j x Hj Ex. cbn [c1 shard_] in Ex. rewrite list_lookup_insert_ne in Ex by lia. apply (HS j x); [lia|done].
  - cbn [c1 shard_] in Hdrop, Hl, Hdel. rewrite length_insert in Hl. rewrite take_insert_ge in Hdel by lia.
    assert (Ek : shard_ c' !! k = Some s').
    { replace k with (k + 0)%nat by lia. rewrite <- lookup_drop, Hdrop, lookup_drop, Nat.add_0_r. by apply list_lookup_insert_eq. }
    exists c'. split; [done|]. rewrite (take_S_r _ _ _ Ek), (take_S_r _ _ _ Es), !map_app, !concat_app. cbn [map concat].
    assert (Hdrop' : drop (Datatypes.S k) (shard_ c') = drop (Datatypes.S k) (shard_ c)).
    { replace (Datatypes.S k) with (k + 1)%nat by lia. rewrite <- drop_drop, Hdrop, drop_drop. apply drop_insert_lt. lia. }
    split_and!; [done|done|apply Forall_app; by split; [|constructor]|]. by rewrite Hdel, Hd.
Qed.

Lemma Sharded_delete_spec P n c : Sharded_Holds P n [] c ->
  exists c', ShardedLRUCache_delete c = Ret (tt, c') /\ Forall (fun s => entries s = ∅) (shard_ c') /\ concat (map deleted (shard_ c')) ≡ₚ ledgers c.
Proof.
  intros HS. pose proof (sh_length _ _ _ _ HS) as Hl.
  destruct (destroy_shards_spec P (Z.to_nat kNumShards) c ltac:(lia)) as (c' & E & _ & Hl' & He & Hd).
  - intros j s _ Es. destruct (sh_shard _ _ _ _ HS j s Es) as (L & U & Hs & _). by exists L, U.
  - exists c'. split; [done|]. rewrite Hl in Hl'. rewrite !take_ge in * by lia. by split.
Qed.

(** ** The calls *)

Definition map_P (m : gmap Slice V) (k : Slice) (v : V) : Prop := m !! k = Some v.

Lemma map_P_few (m : gmap Slice V) b : Z.of_nat (base.size m) < b -> few_keys b (map_P m).
Proof.
  intros Hm. exists (map_to_list m).*1. split; [by rewrite length_fmap, length_map_to_list|]. intros k v Hk. apply list_elem_of_fmap.
  exists (k, v). split; [done|]. by apply elem_of_map_to_list.
Qed.

Lemma size_insert_le (m : gmap Slice V) k v : (base.size (<[k := v]> m) <= Datatypes.S (base.size m))%nat.
Proof. rewrite map_size_insert. destruct (m !! k); unfold id; lia. Qed.

Lemma size_delete_le (m : gmap Slice V) k : (base.size (delete k m) <= base.size m)%nat.
Proof. rewrite map_size_delete. destruct (m !! k); unfold id; lia. Qed.

Lemma Insert_map n m held c k v charge : Sharded_Holds (map_P m) n held c -> 0 <= charge < 2 ^ 32 ->
  Z.of_nat (base.size m) + 1 < 2 ^ 31 -> Z.of_nat (length held) + 2 < 2 ^ 31 ->
  exists h c', Sharded_Insert malloc k v charge c = Ret (h, c') /\ Sharded_Holds (map_P (<[k := v]> m)) n ((h, v) :: held) c' /\ ledgers c' ≡ₚ (k, v) :: ledgers c.
Proof.
  intros HS Hc Hm Hl. set (P1 := fun k' v' => map_P m k' v' \/ k' = k /\ v' = v).
  assert (HS1 : Sharded_Holds P1 n held c).
  { apply (Sharded_weaken (map_P m)); [by left| |done]. destruct (map_P_few m (2 ^ 31 - 1) ltac:(lia)) as (ks & Hks & Hin).
    exists (k :: ks). split; [cbn [length]; lia|]. intros k' v' [Hk|[-> _]]; apply elem_of_cons; [right; by eapply Hin|by left]. }
  destruct (Sharded_Insert_spec malloc Hmalloc P1 n held c k v charge HS1 ltac:(by right) Hc Hl) as (h & c' & E & HS' & Hlg).
  exists h, c'. split; [done|]. split; [|done]. apply (Sharded_weaken (latest P1 k v)); [|apply map_P_few; pose proof (size_insert_le m k v); lia|done].
  intros k' v' [[Hk|[-> ->]] Hl']; unfold map_P; [|apply lookup_insert_eq]. destruct (decide (k' = k)) as [->|].
  - rewrite lookup_insert_eq. by rewrite Hl'.
  - by rewrite lookup_insert_ne.
Qed.

Lemma Erase_map n m held c k : Sharded_Holds (map_P m) n held c -> Z.of_nat (length held) + 2 < 2 ^ 31 ->
  exists c', Sharded_Erase k c = Ret (tt, c') /\ Sharded_Holds (map_P (delete k m)) n held c' /\ ledgers c' ≡ₚ ledgers c.
Proof.
  intros HS Hl. destruct (Sharded_Erase_spec (map_P m) n held c k HS Hl) as (c' & E & HS' & Hlg). exists c'. split; [done|]. split; [|done].
  apply (Sharded_weaken (without (map_P m) k)); [|apply (few_sub (map_P m)); [apply (sh_few _ _ _ _ HS)|]|done].
  - intros k' v' [Hk Hne]. unfold map_P. by rewrite lookup_delete_ne.
  - intros k' v'. unfold map_P. intros Hk. by apply lookup_delete_Some in Hk as [_ Hk].
Qed.

Lemma remove_length {A} i (l : list A) : (length (take i l ++ drop (Datatypes.S i) l) <= length l)%nat.
Proof. rewrite length_app, length_take, length_drop. lia. Qed.

(** What one call does to the map. *)
Definition map_op (op : CacheOp) (m : gmap Slice V) : gmap Slice V :=
  match op with OpInsert k v _ => <[k := v]> m | OpErase k => delete k m | _ => m end.

Definition lookup_ok (m : gmap Slice V) (op : CacheOp) (r : list (option V)) : Prop :=
  match op with OpLookup k => r = [None] \/ r = [m !! k] | _ => r = [] end.

Lemma client_op_spec n m held c op : Sharded_Holds (map_P m) n held c -> charge_ok op ->
  Z.of_nat (base.size m) + 1 < 2 ^ 31 -> Z.of_nat (length held) + 2 < 2 ^ 31 ->
  exists held' r c', client_op op held.*1 c = Ret ((held'.*1, r), c') /\ Sharded_Holds (map_P (map_op op m)) n held' c' /\ lookup_ok m op r /\
    ledgers c' ≡ₚ inserted [op] ++ ledgers c /\ (length held' <= Datatypes.S (length held))%nat.
Proof.
  intros HS Hop Hm Hl. destruct op as [k v charge|k|i|k|]; cbn [client_op map_op lookup_ok charge_ok inserted omap list_omap] in *.
  - destruct (Insert_map n m held c k v charge HS Hop Hm Hl) as (h & c' & E & HS' & Hlg). exists ((h, v) :: held), [], c'.
    rewrite (bind_eq _ _ _ _ _ E). by split_and!.
  - destruct (Sharded_Lookup_spec (map_P m) n held c k HS Hl) as (o & c' & E & Hlg & Ho). rewrite (bind_eq _ _ _ _ _ E). destruct o as [h|].
    + destruct Ho as (v & Hv & HS'). exists ((h, v) :: held), [Some v], c'.
      rewrite (bind_eq _ _ _ _ _ (Sharded_Value_spec _ _ _ _ h v HS' ltac:(apply elem_of_cons; by left))). split_and!; [done|done| |done|done].
      right. by rewrite Hv.
    + exists held, [None], c'. split_and!; [done|done|by left|done|lia].
  - rewrite list_lookup_fmap. destruct (held !! i) as [[h v]|] eqn:Ei; cbn [fmap option_fmap option_map fst].
    + pose proof HS as HS0. rewrite <- (take_drop_middle _ _ _ Ei) in HS0. destruct (Sharded_Release_spec (map_P m) n _ _ c h v HS0) as (c' & E & HS' & Hlg).
      exists (take i held ++ drop (Datatypes.S i) held), [], c'. rewrite (bind_eq _ _ _ _ _ E). split_and!; [|done|done|done|].
      * rewrite fmap_app, fmap_take, fmap_drop. by rewrite Nat.add_1_r.
      * apply le_S, remove_length.
    + exists held, [], c. split_and!; [done|done|done|done|lia].
  - destruct (Erase_map n m held c k HS Hl) as (c' & E & HS' & Hlg). exists held, [], c'. rewrite (bind_eq _ _ _ _ _ E). split_and!; [done|done|done|done|lia].
  - destruct (prune_shards (map_P m) n held Hl (Z.to_nat kNumShards) 0 c HS (Nat.le_refl _)) as (c' & E & HS' & Hlg). exists held, [], c'. unfold Sharded_Prune.
    rewrite (bind_eq _ _ _ _ _ E). split_and!; [done|done|done|done|lia].
Qed.

Lemma size_map_op op m : (base.size (map_op op m) <= Datatypes.S (base.size m))%nat.
Proof. destruct op; cbn [map_op]; [apply size_insert_le|lia|lia|pose proof (size_delete_le m k); lia|lia]. Qed.

Lemma lookups_ok_cons m op ops r rs : lookup_ok m op r -> lookups_ok (map_op op m) ops rs -> lookups_ok m (op :: ops) (r ++ rs).
Proof. destruct op; cbn [lookup_ok map_op lookups_ok]; try (by intros ->). intros [-> | ->] Hrs; cbn [app]; (split; [|done]); [by left|by right]. Qed.

Lemma client_spec n ops : forall m held c, Sharded_Holds (map_P m) n held c -> Forall charge_ok ops ->
  Z.of_nat (base.size m) + Z.of_nat (length ops) < 2 ^ 31 -> Z.of_nat (length held) + Z.of_nat (length ops) + 1 < 2 ^ 31 ->
  exists held' rs c' m', client ops held.*1 c = Ret ((held'.*1, rs), c') /\ Sharded_Holds (map_P m') n held' c' /\ lookups_ok m ops rs /\
    ledgers c' ≡ₚ inserted ops ++ ledgers c.
Proof.
  induction ops as [|op ops IH]; intros m held c HS Hops Hm Hl; [by exists held, [], c, m|].
  apply Forall_cons in Hops as [Hop Hops]. cbn [length] in Hm, Hl.
  destruct (client_op_spec n m held c op HS Hop ltac:(lia) ltac:(lia)) as (held1 & r & c1 & E1 & HS1 & Hr & Hlg1 & Hl1).
  pose proof (size_map_op op m). destruct (IH (map_op op m) held1 c1 HS1 Hops ltac:(lia) ltac:(lia)) as (held2 & rs & c2 & m2 & E2 & HS2 & Hrs & Hlg2).
  exists held2, (r ++ rs), c2, m2. cbn [client]. rewrite (bind_eq _ _ _ _ _ E1), (bind_eq _ _ _ _ _ E2). split_and!; [done|done|by apply lookups_ok_cons|].
  rewrite Hlg2, Hlg1. change (op :: ops) with ([op] ++ ops). unfold inserted. rewrite omap_app. solve_Permutation.
Qed.

Lemma release_all_spec P n held : forall c, Sharded_Holds P n held c -> exists c', release_all held.*1 c = Ret (tt, c') /\ Sharded_Holds P n [] c' /\ ledgers c' ≡ₚ ledgers c.
Proof.
  induction held as [|[h v] held IH]; intros c HS; [by exists c|]. destruct (Sharded_Release_spec P n [] held c h v HS) as (c1 & E1 & HS1 & Hlg1).
  destruct (IH c1 HS1) as (c' & E & HS' & Hlg). exists c'. cbn [fmap list_fmap fst release_all]. rewrite (bind_eq _ _ _ _ _ E1). split_and!; [done|done|by rewrite Hlg].
Qed.

Lemma client_new capacity ops : Forall charge_ok ops -> Z.of_nat (length ops) + 1 < 2 ^ 31 ->
  exists held' rs c' m', client ops [] (ShardedLRUCache_new capacity) = Ret ((held'.*1, rs), c') /\ Sharded_Holds (map_P m') 0 held' c' /\ lookups_ok ∅ ops rs /\
    ledgers c' ≡ₚ inserted ops.
Proof.
  intros Hops Hl. destruct (client_spec 0 ops ∅ [] (ShardedLRUCache_new capacity)) as (held' & rs & c' & m' & E & HS & Hrs & Hlg); [|done|rewrite map_size_empty; lia|cbn [length]; lia|].
  - apply Sharded_new_spec. by apply map_P_few.
  - exists held', rs, c', m'. split_and!; [done|done|done|]. rewrite Hlg. assert (Hz : ledgers (ShardedLRUCache_new (V := V) capacity) = []) by done.
    by rewrite Hz, app_nil_r.
Qed.
End Client.

(** * Claims *)

(** C12: to its clients the LRU cache is a map that forgets: any sequence of
    insertions, lookups, releases of handles, erasures and prunings runs on a new
    cache of any capacity, zero included, without undefined behaviour or a
    violated assertion, and each lookup finds nothing or the value that was last
    inserted for the key and not erased since. *)
Theorem Cache_refines_map {V} (malloc : gset nat -> nat) capacity (ops : list (CacheOp (V := V))) :
  (forall X, malloc X ∉ X /\ malloc X <> 0%nat) -> Forall charge_ok ops -> Z.of_nat (length ops) + 1 < 2 ^ 31 ->
  exists hs rs c, client malloc ops [] (ShardedLRUCache_new capacity) = Ret ((hs, rs), c) /\ lookups_ok ∅ ops rs.
Proof.
  intros Hm Hops Hl. destruct (client_new malloc Hm capacity ops Hops Hl) as (held & rs & c & _ & E & _ & Hrs & _). by exists held.*1, rs, c.
Qed.

(** C13: the cache deletes every value once: when a client is done with any
    sequence of calls, releases its handles and destroys the cache, no entry is
    left in memory, and the deleter was called for exactly the keys and values
    that were inserted, as often as they were inserted. *)
Theorem Cache_deletes_once {V} (malloc : gset nat -> nat) capacity (ops : list (CacheOp (V := V))) :
  (forall X, malloc X ∉ X /\ malloc X <> 0%nat) -> Forall charge_ok ops -> Z.of_nat (length ops) + 1 < 2 ^ 31 ->
  exists hs rs c c', client malloc ops [] (ShardedLRUCache_new capacity) = Ret ((hs, rs), c) /\
    bind (release_all hs) (fun _ => ShardedLRUCache_delete) c = Ret (tt, c') /\
    Forall (fun s => entries s = ∅) (shard_ c') /\ concat (map deleted (shard_ c')) ≡ₚ inserted ops.
Proof.
  intros Hm Hops Hl. destruct (client_new malloc Hm capacity ops Hops Hl) as (held & rs & c & m & E & HS & _ & Hlg).
  destruct (release_all_spec _ _ held c HS) as (c1 & E1 & HS1 & Hlg1). destruct (Sharded_delete_spec _ _ c1 HS1) as (c' & E2 & He & Hd).
  exists held.*1, rs, c, c'. rewrite (bind_eq _ _ _ _ _ E1). split_and!; [done|done|done|]. by rewrite Hd, Hlg1.
Qed.

(** C15: eviction: an insertion into a shard whose state is right puts the new
    entry into the list of those in use, in place of an older entry with its key,
    and then evicts entries that nobody uses, the oldest first and not one more
    than it must, until the charges are within the capacity or no such entry is
    left; of the entries that stay none changes its place. *)
Theorem Cache_evicts_oldest {V} (P : Slice -> V -> Prop) shard ks (malloc : gset nat -> nat) c L U held key v chg :
  Z.of_nat (length ks) < 2 ^ 31 -> (forall k v, P k v -> k ∈ ks) -> (forall X, malloc X ∉ X /\ malloc X <> 0%nat) ->
  ShardOk P shard c L U held -> Shard (HashSlice key) = shard -> P key v -> 0 <= chg < 2 ^ 32 -> Z.of_nat (length held) + 2 < 2 ^ 31 ->
  exists e c' L1 U1 n, LRUCache_Insert malloc key (HashSlice key) v chg c = Ret (e, c') /\ ShardOk P shard c' (drop n L1) U1 ((e, v) :: held) /\
    (if capacity_ c >? 0 then replaced c L U key e L1 U1 else L1 = L /\ U1 = U) /\
    (drop n L1 = [] \/ usage_ c' <= capacity_ c) /\ forall m, (m < n)%nat -> capacity_ c < charges_with c e chg (drop m L1 ++ U1).
Proof.
  intros Hks HPks Hm HS Hsh HP Hc Hl.
  destruct (LRUCache_Insert_spec P shard ks Hks HPks malloc Hm c L U held key v chg HS Hsh HP Hc Hl) as (e & c' & L1 & U1 & n & E & HS' & _ & _ & _ & Hr & Hend & Hmin).
  by exists e, c', L1, U1, n.
Qed.

(** * Instances *)

Definition sample_ops : list (CacheOp (V := nat)) :=
  [OpInsert (chars "a") 1%nat 1; OpLookup (chars "a"); OpInsert (chars "a") 2%nat 1; OpRelease 0; OpRelease 1; OpLookup (chars "a"); OpErase (chars "a");
   OpLookup (chars "a"); OpInsert (chars "b") 3%nat 1; OpRelease 0; OpPrune; OpLookup (chars "b")].

Lemma sample_charges : Forall charge_ok sample_ops.
Proof. repeat (constructor; [done || (cbn; lia)|]). constructor. Qed.

Lemma Cache_refines_map_witness : exists hs rs c, client next_address sample_ops [] (ShardedLRUCache_new 32) = Ret ((hs, rs), c) /\
  lookups_ok ∅ sample_ops rs /\ rs = [Some 1%nat; Some 2%nat; None; None].
Proof.
  destruct (Cache_refines_map next_address 32 sample_ops next_address_fresh sample_charges ltac:(cbn; lia)) as (hs & rs & c & E & H).
  exists hs, rs, c. split; [exact E|]. split; [exact H|]. revert E. vm_compute. intros E. by injection E.
Defined.

Lemma Cache_deletes_once_witness : exists hs rs c c', client next_address sample_ops [] (ShardedLRUCache_new 32) = Ret ((hs, rs), c) /\
  bind (release_all hs) (fun _ => ShardedLRUCache_delete) c = Ret (tt, c') /\
  concat (map deleted (shard_ c')) ≡ₚ [(chars "a", 1%nat); (chars "a", 2%nat); (chars "b", 3%nat)].
Proof.
  destruct (Cache_deletes_once next_address 32 sample_ops next_address_fresh sample_charges ltac:(cbn; lia)) as (hs & rs & c & c' & E & E' & _ & H).
  exists hs, rs, c, c'. split; [exact E|]. split; [exact E'|exact H].
Defined.

Lemma Cache_evicts_oldest_witness : exists e c', LRUCache_Insert next_address (chars "a") (HashSlice (chars "a")) 7%nat 1 (LRUCache_new 3) = Ret (e, c') /\ usage_ c' <= 3.
Proof.
  destruct (Cache_evicts_oldest (fun k v => k = chars "a") (Shard (HashSlice (chars "a"))) [chars "a"] next_address (LRUCache_new 3) [] [] [] (chars "a") 7%nat 1)
    as (e & c' & L1 & U1 & n & E & _).
  - reflexivity.
  - intros k _ ->. apply elem_of_cons. by left.
  - exact next_address_fresh.
  - apply LRUCache_new_ok.
  - reflexivity.
  - reflexivity.
  - lia.
  - reflexivity.
  - exists e, c'. split; [exact E|]. revert E. vm_compute. intros E. by injection E as _ <-.
Defined.
