(* ===== verification/LvTable.v ===== *)
(** Reading a table ([table/table.cc]). *)

From stdpp Require Import base list gmap strings.
From Stdlib Require Import ZArith Lia.
From S2P Require Import Prelude LvSlice LvCoding LvCrc LvBloom LvEnv LvIterator LvBlock LvFilterBlock LvTableFormat LvIterWrap LvTwoLevel LvOptions LvCacheApi.

(** The cleanup functions of the iterators over blocks. *)
Inductive BlockCleanup (H : Type) : Type :=
| DeleteBlock (block : Block)
| ReleaseBlock (cache_handle : H).
Arguments DeleteBlock {H} _.
Arguments ReleaseBlock {H} _.

(** The file and the block cache. *)
Record TableEnv (F C : Type) : Type := { env_file : F; env_cache : C }.
Arguments env_file {F C} _.
Arguments env_cache {F C} _.
Arguments Build_TableEnv {F C} _ _.

Section Table.
Context {F C H : Type} `{RF : RandomAccessFile F} `{CC : Cache C H Block}.
(** Where the bytes of a block lie when their CRC is computed. *)
Variable address : Z.
Abbreviation E := (TableEnv F C).
Abbreviation BlockIter := (AnyIter (BlockCleanup H)).

Definition on_file {A} (c : M F A) : M E A :=
  fun e => match c (env_file e) with
           | Ret (a, f) => Ret (a, Build_TableEnv f (env_cache e))
           | Undef => Undef
           | NoFuel => NoFuel
           end.

Definition on_cache {A} (c : M C A) : M E A :=
  fun e => match c (env_cache e) with
           | Ret (a, ca) => Ret (a, Build_TableEnv (env_file e) ca)
           | Undef => Undef
           | NoFuel => NoFuel
           end.

(** A call on a local iterator, or its construction. *)
Definition with_iter {I A} (c : M I A) (it : I) : M E (A * I) :=
  fun e => match c it with Ret r => Ret (r, e) | Undef => Undef | NoFuel => NoFuel end.

Definition construct {A} (o : outcome A) : M E A :=
  fun e => match o with Ret a => Ret (a, e) | Undef => Undef | NoFuel => NoFuel end.

(** [delete iter]. *)
Definition run_cleanup (c : BlockCleanup H) : M E unit :=
  match c with
  | DeleteBlock _ => ret tt
  | ReleaseBlock h => on_cache (Cache_Release h)
  end.

Definition delete_block_iter (it : BlockIter) : M E unit := run_cleanups run_cleanup (any_cleanups it).

(** [status] is not used; [file] and the cache are in the environment. A filter
    keeps its policy. *)
Record Rep : Type := {
  options : Options; cache_id : Z; filter : option (FilterPolicy * FilterBlockReader);
  metaindex_handle : BlockHandle; index_block : Block
}.

(** [ReadOptions opt; if (options.paranoid_checks) opt.verify_checksums = true]. *)
Definition paranoid_options (o : Options) : ReadOptions :=
  {| verify_checksums := paranoid_checks o; fill_cache := fill_cache ReadOptions_new; snapshot := snapshot ReadOptions_new |}.

Definition read_block (opt : ReadOptions) (handle : BlockHandle) : M E (Status * BlockContents) :=
  on_file (ReadBlock address (verify_checksums opt) handle).

Definition ReadFilter (policy : FilterPolicy) (filter_handle_value : Slice) (rep : Rep) : M E Rep :=
  let '(s, filter_handle, _) := BlockHandle_DecodeFrom BlockHandle_new filter_handle_value in
  if negb (Status_ok s) then ret rep
  else
    let* '(s, block) := read_block (paranoid_options (options rep)) filter_handle in
    if negb (Status_ok s) then ret rep
    else ret {| options := options rep; cache_id := cache_id rep; filter := Some (policy, FilterBlockReader_new (data block));
                metaindex_handle := metaindex_handle rep; index_block := index_block rep |}.

Definition ReadMeta (footer : Footer) (rep : Rep) : M E Rep :=
  match filter_policy (options rep) with
  | None => ret rep
  | Some policy =>
      let* '(s, contents) := read_block (paranoid_options (options rep)) (metaindex_handle_ footer) in
      if negb (Status_ok s) then ret rep
      else
        let I := AnyIter_iterator BytewiseComparator in
        let* iter := construct (NewIterator (Block_new (data contents))) in
        let key := chars "filter." ++ FilterPolicy_Name policy in
        let* '(_, iter) := with_iter (iter_Seek key) iter in
        let* found := if iter_Valid iter then let* '(k, _) := with_iter iter_key iter in ret (Slice_eq k key) else ret false in
        let* rep := if (found : bool) then let* '(v, _) := with_iter iter_value iter in ReadFilter policy v rep else ret rep in
        delete_block_iter iter ;;;
        ret rep
  end.

Definition Table_Open (opt : Options) (file_size : Z) : M E (Status * option Rep) :=
  if file_size <? kEncodedLength then ret (Status_Corruption (chars "file is too short to be an sstable") [], None)
  else
    let* '(s, footer_input, _) := on_file (RandomAccess_Read (file_size - kEncodedLength) kEncodedLength) in
    if negb (Status_ok s) then ret (s, None)
    else
      let* '(s, footer, _) := need (Footer_DecodeFrom Footer_new footer_input) in
      if negb (Status_ok s) then ret (s, None)
      else
        let* '(s, index_block_contents) := read_block (paranoid_options opt) (index_handle_ footer) in
        if Status_ok s then
          let* id := if block_cache opt then on_cache Cache_NewId else ret 0 in
          let* rep := ReadMeta footer {| options := opt; cache_id := id; filter := None;
                                         metaindex_handle := metaindex_handle_ footer;
                                         index_block := Block_new (data index_block_contents) |} in
          ret (s, Some rep)
        else ret (s, None).

Definition block_cache_key (cache_id offset : Z) : Slice := EncodeFixed64 cache_id ++ EncodeFixed64 offset.

(** The block with its handle when it is in the cache, or the error. *)
Definition find_block (rep : Rep) (opt : ReadOptions) (handle : BlockHandle) : M E (Status * option (Block * option H)) :=
  if block_cache (options rep) then
    let key := block_cache_key (cache_id rep) (offset_ handle) in
    let* o := on_cache (Cache_Lookup key) in
    match o with
    | Some cache_handle => let* block := on_cache (Cache_Value cache_handle) in ret (Status_OK, Some (block, Some cache_handle))
    | None =>
        let* '(s, contents) := read_block opt handle in
        if Status_ok s then
          let block := Block_new (data contents) in
          if cachable contents && fill_cache opt then
            let* cache_handle := on_cache (Cache_Insert key block (LvBlock.size_ block)) in
            ret (s, Some (block, Some cache_handle))
          else ret (s, Some (block, None))
        else ret (s, None)
    end
  else
    let* '(s, contents) := read_block opt handle in
    if Status_ok s then ret (s, Some (Block_new (data contents), None)) else ret (s, None).

Definition BlockReader (rep : Rep) (opt : ReadOptions) (index_value : Slice) : M E BlockIter :=
  let '(s, handle, _) := BlockHandle_DecodeFrom BlockHandle_new index_value in
  let* '(s, found) := if Status_ok s then find_block rep opt handle else ret (s, None) in
  match found with
  | Some (block, cache_handle) =>
      let* iter := construct (NewIterator block) in
      ret (Iterator_RegisterCleanup (match cache_handle with None => DeleteBlock block | Some h => ReleaseBlock h end) iter)
  | None => ret (of_kind (AnyEmpty (NewErrorIterator s)))
  end.

(** [Table::NewIterator]: the iterator takes the environment. *)
Definition Table_NewIterator (rep : Rep) (e : E) : outcome (TwoLevelIterator E BlockIter BlockIter) :=
  match NewIterator (index_block rep) with
  | Ret it => NewTwoLevelIterator (IX := AnyIter_iterator (comparator (options rep))) e it
  | Undef => Undef
  | NoFuel => NoFuel
  end.

(** Its virtual functions, and its deletion. *)
Definition Table_iterator (rep : Rep) (opt : ReadOptions) (skip_fuel : nat) : Iterator (TwoLevelIterator E BlockIter BlockIter) :=
  let I := AnyIter_iterator (comparator (options rep)) in
  TwoLevel_iterator (IX := I) (ID := I) (BlockReader rep opt) delete_block_iter skip_fuel.

Definition Table_delete_iterator : TwoLevelIterator E BlockIter BlockIter -> outcome E := TwoLevel_delete delete_block_iter delete_block_iter.

(** The result is the call of [handle_result] that is made, if any. *)
Definition InternalGet (rep : Rep) (opt : ReadOptions) (k : Slice) : M E (Status * option (Slice * Slice)) :=
  let I := AnyIter_iterator (comparator (options rep)) in
  let* iiter := construct (NewIterator (C := BlockCleanup H) (index_block rep)) in
  let* '(_, iiter) := with_iter (iter_Seek k) iiter in
  let* '(s, result) :=
    if iter_Valid iiter then
      let* '(handle_value, _) := with_iter iter_value iiter in
      let '(s, handle, _) := BlockHandle_DecodeFrom BlockHandle_new handle_value in
      let* may_match :=
        match filter rep with
        | Some (policy, r) => if Status_ok s then need (FilterBlock_KeyMayMatch policy r (offset_ handle) k) else ret true
        | None => ret true
        end in
      if negb may_match then ret (Status_OK, None)
      else
        let* block_iter := BlockReader rep opt handle_value in
        let* '(_, block_iter) := with_iter (iter_Seek k) block_iter in
        let* result :=
          if iter_Valid block_iter then
            let* '(key, _) := with_iter iter_key block_iter in
            let* '(value, _) := with_iter iter_value block_iter in
            ret (Some (key, value))
          else ret None in
        delete_block_iter block_iter ;;;
        ret (iter_status block_iter, result)
    else ret (Status_OK, None) in
  delete_block_iter iiter ;;;
  ret (if Status_ok s then iter_status iiter else s, result).

Definition ApproximateOffsetOf (rep : Rep) (key : Slice) : M E Z :=
  let I := AnyIter_iterator (comparator (options rep)) in
  let* index_iter := construct (NewIterator (C := BlockCleanup H) (index_block rep)) in
  let* '(_, index_iter) := with_iter (iter_Seek key) index_iter in
  let* result :=
    if iter_Valid index_iter then
      let* '(input, _) := with_iter iter_value index_iter in
      let '(s, handle, _) := BlockHandle_DecodeFrom BlockHandle_new input in
      ret (if Status_ok s then offset_ handle else offset_ (metaindex_handle rep))
    else ret (offset_ (metaindex_handle rep)) in
  delete_block_iter index_iter ;;;
  ret result.
End Table.
