(* ===== verification/LvTableProps.v ===== *)
(** A table that was built is read back: opening it finds the index and the
    filters, the iterator over it is an iterator over its entries, and
    [InternalGet] finds what is in it, with or without a block cache. *)

From stdpp Require Import base list gmap strings sorting.
From Stdlib Require Import ZArith Lia.
From S2P Require Import Prelude LvSlice LvCoding LvCrc LvBloom LvEnv LvIterator LvBlock LvBlockProps LvBlockIter LvFilterBlock LvTableFormat LvIterWrap LvTwoLevel LvOptions LvTableBuilder LvTableBuildProps LvCacheApi LvTable.

(** * Iterators keep what they do not touch *)

Section Keep.
Context {I : Type} `{HI : Iterator I} {cmp : Slice -> Slice -> Z} {ok : Slice -> Prop} {kvs : list (Slice * Slice)}.
Context {At : I -> nat -> Prop} (L : IteratorLaws I cmp ok kvs At) (Keep : I -> Prop).

(** The calls that move. *)
Inductive move : M I unit -> Prop :=
| move_first : move iter_SeekToFirst
| move_last : move iter_SeekToLast
| move_next : move iter_Next
| move_prev : move iter_Prev
| move_seek target : move (iter_Seek target).

Hypothesis Hkeep : forall c it it', move c -> c it = Ret (tt, it') -> Keep it -> Keep it'.

Lemma laws_keep : IteratorLaws I cmp ok kvs (fun it i => At it i /\ Keep it).
Proof.
  constructor.
  - intros it i [HA _]. by eapply it_bound.
  - intros it i [HA _]. by apply it_valid.
  - intros it i [HA _]. by eapply it_status.
  - intros it i k v [HA _]. by eapply it_key.
  - intros it i k v [HA _]. by eapply it_value.
  - intros it i [HA HK]. destruct (it_first it i HA) as (it' & E & HA'). exists it'. split; [done|]. split; [done|]. by eapply Hkeep; [constructor|..].
  - intros it i [HA HK]. destruct (it_last it i HA) as (it' & E & HA'). exists it'. split; [done|]. split; [done|]. eapply Hkeep; [apply move_last|done..].
  - intros it i [HA HK] Hi. destruct (it_next it i HA Hi) as (it' & E & HA'). exists it'. split; [done|]. split; [done|]. eapply Hkeep; [apply move_next|done..].
  - intros it i [HA HK] Hi. destruct (it_prev it i HA Hi) as (it' & E & HA'). exists it'. split; [done|]. split; [done|]. eapply Hkeep; [apply move_prev|done..].
  - intros it i target [HA HK] Ht. destruct (it_seek it i target HA Ht) as (it' & m & E & HA' & Hm). exists it', m. split; [done|]. split; [|done].
    split; [done|]. eapply Hkeep; [apply move_seek|done..].
Qed.
End Keep.

Lemma on_kind_cleanups {C A} e b (it it' : AnyIter C) (a : A) : on_kind e b it = Ret (a, it') -> any_cleanups it' = any_cleanups it.
Proof.
  unfold on_kind. destruct (any_kind it) as [s|data r n i].
  - destruct (e s) as [[a' s']| |]; [|done..]. by intros [= _ <-].
  - destruct (b data r n i) as [[a' s']| |]; [|done..]. by intros [= _ <-].
Qed.

Lemma any_keeps {C} cmp (cs : list C) c it it' :
  move (HI := AnyIter_iterator cmp) c -> c it = Ret (tt, it') -> any_cleanups it = cs -> any_cleanups it' = cs.
Proof. intros Hm E <-. destruct Hm; exact (on_kind_cleanups _ _ _ _ _ E). Qed.

Section Table.
Context {F C H : Type} `{RF : RandomAccessFile F} {Contains : F -> Slice -> Prop} `{RL : !RandomAccessLaws F Contains}.
Context `{CC : Cache C H Block} {Holds : (Slice -> Block -> Prop) -> Z -> list (H * Block) -> C -> Prop} `{CL : !CacheLaws C H Block Holds}.
Context (address : Z) (o : Options) (ok : Slice -> Prop) (c : Z).
Abbreviation cmp := (comparator o).
Abbreviation interval := (block_restart_interval o).
Context `{TC : !TableComparator cmp ok}.
Hypothesis Hinterval : 1 <= interval.
Hypothesis Hpolicy : forall p, filter_policy o = Some p -> TablePolicy p ok c.
Abbreviation KV := (Slice * Slice)%type.
Abbreviation Env := (TableEnv F C).
Abbreviation data := (data_of interval cmp).
Abbreviation stored := (stored interval cmp).
Abbreviation handle_of := (handle_of interval cmp).
Abbreviation idx_of := (idx_of interval cmp).

(** The table in the file. *)
Context (bs : list (list KV)) (seps : list Slice).
Hypothesis HF : Fits o ok c bs.
Hypothesis HX : Indexed o ok bs seps.
Abbreviation w := (table_file o bs seps).

(** ** Blocks in the file *)

Lemma read_raw (e : Env) pre d post verify : Contains (env_file e) w -> w = pre ++ raw_block kNoCompression d ++ post -> is_bytes d ->
  exists f' b, Contains f' w /\
    on_file (ReadBlock address verify {| offset_ := size pre; size_ := size d |}) e =
      Ret ((Status_OK, {| LvTableFormat.data := d; cachable := b; heap_allocated := b |}), Build_TableEnv f' (env_cache e)).
Proof.
  intros Hc Hw Hb. destruct (table_sizes o ok c Hinterval Hpolicy bs seps HF HX) as [_ Hs].
  destruct (ReadBlock_raw address (env_file e) w pre d post verify Hc Hw ltac:(lia) Hb) as (f' & b & Hc' & E).
  exists f', b. split; [done|]. unfold on_file. by rewrite E.
Qed.

Lemma data_at j : (j < length bs)%nat -> exists post, w = stored (take j bs) ++ raw_block kNoCompression (data (nth j bs [])) ++ post.
Proof.
  intros Hj. destruct (lookup_lt_is_Some_2 bs j Hj) as [b Hb]. rewrite (nth_lookup_Some _ _ _ _ Hb).
  exists (stored (drop (S j) bs) ++ filter_raw o bs ++ raw_block kNoCompression (meta_data o bs) ++
    raw_block kNoCompression (index_data o bs seps) ++ footer_bytes (table_footer o bs seps)).
  unfold table_file, before_index. rewrite <- (take_drop j bs) at 1. rewrite (drop_S _ _ _ Hb), stored_app.
  unfold LvTableBuildProps.stored at 2. cbn [map concat]. by rewrite <- !app_assoc.
Qed.

Lemma filter_at p : filter_policy o = Some p -> exists post, w = stored bs ++ raw_block kNoCompression (filter_data o bs) ++ post.
Proof.
  intros Hp. exists (raw_block kNoCompression (meta_data o bs) ++ raw_block kNoCompression (index_data o bs seps) ++ footer_bytes (table_footer o bs seps)).
  unfold table_file, before_index, filter_raw. by rewrite Hp, <- !app_assoc.
Qed.

Lemma meta_at : exists post, w = (stored bs ++ filter_raw o bs) ++ raw_block kNoCompression (meta_data o bs) ++ post.
Proof.
  exists (raw_block kNoCompression (index_data o bs seps) ++ footer_bytes (table_footer o bs seps)).
  unfold table_file, before_index. by rewrite <- !app_assoc.
Qed.

Lemma data_block_is j : (j < length bs)%nat -> is_block (nth j bs []) (data (nth j bs [])).
Proof.
  intros Hj. destruct HF as [He Hc _ _]. destruct (lookup_lt_is_Some_2 bs j Hj) as [b Hb]. rewrite (nth_lookup_Some _ _ _ _ Hb).
  rewrite <- (take_drop j bs), (drop_S _ _ _ Hb), concat_app in He, Hc. cbn [concat] in *. apply entries_ok_app in He as (_ & He & _).
  apply entries_ok_app in He as (He & _ & _). rewrite !table_cost_app in Hc. pose proof (table_cost_pos (concat (take j bs))).
  pose proof (table_cost_pos b). pose proof (table_cost_pos (concat (drop (S j) bs))).
  destruct (data_of_spec interval cmp ok Hinterval b He ltac:(lia)) as (Eb & _).
  apply (build_is_block cmp (ok := ok) interval); [done|apply He|by eapply entries_keys|lia|done].
Qed.

Lemma index_block_is : is_block (idx_of bs seps) (index_data o bs seps).
Proof.
  destruct (index_data_spec o ok c Hinterval bs seps HF HX) as (_ & _ & He). destruct HX as (_ & _ & Hc).
  destruct (data_of_spec 1 cmp ok ltac:(lia) _ He Hc) as (Eb & _).
  apply (build_is_block cmp (ok := ok) 1); [lia|apply He|by eapply entries_keys|done|done].
Qed.

Lemma meta_block_is : is_block (meta_entries o bs) (meta_data o bs).
Proof.
  destruct (meta_data_spec o ok c Hinterval Hpolicy bs HF) as (_ & _ & _ & _ & _ & He & Hc).
  destruct (data_of_spec interval BytewiseComparator is_bytes Hinterval _ He ltac:(lia)) as (Eb & _).
  apply (build_is_block BytewiseComparator (ok := is_bytes) interval); [done|apply He|by eapply entries_keys|lia|done].
Qed.

(** ** The environment *)

(** [os]: the handles of the iterators of this table, [rest]: those of others. *)
Definition EnvOk (P : Slice -> Block -> Prop) (n : Z) (rest : list (H * Block)) (os : list (option (H * Block))) (e : Env) : Prop :=
  Contains (env_file e) w /\ Holds P n (omap id os ++ rest) (env_cache e).

(** What [Open] makes. *)
Record TableOk (rep : Rep) : Prop := {
  tk_options : LvTable.options rep = o;
  tk_index : LvTable.index_block rep = Block_new (index_data o bs seps);
  tk_meta : LvTable.metaindex_handle rep = meta_handle o bs;
  tk_filter : LvTable.filter rep = (fun p => (p, FilterBlockReader_new (filter_data o bs))) <$> filter_policy o
}.

Lemma with_iter_eq {I A} (f : M I A) it a it' (e : Env) : f it = Ret (a, it') -> with_iter f it e = Ret ((a, it'), e).
Proof. intros E. unfold with_iter. by rewrite E. Qed.

Section Reader.
Context (P : Slice -> Block -> Prop) (n : Z) (rest : list (H * Block)) (rep : Rep) (opt : ReadOptions).
Hypothesis Hrep : TableOk rep.
Hypothesis Hrest : Z.of_nat (length rest) < 2 ^ 30.
(** The blocks of this table are cached under the right keys. *)
Hypothesis HP : block_cache o = true -> forall j v, (j < length bs)%nat ->
  P (block_cache_key (cache_id rep) (offset_ (handle_of bs j))) v <-> v = Block_new (data (nth j bs [])).
Abbreviation Ok := (EnvOk P n rest).

Lemma read_data j e verify os : (j < length bs)%nat -> Ok os e ->
  exists e' b, on_file (ReadBlock address verify (handle_of bs j)) e =
    Ret ((Status_OK, {| LvTableFormat.data := data (nth j bs []); cachable := b; heap_allocated := b |}), e') /\ Ok os e'.
Proof.
  intros Hj [Hc He]. destruct (data_at j Hj) as (post & Hw). destruct HF as [He' Hc' _ HN].
  destruct (data_small o ok Hinterval bs j He' Hc' Hj) as [Hb _].
  destruct (read_raw e _ _ post verify Hc Hw Hb) as (f' & b & Hc2 & E). exists (Build_TableEnv f' (env_cache e)), b.
  split; [exact E|]. by split.
Qed.

Lemma on_cache_eq {A} (f : M C A) e a ca : f (env_cache e) = Ret (a, ca) -> on_cache (F := F) f e = Ret (a, Build_TableEnv (env_file e) ca).
Proof. intros E. unfold on_cache. by rewrite E. Qed.

Lemma key_bytes j : is_bytes (block_cache_key (cache_id rep) (offset_ (handle_of bs j))) /\
  size (block_cache_key (cache_id rep) (offset_ (handle_of bs j))) < 2 ^ 31.
Proof.
  unfold block_cache_key. rewrite is_bytes_app, size_app. unfold size. rewrite !length_EncodeFixed64.
  split; [split; apply EncodeFixed64_bytes|done].
Qed.

Lemma charge_small j : (j < length bs)%nat -> 0 <= LvBlock.size_ (Block_new (data (nth j bs []))) < 2 ^ 32.
Proof.
  intros Hj. destruct (data_block_is j Hj) as (es & R & Hd & _ & Hs & _). pose proof (size_nonneg (data (nth j bs []))) as H0.
  revert Hs H0. generalize (data (nth j bs [])). intros d Hs H0. unfold Block_new.
  destruct (size d <? 4); [cbn; lia|]. destruct (_ >? _); cbn; lia.
Qed.

Lemma few_held (os : list (option (H * Block))) : (length os <= 1)%nat -> Z.of_nat (length (omap id os ++ rest)) + 2 < 2 ^ 31.
Proof.
  intros Ho. rewrite length_app. assert (length (omap id os) <= 1)%nat; [|lia].
  destruct os as [|[x|] [|y os]]; cbn in *; lia.
Qed.

Lemma find_block_spec j e os : (j < length bs)%nat -> (length os <= 1)%nat -> Ok os e ->
  exists e' h, find_block address rep opt (handle_of bs j) e = Ret ((Status_OK, Some (Block_new (data (nth j bs [])), h)), e') /\
    Ok (((fun h => (h, Block_new (data (nth j bs [])))) <$> h) :: os) e'.
Proof.
  intros Hj Hos HE. pose proof (few_held os Hos) as Hheld. unfold find_block. rewrite (tk_options rep Hrep).
  set (blk := Block_new (data (nth j bs []))). destruct (block_cache o) eqn:Ec.
  2:{ destruct (read_data j e (verify_checksums opt) os Hj HE) as (e' & b & E & HE'). unfold read_block. rewrite (bind_eq _ _ _ _ _ E).
      exists e', None. by split. }
  destruct (key_bytes j) as [Hk1 Hk2]. set (key := block_cache_key _ _) in *. pose proof (HP eq_refl j) as HPj. fold key in HPj. fold blk in HPj.
  pose proof HE as [Hc HH]. destruct (lookup_law P n _ (env_cache e) key HH Hk1 Hk2 Hheld) as (oh & ca & El & Hl).
  rewrite (bind_eq _ _ _ _ _ (on_cache_eq _ _ _ _ El)). destruct oh as [h|].
  - destruct Hl as (v & Hv & Hl). apply (HPj v Hj) in Hv. subst v.
    pose proof (value_law P n ((h, blk) :: _) ca h blk Hl ltac:(apply elem_of_cons; by left)) as Ev.
    rewrite (bind_eq (on_cache (Cache_Value h)) _ (Build_TableEnv (env_file e) ca) blk _ (on_cache_eq _ (Build_TableEnv (env_file e) ca) _ _ Ev)).
    eexists _, (Some h). split; [reflexivity|]. by split.
  - assert (HE1 : Ok os (Build_TableEnv (env_file e) ca)) by by split.
    destruct (read_data j _ (verify_checksums opt) os Hj HE1) as (e' & b & E & HE'). unfold read_block. rewrite (bind_eq _ _ _ _ _ E).
    change (Status_ok Status_OK) with true. cbv iota. cbn [cachable]. destruct (b && fill_cache opt).
    + destruct HE' as [Hc' HH']. cbn [LvTableFormat.data]. fold blk.
      destruct (insert_law P n _ (env_cache e') key blk (LvBlock.size_ blk) HH' Hk1 Hk2) as (h & ca' & Ei & Hi).
      * by apply (HPj blk Hj).
      * by apply charge_small.
      * done.
      * rewrite (bind_eq _ _ _ _ _ (on_cache_eq _ _ _ _ Ei)). eexists _, (Some h). split; [reflexivity|]. by split.
    + exists e', None. by split.
Qed.

(** An iterator over a block of the table, and the handle it holds. *)
Definition DAt (j : nat) (oh : option (H * Block)) (d : AnyIter (BlockCleanup H)) (p : nat) : Prop :=
  AnyAt (nth j bs []) d p /\
  any_cleanups d = [match oh with None => DeleteBlock (Block_new (data (nth j bs []))) | Some (h, _) => ReleaseBlock h end].

Lemma BlockReader_spec j e os : (j < length bs)%nat -> (length os <= 1)%nat -> Ok os e ->
  exists d e' oh, BlockReader address rep opt (handle_bytes (handle_of bs j)) e = Ret (d, e') /\ Ok (oh :: os) e' /\
    DAt j oh d (length (nth j bs [])).
Proof.
  intros Hj Hos HE. unfold BlockReader. destruct HF as [He' Hc' _ HN].
  pose proof (small_ok _ (handle_small o ok Hinterval bs j HN He' Hc' Hj)) as Hok.
  rewrite <- (app_nil_r (handle_bytes _)), (DecodeFrom_handle _ _ [] Hok). change (Status_ok Status_OK) with true. cbv iota.
  destruct (find_block_spec j e os Hj Hos HE) as (e' & h & E & HE'). rewrite (bind_eq _ _ _ _ _ E).
  destruct (NewIterator_at (C := BlockCleanup H) _ _ (data_block_is j Hj)) as (it & En & HA & Hcl). unfold construct at 1.
  rewrite (bind_eq _ _ e' it e') by (by rewrite En). eexists _, e', _. split; [reflexivity|]. split; [exact HE'|]. split.
  - destruct HA as (es & R & it0 & HA). by exists es, R, it0.
  - unfold Iterator_RegisterCleanup. cbn [any_cleanups]. rewrite Hcl. by destruct h.
Qed.

Lemma delete_spec j d p oh os1 os2 e : DAt j oh d p -> Ok (os1 ++ oh :: os2) e ->
  exists e', delete_block_iter d e = Ret (tt, e') /\ Ok (os1 ++ os2) e'.
Proof.
  intros [_ Hcl] [Hc HH]. unfold delete_block_iter. rewrite Hcl. cbn [run_cleanups fold_right]. rewrite omap_app in HH. cbn [omap list_omap] in HH.
  destruct oh as [[h v]|]; cbn [id run_cleanup] in *.
  - rewrite <- app_assoc in HH. cbn [app] in HH. destruct (release_law P n _ _ (env_cache e) h v HH) as (ca & Er & Hr).
    rewrite (bind_eq _ _ _ _ _ (on_cache_eq _ _ _ _ Er)). eexists. split; [reflexivity|]. split; [done|]. by rewrite omap_app, <- app_assoc.
  - exists e. split; [done|]. split; [done|]. by rewrite omap_app.
Qed.
(** ** The iterator over the table *)

Lemma entries_of_block j : (j < length bs)%nat -> entries_ok cmp ok (nth j bs []).
Proof.
  intros Hj. destruct HF as [He _ _ _]. destruct (lookup_lt_is_Some_2 bs j Hj) as [b Hb]. rewrite (nth_lookup_Some _ _ _ _ Hb).
  rewrite <- (take_drop j bs), (drop_S _ _ _ Hb), concat_app in He. cbn [concat] in He. apply entries_ok_app in He as (_ & He & _).
  by apply entries_ok_app in He as (He & _ & _).
Qed.

Lemma entries_of_any j : entries_ok cmp ok (nth j bs []).
Proof.
  destruct (decide (j < length bs)%nat); [by apply entries_of_block|]. rewrite nth_overflow by lia. split; constructor.
Qed.

Lemma DAt_laws j oh : IteratorLaws (H := AnyIter_iterator cmp) (AnyIter (BlockCleanup H)) (Compare cmp) ok (nth j bs []) (DAt j oh).
Proof.
  pose proof (entries_of_any j) as He.
  apply (laws_keep (HI := AnyIter_iterator cmp) (AnyAt_laws cmp (ok := ok) (entries_keys cmp ok _ He) (proj1 He)) (fun d => any_cleanups d = _)).
  intros f it it' Hm E. by apply (any_keeps cmp _ f).
Qed.

Lemma index_entries : entries_ok cmp ok (idx_of bs seps).
Proof. by destruct (index_data_spec o ok c Hinterval bs seps HF HX) as (_ & _ & He). Qed.

(** An iterator over the index; it has no cleanup functions. *)
Definition index_at (it : AnyIter (BlockCleanup H)) (i : nat) : Prop := AnyAt (idx_of bs seps) it i /\ any_cleanups it = [].

Lemma index_laws : IteratorLaws (H := AnyIter_iterator cmp) (AnyIter (BlockCleanup H)) (Compare cmp) ok (idx_of bs seps) index_at.
Proof.
  pose proof index_entries as He.
  apply (laws_keep (HI := AnyIter_iterator cmp) (AnyAt_laws cmp (ok := ok) (entries_keys cmp ok _ He) (proj1 He)) (fun d => any_cleanups d = [])).
  intros f it it' Hm E. by apply (any_keeps cmp _ f).
Qed.

Lemma offset_inj i j : (i < length bs)%nat -> (j < length bs)%nat -> offset_ (handle_of bs i) = offset_ (handle_of bs j) -> i = j.
Proof.
  clear Hrest.
  assert (Hlt : forall a b, (a < b < length bs)%nat -> offset_ (handle_of bs a) < offset_ (handle_of bs b)).
  { intros a b Hab. unfold LvTableBuildProps.handle_of. cbn [offset_].
    rewrite <- (take_drop (S a) (take b bs)), take_take, Nat.min_l by lia. destruct (lookup_lt_is_Some_2 bs a ltac:(lia)) as [x Hx].
    rewrite (take_S_r _ _ _ Hx), !stored_app, !size_app. pose proof (size_nonneg (stored (drop (S a) (take b bs)))).
    unfold LvTableBuildProps.stored at 3. cbn [map concat]. rewrite app_nil_r, raw_block_size. pose proof (size_nonneg (data x)). unfold kBlockTrailerSize. lia. }
  intros Hi Hj E. destruct (Nat.lt_trichotomy i j) as [Hij|[->|Hij]]; [|done|].
  - specialize (Hlt i j ltac:(lia)). lia.
  - specialize (Hlt j i ltac:(lia)). lia.
Qed.

Lemma handles_NoDup : NoDup (idx_of bs seps).*2.
Proof.
  apply NoDup_alt. intros i j h Hi Hj. rewrite list_lookup_fmap in Hi, Hj.
  destruct (idx_of bs seps !! i) as [[si hi]|] eqn:Ei; [|done]. destruct (idx_of bs seps !! j) as [[sj hj]|] eqn:Ej; [|done].
  cbn [fmap option_fmap option_map snd] in Hi, Hj. injection Hi as ->. injection Hj as ->.
  apply idx_of_lookup in Ei as [Li ->]. apply idx_of_lookup in Ej as [Lj Eh]. apply lookup_lt_Some in Li, Lj.
  destruct HX as (_ & Hl & _). destruct HF as [He' Hc' _ HN].
  pose proof (small_ok _ (handle_small o ok Hinterval bs i HN He' Hc' ltac:(lia))) as Oi.
  pose proof (small_ok _ (handle_small o ok Hinterval bs j HN He' Hc' ltac:(lia))) as Oj.
  pose proof (DecodeFrom_handle _ BlockHandle_new [] Oi) as Di. pose proof (DecodeFrom_handle _ BlockHandle_new [] Oj) as Dj.
  rewrite Eh, Dj in Di. apply offset_inj; [lia|lia|congruence].
Qed.

Context (skip_fuel : nat) (Hfuel : (length bs < skip_fuel)%nat).

Lemma table_two_level : TwoLevelOk (IX := AnyIter_iterator cmp) (ID := AnyIter_iterator cmp) (BlockReader address rep opt) delete_block_iter skip_fuel
  (Compare cmp) ok (idx_of bs seps) bs index_at DAt Ok.
Proof.
  destruct HX as (_ & Hl & _). constructor.
  - apply index_laws.
  - intros j oh. apply DAt_laws.
  - by rewrite idx_of_length.
  - intros j ik h os e Hj Hos HE. apply idx_of_lookup in Hj as [Hj ->]. apply lookup_lt_Some in Hj.
    destruct (BlockReader_spec j e os ltac:(lia) Hos HE) as (d & e' & oh & E & HE' & HD). by exists d, e', oh, (length (nth j bs [])).
  - apply handles_NoDup.
  - intros j oh d p os1 os2 e. apply delete_spec.
  - by rewrite idx_of_length, Hl.
Qed.

Lemma table_separates : separates (cmp := Compare cmp) (ok := ok) (idx := idx_of bs seps) (blocks := bs).
Proof.
  pose proof index_entries as Hi. destruct HX as (HS & _ & _). destruct HF as [He _ _ _]. split_and!.
  - by eapply entries_keys.
  - by eapply entries_keys.
  - intros j ik h kv Hj Hkv. apply idx_of_lookup in Hj as [Hj _]. by eapply (so_ge cmp ok _ _ HS).
  - intros j k ik h kv Hj Hlt Hkv. apply idx_of_lookup in Hj as [Hj _]. by eapply (so_lt cmp ok _ _ HS).
Qed.

(** At the entry number [i] of the table. *)
Definition TableAt : TwoLevelIterator Env (AnyIter (BlockCleanup H)) (AnyIter (BlockCleanup H)) -> nat -> Prop :=
  TLAt (idx := idx_of bs seps) (blocks := bs) (XAt := index_at) (DAt := DAt) (env_ok := Ok).

Lemma Table_laws :
  IteratorLaws (H := Table_iterator address rep opt skip_fuel) _ (Compare cmp) ok (concat bs) TableAt.
Proof. unfold Table_iterator. rewrite (tk_options _ Hrep). apply (TwoLevel_laws (HT := table_two_level) table_separates). Qed.

Lemma Table_NewIterator_spec e : Ok [] e ->
  exists t, Table_NewIterator rep e = Ret t /\ TableAt t (length (concat bs)).
Proof.
  intros HE. destruct (NewIterator_at (C := BlockCleanup H) _ _ index_block_is) as (it & En & HA & Hcl). unfold Table_NewIterator.
  rewrite (tk_index _ Hrep), En, (tk_options _ Hrep).
  destruct (TwoLevel_new_spec (HT := table_two_level) e it _ HE (conj HA Hcl)) as (t & Et & HT). by exists t.
Qed.

Lemma Table_delete_spec t i : TableAt t i -> exists e, Table_delete_iterator t = Ret e /\ Ok [] e.
Proof.
  intros HA. apply (TwoLevel_delete_spec (HT := table_two_level) t i delete_block_iter HA). intros x j e [_ Hcl] HE.
  exists e. split; [|done]. unfold delete_block_iter. by rewrite Hcl.
Qed.

(** ** [InternalGet] and [ApproximateOffsetOf] *)

(** The entry number [q] is the first whose key is not less than [k]. *)
Definition first_ge (k : Slice) (l : list KV) (q : nat) : Prop :=
  Forall (fun kv => Compare cmp kv.1 k < 0) (take q l) /\ Forall (fun kv => 0 <= Compare cmp kv.1 k) (drop q l).

(** Looking a key up in the index. *)
Lemma index_seek k (e : Env) : ok k -> exists it it' m,
  construct (NewIterator (C := BlockCleanup H) (LvTable.index_block rep)) e = Ret (it, e) /\
  with_iter (iter_Seek (Iterator := AnyIter_iterator cmp) k) it e = Ret ((tt, it'), e) /\ any_cleanups it' = [] /\
  iter_Valid (Iterator := AnyIter_iterator cmp) it' = bool_decide (m < length bs)%nat /\
  iter_status (Iterator := AnyIter_iterator cmp) it' = Status_OK /\
  ((m < length bs)%nat -> with_iter (iter_value (Iterator := AnyIter_iterator cmp)) it' e = Ret ((handle_bytes (handle_of bs m), it'), e)) /\
  first_ge k (idx_of bs seps) m /\ (m <= length bs)%nat.
Proof.
  intros Hk. destruct HX as (_ & Hl & _). destruct (NewIterator_at (C := BlockCleanup H) _ _ index_block_is) as (it & En & HA & Hcl).
  destruct (it_seek (IteratorLaws := index_laws) it _ k (conj HA Hcl) Hk) as (it' & m & E & HA' & Hlo & Hhi).
  exists it, it', m. unfold construct. rewrite (tk_index _ Hrep), En. split; [done|]. split; [by apply with_iter_eq|]. split; [apply HA'|].
  rewrite (it_valid (IteratorLaws := index_laws) it' m HA'), (it_status (IteratorLaws := index_laws) it' m HA'), idx_of_length, Hl.
  split; [done|]. split; [done|]. pose proof (it_bound (IteratorLaws := index_laws) it' m HA') as Hb. rewrite idx_of_length, Hl in Hb.
  split; [|by split]. intros Hm. destruct (lookup_lt_is_Some_2 seps m ltac:(lia)) as [s Hs].
  apply with_iter_eq, (it_value (IteratorLaws := index_laws) it' m s _ HA'), idx_of_lookup. by split.
Qed.

Lemma ApproximateOffsetOf_spec k e os : ok k -> Ok os e ->
  exists m, ApproximateOffsetOf rep k e = Ret (if decide (m < length bs)%nat then offset_ (handle_of bs m) else offset_ (meta_handle o bs), e) /\
    first_ge k (idx_of bs seps) m /\ (m <= length bs)%nat.
Proof.
  intros Hk HE. destruct (index_seek k e Hk) as (it & it' & m & E1 & E2 & Hcl & Hv & _ & Hval & Hm). exists m. split; [|done].
  unfold ApproximateOffsetOf. rewrite (tk_options _ Hrep). cbv zeta. rewrite (bind_eq _ _ _ _ _ E1), (bind_eq _ _ _ _ _ E2), Hv.
  unfold delete_block_iter. rewrite Hcl. case_bool_decide as Hlt; destruct (decide (m < length bs)%nat); [|done|done|].
  - unfold bind at 1. rewrite (bind_eq _ _ _ _ _ (Hval Hlt)). destruct HF as [He' Hc' _ HN].
    pose proof (small_ok _ (handle_small o ok Hinterval bs m HN He' Hc' Hlt)) as Hok.
    by rewrite <- (app_nil_r (handle_bytes _)), (DecodeFrom_handle _ _ [] Hok).
  - unfold bind at 1, ret at 1. by rewrite (tk_meta _ Hrep).
Qed.

(** What the filters say of a key and a block. *)
Definition filtered (k : Slice) (j : nat) : Prop := exists p, filter_policy o = Some p /\
  FilterBlock_KeyMayMatch p (FilterBlockReader_new (filter_data o bs)) (offset_ (handle_of bs j)) k = Some false.

Lemma may_match_spec k j (e : Env) : exists b, (match LvTable.filter rep with
    | Some (policy, r) => need (FilterBlock_KeyMayMatch policy r (offset_ (handle_of bs j)) k)
    | None => ret true
    end : M Env bool) e = Ret (b, e) /\ (b = false -> filtered k j).
Proof.
  rewrite (tk_filter _ Hrep). unfold filtered. pose proof (fun p => filter_data_spec o ok c Hinterval Hpolicy bs p HF) as Hfd. revert Hfd. clear.
  intros Hfd. destruct (filter_policy o) as [p|] eqn:Hp; cbn [fmap option_fmap option_map]; [|by exists true].
  destruct (Hfd p eq_refl) as (Eb & _). destruct (FilterBlock_defined p _ _ (offset_ (handle_of bs j)) k Eb) as (b & E).
  rewrite E. exists b. split; [done|]. intros ->. by exists p.
Qed.

Lemma InternalGet_spec k e os : ok k -> (length os <= 1)%nat -> Ok os e ->
  exists m r e', InternalGet address rep opt k e = Ret ((Status_OK, r), e') /\ Ok os e' /\ first_ge k (idx_of bs seps) m /\ (m <= length bs)%nat /\
    (r = None /\ ((length bs <= m)%nat \/ filtered k m) \/
     exists q, (m < length bs)%nat /\ first_ge k (nth m bs []) q /\ r = nth m bs [] !! q).
Proof.
  intros Hk Hos HE. destruct (index_seek k e Hk) as (it & it' & m & E1 & E2 & Hcl & Hv & Hst & Hval & Hm & Hmb). exists m.
  unfold InternalGet. rewrite (tk_options _ Hrep). cbv zeta. rewrite (bind_eq _ _ _ _ _ E1), (bind_eq _ _ _ _ _ E2), Hv.
  unfold delete_block_iter at 2. rewrite Hcl, Hst. cbn [run_cleanups fold_right]. case_bool_decide as Hlt.
  2:{ exists None, e. split; [done|]. split; [done|]. split; [done|]. split; [done|]. left. split; [done|]. left. lia. }
  destruct HF as [He' Hc' _ HN]. pose proof (small_ok _ (handle_small o ok Hinterval bs m HN He' Hc' Hlt)) as Hok.
  pose proof (DecodeFrom_handle _ BlockHandle_new [] Hok) as Ed. rewrite app_nil_r in Ed.
  destruct (may_match_spec k m e) as (may & Em & Hmay). destruct (BlockReader_spec m e os Hlt Hos HE) as (d & e1 & oh & Eb & HE1 & HD).
  destruct (it_seek (IteratorLaws := DAt_laws m oh) d _ k HD Hk) as (d' & q & Es & HD' & Hlo & Hhi).
  destruct (delete_spec m d' q oh [] os e1 HD' HE1) as (e2 & Edel & HE2).
  pose proof (it_valid (IteratorLaws := DAt_laws m oh) d' q HD') as Hvd. pose proof (it_status (IteratorLaws := DAt_laws m oh) d' q HD') as Hsd.
  destruct may.
  - exists (nth m bs [] !! q), e2. split; [|split; [done|split; [done|split; [done|right; by exists q]]]].
    unfold bind at 1. rewrite (bind_eq _ _ _ _ _ (Hval Hlt)), Ed. change (Status_ok Status_OK) with true. cbv iota.
    rewrite (bind_eq _ _ _ _ _ Em). cbn [negb]. rewrite (bind_eq _ _ _ _ _ Eb), (bind_eq _ _ _ _ _ (with_iter_eq _ _ _ _ e1 Es)), Hvd, Hsd.
    case_bool_decide as Hq.
    + destruct (lookup_lt_is_Some_2 _ _ Hq) as [[k' v'] Ek].
      pose proof (it_key (IteratorLaws := DAt_laws m oh) d' q k' v' HD' Ek) as Ekey.
      pose proof (it_value (IteratorLaws := DAt_laws m oh) d' q k' v' HD' Ek) as Evalue.
      unfold bind at 1. rewrite (bind_eq _ _ _ _ _ (with_iter_eq _ _ _ _ e1 Ekey)), (bind_eq _ _ _ _ _ (with_iter_eq _ _ _ _ e1 Evalue)).
      unfold ret at 1. by rewrite (bind_eq _ _ _ _ _ Edel), Ek.
    + unfold bind at 1, ret at 1. rewrite (bind_eq _ _ _ _ _ Edel). by rewrite lookup_ge_None_2 by lia.
  - exists None, e. split; [|split; [done|split; [done|split; [done|left; split; [done|right; by apply Hmay]]]]].
    unfold bind at 1. rewrite (bind_eq _ _ _ _ _ (Hval Hlt)), Ed. change (Status_ok Status_OK) with true. cbv iota.
    by rewrite (bind_eq _ _ _ _ _ Em).
Qed.
End Reader.

(** ** What a lookup finds *)

Lemma entries_ok_at kv : kv ∈ concat bs -> ok kv.1.
Proof. intros Hin. destruct HF as [He _ _ _]. pose proof (entries_keys cmp ok _ He) as Hk. rewrite Forall_forall in Hk. by apply Hk. Qed.

Lemma in_concat_nth kv : kv ∈ concat bs -> exists j, (j < length bs)%nat /\ kv ∈ nth j bs [].
Proof.
  intros Hin. apply list_elem_of_In, in_concat in Hin as (b & Hb & Hk). apply list_elem_of_In in Hb, Hk.
  apply list_elem_of_lookup in Hb as (j & Hb). exists j. split; [by eapply lookup_lt_Some|]. by rewrite (nth_lookup_Some _ _ _ _ Hb).
Qed.

Lemma table_filter_match p j kv k : filter_policy o = Some p -> kv ∈ nth j bs [] -> same_to p k kv.1 -> ~ filtered k j.
Proof.
  intros Hp Hin Hsame (p' & Hp' & E). assert (p' = p) as -> by congruence. clear Hp'. pose proof (Hpolicy p Hp) as TP. pose proof HF as [He Hc Hf HN].
  destruct (filter_data_spec o ok c Hinterval Hpolicy bs p HF Hp) as (Eb & _ & Hs). destruct (fblks_sorted o (bs ++ [[]])) as [HS HFb].
  assert (Hkeys : concat (fblks o (bs ++ [[]])).*2 = (concat bs).*1).
  { rewrite fblks_keys, map_app, concat_app. cbn [map concat fmap list_fmap]. rewrite !app_nil_r. clear. induction bs as [|b l IH]; [done|].
    cbn [map concat]. by rewrite IH, fmap_app. }
  destruct (FilterBlock_spec p ok (fblks o (bs ++ [[]]))) as (contents & Eb' & Hmatch).
  - by apply StronglySorted_Sorted.
  - eapply Forall_impl; [exact HFb|]. by intros x [Hx _].
  - rewrite Hkeys. apply Forall_fmap. by apply (entries_keys cmp ok).
  - rewrite Hkeys, length_fmap. unfold table_cost in Hc. pose proof (block_cost_pos (concat bs)). lia.
  - rewrite Eb in Eb'. injection Eb' as <-. rewrite (FilterBlock_same p _ _ k kv.1 Hsame) in E.
    rewrite (Hmatch Hs (offset_ (handle_of bs j)) (nth j bs []).*1 kv.1) in E; [done| |].
    + rewrite fblks_snoc. apply elem_of_app. left. destruct (decide (j < length bs)%nat) as [Hj|]; [|rewrite nth_overflow in Hin by lia; by apply elem_of_nil in Hin].
      destruct (lookup_lt_is_Some_2 bs j Hj) as [b Hb]. rewrite (nth_lookup_Some _ _ _ _ Hb). apply (list_elem_of_lookup_2 _ j).
      unfold fblks. rewrite list_lookup_imap, Hb. done.
    + apply list_elem_of_fmap. by exists kv.
Qed.

Lemma sep_order k m : ok k -> first_ge k (idx_of bs seps) m -> (m <= length bs)%nat ->
  (forall j kv, (j < m)%nat -> kv ∈ nth j bs [] -> Compare cmp kv.1 k < 0) /\
  (forall s, seps !! m = Some s -> ok s /\ 0 <= Compare cmp s k /\ forall j kv, (m < j)%nat -> kv ∈ nth j bs [] -> Compare cmp s kv.1 < 0).
Proof.
  intros Hk [Hlo Hhi] Hm. destruct HX as (HS & Hl & _). pose proof (so_ok cmp ok _ _ HS) as Hso. rewrite Forall_lookup in Hso. split.
  - intros j kv Hj Hin. destruct (lookup_lt_is_Some_2 seps j ltac:(lia)) as [s Hs]. rewrite Forall_lookup in Hlo.
    specialize (Hlo j (s, handle_bytes (handle_of bs j))). rewrite lookup_take_lt in Hlo by done. cbn [fst] in Hlo.
    apply (cmp_le_lt_trans kv.1 s k).
    + apply entries_ok_at. by eapply nth_concat.
    + by eapply Hso.
    + done.
    + by eapply (so_ge cmp ok _ _ HS).
    + apply Hlo, idx_of_lookup. by split.
  - intros s Hs. split; [by eapply Hso|]. split; [|intros j kv Hj Hin; by eapply (so_lt cmp ok _ _ HS)].
    rewrite Forall_lookup in Hhi. specialize (Hhi O (s, handle_bytes (handle_of bs m))). rewrite lookup_drop, Nat.add_0_r in Hhi.
    apply Hhi, idx_of_lookup. by split.
Qed.

(** The first entry of the table that is not less than [k]. *)
Definition first_entry (k : Slice) (kv : KV) : Prop :=
  exists l1 l2, concat bs = l1 ++ kv :: l2 /\ Forall (fun x => Compare cmp x.1 k < 0) l1 /\ 0 <= Compare cmp kv.1 k.

(** What is found is the first entry; and it is found when it is one that readers
    look for with this key, unless a filter tells the keys apart. *)
Lemma found_sound k m q kv : ok k -> first_ge k (idx_of bs seps) m -> (m < length bs)%nat -> first_ge k (nth m bs []) q ->
  nth m bs [] !! q = Some kv -> first_entry k kv.
Proof.
  intros Hk Hm Hlt [Hlo Hhi] Hq. destruct (sep_order k m Hk Hm ltac:(lia)) as [Hb _]. destruct (lookup_lt_is_Some_2 bs m Hlt) as [b Eb].
  rewrite (nth_lookup_Some _ _ _ _ Eb) in *. exists (concat (take m bs) ++ take q b), (drop (S q) b ++ concat (drop (S m) bs)). split; [|split].
  - rewrite <- (take_drop m bs) at 1. rewrite (drop_S _ _ _ Eb), concat_app. cbn [concat]. rewrite <- (take_drop q b) at 1.
    by rewrite (drop_S _ _ _ Hq), <- !app_assoc.
  - apply Forall_app. split; [|done]. apply Forall_forall. intros x Hx. apply list_elem_of_In, in_concat in Hx as (b' & Hb' & Hx).
    apply list_elem_of_In in Hb', Hx. apply list_elem_of_lookup in Hb' as (j & Hj). apply lookup_take_Some in Hj as [Hj Hjm].
    apply (Hb j x Hjm). by rewrite (nth_lookup_Some _ _ _ _ Hj).
  - rewrite (drop_S _ _ _ Hq) in Hhi. by apply Forall_inv in Hhi.
Qed.

(** Nothing from [k] on comes before the first entry. *)
Lemma later_after k kv l1 l2 y : concat bs = l1 ++ kv :: l2 -> Forall (fun x => Compare cmp x.1 k < 0) l1 -> 0 <= Compare cmp y.1 k -> y ∈ concat bs -> ~ Compare cmp y.1 kv.1 < 0.
Proof.
  intros Ecat Hl1 Hyk Hy Hlt. pose proof (entries_ok_at y Hy) as Oy. assert (Hin : kv ∈ concat bs) by (rewrite Ecat; set_solver).
  pose proof (entries_ok_at kv Hin) as Okv. rewrite Ecat in Hy. rewrite Forall_forall in Hl1.
  apply elem_of_app in Hy as [Hx1|Hx1]; [specialize (Hl1 y Hx1); lia|]. apply elem_of_cons in Hx1 as [->|Hx2].
  - pose proof (cmp_refl (cmp := Compare cmp) kv.1 Okv). lia.
  - destruct HF as [[HS _] _ _ _]. rewrite Ecat in HS. replace (l1 ++ kv :: l2) with ((l1 ++ [kv]) ++ l2) in HS by by rewrite <- app_assoc.
    assert (Hk2 : Compare cmp kv.1 y.1 < 0) by (change (key_lt cmp kv y); eapply StronglySorted_app_1_elem_of; [exact HS|set_solver|done]).
    pose proof (cmp_lt_trans (cmp := Compare cmp) _ _ _ Oy Okv Oy Hlt Hk2). pose proof (cmp_refl (cmp := Compare cmp) y.1 Oy). lia.
Qed.

Lemma found_complete k m kv : ok k -> first_ge k (idx_of bs seps) m -> (m <= length bs)%nat -> first_entry k kv ->
  tc_same k kv.1 ->
  (m < length bs)%nat /\ kv ∈ nth m bs [] /\ forall q, first_ge k (nth m bs []) q -> nth m bs [] !! q = Some kv.
Proof.
  intros Hk Hm Hmb (l1 & l2 & Ecat & Hl1 & Hge) Hsep. destruct (sep_order k m Hk Hm Hmb) as [Hb Hs].
  assert (Hin : kv ∈ concat bs) by (rewrite Ecat; set_solver). destruct (in_concat_nth kv Hin) as (j & Hj & Hkj).
  assert (j = m) as ->.
  { destruct (Nat.lt_trichotomy j m) as [Hlt|[|Hlt]]; [|done|]; exfalso.
    - specialize (Hb j kv Hlt Hkj). lia.
    - destruct HX as (_ & Hl & _). destruct (lookup_lt_is_Some_2 seps m ltac:(lia)) as [s Es]. destruct (Hs s Es) as (Os & Hge' & Hlt').
      pose proof HX as (HS & _ & _). destruct (so_tight cmp ok _ _ HS m j s kv k Es Hlt Hkj Hk Hsep Hge') as (y & Hy & Hyk).
      apply (later_after k kv l1 l2 y Ecat Hl1 Hyk); [by eapply nth_concat|]. apply (cmp_le_lt_trans y.1 s kv.1).
      + apply entries_ok_at. by eapply nth_concat.
      + done.
      + by apply entries_ok_at.
      + by apply (so_ge cmp ok _ _ HS m s y).
      + by apply (Hlt' j). }
  split; [done|]. split; [done|]. intros q [Hlo Hhi]. apply list_elem_of_lookup in Hkj as (i & Hi). rewrite Forall_lookup in Hlo.
  assert (Hqi : (q <= i)%nat).
  { destruct (decide (i < q)%nat) as [Hiq|]; [|lia]. specialize (Hlo i kv). rewrite lookup_take_lt in Hlo by done. specialize (Hlo Hi). lia. }
  destruct (decide (q = i)) as [->|]; [done|]. exfalso. destruct (lookup_lt_is_Some_2 (nth m bs []) q) as [x Hx]; [apply lookup_lt_Some in Hi; lia|].
  assert (Hxk : 0 <= Compare cmp x.1 k) by (rewrite (drop_S _ _ _ Hx) in Hhi; by apply Forall_inv in Hhi).
  assert (Hxkv : Compare cmp x.1 kv.1 < 0).
  { destruct (entries_of_block m Hj) as [HS _]. rewrite <- (take_drop i (nth m bs [])), (drop_S _ _ _ Hi) in HS.
    change (key_lt cmp x kv). eapply StronglySorted_app_1_elem_of; [exact HS| |apply elem_of_cons; by left].
    apply (list_elem_of_lookup_2 _ q). rewrite lookup_take_lt by lia. done. }
  apply (later_after k kv l1 l2 x Ecat Hl1 Hxk); [|done]. eapply nth_concat; by eapply list_elem_of_lookup_2.
Qed.

(** ** [Open] *)

Definition env_ok (P : Slice -> Block -> Prop) (n : Z) (rest : list (H * Block)) (e : Env) : Prop :=
  Contains (env_file e) w /\ Holds P n rest (env_cache e).

Lemma filter_policy_cases : filter_policy o = None \/ exists p, filter_policy o = Some p.
Proof. clear. destruct (filter_policy o) as [p|]; [right; by exists p|by left]. Qed.

Lemma ReadFilter_spec P n rest rep p e : env_ok P n rest e -> filter_policy o = Some p -> LvTable.options rep = o ->
  exists e', ReadFilter address p (handle_bytes (filter_handle o bs)) rep e =
    Ret ({| LvTable.options := o; cache_id := cache_id rep; filter := Some (p, FilterBlockReader_new (filter_data o bs));
            metaindex_handle := metaindex_handle rep; LvTable.index_block := LvTable.index_block rep |}, e') /\ env_ok P n rest e'.
Proof.
  intros [Hc HH] Hp Ho. destruct (sizes_small o ok c Hinterval Hpolicy bs HF) as (_ & Hok & _). destruct (filter_at p Hp) as (post & Hw).
  destruct (filter_data_spec o ok c Hinterval Hpolicy bs p HF Hp) as (_ & Hb & _).
  destruct (read_raw e _ _ post (paranoid_checks o) Hc Hw Hb) as (f' & b & Hc' & E).
  unfold ReadFilter. rewrite <- (app_nil_r (handle_bytes _)), (DecodeFrom_handle _ _ [] Hok). change (Status_ok Status_OK) with true. cbn [negb].
  unfold read_block. rewrite Ho. cbn [paranoid_options verify_checksums]. unfold filter_handle at 1. rewrite (bind_eq _ _ _ _ _ E).
  eexists. split; [reflexivity|]. by split.
Qed.

Lemma meta_seek p (it : AnyIter (BlockCleanup H)) i : filter_policy o = Some p -> AnyAt (meta_entries o bs) it i -> any_cleanups it = [] ->
  let I := AnyIter_iterator BytewiseComparator in let key := chars "filter." ++ FilterPolicy_Name p in
  exists it', iter_Seek key it = Ret (tt, it') /\ iter_Valid it' = true /\ iter_key it' = Ret (key, it') /\
    iter_value it' = Ret (handle_bytes (filter_handle o bs), it') /\ any_cleanups it' = [].
Proof.
  intros Hp HA Hcl I key. subst I. pose proof (Hpolicy p Hp) as TP. destruct (meta_data_spec o ok c Hinterval Hpolicy bs HF) as (_ & _ & _ & _ & _ & He & _).
  pose proof (AnyAt_laws (C := BlockCleanup H) BytewiseComparator (ok := is_bytes) (entries_keys _ _ _ He) (proj1 He)) as LA.
  assert (Hm : meta_entries o bs = [(key, handle_bytes (filter_handle o bs))]) by (unfold meta_entries; by rewrite Hp).
  assert (Hk : is_bytes key) by (apply is_bytes_app; split; [solve_bytes|apply tp_name]).
  destruct (it_seek (IteratorLaws := LA) it i key HA Hk) as (it' & m & E & HA' & Hlo & _). exists it'. split; [done|].
  pose proof (it_bound (IteratorLaws := LA) it' m HA') as Hb. rewrite Hm in Hb. cbn [length] in Hb.
  assert (m = 0)%nat as ->.
  { destruct m as [|m]; [done|]. rewrite Hm in Hlo. cbn [take] in Hlo. apply Forall_inv in Hlo. cbn [fst] in Hlo.
    pose proof (cmp_refl (cmp := Compare BytewiseComparator) key Hk). lia. }
  split_and!.
  - rewrite (it_valid (IteratorLaws := LA) it' 0 HA'), Hm. done.
  - apply (it_key (IteratorLaws := LA) it' 0 key (handle_bytes (filter_handle o bs)) HA'). by rewrite Hm.
  - apply (it_value (IteratorLaws := LA) it' 0 key (handle_bytes (filter_handle o bs)) HA'). by rewrite Hm.
  - rewrite <- Hcl. exact (on_kind_cleanups _ _ _ _ _ E).
Qed.

Lemma ReadMeta_spec P n rest rep e : env_ok P n rest e -> LvTable.options rep = o -> LvTable.filter rep = None ->
  LvTable.index_block rep = Block_new (index_data o bs seps) -> metaindex_handle rep = meta_handle o bs ->
  exists rep' e', ReadMeta address (table_footer o bs seps) rep e = Ret (rep', e') /\ TableOk rep' /\ cache_id rep' = cache_id rep /\ env_ok P n rest e'.
Proof.
  intros HE Ho Hf Hi Hm. unfold ReadMeta. rewrite Ho. destruct filter_policy_cases as [Hp|[p Hp]].
  { rewrite Hp. exists rep, e. split; [done|]. split; [|done]. constructor; [done..|]. by rewrite Hf, Hp. }
  rewrite Hp. destruct meta_at as (post & Hw). destruct (meta_data_spec o ok c Hinterval Hpolicy bs HF) as (_ & _ & _ & Hb & _).
  pose proof HE as [Hc HH]. destruct (read_raw e _ _ post (paranoid_checks o) Hc Hw Hb) as (f' & b & Hc' & E).
  unfold read_block. cbn [paranoid_options verify_checksums]. change (metaindex_handle_ (table_footer o bs seps)) with (meta_handle o bs). unfold meta_handle at 1.
  rewrite (bind_eq _ _ _ _ _ E). change (Status_ok Status_OK) with true. cbn [negb LvTableFormat.data].
  set (e1 := Build_TableEnv f' (env_cache e)). assert (HE1 : env_ok P n rest e1) by by split.
  destruct (NewIterator_at (C := BlockCleanup H) _ _ meta_block_is) as (it & En & HA & Hcl). rewrite En. cbv zeta.
  rewrite (bind_eq (construct (Ret it)) _ e1 it e1 eq_refl). destruct (meta_seek p it _ Hp HA Hcl) as (it' & Es & Hv & Hk & Hval & Hcl').
  rewrite (bind_eq _ _ _ _ _ (with_iter_eq _ _ _ _ e1 Es)). rewrite Hv. rewrite (bind_eq _ _ e1 true e1).
  2:{ rewrite (bind_eq _ _ _ _ _ (with_iter_eq _ _ _ _ e1 Hk)). unfold ret. by rewrite (proj2 (Slice_eq_iff _ _) eq_refl). }
  destruct (ReadFilter_spec P n rest rep p e1 HE1 Hp Ho) as (e2 & Er & HE2).
  rewrite (bind_eq _ _ e1 _ e2 (eq_trans (bind_eq _ _ _ _ _ (with_iter_eq _ _ _ _ e1 Hval)) Er)).
  unfold delete_block_iter. rewrite Hcl'. eexists _, e2. split; [reflexivity|]. split; [|done]. constructor; [done..|]. cbn [LvTable.filter]. by rewrite Hp.
Qed.

Lemma footer_at : exists pre, w = pre ++ footer_bytes (table_footer o bs seps) /\ size pre = size w - kEncodedLength.
Proof.
  destruct (table_sizes o ok c Hinterval Hpolicy bs seps HF HX) as [Hfo _]. pose proof (footer_size _ Hfo) as Hs.
  exists (before_index o bs ++ raw_block kNoCompression (index_data o bs seps)). unfold table_file. rewrite <- app_assoc. split; [done|].
  rewrite !size_app, Hs. change kEncodedLength with 48. lia.
Qed.

Lemma Table_Open_spec P n rest e : env_ok P n rest e -> n + 1 < 2 ^ 64 ->
  exists rep e', Table_Open address o (size w) e = Ret ((Status_OK, Some rep), e') /\ TableOk rep /\
    cache_id rep = (if block_cache o then n + 1 else 0) /\ env_ok P (if block_cache o then n + 1 else n) rest e'.
Proof.
  intros HE Hn. destruct (table_sizes o ok c Hinterval Hpolicy bs seps HF HX) as [Hfo _]. destruct footer_at as (pre & Hw & Hpre).
  pose proof (footer_size _ Hfo) as Hfs. pose proof (size_nonneg pre) as Hp0. change kEncodedLength with 48 in Hpre.
  destruct HE as [Hc HH]. unfold Table_Open. change kEncodedLength with 48. destruct (Z.ltb_spec (size w) 48); [lia|].
  destruct (random_read_law (env_file e) w (size w - 48) 48 Hc ltac:(lia) ltac:(lia) ltac:(lia)) as (f' & b & Er & Hc').
  assert (Ein : take (Z.to_nat 48) (drop (Z.to_nat (size w - 48)) w) = footer_bytes (table_footer o bs seps) ++ []).
  { rewrite <- Hpre, app_nil_r. unfold size in Hfs. rewrite Hw at 1. rewrite drop_app_length' by (unfold size; lia). apply take_ge. lia. }
  rewrite Ein in Er. set (e1 := Build_TableEnv f' (env_cache e)). unfold bind at 1, on_file at 1. rewrite Er. cbn [negb Status_ok Status_OK]. fold e1.
  rewrite (DecodeFrom_footer _ _ [] Hfo). cbn [need]. rewrite (bind_eq _ _ e1 _ e1 eq_refl). cbn [negb Status_ok Status_OK].
  destruct (index_data_spec o ok c Hinterval bs seps HF HX) as (Hb & _ & _).
  destruct (read_raw e1 (before_index o bs) (index_data o bs seps) (footer_bytes (table_footer o bs seps)) (paranoid_checks o) Hc' eq_refl Hb)
    as (f2 & b2 & Hc2 & E2).
  unfold read_block. cbn [paranoid_options verify_checksums]. change (index_handle_ (table_footer o bs seps)) with (index_handle o bs seps). unfold index_handle at 1.
  rewrite (bind_eq _ _ _ _ _ E2). cbn [Status_ok Status_OK LvTableFormat.data]. set (e2 := Build_TableEnv f2 (env_cache e1)).
  assert (Hid : exists e3, (if block_cache o then on_cache Cache_NewId else ret 0) e2 = Ret (if block_cache o then n + 1 else 0, e3) /\
    env_ok P (if block_cache o then n + 1 else n) rest e3).
  { destruct (block_cache o); [|exists e2; by split]. destruct (new_id_law P n rest (env_cache e) HH Hn) as (ca & Ei & Hi).
    eexists. split; [exact (on_cache_eq _ e2 _ _ Ei)|]. by split. }
  destruct Hid as (e3 & E3 & HE3). rewrite (bind_eq _ _ _ _ _ E3).
  match goal with |- context [ReadMeta _ _ ?r] => destruct (ReadMeta_spec P _ rest r e3 HE3) as (rep & e4 & E4 & HT & Hci & HE4); [done..|] end.
  rewrite (bind_eq _ _ _ _ _ E4). by exists rep, e4.
Qed.
End Table.
