(* ===== verification/LvTableRoundtrip.v ===== *)
(** A table that is built is read back: the builder and the reader together, on
    any file and with any block cache that keep their contracts. *)

From stdpp Require Import base list gmap strings sorting.
From Stdlib Require Import ZArith Lia.
From S2P Require Import Prelude LvSlice LvCoding LvCrc LvBloom LvEnv LvIterator LvBlock LvBlockProps LvBlockIter LvFilterBlock LvTableFormat LvIterWrap LvTwoLevel LvOptions LvTableBuilder LvTableBuildProps LvCacheApi LvCache LvCacheSharded LvTable LvTableProps.

(** * The Bloom filter in a table *)

Lemma set_bit_bytes a i : is_bytes a -> is_bytes (set_bit a i).
Proof.
  intros Ha. unfold set_bit. apply Forall_alter; [done|]. intros b _ Hb. cbn beta. unfold is_byte in *.
  pose proof (Z.mod_pos_bound i 8 ltac:(lia)) as Hm. rewrite Z.shiftl_1_l.
  assert (H2 : 0 <= 2 ^ (i mod 8) < 2 ^ 8) by (split; [apply Z.pow_nonneg; lia|apply Z.pow_lt_mono_r; lia]).
  change 256 with (2 ^ 8) in *. apply lor_range; lia.
Qed.

Lemma bloom_add_bytes j bits d h a : is_bytes a -> is_bytes (bloom_add j bits d h a).
Proof. revert h a. induction j as [|j IH]; intros h a Ha; [done|]. cbn [bloom_add]. by apply IH, set_bit_bytes. Qed.

Lemma bloom_inserts_bytes k bits keys a : is_bytes a -> is_bytes (fold_left (bloom_insert k bits) keys a).
Proof. revert a. induction keys as [|key keys IH]; intros a Ha; [done|]. cbn [fold_left]. by apply IH, bloom_add_bytes. Qed.

Lemma Bloom_filter_eq b keys : let bytes := bloom_bytes b (Z.of_nat (length keys)) in
  Bloom_CreateFilter b keys [] = fold_left (bloom_insert (bloom_k b) (u64 (bytes * 8))) keys (replicate (Z.to_nat bytes) 0) ++ [u8 (bloom_k b)].
Proof. done. Qed.

Lemma bloom_bytes_small b n : 0 <= b < 2 ^ 31 -> 0 <= n < 2 ^ 31 -> bloom_bytes b n <= 9 + n * b.
Proof.
  intros Hb Hn. unfold bloom_bytes. assert (Hnb : 0 <= n * b < 2 ^ 62) by nia. rewrite (wrap_small 64 (n * b)) by lia.
  set (bits := if _ <? 64 then _ else _). assert (Hbits : 64 <= bits <= n * b + 64) by (unfold bits; destruct (Z.ltb_spec (n * b) 64); lia).
  rewrite wrap_small by lia. apply Z.div_le_upper_bound; lia.
Qed.

#[export] Instance Bloom_table b ok : 0 <= b < 2 ^ 31 -> TablePolicy (BloomFilterPolicy b) ok (b + 10).
Proof.
  intros Hb. destruct (Bloom_laws b Hb) as [H1 H2]. constructor.
  - constructor; [exact H1|]. intros keys key Hn _ Hin. apply H2; [done|by apply Forall_true|done].
  - lia.
  - split; [solve_bytes|done].
  - intros keys. cbn [CreateFilter BloomFilterPolicy]. rewrite Bloom_filter_eq.
    apply is_bytes_app. split; [apply bloom_inserts_bytes, Forall_replicate; split; lia|]. constructor; [|done]. apply wrap_range. lia.
  - intros keys Hn. cbn [CreateFilter BloomFilterPolicy]. rewrite Bloom_filter_eq, size_app. change (size [u8 (bloom_k b)]) with 1.
    unfold size. rewrite length_bloom_inserts, length_replicate. pose proof (bloom_bytes_range b (Z.of_nat (length keys)) Hb ltac:(lia)).
    pose proof (bloom_bytes_small b (Z.of_nat (length keys)) Hb ltac:(lia)). nia.
Qed.

(** * Building, opening, reading *)

Definition build_table {F} `{WritableFile F} (address taddr : Z) (o : Options) (kvs : list (Slice * Slice)) (f : F) : outcome (Status * LvTableBuilder.Rep F) :=
  match TableBuilder_new o f with
  | Some r => (add_all address taddr kvs ;;; TableBuilder_Finish address taddr) r
  | None => Undef
  end.

Section Roundtrip.
Context {F : Type} `{WF : WritableFile F} {Ready : F -> Slice -> Prop} `{WL : !WritableLaws F Ready}.
Context {G C H : Type} `{RF : RandomAccessFile G} {Contains : G -> Slice -> Prop} `{RL : !RandomAccessLaws G Contains}.
Context `{CC : Cache C H Block} {Holds : (Slice -> Block -> Prop) -> Z -> list (H * Block) -> C -> Prop} `{CL : !CacheLaws C H Block Holds}.
Context (address taddr raddr : Z) (o : Options) (ok : Slice -> Prop) (c : Z).
Abbreviation cmp := (comparator o).
Context `{TC : !TableComparator cmp ok}.
Hypothesis Hinterval : 1 <= block_restart_interval o.
Hypothesis Hpolicy : forall p, filter_policy o = Some p -> TablePolicy p ok c.
Abbreviation KV := (Slice * Slice)%type.
Abbreviation Env := (TableEnv G C).

Lemma build_table_spec kvs f : Ready f [] -> entries_ok cmp ok kvs -> table_cost kvs < 2 ^ 32 -> 2 * c * Z.of_nat (length kvs) < 2 ^ 31 ->
  exists r bs seps, build_table address taddr o kvs f = Ret (Status_OK, r) /\ Ready (file r) (table_file o bs seps) /\
    TableBuilder_FileSize r = size (table_file o bs seps) /\ closed r = true /\ Fits o ok c bs /\ Indexed o ok bs seps /\ concat bs = kvs.
Proof.
  intros Hf He Hc Hl. unfold build_table. destruct (TableBuilder_new_spec o ok c Hinterval Hpolicy f Hf) as (r0 & -> & HI0).
  destruct (add_all_spec address taddr o ok c Hinterval Hpolicy kvs r0 [] [] [] HI0) as (r1 & bs1 & p1 & s1 & E1 & HI1 & Ek1); [done|done|].
  cbn [concat app] in Ek1. rewrite (bind_eq _ _ _ _ _ E1).
  destruct (TableBuilder_Finish_spec address taddr o ok c Hinterval Hpolicy r1 bs1 p1 s1 HI1) as (r2 & bs & seps & E2 & Hcl & HR & Ho & HF & HX & Ek);
    [by rewrite Ek1..|].
  exists r2, bs, seps. split_and!; [exact E2|done..|by rewrite Ek].
Qed.

(** ** The blocks of the table in the cache *)

Context (bs : list (list KV)) (seps : list Slice) (HF : Fits o ok c bs) (HX : Indexed o ok bs seps).
Abbreviation w := (table_file o bs seps).
Abbreviation handle_of := (handle_of (block_restart_interval o) cmp).
Abbreviation data := (data_of (block_restart_interval o) cmp).

(** No key starts with the next id. *)
Definition fresh_id (P : Slice -> Block -> Prop) (n : Z) : Prop := forall offset v, ~ P (block_cache_key (n + 1) offset) v.

(** What was cached, and the blocks of this table. *)
Definition with_table (P : Slice -> Block -> Prop) (id : Z) (k : Slice) (v : Block) : Prop :=
  P k v \/ exists j, (j < length bs)%nat /\ k = block_cache_key id (offset_ (handle_of bs j)) /\ v = Block_new (data (nth j bs [])).

Lemma fits_length l : Fits o ok c l -> (length l <= length (concat l))%nat.
Proof.
  intros [_ _ _ HN]. induction l as [|b l IH]; [done|]. apply Forall_cons in HN as [Hb HN]. cbn [concat length]. rewrite length_app.
  specialize (IH HN). destruct b; [done|]. cbn [length]. lia.
Qed.

Lemma block_cost_length kvs : 19 * Z.of_nat (length kvs) <= block_cost kvs.
Proof.
  induction kvs as [|[k v] kvs IH]; [done|]. rewrite block_cost_cons. cbn [length fst snd]. pose proof (size_nonneg k). pose proof (size_nonneg v). lia.
Qed.

Lemma with_table_few P id : few_keys (2 ^ 30) P -> few_keys (2 ^ 31) (with_table P id).
Proof.
  intros (ks & Hl & Hks). exists (ks ++ map (fun j => block_cache_key id (offset_ (handle_of bs j))) (seq 0 (length bs))). split.
  - rewrite length_app, length_map, length_seq. pose proof (fits_length bs HF). pose proof (block_cost_length (concat bs)). destruct HF as [_ Hc _ _].
    unfold table_cost in Hc. lia.
  - intros k v [Hk|(j & Hj & -> & _)]; apply elem_of_app; [left; by eapply Hks|right]. apply list_elem_of_fmap. exists j. split; [done|].
    apply list_elem_of_In, in_seq. lia.
Qed.

Lemma cache_key_inj i j : (i < length bs)%nat -> (j < length bs)%nat ->
  block_cache_key 0 (offset_ (handle_of bs i)) = block_cache_key 0 (offset_ (handle_of bs j)) -> i = j.
Proof.
  intros Hi Hj Hk. apply app_inv_head in Hk. destruct HF as [He Hc _ HN].
  destruct (handle_small o ok Hinterval bs i HN He Hc Hi) as [Si _]. destruct (handle_small o ok Hinterval bs j HN He Hc Hj) as [Sj _].
  apply (offset_inj o bs); [done|done|].
  rewrite <- (DecodeFixed64_app (offset_ (handle_of bs i)) []), <- (DecodeFixed64_app (offset_ (handle_of bs j)) []) by lia.
  by rewrite !app_nil_r, Hk.
Qed.

Lemma Table_opened P n rest (e : Env) : Contains (env_file e) w -> Holds P n rest (env_cache e) -> n + 1 < 2 ^ 64 -> fresh_id P n -> few_keys (2 ^ 30) P -> Z.of_nat (length rest) < 2 ^ 30 ->
  exists rep e' Q n', Table_Open raddr o (size w) e = Ret ((Status_OK, Some rep), e') /\ TableOk o bs seps rep /\
    EnvOk (Contains := Contains) (Holds := Holds) o bs seps Q n' rest [] e' /\
    (block_cache o = true -> forall j v, (j < length bs)%nat ->
       Q (block_cache_key (cache_id rep) (offset_ (handle_of bs j))) v <-> v = Block_new (data (nth j bs []))).
Proof.
  intros Hc HH Hn Hfr Hfew _. destruct (Table_Open_spec (Contains := Contains) (Holds := Holds) raddr o ok c Hinterval Hpolicy bs seps HF HX P n rest e (conj Hc HH) Hn)
    as (rep & e' & E & HT & Hid & Hc' & HH').
  exists rep, e', (with_table P (n + 1)), (if block_cache o then n + 1 else n). split; [exact E|]. split; [done|]. split.
  - split; [done|]. eapply holds_weaken; [|by apply with_table_few|exact HH']. intros k v Hk. by left.
  - intros Hb j v Hj. rewrite Hid, Hb. split; [|intros ->; right; by exists j].
    intros [Hk|(i & Hi & Hk & ->)]; [by apply Hfr in Hk|]. unfold block_cache_key in Hk. apply app_inv_head in Hk.
    by rewrite (cache_key_inj i j Hi Hj) by (unfold block_cache_key; by rewrite Hk).
Qed.
End Roundtrip.

(** ** Lookups *)

(** [InternalGet] for one key after the other. *)
Fixpoint get_all {G C H} `{RF : RandomAccessFile G} `{CC : Cache C H Block} (raddr : Z) (rep : Rep) (opt : ReadOptions) (ks : list Slice) :
    M (TableEnv G C) (list (Status * option (Slice * Slice))) :=
  match ks with
  | [] => ret []
  | k :: ks => let* r := InternalGet raddr rep opt k in let* rs := get_all raddr rep opt ks in ret (r :: rs)
  end.

(** What a lookup of [k] may answer: what is found is the first entry not less
    than [k]; and the entry of [k] itself is found. *)
Definition get_ok (cmp : Slice -> Slice -> Z) (kvs : list (Slice * Slice)) (k : Slice) (r : Status * option (Slice * Slice)) : Prop :=
  r.1 = Status_OK /\
  (forall kv, r.2 = Some kv -> exists l1 l2, kvs = l1 ++ kv :: l2 /\ Forall (fun x => cmp x.1 k < 0) l1 /\ 0 <= cmp kv.1 k) /\
  (forall v, (k, v) ∈ kvs -> r.2 = Some (k, v)).

Section Claims.
Context {F : Type} `{WF : WritableFile F} {Ready : F -> Slice -> Prop} `{WL : !WritableLaws F Ready}.
Context {G C H : Type} `{RF : RandomAccessFile G} {Contains : G -> Slice -> Prop} `{RL : !RandomAccessLaws G Contains}.
Context `{CC : Cache C H Block} {Holds : (Slice -> Block -> Prop) -> Z -> list (H * Block) -> C -> Prop} `{CL : !CacheLaws C H Block Holds}.
Context (address taddr raddr : Z) (o : Options) (ok : Slice -> Prop) (c : Z).
Abbreviation cmp := (comparator o).
Context `{TC : !TableComparator cmp ok}.
Abbreviation KV := (Slice * Slice)%type.
Abbreviation Env := (TableEnv G C).

(** C14: a table is read back: for entries in order that fit, [TableBuilder]
    returns OK after they are added, and the file it wrote, opened with any
    block cache, or none, whose keys do not use the next id, gives a table
    whose iterator yields exactly the entries forwards and backwards; a seek
    goes to the first entry not less than the target. When the iterator is
    deleted the handles into the cache are those from before. *)
Theorem Table_roundtrip kvs f opt target :
  1 <= block_restart_interval o -> (forall p, filter_policy o = Some p -> TablePolicy p ok c) ->
  entries_ok cmp ok kvs -> table_cost kvs < 2 ^ 32 -> 2 * c * Z.of_nat (length kvs) < 2 ^ 31 -> Ready f [] -> ok target ->
  exists r w, build_table address taddr o kvs f = Ret (Status_OK, r) /\ Ready (file r) w /\ TableBuilder_FileSize r = size w /\
  forall P n rest (e : Env), Contains (env_file e) w -> Holds P n rest (env_cache e) -> n + 1 < 2 ^ 64 -> fresh_id P n -> few_keys (2 ^ 30) P -> Z.of_nat (length rest) < 2 ^ 30 ->
  exists rep e' t, Table_Open raddr o (size w) e = Ret ((Status_OK, Some rep), e') /\ Table_NewIterator rep e' = Ret t /\
    let I := Table_iterator raddr rep opt (S (length kvs)) in
    (exists t', collect (S (length kvs)) t = Ret (kvs, t') /\
       exists e2 Q m, Table_delete_iterator t' = Ret e2 /\ Contains (env_file e2) w /\ Holds Q m rest (env_cache e2)) /\
    (exists t', collect_back (S (length kvs)) t = Ret (reverse kvs, t')) /\
    exists t' t'' m, iter_Seek target t = Ret (tt, t') /\ walk (S (length kvs)) t' = Ret (drop m kvs, t'') /\
      Forall (fun kv => Compare cmp kv.1 target < 0) (take m kvs) /\ Forall (fun kv => 0 <= Compare cmp kv.1 target) (drop m kvs).
Proof.
  intros Hi Hp He Hc Hl Hf Ht. destruct (build_table_spec address taddr o ok c Hi Hp kvs f Hf He Hc Hl) as (r & bs & seps & E & HR & Hs & _ & HF & HX & <-).
  exists r, (table_file o bs seps). split; [done|]. split; [done|]. split; [done|]. intros P n rest e HC HH Hn Hfr Hfew Hr.
  destruct (Table_opened (Contains := Contains) (Holds := Holds) raddr o ok c Hi Hp bs seps HF HX P n rest e HC HH Hn Hfr Hfew Hr) as (rep & e' & Q & m & Eo & HT & HE & HP).
  pose proof (fits_length o ok c bs HF) as Hlen. assert (Hfuel : (length bs < S (length (concat bs)))%nat) by lia.
  destruct (Table_NewIterator_spec (Contains := Contains) (Holds := Holds) raddr o ok c Hi Hp bs seps HF HX Q m rest rep opt HT Hr HP _ Hfuel e' HE) as (t & Et & HA).
  exists rep, e', t. split; [done|]. split; [done|]. cbv zeta.
  pose proof (Table_laws (Contains := Contains) (Holds := Holds) raddr o ok c Hi Hp bs seps HF HX Q m rest rep opt HT Hr HP _ Hfuel) as L.
  destruct (reads_back (HI := Table_iterator raddr rep opt _) _ ok _ _ t _ target HA Ht) as (_ & Hback & Hseek). split; [|by split].
  destruct (collect_spec (H := Table_iterator raddr rep opt _) (S (length (concat bs))) t _ HA ltac:(lia)) as (t' & Ec & HA'). exists t'. split; [exact Ec|].
  destruct (Table_delete_spec (Contains := Contains) (Holds := Holds) raddr o ok c Hi Hp bs seps HF HX Q m rest rep opt HT Hr HP _ Hfuel t' _ HA') as (e2 & Ed & HC2 & HH2).
  by exists e2, Q, m.
Qed.
(** One lookup: what it finds is the first entry not less than the key, and that
    is found when readers look for it with the key. *)
Lemma get_first bs seps P n rest rep opt k (e : Env) :
  1 <= block_restart_interval o -> (forall p, filter_policy o = Some p -> TablePolicy p ok c) -> Fits o ok c bs -> Indexed o ok bs seps ->
  TableOk o bs seps rep -> Z.of_nat (length rest) < 2 ^ 30 ->
  (block_cache o = true -> forall j v, (j < length bs)%nat ->
     P (block_cache_key (cache_id rep) (offset_ (handle_of (block_restart_interval o) cmp bs j))) v <->
     v = Block_new (data_of (block_restart_interval o) cmp (nth j bs []))) ->
  EnvOk (Contains := Contains) (Holds := Holds) o bs seps P n rest [] e -> ok k ->
  exists r e', InternalGet raddr rep opt k e = Ret ((Status_OK, r), e') /\ EnvOk (Contains := Contains) (Holds := Holds) o bs seps P n rest [] e' /\
    (forall kv, r = Some kv -> first_entry o bs k kv) /\
    (forall kv, first_entry o bs k kv -> tc_same k kv.1 -> (forall p, filter_policy o = Some p -> same_to p k kv.1) -> r = Some kv).
Proof.
  intros Hi Hp HF HX HT Hrest HP HE Hk. pose proof (fits_length o ok c bs HF). assert (Hfuel : (length bs < S (length (concat bs)))%nat) by lia.
  destruct (InternalGet_spec (Contains := Contains) (Holds := Holds) raddr o ok c Hi Hp bs seps HF HX P n rest rep opt HT Hrest HP _ Hfuel k e [] Hk (Nat.le_0_l 1) HE)
    as (m & r & e' & E & HE' & Hm & Hmb & Hr).
  exists r, e'. split; [done|]. split; [done|]. split.
  - intros kv ->. destruct Hr as [[Hnone _]|(q & Hlt & Hq & Hv)]; [done|]. symmetry in Hv. by apply (found_sound o ok c bs seps HF HX k m q kv Hk Hm Hlt Hq Hv).
  - intros kv Hfirst Hsame Hpol. destruct (found_complete (Contains := Contains) (Holds := Holds) o ok c Hi Hp bs seps HF HX k m kv Hk Hm Hmb Hfirst Hsame) as (Hlt & Hinm & Hq).
    destruct Hr as [[-> [Hge|Hfil]]|(q & _ & Hqq & ->)]; [lia| |by apply Hq].
    exfalso. pose proof Hfil as (p & Hpp & _). by apply (table_filter_match o ok c Hi Hp bs HF p m kv k Hpp Hinm); [apply Hpol|].
Qed.

Lemma get_spec bs seps P n rest rep opt k (e : Env) :
  1 <= block_restart_interval o -> (forall p, filter_policy o = Some p -> TablePolicy p ok c) -> Fits o ok c bs -> Indexed o ok bs seps ->
  TableOk o bs seps rep -> Z.of_nat (length rest) < 2 ^ 30 ->
  (block_cache o = true -> forall j v, (j < length bs)%nat ->
     P (block_cache_key (cache_id rep) (offset_ (handle_of (block_restart_interval o) cmp bs j))) v <->
     v = Block_new (data_of (block_restart_interval o) cmp (nth j bs []))) ->
  EnvOk (Contains := Contains) (Holds := Holds) o bs seps P n rest [] e -> ok k ->
  exists r e', InternalGet raddr rep opt k e = Ret (r, e') /\ EnvOk (Contains := Contains) (Holds := Holds) o bs seps P n rest [] e' /\
    get_ok (Compare cmp) (concat bs) k r.
Proof.
  intros Hi Hp HF HX HT Hrest HP HE Hk. destruct (get_first bs seps P n rest rep opt k e Hi Hp HF HX HT Hrest HP HE Hk) as (r & e' & E & HE' & Hs & Hc).
  exists (Status_OK, r), e'. split; [done|]. split; [done|]. split; [done|]. cbn [snd]. split.
  - intros kv Hkv. destruct (Hs kv Hkv) as (l1 & l2 & Hl12). by exists l1, l2.
  - intros v Hin. apply Hc; [|by apply tc_same_refl|done]. destruct HF as [[HS HFk] _ _ _]. apply list_elem_of_split in Hin as (l1 & l2 & Ecat). exists l1, l2. split; [done|]. cbn [fst]. split.
    + apply Forall_forall. intros x Hx. rewrite Ecat in HS. change (key_lt cmp x (k, v)). eapply StronglySorted_app_1_elem_of; [exact HS|done|set_solver].
    + rewrite (cmp_refl (cmp := Compare cmp) k Hk). lia.
Qed.

Lemma get_all_spec bs seps P n rest rep opt ks : forall e : Env,
  1 <= block_restart_interval o -> (forall p, filter_policy o = Some p -> TablePolicy p ok c) -> Fits o ok c bs -> Indexed o ok bs seps ->
  TableOk o bs seps rep -> Z.of_nat (length rest) < 2 ^ 30 ->
  (block_cache o = true -> forall j v, (j < length bs)%nat ->
     P (block_cache_key (cache_id rep) (offset_ (handle_of (block_restart_interval o) cmp bs j))) v <->
     v = Block_new (data_of (block_restart_interval o) cmp (nth j bs []))) ->
  EnvOk (Contains := Contains) (Holds := Holds) o bs seps P n rest [] e -> Forall ok ks ->
  exists rs e', get_all raddr rep opt ks e = Ret (rs, e') /\ EnvOk (Contains := Contains) (Holds := Holds) o bs seps P n rest [] e' /\
    Forall2 (get_ok (Compare cmp) (concat bs)) ks rs.
Proof.
  induction ks as [|k ks IH]; intros e Hi Hp HF HX HT Hrest HP HE Hk; [by exists [], e|]. apply Forall_cons in Hk as [Hk Hks].
  destruct (get_spec bs seps P n rest rep opt k e Hi Hp HF HX HT Hrest HP HE Hk) as (r & e1 & E1 & HE1 & Hr).
  destruct (IH e1 Hi Hp HF HX HT Hrest HP HE1 Hks) as (rs & e2 & E2 & HE2 & Hrs). exists (r :: rs), e2. cbn [get_all].
  rewrite (bind_eq _ _ _ _ _ E1), (bind_eq _ _ _ _ _ E2). split; [done|]. split; [done|]. by constructor.
Qed.

(** C11: lookups in a table are right: after a table was built and opened as
    above, any number of calls of [InternalGet] one after the other, on any
    keys, return OK; the entry a call finds is the first one not less than its
    key; a key that was added is found with its value, whatever filter policy
    the table has and whether its block is read from the file or the cache; and
    all handles into the cache are released. *)
Theorem Table_get kvs f opt ks :
  1 <= block_restart_interval o -> (forall p, filter_policy o = Some p -> TablePolicy p ok c) ->
  entries_ok cmp ok kvs -> table_cost kvs < 2 ^ 32 -> 2 * c * Z.of_nat (length kvs) < 2 ^ 31 -> Ready f [] -> Forall ok ks ->
  exists r w, build_table address taddr o kvs f = Ret (Status_OK, r) /\ Ready (file r) w /\
  forall P n rest (e : Env), Contains (env_file e) w -> Holds P n rest (env_cache e) -> n + 1 < 2 ^ 64 -> fresh_id P n -> few_keys (2 ^ 30) P -> Z.of_nat (length rest) < 2 ^ 30 ->
  exists rep e' rs e2 Q m, Table_Open raddr o (size w) e = Ret ((Status_OK, Some rep), e') /\
    get_all raddr rep opt ks e' = Ret (rs, e2) /\ Forall2 (get_ok (Compare cmp) kvs) ks rs /\ Holds Q m rest (env_cache e2).
Proof.
  intros Hi Hp He Hc Hl Hf Ht. destruct (build_table_spec address taddr o ok c Hi Hp kvs f Hf He Hc Hl) as (r & bs & seps & E & HR & Hs & _ & HF & HX & <-).
  exists r, (table_file o bs seps). split; [done|]. split; [done|]. intros P n rest e HC HH Hn Hfr Hfew Hr.
  destruct (Table_opened (Contains := Contains) (Holds := Holds) raddr o ok c Hi Hp bs seps HF HX P n rest e HC HH Hn Hfr Hfew Hr) as (rep & e' & Q & m & Eo & HT & HE & HP).
  destruct (get_all_spec bs seps Q m rest rep opt ks e' Hi Hp HF HX HT Hr HP HE Ht) as (rs & e2 & Eg & [_ HH2] & Hrs).
  by exists rep, e', rs, e2, Q, m.
Qed.
End Claims.

(** * An instance: files in memory, the LRU cache and a Bloom filter *)

Definition sample_options : Options := {|
  comparator := BytewiseComparator; create_if_missing := true; error_if_exists := false; paranoid_checks := true;
  write_buffer_size := 4194304; max_open_files := 1000; block_cache := true; block_size := 16; block_restart_interval := 2;
  max_file_size := 2097152; compression := kNoCompression; reuse_logs := false; filter_policy := Some (BloomFilterPolicy 10)
|}.

Definition sample_kvs : list (Slice * Slice) :=
  [(chars "apple", chars "1"); (chars "banana", chars "2"); (chars "cherry", chars "3")].

Lemma sample_policy p : filter_policy sample_options = Some p -> TablePolicy p is_bytes 20.
Proof. intros [= <-]. by apply (Bloom_table 10 is_bytes). Qed.

Lemma sample_entries : entries_ok BytewiseComparator is_bytes sample_kvs.
Proof.
  split.
  - repeat (constructor; [|repeat (constructor; [by vm_compute|]); constructor]). constructor.
  - repeat (constructor; [split; solve_bytes|]). constructor.
Qed.

Abbreviation sample_cache := (ShardedLRUCache_new (V := Block) 100).

Lemma sample_holds : Sharded_Holds (fun _ _ => False) 0 [] sample_cache.
Proof. apply Sharded_new_spec. by exists []. Qed.

Lemma sample_few m : 0 < m -> few_keys m (fun (_ : Slice) (_ : Block) => False).
Proof. intros Hm. by exists []. Qed.

Lemma Table_roundtrip_witness : exists r w rep e' t t',
  build_table (F := MemFile) 0 0 sample_options sample_kvs [] = Ret (Status_OK, r) /\ file r = w /\
  Table_Open (CC := Sharded_cache next_address) 0 sample_options (size w) (Build_TableEnv (w : MemFile) sample_cache) = Ret ((Status_OK, Some rep), e') /\
  Table_NewIterator (H := CacheHandle) rep e' = Ret t /\
  collect (H := Table_iterator (CC := Sharded_cache next_address) 0 rep ReadOptions_new 4) 4 t = Ret (sample_kvs, t').
Proof.
  destruct (Table_roundtrip (F := MemFile) (Ready := eq) (G := MemFile) (Contains := eq)
    (CL := Sharded_laws next_address next_address_fresh) 0 0 0 sample_options is_bytes 20 sample_kvs [] ReadOptions_new (chars "b"))
    as (r & w & E & Hw & _ & Hread); [done|apply sample_policy|apply sample_entries|by vm_compute|by vm_compute|done|solve_bytes|].
  destruct (Hread (fun _ _ => False) 0 [] (Build_TableEnv (w : MemFile) sample_cache)) as (rep & e' & t & Eo & Et & (t' & Ec & _) & _);
    [reflexivity|exact sample_holds|lia|intros x v Hx; exact Hx|apply sample_few; lia|reflexivity|].
  exists r, w, rep, e', t, t'. exact (conj E (conj Hw (conj Eo (conj Et Ec)))).
Defined.

Lemma Table_get_witness : exists r w rep e' rs e2,
  build_table (F := MemFile) 0 0 sample_options sample_kvs [] = Ret (Status_OK, r) /\ file r = w /\
  Table_Open (CC := Sharded_cache next_address) 0 sample_options (size w) (Build_TableEnv (w : MemFile) sample_cache) = Ret ((Status_OK, Some rep), e') /\
  get_all (CC := Sharded_cache next_address) 0 rep ReadOptions_new [chars "banana"; chars "zebra"; chars "banana"] e' = Ret (rs, e2) /\
  Forall2 (get_ok (Compare BytewiseComparator) sample_kvs) [chars "banana"; chars "zebra"; chars "banana"] rs.
Proof.
  destruct (Table_get (F := MemFile) (Ready := eq) (G := MemFile) (Contains := eq)
    (CL := Sharded_laws next_address next_address_fresh) 0 0 0 sample_options is_bytes 20 sample_kvs [] ReadOptions_new
    [chars "banana"; chars "zebra"; chars "banana"])
    as (r & w & E & Hw & Hread); [done|apply sample_policy|apply sample_entries|by vm_compute|by vm_compute|done|repeat (constructor; [solve_bytes|]); constructor|].
  destruct (Hread (fun _ _ => False) 0 [] (Build_TableEnv (w : MemFile) sample_cache)) as (rep & e' & rs & e2 & Q & m & Eo & Eg & Hrs & _);
    [reflexivity|exact sample_holds|lia|intros x v Hx; exact Hx|apply sample_few; lia|reflexivity|].
  exists r, w, rep, e', rs, e2. exact (conj E (conj Hw (conj Eo (conj Eg Hrs)))).
Defined.
