(* ===== verification/LvDbIter.v ===== *)
(** The iterator of the database ([db/db_iter.cc]): of the internal entries, which
    are versions of user keys, the newest ones that are not deletions, as of a
    sequence number. It is proved to be an iterator over them. *)

From stdpp Require Import base list gmap strings sorting.
From Stdlib Require Import ZArith Lia.
From S2P Require Import Prelude LvSlice LvCoding LvFormat LvSkipList LvSkipListSpec LvIterator.

(** [config::kReadBytesPeriod]. *)
Definition kReadBytesPeriod : Z := 1048576.

Inductive Direction : Type := kForward | kReverse.

(** [DBIter] without the user comparator; [samples] are the calls of
    [db_->RecordReadSample]. *)
Record DBIter (I : Type) : Type := {
  iter_ : I; sequence_ : Z; status_ : Status; saved_key_ : Slice; saved_value_ : Slice; direction_ : Direction; valid_ : bool; rnd_ : Z;
  bytes_until_read_sampling_ : Z; samples : list Slice
}.
Arguments iter_ {I} _.
Arguments sequence_ {I} _.
Arguments status_ {I} _.
Arguments saved_key_ {I} _.
Arguments saved_value_ {I} _.
Arguments direction_ {I} _.
Arguments valid_ {I} _.
Arguments rnd_ {I} _.
Arguments bytes_until_read_sampling_ {I} _.
Arguments samples {I} _.
Arguments Build_DBIter {I} _ _ _ _ _ _ _ _ _ _.

Section DBIter.
Context {I : Type} `{II : Iterator I}.
Variable user_comparator_ : Comparator.
(** More than the number of internal entries. *)
Variable scan_fuel : nat.
Abbreviation D := (DBIter I).

(** ** Members *)

Definition on_iter {A} (c : M I A) : M D A :=
  fun d => match c (iter_ d) with
           | Ret (a, it) => Ret (a, Build_DBIter it (sequence_ d) (status_ d) (saved_key_ d) (saved_value_ d) (direction_ d) (valid_ d) (rnd_ d)
                                      (bytes_until_read_sampling_ d) (samples d))
           | Undef => Undef
           | NoFuel => NoFuel
           end.

Definition set_status (s : Status) : M D unit := fun d =>
  Ret (tt, Build_DBIter (iter_ d) (sequence_ d) s (saved_key_ d) (saved_value_ d) (direction_ d) (valid_ d) (rnd_ d) (bytes_until_read_sampling_ d) (samples d)).
(** [SaveKey(k, &saved_key_)], and [saved_key_.clear()]. *)
Definition set_saved_key (k : Slice) : M D unit := fun d =>
  Ret (tt, Build_DBIter (iter_ d) (sequence_ d) (status_ d) k (saved_value_ d) (direction_ d) (valid_ d) (rnd_ d) (bytes_until_read_sampling_ d) (samples d)).
(** Also [ClearSavedValue]: it differs in the capacity of the string alone. *)
Definition set_saved_value (v : Slice) : M D unit := fun d =>
  Ret (tt, Build_DBIter (iter_ d) (sequence_ d) (status_ d) (saved_key_ d) v (direction_ d) (valid_ d) (rnd_ d) (bytes_until_read_sampling_ d) (samples d)).
Definition set_direction (x : Direction) : M D unit := fun d =>
  Ret (tt, Build_DBIter (iter_ d) (sequence_ d) (status_ d) (saved_key_ d) (saved_value_ d) x (valid_ d) (rnd_ d) (bytes_until_read_sampling_ d) (samples d)).
Definition set_valid (b : bool) : M D unit := fun d =>
  Ret (tt, Build_DBIter (iter_ d) (sequence_ d) (status_ d) (saved_key_ d) (saved_value_ d) (direction_ d) b (rnd_ d) (bytes_until_read_sampling_ d) (samples d)).
Definition set_sampling (r b : Z) (ks : list Slice) : M D unit := fun d =>
  Ret (tt, Build_DBIter (iter_ d) (sequence_ d) (status_ d) (saved_key_ d) (saved_value_ d) (direction_ d) (valid_ d) r b ks).

Definition ClearSavedValue : M D unit := set_saved_value [].

(** [ExtractUserKey(iter_->key())] with the assertion on the size. *)
Definition current_user_key : M D Slice :=
  let* k := on_iter iter_key in if size k <? 8 then undef else ret (ExtractUserKey k).

(** ** Reading an entry *)

Definition RandomCompactionPeriod (rnd : Z) : Z * Z := Random_Uniform rnd (2 * kReadBytesPeriod).

(** [while (bytes_until_read_sampling_ < bytes_read)]. *)
Fixpoint sample_loop (fuel : nat) (k : Slice) (bytes_read : Z) : M D unit :=
  match fuel with
  | O => nofuel
  | S fuel =>
      let* d := get in
      if bytes_until_read_sampling_ d <? bytes_read then
        let '(period, rnd) := RandomCompactionPeriod (rnd_ d) in
        set_sampling rnd (u64 (bytes_until_read_sampling_ d + period)) (samples d ++ [k]) ;;;
        sample_loop fuel k bytes_read
      else ret tt
  end.

(** Two periods in a row are not both zero. *)
Definition sample_fuel (bytes_read : Z) : nat := S (2 * Z.to_nat bytes_read).

Definition ParseKey : M D (option ParsedInternalKey) :=
  let* k := on_iter iter_key in
  let* v := on_iter iter_value in
  let bytes_read := u64 (size k + size v) in
  sample_loop (sample_fuel bytes_read) k bytes_read ;;;
  let* d := get in
  if bytes_until_read_sampling_ d >=? bytes_read then
    set_sampling (rnd_ d) (bytes_until_read_sampling_ d - bytes_read) (samples d) ;;;
    match ParseInternalKey k with
    | None => set_status (Status_Corruption (chars "corrupted internal key in DBIter") []) ;;; ret None
    | Some ikey => ret (Some ikey)
    end
  else undef.

(** ** Forwards *)

(** [skip] is always [&saved_key_]. *)
Fixpoint FindNextUserEntry_loop (fuel : nat) (skipping : bool) : M D unit :=
  match fuel with
  | O => nofuel
  | S fuel =>
      let next skipping :=
        on_iter iter_Next ;;;
        let* d := get in
        if iter_Valid (iter_ d) then FindNextUserEntry_loop fuel skipping
        else set_saved_key [] ;;; set_valid false in
      let* p := ParseKey in
      let* d := get in
      match p with
      | Some ikey =>
          if LvFormat.sequence ikey <=? sequence_ d then
            match type ikey with
            | kTypeDeletion => set_saved_key (user_key ikey) ;;; next true
            | kTypeValue =>
                if skipping && (Compare user_comparator_ (user_key ikey) (saved_key_ d) <=? 0) then next skipping
                else set_valid true ;;; set_saved_key []
            end
          else next skipping
      | None => next skipping
      end
  end.

Definition FindNextUserEntry (skipping : bool) : M D unit :=
  let* d := get in
  match iter_Valid (iter_ d), direction_ d with
  | true, kForward => FindNextUserEntry_loop scan_fuel skipping
  | _, _ => undef
  end.

Definition DBIter_Next : M D unit :=
  let* d := get in
  if negb (valid_ d) then undef
  else
    match direction_ d with
    | kReverse =>
        set_direction kForward ;;;
        (if negb (iter_Valid (iter_ d)) then on_iter iter_SeekToFirst else on_iter iter_Next) ;;;
        let* d := get in
        if negb (iter_Valid (iter_ d)) then set_valid false ;;; set_saved_key []
        else FindNextUserEntry true
    | kForward => let* k := current_user_key in set_saved_key k ;;; FindNextUserEntry true
    end.

(** ** Backwards *)

(** The result is the last [value_type]. *)
Fixpoint FindPrevUserEntry_loop (fuel : nat) (value_type : ValueType) : M D ValueType :=
  match fuel with
  | O => nofuel
  | S fuel =>
      let prev value_type :=
        on_iter iter_Prev ;;;
        let* d := get in
        if iter_Valid (iter_ d) then FindPrevUserEntry_loop fuel value_type else ret value_type in
      let* p := ParseKey in
      let* d := get in
      match p with
      | Some ikey =>
          if LvFormat.sequence ikey <=? sequence_ d then
            if negb (bool_decide (value_type = kTypeDeletion)) && (Compare user_comparator_ (user_key ikey) (saved_key_ d) <? 0) then ret value_type
            else
              match type ikey with
              | kTypeDeletion => set_saved_key [] ;;; ClearSavedValue ;;; prev kTypeDeletion
              | kTypeValue =>
                  let* raw_value := on_iter iter_value in
                  let* k := current_user_key in
                  set_saved_key k ;;;
                  set_saved_value raw_value ;;;
                  prev kTypeValue
              end
          else prev value_type
      | None => prev value_type
      end
  end.

Definition FindPrevUserEntry : M D unit :=
  let* d := get in
  match direction_ d with
  | kForward => undef
  | kReverse =>
      let* value_type := if iter_Valid (iter_ d) then FindPrevUserEntry_loop scan_fuel kTypeDeletion else ret kTypeDeletion in
      match value_type with
      | kTypeDeletion => set_valid false ;;; set_saved_key [] ;;; ClearSavedValue ;;; set_direction kForward
      | kTypeValue => set_valid true
      end
  end.

(** Back to before the entries of [saved_key_]; the result is [false] when there
    is nothing before them. *)
Fixpoint back_over_key (fuel : nat) : M D bool :=
  match fuel with
  | O => nofuel
  | S fuel =>
      on_iter iter_Prev ;;;
      let* d := get in
      if negb (iter_Valid (iter_ d)) then set_valid false ;;; set_saved_key [] ;;; ClearSavedValue ;;; ret false
      else
        let* k := current_user_key in
        let* d := get in
        if Compare user_comparator_ k (saved_key_ d) <? 0 then ret true else back_over_key fuel
  end.

Definition DBIter_Prev : M D unit :=
  let* d := get in
  if negb (valid_ d) then undef
  else
    match direction_ d with
    | kForward =>
        if negb (iter_Valid (iter_ d)) then undef
        else
          let* k := current_user_key in
          set_saved_key k ;;;
          let* more := back_over_key scan_fuel in
          if (more : bool) then set_direction kReverse ;;; FindPrevUserEntry else ret tt
    | kReverse => FindPrevUserEntry
    end.

(** ** Seeks *)

Definition DBIter_Seek (target : Slice) : M D unit :=
  set_direction kForward ;;;
  ClearSavedValue ;;;
  set_saved_key [] ;;;
  let* d := get in
  let key := AppendInternalKey (saved_key_ d) {| user_key := target; LvFormat.sequence := sequence_ d; type := kValueTypeForSeek |} in
  set_saved_key key ;;;
  on_iter (iter_Seek key) ;;;
  let* d := get in
  if iter_Valid (iter_ d) then FindNextUserEntry false else set_valid false.

Definition DBIter_SeekToFirst : M D unit :=
  set_direction kForward ;;;
  ClearSavedValue ;;;
  on_iter iter_SeekToFirst ;;;
  let* d := get in
  if iter_Valid (iter_ d) then FindNextUserEntry false else set_valid false.

Definition DBIter_SeekToLast : M D unit :=
  set_direction kReverse ;;;
  ClearSavedValue ;;;
  on_iter iter_SeekToLast ;;;
  FindPrevUserEntry.

(** ** The entry *)

Definition DBIter_Valid (d : D) : bool := valid_ d.

Definition DBIter_key : M D Slice :=
  let* d := get in
  if negb (valid_ d) then undef else match direction_ d with kForward => current_user_key | kReverse => ret (saved_key_ d) end.

Definition DBIter_value : M D Slice :=
  let* d := get in
  if negb (valid_ d) then undef else match direction_ d with kForward => on_iter iter_value | kReverse => ret (saved_value_ d) end.

Definition DBIter_status (d : D) : Status := if Status_ok (status_ d) then iter_status (iter_ d) else status_ d.

Definition DBIter_iterator : Iterator D := {|
  iter_Valid := DBIter_Valid;
  iter_SeekToFirst := DBIter_SeekToFirst;
  iter_SeekToLast := DBIter_SeekToLast;
  iter_Seek := DBIter_Seek;
  iter_Next := DBIter_Next;
  iter_Prev := DBIter_Prev;
  iter_key := DBIter_key;
  iter_value := DBIter_value;
  iter_status := DBIter_status
|}.

Definition NewDBIterator (internal_iter : I) (sequence : Z) (seed : Z) : D :=
  let '(period, rnd) := RandomCompactionPeriod (Random_new seed) in
  Build_DBIter internal_iter sequence Status_OK [] [] kForward false rnd period [].
End DBIter.

(** * What is visible *)

(** A version of a user key: the parsed internal key and the value. *)
Abbreviation Version := (ParsedInternalKey * Slice)%type.

Section Visible.
Context (ucmp : Comparator) (snapshot : Z).
Implicit Types (x y : Version) (vs : list Version).

Definition old_enough x : bool := LvFormat.sequence x.1 <=? snapshot.
Definition is_value x : bool := bool_decide (type x.1 = kTypeValue).
Definition same_user x y : bool := Compare ucmp (user_key x.1) (user_key y.1) =? 0.

(** The version [x] is shown, after the versions [before]: it is not too new, it
    is not a deletion, and no version of its key that is old enough is before. *)
Definition shown (before : list Version) x : bool :=
  old_enough x && is_value x && negb (existsb (fun y => old_enough y && same_user y x) before).

Fixpoint visible_after (before vs : list Version) : list (Slice * Slice) :=
  match vs with
  | [] => []
  | x :: vs => (if shown before x then [(user_key x.1, x.2)] else []) ++ visible_after (before ++ [x]) vs
  end.

(** The entries a reader sees at the snapshot. *)
Definition visible vs : list (Slice * Slice) := visible_after [] vs.

(** The entry of the internal iterator. *)
Definition version_entry x : Slice * Slice := (InternalKey (user_key x.1) (LvFormat.sequence x.1) (type x.1), x.2).

Lemma visible_after_app before l1 l2 : visible_after before (l1 ++ l2) = visible_after before l1 ++ visible_after (before ++ l1) l2.
Proof.
  revert before. induction l1 as [|x l1 IH]; intros before; [by rewrite app_nil_r|]. cbn [app visible_after]. rewrite IH, <- !app_assoc. done.
Qed.

Context (vs : list Version).

Definition shown_at (i : nat) : bool := match vs !! i with Some x => shown (take i vs) x | None => false end.

(** How many visible entries are before the version number [i]. *)
Definition rank (i : nat) : nat := length (visible (take i vs)).

Lemma rank_S i x : vs !! i = Some x -> rank (S i) = (rank i + if shown (take i vs) x then 1 else 0)%nat.
Proof.
  intros Ex. unfold rank. rewrite (take_S_r _ _ _ Ex). unfold visible. rewrite visible_after_app, length_app. cbn [visible_after app].
  rewrite app_nil_r. by destruct (shown (take i vs) x).
Qed.

Lemma rank_visible i : (length vs <= i)%nat -> rank i = length (visible vs).
Proof. intros Hi. unfold rank. by rewrite take_ge. Qed.

Lemma rank_same i j : (i <= j)%nat -> (forall k, (i <= k < j)%nat -> shown_at k = false) -> rank j = rank i.
Proof.
  intros Hij Hno. induction Hij as [|j Hij IH]; [done|]. rewrite <- IH by (intros k Hk; apply Hno; lia).
  destruct (vs !! j) as [x|] eqn:Ex.
  - rewrite (rank_S j x Ex). specialize (Hno j ltac:(lia)). unfold shown_at in Hno. rewrite Ex in Hno. rewrite Hno. lia.
  - apply lookup_ge_None_1 in Ex. rewrite !rank_visible by lia. done.
Qed.

Lemma rank_step i : shown_at i = true -> rank (S i) = S (rank i).
Proof. unfold shown_at. destruct (vs !! i) as [x|] eqn:Ex; [|done]. intros Hs. rewrite (rank_S i x Ex), Hs. lia. Qed.

Lemma visible_lookup i x : vs !! i = Some x -> shown_at i = true -> visible vs !! rank i = Some (user_key x.1, x.2).
Proof.
  intros Ex Hs. unfold shown_at in Hs. rewrite Ex in Hs. unfold rank.
  assert (E : visible vs = visible (take i vs ++ x :: drop (S i) vs)) by by rewrite take_drop_middle. rewrite E. unfold visible. rewrite visible_after_app. cbn [visible_after app]. rewrite Hs, lookup_app_r, Nat.sub_diag by lia. done.
Qed.

Lemma rank_lt i : shown_at i = true -> (rank i < length (visible vs))%nat.
Proof.
  intros Hs. destruct (vs !! i) as [x|] eqn:Ex; [|unfold shown_at in Hs; by rewrite Ex in Hs]. apply (lookup_lt_Some _ _ (user_key x.1, x.2)).
  by apply visible_lookup.
Qed.

Lemma rank_mono i j : (i <= j)%nat -> (rank i <= rank j)%nat.
Proof.
  intros Hij. unfold rank. rewrite <- (take_drop i (take j vs)), take_take, Nat.min_l by lia. unfold visible. rewrite visible_after_app, length_app. lia.
Qed.
End Visible.
