(* ===== verification/LvDbIterProps.v ===== *)
(** The database iterator is an iterator over the visible entries. *)

From stdpp Require Import base list gmap strings sorting.
From Stdlib Require Import ZArith Lia.
From S2P Require Import Prelude LvSlice LvCoding LvFormat LvSkipList LvSkipListSpec LvIterator LvBlock LvBlockProps LvBlockIter LvIterWrap LvDbIter.

(** * Sampling *)

Abbreviation seed_ok r := (0 < r < 2147483647).

(** Seeds that are multiples of the period are not followed by another one. *)
Lemma zero_seeds : forallb (fun k => negb ((Z.of_nat k * 2097152 * 16807) mod 2147483647 mod 2097152 =? 0)) (seq 1 1023) = true.
Proof. by vm_compute. Qed.

Lemma two_periods r : seed_ok r -> Random_Next r mod 2097152 = 0 -> 0 < Random_Next (Random_Next r) mod 2097152.
Proof.
  intros Hr Hz. destruct (Random_Next_spec 0 r Hr) as (_ & Hr1 & _). set (r1 := Random_Next r) in *. clearbody r1.
  rewrite (Random_Next_eq r1 Hr1). pose proof (Z.mod_pos_bound ((r1 * 16807) mod 2147483647) 2097152 ltac:(lia)) as Hp.
  assert (Er : r1 = r1 / 2097152 * 2097152) by (pose proof (Z.div_mod r1 2097152 ltac:(lia)); lia).
  assert (Hk : 1 <= r1 / 2097152 <= 1023).
  { split; [apply Z.div_le_lower_bound; [lia|]; pose proof (Z.div_pos r1 2097152); lia|].
    apply Z.lt_succ_r, Z.div_lt_upper_bound; lia. }
  pose proof zero_seeds as Hs. rewrite forallb_forall in Hs. specialize (Hs (Z.to_nat (r1 / 2097152)) ltac:(apply in_seq; lia)).
  rewrite Z2Nat.id in Hs by lia. rewrite <- Er in Hs. apply negb_true_iff, Z.eqb_neq in Hs. lia.
Qed.

Section DBIter.
Context {I : Type} `{II : Iterator I} {ucmp : Comparator} {ok : Slice -> Prop} `{UL : !ComparatorLaws ucmp ok}.
Context (scan_fuel : nat) (snapshot : Z) (Hsnap : seq_ok snapshot) (vs : list Version).
Abbreviation D := (DBIter I).
Abbreviation kvs := (map version_entry vs).
Abbreviation len := (length vs).
Implicit Types (x y z : Version) (d : D).
Context {At : I -> nat -> Prop} `{IL : !IteratorLaws I (InternalKey_Compare ucmp) (internal_ok ok) kvs At}.

(** The versions are in order, and not huge. *)
Definition newer (x y : Version) : Prop :=
  Compare ucmp (user_key x.1) (user_key y.1) < 0 \/
  Compare ucmp (user_key x.1) (user_key y.1) = 0 /\
    LvFormat.sequence y.1 * 256 + ValueType_val (type y.1) < LvFormat.sequence x.1 * 256 + ValueType_val (type x.1).
Context (Hsorted : StronglySorted newer vs).
Context (Hvs : Forall (fun x => ok (user_key x.1) /\ seq_ok (LvFormat.sequence x.1) /\ size (user_key x.1) + size x.2 < 2 ^ 61) vs).
Context (Hfuel : (len < scan_fuel)%nat).

Lemma version_at i x : vs !! i = Some x -> ok (user_key x.1) /\ seq_ok (LvFormat.sequence x.1) /\ size (user_key x.1) + size x.2 < 2 ^ 61.
Proof. intros Ex. rewrite Forall_lookup in Hvs. by apply (Hvs i). Qed.

Lemma entry_at i x : vs !! i = Some x -> kvs !! i = Some (InternalKey (user_key x.1) (LvFormat.sequence x.1) (type x.1), x.2).
Proof. intros Ex. change (map version_entry vs) with (version_entry <$> vs). by rewrite list_lookup_fmap, Ex. Qed.

Lemma kvs_len : length kvs = len.
Proof. apply length_map. Qed.

(** ** The state *)

(** The internal iterator is at [i], and the rest is as it should be. *)
Record Base (d : D) (i : nat) : Prop := {
  ba_at : At (iter_ d) i;
  ba_seq : sequence_ d = snapshot;
  ba_status : status_ d = Status_OK;
  ba_rnd : seed_ok (rnd_ d);
  ba_bytes : 0 <= bytes_until_read_sampling_ d < 2 ^ 63
}.

(** What reading an entry leaves alone. *)
Record same (d d' : D) : Prop := {
  sa_key : saved_key_ d' = saved_key_ d;
  sa_value : saved_value_ d' = saved_value_ d;
  sa_dir : direction_ d' = direction_ d;
  sa_valid : valid_ d' = valid_ d
}.

Lemma same_trans d1 d2 d3 : same d1 d2 -> same d2 d3 -> same d1 d3.
Proof. intros [] []. constructor; congruence. Qed.

Lemma base_valid d i : Base d i -> iter_Valid (iter_ d) = bool_decide (i < len)%nat.
Proof. intros [HA _ _ _ _]. rewrite (it_valid _ _ HA). by rewrite kvs_len. Qed.

Lemma base_bound d i : Base d i -> (i <= len)%nat.
Proof. intros [HA _ _ _ _]. rewrite <- kvs_len. by apply (it_bound _ _ HA). Qed.

(** ** Reading an entry *)

Lemma uniform_eq r : Random_Uniform r (2 * kReadBytesPeriod) = (Random_Next r mod 2097152, Random_Next r).
Proof. done. Qed.

(** [pos]: the next period is known not to be zero. *)
Lemma sample_loop_spec k bytes_read (Hb : 0 <= bytes_read < 2 ^ 62) fuel : forall d i (pos : bool), Base d i ->
  (pos = true -> 0 < Random_Next (rnd_ d) mod 2097152) ->
  (2 * Z.to_nat (bytes_read - bytes_until_read_sampling_ d) < fuel + if pos && (bytes_until_read_sampling_ d <? bytes_read)%Z then 1 else 0)%nat ->
  exists d', sample_loop fuel k bytes_read d = Ret (tt, d') /\ Base d' i /\ same d d' /\ bytes_read <= bytes_until_read_sampling_ d'.
Proof.
  induction fuel as [|fuel IH]; intros d i pos HB Hpos Hf.
  - destruct pos; cbn [andb] in Hf; [destruct (Z.ltb_spec (bytes_until_read_sampling_ d) bytes_read)|]; lia.
  - cbn [sample_loop]. unfold bind at 1, get at 1. destruct (Z.ltb_spec (bytes_until_read_sampling_ d) bytes_read) as [Hlt|Hge].
    2:{ exists d. split; [done|]. split; [done|]. split; [by constructor|lia]. }
    unfold RandomCompactionPeriod. rewrite uniform_eq. pose proof HB as [B1 B2 B3 B4 B5].
    destruct (Random_Next_spec 0 (rnd_ d) B4) as (_ & Hr & _). set (r1 := Random_Next (rnd_ d)) in *.
    pose proof (Z.mod_pos_bound r1 2097152 ltac:(lia)) as Hp. set (p := r1 mod 2097152) in *. rewrite wrap_small by lia.
    set (d1 := Build_DBIter (iter_ d) (sequence_ d) (status_ d) (saved_key_ d) (saved_value_ d) (direction_ d) (valid_ d) r1
      (bytes_until_read_sampling_ d + p) (samples d ++ [k])).
    assert (HB1 : Base d1 i) by (constructor; cbn; try done; lia).
    destruct (IH d1 i (bool_decide (p = 0)) HB1) as (d' & E & HB' & Hs & Hge).
    + intros Hz%bool_decide_eq_true. cbn [rnd_ d1]. apply two_periods; [done|]. exact Hz.
    + cbn [bytes_until_read_sampling_ d1]. destruct (Z.eq_dec p 0) as [Hz|Hz].
      * rewrite bool_decide_true by done. cbn [andb]. rewrite Hz, Z.add_0_r. destruct pos; [specialize (Hpos eq_refl); lia|].
        destruct (Z.ltb_spec (bytes_until_read_sampling_ d) bytes_read); cbn [andb] in Hf; lia.
      * rewrite bool_decide_false by done. cbn [andb]. destruct pos; cbn [andb] in Hf; lia.
    + exists d'. split; [exact E|]. split; [done|]. split; [|done]. by destruct Hs.
Qed.

Lemma ParseKey_spec d i x : Base d i -> vs !! i = Some x ->
  exists d', ParseKey d = Ret (Some x.1, d') /\ Base d' i /\ same d d'.
Proof.
  intros HB Ex. pose proof HB as [B1 B2 B3 B4 B5]. destruct (version_at i x Ex) as (Hok & Hseq & Hsize).
  pose proof (entry_at i x Ex) as Ee. unfold ParseKey. unfold bind at 1, on_iter at 1. rewrite (it_key _ _ _ _ B1 Ee).
  set (k := InternalKey _ _ _) in *. set (d0 := Build_DBIter (iter_ d) _ _ _ _ _ _ _ _ _). assert (HB0 : Base d0 i) by by constructor.
  unfold bind at 1, on_iter at 1. cbn [iter_ d0]. rewrite (it_value _ _ _ _ B1 Ee). fold d0.
  assert (Hk : size k = size (user_key x.1) + 8) by (unfold size, k; rewrite InternalKey_length; lia).
  pose proof (size_nonneg (user_key x.1)). pose proof (size_nonneg x.2). rewrite (wrap_small 64) by lia.
  destruct (sample_loop_spec k (size k + size x.2)) with (fuel := sample_fuel (size k + size x.2)) (d := d0) (i := i) (pos := false) as (d1 & E1 & HB1 & Hs1 & Hge);
    [lia|done|done|cbn [andb bytes_until_read_sampling_ d0]; unfold sample_fuel; lia|].
  rewrite (bind_eq _ _ _ _ _ E1). unfold bind at 1, get at 1. destruct (Z.geb_spec (bytes_until_read_sampling_ d1) (size k + size x.2)); [|lia].
  set (d2 := Build_DBIter (iter_ d1) (sequence_ d1) (status_ d1) (saved_key_ d1) (saved_value_ d1) (direction_ d1) (valid_ d1) (rnd_ d1)
    (bytes_until_read_sampling_ d1 - (size k + size x.2)) (samples d1)).
  rewrite (bind_eq (set_sampling _ _ _) _ d1 tt d2 eq_refl). unfold k at 1. rewrite parse_internal by done.
  exists d2. split; [by destruct x as [[? ? ?] ?]|]. destruct HB1 as [C1 C2 C3 C4 C5]. split.
  - constructor; cbn [iter_ sequence_ status_ rnd_ bytes_until_read_sampling_ d2]; [done..|lia].
  - destruct Hs1. constructor; done.
Qed.

(** ** Moving the internal iterator *)

Lemma on_iter_spec {A} (c : M I A) d a it j i : c (iter_ d) = Ret (a, it) -> At it j -> Base d i ->
  exists d', on_iter c d = Ret (a, d') /\ Base d' j /\ same d d'.
Proof.
  intros Ec HA [B1 B2 B3 B4 B5]. unfold on_iter. rewrite Ec. eexists. split; [reflexivity|]. split; by constructor.
Qed.

Lemma move_next d i : Base d i -> (i < len)%nat -> exists d', on_iter iter_Next d = Ret (tt, d') /\ Base d' (S i) /\ same d d'.
Proof.
  intros HB Hi. destruct (it_next (iter_ d) i (ba_at _ _ HB)) as (it & E & HA); [by rewrite kvs_len|]. by apply (on_iter_spec _ _ _ it _ i).
Qed.

Lemma move_prev d i : Base d i -> (i < len)%nat ->
  exists d', on_iter iter_Prev d = Ret (tt, d') /\ Base d' (match i with O => len | S j => j end) /\ same d d'.
Proof.
  intros HB Hi. destruct (it_prev (iter_ d) i (ba_at _ _ HB)) as (it & E & HA); [by rewrite kvs_len|]. rewrite kvs_len in HA. by apply (on_iter_spec _ _ _ it _ i).
Qed.

Lemma move_first d i : Base d i -> exists d', on_iter iter_SeekToFirst d = Ret (tt, d') /\ Base d' 0 /\ same d d'.
Proof.
  intros HB. destruct (it_first (iter_ d) i (ba_at _ _ HB)) as (it & E & HA). by apply (on_iter_spec _ _ _ it _ i).
Qed.

Lemma move_last d i : Base d i -> exists d', on_iter iter_SeekToLast d = Ret (tt, d') /\ Base d' (len - 1) /\ same d d'.
Proof.
  intros HB. destruct (it_last (iter_ d) i (ba_at _ _ HB)) as (it & E & HA). rewrite kvs_len in HA. by apply (on_iter_spec _ _ _ it _ i).
Qed.

Lemma eta (d : D) : Build_DBIter (iter_ d) (sequence_ d) (status_ d) (saved_key_ d) (saved_value_ d) (direction_ d) (valid_ d) (rnd_ d)
  (bytes_until_read_sampling_ d) (samples d) = d.
Proof. by destruct d. Qed.

Lemma user_key_spec d i x : Base d i -> vs !! i = Some x -> current_user_key d = Ret (user_key x.1, d).
Proof.
  intros HB Ex. unfold current_user_key, bind, on_iter. rewrite (it_key _ _ _ _ (ba_at _ _ HB) (entry_at i x Ex)), eta.
  unfold size. rewrite InternalKey_length. destruct (Z.ltb_spec (Z.of_nat (length (user_key x.1) + 8)) 8); [lia|]. by rewrite InternalKey_user.
Qed.

Lemma db_value_spec d i x : Base d i -> vs !! i = Some x -> on_iter iter_value d = Ret (x.2, d).
Proof. intros HB Ex. unfold on_iter. by rewrite (it_value _ _ _ _ (ba_at _ _ HB) (entry_at i x Ex)), eta. Qed.

(** Setting members. *)
Lemma base_key d i k : Base d i -> exists d', set_saved_key k d = Ret (tt, d') /\ Base d' i /\
  saved_key_ d' = k /\ saved_value_ d' = saved_value_ d /\ direction_ d' = direction_ d /\ valid_ d' = valid_ d.
Proof. intros []. eexists. split; [reflexivity|]. split; [by constructor|done]. Qed.

Lemma base_value d i v : Base d i -> exists d', set_saved_value v d = Ret (tt, d') /\ Base d' i /\
  saved_key_ d' = saved_key_ d /\ saved_value_ d' = v /\ direction_ d' = direction_ d /\ valid_ d' = valid_ d.
Proof. intros []. eexists. split; [reflexivity|]. split; [by constructor|done]. Qed.

Lemma base_valid_set d i b : Base d i -> exists d', set_valid b d = Ret (tt, d') /\ Base d' i /\
  saved_key_ d' = saved_key_ d /\ saved_value_ d' = saved_value_ d /\ direction_ d' = direction_ d /\ valid_ d' = b.
Proof. intros []. eexists. split; [reflexivity|]. split; [by constructor|done]. Qed.

Lemma base_dir d i (v : Direction) : Base d i -> exists d', set_direction v d = Ret (tt, d') /\ Base d' i /\
  saved_key_ d' = saved_key_ d /\ saved_value_ d' = saved_value_ d /\ direction_ d' = v /\ valid_ d' = valid_ d.
Proof. intros []. eexists. split; [reflexivity|]. split; [by constructor|done]. Qed.

(** ** The order of versions *)

Abbreviation cmpu x y := (Compare ucmp (user_key x.1) (user_key y.1)).
Abbreviation old x := (old_enough snapshot x = true).

Lemma order_le i j x y : (i <= j)%nat -> vs !! i = Some x -> vs !! j = Some y -> cmpu x y <= 0.
Proof.
  intros Hij Ei Ej. destruct (version_at i x Ei) as (Ox & _). destruct (decide (i = j)) as [->|].
  - assert (x = y) as -> by congruence. by rewrite (cmp_refl (cmp := Compare ucmp)).
  - pose proof Hsorted as HS. rewrite <- (take_drop_middle _ _ _ Ei) in HS. apply StronglySorted_app_1_r in HS. inversion HS as [|? ? _ HF].
    rewrite Forall_forall in HF. destruct (HF y) as [|[]]; [|lia..].
    apply (list_elem_of_lookup_2 _ (j - S i)). rewrite lookup_drop. by replace (S i + (j - S i))%nat with j by lia.
Qed.

Lemma shown_iff i x : vs !! i = Some x ->
  shown_at ucmp snapshot vs i = true <->
  old x /\ type x.1 = kTypeValue /\ forall j y, (j < i)%nat -> vs !! j = Some y -> old y -> cmpu y x <> 0.
Proof.
  intros Ex. unfold shown_at. rewrite Ex. unfold shown, is_value. rewrite !andb_true_iff, bool_decide_eq_true, negb_true_iff. split.
  - intros [[Ho Ht] Hn]. split; [done|]. split; [done|]. intros j y Hj Ey Hy Hc.
    apply (not_true_iff_false (existsb _ _)) in Hn. apply Hn, existsb_exists. exists y. split.
    + apply list_elem_of_In, (list_elem_of_lookup_2 _ j). by rewrite lookup_take_lt.
    + rewrite Hy. cbn [andb]. unfold same_user. by apply Z.eqb_eq.
  - intros (Ho & Ht & Hn). split; [done|]. apply not_true_iff_false. intros (y & Hy & Hb)%existsb_exists.
    apply andb_true_iff in Hb as [Hyo Hb%Z.eqb_eq]. apply list_elem_of_In, list_elem_of_lookup in Hy as (j & Hy).
    apply lookup_take_Some in Hy as [Hy Hj]. by apply (Hn j y).
Qed.

Lemma shown_bound i : shown_at ucmp snapshot vs i = true -> exists x, vs !! i = Some x.
Proof. unfold shown_at. destruct (vs !! i) as [x|]; [by exists x|done]. Qed.

(** ** Where the iterator is *)

Abbreviation shown_ := (shown_at ucmp snapshot vs).
Abbreviation rank_ := (rank ucmp snapshot vs).
Abbreviation vis := (visible ucmp snapshot vs).

(** Backwards the internal iterator is before the shown version [r], with only
    versions that are too new in between. *)
Definition before_entry (d : D) (r : nat) : Prop := exists q, Base d q /\
  ((q < r)%nat /\ (forall j y, (q < j < r)%nat -> vs !! j = Some y -> ~ old y) \/ q = len /\ forall j y, (j < r)%nat -> vs !! j = Some y -> ~ old y).

Definition DbAt (d : D) (n : nat) : Prop :=
  (n = length vis /\ valid_ d = false /\ exists i, Base d i) \/
  (valid_ d = true /\ exists r x, vs !! r = Some x /\ shown_ r = true /\ rank_ r = n /\
    (direction_ d = kForward /\ Base d r \/
     direction_ d = kReverse /\ saved_key_ d = user_key x.1 /\ saved_value_ d = x.2 /\ before_entry d r)).

Lemma at_end d i n : Base d i -> valid_ d = false -> (forall j, (i <= j)%nat -> shown_ j = false) -> n = length vis -> DbAt d n.
Proof. intros HB Hv _ ->. left. split; [done|]. split; [done|]. by exists i. Qed.

(** No version from [lo] on that is shown: the rank is the number of entries. *)
Lemma rank_end lo : (forall j, (lo <= j)%nat -> shown_ j = false) -> rank_ lo = length vis.
Proof.
  intros Hno. destruct (decide (len <= lo)%nat); [by apply rank_visible|]. rewrite <- (rank_visible ucmp snapshot vs len) by lia. symmetry.
  apply rank_same; [lia|]. intros k Hk. apply Hno. lia.
Qed.

(** ** Forwards *)

(** What [skipping] and [saved_key_] say before the version [i]: which of the
    versions from there on are hidden. *)
Definition skips (i : nat) (skipping : bool) (sk : Slice) : Prop :=
  forall k y, (i <= k)%nat -> vs !! k = Some y ->
    (exists j z, (j < i)%nat /\ vs !! j = Some z /\ old z /\ cmpu z y = 0) <-> (skipping = true /\ Compare ucmp (user_key y.1) sk <= 0).

(** A version that is too new changes nothing. *)
Lemma skips_new i b sk x : skips i b sk -> vs !! i = Some x -> ~ old x -> skips (S i) b sk.
Proof.
  intros H Ex Ho k y Hk Ey. rewrite <- (H k y) by (lia || done). split; intros (j & z & Hj & Ez & Hz & Hc); exists j, z; (split; [|done]); [|lia].
  destruct (decide (j = i)) as [->|]; [|lia]. congruence.
Qed.

(** After an old enough one, its key is to be skipped. *)
Lemma skips_key i x : vs !! i = Some x -> old x -> skips (S i) true (user_key x.1).
Proof.
  intros Ex Ho k y Hk Ey. destruct (version_at i x Ex) as (Ox & _), (version_at k y Ey) as (Oy & _). split.
  - intros (j & z & Hj & Ez & Hz & Hc). split; [done|]. destruct (version_at j z Ez) as (Oz & _). pose proof (order_le j i z x ltac:(lia) Ez Ex).
    apply (cmp_le_trans _ (user_key z.1)); [done..| |done]. apply (cmp_eq_sym (cmp := Compare ucmp)) in Hc; [lia|done..].
  - intros [_ Hle]. exists i, x. split; [lia|]. split; [done|]. split; [done|]. pose proof (order_le i k x y ltac:(lia) Ex Ey).
    pose proof (cmp_flip (cmp := Compare ucmp) (user_key x.1) (user_key y.1) Ox Oy). lia.
Qed.

Lemma skips_hidden i b sk x : skips i b sk -> vs !! i = Some x -> b = true -> ok sk -> Compare ucmp (user_key x.1) sk <= 0 ->
  shown_ i = false /\ skips (S i) b sk.
Proof.
  intros H Ex -> Osk Hle. destruct (version_at i x Ex) as (Ox & _). split.
  - apply not_true_iff_false. rewrite (shown_iff i x Ex). intros (_ & _ & Hno). destruct (proj2 (H i x (le_n i) Ex) (conj eq_refl Hle)) as (j & z & Hj & Ez & Hz & Hc).
    by apply (Hno j z).
  - intros k y Hk Ey. destruct (version_at k y Ey) as (Oy & _). split.
    + intros (j & z & Hj & Ez & Hz & Hc). destruct (decide (j = i)) as [->|]; [|apply (H k y); [lia|done|]; exists j, z; split; [lia|done]].
      assert (z = x) as -> by congruence. split; [done|]. apply (cmp_le_trans _ (user_key x.1)); [done..| |done].
      apply (cmp_eq_sym (cmp := Compare ucmp)) in Hc; [lia|done..].
    + intros Hr. destruct (proj2 (H k y ltac:(lia) Ey) Hr) as (j & z & Hj & Ez). exists j, z. split; [lia|done].
Qed.

Lemma skips_shown i b sk x : skips i b sk -> vs !! i = Some x -> old x -> type x.1 = kTypeValue -> ~ (b = true /\ Compare ucmp (user_key x.1) sk <= 0) -> shown_ i = true.
Proof.
  intros H Ex Ho Ht Hn. apply (shown_iff i x Ex). split; [done|]. split; [done|]. intros j y Hj Ey Hy Hc. apply Hn, (H i x (le_n i) Ex). by exists j, y.
Qed.

Lemma not_shown_new i x : vs !! i = Some x -> ~ old x -> shown_ i = false.
Proof. intros Ex Ho. apply not_true_iff_false. rewrite (shown_iff i x Ex). tauto. Qed.

Lemma not_shown_deletion i x : vs !! i = Some x -> type x.1 = kTypeDeletion -> shown_ i = false.
Proof. intros Ex Ht. apply not_true_iff_false. rewrite (shown_iff i x Ex), Ht. by intros (_ & ? & _). Qed.

Lemma rank_skip i : shown_ i = false -> rank_ (S i) = rank_ i.
Proof. intros Hn. apply rank_same; [lia|]. intros k Hk. by replace k with i by lia. Qed.

Abbreviation loop := (FindNextUserEntry_loop (I := I) ucmp).

(** The code after an entry that is not the one. *)
Definition next_entry (fuel : nat) (skipping : bool) : M D unit :=
  on_iter iter_Next ;;;
  let* d := get in
  if iter_Valid (iter_ d) then loop fuel skipping else set_saved_key [] ;;; set_valid false.

Lemma next_entry_spec fuel b d i n : Base d i -> (i < len)%nat -> direction_ d = kForward -> (S i = len -> n = length vis) ->
  (forall d1, Base d1 (S i) -> (S i < len)%nat -> direction_ d1 = kForward -> saved_key_ d1 = saved_key_ d -> exists d', loop fuel b d1 = Ret (tt, d') /\ DbAt d' n) ->
  exists d', next_entry fuel b d = Ret (tt, d') /\ DbAt d' n.
Proof.
  intros HB Hi Hdir Hend Hloop. destruct (move_next d i HB Hi) as (d1 & E1 & HB1 & Hs1). unfold next_entry. rewrite (bind_eq _ _ _ _ _ E1).
  unfold bind at 1, get at 1. rewrite (base_valid _ _ HB1). case_bool_decide as Hv.
  - apply Hloop; [done|done|by rewrite (sa_dir _ _ Hs1)|by rewrite (sa_key _ _ Hs1)].
  - destruct (base_key d1 (S i) [] HB1) as (d2 & E2 & HB2 & _). rewrite (bind_eq _ _ _ _ _ E2).
    destruct (base_valid_set d2 (S i) false HB2) as (d3 & E3 & HB3 & _ & _ & _ & Hv3). exists d3. split; [done|]. left.
    split; [apply Hend; lia|]. split; [done|]. by exists (S i).
Qed.

Lemma loop_eq fuel b d d1 x : ParseKey d = Ret (Some x.1, d1) ->
  loop (S fuel) b d =
    (if LvFormat.sequence x.1 <=? sequence_ d1 then
       match type x.1 with
       | kTypeDeletion => (set_saved_key (user_key x.1) ;;; next_entry fuel true) d1
       | kTypeValue =>
           if b && (Compare ucmp (user_key x.1) (saved_key_ d1) <=? 0) then next_entry fuel b d1
           else (set_valid true ;;; set_saved_key []) d1
       end
     else next_entry fuel b d1).
Proof.
  intros E. cbn [FindNextUserEntry_loop]. rewrite (bind_eq _ _ _ _ _ E). unfold bind at 1, get at 1.
  destruct (LvFormat.sequence x.1 <=? sequence_ d1); [|done]. by destruct (type x.1); [|destruct (b && _)].
Qed.

Lemma Next_loop fuel : forall i b d, Base d i -> direction_ d = kForward -> (i < len)%nat -> skips i b (saved_key_ d) -> (b = true -> ok (saved_key_ d)) ->
  (len - i < fuel)%nat -> exists d', loop fuel b d = Ret (tt, d') /\ DbAt d' (rank_ i).
Proof.
  induction fuel as [|fuel IH]; intros i b d HB Hdir Hi Hsk Hok Hf; [lia|]. destruct (lookup_lt_is_Some_2 vs i Hi) as [x Ex].
  destruct (version_at i x Ex) as (Ox & _). destruct (ParseKey_spec d i x HB Ex) as (d1 & E1 & HB1 & Hs1). rewrite (loop_eq fuel b d d1 x E1), (ba_seq _ _ HB1).
  assert (Hdir1 : direction_ d1 = kForward) by by rewrite (sa_dir _ _ Hs1).
  assert (Hgo : forall b' d2, Base d2 i -> direction_ d2 = kForward -> shown_ i = false -> skips (S i) b' (saved_key_ d2) -> (b' = true -> ok (saved_key_ d2)) ->
    exists d', next_entry fuel b' d2 = Ret (tt, d') /\ DbAt d' (rank_ i)).
  { intros b' d2 HB2 Hd2 Hn Hs2 Ho2. rewrite <- (rank_skip i Hn). apply (next_entry_spec fuel b' d2 i); [done|done|done|intros Hl; apply rank_visible; lia|].
    intros d3 HB3 Hl Hd3 Hk3. apply IH; [done|done|done|by rewrite Hk3|by rewrite Hk3|lia]. }
  destruct (LvFormat.sequence x.1 <=? snapshot) eqn:Ho.
  - destruct (type x.1) eqn:Ht.
    + destruct (base_key d1 i (user_key x.1) HB1) as (d2 & E2 & HB2 & Hk2 & _ & Hd2 & _). rewrite (bind_eq _ _ _ _ _ E2).
      apply Hgo; [done|congruence|by apply (not_shown_deletion i x)|rewrite Hk2; by apply (skips_key i)|by rewrite Hk2].
    + rewrite (sa_key _ _ Hs1). destruct (b && _) eqn:Eb.
      * apply andb_true_iff in Eb as [Hb Hle%Z.leb_le]. destruct (skips_hidden i b (saved_key_ d) x Hsk Ex Hb (Hok Hb) Hle) as [Hn Hs'].
        apply Hgo; [done|done|done|by rewrite (sa_key _ _ Hs1)|by rewrite (sa_key _ _ Hs1)].
      * assert (Hsh : shown_ i = true).
        { apply (skips_shown i b (saved_key_ d) x Hsk Ex Ho Ht). intros [-> Hle]. cbn [andb] in Eb. destruct (Z.leb_spec (Compare ucmp (user_key x.1) (saved_key_ d)) 0); [done|lia]. }
        destruct (base_valid_set d1 i true HB1) as (d2 & E2 & HB2 & _ & _ & Hd2 & Hv2). rewrite (bind_eq _ _ _ _ _ E2).
        destruct (base_key d2 i [] HB2) as (d3 & E3 & HB3 & _ & _ & Hd3 & Hv3). exists d3. split; [done|]. right. split; [congruence|].
        exists i, x. split; [done|]. split; [done|]. split; [done|]. left. split; [congruence|done].
  - apply Hgo; [done|done| | |].
    + apply (not_shown_new i x Ex). unfold old_enough. by rewrite Ho.
    + rewrite (sa_key _ _ Hs1). apply (skips_new i b _ x Hsk Ex). unfold old_enough. by rewrite Ho.
    + by rewrite (sa_key _ _ Hs1).
Qed.

(** From before the shown version [r], whose key is to be skipped, to after it. *)
Lemma catch_up r x (Er : vs !! r = Some x) (Hr : shown_ r = true) fuel : forall i d, Base d i -> direction_ d = kForward -> saved_key_ d = user_key x.1 ->
  (i <= r)%nat -> (forall j y, (i <= j < r)%nat -> vs !! j = Some y -> ~ old y) -> (len - i < fuel)%nat ->
  exists d', loop fuel true d = Ret (tt, d') /\ DbAt d' (S (rank_ r)).
Proof.
  destruct (version_at r x Er) as (Ox & _). pose proof (proj1 (shown_iff r x Er) Hr) as (Ho & Ht & Hno). pose proof (lookup_lt_Some _ _ _ Er) as Hlt.
  induction fuel as [|fuel IH]; intros i d HB Hdir Hk Hi Hnew Hf; [lia|]. destruct (lookup_lt_is_Some_2 vs i ltac:(lia)) as [y Ey].
  destruct (ParseKey_spec d i y HB Ey) as (d1 & E1 & HB1 & Hs1). rewrite (loop_eq fuel true d d1 y E1), (ba_seq _ _ HB1).
  assert (Hdir1 : direction_ d1 = kForward) by by rewrite (sa_dir _ _ Hs1). assert (Hk1 : saved_key_ d1 = user_key x.1) by by rewrite (sa_key _ _ Hs1).
  destruct (decide (i = r)) as [->|Hne].
  - assert (y = x) as -> by congruence. change (LvFormat.sequence x.1 <=? snapshot) with (old_enough snapshot x). rewrite Ho, Ht, Hk1.
    rewrite (cmp_refl (cmp := Compare ucmp)) by done. cbn [andb Z.leb Z.compare].
    apply (next_entry_spec fuel true d1 r); [done|done|done| |].
    + intros Hl. rewrite <- (rank_step _ _ _ _ Hr). apply rank_visible. lia.
    + intros d2 HB2 Hl Hd2 Hk2. rewrite <- (rank_step _ _ _ _ Hr). rewrite Hk1 in Hk2. apply Next_loop; [done|done|done| |by rewrite Hk2|lia].
      rewrite Hk2. by apply (skips_key r).
  - assert (Hny : ~ old y) by (apply (Hnew i y); [lia|done]). change (LvFormat.sequence y.1 <=? snapshot) with (old_enough snapshot y).
    rewrite (proj1 (not_true_iff_false _) Hny). apply (next_entry_spec fuel true d1 i); [done|lia|done|lia|].
    intros d2 HB2 Hl Hd2 Hk2. apply (IH (S i)); [done|done|congruence|lia| |lia]. intros j z Hj. apply Hnew. lia.
Qed.

Lemma FindNext_spec b d i n : Base d i -> (i < len)%nat -> direction_ d = kForward ->
  (exists d', loop scan_fuel b d = Ret (tt, d') /\ DbAt d' n) -> exists d', FindNextUserEntry ucmp scan_fuel b d = Ret (tt, d') /\ DbAt d' n.
Proof.
  intros HB Hi Hd Hl. unfold FindNextUserEntry, bind, get. rewrite (base_valid _ _ HB), bool_decide_true, Hd by done. exact Hl.
Qed.

Lemma DbNext_spec d n : DbAt d n -> (n < length vis)%nat -> exists d', DBIter_Next ucmp scan_fuel d = Ret (tt, d') /\ DbAt d' (S n).
Proof.
  intros [[-> _]|(Hv & r & x & Er & Hr & <- & Hcase)] Hn; [lia|]. unfold DBIter_Next, bind at 1, get at 1. rewrite Hv. cbn [negb].
  pose proof (lookup_lt_Some _ _ _ Er) as Hlt. destruct Hcase as [[Hd HB]|(Hd & Hk & Hval & q & HB & Hq)]; rewrite Hd.
  - rewrite (bind_eq _ _ _ _ _ (user_key_spec d r x HB Er)). destruct (base_key d r (user_key x.1) HB) as (d1 & E1 & HB1 & Hk1 & _ & Hd1 & _).
    rewrite (bind_eq _ _ _ _ _ E1). apply (FindNext_spec _ _ r); [done|done|congruence|]. apply (catch_up r x Er Hr _ r); [done|congruence|done|done|lia|lia].
  - destruct (base_dir d q kForward HB) as (d1 & E1 & HB1 & Hk1 & _ & Hd1 & _). rewrite (bind_eq _ _ _ _ _ E1), (base_valid _ _ HB).
    assert (Hmove : exists d2 i, (if negb (bool_decide (q < len)%nat) then on_iter iter_SeekToFirst else on_iter iter_Next) d1 = Ret (tt, d2) /\ Base d2 i /\ same d1 d2 /\
      (i <= r)%nat /\ forall j y, (i <= j < r)%nat -> vs !! j = Some y -> ~ old y).
    { destruct Hq as [[Hqr Hnew]|[-> Hnew]].
      - rewrite bool_decide_true by lia. destruct (move_next d1 q HB1 ltac:(lia)) as (d2 & E2 & HB2 & Hs2). exists d2, (S q). split_and!; [done|done|done|lia|].
        intros j y Hj. apply Hnew. lia.
      - rewrite bool_decide_false by lia. destruct (move_first d1 len HB1) as (d2 & E2 & HB2 & Hs2). exists d2, 0%nat. split_and!; [done|done|done|lia|].
        intros j y Hj. apply Hnew. lia. }
    destruct Hmove as (d2 & i & E2 & HB2 & Hs2 & Hi & Hnew). rewrite (bind_eq _ _ _ _ _ E2). unfold bind at 1, get at 1.
    rewrite (base_valid _ _ HB2), bool_decide_true by lia. cbn [negb]. apply (FindNext_spec _ _ i); [done|lia|rewrite (sa_dir _ _ Hs2); congruence|].
    apply (catch_up r x Er Hr _ i); [done|rewrite (sa_dir _ _ Hs2); congruence|rewrite (sa_key _ _ Hs2); congruence|done|done|lia].
Qed.

(** ** Backwards *)

Abbreviation prev_loop := (FindPrevUserEntry_loop (I := I) ucmp).

(** After the versions from [lo] to [i0]: nothing of them is shown, or at most the
    one that is saved. *)
Definition scanned (lo i0 : nat) (vt : ValueType) (d : D) : Prop :=
  match vt with
  | kTypeDeletion => forall j, (lo <= j <= i0)%nat -> shown_ j = false
  | kTypeValue => exists c y, (lo <= c <= i0)%nat /\ vs !! c = Some y /\ old y /\ type y.1 = kTypeValue /\
      saved_key_ d = user_key y.1 /\ saved_value_ d = y.2 /\
      (forall j z, (lo <= j < c)%nat -> vs !! j = Some z -> ~ old z) /\ (forall j, (c < j <= i0)%nat -> shown_ j = false)
  end.

(** The last version up to [i0] that is shown, if there is one. *)
Definition prev_found (i0 : nat) (vt : ValueType) (d : D) : Prop :=
  match vt with
  | kTypeDeletion => (exists q, Base d q) /\ forall j, (j <= i0)%nat -> shown_ j = false
  | kTypeValue => exists r y, (r <= i0)%nat /\ vs !! r = Some y /\ shown_ r = true /\ saved_key_ d = user_key y.1 /\ saved_value_ d = y.2 /\
      before_entry d r /\ (forall j, (r < j <= i0)%nat -> shown_ j = false)
  end.

(** The entry before: [N] entries are up to there. *)
Definition prev_of (N : nat) : nat := match N with O => length vis | S m => m end.

Lemma prev_found_rank i0 vt d : prev_found i0 vt d -> valid_ d = (match vt with kTypeValue => true | kTypeDeletion => false end) ->
  direction_ d = kReverse -> vt = kTypeValue -> DbAt d (prev_of (rank_ (S i0))).
Proof.
  intros Hp Hv Hd ->. destruct Hp as (r & y & Hr & Er & Hs & Hk & Hval & Hb & Hno). right. split; [done|]. exists r, y. split; [done|]. split; [done|].
  split; [|right; by split_and!]. rewrite (rank_same ucmp snapshot vs (S r) (S i0)), (rank_step _ _ _ _ Hs); [done|lia|]. intros k Hk'. apply Hno. lia.
Qed.

Definition prev_entry (fuel : nat) (vt : ValueType) : M D ValueType :=
  on_iter iter_Prev ;;;
  let* d := get in
  if iter_Valid (iter_ d) then prev_loop fuel vt else ret vt.

Lemma prev_loop_eq fuel vt d d1 x : ParseKey d = Ret (Some x.1, d1) ->
  prev_loop (S fuel) vt d =
    (if LvFormat.sequence x.1 <=? sequence_ d1 then
       if negb (bool_decide (vt = kTypeDeletion)) && (Compare ucmp (user_key x.1) (saved_key_ d1) <? 0) then Ret (vt, d1)
       else
         match type x.1 with
         | kTypeDeletion => (set_saved_key [] ;;; ClearSavedValue ;;; prev_entry fuel kTypeDeletion) d1
         | kTypeValue =>
             (let* raw_value := on_iter iter_value in
              let* k := current_user_key in
              set_saved_key k ;;; set_saved_value raw_value ;;; prev_entry fuel kTypeValue) d1
         end
     else prev_entry fuel vt d1).
Proof.
  intros E. cbn [FindPrevUserEntry_loop]. rewrite (bind_eq _ _ _ _ _ E). unfold bind at 1, get at 1.
  destruct (LvFormat.sequence x.1 <=? sequence_ d1); [|done]. destruct (negb _ && _); [done|]. by destruct (type x.1).
Qed.

(** A saved version is shown when what is before it has smaller keys or is too new. *)
Lemma saved_shown lo c y : vs !! c = Some y -> old y -> type y.1 = kTypeValue -> (forall j z, (lo <= j < c)%nat -> vs !! j = Some z -> ~ old z) ->
  (lo = O \/ exists x, vs !! (lo - 1)%nat = Some x /\ Compare ucmp (user_key x.1) (user_key y.1) < 0) -> shown_ c = true.
Proof.
  intros Ec Ho Ht Hnew Hlt. apply (shown_iff c y Ec). split; [done|]. split; [done|]. intros j z Hj Ez Hz Hc.
  destruct (decide (lo <= j)%nat); [by apply (Hnew j z)|]. destruct Hlt as [->|(x & Ex & Hlt)]; [lia|].
  pose proof (order_le j (lo - 1) z x ltac:(lia) Ez Ex) as Hle.
  destruct (version_at _ x Ex) as (Ox & _), (version_at j z Ez) as (Oz & _), (version_at c y Ec) as (Oy & _).
  pose proof (cmp_le_lt_trans (cmp := Compare ucmp) _ _ _ Oz Ox Oy Hle Hlt). lia.
Qed.

(** The end of the scan at [q], or before the first version. *)
Lemma scanned_found lo i0 vt d q : scanned lo i0 vt d -> Base d q ->
  (lo = O /\ q = len \/ q = (lo - 1)%nat /\ (0 < lo)%nat /\ vt = kTypeValue /\ exists x, vs !! q = Some x /\ Compare ucmp (user_key x.1) (saved_key_ d) < 0) ->
  prev_found i0 vt d.
Proof.
  intros Hs HB Hq. destruct vt; cbn [scanned prev_found] in *.
  - destruct Hq as [[-> ->]|(_ & _ & ? & _)]; [|done]. split; [by exists len|]. intros j Hj. apply Hs. lia.
  - destruct Hs as (c & y & Hc & Ec & Ho & Ht & Hk & Hv & Hnew & Hno). exists c, y. split; [lia|]. split; [done|]. split; [|split; [done|split; [done|split; [|done]]]].
    + apply (saved_shown lo c y Ec Ho Ht Hnew). destruct Hq as [[-> _]|(-> & _ & _ & x & Ex & Hlt)]; [by left|right]. exists x. split; [done|]. by rewrite <- Hk.
    + exists q. split; [done|]. destruct Hq as [[-> ->]|(-> & Hpos & _)]; [right|left].
      * split; [done|]. intros j z Hj. apply Hnew. lia.
      * split; [lia|]. intros j z Hj. apply Hnew. lia.
Qed.

Lemma same_scanned lo i0 vt d d' : same d d' -> scanned lo i0 vt d -> scanned lo i0 vt d'.
Proof. intros []. destruct vt; cbn [scanned]; [done|]. by rewrite sa_key0, sa_value0. Qed.

Lemma scanned_skip i i0 vt d : scanned (S i) i0 vt d -> shown_ i = false -> (forall x, vs !! i = Some x -> ~ old x) -> scanned i i0 vt d.
Proof.
  intros Hs Hn Hnew. destruct vt; cbn [scanned] in *.
  - intros j Hj. destruct (decide (j = i)) as [->|]; [done|]. apply Hs. lia.
  - destruct Hs as (c & y & Hc & Ec & Ho & Ht & Hk & Hv & Hnw & Hno). exists c, y. split_and!; [lia|lia|done..| |done].
    intros j z Hj Ez. destruct (decide (j = i)) as [->|]; [by apply Hnew|]. apply (Hnw j z); [lia|done].
Qed.

(** A version that is old enough hides the saved one when it is not of a smaller key. *)
Lemma scanned_hides i i0 vt d x : scanned (S i) i0 vt d -> vs !! i = Some x -> old x ->
  (vt = kTypeValue -> ~ Compare ucmp (user_key x.1) (saved_key_ d) < 0) -> forall j, (i < j <= i0)%nat -> shown_ j = false.
Proof.
  intros Hs Ex Hx Hlt j Hj. destruct vt; cbn [scanned] in Hs; [apply Hs; lia|].
  destruct Hs as (c & y & Hc & Ec & Ho & Ht & Hk & Hv & Hnew & Hno). specialize (Hlt eq_refl). rewrite Hk in Hlt.
  destruct (decide (c < j)%nat); [apply Hno; lia|]. destruct (decide (j = c)) as [->|].
  - apply not_true_iff_false. rewrite (shown_iff c y Ec). intros (_ & _ & Hn). apply (Hn i x); [lia|done|done|]. pose proof (order_le i c x y ltac:(lia) Ex Ec). lia.
  - destruct (lookup_lt_is_Some_2 vs j) as [z Ez]; [apply lookup_lt_Some in Ec; lia|]. apply (not_shown_new j z Ez), (Hnew j z); [lia|done].
Qed.

Lemma Prev_loop i0 fuel : forall i vt d, Base d i -> (i < len)%nat -> (i <= i0)%nat -> direction_ d = kReverse -> scanned (S i) i0 vt d -> (i < fuel)%nat ->
  exists vt' d', prev_loop fuel vt d = Ret (vt', d') /\ direction_ d' = kReverse /\ prev_found i0 vt' d'.
Proof.
  induction fuel as [|fuel IH]; intros i vt d HB Hi Hi0 Hdir Hs Hf; [lia|]. destruct (lookup_lt_is_Some_2 vs i Hi) as [x Ex].
  destruct (ParseKey_spec d i x HB Ex) as (d1 & E1 & HB1 & Hs1). rewrite (prev_loop_eq fuel vt d d1 x E1), (ba_seq _ _ HB1).
  assert (Hdir1 : direction_ d1 = kReverse) by by rewrite (sa_dir _ _ Hs1).
  assert (Hgo : forall vt2 d2, Base d2 i -> direction_ d2 = kReverse -> scanned i i0 vt2 d2 ->
    exists vt' d', prev_entry fuel vt2 d2 = Ret (vt', d') /\ direction_ d' = kReverse /\ prev_found i0 vt' d').
  { intros vt2 d2 HB2 Hd2 Hs2. destruct (move_prev d2 i HB2 Hi) as (d3 & E3 & HB3 & Hs3). unfold prev_entry. rewrite (bind_eq _ _ _ _ _ E3).
    unfold bind at 1, get at 1. rewrite (base_valid _ _ HB3). assert (Hd3 : direction_ d3 = kReverse) by by rewrite (sa_dir _ _ Hs3).
    apply (same_scanned _ _ _ d2 d3 Hs3) in Hs2. destruct i as [|i].
    - rewrite bool_decide_false by lia. exists vt2, d3. split; [done|]. split; [done|]. apply (scanned_found 0 i0 vt2 d3 len); [done|done|by left].
    - rewrite bool_decide_true by lia. apply (IH i); [done|lia|lia|done|done|lia]. }
  change (LvFormat.sequence x.1 <=? snapshot) with (old_enough snapshot x). pose proof (same_scanned _ _ _ d d1 Hs1 Hs) as Hsc. destruct (old_enough snapshot x) eqn:Ho.
  2:{ apply Hgo; [done|done|]. assert (Hn : ~ old x) by (rewrite Ho; done).
      apply scanned_skip; [done|by apply (not_shown_new i x)|]. intros z Ez. by assert (z = x) as -> by congruence. }
  destruct (negb (bool_decide (vt = kTypeDeletion)) && _) eqn:Eb.
  - apply andb_true_iff in Eb as [Hvt%negb_true_iff%bool_decide_eq_false Hlt%Z.ltb_lt]. exists vt, d1. split; [done|]. split; [done|].
    apply (scanned_found (S i) i0 vt d1 i); [done|done|]. right. split; [lia|]. split; [lia|]. split; [by destruct vt|]. by exists x.
  - assert (Hnext : forall j, (i < j <= i0)%nat -> shown_ j = false).
    { apply (scanned_hides i i0 vt d1 x Hsc Ex Ho). intros -> Hlt. cbn [bool_decide] in Eb. rewrite bool_decide_false in Eb by done. cbn [negb andb] in Eb.
      apply Z.ltb_ge in Eb. lia. }
    destruct (type x.1) eqn:Ht.
    + destruct (base_key d1 i [] HB1) as (d2 & E2 & HB2 & _ & _ & Hd2 & _). rewrite (bind_eq _ _ _ _ _ E2). unfold ClearSavedValue.
      destruct (base_value d2 i [] HB2) as (d3 & E3 & HB3 & _ & _ & Hd3 & _). rewrite (bind_eq _ _ _ _ _ E3). apply Hgo; [done|congruence|].
      intros j Hj. destruct (decide (j = i)) as [->|]; [by apply (not_shown_deletion i x)|]. apply Hnext. lia.
    + rewrite (bind_eq _ _ _ _ _ (db_value_spec d1 i x HB1 Ex)), (bind_eq _ _ _ _ _ (user_key_spec d1 i x HB1 Ex)).
      destruct (base_key d1 i (user_key x.1) HB1) as (d2 & E2 & HB2 & Hk2 & _ & Hd2 & _). rewrite (bind_eq _ _ _ _ _ E2).
      destruct (base_value d2 i x.2 HB2) as (d3 & E3 & HB3 & Hk3 & Hv3 & Hd3 & _). rewrite (bind_eq _ _ _ _ _ E3). apply Hgo; [done|congruence|].
      exists i, x. split_and!; [lia|lia|done|done|done|congruence|done|lia|]. intros j Hj. apply Hnext. lia.
Qed.

(** Nothing is shown up to [i0]: the entry before is past the end. *)
Lemma rank_none i0 : (forall j, (j <= i0)%nat -> shown_ j = false) -> rank_ (S i0) = O.
Proof. intros Hno. rewrite (rank_same ucmp snapshot vs 0 (S i0)) by (try lia; intros k Hk; apply Hno; lia). done. Qed.

(** What is done with the result of the backward scan. *)
Lemma prev_done i0 vt d : prev_found i0 vt d -> direction_ d = kReverse ->
  exists d', match vt with
             | kTypeDeletion => (set_valid false ;;; set_saved_key [] ;;; ClearSavedValue ;;; set_direction kForward) d
             | kTypeValue => set_valid true d
             end = Ret (tt, d') /\ DbAt d' (prev_of (rank_ (S i0))).
Proof.
  intros Hp Hd. destruct vt.
  - destruct Hp as [[q HB] Hno]. destruct (base_valid_set d q false HB) as (d1 & E1 & HB1 & _ & _ & _ & Hv1). rewrite (bind_eq _ _ _ _ _ E1).
    destruct (base_key d1 q [] HB1) as (d2 & E2 & HB2 & _ & _ & _ & Hv2). rewrite (bind_eq _ _ _ _ _ E2). unfold ClearSavedValue.
    destruct (base_value d2 q [] HB2) as (d3 & E3 & HB3 & _ & _ & _ & Hv3). rewrite (bind_eq _ _ _ _ _ E3).
    destruct (base_dir d3 q kForward HB3) as (d4 & E4 & HB4 & _ & _ & _ & Hv4). exists d4. split; [done|]. left.
    rewrite (rank_none i0 Hno). split; [done|]. split; [congruence|]. by exists q.
  - exists (Build_DBIter (iter_ d) (sequence_ d) (status_ d) (saved_key_ d) (saved_value_ d) (direction_ d) true (rnd_ d) (bytes_until_read_sampling_ d) (samples d)).
    split; [done|]. apply (prev_found_rank i0 kTypeValue); [|done..]. destruct Hp as (r & y & Hr & Er & Hs & Hk & Hval & (q & [] & Hq) & Hno).
    exists r, y. split_and!; try done. exists q. split; [by constructor|done].
Qed.

Lemma FindPrev_spec d i0 : Base d i0 -> (i0 < len)%nat -> direction_ d = kReverse ->
  exists d', FindPrevUserEntry ucmp scan_fuel d = Ret (tt, d') /\ DbAt d' (prev_of (rank_ (S i0))).
Proof.
  intros HB Hi Hd. unfold FindPrevUserEntry, bind at 1, get at 1. rewrite Hd, (base_valid _ _ HB), bool_decide_true by done.
  destruct (Prev_loop i0 scan_fuel i0 kTypeDeletion d) as (vt & d1 & E1 & Hd1 & Hp); [done..| |lia|]; [intros j Hj; lia|].
  rewrite (bind_eq _ _ _ _ _ E1). destruct (prev_done i0 vt d1 Hp Hd1) as (d2 & E2 & HA). exists d2. by destruct vt.
Qed.

(** The internal iterator has run out. *)
Lemma FindPrev_end d : Base d len -> direction_ d = kReverse -> exists d', FindPrevUserEntry ucmp scan_fuel d = Ret (tt, d') /\ DbAt d' (length vis).
Proof.
  intros HB Hd. unfold FindPrevUserEntry, bind at 1, get at 1. rewrite Hd, (base_valid _ _ HB), bool_decide_false by lia.
  eexists. split; [reflexivity|]. left. split; [done|]. split; [done|]. exists len. destruct HB. by constructor.
Qed.

(** Back over the versions of the shown key at [r]. *)
Lemma back_over_key_spec r x (Er : vs !! r = Some x) (Hr : shown_ r = true) fuel : forall i d, Base d i -> (i <= r)%nat -> saved_key_ d = user_key x.1 ->
  (forall j, (i <= j < r)%nat -> shown_ j = false) -> (i < fuel)%nat ->
  exists b d', back_over_key ucmp fuel d = Ret (b, d') /\
    if b : bool then exists q, Base d' q /\ (q < r)%nat /\ forall j, (q < j < r)%nat -> shown_ j = false
    else DbAt d' (length vis) /\ forall j, (j < r)%nat -> shown_ j = false.
Proof.
  pose proof (lookup_lt_Some _ _ _ Er) as Hlt.
  induction fuel as [|fuel IH]; intros i d HB Hi Hk Hno Hf; [lia|]. cbn [back_over_key].
  destruct (move_prev d i HB ltac:(lia)) as (d1 & E1 & HB1 & Hs1). rewrite (bind_eq _ _ _ _ _ E1). unfold bind at 1, get at 1.
  rewrite (base_valid _ _ HB1). destruct i as [|i].
  - rewrite bool_decide_false by lia. cbn [negb]. destruct (base_valid_set d1 len false HB1) as (d2 & E2 & HB2 & _ & _ & _ & Hv2). rewrite (bind_eq _ _ _ _ _ E2).
    destruct (base_key d2 len [] HB2) as (d3 & E3 & HB3 & _ & _ & _ & Hv3). rewrite (bind_eq _ _ _ _ _ E3). unfold ClearSavedValue.
    destruct (base_value d3 len [] HB3) as (d4 & E4 & HB4 & _ & _ & _ & Hv4). rewrite (bind_eq _ _ _ _ _ E4). exists false, d4. split; [done|]. split.
    + left. split; [done|]. split; [congruence|]. by exists len.
    + intros j Hj. apply Hno. lia.
  - rewrite bool_decide_true by lia. cbn [negb]. destruct (lookup_lt_is_Some_2 vs i ltac:(lia)) as [y Ey].
    rewrite (bind_eq _ _ _ _ _ (user_key_spec d1 i y HB1 Ey)). unfold bind at 1, get at 1. rewrite (sa_key _ _ Hs1), Hk.
    destruct (Z.ltb_spec (Compare ucmp (user_key y.1) (user_key x.1)) 0) as [Hl|Hge].
    + exists true, d1. split; [done|]. exists i. split; [done|]. split; [lia|]. intros j Hj. apply Hno. lia.
    + apply (IH i); [done|lia|by rewrite (sa_key _ _ Hs1)| |lia]. intros j Hj. destruct (decide (j = i)) as [->|]; [|apply Hno; lia].
      apply (not_shown_new i y Ey). intros Ho. apply (proj1 (shown_iff r x Er) Hr) in Ey as Hn; [|lia|done]. pose proof (order_le i r y x ltac:(lia) Ey Er). lia.
Qed.

Lemma DbPrev_spec d n : DbAt d n -> (n < length vis)%nat -> exists d', DBIter_Prev ucmp scan_fuel d = Ret (tt, d') /\ DbAt d' (prev_of n).
Proof.
  intros [[-> _]|(Hv & r & x & Er & Hr & <- & Hcase)] Hn; [lia|]. unfold DBIter_Prev, bind at 1, get at 1. rewrite Hv. cbn [negb].
  pose proof (lookup_lt_Some _ _ _ Er) as Hlt. destruct Hcase as [[Hd HB]|(Hd & Hk & Hval & q & HB & Hq)]; rewrite Hd.
  - rewrite (base_valid _ _ HB), bool_decide_true by done. cbn [negb]. rewrite (bind_eq _ _ _ _ _ (user_key_spec d r x HB Er)).
    destruct (base_key d r (user_key x.1) HB) as (d1 & E1 & HB1 & Hk1 & _ & _ & _). rewrite (bind_eq _ _ _ _ _ E1).
    destruct (back_over_key_spec r x Er Hr scan_fuel r d1 HB1) as (b & d2 & E2 & Hres); [lia|done|lia|lia|]. rewrite (bind_eq _ _ _ _ _ E2). destruct b.
    + destruct Hres as (q & HB2 & Hq & Hno). destruct (base_dir d2 q kReverse HB2) as (d3 & E3 & HB3 & _ & _ & Hd3 & _). rewrite (bind_eq _ _ _ _ _ E3).
      rewrite (rank_same ucmp snapshot vs (S q) r) by (try lia; intros k Hk; apply Hno; lia). apply FindPrev_spec; [done|lia|done].
    + destruct Hres as [HA Hno]. exists d2. split; [done|]. rewrite (rank_same ucmp snapshot vs 0 r) by (try lia; intros k Hk; apply Hno; lia). done.
  - destruct Hq as [[Hqr Hnew]|[-> Hnew]].
    + rewrite (rank_same ucmp snapshot vs (S q) r); [apply FindPrev_spec; [done|lia|done]|lia|].
      intros k Hk'. destruct (lookup_lt_is_Some_2 vs k ltac:(lia)) as [y Ey]. apply (not_shown_new k y Ey), (Hnew k y); [lia|done].
    + rewrite (rank_same ucmp snapshot vs 0 r); [by apply FindPrev_end|lia|].
      intros k Hk'. destruct (lookup_lt_is_Some_2 vs k ltac:(lia)) as [y Ey]. apply (not_shown_new k y Ey), (Hnew k y); [lia|done].
Qed.

(** ** Seeks *)

Lemma DbAt_base d n : DbAt d n -> exists i, Base d i.
Proof. intros [(_ & _ & H)|(_ & r & x & _ & _ & _ & [[_ HB]|(_ & _ & _ & q & HB & _)])]; [done|by exists r|by exists q]. Qed.

(** The user keys of visible entries are those of versions that are old enough. *)
Lemma visible_after_Forall (P : Slice -> Prop) l : Forall (fun x => old x -> P (user_key x.1)) l -> forall before,
  Forall (fun kv => P kv.1) (visible_after ucmp snapshot before l).
Proof.
  induction 1 as [|x l Hx _ IH]; intros before; cbn [visible_after]; [constructor|]. apply Forall_app. split; [|done].
  destruct (shown ucmp snapshot before x) eqn:E; [|constructor]. constructor; [|constructor]. apply Hx. unfold shown in E.
  by destruct (old_enough snapshot x).
Qed.

Lemma take_rank m : take (rank_ m) vis = visible ucmp snapshot (take m vs) /\ drop (rank_ m) vis = visible_after ucmp snapshot (take m vs) (drop m vs).
Proof.
  assert (E : vis = visible ucmp snapshot (take m vs) ++ visible_after ucmp snapshot (take m vs) (drop m vs)).
  { rewrite <- (take_drop m vs) at 1. unfold visible. by rewrite visible_after_app. }
  rewrite E. unfold rank. by rewrite take_app_length, drop_app_length.
Qed.

(** After a move of the internal iterator the scan begins. *)
Lemma scan_from d i sk : Base d i -> direction_ d = kForward -> saved_key_ d = sk -> skips i false sk ->
  exists d', (let* d := get in if iter_Valid (iter_ d) then FindNextUserEntry ucmp scan_fuel false else set_valid false) d = Ret (tt, d') /\ DbAt d' (rank_ i).
Proof.
  intros HB Hd <- Hsk. unfold bind at 1, get at 1. rewrite (base_valid _ _ HB). case_bool_decide as Hi.
  - apply (FindNext_spec _ _ i); [done..|]. apply Next_loop; [done|done|done|done|done|lia].
  - destruct (base_valid_set d i false HB) as (d1 & E1 & HB1 & _ & _ & _ & Hv1). exists d1. split; [done|]. left.
    rewrite rank_visible by lia. split; [done|]. split; [done|]. by exists i.
Qed.

Lemma First_spec d n : DbAt d n -> exists d', DBIter_SeekToFirst ucmp scan_fuel d = Ret (tt, d') /\ DbAt d' 0.
Proof.
  intros [i HB]%DbAt_base. unfold DBIter_SeekToFirst, ClearSavedValue.
  destruct (base_dir d i kForward HB) as (d1 & E1 & HB1 & _ & _ & Hd1 & _). rewrite (bind_eq _ _ _ _ _ E1).
  destruct (base_value d1 i [] HB1) as (d2 & E2 & HB2 & _ & _ & Hd2 & _). rewrite (bind_eq _ _ _ _ _ E2).
  destruct (move_first d2 i HB2) as (d3 & E3 & HB3 & Hs3). rewrite (bind_eq _ _ _ _ _ E3).
  apply (scan_from d3 0 (saved_key_ d3) HB3); [rewrite (sa_dir _ _ Hs3); congruence|done|]. intros k y _ _. split; [intros (j & z & Hj & _); lia|by intros [? _]].
Qed.

Lemma Last_spec d n : DbAt d n -> exists d', DBIter_SeekToLast ucmp scan_fuel d = Ret (tt, d') /\ DbAt d' (length vis - 1).
Proof.
  intros [i HB]%DbAt_base. unfold DBIter_SeekToLast, ClearSavedValue.
  destruct (base_dir d i kReverse HB) as (d1 & E1 & HB1 & _ & _ & Hd1 & _). rewrite (bind_eq _ _ _ _ _ E1).
  destruct (base_value d1 i [] HB1) as (d2 & E2 & HB2 & _ & _ & Hd2 & _). rewrite (bind_eq _ _ _ _ _ E2).
  destruct (move_last d2 i HB2) as (d3 & E3 & HB3 & Hs3). rewrite (bind_eq _ _ _ _ _ E3).
  assert (Hd3 : direction_ d3 = kReverse) by (rewrite (sa_dir _ _ Hs3); congruence). destruct (decide (len = 0)%nat) as [E0|Hne].
  - rewrite E0 in HB3. destruct (FindPrev_end d3) as (d4 & E4 & HA); [by rewrite E0|done|]. exists d4. split; [done|].
    assert (Hvis : length vis = 0%nat) by (by apply nil_length_inv in E0 as ->). by rewrite Hvis in *.
  - destruct (FindPrev_spec d3 (len - 1) HB3) as (d4 & E4 & HA); [lia|done|]. exists d4. split; [done|].
    replace (S (len - 1)) with len in HA by lia. rewrite rank_visible in HA by lia. unfold prev_of in HA. destruct (length vis) as [|m]; [done|]. by replace (S m - 1)%nat with m by lia.
Qed.

Lemma seek_key target : AppendInternalKey [] {| user_key := target; LvFormat.sequence := snapshot; type := kValueTypeForSeek |} = InternalKey target snapshot kTypeValue.
Proof. done. Qed.

(** The versions before the target in the internal order. *)
Lemma before_target target x : seq_ok (LvFormat.sequence x.1) -> InternalKey_Compare ucmp (version_entry x).1 (InternalKey target snapshot kTypeValue) < 0 ->
  old x -> Compare ucmp (user_key x.1) target < 0.
Proof.
  clear UL IL Hsorted Hvs Hfuel. intros Hx Hlt Ho%Z.leb_le. change (InternalKey_Compare ucmp) with (Compare (InternalKeyComparator ucmp)) in Hlt. cbn [version_entry fst] in Hlt.
  rewrite internal_key_compare in Hlt by done. destruct (Z.eqb_spec (Compare ucmp (user_key x.1) target) 0) as [_|]; [|done]. cbn [ValueType_val] in Hlt.
  destruct (type x.1); cbn [ValueType_val] in Hlt; lia.
Qed.

Lemma after_target target x : seq_ok (LvFormat.sequence x.1) -> 0 <= InternalKey_Compare ucmp (version_entry x).1 (InternalKey target snapshot kTypeValue) ->
  0 <= Compare ucmp (user_key x.1) target.
Proof.
  clear UL IL Hsorted Hvs Hfuel. intros Hx Hge. change (InternalKey_Compare ucmp) with (Compare (InternalKeyComparator ucmp)) in Hge. cbn [version_entry fst] in Hge.
  rewrite internal_key_compare in Hge by done. destruct (Z.eqb_spec (Compare ucmp (user_key x.1) target) 0); lia.
Qed.

Lemma DbSeek_spec d n target : DbAt d n -> ok target -> exists d' m, DBIter_Seek ucmp scan_fuel target d = Ret (tt, d') /\ DbAt d' m /\
  Forall (fun kv => Compare ucmp kv.1 target < 0) (take m vis) /\ Forall (fun kv => 0 <= Compare ucmp kv.1 target) (drop m vis).
Proof.
  intros [i HB]%DbAt_base Ht. unfold DBIter_Seek, ClearSavedValue.
  destruct (base_dir d i kForward HB) as (d1 & E1 & HB1 & _ & _ & Hd1 & _). rewrite (bind_eq _ _ _ _ _ E1).
  destruct (base_value d1 i [] HB1) as (d2 & E2 & HB2 & _ & _ & Hd2 & _). rewrite (bind_eq _ _ _ _ _ E2).
  destruct (base_key d2 i [] HB2) as (d3 & E3 & HB3 & Hk3 & _ & Hd3 & _). rewrite (bind_eq _ _ _ _ _ E3).
  unfold bind at 1, get at 1. rewrite Hk3, (ba_seq _ _ HB3), seek_key. set (key := InternalKey target snapshot kTypeValue).
  destruct (base_key d3 i key HB3) as (d4 & E4 & HB4 & _ & _ & Hd4 & _). rewrite (bind_eq _ _ _ _ _ E4).
  destruct (it_seek (iter_ d4) i key (ba_at _ _ HB4)) as (it & m & Es & HA & Hlo & Hhi); [by apply internal_ok_key|].
  destruct (on_iter_spec _ _ _ it m i Es HA HB4) as (d5 & E5 & HB5 & Hs5). rewrite (bind_eq _ _ _ _ _ E5).
  rewrite <- fmap_take in Hlo. rewrite <- fmap_drop in Hhi. rewrite Forall_fmap in Hlo, Hhi.
  assert (Hlo' : Forall (fun x => old x -> Compare ucmp (user_key x.1) target < 0) (take m vs)).
  { rewrite Forall_lookup in Hlo |- *. intros j x Ej. apply before_target; [|by apply (Hlo j)]. apply lookup_take_Some in Ej as [Ej _]. by apply (version_at j x). }
  assert (Hhi' : Forall (fun x => 0 <= Compare ucmp (user_key x.1) target) (drop m vs)).
  { rewrite Forall_lookup in Hhi |- *. intros j x Ej. apply after_target; [|by apply (Hhi j)]. rewrite lookup_drop in Ej. by apply (version_at (m + j) x). }
  destruct (scan_from d5 m (saved_key_ d5) HB5) as (d6 & E6 & HA6); [rewrite (sa_dir _ _ Hs5); congruence|done| |].
  - intros k y Hk Ey. split; [|by intros [? _]]. intros (j & z & Hj & Ez & Hz & Hc). exfalso. rewrite Forall_lookup in Hlo', Hhi'.
    pose proof (Hlo' j z ltac:(by rewrite lookup_take_lt) Hz) as Hl. pose proof (Hhi' (k - m)%nat y ltac:(rewrite lookup_drop; by replace (m + (k - m))%nat with k by lia)) as Hg.
    destruct (version_at j z Ez) as (Oz & _), (version_at k y Ey) as (Oy & _).
    apply (cmp_eq_sym (cmp := Compare ucmp)) in Hc; [|done..]. pose proof (cmp_le_lt_trans (cmp := Compare ucmp) _ _ _ Oy Oz Ht ltac:(lia) Hl). lia.
  - exists d6, (rank_ m). split; [done|]. split; [done|]. destruct (take_rank m) as [-> ->]. split.
    + by apply (visible_after_Forall (fun u => Compare ucmp u target < 0)).
    + apply (visible_after_Forall (fun u => 0 <= Compare ucmp u target)). by apply (Forall_impl _ _ _ Hhi').
Qed.

(** ** The contract *)

Lemma DbAt_entry d n k v : DbAt d n -> vis !! n = Some (k, v) -> valid_ d = true /\ exists r x, vs !! r = Some x /\ k = user_key x.1 /\ v = x.2 /\
  (direction_ d = kForward /\ Base d r \/ direction_ d = kReverse /\ saved_key_ d = k /\ saved_value_ d = v).
Proof.
  intros [[-> _]|(Hv & r & x & Er & Hr & <- & Hcase)] E; [apply lookup_lt_Some in E; lia|]. split; [done|].
  rewrite (visible_lookup _ _ _ r x Er Hr) in E. injection E as <- <-. exists r, x. split; [done|]. split; [done|]. split; [done|].
  destruct Hcase as [?|(? & ? & ? & _)]; [by left|by right].
Qed.

#[export] Instance DBIter_laws : IteratorLaws (H := DBIter_iterator ucmp scan_fuel) D (Compare ucmp) ok vis DbAt.
Proof.
  constructor; cbn [iter_Valid iter_status iter_key iter_value iter_SeekToFirst iter_SeekToLast iter_Seek iter_Next iter_Prev DBIter_iterator].
  - intros d n [[-> _]|(_ & r & x & _ & Hr & <- & _)]; [done|]. pose proof (rank_lt _ _ _ _ Hr). lia.
  - intros d n [(-> & Hv & _)|(Hv & r & x & _ & Hr & <- & _)]; unfold DBIter_Valid; rewrite Hv.
    + by rewrite bool_decide_false by lia.
    + rewrite bool_decide_true; [done|]. by apply rank_lt.
  - intros d n [i [HA _ Hst _ _]]%DbAt_base. unfold DBIter_status. rewrite Hst. cbn [Status_ok]. by apply (it_status _ _ HA).
  - intros d n k v HA E. destruct (DbAt_entry d n k v HA E) as (Hv & r & x & Er & -> & -> & Hcase). unfold DBIter_key, bind at 1, get at 1. rewrite Hv. cbn [negb].
    destruct Hcase as [[-> HB]|(-> & Hk & _)]; [by apply (user_key_spec d r)|]. by rewrite Hk.
  - intros d n k v HA E. destruct (DbAt_entry d n k v HA E) as (Hv & r & x & Er & -> & -> & Hcase). unfold DBIter_value, bind at 1, get at 1. rewrite Hv. cbn [negb].
    destruct Hcase as [[-> HB]|(-> & _ & Hval)]; [by apply (db_value_spec d r)|]. by rewrite Hval.
  - intros d n. apply First_spec.
  - intros d n. apply Last_spec.
  - intros d n. apply DbNext_spec.
  - intros d n. apply DbPrev_spec.
  - intros d n target. apply DbSeek_spec.
Qed.

Lemma NewDBIterator_at it i seed : At it i -> DbAt (NewDBIterator it snapshot seed) (length vis).
Proof.
  intros HA. left. split; [done|]. split; [done|]. exists i. pose proof (proj2 (proj2 (Random_Next_spec seed 1 ltac:(lia)))) as Hs.
  destruct (Random_Next_spec 0 (Random_new seed) Hs) as (_ & Hr & _). unfold NewDBIterator, RandomCompactionPeriod. rewrite uniform_eq.
  pose proof (Z.mod_pos_bound (Random_Next (Random_new seed)) 2097152 ltac:(lia)). by constructor; [| | |exact Hr|cbn [bytes_until_read_sampling_]; lia].
Qed.

(** The visible entries are the newest old enough versions that are values. *)
Lemma visible_iff k v : (k, v) ∈ vis <-> exists i x, vs !! i = Some x /\ k = user_key x.1 /\ v = x.2 /\
  LvFormat.sequence x.1 <= snapshot /\ type x.1 = kTypeValue /\
  forall j y, (j < i)%nat -> vs !! j = Some y -> LvFormat.sequence y.1 <= snapshot -> cmpu y x <> 0.
Proof.
  assert (Hold : forall y, old y <-> LvFormat.sequence y.1 <= snapshot) by (intros y; apply Z.leb_le). split.
  - intros Hin. assert (Hex : exists i x, vs !! i = Some x /\ shown_ i = true /\ (k, v) = (user_key x.1, x.2)).
    { clear -Hin. revert Hin. unfold visible, shown_at.
      assert (Hg : forall l before, vs = before ++ l -> (k, v) ∈ visible_after ucmp snapshot before l -> exists i x, vs !! i = Some x /\
        match vs !! i with Some x => shown ucmp snapshot (take i vs) x | None => false end = true /\ (k, v) = (user_key x.1, x.2)).
      { induction l as [|x l IH]; intros before E Hl; [by apply elem_of_nil in Hl|]. cbn [visible_after] in Hl. apply elem_of_app in Hl as [Hl|Hl].
        - exists (length before), x. assert (Ex : vs !! length before = Some x) by by rewrite E, lookup_app_r, Nat.sub_diag by lia. rewrite Ex.
          replace (take (length before) vs) with before by by rewrite E, take_app_length.
          destruct (shown _ _ before x); [|by apply elem_of_nil in Hl]. apply list_elem_of_singleton in Hl. done.
        - apply (IH (before ++ [x])); [by rewrite E, <- app_assoc|done]. }
      by apply (Hg vs []). }
    destruct Hex as (i & x & Ex & Hs & [= -> ->]). exists i, x. apply (shown_iff i x Ex) in Hs as (Ho & Ht & Hno). split_and!; [done..|by apply Hold|done|].
    intros j y Hj Ey Hy. apply (Hno j y Hj Ey). by apply Hold.
  - intros (i & x & Ex & -> & -> & Ho & Ht & Hno). apply (list_elem_of_lookup_2 _ (rank_ i)), visible_lookup; [done|]. apply (shown_iff i x Ex).
    split; [by apply Hold|]. split; [done|]. intros j y Hj Ey Hy. apply (Hno j y Hj Ey). by apply Hold.
Qed.
End DBIter.

(** C4: reading at a snapshot: [DBIter], over an internal iterator that keeps
    the laws of iterators for a list of versions in the internal order, is an
    iterator over the visible entries: one for each user key whose newest
    version no later than the snapshot is a value, with that value. Walking
    forwards gives them in order, backwards in reverse, a seek what is not
    before the target, and it may turn round anywhere; deletions, older
    versions and later ones are passed over, and the sampling of reads never
    runs on. *)
Theorem DBIter_is_snapshot {I} {II : Iterator I} ucmp ok {UL : ComparatorLaws ucmp ok} scan_fuel snapshot vs At
    {IL : IteratorLaws I (InternalKey_Compare ucmp) (internal_ok ok) (map version_entry vs) At} it i seed target :
  seq_ok snapshot -> StronglySorted (newer (ucmp := ucmp)) vs ->
  Forall (fun x => ok (user_key x.1) /\ seq_ok (LvFormat.sequence x.1) /\ size (user_key x.1) + size x.2 < 2 ^ 61) vs ->
  (length vs < scan_fuel)%nat -> At it i -> ok target ->
  let d := NewDBIterator it snapshot seed in
  let kvs := visible ucmp snapshot vs in
  let _ := DBIter_iterator (I := I) ucmp scan_fuel in
  IteratorLaws (DBIter I) (Compare ucmp) ok kvs (DbAt (ucmp := ucmp) snapshot vs (At := At)) /\
  DbAt (ucmp := ucmp) snapshot vs (At := At) d (length kvs) /\
  (forall k v, (k, v) ∈ kvs <-> exists i x, vs !! i = Some x /\ k = user_key x.1 /\ v = x.2 /\
     LvFormat.sequence x.1 <= snapshot /\ type x.1 = kTypeValue /\
     forall j y, (j < i)%nat -> vs !! j = Some y -> LvFormat.sequence y.1 <= snapshot -> Compare ucmp (user_key y.1) (user_key x.1) <> 0) /\
  (exists d', collect (S (length kvs)) d = Ret (kvs, d')) /\
  (exists d', collect_back (S (length kvs)) d = Ret (reverse kvs, d')) /\
  exists d' d'' m, DBIter_Seek ucmp scan_fuel target d = Ret (tt, d') /\
    walk (S (length kvs)) d' = Ret (drop m kvs, d'') /\
    Forall (fun kv => Compare ucmp kv.1 target < 0) (take m kvs) /\
    Forall (fun kv => 0 <= Compare ucmp kv.1 target) (drop m kvs).
Proof.
  intros Hsnap HS Hvs Hf HA Ht d kvs.
  assert (L : IteratorLaws (H := DBIter_iterator (I := I) ucmp scan_fuel) (DBIter I) (Compare ucmp) ok kvs (DbAt (ucmp := ucmp) snapshot vs (At := At)))
    by by eapply DBIter_laws.
  assert (Hd : DbAt (ucmp := ucmp) snapshot vs (At := At) d (length kvs)) by (by eapply NewDBIterator_at). split; [done|]. split; [done|].
  split; [by eapply visible_iff|]. apply (reads_back (HI := DBIter_iterator ucmp scan_fuel) _ ok kvs _ (L := L) d (length kvs)); done.
Qed.

Definition version (k : string) (s : Z) (t : ValueType) (v : string) : Version := ({| user_key := chars k; LvFormat.sequence := s; type := t |}, chars v).
Definition sample_versions : list Version :=
  [version "a" 5 kTypeValue "new"; version "a" 3 kTypeValue "old"; version "b" 4 kTypeDeletion ""; version "b" 2 kTypeValue "x";
   version "c" 9 kTypeValue "later"; version "c" 1 kTypeValue "first"].

Lemma DBIter_is_snapshot_witness :
  let _ := AnyIter_iterator (C := unit) (InternalKeyComparator BytewiseComparator) in
  let _ := DBIter_iterator (I := AnyIter unit) BytewiseComparator 7 in
  exists data it d', build_block 1 (InternalKeyComparator BytewiseComparator) (map version_entry sample_versions) = Some data /\
    NewIterator (Block_new data) = Ret it /\
    collect 3 (NewDBIterator it 4 301) = Ret ([(chars "a", chars "old"); (chars "c", chars "first")], d').
Proof.
  assert (HS : StronglySorted (key_lt (InternalKeyComparator BytewiseComparator)) (map version_entry sample_versions)) by solve_sorted.
  assert (HK : Forall (fun kv => internal_ok is_bytes kv.1) (map version_entry sample_versions)).
  { repeat first [apply Forall_nil_2|apply Forall_cons_2]; cbn [fst version_entry]; apply internal_ok_key; cbn; solve_bytes. }
  destruct (build_block_spec 1 (InternalKeyComparator BytewiseComparator) (internal_ok is_bytes) _ ltac:(lia) HS HK ltac:(by vm_compute)) as (es & R & E & _ & _).
  destruct (NewIterator_at (C := unit) _ _ (build_is_block (InternalKeyComparator BytewiseComparator) 1 _ _ ltac:(lia) HS HK ltac:(by vm_compute) E)) as (it & En & HA & _).
  destruct (DBIter_is_snapshot (II := AnyIter_iterator (C := unit) (InternalKeyComparator BytewiseComparator)) BytewiseComparator is_bytes 7 4 sample_versions
    (AnyAt (map version_entry sample_versions)) (IL := AnyAt_laws (InternalKeyComparator BytewiseComparator) HK HS) it 6 301 (chars "b"))
    as (_ & _ & _ & (d' & C) & _).
  - split; vm_compute; discriminate.
  - repeat first [apply SSorted_nil|apply SSorted_cons|apply Forall_nil_2|apply Forall_cons_2];
      first [left; vm_compute; reflexivity|right; split; vm_compute; reflexivity].
  - repeat first [apply Forall_nil_2|apply Forall_cons_2]; (split; [cbn; solve_bytes|split; [split; vm_compute; discriminate|vm_compute; reflexivity]]).
  - vm_compute. lia.
  - exact HA.
  - solve_bytes.
  - exists (LvBlockIter.block_data es R), it, d'. split; [exact E|]. split; [exact En|]. exact C.
Defined.
