(* ===== verification/LvVersion.v ===== *)
(** The files of a version ([db/version_set.cc], [db/version_set.h]): searches in
    the list of files of a level, the files that overlap a range, lookups from
    level to level, and the level a new file goes to. *)

From stdpp Require Import base list gmap strings sorting.
From Stdlib Require Import ZArith Lia.
From S2P Require Import Prelude LvSlice LvCoding LvFormat LvVersionEdit LvIterator LvTableFormat LvOptions.

(** * Files *)

(** A [FileMetaData*]: the pointer, and what never changes behind it. The counts
    [refs] and [allowed_seeks] are where [f_ptr] points. *)
Record File : Type := { f_ptr : nat; f_number : Z; f_size : Z; f_smallest : Slice; f_largest : Slice }.

#[global] Instance File_eq_dec : EqDecision File.
Proof. solve_decision. Defined.

Definition kL0_CompactionTrigger : Z := 4.
Definition kMaxMemCompactLevel : Z := 2.

Definition TargetFileSize (o : Options) : Z := max_file_size o.
Definition MaxGrandParentOverlapBytes (o : Options) : Z := sext 64 (u64 (10 * TargetFileSize o)).
Definition ExpandedCompactionByteSizeLimit (o : Options) : Z := sext 64 (u64 (25 * TargetFileSize o)).
Definition MaxFileSizeForLevel (o : Options) (level : Z) : Z := TargetFileSize o.

Definition TotalFileSize (files : list File) : Z := fold_left (fun sum f => sext 64 (sum + f_size f)) files 0.

(** * Files of a level *)

Section Files.
Context (ucmp : Comparator).
Abbreviation icmp := (InternalKey_Compare ucmp).

Fixpoint FindFile_loop (fuel : nat) (files : list File) (key : Slice) (left right : Z) : option Z :=
  match fuel with
  | O => None
  | S fuel =>
      if left <? right then
        let mid := u32 (left + right) / 2 in
        f ← files !! Z.to_nat mid;
        if icmp (f_largest f) key <? 0 then FindFile_loop fuel files key (u32 (mid + 1)) right
        else FindFile_loop fuel files key left mid
      else Some right
  end.

Definition FindFile (files : list File) (key : Slice) : option Z :=
  FindFile_loop (S (length files)) files key 0 (u32 (Z.of_nat (length files))).

(** A null pointer to a user key is [None]. *)
Definition AfterFile (user_key : option Slice) (f : File) : bool :=
  match user_key with Some k => Compare ucmp k (ExtractUserKey (f_largest f)) >? 0 | None => false end.

Definition BeforeFile (user_key : option Slice) (f : File) : bool :=
  match user_key with Some k => Compare ucmp k (ExtractUserKey (f_smallest f)) <? 0 | None => false end.

Definition SomeFileOverlapsRange (disjoint_sorted_files : bool) (files : list File) (smallest_user_key largest_user_key : option Slice) : option bool :=
  if negb disjoint_sorted_files then
    Some (existsb (fun f => negb (AfterFile smallest_user_key f || BeforeFile largest_user_key f)) files)
  else
    index ← match smallest_user_key with
            | Some k => FindFile files (InternalKey k kMaxSequenceNumber kValueTypeForSeek)
            | None => Some 0
            end;
    if index >=? Z.of_nat (length files) then Some false
    else f ← files !! Z.to_nat index; Some (negb (BeforeFile largest_user_key f)).

(** The level's files as an iterator: [index_], with the largest key of a file,
    and its number and size. *)
Section LevelFileNumIterator.
Context (flist : list File).

Definition LFN_value (f : File) : Slice := EncodeFixed64 (f_number f) ++ EncodeFixed64 (f_size f).
Definition LFN_new : Z := u32 (Z.of_nat (length flist)).
Definition LFN_Valid (index_ : Z) : bool := index_ <? Z.of_nat (length flist).
Definition LFN_Seek (target : Slice) : M Z unit := let* i := need (FindFile flist target) in put i.
Definition LFN_SeekToFirst : M Z unit := put 0.
Definition LFN_SeekToLast : M Z unit := put (match flist with [] => 0 | _ => u32 (Z.of_nat (length flist) - 1) end).
Definition LFN_Next : M Z unit := let* i := get in if LFN_Valid i then put (u32 (i + 1)) else undef.
Definition LFN_Prev : M Z unit := let* i := get in if LFN_Valid i then put (if i =? 0 then u32 (Z.of_nat (length flist)) else u32 (i - 1)) else undef.
Definition LFN_at {A} (get_ : File -> A) : M Z A := let* i := get in let* f := need (flist !! Z.to_nat i) in ret (get_ f).

Definition LevelFileNumIterator : Iterator Z := {|
  iter_Valid := LFN_Valid;
  iter_SeekToFirst := LFN_SeekToFirst;
  iter_SeekToLast := LFN_SeekToLast;
  iter_Seek := LFN_Seek;
  iter_Next := LFN_Next;
  iter_Prev := LFN_Prev;
  iter_key := LFN_at f_largest;
  iter_value := LFN_at LFN_value;
  iter_status := fun _ => Status_OK
|}.
End LevelFileNumIterator.

(** ** The files that overlap a range *)

(** [for (size_t i = 0; i < files_[level].size();)]: [files] are the ones from [i]
    on, [all] the level's; [restart] is whether the level is 0. *)
Fixpoint overlap_loop (fuel : nat) (restart : bool) (all files inputs : list File) (user_begin user_end : option Slice) : option (list File) :=
  match fuel with
  | O => None
  | S fuel =>
      match files with
      | [] => Some inputs
      | f :: files =>
          let file_start := ExtractUserKey (f_smallest f) in
          let file_limit := ExtractUserKey (f_largest f) in
          if match user_begin with Some b => Compare ucmp file_limit b <? 0 | None => false end then
            overlap_loop fuel restart all files inputs user_begin user_end
          else if match user_end with Some e => Compare ucmp file_start e >? 0 | None => false end then
            overlap_loop fuel restart all files inputs user_begin user_end
          else if restart && match user_begin with Some b => Compare ucmp file_start b <? 0 | None => false end then
            overlap_loop fuel restart all all [] (Some file_start) user_end
          else if restart && match user_end with Some e => Compare ucmp file_limit e >? 0 | None => false end then
            overlap_loop fuel restart all all [] user_begin (Some file_limit)
          else overlap_loop fuel restart all files (inputs ++ [f]) user_begin user_end
      end
  end.

(** Each restart moves an end of the range past a file's. *)
Definition overlap_fuel (files : list File) : nat := S (S (2 * length files) * S (length files)).

(** [std::vector<FileMetaData*> files_[config::kNumLevels]]. *)
Context (files_ : list (list File)).

Definition level_files (level : Z) : option (list File) :=
  if (0 <=? level) && (level <? kNumLevels) then files_ !! Z.to_nat level else None.

(** [begin] and [end] are internal keys, or null. *)
Definition GetOverlappingInputs (level : Z) (begin_ end_ : option Slice) : option (list File) :=
  files ← level_files level;
  overlap_loop (overlap_fuel files) (level =? 0) files files [] (ExtractUserKey <$> begin_) (ExtractUserKey <$> end_).

Definition OverlapInLevel (level : Z) (smallest_user_key largest_user_key : option Slice) : option bool :=
  files ← level_files level; SomeFileOverlapsRange (level >? 0) files smallest_user_key largest_user_key.

(** ** The level of a new file *)

(** [while (level < config::kMaxMemCompactLevel)]; the rounds are at most the
    levels there are. *)
Fixpoint pick_loop (fuel : nat) (o : Options) (smallest_user_key largest_user_key : Slice) (level : Z) : option Z :=
  match fuel with
  | O => None
  | S fuel =>
      if level <? kMaxMemCompactLevel then
        overlap ← OverlapInLevel (level + 1) (Some smallest_user_key) (Some largest_user_key);
        if overlap : bool then Some level
        else if level + 2 <? kNumLevels then
          overlaps ← GetOverlappingInputs (level + 2) (Some (InternalKey smallest_user_key kMaxSequenceNumber kValueTypeForSeek))
                       (Some (InternalKey largest_user_key 0 kTypeDeletion));
          if TotalFileSize overlaps >? MaxGrandParentOverlapBytes o then Some level
          else pick_loop fuel o smallest_user_key largest_user_key (level + 1)
        else pick_loop fuel o smallest_user_key largest_user_key (level + 1)
      else Some level
  end.

Definition PickLevelForMemTableOutput (o : Options) (smallest_user_key largest_user_key : Slice) : option Z :=
  overlap ← OverlapInLevel 0 (Some smallest_user_key) (Some largest_user_key);
  if overlap : bool then Some 0 else pick_loop (S (Z.to_nat kMaxMemCompactLevel)) o smallest_user_key largest_user_key 0.
End Files.

(** * Properties *)

Section Props.
Context {ucmp : Comparator} {ok : Slice -> Prop} `{UL : !ComparatorLaws ucmp ok}.
Abbreviation icmp := (InternalKey_Compare ucmp).
Abbreviation C := (InternalKeyComparator ucmp).
Abbreviation ustart f := (ExtractUserKey (f_smallest f)).
Abbreviation ulimit f := (ExtractUserKey (f_largest f)).
Implicit Types (f g : File) (files : list File).

(** A key as the builder writes it. *)
Definition key_ok (k : Slice) : Prop := exists u s t, k = InternalKey u s t /\ ok u /\ seq_ok s.

Definition file_ok f : Prop := key_ok (f_smallest f) /\ key_ok (f_largest f) /\ icmp (f_smallest f) (f_largest f) <= 0.

(** The files of a level above 0. *)
Definition level_sorted files : Prop := StronglySorted (fun a b => icmp (f_largest a) (f_smallest b) < 0) files.

Lemma key_internal k : key_ok k -> internal_ok ok k.
Proof. intros (u & s & t & -> & Hu & _). by apply internal_ok_key. Qed.

Lemma key_user k : key_ok k -> ok (ExtractUserKey k).
Proof. intros Hk. by destruct (key_internal k Hk). Qed.

Lemma key_le_user a b : icmp a b <= 0 -> Compare ucmp (ExtractUserKey a) (ExtractUserKey b) <= 0.
Proof. apply (internal_le_user (ucmp := ucmp)). Qed.

Lemma icmp_le_trans a b c : key_ok a -> key_ok b -> key_ok c -> icmp a b <= 0 -> icmp b c <= 0 -> icmp a c <= 0.
Proof. intros Ha%key_internal Hb%key_internal Hc%key_internal. by apply (cmp_le_trans (cmp := Compare C)). Qed.

Lemma icmp_lt_le_trans a b c : key_ok a -> key_ok b -> key_ok c -> icmp a b < 0 -> icmp b c <= 0 -> icmp a c < 0.
Proof. intros Ha%key_internal Hb%key_internal Hc%key_internal. by apply (cmp_lt_le_trans (cmp := Compare C)). Qed.

(** The first internal key of a user key. *)
Lemma first_key_before u k : key_ok k -> ok u -> icmp k (InternalKey u kMaxSequenceNumber kValueTypeForSeek) < 0 <-> Compare ucmp (ExtractUserKey k) u < 0.
Proof.
  intros (v & s & t & -> & Hv & Hs) Hu. change icmp with (Compare C). rewrite internal_key_compare, InternalKey_user; [|done|by split; vm_compute].
  destruct (Z.eqb_spec (Compare ucmp v u) 0) as [E|]; [|done]. unfold seq_ok in Hs. change (ValueType_val kValueTypeForSeek) with 1.
  destruct t; cbn [ValueType_val]; lia.
Qed.

Lemma level_sorted_largest files : Forall file_ok files -> level_sorted files -> StronglySorted (fun a b => icmp (f_largest a) (f_largest b) < 0) files.
Proof.
  induction 1 as [|f files Hf Hfs IH]; intros HS; [constructor|]. apply StronglySorted_inv in HS as [HS HF]. constructor; [by apply IH|].
  rewrite Forall_forall in Hfs, HF |- *. intros g Hg. destruct (Hfs g Hg) as (H1 & H2 & H3), Hf as (_ & Hf & _).
  by apply (icmp_lt_le_trans _ (f_smallest g)); [..|apply HF|].
Qed.

(** ** The binary search *)

Section FindFile.
Context (files : list File) (key : Slice) (Hkey : internal_ok ok key) (Hok : Forall file_ok files).
Context (Hsorted : StronglySorted (fun a b => icmp (f_largest a) (f_largest b) < 0) files) (Hlen : Z.of_nat (length files) < 2 ^ 31).

Definition found_at (m : nat) : Prop :=
  (m <= length files)%nat /\ Forall (fun f => icmp (f_largest f) key < 0) (take m files) /\ Forall (fun f => 0 <= icmp (f_largest f) key) (drop m files).

(** The files up to one that is before the key are before it. *)
Lemma before_prefix i f : files !! i = Some f -> icmp (f_largest f) key < 0 -> Forall (fun f => icmp (f_largest f) key < 0) (take (S i) files).
Proof.
  intros Ef Hlt. rewrite (take_S_r _ _ _ Ef). apply Forall_app. split; [|by constructor]. rewrite Forall_forall. intros g Hg.
  rewrite Forall_forall in Hok. assert (Hg' : g ∈ files) by (apply list_elem_of_lookup in Hg as [j Hj]; apply lookup_take_Some in Hj as [Hj _]; by apply (list_elem_of_lookup_2 _ _ _ Hj)).
  pose proof Hsorted as HS. rewrite <- (take_drop_middle _ _ _ Ef) in HS.
  apply (cmp_lt_trans (cmp := Compare C) (ok := internal_ok ok) _ (f_largest f)); [..|done].
  - by apply key_internal, (Hok g).
  - apply key_internal, (Hok f). by apply (list_elem_of_lookup_2 _ i).
  - done.
  - change (icmp (f_largest g) (f_largest f) < 0). apply (StronglySorted_app_1_elem_of (fun a b => icmp (f_largest a) (f_largest b) < 0) _ _ g f HS); [done|by left].
Qed.

Lemma after_suffix i f : files !! i = Some f -> 0 <= icmp (f_largest f) key -> Forall (fun f => 0 <= icmp (f_largest f) key) (drop i files).
Proof.
  intros Ef Hge. rewrite (drop_S _ _ _ Ef). constructor; [done|]. rewrite Forall_forall. intros g Hg.
  rewrite Forall_forall in Hok. pose proof Hsorted as HS. rewrite <- (take_drop_middle _ _ _ Ef) in HS. apply StronglySorted_app_1_r, StronglySorted_inv in HS as [_ HF].
  rewrite Forall_forall in HF. pose proof (HF g Hg) as Hfg. apply Z.le_ngt. intros Hlt.
  assert (Hg' : g ∈ files) by (apply list_elem_of_lookup in Hg as [j Hj]; rewrite lookup_drop in Hj; by apply (list_elem_of_lookup_2 _ _ _ Hj)).
  pose proof (cmp_lt_trans (cmp := Compare C) (ok := internal_ok ok) (f_largest f) (f_largest g) key) as HT.
  assert (icmp (f_largest f) key < 0); [|lia]. apply HT; [|by apply key_internal, (Hok g)|done..].
  apply key_internal, (Hok f). by apply (list_elem_of_lookup_2 _ i).
Qed.

Lemma FindFile_loop_spec fuel : forall left right, (left <= right <= length files)%nat -> (right - left < fuel)%nat ->
  Forall (fun f => icmp (f_largest f) key < 0) (take left files) -> Forall (fun f => 0 <= icmp (f_largest f) key) (drop right files) ->
  exists m, FindFile_loop ucmp fuel files key (Z.of_nat left) (Z.of_nat right) = Some (Z.of_nat m) /\ found_at m.
Proof.
  induction fuel as [|fuel IH]; intros left right Hlr Hf Hlo Hhi; [lia|]. cbn [FindFile_loop]. destruct (Z.ltb_spec (Z.of_nat left) (Z.of_nat right)) as [Hlt|Hge].
  - rewrite (wrap_small 32 (Z.of_nat left + Z.of_nat right)) by lia. set (m := ((left + right) / 2)%nat). assert (Em : (Z.of_nat left + Z.of_nat right) / 2 = Z.of_nat m) by (unfold m; rewrite Nat2Z.inj_div; f_equal; lia).
    assert (Hm : (left <= m < right)%nat) by (pose proof (Z.div_le_lower_bound (Z.of_nat left + Z.of_nat right) 2 (Z.of_nat left)); pose proof (Z.div_lt_upper_bound (Z.of_nat left + Z.of_nat right) 2 (Z.of_nat right)); lia). rewrite Em, Nat2Z.id. clearbody m.
    destruct (lookup_lt_is_Some_2 files m ltac:(lia)) as [f Ef]. rewrite Ef. cbn [mbind option_bind]. destruct (Z.ltb_spec (icmp (f_largest f) key) 0) as [Hl|Hg].
    + rewrite wrap_small by lia. replace (Z.of_nat m + 1) with (Z.of_nat (S m)) by lia. apply IH; [lia|lia| |done]. by apply (before_prefix m f).
    + apply IH; [lia|lia|done|]. by apply (after_suffix m f).
  - exists left. assert (right = left) as -> by lia. split; [done|]. split; [lia|done].
Qed.

Lemma FindFile_spec : exists m, FindFile ucmp files key = Some (Z.of_nat m) /\ found_at m.
Proof.
  unfold FindFile. rewrite wrap_small by lia. apply (FindFile_loop_spec _ 0 (length files)); [lia|lia|constructor|by rewrite drop_ge].
Qed.
End FindFile.

(** ** Overlap with a range *)

Definition overlaps (small large : option Slice) f : bool := negb (AfterFile ucmp small f || BeforeFile ucmp large f).

Definition user_ok (k : option Slice) : Prop := match k with Some u => ok u | None => True end.

Lemma file_start_limit f : file_ok f -> ok (ustart f) /\ ok (ulimit f) /\ Compare ucmp (ustart f) (ulimit f) <= 0.
Proof. intros (H1 & H2 & H3). split; [by apply key_user|]. split; [by apply key_user|by apply key_le_user]. Qed.

(** Later files of a level start later. *)
Lemma level_sorted_start f files : Forall file_ok (f :: files) -> level_sorted (f :: files) -> Forall (fun g => Compare ucmp (ustart f) (ustart g) <= 0) files.
Proof.
  intros [Hf Hfs]%Forall_cons [_ HF]%StronglySorted_inv. rewrite Forall_forall in Hfs, HF |- *. intros g Hg.
  destruct Hf as (H1 & H2 & H3), (Hfs g Hg) as (G1 & _ & _). apply key_le_user, (icmp_le_trans _ (f_largest f)); [done..|]. apply Z.lt_le_incl, HF, Hg.
Qed.

Lemma before_later large f g : user_ok large -> file_ok f -> file_ok g -> Compare ucmp (ustart f) (ustart g) <= 0 ->
  BeforeFile ucmp large f = true -> BeforeFile ucmp large g = true.
Proof.
  intros Hl (Of & _)%file_start_limit (Og & _)%file_start_limit Hfg. destruct large as [u|]; cbn [BeforeFile]; [|done].
  intros Hu%Z.ltb_lt. apply Z.ltb_lt. by apply (cmp_lt_le_trans (cmp := Compare ucmp) _ (ustart f)).
Qed.

(** The binary search for the start of a range: the files before are before it. *)
Lemma start_search files small : Forall file_ok files -> level_sorted files -> Z.of_nat (length files) < 2 ^ 31 -> user_ok small ->
  exists m, (match small with Some k => FindFile ucmp files (InternalKey k kMaxSequenceNumber kValueTypeForSeek) | None => Some 0 end) = Some (Z.of_nat m) /\
    (m <= length files)%nat /\ Forall (fun f => AfterFile ucmp small f = true) (take m files) /\ Forall (fun f => AfterFile ucmp small f = false) (drop m files).
Proof.
  intros Hok HS Hlen Hs. destruct small as [u|].
  - destruct (FindFile_spec files (InternalKey u kMaxSequenceNumber kValueTypeForSeek)) as (m & E & Hm & Hlo & Hhi);
      [by apply internal_ok_key|done|by apply level_sorted_largest|done|].
    exists m. split; [done|]. split; [done|]. rewrite Forall_forall in Hok.
    assert (Hin : forall f, f ∈ take m files \/ f ∈ drop m files -> ok (ulimit f) /\ key_ok (f_largest f)).
    { intros f Hf. assert (Hf' : f ∈ files) by (rewrite <- (take_drop m files); by apply elem_of_app). destruct (Hok f Hf') as (_ & Hl & _).
      split; [by apply key_user|done]. }
    rewrite Forall_forall in Hlo, Hhi. rewrite !Forall_forall. split; intros f Hf; cbn [AfterFile].
    + destruct (Hin f (or_introl Hf)) as [Ol Kl]. specialize (Hlo f Hf). apply first_key_before in Hlo; [|done..].
      pose proof (cmp_flip (cmp := Compare ucmp) u (ulimit f) Hs Ol). destruct (Z.gtb_spec (Compare ucmp u (ulimit f)) 0); [done|lia].
    + destruct (Hin f (or_intror Hf)) as [Ol Kl]. specialize (Hhi f Hf). apply Z.ge_le_iff, Z.ge_le, Z.le_ngt in Hhi. rewrite first_key_before in Hhi by done.
      pose proof (cmp_flip (cmp := Compare ucmp) u (ulimit f) Hs Ol). destruct (Z.gtb_spec (Compare ucmp u (ulimit f)) 0); [lia|done].
  - exists O. split; [done|]. split; [lia|]. split; [constructor|]. by apply Forall_forall.
Qed.

Lemma SomeFileOverlaps_spec disjoint files small large : user_ok small -> user_ok large ->
  (disjoint = true -> Forall file_ok files /\ level_sorted files /\ Z.of_nat (length files) < 2 ^ 31) ->
  SomeFileOverlapsRange ucmp disjoint files small large = Some (existsb (overlaps small large) files).
Proof.
  intros Hs Hl Hd. unfold SomeFileOverlapsRange. destruct disjoint; [|done]. cbn [negb]. destruct (Hd eq_refl) as (Hok & HS & Hlen).
  destruct (start_search files small Hok HS Hlen Hs) as (m & -> & Hm & Hlo & Hhi). cbn [mbind option_bind].
  rewrite <- (take_drop m files) at 3. rewrite existsb_app.
  assert (E0 : existsb (overlaps small large) (take m files) = false).
  { apply not_true_iff_false. intros (f & Hf%list_elem_of_In & Hb)%existsb_exists. rewrite Forall_forall in Hlo. unfold overlaps in Hb. by rewrite (Hlo f Hf) in Hb. }
  rewrite E0. cbn [orb]. destruct (Z.geb_spec (Z.of_nat m) (Z.of_nat (length files))).
  - rewrite drop_ge by lia. done.
  - rewrite Nat2Z.id. destruct (lookup_lt_is_Some_2 files m ltac:(lia)) as [f Ef]. rewrite Ef. cbn [mbind option_bind]. f_equal.
    pose proof Hok as Hok'. rewrite <- (take_drop_middle _ _ _ Ef) in HS, Hok'. apply StronglySorted_app_1_r in HS. apply Forall_app in Hok' as [_ Hok'].
    pose proof (level_sorted_start f _ Hok' HS) as Hstart. apply Forall_cons in Hok' as [Of Ofs].
    rewrite (drop_S _ _ _ Ef) in Hhi |- *. apply Forall_cons in Hhi as [Haf Hhi]. cbn [existsb]. unfold overlaps at 1. rewrite Haf. cbn [orb].
    destruct (BeforeFile ucmp large f) eqn:EB; [|done]. cbn [negb orb]. symmetry. apply not_true_iff_false.
    intros (g & Hg%list_elem_of_In & Hb)%existsb_exists. rewrite Forall_forall in Hhi, Hstart, Ofs. unfold overlaps in Hb.
    by rewrite (Hhi g Hg), (before_later large f g Hl Of (Ofs g Hg) (Hstart g Hg) EB) in Hb.
Qed.

(** ** The iterator over the files *)

Definition file_entry f : Slice * Slice := (f_largest f, LFN_value f).

Definition LFN_At files (it : Z) (i : nat) : Prop := it = Z.of_nat i /\ (i <= length files)%nat.

#[export] Instance LevelFileNum_laws files (Hok : Forall file_ok files) (HS : level_sorted files) (Hlen : Z.of_nat (length files) < 2 ^ 31) :
  IteratorLaws (H := LevelFileNumIterator ucmp files) Z icmp (internal_ok ok) (map file_entry files) (LFN_At files).
Proof.
  assert (El : length (map file_entry files) = length files) by apply length_map.
  assert (Ek : forall i k v, map file_entry files !! i = Some (k, v) -> exists f, files !! i = Some f /\ k = f_largest f /\ v = LFN_value f).
  { intros i k v E. change (map file_entry files) with (file_entry <$> files) in E. rewrite list_lookup_fmap in E.
    destruct (files !! i) as [f|]; [|done]. injection E as <- <-. by exists f. }
  constructor; rewrite ?El; cbn [iter_Valid iter_status iter_key iter_value iter_SeekToFirst iter_SeekToLast iter_Seek iter_Next iter_Prev LevelFileNumIterator].
  - by intros it i [_ ?].
  - intros it i [-> _]. unfold LFN_Valid. destruct (Z.ltb_spec (Z.of_nat i) (Z.of_nat (length files))); [rewrite bool_decide_true by lia|rewrite bool_decide_false by lia]; done.
  - done.
  - intros it i k v [-> _] E. destruct (Ek i k v E) as (f & Ef & -> & _). unfold LFN_at, bind, get, need. by rewrite Nat2Z.id, Ef.
  - intros it i k v [-> _] E. destruct (Ek i k v E) as (f & Ef & _ & ->). unfold LFN_at, bind, get, need. by rewrite Nat2Z.id, Ef.
  - intros it i _. exists 0. split; [done|]. split; [done|lia].
  - intros it i _. unfold LFN_SeekToLast, put. eexists. split; [reflexivity|]. destruct files as [|f l]; [by split|].
    cbn [length] in Hlen |- *. rewrite wrap_small by lia. split; cbn [length]; lia.
  - intros it i [-> _] Hi. unfold LFN_Next, bind, get, put, LFN_Valid. destruct (Z.ltb_spec (Z.of_nat i) (Z.of_nat (length files))); [|lia].
    rewrite wrap_small by lia. eexists. split; [reflexivity|]. split; lia.
  - intros it i [-> _] Hi. unfold LFN_Prev, bind, get, put, LFN_Valid. destruct (Z.ltb_spec (Z.of_nat i) (Z.of_nat (length files))); [|lia].
    eexists. split; [reflexivity|]. destruct i as [|i]; [cbn [Z.of_nat Z.eqb]; rewrite wrap_small by lia; by split|].
    destruct (Z.eqb_spec (Z.of_nat (S i)) 0); [lia|]. rewrite wrap_small by lia. split; lia.
  - intros it i target _ Ht. unfold LFN_Seek. destruct (FindFile_spec files target Ht Hok (level_sorted_largest files Hok HS) Hlen) as (m & E & Hm & Hlo & Hhi).
    rewrite E. exists (Z.of_nat m), m. split; [done|]. split; [by split|]. rewrite <- fmap_take, <- fmap_drop, !Forall_fmap. done.
Qed.

(** ** The files that overlap a range *)

Abbreviation le a b := (Compare ucmp a b <= 0).

Definition ahead (b : option Slice) f : bool := match b with Some u => Compare ucmp (ulimit f) u <? 0 | None => false end.
Definition behind (e : option Slice) f : bool := match e with Some v => Compare ucmp (ustart f) v >? 0 | None => false end.
Definition inside (b e : option Slice) f : bool := negb (ahead b f) && negb (behind e f).

(** The range of [f] reaches out of this one. *)
Definition wider_begin (b : option Slice) f : bool := match b with Some u => Compare ucmp (ustart f) u <? 0 | None => false end.
Definition wider_end (e : option Slice) f : bool := match e with Some v => Compare ucmp (ulimit f) v >? 0 | None => false end.

(** Two files have user keys in common ranges. *)
Definition touches f g : Prop := le (ustart f) (ulimit g) /\ le (ustart g) (ulimit f).

(** The files that overlap the range, or a file that is connected with it. *)
Inductive connected (files : list File) (b e : option Slice) : File -> Prop :=
| connected_range f : f ∈ files -> inside b e f = true -> connected files b e f
| connected_file f g : connected files b e g -> f ∈ files -> touches f g -> connected files b e f.

Lemma not_lt_le a b : ok a -> ok b -> (Compare ucmp a b <? 0) = false <-> le b a.
Proof. intros Ha Hb. pose proof (cmp_flip (cmp := Compare ucmp) a b Ha Hb). destruct (Z.ltb_spec (Compare ucmp a b) 0); split; intros; try done; lia. Qed.

Lemma gt_lt a b : ok a -> ok b -> (Compare ucmp a b >? 0) = true <-> Compare ucmp b a < 0.
Proof. intros Ha Hb. rewrite <- (cmp_gt_lt (cmp := Compare ucmp) a b) by done. rewrite Z.gtb_gt. lia. Qed.

Lemma not_gt_le a b : (Compare ucmp a b >? 0) = false <-> le a b.
Proof. destruct (Z.gtb_spec (Compare ucmp a b) 0); split; intros; try done; lia. Qed.

Lemma inside_iff b e f : user_ok b -> file_ok f ->
  inside b e f = true <-> (forall u, b = Some u -> le u (ulimit f)) /\ (forall v, e = Some v -> le (ustart f) v).
Proof.
  intros Hb (Os & Ol & _)%file_start_limit. unfold inside. rewrite andb_true_iff, !negb_true_iff.
  assert (Hand : forall A B A' B' : Prop, (A <-> A') -> (B <-> B') -> (A /\ B <-> A' /\ B')) by tauto. apply Hand.
  - destruct b as [u|]; cbn [ahead]; [|by split]. rewrite not_lt_le by done. split; [by intros H ? [= <-]|intros H; by apply H].
  - destruct e as [v|]; cbn [behind]; [|by split]. rewrite not_gt_le. split; [by intros H ? [= <-]|intros H; by apply H].
Qed.

(** What the wider range contains is connected with the range. *)
Lemma widen_begin files b0 e0 b e f : user_ok b -> Forall file_ok files -> (forall g, g ∈ files -> inside b e g = true -> connected files b0 e0 g) ->
  f ∈ files -> inside b e f = true -> wider_begin b f = true -> forall g, g ∈ files -> inside (Some (ustart f)) e g = true -> connected files b0 e0 g.
Proof.
  intros Ob Hok HC Hf Hin Hw g Hg Hg'. pose proof (HC f Hf Hin) as Hcf. rewrite Forall_forall in Hok.
  pose proof (file_start_limit f (Hok f Hf)) as (Os & Ol & _). pose proof (file_start_limit g (Hok g Hg)) as (Gs & Gl & Gle).
  destruct (inside b e g) eqn:E; [by apply HC|]. destruct b as [u|]; [|done]. cbn [user_ok wider_begin] in *. apply Z.ltb_lt in Hw.
  apply (inside_iff (Some u) e f) in Hin as [Hfu _]; [|done|by apply Hok]. apply (inside_iff _ e g) in Hg' as [H1 H2]; [|done|by apply Hok].
  assert (Hgu : Compare ucmp (ulimit g) u < 0).
  { apply Z.lt_nge. intros Hge. apply not_true_iff_false in E. apply E, inside_iff; [done|by apply Hok|].
    split; [|done]. intros ? [= <-]. apply not_lt_le; [done..|]. by apply Z.ltb_ge. }
  apply (connected_file _ _ _ g f); [done|done|split].
  - apply (cmp_le_trans _ (ulimit g)); [done..|]. apply Z.lt_le_incl, (cmp_lt_le_trans (cmp := Compare ucmp) _ u); [done..|]. by apply Hfu.
  - by apply H1.
Qed.

Lemma widen_end files b0 e0 b e f : user_ok b -> user_ok e -> Forall file_ok files -> (forall g, g ∈ files -> inside b e g = true -> connected files b0 e0 g) ->
  f ∈ files -> inside b e f = true -> wider_end e f = true -> forall g, g ∈ files -> inside b (Some (ulimit f)) g = true -> connected files b0 e0 g.
Proof.
  intros Ob Oe Hok HC Hf Hin Hw g Hg Hg'. pose proof (HC f Hf Hin) as Hcf. rewrite Forall_forall in Hok.
  pose proof (file_start_limit f (Hok f Hf)) as (Os & Ol & _). pose proof (file_start_limit g (Hok g Hg)) as (Gs & Gl & Gle).
  destruct (inside b e g) eqn:E; [by apply HC|]. destruct e as [v|]; [|done]. cbn [user_ok wider_end] in *. apply gt_lt in Hw; [|done..].
  apply (inside_iff b (Some v) f) in Hin as [_ Hfv]; [|done|by apply Hok]. apply (inside_iff b _ g) in Hg' as [H1 H2]; [|done|by apply Hok].
  assert (Hgv : Compare ucmp v (ustart g) < 0).
  { apply gt_lt; [done..|]. apply not_false_iff_true. intros Hle. apply not_true_iff_false in E. apply E, inside_iff; [done|by apply Hok|].
    split; [done|]. intros ? [= <-]. by apply not_gt_le. }
  apply (connected_file _ _ _ g f); [done|done|split].
  - by apply H2.
  - apply (cmp_le_trans _ v); [done..| |]; [by apply Hfv|]. apply Z.lt_le_incl, (cmp_lt_le_trans (cmp := Compare ucmp) _ (ustart g)); done.
Qed.

Section Overlap.
Context (all : list File) (Hok : Forall file_ok all) (b0 e0 : option Slice).

Lemma filter_shorter (p q : File -> bool) l x : (forall y, y ∈ l -> p y = true -> q y = true) -> x ∈ l -> q x = true -> p x = false ->
  (length (List.filter p l) < length (List.filter q l))%nat.
Proof.
  intros Hpq Hx Hq Hp. assert (Hle : forall l', (forall y, y ∈ l' -> y ∈ l) -> (length (List.filter p l') <= length (List.filter q l'))%nat).
  { induction l' as [|y l' IH]; intros Hin; cbn [List.filter]; [lia|]. assert (IH' : forall z, z ∈ l' -> z ∈ l) by (intros z Hz; apply Hin; by right).
    specialize (IH IH'). destruct (p y) eqn:E; [rewrite (Hpq y (Hin y ltac:(by left)) E); cbn [length]; lia|]. destruct (q y); cbn [length]; lia. }
  apply list_elem_of_split in Hx as (l1 & l2 & ->). rewrite !List.filter_app. cbn [List.filter]. rewrite Hp, Hq, !length_app. cbn [length].
  pose proof (Hle l1 ltac:(intros y Hy; rewrite elem_of_app; by left)). pose proof (Hle l2 ltac:(intros y Hy; rewrite elem_of_app, elem_of_cons; auto)). lia.
Qed.

(** How many files reach out of the range: each restart makes them fewer. *)
Definition excess (b e : option Slice) : nat := (length (List.filter (wider_begin b) all) + length (List.filter (wider_end e) all))%nat.

Lemma excess_bound b e : (excess b e <= 2 * length all)%nat.
Proof.
  unfold excess. assert (Hle : forall (p : File -> bool) l, (length (List.filter p l) <= length l)%nat).
  { intros p l. induction l as [|y l IH]; cbn [List.filter length]; [lia|]. destruct (p y); cbn [length]; lia. }
  pose proof (Hle (wider_begin b) all). pose proof (Hle (wider_end e) all). lia.
Qed.

Lemma excess_begin b e f : user_ok b -> f ∈ all -> wider_begin b f = true -> (excess (Some (ustart f)) e < excess b e)%nat.
Proof.
  intros Ob Hf Hw. unfold excess. apply Nat.add_lt_le_mono; [|lia]. pose proof Hok as Hok'. rewrite Forall_forall in Hok'.
  destruct (file_start_limit f (Hok' f Hf)) as (Of & _). apply (filter_shorter _ _ all f); [|done|done|].
  - intros y Hy. destruct (file_start_limit y (Hok' y Hy)) as (Oy & _). destruct b as [u|]; [|done]. cbn [wider_begin user_ok] in *. intros Hy1%Z.ltb_lt.
    apply Z.ltb_lt in Hw. apply Z.ltb_lt. by apply (cmp_lt_trans (cmp := Compare ucmp) _ (ustart f)).
  - cbn [wider_begin]. by rewrite (cmp_refl (cmp := Compare ucmp)).
Qed.

Lemma excess_end b e f : user_ok e -> f ∈ all -> wider_end e f = true -> (excess b (Some (ulimit f)) < excess b e)%nat.
Proof.
  intros Oe Hf Hw. unfold excess. apply Nat.add_le_lt_mono; [lia|]. pose proof Hok as Hok'. rewrite Forall_forall in Hok'.
  destruct (file_start_limit f (Hok' f Hf)) as (_ & Of & _). apply (filter_shorter _ _ all f); [|done|done|].
  - intros y Hy. destruct (file_start_limit y (Hok' y Hy)) as (_ & Oy & _). destruct e as [u|]; [|done]. cbn [wider_end user_ok] in *.
    rewrite !gt_lt by done. rewrite gt_lt in Hw by done. intros Hy1. by apply (cmp_lt_trans (cmp := Compare ucmp) _ (ulimit f)).
  - cbn [wider_end]. by rewrite (cmp_refl (cmp := Compare ucmp)).
Qed.

(** What holds of the range the loop works with. *)
Record Range (b e : option Slice) : Prop := {
  rg_begin : user_ok b;
  rg_end : user_ok e;
  rg_connected g : g ∈ all -> inside b e g = true -> connected all b0 e0 g;
  rg_covers g : g ∈ all -> inside b0 e0 g = true -> inside b e g = true
}.

Lemma range_begin b e f : Range b e -> f ∈ all -> inside b e f = true -> wider_begin b f = true -> Range (Some (ustart f)) e.
Proof.
  intros [Ob Oe HC Hcov] Hf Hin Hw. pose proof Hok as Hok'. rewrite Forall_forall in Hok'. destruct (file_start_limit f (Hok' f Hf)) as (Of & _). constructor; [done|done| |].
  - intros g Hg. by apply (widen_begin all b0 e0 b e f).
  - intros g Hg H0. specialize (Hcov g Hg H0). destruct (file_start_limit g (Hok' g Hg)) as (_ & Og & _). apply inside_iff in Hcov as [H1 H2]; [|done|by apply Hok'].
    apply inside_iff; [done|by apply Hok'|]. split; [|done]. intros ? [= <-]. destruct b as [u|]; [|done]. cbn [wider_begin user_ok] in *. apply Z.ltb_lt in Hw.
    apply (cmp_le_trans _ u); [done..|lia|]. by apply H1.
Qed.

Lemma range_end b e f : Range b e -> f ∈ all -> inside b e f = true -> wider_end e f = true -> Range b (Some (ulimit f)).
Proof.
  intros [Ob Oe HC Hcov] Hf Hin Hw. pose proof Hok as Hok'. rewrite Forall_forall in Hok'. destruct (file_start_limit f (Hok' f Hf)) as (_ & Of & _). constructor; [done|done| |].
  - intros g Hg. by apply (widen_end all b0 e0 b e f).
  - intros g Hg H0. specialize (Hcov g Hg H0). destruct (file_start_limit g (Hok' g Hg)) as (Og & _). apply inside_iff in Hcov as [H1 H2]; [|done|by apply Hok'].
    apply inside_iff; [done|by apply Hok'|]. split; [done|]. intros ? [= <-]. destruct e as [v|]; [|done]. cbn [wider_end user_ok] in *. apply gt_lt in Hw; [|done..].
    apply (cmp_le_trans _ v); [done..|by apply H2|lia].
Qed.

Definition settled (b e : option Slice) g : Prop := inside b e g = true -> wider_begin b g = false /\ wider_end e g = false.

(** The loop with restarts. *)
Lemma overlap_restart fuel : forall b e pre files, all = pre ++ files -> Range b e -> Forall (settled b e) pre ->
  (excess b e * S (length all) + length files < fuel)%nat ->
  exists b' e', overlap_loop ucmp fuel true all files (List.filter (inside b e) pre) b e = Some (List.filter (inside b' e') all) /\ Range b' e' /\ Forall (settled b' e') all.
Proof.
  induction fuel as [|fuel IH]; intros b e pre files Eall HR Hs Hf; [lia|]. cbn [overlap_loop]. destruct files as [|f files].
  { exists b, e. rewrite app_nil_r in Eall. by rewrite Eall. }
  assert (Hfin : f ∈ all) by (rewrite Eall; apply elem_of_app; right; by left). cbn [length] in Hf.
  assert (Eskip : inside b e f = false -> exists b' e', overlap_loop ucmp fuel true all files (List.filter (inside b e) pre) b e = Some (List.filter (inside b' e') all) /\ Range b' e' /\ Forall (settled b' e') all).
  { intros E. destruct (IH b e (pre ++ [f]) files) as (b' & e' & El & H); [by rewrite <- app_assoc|done| |lia|].
    - apply Forall_app. split; [done|]. constructor; [|done]. intros E'. congruence.
    - exists b', e'. rewrite List.filter_app in El. cbn [List.filter] in El. by rewrite E, app_nil_r in El. }
  fold (ahead b f) (behind e f) (wider_begin b f) (wider_end e f). destruct (ahead b f) eqn:Ea; [apply Eskip; unfold inside; by rewrite Ea|].
  destruct (behind e f) eqn:Eb; [apply Eskip; unfold inside; by rewrite Ea, Eb|]. assert (Hin : inside b e f = true) by (unfold inside; by rewrite Ea, Eb).
  destruct (wider_begin b f) eqn:Ewb; cbn [andb].
  { apply (IH _ _ [] all); [done|by apply (range_begin b e f)|constructor|]. pose proof (excess_begin b e f (rg_begin _ _ HR) Hfin Ewb). nia. }
  destruct (wider_end e f) eqn:Ewe; cbn [andb].
  { apply (IH _ _ [] all); [done|by apply (range_end b e f)|constructor|]. pose proof (excess_end b e f (rg_end _ _ HR) Hfin Ewe). nia. }
  destruct (IH b e (pre ++ [f]) files) as (b' & e' & El & H); [by rewrite <- app_assoc|done| |lia|].
  - apply Forall_app. split; [done|]. by constructor.
  - exists b', e'. rewrite List.filter_app in El. cbn [List.filter] in El. by rewrite Hin in El.
Qed.

(** The loop without. *)
Lemma overlap_plain fuel b e : forall pre files, all = pre ++ files -> (length files < fuel)%nat ->
  overlap_loop ucmp fuel false all files (List.filter (inside b e) pre) b e = Some (List.filter (inside b e) all).
Proof.
  clear Hok b0 e0. induction fuel as [|fuel IH]; intros pre files Eall Hf; [lia|]. cbn [overlap_loop]. destruct files as [|f files]; [rewrite app_nil_r in Eall; by rewrite Eall|].
  cbn [length] in Hf. specialize (IH (pre ++ [f]) files). rewrite List.filter_app in IH. cbn [List.filter] in IH. rewrite <- app_assoc in IH. specialize (IH Eall ltac:(lia)).
  fold (ahead b f) (behind e f). unfold inside in IH at 2. destruct (ahead b f); cbn [andb negb] in *; [by rewrite app_nil_r in IH|].
  destruct (behind e f); cbn [andb negb] in *; [by rewrite app_nil_r in IH|]. done.
Qed.

(** A settled range that covers the first one is all that is connected with it. *)
Lemma settled_connected b e : Range b e -> Forall (settled b e) all -> forall f, f ∈ List.filter (inside b e) all <-> connected all b0 e0 f.
Proof.
  intros [Ob Oe HC Hcov] Hs f. rewrite list_elem_of_In, List.filter_In, <- list_elem_of_In. split; [intros [Hf Hi]; by apply HC|].
  pose proof Hok as Hok'. rewrite Forall_forall in Hok', Hs. induction 1 as [f Hf Hi|f g _ [Hg Hi] Hf [H1 H2]]; [split; [done|by apply Hcov]|]. split; [done|].
  destruct (Hs g Hg Hi) as [Hb He]. destruct (file_start_limit f (Hok' f Hf)) as (Os & Ol & _), (file_start_limit g (Hok' g Hg)) as (Gs & Gl & _).
  apply inside_iff; [done|by apply Hok'|]. split.
  - intros u ->. cbn [wider_begin user_ok] in *. rewrite not_lt_le in Hb by done. by apply (cmp_le_trans _ (ustart g)).
  - intros v ->. cbn [wider_end user_ok] in *. rewrite not_gt_le in He. by apply (cmp_le_trans _ (ulimit g)).
Qed.
End Overlap.

(** Above level 0 the overlapping files; in level 0 all that are connected. *)
Lemma GetOverlappingInputs_eq (files_ : list (list File)) level begin_ end_ all : level_files files_ level = Some all -> Forall file_ok all ->
  user_ok (ExtractUserKey <$> begin_) -> user_ok (ExtractUserKey <$> end_) ->
  exists b e, GetOverlappingInputs ucmp files_ level begin_ end_ = Some (List.filter (inside b e) all) /\
    if level =? 0 then forall f, f ∈ List.filter (inside b e) all <-> connected all (ExtractUserKey <$> begin_) (ExtractUserKey <$> end_) f
    else b = ExtractUserKey <$> begin_ /\ e = ExtractUserKey <$> end_.
Proof.
  intros El Hok Hb He. unfold GetOverlappingInputs. rewrite El. cbn [mbind option_bind]. set (b0 := ExtractUserKey <$> begin_) in *. set (e0 := ExtractUserKey <$> end_) in *.
  destruct (level =? 0).
  - destruct (overlap_restart all Hok b0 e0 (overlap_fuel all) b0 e0 [] all) as (b & e & E & HR & Hs); [done| |constructor| |].
    + constructor; [done|done| |done]. intros g Hg Hi. by apply connected_range.
    + pose proof (excess_bound all b0 e0). unfold overlap_fuel. nia.
    + exists b, e. split; [done|]. by apply settled_connected.
  - exists b0, e0. split; [|done]. apply (overlap_plain all (overlap_fuel all) b0 e0 [] all); [done|]. unfold overlap_fuel. nia.
Qed.

Lemma filter_in_order (p : File -> bool) l : sublist (List.filter p l) l.
Proof. induction l as [|x l IH]; cbn [List.filter]; [constructor|]. destruct (p x); by constructor. Qed.

(** ** The level of a new file *)

(** Levels of files as the searches need them. *)
Definition levels_wf (files_ : list (list File)) : Prop :=
  length files_ = 7%nat /\ forall i all, files_ !! i = Some all -> Forall file_ok all /\ ((0 < i)%nat -> level_sorted all /\ Z.of_nat (length all) < 2 ^ 31).

Lemma level_files_wf (files_ : list (list File)) level : levels_wf files_ -> 0 <= level < 7 ->
  exists all, level_files files_ level = Some all /\ files_ !! Z.to_nat level = Some all /\ Forall file_ok all /\ (0 < level -> level_sorted all /\ Z.of_nat (length all) < 2 ^ 31).
Proof.
  intros [Hlen Hwf] Hl. destruct (lookup_lt_is_Some_2 files_ (Z.to_nat level) ltac:(lia)) as [all Ea]. exists all. unfold level_files.
  change kNumLevels with 7. destruct (Z.leb_spec 0 level), (Z.ltb_spec level 7); try lia. cbn [andb]. rewrite Ea. destruct (Hwf _ _ Ea) as [H1 H2].
  split; [done|]. split; [done|]. split; [done|]. intros. apply H2. lia.
Qed.

Lemma OverlapInLevel_spec (files_ : list (list File)) level small large : levels_wf files_ -> 0 <= level < 7 -> user_ok small -> user_ok large ->
  exists all, level_files files_ level = Some all /\ OverlapInLevel ucmp files_ level small large = Some (existsb (overlaps small large) all).
Proof.
  intros Hwf Hl Hs Hg. destruct (level_files_wf files_ level Hwf Hl) as (all & El & _ & Hok & HS). exists all. split; [done|].
  unfold OverlapInLevel. rewrite El. cbn [mbind option_bind]. apply SomeFileOverlaps_spec; [done|done|]. intros Hgt. apply Z.gtb_lt in Hgt. destruct (HS Hgt). done.
Qed.

(** The range overlaps no file of the level. *)
Definition free_level (files_ : list (list File)) (small large : Slice) (level : Z) : Prop :=
  forall all f, level_files files_ level = Some all -> f ∈ all -> overlaps (Some small) (Some large) f = false.

Lemma not_exists_free (files_ : list (list File)) level all small large : level_files files_ level = Some all ->
  existsb (overlaps (Some small) (Some large)) all = false -> free_level files_ small large level.
Proof.
  intros El Hn all' f El' Hf. assert (all' = all) as -> by congruence. apply not_true_iff_false. intros Ho. apply not_true_iff_false in Hn. apply Hn, existsb_exists.
  exists f. by rewrite <- list_elem_of_In.
Qed.

Lemma pick_loop_spec o (files_ : list (list File)) small large : levels_wf files_ -> ok small -> ok large ->
  forall fuel level, 0 <= level <= 2 -> 2 - level < Z.of_nat fuel -> (forall i, 0 <= i <= level -> free_level files_ small large i) ->
  exists level', pick_loop ucmp files_ fuel o small large level = Some level' /\ level <= level' <= 2 /\ forall i, 0 <= i <= level' -> free_level files_ small large i.
Proof.
  intros Hwf Hs Hl. induction fuel as [|fuel IH]; intros level Hr Hf Hfree; [lia|]. cbn [pick_loop]. change kMaxMemCompactLevel with 2. change kNumLevels with 7.
  destruct (Z.ltb_spec level 2) as [Hlt|]; [|exists level; split; [done|split; [lia|done]]]. destruct (OverlapInLevel_spec files_ (level + 1) (Some small) (Some large) Hwf ltac:(lia) Hs Hl) as (all & El & ->).
  cbn [mbind option_bind]. destruct (existsb _ all) eqn:Ex; [exists level; split; [done|split; [lia|done]]|].
  destruct (Z.ltb_spec (level + 2) 7); [|lia]. destruct (level_files_wf files_ (level + 2) Hwf ltac:(lia)) as (all2 & El2 & _ & Hok2 & _).
  destruct (GetOverlappingInputs_eq files_ (level + 2) (Some (InternalKey small kMaxSequenceNumber kValueTypeForSeek)) (Some (InternalKey large 0 kTypeDeletion)) all2 El2 Hok2) as (b & e & -> & _);
    [cbn [fmap option_fmap option_map user_ok]; by rewrite InternalKey_user..|]. cbn [mbind option_bind].
  destruct (_ >? _); [exists level; split; [done|split; [lia|done]]|].
  destruct (IH (level + 1)) as (level' & E & Hlv & Hfr); [lia|lia| |].
  - intros i Hi. destruct (decide (i = level + 1)) as [->|]; [|apply Hfree; lia]. by apply (not_exists_free _ _ all).
  - exists level'. split; [done|]. split; [lia|done].
Qed.
End Props.

(** C26: the files a compaction has to take: on any files whose bounds are
    internal keys in order, [GetOverlappingInputs] terminates, and gives in their
    order, above level 0, the files of the level that overlap the range of user
    keys; in level 0, where it begins again whenever a file reaches out of the
    range, the files connected with the range by a chain of files that overlap. *)
Theorem GetOverlappingInputs_connected ucmp ok {UL : ComparatorLaws ucmp ok} files_ level begin_ end_ all :
  level_files files_ level = Some all -> Forall (file_ok (ucmp := ucmp) (ok := ok)) all ->
  user_ok (ok := ok) (ExtractUserKey <$> begin_) -> user_ok (ok := ok) (ExtractUserKey <$> end_) ->
  exists inputs, GetOverlappingInputs ucmp files_ level begin_ end_ = Some inputs /\ sublist inputs all /\
    forall f, f ∈ inputs <->
      if level =? 0 then connected (ucmp := ucmp) all (ExtractUserKey <$> begin_) (ExtractUserKey <$> end_) f
      else f ∈ all /\ (forall b, begin_ = Some b -> Compare ucmp (ExtractUserKey b) (ExtractUserKey (f_largest f)) <= 0) /\
           (forall e, end_ = Some e -> Compare ucmp (ExtractUserKey (f_smallest f)) (ExtractUserKey e) <= 0).
Proof.
  intros El Hok Hb He. destruct (GetOverlappingInputs_eq files_ level begin_ end_ all El Hok Hb He) as (b & e & E & Hres).
  eexists. split; [exact E|]. split; [apply filter_in_order|]. intros f. destruct (level =? 0); [by rewrite Hres|]. destruct Hres as [-> ->].
  rewrite list_elem_of_In, List.filter_In, <- list_elem_of_In. rewrite Forall_forall in Hok.
  assert (Hand : forall P Q R : Prop, (P -> (Q <-> R)) -> P /\ Q <-> P /\ R) by tauto. apply Hand. intros Hf. rewrite (inside_iff (ok := ok)); [|done|by apply Hok].
  destruct begin_ as [b'|], end_ as [e'|]; cbn [fmap option_fmap option_map]; naive_solver.
Qed.

(** C27: a new file does not go below what it overlaps: for levels whose files
    are in order and apart (level 0 as they may be), the level that
    [PickLevelForMemTableOutput] returns for the range of a memtable is at most
    2, and is 0 or such that no file of it or of a level before it overlaps the
    range: the binary search in a level finds an overlap when there is one. *)
Theorem PickLevel_no_overlap ucmp ok {UL : ComparatorLaws ucmp ok} o files_ small large :
  levels_wf (ucmp := ucmp) (ok := ok) files_ -> ok small -> ok large ->
  exists level, PickLevelForMemTableOutput ucmp files_ o small large = Some level /\ 0 <= level <= 2 /\
    forall i all f, 0 < level -> 0 <= i <= level -> files_ !! Z.to_nat i = Some all -> f ∈ all ->
      Compare ucmp small (ExtractUserKey (f_largest f)) > 0 \/ Compare ucmp large (ExtractUserKey (f_smallest f)) < 0.
Proof.
  intros Hwf Hs Hl. unfold PickLevelForMemTableOutput.
  destruct (OverlapInLevel_spec files_ 0 (Some small) (Some large) Hwf ltac:(lia) Hs Hl) as (all & El & ->). cbn [mbind option_bind].
  destruct (existsb _ all) eqn:Ex; [exists 0; split; [done|]; split; [lia|]; intros; lia|].
  destruct (pick_loop_spec o files_ small large Hwf Hs Hl 3 0) as (level & E & Hr & Hfree); [lia|lia|..].
  - intros i Hi. replace i with 0 by lia. by apply (not_exists_free _ _ all).
  - exists level. split; [exact E|]. split; [done|]. intros i fs f _ Hi Ei Hf. destruct (level_files_wf files_ i Hwf ltac:(lia)) as (fs' & El' & Ei' & _).
    assert (fs' = fs) as -> by congruence. specialize (Hfree i Hi fs f El' Hf). unfold overlaps in Hfree. apply negb_false_iff, orb_true_iff in Hfree as [H|H]; [left|right]; cbn in H.
    + by apply Z.gtb_gt in H.
    + by apply Z.ltb_lt in H.
Qed.

Definition range_file (n : Z) (a b : string) : File :=
  {| f_ptr := Z.to_nat n; f_number := n; f_size := 100; f_smallest := InternalKey (chars a) n kTypeValue; f_largest := InternalKey (chars b) n kTypeValue |}.

Ltac solve_file := split; [|split];
  [ eexists _, _, _; split; [reflexivity|]; split; [cbn; solve_bytes|split; vm_compute; discriminate] .. | vm_compute; discriminate].

Definition chained_files : list File := [range_file 1 "a" "c"; range_file 2 "x" "z"; range_file 3 "d" "g"; range_file 4 "b" "e"].

Lemma chained_ok : Forall (file_ok (ucmp := BytewiseComparator) (ok := is_bytes)) chained_files.
Proof. repeat first [apply Forall_nil_2|apply Forall_cons_2]; solve_file. Qed.

Lemma GetOverlappingInputs_connected_witness :
  exists inputs, GetOverlappingInputs BytewiseComparator [chained_files; []; []; []; []; []; []] 0
      (Some (InternalKey (chars "a") 9 kTypeValue)) (Some (InternalKey (chars "a") 0 kTypeDeletion)) = Some inputs /\
    range_file 3 "d" "g" ∈ inputs.
Proof.
  destruct (GetOverlappingInputs_connected BytewiseComparator is_bytes [chained_files; []; []; []; []; []; []] 0
    (Some (InternalKey (chars "a") 9 kTypeValue)) (Some (InternalKey (chars "a") 0 kTypeDeletion)) chained_files) as (inputs & E & _ & H).
  - reflexivity.
  - exact chained_ok.
  - cbn. solve_bytes.
  - cbn. solve_bytes.
  - exists inputs. split; [exact E|]. apply H. apply (connected_file _ _ _ _ (range_file 4 "b" "e")).
    + apply (connected_file _ _ _ _ (range_file 1 "a" "c")).
      * apply connected_range; [by left|by vm_compute].
      * unfold chained_files. rewrite !elem_of_cons. auto.
      * split; vm_compute; discriminate.
    + unfold chained_files. rewrite !elem_of_cons. auto.
    + split; vm_compute; discriminate.
Defined.

Definition flat_levels : list (list File) := [[]; []; [range_file 1 "a" "c"; range_file 2 "x" "z"]; []; []; []; []].

Definition flat_options : Options := {|
  comparator := BytewiseComparator; create_if_missing := true; error_if_exists := false; paranoid_checks := false;
  write_buffer_size := 4194304; max_open_files := 1000; block_cache := false; block_size := 4096; block_restart_interval := 16;
  max_file_size := 2097152; compression := kNoCompression; reuse_logs := false; filter_policy := None
|}.

Lemma flat_wf : levels_wf (ucmp := BytewiseComparator) (ok := is_bytes) flat_levels.
Proof.
  split; [done|]. intros i all Ei. destruct i as [|[|[|[|[|[|[|i]]]]]]]; try (injection Ei as <-); [..|done];
    (split; [repeat first [apply Forall_nil_2|apply Forall_cons_2]; solve_file|intros _; split; [|by vm_compute]]);
    repeat first [apply SSorted_nil|apply SSorted_cons|apply Forall_nil_2|apply Forall_cons_2]; vm_compute; reflexivity.
Qed.

Lemma PickLevel_no_overlap_witness :
  exists level, PickLevelForMemTableOutput BytewiseComparator flat_levels flat_options (chars "b") (chars "d") = Some level /\ level < 2.
Proof.
  destruct (PickLevel_no_overlap BytewiseComparator is_bytes flat_options flat_levels (chars "b") (chars "d")) as (level & E & Hr & H).
  - exact flat_wf.
  - solve_bytes.
  - solve_bytes.
  - exists level. split; [exact E|]. apply Z.nle_gt. intros Hl. destruct (H 2 [range_file 1 "a" "c"; range_file 2 "x" "z"] (range_file 1 "a" "c")) as [Hc|Hc].
    + lia.
    + lia.
    + reflexivity.
    + by left.
    + vm_compute in Hc. discriminate Hc.
    + vm_compute in Hc. discriminate Hc.
Defined.
