(* ===== verification/LvVersionGet.v ===== *)
(** Lookups in a version ([db/version_set.cc]): [Version::Get] goes from level to
    level through the table cache, and finds the newest visible entry. *)

From stdpp Require Import base list gmap strings sorting.
From Stdlib Require Import ZArith Lia.
From S2P Require Import Prelude LvSlice LvCoding LvFormat LvVersionEdit LvDbIter LvVersion.

(** [TableCache::Get]: the entry of the table with this number and size that its
    callback is called with, if it is. *)
Class TableReader (T : Type) : Type :=
  tr_Get : Z -> Z -> Slice -> M T (Status * option (Slice * Slice)).

Module Saver.
Inductive SaverState : Type := kNotFound | kFound | kDeleted | kCorrupt.
End Saver.

(** [Version::GetStats]. *)
Record GetStats : Type := { seek_file : option File; seek_file_level : Z }.

Definition NewestFirst (a b : File) : Prop := f_number b <= f_number a.
#[export] Instance NewestFirst_dec a b : Decision (NewestFirst a b) := decide (f_number b <= f_number a).

Section Get.
Context {T : Type} `{TR : TableReader T} (ucmp : Comparator).

(** The state and [*value] after the callback. *)
Definition SaveValue (s_user_key : Slice) (state : Saver.SaverState) (value : option Slice) (ikey v : Slice) : Saver.SaverState * option Slice :=
  match ParseInternalKey ikey with
  | None => (Saver.kCorrupt, value)
  | Some parsed_key =>
      if Compare ucmp (user_key parsed_key) s_user_key =? 0 then
        match type parsed_key with kTypeValue => (Saver.kFound, Some v) | kTypeDeletion => (Saver.kDeleted, value) end
      else (state, value)
  end.

(** The user key is in the range of the file. *)
Definition in_file (u : Slice) (f : File) : bool :=
  (Compare ucmp u (ExtractUserKey (f_smallest f)) >=? 0) && (Compare ucmp u (ExtractUserKey (f_largest f)) <=? 0).

(** The files of a level to be searched, in order. *)
Definition files_to_search (level : nat) (files : list File) (u ikey : Slice) : option (list File) :=
  match level with
  | O => Some (merge_sort NewestFirst (List.filter (in_file u) files))
  | S _ =>
      index ← FindFile ucmp files ikey;
      if index >=? Z.of_nat (length files) then Some []
      else f ← files !! Z.to_nat index; Some (if Compare ucmp u (ExtractUserKey (f_smallest f)) <? 0 then [] else [f])
  end.

(** What the search carries: the statistics, and [last_file_read] with its level. *)
Definition Progress : Type := GetStats * option (File * Z).

(** More than one seek for this read: charge the first file. *)
Definition charge (p : Progress) : GetStats :=
  match p.2, seek_file p.1 with
  | Some (f, level), None => {| seek_file := Some f; seek_file_level := level |}
  | _, _ => p.1
  end.

(** The result, or the progress when the search goes on. *)
Definition Found : Type := Status * option Slice * GetStats.

Fixpoint search_files (level : Z) (files : list File) (u ikey : Slice) (p : Progress) : M T (Found + Progress) :=
  match files with
  | [] => ret (inr p)
  | f :: files =>
      let stats := charge p in
      let* '(s, entry) := tr_Get (f_number f) (f_size f) ikey in
      let '(state, value) :=
        match entry with Some (k, v) => SaveValue u Saver.kNotFound None k v | None => (Saver.kNotFound, None) end in
      if negb (Status_ok s) then ret (inl (s, value, stats))
      else
        match state with
        | Saver.kNotFound => search_files level files u ikey (stats, Some (f, level))
        | Saver.kFound => ret (inl (s, value, stats))
        | Saver.kDeleted => ret (inl (Status_NotFound [] [], value, stats))
        | Saver.kCorrupt => ret (inl (Status_Corruption (chars "corrupted key for ") u, value, stats))
        end
  end.

Fixpoint search_levels (level : nat) (levels : list (list File)) (u ikey : Slice) (p : Progress) : M T Found :=
  match levels with
  | [] => ret (Status_NotFound [] [], None, p.1)
  | [] :: levels => search_levels (S level) levels u ikey p
  | files :: levels =>
      let* tmp := need (files_to_search level files u ikey) in
      let* r := search_files (Z.of_nat level) tmp u ikey p in
      match r with
      | inl found => ret found
      | inr p => search_levels (S level) levels u ikey p
      end
  end.

Definition Version_Get (files_ : list (list File)) (k : LookupKey) : M T Found :=
  search_levels 0 files_ (LookupKey_user_key k) (LookupKey_internal_key k) ({| seek_file := None; seek_file_level := -1 |}, None).

(** [ForEachOverlapping]: [func] changes its argument, and says whether to go on. *)
Section ForEachOverlapping.
Context {A : Type} (func : A -> Z -> File -> A * bool).

Fixpoint call_each (level : Z) (files : list File) (arg : A) : A * bool :=
  match files with
  | [] => (arg, true)
  | f :: files => let '(arg, more) := func arg level f in if more then call_each level files arg else (arg, false)
  end.

Fixpoint each_level (level : nat) (levels : list (list File)) (u ikey : Slice) (arg : A) : option A :=
  match levels with
  | [] => Some arg
  | files :: levels =>
      tmp ← match files with [] => Some [] | _ => files_to_search level files u ikey end;
      let '(arg, more) := call_each (Z.of_nat level) tmp arg in
      if more then each_level (S level) levels u ikey arg else Some arg
  end.

Definition ForEachOverlapping (files_ : list (list File)) (u ikey : Slice) (arg : A) : option A := each_level 0 files_ u ikey arg.
End ForEachOverlapping.

(** [RecordReadSample]: the first file that matches and how many do, up to two. *)
Definition Match (state : GetStats * Z) (level : Z) (f : File) : (GetStats * Z) * bool :=
  let matches := state.2 + 1 in
  let stats := if matches =? 1 then {| seek_file := Some f; seek_file_level := level |} else state.1 in
  ((stats, matches), matches <? 2).

(** The file to charge; [UpdateStats] does so. *)
Definition sample_stats (files_ : list (list File)) (internal_key : Slice) : option (option GetStats) :=
  match ParseInternalKey internal_key with
  | None => Some None
  | Some ikey =>
      state ← ForEachOverlapping Match files_ (user_key ikey) internal_key ({| seek_file := None; seek_file_level := -1 |}, 0);
      Some (if state.2 >=? 2 then Some state.1 else None)
  end.
End Get.

(** * The newest visible entry *)

Section Props.
Context {ucmp : Comparator} {ok : Slice -> Prop} `{UL : !ComparatorLaws ucmp ok}.
Abbreviation icmp := (InternalKey_Compare ucmp).
Context (contents : File -> list Version).
Implicit Types (f g : File) (x y : Version) (u : Slice) (s : Z).

(** The version is of the user key and no later than the snapshot. *)
Definition visible_to u s x : Prop := Compare ucmp (user_key x.1) u = 0 /\ LvFormat.sequence x.1 <= s.

Definition version_ok x : Prop := ok (user_key x.1) /\ seq_ok (LvFormat.sequence x.1).

(** In the order of internal keys. *)
Definition precedes x y : Prop := icmp (version_entry x).1 (version_entry y).1 < 0.

(** A file holds its entries in order; the first and the last are its bounds. *)
Record holds_entries f : Prop := {
  he_ok : Forall version_ok (contents f);
  he_sorted : StronglySorted precedes (contents f);
  he_first : exists x, head (contents f) = Some x /\ f_smallest f = (version_entry x).1;
  he_last : exists x, last (contents f) = Some x /\ f_largest f = (version_entry x).1
}.

(** What [TableCache::Get] promises: the first entry not before the key, or
    nothing when no entry of the file is visible (the filter may tell). [Inv n]:
    at least [n] more lookups are possible (ids and counters have 64 and 32 bits). *)
Definition first_entry (vs : list Version) u s (r : option (Slice * Slice)) : Prop :=
  match r with
  | Some kv => exists l1 x l2, vs = l1 ++ x :: l2 /\ kv = version_entry x /\
      Forall (fun y => icmp (version_entry y).1 (InternalKey u s kTypeValue) < 0) l1 /\ 0 <= icmp (version_entry x).1 (InternalKey u s kTypeValue)
  | None => Forall (fun y => ~ visible_to u s y) vs
  end.

Class TableReaderLaws (T : Type) `{TableReader T} (files : list File) (Inv : nat -> T -> Prop) : Prop := {
  tr_less n t : Inv (S n) t -> Inv n t;
  tr_get n t f u s : Inv (S n) t -> f ∈ files -> ok u -> seq_ok s ->
    exists r t', tr_Get (f_number f) (f_size f) (InternalKey u s kTypeValue) t = Ret ((Status_OK, r), t') /\ Inv n t' /\ first_entry (contents f) u s r
}.

Lemma entry_key_ok x : version_ok x -> key_ok (ok := ok) (version_entry x).1.
Proof. intros [Hx Hs]. by exists (user_key x.1), (LvFormat.sequence x.1), (type x.1). Qed.

Lemma holds_in f x : holds_entries f -> x ∈ contents f -> version_ok x.
Proof. intros [Hok _ _ _] Hx. rewrite Forall_forall in Hok. by apply Hok. Qed.

Lemma compare_target x u s : version_ok x -> seq_ok s ->
  icmp (version_entry x).1 (InternalKey u s kTypeValue) =
  if Compare ucmp (user_key x.1) u =? 0 then Z.sgn (s * 256 + 1 - (LvFormat.sequence x.1 * 256 + ValueType_val (type x.1))) else Compare ucmp (user_key x.1) u.
Proof. intros [_ Hx] Hs. apply (internal_key_compare (ucmp := ucmp) (user_key x.1) _ (type x.1) u s kTypeValue Hx Hs). Qed.

Lemma entry_not_before x u s : version_ok x -> seq_ok s -> visible_to u s x -> 0 <= icmp (version_entry x).1 (InternalKey u s kTypeValue).
Proof.
  intros Hx Hs [Hc Hle]. rewrite compare_target by done. rewrite Hc. cbn [Z.eqb]. destruct (type x.1); cbn [ValueType_val]; lia.
Qed.

(** What is not before the key is visible, or of a later user key. *)
Lemma not_before_visible x u s : version_ok x -> seq_ok s -> 0 <= icmp (version_entry x).1 (InternalKey u s kTypeValue) ->
  visible_to u s x \/ 0 < Compare ucmp (user_key x.1) u.
Proof.
  intros Hx Hs. rewrite compare_target by done. unfold visible_to. destruct (Z.eqb_spec (Compare ucmp (user_key x.1) u) 0) as [->|]; [|lia].
  destruct (type x.1); cbn [ValueType_val]; lia.
Qed.

(** Of visible versions the one that precedes is the newer. *)
Lemma precedes_newer x y u s : version_ok x -> version_ok y -> ok u -> visible_to u s x -> visible_to u s y -> precedes x y \/ x = y ->
  LvFormat.sequence y.1 <= LvFormat.sequence x.1.
Proof.
  intros [Ox Sx] [Oy Sy] Hu [Hx _] [Hy _] [Hp| ->]; [|lia]. unfold precedes in Hp.
  pose proof (internal_key_compare (ucmp := ucmp) (user_key x.1) (LvFormat.sequence x.1) (type x.1) (user_key y.1) (LvFormat.sequence y.1) (type y.1) Sx Sy) as E.
  change (Compare (InternalKeyComparator ucmp) (version_entry x).1 (version_entry y).1 < 0) in Hp. cbn [version_entry fst] in Hp. rewrite E in Hp.
  assert (Hxy : Compare ucmp (user_key x.1) (user_key y.1) = 0).
  { pose proof (cmp_le_trans (cmp := Compare ucmp) (user_key x.1) u (user_key y.1)) as H1. pose proof (cmp_le_trans (cmp := Compare ucmp) (user_key y.1) u (user_key x.1)) as H2.
    pose proof (cmp_flip (cmp := Compare ucmp) u (user_key y.1) Hu Oy). pose proof (cmp_flip (cmp := Compare ucmp) u (user_key x.1) Hu Ox).
    pose proof (cmp_flip (cmp := Compare ucmp) (user_key x.1) (user_key y.1) Ox Oy). specialize (H1 Ox Hu Oy). specialize (H2 Oy Hu Ox). lia. }
  rewrite Hxy in Hp. cbn [Z.eqb] in Hp. destruct (type x.1), (type y.1); cbn [ValueType_val] in Hp; lia.
Qed.

(** What comes after a version of a later user key is not visible. *)
Lemma precedes_later x y u s : version_ok x -> version_ok y -> ok u -> 0 < Compare ucmp (user_key x.1) u -> precedes x y \/ x = y -> ~ visible_to u s y.
Proof.
  intros [Ox Sx] [Oy Sy] Hu Hx Hp [Hy _]. destruct Hp as [Hp| ->]; [|lia]. assert (Hle : Compare ucmp (user_key x.1) (user_key y.1) <= 0).
  { pose proof (internal_le_user (ucmp := ucmp) (version_entry x).1 (version_entry y).1) as H. cbn [version_entry fst] in H. rewrite !InternalKey_user in H.
    apply H, Z.lt_le_incl, Hp. }
  pose proof (cmp_le_trans (cmp := Compare ucmp) (user_key x.1) (user_key y.1) u Ox Oy Hu Hle). lia.
Qed.

Definition none_visible u s (vs : list Version) : Prop := forall y, y ∈ vs -> ~ visible_to u s y.
Definition newest_of u s (vs : list Version) x : Prop := x ∈ vs /\ visible_to u s x /\ forall y, y ∈ vs -> visible_to u s y -> LvFormat.sequence y.1 <= LvFormat.sequence x.1.

(** The first entry decides the file. *)
Lemma first_entry_spec f u s r : holds_entries f -> ok u -> seq_ok s -> first_entry (contents f) u s r ->
  (exists x, r = Some (version_entry x) /\ newest_of u s (contents f) x) \/
  none_visible u s (contents f) /\ (r = None \/ exists x, version_ok x /\ r = Some (version_entry x) /\ 0 < Compare ucmp (user_key x.1) u).
Proof.
  intros Hf Hu Hs. destruct r as [kv|]; cbn [first_entry].
  - intros (l1 & x & l2 & El & -> & Hlo & Hhi). assert (Hok : forall y, y ∈ contents f -> version_ok y) by (intros y; by apply holds_in).
    rewrite El in Hok. assert (Hx : version_ok x) by (apply Hok, elem_of_app; right; by left).
    assert (Hpos : forall y, y ∈ contents f -> visible_to u s y -> precedes x y \/ x = y).
    { intros y Hy Hv. rewrite El in Hy. pose proof (Hok y Hy) as Oy. rewrite Forall_forall in Hlo. pose proof (he_sorted _ Hf) as HS. rewrite El in HS.
      apply elem_of_app in Hy as [Hy|[->|Hy]%elem_of_cons]; [|by right|left].
      - pose proof (entry_not_before y u s Oy Hs Hv). specialize (Hlo y Hy). lia.
      - apply StronglySorted_app_1_r, StronglySorted_inv in HS as [_ HF]. rewrite Forall_forall in HF. by apply HF. }
    destruct (not_before_visible x u s Hx Hs Hhi) as [Hv|Hv].
    + left. exists x. split; [done|]. split; [rewrite El; apply elem_of_app; right; by left|]. split; [done|].
      intros y Hy Hvy. apply (precedes_newer x y u s); auto. apply (holds_in f); done.
    + right. split; [|right; by exists x]. intros y Hy Hvy. apply (precedes_later x y u s) in Hvy; auto. by apply (holds_in f).
  - intros HN. right. split; [|by left]. rewrite Forall_forall in HN. exact HN.
Qed.

(** ** The files of a level *)

Section Search.
Context {T : Type} `{TR : TableReader T} (all_files : list File) (Inv : nat -> T -> Prop) {TL : TableReaderLaws T all_files Inv}.
Context (u : Slice) (s : Z) (Hu : ok u) (Hs : seq_ok s).
Abbreviation ikey := (InternalKey u s kTypeValue).
Abbreviation hidden f := (none_visible u s (contents f)).

(** What a search that stops says about the version it stopped at. *)
Definition answers (st : Status) (value : option Slice) x : Prop :=
  match type x.1 with kTypeValue => st = Status_OK /\ value = Some x.2 | kTypeDeletion => st = Status_NotFound [] [] /\ value = None end.

Lemma SaveValue_entry x value : version_ok x -> SaveValue ucmp u Saver.kNotFound value (version_entry x).1 (version_entry x).2 =
  if Compare ucmp (user_key x.1) u =? 0 then match type x.1 with kTypeValue => (Saver.kFound, Some x.2) | kTypeDeletion => (Saver.kDeleted, value) end
  else (Saver.kNotFound, value).
Proof. intros [_ Hx]. unfold SaveValue. cbn [version_entry fst snd]. by rewrite parse_internal. Qed.

Lemma inv_less m n t : Inv (m + n) t -> Inv n t.
Proof. induction m as [|m IH]; [done|]. intros H. by apply IH, tr_less. Qed.

Lemma search_files_spec level files n : (forall f, f ∈ files -> f ∈ all_files /\ holds_entries f) -> forall p t, Inv (length files + n) t ->
  exists r t', search_files ucmp level files u ikey p t = Ret (r, t') /\ Inv n t' /\
    match r with
    | inl (st, value, _) => exists l1 f l2 x, files = l1 ++ f :: l2 /\ (forall g, g ∈ l1 -> hidden g) /\ newest_of u s (contents f) x /\ answers st value x
    | inr _ => forall g, g ∈ files -> hidden g
    end.
Proof.
  induction files as [|f files IH]; intros Hin p t Ht; cbn [search_files].
  { exists (inr p), t. split; [done|]. split; [done|]. intros g Hg. by apply elem_of_nil in Hg. }
  destruct (Hin f ltac:(by left)) as [Hf Hc]. cbn [length Nat.add] in Ht. destruct (tr_get (Inv := Inv) _ t f u s Ht Hf Hu Hs) as (r & t1 & E1 & Ht1 & Hr). rewrite (bind_eq _ _ _ _ _ E1).
  assert (Hgo : forall p', hidden f -> exists r t', search_files ucmp level files u ikey p' t1 = Ret (r, t') /\ Inv n t' /\
    match r with
    | inl (st, value, _) => exists l1 f' l2 x, f :: files = l1 ++ f' :: l2 /\ (forall g, g ∈ l1 -> hidden g) /\ newest_of u s (contents f') x /\ answers st value x
    | inr _ => forall g, g ∈ f :: files -> hidden g
    end).
  { intros p' Hh. destruct (IH ltac:(intros g Hg; apply Hin; by right) p' t1 Ht1) as (r' & t2 & E2 & Ht2 & Hr2). exists r', t2. split; [done|]. split; [done|].
    destruct r' as [[[st value] st']|p2].
    - destruct Hr2 as (l1 & f' & l2 & x & -> & Hl1 & Hx). exists (f :: l1), f', l2, x. split; [done|]. split; [|done]. intros g [->|Hg]%elem_of_cons; [done|by apply Hl1].
    - intros g [->|Hg]%elem_of_cons; [done|by apply Hr2]. }
  destruct (first_entry_spec f u s r Hc Hu Hs Hr) as [(x & -> & Hx)|[Hh Hr']].
  - pose proof (holds_in f x Hc (proj1 Hx)) as Ox. cbn [version_entry fst snd]. pose proof (SaveValue_entry x None Ox) as Es. cbn [version_entry fst snd] in Es. rewrite Es.
    destruct Hx as (Hxin & [Hxu Hxs] & Hmax). rewrite Hxu. cbn [Z.eqb]. assert (Hx : newest_of u s (contents f) x) by by split.
    destruct (type x.1) eqn:Ety; cbn [Status_ok negb].
    + eexists _, t1. split; [reflexivity|]. split; [by apply (inv_less (length files))|]. exists [], f, files, x. split; [done|]. split; [intros g Hg; by apply elem_of_nil in Hg|]. split; [done|]. unfold answers. by rewrite Ety.
    + eexists _, t1. split; [reflexivity|]. split; [by apply (inv_less (length files))|]. exists [], f, files, x. split; [done|]. split; [intros g Hg; by apply elem_of_nil in Hg|]. split; [done|]. unfold answers. by rewrite Ety.
  - destruct Hr' as [->|(x & Ox & -> & Hpos)]; cbn [Status_ok negb].
    + by apply Hgo.
    + cbn [version_entry]. pose proof (SaveValue_entry x None Ox) as Es. cbn [version_entry fst snd] in Es. rewrite Es.
      destruct (Z.eqb_spec (Compare ucmp (user_key x.1) u) 0); [lia|]. by apply Hgo.
Qed.
End Search.

(** ** Which files are searched *)

Definition level_versions (files : list File) : list Version := concat (map contents files).

Lemma in_level files x : x ∈ level_versions files <-> exists f, f ∈ files /\ x ∈ contents f.
Proof.
  unfold level_versions. rewrite list_elem_of_In, in_concat. split.
  - intros (l & (f & <- & Hf)%in_map_iff & Hx). exists f. by rewrite !list_elem_of_In.
  - intros (f & Hf & Hx). exists (contents f). rewrite in_map_iff. split; [exists f; by rewrite <- list_elem_of_In|by apply list_elem_of_In].
Qed.

(** Files of level 0 hold newer entries than those with smaller numbers; files of
    the others are in order. *)
Definition level_ok (level : nat) (files : list File) : Prop :=
  Forall holds_entries files /\
  match level with
  | O => forall f g x y u s, f ∈ files -> g ∈ files -> f_number f >= f_number g -> ok u -> x ∈ contents f -> y ∈ contents g -> visible_to u s x -> visible_to u s y ->
           f = g \/ LvFormat.sequence y.1 <= LvFormat.sequence x.1
  | S _ => level_sorted (ucmp := ucmp) files /\ Z.of_nat (length files) < 2 ^ 31
  end.

Lemma last_in {A} (l : list A) (x : A) : last l = Some x -> x ∈ l.
Proof. intros (l' & ->)%last_Some. apply elem_of_app. right. by left. Qed.

(** The entries of a file are within its bounds. *)
Lemma within f x : holds_entries f -> x ∈ contents f -> icmp (f_smallest f) (version_entry x).1 <= 0 /\ icmp (version_entry x).1 (f_largest f) <= 0.
Proof.
  intros Hf Hx. destruct (he_first _ Hf) as (a & Ha & ->), (he_last _ Hf) as (b & Hb & ->). pose proof (he_sorted _ Hf) as HS.
  pose proof (holds_in f x Hf Hx) as Ox. assert (Erefl : icmp (version_entry x).1 (version_entry x).1 = 0).
  { apply (cmp_refl (cmp := Compare (InternalKeyComparator ucmp)) (ok := internal_ok ok)), (key_internal (ok := ok)), entry_key_ok, Ox. }
  split.
  - destruct (contents f) as [|z l]; [done|]. injection Ha as ->. apply elem_of_cons in Hx as [->|Hx]; [lia|].
    apply StronglySorted_inv in HS as [_ HF]. rewrite Forall_forall in HF. apply Z.lt_le_incl, HF, Hx.
  - apply last_Some in Hb as (l & El). rewrite El in Hx, HS. apply elem_of_app in Hx as [Hx|Hx%list_elem_of_singleton]; [|subst; lia].
    apply Z.lt_le_incl, (StronglySorted_app_1_elem_of precedes _ _ x b HS); [done|by left].
Qed.

Lemma holds_file_ok f : holds_entries f -> file_ok (ucmp := ucmp) (ok := ok) f.
Proof.
  intros Hf. destruct (he_first _ Hf) as (a & Ha & Ea), (he_last _ Hf) as (b & Hb & Eb).
  assert (Hin : a ∈ contents f) by (destruct (contents f); [done|injection Ha as ->; by left]). pose proof (last_in _ _ Hb) as Hinb.
  split; [rewrite Ea; by apply entry_key_ok, (holds_in f)|]. split; [rewrite Eb; by apply entry_key_ok, (holds_in f)|].
  rewrite Ea. by apply (proj2 (within f a Hf Hin)).
Qed.

Lemma holds_file_oks files : Forall holds_entries files -> Forall (file_ok (ucmp := ucmp) (ok := ok)) files.
Proof. intros H. apply (Forall_impl _ _ _ H), holds_file_ok. Qed.

(** A file with a visible entry has the key in its range. *)
Lemma visible_in_file f x u s : holds_entries f -> ok u -> x ∈ contents f -> visible_to u s x -> in_file ucmp u f = true.
Proof.
  intros Hf Hu Hx [Hv _]. pose proof (within f x Hf Hx) as [H1%key_le_user H2%key_le_user]. destruct (holds_in f x Hf Hx) as [Ox _].
  destruct (file_start_limit f (holds_file_ok f Hf)) as (Os & Ol & _). cbn [version_entry fst] in H1, H2. rewrite InternalKey_user in H1, H2.
  unfold in_file. apply andb_true_iff. split.
  - pose proof (cmp_le_trans (cmp := Compare ucmp) _ _ u Os Ox Hu H1 ltac:(lia)) as H3. pose proof (cmp_flip (cmp := Compare ucmp) u (ExtractUserKey (f_smallest f)) Hu Os).
    destruct (Z.geb_spec (Compare ucmp u (ExtractUserKey (f_smallest f))) 0); lia.
  - apply Z.leb_le. apply (cmp_le_trans (cmp := Compare ucmp) _ (user_key x.1)); [done..| |done]. pose proof (cmp_flip (cmp := Compare ucmp) u (user_key x.1) Hu Ox). lia.
Qed.

(** Entries of a file that ends before the key. *)
Lemma before_hidden g y u s : holds_entries g -> ok u -> seq_ok s -> icmp (f_largest g) (InternalKey u s kTypeValue) < 0 -> y ∈ contents g -> ~ visible_to u s y.
Proof.
  intros Hg Hu Hs Hlo Hy Hv. pose proof (proj2 (within g y Hg Hy)) as Hle. pose proof (holds_in g y Hg Hy) as Oy. pose proof (entry_not_before y u s Oy Hs Hv).
  assert (icmp (version_entry y).1 (InternalKey u s kTypeValue) < 0); [|lia].
  apply (cmp_le_lt_trans (cmp := Compare (InternalKeyComparator ucmp)) (ok := internal_ok ok) _ (f_largest g)); [..|done|done].
  - by apply (key_internal (ok := ok)), entry_key_ok.
  - apply (key_internal (ok := ok)), (holds_file_ok g Hg).
  - by apply internal_ok_key.
Qed.

(** Entries of a file that is before another one. *)
Lemma files_precede f g x y : holds_entries f -> holds_entries g -> icmp (f_largest f) (f_smallest g) < 0 -> x ∈ contents f -> y ∈ contents g -> precedes x y.
Proof.
  intros Hf Hg Hfg Hx Hy. pose proof (proj2 (within f x Hf Hx)). pose proof (proj1 (within g y Hg Hy)).
  pose proof (entry_key_ok x (holds_in f x Hf Hx)) as Kx. pose proof (entry_key_ok y (holds_in g y Hg Hy)) as Ky.
  destruct (holds_file_ok f Hf) as (_ & Kf & _), (holds_file_ok g Hg) as (Kg & _ & _). unfold precedes. apply (icmp_lt_le_trans (ok := ok) _ (f_smallest g)); [done..| |done].
  apply (cmp_le_lt_trans (cmp := Compare (InternalKeyComparator ucmp)) (ok := internal_ok ok) _ (f_largest f)); [..|done|done]; by apply (key_internal (ok := ok)).
Qed.

Lemma search_level0 files u s : Forall holds_entries files -> ok u -> exists l, l = merge_sort NewestFirst (List.filter (in_file ucmp u) files) /\
  (forall f, f ∈ l -> f ∈ files) /\ (forall g y, g ∈ files -> y ∈ contents g -> visible_to u s y -> g ∈ l) /\
  (forall l1 f l2 g, l = l1 ++ f :: l2 -> g ∈ l -> g ∈ l1 \/ f_number f >= f_number g) /\ (length l <= length files)%nat.
Proof.
  intros Hh Hu. rewrite Forall_forall in Hh. eexists. split; [reflexivity|]. set (l := merge_sort NewestFirst (List.filter (in_file ucmp u) files)).
  assert (HP : forall f, f ∈ l <-> f ∈ files /\ in_file ucmp u f = true).
  { intros f. unfold l. rewrite merge_sort_Permutation. rewrite list_elem_of_In, List.filter_In, <- list_elem_of_In. done. }
  assert (HS : StronglySorted NewestFirst l).
  { apply StronglySorted_merge_sort; [intros a b c; unfold NewestFirst; lia|intros a b; unfold NewestFirst; lia]. }
  split; [intros f Hf; by apply HP|]. split; [intros g y Hg Hy Hv; apply HP; split; [done|]; by apply (visible_in_file g y u s (Hh g Hg))|].
  split; [|unfold l; rewrite (Permutation_length (merge_sort_Permutation _ _)); apply List.filter_length_le].
  intros l1 f l2 g El Hg. rewrite El in Hg, HS. apply elem_of_app in Hg as [Hg|[->|Hg]%elem_of_cons]; [by left|right; lia|right].
  apply StronglySorted_app_1_r, StronglySorted_inv in HS as [_ HF]. rewrite Forall_forall in HF. specialize (HF g Hg). unfold NewestFirst in HF. lia.
Qed.

(** What a search of these files gives is right for the level. *)
Definition right_files u s (files l : list File) : Prop :=
  (length l <= length files)%nat /\
  (forall f, f ∈ l -> f ∈ files) /\
  (forall l1 f l2 x, l = l1 ++ f :: l2 -> (forall g, g ∈ l1 -> none_visible u s (contents g)) -> newest_of u s (contents f) x -> newest_of u s (level_versions files) x) /\
  ((forall f, f ∈ l -> none_visible u s (contents f)) -> none_visible u s (level_versions files)).

Lemma right_level0 files u s : level_ok 0 files -> ok u -> right_files u s files (merge_sort NewestFirst (List.filter (in_file ucmp u) files)).
Proof.
  intros [Hh Hl] Hu. destruct (search_level0 files u s Hh Hu) as (l & <- & Hin & Hv & Ho & Hlen). split; [done|]. split; [done|]. split.
  - intros l1 f l2 x El Hl1 (Hx & Hvx & Hmax). assert (Hf : f ∈ files) by (apply Hin; rewrite El; apply elem_of_app; right; by left).
    split; [apply in_level; by exists f|]. split; [done|]. intros y (g & Hg & Hy)%in_level Hvy.
    destruct (Ho l1 f l2 g El (Hv g y Hg Hy Hvy)) as [Hg1|Hn]; [by destruct (Hl1 g Hg1 y Hy)|].
    destruct (Hl f g x y u s Hf Hg Hn Hu Hx Hy Hvx Hvy) as [->|]; [by apply Hmax|done].
  - intros Hn y (g & Hg & Hy)%in_level Hvy. by refine (Hn g _ y Hy Hvy); apply (Hv g y).
Qed.

Lemma right_one files u s m f : Forall holds_entries files -> level_sorted (ucmp := ucmp) files -> ok u -> seq_ok s -> files !! m = Some f ->
  Forall (fun f => icmp (f_largest f) (InternalKey u s kTypeValue) < 0) (take m files) -> 0 <= icmp (f_largest f) (InternalKey u s kTypeValue) ->
  right_files u s files (if Compare ucmp u (ExtractUserKey (f_smallest f)) <? 0 then [] else [f]).
Proof.
  intros Hh HS Hu Hs Ef Hlo Hhi. assert (Hf : f ∈ files) by by apply (list_elem_of_lookup_2 _ m). rewrite Forall_forall in Hh, Hlo. pose proof (Hh f Hf) as Hcf.
  assert (Hafter : forall g y, g ∈ files -> y ∈ contents g -> visible_to u s y -> g = f \/ forall x, x ∈ contents f -> precedes x y).
  { intros g y Hg Hy Hv. pose proof HS as HS'. unfold level_sorted in HS'. rewrite <- (take_drop_middle _ _ _ Ef) in HS', Hg. apply StronglySorted_app_1_r, StronglySorted_inv in HS' as [_ HF].
    rewrite Forall_forall in HF. apply elem_of_app in Hg as [Hg|[->|Hg]%elem_of_cons]; [|by left|right].
    - assert (Hgf : g ∈ files) by (rewrite <- (take_drop m files); apply elem_of_app; by left). by destruct (before_hidden g y u s (Hh g Hgf) Hu Hs (Hlo g Hg) Hy).
    - assert (Hgf : g ∈ files) by (rewrite <- (take_drop (S m) files); apply elem_of_app; by right). intros x Hx. apply (files_precede f g); auto. }
  assert (Hlater : forall x, x ∈ contents f -> 0 < Compare ucmp (user_key x.1) u -> none_visible u s (contents f) -> none_visible u s (level_versions files)).
  { intros x Hx Hxu Hn y (g & Hg & Hy)%in_level Hvy. destruct (Hafter g y Hg Hy Hvy) as [->|Hp]; [by apply (Hn y)|].
    apply (precedes_later x y u s) in Hvy; auto; [by apply (holds_in f)|by apply (holds_in g); auto]. }
  destruct (Z.ltb_spec (Compare ucmp u (ExtractUserKey (f_smallest f))) 0) as [Hl|Hl].
  - split; [cbn; lia|]. split; [by intros g Hg%elem_of_nil|]. split; [by intros [|]|]. intros _. destruct (he_first _ Hcf) as (a & Ha & Ea).
    assert (Ina : a ∈ contents f) by (destruct (contents f); [done|injection Ha as ->; by left]). destruct (holds_in f a Hcf Ina) as [Oa _].
    rewrite Ea in Hl. cbn [version_entry fst] in Hl. rewrite InternalKey_user in Hl. pose proof (cmp_flip (cmp := Compare ucmp) u (user_key a.1) Hu Oa).
    apply (Hlater a); [done|lia|]. intros y Hy Hv. pose proof (visible_in_file f y u s Hcf Hu Hy Hv) as [Hi _]%andb_true_iff. rewrite Ea in Hi. cbn [version_entry fst] in Hi. rewrite InternalKey_user in Hi.
    destruct (Z.geb_spec (Compare ucmp u (user_key a.1)) 0); [lia|done].
  - split; [apply lookup_lt_Some in Ef; cbn; lia|]. split; [by intros g ->%list_elem_of_singleton|]. split.
    + intros [|g l1] f' l2 x El Hl1 Hx; [|by destruct l1]. injection El as <- _. destruct Hx as (Hx & Hv & Hmax). split; [apply in_level; by exists f|]. split; [done|].
      intros y (g & Hg & Hy)%in_level Hvy. destruct (Hafter g y Hg Hy Hvy) as [->|Hp]; [by apply Hmax|].
      apply (precedes_newer x y u s); auto; [by apply (holds_in f)|by apply (holds_in g); auto].
    + intros Hn. specialize (Hn f ltac:(by left)). destruct (he_last _ Hcf) as (b & Hb & Eb). pose proof (last_in _ _ Hb) as Inb. rewrite Eb in Hhi.
      destruct (not_before_visible b u s (holds_in f b Hcf Inb) Hs Hhi) as [Hv|Hv]; [by destruct (Hn b)|]. by apply (Hlater b).
Qed.

Lemma files_to_search_spec level files u s : level_ok level files -> ok u -> seq_ok s ->
  exists l, files_to_search ucmp level files u (InternalKey u s kTypeValue) = Some l /\ right_files u s files l.
Proof.
  intros HL Hu Hs. destruct level as [|level]; cbn [files_to_search]; [eexists; split; [done|by apply right_level0]|]. destruct HL as [Hh [HS Hlen]].
  pose proof (holds_file_oks files Hh) as Hok.
  destruct (FindFile_spec files (InternalKey u s kTypeValue)) as (m & E & Hm & Hlo & Hhi); [by apply internal_ok_key|done|by apply level_sorted_largest|done|].
  rewrite E. cbn [mbind option_bind]. destruct (Z.geb_spec (Z.of_nat m) (Z.of_nat (length files))) as [Hge|Hlt].
  - exists []. split; [done|]. split; [cbn; lia|]. split; [by intros f Hf%elem_of_nil|]. split; [by intros [|]|]. intros _ y (g & Hg & Hy)%in_level. rewrite take_ge in Hlo by lia.
    rewrite Forall_forall in Hh, Hlo. by apply (before_hidden g y u s); auto.
  - rewrite Nat2Z.id. destruct (lookup_lt_is_Some_2 files m ltac:(lia)) as [f Ef]. rewrite Ef. cbn [mbind option_bind]. eexists. split; [done|].
    apply (right_one files u s m f); [done..|]. rewrite (drop_S _ _ _ Ef) in Hhi. by apply Forall_cons in Hhi as [? _].
Qed.

(** ** From level to level *)

(** The versions in all files. *)
Definition all_versions (levels : list (list File)) : list Version := concat (map level_versions levels).

(** Entries never hop across levels: what is in a lower level is newer. *)
Fixpoint newer_above (levels : list (list File)) : Prop :=
  match levels with
  | [] => True
  | files :: levels =>
      (forall x y u s, ok u -> x ∈ level_versions files -> y ∈ all_versions levels -> visible_to u s x -> visible_to u s y -> LvFormat.sequence y.1 <= LvFormat.sequence x.1) /\
      newer_above levels
  end.

Fixpoint levels_ok (level : nat) (levels : list (list File)) : Prop :=
  match levels with
  | [] => True
  | files :: levels => level_ok level files /\ levels_ok (S level) levels
  end.

Section Levels.
Context {T : Type} `{TR : TableReader T} (all_files : list File) (Inv : nat -> T -> Prop) {TL : TableReaderLaws T all_files Inv}.
Context (u : Slice) (s : Z) (Hu : ok u) (Hs : seq_ok s).

Lemma none_app l1 l2 : none_visible u s l1 -> none_visible u s l2 -> none_visible u s (l1 ++ l2).
Proof. intros H1 H2 y [Hy|Hy]%elem_of_app; [by apply H1|by apply H2]. Qed.

Lemma newest_skip l1 l2 x : none_visible u s l1 -> newest_of u s l2 x -> newest_of u s (l1 ++ l2) x.
Proof.
  intros H1 (Hx & Hv & Hmax). split; [apply elem_of_app; by right|]. split; [done|]. intros y [Hy|Hy]%elem_of_app Hvy; [by destruct (H1 y Hy)|by apply Hmax].
Qed.

Definition get_result (vs : list Version) (st : Status) (value : option Slice) : Prop :=
  (exists x, newest_of u s vs x /\ answers st value x) \/ none_visible u s vs /\ st = Status_NotFound [] [] /\ value = None.

Lemma search_levels_spec levels n : forall level, levels_ok level levels -> newer_above levels -> (forall files f, files ∈ levels -> f ∈ files -> f ∈ all_files) ->
  forall p t, Inv (length (concat levels) + n) t -> exists st value stats t', search_levels ucmp level levels u (InternalKey u s kTypeValue) p t = Ret ((st, value, stats), t') /\ Inv n t' /\
    get_result (all_versions levels) st value.
Proof.
  induction levels as [|files levels IH]; intros level HL HN Hin p t Ht; cbn [search_levels].
  { exists (Status_NotFound [] []), None, p.1, t. split; [done|]. split; [done|]. right. split; [|done]. intros y Hy. by apply elem_of_nil in Hy. }
  destruct HL as [HL1 HL2], HN as [HN1 HN2]. specialize (IH (S level) HL2 HN2 ltac:(intros fs f Hfs; apply Hin; by right)).
  change (all_versions (files :: levels)) with (level_versions files ++ all_versions levels).
  cbn [concat] in Ht. rewrite length_app in Ht.
  assert (Hgo : forall p' t', Inv (length (concat levels) + n) t' -> none_visible u s (level_versions files) ->
    exists st value stats t2, search_levels ucmp (S level) levels u (InternalKey u s kTypeValue) p' t' = Ret ((st, value, stats), t2) /\ Inv n t2 /\
      get_result (level_versions files ++ all_versions levels) st value).
  { intros p' t' Ht' Hnone. destruct (IH p' t' Ht') as (st & value & stats & t2 & E2 & Ht2 & Hres). exists st, value, stats, t2. split; [done|]. split; [done|].
    destruct Hres as [(x & Hx & Ha)|(Hn & Hst)]; [left; exists x; split; [by apply newest_skip|done]|right; split; [by apply none_app|done]]. }
  destruct files as [|f0 fs]; [apply Hgo; [done|]; intros y Hy; by apply elem_of_nil in Hy|]. set (files := f0 :: fs) in *.
  destruct (files_to_search_spec level files u s HL1 Hu Hs) as (l & El & Hll & Hl & Hnew & Hnone). rewrite El. cbn [need].
  unfold bind at 1, ret at 1. destruct HL1 as [Hh _]. rewrite Forall_forall in Hh.
  destruct (search_files_spec all_files Inv u s Hu Hs (Z.of_nat level) l (length (concat levels) + n) ltac:(intros f Hf; split; [apply (Hin files); [by left|by apply Hl]|by apply Hh, Hl]) p t) as (r & t1 & E1 & Ht1 & Hr).
  { apply (inv_less all_files Inv (length files - length l)). by replace (length files - length l + (length l + (length (concat levels) + n)))%nat with (length files + length (concat levels) + n)%nat by lia. }
  rewrite (bind_eq _ _ _ _ _ E1). destruct r as [[[st value] stats]|p1].
  - destruct Hr as (l1 & f & l2 & x & E & Hl1 & Hx & Ha). pose proof (Hnew l1 f l2 x E Hl1 Hx) as (Hxin & Hxv & Hxmax).
    exists st, value, stats, t1. split; [done|]. split; [by apply (inv_less all_files Inv (length (concat levels)))|]. left. exists x. split; [|done]. split; [apply elem_of_app; by left|]. split; [done|].
    intros y [Hy|Hy]%elem_of_app Hvy; [by apply Hxmax|by apply (HN1 x y u s)].
  - apply Hgo; [done|]. by apply Hnone.
Qed.
End Levels.
End Props.

(** What the newest version of the user key that is no later than [s] says: its
    value, or that it is not found when that is a deletion or there is none. *)
Definition newest_answer (ucmp : Comparator) (vs : list Version) (u : Slice) (s : Z) (st : Status) (value : option Slice) : Prop :=
  (exists x, x ∈ vs /\ Compare ucmp (user_key x.1) u = 0 /\ LvFormat.sequence x.1 <= s /\
     (forall y, y ∈ vs -> Compare ucmp (user_key y.1) u = 0 -> LvFormat.sequence y.1 <= s -> LvFormat.sequence y.1 <= LvFormat.sequence x.1) /\
     match type x.1 with kTypeValue => st = Status_OK /\ value = Some x.2 | kTypeDeletion => st = Status_NotFound [] [] /\ value = None end) \/
  (forall y, y ∈ vs -> Compare ucmp (user_key y.1) u = 0 -> s < LvFormat.sequence y.1) /\ st = Status_NotFound [] [] /\ value = None.

Lemma Version_Get_spec {T} {TR : TableReader T} ucmp ok {UL : ComparatorLaws ucmp ok} contents Inv files_
    {TL : TableReaderLaws (ucmp := ucmp) (ok := ok) contents T (concat files_) Inv} u s n t :
  ok u -> seq_ok s -> size u < 2 ^ 32 - 13 ->
  levels_ok (ucmp := ucmp) (ok := ok) contents 0 files_ -> newer_above (ucmp := ucmp) (ok := ok) contents files_ -> Inv (length (concat files_) + n)%nat t ->
  exists st value stats t', Version_Get ucmp files_ (LookupKey_new u s) t = Ret ((st, value, stats), t') /\ Inv n t' /\
    newest_answer ucmp (all_versions contents files_) u s st value.
Proof.
  intros Hu Hs Hsize HL HN Ht. destruct (LookupKey_parts u s) as (_ & Ek & Eu); [lia|]. unfold Version_Get. rewrite Ek, Eu.
  assert (Hin : forall files f, files ∈ files_ -> f ∈ files -> f ∈ concat files_) by (intros files f H1 H2; rewrite list_elem_of_In, in_concat; exists files; by rewrite <- !list_elem_of_In).
  destruct (search_levels_spec contents (concat files_) Inv u s Hu Hs files_ n 0 HL HN Hin ({| seek_file := None; seek_file_level := -1 |}, None) t Ht)
    as (st & value & stats & t' & E & Ht' & Hres). exists st, value, stats, t'. split; [exact E|]. split; [done|].
  destruct Hres as [(x & (Hx & [Hv1 Hv2] & Hmax) & Ha)|(Hn & Hst)]; [left|right].
  - exists x. split_and!; [done..| |exact Ha]. intros y Hy H1 H2. by apply Hmax.
  - split; [|done]. intros y Hy H1. apply Z.lt_nge. intros H2. by apply (Hn y Hy).
Qed.

(** C6: lookups in a version are right: with files whose bounds are those of
    their entries, the files of level 0 newer the greater their numbers, those
    of each other level in order and apart, and no entry of a lower level older
    than one of its key in a higher level, [Version::Get], which stops at the
    first file with an answer, returns what the newest version of the user key
    that is no later than the snapshot says among the entries of all files: its
    value, or that it is not found when that is a deletion or there is none. It
    looks into each file once at most. *)
Theorem Version_Get_newest {T} {TR : TableReader T} ucmp ok {UL : ComparatorLaws ucmp ok} contents Inv files_
    {TL : TableReaderLaws (ucmp := ucmp) (ok := ok) contents T (concat files_) Inv} u s n t :
  ok u -> seq_ok s -> size u < 2 ^ 32 - 13 ->
  levels_ok (ucmp := ucmp) (ok := ok) contents 0 files_ -> newer_above (ucmp := ucmp) (ok := ok) contents files_ -> Inv (length (concat files_) + n)%nat t ->
  exists st value stats t', Version_Get ucmp files_ (LookupKey_new u s) t = Ret ((st, value, stats), t') /\ Inv n t' /\
    newest_answer ucmp (all_versions contents files_) u s st value.
Proof. intros Hu Hs Hsize HL HN Ht. by apply (Version_Get_spec ucmp ok). Qed.

(** Tables as lists of entries, read without a filter. *)
Definition list_reader (ucmp : Comparator) (table : Z -> list Version) : TableReader unit :=
  fun number _ key => ret (Status_OK, version_entry <$> List.find (fun x => 0 <=? InternalKey_Compare ucmp (version_entry x).1 key) (table number)).

Lemma find_first {A} (p : A -> bool) l : match List.find p l with
  | Some x => exists l1 l2, l = l1 ++ x :: l2 /\ Forall (fun y => p y = false) l1 /\ p x = true
  | None => Forall (fun y => p y = false) l
  end.
Proof.
  induction l as [|x l IH]; cbn [List.find]; [constructor|]. destruct (p x) eqn:E; [by exists [], l|]. destruct (List.find p l) as [y|].
  - destruct IH as (l1 & l2 & -> & HF & Hy). exists (x :: l1), l2. split; [done|]. split; [by constructor|done].
  - by constructor.
Qed.

Lemma list_reader_laws ucmp ok {UL : ComparatorLaws ucmp ok} table files : (forall f, f ∈ files -> Forall (version_ok (ok := ok)) (table (f_number f))) ->
  TableReaderLaws (ucmp := ucmp) (ok := ok) (fun f => table (f_number f)) unit (H := list_reader ucmp table) files (fun _ _ => True).
Proof.
  intros Hok. constructor; [done|]. intros n t f u s _ Hf Hu Hs. do 2 eexists. split; [reflexivity|]. split; [done|]. specialize (Hok f Hf). rewrite Forall_forall in Hok.
  pose proof (find_first (fun x => 0 <=? InternalKey_Compare ucmp (version_entry x).1 (InternalKey u s kTypeValue)) (table (f_number f))) as HF.
  destruct (List.find _ _) as [x|]; cbn [fmap option_fmap option_map first_entry].
  - destruct HF as (l1 & l2 & El & Hlo & Hhi%Z.leb_le). exists l1, x, l2. split; [done|]. split; [done|]. split; [|done].
    apply (Forall_impl _ _ _ Hlo). intros y Hy%Z.leb_gt. exact Hy.
  - rewrite Forall_forall in HF |- *. intros y Hy Hv. specialize (HF y Hy). apply Z.leb_gt in HF.
    pose proof (entry_not_before (ok := ok) y u s (Hok y Hy) Hs Hv). lia.
Qed.

Definition ver (k : string) (s : Z) (t : ValueType) (v : string) : Version := ({| user_key := chars k; LvFormat.sequence := s; type := t |}, chars v).

Definition sample_table (number : Z) : list Version :=
  if number =? 5 then [ver "a" 9 kTypeValue "new"]
  else if number =? 3 then [ver "a" 4 kTypeValue "old"; ver "b" 3 kTypeDeletion ""]
  else [ver "b" 1 kTypeValue "x"; ver "c" 2 kTypeValue "y"].

Definition sample_file (n : Z) (x y : Version) : File :=
  {| f_ptr := Z.to_nat n; f_number := n; f_size := 100; f_smallest := (version_entry x).1; f_largest := (version_entry y).1 |}.

Definition sample_levels : list (list File) :=
  [[sample_file 5 (ver "a" 9 kTypeValue "new") (ver "a" 9 kTypeValue "new")];
   [sample_file 3 (ver "a" 4 kTypeValue "old") (ver "b" 3 kTypeDeletion "")];
   [sample_file 1 (ver "b" 1 kTypeValue "x") (ver "c" 2 kTypeValue "y")]; []; []; []; []].

Lemma sample_versions_ok n : Forall (version_ok (ok := is_bytes)) (sample_table n).
Proof.
  unfold sample_table. repeat case_match; repeat first [apply Forall_nil_2|apply Forall_cons_2]; (split; [cbn; solve_bytes|split; vm_compute; discriminate]).
Qed.

Ltac sample_holds := constructor; [apply sample_versions_ok
  | cbn; repeat first [apply SSorted_nil|apply SSorted_cons|apply Forall_nil_2|apply Forall_cons_2]; vm_compute; reflexivity
  | cbn; eexists; split; reflexivity | cbn; eexists; split; reflexivity].

Lemma sample_levels_ok : levels_ok (ucmp := BytewiseComparator) (ok := is_bytes) (fun f => sample_table (f_number f)) 0 sample_levels.
Proof.
  repeat split; cbn [length]; try lia; repeat first [apply Forall_nil_2|apply Forall_cons_2|apply SSorted_nil|apply SSorted_cons]; try sample_holds.
  intros f g x y u s ->%list_elem_of_singleton ->%list_elem_of_singleton _ _ _ _ _ _. by left.
Qed.

Lemma sample_newer : newer_above (ucmp := BytewiseComparator) (ok := is_bytes) (fun f => sample_table (f_number f)) sample_levels.
Proof.
  assert (Hc : forall u x y : Slice, is_bytes u -> is_bytes x -> is_bytes y -> Slice_compare x u = 0 -> Slice_compare y u = 0 -> x = y).
  { intros u x y _ _ _ H1%compare_eq_iff H2%compare_eq_iff. congruence. }
  cbn [newer_above sample_levels]. split_and!; try done; intros x y u s Hu Hx Hy [Hx1 _] [Hy1 _]; apply compare_eq_iff in Hx1; apply compare_eq_iff in Hy1; cbn in Hx, Hy;
    rewrite ?elem_of_cons in Hx; rewrite ?elem_of_cons in Hy; destruct_or?; try (by apply elem_of_nil in Hx); try (by apply elem_of_nil in Hy); subst x y;
    cbn [ver fst user_key LvFormat.sequence] in *; try lia; exfalso; rewrite <- Hx1 in Hy1; discriminate Hy1.
Qed.

Lemma Version_Get_newest_witness :
  exists st value stats, Version_Get (TR := list_reader BytewiseComparator sample_table) BytewiseComparator sample_levels (LookupKey_new (chars "a") 8) tt = Ret ((st, value, stats), tt) /\ st = Status_OK.
Proof.
  destruct (Version_Get_newest (TR := list_reader BytewiseComparator sample_table) BytewiseComparator is_bytes (fun f => sample_table (f_number f)) (fun _ _ => True) sample_levels
    (TL := list_reader_laws BytewiseComparator is_bytes sample_table (concat sample_levels) (fun f _ => sample_versions_ok (f_number f))) (chars "a") 8 O tt)
    as (st & value & stats & [] & E & _ & H).
  - solve_bytes.
  - split; vm_compute; discriminate.
  - by vm_compute.
  - exact sample_levels_ok.
  - exact sample_newer.
  - done.
  - exists st, value, stats. split; [exact E|]. destruct H as [(x & Hx & Hu & Hs & _ & Ha)|(Hn & _)].
    + cbn in Hx. rewrite ?elem_of_cons in Hx. destruct_or? Hx; try (by apply elem_of_nil in Hx); subst x; try (vm_compute in Hu; discriminate Hu); try (cbn in Hs; lia).
      exact (proj1 Ha).
    + specialize (Hn (ver "a" 4 kTypeValue "old")). cbn in Hn. enough (8 < 4) by lia. apply Hn; [rewrite !elem_of_cons; auto|by vm_compute].
Defined.
