(* ===== verification/LvTableCache.v ===== *)
(** The table cache ([db/table_cache.cc]): tables of the database that are open,
    behind a [Cache], and what lookups and iterators do to find them. It is proved
    to be a [TableReader], so lookups in a version go through all the layers
    down to the bytes of the files. *)

From stdpp Require Import base list gmap strings sorting.
From Stdlib Require Import ZArith Lia.
From S2P Require Import Prelude LvSlice LvCoding LvBloom LvFormat LvEnv LvFilename LvIterator LvBlock LvBlockIter LvFilterBlock LvTableFormat LvIterWrap LvTwoLevel LvOptions LvTableBuilder LvTableBuildProps LvCacheApi LvCache LvCacheSharded LvTable LvTableProps LvTableRoundtrip LvDbIter LvVersion LvVersionGet.

(** [Env::NewRandomAccessFile]: the files have states [G] of their own. *)
Class RandomFiles (E G : Type) : Type :=
  Env_NewRandomAccessFile : Slice -> M E (Status * option G).

(** An open table; the file is behind a pointer. *)
Record TableAndFile : Type := { tf_file : nat; tf_table : LvTable.Rep }.

(** The environment, the files that are open, [cache_], and the block cache of
    the options. The deleter of [cache_] closes the file of an entry; the file
    stays in the store, where nothing refers to it any more. *)
Record TableCache (E G C BC : Type) : Type := {
  tc_env : E; tc_files : gmap nat G; tc_next : nat; tc_cache : C; tc_blocks : BC
}.
Arguments tc_env {E G C BC} _.
Arguments tc_files {E G C BC} _.
Arguments tc_next {E G C BC} _.
Arguments tc_cache {E G C BC} _.
Arguments tc_blocks {E G C BC} _.
Arguments Build_TableCache {E G C BC} _ _ _ _ _.

Section Code.
Context {E G C H BC BH : Type} `{RF : RandomFiles E G} `{RA : RandomAccessFile G} `{TCC : Cache C H TableAndFile} `{BCC : Cache BC BH Block}.
Context (address : Z) (dbname_ : Slice) (options_ : Options).
Abbreviation T := (TableCache E G C BC).

Definition on_disk {A} (c : M E A) : M T A := fun t =>
  match c (tc_env t) with
  | Ret (a, e) => Ret (a, Build_TableCache e (tc_files t) (tc_next t) (tc_cache t) (tc_blocks t))
  | Undef => Undef
  | NoFuel => NoFuel
  end.

Definition on_tables {A} (c : M C A) : M T A := fun t =>
  match c (tc_cache t) with
  | Ret (a, ca) => Ret (a, Build_TableCache (tc_env t) (tc_files t) (tc_next t) ca (tc_blocks t))
  | Undef => Undef
  | NoFuel => NoFuel
  end.

(** A call on the file [p] and the block cache. *)
Definition with_file (p : nat) (e : TableEnv G BC) (t : T) : T :=
  Build_TableCache (tc_env t) (<[p := env_file e]> (tc_files t)) (tc_next t) (tc_cache t) (env_cache e).

Definition on_table {A} (p : nat) (c : M (TableEnv G BC) A) : M T A := fun t =>
  match tc_files t !! p with
  | None => Undef
  | Some g => match c (Build_TableEnv g (tc_blocks t)) with
              | Ret (a, e) => Ret (a, with_file p e t)
              | Undef => Undef
              | NoFuel => NoFuel
              end
  end.

(** What [NewRandomAccessFile] allocated; [delete file]. *)
Definition own_file (g : G) : M T nat := fun t =>
  Ret (tc_next t, Build_TableCache (tc_env t) (<[tc_next t := g]> (tc_files t)) (S (tc_next t)) (tc_cache t) (tc_blocks t)).

Definition delete_file (p : nat) : M T unit := fun t =>
  Ret (tt, Build_TableCache (tc_env t) (delete p (tc_files t)) (tc_next t) (tc_cache t) (tc_blocks t)).

(** The file under its name or the name it had in old databases. *)
Definition open_table_file (file_number : Z) : M T (Status * option G) :=
  let* fname := need (TableFileName dbname_ file_number) in
  let* '(s, file) := on_disk (Env_NewRandomAccessFile fname) in
  if Status_ok s then ret (s, file)
  else
    let* old_fname := need (SSTTableFileName dbname_ file_number) in
    let* '(s2, file) := on_disk (Env_NewRandomAccessFile old_fname) in
    ret (if Status_ok s2 then Status_OK else s, file).

Definition FindTable (file_number file_size : Z) : M T (Status * option H) :=
  let key := EncodeFixed64 file_number in
  let* handle := on_tables (Cache_Lookup key) in
  match handle with
  | Some h => ret (Status_OK, Some h)
  | None =>
      let* '(s, file) := open_table_file file_number in
      if negb (Status_ok s) then ret (s, None)
      else
        let* g := need file in
        let* p := own_file g in
        let* '(s, table) := on_table p (Table_Open address options_ file_size) in
        if negb (Status_ok s) then
          match table with
          | Some _ => undef
          | None => delete_file p ;;; ret (s, None)
          end
        else
          let* table := need table in
          let* h := on_tables (Cache_Insert key {| tf_file := p; tf_table := table |} 1) in
          ret (s, Some h)
  end.

(** The call of [handle_result] that is made, if any. *)
Definition TableCache_Get (options : ReadOptions) (file_number file_size : Z) (k : Slice) : M T (Status * option (Slice * Slice)) :=
  let* '(s, handle) := FindTable file_number file_size in
  if Status_ok s then
    let* h := need handle in
    let* tf := on_tables (Cache_Value h) in
    let* '(s, r) := on_table (tf_file tf) (InternalGet address (tf_table tf) options k) in
    on_tables (Cache_Release h) ;;;
    ret (s, r)
  else ret (s, None).

Definition Evict (file_number : Z) : M T unit := on_tables (Cache_Erase (EncodeFixed64 file_number)).

(** ** Iterators *)

Abbreviation TableIter := (TwoLevelIterator (TableEnv G BC) (AnyIter (BlockCleanup BH)) (AnyIter (BlockCleanup BH))).

(** An iterator over a table takes the table cache with it: the file and the
    block cache are in the iterator of the table. [ci_handle] is the argument of
    its cleanup function [UnrefEntry]. *)
Inductive CacheIterKind : Type :=
| ErrorIter (it : EmptyIterator)
| OpenIter (file : nat) (table : LvTable.Rep) (handle : H) (it : TableIter).
Record CacheIter : Type := { ci_cache : T; ci_kind : CacheIterKind }.

Definition UnrefEntry (h : H) : M T unit := on_tables (Cache_Release h).

Definition TableCache_NewIterator (file_number file_size : Z) (t : T) : outcome CacheIter :=
  match FindTable file_number file_size t with
  | Ret ((s, handle), t) =>
      if negb (Status_ok s) then Ret {| ci_cache := t; ci_kind := ErrorIter (NewErrorIterator s) |}
      else
        match handle with
        | None => Undef
        | Some h =>
            match on_tables (Cache_Value h) t with
            | Ret (tf, t) =>
                match tc_files t !! tf_file tf with
                | None => Undef
                | Some g =>
                    match Table_NewIterator (tf_table tf) (Build_TableEnv g (tc_blocks t)) with
                    | Ret it => Ret {| ci_cache := t; ci_kind := OpenIter (tf_file tf) (tf_table tf) h it |}
                    | Undef => Undef
                    | NoFuel => NoFuel
                    end
                end
            | Undef => Undef
            | NoFuel => NoFuel
            end
        end
  | Undef => Undef
  | NoFuel => NoFuel
  end.

Context (options : ReadOptions) (skip_fuel : nat).
Abbreviation table_iter rep := (Table_iterator address rep options skip_fuel).

Definition on_kind {A} (e : M EmptyIterator A) (b : forall rep, M TableIter A) : M CacheIter A := fun ci =>
  match ci_kind ci with
  | ErrorIter it => match e it with
                    | Ret (a, it) => Ret (a, {| ci_cache := ci_cache ci; ci_kind := ErrorIter it |})
                    | Undef => Undef
                    | NoFuel => NoFuel
                    end
  | OpenIter p rep h it => match b rep it with
                           | Ret (a, it) => Ret (a, {| ci_cache := ci_cache ci; ci_kind := OpenIter p rep h it |})
                           | Undef => Undef
                           | NoFuel => NoFuel
                           end
  end.

#[export] Instance CacheIter_iterator : Iterator CacheIter := {
  iter_Valid ci := match ci_kind ci with ErrorIter it => iter_Valid it | OpenIter _ rep _ it => iter_Valid (Iterator := table_iter rep) it end;
  iter_SeekToFirst := on_kind iter_SeekToFirst (fun rep => iter_SeekToFirst (Iterator := table_iter rep));
  iter_SeekToLast := on_kind iter_SeekToLast (fun rep => iter_SeekToLast (Iterator := table_iter rep));
  iter_Seek target := on_kind (iter_Seek target) (fun rep => iter_Seek (Iterator := table_iter rep) target);
  iter_Next := on_kind iter_Next (fun rep => iter_Next (Iterator := table_iter rep));
  iter_Prev := on_kind iter_Prev (fun rep => iter_Prev (Iterator := table_iter rep));
  iter_key := on_kind iter_key (fun rep => iter_key (Iterator := table_iter rep));
  iter_value := on_kind iter_value (fun rep => iter_value (Iterator := table_iter rep));
  iter_status ci := match ci_kind ci with ErrorIter it => iter_status it | OpenIter _ rep _ it => iter_status (Iterator := table_iter rep) it end
}.

(** [delete iter]: the iterator of the table, then the cleanup function. *)
Definition CacheIter_delete (ci : CacheIter) : outcome T :=
  match ci_kind ci with
  | ErrorIter _ => Ret (ci_cache ci)
  | OpenIter p rep h it =>
      match Table_delete_iterator it with
      | Ret e => match UnrefEntry h (with_file p e (ci_cache ci)) with
                 | Ret (_, t) => Ret t
                 | Undef => Undef
                 | NoFuel => NoFuel
                 end
      | Undef => Undef
      | NoFuel => NoFuel
      end
  end.
End Code.

(** The table cache serves [Version::Get]. *)
Definition cache_reader {E G C H BC BH} `{RF : RandomFiles E G} `{RA : RandomAccessFile G} `{TCC : Cache C H TableAndFile} `{BCC : Cache BC BH Block}
    (address : Z) (dbname_ : Slice) (options_ : Options) (options : ReadOptions) : TableReader (TableCache E G C BC) :=
  TableCache_Get (H := H) (BH := BH) address dbname_ options_ options.

(** * Tables of internal keys *)

Section Internal.
Context (ucmp : Comparator) (ok : Slice -> Prop) {TC : TableComparator ucmp ok}.
Abbreviation icmp := (InternalKeyComparator ucmp).

Definition internal_key_ok (k : Slice) : Prop := internal_ok ok k /\ is_bytes k.

Lemma internal_key_valid u s t : ok u -> internal_key_ok (InternalKey u s t).
Proof.
  intros Hu. split; [by apply internal_ok_key|]. unfold InternalKey. apply is_bytes_app. split; [by apply (tc_bytes (c := ucmp) (ok := ok))|apply EncodeFixed64_bytes].
Qed.

(** A separator is the key it was made from, or a shortened user key with the
    largest number. *)
Lemma internal_separator_cases s l : FindShortestSeparator icmp s l = s \/
  let tmp := FindShortestSeparator ucmp (ExtractUserKey s) (ExtractUserKey l) in
  FindShortestSeparator icmp s l = PutFixed64 tmp (PackSequenceAndType kMaxSequenceNumber kValueTypeForSeek) /\
  size tmp < size (ExtractUserKey s) /\ Compare ucmp (ExtractUserKey s) tmp < 0.
Proof.
  cbn [FindShortestSeparator InternalKeyComparator]. unfold InternalKey_FindShortestSeparator. set (tmp := FindShortestSeparator ucmp _ _).
  destruct (Z.ltb_spec (size tmp) (size (ExtractUserKey s))); cbn [andb]; [|by left]. destruct (Z.ltb_spec (Compare ucmp (ExtractUserKey s) tmp) 0); [by right|by left].
Qed.

Lemma internal_successor_cases k : FindShortSuccessor icmp k = k \/
  let tmp := FindShortSuccessor ucmp (ExtractUserKey k) in
  FindShortSuccessor icmp k = PutFixed64 tmp (PackSequenceAndType kMaxSequenceNumber kValueTypeForSeek) /\ size tmp < size (ExtractUserKey k).
Proof.
  cbn [FindShortSuccessor InternalKeyComparator]. unfold InternalKey_FindShortSuccessor. set (tmp := FindShortSuccessor ucmp _).
  destruct (Z.ltb_spec (size tmp) (size (ExtractUserKey k))); cbn [andb]; [|by left]. destruct (Z.ltb_spec (Compare ucmp (ExtractUserKey k) tmp) 0); [by right|by left].
Qed.

Lemma shortened_size tmp n : size (PutFixed64 tmp n) = size tmp + 8.
Proof. unfold PutFixed64. rewrite size_app. unfold size at 2. by rewrite length_EncodeFixed64. Qed.

Lemma internal_size k : internal_ok ok k -> size k = size (ExtractUserKey k) + 8.
Proof. intros [Hk _]. unfold ExtractUserKey, size. rewrite length_take. lia. Qed.

Lemma shortened_ok tmp n : ok tmp -> is_bytes (PutFixed64 tmp n).
Proof. intros Ht. unfold PutFixed64. apply is_bytes_app. split; [by apply (tc_bytes (c := ucmp) (ok := ok))|apply EncodeFixed64_bytes]. Qed.

(** When the limit is greater, so is its user key unless they are equal. *)
Lemma shortened_below s l : internal_ok ok s -> internal_ok ok l -> Compare icmp s l < 0 ->
  let tmp := FindShortestSeparator ucmp (ExtractUserKey s) (ExtractUserKey l) in
  size tmp < size (ExtractUserKey s) -> ok tmp /\ Compare ucmp tmp (ExtractUserKey l) < 0.
Proof.
  intros [_ Us] [_ Ul] Hlt tmp Hsz. destruct (Z.lt_ge_cases (Compare ucmp (ExtractUserKey s) (ExtractUserKey l)) 0) as [H|H].
  - destruct (cmp_separator (ExtractUserKey s) (ExtractUserKey l) Us Ul H) as (H1 & _ & H2). by split.
  - exfalso. assert (tmp = ExtractUserKey s) as E by (by apply cmp_separator_id). rewrite E in Hsz. lia.
Qed.

Lemma internal_key_laws : ComparatorLaws icmp internal_key_ok.
Proof.
  pose proof (internal_laws (ucmp := ucmp) (ok := ok)) as L. constructor.
  - constructor; [intros a b [Ha _] [Hb _]; by apply (cmp_flip (cmp := Compare icmp) (ok := internal_ok ok))|].
    intros x y z [Hx _] [Hy _] [Hz _]. by apply (cmp_le_trans (cmp := Compare icmp) (ok := internal_ok ok)).
  - intros s l [Hs Bs] [Hl _] Hlt. destruct (cmp_separator (ok := internal_ok ok) s l Hs Hl Hlt) as (H1 & H2 & H3). split; [|done]. split; [done|].
    destruct (internal_separator_cases s l) as [->|(-> & Hsz & _)]; [done|]. apply shortened_ok. by apply (shortened_below s l).
  - intros s l [Hs _] [Hl _]. by apply (cmp_separator_id (ok := internal_ok ok)).
  - intros k [Hk Bk]. destruct (cmp_successor (ok := internal_ok ok) k Hk) as [H1 H2]. split; [|done]. split; [done|].
    destruct (internal_successor_cases k) as [->|(-> & _)]; [done|]. destruct Hk as [_ Uk]. by apply shortened_ok, (cmp_successor (ok := ok)).
Qed.

(** Readers look for versions of the same user key. *)
Definition same_user (q k : Slice) : Prop := Compare ucmp (ExtractUserKey q) (ExtractUserKey k) = 0.

#[export] Instance internal_table : TableComparator icmp internal_key_ok.
Proof.
  apply (Build_TableComparator _ _ same_user); [apply internal_key_laws|..].
  - intros k [[_ Uk] _]. by apply (cmp_refl (cmp := Compare ucmp) (ok := ok)).
  - intros q x k [[_ Uq] _] [[_ Ux] _] [[_ Uk] _] H1%internal_le_user H2%internal_le_user Hs. unfold same_user in *.
    pose proof (cmp_flip (cmp := Compare ucmp) (ExtractUserKey q) (ExtractUserKey k) Uq Uk). pose proof (cmp_flip (cmp := Compare ucmp) (ExtractUserKey q) (ExtractUserKey x) Uq Ux).
    pose proof (cmp_le_trans (cmp := Compare ucmp) _ _ _ Ux Uk Uq H2 ltac:(lia)). lia.
  - intros s l q [Hs _] [Hl _] [Hq _] Hlt Hsame Hge. destruct (internal_separator_cases s l) as [E|(E & Hsz & _)]; rewrite E in Hge; [done|]. exfalso.
    destruct (shortened_below s l Hs Hl Hlt Hsz) as [Ht Htl]. destruct Hq as [_ Uq], Hl as [_ Ul]. unfold same_user in Hsame.
    apply Z.le_ngt in Hge. apply Hge. apply internal_user_lt. rewrite internal_shortened.
    pose proof (cmp_flip (cmp := Compare ucmp) (ExtractUserKey q) (ExtractUserKey l) Uq Ul). apply (cmp_lt_le_trans (cmp := Compare ucmp) _ (ExtractUserKey l)); [done..|lia].
  - by intros k [_ Hk].
  - intros s l [Hs _] [Hl _]. destruct (internal_separator_cases s l) as [->|(-> & Hsz & _)]; [done|]. rewrite shortened_size, (internal_size s Hs). lia.
  - intros k [Hk _]. destruct (internal_successor_cases k) as [->|(-> & Hsz)]; [done|]. rewrite shortened_size, (internal_size k Hk). lia.
Defined.

#[export] Instance internal_policy p c : TablePolicy p ok c -> TablePolicy (InternalFilterPolicy p) internal_key_ok c.
Proof.
  intros Hp. constructor.
  - destruct (internal_filter_laws p ok (tp_laws (ok := ok))) as [H1 H2]. constructor; [exact H1|]. intros keys key Hn Hok Hin. apply H2; [done| |done].
    apply (Forall_impl _ _ _ Hok). by intros k [[_ Uk] _].
  - apply (tp_c (p := p) (ok := ok) (c := c)).
  - apply (tp_name (p := p) (ok := ok) (c := c)).
  - intros keys. apply (tp_bytes (p := p) (ok := ok) (c := c)).
  - intros keys Hn. rewrite <- (length_map ExtractUserKey keys) in *. by apply (tp_size (p := p) (ok := ok)).
Qed.
End Internal.

(** * Lookups through the cache *)

(** A disk that does not fail: [Disk e d] are the files and what they contain. *)
Class RandomFilesLaws (E G : Type) `{RandomFiles E G} (Contains : G -> Slice -> Prop) (Disk : E -> gmap Slice Slice -> Prop) : Prop := {
  open_there e d name w : Disk e d -> d !! name = Some w ->
    exists g e', Env_NewRandomAccessFile name e = Ret ((Status_OK, Some g), e') /\ Contains g w /\ Disk e' d;
  open_missing e d name : Disk e d -> d !! name = None ->
    exists s e', Env_NewRandomAccessFile name e = Ret ((s, None), e') /\ Status_ok s = false /\ Disk e' d
}.

Lemma EncodeFixed64_inj a b : 0 <= a < 2 ^ 64 -> 0 <= b < 2 ^ 64 -> EncodeFixed64 a = EncodeFixed64 b -> a = b.
Proof.
  intros Ha Hb E. rewrite <- (DecodeFixed64_app a []), <- (DecodeFixed64_app b []) by done. by rewrite !app_nil_r, E.
Qed.

Lemma block_cache_key_inj i j a b : 0 <= i < 2 ^ 64 -> 0 <= j < 2 ^ 64 -> 0 <= a < 2 ^ 64 -> 0 <= b < 2 ^ 64 ->
  block_cache_key i a = block_cache_key j b -> i = j /\ a = b.
Proof.
  intros Hi Hj Ha Hb E. apply app_inj_1 in E as [E1 E2]; [|done]. split; by apply EncodeFixed64_inj.
Qed.

Section Lookups.
Context {E G C H BC BH : Type} {RF : RandomFiles E G} {RA : RandomAccessFile G} {Contains : G -> Slice -> Prop} {RL : RandomAccessLaws G Contains}.
Context {TCC : Cache C H TableAndFile} {Open : (Slice -> TableAndFile -> Prop) -> Z -> list (H * TableAndFile) -> C -> Prop} {CL1 : CacheLaws C H TableAndFile Open}.
Context {BCC : Cache BC BH Block} {Holds : (Slice -> Block -> Prop) -> Z -> list (BH * Block) -> BC -> Prop} {CL2 : CacheLaws BC BH Block Holds}.
Context {Disk : E -> gmap Slice Slice -> Prop} {DL : RandomFilesLaws E G Contains Disk}.
Context (address : Z) (dbname_ : Slice) (o : Options) (options : ReadOptions) (ok : Slice -> Prop) (c : Z) {TC : TableComparator (comparator o) ok}.
Context (Hinterval : 1 <= block_restart_interval o) (Hpolicy : forall p, filter_policy o = Some p -> TablePolicy p ok c).
Abbreviation T := (TableCache E G C BC).
Abbreviation KV := (Slice * Slice)%type.
Abbreviation handle_of := (handle_of (block_restart_interval o) (comparator o)).
Abbreviation data := (data_of (block_restart_interval o) (comparator o)).

(** The tables on the disk, by number: the blocks and the separators of each; none
    has more than [B] blocks. *)
Context (d : gmap Slice Slice) (tables : gmap Z (list (list KV) * list Slice)) (B : nat).

Definition table_on_disk (number : Z) (w : Slice) : Prop := exists name old, TableFileName dbname_ number = Some name /\ SSTTableFileName dbname_ number = Some old /\
  (d !! name = Some w \/ d !! name = None /\ d !! old = Some w).

Record TablesOk : Prop := {
  to_number n x : tables !! n = Some x -> 0 <= n < 2 ^ 64;
  to_fits n bs seps : tables !! n = Some (bs, seps) -> Fits o ok c bs;
  to_index n bs seps : tables !! n = Some (bs, seps) -> Indexed o ok bs seps;
  to_blocks n bs seps : tables !! n = Some (bs, seps) -> (length bs <= B)%nat;
  to_disk n bs seps : tables !! n = Some (bs, seps) -> table_on_disk n (table_file o bs seps);
  to_few : Z.of_nat (base.size tables) < 2 ^ 31
}.
Context (HT : TablesOk).

(** [opened]: the tables that were opened, by file. *)
Definition table_entry (opened : gmap nat (Z * LvTable.Rep)) (k : Slice) (tf : TableAndFile) : Prop :=
  exists n, opened !! tf_file tf = Some (n, tf_table tf) /\ is_Some (tables !! n) /\ k = EncodeFixed64 n.

Definition block_entry (opened : gmap nat (Z * LvTable.Rep)) (k : Slice) (b : Block) : Prop :=
  exists p n rep bs seps j, opened !! p = Some (n, rep) /\ tables !! n = Some (bs, seps) /\ (j < length bs)%nat /\
    k = block_cache_key (cache_id rep) (offset_ (handle_of bs j)) /\ b = Block_new (data (nth j bs [])).

Definition open_ok (t : T) (p : nat) (n : Z) (rep : LvTable.Rep) : Prop :=
  exists bs seps g, tables !! n = Some (bs, seps) /\ TableOk o bs seps rep /\ tc_files t !! p = Some g /\ Contains g (table_file o bs seps).

(** Ids of tables are different numbers up to [m]; at least [k] more tables can be
    opened; [held1] and [held2] are the handles held of both caches. *)
Record CacheInv (opened : gmap nat (Z * LvTable.Rep)) (m : Z) (k : nat) held1 held2 (t : T) : Prop := {
  ci_disk : Disk (tc_env t) d;
  ci_open p n rep : opened !! p = Some (n, rep) -> (p < tc_next t)%nat /\ open_ok t p n rep;
  ci_ids p n rep : block_cache o = true -> opened !! p = Some (n, rep) -> 0 < cache_id rep <= m;
  ci_distinct p n rep p' n' rep' : block_cache o = true -> opened !! p = Some (n, rep) -> opened !! p' = Some (n', rep') -> cache_id rep = cache_id rep' -> p = p';
  ci_m : 0 <= m /\ m + Z.of_nat k < 2 ^ 64;
  ci_tables : exists i, Open (table_entry opened) i held1 (tc_cache t);
  ci_blocks : Holds (block_entry opened) m held2 (tc_blocks t);
  ci_budget : Z.of_nat ((base.size opened + k) * B) < 2 ^ 31
}.

Lemma table_entry_few opened : few_keys (2 ^ 31) (table_entry opened).
Proof.
  exists (map (fun x => EncodeFixed64 x.1) (map_to_list tables)). split; [rewrite length_map, length_map_to_list; apply to_few, HT|].
  intros k tf (n & _ & [x Hx] & ->). apply list_elem_of_fmap. exists (n, x). split; [done|]. by apply elem_of_map_to_list.
Qed.

Definition keys_of (x : nat * (Z * LvTable.Rep)) : list Slice :=
  match tables !! x.2.1 with
  | Some (bs, _) => map (fun j => block_cache_key (cache_id x.2.2) (offset_ (handle_of bs j))) (seq 0 (length bs))
  | None => []
  end.

Lemma keys_of_length l : (length (concat (map keys_of l)) <= length l * B)%nat.
Proof.
  induction l as [|x l IH]; [done|]. cbn [map concat length]. rewrite length_app. assert (length (keys_of x) <= B)%nat; [|lia].
  unfold keys_of. destruct (tables !! x.2.1) as [[bs seps]|] eqn:Et; [|cbn; lia]. rewrite length_map, length_seq. by eapply to_blocks.
Qed.

Lemma block_entry_few opened : Z.of_nat (base.size opened * B) < 2 ^ 31 -> few_keys (2 ^ 31) (block_entry opened).
Proof.
  intros Hs. exists (concat (map keys_of (map_to_list opened))). split; [pose proof (keys_of_length (map_to_list opened)) as Hk; rewrite length_map_to_list in Hk; lia|].
  intros k b (p & n & rep & bs & seps & j & Ep & Et & Hj & -> & _). apply list_elem_of_In, in_concat. exists (keys_of (p, (n, rep))). split.
  - apply in_map, list_elem_of_In. by apply elem_of_map_to_list.
  - unfold keys_of. cbn [snd fst]. rewrite Et. apply in_map_iff. exists j. split; [done|]. apply in_seq. lia.
Qed.

Lemma inv_fewer opened m k held1 held2 t : CacheInv opened m (S k) held1 held2 t -> CacheInv opened m k held1 held2 t.
Proof. intros [H1 H2 H3 H4 H5 H6 H7 H8]. constructor; [done..|lia|done|done|]. cbn [Nat.add] in H8. lia. Qed.

Lemma inv_tables opened m k held1 held1' held2 t i ca : CacheInv opened m k held1 held2 t -> Open (table_entry opened) i held1' ca ->
  CacheInv opened m k held1' held2 (Build_TableCache (tc_env t) (tc_files t) (tc_next t) ca (tc_blocks t)).
Proof. intros [H1 H2 H3 H4 H5 H6 H7 H8] HO. constructor; [done|done|done|done|done| |done|done]. by exists i. Qed.

Lemma on_cached_eq {A} (f : M C A) (t : T) a ca : f (tc_cache t) = Ret (a, ca) ->
  on_tables f t = Ret (a, Build_TableCache (tc_env t) (tc_files t) (tc_next t) ca (tc_blocks t)).
Proof. intros E1. unfold on_tables. by rewrite E1. Qed.

Definition with_env (e : E) (t : T) : T := Build_TableCache e (tc_files t) (tc_next t) (tc_cache t) (tc_blocks t).

Lemma open_table_file_spec n w t : table_on_disk n w -> Disk (tc_env t) d ->
  exists g e, open_table_file dbname_ n t = Ret ((Status_OK, Some g), with_env e t) /\ Contains g w /\ Disk e d.
Proof.
  intros (name & old & En & Eo & Hw) Hd. unfold open_table_file. rewrite En, Eo. cbn [need]. unfold bind at 1, ret at 1. destruct Hw as [Hw|[Hm Hw]].
  - destruct (open_there (tc_env t) d name w Hd Hw) as (g & e & E1 & Hc & He). exists g, e. split; [|done].
    unfold bind, on_disk. by rewrite E1.
  - destruct (open_missing (tc_env t) d name Hd Hm) as (s & e1 & E1 & Hs & He1). destruct (open_there e1 d old w He1 Hw) as (g & e & E2 & Hc & He).
    exists g, e. split; [|done]. unfold bind, on_disk. rewrite E1, Hs. unfold ret at 1. cbn [tc_env]. by rewrite E2.
Qed.

(** The number of the table, as a key. *)
Lemma number_key n : is_bytes (EncodeFixed64 n) /\ size (EncodeFixed64 n) < 2 ^ 31.
Proof. split; [apply EncodeFixed64_bytes|done]. Qed.

Lemma table_entry_at opened n tf x : tables !! n = Some x -> table_entry opened (EncodeFixed64 n) tf -> opened !! tf_file tf = Some (n, tf_table tf).
Proof.
  intros Hn (n' & Ho & [x' Hx] & E1). apply EncodeFixed64_inj in E1; [by subst n'|by apply (to_number HT n x)|by apply (to_number HT n' x')].
Qed.

Lemma table_entry_more opened p n rep k tf : opened !! p = None -> table_entry opened k tf -> table_entry (<[p := (n, rep)]> opened) k tf.
Proof. intros Hp (n' & Ho & Hn). exists n'. split; [|done]. rewrite lookup_insert_ne; [done|]. intros ->. congruence. Qed.

Lemma block_entry_more opened p n rep k b : opened !! p = None -> block_entry opened k b -> block_entry (<[p := (n, rep)]> opened) k b.
Proof.
  intros Hp (p' & n' & rep' & bs & seps & j & Ho & Hn). exists p', n', rep', bs, seps, j. split; [|done]. rewrite lookup_insert_ne; [done|]. intros ->. congruence.
Qed.

(** A file that was not opened before gets the next pointer. *)
Lemma next_unused opened m k held1 held2 t : CacheInv opened m k held1 held2 t -> opened !! tc_next t = None.
Proof. intros HI. destruct (opened !! tc_next t) as [[n rep]|] eqn:Eo; [|done]. destruct (ci_open _ _ _ _ _ _ HI _ _ _ Eo). lia. Qed.

Lemma open_ok_keep (t t' : T) p n rep : (forall g, tc_files t !! p = Some g -> tc_files t' !! p = Some g) -> open_ok t p n rep -> open_ok t' p n rep.
Proof. intros Hf (bs & seps & g & H1 & H2 & H3 & H4). exists bs, seps, g. auto. Qed.

(** The table that was opened is entered. *)
Lemma inv_opened opened m k held1 held2 t e g g' bl rep n bs seps i :
  CacheInv opened m (S k) held1 held2 t -> tables !! n = Some (bs, seps) -> Disk e d -> TableOk o bs seps rep -> Contains g' (table_file o bs seps) ->
  cache_id rep = (if block_cache o then m + 1 else 0) ->
  Holds (block_entry opened) (if block_cache o then m + 1 else m) held2 bl -> Open (table_entry opened) i held1 (tc_cache t) ->
  CacheInv (<[tc_next t := (n, rep)]> opened) (if block_cache o then m + 1 else m) k held1 held2
    (with_file (tc_next t) (Build_TableEnv g' bl) (Build_TableCache e (<[tc_next t := g]> (tc_files t)) (S (tc_next t)) (tc_cache t) (tc_blocks t))).
Proof.
  intros HI Hn He HTab Hc Hid Hb Ht. pose proof (next_unused _ _ _ _ _ _ HI) as Hnone. destruct HI as [H1 H2 H3 H4 H5 H6 H7 H8].
  unfold with_file. cbn [tc_env tc_files tc_next tc_cache tc_blocks env_file env_cache].
  assert (Hcases : forall p n' rep', <[tc_next t := (n, rep)]> opened !! p = Some (n', rep') -> p = tc_next t /\ n' = n /\ rep' = rep \/ (p < tc_next t)%nat /\ opened !! p = Some (n', rep')).
  { intros p n' rep' [[<- [= -> ->]]|[Hne Ho]]%lookup_insert_Some; [by left|right]. by destruct (H2 p n' rep' Ho). }
  constructor; cbn [tc_env tc_files tc_next tc_cache tc_blocks].
  - done.
  - intros p n' rep' [(-> & -> & ->)|[Hlt Ho]]%Hcases; (split; [lia|]).
    + exists bs, seps, g'. split; [done|]. split; [done|]. split; [cbn [tc_files]; by rewrite lookup_insert_eq|done].
    + apply (open_ok_keep t); [|by apply H2]. intros x Hx. cbn [tc_files]. by rewrite !lookup_insert_ne by lia.
  - intros p n' rep' Hbc [(-> & -> & ->)|[Hlt Ho]]%Hcases; rewrite Hbc in *; [rewrite Hid; lia|]. pose proof (H3 p n' rep' eq_refl Ho). lia.
  - intros p n1 r1 p' n2 r2 Hbc [(-> & -> & ->)|[Hlt Ho]]%Hcases [(-> & -> & ->)|[Hlt' Ho']]%Hcases Eid; rewrite Hbc in *; [done|..|by apply (H4 p n1 r1 p' n2 r2)].
    + pose proof (H3 _ _ _ eq_refl Ho'). lia.
    + pose proof (H3 _ _ _ eq_refl Ho). lia.
  - destruct (block_cache o); lia.
  - exists i. apply (holds_weaken (table_entry opened)); [intros x v; by apply table_entry_more|apply table_entry_few|done].
  - apply (holds_weaken (block_entry opened)); [intros x v; by apply block_entry_more| |done]. apply block_entry_few. rewrite map_size_insert_None by done. nia.
  - rewrite map_size_insert_None by done. cbn [Nat.add] in *. replace (S (base.size opened + k))%nat with (base.size opened + S k)%nat by lia. done.
Qed.

(** [FindTable] returns a handle of the table, which is the caller's to release. *)
Lemma FindTable_spec opened m k held1 held2 t n bs seps :
  CacheInv opened m (S k) held1 held2 t -> tables !! n = Some (bs, seps) -> Z.of_nat (length held1) + 2 < 2 ^ 31 ->
  exists h tf opened' m' t', FindTable (H := H) (BH := BH) address dbname_ o n (size (table_file o bs seps)) t = Ret ((Status_OK, Some h), t') /\
    CacheInv opened' m' k ((h, tf) :: held1) held2 t' /\ opened' !! tf_file tf = Some (n, tf_table tf).
Proof.
  intros HI Hn Hheld. destruct (number_key n) as [Hk1 Hk2]. destruct (ci_tables _ _ _ _ _ _ HI) as (i & HO). unfold FindTable.
  destruct (lookup_law _ i held1 (tc_cache t) (EncodeFixed64 n) HO Hk1 Hk2 Hheld) as (oh & ca & El & Hl). rewrite (bind_eq _ _ _ _ _ (on_cached_eq _ t _ _ El)).
  destruct oh as [h|].
  - destruct Hl as (tf & Htf & HO'). exists h, tf, opened, m. eexists. split; [reflexivity|]. split.
    + by apply (inv_tables opened m k held1 _ held2 t i ca (inv_fewer _ _ _ _ _ _ HI)).
    + by apply (table_entry_at opened n tf _ Hn).
  - set (t1 := Build_TableCache _ _ _ ca _). pose proof (inv_tables opened m (S k) held1 held1 held2 t i ca HI Hl) as HI1. fold t1 in HI1.
    destruct (open_table_file_spec n (table_file o bs seps) t1) as (g & e & Eo & Hg & He); [by apply to_disk|apply HI1|]. rewrite (bind_eq _ _ _ _ _ Eo). change (negb (Status_ok Status_OK)) with false. cbv iota.
    cbn [need]. unfold bind at 1, ret at 1. set (t2 := Build_TableCache e (<[tc_next t := g]> (tc_files t)) (S (tc_next t)) ca (tc_blocks t)).
    rewrite (bind_eq _ _ (with_env e t1) (tc_next t) t2 eq_refl). destruct (ci_m _ _ _ _ _ _ HI) as [Hm0 Hm1].
    destruct (Table_Open_spec (Contains := Contains) (Holds := Holds) address o ok c Hinterval Hpolicy bs seps (to_fits HT n bs seps Hn) (to_index HT n bs seps Hn)
      (block_entry opened) m held2 (Build_TableEnv g (tc_blocks t)) (conj Hg (ci_blocks _ _ _ _ _ _ HI)) ltac:(lia)) as (rep & e' & Et & HTab & Hid & Hg' & Hb').
    destruct e' as [g' bl]. cbn [env_file env_cache] in Hg', Hb'.
    assert (Eon : on_table (tc_next t) (Table_Open (CC := BCC) address o (size (table_file o bs seps))) t2 = Ret ((Status_OK, Some rep), with_file (tc_next t) (Build_TableEnv g' bl) t2)).
    { unfold on_table. cbn [t2 tc_files tc_blocks]. by rewrite lookup_insert_eq, Et. }
    rewrite (bind_eq _ _ _ _ _ Eon). change (negb (Status_ok Status_OK)) with false. cbv iota. cbn [need]. unfold bind at 1, ret at 1.
    pose proof (inv_opened opened m k held1 held2 t1 e g g' bl rep n bs seps i HI1 Hn He HTab Hg' Hid Hb' Hl) as HI2.
    change (with_file (tc_next t1) (Build_TableEnv g' bl) (Build_TableCache e (<[tc_next t1 := g]> (tc_files t1)) (S (tc_next t1)) (tc_cache t1) (tc_blocks t1)))
      with (with_file (tc_next t) (Build_TableEnv g' bl) t2) in HI2. cbn [t1 tc_next] in HI2. set (t3 := with_file _ _ t2) in *.
    destruct (ci_tables _ _ _ _ _ _ HI2) as (i3 & HO3). set (tf := {| tf_file := tc_next t; tf_table := rep |}).
    destruct (insert_law _ i3 held1 (tc_cache t3) (EncodeFixed64 n) tf 1 HO3 Hk1 Hk2) as (h & ca' & Ei & HO4); [|lia|done|].
    { exists n. split; [by rewrite lookup_insert_eq|]. split; [by eexists|done]. }
    rewrite (bind_eq _ _ _ _ _ (on_cached_eq _ t3 _ _ Ei)). exists h, tf, (<[tc_next t := (n, rep)]> opened). do 2 eexists. split; [reflexivity|]. split.
    + by eapply (inv_tables _ _ _ _ _ _ _ _ _ HI2).
    + by rewrite lookup_insert_eq.
Qed.

(** The blocks of an open table are cached under its keys. *)
Lemma table_blocks opened m k held1 held2 t p n rep bs seps : CacheInv opened m k held1 held2 t -> opened !! p = Some (n, rep) -> tables !! n = Some (bs, seps) ->
  block_cache o = true -> forall j v, (j < length bs)%nat -> block_entry opened (block_cache_key (cache_id rep) (offset_ (handle_of bs j))) v <-> v = Block_new (data (nth j bs [])).
Proof.
  intros HI Ho Hn Hbc j v Hj. split; [|intros ->; by exists p, n, rep, bs, seps, j].
  assert (Hid : forall p' n' rep', opened !! p' = Some (n', rep') -> 0 <= cache_id rep' < 2 ^ 64).
  { intros p' n' rep' Ho'. pose proof (ci_ids _ _ _ _ _ _ HI p' n' rep' Hbc Ho'). pose proof (ci_m _ _ _ _ _ _ HI). lia. }
  assert (Hoff : forall n' bs' seps' i, tables !! n' = Some (bs', seps') -> (i < length bs')%nat -> 0 <= offset_ (handle_of bs' i) < 2 ^ 64).
  { intros n' bs' seps' i Hn' Hi. destruct (to_fits HT n' bs' seps' Hn') as [He Hc _ HN]. destruct (handle_small o ok Hinterval bs' i HN He Hc Hi) as [Hs _]. lia. }
  intros (p' & n' & rep' & bs' & seps' & i & Ho' & Hn' & Hi & Ek & ->). apply block_cache_key_inj in Ek as [Eid Eoff]; [|by eapply Hid|by eapply Hid|by eapply Hoff|by eapply Hoff].
  pose proof (ci_distinct _ _ _ _ _ _ HI p n rep p' n' rep' Hbc Ho Ho' Eid) as <-. assert (n' = n) as -> by congruence. assert (bs' = bs) as -> by congruence.
  by rewrite (offset_inj o bs j i Hj Hi Eoff).
Qed.

(** A call on an open table that keeps its file and the block cache. *)
Lemma inv_file opened m k held1 held2 held2' t p n rep bs seps (e : TableEnv G BC) : CacheInv opened m k held1 held2 t -> opened !! p = Some (n, rep) -> tables !! n = Some (bs, seps) ->
  Contains (env_file e) (table_file o bs seps) -> Holds (block_entry opened) m held2' (env_cache e) -> CacheInv opened m k held1 held2' (with_file p e t).
Proof.
  intros [H1 H2 H3 H4 H5 H6 H7 H8] Ho Hn Hg Hb. constructor; try done. intros p' n' rep' Ho'. cbn [with_file tc_next]. destruct (H2 p' n' rep' Ho') as [Hlt Hok]. split; [done|].
  destruct (decide (p' = p)) as [->|Hne].
  - assert (n' = n) as -> by congruence. destruct Hok as (bs' & seps' & g & E1 & HTab & _). assert (bs' = bs) as -> by congruence. assert (seps' = seps) as -> by congruence.
    exists bs, seps, (env_file e). cbn [with_file tc_files]. by rewrite lookup_insert_eq.
  - apply (open_ok_keep t); [|done]. intros g Hgp. cbn [with_file tc_files]. by rewrite lookup_insert_ne.
Qed.

Lemma TableCache_Get_spec opened m k held1 held2 t n bs seps key : CacheInv opened m (S k) held1 held2 t -> tables !! n = Some (bs, seps) -> ok key ->
  Z.of_nat (length held1) + 2 < 2 ^ 31 -> Z.of_nat (length held2) < 2 ^ 30 ->
  exists r opened' m' t', TableCache_Get (H := H) (BH := BH) address dbname_ o options n (size (table_file o bs seps)) key t = Ret ((Status_OK, r), t') /\
    CacheInv opened' m' k held1 held2 t' /\ (forall kv, r = Some kv -> LvTableProps.first_entry o bs key kv) /\
    (forall kv, LvTableProps.first_entry o bs key kv -> tc_same key kv.1 -> (forall p, filter_policy o = Some p -> same_to p key kv.1) -> r = Some kv).
Proof.
  intros HI Hn Hkey Hh1 Hh2. destruct (FindTable_spec opened m k held1 held2 t n bs seps HI Hn Hh1) as (h & tf & opened' & m' & t1 & Ef & HI1 & Ho).
  unfold TableCache_Get. rewrite (bind_eq _ _ _ _ _ Ef). change (Status_ok Status_OK) with true. cbv iota. cbn [need]. unfold bind at 1, ret at 1.
  destruct (ci_tables _ _ _ _ _ _ HI1) as (i & HO). pose proof (value_law _ i _ (tc_cache t1) h tf HO ltac:(by left)) as Ev.
  assert (Ev' : on_tables (Cache_Value h) t1 = Ret (tf, t1)) by (rewrite (on_cached_eq _ t1 _ _ Ev); by destruct t1). rewrite (bind_eq _ _ _ _ _ Ev').
  destruct (ci_open _ _ _ _ _ _ HI1 _ _ _ Ho) as (_ & bs' & seps' & g & En & HTab & Eg & Hg). assert (bs' = bs) as -> by congruence. assert (seps' = seps) as -> by congruence.
  destruct (get_first (Contains := Contains) (Holds := Holds) address o ok c bs seps (block_entry opened') m' held2 (tf_table tf) options key (Build_TableEnv g (tc_blocks t1))
    Hinterval Hpolicy (to_fits HT n bs seps Hn) (to_index HT n bs seps Hn) HTab Hh2 (table_blocks _ _ _ _ _ _ _ _ _ _ _ HI1 Ho Hn))
    as (r & e & Er & [Hg' Hb'] & Hr); [split; [done|apply HI1]|done|].
  assert (Eon : on_table (tf_file tf) (InternalGet (CC := BCC) address (tf_table tf) options key) t1 = Ret ((Status_OK, r), with_file (tf_file tf) e t1)) by (unfold on_table; by rewrite Eg, Er).
  rewrite (bind_eq _ _ _ _ _ Eon). pose proof (inv_file _ _ _ _ _ held2 _ _ _ _ _ _ e HI1 Ho Hn Hg' Hb') as HI2.
  destruct (ci_tables _ _ _ _ _ _ HI2) as (i2 & HO2). destruct (release_law _ i2 [] held1 (tc_cache (with_file (tf_file tf) e t1)) h tf HO2) as (ca & Erel & HO3).
  rewrite (bind_eq _ _ _ _ _ (on_cached_eq _ _ _ _ Erel)). exists r, opened', m'. eexists. split; [reflexivity|]. split; [|done].
  by eapply (inv_tables _ _ _ _ _ _ _ _ _ HI2).
Qed.

Lemma Evict_spec opened m k held1 held2 t n : CacheInv opened m k held1 held2 t -> Z.of_nat (length held1) + 2 < 2 ^ 31 ->
  exists t', Evict (H := H) n t = Ret (tt, t') /\ CacheInv opened m k held1 held2 t'.
Proof.
  intros HI Hh. destruct (ci_tables _ _ _ _ _ _ HI) as (i & HO). destruct (number_key n) as [Hk1 Hk2].
  destruct (erase_law _ i held1 (tc_cache t) (EncodeFixed64 n) HO Hk1 Hk2 Hh) as (ca & Ee & HO'). eexists. split; [exact (on_cached_eq _ t _ _ Ee)|].
  by eapply (inv_tables _ _ _ _ _ _ _ _ _ HI).
Qed.

(** ** Iterators *)

Section Iterators.
Context (skip_fuel : nat) (Hfuel : (B < skip_fuel)%nat).
Context (opened : gmap nat (Z * LvTable.Rep)) (m : Z) (k : nat) (held1 : list (H * TableAndFile)) (held2 : list (BH * Block)) (Hheld2 : Z.of_nat (length held2) < 2 ^ 30).
Context (n : Z) (bs : list (list KV)) (seps : list Slice) (Hn : tables !! n = Some (bs, seps)).
Abbreviation CI := (CacheIter (E := E) (G := G) (C := C) (H := H) (BC := BC) (BH := BH)).

(** At the entry number [i] of the table, with a handle on it; the cache is as it
    was when the iterator was made. *)
Definition CacheAt (ci : CI) (i : nat) : Prop := exists p rep h it, ci_kind ci = OpenIter p rep h it /\ opened !! p = Some (n, rep) /\
  CacheInv opened m k ((h, {| tf_file := p; tf_table := rep |}) :: held1) held2 (ci_cache ci) /\
  TableAt (Contains := Contains) (Holds := Holds) o bs seps (block_entry opened) m held2 it i.

Lemma open_table t p rep held : CacheInv opened m k held held2 t -> opened !! p = Some (n, rep) -> TableOk o bs seps rep.
Proof. intros HI Ho. destruct (ci_open _ _ _ _ _ _ HI _ _ _ Ho) as (_ & bs' & seps' & g & En & HTab & _). congruence. Qed.

Lemma iter_laws t p rep held : CacheInv opened m k held held2 t -> opened !! p = Some (n, rep) ->
  IteratorLaws (H := Table_iterator address rep options skip_fuel) _ (Compare (comparator o)) ok (concat bs) (TableAt (Contains := Contains) (Holds := Holds) o bs seps (block_entry opened) m held2).
Proof.
  intros HI Ho. apply (Table_laws address o ok c Hinterval Hpolicy bs seps (to_fits HT n bs seps Hn) (to_index HT n bs seps Hn) _ m held2 rep options (open_table t p rep held HI Ho) Hheld2).
  - by apply (table_blocks opened m k held held2 t p n rep bs seps).
  - pose proof (to_blocks HT n bs seps Hn). lia.
Qed.

Lemma on_kind_open {A} (f : M EmptyIterator A) (b : forall rep, M _ A) (ci : CI) p rep h it a it' : ci_kind ci = OpenIter p rep h it -> b rep it = Ret (a, it') ->
  on_kind f b ci = Ret (a, {| ci_cache := ci_cache ci; ci_kind := OpenIter p rep h it' |}).
Proof. intros Ek Eb. unfold on_kind. by rewrite Ek, Eb. Qed.

Ltac at_open L := match goal with HA : CacheAt _ _ |- _ =>
  let p := fresh "p" in let rep := fresh "rep" in let h := fresh "h" in let it := fresh "it" in let Ek := fresh "Ek" in let Ho := fresh "Ho" in let HI := fresh "HI" in
  destruct HA as (p & rep & h & it & Ek & Ho & HI & HA); pose proof (iter_laws _ p rep _ HI Ho) as L end.
Ltac moved Ec := match goal with Ek : ci_kind _ = OpenIter ?p ?rep ?h _ |- _ =>
  eexists; split; [by apply (on_kind_open _ _ _ _ _ _ _ _ _ Ek Ec)|by exists p, rep, h; eexists; split; [reflexivity|]] end.
Ltac same Ec := match goal with Ek : ci_kind ?ci = _ |- _ =>
  rewrite (on_kind_open _ _ _ _ _ _ _ _ _ Ek Ec), <- Ek; by destruct ci end.

Lemma CacheIter_laws : IteratorLaws (H := CacheIter_iterator address options skip_fuel) CI (Compare (comparator o)) ok (concat bs) CacheAt.
Proof.
  constructor.
  - intros ci i HA. at_open L. by apply (it_bound (IteratorLaws := L) it).
  - intros ci i HA. at_open L. cbn [iter_Valid CacheIter_iterator]. rewrite Ek. by apply (it_valid (IteratorLaws := L) it).
  - intros ci i HA. at_open L. cbn [iter_status CacheIter_iterator]. rewrite Ek. by apply (it_status (IteratorLaws := L) it i).
  - intros ci i key v HA Hi. at_open L. pose proof (it_key (IteratorLaws := L) it i key v HA Hi) as Ec. cbn [iter_key CacheIter_iterator]. same Ec.
  - intros ci i key v HA Hi. at_open L. pose proof (it_value (IteratorLaws := L) it i key v HA Hi) as Ec. cbn [iter_value CacheIter_iterator]. same Ec.
  - intros ci i HA. at_open L. destruct (it_first (IteratorLaws := L) it i HA) as (it' & Ec & HA'). moved Ec.
  - intros ci i HA. at_open L. destruct (it_last (IteratorLaws := L) it i HA) as (it' & Ec & HA'). moved Ec.
  - intros ci i HA Hi. at_open L. destruct (it_next (IteratorLaws := L) it i HA Hi) as (it' & Ec & HA'). moved Ec.
  - intros ci i HA Hi. at_open L. destruct (it_prev (IteratorLaws := L) it i HA Hi) as (it' & Ec & HA'). moved Ec.
  - intros ci i target HA Ht. at_open L. destruct (it_seek (IteratorLaws := L) it i target HA Ht) as (it' & q & Ec & HA' & Hq). eexists _, q.
    split; [by apply (on_kind_open _ _ _ _ _ _ _ _ _ Ek Ec)|]. split; [|done]. by exists p, rep, h; eexists; split; [reflexivity|].
Qed.

(** Deleting the iterator releases its handle. *)
Lemma CacheIter_delete_spec ci i : CacheAt ci i -> exists t, CacheIter_delete ci = Ret t /\ CacheInv opened m k held1 held2 t.
Proof.
  intros HA. destruct HA as (p & rep & h & it & Ek & Ho & HI & HA). unfold CacheIter_delete. rewrite Ek.
  destruct (Table_delete_spec (Contains := Contains) (Holds := Holds) address o ok c Hinterval Hpolicy bs seps (to_fits HT n bs seps Hn) (to_index HT n bs seps Hn) (block_entry opened) m held2 rep options
    (open_table _ p rep _ HI Ho) Hheld2 (table_blocks opened m k _ held2 _ p n rep bs seps HI Ho Hn) skip_fuel ltac:(pose proof (to_blocks HT n bs seps Hn); lia) it i HA) as (e & Ed & [Hg Hb]).
  rewrite Ed. pose proof (inv_file _ _ _ _ _ held2 _ _ _ _ _ _ e HI Ho Hn Hg Hb) as HI2. destruct (ci_tables _ _ _ _ _ _ HI2) as (j & HO).
  destruct (release_law _ j [] held1 _ h _ HO) as (ca & Er & HO'). unfold UnrefEntry. rewrite (on_cached_eq _ _ _ _ Er). eexists. split; [reflexivity|].
  by eapply (inv_tables _ _ _ _ _ _ _ _ _ HI2).
Qed.
End Iterators.

Lemma TableCache_NewIterator_spec opened m k held1 held2 t n bs seps : CacheInv opened m (S k) held1 held2 t -> tables !! n = Some (bs, seps) ->
  Z.of_nat (length held1) + 2 < 2 ^ 31 -> Z.of_nat (length held2) < 2 ^ 30 ->
  exists ci opened' m', TableCache_NewIterator (H := H) (BH := BH) address dbname_ o n (size (table_file o bs seps)) t = Ret ci /\
    CacheAt opened' m' k held1 held2 n bs seps ci (length (concat bs)).
Proof.
  intros HI Hn Hh1 Hh2. destruct (FindTable_spec opened m k held1 held2 t n bs seps HI Hn Hh1) as (h & tf & opened' & m' & t1 & Ef & HI1 & Ho).
  unfold TableCache_NewIterator. rewrite Ef. change (negb (Status_ok Status_OK)) with false. cbv iota.
  destruct (ci_tables _ _ _ _ _ _ HI1) as (i & HO). pose proof (value_law _ i _ (tc_cache t1) h tf HO ltac:(by left)) as Ev.
  assert (Ev' : on_tables (Cache_Value h) t1 = Ret (tf, t1)) by (rewrite (on_cached_eq _ t1 _ _ Ev); by destruct t1). rewrite Ev'.
  destruct (ci_open _ _ _ _ _ _ HI1 _ _ _ Ho) as (_ & bs' & seps' & g & En & HTab & Eg & Hg). assert (bs' = bs) as -> by congruence. assert (seps' = seps) as -> by congruence.
  rewrite Eg. destruct (Table_NewIterator_spec (Contains := Contains) (Holds := Holds) address o ok c Hinterval Hpolicy bs seps (to_fits HT n bs seps Hn) (to_index HT n bs seps Hn)
    (block_entry opened') m' held2 (tf_table tf) options HTab Hh2 (table_blocks _ _ _ _ _ _ _ _ _ _ _ HI1 Ho Hn) (S B) ltac:(pose proof (to_blocks HT n bs seps Hn); lia) (Build_TableEnv g (tc_blocks t1)))
    as (it & Et & HA); [split; [done|apply HI1]|].
  rewrite Et. do 3 eexists. split; [reflexivity|]. exists (tf_file tf), (tf_table tf), h, it. split; [done|]. split; [done|]. split; [by destruct tf|done].
Qed.
End Lookups.

(** * The options of the database *)

Definition kNumNonTableCacheFiles : Z := 10.

(** The value is compared as an [int]. *)
Definition ClipToRange (v minvalue maxvalue : Z) : Z :=
  let v := if sext 32 v >? maxvalue then maxvalue else v in
  if sext 32 v <? minvalue then minvalue else v.

(** [SanitizeOptions] ([db/db_impl.cc]), without the log of messages. *)
Definition SanitizeOptions (src : Options) : Options := {|
  comparator := InternalKeyComparator (comparator src);
  create_if_missing := create_if_missing src;
  error_if_exists := error_if_exists src;
  paranoid_checks := paranoid_checks src;
  write_buffer_size := ClipToRange (write_buffer_size src) (Z.shiftl 64 10) (Z.shiftl 1 30);
  max_open_files := ClipToRange (max_open_files src) (64 + kNumNonTableCacheFiles) 50000;
  block_cache := true;
  block_size := ClipToRange (block_size src) (Z.shiftl 1 10) (Z.shiftl 4 20);
  block_restart_interval := block_restart_interval src;
  max_file_size := ClipToRange (max_file_size src) (Z.shiftl 1 20) (Z.shiftl 1 30);
  compression := compression src;
  reuse_logs := reuse_logs src;
  filter_policy := InternalFilterPolicy <$> filter_policy src
|}.

Definition TableCacheSize (sanitized_options : Options) : Z := max_open_files sanitized_options - kNumNonTableCacheFiles.

(** Values that fit an [int] end up in the range. *)
Lemma ClipToRange_int v lo hi : - 2 ^ 31 <= v < 2 ^ 31 -> - 2 ^ 31 <= lo <= hi -> hi < 2 ^ 31 -> ClipToRange v lo hi = Z.max lo (Z.min v hi).
Proof.
  intros Hv Hlo Hhi. assert (Hs : forall x, - 2 ^ 31 <= x < 2 ^ 31 -> sext 32 x = x).
  { intros x Hx. unfold sext. change (2 ^ (32 - 1)) with (2 ^ 31). destruct (Z.ltb_spec (wrap 32 x) (2 ^ 31)) as [H|H]; unfold wrap in *.
    - destruct (Z.lt_ge_cases x 0); [|by rewrite Z.mod_small by lia]. rewrite <- (Z_mod_plus_full x 1), Z.mul_1_l, Z.mod_small in H by lia. lia.
    - destruct (Z.lt_ge_cases x 0); [|rewrite Z.mod_small in H by lia; lia]. rewrite <- (Z_mod_plus_full x 1), Z.mul_1_l, Z.mod_small by lia. lia. }
  unfold ClipToRange. rewrite (Hs v Hv). destruct (Z.gtb_spec v hi).
  - rewrite Hs by lia. destruct (Z.ltb_spec hi lo); lia.
  - rewrite Hs by done. destruct (Z.ltb_spec v lo); lia.
Qed.

(** A buffer of 4GB and some is left as it is, though the greatest size is 1GB. *)
Example ClipToRange_wraps : write_buffer_size (SanitizeOptions {|
  comparator := BytewiseComparator; create_if_missing := true; error_if_exists := false; paranoid_checks := false; write_buffer_size := 2 ^ 32 + 2 ^ 20;
  max_open_files := 1000; block_cache := false; block_size := 4096; block_restart_interval := 16; max_file_size := 2097152; compression := kNoCompression;
  reuse_logs := false; filter_policy := None |}) = 2 ^ 32 + 2 ^ 20.
Proof. by vm_compute. Qed.

(** * The table cache as a reader of tables *)

Section Reader.
Context {E G C H BC BH : Type} {RF : RandomFiles E G} {RA : RandomAccessFile G} {Contains : G -> Slice -> Prop} {RL : RandomAccessLaws G Contains}.
Context {TCC : Cache C H TableAndFile} {Open : (Slice -> TableAndFile -> Prop) -> Z -> list (H * TableAndFile) -> C -> Prop} {CL1 : CacheLaws C H TableAndFile Open}.
Context {BCC : Cache BC BH Block} {Holds : (Slice -> Block -> Prop) -> Z -> list (BH * Block) -> BC -> Prop} {CL2 : CacheLaws BC BH Block Holds}.
Context {Disk : E -> gmap Slice Slice -> Prop} {DL : RandomFilesLaws E G Contains Disk}.
Context (address : Z) (dbname_ : Slice) (src : Options) (options : ReadOptions) (ok : Slice -> Prop) (c : Z) {TC : TableComparator (comparator src) ok}.
Abbreviation ucmp := (comparator src).
Abbreviation o := (SanitizeOptions src).
Abbreviation KV := (Slice * Slice)%type.
Abbreviation key_ok := (internal_key_ok ok).

(** A filter does not tell user keys apart that compare equal. *)
Definition policy_ok : Prop := forall p, filter_policy src = Some p -> TablePolicy p ok c /\
  forall u u', ok u -> ok u' -> Compare ucmp u u' = 0 -> same_to p u u'.

Context (Hinterval : 1 <= block_restart_interval src) (Hpolicy : policy_ok).
Context (d : gmap Slice Slice) (tables : gmap Z (list (list KV) * list Slice)) (B : nat) (HT : TablesOk dbname_ o key_ok c d tables B).

(** A file of a version and the table it is. *)
Definition is_table (contents : File -> list Version) (f : File) : Prop := exists bs seps, tables !! f_number f = Some (bs, seps) /\
  f_size f = size (table_file o bs seps) /\ concat bs = map version_entry (contents f) /\ Forall (version_ok (ok := ok)) (contents f).

Lemma sanitized_policy p : filter_policy o = Some p -> TablePolicy p key_ok c.
Proof. cbn [SanitizeOptions filter_policy]. intros (p0 & Hp0 & ->)%fmap_Some. apply internal_policy. by apply Hpolicy. Qed.

Lemma sanitized_same p q k : filter_policy o = Some p -> key_ok q -> key_ok k -> same_user ucmp q k -> same_to p q k.
Proof.
  cbn [SanitizeOptions filter_policy]. intros (p0 & Hp0 & ->)%fmap_Some [[_ Uq] _] [[_ Uk] _] Hs f. cbn [InternalFilterPolicy KeyMayMatch].
  by apply (proj2 (Hpolicy p0 Hp0)).
Qed.

(** When an entry is visible, the first that is not before the key is one of the
    same user key. *)
Lemma visible_first bs u s y (vs : list Version) : concat bs = map version_entry vs -> Forall (version_ok (ok := ok)) vs -> ok u -> seq_ok s -> y ∈ vs ->
  visible_to (ucmp := ucmp) u s y -> StronglySorted (key_lt (InternalKeyComparator ucmp)) (concat bs) ->
  exists x, LvTableProps.first_entry o bs (InternalKey u s kTypeValue) (version_entry x) /\ version_ok (ok := ok) x /\ same_user ucmp (InternalKey u s kTypeValue) (version_entry x).1.
Proof.
  intros Ebs Hok Hu Hs Hy Hv HS. rewrite Forall_forall in Hok. pose proof (entry_not_before (ok := ok) y u s (Hok y Hy) Hs Hv) as Hge.
  pose proof (find_first (fun x => 0 <=? InternalKey_Compare ucmp (version_entry x).1 (InternalKey u s kTypeValue)) vs) as HF.
  destruct (List.find _ vs) as [x|]; [|rewrite Forall_forall in HF; specialize (HF y Hy); apply Z.leb_gt in HF; lia].
  destruct HF as (l1 & l2 & El & Hlo & Hhi%Z.leb_le). assert (Hx : x ∈ vs) by (rewrite El; apply elem_of_app; right; by left). exists x.
  assert (Hxle : Compare (InternalKeyComparator ucmp) (version_entry x).1 (version_entry y).1 <= 0).
  { rewrite El in Hy. apply elem_of_app in Hy as [Hy|[->|Hy]%elem_of_cons].
    - rewrite Forall_forall in Hlo. specialize (Hlo y Hy). apply Z.leb_gt in Hlo. lia.
    - rewrite (internal_refl (ucmp := ucmp) (ok := ok)); [done|]. apply internal_ok_key. by apply Hok.
    - rewrite Ebs, El, map_app in HS. apply StronglySorted_app_1_r, StronglySorted_inv in HS as [_ HF]. rewrite Forall_forall in HF.
      apply Z.lt_le_incl, HF. apply list_elem_of_fmap. by exists y. }
  split; [|split; [by apply Hok|]].
  - exists (map version_entry l1), (map version_entry l2). split; [by rewrite Ebs, El, map_app|]. split; [|done].
    apply Forall_map. apply (Forall_impl _ _ _ Hlo). intros z Hz%Z.leb_gt. exact Hz.
  - apply (tc_same_between (TableComparator := internal_table ucmp ok) _ _ (version_entry y).1); [apply (internal_key_valid ucmp ok)..| |done|]; [done|by apply Hok|by apply Hok|..].
    + pose proof (cmp_flip (cmp := Compare (InternalKeyComparator ucmp)) (ok := internal_ok ok) (version_entry x).1 (InternalKey u s kTypeValue)) as Hf.
      specialize (Hf ltac:(apply internal_ok_key; by apply Hok) ltac:(by apply internal_ok_key)). cbn [Compare InternalKeyComparator] in *. lia.
    + unfold tc_same, internal_table, same_user. cbn [version_entry fst]. rewrite !InternalKey_user. destruct Hv as [Hv _].
      pose proof (cmp_flip (cmp := Compare ucmp) u (user_key y.1) Hu ltac:(by apply Hok)). lia.
Qed.

Lemma cache_reader_laws contents files held1 held2 : (forall f, f ∈ files -> is_table contents f) -> Z.of_nat (length held1) + 2 < 2 ^ 31 -> Z.of_nat (length held2) < 2 ^ 30 ->
  TableReaderLaws (ucmp := ucmp) (ok := ok) contents (TableCache E G C BC) (H := cache_reader (H := H) (BH := BH) address dbname_ o options) files
    (fun k t => exists opened m, CacheInv (Contains := Contains) (Open := Open) (Holds := Holds) (Disk := Disk) o d tables B opened m k held1 held2 t).
Proof.
  intros Hfiles Hh1 Hh2. constructor.
  - intros k t (opened & m & HI). exists opened, m. by apply inv_fewer.
  - intros k t f u s (opened & m & HI) Hf Hu Hs. destruct (Hfiles f Hf) as (bs & seps & En & Esz & Ebs & Hok). cbn [tr_Get cache_reader]. rewrite Esz.
    pose proof (internal_key_valid ucmp ok u s kTypeValue Hu) as Hkey.
    destruct (TableCache_Get_spec (Contains := Contains) (Open := Open) (Holds := Holds) address dbname_ o options key_ok c Hinterval sanitized_policy d tables B HT
      opened m k held1 held2 t (f_number f) bs seps (InternalKey u s kTypeValue) HI En Hkey Hh1 Hh2) as (r & opened' & m' & t' & Eg & HI' & Hsound & Hcomplete).
    exists r, t'. split; [exact Eg|]. split; [by exists opened', m'|]. destruct r as [kv|]; cbn [first_entry].
    + destruct (Hsound kv eq_refl) as (l1 & l2 & Ecat & Hlo & Hhi). rewrite Ebs in Ecat. apply map_eq_app in Ecat as (v1 & v2 & -> & E1 & E2).
      destruct v2 as [|x v2]; [done|]. injection E2 as E2 E3. exists v1, x, v2. split; [done|]. split; [done|]. split; [|by rewrite E2].
      rewrite <- E1 in Hlo. apply Forall_map in Hlo. exact Hlo.
    + apply Forall_forall. intros y Hy Hv. destruct (to_fits _ _ _ _ _ _ _ HT _ bs seps En) as [[HS _] _ _ _].
      destruct (visible_first bs u s y (contents f) Ebs Hok Hu Hs Hy Hv HS) as (x & Hx & Ox & Hsame).
      discriminate (Hcomplete _ Hx Hsame (fun p Hp => sanitized_same p _ _ Hp Hkey (internal_key_valid ucmp ok _ _ _ (proj1 Ox)) Hsame)).
Qed.
End Reader.

(** C7: a lookup goes right through all the layers: with the files of a version
    on a disk that does not fail, each the table of its entries as the builder
    writes it, under its name or the one of old databases, [Version::Get] over
    the table cache, which opens tables as they are needed and evicts them when
    it wants to, over any block cache, with or without filters, finds no error,
    returns what the newest visible version of the key among all files says, and
    releases every handle it took of both caches. *)
Theorem Version_Get_from_files {E G C H BC BH : Type} {RF : RandomFiles E G} {RA : RandomAccessFile G} {Contains : G -> Slice -> Prop} {RL : RandomAccessLaws G Contains}
    {TCC : Cache C H TableAndFile} {Open : (Slice -> TableAndFile -> Prop) -> Z -> list (H * TableAndFile) -> C -> Prop} {CL1 : CacheLaws C H TableAndFile Open}
    {BCC : Cache BC BH Block} {Holds : (Slice -> Block -> Prop) -> Z -> list (BH * Block) -> BC -> Prop} {CL2 : CacheLaws BC BH Block Holds}
    {Disk : E -> gmap Slice Slice -> Prop} {DL : RandomFilesLaws E G Contains Disk}
    address dbname_ src options ok c {TC : TableComparator (comparator src) ok} d tables B contents files_ opened m n held1 held2 u s (t : TableCache E G C BC) :
  1 <= block_restart_interval src -> policy_ok src ok c -> TablesOk dbname_ (SanitizeOptions src) (internal_key_ok ok) c d tables B ->
  Forall (is_table src ok tables contents) (concat files_) ->
  levels_ok (ucmp := comparator src) (ok := ok) contents 0 files_ -> newer_above (ucmp := comparator src) (ok := ok) contents files_ ->
  Z.of_nat (length held1) + 2 < 2 ^ 31 -> Z.of_nat (length held2) < 2 ^ 30 -> ok u -> seq_ok s -> size u < 2 ^ 32 - 13 ->
  CacheInv (Contains := Contains) (Open := Open) (Holds := Holds) (Disk := Disk) (SanitizeOptions src) d tables B opened m (length (concat files_) + n) held1 held2 t ->
  exists st value stats t' opened' m',
    Version_Get (TR := cache_reader (H := H) (BH := BH) address dbname_ (SanitizeOptions src) options) (comparator src) files_ (LookupKey_new u s) t = Ret ((st, value, stats), t') /\
    newest_answer (comparator src) (all_versions contents files_) u s st value /\
    CacheInv (Contains := Contains) (Open := Open) (Holds := Holds) (Disk := Disk) (SanitizeOptions src) d tables B opened' m' n held1 held2 t'.
Proof.
  intros Hi Hp HT Hf HL HN Hh1 Hh2 Hu Hs Hsize HI. rewrite Forall_forall in Hf.
  destruct (Version_Get_spec (comparator src) ok contents _ files_
    (TL := cache_reader_laws (Contains := Contains) (Open := Open) (Holds := Holds) address dbname_ src options ok c Hi Hp d tables B HT contents (concat files_) held1 held2 Hf Hh1 Hh2)
    u s n t Hu Hs Hsize HL HN) as (st & value & stats & t' & E1 & (opened' & m' & HI') & Ha); [by exists opened, m|].
  by exists st, value, stats, t', opened', m'.
Qed.

(** * An instance: files in memory and LRU caches *)

Abbreviation MemDisk := (gmap Slice Slice).

#[export] Instance MemDisk_files : RandomFiles MemDisk MemFile := fun name d =>
  Ret (match (d !! name : option Slice) with Some w => (Status_OK, Some w) | None => (Status_NotFound name (chars "no such file"), None) end, d).

#[export] Instance MemDisk_laws : RandomFilesLaws MemDisk MemFile eq eq.
Proof.
  constructor.
  - intros e d name w <- Hw. unfold Env_NewRandomAccessFile, MemDisk_files. exists w, e. by rewrite Hw.
  - intros e d name <- Hw. unfold Env_NewRandomAccessFile, MemDisk_files. eexists _, e. by rewrite Hw.
Qed.

Lemma sample_policy_ok : policy_ok sample_options is_bytes 20.
Proof.
  intros p Hp. split; [by apply sample_policy|]. intros u u' _ _ E1. apply compare_eq_iff in E1. by subst u'.
Qed.

Definition sized_file (n : Z) (x y : Version) (sz : Z) : File :=
  {| f_ptr := Z.to_nat n; f_number := n; f_size := sz; f_smallest := (version_entry x).1; f_largest := (version_entry y).1 |}.

Definition sized_levels (s5 s3 : Z) : list (list File) :=
  [[sized_file 5 (ver "a" 9 kTypeValue "new") (ver "a" 9 kTypeValue "new") s5];
   [sized_file 3 (ver "a" 4 kTypeValue "old") (ver "b" 3 kTypeDeletion "") s3]; []; []; []; []; []].

Lemma sized_levels_ok s5 s3 : levels_ok (ucmp := BytewiseComparator) (ok := is_bytes) (fun f => sample_table (f_number f)) 0 (sized_levels s5 s3).
Proof.
  repeat split; cbn [length]; try lia; repeat first [apply Forall_nil_2|apply Forall_cons_2|apply SSorted_nil|apply SSorted_cons]; try sample_holds.
  intros f g x y u s ->%list_elem_of_singleton ->%list_elem_of_singleton _ _ _ _ _ _. by left.
Qed.

Lemma sized_newer s5 s3 : newer_above (ucmp := BytewiseComparator) (ok := is_bytes) (fun f => sample_table (f_number f)) (sized_levels s5 s3).
Proof.
  cbn [newer_above sized_levels]. split_and!; try done; intros x y u s Hu Hx Hy [Hx1 _] [Hy1 _]; apply compare_eq_iff in Hx1; apply compare_eq_iff in Hy1; cbn in Hx, Hy;
    rewrite ?elem_of_cons in Hx; rewrite ?elem_of_cons in Hy; destruct_or?; try (by apply elem_of_nil in Hx); try (by apply elem_of_nil in Hy); subst x y;
    cbn [ver fst user_key LvFormat.sequence] in *; try lia; exfalso; rewrite <- Hx1 in Hy1; discriminate Hy1.
Qed.

(** The table of a file, as it is built. *)
Lemma sample_table_built n : exists bs seps, Fits (SanitizeOptions sample_options) (internal_key_ok is_bytes) 20 bs /\ Indexed (SanitizeOptions sample_options) (internal_key_ok is_bytes) bs seps /\
  concat bs = map version_entry (sample_table n) /\ (length bs <= 2)%nat.
Proof.
  destruct (build_table_spec (F := MemFile) (Ready := eq) 0 0 (SanitizeOptions sample_options) (internal_key_ok is_bytes) 20 ltac:(cbn; lia) (sanitized_policy _ _ _ sample_policy_ok)
    (map version_entry (sample_table n)) []) as (r & bs & seps & _ & _ & _ & _ & HF & HX & Ebs).
  - done.
  - unfold sample_table. split; repeat case_match; repeat first [apply SSorted_nil|apply SSorted_cons|apply Forall_nil_2|apply Forall_cons_2]; try (vm_compute; reflexivity);
      (split; [apply (internal_key_valid BytewiseComparator is_bytes)|]; cbn; solve_bytes).
  - unfold sample_table. repeat case_match; vm_compute; reflexivity.
  - unfold sample_table. repeat case_match; vm_compute; reflexivity.
  - exists bs, seps. split; [done|]. split; [done|]. split; [done|]. pose proof (fits_length _ _ _ bs HF) as Hl. rewrite Ebs in Hl.
    unfold sample_table in Hl. repeat case_match; cbn in Hl; lia.
Qed.

Definition sample_disk (w5 w3 : Slice) : MemDisk := <[chars "/db/000005.ldb" := w5]> {[chars "/db/000003.sst" := w3]}.

Lemma sample_disk_files w5 w3 : table_on_disk (chars "/db") (sample_disk w5 w3) 5 w5 /\ table_on_disk (chars "/db") (sample_disk w5 w3) 3 w3.
Proof.
  unfold sample_disk. split; eexists _, _; (split; [vm_compute; reflexivity|split; [vm_compute; reflexivity|]]).
  - left. apply lookup_insert_eq.
  - right. split; [by rewrite lookup_insert_ne, lookup_singleton_ne by done|]. rewrite lookup_insert_ne by done. apply lookup_singleton_eq.
Qed.

Abbreviation cache_of V := (ShardedLRUCache_new (V := V) 100).
Definition sample_cache_state (d : MemDisk) : TableCache MemDisk MemFile (ShardedLRUCache TableAndFile) (ShardedLRUCache Block) :=
  Build_TableCache d ∅ 0 (cache_of TableAndFile) (cache_of Block).

Lemma Version_Get_from_files_witness : exists s5 s3 (t t' : TableCache MemDisk MemFile (ShardedLRUCache TableAndFile) (ShardedLRUCache Block)) st value stats,
  Version_Get (TR := cache_reader (TCC := Sharded_cache next_address) (BCC := Sharded_cache next_address) 0 (chars "/db") (SanitizeOptions sample_options) ReadOptions_new)
    BytewiseComparator (sized_levels s5 s3) (LookupKey_new (chars "a") 8) t = Ret ((st, value, stats), t') /\ st = Status_OK /\ value = Some (chars "old").
Proof.
  destruct (sample_table_built 5) as (bs5 & seps5 & HF5 & HX5 & E5 & HL5), (sample_table_built 3) as (bs3 & seps3 & HF3 & HX3 & E3 & HL3).
  set (o := SanitizeOptions sample_options) in *. set (w5 := table_file o bs5 seps5). set (w3 := table_file o bs3 seps3).
  set (tables := <[5 := (bs5, seps5)]> {[3 := (bs3, seps3)]} : gmap Z (list (list (Slice * Slice)) * list Slice)).
  assert (Hcases : forall n x, tables !! n = Some x -> n = 5 /\ x = (bs5, seps5) \/ n = 3 /\ x = (bs3, seps3)).
  { intros n x [[<- <-]|[_ [<- <-]%lookup_singleton_Some]]%lookup_insert_Some; [by left|by right]. }
  assert (HT : TablesOk (chars "/db") o (internal_key_ok is_bytes) 20 (sample_disk w5 w3) tables 2).
  { constructor.
    - intros n x [[-> _]|[-> _]]%Hcases; lia.
    - intros n bs seps [[-> [= -> ->]]|[-> [= -> ->]]]%Hcases; done.
    - intros n bs seps [[-> [= -> ->]]|[-> [= -> ->]]]%Hcases; done.
    - intros n bs seps [[-> [= -> ->]]|[-> [= -> ->]]]%Hcases; done.
    - intros n bs seps [[-> [= -> ->]]|[-> [= -> ->]]]%Hcases; apply sample_disk_files.
    - unfold tables. rewrite map_size_insert_None by done. by rewrite map_size_singleton. }
  destruct (Version_Get_from_files (Contains := eq) (Disk := eq) (CL1 := Sharded_laws next_address next_address_fresh) (CL2 := Sharded_laws next_address next_address_fresh)
    0 (chars "/db") sample_options ReadOptions_new is_bytes 20 (sample_disk w5 w3) tables 2 (fun f => sample_table (f_number f)) (sized_levels (size w5) (size w3))
    ∅ 0 0 [] [] (chars "a") 8 (sample_cache_state (sample_disk w5 w3))) as (st & value & stats & t' & _ & _ & Eg & Ha & _).
  - cbn. lia.
  - exact sample_policy_ok.
  - exact HT.
  - cbn [sized_levels concat app]. apply Forall_cons_2; [|apply Forall_cons_2; [|apply Forall_nil_2]].
    + exists bs5, seps5. split; [reflexivity|]. split; [reflexivity|]. split; [exact E5|apply sample_versions_ok].
    + exists bs3, seps3. split; [reflexivity|]. split; [reflexivity|]. split; [exact E3|apply sample_versions_ok].
  - apply sized_levels_ok.
  - apply sized_newer.
  - cbn. lia.
  - cbn. lia.
  - solve_bytes.
  - split; vm_compute; discriminate.
  - by vm_compute.
  - constructor.
    + reflexivity.
    + intros p n rep Hp. by rewrite lookup_empty in Hp.
    + intros p n rep _ Hp. by rewrite lookup_empty in Hp.
    + intros p n rep p' n' rep' _ Hp. by rewrite lookup_empty in Hp.
    + split; [lia|]. vm_compute. reflexivity.
    + exists 0. apply Sharded_new_spec. by eapply table_entry_few.
    + apply Sharded_new_spec. eapply block_entry_few; [exact HT|]. vm_compute. reflexivity.
    + vm_compute. reflexivity.
  - exists (size w5), (size w3), (sample_cache_state (sample_disk w5 w3)), t', st, value, stats. split; [exact Eg|].
    destruct Ha as [(x & Hx & Hu & Hs & _ & Ha)|(Hn & _)].
    + cbn in Hx. rewrite ?elem_of_cons in Hx. destruct Hx as [->|[->|[->|Hx]]]; [cbn in Hs; lia|exact Ha|vm_compute in Hu; discriminate Hu|apply elem_of_nil in Hx; destruct Hx].
    + specialize (Hn (ver "a" 4 kTypeValue "old")). cbn in Hn. enough (8 < 4) by lia. apply Hn; [rewrite !elem_of_cons; auto|by vm_compute].
Defined.
