(* ===== verification/LvVersionSet.v ===== *)
(** The set of versions ([db/version_set.cc]): versions and the files they share,
    with their reference counts, edits applied to a version by the builder, the
    scores that ask for a compaction, and the snapshot of a version as an edit.

    Versions and the mutable part of files are behind pointers, in two stores; the
    circular list of versions is the list of the pointers after [dummy_versions_]. *)

From stdpp Require Import base list gmap strings sorting.
From Stdlib Require Import ZArith Lia SpecFloat.
From S2P Require Import Prelude LvSlice LvCoding LvLogging LvFormat LvVersionEdit LvOptions LvVersion LvVersionGet.

(** * Doubles *)

Definition double_of (z : Z) : spec_float := binary_normalize 53 1024 z 0 false.
Definition double_div : spec_float -> spec_float -> spec_float := SFdiv 53 1024.
Definition double_mul : spec_float -> spec_float -> spec_float := SFmul 53 1024.

(** [while (level > 1)]. *)
Fixpoint times_ten (n : nat) (result : spec_float) : spec_float :=
  match n with O => result | S n => times_ten n (double_mul result (double_of 10)) end.

Definition MaxBytesForLevel (level : Z) : spec_float := times_ten (Z.to_nat (level - 1)) (double_mul (double_of 10) (double_of 1048576)).

(** * The objects *)

Record Version : Type := {
  files_ : list (list File); refs_ : Z; file_to_compact_ : option File; file_to_compact_level_ : Z;
  compaction_score_ : spec_float; compaction_level_ : Z
}.

Definition Version_new : Version := {|
  files_ := replicate (Z.to_nat kNumLevels) []; refs_ := 0; file_to_compact_ := None; file_to_compact_level_ := -1;
  compaction_score_ := double_of (-1); compaction_level_ := -1
|}.

(** [vs_files]: the [refs] and [allowed_seeks] of the files that live;
    [vs_fresh]: the next pointer the allocator returns. *)
Record VersionSet : Type := {
  vs_next_file_number : Z; vs_manifest_file_number : Z; vs_last_sequence : Z; vs_log_number : Z; vs_prev_log_number : Z;
  vs_current : option nat; vs_chain : list nat; vs_pointers : list Slice;
  vs_versions : gmap nat Version; vs_files : gmap nat (Z * Z); vs_fresh : nat
}.

Definition with_numbers (next manifest last log prev : Z) (s : VersionSet) : VersionSet := {|
  vs_next_file_number := next; vs_manifest_file_number := manifest; vs_last_sequence := last; vs_log_number := log; vs_prev_log_number := prev;
  vs_current := vs_current s; vs_chain := vs_chain s; vs_pointers := vs_pointers s;
  vs_versions := vs_versions s; vs_files := vs_files s; vs_fresh := vs_fresh s |}.

Definition with_list (current : option nat) (chain : list nat) (s : VersionSet) : VersionSet := {|
  vs_next_file_number := vs_next_file_number s; vs_manifest_file_number := vs_manifest_file_number s; vs_last_sequence := vs_last_sequence s;
  vs_log_number := vs_log_number s; vs_prev_log_number := vs_prev_log_number s;
  vs_current := current; vs_chain := chain; vs_pointers := vs_pointers s;
  vs_versions := vs_versions s; vs_files := vs_files s; vs_fresh := vs_fresh s |}.

Definition with_pointers (pointers : list Slice) (s : VersionSet) : VersionSet := {|
  vs_next_file_number := vs_next_file_number s; vs_manifest_file_number := vs_manifest_file_number s; vs_last_sequence := vs_last_sequence s;
  vs_log_number := vs_log_number s; vs_prev_log_number := vs_prev_log_number s;
  vs_current := vs_current s; vs_chain := vs_chain s; vs_pointers := pointers;
  vs_versions := vs_versions s; vs_files := vs_files s; vs_fresh := vs_fresh s |}.

Definition with_store (versions : gmap nat Version) (files : gmap nat (Z * Z)) (fresh : nat) (s : VersionSet) : VersionSet := {|
  vs_next_file_number := vs_next_file_number s; vs_manifest_file_number := vs_manifest_file_number s; vs_last_sequence := vs_last_sequence s;
  vs_log_number := vs_log_number s; vs_prev_log_number := vs_prev_log_number s;
  vs_current := vs_current s; vs_chain := vs_chain s; vs_pointers := vs_pointers s;
  vs_versions := versions; vs_files := files; vs_fresh := fresh |}.

Abbreviation MV := (M VersionSet).

Definition modify_set (f : VersionSet -> VersionSet) : MV unit := fun s => Ret (tt, f s).

(** ** File numbers *)

Definition set_next_file_number (n : Z) : MV unit :=
  modify_set (fun s => with_numbers n (vs_manifest_file_number s) (vs_last_sequence s) (vs_log_number s) (vs_prev_log_number s) s).

Definition NewFileNumber : MV Z := let* s := get in set_next_file_number (u64 (vs_next_file_number s + 1)) ;;; ret (vs_next_file_number s).

Definition ReuseFileNumber (file_number : Z) : MV unit :=
  let* s := get in if vs_next_file_number s =? u64 (file_number + 1) then set_next_file_number file_number else ret tt.

Definition MarkFileNumberUsed (number : Z) : MV unit :=
  let* s := get in if vs_next_file_number s <=? number then set_next_file_number (u64 (number + 1)) else ret tt.

Definition SetLastSequence (n : Z) : MV unit :=
  let* s := get in
  if n >=? vs_last_sequence s then modify_set (with_numbers (vs_next_file_number s) (vs_manifest_file_number s) n (vs_log_number s) (vs_prev_log_number s))
  else undef.

(** ** Reference counts *)

(** [new FileMetaData(meta)] with these counts. *)
Definition new_file (meta : FileMetaData) (refs allowed : Z) : MV File := fun s =>
  Ret ({| f_ptr := vs_fresh s; f_number := number meta; f_size := file_size meta; f_smallest := smallest meta; f_largest := largest meta |},
       with_store (vs_versions s) (<[vs_fresh s := (refs, allowed)]> (vs_files s)) (S (vs_fresh s)) s).

Definition File_Ref (f : File) : MV unit :=
  let* s := get in
  let* '(refs, allowed) := need (vs_files s !! f_ptr f) in
  modify_set (with_store (vs_versions s) (<[f_ptr f := (refs + 1, allowed)]> (vs_files s)) (vs_fresh s)).

(** [f->refs--; if (f->refs <= 0) delete f;] *)
Definition File_Unref (f : File) : MV unit :=
  let* s := get in
  let* '(refs, allowed) := need (vs_files s !! f_ptr f) in
  modify_set (with_store (vs_versions s) (if refs - 1 <=? 0 then delete (f_ptr f) (vs_files s) else <[f_ptr f := (refs - 1, allowed)]> (vs_files s)) (vs_fresh s)).

Fixpoint each_file (c : File -> MV unit) (files : list File) : MV unit :=
  match files with [] => ret tt | f :: files => c f ;;; each_file c files end.

(** [new Version(this)]. *)
Definition new_version : MV nat := fun s => Ret (vs_fresh s, with_store (<[vs_fresh s := Version_new]> (vs_versions s)) (vs_files s) (S (vs_fresh s)) s).

Definition get_version (p : nat) : MV Version := let* s := get in need (vs_versions s !! p).

Definition set_version (p : nat) (v : Version) : MV unit := modify_set (fun s => with_store (<[p := v]> (vs_versions s)) (vs_files s) (vs_fresh s) s).

(** [f->refs > 0] is asserted. *)
Definition drop_file (f : File) : MV unit :=
  let* s := get in
  let* '(refs, _) := need (vs_files s !! f_ptr f) in
  if refs >? 0 then File_Unref f else undef.

(** [delete v]: the destructor. *)
Definition Version_delete (p : nat) : MV unit :=
  let* v := get_version p in
  if negb (refs_ v =? 0) then undef
  else
    modify_set (fun s => with_list (vs_current s) (List.filter (fun q => negb (q =? p)%nat) (vs_chain s)) s) ;;;
    each_file drop_file (concat (files_ v)) ;;;
    modify_set (fun s => with_store (delete p (vs_versions s)) (vs_files s) (vs_fresh s) s).

Definition with_refs (n : Z) (v : Version) : Version := {|
  files_ := files_ v; refs_ := n; file_to_compact_ := file_to_compact_ v; file_to_compact_level_ := file_to_compact_level_ v;
  compaction_score_ := compaction_score_ v; compaction_level_ := compaction_level_ v |}.

Definition Version_Ref (p : nat) : MV unit := let* v := get_version p in set_version p (with_refs (refs_ v + 1) v).

Definition Version_Unref (p : nat) : MV unit :=
  let* v := get_version p in
  if refs_ v >=? 1 then
    set_version p (with_refs (refs_ v - 1) v) ;;;
    if refs_ v - 1 =? 0 then Version_delete p else ret tt
  else undef.

Definition AppendVersion (p : nat) : MV unit :=
  let* v := get_version p in
  let* s := get in
  if negb (refs_ v =? 0) || bool_decide (vs_current s = Some p) then undef
  else
    (match vs_current s with Some c => Version_Unref c | None => ret tt end) ;;;
    modify_set (fun s => with_list (Some p) (vs_chain s) s) ;;;
    Version_Ref p ;;;
    modify_set (fun s => with_list (vs_current s) (vs_chain s ++ [p]) s).

(** ** Seeks are charged *)

Definition UpdateStats (p : nat) (stats : GetStats) : MV bool :=
  match seek_file stats with
  | None => ret false
  | Some f =>
      let* s := get in
      let* '(refs, allowed) := need (vs_files s !! f_ptr f) in
      let* v := get_version p in
      modify_set (with_store (vs_versions s) (<[f_ptr f := (refs, allowed - 1)]> (vs_files s)) (vs_fresh s)) ;;;
      match file_to_compact_ v with
      | None =>
          if allowed - 1 <=? 0 then
            set_version p {| files_ := files_ v; refs_ := refs_ v; file_to_compact_ := Some f; file_to_compact_level_ := seek_file_level stats;
                             compaction_score_ := compaction_score_ v; compaction_level_ := compaction_level_ v |} ;;;
            ret true
          else ret false
      | Some _ => ret false
      end
  end.

(** * The builder *)

Section Builder.
Context (ucmp : Comparator).
Abbreviation icmp := (InternalKeyComparator ucmp).

(** [BySmallestKey]. *)
Definition by_smallest (f1 f2 : File) : bool :=
  let r := Compare icmp (f_smallest f1) (f_smallest f2) in
  if negb (r =? 0) then r <? 0 else f_number f1 <? f_number f2.

(** [std::set<FileMetaData*, BySmallestKey>::insert]. *)
Fixpoint set_insert_file (f : File) (added : list File) : list File :=
  match added with
  | [] => [f]
  | g :: added' => if by_smallest f g then f :: added else if by_smallest g f then g :: set_insert_file f added' else added
  end.

Record LevelState : Type := { deleted_numbers : gset Z; added_files : list File }.
Record Builder : Type := { base_ : nat; levels_ : list LevelState }.

Definition Builder_new (base : nat) : MV Builder :=
  Version_Ref base ;;; ret {| base_ := base; levels_ := replicate (Z.to_nat kNumLevels) {| deleted_numbers := ∅; added_files := [] |} |}.

Definition Builder_delete (b : Builder) : MV unit :=
  each_file File_Unref (concat (map added_files (levels_ b))) ;;; Version_Unref (base_ b).

(** [levels_[level]] and [compact_pointer_[level]]: out of range is undefined. *)
Definition at_level {A} (l : list A) (level : Z) : option A := if 0 <=? level then l !! Z.to_nat level else None.

Fixpoint apply_pointers (l : list (Z * Slice)) : MV unit :=
  match l with
  | [] => ret tt
  | (level, key) :: l =>
      let* s := get in
      let* key := need (InternalKey_Encode key) in
      let* _ := need (at_level (vs_pointers s) level) in
      modify_set (with_pointers (<[Z.to_nat level := key]> (vs_pointers s))) ;;;
      apply_pointers l
  end.

Definition delete_number (levels : list LevelState) (p : Z * Z) : option (list LevelState) :=
  st ← at_level levels p.1;
  Some (<[Z.to_nat p.1 := {| deleted_numbers := {[p.2]} ∪ deleted_numbers st; added_files := added_files st |}]> levels).

Fixpoint delete_numbers (l : list (Z * Z)) (levels : list LevelState) : option (list LevelState) :=
  match l with [] => Some levels | p :: l => levels ← delete_number levels p; delete_numbers l levels end.

(** One seek for every 16KB before a compaction. *)
Definition allowed_seeks_for (size : Z) : Z :=
  let n := sext 32 (size / 16384) in if n <? 100 then 100 else n.

Definition add_file (levels : list LevelState) (level : Z) (f : File) : option (list LevelState) :=
  st ← at_level levels level;
  Some (<[Z.to_nat level := {| deleted_numbers := deleted_numbers st ∖ {[f_number f]}; added_files := set_insert_file f (added_files st) |}]> levels).

Fixpoint add_new_files (l : list (Z * FileMetaData)) (levels : list LevelState) : MV (list LevelState) :=
  match l with
  | [] => ret levels
  | (level, meta) :: l =>
      let* f := new_file meta 1 (allowed_seeks_for (file_size meta)) in
      let* levels := need (add_file levels level f) in
      add_new_files l levels
  end.

Definition Builder_Apply (edit : VersionEdit) (b : Builder) : MV Builder :=
  apply_pointers (compact_pointers_ edit) ;;;
  let* levels := need (delete_numbers (deleted_files_ edit) (levels_ b)) in
  let* levels := add_new_files (new_files_ edit) levels in
  ret {| base_ := base_ b; levels_ := levels |}.

(** [files] is [v->files_[level]] so far. *)
Definition MaybeAddFile (level : nat) (deleted : gset Z) (f : File) (files : list File) : MV (list File) :=
  if bool_decide (f_number f ∈ deleted) then ret files
  else
    match level, last files with
    | S _, Some g => if Compare icmp (f_largest g) (f_smallest f) <? 0 then File_Ref f ;;; ret (files ++ [f]) else undef
    | _, _ => File_Ref f ;;; ret (files ++ [f])
    end.

Fixpoint add_all (level : nat) (deleted : gset Z) (l files : list File) : MV (list File) :=
  match l with
  | [] => ret files
  | f :: l => let* files := MaybeAddFile level deleted f files in add_all level deleted l files
  end.

(** [std::upper_bound(base_iter, base_end, f, cmp)]: what is before it, and the rest. *)
Fixpoint upper_bound (f : File) (base : list File) : list File * list File :=
  match base with
  | [] => ([], [])
  | g :: base' => if by_smallest f g then ([], base) else let '(lo, hi) := upper_bound f base' in (g :: lo, hi)
  end.

Fixpoint save_level (level : nat) (deleted : gset Z) (base added files : list File) : MV (list File) :=
  match added with
  | [] => add_all level deleted base files
  | f :: added =>
      let '(lo, hi) := upper_bound f base in
      let* files := add_all level deleted lo files in
      let* files := MaybeAddFile level deleted f files in
      save_level level deleted hi added files
  end.

(** Make sure there is no overlap in levels > 0: else [abort()]. *)
Fixpoint no_overlap (files : list File) : bool :=
  match files with
  | f :: ((g :: _) as files') => (Compare icmp (f_largest f) (f_smallest g) <? 0) && no_overlap files'
  | _ => true
  end.

Fixpoint save_levels (level : nat) (base : list (list File)) (levels : list LevelState) : MV (list (list File)) :=
  match base, levels with
  | files :: base, st :: levels =>
      let* saved := save_level level (deleted_numbers st) files (added_files st) [] in
      if match level with O => true | S _ => no_overlap saved end then
        let* rest := save_levels (S level) base levels in
        ret (saved :: rest)
      else undef
  | _, _ => ret []
  end.

(** [SaveTo(v)] for a new version [v]. *)
Definition Builder_SaveTo (b : Builder) (v : nat) : MV unit :=
  let* base := get_version (base_ b) in
  let* files := save_levels 0 (files_ base) (levels_ b) in
  let* old := get_version v in
  set_version v {| files_ := files; refs_ := refs_ old; file_to_compact_ := file_to_compact_ old; file_to_compact_level_ := file_to_compact_level_ old;
                   compaction_score_ := compaction_score_ old; compaction_level_ := compaction_level_ old |}.

(** * Scores *)

Definition level_score (level : nat) (files : list File) : spec_float :=
  match level with
  | O => double_div (double_of (Z.of_nat (length files))) (double_of kL0_CompactionTrigger)
  | S _ => double_div (double_of (u64 (TotalFileSize files))) (MaxBytesForLevel (Z.of_nat level))
  end.

(** The levels but the last. *)
Fixpoint best_level (level : nat) (levels : list (list File)) (best : Z * spec_float) : Z * spec_float :=
  match levels with
  | [] | [_] => best
  | files :: levels =>
      let score := level_score level files in
      best_level (S level) levels (if SFltb best.2 score then (Z.of_nat level, score) else best)
  end.

Definition Finalize (p : nat) : MV unit :=
  let* v := get_version p in
  let '(level, score) := best_level 0 (files_ v) (-1, double_of (-1)) in
  set_version p {| files_ := files_ v; refs_ := refs_ v; file_to_compact_ := file_to_compact_ v; file_to_compact_level_ := file_to_compact_level_ v;
                   compaction_score_ := score; compaction_level_ := level |}.

(** * The snapshot *)

Fixpoint snapshot_pointers (level : Z) (pointers : list Slice) (e : VersionEdit) : VersionEdit :=
  match pointers with
  | [] => e
  | k :: pointers => snapshot_pointers (level + 1) pointers (if Slice_empty k then e else SetCompactPointer level k e)
  end.

Fixpoint snapshot_files (level : Z) (levels : list (list File)) (e : VersionEdit) : VersionEdit :=
  match levels with
  | [] => e
  | files :: levels =>
      snapshot_files (level + 1) levels (fold_left (fun e f => AddFile level (f_number f) (f_size f) (f_smallest f) (f_largest f) e) files e)
  end.

(** The edit that [WriteSnapshot] writes. *)
Definition snapshot_edit (pointers : list Slice) (levels : list (list File)) : VersionEdit :=
  snapshot_files 0 levels (snapshot_pointers 0 pointers (SetComparatorName (Comparator_Name ucmp) VersionEdit_new)).
End Builder.

(** * What the builder builds *)

Section Replay.
Context {ucmp : Comparator} {ok : Slice -> Prop} `{UL : !ComparatorLaws ucmp ok}.
Abbreviation icmp := (InternalKey_Compare ucmp).
Implicit Types (f g : File) (n m : Z) (s : VersionSet).

(** A number names the same file wherever it appears. *)
Context (meta_of : Z -> FileMetaData) (Hmeta : forall n, key_ok (ok := ok) (smallest (meta_of n))).

Definition names f : Prop :=
  f_size f = file_size (meta_of (f_number f)) /\ f_smallest f = smallest (meta_of (f_number f)) /\ f_largest f = largest (meta_of (f_number f)).

(** The order of files, by number. *)
Definition before_num n m : bool :=
  let r := icmp (smallest (meta_of n)) (smallest (meta_of m)) in if negb (r =? 0) then r <? 0 else n <? m.
Abbreviation before := (fun n m => before_num n m = true).

Lemma by_smallest_num f g : names f -> names g -> by_smallest ucmp f g = before_num (f_number f) (f_number g).
Proof. intros (_ & E1 & _) (_ & E2 & _). unfold by_smallest, before_num. by rewrite E1, E2. Qed.

Lemma smallest_flip n m : Z.sgn (icmp (smallest (meta_of n)) (smallest (meta_of m))) = - Z.sgn (icmp (smallest (meta_of m)) (smallest (meta_of n))).
Proof. apply (cmp_flip (cmp := Compare (InternalKeyComparator ucmp)) (ok := internal_ok ok)); by apply key_internal. Qed.

Lemma before_iff n m : before n m <-> icmp (smallest (meta_of n)) (smallest (meta_of m)) < 0 \/ icmp (smallest (meta_of n)) (smallest (meta_of m)) = 0 /\ n < m.
Proof.
  unfold before_num. destruct (Z.eqb_spec (icmp (smallest (meta_of n)) (smallest (meta_of m))) 0); cbn [negb]; rewrite Z.ltb_lt; lia.
Qed.

Lemma before_total n m : n <> m -> before n m \/ before m n.
Proof. rewrite !before_iff. pose proof (smallest_flip n m). lia. Qed.

Lemma before_asym n m : before n m -> ~ before m n.
Proof. rewrite !before_iff. pose proof (smallest_flip n m). lia. Qed.

Lemma before_trans n m k : before n m -> before m k -> before n k.
Proof.
  rewrite !before_iff. pose proof (smallest_flip n m). pose proof (smallest_flip m k). pose proof (smallest_flip n k).
  assert (T : forall a b c, icmp (smallest (meta_of a)) (smallest (meta_of b)) <= 0 -> icmp (smallest (meta_of b)) (smallest (meta_of c)) <= 0 -> icmp (smallest (meta_of a)) (smallest (meta_of c)) <= 0).
  { intros a b c. apply (cmp_le_trans (cmp := Compare (InternalKeyComparator ucmp)) (ok := internal_ok ok)); by apply key_internal. }
  pose proof (T n m k). pose proof (T k n m). pose proof (T m k n). lia.
Qed.

Abbreviation nums l := (map f_number l).
Abbreviation sorted l := (StronglySorted before l).

Lemma sorted_nodup l : sorted l -> NoDup l.
Proof.
  induction 1 as [|n l Hs IH HF]; constructor; [|done]. intros Hn. rewrite Forall_forall in HF. specialize (HF n Hn). by apply (before_asym n n).
Qed.

Lemma sorted_unique l1 l2 : sorted l1 -> sorted l2 -> (forall n, n ∈ l1 <-> n ∈ l2) -> l1 = l2.
Proof.
  intros H1 H2 Hin. apply (StronglySorted_unique_strong before); [|done|done|apply NoDup_Permutation; [by apply sorted_nodup..|done]].
  intros a b _ _ Hab Hba. by destruct (before_asym a b).
Qed.

(** ** Added files *)

Lemma insert_sorted_nums f l : names f -> Forall names l -> sorted (nums l) ->
  sorted (nums (set_insert_file ucmp f l)) /\ Forall names (set_insert_file ucmp f l) /\ (forall n, n ∈ nums (set_insert_file ucmp f l) <-> n = f_number f \/ n ∈ nums l) /\
  forall g, g ∈ set_insert_file ucmp f l -> g = f \/ g ∈ l.
Proof.
  intros Hf. induction l as [|g l IH]; intros Hl HS; cbn [set_insert_file map] in *.
  { split_and!; [repeat constructor|by constructor|intros n; by rewrite elem_of_cons|]. intros h ->%list_elem_of_singleton. by left. }
  apply Forall_cons in Hl as [Hg Hl]. apply StronglySorted_inv in HS as [HS HF]. rewrite !(by_smallest_num f g), (by_smallest_num g f) by done.
  destruct (before_num (f_number f) (f_number g)) eqn:E1; [|destruct (before_num (f_number g) (f_number f)) eqn:E2].
  - cbn [map]. split_and!; [|by apply Forall_cons_2; [|apply Forall_cons_2]|intros n; by rewrite elem_of_cons|intros h; by rewrite elem_of_cons].
    constructor; [by constructor|]. constructor; [done|].
    apply (Forall_impl _ _ _ HF). intros n. by apply before_trans.
  - destruct (IH Hl HS) as (I1 & I2 & I3 & I4). cbn [map]. split_and!.
    + constructor; [done|]. apply Forall_forall. intros n Hn. apply I3 in Hn as [->|Hn]; [done|]. rewrite Forall_forall in HF. by apply HF.
    + by constructor.
    + intros n. rewrite !elem_of_cons, I3. tauto.
    + intros h. rewrite !elem_of_cons. intros [->|Hh]; [tauto|]. destruct (I4 h Hh); tauto.
  - assert (f_number f = f_number g) as ->. { destruct (Z.eq_dec (f_number f) (f_number g)) as [|Hne]; [done|]. destruct (before_total _ _ Hne); congruence. }
    split_and!; [by constructor|by constructor|intros n; cbn [map]; rewrite elem_of_cons; tauto|tauto].
Qed.

(** ** The merge of base and added files *)

Fixpoint merged (base added : list File) : list File :=
  match added with
  | [] => base
  | f :: added => let '(lo, hi) := upper_bound ucmp f base in lo ++ f :: merged hi added
  end.

Lemma upper_bound_spec f base : names f -> Forall names base -> sorted (nums base) -> f_number f ∉ nums base ->
  exists lo hi, upper_bound ucmp f base = (lo, hi) /\ base = lo ++ hi /\ Forall (fun g => before (f_number g) (f_number f)) lo /\ Forall (fun g => before (f_number f) (f_number g)) hi.
Proof.
  intros Hf. induction base as [|g base IH]; intros Hl HS Hn; cbn [upper_bound map] in *; [by exists [], []|]. apply Forall_cons in Hl as [Hg Hl]. apply StronglySorted_inv in HS as [HS HF].
  rewrite by_smallest_num by done. apply not_elem_of_cons in Hn as [Hne Hn]. destruct (before_num (f_number f) (f_number g)) eqn:Eb.
  - exists [], (g :: base). split; [done|]. split; [done|]. split; [constructor|]. constructor; [done|]. rewrite Forall_map in HF. apply (Forall_impl _ _ _ HF). intros h. by apply before_trans.
  - destruct (IH Hl HS Hn) as (lo & hi & -> & -> & H1 & H2). exists (g :: lo), hi. split; [done|]. split; [done|]. split; [|done]. constructor; [|done]. destruct (before_total _ _ Hne) as [?|?]; [congruence|done].
Qed.

Lemma sorted_app l1 l2 : sorted (l1 ++ l2) <-> sorted l1 /\ sorted l2 /\ forall n m, n ∈ l1 -> m ∈ l2 -> before n m.
Proof.
  split.
  - intros H. split; [by apply StronglySorted_app_1_l in H|]. split; [by apply StronglySorted_app_1_r in H|]. intros n m Hn Hm. by apply (StronglySorted_app_1_elem_of _ l1 l2 n m H).
  - intros (H1 & H2 & H3). induction H1 as [|n l1 H1 IH HF]; [done|]. cbn [app]. constructor.
    + apply IH. intros a b Ha. apply H3. by right.
    + apply Forall_app. split; [done|]. apply Forall_forall. intros b Hb. apply H3; [by left|done].
Qed.

Lemma merged_spec added : forall base, Forall names added -> Forall names base -> sorted (nums added) -> sorted (nums base) -> (forall n, n ∈ nums added -> n ∉ nums base) ->
  sorted (nums (merged base added)) /\ Forall names (merged base added) /\ (forall g, g ∈ merged base added <-> g ∈ base \/ g ∈ added).
Proof.
  induction added as [|f added IH]; intros base Ha Hb Sa Sb Hd; cbn [merged map] in *.
  { split; [done|]. split; [done|]. intros g. rewrite elem_of_nil. tauto. }
  apply Forall_cons in Ha as [Hf Ha]. apply StronglySorted_inv in Sa as [Sa HF]. destruct (upper_bound_spec f base Hf Hb Sb) as (lo & hi & -> & -> & Hlo & Hhi); [apply Hd; by left|].
  rewrite map_app in Sb, Hd. apply sorted_app in Sb as (Slo & Shi & Slh). apply Forall_app in Hb as [Nlo Nhi].
  destruct (IH hi Ha Nhi Sa Shi) as (I1 & I2 & I3); [intros n Hn Hh; apply (Hd n); [by right|apply elem_of_app; by right]|]. rewrite Forall_forall in Hlo, Hhi. rewrite Forall_forall in HF.
  assert (Hin : forall n, n ∈ nums (merged hi added) -> before (f_number f) n).
  { intros n (g & -> & Hg)%list_elem_of_fmap. apply I3 in Hg as [Hg|Hg]; [by apply Hhi|]. apply HF. apply list_elem_of_fmap. by exists g. }
  split; [|split].
  - rewrite map_app. cbn [map]. apply sorted_app. split; [done|]. split; [constructor; [done|]; by apply Forall_forall|]. intros n m (g & -> & Hg)%list_elem_of_fmap Hm. specialize (Hlo g Hg).
    apply elem_of_cons in Hm as [->|Hm]; [done|]. apply (before_trans _ (f_number f)); [done|by apply Hin].
  - apply Forall_app. split; [done|]. by constructor.
  - intros g. rewrite !elem_of_app, !elem_of_cons, I3. tauto.
Qed.

(** ** Saving *)

(** The files that are not deleted. *)
Definition live (deleted : gset Z) (l : list File) : list File := List.filter (fun f => negb (bool_decide (f_number f ∈ deleted))) l.

Lemma live_in deleted l f : f ∈ live deleted l <-> f ∈ l /\ f_number f ∉ deleted.
Proof. unfold live. rewrite list_elem_of_In, List.filter_In, <- list_elem_of_In, negb_true_iff, bool_decide_eq_false. done. Qed.

Definition alive s f : Prop := is_Some (vs_files s !! f_ptr f).

(** Only counts change. *)
Definition counts_only s s' : Prop := vs_versions s' = vs_versions s /\ vs_pointers s' = vs_pointers s /\ forall f, alive s f -> alive s' f.

Lemma counts_trans s1 s2 s3 : counts_only s1 s2 -> counts_only s2 s3 -> counts_only s1 s3.
Proof. intros (? & ? & ?) (? & ? & ?). split_and!; [congruence..|auto]. Qed.

Lemma File_Ref_spec f s : match File_Ref f s with Ret (_, s') => counts_only s s' | _ => True end /\ (alive s f -> exists s', File_Ref f s = Ret (tt, s')).
Proof.
  unfold File_Ref, bind, get, need, ret, undef, modify_set, alive. destruct (vs_files s !! f_ptr f) as [[n a]|] eqn:E; [|split; [done|by intros [? ?]]]. split; [|by eexists]. split; [done|]. split; [done|].
  intros g Hg. unfold alive. cbn [with_store vs_files]. destruct (decide (f_ptr g = f_ptr f)) as [->|Hne]; [rewrite lookup_insert_eq; by eexists|]. by rewrite lookup_insert_ne.
Qed.

Lemma no_overlap_last files g f rest : no_overlap ucmp (files ++ f :: rest) = true -> last files = Some g -> icmp (f_largest g) (f_smallest f) < 0.
Proof.
  induction files as [|h files IH]; [done|]. destruct files as [|h' files]; cbn [app no_overlap last].
  - intros [H _]%andb_true_iff [= ->]. by apply Z.ltb_lt in H.
  - intros [_ H]%andb_true_iff. by apply IH.
Qed.

Lemma add_all_live level deleted l : forall files s,
  (forall r s', add_all ucmp level deleted l files s = Ret (r, s') -> r = files ++ live deleted l /\ counts_only s s') /\
  (Forall (alive s) (live deleted l) -> (level <> O -> no_overlap ucmp (files ++ live deleted l) = true) -> exists s', add_all ucmp level deleted l files s = Ret (files ++ live deleted l, s')).
Proof.
  induction l as [|f l IH]; intros files s; cbn [add_all].
  { unfold live. cbn [List.filter]. rewrite app_nil_r. split; [intros r s' [= <- <-]; split; [done|split_and!; done]|intros _ _; by exists s]. }
  unfold live. cbn [List.filter]. unfold MaybeAddFile. destruct (bool_decide (f_number f ∈ deleted)); cbn [negb]; [apply (IH files s)|].
  destruct (File_Ref_spec f s) as [Hc Ht]. split.
  - assert (Hgo : forall r s', (let* files0 := File_Ref f ;;; ret (files ++ [f]) in add_all ucmp level deleted l files0) s = Ret (r, s') -> r = files ++ f :: live deleted l /\ counts_only s s').
    { intros r s'. unfold bind, ret. destruct (File_Ref f s) as [[[] s1]| |]; [|done..]. intros E. destruct (proj1 (IH _ _) _ _ E) as [-> H]. rewrite <- app_assoc. split; [done|]. by apply (counts_trans _ s1). }
    intros r s'. destruct level; [apply Hgo|]. destruct (last files); [|apply Hgo]. destruct (_ <? 0); [apply Hgo|done].
  - intros [Hf Hl]%Forall_cons Hno. destruct (Ht Hf) as (s1 & E1). rewrite E1 in Hc. assert (Hgo : exists s', (let* files0 := File_Ref f ;;; ret (files ++ [f]) in add_all ucmp level deleted l files0) s = Ret (files ++ f :: live deleted l, s')).
    { unfold bind, ret. rewrite E1. destruct (proj2 (IH (files ++ [f]) s1)) as (s2 & E2).
      - apply (Forall_impl _ _ _ Hl). apply Hc.
      - intros Hne. rewrite <- app_assoc. by apply Hno.
      - exists s2. by rewrite E2, <- app_assoc. }
    destruct level as [|level]; [exact Hgo|]. destruct (last files) as [g|] eqn:El; [|exact Hgo]. pose proof (no_overlap_last files g f _ (Hno ltac:(done)) El) as Hlt.
    destruct (Z.ltb_spec (Compare (InternalKeyComparator ucmp) (f_largest g) (f_smallest f)) 0) as [_|Hge]; [exact Hgo|]. change (0 <= icmp (f_largest g) (f_smallest f)) in Hge. lia.
Qed.

Lemma add_all_app level deleted l1 l2 : forall files s, add_all ucmp level deleted (l1 ++ l2) files s = (let* files := add_all ucmp level deleted l1 files in add_all ucmp level deleted l2 files) s.
Proof.
  induction l1 as [|f l1 IH]; intros files s; cbn [app add_all]; [done|]. unfold bind. destruct (MaybeAddFile ucmp level deleted f files s) as [[files1 s1]| |]; [apply IH|done..].
Qed.

(** Saving a level is adding the merged files, one after the other. *)
Lemma save_level_eq level deleted added : forall base files s, save_level ucmp level deleted base added files s = add_all ucmp level deleted (merged base added) files s.
Proof.
  induction added as [|f added IH]; intros base files s; cbn [save_level merged]; [done|]. destruct (upper_bound ucmp f base) as [lo hi]. rewrite add_all_app. unfold bind.
  destruct (add_all ucmp level deleted lo files s) as [[files1 s1]| |]; [|done..]. cbn [add_all]. unfold bind. destruct (MaybeAddFile ucmp level deleted f files1 s1) as [[files2 s2]| |]; [apply IH|done..].
Qed.

(** The files of each level of the version saved. *)
Definition saved_level (files : list File) (st : LevelState) : list File := live (deleted_numbers st) (merged files (added_files st)).

Lemma save_levels_spec base : forall level levels s,
  (forall r s', save_levels ucmp level base levels s = Ret (r, s') -> r = zip_with saved_level base levels /\ counts_only s s' /\
     forall i files, r !! i = Some files -> (level + i <> 0)%nat -> no_overlap ucmp files = true) /\
  ((forall i files, zip_with saved_level base levels !! i = Some files -> Forall (alive s) files /\ ((level + i <> 0)%nat -> no_overlap ucmp files = true)) ->
     exists s', save_levels ucmp level base levels s = Ret (zip_with saved_level base levels, s')).
Proof.
  induction base as [|files base IH]; intros level levels s; cbn [save_levels zip_with].
  { split; [intros r s' [= <- <-]; split; [done|]; split; [split_and!; done|done]|intros _; by exists s]. }
  destruct levels as [|st levels]; cbn [zip_with]. { split; [intros r s' [= <- <-]; split; [done|]; split; [split_and!; done|done]|intros _; by exists s]. }
  destruct (add_all_live level (deleted_numbers st) (merged files (added_files st)) [] s) as [Hp Ht]. cbn [app] in Hp, Ht. fold (saved_level files st) in Hp, Ht. split.
  - intros r s'. unfold bind at 1. rewrite save_level_eq. destruct (add_all ucmp level _ _ [] s) as [[saved s1]| |] eqn:E1; [|done..]. destruct (Hp _ _ eq_refl) as [-> Hc]. destruct (match level with O => true | S _ => no_overlap ucmp (saved_level files st) end) eqn:Eo; [|done].
    unfold bind, ret. destruct (save_levels ucmp (S level) base levels s1) as [[rest s2]| |] eqn:E2; [|done..]. intros [= <- <-]. destruct (proj1 (IH (S level) levels s1) _ _ E2) as (-> & Hc2 & Hno). split; [done|]. split; [by apply (counts_trans _ s1)|].
    intros [|i] l El Hne; cbn in El; [injection El as <-; destruct level; [lia|done]|]. apply (Hno i l El). lia.
  - intros Hall. destruct (Hall O _ eq_refl) as [Ha Hno]. destruct Ht as (s1 & E1); [done|intros; apply Hno; lia|]. unfold bind at 1. rewrite save_level_eq, E1.
    assert (Eo : match level with O => true | S _ => no_overlap ucmp (saved_level files st) end = true) by (destruct level; [done|apply Hno; lia]). rewrite Eo.
    destruct (Hp _ _ E1) as [_ Hc]. unfold bind, ret. destruct (proj2 (IH (S level) levels s1)) as (s2 & E2); [|rewrite E2; by exists s2]. intros i l El. destruct (Hall (S i) l El) as [H1 H2]. split; [apply (Forall_impl _ _ _ H1); apply Hc|]. intros. apply H2. lia.
Qed.

Lemma SaveTo_spec b v s B : vs_versions s !! base_ b = Some B ->
  (forall s', Builder_SaveTo ucmp b v s = Ret (tt, s') -> exists V, vs_versions s' !! v = Some V /\ files_ V = zip_with saved_level (files_ B) (levels_ b) /\
     forall i files, files_ V !! i = Some files -> i <> O -> no_overlap ucmp files = true) /\
  (is_Some (vs_versions s !! v) -> (forall i files, zip_with saved_level (files_ B) (levels_ b) !! i = Some files -> Forall (alive s) files /\ (i <> O -> no_overlap ucmp files = true)) ->
     exists s', Builder_SaveTo ucmp b v s = Ret (tt, s')).
Proof.
  intros EB. destruct (save_levels_spec (files_ B) 0 (levels_ b) s) as [Hp Ht]. unfold Builder_SaveTo, get_version, bind, get, need, ret, undef, set_version, modify_set. rewrite EB. split.
  - intros s'. destruct (save_levels ucmp 0 (files_ B) (levels_ b) s) as [[r s1]| |] eqn:E1; [|done..]. destruct (Hp _ _ eq_refl) as (-> & Hc & Hno). destruct (vs_versions s1 !! v) as [old|] eqn:Eo; [|done]. intros [= <-].
    eexists. cbn [with_store vs_versions]. rewrite lookup_insert_eq. split; [reflexivity|]. split; [done|]. intros i files Ei Hi. by apply (Hno i).
  - intros [old Eo] Hall. destruct Ht as (s1 & E1); [intros i files Ei; by apply Hall|]. rewrite E1. destruct (Hp _ _ E1) as (_ & (-> & _) & _). rewrite Eo. by eexists.
Qed.

(** ** Applying edits *)

Abbreviation num_set l := (list_to_set (nums l) : gset Z).

Record level_ok (files : list File) (st : LevelState) : Prop := {
  lo_base : Forall names files;
  lo_base_sorted : sorted (nums files);
  lo_added : Forall names (added_files st);
  lo_added_sorted : sorted (nums (added_files st));
  lo_disjoint : forall n, n ∈ nums (added_files st) -> n ∉ nums files
}.

Definition BuilderOk (bases : list (list File)) (levels : list LevelState) : Prop :=
  length bases = 7%nat /\ length levels = 7%nat /\ forall i files st, bases !! i = Some files -> levels !! i = Some st -> level_ok files st.

(** The numbers of the files that saving would give. *)
Definition level_set (files : list File) (st : LevelState) : gset Z := (num_set files ∪ num_set (added_files st)) ∖ deleted_numbers st.
Definition bset (bases : list (list File)) (levels : list LevelState) (i : nat) : gset Z :=
  match bases !! i, levels !! i with Some files, Some st => level_set files st | _, _ => ∅ end.

(** What an edit does to the numbers of the levels. *)
Definition del_num (sets : nat -> gset Z) (p : Z * Z) : nat -> gset Z := fun i => if (i =? Z.to_nat p.1)%nat then sets i ∖ {[p.2]} else sets i.
Definition add_num (sets : nat -> gset Z) (p : Z * FileMetaData) : nat -> gset Z := fun i => if (i =? Z.to_nat p.1)%nat then {[number p.2]} ∪ sets i else sets i.
Definition apply_sets (sets : nat -> gset Z) (e : VersionEdit) : nat -> gset Z := fold_left add_num (new_files_ e) (fold_left del_num (deleted_files_ e) sets).

Lemma fold_sets {A} (F : (nat -> gset Z) -> A -> nat -> gset Z) (HF : forall S1 S2 a, (forall i, S1 i = S2 i) -> forall i, F S1 a i = F S2 a i) l :
  forall S1 S2, (forall i, S1 i = S2 i) -> forall i, fold_left F l S1 i = fold_left F l S2 i.
Proof. induction l as [|a l IH]; intros S1 S2 H; cbn [fold_left]; [done|]. by apply IH, HF. Qed.

Lemma del_ext S1 S2 p : (forall i, S1 i = S2 i) -> forall i, del_num S1 p i = del_num S2 p i.
Proof. intros H i. unfold del_num. by rewrite H. Qed.

Lemma add_ext S1 S2 p : (forall i, S1 i = S2 i) -> forall i, add_num S1 p i = add_num S2 p i.
Proof. intros H i. unfold add_num. by rewrite H. Qed.

Lemma apply_ext S1 S2 e : (forall i, S1 i = S2 i) -> forall i, apply_sets S1 e i = apply_sets S2 e i.
Proof. intros H. apply (fold_sets add_num add_ext). by apply (fold_sets del_num del_ext). Qed.

(** A level's state is replaced. *)
Lemma replace_level bases levels k files st st' : BuilderOk bases levels -> bases !! k = Some files -> levels !! k = Some st -> level_ok files st' ->
  BuilderOk bases (<[k := st']> levels) /\ forall i, bset bases (<[k := st']> levels) i = if (i =? k)%nat then level_set files st' else bset bases levels i.
Proof.
  intros (H1 & H2 & H3) Eb El Hok. split.
  - split; [done|]. split; [by rewrite length_insert|]. intros i fs st1 E1 E2. destruct (decide (i = k)) as [->|Hne].
    + rewrite list_lookup_insert_eq in E2 by (by eapply lookup_lt_Some). congruence.
    + rewrite list_lookup_insert_ne in E2 by done. by apply (H3 i).
  - intros i. unfold bset. destruct (Nat.eqb_spec i k) as [->|Hne]; [rewrite list_lookup_insert_eq, Eb by (by eapply lookup_lt_Some); done|]. by rewrite list_lookup_insert_ne by done.
Qed.

Definition all_added (levels : list LevelState) : list File := concat (map added_files levels).

Lemma all_added_in levels f : f ∈ all_added levels <-> exists i st, levels !! i = Some st /\ f ∈ added_files st.
Proof.
  unfold all_added. rewrite list_elem_of_In, in_concat. split.
  - intros (l & (st & <- & Hst)%in_map_iff & Hf). rewrite <- list_elem_of_In in Hst. rewrite <- list_elem_of_In in Hf. apply list_elem_of_lookup in Hst as (i & Ei). by exists i, st.
  - intros (i & st & Ei & Hf). exists (added_files st). split; [|by apply list_elem_of_In]. apply in_map. apply list_elem_of_In. by eapply list_elem_of_lookup_2.
Qed.

Lemma at_level_some {A} (l : list A) level : length l = 7%nat -> 0 <= level < 7 -> exists a, at_level l level = Some a /\ l !! Z.to_nat level = Some a.
Proof. intros Hl Hr. destruct (lookup_lt_is_Some_2 l (Z.to_nat level)) as [a Ea]; [lia|]. exists a. unfold at_level. destruct (Z.leb_spec 0 level); [done|lia]. Qed.

Lemma delete_number_spec bases levels p : BuilderOk bases levels -> 0 <= p.1 < 7 ->
  exists levels', delete_number levels p = Some levels' /\ BuilderOk bases levels' /\ (forall i, bset bases levels' i = del_num (bset bases levels) p i) /\ forall f, f ∈ all_added levels' -> f ∈ all_added levels.
Proof.
  intros Hok Hp. pose proof Hok as (L1 & L2 & L3). destruct (at_level_some levels p.1 L2 Hp) as (st & Est & El). destruct (at_level_some bases p.1 L1 Hp) as (files & _ & Eb). unfold delete_number. rewrite Est. cbn [mbind option_bind].
  set (st' := {| deleted_numbers := _; added_files := _ |}). assert (Hst' : level_ok files st') by (destruct (L3 _ _ _ Eb El); by constructor). destruct (replace_level _ _ _ _ _ st' Hok Eb El Hst') as [Hok' Hs].
  eexists. split; [reflexivity|]. split; [done|]. split.
  - intros i. rewrite Hs. unfold del_num. destruct (Nat.eqb_spec i (Z.to_nat p.1)) as [->|]; [|done]. unfold bset. rewrite Eb, El. unfold level_set, st'. cbn [deleted_numbers added_files]. set_solver.
  - intros f. rewrite !all_added_in. intros (i & st1 & Ei & Hf). destruct (decide (i = Z.to_nat p.1)) as [->|Hne].
    + rewrite list_lookup_insert_eq in Ei by (by eapply lookup_lt_Some). injection Ei as <-. by exists (Z.to_nat p.1), st.
    + rewrite list_lookup_insert_ne in Ei by done. by exists i, st1.
Qed.

Lemma delete_numbers_spec bases l : forall levels, BuilderOk bases levels -> Forall (fun p => 0 <= p.1 < 7) l ->
  exists levels', delete_numbers l levels = Some levels' /\ BuilderOk bases levels' /\ (forall i, bset bases levels' i = fold_left del_num l (bset bases levels) i) /\ forall f, f ∈ all_added levels' -> f ∈ all_added levels.
Proof.
  induction l as [|p l IH]; intros levels Hok Hl; cbn [delete_numbers fold_left]; [by exists levels|]. apply Forall_cons in Hl as [Hp Hl].
  destruct (delete_number_spec bases levels p Hok Hp) as (l1 & -> & Hok1 & Hs1 & Ha1). cbn [mbind option_bind]. destruct (IH l1 Hok1 Hl) as (l2 & E2 & Hok2 & Hs2 & Ha2).
  exists l2. split; [done|]. split; [done|]. split; [|auto]. intros i. rewrite Hs2. by apply (fold_sets del_num del_ext).
Qed.

(** The file of an entry of an edit. *)
Definition meta_ok (m : FileMetaData) : Prop :=
  file_size m = file_size (meta_of (number m)) /\ smallest m = smallest (meta_of (number m)) /\ largest m = largest (meta_of (number m)).

Lemma add_file_spec bases levels level f : BuilderOk bases levels -> 0 <= level < 7 -> names f -> (forall files, bases !! Z.to_nat level = Some files -> f_number f ∉ nums files) ->
  exists levels', add_file ucmp levels level f = Some levels' /\ BuilderOk bases levels' /\
    (forall i, bset bases levels' i = if (i =? Z.to_nat level)%nat then {[f_number f]} ∪ bset bases levels i else bset bases levels i) /\ forall g, g ∈ all_added levels' -> g = f \/ g ∈ all_added levels.
Proof.
  intros Hok Hp Hf Hnew. pose proof Hok as (L1 & L2 & L3). destruct (at_level_some levels level L2 Hp) as (st & Est & El). destruct (at_level_some bases level L1 Hp) as (files & _ & Eb). unfold add_file. rewrite Est. cbn [mbind option_bind].
  set (st' := {| deleted_numbers := _; added_files := _ |}). destruct (L3 _ _ _ Eb El) as [B1 B2 B3 B4 B5]. destruct (insert_sorted_nums f (added_files st) Hf B3 B4) as (I1 & I2 & I3 & I4).
  assert (Hst' : level_ok files st'). { constructor; [done..|]. cbn [added_files st']. intros n [->|Hn]%I3; [by apply Hnew|by apply B5]. }
  destruct (replace_level _ _ _ _ _ st' Hok Eb El Hst') as [Hok' Hs]. eexists. split; [reflexivity|]. split; [done|]. split.
  - intros i. rewrite Hs. destruct (Nat.eqb_spec i (Z.to_nat level)) as [->|]; [|done]. unfold bset. rewrite Eb, El. unfold level_set, st'. cbn [deleted_numbers added_files].
    apply set_eq. intros n. rewrite !elem_of_difference, !elem_of_union, !elem_of_difference, !elem_of_union, !elem_of_singleton, !elem_of_list_to_set, I3. destruct (decide (n = f_number f)); tauto.
  - intros g. rewrite !all_added_in. intros (i & st1 & Ei & Hg). destruct (decide (i = Z.to_nat level)) as [->|Hne].
    + rewrite list_lookup_insert_eq in Ei by (by eapply lookup_lt_Some). injection Ei as <-. destruct (I4 g Hg) as [->|Hg']; [by left|]. right. by exists (Z.to_nat level), st.
    + rewrite list_lookup_insert_ne in Ei by done. right. by exists i, st1.
Qed.

(** What [Apply] keeps of the set of versions. *)
Definition store_kept s s' : Prop := vs_versions s' = vs_versions s /\ length (vs_pointers s') = length (vs_pointers s) /\ forall f, alive s f -> alive s' f.

Lemma store_kept_trans s1 s2 s3 : store_kept s1 s2 -> store_kept s2 s3 -> store_kept s1 s3.
Proof. intros (? & ? & ?) (? & ? & ?). split_and!; [congruence..|auto]. Qed.

Lemma apply_pointers_spec l : forall s, length (vs_pointers s) = 7%nat -> Forall (fun p => 0 <= p.1 < 7 /\ p.2 <> []) l -> exists s', apply_pointers l s = Ret (tt, s') /\ store_kept s s'.
Proof.
  induction l as [|[level key] l IH]; intros s Hlen Hl; cbn [apply_pointers]; [by exists s|]. apply Forall_cons in Hl as [[Hlv Hk] Hl]. cbn [fst snd] in Hlv, Hk.
  destruct (at_level_some (vs_pointers s) level Hlen Hlv) as (old & Eo & _). destruct key as [|b key]; [done|].
  set (s1 := with_pointers (<[Z.to_nat level := b :: key]> (vs_pointers s)) s). destruct (IH s1) as (s2 & E2 & Hk2); [cbn [s1 with_pointers vs_pointers]; by rewrite length_insert|done|].
  unfold bind, get, need, ret, modify_set, InternalKey_Encode. cbn [Slice_empty]. rewrite Eo. change (exists s', apply_pointers l s1 = Ret (tt, s') /\ store_kept s s').
  exists s2. split; [done|]. apply (store_kept_trans _ s1); [|done]. split; [done|]. split; [cbn [s1 with_pointers vs_pointers]; by rewrite length_insert|done].
Qed.

Lemma new_file_spec (m : FileMetaData) (refs allowed : Z) s : meta_ok m -> exists f s', new_file m refs allowed s = Ret (f, s') /\ store_kept s s' /\ alive s' f /\ names f /\ f_number f = number m.
Proof.
  intros (M1 & M2 & M3). unfold new_file. eexists _, _. split; [reflexivity|]. split; [|split; [|done]].
  - split; [done|]. split; [done|]. intros g Hg. unfold alive. cbn [with_store vs_files]. destruct (decide (f_ptr g = vs_fresh s)) as [->|Hne]; [rewrite lookup_insert_eq; by eexists|]. by rewrite lookup_insert_ne.
  - unfold alive. cbn [with_store vs_files f_ptr]. rewrite lookup_insert_eq. by eexists.
Qed.

Definition new_ok (bases : list (list File)) (p : Z * FileMetaData) : Prop :=
  0 <= p.1 < 7 /\ meta_ok p.2 /\ forall files, bases !! Z.to_nat p.1 = Some files -> number p.2 ∉ nums files.

Lemma add_new_files_spec bases l : forall levels s, BuilderOk bases levels -> Forall (new_ok bases) l -> Forall (alive s) (all_added levels) ->
  exists levels' s', add_new_files ucmp l levels s = Ret (levels', s') /\ BuilderOk bases levels' /\ (forall i, bset bases levels' i = fold_left add_num l (bset bases levels) i) /\ store_kept s s' /\ Forall (alive s') (all_added levels').
Proof.
  induction l as [|[level m] l IH]; intros levels s Hok Hl Ha; cbn [add_new_files fold_left]. { by exists levels, s. } apply Forall_cons in Hl as [(Hlv & Hm & Hnew) Hl]. cbn [fst snd] in Hlv, Hm, Hnew.
  destruct (new_file_spec m 1 (allowed_seeks_for (file_size m)) s Hm) as (f & s1 & E1 & Hk1 & Haf & Hnf & Hn). rewrite (bind_eq _ _ _ _ _ E1). rewrite <- Hn in Hnew.
  destruct (add_file_spec bases levels level f Hok Hlv Hnf Hnew) as (l1 & -> & Hok1 & Hs1 & Ha1). unfold bind at 1. cbn [need]. unfold ret at 1.
  destruct (IH l1 s1 Hok1 Hl) as (l2 & s2 & E2 & Hok2 & Hs2 & Hk2 & Ha2).
  { apply Forall_forall. intros g [->|Hg]%Ha1; [done|]. apply Hk1. rewrite Forall_forall in Ha. by apply Ha. }
  exists l2, s2. split; [done|]. split; [done|]. split; [|split; [by apply (store_kept_trans _ s1)|done]]. intros i. rewrite Hs2. apply (fold_sets add_num add_ext). intros j. rewrite Hs1. unfold add_num. cbn [fst snd]. by rewrite Hn.
Qed.

(** An edit that a version can take: its levels exist, its new files are not in
    these levels. *)
Definition edit_ok (bases : list (list File)) (e : VersionEdit) : Prop :=
  Forall (fun p => 0 <= p.1 < 7 /\ p.2 <> []) (compact_pointers_ e) /\ Forall (fun p => 0 <= p.1 < 7) (deleted_files_ e) /\ Forall (new_ok bases) (new_files_ e).

Lemma Apply_spec bases e b s : BuilderOk bases (levels_ b) -> edit_ok bases e -> length (vs_pointers s) = 7%nat -> Forall (alive s) (all_added (levels_ b)) ->
  exists b' s', Builder_Apply ucmp e b s = Ret (b', s') /\ base_ b' = base_ b /\ BuilderOk bases (levels_ b') /\ (forall i, bset bases (levels_ b') i = apply_sets (bset bases (levels_ b)) e i) /\
    store_kept s s' /\ Forall (alive s') (all_added (levels_ b')).
Proof.
  intros Hok (He1 & He2 & He3) Hlen Ha. unfold Builder_Apply. destruct (apply_pointers_spec _ s Hlen He1) as (s1 & E1 & Hk1). rewrite (bind_eq _ _ _ _ _ E1).
  destruct (delete_numbers_spec bases _ (levels_ b) Hok He2) as (l1 & -> & Hok1 & Hs1 & Ha1). unfold bind at 1. cbn [need]. unfold ret at 1.
  destruct (add_new_files_spec bases _ l1 s1 Hok1 He3) as (l2 & s2 & E2 & Hok2 & Hs2 & Hk2 & Ha2).
  { apply Forall_forall. intros g Hg%Ha1. apply Hk1. rewrite Forall_forall in Ha. by apply Ha. }
  rewrite (bind_eq _ _ _ _ _ E2). eexists _, _. split; [reflexivity|]. cbn [base_ levels_]. split; [done|]. split; [done|]. split; [|split; [by apply (store_kept_trans _ s1)|done]].
  intros i. rewrite Hs2. unfold apply_sets. by apply (fold_sets add_num add_ext).
Qed.

(** ** Versions by the numbers of their files *)

Definition levels_hold (fs : list (list File)) (sets : nat -> gset Z) : Prop :=
  length fs = 7%nat /\ forall i files, fs !! i = Some files -> Forall names files /\ sorted (nums files) /\ num_set files = sets i.

Lemma filter_sorted (p : File -> bool) l : sorted (nums l) -> sorted (nums (List.filter p l)).
Proof.
  induction l as [|f l IH]; [done|]. cbn [map List.filter]. intros [HS HF]%StronglySorted_inv. specialize (IH HS). destruct (p f); [|done]. cbn [map]. constructor; [done|].
  apply Forall_forall. intros n (g & -> & Hg)%list_elem_of_fmap. rewrite Forall_forall in HF. apply HF. apply list_elem_of_In, List.filter_In in Hg as [Hg%list_elem_of_In _]. apply list_elem_of_fmap. by exists g.
Qed.

Lemma saved_hold bases levels : BuilderOk bases levels -> levels_hold (zip_with saved_level bases levels) (bset bases levels).
Proof.
  intros (L1 & L2 & L3). split; [rewrite length_zip_with; lia|]. intros i files Ei. apply lookup_zip_with_Some in Ei as (fs & st & -> & E1 & E2). destruct (L3 i fs st E1 E2) as [B1 B2 B3 B4 B5].
  destruct (merged_spec (added_files st) fs B3 B1 B4 B2 B5) as (M1 & M2 & M3). unfold saved_level. split; [|split].
  - apply Forall_forall. intros f [Hf _]%live_in. rewrite Forall_forall in M2. by apply M2.
  - by apply filter_sorted.
  - unfold bset. rewrite E1, E2. unfold level_set. apply set_eq. intros n. rewrite elem_of_difference, elem_of_union, !elem_of_list_to_set. rewrite !list_elem_of_fmap. split.
    + intros (f & -> & [Hf Hd]%live_in). split; [|done]. apply M3 in Hf as [Hf|Hf]; [left|right]; by exists f.
    + intros [[(f & -> & Hf)|(f & -> & Hf)] Hd]; exists f; (split; [done|]); apply live_in; (split; [|done]); apply M3; [by left|by right].
Qed.

Definition data_of f : Z * Z * Slice * Slice := (f_number f, f_size f, f_smallest f, f_largest f).

Lemma same_data l1 l2 : Forall names l1 -> Forall names l2 -> nums l1 = nums l2 -> map data_of l1 = map data_of l2.
Proof.
  intros H1. revert l2. induction H1 as [|f l1 (F1 & F2 & F3) _ IH]; intros l2 H2 E; destruct l2 as [|g l2]; try done. apply Forall_cons in H2 as [(G1 & G2 & G3) H2]. cbn [map] in *. injection E as En E.
  rewrite (IH l2 H2 E). unfold data_of. by rewrite F1, F2, F3, G1, G2, G3, En.
Qed.

Lemma same_numbers fs1 fs2 S1 S2 : levels_hold fs1 S1 -> levels_hold fs2 S2 -> (forall i, S1 i = S2 i) -> map (map data_of) fs1 = map (map data_of) fs2.
Proof.
  intros [L1 H1] [L2 H2] HS. apply list_eq. intros i. rewrite !list_lookup_fmap. destruct (decide (i < 7)%nat) as [Hi|Hi]; [|by rewrite !lookup_ge_None_2 by lia].
  destruct (lookup_lt_is_Some_2 fs1 i ltac:(lia)) as [l1 E1], (lookup_lt_is_Some_2 fs2 i ltac:(lia)) as [l2 E2]. rewrite E1, E2. cbn [fmap option_fmap option_map]. f_equal.
  destruct (H1 i l1 E1) as (N1 & O1 & C1), (H2 i l2 E2) as (N2 & O2 & C2). apply same_data; [done..|]. apply sorted_unique; [done..|]. intros n. rewrite <- !(elem_of_list_to_set (C := gset Z)), C1, C2, HS. done.
Qed.

Lemma no_overlap_data l1 : forall l2, map data_of l1 = map data_of l2 -> no_overlap ucmp l1 = no_overlap ucmp l2.
Proof.
  induction l1 as [|f l1 IH]; intros l2 E; destruct l2 as [|g l2]; try done. cbn [map] in E. injection E as E1 E2 E3 E4 E5. specialize (IH l2 E5). destruct l1 as [|f' l1], l2 as [|g' l2]; try done.
  cbn [map] in E5. injection E5 as F1 F2 F3 F4 F5. change ((Compare (InternalKeyComparator ucmp) (f_largest f) (f_smallest f') <? 0) && no_overlap ucmp (f' :: l1) = (Compare (InternalKeyComparator ucmp) (f_largest g) (f_smallest g') <? 0) && no_overlap ucmp (g' :: l2)).
  by rewrite IH, E4, F3.
Qed.

(** ** Runs of the builder *)

Fixpoint apply_edits (edits : list VersionEdit) (b : Builder) : MV Builder :=
  match edits with [] => ret b | e :: edits => let* b := Builder_Apply ucmp e b in apply_edits edits b end.

Definition new_builder (base : nat) : Builder := {| base_ := base; levels_ := replicate (Z.to_nat kNumLevels) {| deleted_numbers := ∅; added_files := [] |} |}.
Definition no_files_ : list (list File) := replicate (Z.to_nat kNumLevels) [].

(** The builder makes [result] of a version with the files [base] and edits. *)
Definition built (base : list (list File)) (edits : list VersionEdit) (result : list (list File)) : Prop :=
  exists s p v B b s1 s2 V, vs_versions s !! p = Some B /\ files_ B = base /\ length (vs_pointers s) = 7%nat /\
    apply_edits edits (new_builder p) s = Ret (b, s1) /\ Builder_SaveTo ucmp b v s1 = Ret (tt, s2) /\ vs_versions s2 !! v = Some V /\ files_ V = result.

(** The current version, edit by edit. *)
Inductive history : list VersionEdit -> list (list File) -> Prop :=
| history_new : history [] no_files_
| history_edit edits files e files' : history edits files -> edit_ok files e -> built files [e] files' -> history (edits ++ [e]) files'.

Lemma new_builder_ok fs sets p : levels_hold fs sets -> BuilderOk fs (levels_ (new_builder p)) /\ forall i, (i < 7)%nat -> bset fs (levels_ (new_builder p)) i = sets i.
Proof.
  intros [L H]. split.
  - split; [done|]. split; [done|]. intros i files st E1 E2. apply lookup_replicate in E2 as [-> _]. destruct (H i files E1) as (N & O & _). constructor; [done|done|constructor|constructor|]. by intros n ?%elem_of_nil.
  - intros i Hi. destruct (lookup_lt_is_Some_2 fs i ltac:(lia)) as [files E]. destruct (H i files E) as (_ & _ & <-). unfold bset. rewrite E. cbn [new_builder levels_]. rewrite lookup_replicate_2 by (change (Z.to_nat kNumLevels) with 7%nat; lia).
    unfold level_set. cbn [deleted_numbers added_files map list_to_set]. set_solver.
Qed.

Lemma no_files_hold : levels_hold no_files_ (fun _ => ∅).
Proof. split; [done|]. intros i files E. apply lookup_replicate in E as [-> _]. split; [constructor|]. split; [constructor|done]. Qed.

(** Sets of levels that exist. *)
Definition same_sets (S1 S2 : nat -> gset Z) : Prop := forall i, (i < 7)%nat -> S1 i = S2 i.

Lemma apply_same S1 S2 e : same_sets S1 S2 -> same_sets (apply_sets S1 e) (apply_sets S2 e).
Proof.
  intros H. unfold apply_sets. assert (Hd : forall l T1 T2, same_sets T1 T2 -> same_sets (fold_left del_num l T1) (fold_left del_num l T2)).
  { induction l as [|p l IH]; intros T1 T2 HT; cbn [fold_left]; [done|]. apply IH. intros i Hi. unfold del_num. by rewrite HT. }
  assert (Ha : forall l T1 T2, same_sets T1 T2 -> same_sets (fold_left add_num l T1) (fold_left add_num l T2)).
  { induction l as [|p l IH]; intros T1 T2 HT; cbn [fold_left]; [done|]. apply IH. intros i Hi. unfold add_num. by rewrite HT. }
  by apply Ha, Hd.
Qed.

Lemma hold_same fs S1 S2 : same_sets S1 S2 -> levels_hold fs S1 -> levels_hold fs S2.
Proof. intros HS [L H]. split; [done|]. intros i files E. destruct (H i files E) as (N & O & C). split; [done|]. split; [done|]. rewrite C. apply HS. rewrite <- L. by eapply lookup_lt_Some. Qed.

(** All edits of a history, applied to no files. *)
Lemma apply_edits_spec edits : forall b s, BuilderOk no_files_ (levels_ b) -> Forall (edit_ok no_files_) edits -> length (vs_pointers s) = 7%nat -> Forall (alive s) (all_added (levels_ b)) ->
  exists b' s', apply_edits edits b s = Ret (b', s') /\ base_ b' = base_ b /\ BuilderOk no_files_ (levels_ b') /\ same_sets (bset no_files_ (levels_ b')) (fold_left apply_sets edits (bset no_files_ (levels_ b))) /\
    store_kept s s' /\ Forall (alive s') (all_added (levels_ b')).
Proof.
  induction edits as [|e edits IH]; intros b s Hok He Hlen Ha; cbn [apply_edits fold_left]; [by exists b, s|]. apply Forall_cons in He as [He Hes].
  destruct (Apply_spec no_files_ e b s Hok He Hlen Ha) as (b1 & s1 & E1 & Hb1 & Hok1 & Hs1 & Hk1 & Ha1). rewrite (bind_eq _ _ _ _ _ E1).
  destruct (IH b1 s1 Hok1 Hes) as (b2 & s2 & E2 & Hb2 & Hok2 & Hs2 & Hk2 & Ha2); [by destruct Hk1 as (_ & -> & _)|done|]. exists b2, s2. split; [done|]. split; [congruence|]. split; [done|]. split; [|split; [by apply (store_kept_trans _ s1)|done]].
  intros i Hi. rewrite (Hs2 i Hi). clear - Hs1 Hi. revert i Hi. assert (HT : same_sets (bset no_files_ (levels_ b1)) (apply_sets (bset no_files_ (levels_ b)) e)) by (intros i _; apply Hs1). revert HT.
  generalize (bset no_files_ (levels_ b1)), (apply_sets (bset no_files_ (levels_ b)) e). induction edits as [|e' edits IH]; intros T1 T2 HT; cbn [fold_left]; [done|]. apply IH. by apply apply_same.
Qed.

Lemma edit_ok_empty files e : edit_ok files e -> edit_ok no_files_ e.
Proof.
  intros (H1 & H2 & H3). split; [done|]. split; [done|]. apply (Forall_impl _ _ _ H3). intros p (P1 & P2 & _). split; [done|]. split; [done|]. intros l El. apply lookup_replicate in El as [-> _]. by intros ?%elem_of_nil.
Qed.

Lemma history_spec edits files : history edits files -> levels_hold files (fold_left apply_sets edits (fun _ => ∅)) /\ Forall (edit_ok no_files_) edits /\
  forall i l, files !! i = Some l -> i <> O -> no_overlap ucmp l = true.
Proof.
  induction 1 as [|edits files e files' _ (IH1 & IH2 & _) He Hb].
  - split; [apply no_files_hold|]. split; [constructor|]. intros i l E. apply lookup_replicate in E as [-> _]. done.
  - destruct Hb as (s & p & v & B & b & s1 & s2 & V & EB & <- & Hlen & Eb & Es & EV & <-). destruct (new_builder_ok _ _ p IH1) as [Hok Hsets].
    cbn [apply_edits] in Eb. destruct (Apply_spec _ e (new_builder p) s Hok He Hlen ltac:(constructor)) as (b1 & s1' & E1 & Hb1 & Hok1 & Hs1 & Hk1 & _). rewrite (bind_eq _ _ _ _ _ E1) in Eb. injection Eb as <- <-.
    destruct (SaveTo_spec b1 v s1' B) as [Hsave _]; [rewrite Hb1; by destruct Hk1 as (-> & _)|]. destruct (Hsave s2 Es) as (V' & EV' & EV2 & Hno). assert (V' = V) as -> by congruence. rewrite fold_left_app. cbn [fold_left]. split.
    + rewrite EV2. apply (hold_same _ (bset (files_ B) (levels_ b1))); [|by apply saved_hold]. intros i Hi. rewrite Hs1. by apply apply_same.
    + split; [|done]. apply Forall_app. split; [done|]. constructor; [|constructor]. by apply (edit_ok_empty (files_ B)).
Qed.

Lemma replay_spec edits files s p v B : history edits files -> vs_versions s !! p = Some B -> files_ B = no_files_ -> length (vs_pointers s) = 7%nat -> is_Some (vs_versions s !! v) ->
  exists b s1 s2 V, apply_edits edits (new_builder p) s = Ret (b, s1) /\ Builder_SaveTo ucmp b v s1 = Ret (tt, s2) /\ vs_versions s2 !! v = Some V /\ map (map data_of) (files_ V) = map (map data_of) files.
Proof.
  intros Hh EB EF Hlen Hv. destruct (history_spec _ _ Hh) as (H1 & H2 & H3). destruct (new_builder_ok _ _ p no_files_hold) as [Hok Hsets].
  destruct (apply_edits_spec edits (new_builder p) s Hok H2 Hlen ltac:(constructor)) as (b & s1 & E1 & Hb & Hok1 & Hs1 & (Hk1 & _) & Ha1). destruct (SaveTo_spec b v s1 B) as [Hp Ht]; [by rewrite Hb, Hk1|].
  assert (Hsame : map (map data_of) (zip_with saved_level (files_ B) (levels_ b)) = map (map data_of) files).
  { rewrite EF. apply (same_numbers _ _ (fold_left apply_sets edits (fun _ => ∅)) (fold_left apply_sets edits (fun _ => ∅))); [|done|done]. apply (hold_same _ (bset no_files_ (levels_ b))); [|by apply saved_hold].
    intros i Hi. rewrite (Hs1 i Hi). assert (HT : same_sets (bset no_files_ (levels_ (new_builder p))) (fun _ => ∅)) by exact Hsets. revert i Hi HT. generalize (bset no_files_ (levels_ (new_builder p))), (fun _ : nat => (∅ : gset Z)). clear.
    induction edits as [|e edits IH]; intros T1 T2 i Hi HT; cbn [fold_left]; [by apply HT|]. apply IH; [done|]. by apply apply_same. }
  destruct Ht as (s2 & E2).
  - by rewrite Hk1.
  - intros i l Ei. split.
    + apply lookup_zip_with_Some in Ei as (fs & st & -> & Ef & Es). rewrite EF in Ef. pose proof Ef as Ef'. apply lookup_replicate in Ef as [-> _]. destruct Hok1 as (_ & _ & L3). destruct (L3 i [] st Ef' Es) as [B1 B2 B3 B4 B5].
      destruct (merged_spec (added_files st) [] B3 B1 B4 B2 B5) as (_ & _ & M3). apply Forall_forall. intros f [Hf _]%live_in. apply M3 in Hf as [?%elem_of_nil|Hf]; [done|]. rewrite Forall_forall in Ha1. apply Ha1, all_added_in. by exists i, st.
    + intros Hi. pose proof (f_equal (fun l => l !! i) Hsame) as E. cbn beta in E. rewrite !list_lookup_fmap, Ei in E. cbn [fmap option_fmap option_map] in E. destruct (files !! i) as [l'|] eqn:El'; [|done]. injection E as E.
      rewrite (no_overlap_data _ _ E). by apply (H3 i).
  - destruct (Hp s2 E2) as (V & EV & EV2 & _). exists b, s1, s2, V. split; [done|]. split; [done|]. split; [done|]. by rewrite EV2.
Qed.
End Replay.

(** C9: the descriptor can be replayed: when each version was built from the one
    before by an edit, as [LogAndApply] does, and a number names the same file in
    every edit, then applying all edits to one builder over the empty version, as
    [Recover] does with the records of the descriptor, fails no assertion and
    gives the same files in the same order in every level as the last version
    has: deletions, additions and files that moved between levels included. *)
Theorem edits_replay ucmp ok {UL : ComparatorLaws ucmp ok} meta_of edits files s p v B :
  (forall n, key_ok (ok := ok) (smallest (meta_of n))) -> history (ucmp := ucmp) meta_of edits files ->
  vs_versions s !! p = Some B -> files_ B = replicate 7 [] -> length (vs_pointers s) = 7%nat -> is_Some (vs_versions s !! v) ->
  exists b s1 s2 V, apply_edits (ucmp := ucmp) edits (new_builder p) s = Ret (b, s1) /\ Builder_SaveTo ucmp b v s1 = Ret (tt, s2) /\
    vs_versions s2 !! v = Some V /\
    map (map (fun f => (f_number f, f_size f, f_smallest f, f_largest f))) (files_ V) = map (map (fun f => (f_number f, f_size f, f_smallest f, f_largest f))) files.
Proof. intros Hm Hh EB EF Hlen Hv. apply (replay_spec meta_of Hm edits files s p v B Hh EB EF Hlen Hv). Qed.

(** File 3 holds "a" to "c"; file 5, and any other, "d" to "f". *)
Definition sample_meta (n : Z) : FileMetaData := {|
  refs := 0; allowed_seeks := 100; number := n; file_size := 10 * n;
  smallest := if n =? 3 then InternalKey (chars "a") 4 kTypeValue else InternalKey (chars "d") 5 kTypeValue;
  largest := if n =? 3 then InternalKey (chars "c") 2 kTypeValue else InternalKey (chars "f") 7 kTypeDeletion |}.

Definition sample_edit (deleted : DeletedFileSet) (new : list (Z * Z)) : VersionEdit :=
  let e := VersionEdit_new in
  {| comparator_ := comparator_ e; log_number_ := 0; prev_log_number_ := 0; next_file_number_ := 0; last_sequence_ := 0;
     has_comparator_ := false; has_log_number_ := false; has_prev_log_number_ := false; has_next_file_number_ := false; has_last_sequence_ := false;
     compact_pointers_ := []; deleted_files_ := deleted; new_files_ := map (fun p => (p.1, sample_meta p.2)) new |}.

(** Two versions at 0 and 1, the first with [base]. *)
Definition sample_set (base : list (list File)) : VersionSet := {|
  vs_next_file_number := 9; vs_manifest_file_number := 2; vs_last_sequence := 9; vs_log_number := 0; vs_prev_log_number := 0;
  vs_current := Some O; vs_chain := [O]; vs_pointers := replicate 7 [];
  vs_versions := {[ O := {| files_ := base; refs_ := 1; file_to_compact_ := None; file_to_compact_level_ := -1; compaction_score_ := double_of (-1); compaction_level_ := -1 |}; 1%nat := Version_new ]};
  vs_files := list_to_map (map (fun f => (f_ptr f, (1, 100))) (concat base)); vs_fresh := 50 |}.

Definition sample_build (base : list (list File)) (e : VersionEdit) : option (list (list File)) :=
  match (let* b := Builder_Apply BytewiseComparator e (new_builder 0) in Builder_SaveTo BytewiseComparator b 1 ;;; get_version 1) (sample_set base) with
  | Ret (v, _) => Some (files_ v)
  | _ => None
  end.

Lemma sample_built base e files : sample_build base e = Some files -> built (ucmp := BytewiseComparator) base [e] files.
Proof.
  unfold sample_build, built. intros E. destruct (Builder_Apply BytewiseComparator e (new_builder 0) (sample_set base)) as [[b s1]| |] eqn:E1; [|by rewrite ?(bind_undef _ _ _ E1) in E; unfold bind in E; rewrite E1 in E..].
  rewrite (bind_eq _ _ _ _ _ E1) in E. destruct (Builder_SaveTo BytewiseComparator b 1 s1) as [[[] s2]| |] eqn:E2; [|by unfold bind in E; rewrite E2 in E..].
  rewrite (bind_eq _ _ _ _ _ E2) in E. unfold get_version in E. unfold bind at 1, get in E. destruct (vs_versions s2 !! 1%nat) as [V|] eqn:EV; [|done]. injection E as <-.
  eexists (sample_set base), O, 1%nat, _, b, s1, s2, V. split; [done|]. split; [done|]. split; [done|]. split; [|by split].
  cbn [apply_edits]. by rewrite (bind_eq _ _ _ _ _ E1).
Qed.

(** File 3 is written, then moved down while file 5 is written, then dropped. *)
Definition sample_edits : list VersionEdit := [sample_edit [] [(0, 3)]; sample_edit [(0, 3)] [(1, 3); (0, 5)]; sample_edit [(0, 5)] [(1, 5)]].

Lemma sample_key n : key_ok (ok := is_bytes) (smallest (sample_meta n)).
Proof.
  cbn [sample_meta smallest]. destruct (n =? 3); eexists _, _, _; (split; [reflexivity|split; [solve_bytes|split; vm_compute; discriminate]]).
Qed.

Definition sample_files (base : list (list File)) (e : VersionEdit) : list (list File) := default [] (sample_build base e).
Definition files_1 : list (list File) := Eval vm_compute in sample_files no_files_ (sample_edit [] [(0, 3)]).
Definition files_2 : list (list File) := Eval vm_compute in sample_files files_1 (sample_edit [(0, 3)] [(1, 3); (0, 5)]).
Definition files_3 : list (list File) := Eval vm_compute in sample_files files_2 (sample_edit [(0, 5)] [(1, 5)]).

Ltac sample_edit_ok := split; [apply Forall_nil_2|split]; cbn [sample_edit new_files_ deleted_files_ map fst snd];
  repeat first [apply Forall_nil_2|apply Forall_cons_2];
  first [split; [cbn [fst]; lia|split; [by split|intros ? [= <-]; vm_compute; intros ?%list_elem_of_In; naive_solver]]|cbn [fst]; lia].

Lemma edits_replay_witness :
  exists b s1 s2 V, apply_edits (ucmp := BytewiseComparator) sample_edits (new_builder 0) (sample_set no_files_) = Ret (b, s1) /\
    Builder_SaveTo BytewiseComparator b 1 s1 = Ret (tt, s2) /\ vs_versions s2 !! 1%nat = Some V /\ map (map f_number) (files_ V) = [[]; [3; 5]; []; []; []; []; []].
Proof.
  destruct (edits_replay BytewiseComparator is_bytes sample_meta sample_edits files_3 (sample_set no_files_) 0 1
    (with_refs 1 Version_new) sample_key) as (b & s1 & s2 & V & E1 & E2 & EV & E).
  - apply (history_edit _ [sample_edit [] [(0, 3)]; sample_edit [(0, 3)] [(1, 3); (0, 5)]] files_2).
    + apply (history_edit _ [sample_edit [] [(0, 3)]] files_1).
      * apply (history_edit _ [] no_files_); [apply history_new|sample_edit_ok|apply sample_built; by vm_compute].
      * sample_edit_ok.
      * apply sample_built. by vm_compute.
    + sample_edit_ok.
    + apply sample_built. by vm_compute.
  - reflexivity.
  - reflexivity.
  - reflexivity.
  - by eexists.
  - exists b, s1, s2, V. split; [done|]. split; [done|]. split; [done|].
    apply (f_equal (map (map (fun x => x.1.1.1)))) in E. rewrite !map_map in E. rewrite (map_ext _ (map f_number)) in E by (intros; by rewrite map_map).
    rewrite E. reflexivity.
Defined.
