(* ===== verification/LvManifest.v ===== *)
(** The descriptor of the database ([db/version_set.cc]): [LogAndApply] writes the
    edits that make a version to the MANIFEST log and installs the version;
    [Recover] reads them back. *)

From stdpp Require Import base list gmap strings sorting.
From Stdlib Require Import ZArith Lia SpecFloat.
From S2P Require Import Prelude LvSlice LvCoding LvLogging LvFormat LvEnv LvLog LvFilename LvVersionEdit LvOptions LvVersion LvVersionGet LvVersionSet.

(** What else of [Env] the descriptor needs, over its state: the files it opens
    have the states [F] and [S] of their own. *)
Class OpenFiles (E F G : Type) : Type := {
  Env_NewWritableFile : Slice -> M E (Status * option F);
  Env_NewAppendableFile : Slice -> M E (Status * option F);
  Env_NewSequentialFile : Slice -> M E (Status * option G);
  Env_GetFileSize : Slice -> M E (Status * Z)
}.

Section Descriptor.
Context {E F G : Type} `{EV : Env E} `{OF : OpenFiles E F G} `{WF : WritableFile F} `{SF : SequentialFile G}.
Context (address : list Z -> Z) (ucmp : Comparator) (dbname_ : Slice) (options_ : Options).

(** The set of versions, its environment, and [descriptor_log_] with the file it
    writes, [descriptor_file_]. *)
Record Db : Type := { db_set : VersionSet; db_env : E; descriptor_log_ : option (Writer F) }.

Definition on_set {A} (c : M VersionSet A) : M Db A := fun d =>
  match c (db_set d) with
  | Ret (a, s) => Ret (a, {| db_set := s; db_env := db_env d; descriptor_log_ := descriptor_log_ d |})
  | Undef => Undef
  | NoFuel => NoFuel
  end.

Definition on_env {A} (c : M E A) : M Db A := fun d =>
  match c (db_env d) with
  | Ret (a, e) => Ret (a, {| db_set := db_set d; db_env := e; descriptor_log_ := descriptor_log_ d |})
  | Undef => Undef
  | NoFuel => NoFuel
  end.

Definition on_log {A} (c : M (Writer F) A) : M Db A := fun d =>
  match descriptor_log_ d with
  | None => Undef
  | Some w => match c w with
              | Ret (a, w) => Ret (a, {| db_set := db_set d; db_env := db_env d; descriptor_log_ := Some w |})
              | Undef => Undef
              | NoFuel => NoFuel
              end
  end.

Definition set_log (w : option (Writer F)) : M Db unit := fun d => Ret (tt, {| db_set := db_set d; db_env := db_env d; descriptor_log_ := w |}).

Definition current_version : M Db nat := let* s := on_set get in need (vs_current s).

(** ** Writing *)

Definition WriteSnapshot : M Db Status :=
  let* s := on_set get in
  let* c := current_version in
  let* v := on_set (get_version c) in
  let* record := need (VersionEdit_EncodeTo (snapshot_edit ucmp (vs_pointers s) (files_ v)) []) in
  on_log (AddRecord address record).

(** The numbers an edit gets. *)
Definition complete_edit (s : VersionSet) (edit : VersionEdit) : option VersionEdit :=
  edit ← (if has_log_number_ edit then
            if (log_number_ edit >=? vs_log_number s) && (log_number_ edit <? vs_next_file_number s) then Some edit else None
          else Some (SetLogNumber (vs_log_number s) edit));
  let edit := if has_prev_log_number_ edit then edit else SetPrevLogNumber (vs_prev_log_number s) edit in
  Some (LvVersionEdit.SetLastSequence (vs_last_sequence s) (SetNextFile (vs_next_file_number s) edit)).

(** The next version: the current one with the edit. *)
Definition build_version (base : nat) (edit : VersionEdit) : M VersionSet nat :=
  let* v := new_version in
  let* b := Builder_new base in
  let* b := Builder_Apply ucmp edit b in
  Builder_SaveTo ucmp b v ;;;
  Builder_delete b ;;;
  Finalize v ;;;
  ret v.

(** The mutex is not modelled: it is released for the writes only, and there is
    one caller at a time. The result is the status. *)
Definition LogAndApply (edit : VersionEdit) : M Db Status :=
  let* s0 := on_set get in
  let* edit := need (complete_edit s0 edit) in
  let* c := current_version in
  let* v := on_set (build_version c edit) in
  let* d := get in
  let* '(s, new_manifest_file) :=
    match descriptor_log_ d with
    | Some _ => ret (Status_OK, [])
    | None =>
        let* name := need (DescriptorFileName dbname_ (vs_manifest_file_number (db_set d))) in
        let* '(s, file) := on_env (Env_NewWritableFile name) in
        if Status_ok s then
          let* file := need file in
          set_log (Some (Writer_new address file 0)) ;;;
          let* s := WriteSnapshot in ret (s, name)
        else ret (s, name)
    end in
  let* s :=
    if Status_ok s then
      let* record := need (VersionEdit_EncodeTo edit []) in
      let* s := on_log (AddRecord address record) in
      if Status_ok s then on_log (on_dest File_Sync) else ret s
    else ret s in
  let* s :=
    if Status_ok s && negb (Slice_empty new_manifest_file) then on_env (SetCurrentFile dbname_ (vs_manifest_file_number (db_set d))) else ret s in
  if Status_ok s then
    on_set (AppendVersion v) ;;;
    on_set (modify_set (fun s => with_numbers (vs_next_file_number s) (vs_manifest_file_number s) (vs_last_sequence s) (log_number_ edit) (prev_log_number_ edit) s)) ;;;
    ret s
  else
    on_set (Version_delete v) ;;;
    (if negb (Slice_empty new_manifest_file) then
       set_log None ;;;
       let* _ := on_env (Env_DeleteFile new_manifest_file) in ret tt
     else ret tt) ;;;
    ret s.

(** ** Recovery *)

(** What the loop over the records remembers. *)
Record Recovered : Type := {
  rc_log_number : option Z; rc_prev_log_number : option Z; rc_next_file : option Z; rc_last_sequence : option Z
}.

Definition remember (edit : VersionEdit) (r : Recovered) : Recovered := {|
  rc_log_number := if has_log_number_ edit then Some (log_number_ edit) else rc_log_number r;
  rc_prev_log_number := if has_prev_log_number_ edit then Some (prev_log_number_ edit) else rc_prev_log_number r;
  rc_next_file := if has_next_file_number_ edit then Some (next_file_number_ edit) else rc_next_file r;
  rc_last_sequence := if has_last_sequence_ edit then Some (last_sequence_ edit) else rc_last_sequence r
|}.

Definition other_comparator (edit : VersionEdit) : bool := has_comparator_ edit && negb (Slice_eq (comparator_ edit) (Comparator_Name ucmp)).

(** One record: the status, the builder and what is remembered. *)
Definition recover_record (record : Slice) (b : Builder) (r : Recovered) : M VersionSet (Status * Builder * Recovered) :=
  let* '(s, edit) := need (VersionEdit_DecodeFrom record VersionEdit_new) in
  let s := if Status_ok s && other_comparator edit then
             Status_InvalidArgument (comparator_ edit ++ chars " does not match existing comparator ") (Comparator_Name ucmp)
           else s in
  let* b := if Status_ok s then Builder_Apply ucmp edit b else ret b in
  ret (s, b, remember edit r).

(** [while (reader.ReadRecord(&record, &scratch) && s.ok())]: the reporter sets
    [s] to the first corruption it is told of. *)
Fixpoint recover_loop (rounds fuel : nat) (reader : Reader G) (s : Status) (b : Builder) (r : Recovered) : M VersionSet (Status * Builder * Recovered) :=
  match rounds with
  | O => nofuel
  | S rounds =>
      match ReadRecord address fuel reader with
      | Undef => undef
      | NoFuel => nofuel
      | Ret (o, reader) =>
          let s := match reports reader with (_, st) :: _ => if Status_ok s then st else s | [] => s end in
          match o with
          | Some record =>
              if Status_ok s then
                let* '(s, b, r) := recover_record record b r in recover_loop rounds fuel reader s b r
              else ret (s, b, r)
          | None => ret (s, b, r)
          end
      end
  end.

(** The entries a descriptor has to have. *)
Definition check_recovered (s : Status) (r : Recovered) : Status :=
  if Status_ok s then
    match rc_next_file r, rc_log_number r, rc_last_sequence r with
    | None, _, _ => Status_Corruption (chars "no meta-nextfile entry in descriptor") []
    | _, None, _ => Status_Corruption (chars "no meta-lognumber entry in descriptor") []
    | _, _, None => Status_Corruption (chars "no last-sequence-number entry in descriptor") []
    | _, _, _ => s
    end
  else s.

Definition or_zero (o : option Z) : Z := match o with Some n => n | None => 0 end.

(** The version the builder describes becomes the current one. *)
Definition install (b : Builder) (r : Recovered) : M VersionSet unit :=
  let* v := new_version in
  Builder_SaveTo ucmp b v ;;;
  Finalize v ;;;
  AppendVersion v ;;;
  modify_set (with_numbers (u64 (or_zero (rc_next_file r) + 1)) (or_zero (rc_next_file r)) (or_zero (rc_last_sequence r))
                (or_zero (rc_log_number r)) (or_zero (rc_prev_log_number r))).

Definition ReuseManifest (dscname dscbase : Slice) : M Db bool :=
  if negb (reuse_logs options_) then ret false
  else
    match ParseFileName dscbase with
    | Some (manifest_number, kDescriptorFile) =>
        let* '(st, manifest_size) := on_env (Env_GetFileSize dscname) in
        if negb (Status_ok st) || (manifest_size >=? TargetFileSize options_) then ret false
        else
          let* d := get in
          match descriptor_log_ d with
          | Some _ => undef
          | None =>
              let* '(r, file) := on_env (Env_NewAppendableFile dscname) in
              if negb (Status_ok r) then ret false
              else
                let* file := need file in
                set_log (Some (Writer_new address file manifest_size)) ;;;
                on_set (modify_set (fun s => with_numbers (vs_next_file_number s) manifest_number (vs_last_sequence s) (vs_log_number s) (vs_prev_log_number s) s)) ;;;
                ret true
          end
    | _ => ret false
    end.

(** [ReadFileToString], with the fuel for its reads. *)
Definition Env_ReadFileToString (fuel : nat) (fname : Slice) : M Db (Status * Slice) :=
  let* '(s, file) := on_env (Env_NewSequentialFile fname) in
  if negb (Status_ok s) then ret (s, [])
  else
    let* file := need file in
    match ReadFileToString fuel [] file with
    | Ret (r, _) => ret r
    | Undef => undef
    | NoFuel => nofuel
    end.

(** The status, and [*save_manifest] when it is set. *)
Definition Recover (fuel : nat) : M Db (Status * bool) :=
  let* '(s, current) := Env_ReadFileToString fuel (CurrentFileName dbname_) in
  if negb (Status_ok s) then ret (s, false)
  else
    match last current with
    | Some 10 =>
        let current := removelast current in
        let dscname := dbname_ ++ chars "/" ++ current in
        let* '(s, file) := on_env (Env_NewSequentialFile dscname) in
        if negb (Status_ok s) then
          if Status_IsNotFound s then
            let* text := need (Status_ToString s) in ret (Status_Corruption (chars "CURRENT points to a non-existent file") text, false)
          else ret (s, false)
        else
          let* file := need file in
          let* c := current_version in
          let* b := on_set (Builder_new c) in
          let* '(s, b, r) := on_set (recover_loop fuel fuel (Reader_new file true true 0) Status_OK b
                                       {| rc_log_number := None; rc_prev_log_number := None; rc_next_file := None; rc_last_sequence := None |}) in
          let was_ok := Status_ok s in
          let s := check_recovered s r in
          (if was_ok then
             on_set (MarkFileNumberUsed (or_zero (rc_prev_log_number r)) ;;; MarkFileNumberUsed (or_zero (rc_log_number r)))
           else ret tt) ;;;
          let* save :=
            if Status_ok s then
              on_set (install b r) ;;;
              let* reused := ReuseManifest dscname current in ret (negb reused)
            else ret false in
          on_set (Builder_delete b) ;;;
          ret (s, save)
    | _ => ret (Status_Corruption (chars "CURRENT file does not end with newline") [], false)
    end.
End Descriptor.
