(* ===== verification/LvCompaction.v ===== *)
(** Compactions ([db/version_set.cc]): which files are compacted together, and what
    a compaction asks of the files of the other levels. *)

From stdpp Require Import base list gmap strings sorting.
From Stdlib Require Import ZArith Lia SpecFloat.
From S2P Require Import Prelude LvSlice LvCoding LvFormat LvVersionEdit LvOptions LvVersion LvVersionGet LvVersionSet.

(** [Compaction]; [edit_] and the two vectors [inputs_]. *)
Record Compaction : Type := {
  level_ : Z; max_output_file_size_ : Z; input_version_ : option nat; edit_ : VersionEdit; inputs_0 : list File; inputs_1 : list File;
  grandparents_ : list File; grandparent_index_ : nat; seen_key_ : bool; overlapped_bytes_ : Z; level_ptrs_ : list nat
}.

Definition Compaction_new (o : Options) (level : Z) : Compaction := {|
  level_ := level; max_output_file_size_ := MaxFileSizeForLevel o level; input_version_ := None; edit_ := VersionEdit_new;
  inputs_0 := []; inputs_1 := []; grandparents_ := []; grandparent_index_ := 0; seen_key_ := false; overlapped_bytes_ := 0;
  level_ptrs_ := replicate (Z.to_nat kNumLevels) O |}.

Definition with_inputs (v : option nat) (i0 i1 g : list File) (e : VersionEdit) (c : Compaction) : Compaction := {|
  level_ := level_ c; max_output_file_size_ := max_output_file_size_ c; input_version_ := v; edit_ := e; inputs_0 := i0; inputs_1 := i1;
  grandparents_ := g; grandparent_index_ := grandparent_index_ c; seen_key_ := seen_key_ c; overlapped_bytes_ := overlapped_bytes_ c; level_ptrs_ := level_ptrs_ c |}.

Section Compaction.
Context (ucmp : Comparator) (options_ : Options).
Abbreviation icmp := (InternalKey_Compare ucmp).

(** ** Ranges of files *)

Definition widen (r : Slice * Slice) (f : File) : Slice * Slice :=
  (if icmp (f_smallest f) r.1 <? 0 then f_smallest f else r.1, if icmp (f_largest f) r.2 >? 0 then f_largest f else r.2).

(** The smallest and the largest key; an empty vector fails the assertion. *)
Definition GetRange (inputs : list File) : option (Slice * Slice) :=
  match inputs with [] => None | f :: inputs => Some (fold_left widen inputs (f_smallest f, f_largest f)) end.

Definition GetRange2 (inputs1 inputs2 : list File) : option (Slice * Slice) := GetRange (inputs1 ++ inputs2).

Definition FindLargestKey (files : list File) : option Slice :=
  match files with
  | [] => None
  | f :: files => Some (fold_left (fun k f => if icmp (f_largest f) k >? 0 then f_largest f else k) files (f_largest f))
  end.

(** ** Boundary files *)

Definition boundary_file (largest_key : Slice) (f : File) : bool :=
  (icmp (f_smallest f) largest_key >? 0) && (Compare ucmp (ExtractUserKey (f_smallest f)) (ExtractUserKey largest_key) =? 0).

Definition FindSmallestBoundaryFile (level_files : list File) (largest_key : Slice) : option File :=
  fold_left (fun best f =>
    if boundary_file largest_key f then
      match best with None => Some f | Some b => if icmp (f_smallest f) (f_smallest b) <? 0 then Some f else best end
    else best) level_files None.

(** [while (continue_searching)]. *)
Fixpoint boundary_loop (fuel : nat) (level_files : list File) (largest_key : Slice) (compaction_files : list File) : option (list File) :=
  match fuel with
  | O => None
  | S fuel =>
      match FindSmallestBoundaryFile level_files largest_key with
      | Some f => boundary_loop fuel level_files (f_largest f) (compaction_files ++ [f])
      | None => Some compaction_files
      end
  end.

(** Each round finds another file. *)
Definition AddBoundaryInputs (level_files compaction_files : list File) : option (list File) :=
  match FindLargestKey compaction_files with
  | None => Some compaction_files
  | Some largest_key => boundary_loop (S (length level_files)) level_files largest_key compaction_files
  end.

(** ** The inputs *)

(** [GetOverlappingInputs] for a range of keys. *)
Definition overlapping (files_ : list (list File)) (level : Z) (r : Slice * Slice) : option (list File) :=
  GetOverlappingInputs ucmp files_ level (Some r.1) (Some r.2).

(** The inputs of the level and of the next one, grown when the next one stays the
    same, with the range of the level's and the range of all. *)
Definition grow_inputs (files_ : list (list File)) (level : Z) (i0 i1 : list File) (range all : Slice * Slice)
    : option (list File * list File * (Slice * Slice) * (Slice * Slice)) :=
  match i1 with
  | [] => Some (i0, i1, range, all)
  | _ =>
      files ← level_files files_ level;
      expanded0 ← overlapping files_ level all;
      expanded0 ← AddBoundaryInputs files expanded0;
      if (length i0 <? length expanded0)%nat &&
         (sext 64 (TotalFileSize i1 + TotalFileSize expanded0) <? ExpandedCompactionByteSizeLimit options_) then
        new_range ← GetRange expanded0;
        expanded1 ← overlapping files_ (level + 1) new_range;
        if (length expanded1 =? length i1)%nat then
          all ← GetRange2 expanded0 expanded1;
          Some (expanded0, expanded1, new_range, all)
        else Some (i0, i1, range, all)
      else Some (i0, i1, range, all)
  end.

(** The inputs, the grandparents and the largest key of the level's inputs. *)
Definition other_inputs (files_ : list (list File)) (level : Z) (i0 : list File) : option (list File * list File * list File * Slice) :=
  files ← level_files files_ level;
  i0 ← AddBoundaryInputs files i0;
  range ← GetRange i0;
  i1 ← overlapping files_ (level + 1) range;
  all ← GetRange2 i0 i1;
  '(i0, i1, range, all) ← grow_inputs files_ level i0 i1 range all;
  grandparents ← (if level + 2 <? kNumLevels then overlapping files_ (level + 2) all else Some []);
  Some (i0, i1, grandparents, range.2).

Definition SetupOtherInputs (c : Compaction) : MV Compaction :=
  let* s := get in
  let* p := need (vs_current s) in
  let* v := get_version p in
  let* '(i0, i1, grandparents, largest) := need (other_inputs (files_ v) (level_ c) (inputs_0 c)) in
  let* largest := need (InternalKey_Encode largest) in
  let* _ := need (at_level (vs_pointers s) (level_ c)) in
  modify_set (with_pointers (<[Z.to_nat (level_ c) := largest]> (vs_pointers s))) ;;;
  ret (with_inputs (input_version_ c) i0 i1 grandparents (SetCompactPointer (level_ c) largest (edit_ c)) c).

(** The first file after [compact_pointer_[level]]. *)
Definition first_after (pointer : Slice) (files : list File) : option File :=
  List.find (fun f => Slice_empty pointer || (icmp (f_largest f) pointer >? 0)) files.

Definition NeedsCompaction (v : Version) : bool :=
  SFleb (double_of 1) (compaction_score_ v) || match file_to_compact_ v with Some _ => true | None => false end.

(** The level and the first input; [None]: nothing to do. *)
Definition pick_file (s : VersionSet) (v : Version) : option (option (Z * File)) :=
  if SFleb (double_of 1) (compaction_score_ v) then
    let level := compaction_level_ v in
    if (level >=? 0) && (level + 1 <? kNumLevels) then
      files ← at_level (files_ v) level;
      pointer ← at_level (vs_pointers s) level;
      f ← (match first_after pointer files with Some f => Some f | None => head files end);
      Some (Some (level, f))
    else None
  else
    match file_to_compact_ v with
    | Some f => Some (Some (file_to_compact_level_ v, f))
    | None => Some None
    end.

Definition PickCompaction : MV (option Compaction) :=
  let* s := get in
  let* p := need (vs_current s) in
  let* v := get_version p in
  let* picked := need (pick_file s v) in
  match picked with
  | None => ret None
  | Some (level, f) =>
      Version_Ref p ;;;
      let* i0 :=
        if level =? 0 then
          let* r := need (GetRange [f]) in
          let* i0 := need (overlapping (files_ v) 0 r) in
          match i0 with [] => undef | _ => ret i0 end
        else ret [f] in
      let* c := SetupOtherInputs (with_inputs (Some p) i0 [] [] VersionEdit_new (Compaction_new options_ level)) in
      ret (Some c)
  end.

(** Up to the file at which the total reaches the limit. *)
Fixpoint cut_inputs (limit total : Z) (inputs : list File) : list File :=
  match inputs with
  | [] => []
  | f :: inputs => let total := u64 (total + f_size f) in if total >=? limit then [f] else f :: cut_inputs limit total inputs
  end.

Definition CompactRange (level : Z) (begin_ end_ : option Slice) : MV (option Compaction) :=
  let* s := get in
  let* p := need (vs_current s) in
  let* v := get_version p in
  let* inputs := need (GetOverlappingInputs ucmp (files_ v) level begin_ end_) in
  match inputs with
  | [] => ret None
  | _ =>
      let inputs := if level >? 0 then cut_inputs (MaxFileSizeForLevel options_ level) 0 inputs else inputs in
      Version_Ref p ;;;
      let* c := SetupOtherInputs (with_inputs (Some p) inputs [] [] VersionEdit_new (Compaction_new options_ level)) in
      ret (Some c)
  end.

(** ** The compaction at work *)

Definition IsTrivialMove (c : Compaction) : bool :=
  (length (inputs_0 c) =? 1)%nat && (length (inputs_1 c) =? 0)%nat && (TotalFileSize (grandparents_ c) <=? MaxGrandParentOverlapBytes options_).

Definition AddInputDeletions (c : Compaction) (edit : VersionEdit) : VersionEdit :=
  fold_left (fun e f => DeleteFile (level_ c + 1) (f_number f) e) (inputs_1 c)
    (fold_left (fun e f => DeleteFile (level_ c) (f_number f) e) (inputs_0 c) edit).

(** The scan of a level from its pointer: whether the key is in a file, and the
    pointer after. *)
Fixpoint scan_files (user_key : Slice) (files : list File) (ptr : nat) : bool * nat :=
  match files with
  | [] => (false, ptr)
  | f :: files =>
      if Compare ucmp user_key (ExtractUserKey (f_largest f)) <=? 0 then (Compare ucmp user_key (ExtractUserKey (f_smallest f)) >=? 0, ptr)
      else scan_files user_key files (S ptr)
  end.

(** [lvl] from [level_ + 2]: the levels left and their pointers. *)
Fixpoint base_level_scan (user_key : Slice) (levels : list (list File)) (ptrs : list nat) : bool * list nat :=
  match levels, ptrs with
  | files :: levels, ptr :: ptrs =>
      let '(inside, ptr) := scan_files user_key (drop ptr files) ptr in
      if inside : bool then (false, ptr :: ptrs)
      else let '(b, ptrs) := base_level_scan user_key levels ptrs in (b, ptr :: ptrs)
  | _, _ => (true, ptrs)
  end.

Definition with_ptrs (ptrs : list nat) (c : Compaction) : Compaction := {|
  level_ := level_ c; max_output_file_size_ := max_output_file_size_ c; input_version_ := input_version_ c; edit_ := edit_ c; inputs_0 := inputs_0 c; inputs_1 := inputs_1 c;
  grandparents_ := grandparents_ c; grandparent_index_ := grandparent_index_ c; seen_key_ := seen_key_ c; overlapped_bytes_ := overlapped_bytes_ c; level_ptrs_ := ptrs |}.

(** [files_] are those of the input version. *)
Definition IsBaseLevelForKey (files_ : list (list File)) (user_key : Slice) (c : Compaction) : bool * Compaction :=
  let n := Z.to_nat (level_ c + 2) in
  let '(b, ptrs) := base_level_scan user_key (drop n files_) (drop n (level_ptrs_ c)) in
  (b, with_ptrs (take n (level_ptrs_ c) ++ ptrs) c).

(** The grandparents before the key are passed, their sizes counted. *)
Fixpoint pass_grandparents (internal_key : Slice) (files : list File) (index : nat) (seen : bool) (bytes : Z) : nat * Z :=
  match files with
  | f :: files =>
      if icmp internal_key (f_largest f) >? 0 then pass_grandparents internal_key files (S index) seen (if seen then sext 64 (bytes + f_size f) else bytes)
      else (index, bytes)
  | [] => (index, bytes)
  end.

Definition ShouldStopBefore (internal_key : Slice) (c : Compaction) : bool * Compaction :=
  let '(index, bytes) := pass_grandparents internal_key (drop (grandparent_index_ c) (grandparents_ c)) (grandparent_index_ c) (seen_key_ c) (overlapped_bytes_ c) in
  let stop := bytes >? MaxGrandParentOverlapBytes options_ in
  (stop, {| level_ := level_ c; max_output_file_size_ := max_output_file_size_ c; input_version_ := input_version_ c; edit_ := edit_ c; inputs_0 := inputs_0 c; inputs_1 := inputs_1 c;
            grandparents_ := grandparents_ c; grandparent_index_ := index; seen_key_ := true; overlapped_bytes_ := if stop then 0 else bytes; level_ptrs_ := level_ptrs_ c |}).

Definition ReleaseInputs (c : Compaction) : MV Compaction :=
  match input_version_ c with
  | Some p => Version_Unref p ;;; ret (with_inputs None (inputs_0 c) (inputs_1 c) (grandparents_ c) (edit_ c) c)
  | None => ret c
  end.

(** ** Questions about the current version *)

Definition current_files : MV (list (list File)) := let* s := get in let* p := need (vs_current s) in let* v := get_version p in ret (files_ v).

Definition NumLevelFiles (level : Z) : MV Z := let* fs := current_files in let* files := need (level_files fs level) in ret (Z.of_nat (length files)).
Definition NumLevelBytes (level : Z) : MV Z := let* fs := current_files in let* files := need (level_files fs level) in ret (TotalFileSize files).

(** [AddLiveFiles]: the numbers of the files of all versions in the list. *)
Fixpoint add_live (chain : list nat) (live : gset Z) : MV (gset Z) :=
  match chain with
  | [] => ret live
  | p :: chain => let* v := get_version p in add_live chain (list_to_set (map f_number (concat (files_ v))) ∪ live)
  end.

Definition AddLiveFiles (live : gset Z) : MV (gset Z) := let* s := get in add_live (vs_chain s) live.

Fixpoint max_overlap (files_ : list (list File)) (level : Z) (files : list File) (result : Z) : option Z :=
  match files with
  | [] => Some result
  | f :: files =>
      overlaps ← GetOverlappingInputs ucmp files_ (level + 1) (Some (f_smallest f)) (Some (f_largest f));
      max_overlap files_ level files (if TotalFileSize overlaps >? result then TotalFileSize overlaps else result)
  end.

(** The levels from 1 to the last but one. *)
Fixpoint max_overlaps (files_ : list (list File)) (levels : list Z) (result : Z) : option Z :=
  match levels with
  | [] => Some result
  | level :: levels => files ← level_files files_ level; result ← max_overlap files_ level files result; max_overlaps files_ levels result
  end.

Definition MaxNextLevelOverlappingBytes : MV Z := let* fs := current_files in need (max_overlaps fs (seqZ 1 (kNumLevels - 2)) 0).
End Compaction.

(** * Levels that do not have the key *)

Section BaseLevel.
Context {ucmp : Comparator} {ok : Slice -> Prop} `{UL : !ComparatorLaws ucmp ok}.
Abbreviation ustart f := (ExtractUserKey (f_smallest f)).
Abbreviation ulimit f := (ExtractUserKey (f_largest f)).
Abbreviation le a b := (Compare ucmp a b <= 0).

(** Files in order, as far as user keys tell. *)
Definition user_sorted (files : list File) : Prop :=
  Forall (fun f => ok (ustart f) /\ ok (ulimit f) /\ le (ustart f) (ulimit f)) files /\ StronglySorted (fun f g => le (ulimit f) (ustart g)) files.

Lemma level_user_sorted files : Forall (file_ok (ucmp := ucmp) (ok := ok)) files -> level_sorted (ucmp := ucmp) files -> user_sorted files.
Proof.
  intros Hok HS. split.
  - apply (Forall_impl _ _ _ Hok). intros f. by apply file_start_limit.
  - unfold level_sorted in HS. induction HS as [|f files HS IH HF]; constructor.
    + apply IH. by apply Forall_cons in Hok as [_ ?].
    + apply (Forall_impl _ _ _ HF). intros g Hg. apply key_le_user. lia.
Qed.

(** The user key is in the range of a file. *)
Definition covers (u : Slice) (f : File) : bool := (Compare ucmp u (ulimit f) <=? 0) && (Compare ucmp u (ustart f) >=? 0).

(** The files before the pointer end before the key. *)
Definition passed (u : Slice) (files : list File) (ptr : nat) : Prop := Forall (fun f => Compare ucmp (ulimit f) u < 0) (take ptr files).

Lemma passed_later u v files ptr : user_sorted files -> ok u -> ok v -> le u v -> passed u files ptr -> passed v files ptr.
Proof.
  intros [Hok _] Hu Hv Huv Hp. unfold passed in *. rewrite Forall_forall in Hp, Hok |- *. intros f Hf.
  assert (Hin : f ∈ files) by (rewrite <- (take_drop ptr files); apply elem_of_app; by left). destruct (Hok f Hin) as (_ & Ol & _).
  apply (cmp_lt_le_trans (cmp := Compare ucmp) _ u); [done..|by apply Hp|done].
Qed.

Lemma passed_covers u files ptr f : user_sorted files -> ok u -> passed u files ptr -> f ∈ take ptr files -> covers u f = false.
Proof.
  intros [Hok _] Hu Hp Hf. unfold passed in Hp. rewrite Forall_forall in Hp, Hok. specialize (Hp f Hf).
  assert (Hin : f ∈ files) by (rewrite <- (take_drop ptr files); apply elem_of_app; by left). destruct (Hok f Hin) as (_ & Ol & _).
  pose proof (cmp_flip (cmp := Compare ucmp) u (ulimit f) Hu Ol). unfold covers. destruct (Z.leb_spec (Compare ucmp u (ulimit f)) 0); [lia|done].
Qed.

Lemma existsb_none {A} (p : A -> bool) l : (forall x, x ∈ l -> p x = false) -> existsb p l = false.
Proof. intros H. apply not_true_iff_false. intros (x & Hx%list_elem_of_In & Hp)%existsb_exists. by rewrite H in Hp. Qed.

Lemma scan_files_spec u all (HS : user_sorted all) (Hu : ok u) files : forall ptr, files = drop ptr all -> passed u all ptr ->
  exists ptr', scan_files ucmp u files ptr = (existsb (covers u) all, ptr') /\ passed u all ptr'.
Proof.
  induction files as [|f files IH]; intros ptr E Hp; cbn [scan_files].
  - exists ptr. split; [|done]. f_equal. symmetry. apply existsb_none. intros f Hf. apply (passed_covers u all ptr); [done..|].
    rewrite <- (take_drop ptr all), <- E, app_nil_r in Hf. done.
  - assert (Ef : all !! ptr = Some f). { rewrite <- (Nat.add_0_r ptr), <- lookup_drop, <- E. done. }
    pose proof HS as [Hok Hso]. rewrite <- (take_drop_middle _ _ _ Ef) in Hok, Hso. apply StronglySorted_app_1_r, StronglySorted_inv in Hso as [_ HF].
    apply Forall_app in Hok as [_ [(Os & Ol & Ole) Hrest]%Forall_cons].
    destruct (Z.leb_spec (Compare ucmp u (ulimit f)) 0) as [Hle|Hgt].
    + exists ptr. split; [|done]. f_equal.
      assert (Eall : existsb (covers u) all = existsb (covers u) (take ptr all) || (covers u f || existsb (covers u) (drop (S ptr) all))).
      { rewrite <- (take_drop_middle _ _ _ Ef) at 1. by rewrite existsb_app. }
      rewrite Eall, (existsb_none _ (take ptr all)) by (intros g; by apply passed_covers). cbn [orb]. unfold covers at 1. destruct (Z.leb_spec (Compare ucmp u (ulimit f)) 0); [|lia]. cbn [andb].
      destruct (Z.geb_spec (Compare ucmp u (ustart f)) 0) as [Hge|Hlt]; [done|]. cbn [orb]. symmetry. apply existsb_none. intros g Hg.
      rewrite Forall_forall in HF, Hrest. destruct (Hrest g Hg) as (Gs & Gl & Gle). specialize (HF g Hg).
      assert (Hug : Compare ucmp u (ustart g) < 0).
      { apply (cmp_lt_le_trans (cmp := Compare ucmp) _ (ustart f)); [done..|]. by apply (cmp_le_trans _ (ulimit f)). }
      unfold covers. destruct (Z.geb_spec (Compare ucmp u (ustart g)) 0); [lia|]. apply andb_false_r.
    + apply IH; [by rewrite (drop_S _ _ _ Ef) in E; injection E as ->|]. unfold passed. rewrite (take_S_r _ _ _ Ef). apply Forall_app. split; [done|].
      constructor; [|done]. pose proof (cmp_flip (cmp := Compare ucmp) u (ulimit f) Hu Ol). lia.
Qed.

(** The pointers of the levels, after queries up to [u]. *)
Definition ptrs_ok (u : Slice) (levels : list (list File)) (ptrs : list nat) : Prop := Forall2 (passed u) levels ptrs.

Lemma base_level_scan_spec u (Hu : ok u) levels : forall ptrs, Forall user_sorted levels -> ptrs_ok u levels ptrs ->
  exists ptrs', base_level_scan ucmp u levels ptrs = (negb (existsb (covers u) (concat levels)), ptrs') /\ ptrs_ok u levels ptrs'.
Proof.
  induction levels as [|files levels IH]; intros ptrs HS HP; [inversion HP; exists []; by split; [|constructor]|]. apply Forall2_cons_inv_l in HP as (ptr & ptrs1 & Hp & HP & ->).
  apply Forall_cons in HS as [HS1 HS]. cbn [base_level_scan concat]. rewrite existsb_app.
  destruct (scan_files_spec u files HS1 Hu (drop ptr files) ptr eq_refl Hp) as (ptr' & -> & Hp'). destruct (existsb (covers u) files).
  - exists (ptr' :: ptrs1). split; [done|]. by constructor.
  - destruct (IH ptrs1 HS HP) as (ptrs' & -> & HP'). exists (ptr' :: ptrs'). split; [done|]. by constructor.
Qed.

(** The state of a compaction between queries. *)
Definition base_ready (files_ : list (list File)) (u : Slice) (c : Compaction) : Prop :=
  let n := Z.to_nat (level_ c + 2) in length (level_ptrs_ c) = length files_ /\ Forall user_sorted (drop n files_) /\ ptrs_ok u (drop n files_) (drop n (level_ptrs_ c)).

Lemma base_later files_ u v c : ok u -> ok v -> le u v -> base_ready files_ u c -> base_ready files_ v c.
Proof.
  intros Hu Hv Huv (Hl & HS & HP). split; [done|]. split; [done|]. apply Forall2_same_length_lookup. apply Forall2_same_length_lookup in HP as [HL HP]. split; [done|].
  intros i files ptr Ef Ep. apply (passed_later u); [by eapply Forall_lookup_1|done..|by eapply HP].
Qed.

(** The answer is right, whatever was asked before about smaller keys. *)
Lemma IsBaseLevel_spec files_ u c : ok u -> base_ready files_ u c ->
  exists c', IsBaseLevelForKey ucmp files_ u c = (negb (existsb (covers u) (concat (drop (Z.to_nat (level_ c + 2)) files_))), c') /\
    base_ready files_ u c' /\ c' = with_ptrs (level_ptrs_ c') c.
Proof.
  intros Hu (Hl & HS & HP). unfold IsBaseLevelForKey. destruct (base_level_scan_spec u Hu _ _ HS HP) as (ptrs' & -> & HP'). eexists. split; [reflexivity|].
  set (n := Z.to_nat (level_ c + 2)) in *. assert (Hn : length (take n (level_ptrs_ c)) = (n `min` length files_)%nat) by (rewrite length_take; lia).
  pose proof (Forall2_length _ _ _ HP') as Hlen. rewrite length_drop in Hlen. split; [|done]. split.
  - cbn [with_ptrs level_ptrs_]. rewrite length_app, Hn. lia.
  - change (level_ (with_ptrs _ c)) with (level_ c). fold n. split; [done|]. cbn [with_ptrs level_ptrs_]. destruct (decide (n <= length files_)%nat).
    + by rewrite drop_app_length' by lia.
    + rewrite drop_ge in HP' by lia. rewrite (drop_ge files_) by lia. inversion HP'; subst. rewrite app_nil_r, drop_ge by lia. by constructor.
Qed.
End BaseLevel.

(** * The inputs of a compaction *)

Section Inputs.
Context {ucmp : Comparator} {ok : Slice -> Prop} `{UL : !ComparatorLaws ucmp ok}.
Abbreviation icmp := (InternalKey_Compare ucmp).
Abbreviation ustart f := (ExtractUserKey (f_smallest f)).
Abbreviation ulimit f := (ExtractUserKey (f_largest f)).
Abbreviation FileOk := (file_ok (ucmp := ucmp) (ok := ok)).
Implicit Types (f g : File) (files : list File) (k : Slice).

Lemma icmp_flip a b : key_ok (ok := ok) a -> key_ok (ok := ok) b -> Z.sgn (icmp a b) = - Z.sgn (icmp b a).
Proof. intros Ha%key_internal Hb%key_internal. by apply (cmp_flip (cmp := Compare (InternalKeyComparator ucmp))). Qed.

Lemma icmp_refl a : key_ok (ok := ok) a -> icmp a a = 0.
Proof. intros Ha. pose proof (icmp_flip a a Ha Ha). lia. Qed.

(** The key is the largest of the files', or the smallest. *)
Definition is_largest k files : Prop := (exists f, f ∈ files /\ f_largest f = k) /\ forall f, f ∈ files -> icmp (f_largest f) k <= 0.
Definition is_smallest k files : Prop := (exists f, f ∈ files /\ f_smallest f = k) /\ forall f, f ∈ files -> icmp k (f_smallest f) <= 0.

Lemma elem_of_last files f g : g ∈ files ++ [f] <-> g ∈ files \/ g = f.
Proof. by rewrite elem_of_app, list_elem_of_singleton. Qed.

Abbreviation larger := (fun k f => if icmp (f_largest f) k >? 0 then f_largest f else k).
Abbreviation smaller := (fun k f => if icmp (f_smallest f) k <? 0 then f_smallest f else k).

Lemma is_largest_snoc k files f : Forall FileOk files -> FileOk f -> is_largest k files -> is_largest (larger k f) (files ++ [f]).
Proof.
  intros Hok (_ & Fl & _) [(g & Hg & <-) Hmax]. rewrite Forall_forall in Hok. destruct (Hok g Hg) as (_ & Gl & _). pose proof (icmp_flip _ _ Fl Gl) as Hf. destruct (Z.gtb_spec (icmp (f_largest f) (f_largest g)) 0) as [Hgt|Hle]; split.
  - exists f. split; [apply elem_of_app; right; by left|done].
  - intros h [Hh| ->]%elem_of_last; [|by rewrite icmp_refl]. destruct (Hok h Hh) as (_ & Hl & _). apply (icmp_le_trans _ (f_largest g)); [done..|by apply Hmax|lia].
  - exists g. split; [apply elem_of_app; by left|done].
  - intros h [Hh| ->]%elem_of_last; [by apply Hmax|lia].
Qed.

Lemma is_smallest_snoc k files f : Forall FileOk files -> FileOk f -> is_smallest k files -> is_smallest (smaller k f) (files ++ [f]).
Proof.
  intros Hok (Fs & _ & _) [(g & Hg & <-) Hmin]. rewrite Forall_forall in Hok. destruct (Hok g Hg) as (Gs & _ & _). pose proof (icmp_flip _ _ Fs Gs) as Hf. destruct (Z.ltb_spec (icmp (f_smallest f) (f_smallest g)) 0) as [Hlt|Hge]; split.
  - exists f. split; [apply elem_of_app; right; by left|done].
  - intros h [Hh| ->]%elem_of_last; [|by rewrite icmp_refl]. destruct (Hok h Hh) as (Hs & _ & _). apply (icmp_le_trans _ (f_smallest g)); [done..|lia|by apply Hmin].
  - exists g. split; [apply elem_of_app; by left|done].
  - intros h [Hh| ->]%elem_of_last; [by apply Hmin|lia].
Qed.

Lemma fold_largest rest : forall k files, Forall FileOk files -> Forall FileOk rest -> is_largest k files -> is_largest (fold_left larger rest k) (files ++ rest).
Proof.
  induction rest as [|f rest IH]; intros k files H1 H2 Hk; cbn [fold_left]; [by rewrite app_nil_r|]. apply Forall_cons in H2 as [Hf H2]. rewrite cons_middle, app_assoc.
  apply IH; [apply Forall_app; by split; [|constructor]|done|by apply is_largest_snoc].
Qed.

Lemma fold_smallest rest : forall k files, Forall FileOk files -> Forall FileOk rest -> is_smallest k files -> is_smallest (fold_left smaller rest k) (files ++ rest).
Proof.
  induction rest as [|f rest IH]; intros k files H1 H2 Hk; cbn [fold_left]; [by rewrite app_nil_r|]. apply Forall_cons in H2 as [Hf H2]. rewrite cons_middle, app_assoc.
  apply IH; [apply Forall_app; by split; [|constructor]|done|by apply is_smallest_snoc].
Qed.

Lemma widen_parts rest : forall r, fold_left (widen ucmp) rest r = (fold_left smaller rest r.1, fold_left larger rest r.2).
Proof. induction rest as [|f rest IH]; intros [a b]; cbn [fold_left fst snd]; [done|]. by rewrite IH. Qed.

Lemma FindLargestKey_spec files : Forall FileOk files -> match files with [] => FindLargestKey ucmp files = None | _ => exists k, FindLargestKey ucmp files = Some k /\ is_largest k files end.
Proof.
  intros Hok. destruct files as [|f files]; [done|]. apply Forall_cons in Hok as [Hf Hok]. eexists. split; [reflexivity|]. apply (fold_largest files (f_largest f) [f]); [by constructor|done|].
  split; [exists f; by split; [left|]|]. intros g Hg%list_elem_of_singleton; subst g. destruct Hf as (_ & ? & _). by rewrite icmp_refl.
Qed.

Lemma GetRange_spec files : Forall FileOk files -> files <> [] -> exists r, GetRange ucmp files = Some r /\ is_smallest r.1 files /\ is_largest r.2 files.
Proof.
  intros Hok Hne. destruct files as [|f files]; [done|]. apply Forall_cons in Hok as [Hf Hok]. pose proof Hf as (Hs & Hl & _). eexists. split; [reflexivity|]. rewrite widen_parts. cbn [fst snd]. split.
  - apply (fold_smallest files (f_smallest f) [f]); [by constructor|done|]. split; [exists f; by split; [left|]|]. intros g Hg%list_elem_of_singleton; subst g. by rewrite icmp_refl.
  - apply (fold_largest files (f_largest f) [f]); [by constructor|done|]. split; [exists f; by split; [left|]|]. intros g Hg%list_elem_of_singleton; subst g. by rewrite icmp_refl.
Qed.

(** ** Boundary files *)

Lemma smallest_boundary_spec k files : match FindSmallestBoundaryFile ucmp files k with
  | Some f => f ∈ files /\ boundary_file ucmp k f = true
  | None => forall f, f ∈ files -> boundary_file ucmp k f = false
  end.
Proof.
  unfold FindSmallestBoundaryFile. set (step := fun (best : option File) f => _).
  assert (H : forall rest pre best, match best with Some f => f ∈ pre /\ boundary_file ucmp k f = true | None => forall f, f ∈ pre -> boundary_file ucmp k f = false end ->
    match fold_left step rest best with Some f => f ∈ pre ++ rest /\ boundary_file ucmp k f = true | None => forall f, f ∈ pre ++ rest -> boundary_file ucmp k f = false end).
  { induction rest as [|f rest IH]; intros pre best Hb; cbn [fold_left]; [by rewrite app_nil_r|]. rewrite cons_middle, app_assoc. apply IH. unfold step.
    assert (Hf : f ∈ pre ++ [f]) by (apply elem_of_app; right; by left).
    assert (Hpre : forall g, g ∈ pre -> g ∈ pre ++ [f]) by (intros; apply elem_of_app; by left). destruct (boundary_file ucmp k f) eqn:Ef, best as [b|].
    - destruct Hb as [Hb1 Hb2]. destruct (_ <? 0); [done|]. split; [by apply Hpre|done].
    - done.
    - destruct Hb as [Hb1 Hb2]. split; [by apply Hpre|done].
    - intros g [Hg| ->]%elem_of_last; [by apply Hb|done]. }
  apply (H files [] None). by intros f ?%elem_of_nil.
Qed.

(** The files that begin after a key: fewer in each round. *)
Definition after k files : list File := List.filter (fun f => icmp (f_smallest f) k >? 0) files.

Lemma filter_fewer (p q : File -> bool) l f : (forall g, g ∈ l -> p g = true -> q g = true) -> f ∈ l -> p f = false -> q f = true -> (length (List.filter p l) < length (List.filter q l))%nat.
Proof.
  assert (Hle : forall l, (forall g, g ∈ l -> p g = true -> q g = true) -> (length (List.filter p l) <= length (List.filter q l))%nat).
  { clear. induction l as [|x l IH]; intros H; cbn [List.filter]; [done|]. specialize (IH (fun g Hg => H g (list_elem_of_further _ _ _ Hg))). pose proof (H x (list_elem_of_here _ _)) as Hx.
    destruct (p x), (q x); cbn [length]; lia. }
  induction l as [|x l IH]; intros H Hf Hp Hq; [by apply elem_of_nil in Hf|]. cbn [List.filter]. apply elem_of_cons in Hf as [->|Hf].
  - rewrite Hp, Hq. cbn [length]. specialize (Hle l (fun g Hg => H g (list_elem_of_further _ _ _ Hg))). lia.
  - specialize (IH (fun g Hg => H g (list_elem_of_further _ _ _ Hg)) Hf Hp Hq). pose proof (H x (list_elem_of_here _ _)) as Hx. destruct (p x), (q x); cbn [length]; lia.
Qed.

(** Nothing that begins with the last user key is left out. *)
Definition boundary_closed (all files : list File) : Prop := exists k, is_largest k files /\ forall f, f ∈ all -> boundary_file ucmp k f = false.

Lemma boundary_loop_spec (all : list File) (Hall : Forall FileOk all) fuel : forall k files, Forall FileOk files -> is_largest k files -> (length (after k all) < fuel)%nat ->
  exists extra, boundary_loop ucmp fuel all k files = Some (files ++ extra) /\ (forall f, f ∈ extra -> f ∈ all) /\ boundary_closed all (files ++ extra).
Proof.
  induction fuel as [|fuel IH]; intros k files Hok Hk Hf; [lia|]. cbn [boundary_loop]. pose proof (smallest_boundary_spec k all) as Hs. destruct (FindSmallestBoundaryFile ucmp all k) as [f|].
  - destruct Hs as [Hin Hb]. apply andb_true_iff in Hb as [Hb _]. apply Z.gtb_lt in Hb. pose proof Hall as Hall'. rewrite Forall_forall in Hall'. destruct (Hall' f Hin) as (Fs & Fl & Fle).
    destruct Hk as [(g & Hg & <-) Hmax]. pose proof Hok as Hok'. rewrite Forall_forall in Hok'. destruct (Hok' g Hg) as (Gs & Gl & Gle). pose proof (icmp_flip _ _ Fs Gl) as Hflip.
    assert (Hgf : icmp (f_largest g) (f_largest f) < 0) by (apply (icmp_lt_le_trans _ (f_smallest f)); [done..|lia|done]).
    destruct (IH (f_largest f) (files ++ [f])) as (extra & E & Hex & Hcl).
    + apply Forall_app. split; [done|]. by constructor; [apply Hall'|].
    + split; [exists f; split; [apply elem_of_app; right; by left|done]|]. intros h [Hh| ->]%elem_of_last; [|by rewrite icmp_refl]. destruct (Hok' h Hh) as (_ & Hl & _).
      apply (icmp_le_trans _ (f_largest g)); [done..|by apply Hmax|lia].
    + enough (length (after (f_largest f) all) < length (after (f_largest g) all))%nat by lia. apply (filter_fewer _ _ _ f); [|done| |].
      * intros h Hh. rewrite !Z.gtb_lt. intros Hlt. destruct (Hall' h Hh) as (Hs & _ & _). pose proof (icmp_flip _ _ Hs Fl). pose proof (icmp_flip _ _ Hs Gl).
        assert (icmp (f_largest g) (f_smallest h) < 0); [|lia]. apply (icmp_lt_le_trans _ (f_largest f)); [done..|lia].
      * destruct (Z.gtb_spec (icmp (f_smallest f) (f_largest f)) 0); [lia|done].
      * apply Z.gtb_lt. lia.
    + exists (f :: extra). rewrite E. rewrite <- app_assoc in *. split; [done|]. split; [|done]. intros h [->|Hh]%elem_of_cons; [done|by apply Hex].
  - exists []. rewrite app_nil_r. split; [done|]. split; [by intros f ?%elem_of_nil|]. by exists k.
Qed.

Lemma filter_le (p : File -> bool) l : (length (List.filter p l) <= length l)%nat.
Proof. induction l as [|x l IH]; cbn [List.filter]; [done|]. destruct (p x); cbn [length]; lia. Qed.

Lemma AddBoundaryInputs_spec (all files : list File) : Forall FileOk all -> Forall FileOk files -> files <> [] ->
  exists extra, AddBoundaryInputs ucmp all files = Some (files ++ extra) /\ (forall f, f ∈ extra -> f ∈ all) /\ boundary_closed all (files ++ extra).
Proof.
  intros Hall Hok Hne. unfold AddBoundaryInputs. pose proof (FindLargestKey_spec files Hok) as H. destruct files as [|f files]; [done|]. destruct H as (k & -> & Hk).
  apply boundary_loop_spec; [done..|]. pose proof (filter_le (fun f => icmp (f_smallest f) k >? 0) all). unfold after. lia.
Qed.

Lemma closed_boundary all files f g : Forall FileOk all -> (forall g, g ∈ files -> g ∈ all) -> boundary_closed all files -> f ∈ all -> (forall g, g ∈ files -> icmp (f_largest g) (f_smallest f) < 0) ->
  g ∈ files -> Compare ucmp (ustart f) (ulimit g) <> 0.
Proof.
  intros Hall Hsub (k & [(m & Hm & <-) Hmax] & Hb) Hf Hlt Hg Heq. rewrite Forall_forall in Hall. destruct (Hall f Hf) as (Fs & _), (Hall m (Hsub m Hm)) as (_ & Ml & _), (Hall g (Hsub g Hg)) as (_ & Gl & _).
  specialize (Hb f Hf). pose proof (Hlt m Hm) as Hmf. pose proof (icmp_flip _ _ Fs Ml). pose proof (key_le_user (ucmp := ucmp) _ _ (Hmax g Hg)) as H1. pose proof (key_le_user (ucmp := ucmp) (f_largest m) (f_smallest f) ltac:(lia)) as H2.
  apply key_user in Fs, Ml, Gl. pose proof (cmp_le_trans (cmp := Compare ucmp) _ _ _ Fs Gl Ml ltac:(lia) H1) as H3. pose proof (cmp_flip (cmp := Compare ucmp) _ _ Fs Ml) as H4.
  unfold boundary_file in Hb. apply andb_false_iff in Hb as [Hb|Hb]; [destruct (Z.gtb_spec (icmp (f_smallest f) (f_largest m)) 0); [done|lia]|]. apply Z.eqb_neq in Hb. lia.
Qed.

(** ** The two levels *)

Abbreviation le a b := (Compare ucmp a b <= 0).

(** The range of user keys of the files reaches the file. *)
Definition reached (files : list File) f : Prop := (exists g, g ∈ files /\ le (ustart g) (ulimit f)) /\ exists h, h ∈ files /\ le (ustart f) (ulimit h).

Lemma overlapping_spec (files_ : list (list File)) level all r : level_files files_ level = Some all -> Forall FileOk all -> key_ok (ok := ok) r.1 -> key_ok (ok := ok) r.2 ->
  exists l, overlapping ucmp files_ level r = Some l /\ (forall f, f ∈ l -> f ∈ all) /\
    (forall f, f ∈ all -> le (ExtractUserKey r.1) (ulimit f) -> le (ustart f) (ExtractUserKey r.2) -> f ∈ l) /\
    (level <> 0 -> forall f, f ∈ l -> le (ExtractUserKey r.1) (ulimit f) /\ le (ustart f) (ExtractUserKey r.2)).
Proof.
  intros El Hok H1%key_user H2%key_user. destruct (GetOverlappingInputs_eq files_ level (Some r.1) (Some r.2) all El Hok H1 H2) as (b & e & E & Hres). eexists. split; [exact E|]. cbn [fmap option_fmap option_map] in Hres.
  rewrite Forall_forall in Hok. split; [|destruct (Z.eqb_spec level 0) as [->|Hne]].
  - intros f. rewrite list_elem_of_In, List.filter_In, <- list_elem_of_In. tauto.
  - split; [|done]. intros f Hf Hl1 Hl2. apply Hres. apply connected_range; [done|]. apply inside_iff; [done|by apply Hok|]. by split; intros ? [= <-].
  - destruct Hres as [-> ->]. split.
    + intros f Hf Hl1 Hl2. rewrite list_elem_of_In, List.filter_In, <- list_elem_of_In. split; [done|]. apply (inside_iff (ok := ok)); [done|by apply Hok|]. by split; intros ? [= <-].
    + intros _ f. rewrite list_elem_of_In, List.filter_In, <- list_elem_of_In. intros [Hf Hi]. apply (inside_iff (ok := ok)) in Hi as [Ha Hb]; [|done|by apply Hok]. split; [by apply Ha|by apply Hb].
Qed.

Lemma reached_range files f r : Forall FileOk files -> FileOk f -> is_smallest r.1 files -> is_largest r.2 files ->
  reached files f <-> le (ExtractUserKey r.1) (ulimit f) /\ le (ustart f) (ExtractUserKey r.2).
Proof.
  intros Hok (Fs & Fl & _) [(a & Ha & Ea) Hmin] [(b & Hb & Eb) Hmax]. rewrite Forall_forall in Hok. destruct (Hok a Ha) as (As & _), (Hok b Hb) as (_ & Bl & _). rewrite <- Ea in *. rewrite <- Eb in *. apply key_user in As, Bl, Fs, Fl. split.
  - intros [(g & Hg & H1) (h & Hh & H2)]. destruct (Hok g Hg) as (Gs%key_user & _), (Hok h Hh) as (_ & Hl%key_user & _). split.
    + apply (cmp_le_trans (cmp := Compare ucmp) _ (ustart g)); [done..| |done]. by apply (key_le_user (ucmp := ucmp)), Hmin.
    + apply (cmp_le_trans (cmp := Compare ucmp) _ (ulimit h)); [done..|]. by apply (key_le_user (ucmp := ucmp)), Hmax.
  - intros [H1 H2]. split; [by exists a|by exists b].
Qed.

(** What the inputs of the two levels are. *)
Record chosen (all all1 i0 i1 : list File) : Prop := {
  ch_some : i0 <> [];
  ch_sub : forall f, f ∈ i0 -> f ∈ all;
  ch_closed : boundary_closed all i0;
  ch_next : forall f, f ∈ i1 <-> f ∈ all1 /\ reached i0 f
}.

Section TwoLevels.
Context (files_ : list (list File)) (level : Z) (all all1 : list File) (Hlevel : 0 <= level).
Context (El : level_files files_ level = Some all) (El1 : level_files files_ (level + 1) = Some all1) (Hall : Forall FileOk all) (Hall1 : Forall FileOk all1).

Lemma sub_ok (l l' : list File) : Forall FileOk l -> (forall f, f ∈ l' -> f ∈ l) -> Forall FileOk l'.
Proof. rewrite !Forall_forall. auto. Qed.

Lemma range_keys files r : Forall FileOk files -> is_smallest r.1 files -> is_largest r.2 files -> key_ok (ok := ok) r.1 /\ key_ok (ok := ok) r.2.
Proof. intros Hok [(a & Ha & <-) _] [(b & Hb & <-) _]. rewrite Forall_forall in Hok. destruct (Hok a Ha) as (? & _), (Hok b Hb) as (_ & ? & _). done. Qed.

(** The files of the next level for some files of this one. *)
Lemma choose i0 : i0 <> [] -> (forall f, f ∈ i0 -> f ∈ all) -> boundary_closed all i0 ->
  exists r i1, GetRange ucmp i0 = Some r /\ overlapping ucmp files_ (level + 1) r = Some i1 /\ chosen all all1 i0 i1 /\ is_smallest r.1 i0 /\ is_largest r.2 i0.
Proof.
  intros Hne Hsub Hcl. pose proof (sub_ok _ _ Hall Hsub) as Hok. destruct (GetRange_spec i0 Hok Hne) as (r & Er & Hmin & Hmax). destruct (range_keys i0 r Hok Hmin Hmax) as [K1 K2].
  destruct (overlapping_spec files_ (level + 1) all1 r El1 Hall1 K1 K2) as (i1 & E1 & Hs1 & Hin & Hout). exists r, i1. split_and!; [done..| |done|done]. constructor; [done..|].
  intros f. split.
  - intros Hf. split; [by apply Hs1|]. rewrite Forall_forall in Hall1. rewrite (reached_range i0 f r); [|done|by apply Hall1, Hs1|done|done]. apply Hout; [lia|done].
  - intros [Hf Hr]. rewrite Forall_forall in Hall1. rewrite (reached_range i0 f r) in Hr; [|done|by apply Hall1|done|done]. apply Hin; [done|apply Hr..].
Qed.

Definition grown (i0 : list File) (res : list File * list File * (Slice * Slice) * (Slice * Slice)) : Prop :=
  let '(i0', i1', r, all_range) := res in
  chosen all all1 i0' i1' /\ (forall f, f ∈ i0 -> f ∈ i0') /\ is_largest r.2 i0' /\ key_ok (ok := ok) all_range.1 /\ key_ok (ok := ok) all_range.2.

Lemma grow_inputs_spec o i0 i1 r a : chosen all all1 i0 i1 -> is_largest r.2 i0 -> is_smallest a.1 (i0 ++ i1) -> is_largest a.2 (i0 ++ i1) ->
  exists res, grow_inputs ucmp o files_ level i0 i1 r a = Some res /\ grown i0 res.
Proof.
  intros Hch Hr Ha1 Ha2. pose proof Hch as [Hne Hsub Hcl Hnext].
  assert (Hok0 : Forall FileOk i0) by by apply (sub_ok all). assert (Hok1 : Forall FileOk i1) by (apply (sub_ok all1); [done|]; intros f ?%Hnext; tauto).
  destruct (range_keys (i0 ++ i1) a) as [K1 K2]; [by apply Forall_app|done..|].
  assert (Hsame : grown i0 (i0, i1, r, a)) by done. unfold grow_inputs. destruct i1 as [|f1 i1']; [by eexists|]. set (i1 := f1 :: i1') in *. rewrite El. cbn [mbind option_bind].
  destruct (overlapping_spec files_ level all a El Hall K1 K2) as (e0 & -> & Hes & Hein & _). cbn [mbind option_bind].
  assert (Hincl : forall f, f ∈ i0 -> f ∈ e0).
  { intros f Hf. rewrite Forall_forall in Hok0. destruct (Hok0 f Hf) as (Fs & Fl & Fle). apply Hein; [by apply Hsub| |]; apply (key_le_user (ucmp := ucmp)).
    - apply (icmp_le_trans _ (f_smallest f)); [done..| |done]. apply Ha1, elem_of_app. by left.
    - apply (icmp_le_trans _ (f_largest f)); [done..|]. apply Ha2, elem_of_app. by left. }
  assert (Hne0 : e0 <> []) by (intros ->; destruct i0 as [|g ?]; [done|]; by specialize (Hincl g (list_elem_of_here _ _)); apply elem_of_nil in Hincl).
  destruct (AddBoundaryInputs_spec all e0 Hall (sub_ok _ _ Hall Hes) Hne0) as (extra & -> & Hex & Hcl0). cbn [mbind option_bind].
  destruct (_ && _); [|by eexists].
  destruct (choose (e0 ++ extra)) as (r' & e1 & -> & E1 & Hch' & Hr1 & Hr2).
  { intros [? _]%app_eq_nil. done. }
  { intros f [Hf|Hf]%elem_of_app; [by apply Hes|by apply Hex]. }
  { done. }
  cbn [mbind option_bind]. rewrite E1. cbn [mbind option_bind]. destruct (_ =? _)%nat; [|by eexists].
  assert (Hok' : Forall FileOk ((e0 ++ extra) ++ e1)).
  { apply Forall_app. split; [apply (sub_ok all); [done|apply Hch']|]. apply (sub_ok all1); [done|]. intros f Hf%(ch_next _ _ _ _ Hch'). tauto. }
  destruct (GetRange_spec _ Hok') as (a' & Ea & Hm1 & Hm2); [intros [[? _]%app_eq_nil _]%app_eq_nil; done|]. unfold GetRange2. rewrite Ea. cbn [mbind option_bind]. eexists. split; [reflexivity|].
  split; [done|]. split; [intros f Hf; apply elem_of_app; left; by apply Hincl|]. split; [done|]. by apply (range_keys ((e0 ++ extra) ++ e1)).
Qed.

Lemma other_inputs_spec o i0 : (level + 2 < kNumLevels -> exists all2, level_files files_ (level + 2) = Some all2 /\ Forall FileOk all2) -> i0 <> [] -> (forall f, f ∈ i0 -> f ∈ all) ->
  exists i0' i1 grandparents largest, other_inputs ucmp o files_ level i0 = Some (i0', i1, grandparents, largest) /\
    chosen all all1 i0' i1 /\ (forall f, f ∈ i0 -> f ∈ i0') /\ is_largest largest i0'.
Proof.
  intros Hgp Hne Hsub. unfold other_inputs. rewrite El. cbn [mbind option_bind]. destruct (AddBoundaryInputs_spec all i0 Hall (sub_ok _ _ Hall Hsub) Hne) as (extra & -> & Hex & Hcl). cbn [mbind option_bind].
  destruct (choose (i0 ++ extra)) as (r & i1 & -> & E1 & Hch & Hr1 & Hr2); [by intros [? _]%app_eq_nil|intros f [Hf|Hf]%elem_of_app; [by apply Hsub|by apply Hex]|done|].
  cbn [mbind option_bind]. rewrite E1. cbn [mbind option_bind]. assert (Hok' : Forall FileOk ((i0 ++ extra) ++ i1)).
  { apply Forall_app. split; [apply (sub_ok all); [done|apply Hch]|]. apply (sub_ok all1); [done|]. intros f Hf%(ch_next _ _ _ _ Hch). tauto. }
  destruct (GetRange_spec _ Hok') as (a & Ea & Ha1 & Ha2); [intros [[? _]%app_eq_nil _]%app_eq_nil; done|]. unfold GetRange2. rewrite Ea. cbn [mbind option_bind].
  destruct (grow_inputs_spec o _ _ r a Hch Hr2 Ha1 Ha2) as ([[[i0' i1'] r'] a'] & -> & Hch' & Hincl & Hr' & K1 & K2). cbn [mbind option_bind].
  assert (Hi : forall f, f ∈ i0 -> f ∈ i0') by (intros f Hf; apply Hincl, elem_of_app; by left). destruct (Z.ltb_spec (level + 2) kNumLevels) as [Hlt|_]; cbn [mbind option_bind].
  - destruct (Hgp Hlt) as (all2 & El2 & Hok2). destruct (overlapping_spec files_ (level + 2) all2 a' El2 Hok2 K1 K2) as (gp & -> & _). cbn [mbind option_bind]. by exists i0', i1', gp, r'.2.
  - by exists i0', i1', [], r'.2.
Qed.
End TwoLevels.
End Inputs.

(** C25: the inputs of a compaction are complete: from any files of a level of
    the current version, with the files of the levels well-formed,
    [SetupOtherInputs] ends, keeps these files and takes more of the same level, so
    that no file that begins after all of them begins with the last user key of
    one; of the next level it takes exactly the files in the range of user keys of
    the inputs; and it moves the pointer of the level, of no other and nothing else
    of the version set, to the largest key of the level's inputs, and records it at
    the end of the edit's pointers. *)
Theorem SetupOtherInputs_complete ucmp ok {UL : ComparatorLaws ucmp ok} o c s p v all all1 :
  let level := level_ c in
  vs_current s = Some p -> vs_versions s !! p = Some v -> levels_wf (ucmp := ucmp) (ok := ok) (files_ v) -> length (vs_pointers s) = 7%nat ->
  0 <= level < 6 -> level_files (files_ v) level = Some all -> level_files (files_ v) (level + 1) = Some all1 ->
  inputs_0 c <> [] -> (forall f, f ∈ inputs_0 c -> f ∈ all) ->
  exists c' largest, SetupOtherInputs ucmp o c s = Ret (c', with_pointers (<[Z.to_nat level := largest]> (vs_pointers s)) s) /\
    level_ c' = level /\ compact_pointers_ (edit_ c') = compact_pointers_ (edit_ c) ++ [(level, largest)] /\
    (exists f, f ∈ inputs_0 c' /\ f_largest f = largest) /\ (forall f, f ∈ inputs_0 c' -> InternalKey_Compare ucmp (f_largest f) largest <= 0) /\
    (forall f, f ∈ inputs_0 c -> f ∈ inputs_0 c') /\ (forall f, f ∈ inputs_0 c' -> f ∈ all) /\
    (forall f g, f ∈ all -> (forall h, h ∈ inputs_0 c' -> InternalKey_Compare ucmp (f_largest h) (f_smallest f) < 0) -> g ∈ inputs_0 c' ->
       Compare ucmp (ExtractUserKey (f_smallest f)) (ExtractUserKey (f_largest g)) <> 0) /\
    forall f, f ∈ inputs_1 c' <-> f ∈ all1 /\ (exists g, g ∈ inputs_0 c' /\ Compare ucmp (ExtractUserKey (f_smallest g)) (ExtractUserKey (f_largest f)) <= 0) /\
       exists g, g ∈ inputs_0 c' /\ Compare ucmp (ExtractUserKey (f_smallest f)) (ExtractUserKey (f_largest g)) <= 0.
Proof.
  intros level Hcur Ev Hwf Hptr Hl El El1 Hne Hsub. destruct (level_files_wf (files_ v) level Hwf ltac:(lia)) as (? & E & _ & Hall & _). rewrite El in E. injection E as <-.
  destruct (level_files_wf (files_ v) (level + 1) Hwf ltac:(lia)) as (? & E & _ & Hall1 & _). rewrite El1 in E. injection E as <-.
  destruct (other_inputs_spec (files_ v) level all all1 ltac:(lia) El El1 Hall Hall1 o (inputs_0 c)) as (i0' & i1 & gp & k & E & [Hn Hs Hcl Hnext] & Hi & [Hk1 Hk2]); [|done..|].
  { change kNumLevels with 7. intros Hlt. destruct (level_files_wf (files_ v) (level + 2) Hwf ltac:(lia)) as (all2 & E2 & _ & Hok2 & _). by exists all2. }
  assert (Hne' : k <> []). { destruct Hk1 as (f & Hf & <-). rewrite Forall_forall in Hall. destruct (Hall f (Hs f Hf)) as (_ & [Hlen _]%key_internal & _). intros Hnil. rewrite Hnil in Hlen. cbn in Hlen. lia. }
  destruct (at_level_some (vs_pointers s) level Hptr ltac:(lia)) as (old & Eold & _).
  exists (with_inputs (input_version_ c) i0' i1 gp (SetCompactPointer level k (edit_ c)) c), k. split.
  { unfold SetupOtherInputs, get_version, bind, get, need, ret, modify_set. rewrite Hcur, Ev. fold level. rewrite E, (InternalKey_Encode_some k Hne'), Eold. done. }
  split; [done|]. split; [done|]. split; [exact Hk1|]. split; [exact Hk2|]. split; [done|]. split; [done|]. split; [|done]. intros f g Hf Hafter Hg. by apply (closed_boundary all i0').
Qed.

(** A key whose versions are in two files of level 1. *)
Definition split_file (n : Z) (a : string) (s : Z) (b : string) (t : Z) : File :=
  {| f_ptr := Z.to_nat n; f_number := n; f_size := 1; f_smallest := InternalKey (chars a) s kTypeValue; f_largest := InternalKey (chars b) t kTypeValue |}.
Definition split_levels : list (list File) :=
  [[]; [split_file 1 "a" 9 "c" 7; split_file 2 "c" 3 "e" 2]; [split_file 3 "b" 1 "d" 1; split_file 4 "x" 1 "z" 1]; []; []; []; []].

Lemma split_wf : levels_wf (ucmp := BytewiseComparator) (ok := is_bytes) split_levels.
Proof.
  split; [done|]. intros i all Ei. destruct i as [|[|[|[|[|[|[|i]]]]]]]; try (injection Ei as <-); [..|done];
    (split; [repeat first [apply Forall_nil_2|apply Forall_cons_2]; solve_file|intros _; split; [|by vm_compute]]);
    repeat first [apply SSorted_nil|apply SSorted_cons|apply Forall_nil_2|apply Forall_cons_2]; vm_compute; reflexivity.
Qed.

Lemma SetupOtherInputs_complete_witness :
  exists c s', SetupOtherInputs BytewiseComparator flat_options (with_inputs (Some O) [split_file 1 "a" 9 "c" 7] [] [] VersionEdit_new (Compaction_new flat_options 1)) (sample_set split_levels) = Ret (c, s') /\
    split_file 2 "c" 3 "e" 2 ∈ inputs_0 c /\ exists largest, vs_pointers s' = [[]; largest; []; []; []; []; []] /\ compact_pointers_ (edit_ c) = [(1, largest)].
Proof.
  destruct (SetupOtherInputs_complete BytewiseComparator is_bytes flat_options (with_inputs (Some O) [split_file 1 "a" 9 "c" 7] [] [] VersionEdit_new (Compaction_new flat_options 1)) (sample_set split_levels)
    O {| files_ := split_levels; refs_ := 1; file_to_compact_ := None; file_to_compact_level_ := -1; compaction_score_ := double_of (-1); compaction_level_ := -1 |} [split_file 1 "a" 9 "c" 7; split_file 2 "c" 3 "e" 2] [split_file 3 "b" 1 "d" 1; split_file 4 "x" 1 "z" 1]) as (c & k & E & _ & He & _ & _ & Hi & Hs & Hb & _).
  - reflexivity.
  - reflexivity.
  - exact split_wf.
  - reflexivity.
  - cbn. lia.
  - reflexivity.
  - reflexivity.
  - done.
  - intros f Hf. apply list_elem_of_singleton in Hf as ->. by left.
  - eexists c, _. split; [exact E|]. split; [|exists k; split; [reflexivity|exact He]]. destruct (decide (split_file 2 "c" 3 "e" 2 ∈ inputs_0 c)) as [|Hn]; [done|]. exfalso.
    apply (Hb (split_file 2 "c" 3 "e" 2) (split_file 1 "a" 9 "c" 7)); [by right; left| |by apply Hi; left|by vm_compute].
    intros h Hh. specialize (Hs h Hh). rewrite !elem_of_cons in Hs. destruct Hs as [E1|[E1|Hs]].
    + rewrite E1. vm_compute. reflexivity.
    + rewrite E1 in Hh. destruct (Hn Hh).
    + apply elem_of_nil in Hs. destruct Hs.
Defined.
