(* ===== verification/LvCompactWork.v ===== *)
(** The work of a compaction ([db/db_impl.cc], [DoCompactionWork]): the entries of
    the inputs are merged, the ones no reader needs are dropped, and the others
    written to new tables.

    The tables are behind an interface: a file and a [TableBuilder] on it. The
    rounds in which the shutdown flag is seen are an argument. What the loop does
    for a waiting memtable is another operation and not part of this model. *)

From stdpp Require Import base list gmap strings sorting.
From Stdlib Require Import ZArith Lia.
From S2P Require Import Prelude LvSlice LvCoding LvFormat LvIterator LvVersionEdit LvOptions LvDbIter LvVersion LvVersionGet LvVersionSet LvEnv LvFilename LvLog LvManifest LvCompaction.

(** [CompactionState::Output]. *)
Record Output : Type := { out_number : Z; out_file_size : Z; out_smallest : Slice; out_largest : Slice }.

(** [CompactionState], without the file and its builder: [builder_open] is whether
    there is one. *)
Record CompactionState : Type := {
  compaction : Compaction; smallest_snapshot : Z; outputs : list Output; builder_open : bool; total_bytes : Z; pending_outputs_ : gset Z
}.

(** What a compaction does to files: [tb_Open n] makes the table file number [n]
    and a builder on it, [tb_Finish] and [tb_Abandon] end the builder, [tb_Close]
    syncs and closes the file, [tb_Usable n size] is the status of an iterator over the table. *)
Class TableSink (B : Type) : Type := {
  tb_NewFileNumber : M B Z;
  tb_Open : Z -> M B Status;
  tb_Add : Slice -> Slice -> M B unit;
  tb_NumEntries : B -> Z;
  tb_FileSize : B -> Z;
  tb_Finish : M B Status;
  tb_Abandon : M B unit;
  tb_Close : M B Status;
  tb_Usable : Z -> Z -> M B Status
}.

(** ** What is dropped *)

(** The user key of the entry before, if it could be parsed, and its number. *)
Record KeyState : Type := { current_user_key : option Slice; last_sequence_for_key : Z }.

Definition KeyState_new : KeyState := {| current_user_key := None; last_sequence_for_key := kMaxSequenceNumber |}.

Section Drop.
Context (ucmp : Comparator) (files_ : list (list File)).

(** Whether the entry is dropped. *)
Definition drop_entry (smallest : Z) (key : Slice) (ks : KeyState) (c : Compaction) : bool * KeyState * Compaction :=
  match ParseInternalKey key with
  | None => (false, KeyState_new, c)
  | Some ikey =>
      let first := match current_user_key ks with Some k => negb (Compare ucmp (user_key ikey) k =? 0) | None => true end in
      let last_sequence := if first then kMaxSequenceNumber else last_sequence_for_key ks in
      let current := if first then Some (user_key ikey) else current_user_key ks in
      let '(drop, c) :=
        if last_sequence <=? smallest then (true, c)
        else
          match type ikey with
          | kTypeDeletion => if LvFormat.sequence ikey <=? smallest then IsBaseLevelForKey ucmp files_ (user_key ikey) c else (false, c)
          | kTypeValue => (false, c)
          end in
      (drop, {| current_user_key := current; last_sequence_for_key := LvFormat.sequence ikey |}, c)
  end.
End Drop.

(** ** The loop *)

Section Work.
Context {I B : Type} `{II : Iterator I} `{TS : TableSink B}.
Context (ucmp : Comparator) (options_ : Options) (files_ : list (list File)) (shutting_down : nat -> bool).

(** The input, the tables and the state of the compaction. *)
Record Work : Type := { wk_input : I; wk_tables : B; wk_state : CompactionState }.

Definition on_input {A} (c : M I A) : M Work A := fun w =>
  match c (wk_input w) with
  | Ret (a, i) => Ret (a, {| wk_input := i; wk_tables := wk_tables w; wk_state := wk_state w |})
  | Undef => Undef
  | NoFuel => NoFuel
  end.

Definition on_tables {A} (c : M B A) : M Work A := fun w =>
  match c (wk_tables w) with
  | Ret (a, b) => Ret (a, {| wk_input := wk_input w; wk_tables := b; wk_state := wk_state w |})
  | Undef => Undef
  | NoFuel => NoFuel
  end.

Definition change_state (f : CompactionState -> CompactionState) : M Work unit := fun w =>
  Ret (tt, {| wk_input := wk_input w; wk_tables := wk_tables w; wk_state := f (wk_state w) |}).

Definition with_outputs (os : list Output) (open : bool) (bytes : Z) (pending : gset Z) (s : CompactionState) : CompactionState :=
  {| compaction := compaction s; smallest_snapshot := smallest_snapshot s; outputs := os; builder_open := open; total_bytes := bytes; pending_outputs_ := pending |}.

Definition with_compaction (c : Compaction) (s : CompactionState) : CompactionState :=
  {| compaction := c; smallest_snapshot := smallest_snapshot s; outputs := outputs s; builder_open := builder_open s; total_bytes := total_bytes s; pending_outputs_ := pending_outputs_ s |}.

(** [current_output()]: the last one is changed. *)
Definition change_current (f : Output -> Output) (os : list Output) : option (list Output) :=
  match last os with Some o => Some (removelast os ++ [f o]) | None => None end.

Definition set_current (f : Output -> Output) : M Work unit :=
  let* w := get in
  let* os := need (change_current f (outputs (wk_state w))) in
  change_state (fun s => with_outputs os (builder_open s) (total_bytes s) (pending_outputs_ s) s).

Definition OpenCompactionOutputFile : M Work Status :=
  let* w := get in
  if builder_open (wk_state w) then undef
  else
    let* file_number := on_tables tb_NewFileNumber in
    change_state (fun s => with_outputs (outputs s ++ [{| out_number := file_number; out_file_size := 0; out_smallest := []; out_largest := [] |}])
                             (builder_open s) (total_bytes s) ({[file_number]} ∪ pending_outputs_ s) s) ;;;
    let* s := on_tables (tb_Open file_number) in
    (if Status_ok s then change_state (fun st => with_outputs (outputs st) true (total_bytes st) (pending_outputs_ st) st) else ret tt) ;;;
    ret s.

Definition FinishCompactionOutputFile : M Work Status :=
  let* w := get in
  if negb (builder_open (wk_state w)) then undef
  else
    let* current := need (last (outputs (wk_state w))) in
    let output_number := out_number current in
    if output_number =? 0 then undef
    else
      let s := iter_status (wk_input w) in
      let current_entries := tb_NumEntries (wk_tables w) in
      let* s := if Status_ok s then on_tables tb_Finish else (on_tables tb_Abandon ;;; ret s) in
      let* w := get in
      let current_bytes := tb_FileSize (wk_tables w) in
      set_current (fun o => {| out_number := out_number o; out_file_size := current_bytes; out_smallest := out_smallest o; out_largest := out_largest o |}) ;;;
      change_state (fun st => with_outputs (outputs st) false (u64 (total_bytes st + current_bytes)) (pending_outputs_ st) st) ;;;
      let* s := if Status_ok s then on_tables tb_Close else ret s in
      if Status_ok s && (current_entries >? 0) then on_tables (tb_Usable output_number current_bytes) else ret s.

Definition with_smallest (k : Slice) (o : Output) : Output := {| out_number := out_number o; out_file_size := out_file_size o; out_smallest := k; out_largest := out_largest o |}.
Definition with_largest (k : Slice) (o : Output) : Output := {| out_number := out_number o; out_file_size := out_file_size o; out_smallest := out_smallest o; out_largest := k |}.

(** The bounds of the output are set, and the entry is added. *)
Definition add_entry (key value : Slice) : M Work unit :=
  let* w := get in
  (if tb_NumEntries (wk_tables w) =? 0 then set_current (with_smallest key) else ret tt) ;;;
  set_current (with_largest key) ;;;
  on_tables (tb_Add key value).

(** An entry that is kept; the status when the loop stops. *)
Definition keep_entry (key value : Slice) : M Work (option Status) :=
  let* w := get in
  let* s := if builder_open (wk_state w) then ret Status_OK else OpenCompactionOutputFile in
  if negb (Status_ok s) then ret (Some s)
  else
    add_entry key value ;;;
    let* w := get in
    if tb_FileSize (wk_tables w) >=? max_output_file_size_ (compaction (wk_state w)) then
      let* s := FinishCompactionOutputFile in
      ret (if Status_ok s then None else Some s)
    else ret None.

Fixpoint work_loop (fuel : nat) (ks : KeyState) : M Work Status :=
  match fuel with
  | O => nofuel
  | S fuel =>
      let* w := get in
      if iter_Valid (wk_input w) && negb (shutting_down fuel) then
        let* key := on_input iter_key in
        let '(stop, c) := ShouldStopBefore ucmp options_ key (compaction (wk_state w)) in
        change_state (with_compaction c) ;;;
        let* status := if stop && builder_open (wk_state w) then FinishCompactionOutputFile else ret Status_OK in
        if negb (Status_ok status) then ret status
        else
          let* w := get in
          let '(drop, ks, c) := drop_entry ucmp files_ (smallest_snapshot (wk_state w)) key ks (compaction (wk_state w)) in
          change_state (with_compaction c) ;;;
          let* stopped := if drop : bool then ret None else (let* value := on_input iter_value in keep_entry key value) in
          match stopped with
          | Some status => ret status
          | None => on_input iter_Next ;;; work_loop fuel ks
          end
      else ret Status_OK
  end.

(** The status of the work; [smallest] is the oldest snapshot, or the last
    sequence number. *)
Definition DoCompactionWork (fuel : nat) : M Work Status :=
  on_input iter_SeekToFirst ;;;
  let* status := work_loop fuel KeyState_new in
  let status := if Status_ok status && shutting_down O then Status_IOError (chars "Deleting DB during compaction") [] else status in
  let* w := get in
  let* status := if Status_ok status && builder_open (wk_state w) then FinishCompactionOutputFile else ret status in
  let* w := get in
  ret (if Status_ok status then iter_status (wk_input w) else status).

Definition CleanupCompaction : M Work unit :=
  let* w := get in
  (if builder_open (wk_state w) then on_tables tb_Abandon else ret tt) ;;;
  change_state (fun st => with_outputs (outputs st) false (total_bytes st) (pending_outputs_ st ∖ list_to_set (map out_number (outputs st))) st).
End Work.

(** The oldest snapshot, from the list of them, or the last sequence number. *)
Definition oldest_sequence (snapshots : list Z) (last_sequence : Z) : Z := match snapshots with [] => last_sequence | s :: _ => s end.

(** [CompactionState(c)], with the snapshot that [DoCompactionWork] sets. *)
Definition CompactionState_new (c : Compaction) (smallest : Z) (pending : gset Z) : CompactionState :=
  {| compaction := c; smallest_snapshot := smallest; outputs := []; builder_open := false; total_bytes := 0; pending_outputs_ := pending |}.

(** The edit that [InstallCompactionResults] applies. *)
Definition results_edit (s : CompactionState) : VersionEdit :=
  fold_left (fun e o => AddFile (level_ (compaction s) + 1) (out_number o) (out_file_size o) (out_smallest o) (out_largest o) e) (outputs s)
    (AddInputDeletions (compaction s) (edit_ (compaction s))).

Definition InstallCompactionResults {E F G : Type} `{EV : Env E} `{OF : OpenFiles E F G} `{WF : WritableFile F}
    (address : list Z -> Z) (ucmp : Comparator) (dbname_ : Slice) (s : CompactionState) : M (Db (E := E) (F := F)) Status :=
  LogAndApply address ucmp dbname_ (results_edit s).
