(* ===== verification/LvCompactProps.v ===== *)
(** What a compaction keeps ([db/db_impl.cc], [DoCompactionWork]): the rule by which
    entries are dropped, that no reader at the oldest snapshot or later can tell
    the difference, and that the loop, when it succeeds, has written exactly the
    entries that are kept to its output tables, in order, although reading the
    inputs and writing the outputs may fail. *)

From stdpp Require Import base list gmap strings sorting.
From Stdlib Require Import ZArith Lia.
From S2P Require Import Prelude LvSlice LvCoding LvFormat LvSkipList LvSkipListSpec LvIterator LvBlock LvBlockProps LvBlockIter LvIterWrap LvVersionEdit LvOptions LvDbIter LvDbIterProps LvVersion LvVersionGet LvVersionSet LvCompaction LvCompactWork.

Abbreviation Entry := (ParsedInternalKey * Slice)%type.
Abbreviation seq_of x := (LvFormat.sequence x.1).

Section Kept.
Context {ucmp : Comparator} {ok : Slice -> Prop} `{UL : !ComparatorLaws ucmp ok}.
Context (smallest : Z) (deeper : list File).
Implicit Types (x y : Entry) (u : Slice) (s : Z) (f : File) (pre vs rest : list Entry).
Abbreviation cmpu x y := (Compare ucmp (user_key x.1) (user_key y.1)).

(** By user key, then the newer first. *)
Definition written_order x y : Prop := cmpu x y < 0 \/ cmpu x y = 0 /\ seq_of y < seq_of x.

(** A newer entry of the key is old enough for every reader. *)
Definition hidden pre x : bool := existsb (fun y => same_user ucmp y x && (seq_of y <=? smallest)) pre.

(** A deletion that has nothing left to hide. *)
Definition obsolete x : bool :=
  bool_decide (type x.1 = kTypeDeletion) && (seq_of x <=? smallest) && negb (existsb (covers (ucmp := ucmp) (user_key x.1)) deeper).

Fixpoint kept_after pre vs : list Entry :=
  match vs with
  | [] => []
  | x :: vs => (if hidden pre x || obsolete x then [] else [x]) ++ kept_after (pre ++ [x]) vs
  end.

Lemma kept_in pre vs x : x ∈ kept_after pre vs <-> exists i, vs !! i = Some x /\ hidden (pre ++ take i vs) x || obsolete x = false.
Proof.
  revert pre. induction vs as [|y vs IH]; intros pre; cbn [kept_after].
  - split; [by intros ?%elem_of_nil|]. by intros (i & E & _).
  - rewrite elem_of_app, IH. split.
    + intros [Hx|(i & E & Hi)].
      * exists O. destruct (hidden pre y || obsolete y) eqn:E; [by apply elem_of_nil in Hx|]. apply list_elem_of_singleton in Hx as ->. cbn [take]. by rewrite app_nil_r.
      * exists (S i). split; [done|]. cbn [take]. by rewrite <- app_assoc in Hi.
    + intros ([|i] & E & Hi).
      * left. injection E as ->. cbn [take] in Hi. rewrite app_nil_r in Hi. rewrite Hi. by apply list_elem_of_singleton.
      * right. exists i. split; [done|]. cbn [take] in Hi. by rewrite <- app_assoc.
Qed.

Lemma kept_snoc pre vs x : kept_after pre (vs ++ [x]) = kept_after pre vs ++ (if hidden (pre ++ vs) x || obsolete x then [] else [x]).
Proof.
  revert pre. induction vs as [|y vs IH]; intros pre; cbn [kept_after app].
  - by rewrite app_nil_r, app_nil_r.
  - by rewrite IH, <- !app_assoc.
Qed.

Lemma hidden_iff pre x : hidden pre x = true <-> exists y, y ∈ pre /\ cmpu y x = 0 /\ seq_of y <= smallest.
Proof.
  unfold hidden. rewrite existsb_exists. split; intros (y & Hy & H); exists y; rewrite list_elem_of_In in *; (split; [done|]);
    unfold same_user in *; rewrite andb_true_iff, Z.eqb_eq, Z.leb_le in *; done.
Qed.

Lemma obsolete_iff x : obsolete x = true <-> type x.1 = kTypeDeletion /\ seq_of x <= smallest /\ forall f, f ∈ deeper -> covers (ucmp := ucmp) (user_key x.1) f = false.
Proof.
  unfold obsolete. rewrite !andb_true_iff, bool_decide_eq_true, negb_true_iff, Z.leb_le. split; intros H.
  - destruct H as [[? ?] Hn]. split_and!; [done..|]. intros f Hf. apply not_true_iff_false. intros Hc. assert (existsb (covers (ucmp := ucmp) (user_key x.1)) deeper = true); [|congruence].
    apply existsb_exists. exists f. by rewrite <- list_elem_of_In.
  - destruct H as (? & ? & Hn). split; [done|]. by apply existsb_none.
Qed.
End Kept.

(** ** Reading *)

Section Reads.
Context {ucmp : Comparator} {ok : Slice -> Prop} `{UL : !ComparatorLaws ucmp ok}.
Implicit Types (x y : Entry) (u : Slice) (s : Z) (f : File) (l vs rest : list Entry).
Abbreviation cmpu x y := (Compare ucmp (user_key x.1) (user_key y.1)).
Abbreviation sees := (visible_to (ucmp := ucmp)).

(** What a reader of the key at a snapshot gets from the entries. *)
Definition reads u s l (r : option Slice) : Prop :=
  match r with
  | Some v => exists x, newest_of (ucmp := ucmp) u s l x /\ type x.1 = kTypeValue /\ x.2 = v
  | None => none_visible (ucmp := ucmp) u s l \/ exists x, newest_of (ucmp := ucmp) u s l x /\ type x.1 = kTypeDeletion
  end.

Lemma sees_same x y u s : ok (user_key x.1) -> ok (user_key y.1) -> ok u -> sees u s x -> sees u s y -> cmpu x y = 0.
Proof.
  intros Ox Oy Hu [Hx _] [Hy _]. pose proof (cmp_flip (cmp := Compare ucmp) u (user_key y.1) Hu Oy). pose proof (cmp_flip (cmp := Compare ucmp) u (user_key x.1) Hu Ox).
  pose proof (cmp_flip (cmp := Compare ucmp) (user_key x.1) (user_key y.1) Ox Oy).
  pose proof (cmp_le_trans (cmp := Compare ucmp) (user_key x.1) u (user_key y.1) Ox Hu Oy). pose proof (cmp_le_trans (cmp := Compare ucmp) (user_key y.1) u (user_key x.1) Oy Hu Ox). lia.
Qed.

Lemma sees_key x y u s : ok (user_key x.1) -> ok (user_key y.1) -> ok u -> sees u s x -> cmpu y x = 0 -> seq_of y <= s -> sees u s y.
Proof.
  intros Ox Oy Hu [Hx _] Hyx Hs. split; [|done]. pose proof (cmp_flip (cmp := Compare ucmp) u (user_key y.1) Hu Oy). pose proof (cmp_flip (cmp := Compare ucmp) u (user_key x.1) Hu Ox).
  pose proof (cmp_flip (cmp := Compare ucmp) (user_key x.1) (user_key y.1) Ox Oy).
  pose proof (cmp_le_trans (cmp := Compare ucmp) (user_key y.1) (user_key x.1) u Oy Ox Hu). pose proof (cmp_le_trans (cmp := Compare ucmp) u (user_key x.1) (user_key y.1) Hu Ox Oy). lia.
Qed.

Lemma newest_or_none u s l : none_visible (ucmp := ucmp) u s l \/ exists x, newest_of (ucmp := ucmp) u s l x.
Proof.
  induction l as [|y l IH]; [left; by intros ? ?%elem_of_nil|]. destruct (Z.eq_dec (Compare ucmp (user_key y.1) u) 0) as [Hy|Hy]; [destruct (Z.le_gt_cases (seq_of y) s) as [Hs|Hs]|].
  - right. destruct IH as [Hn|(x & Hx & Hv & Hmax)].
    + exists y. split; [by left|]. split; [done|]. intros z [->|Hz]%elem_of_cons Hvz; [lia|]. by destruct (Hn z Hz).
    + destruct (Z.le_gt_cases (seq_of y) (seq_of x)) as [Hle|Hgt].
      * exists x. split; [by right|]. split; [done|]. intros z [->|Hz]%elem_of_cons Hvz; [done|]. by apply Hmax.
      * exists y. split; [by left|]. split; [done|]. intros z [->|Hz]%elem_of_cons Hvz; [lia|]. specialize (Hmax z Hz Hvz). lia.
  - destruct IH as [Hn|(x & Hx & Hv & Hmax)].
    + left. intros z [->|Hz]%elem_of_cons; [intros [_ ?]; lia|by apply Hn].
    + right. exists x. split; [by right|]. split; [done|]. intros z [->|Hz]%elem_of_cons Hvz; [destruct Hvz; lia|by apply Hmax].
  - destruct IH as [Hn|(x & Hx & Hv & Hmax)].
    + left. intros z [->|Hz]%elem_of_cons; [by intros [? _]|by apply Hn].
    + right. exists x. split; [by right|]. split; [done|]. intros z [->|Hz]%elem_of_cons Hvz; [by destruct Hvz|by apply Hmax].
Qed.

Lemma newest_sub u s l1 l2 x : (forall y, y ∈ l1 -> y ∈ l2) -> x ∈ l1 -> newest_of (ucmp := ucmp) u s l2 x -> newest_of (ucmp := ucmp) u s l1 x.
Proof. intros Hsub Hx (_ & Hv & Hmax). split; [done|]. split; [done|]. intros y Hy. by apply Hmax, Hsub. Qed.

(** The entries of a compaction, and those of the other files and memtables:
    each is in the range of a file of a deeper level, or newer. *)
Section Compacted.
Context (smallest : Z) (deeper : list File) (vs rest : list Entry).
Context (Hvs : Forall (version_ok (ok := ok)) vs) (HS : StronglySorted (written_order (ucmp := ucmp)) vs).
Context (Hrest : forall y, y ∈ rest -> version_ok (ok := ok) y /\
  ((exists f, f ∈ deeper /\ covers (ucmp := ucmp) (user_key y.1) f = true) \/ forall x, x ∈ vs -> cmpu x y = 0 -> seq_of x < seq_of y)).
Context (Hdeeper : Forall (fun f => ok (ExtractUserKey (f_smallest f)) /\ ok (ExtractUserKey (f_largest f))) deeper).
Abbreviation kept := (kept_after (ucmp := ucmp) smallest deeper [] vs).

Lemma vs_ok x : x ∈ vs -> version_ok (ok := ok) x.
Proof. rewrite Forall_forall in Hvs. by apply Hvs. Qed.

Lemma vs_order i j x y : (i < j)%nat -> vs !! i = Some x -> vs !! j = Some y -> written_order (ucmp := ucmp) x y.
Proof.
  intros Hij Ex Ey. rewrite <- (take_drop j vs) in HS. apply (StronglySorted_app_1_elem_of _ _ _ x y HS).
  - apply list_elem_of_lookup. exists i. by rewrite lookup_take_lt.
  - apply list_elem_of_lookup. exists O. by rewrite lookup_drop, Nat.add_0_r.
Qed.

Lemma kept_sub x : x ∈ kept -> x ∈ vs.
Proof. rewrite kept_in. intros (i & E & _). by eapply list_elem_of_lookup_2. Qed.

Lemma sub_app y : y ∈ rest ++ kept -> y ∈ rest ++ vs.
Proof. rewrite !elem_of_app. intros [?|?%kept_sub]; [by left|by right]. Qed.

(** The ranges of files do not tell equal keys apart. *)
Lemma covers_same x y f : ok (user_key x.1) -> ok (user_key y.1) -> f ∈ deeper -> cmpu x y = 0 -> covers (ucmp := ucmp) (user_key y.1) f = true -> covers (ucmp := ucmp) (user_key x.1) f = true.
Proof.
  intros Ox Oy Hf Hxy. rewrite Forall_forall in Hdeeper. destruct (Hdeeper f Hf) as [Os Ol]. clear Hdeeper Hrest. unfold covers. rewrite !andb_true_iff, !Z.leb_le, !Z.geb_le. intros [H1 H2].
  pose proof (cmp_flip (cmp := Compare ucmp) (user_key x.1) (user_key y.1) Ox Oy) as Hf1. pose proof (cmp_flip (cmp := Compare ucmp) (user_key x.1) _ Ox Os) as Hf2. pose proof (cmp_flip (cmp := Compare ucmp) (user_key y.1) _ Oy Os) as Hf3. split.
  - apply (cmp_le_trans (cmp := Compare ucmp) _ (user_key y.1)); [done..|lia|done].
  - assert (Compare ucmp (ExtractUserKey (f_smallest f)) (user_key x.1) <= 0); [|lia]. apply (cmp_le_trans (cmp := Compare ucmp) _ (user_key y.1)); [done..|lia|lia].
Qed.

(** A dropped entry that is the newest is a deletion, and nothing is left. *)
Lemma newest_dropped u s i x : ok u -> smallest <= s -> newest_of (ucmp := ucmp) u s (rest ++ vs) x -> vs !! i = Some x ->
  hidden (ucmp := ucmp) smallest (take i vs) x || obsolete (ucmp := ucmp) smallest deeper x = true ->
  type x.1 = kTypeDeletion /\ none_visible (ucmp := ucmp) u s (rest ++ kept).
Proof.
  intros Hu Hs (_ & Hv & Hmax) Ex Hd. assert (Hx : x ∈ vs) by (by eapply list_elem_of_lookup_2). destruct (vs_ok x Hx) as [Ox _].
  assert (Hnew : hidden (ucmp := ucmp) smallest (take i vs) x = false).
  { apply not_true_iff_false. rewrite hidden_iff. intros (y & (j & [Ej Hj]%lookup_take_Some)%list_elem_of_lookup & Hc & Hle).
    assert (Hy : y ∈ vs) by (by eapply list_elem_of_lookup_2). destruct (vs_ok y Hy) as [Oy _].
    specialize (Hmax y (proj2 (elem_of_app _ _ _) (or_intror Hy)) (sees_key x y u s Ox Oy Hu Hv Hc ltac:(lia))). destruct (vs_order j i y x Hj Ej Ex) as [?|[_ ?]]; lia. }
  rewrite Hnew in Hd. cbn [orb] in Hd. apply obsolete_iff in Hd as (Ht & Hle & Hcov). split; [done|]. intros y Hy Hvy. apply elem_of_app in Hy as [Hy|Hy].
  - destruct (Hrest y Hy) as [[Oy _] Hor]. pose proof (sees_same x y u s Ox Oy Hu Hv Hvy) as Hxy. destruct Hor as [(f & Hf & Hc)|Hn].
    + specialize (Hcov f Hf). rewrite (covers_same x y f) in Hcov; done.
    + specialize (Hn x Hx Hxy). specialize (Hmax y (proj2 (elem_of_app _ _ _) (or_introl Hy)) Hvy). lia.
  - apply kept_in in Hy as (j & Ey & Hk). apply orb_false_iff in Hk as [Hk1 Hk2]. assert (Hy : y ∈ vs) by (by eapply list_elem_of_lookup_2). destruct (vs_ok y Hy) as [Oy _].
    pose proof (sees_same x y u s Ox Oy Hu Hv Hvy) as Hxy. destruct (Nat.lt_trichotomy i j) as [Hij|[<-|Hij]].
    + apply not_true_iff_false in Hk1. apply Hk1. apply hidden_iff. exists x. split; [|done]. cbn [app]. apply list_elem_of_lookup. exists i. by rewrite lookup_take_lt.
    + rewrite Ex in Ey. injection Ey as <-. assert (obsolete (ucmp := ucmp) smallest deeper x = true) by (by apply obsolete_iff). congruence.
    + specialize (Hmax y (proj2 (elem_of_app _ _ _) (or_intror Hy)) Hvy). pose proof (cmp_flip (cmp := Compare ucmp) _ _ Ox Oy). destruct (vs_order j i y x Hij Ey Ex) as [?|[_ ?]]; lia.
Qed.

(** The newest is still there, or a deletion with nothing left. *)
Lemma newest_cases u s x : ok u -> smallest <= s -> newest_of (ucmp := ucmp) u s (rest ++ vs) x ->
  newest_of (ucmp := ucmp) u s (rest ++ kept) x \/ type x.1 = kTypeDeletion /\ none_visible (ucmp := ucmp) u s (rest ++ kept).
Proof.
  intros Hu Hs Hn. pose proof Hn as ([Hx|Hx]%elem_of_app & _ & _).
  - left. apply (newest_sub u s _ (rest ++ vs)); [apply sub_app|apply elem_of_app; by left|done].
  - apply list_elem_of_lookup in Hx as (i & Ex). destruct (hidden (ucmp := ucmp) smallest (take i vs) x || obsolete (ucmp := ucmp) smallest deeper x) eqn:Hd.
    + right. by apply (newest_dropped u s i x).
    + left. apply (newest_sub u s _ (rest ++ vs)); [apply sub_app| |done]. apply elem_of_app. right. apply kept_in. by exists i.
Qed.

Lemma newest_back u s x : ok u -> smallest <= s -> newest_of (ucmp := ucmp) u s (rest ++ kept) x -> newest_of (ucmp := ucmp) u s (rest ++ vs) x.
Proof.
  intros Hu Hs (Hx & Hv & Hmax). split; [by apply sub_app|]. split; [done|]. intros y Hy Hvy. destruct (newest_or_none u s (rest ++ vs)) as [Hn|(m & Hm)]; [by destruct (Hn y Hy)|].
  pose proof Hm as (_ & Hvm & Hmm). specialize (Hmm y Hy Hvy). destruct (newest_cases u s m Hu Hs Hm) as [(Hk & _ & _)|[_ Hn]].
  - specialize (Hmax m Hk Hvm). lia.
  - by destruct (Hn x Hx).
Qed.

(** No reader at the oldest snapshot or later can tell. *)
Lemma reads_kept u s r : ok u -> smallest <= s -> reads u s (rest ++ kept) r <-> reads u s (rest ++ vs) r.
Proof.
  intros Hu Hs. destruct r as [v|]; cbn [reads]; split.
  - intros (x & Hx & Ht). exists x. split; [by apply newest_back|done].
  - intros (x & Hx & Ht & Hv). destruct (newest_cases u s x Hu Hs Hx) as [Hk|[Hd _]]; [by exists x|congruence].
  - intros [Hn|(x & Hx & Ht)]; [|right; exists x; split; [by apply newest_back|done]]. destruct (newest_or_none u s (rest ++ vs)) as [?|(m & Hm)]; [by left|].
    right. exists m. split; [done|]. destruct (newest_cases u s m Hu Hs Hm) as [(Hk & Hvm & _)|[Hd _]]; [by destruct (Hn m Hk)|done].
  - intros [Hn|(x & Hx & Ht)]; [left; intros y Hy; by apply Hn, sub_app|]. destruct (newest_cases u s x Hu Hs Hx) as [Hk|[_ Hn]]; [right; by exists x|by left].
Qed.
End Compacted.
End Reads.

(** ** Which entries the code drops *)

Section Dropping.
Context {ucmp : Comparator} {ok : Slice -> Prop} `{UL : !ComparatorLaws ucmp ok}.
Context (files_ : list (list File)) (smallest level : Z) (Hsmall : smallest < kMaxSequenceNumber).
Context (vs : list Entry) (Hvs : Forall (version_ok (ok := ok)) vs) (HS : StronglySorted (written_order (ucmp := ucmp)) vs).
Implicit Types (x y : Entry) (pre : list Entry) (c : Compaction).
Abbreviation cmpu x y := (Compare ucmp (user_key x.1) (user_key y.1)).
Abbreviation deeper := (concat (drop (Z.to_nat (level + 2)) files_)).

(** The state of the loop after some entries. *)
Definition key_state pre (ks : KeyState) : Prop :=
  match last pre with
  | None => ks = KeyState_new
  | Some y => exists k, current_user_key ks = Some k /\ ok k /\ Compare ucmp (user_key y.1) k = 0 /\ last_sequence_for_key ks = seq_of y
  end.

Lemma at_ok i x : vs !! i = Some x -> ok (user_key x.1).
Proof. intros Ex. apply (vs_ok vs Hvs x). by eapply list_elem_of_lookup_2. Qed.

(** The entry before decides whether a newer one hides this one. *)
Lemma hidden_last i x y : vs !! S i = Some x -> vs !! i = Some y ->
  hidden (ucmp := ucmp) smallest (take (S i) vs) x = (cmpu x y =? 0) && (seq_of y <=? smallest).
Proof.
  intros Ex Ey. clear Hsmall. pose proof (at_ok _ _ Ex) as Ox. pose proof (at_ok _ _ Ey) as Oy. pose proof (cmp_flip (cmp := Compare ucmp) _ _ Ox Oy) as Hf.
  apply eq_true_iff_eq. rewrite hidden_iff, andb_true_iff, Z.eqb_eq, Z.leb_le. split.
  - intros (z & (j & [Ez Hj]%lookup_take_Some)%list_elem_of_lookup & Hz & Hle). pose proof (at_ok _ _ Ez) as Oz. destruct (decide (j = i)) as [->|Hne].
    + rewrite Ey in Ez. injection Ez as <-. lia.
    + pose proof (vs_order vs HS j i z y ltac:(lia) Ez Ey) as Hzy. pose proof (vs_order vs HS i (S i) y x ltac:(lia) Ey Ex) as Hyx.
      assert (Hyx0 : cmpu y x = 0).
      { destruct Hyx as [Hyx|[? _]]; [|done]. assert (cmpu z x < 0); [|lia]. apply (cmp_le_lt_trans (cmp := Compare ucmp) _ (user_key y.1)); [done..|destruct Hzy as [?|[? _]]; lia|done]. }
      split; [lia|]. destruct Hzy as [Hzy|[_ ?]]; [|lia]. assert (cmpu z x < 0); [|lia]. apply (cmp_lt_le_trans (cmp := Compare ucmp) _ (user_key y.1)); [done..|lia].
  - intros [Hc Hle]. exists y. split; [|split; [lia|done]]. apply list_elem_of_lookup. exists i. apply lookup_take_Some. split; [done|lia].
Qed.

Lemma key_state_new x pre k : ok k -> Compare ucmp (user_key x.1) k = 0 ->
  key_state (pre ++ [x]) {| current_user_key := Some k; last_sequence_for_key := seq_of x |}.
Proof. intros Hk Hc. unfold key_state. rewrite last_snoc. by exists k. Qed.

(** Whether the newer entry hides this one, as the code computes it. *)
Lemma key_state_spec i x ks : vs !! i = Some x -> key_state (take i vs) ks ->
  let first := match current_user_key ks with Some k => negb (Compare ucmp (user_key x.1) k =? 0) | None => true end in
  ((if first then kMaxSequenceNumber else last_sequence_for_key ks) <=? smallest) = hidden (ucmp := ucmp) smallest (take i vs) x /\
  exists k, (if first then Some (user_key x.1) else current_user_key ks) = Some k /\ ok k /\ Compare ucmp (user_key x.1) k = 0.
Proof.
  intros Ex Hks. pose proof (at_ok _ _ Ex) as Ox. pose proof (cmp_refl (cmp := Compare ucmp) _ Ox) as Hr. assert (Hmax : (kMaxSequenceNumber <=? smallest) = false) by (apply Z.leb_gt; lia). destruct i as [|i].
  - assert (Hn : ks = KeyState_new) by done. rewrite Hn. cbn [KeyState_new current_user_key last_sequence_for_key]. split; [exact Hmax|]. by exists (user_key x.1).
  - destruct (lookup_lt_is_Some_2 vs i) as [y Ey]; [apply lookup_lt_Some in Ex; lia|]. rewrite (hidden_last i x y Ex Ey).
    unfold key_state in Hks. rewrite (take_S_r _ _ _ Ey), last_snoc in Hks. destruct Hks as (k & -> & Ok & Hk & ->). pose proof (at_ok _ _ Ey) as Oy. cbn zeta.
    assert (Heq : (Compare ucmp (user_key x.1) k =? 0) = (cmpu x y =? 0)).
    { clear Hsmall Hmax. pose proof (cmp_flip (cmp := Compare ucmp) _ _ Oy Ok) as F1. pose proof (cmp_flip (cmp := Compare ucmp) _ _ Ox Oy) as F2. pose proof (cmp_flip (cmp := Compare ucmp) _ _ Ox Ok) as F3.
      pose proof (cmp_le_trans (cmp := Compare ucmp) _ _ _ Ox Oy Ok) as T1. pose proof (cmp_le_trans (cmp := Compare ucmp) _ _ _ Ox Ok Oy) as T2.
      pose proof (cmp_le_trans (cmp := Compare ucmp) _ _ _ Oy Ok Ox) as T3. pose proof (cmp_le_trans (cmp := Compare ucmp) _ _ _ Ok Oy Ox) as T4.
      destruct (Z.eqb_spec (Compare ucmp (user_key x.1) k) 0), (Z.eqb_spec (cmpu x y) 0); [done|lia|lia|done]. }
    rewrite Heq. destruct (Z.eqb_spec (cmpu x y) 0) as [Hxy|Hxy]; cbn [negb andb].
    + split; [done|]. exists k. split; [done|]. split; [done|]. by apply Z.eqb_eq.
    + split; [done|]. by exists (user_key x.1).
Qed.

Lemma drop_entry_spec i x ks c : vs !! i = Some x -> key_state (take i vs) ks -> level_ c = level -> base_ready (ucmp := ucmp) (ok := ok) files_ (user_key x.1) c ->
  exists ks' c', drop_entry ucmp files_ smallest (version_entry x).1 ks c =
      (hidden (ucmp := ucmp) smallest (take i vs) x || obsolete (ucmp := ucmp) smallest deeper x, ks', c') /\
    key_state (take (S i) vs) ks' /\ c' = with_ptrs (level_ptrs_ c') c /\ base_ready (ucmp := ucmp) (ok := ok) files_ (user_key x.1) c'.
Proof.
  intros Ex Hks Hl Hb. destruct (key_state_spec i x ks Ex Hks) as (Hd & k & Hk & Ok & Hc). pose proof (vs_ok vs Hvs x (list_elem_of_lookup_2 _ _ _ Ex)) as [Ox Sx].
  unfold drop_entry. cbn [version_entry fst]. rewrite parse_internal by done. cbn [user_key LvFormat.sequence type]. rewrite Hd, Hk.
  assert (Hks' : key_state (take (S i) vs) {| current_user_key := Some k; last_sequence_for_key := seq_of x |}) by (rewrite (take_S_r _ _ _ Ex); by apply key_state_new).
  assert (Hid : c = with_ptrs (level_ptrs_ c) c) by by destruct c. destruct (hidden smallest (take i vs) x).
  { by exists {| current_user_key := Some k; last_sequence_for_key := seq_of x |}, c. }
  cbn [orb]. unfold obsolete. destruct (type x.1).
  - destruct (seq_of x <=? smallest).
    + destruct (IsBaseLevel_spec files_ _ c Ox Hb) as (c' & -> & Hb' & Hc'). rewrite Hl. cbn [andb]. rewrite bool_decide_eq_true_2 by done. cbn [andb].
      by exists {| current_user_key := Some k; last_sequence_for_key := seq_of x |}, c'.
    + rewrite andb_false_r. by exists {| current_user_key := Some k; last_sequence_for_key := seq_of x |}, c.
  - rewrite bool_decide_eq_false_2 by done. by exists {| current_user_key := Some k; last_sequence_for_key := seq_of x |}, c.
Qed.
End Dropping.

(** ** The tables written *)

Abbreviation entries := (list (Slice * Slice)).

(** What a sink of tables is doing: nothing, building the table of a number, with
    a builder that failed, or with a finished builder. *)
Inductive SinkState : Type := Closed | Building (n : Z) (l : entries) | Broken | Finished (n : Z) (l : entries).

(** [Sink b st tables]: the tables that are complete, by number. Every call
    returns; one that reports success has done its work, and none fails when the
    sink is [healthy]. *)
Class TableSinkLaws (B : Type) `{TableSink B} (cmp : Slice -> Slice -> Z) (healthy : Prop) (Sink : B -> SinkState -> list (Z * entries) -> Prop) : Prop := {
  ts_new b ts : Sink b Closed ts -> exists n b', tb_NewFileNumber b = Ret (n, b') /\ Sink b' Closed ts /\ n <> 0 /\ n ∉ map fst ts;
  ts_open b ts n : Sink b Closed ts -> n ∉ map fst ts ->
    exists s b', tb_Open n b = Ret (s, b') /\ (Status_ok s = true -> Sink b' (Building n []) ts) /\ (healthy -> Status_ok s = true);
  ts_entries b ts n l : Sink b (Building n l) ts -> tb_NumEntries b = Z.of_nat (length l);
  ts_add b ts n l k v : Sink b (Building n l) ts -> Forall (fun kv => cmp kv.1 k < 0) l ->
    exists b', tb_Add k v b = Ret (tt, b') /\ (Sink b' (Building n (l ++ [(k, v)])) ts \/ Sink b' Broken ts /\ ~ healthy);
  ts_add_broken b ts k v : Sink b Broken ts -> exists b', tb_Add k v b = Ret (tt, b') /\ Sink b' Broken ts;
  ts_finish b ts n l : Sink b (Building n l) ts ->
    exists s b', tb_Finish b = Ret (s, b') /\ (Status_ok s = true -> Sink b' (Finished n l) ts) /\ (healthy -> Status_ok s = true);
  ts_finish_broken b ts : Sink b Broken ts -> exists s b', tb_Finish b = Ret (s, b') /\ Status_ok s = false;
  ts_abandon b ts st : Sink b st ts -> st <> Closed -> exists b', tb_Abandon b = Ret (tt, b');
  ts_close b ts n l : Sink b (Finished n l) ts ->
    exists s b', tb_Close b = Ret (s, b') /\ (Status_ok s = true -> Sink b' Closed (ts ++ [(n, l)])) /\ (healthy -> Status_ok s = true);
  ts_usable b ts n l size : Sink b Closed ts -> (n, l) ∈ ts ->
    exists s b', tb_Usable n size b = Ret (s, b') /\ (Status_ok s = true -> Sink b' Closed ts) /\ (healthy -> Status_ok s = true)
}.

(** ** What the inputs give *)

(** An iterator over the entries [vs] that may fail to read some of them: from
    [SeekToFirst] on it gives [given], a part of them in the same order, and as
    [Iterator::status] documents, it has an error at the end unless it gave them all.
    It has none at all when the inputs are [intact]. *)
Class ScanLaws (I : Type) (vs given : list Entry) `{Iterator I} (intact : Prop) (At : I -> nat -> Prop) : Prop := {
  sc_part : given `sublist_of` vs;
  sc_bound it i : At it i -> (i <= length given)%nat;
  sc_valid it i : At it i -> iter_Valid it = bool_decide (i < length given)%nat;
  sc_key it i x : At it i -> given !! i = Some x -> iter_key it = Ret ((version_entry x).1, it);
  sc_value it i x : At it i -> given !! i = Some x -> iter_value it = Ret ((version_entry x).2, it);
  sc_first it i : At it i -> exists it', iter_SeekToFirst it = Ret (tt, it') /\ At it' O;
  sc_next it i : At it i -> (i < length given)%nat -> exists it', iter_Next it = Ret (tt, it') /\ At it' (S i);
  sc_end it : At it (length given) -> Status_ok (iter_status it) = true -> given = vs;
  sc_intact it i : intact -> At it i -> Status_ok (iter_status it) = true
}.

Lemma sublist_all (P : Entry -> Prop) l1 l2 : l1 `sublist_of` l2 -> Forall P l2 -> Forall P l1.
Proof. induction 1; [done|intros [? ?]%Forall_cons; constructor; auto|intros [? ?]%Forall_cons; auto]. Qed.

Lemma sublist_sorted (R : Entry -> Entry -> Prop) l1 l2 : l1 `sublist_of` l2 -> StronglySorted R l2 -> StronglySorted R l1.
Proof.
  induction 1 as [|x l1 l2 Hs IH|x l1 l2 Hs IH]; [done| |]; intros [HS Hx]%StronglySorted_inv; [|auto].
  constructor; [auto|]. by apply (sublist_all _ _ l2).
Qed.

(** An iterator without errors gives all. *)
#[export] Instance scan_all I (cmp : Slice -> Slice -> Z) ok vs `{Iterator I} At : IteratorLaws I cmp ok (map version_entry vs) At -> ScanLaws I vs vs True At | 10.
Proof.
  intros L. assert (Hx : forall i x, vs !! i = Some x -> map version_entry vs !! i = Some ((version_entry x).1, (version_entry x).2)).
  { intros i x Ex. by rewrite list_lookup_fmap, Ex. }
  split.
  - done.
  - intros it i HA. rewrite <- (length_map version_entry vs). by apply (it_bound it).
  - intros it i HA. rewrite <- (length_map version_entry vs). by apply it_valid.
  - intros it i x HA Ex. by apply (it_key it i _ _ HA (Hx i x Ex)).
  - intros it i x HA Ex. by apply (it_value it i _ _ HA (Hx i x Ex)).
  - apply it_first.
  - intros it i HA Hi. apply (it_next it i HA). by rewrite length_map.
  - done.
  - intros it i _ HA. by rewrite (it_status it i HA).
Qed.

(** ** What the loop does *)

(** A output is recorded with the first and the last key of its table. *)
Definition recorded (o : Output) (t : Z * entries) : Prop :=
  out_number o = t.1 /\ fst <$> head t.2 = Some (out_smallest o) /\ fst <$> last t.2 = Some (out_largest o).

Section Loop.
Context {I B : Type} {II : Iterator I} {TS : TableSink B} {ucmp : Comparator} {ok : Slice -> Prop} {UL : ComparatorLaws ucmp ok}.
Context (options_ : Options) (files_ : list (list File)) (shutting_down : nat -> bool) (smallest level : Z) (Hsmall : smallest < kMaxSequenceNumber).
Context (vs : list Entry) (Hvs : Forall (version_ok (ok := ok)) vs) (HS : StronglySorted (written_order (ucmp := ucmp)) vs).
Context (all : list Entry) (intact : Prop) {At : I -> nat -> Prop} {IL : ScanLaws I all vs intact At}.
Context (healthy : Prop) (Sink : B -> SinkState -> list (Z * entries) -> Prop) {SL : TableSinkLaws B (InternalKey_Compare ucmp) healthy Sink}.
Context (before : list (Z * entries)).
Abbreviation W := (Work (I := I) (B := B)).
Abbreviation deeper := (concat (drop (Z.to_nat (level + 2)) files_)).
Abbreviation fine := (healthy /\ intact).
Implicit Types (w : W) (x y : Entry) (kept : list Entry) (b : B).

(** What stays the same while tables are written. *)
Definition same_input w w' : Prop :=
  wk_input w' = wk_input w /\ compaction (wk_state w') = compaction (wk_state w) /\ smallest_snapshot (wk_state w') = smallest_snapshot (wk_state w).

Lemma same_input_trans w1 w2 w3 : same_input w1 w2 -> same_input w2 w3 -> same_input w1 w3.
Proof. intros (? & ? & ?) (? & ? & ?). split_and!; congruence. Qed.

(** The tables of the outputs, when none is open. *)
Definition closed_with (os : list Output) (ts : list (Z * entries)) kept w : Prop :=
  builder_open (wk_state w) = false /\ outputs (wk_state w) = os /\ Sink (wk_tables w) Closed (before ++ ts) /\
  Forall2 recorded os ts /\ concat (map snd ts) = map version_entry kept.

(** One is open: its table has entries, or its builder failed. *)
Definition open_with (os : list Output) (o : Output) (ts : list (Z * entries)) kept w : Prop :=
  builder_open (wk_state w) = true /\ outputs (wk_state w) = os ++ [o] /\ out_number o <> 0 /\ Forall2 recorded os ts /\
  ((exists l, Sink (wk_tables w) (Building (out_number o) l) (before ++ ts) /\ recorded o (out_number o, l) /\ concat (map snd ts) ++ l = map version_entry kept) \/
   Sink (wk_tables w) Broken (before ++ ts) /\ ~ healthy).

Definition Writing kept w : Prop := exists os ts, closed_with os ts kept w \/ exists o, open_with os o ts kept w.

Abbreviation work it b st := {| wk_input := it; wk_tables := b; wk_state := st |}.

Lemma on_tables_eq {A} (c : M B A) (it : I) b st a b' : c b = Ret (a, b') -> on_tables c (work it b st) = Ret (a, work it b' st).
Proof. intros E. unfold on_tables. cbn [wk_tables]. by rewrite E. Qed.

Lemma on_input_eq {A} (c : M I A) it (b : B) st a it' : c it = Ret (a, it') -> on_input c (work it b st) = Ret (a, work it' b st).
Proof. intros E. unfold on_input. cbn [wk_input]. by rewrite E. Qed.

Lemma set_current_eq (f : Output -> Output) (it : I) b st os o : outputs st = os ++ [o] ->
  set_current f (work it b st) = Ret (tt, work it b (with_outputs (os ++ [f o]) (builder_open st) (total_bytes st) (pending_outputs_ st) st)).
Proof. intros E. unfold set_current, bind, get, need, change_current, ret, change_state. cbn [wk_state]. by rewrite E, last_snoc, removelast_last. Qed.

Lemma abandon_eq (it : I) (s : Status) b st b' : tb_Abandon b = Ret (tt, b') -> (on_tables tb_Abandon ;;; ret s : M W Status) (work it b st) = Ret (s, work it b' st).
Proof. intros E. by rewrite (bind_eq _ _ _ _ _ (on_tables_eq _ _ _ _ _ _ E)). Qed.

(** A table is finished: with success it is complete. *)
Lemma FinishOutput_spec i os o ts kept w : At (wk_input w) i -> open_with os o ts kept w ->
  exists s w', FinishCompactionOutputFile w = Ret (s, w') /\ same_input w w' /\ (fine -> Status_ok s = true) /\
    (Status_ok s = true -> exists os' ts', closed_with os' ts' kept w').
Proof.
  intros HA (Hopen & Hos & Hn & Hrec & Hsink). unfold FinishCompactionOutputFile. unfold bind at 1, get at 1. rewrite Hopen. cbn [negb].
  rewrite Hos, last_snoc. cbn [need]. unfold bind at 1, ret at 1. destruct (Z.eqb_spec (out_number o) 0) as [|_]; [done|]. cbv zeta.
  destruct w as [it b st]. cbn [wk_input wk_tables wk_state] in *. destruct (Status_ok (iter_status it)) eqn:Eit.
  2:{ assert (Hab : exists b1, tb_Abandon b = Ret (tt, b1)) by (destruct Hsink as [(l & Hb & _)|[Hb _]]; by apply (ts_abandon _ _ _ Hb)). destruct Hab as (b1 & E1).
    rewrite (bind_eq _ _ _ _ _ (abandon_eq _ (iter_status it) _ _ _ E1)). unfold bind at 1, get at 1.
    rewrite (bind_eq _ _ _ _ _ (set_current_eq _ _ _ _ _ _ Hos)). unfold bind at 1, change_state at 1. rewrite Eit. unfold bind at 1, ret at 1. rewrite Eit. cbn [andb].
    eexists _, _. split; [reflexivity|]. split; [done|]. rewrite Eit. split; [|done]. intros [_ Hi]. by rewrite (sc_intact it i Hi HA) in Eit. }
  destruct Hsink as [(l & Hb & Hro & Hl)|[Hb Hh]].
  - destruct (ts_finish _ _ _ _ Hb) as (s & b1 & E1 & Hs & Hhs). rewrite (bind_eq _ _ _ _ _ (on_tables_eq _ _ _ _ _ _ E1)). cbn [wk_input wk_tables wk_state].
    unfold bind at 1, get at 1. rewrite (bind_eq _ _ _ _ _ (set_current_eq _ _ _ _ _ _ Hos)). unfold bind at 1, change_state at 1. cbn [wk_input wk_tables wk_state].
    destruct (Status_ok s) eqn:Es; cbn [andb].
    + specialize (Hs eq_refl). destruct (ts_close _ _ _ _ Hs) as (s2 & b2 & E2 & Hs2 & Hhs2). rewrite (bind_eq _ _ _ _ _ (on_tables_eq _ _ _ _ _ _ E2)). cbn [wk_input wk_tables wk_state].
      assert (Hdone : forall b', Sink b' Closed ((before ++ ts) ++ [(out_number o, l)]) -> closed_with
         (os ++ [{| out_number := out_number o; out_file_size := tb_FileSize b1; out_smallest := out_smallest o; out_largest := out_largest o |}]) (ts ++ [(out_number o, l)]) kept
         {| wk_input := it; wk_tables := b'; wk_state := with_outputs (outputs (with_outputs (os ++ [{| out_number := out_number o; out_file_size := tb_FileSize b1; out_smallest := out_smallest o; out_largest := out_largest o |}]) (builder_open st) (total_bytes st) (pending_outputs_ st) st))
            false (u64 (total_bytes st + tb_FileSize b1)) (pending_outputs_ st) (with_outputs (os ++ [{| out_number := out_number o; out_file_size := tb_FileSize b1; out_smallest := out_smallest o; out_largest := out_largest o |}]) (builder_open st) (total_bytes st) (pending_outputs_ st) st) |}).
      { intros b' Hb'. split; [done|]. split; [done|]. split; [by rewrite app_assoc|]. split; [apply Forall2_app; [done|]; by constructor|].
        rewrite map_app, concat_app. cbn [map concat snd]. by rewrite app_nil_r. }
      destruct (Status_ok s2) eqn:Es2; cbn [andb]; [destruct (tb_NumEntries b >? 0)|].
      * destruct (ts_usable b2 _ (out_number o) l (tb_FileSize b1) (Hs2 eq_refl)) as (s3 & b3 & E3 & Hs3 & Hhs3); [apply elem_of_app; right; by left|].
        rewrite (on_tables_eq _ _ _ _ _ _ E3). eexists _, _. split; [reflexivity|]. split; [done|]. split; [intros [? _]; auto|]. intros H3. eexists _, _. apply Hdone, Hs3, H3.
      * eexists _, _. split; [reflexivity|]. split; [done|]. split; [done|]. intros _. eexists _, _. apply Hdone. by apply Hs2.
      * eexists _, _. split; [reflexivity|]. split; [done|]. rewrite Es2. split; [|done]. intros [Hh _]. by apply Hhs2.
    + unfold bind at 1, ret at 1. rewrite Es. cbn [andb]. eexists _, _. split; [reflexivity|]. split; [done|]. rewrite Es. split; [|done]. intros [Hh _]. by apply Hhs.
  - destruct (ts_finish_broken _ _ Hb) as (s & b1 & E1 & Hs). rewrite (bind_eq _ _ _ _ _ (on_tables_eq _ _ _ _ _ _ E1)). cbn [wk_input wk_tables wk_state].
    unfold bind at 1, get at 1. rewrite (bind_eq _ _ _ _ _ (set_current_eq _ _ _ _ _ _ Hos)). unfold bind at 1, change_state at 1. rewrite Hs. cbn [andb].
    unfold bind at 1, ret at 1. rewrite Hs. cbn [andb]. eexists _, _. split; [reflexivity|]. split; [done|]. rewrite Hs. split; [|done]. by intros [? _].
Qed.

(** A table that an entry can be added to; it may be empty. *)
Definition ready_with (os : list Output) (o : Output) (ts : list (Z * entries)) kept w : Prop :=
  builder_open (wk_state w) = true /\ outputs (wk_state w) = os ++ [o] /\ out_number o <> 0 /\ Forall2 recorded os ts /\
  ((exists l, Sink (wk_tables w) (Building (out_number o) l) (before ++ ts) /\ (l <> [] -> recorded o (out_number o, l)) /\ concat (map snd ts) ++ l = map version_entry kept) \/
   Sink (wk_tables w) Broken (before ++ ts) /\ ~ healthy).

Lemma open_ready os o ts kept w : open_with os o ts kept w -> ready_with os o ts kept w.
Proof. intros (? & ? & ? & ? & [(l & ? & ? & ?)|?]); (split_and!; [done..|]); [left; by exists l|by right]. Qed.

Lemma OpenOutput_spec os ts kept w : closed_with os ts kept w ->
  exists s w', OpenCompactionOutputFile w = Ret (s, w') /\ same_input w w' /\ (fine -> Status_ok s = true) /\
    (Status_ok s = true -> exists o, ready_with os o ts kept w').
Proof.
  destruct w as [it b st]. intros (Hopen & Hos & Hb & Hrec & Hc). cbn [wk_input wk_tables wk_state] in *. unfold OpenCompactionOutputFile.
  unfold bind at 1, get at 1. cbn [wk_state]. rewrite Hopen. destruct (ts_new _ _ Hb) as (n & b1 & E1 & Hb1 & Hn & Hfresh).
  rewrite (bind_eq _ _ _ _ _ (on_tables_eq _ _ _ _ _ _ E1)). unfold bind at 1, change_state at 1. cbn [wk_input wk_tables wk_state].
  destruct (ts_open _ _ _ Hb1 Hfresh) as (s & b2 & E2 & Hs & Hh). rewrite (bind_eq _ _ _ _ _ (on_tables_eq _ _ _ _ _ _ E2)).
  set (o := {| out_number := n; out_file_size := 0; out_smallest := []; out_largest := [] |}).
  destruct (Status_ok s) eqn:Es; unfold bind, change_state, ret; eexists _, _; (split; [reflexivity|]); (split; [done|]); rewrite Es; (split; [first [done|intros [? _]; by apply Hh]|]); [|done].
  intros _. exists o. split; [done|]. split; [cbn; by rewrite Hos|]. split; [done|]. split; [done|]. left. exists []. split; [by apply Hs|]. split; [done|]. by rewrite app_nil_r.
Qed.

Lemma recorded_snoc o n l k v (E : out_number o = n) : (l <> [] -> recorded o (n, l)) ->
  recorded (with_largest k (if Z.of_nat (length l) =? 0 then with_smallest k o else o)) (n, l ++ [(k, v)]).
Proof.
  intros Hr. destruct l as [|kv l]; cbn [length Z.of_nat Z.eqb app]; [by subst|]. destruct Hr as (Hn & Hf & Hl); [done|].
  split; [done|]. split; [done|]. cbn [snd]. change (kv :: l ++ [(k, v)]) with ((kv :: l) ++ [(k, v)]). by rewrite last_snoc.
Qed.

Lemma add_spec os o ts kept w x : ready_with os o ts kept w -> Forall (fun y => InternalKey_Compare ucmp (version_entry y).1 (version_entry x).1 < 0) kept ->
  exists w' o', add_entry (version_entry x).1 (version_entry x).2 w = Ret (tt, w') /\ same_input w w' /\ open_with os o' ts (kept ++ [x]) w'.
Proof.
  destruct w as [it b st]. intros (Hopen & Hos & Hn & Hrec & Hb) Hlt. cbn [wk_input wk_tables wk_state] in *. unfold add_entry. unfold bind at 1, get at 1. cbn [wk_tables].
  set (o1 := if tb_NumEntries b =? 0 then with_smallest (version_entry x).1 o else o).
  assert (E0 : exists st', (if tb_NumEntries b =? 0 then set_current (with_smallest (version_entry x).1) else ret tt) (work it b st) = Ret (tt, work it b st') /\
     builder_open st' = true /\ outputs st' = os ++ [o1] /\ compaction st' = compaction st /\ smallest_snapshot st' = smallest_snapshot st).
  { unfold o1. destruct (tb_NumEntries b =? 0); [|by exists st]. rewrite (set_current_eq _ _ _ _ _ _ Hos). eexists. by split; [reflexivity|]. }
  destruct E0 as (st' & E0 & Ho' & Hos' & Hc' & Hs'). rewrite (bind_eq _ _ _ _ _ E0), (bind_eq _ _ _ _ _ (set_current_eq _ _ _ _ _ _ Hos')).
  assert (Hn1 : out_number (with_largest (version_entry x).1 o1) = out_number o) by (unfold o1; by destruct (tb_NumEntries b =? 0)).
  destruct Hb as [(l & Hb & Hr & Hl)|[Hb Hh]].
  - assert (Hltl : Forall (fun kv => InternalKey_Compare ucmp kv.1 (version_entry x).1 < 0) l).
    { apply Forall_forall. intros kv Hkv. assert (Hin : kv ∈ map version_entry kept) by (rewrite <- Hl; apply elem_of_app; by right).
      apply list_elem_of_In, in_map_iff in Hin as (y & <- & Hy%list_elem_of_In). rewrite Forall_forall in Hlt. by apply Hlt. }
    destruct (ts_add _ _ _ _ (version_entry x).1 (version_entry x).2 Hb Hltl) as (b' & E & Hb'). rewrite (on_tables_eq _ _ _ _ _ _ E).
    eexists _, _. split; [reflexivity|]. split; [split_and!; cbn; congruence|]. split; [done|]. split; [reflexivity|]. rewrite Hn1. split; [done|]. split; [done|].
    cbn [wk_tables]. destruct Hb' as [Hb'|Hb']; [left|by right]. exists (l ++ [((version_entry x).1, (version_entry x).2)]). split; [done|].
    split; [unfold o1; rewrite (ts_entries _ _ _ _ Hb); by apply recorded_snoc|]. rewrite map_app. cbn [map]. by rewrite <- Hl, app_assoc, <- surjective_pairing.
  - destruct (ts_add_broken _ _ (version_entry x).1 (version_entry x).2 Hb) as (b' & E & Hb'). rewrite (on_tables_eq _ _ _ _ _ _ E).
    eexists _, _. split; [reflexivity|]. split; [split_and!; cbn; congruence|]. split; [done|]. split; [reflexivity|]. rewrite Hn1. split; [done|]. split; [done|]. by right.
Qed.

(** The status of a step: nothing fails when the sink is healthy and the inputs intact. *)
Definition step_result (r : option Status) (Q : Prop) : Prop := match r with None => Q | Some s => Status_ok s = false /\ ~ fine end.

Lemma keep_spec i kept w x : At (wk_input w) i -> Writing kept w -> Forall (fun y => InternalKey_Compare ucmp (version_entry y).1 (version_entry x).1 < 0) kept ->
  exists r w', keep_entry (version_entry x).1 (version_entry x).2 w = Ret (r, w') /\ same_input w w' /\ step_result r (Writing (kept ++ [x]) w').
Proof.
  intros HA HW Hlt. unfold keep_entry. unfold bind at 1, get at 1.
  assert (E0 : exists s w1, (if builder_open (wk_state w) then ret Status_OK else OpenCompactionOutputFile) w = Ret (s, w1) /\ same_input w w1 /\ (fine -> Status_ok s = true) /\
    (Status_ok s = true -> exists os o ts, ready_with os o ts kept w1)).
  { destruct HW as (os & ts & [Hc|(o & Ho)]).
    - pose proof Hc as (-> & _). destruct (OpenOutput_spec _ _ _ _ Hc) as (s & w1 & E & Hs & Hh & Hr). exists s, w1. split_and!; [done..|]. intros Hok. destruct (Hr Hok) as (o & ?). by exists os, o, ts.
    - pose proof Ho as (-> & _). exists Status_OK, w. split_and!; [done..|]. intros _. exists os, o, ts. by apply open_ready. }
  destruct E0 as (s & w1 & E0 & Hs1 & Hh & Hr). rewrite (bind_eq _ _ _ _ _ E0). destruct (Status_ok s) eqn:Es; cbn [negb].
  - destruct (Hr eq_refl) as (os & o & ts & Hready). destruct (add_spec _ _ _ _ _ x Hready Hlt) as (w2 & o' & E2 & Hs2 & Ho2). rewrite (bind_eq _ _ _ _ _ E2). unfold bind at 1, get at 1.
    assert (Hs12 : same_input w w2) by by eapply same_input_trans. destruct (_ >=? _).
    + assert (HA2 : At (wk_input w2) i) by (destruct Hs12 as (-> & _); done). destruct (FinishOutput_spec i _ _ _ _ _ HA2 Ho2) as (s3 & w3 & E3 & Hs3 & Hh3 & Hc3).
      rewrite (bind_eq _ _ _ _ _ E3). eexists _, w3. split; [reflexivity|]. split; [by eapply same_input_trans|]. destruct (Status_ok s3) eqn:Es3; cbn [step_result].
      * destruct (Hc3 eq_refl) as (os' & ts' & ?). exists os', ts'. by left.
      * split; [done|]. intros H. by specialize (Hh3 H).
    + exists None, w2. split; [done|]. split; [done|]. exists os, ts. right. by exists o'.
  - exists (Some s), w1. split; [done|]. split; [done|]. split; [done|]. intros H. by specialize (Hh H).
Qed.

(** *** The loop *)

Abbreviation kept_to i := (kept_after (ucmp := ucmp) smallest deeper [] (take i vs)).

Lemma Writing_same kept w w' : wk_tables w' = wk_tables w -> outputs (wk_state w') = outputs (wk_state w) -> builder_open (wk_state w') = builder_open (wk_state w) -> Writing kept w -> Writing kept w'.
Proof. intros E1 E2 E3. unfold Writing, closed_with, open_with. by rewrite E1, E2, E3. Qed.

Lemma ShouldStop_spec key c : exists stop c', ShouldStopBefore ucmp options_ key c = (stop, c') /\ level_ c' = level_ c /\ level_ptrs_ c' = level_ptrs_ c.
Proof. unfold ShouldStopBefore. destruct (pass_grandparents _ _ _ _ _ _). by eexists _, _. Qed.

Lemma base_ready_same u c c' : level_ c' = level_ c -> level_ptrs_ c' = level_ptrs_ c -> base_ready (ucmp := ucmp) (ok := ok) files_ u c -> base_ready (ucmp := ucmp) (ok := ok) files_ u c'.
Proof. intros E1 E2. unfold base_ready. by rewrite E1, E2. Qed.

(** No key from [i] on is before what was asked of the deeper levels. *)
Definition bases (i : nat) (c : Compaction) : Prop :=
  level_ c = level /\ forall j x, (i <= j)%nat -> vs !! j = Some x -> base_ready (ucmp := ucmp) (ok := ok) files_ (user_key x.1) c.

Record LoopInv (i : nat) (ks : KeyState) w : Prop := {
  li_at : At (wk_input w) i;
  li_key : key_state (ucmp := ucmp) (ok := ok) (take i vs) ks;
  li_small : smallest_snapshot (wk_state w) = smallest;
  li_bases : bases i (compaction (wk_state w));
  li_writing : Writing (kept_to i) w
}.

Lemma kept_before i x : vs !! i = Some x -> Forall (fun y => InternalKey_Compare ucmp (version_entry y).1 (version_entry x).1 < 0) (kept_to i).
Proof.
  intros Ex. apply Forall_forall. intros y (j & [Ey Hj]%lookup_take_Some & _)%kept_in.
  pose proof (vs_order vs HS j i y x Hj Ey Ex) as Ho. pose proof (vs_ok vs Hvs _ (list_elem_of_lookup_2 _ _ _ Ex)) as [_ Sx]. pose proof (vs_ok vs Hvs _ (list_elem_of_lookup_2 _ _ _ Ey)) as [_ Sy].
  change (Compare (InternalKeyComparator ucmp) (version_entry y).1 (version_entry x).1 < 0). cbn [version_entry fst]. rewrite (internal_key_compare (ucmp := ucmp)) by done. destruct Ho as [Ho|[Ho Hs]]; [destruct (Z.eqb_spec (Compare ucmp (user_key y.1) (user_key x.1)) 0); lia|].
  rewrite Ho. cbn [Z.eqb]. destruct (type x.1), (type y.1); cbn [ValueType_val]; lia.
Qed.

Lemma bases_later i x c c' : vs !! i = Some x -> bases i c -> level_ c' = level -> base_ready (ucmp := ucmp) (ok := ok) files_ (user_key x.1) c' -> bases (S i) c'.
Proof.
  intros Ex _ Hl Hb. split; [done|]. intros j y Hj Ey. apply (base_later files_ (user_key x.1)); [by eapply (at_ok vs Hvs)|by eapply (at_ok vs Hvs)| |done].
  destruct (vs_order vs HS i j x y ltac:(lia) Ex Ey) as [?|[? _]]; lia.
Qed.

(** The table is finished when the compaction should stop before the key. *)
Lemma stop_spec i kept w (stop : bool) : At (wk_input w) i -> Writing kept w ->
  exists s w', (if stop && builder_open (wk_state w) then FinishCompactionOutputFile else ret Status_OK) w = Ret (s, w') /\ same_input w w' /\
    (fine -> Status_ok s = true) /\ (Status_ok s = true -> Writing kept w').
Proof.
  intros HA HW. destruct stop; [|by exists Status_OK, w]. cbn [andb]. pose proof HW as (os & ts & [Hc|(o & Ho)]).
  - pose proof Hc as (-> & _). by exists Status_OK, w.
  - pose proof Ho as (-> & _). destruct (FinishOutput_spec i _ _ _ _ _ HA Ho) as (s & w' & E & Hs & Hh & Hc). exists s, w'. split_and!; [done..|].
    intros Hok. destruct (Hc Hok) as (os' & ts' & ?). exists os', ts'. by left.
Qed.

Definition loop_result (st : Status) w : Prop :=
  if Status_ok st then exists i, At (wk_input w) i /\ Writing (kept_to i) w /\ ((length vs <= i)%nat \/ exists n, shutting_down n = true)
  else ~ fine.

Lemma next_inv i x ks w it : vs !! i = Some x -> At it (S i) -> key_state (ucmp := ucmp) (ok := ok) (take (S i) vs) ks -> smallest_snapshot (wk_state w) = smallest ->
  bases (S i) (compaction (wk_state w)) ->
  Writing (kept_to i ++ (if hidden (ucmp := ucmp) smallest (take i vs) x || obsolete (ucmp := ucmp) smallest deeper x then [] else [x])) w ->
  LoopInv (S i) ks (work it (wk_tables w) (wk_state w)).
Proof.
  intros Ex HA Hk Hs Hb HW. constructor; [done..|]. rewrite (take_S_r _ _ _ Ex), kept_snoc. cbn [app]. by apply (Writing_same _ w).
Qed.

Lemma work_loop_spec fuel : forall i ks w, LoopInv i ks w -> (length vs - i < fuel)%nat ->
  exists st w', work_loop ucmp options_ files_ shutting_down fuel ks w = Ret (st, w') /\ loop_result st w'.
Proof.
  induction fuel as [|fuel IH]; intros i ks w HI Hf; [lia|]. destruct HI as [HA Hk Hsm Hb HW]. cbn [work_loop]. unfold bind at 1, get at 1.
  rewrite (sc_valid _ _ HA). case_bool_decide as Hi; cbn [andb]; [|exists Status_OK, w; split; [done|]; exists i; split_and!; [done..|left; lia]].
  destruct (shutting_down fuel) eqn:Esd; cbn [negb]; [exists Status_OK, w; split; [done|]; exists i; split_and!; [done..|right; by exists fuel]|].
  destruct (lookup_lt_is_Some_2 vs i Hi) as [x Ex]. destruct w as [it b st]. cbn [wk_input wk_tables wk_state] in *.
  rewrite (bind_eq _ _ _ _ _ (on_input_eq _ _ _ _ _ _ (sc_key _ _ _ HA Ex))).
  destruct (ShouldStop_spec (version_entry x).1 (compaction st)) as (stop & c1 & Es & Hl1 & Hp1). rewrite Es. unfold bind at 1, change_state at 1. cbn [wk_input wk_tables wk_state].
  set (w1 := work it b (with_compaction c1 st)). assert (HW1 : Writing (kept_to i) w1) by (by apply (Writing_same _ (work it b st))).
  destruct (stop_spec i _ w1 stop HA HW1) as (s & w2 & E2 & Hs2 & Hh2 & HW2). change (builder_open st) with (builder_open (wk_state w1)).
  rewrite (bind_eq _ _ _ _ _ E2). destruct (Status_ok s) eqn:Eok; cbn [negb]; [|exists s, w2; split; [done|]; unfold loop_result; rewrite Eok; intros H; by specialize (Hh2 H)].
  specialize (HW2 eq_refl). unfold bind at 1, get at 1. destruct Hs2 as (Hin & Hc2 & Hsm2). rewrite Hsm2, Hc2. cbn [w1 wk_state smallest_snapshot compaction with_compaction]. rewrite Hsm.
  destruct Hb as [Hlev Hb].
  destruct (drop_entry_spec files_ smallest level Hsmall vs Hvs HS i x ks c1 Ex Hk ltac:(congruence) (base_ready_same _ _ _ Hl1 Hp1 (Hb i x (le_n i) Ex))) as (ks' & c3 & -> & Hk' & Hc3 & Hb3).
  unfold bind at 1, change_state at 1. destruct w2 as [it2 b2 st2]. cbn [wk_input wk_tables wk_state w1] in *. subst it2.
  set (w3 := work it b2 (with_compaction c3 st2)). assert (HW3 : Writing (kept_to i) w3) by (by apply (Writing_same _ (work it b2 st2))).
  assert (Hb3' : bases (S i) c3) by (apply (bases_later i x (compaction st)); [done|by split|rewrite Hc3; cbn [level_ with_ptrs]; congruence|done]).
  assert (Hnext : forall w, same_input w3 w -> Writing (kept_to i ++ (if hidden (ucmp := ucmp) smallest (take i vs) x || obsolete (ucmp := ucmp) smallest deeper x then [] else [x])) w ->
    exists st' w', (on_input iter_Next ;;; work_loop ucmp options_ files_ shutting_down fuel ks') w = Ret (st', w') /\ loop_result st' w').
  { intros [it' b' st'] (Hi' & Hc' & Hs') HW'. cbn [wk_input wk_state w3] in Hi', Hc', Hs'. subst it'.
    destruct (sc_next it i HA Hi) as (it4 & E4 & HA4). rewrite (bind_eq _ _ _ _ _ (on_input_eq _ _ _ _ _ _ E4)). apply (IH (S i)); [|lia].
    apply (next_inv i x ks' (work it b' st')); [done..|cbn [wk_state]; rewrite Hs'; cbn [smallest_snapshot with_compaction]; rewrite Hsm2; exact Hsm|cbn [wk_state]; by rewrite Hc'|done]. }
  destruct (hidden smallest (take i vs) x || obsolete smallest deeper x).
  - unfold bind at 1, ret at 1. apply Hnext; [done|]. by rewrite app_nil_r.
  - assert (HA3 : At (wk_input w3) i) by done. destruct (keep_spec i (kept_to i) w3 x HA3 HW3 (kept_before i x Ex)) as (r & w4 & E4 & Hs4 & Hr).
    assert (E5 : (let* value := on_input iter_value in keep_entry (version_entry x).1 value) w3 = Ret (r, w4)).
    { unfold w3. by rewrite (bind_eq _ _ _ _ _ (on_input_eq _ _ _ _ _ _ (sc_value _ _ _ HA Ex))). }
    rewrite (bind_eq _ _ _ _ _ E5). destruct r as [s4|]; cbn [step_result] in Hr; [|by apply Hnext].
    exists s4, w4. split; [done|]. destruct Hr as [Hr1 Hr2]. unfold loop_result. by rewrite Hr1.
Qed.

Lemma bases_start i c : length files_ = Z.to_nat kNumLevels -> Forall (user_sorted (ucmp := ucmp) (ok := ok)) (drop (Z.to_nat (level + 2)) files_) ->
  level_ c = level -> level_ptrs_ c = replicate (Z.to_nat kNumLevels) O -> bases i c.
Proof.
  intros Hlen Hfs Hl Hp. split; [done|]. intros j x _ Ex. unfold base_ready. rewrite Hl, Hp, length_replicate, <- Hlen. split; [done|]. split; [done|]. unfold ptrs_ok.
  rewrite drop_replicate, <- length_drop. clear. induction (drop _ files_) as [|f fs IH]; cbn [length replicate]; constructor; [|done]. by apply Forall_nil_2.
Qed.

Lemma DoWork_spec fuel it b c pending i : At it i -> Sink b Closed before -> bases O c -> (length vs < fuel)%nat ->
  (forall n m, (m <= n)%nat -> shutting_down n = true -> shutting_down m = true) ->
  exists st w', DoCompactionWork ucmp options_ files_ shutting_down fuel (work it b (CompactionState_new c smallest pending)) = Ret (st, w') /\
    (fine -> (forall n, shutting_down n = false) -> Status_ok st = true) /\
    (Status_ok st = true -> vs = all /\ exists os ts, closed_with os ts (kept_after (ucmp := ucmp) smallest deeper [] vs) w').
Proof.
  intros HA Hb Hc Hf Hmono. unfold DoCompactionWork. destruct (sc_first _ _ HA) as (it0 & E0 & H0). rewrite (bind_eq _ _ _ _ _ (on_input_eq _ _ _ _ _ _ E0)).
  set (w0 := work it0 b _). assert (HI : LoopInv O KeyState_new w0). { constructor; [done..|]. exists [], []. left. split; [done|]. split; [done|]. split; [cbn; by rewrite app_nil_r|]. by split. }
  destruct (work_loop_spec fuel O KeyState_new w0 HI ltac:(lia)) as (st & w1 & E1 & Hres). rewrite (bind_eq _ _ _ _ _ E1). unfold bind at 1, get at 1. unfold loop_result in Hres.
  destruct (Status_ok st) eqn:Est; cbn [andb].
  - destruct Hres as (i1 & HA1 & HW1 & Hend). destruct (shutting_down O) eqn:Esd.
    + change (Status_ok (Status_IOError _ _)) with false. cbn [andb]. unfold bind, ret, get. eexists _, _. split; [reflexivity|]. split; [|done]. intros _ H. by rewrite H in Esd.
    + assert (Hend1 : i1 = length vs).
      { pose proof (sc_bound _ _ HA1). destruct Hend as [?|[n Hn]]; [lia|]. assert (shutting_down O = true) by (apply (Hmono n); [lia|done]). congruence. }
      assert (Hk : kept_to i1 = kept_after (ucmp := ucmp) smallest deeper [] vs).
      { by rewrite take_ge by lia. }
      rewrite Hk in HW1. rewrite Est. cbn [andb]. destruct (stop_spec i1 _ w1 true HA1 HW1) as (s2 & w2 & E2 & (Hi2 & _) & Hh2 & HW2). pose proof HW1 as (os & ts & [Hcl|(o & Ho)]).
      * pose proof Hcl as (Eb & _). rewrite Eb. unfold bind, ret, get. rewrite Est. eexists _, _. split; [reflexivity|]. split; [intros [_ ?] _; by apply (sc_intact _ i1)|]. intros Hst. split; [by apply (sc_end (wk_input w1)); [rewrite <- Hend1|]|]. by exists os, ts.
      * pose proof Ho as (Eb & _). rewrite Eb. destruct (FinishOutput_spec i1 _ _ _ _ _ HA1 Ho) as (s3 & w3 & E3 & (Hi3 & _) & Hh3 & Hc3). rewrite (bind_eq _ _ _ _ _ E3). unfold bind, get, ret.
        rewrite Hi3. eexists _, _. split; [reflexivity|]. destruct (Status_ok s3) eqn:Es3; [|rewrite Es3; split; [|done]; intros H; by specialize (Hh3 H)].
        split; [intros [_ ?] _; by apply (sc_intact _ i1)|]. intros Hst. split; [by apply (sc_end (wk_input w1)); [rewrite <- Hend1|]|]. by apply Hc3.
  - rewrite Est. cbn [andb]. unfold bind, ret, get. rewrite Est. eexists _, _. split; [reflexivity|]. rewrite Est. split; [|done]. intros H. by destruct (Hres H).
Qed.
End Loop.

(** C5: compactions lose nothing: whatever the errors of the tables written and
    of the inputs read, the work of a compaction ends, and with success when there
    are none and the database is not shut down; it does not end with success when
    an error kept an entry of the inputs from it; after success its outputs, each
    recorded with its number and its first and last key, hold in order exactly the
    entries of the inputs that are not dropped; and a reader at the oldest snapshot
    or a later one gets for every key the same from them and from the inputs, in
    the company of any other entries that are newer than the inputs' or in the
    range of a file of a deeper level. *)
Theorem DoCompactionWork_keeps {I B} {II : Iterator I} {TS : TableSink B} ucmp ok {UL : ComparatorLaws ucmp ok} options_ files_ shutting_down smallest
    vs given intact At {IL : ScanLaws I vs given intact At}
    healthy Sink {SL : TableSinkLaws B (InternalKey_Compare ucmp) healthy Sink} before fuel it b c pending i :
  let deeper := concat (drop (Z.to_nat (level_ c + 2)) files_) in
  let kept := kept_after (ucmp := ucmp) smallest deeper [] vs in
  smallest < kMaxSequenceNumber -> Forall (version_ok (ok := ok)) vs -> StronglySorted (written_order (ucmp := ucmp)) vs ->
  At it i -> Sink b Closed before -> (length vs < fuel)%nat ->
  (forall n m, (m <= n)%nat -> shutting_down n = true -> shutting_down m = true) ->
  length files_ = Z.to_nat kNumLevels -> Forall (user_sorted (ucmp := ucmp) (ok := ok)) (drop (Z.to_nat (level_ c + 2)) files_) ->
  level_ptrs_ c = replicate (Z.to_nat kNumLevels) O ->
  exists st w', DoCompactionWork ucmp options_ files_ shutting_down fuel
      {| wk_input := it; wk_tables := b; wk_state := CompactionState_new c smallest pending |} = Ret (st, w') /\
    (healthy -> intact -> (forall n, shutting_down n = false) -> Status_ok st = true) /\
    (Status_ok st = true -> given = vs /\ exists tables, Sink (wk_tables w') Closed (before ++ tables) /\
      Forall2 recorded (outputs (wk_state w')) tables /\ concat (map snd tables) = map version_entry kept) /\
    forall u s rest r, ok u -> smallest <= s ->
      (forall y, y ∈ rest -> version_ok (ok := ok) y /\ ((exists f, f ∈ deeper /\ covers (ucmp := ucmp) (user_key y.1) f = true) \/
         forall x, x ∈ vs -> Compare ucmp (user_key x.1) (user_key y.1) = 0 -> seq_of x < seq_of y)) ->
      reads (ucmp := ucmp) u s (rest ++ kept) r <-> reads (ucmp := ucmp) u s (rest ++ vs) r.
Proof.
  intros deeper kept Hsmall Hvs HS HA Hb Hf Hmono Hlen Hfs Hp.
  assert (Hc : bases (ucmp := ucmp) (ok := ok) files_ (level_ c) given O c) by (by apply bases_start).
  destruct (DoWork_spec (UL := UL) options_ files_ shutting_down smallest (level_ c) Hsmall given (sublist_all _ _ _ (sc_part (At := At)) Hvs) (sublist_sorted _ _ _ (sc_part (At := At)) HS)
    vs intact healthy Sink before fuel it b c pending i HA Hb Hc (Nat.le_lt_trans _ _ _ (sublist_length _ _ (sc_part (At := At))) Hf) Hmono) as (st & w' & E & Hh & Hok).
  exists st, w'. split; [exact E|]. split; [tauto|]. split.
  - intros Hst. destruct (Hok Hst) as (-> & os & ts & (_ & <- & Ht & Hr & Hk)). split; [done|]. by exists ts.
  - intros u s rest r Hu Hs Hrest. apply (reads_kept smallest deeper vs rest Hvs HS Hrest); [|done..].
    apply Forall_concat. apply (Forall_impl _ _ _ Hfs). intros files [Hfiles _]. apply (Forall_impl _ _ _ Hfiles). tauto.
Qed.

(** ** A sink in memory *)

Record ListSink : Type := { next_number : Z; being_built : option (Z * entries); built : list (Z * entries) }.

Definition list_sink : TableSink ListSink := {|
  tb_NewFileNumber := fun b => Ret (next_number b, {| next_number := next_number b + 1; being_built := being_built b; built := built b |});
  tb_Open := fun n b => Ret (Status_OK, {| next_number := Z.max (next_number b) (n + 1); being_built := Some (n, []); built := built b |});
  tb_Add := fun k v b => Ret (tt, {| next_number := next_number b; being_built := (fun t => (t.1, t.2 ++ [(k, v)])) <$> being_built b; built := built b |});
  tb_NumEntries := fun b => match being_built b with Some (_, l) => Z.of_nat (length l) | None => 0 end;
  tb_FileSize := fun b => match being_built b with Some (_, l) => 10 * Z.of_nat (length l) | None => 0 end;
  tb_Finish := ret Status_OK;
  tb_Abandon := ret tt;
  tb_Close := fun b => Ret (Status_OK, {| next_number := next_number b; being_built := None; built := built b ++ option_list (being_built b) |});
  tb_Usable := fun _ _ => ret Status_OK
|}.

Definition in_list (b : ListSink) (st : SinkState) (ts : list (Z * entries)) : Prop :=
  0 < next_number b /\ built b = ts /\ Forall (fun n => n < next_number b) (map fst ts) /\
  match st with
  | Closed => being_built b = None
  | Building n l | Finished n l => being_built b = Some (n, l) /\ n < next_number b
  | Broken => False
  end.

Lemma list_sink_laws cmp : TableSinkLaws (H := list_sink) ListSink cmp True in_list.
Proof.
  split; unfold in_list; cbn [list_sink tb_NewFileNumber tb_Open tb_NumEntries tb_Add tb_Finish tb_Close tb_Usable].
  - intros b ts (Hp & Hb & Hn & Hc). eexists _, _. split; [reflexivity|]. cbn [next_number being_built built]. split_and!; [lia|done| |done|lia|].
    + apply (Forall_impl _ _ _ Hn). lia.
    + intros Hin. rewrite Forall_forall in Hn. specialize (Hn _ Hin). lia.
  - intros b ts n (Hp & Hb & Hn & Hc) _. eexists _, _. split; [reflexivity|]. cbn [next_number being_built built]. split; [|done]. intros _. split_and!; [lia|done| |done|lia].
    apply (Forall_impl _ _ _ Hn). lia.
  - intros b ts n l (Hp & Hb & Hn & Hc & _). by rewrite Hc.
  - intros b ts n l k v (Hp & Hb & Hn & Hc & Hl) _. eexists. split; [reflexivity|]. left. cbn [next_number being_built built]. by rewrite Hc.
  - by intros b ts k v (_ & _ & _ & ?).
  - intros b ts n l H. by eexists _, _.
  - by intros b ts (_ & _ & _ & ?).
  - intros b ts st H _. by eexists.
  - intros b ts n l (Hp & Hb & Hn & Hc & Hl). eexists _, _. split; [reflexivity|]. split; [|done]. intros _. cbn [next_number being_built built]. rewrite Hc, Hb. split_and!; [done..| |done].
    rewrite map_app. apply Forall_app. split; [done|]. by constructor.
  - intros b ts n l size H _. by eexists _, _.
Qed.

(** ** Iterators over a list *)

(** A list as an iterator. *)
Definition list_iterator (kvs : entries) : Iterator nat := {|
  iter_Valid := fun i => bool_decide (i < length kvs)%nat;
  iter_SeekToFirst := fun _ => Ret (tt, O);
  iter_SeekToLast := fun _ => Ret (tt, (length kvs - 1)%nat);
  iter_Seek := fun target _ => Ret (tt, length (List.filter (fun kv => InternalKey_Compare BytewiseComparator kv.1 target <? 0) kvs));
  iter_Next := fun i => Ret (tt, S i);
  iter_Prev := fun i => Ret (tt, match i with O => length kvs | S j => j end);
  iter_key := fun i => match kvs !! i with Some kv => Ret (kv.1, i) | None => Undef end;
  iter_value := fun i => match kvs !! i with Some kv => Ret (kv.2, i) | None => Undef end;
  iter_status := fun _ => Status_OK
|}.

(** One that has a corruption after the last entry it gives. *)
Definition failing_iterator (kvs : entries) : Iterator nat := {|
  iter_Valid := @iter_Valid _ (list_iterator kvs);
  iter_SeekToFirst := @iter_SeekToFirst _ (list_iterator kvs);
  iter_SeekToLast := @iter_SeekToLast _ (list_iterator kvs);
  iter_Seek := @iter_Seek _ (list_iterator kvs);
  iter_Next := @iter_Next _ (list_iterator kvs);
  iter_Prev := @iter_Prev _ (list_iterator kvs);
  iter_key := @iter_key _ (list_iterator kvs);
  iter_value := @iter_value _ (list_iterator kvs);
  iter_status := fun i => if (i <? length kvs)%nat then Status_OK else Status_Corruption (chars "bad block") []
|}.

Lemma failing_laws vs given : given `sublist_of` vs ->
  ScanLaws (H := failing_iterator (map version_entry given)) nat vs given False (fun it i => it = i /\ (i <= length given)%nat).
Proof.
  intros Hg. assert (Hx : forall i x, given !! i = Some x -> map version_entry given !! i = Some (version_entry x)) by (intros i x Ex; by rewrite list_lookup_fmap, Ex).
  split; cbn [failing_iterator list_iterator iter_Valid iter_SeekToFirst iter_Next iter_key iter_value iter_status]; rewrite ?length_map.
  - done.
  - by intros it i [_ ?].
  - by intros it i [-> _].
  - intros it i x [-> _] Ex. by rewrite (Hx _ _ Ex).
  - intros it i x [-> _] Ex. by rewrite (Hx _ _ Ex).
  - intros it i _. exists O. repeat split. lia.
  - intros it i [-> _] Hi. exists (S i). repeat split. lia.
  - intros it [-> _]. by rewrite Nat.ltb_irrefl.
  - done.
Qed.

(** A compaction of level 1 with nothing below, and small tables. *)
Definition sample_compaction : Compaction := {|
  level_ := 1; max_output_file_size_ := 20; input_version_ := None; edit_ := VersionEdit_new; inputs_0 := []; inputs_1 := []; grandparents_ := [];
  grandparent_index_ := 0; seen_key_ := false; overlapped_bytes_ := 0; level_ptrs_ := replicate (Z.to_nat kNumLevels) O |}.

Lemma DoCompactionWork_keeps_witness :
  let _ := AnyIter_iterator (C := unit) (InternalKeyComparator BytewiseComparator) in
  (exists it st w', DoCompactionWork (I := AnyIter unit) (TS := list_sink) BytewiseComparator Options_new (replicate 7 []) (fun _ => false) 9
      {| wk_input := it; wk_tables := {| next_number := 2; being_built := None; built := [] |}; wk_state := CompactionState_new sample_compaction 5 ∅ |} = Ret (st, w') /\
    Status_ok st = true /\ concat (map snd (built (wk_tables w'))) = map version_entry [version "a" 5 kTypeValue "new"; version "c" 9 kTypeValue "later"; version "c" 1 kTypeValue "first"]) /\
  exists st w', DoCompactionWork (II := failing_iterator (map version_entry (take 2 sample_versions))) (TS := list_sink) BytewiseComparator Options_new (replicate 7 []) (fun _ => false) 9
      {| wk_input := O; wk_tables := {| next_number := 2; being_built := None; built := [] |}; wk_state := CompactionState_new sample_compaction 5 ∅ |} = Ret (st, w') /\
    Status_ok st = false.
Proof.
  assert (HS : StronglySorted (key_lt (InternalKeyComparator BytewiseComparator)) (map version_entry sample_versions)) by solve_sorted.
  assert (HK : Forall (fun kv => internal_ok is_bytes kv.1) (map version_entry sample_versions)).
  { repeat first [apply Forall_nil_2|apply Forall_cons_2]; cbn [fst version_entry]; apply internal_ok_key; cbn; solve_bytes. }
  destruct (build_block_spec 1 (InternalKeyComparator BytewiseComparator) (internal_ok is_bytes) _ ltac:(lia) HS HK ltac:(by vm_compute)) as (es & R & E & _ & _).
  destruct (NewIterator_at (C := unit) _ _ (build_is_block (InternalKeyComparator BytewiseComparator) 1 _ _ ltac:(lia) HS HK ltac:(by vm_compute) E)) as (it & En & HA & _).
  assert (HV : Forall (version_ok (ok := is_bytes)) sample_versions).
  { repeat first [apply Forall_nil_2|apply Forall_cons_2]; (split; [cbn; solve_bytes|split; vm_compute; discriminate]). }
  assert (HO : StronglySorted (written_order (ucmp := BytewiseComparator)) sample_versions).
  { repeat first [apply SSorted_nil|apply SSorted_cons|apply Forall_nil_2|apply Forall_cons_2];
      first [left; vm_compute; reflexivity|right; split; vm_compute; reflexivity]. }
  assert (HL : Forall (user_sorted (ucmp := BytewiseComparator) (ok := is_bytes)) (drop (Z.to_nat (level_ sample_compaction + 2)) (replicate 7 []))).
  { repeat apply Forall_cons_2; try apply Forall_nil_2; (split; [apply Forall_nil_2|apply SSorted_nil]). }
  assert (HB : in_list {| next_number := 2; being_built := None; built := [] |} Closed []) by (split_and!; [done..|by apply Forall_nil_2|done]).
  split.
  - destruct (DoCompactionWork_keeps (II := AnyIter_iterator (C := unit) (InternalKeyComparator BytewiseComparator)) (TS := list_sink) BytewiseComparator is_bytes Options_new (replicate 7 []) (fun _ => false) 5
      sample_versions sample_versions True (AnyAt (map version_entry sample_versions)) (IL := scan_all _ _ _ _ _ (AnyAt_laws (InternalKeyComparator BytewiseComparator) HK HS)) True in_list
      (SL := list_sink_laws _) [] 9 it {| next_number := 2; being_built := None; built := [] |} sample_compaction ∅ 6) as (st & w' & Ew & Hh & Hok & _);
      [by vm_compute|exact HV|exact HO|exact HA|exact HB|vm_compute; lia|done|done|exact HL|done|].
    exists it, st, w'. split; [exact Ew|]. assert (Hst : Status_ok st = true) by (by apply Hh). split; [exact Hst|].
    destruct (Hok Hst) as (_ & ts & (_ & Hb & _) & _ & Hk). rewrite Hb. cbn [app]. rewrite Hk. by vm_compute.
  - destruct (DoCompactionWork_keeps (II := failing_iterator (map version_entry (take 2 sample_versions))) (TS := list_sink) BytewiseComparator is_bytes Options_new (replicate 7 []) (fun _ => false) 5
      sample_versions (take 2 sample_versions) False _ (IL := failing_laws sample_versions _ (sublist_take _ _)) True in_list
      (SL := list_sink_laws _) [] 9 O {| next_number := 2; being_built := None; built := [] |} sample_compaction ∅ O) as (st & w' & Ew & _ & Hok & _);
      [by vm_compute|exact HV|exact HO|split; [done|lia]|exact HB|vm_compute; lia|done|done|exact HL|done|].
    exists st, w'. split; [exact Ew|]. apply not_true_iff_false. intros Hst. by destruct (Hok Hst) as [Hg _].
Defined.

(** ** A deletion that is dropped too early *)

(** Tables by number; 9 is the compaction's output. A snapshot between the two
    versions of the last key of table 2 once kept both, and the next table began
    with the older one. *)
Definition split_table (number : Z) : list Entry :=
  if number =? 1 then [version "b" 8 kTypeValue "new"]
  else if number =? 2 then [version "a" 3 kTypeValue "1"; version "k" 5 kTypeDeletion ""]
  else if number =? 3 then [version "k" 2 kTypeValue "old"; version "z" 1 kTypeValue "2"]
  else if number =? 9 then [version "a" 3 kTypeValue "1"; version "b" 8 kTypeValue "new"]
  else [].

Definition table_file (n : Z) (x y : Entry) : File :=
  {| f_ptr := Z.to_nat n; f_number := n; f_size := 100; f_smallest := (version_entry x).1; f_largest := (version_entry y).1 |}.
Definition file_b : File := table_file 1 (version "b" 8 kTypeValue "new") (version "b" 8 kTypeValue "new").
Definition file_ak : File := table_file 2 (version "a" 3 kTypeValue "1") (version "k" 5 kTypeDeletion "").
Definition file_kz : File := table_file 3 (version "k" 2 kTypeValue "old") (version "z" 1 kTypeValue "2").
Definition file_ab : File := table_file 9 (version "a" 3 kTypeValue "1") (version "b" 8 kTypeValue "new").

Definition levels_before : list (list File) := [[]; [file_b]; [file_ak; file_kz]; []; []; []; []].
Definition levels_after : list (list File) := [[]; []; [file_ab; file_kz]; []; []; []; []].
Definition read_key (files_ : list (list File)) (k : string) : outcome (Found * unit) :=
  Version_Get (TR := list_reader BytewiseComparator split_table) BytewiseComparator files_ (LookupKey_new (chars k) 9) tt.

Definition splitting_compaction : Compaction := with_inputs None [file_b] [file_ak] [] VersionEdit_new (Compaction_new Options_new 1).
Definition merged : entries := map version_entry [version "a" 3 kTypeValue "1"; version "b" 8 kTypeValue "new"; version "k" 5 kTypeDeletion ""].

Lemma levels_before_wf : levels_wf (ucmp := BytewiseComparator) (ok := is_bytes) levels_before.
Proof.
  split; [done|]. intros i all Ei. destruct i as [|[|[|[|[|[|[|i]]]]]]]; try (injection Ei as <-); [..|done];
    (split; [repeat first [apply Forall_nil_2|apply Forall_cons_2]; solve_file|intros _; split; [|by vm_compute]]);
    repeat first [apply SSorted_nil|apply SSorted_cons|apply Forall_nil_2|apply Forall_cons_2]; vm_compute; reflexivity.
Qed.

(** C39: a deleted key can come back: [SetupOtherInputs] adds boundary files to
    the inputs of the level but not to those of the next one, and
    [IsBaseLevelForKey] asks only the levels after that. When the versions of a
    key are split between two files of the next level, of which only the first is
    an input, a deletion at its end is dropped while the second file keeps what it
    deleted: the key is not found before the compaction, and found after. *)
Theorem deleted_key_returns :
  levels_wf (ucmp := BytewiseComparator) (ok := is_bytes) levels_before /\
  (exists largest, other_inputs BytewiseComparator Options_new levels_before 1 [file_b] = Some ([file_b], [file_ak], [], largest)) /\
  (exists w', DoCompactionWork (II := list_iterator merged) (TS := list_sink) BytewiseComparator Options_new levels_before (fun _ => false) 9
      {| wk_input := O; wk_tables := {| next_number := 9; being_built := None; built := [] |}; wk_state := CompactionState_new splitting_compaction 8 ∅ |} = Ret (Status_OK, w') /\
    built (wk_tables w') = [(9, map version_entry (split_table 9))]) /\
  (exists stats, read_key levels_before "k" = Ret ((Status_NotFound [] [], None, stats), tt)) /\
  exists stats, read_key levels_after "k" = Ret ((Status_OK, Some (chars "old"), stats), tt).
Proof.
  split; [exact levels_before_wf|split; [|split; [|split]]].
  - eexists. vm_compute. reflexivity.
  - eexists. split; vm_compute; reflexivity.
  - eexists. vm_compute. reflexivity.
  - eexists. vm_compute. reflexivity.
Qed.
