(* ===== verification/LvBuild.v ===== *)
(** From memtables to tables: the iterator of a memtable ([db/memtable.cc]),
    [BuildTable] ([db/builder.cc]) and [DBImpl::WriteLevel0Table]
    ([db/db_impl.cc]). The file that is built is read back through the table
    cache. *)

From stdpp Require Import base list gmap strings sorting.
From Stdlib Require Import ZArith Lia SpecFloat.
From S2P Require Import Prelude LvSlice LvCoding LvBloom LvFormat LvSkipList LvSkipListInv LvSkipListProps LvSkipListSpec LvMemTable LvWriteBatch LvEnv LvFilename LvIterator LvBlock LvBlockProps LvBlockIter LvFilterBlock LvTableFormat LvIterWrap LvOptions LvTableBuilder LvTableBuildProps LvCacheApi LvCache LvCacheSharded LvTable LvTableProps LvTableRoundtrip LvDbIter LvVersion LvVersionGet LvTableCache LvVersionSet LvVersionEdit.

(** * The iterator of a memtable *)

(** [iter_] of [MemTableIterator], with the memtable it is over. *)
Record MemIter : Type := { mi_mem : MemTable; mi_node : option nat }.

Section MemIter.
Context (ucmp : Comparator).

Definition mi_move (c : option nat -> M MemTable (option nat)) : M MemIter unit := fun it =>
  match c (mi_node it) (mi_mem it) with
  | Ret (n, m) => Ret (tt, {| mi_mem := m; mi_node := n |})
  | Undef => Undef
  | NoFuel => NoFuel
  end.

Definition mi_read {A} (c : option nat -> M MemTable A) : M MemIter A := fun it =>
  match c (mi_node it) (mi_mem it) with
  | Ret (a, m) => Ret (a, {| mi_mem := m; mi_node := mi_node it |})
  | Undef => Undef
  | NoFuel => NoFuel
  end.

#[export] Instance MemTableIterator : Iterator MemIter := {
  iter_Valid it := MemTableIterator_Valid (mi_node it);
  iter_SeekToFirst := mi_move (fun _ => MemTableIterator_SeekToFirst);
  iter_SeekToLast := mi_move (fun _ => MemTableIterator_SeekToLast);
  iter_Seek k := mi_move (fun _ => MemTableIterator_Seek ucmp k);
  iter_Next := mi_move MemTableIterator_Next;
  iter_Prev := mi_move (MemTableIterator_Prev ucmp);
  iter_key := mi_read MemTableIterator_key;
  iter_value := mi_read MemTableIterator_value;
  iter_status _ := Status_OK
}.

Definition MemTable_NewIterator (m : MemTable) : MemIter := {| mi_mem := m; mi_node := None |}.
End MemIter.

Section MemIterProps.
Context {ucmp : Comparator} {ok : Slice -> Prop} {L : ComparatorLaws ucmp ok}.
Abbreviation mtable := LvMemTable.table_.
Abbreviation icmp := (InternalKey_Compare ucmp).

(** What the iterator shows of an entry. *)
Definition entry_kv (e : LvMemTable.Entry) : Slice * Slice := (e_ikey e, e_value e).

(** Targets of [Seek]. *)
Definition target_ok (k : Slice) : Prop := internal_ok ok k /\ size k < 2 ^ 32.

Context (m : MemTable) (es : list LvMemTable.Entry).

(** The nodes of the skip list, in order. *)
Record NodesOf (nodes : list nat) : Prop := {
  no_length : length nodes = length es;
  no_key n x : nodes !! n = Some x -> exists e, es !! n = Some e /\ Iterator_key (Some x) (mtable m) = Ret (LvMemTable.encode e, mtable m);
  no_first : Iterator_SeekToFirst (mtable m) = Ret (nodes !! O, mtable m);
  no_last : Iterator_SeekToLast (mtable m) = Ret (last nodes, mtable m);
  no_next n x : nodes !! n = Some x -> Iterator_Next (Some x) (mtable m) = Ret (nodes !! S n, mtable m);
  no_prev n x : nodes !! n = Some x -> Iterator_Prev (KeyComparator ucmp) (Some x) (mtable m) = Ret (match n with O => None | S j => nodes !! j end, mtable m);
  no_seek target : target_ok target -> exists n, (n <= length es)%nat /\
    Iterator_Seek (KeyComparator ucmp) (EncodeKey target) (mtable m) = Ret (nodes !! n, mtable m) /\
    Forall (fun kv => icmp kv.1 target < 0) (take n (map entry_kv es)) /\ Forall (fun kv => 0 <= icmp kv.1 target) (drop n (map entry_kv es))
}.

Context (HM : LvMemTable.Holds (ucmp := ucmp) (ok := ok) m es).

Lemma EncodeKey_eq k : size k < 2 ^ 32 -> EncodeKey k = PutLengthPrefixedSlice [] k ++ [].
Proof. intros Hk. by rewrite app_nil_r. Qed.

Lemma compare_seek_target e target : LvMemTable.entry_valid (ok := ok) e -> target_ok target ->
  KeyComparator ucmp (LvMemTable.encode e) (EncodeKey target) = icmp (e_ikey e) target.
Proof.
  intros [Ho Hs Hk Hv] [Ht Hsz]. rewrite (EncodeKey_eq target Hsz), LvMemTable.encode_eq by done.
  rewrite KeyComparator_prefixed by (rewrite ?ikey_size; done). done.
Qed.

Lemma compare_targets (P : Z -> Prop) l target : Forall (LvMemTable.entry_valid (ok := ok)) l -> target_ok target ->
  Forall (fun y => P (KeyComparator ucmp y (EncodeKey target))) (map LvMemTable.encode l) -> Forall (fun kv => P (icmp kv.1 target)) (map entry_kv l).
Proof.
  intros Hv Ht HF. rewrite Forall_forall in Hv. rewrite Forall_forall in HF. apply Forall_forall. intros kv (e & -> & He)%list_elem_of_fmap.
  cbn [entry_kv fst]. rewrite <- (compare_seek_target e target (Hv e He) Ht). apply HF. by apply list_elem_of_fmap_2.
Qed.

Lemma entry_valid_at n e : es !! n = Some e -> LvMemTable.entry_valid (ok := ok) e.
Proof. intros He. destruct HM as [_ _ Hv]. rewrite Forall_forall in Hv. by eapply Hv, list_elem_of_lookup_2. Qed.

Lemma nodes_exist : exists nodes, NodesOf nodes.
Proof.
  destruct HM as [Hw Hc Hv]. destruct (SkipList_iterators (mtable m) Hw) as (l & Hl & Hkey & Hf & Hla & Hmove & Hseek & _).
  rewrite Hc in Hl, Hkey, Hseek. rewrite length_map in Hl. exists l. constructor; [done|..|done|done| | |].
  - intros n x Hx. destruct (Hkey n x Hx) as (key & Ek & E). rewrite list_lookup_fmap in Ek. apply fmap_Some in Ek as (e & He & ->). by exists e.
  - intros n x Hx. by apply (Hmove n x).
  - intros n x Hx. by apply (Hmove n x).
  - intros target Ht. destruct (Hseek (EncodeKey target)) as (n & Es & Hlo & Hhi).
    { exists target, []. destruct Ht. split; [by apply EncodeKey_eq|done]. }
    exists (Nat.min n (length es)). split; [lia|].
    assert (Hn : take n (map LvMemTable.encode es) = map LvMemTable.encode (take (Nat.min n (length es)) es) /\ drop n (map LvMemTable.encode es) = map LvMemTable.encode (drop (Nat.min n (length es)) es) /\
      l !! n = l !! Nat.min n (length es)).
    { rewrite firstn_map, skipn_map. destruct (decide (n <= length es)%nat); [by rewrite Nat.min_l by lia|]. rewrite Nat.min_r by lia. by rewrite !take_ge, !drop_ge, !lookup_ge_None_2 by lia. }
    destruct Hn as (Et & Ed & El). rewrite Et in Hlo. rewrite Ed in Hhi. rewrite El in Es. split; [done|]. rewrite firstn_map, skipn_map.
    split; [apply (compare_targets (fun z => z < 0))|apply (compare_targets (fun z => 0 <= z))]; try done; [by apply Forall_take|by apply Forall_drop].
Qed.

(** The iterator at the entry number [i], or past the ends. *)
Definition MemAt (nodes : list nat) (it : MemIter) (i : nat) : Prop := it = {| mi_mem := m; mi_node := nodes !! i |} /\ (i <= length es)%nat.

Lemma on_table_eq {A} (c : M (SkipList Slice) A) a : c (mtable m) = Ret (a, mtable m) -> LvMemTable.on_table c m = Ret (a, m).
Proof. intros E1. unfold LvMemTable.on_table. rewrite E1. by destruct m. Qed.

Lemma entry_parts e : LvMemTable.entry_valid (ok := ok) e -> GetLengthPrefixedSlice_at (LvMemTable.encode e) = e_ikey e /\
  GetVarint32Ptr5 (LvMemTable.encode e) = Some (size (e_ikey e), e_ikey e ++ PutLengthPrefixedSlice [] (e_value e)) /\
  GetLengthPrefixedSlice_at (drop (Z.to_nat (size (e_ikey e))) (e_ikey e ++ PutLengthPrefixedSlice [] (e_value e))) = e_value e.
Proof.
  intros [Ho Hs Hk Hv]. rewrite LvMemTable.encode_eq by done. destruct (read_prefixed (e_ikey e) (PutLengthPrefixedSlice [] (e_value e))) as [E1 E2]; [by rewrite ikey_size|].
  split; [done|]. split; [done|]. rewrite drop_app_length' by (unfold size; lia). rewrite <- (app_nil_r (PutLengthPrefixedSlice [] (e_value e))). by apply read_prefixed.
Qed.

Lemma MemTable_laws nodes : NodesOf nodes -> IteratorLaws (H := MemTableIterator ucmp) MemIter icmp target_ok (map entry_kv es) (MemAt nodes).
Proof.
  intros HN. pose proof (no_length nodes HN) as Hl.
  assert (Hnode : forall i, (i < length es)%nat -> exists x, nodes !! i = Some x) by (intros i Hi; apply lookup_lt_is_Some_2; lia).
  assert (Hentry : forall i k v, map entry_kv es !! i = Some (k, v) -> exists e x, es !! i = Some e /\ nodes !! i = Some x /\ k = e_ikey e /\ v = e_value e /\
    Iterator_key (Some x) (mtable m) = Ret (LvMemTable.encode e, mtable m) /\ LvMemTable.entry_valid (ok := ok) e).
  { intros i k v Hi. rewrite list_lookup_fmap in Hi. apply fmap_Some in Hi as (e & He & [= -> ->]). destruct (Hnode i) as [x Hx]; [by eapply lookup_lt_Some|].
    destruct (no_key nodes HN i x Hx) as (e' & He' & Ek). assert (e' = e) as -> by congruence. exists e, x. split_and!; try done. by eapply entry_valid_at. }
  constructor; cbn [iter_Valid iter_SeekToFirst iter_SeekToLast iter_Seek iter_Next iter_Prev iter_key iter_value iter_status MemTableIterator].
  - intros it i [_ Hi]. by rewrite length_map.
  - intros it i [-> Hi]. rewrite length_map. unfold MemTableIterator_Valid, Iterator_Valid. cbn [mi_node]. case_bool_decide as Hlt.
    + by destruct (Hnode i Hlt) as [x ->].
    + by rewrite lookup_ge_None_2 by lia.
  - done.
  - intros it i k v [-> Hi] Hkv. destruct (Hentry i k v Hkv) as (e & x & He & Hx & -> & -> & Ek & Hv). unfold mi_read, MemTableIterator_key. cbn [mi_node mi_mem].
    rewrite Hx. unfold bind. rewrite (on_table_eq _ _ Ek). unfold ret. by rewrite (proj1 (entry_parts e Hv)).
  - intros it i k v [-> Hi] Hkv. destruct (Hentry i k v Hkv) as (e & x & He & Hx & -> & -> & Ek & Hv). unfold mi_read, MemTableIterator_value. cbn [mi_node mi_mem].
    rewrite Hx. unfold bind at 1. rewrite (on_table_eq _ _ Ek). destruct (entry_parts e Hv) as (_ & -> & E2). cbn [need]. unfold bind, ret. by rewrite E2.
  - intros it i [-> Hi]. exists {| mi_mem := m; mi_node := nodes !! O |}. split; [|split; [done|lia]]. unfold mi_move, MemTableIterator_SeekToFirst. cbn [mi_mem].
    by rewrite (on_table_eq _ _ (no_first nodes HN)).
  - intros it i [-> Hi]. rewrite length_map. exists {| mi_mem := m; mi_node := nodes !! (length es - 1)%nat |}. split; [|split; [done|lia]]. unfold mi_move, MemTableIterator_SeekToLast. cbn [mi_mem].
    rewrite (on_table_eq _ _ (no_last nodes HN)), last_lookup, Hl. by rewrite Nat.sub_1_r.
  - intros it i [-> Hi] Hlt. rewrite length_map in Hlt. destruct (Hnode i Hlt) as [x Hx]. exists {| mi_mem := m; mi_node := nodes !! S i |}. split; [|split; [done|lia]].
    unfold mi_move, MemTableIterator_Next. cbn [mi_mem mi_node]. by rewrite Hx, (on_table_eq _ _ (no_next nodes HN i x Hx)).
  - intros it i [-> Hi] Hlt. rewrite length_map in Hlt |- *. destruct (Hnode i Hlt) as [x Hx].
    exists {| mi_mem := m; mi_node := nodes !! (match i with O => length es | S j => j end) |}. split; [|split; [done|destruct i; lia]].
    unfold mi_move, MemTableIterator_Prev. cbn [mi_mem mi_node]. rewrite Hx, (on_table_eq _ _ (no_prev nodes HN i x Hx)). destruct i; [|done].
    by rewrite (lookup_ge_None_2 nodes (length es)) by lia.
  - intros it i target [-> Hi] Ht. destruct (no_seek nodes HN target Ht) as (n & Hn & Es & Hlo & Hhi). exists {| mi_mem := m; mi_node := nodes !! n |}, n.
    split; [|by split]. unfold mi_move, MemTableIterator_Seek. cbn [mi_mem]. by rewrite (on_table_eq _ _ Es).
Qed.

Lemma MemTable_NewIterator_at nodes : NodesOf nodes -> MemAt nodes (MemTable_NewIterator m) (length es).
Proof. intros HN. split; [|lia]. unfold MemTable_NewIterator. by rewrite lookup_ge_None_2 by (rewrite (no_length nodes HN); lia). Qed.
End MemIterProps.

(** * Building tables *)

(** [Env::NewWritableFile], when what is written can be read back: a file is a
    descriptor [W], and its functions change the environment. *)
Class WritableFiles (E W : Type) : Type := {
  Env_NewWritable : Slice -> M E (Status * option W);
  files_writable :: WritableFile (W * E)
}.

Section Build.
Context {I E G W C H BC BH : Type} `{II : Iterator I} `{EV : Env E} `{RF : RandomFiles E G} `{RA : RandomAccessFile G} `{WF : WritableFiles E W}.
Context `{TCC : Cache C H TableAndFile} `{BCC : Cache BC BH Block}.
(** Where blocks and trailers lie when their checksums are computed, and the
    rounds the loop over the input and the blocks of a table may take. *)
Context (address taddr raddr : Z) (fuel skip_fuel : nat) (dbname_ : Slice) (options_ : Options).
Abbreviation T := (TableCache E G C BC).

(** What [BuildTable] works on: its input and the table cache, which has the
    environment. *)
Definition on_input {A} (c : M I A) : M (I * T) A := fun s =>
  match c s.1 with
  | Ret (a, it) => Ret (a, (it, s.2))
  | Undef => Undef
  | NoFuel => NoFuel
  end.

Definition on_table_cache {A} (c : M T A) : M (I * T) A := fun s =>
  match c s.2 with
  | Ret (a, t) => Ret (a, (s.1, t))
  | Undef => Undef
  | NoFuel => NoFuel
  end.

(** While the table is built: the input and the builder, whose file has the
    environment. *)
Abbreviation Builder := (LvTableBuilder.Rep (W * E)).

Definition from_input {A} (c : M I A) : M (I * Builder) A := fun s =>
  match c s.1 with
  | Ret (a, it) => Ret (a, (it, s.2))
  | Undef => Undef
  | NoFuel => NoFuel
  end.

Definition on_builder {A} (c : M Builder A) : M (I * Builder) A := fun s =>
  match c s.2 with
  | Ret (a, b) => Ret (a, (s.1, b))
  | Undef => Undef
  | NoFuel => NoFuel
  end.

(** [for (; iter->Valid(); iter->Next())]: the last key. *)
Fixpoint build_loop (fuel : nat) (largest : Slice) : M (I * Builder) Slice :=
  match fuel with
  | O => nofuel
  | S fuel =>
      let* it := from_input get in
      if iter_Valid it then
        let* key := from_input iter_key in
        let* value := from_input iter_value in
        on_builder (TableBuilder_Add address taddr key value) ;;;
        from_input iter_Next ;;;
        build_loop fuel key
      else ret largest
  end.

(** [Finish], [delete builder], [Sync] and [Close]: the status and the size. *)
Definition finish_table : M Builder (Status * Z) :=
  let* s := TableBuilder_Finish address taddr in
  let* b := get in
  let file_size := if Status_ok s then TableBuilder_FileSize b else 0 in
  if Status_ok s && negb (file_size >? 0) then undef
  else
    let* _ := need (TableBuilder_delete b) in
    let* s := if Status_ok s then LvTableBuilder.on_file File_Sync else ret s in
    let* s := if Status_ok s then LvTableBuilder.on_file File_Close else ret s in
    ret (s, file_size).

Definition build_file : M (I * Builder) (Status * Z * Slice * Slice) :=
  let* smallest := from_input iter_key in
  let* largest := build_loop fuel [] in
  let* '(s, file_size) := on_builder finish_table in
  ret (s, file_size, smallest, largest).

(** The builder on the file [w] that was made; its environment goes back to the
    table cache. *)
Definition with_builder {A} (w : W) (c : M (I * Builder) A) : M (I * T) A := fun s =>
  match TableBuilder_new options_ (w, tc_env s.2) with
  | None => Undef
  | Some b => match c (s.1, b) with
              | Ret (a, (it, b)) => Ret (a, (it, with_env (file b).2 s.2))
              | Undef => Undef
              | NoFuel => NoFuel
              end
  end.

(** Verify that the table is usable. *)
Definition check_table (number file_size : Z) : M T Status := fun t =>
  match TableCache_NewIterator (H := H) (BH := BH) raddr dbname_ options_ number file_size t with
  | Ret it => match CacheIter_delete it with
              | Ret t => Ret (iter_status (Iterator := CacheIter_iterator raddr ReadOptions_new skip_fuel) it, t)
              | Undef => Undef
              | NoFuel => NoFuel
              end
  | Undef => Undef
  | NoFuel => NoFuel
  end.

(** The errors of the input, and the file is kept or deleted. *)
Definition keep_or_delete (fname : Slice) (s : Status) (file_size : Z) : M (I * T) Status :=
  let* it := on_input get in
  let s := if negb (Status_ok (iter_status it)) then iter_status it else s in
  if Status_ok s && (file_size >? 0) then ret s
  else let* _ := on_table_cache (on_disk (Env_DeleteFile fname)) in ret s.

Definition with_range (file_size : Z) (smallest largest : Slice) (meta : FileMetaData) : FileMetaData :=
  {| refs := refs meta; allowed_seeks := allowed_seeks meta; number := number meta; file_size := file_size; smallest := smallest; largest := largest |}.

(** The status and [*meta]. *)
Definition BuildTable (meta : FileMetaData) : M (I * T) (Status * FileMetaData) :=
  let meta := with_range 0 (smallest meta) (largest meta) meta in
  on_input iter_SeekToFirst ;;;
  let* fname := need (TableFileName dbname_ (number meta)) in
  let* it := on_input get in
  if iter_Valid it then
    let* '(s, w) := on_table_cache (on_disk (Env_NewWritable fname)) in
    if negb (Status_ok s) then ret (s, meta)
    else
      let* w := need w in
      let* '(s, file_size, smallest, largest) := with_builder w build_file in
      let meta := with_range file_size smallest largest meta in
      let* s := if Status_ok s then on_table_cache (check_table (number meta) file_size) else ret s in
      let* s := keep_or_delete fname s file_size in
      ret (s, meta)
  else
    let* s := keep_or_delete fname Status_OK 0 in
    ret (s, meta).
End Build.

(** ** Properties *)

(** A disk that does not fail: [Writing name d x w] says that [w] was written to
    the file [name], which is open, and that the other files are those of [d]. *)
Class WritableFilesLaws (E W : Type) `{WritableFiles E W, Env E} (Disk : E -> gmap Slice Slice -> Prop) (Writing : Slice -> gmap Slice Slice -> W * E -> Slice -> Prop) : Prop := {
  writing_laws name d :: WritableLaws (W * E) (Writing name d);
  new_writable e d name : Disk e d -> exists w e', Env_NewWritable name e = Ret ((Status_OK, Some w), e') /\ Writing name d (w, e') [];
  close_writable name d x w : Writing name d x w -> exists x', File_Close x = Ret (Status_OK, x') /\ Disk x'.2 (<[name := w]> d);
  delete_named e d name : Disk e d -> exists s e', Env_DeleteFile name e = Ret (s, e') /\ Disk e' (delete name d)
}.

(** A table has a name of its own. *)
Lemma table_name_inj dbname n m name : TableFileName dbname n = Some name -> 0 < n < 2 ^ 64 -> 0 < m < 2 ^ 64 ->
  TableFileName dbname m = Some name \/ SSTTableFileName dbname m = Some name -> n = m.
Proof.
  intros En Hn Hm Hor. destruct (ParseFileName_roundtrip dbname n Hn) as (_ & (b1 & E1 & P1) & _).
  destruct (ParseFileName_roundtrip dbname m Hm) as (_ & (b2 & E2 & P2) & (b3 & E3 & P3) & _). rewrite En in E1. injection E1 as E1.
  assert (Hinj : forall b, name = dbname ++ chars "/" ++ b -> b = b1) by (intros b Hb; rewrite E1 in Hb; apply app_inv_head in Hb; injection Hb as ->; done).
  destruct Hor as [Hor|Hor]; [rewrite Hor in E2; injection E2 as E2; apply Hinj in E2 as ->|rewrite Hor in E3; injection E3 as E3; apply Hinj in E3 as ->]; congruence.
Qed.

Lemma table_name_positive dbname n name : TableFileName dbname n = Some name -> 0 < n.
Proof. unfold TableFileName, checked. destruct (Z.gtb_spec n 0); [done|done]. Qed.

Section Built.
Context {I E G W C H BC BH : Type} {II : Iterator I} {EV : Env E} {RF : RandomFiles E G} {RA : RandomAccessFile G} {WF : WritableFiles E W}.
Context {TCC : Cache C H TableAndFile} {BCC : Cache BC BH Block}.
Context {Contains : G -> Slice -> Prop} {RL : RandomAccessLaws G Contains}.
Context {Open : (Slice -> TableAndFile -> Prop) -> Z -> list (H * TableAndFile) -> C -> Prop} {CL1 : CacheLaws C H TableAndFile Open}.
Context {Holds : (Slice -> Block -> Prop) -> Z -> list (BH * Block) -> BC -> Prop} {CL2 : CacheLaws BC BH Block Holds}.
Context {Disk : E -> gmap Slice Slice -> Prop} {DL : RandomFilesLaws E G Contains Disk} {Writing : Slice -> gmap Slice Slice -> W * E -> Slice -> Prop} {WL : WritableFilesLaws E W Disk Writing}.
Context (address taddr raddr : Z) (skip_fuel : nat) (dbname_ : Slice) (o : Options) (ok : Slice -> Prop) (c : Z) {TC : TableComparator (comparator o) ok}.
Context (Hinterval : 1 <= block_restart_interval o) (Hpolicy : forall p, filter_policy o = Some p -> TablePolicy p ok c).
Abbreviation KV := (Slice * Slice)%type.
Abbreviation T := (TableCache E G C BC).
Abbreviation Tables := (gmap Z (list (list KV) * list Slice)).
Abbreviation Inv := (CacheInv (Contains := Contains) (Open := Open) (Holds := Holds) (Disk := Disk) o).

(** *** A table more *)

Section More.
Context (d : gmap Slice Slice) (tables : Tables) (B : nat) (HT : TablesOk dbname_ o ok c d tables B).
Context (n : Z) (bs : list (list KV)) (seps : list Slice) (name : Slice) (Hname : TableFileName dbname_ n = Some name) (Hn : n < 2 ^ 64) (Hnew : tables !! n = None).
Context (HF : Fits o ok c bs) (HX : Indexed o ok bs seps) (HB : (length bs <= B)%nat) (Hfew : Z.of_nat (S (base.size tables)) < 2 ^ 31).

Lemma other_table m w : tables !! m <> None -> table_on_disk dbname_ d m w -> table_on_disk dbname_ (<[name := table_file o bs seps]> d) m w.
Proof.
  intros Hm (nm & old & E1 & E2 & Hw). pose proof (table_name_positive _ _ _ Hname). pose proof (table_name_positive _ _ _ E1) as Hm0.
  destruct (tables !! m) as [x|] eqn:Em; [|done]. pose proof (to_number _ _ _ _ _ _ _ HT m x Em).
  assert (Hne : name <> nm /\ name <> old).
  { split; intros <-; assert (n = m) as -> by (eapply table_name_inj; [exact Hname|lia|lia|auto]); congruence. }
  exists nm, old. split; [done|]. split; [done|]. by rewrite !lookup_insert_ne by tauto.
Qed.

Lemma tables_more : TablesOk dbname_ o ok c (<[name := table_file o bs seps]> d) (<[n := (bs, seps)]> tables) B.
Proof.
  destruct HT as [H1 H2 H3 H4 H5 H6]. pose proof (table_name_positive _ _ _ Hname). constructor.
  - intros m x [[<- _]|[_ Hm]]%lookup_insert_Some; [lia|by eapply H1].
  - intros m bs' seps' [[_ [= -> ->]]|[_ Hm]]%lookup_insert_Some; [done|by eapply H2].
  - intros m bs' seps' [[_ [= -> ->]]|[_ Hm]]%lookup_insert_Some; [done|by eapply H3].
  - intros m bs' seps' [[_ [= -> ->]]|[_ Hm]]%lookup_insert_Some; [done|by eapply H4].
  - intros m bs' seps' [[<- [= <- <-]]|[_ Hm]]%lookup_insert_Some.
    + unfold table_on_disk, SSTTableFileName. rewrite Hname. unfold checked. destruct (Z.gtb_spec n 0); [|lia]. eexists _, _. split; [done|]. split; [done|]. left. by rewrite lookup_insert_eq.
    + apply other_table; [congruence|by eapply H5].
  - by rewrite map_size_insert_None.
Qed.

Lemma inv_more opened m k held1 held2 t e : Inv d tables B opened m k held1 held2 t -> Disk e (<[name := table_file o bs seps]> d) ->
  Inv (<[name := table_file o bs seps]> d) (<[n := (bs, seps)]> tables) B opened m k held1 held2 (with_env e t).
Proof.
  intros [H1 H2 H3 H4 H5 H6 H7 H8] He. pose proof tables_more as HT'. 
  assert (Hmore : forall m' x, tables !! m' = Some x -> <[n := (bs, seps)]> tables !! m' = Some x) by (intros m' x Hm; rewrite lookup_insert_ne; [done|congruence]).
  constructor; cbn [with_env tc_env tc_files tc_next tc_cache tc_blocks]; [done| |done|done|done| | |done].
  - intros p n' rep Ho. destruct (H2 p n' rep Ho) as [Hlt (bs' & seps' & g & E1 & E2)]. split; [done|]. exists bs', seps', g. split; [by apply Hmore|done].
  - destruct H6 as [i Hi]. exists i. eapply holds_weaken; [|by apply (table_entry_few dbname_ o ok c _ _ B HT')|exact Hi].
    intros kk tf (n' & E1 & [x Hx] & E2). exists n'. split; [done|]. split; [|done]. exists x. by apply Hmore.
  - eapply holds_weaken; [|apply (block_entry_few dbname_ o ok c _ _ B HT'); nia|exact H7].
    intros kk b (p & n' & rep & bs' & seps' & j & E1 & E2 & E3). exists p, n', rep, bs', seps', j. split; [done|]. split; [by apply Hmore|done].
Qed.
End More.

Lemma table_file_pos bs seps : Fits o ok c bs -> Indexed o ok bs seps -> 0 < size (table_file o bs seps).
Proof.
  intros HF HX. destruct (table_sizes o ok c Hinterval Hpolicy bs seps HF HX) as [Hfo _]. unfold table_file. rewrite !size_app. pose proof (size_nonneg (before_index o bs)).
  match goal with |- context [size (raw_block ?a ?b)] => pose proof (size_nonneg (raw_block a b)) end. pose proof (footer_size _ Hfo). lia.
Qed.

(** *** The loop over the input *)

Context (kvs : list KV) {tok : Slice -> Prop} {At : I -> nat -> Prop} {IL : IteratorLaws I (Compare (comparator o)) tok kvs At}.

Lemma build_loop_spec fuel : forall it i r r' largest, At it i -> (length kvs - i < fuel)%nat -> LvTableBuildProps.add_all address taddr (drop i kvs) r = Ret (tt, r') ->
  exists it', build_loop (W := W) (E := E) address taddr fuel largest (it, r) = Ret (default largest (fst <$> last (drop i kvs)), (it', r')) /\ At it' (length kvs).
Proof.
  induction fuel as [|fuel IH]; intros it i r r' largest HA Hf Ea; [lia|]. cbn [build_loop]. unfold bind at 1, from_input at 1, get at 1. cbn [fst snd].
  rewrite (it_valid it i HA). pose proof (it_bound it i HA). case_bool_decide as Hi.
  - destruct (lookup_lt_is_Some_2 kvs i Hi) as [[k v] Ei]. rewrite (drop_S _ _ _ Ei) in Ea |- *. cbn [LvTableBuildProps.add_all fst snd] in Ea. unfold bind at 1 in Ea.
    destruct (TableBuilder_Add address taddr k v r) as [[[] r1]| |] eqn:E1; [|discriminate Ea..].
    unfold bind at 1, from_input at 1. cbn [fst snd]. rewrite (it_key it i k v HA Ei). unfold bind at 1, from_input at 1. cbn [fst snd]. rewrite (it_value it i k v HA Ei).
    unfold bind at 1, on_builder at 1. cbn [fst snd]. rewrite E1. destruct (it_next it i HA Hi) as (it1 & E2 & HA1). unfold bind at 1, from_input at 1. cbn [fst snd]. rewrite E2.
    destruct (IH it1 (S i) r1 r' k HA1 ltac:(lia) Ea) as (it2 & E3 & HA2). exists it2. rewrite E3. split; [|done].
    rewrite last_cons. by destruct (last (drop (S i) kvs)).
  - rewrite drop_ge in Ea |- * by lia. injection Ea as <-. exists it. replace (length kvs) with i by lia. done.
Qed.

Context (d : gmap Slice Slice) (tables : Tables) (B : nat) (HT : TablesOk dbname_ o ok c d tables B) (Hfuel : (B < skip_fuel)%nat) (Hkvs : (length kvs <= B)%nat).
Context (n : Z) (name : Slice) (Hname : TableFileName dbname_ n = Some name) (Hn : n < 2 ^ 64) (Hnew : tables !! n = None) (Hfew : Z.of_nat (S (base.size tables)) < 2 ^ 31).
Context (He : entries_ok (comparator o) ok kvs) (Hcost : table_cost kvs < 2 ^ 32) (Hfilter : 2 * c * Z.of_nat (length kvs) < 2 ^ 31).

(** The file is written, synced and closed. *)
Lemma build_file_spec it r w e k0 v0 : At it O -> kvs !! O = Some (k0, v0) -> Writing name d (w, e) [] -> TableBuilder_new o (w, e) = Some r ->
  exists bs seps it' r', build_file address taddr (S B) (it, r) = Ret ((Status_OK, size (table_file o bs seps), k0, default k0 (fst <$> last kvs)), (it', r')) /\
    At it' (length kvs) /\ concat bs = kvs /\ Fits o ok c bs /\ Indexed o ok bs seps /\ (length bs <= B)%nat /\ 0 < size (table_file o bs seps) /\
    Disk (file r').2 (<[name := table_file o bs seps]> d).
Proof.
  intros HA E0 Hw Er. destruct (build_table_spec (Ready := Writing name d) address taddr o ok c Hinterval Hpolicy kvs (w, e) Hw He Hcost Hfilter)
    as (r2 & bs & seps & Eb & HR & Hsz & Hcl & HF & HX & Hcat). unfold build_table in Eb. rewrite Er in Eb. unfold bind at 1 in Eb.
  destruct (LvTableBuildProps.add_all address taddr kvs r) as [[[] r1]| |] eqn:E1; [|discriminate Eb..].
  pose proof (fits_length o ok c bs HF) as Hlb. rewrite Hcat in Hlb.
  pose proof (table_file_pos bs seps HF HX) as Hpos.
  destruct (build_loop_spec (S B) it O r r1 [] HA ltac:(lia) E1) as (it' & El & HA'). rewrite drop_0 in El.
  destruct (sync_law (file r2) _ HR) as (f3 & Es & HR3). destruct (close_writable name d f3 _ HR3) as (f4 & Ec & HD).
  exists bs, seps, it'. eexists. split; [|split; [exact HA'|]; split; [done|]; split; [done|]; split; [done|]; split; [lia|]; split; [done|]].
  - unfold build_file. unfold bind at 1, from_input at 1. cbn [fst snd]. rewrite (it_key it O k0 v0 HA E0). rewrite (bind_eq _ _ _ _ _ El).
    unfold bind at 1, on_builder at 1. cbn [fst snd]. unfold finish_table. rewrite (bind_eq _ _ _ _ _ Eb). unfold bind at 1, get at 1.
    change (Status_ok Status_OK) with true. cbv iota. cbn [andb negb]. rewrite Hsz. destruct (Z.gtb_spec (size (table_file o bs seps)) 0); [|lia]. cbn [negb].
    unfold TableBuilder_delete. rewrite Hcl. cbn [need]. unfold bind at 1, ret at 1. unfold bind at 1, LvTableBuilder.on_file at 1. rewrite Es. change (Status_ok Status_OK) with true. cbv iota.
    unfold bind at 1, LvTableBuilder.on_file at 1. cbn [file]. rewrite Ec. unfold ret.
    assert (El2 : default [] (fst <$> last kvs) = default k0 (fst <$> last kvs)) by (destruct kvs as [|kv0 kvs0] using rev_ind; [done|by rewrite last_snoc]).
    rewrite El2. reflexivity.
  - exact HD.
Qed.

(** *** The table is usable *)

Lemma check_table_spec d' tables' bs seps opened m k held1 held2 t : TablesOk dbname_ o ok c d' tables' B -> tables' !! n = Some (bs, seps) ->
  Inv d' tables' B opened m (S k) held1 held2 t -> Z.of_nat (length held1) + 2 < 2 ^ 31 -> Z.of_nat (length held2) < 2 ^ 30 ->
  exists opened' m' t', check_table (H := H) (BH := BH) raddr skip_fuel dbname_ o n (size (table_file o bs seps)) t = Ret (Status_OK, t') /\
    Inv d' tables' B opened' m' k held1 held2 t'.
Proof.
  intros HT' Hn' HI Hh1 Hh2. destruct (TableCache_NewIterator_spec (Contains := Contains) (Open := Open) (Holds := Holds) (Disk := Disk) raddr dbname_ o ReadOptions_new ok c Hinterval Hpolicy d' tables' B HT'
    opened m k held1 held2 t n bs seps HI Hn' Hh1 Hh2) as (ci & opened' & m' & Ei & HA).
  pose proof (CacheIter_laws raddr dbname_ o ReadOptions_new ok c Hinterval Hpolicy d' tables' B HT' skip_fuel Hfuel opened' m' k held1 held2 Hh2 n bs seps Hn' (Contains := Contains) (Open := Open) (Holds := Holds) (Disk := Disk)) as L.
  pose proof (it_status (IteratorLaws := L) ci _ HA) as Es.
  destruct (CacheIter_delete_spec raddr dbname_ o ReadOptions_new ok c Hinterval Hpolicy d' tables' B HT' skip_fuel Hfuel opened' m' k held1 held2 Hh2 n bs seps Hn' ci _ HA) as (t' & Ed & HI').
  exists opened', m', t'. split; [|done]. unfold check_table. rewrite Ei, Ed. by rewrite Es.
Qed.

Lemma keep_file_spec it (t : T) i fname s file_size : At it i -> Status_ok s = true -> 0 < file_size -> keep_or_delete fname s file_size (it, t) = Ret (s, (it, t)).
Proof.
  intros HA Hs Hsz. unfold keep_or_delete. unfold bind at 1, on_input at 1, get at 1. cbn [fst snd]. rewrite (it_status it i HA). change (negb (Status_ok Status_OK)) with false. cbv iota zeta. rewrite Hs.
  destruct (Z.gtb_spec file_size 0); [done|lia].
Qed.

(** What [BuildTable] leaves. *)
Lemma BuildTable_spec opened m k held1 held2 it i t meta : At it i -> kvs <> [] -> number meta = n -> Inv d tables B opened m (S k) held1 held2 t ->
  Z.of_nat (length held1) + 2 < 2 ^ 31 -> Z.of_nat (length held2) < 2 ^ 30 ->
  exists bs seps it' t' opened' m' first last_,
    BuildTable (H := H) (BH := BH) (W := W) address taddr raddr (S B) skip_fuel dbname_ o meta (it, t) =
      Ret ((Status_OK, with_range (size (table_file o bs seps)) first.1 last_.1 meta), (it', t')) /\
    head kvs = Some first /\ last kvs = Some last_ /\ concat bs = kvs /\ Fits o ok c bs /\ Indexed o ok bs seps /\ (length bs <= B)%nat /\ At it' (length kvs) /\
    TablesOk dbname_ o ok c (<[name := table_file o bs seps]> d) (<[n := (bs, seps)]> tables) B /\
    Inv (<[name := table_file o bs seps]> d) (<[n := (bs, seps)]> tables) B opened' m' k held1 held2 t'.
Proof.
  intros HA Hne Em HI Hh1 Hh2. destruct (it_first it i HA) as (it1 & E1 & HA1). destruct (lookup_lt_is_Some_2 kvs O) as [[k0 v0] E0]; [destruct kvs; [done|cbn; lia]|].
  destruct (new_writable (tc_env t) d name (ci_disk _ _ _ _ _ _ _ _ _ _ HI)) as (w & e1 & Ew & Hw).
  destruct (TableBuilder_new_spec o ok c Hinterval Hpolicy (w, e1) Hw) as (r & Er & _).
  destruct (build_file_spec it1 r w e1 k0 v0 HA1 E0 Hw Er) as (bs & seps & it2 & r2 & Eb & HA2 & Hcat & HF & HX & Hlb & Hsz & HD).
  pose proof (tables_more d tables B HT n bs seps name Hname Hn Hnew HF HX Hlb Hfew) as HT'.
  pose proof (inv_more d tables B HT n bs seps name Hname Hn Hnew HF HX Hlb Hfew opened m (S k) held1 held2 t (file r2).2 HI HD) as HI'.
  destruct (check_table_spec _ _ bs seps opened m k held1 held2 _ HT' (lookup_insert_eq _ _ _) HI' Hh1 Hh2) as (opened' & m' & t' & Ec & HI2).
  destruct (last kvs) as [kvl|] eqn:El; [|by apply last_None in El].
  exists bs, seps, it2, t', opened', m', (k0, v0), kvl. split; [|by rewrite head_lookup; split_and!].
  unfold BuildTable. cbn [number with_range]. rewrite Em. unfold bind at 1, on_input at 1. cbn [fst snd]. rewrite E1. rewrite Hname. cbn [need]. unfold bind at 1, ret at 1.
  unfold bind at 1, on_input at 1, get at 1. cbn [fst snd]. rewrite (it_valid it1 O HA1), bool_decide_eq_true_2 by (by apply lookup_lt_Some in E0).
  unfold bind at 1, on_table_cache at 1, on_disk at 1. cbn [fst snd]. rewrite Ew. change (negb (Status_ok Status_OK)) with false. cbv iota. cbn [need]. unfold bind at 1, ret at 1.
  unfold bind at 1, with_builder at 1. cbn [fst snd tc_env]. rewrite Er, Eb. cbn [fst snd]. change (Status_ok Status_OK) with true. cbv iota.
  unfold bind at 1, on_table_cache at 1. cbn [fst snd number with_range]. unfold with_env in Ec |- *. cbn [tc_files tc_next tc_cache tc_blocks]. rewrite Ec.
  rewrite (bind_eq _ _ _ _ _ (keep_file_spec it2 t' _ name Status_OK (size (table_file o bs seps)) HA2 eq_refl Hsz)). unfold ret. cbn [fmap option_fmap option_map default fst]. done.
Qed.
End Built.

(** * Flushing a memtable *)

Section Level0.
Context {E G W C H BC BH : Type} `{EV : Env E} `{RF : RandomFiles E G} `{RA : RandomAccessFile G} `{WF : WritableFiles E W}.
Context `{TCC : Cache C H TableAndFile} `{BCC : Cache BC BH Block}.
Context (address taddr raddr : Z) (fuel skip_fuel : nat) (dbname_ : Slice) (ucmp : Comparator) (options_ : Options).
Abbreviation T := (TableCache E G C BC).

(** What [WriteLevel0Table] changes: [versions_], [table_cache_] and
    [pending_outputs_]. Times and statistics are left out. *)
Record Flush : Type := { fl_versions : VersionSet; fl_cache : T; fl_pending : gset Z }.

Definition on_versions {A} (c : M VersionSet A) : M Flush A := fun st =>
  match c (fl_versions st) with
  | Ret (a, v) => Ret (a, {| fl_versions := v; fl_cache := fl_cache st; fl_pending := fl_pending st |})
  | Undef => Undef
  | NoFuel => NoFuel
  end.

Definition on_pending (f : gset Z -> gset Z) : M Flush unit := fun st =>
  Ret (tt, {| fl_versions := fl_versions st; fl_cache := fl_cache st; fl_pending := f (fl_pending st) |}).

(** [BuildTable] with the iterator, which is then deleted. *)
Definition build_from (it : MemIter) (meta : FileMetaData) : M Flush (Status * FileMetaData * MemTable) := fun st =>
  match BuildTable (II := MemTableIterator ucmp) (H := H) (BH := BH) (W := W) address taddr raddr fuel skip_fuel dbname_ options_ meta (it, fl_cache st) with
  | Ret ((s, meta), (it, t)) => Ret ((s, meta, mi_mem it), {| fl_versions := fl_versions st; fl_cache := t; fl_pending := fl_pending st |})
  | Undef => Undef
  | NoFuel => NoFuel
  end.

(** The level of the new file: [base] is a version or null. *)
Definition output_level (base : option nat) (min_user_key max_user_key : Slice) : M VersionSet Z :=
  match base with
  | None => ret 0
  | Some p => let* v := get_version p in need (PickLevelForMemTableOutput ucmp (files_ v) options_ min_user_key max_user_key)
  end.

Definition with_number (n : Z) : FileMetaData := {|
  refs := refs FileMetaData_new; allowed_seeks := allowed_seeks FileMetaData_new; number := n; file_size := file_size FileMetaData_new;
  smallest := smallest FileMetaData_new; largest := largest FileMetaData_new |}.

(** The status, [*edit] and the memtable. *)
Definition WriteLevel0Table (mem : MemTable) (edit : VersionEdit) (base : option nat) : M Flush (Status * VersionEdit * MemTable) :=
  let* n := on_versions NewFileNumber in
  on_pending (fun p => {[n]} ∪ p) ;;;
  let* '(s, meta, mem) := build_from (MemTable_NewIterator mem) (with_number n) in
  on_pending (fun p => p ∖ {[number meta]}) ;;;
  if Status_ok s && (file_size meta >? 0) then
    let* level := on_versions (output_level base (ExtractUserKey (smallest meta)) (ExtractUserKey (largest meta))) in
    ret (s, AddFile level (number meta) (file_size meta) (smallest meta) (largest meta) edit, mem)
  else ret (s, edit, mem).
End Level0.

(** ** Properties *)

(** The version an entry of a memtable is. *)
Definition ver_of (e : LvMemTable.Entry) : LvDbIter.Version := ({| user_key := e_key e; LvFormat.sequence := e_seq e; type := e_type e |}, e_value e).

Section FlushProps.
Context {E G W C H BC BH : Type} {EV : Env E} {RF : RandomFiles E G} {RA : RandomAccessFile G} {WF : WritableFiles E W}.
Context {TCC : Cache C H TableAndFile} {BCC : Cache BC BH Block}.
Context {Contains : G -> Slice -> Prop} {RL : RandomAccessLaws G Contains}.
Context {Open : (Slice -> TableAndFile -> Prop) -> Z -> list (H * TableAndFile) -> C -> Prop} {CL1 : CacheLaws C H TableAndFile Open}.
Context {Holds : (Slice -> Block -> Prop) -> Z -> list (BH * Block) -> BC -> Prop} {CL2 : CacheLaws BC BH Block Holds}.
Context {Disk : E -> gmap Slice Slice -> Prop} {DL : RandomFilesLaws E G Contains Disk} {Writing : Slice -> gmap Slice Slice -> W * E -> Slice -> Prop} {WL : WritableFilesLaws E W Disk Writing}.
Context (address taddr raddr : Z) (skip_fuel : nat) (dbname_ : Slice) (src : Options) (ok : Slice -> Prop) (c : Z) {TC : TableComparator (comparator src) ok}.
Context (Hinterval : 1 <= block_restart_interval src) (Hpolicy : policy_ok src ok c).
Abbreviation ucmp := (comparator src).
Abbreviation o := (SanitizeOptions src).
Abbreviation key_ok := (internal_key_ok ok).
Abbreviation T := (TableCache E G C BC).
Abbreviation Tables := (gmap Z (list (list (Slice * Slice)) * list Slice)).
Abbreviation Inv := (CacheInv (Contains := Contains) (Open := Open) (Holds := Holds) (Disk := Disk) o).
Abbreviation MemHolds := (LvMemTable.Holds (ucmp := comparator src) (ok := ok)).

(** What a memtable that is flushed holds: not too much for a table. *)
Record flushable (es : list LvMemTable.Entry) (B : nat) : Prop := {
  fb_bytes : Forall (fun e => is_bytes (e_value e)) es;
  fb_cost : table_cost (map entry_kv es) < 2 ^ 32;
  fb_filter : 2 * c * Z.of_nat (length es) < 2 ^ 31;
  fb_length : (length es <= B)%nat
}.

Lemma compare_entries a b : LvMemTable.entry_valid (ok := ok) a -> LvMemTable.entry_valid (ok := ok) b ->
  KeyComparator ucmp (LvMemTable.encode a) (LvMemTable.encode b) = InternalKey_Compare ucmp (e_ikey a) (e_ikey b).
Proof.
  intros [Ha1 Ha2 Ha3 Ha4] [Hb1 Hb2 Hb3 Hb4]. rewrite !LvMemTable.encode_eq by done. by rewrite KeyComparator_prefixed by (rewrite ikey_size; done).
Qed.

Lemma memtable_entries mem es : MemHolds mem es -> Forall (fun e => is_bytes (e_value e)) es -> entries_ok (comparator o) key_ok (map entry_kv es).
Proof.
  intros HM Hb. pose proof (Holds_sorted mem es HM) as HS. destruct HM as [_ _ Hv]. split.
  - clear Hb. induction es as [|e es IH]; [constructor|]. apply StronglySorted_inv in HS as [HS HF]. apply Forall_cons in Hv as [He Hv]. constructor; [by apply IH|].
    apply Forall_forall. intros kv (x & -> & Hx)%list_elem_of_fmap. rewrite Forall_forall in HF. rewrite Forall_forall in Hv. specialize (HF x Hx). cbn beta in HF.
    rewrite compare_entries in HF by auto. exact HF.
  - apply Forall_forall. intros kv (x & -> & Hx)%list_elem_of_fmap. rewrite Forall_forall in Hb. rewrite Forall_forall in Hv. split; [|by apply Hb].
    apply (internal_key_valid ucmp ok). by apply Hv.
Qed.

Context (d : gmap Slice Slice) (tables : Tables) (B : nat) (HT : TablesOk dbname_ o key_ok c d tables B) (Hfuel : (B < skip_fuel)%nat).

Abbreviation Write0 := (WriteLevel0Table (E := E) (G := G) (W := W) (C := C) (H := H) (BC := BC) (BH := BH) address taddr raddr (S B) skip_fuel dbname_ ucmp o).

Lemma WriteLevel0Table_spec mem es edit base level opened m k held1 held2 (st : Flush (E := E) (G := G) (C := C) (BC := BC)) :
  let n := vs_next_file_number (fl_versions st) in
  let next := with_numbers (n + 1) (vs_manifest_file_number (fl_versions st)) (vs_last_sequence (fl_versions st)) (vs_log_number (fl_versions st)) (vs_prev_log_number (fl_versions st)) (fl_versions st) in
  MemHolds mem es -> es <> [] -> flushable es B -> 0 < n -> n + 1 < 2 ^ 64 -> tables !! n = None -> Z.of_nat (S (base.size tables)) < 2 ^ 31 ->
  (forall a b, head es = Some a -> last es = Some b -> output_level ucmp o base (e_key a) (e_key b) next = Ret (level, next)) ->
  Inv d tables B opened m (S k) held1 held2 (fl_cache st) -> Z.of_nat (length held1) + 2 < 2 ^ 31 -> Z.of_nat (length held2) < 2 ^ 30 ->
  exists name bs seps a b t' opened' m', TableFileName dbname_ n = Some name /\
    Write0 mem edit base st = Ret ((Status_OK, AddFile level n (size (table_file o bs seps)) (e_ikey a) (e_ikey b) edit, mem),
      {| fl_versions := next; fl_cache := t'; fl_pending := ({[n]} ∪ fl_pending st) ∖ {[n]} |}) /\
    head es = Some a /\ last es = Some b /\ concat bs = map entry_kv es /\
    TablesOk dbname_ o key_ok c (<[name := table_file o bs seps]> d) (<[n := (bs, seps)]> tables) B /\
    Inv (<[name := table_file o bs seps]> d) (<[n := (bs, seps)]> tables) B opened' m' k held1 held2 t'.
Proof.
  intros n next HM Hne [Hb Hcost Hfil Hlen] Hn0 Hn1 Hnew Hfew Hlevel HI Hh1 Hh2.
  assert (Hname : TableFileName dbname_ n = Some (MakeFileName dbname_ n (chars "ldb"))) by (unfold TableFileName, checked; destruct (Z.gtb_spec n 0); [done|lia]).
  destruct (nodes_exist mem es HM) as (nodes & HN). pose proof (MemTable_laws mem es HM nodes HN) as IL.
  pose proof (memtable_entries mem es HM Hb) as He.
  destruct (BuildTable_spec (IL := IL) (Disk := Disk) (Writing := Writing) (Contains := Contains) (Open := Open) (Holds := Holds) address taddr raddr skip_fuel dbname_ o key_ok c Hinterval (sanitized_policy src ok c Hpolicy) (map entry_kv es)
    d tables B HT Hfuel ltac:(rewrite length_map; lia) n _ Hname ltac:(lia) Hnew Hfew He Hcost ltac:(rewrite length_map; lia) opened m k held1 held2
    (MemTable_NewIterator mem) (length es) (fl_cache st) (with_number n))
    as (bs & seps & it' & t' & opened' & m' & first & last_ & Eb & Hf & Hl & Hcat & HF & HX & _ & [HA _] & HT' & HI');
    [by apply (MemTable_NewIterator_at (ucmp := ucmp) (ok := ok))|by destruct es|done|done|done|done|].
  rewrite head_lookup, list_lookup_fmap, <- head_lookup in Hf. apply fmap_Some in Hf as (a & Ha & ->). rewrite fmap_last in Hl. apply fmap_Some in Hl as (b & Hbl & ->).
  exists (MakeFileName dbname_ n (chars "ldb")), bs, seps, a, b, t', opened', m'. split; [done|]. split; [|by split_and!].
  assert (En : NewFileNumber (fl_versions st) = Ret (n, next)) by (unfold NewFileNumber, bind, get, set_next_file_number, modify_set, ret; by rewrite (wrap_small 64) by lia).
  unfold WriteLevel0Table. unfold bind at 1, on_versions at 1. rewrite En. unfold bind at 1, on_pending at 1. cbn [fl_versions fl_cache fl_pending].
  unfold bind at 1, build_from at 1. cbn [fl_versions fl_cache fl_pending]. rewrite Eb. unfold bind at 1, on_pending at 1. cbn [fl_versions fl_cache fl_pending number with_range with_number file_size smallest largest].
  assert (Hsz : 0 < size (table_file o bs seps)) by (by apply (table_file_pos o key_ok c Hinterval (sanitized_policy src ok c Hpolicy))). change (Status_ok Status_OK) with true. destruct (Z.gtb_spec (size (table_file o bs seps)) 0); [|lia]. cbn [andb].
  unfold bind at 1, on_versions at 1. cbn [fl_versions entry_kv fst]. unfold e_ikey at 1 2. rewrite !InternalKey_user, (Hlevel a b Ha Hbl). by rewrite HA.
Qed.

(** *** Reads after the flush *)

Section Reads.
Context (contents : File -> list LvDbIter.Version) (n : Z) (es : list LvMemTable.Entry).

(** The file [n] holds the entries of the memtable. *)
Definition contents_after (g : File) : list LvDbIter.Version := if f_number g =? n then map ver_of es else contents g.

Lemma version_of_entry e : version_entry (ver_of e) = entry_kv e.
Proof. done. Qed.

Context (Hv : Forall (LvMemTable.entry_valid (ok := ok)) es).

Lemma versions_ok : Forall (version_ok (ok := ok)) (map ver_of es).
Proof. apply Forall_map. apply (Forall_impl _ _ _ Hv). intros e [H1 H2 _ _]. by split. Qed.

Context (l1 l2 : list File) (rest : list (list File)) (f : File) (Hf : f_number f = n) (Hless : Forall (fun g => f_number g < n) (concat ((l1 ++ l2) :: rest))).
Abbreviation files_ := ((l1 ++ l2) :: rest).
Abbreviation files_after := ((l1 ++ f :: l2) :: rest).

Lemma contents_f : contents_after f = map ver_of es.
Proof. unfold contents_after. by rewrite Hf, Z.eqb_refl. Qed.

Lemma contents_other g : f_number g < n -> contents_after g = contents g.
Proof. intros Hg. unfold contents_after. destruct (Z.eqb_spec (f_number g) n); [lia|done]. Qed.

Lemma others_less files : Forall (fun g => f_number g < n) files -> map contents_after files = map contents files.
Proof. intros HF. apply map_ext_in. intros g Hg%list_elem_of_In. rewrite Forall_forall in HF. by apply contents_other, HF. Qed.

Lemma all_versions_rest : all_versions contents_after rest = all_versions contents rest.
Proof.
  cbn [concat] in Hless. apply Forall_app in Hless as [_ Hr]. unfold all_versions. f_equal. induction rest as [|files rest' IH]; [done|]. cbn [concat] in Hr. apply Forall_app in Hr as [H1 H2].
  cbn [map]. rewrite IH by done. unfold level_versions. by rewrite others_less.
Qed.

Lemma in_after x : x ∈ all_versions contents_after files_after <-> x ∈ map ver_of es \/ x ∈ all_versions contents files_.
Proof.
  pose proof all_versions_rest as Er. cbn [concat] in Hless. apply Forall_app in Hless as [[Hl1 Hl2]%Forall_app _]. unfold all_versions in *. cbn [map concat]. rewrite Er.
  unfold level_versions. rewrite !map_app. cbn [map]. rewrite contents_f, (others_less l1), (others_less l2) by done. rewrite !concat_app. cbn [concat]. rewrite !elem_of_app. tauto.
Qed.

Lemma same_entry a b u : versions_distinct (ucmp := ucmp) es -> a ∈ es -> b ∈ es -> Compare ucmp (e_key a) u = 0 -> Compare ucmp (e_key b) u = 0 -> e_seq a = e_seq b -> ok u -> a = b.
Proof.
  intros Hd Ha Hb Hau Hbu Hs Hu. rewrite Forall_forall in Hv. assert (Hk : forall x y, x ∈ es -> y ∈ es -> Compare ucmp (e_key x) u = 0 -> Compare ucmp (e_key y) u = 0 -> Compare ucmp (e_key x) (e_key y) = 0).
  { intros x y Hx Hy Hxu Hyu. pose proof (ev_key _ (Hv x Hx)) as Ox. pose proof (ev_key _ (Hv y Hy)) as Oy.
    pose proof (cmp_flip (cmp := Compare ucmp) (e_key x) u Ox Hu). pose proof (cmp_flip (cmp := Compare ucmp) (e_key y) u Oy Hu). pose proof (cmp_flip (cmp := Compare ucmp) (e_key x) (e_key y) Ox Oy).
    pose proof (cmp_le_trans (cmp := Compare ucmp) (e_key x) u (e_key y) Ox Hu Oy). pose proof (cmp_le_trans (cmp := Compare ucmp) (e_key y) u (e_key x) Oy Hu Ox). lia. }
  pose proof (Hk a b Ha Hb Hau Hbu) as H1. pose proof (Hk b a Hb Ha Hbu Hau) as H2. clear Hk Hv. induction es as [|x l IH]; [by apply elem_of_nil in Ha|]. destruct Hd as [Hx Hd]. rewrite Forall_forall in Hx.
  apply elem_of_cons in Ha as [->|Ha], Hb as [->|Hb] ; [done| | |by apply IH].
  - by destruct (Hx b Hb).
  - by destruct (Hx a Ha).
Qed.

(** What both lookups say. *)
Lemma answers_agree u s r st value : ok u -> versions_distinct (ucmp := ucmp) es ->
  (forall e y, e ∈ es -> y ∈ all_versions contents files_ -> Compare ucmp (e_key e) u = 0 -> Compare ucmp (user_key y.1) u = 0 -> LvFormat.sequence y.1 < e_seq e) ->
  lookup_result (ucmp := ucmp) es u s r -> newest_answer ucmp (all_versions contents_after files_after) u s st value ->
  match r with
  | Some (inl v) => st = Status_OK /\ value = Some v
  | Some (inr s') => st = s' /\ value = None
  | None => newest_answer ucmp (all_versions contents files_) u s st value
  end.
Proof.
  intros Hu Hd Hnew Hr Ha. assert (Hver : forall e, e ∈ es -> ver_of e ∈ all_versions contents_after files_after) by (intros e He; apply in_after; left; by apply list_elem_of_fmap_2).
  destruct r as [ro|]; cbn [lookup_result] in Hr.
  - destruct Hr as (e & He & [Hc Hs] & -> & Hmax). rewrite Forall_forall in Hmax. destruct Ha as [(x & Hx & Hxc & Hxs & Hxm & Ht)|[Hn _]]; [|pose proof (Hn _ (Hver e He) Hc); cbn in *; lia].
    pose proof (Hxm _ (Hver e He) Hc Hs) as Hle. cbn [ver_of fst LvFormat.sequence] in Hle. apply in_after in Hx as [(e' & -> & He')%list_elem_of_fmap|Hx]; [|pose proof (Hnew e x He Hx Hc Hxc); lia].
    cbn [ver_of fst snd user_key LvFormat.sequence type] in *. pose proof (Hmax e' He' (conj Hxc Hxs)). assert (e' = e) as -> by (apply (same_entry e' e u); try done; lia).
    unfold outcome_of. destruct (e_type e); [by destruct Ht|by destruct Ht].
  - rewrite Forall_forall in Hr. destruct Ha as [(x & Hx & Hxc & Hxs & Hxm & Ht)|[Hn Hst]].
    + apply in_after in Hx as [(e' & -> & He')%list_elem_of_fmap|Hx]; [by destruct (Hr e' He')|]. left. exists x. split_and!; [done..| |done]. intros y Hy. apply Hxm, in_after. by right.
    + right. split; [|done]. intros y Hy. apply Hn, in_after. by right.
Qed.

Abbreviation holds_entries := (LvVersionGet.holds_entries (ucmp := comparator src) (ok := ok)).
Abbreviation levels_ok := (LvVersionGet.levels_ok (ucmp := comparator src) (ok := ok)).
Abbreviation newer_above := (LvVersionGet.newer_above (ucmp := comparator src) (ok := ok)).

Lemma holds_unchanged g : contents_after g = contents g -> holds_entries contents g -> holds_entries contents_after g.
Proof. intros Eg [H1 H2 H3 H4]. by constructor; rewrite Eg. Qed.

Lemma level_same level files : Forall (fun g => contents_after g = contents g) files -> LvVersionGet.level_ok (ucmp := ucmp) (ok := ok) contents level files -> LvVersionGet.level_ok (ucmp := ucmp) (ok := ok) contents_after level files.
Proof.
  intros HF [H1 H2]. rewrite Forall_forall in HF. rewrite Forall_forall in H1. split; [apply Forall_forall; intros g Hg; by apply holds_unchanged; auto|].
  destruct level as [|level]; [|done]. intros g g' x y u s Hg Hg'. rewrite (HF g Hg), (HF g' Hg'). by apply H2.
Qed.

Lemma rest_same : Forall (fun files => Forall (fun g => contents_after g = contents g) files) rest.
Proof.
  cbn [concat] in Hless. apply Forall_app in Hless as [_ Hr]. apply Forall_forall. intros files Hin. apply Forall_forall. intros g Hg. rewrite Forall_forall in Hr. apply contents_other, Hr.
  rewrite list_elem_of_In, in_concat. exists files. by rewrite <- !list_elem_of_In.
Qed.

Lemma levels_same level : levels_ok contents level rest -> levels_ok contents_after level rest.
Proof.
  pose proof rest_same as HF. revert level. clear Hless. induction rest as [|files rest' IH]; intros level; [done|]. apply Forall_cons in HF as [Hfi HF].
  intros [H1 H2]. split; [by apply level_same|by apply IH].
Qed.

Lemma newer_same : newer_above contents rest -> newer_above contents_after rest.
Proof.
  pose proof rest_same as HF. clear Hless. induction rest as [|files rest' IH]; [done|]. apply Forall_cons in HF as [Hfi HF]. intros [H1 H2]. split; [|by apply IH].
  assert (Ef : level_versions contents_after files = level_versions contents files) by (unfold level_versions; f_equal; apply map_ext_in; intros g Hg%list_elem_of_In; rewrite Forall_forall in Hfi; by apply Hfi).
  assert (Er : all_versions contents_after rest' = all_versions contents rest').
  { unfold all_versions. f_equal. apply map_ext_in. intros fs Hfs%list_elem_of_In. unfold level_versions. f_equal. apply map_ext_in. intros g Hg%list_elem_of_In.
    rewrite Forall_forall in HF. specialize (HF fs Hfs). rewrite Forall_forall in HF. by apply HF. }
  rewrite Ef, Er. exact H1.
Qed.

(** The memtable is newer than the files. *)
Definition newer_than_files : Prop := forall e y u, e ∈ es -> y ∈ all_versions contents files_ -> ok u -> Compare ucmp (e_key e) u = 0 -> Compare ucmp (user_key y.1) u = 0 ->
  LvFormat.sequence y.1 < e_seq e.

Context (Hnew : newer_than_files).

Lemma versions_sorted mem : MemHolds mem es -> StronglySorted (precedes (ucmp := ucmp)) (map ver_of es).
Proof.
  intros HM. pose proof (Holds_sorted mem es HM) as HS. clear Hnew HM. induction es as [|e l IH]; [constructor|]. apply StronglySorted_inv in HS as [HS HF]. apply Forall_cons in Hv as [He Hvl].
  constructor; [by apply IH|]. apply Forall_map. rewrite Forall_forall in HF. rewrite Forall_forall in Hvl. apply Forall_forall. intros x Hx. specialize (HF x Hx). cbn beta in HF.
  rewrite compare_entries in HF by auto. exact HF.
Qed.

Lemma flushed_holds mem a b : MemHolds mem es -> head es = Some a -> last es = Some b -> f_smallest f = e_ikey a -> f_largest f = e_ikey b -> holds_entries contents_after f.
Proof.
  intros HM Ha Hb Es El. constructor; rewrite contents_f.
  - apply versions_ok.
  - by apply (versions_sorted mem).
  - exists (ver_of a). rewrite Es. split; [|done]. rewrite head_lookup, list_lookup_fmap, <- head_lookup. by rewrite Ha.
  - exists (ver_of b). rewrite El. split; [|done]. by rewrite fmap_last, Hb.
Qed.

(** Files of level 0 against each other, with the new one. *)
Lemma level0_after : holds_entries contents_after f -> LvVersionGet.level_ok (ucmp := ucmp) (ok := ok) contents 0 (l1 ++ l2) -> LvVersionGet.level_ok (ucmp := ucmp) (ok := ok) contents_after 0 (l1 ++ f :: l2).
Proof.
  intros Hh HL. pose proof Hless as Hle. cbn [concat] in Hle. apply Forall_app in Hle as [Hle _]. assert (Hsame : Forall (fun g => contents_after g = contents g) (l1 ++ l2)).
  { apply (Forall_impl _ _ _ Hle). intros g. by apply contents_other. }
  apply (level_same 0) in HL; [|done]. destruct HL as [H1 H2]. split.
  { apply Forall_app in H1 as [H3 H4]. apply Forall_app. split; [done|]. by constructor. }
  assert (Hin : forall g, g ∈ l1 ++ f :: l2 -> g = f \/ g ∈ l1 ++ l2) by (intros g; rewrite !elem_of_app, elem_of_cons; tauto).
  rewrite Forall_forall in Hle. intros g g' x y u s [->|Hg]%Hin [->|Hg']%Hin Hge Hu Hx Hy Hvx Hvy; [by left| | |by apply (H2 g g' x y u s)].
  - right. apply Z.lt_le_incl. rewrite contents_f in Hx. apply list_elem_of_fmap in Hx as (e & -> & He). rewrite contents_other in Hy by auto. apply (Hnew e y u He); [|done|by destruct Hvx|by destruct Hvy].
    unfold all_versions. cbn [map concat]. apply elem_of_app. left. apply in_level. by exists g'.
  - specialize (Hle g Hg). cbn in Hle. rewrite Hf in Hge. lia.
Qed.

Lemma newer_after : newer_above contents files_ -> newer_above contents_after files_after.
Proof.
  intros [H1 H2]. split; [|by apply newer_same]. intros x y u s Hu Hx Hy Hvx Hvy. rewrite all_versions_rest in Hy.
  pose proof Hless as Hle. cbn [concat] in Hle. apply Forall_app in Hle as [[Hle1 Hle2]%Forall_app _].
  assert (Hx' : x ∈ map ver_of es \/ x ∈ level_versions contents (l1 ++ l2)).
  { apply in_level in Hx as (g & Hg & Hx). rewrite Forall_forall in Hle1. rewrite Forall_forall in Hle2. apply elem_of_app in Hg as [Hg|[->|Hg]%elem_of_cons].
    - right. rewrite contents_other in Hx by auto. apply in_level. exists g. split; [|done]. apply elem_of_app. by left.
    - left. by rewrite contents_f in Hx.
    - right. rewrite contents_other in Hx by auto. apply in_level. exists g. split; [|done]. apply elem_of_app. by right. }
  destruct Hx' as [(e & -> & He)%list_elem_of_fmap|Hx']; [|by apply (H1 x y u s)]. apply Z.lt_le_incl, (Hnew e y u He); [|done|by destruct Hvx|by destruct Hvy].
  unfold all_versions. cbn [map concat]. apply elem_of_app. by right.
Qed.
End Reads.

Lemma is_table_after contents n mem es bs seps f : MemHolds mem es -> f_number f = n -> concat bs = map entry_kv es -> f_size f = size (table_file o bs seps) ->
  is_table src ok (<[n := (bs, seps)]> tables) (contents_after contents n es) f.
Proof.
  intros HM Hf Hcat Hsz. exists bs, seps. rewrite Hf, lookup_insert_eq. split; [done|]. split; [done|]. rewrite (contents_f contents n es f Hf). split; [by rewrite Hcat, map_map|].
  apply versions_ok. by destruct HM.
Qed.

Lemma is_table_other contents n es bs seps g : f_number g < n -> is_table src ok tables contents g -> is_table src ok (<[n := (bs, seps)]> tables) (contents_after contents n es) g.
Proof.
  intros Hg (bs' & seps' & E1 & E2). exists bs', seps'. rewrite lookup_insert_ne by lia. split; [done|]. by rewrite contents_other.
Qed.

(** C8: flushing a memtable is invisible to readers: [WriteLevel0Table] on a disk
    that does not fail, without a base version, returns OK and adds one file to
    the edit, number [next_file_number_] of level 0, with the first and the last
    key of the memtable as its bounds; in the version with this file anywhere in
    level 0, [Version::Get], which opens the new table through the table cache
    and decodes it, returns for any user key and snapshot what the memtable
    said about it, value or deletion, and where the memtable said nothing what
    the files from before say. *)
Theorem flush_invisible contents mem es edit l1 l2 rest opened m q held1 held2 options u s (st : Flush (E := E) (G := G) (C := C) (BC := BC)) :
  let n := vs_next_file_number (fl_versions st) in
  let files_ := (l1 ++ l2) :: rest in
  MemHolds mem es -> es <> [] -> flushable es B -> versions_distinct (ucmp := ucmp) es -> newer_than_files contents es l1 l2 rest ->
  Forall (fun g => f_number g < n) (concat files_) -> 0 < n -> n + 1 < 2 ^ 64 -> tables !! n = None -> Z.of_nat (S (base.size tables)) < 2 ^ 31 ->
  Forall (is_table src ok tables contents) (concat files_) ->
  levels_ok (ucmp := ucmp) (ok := ok) contents 0 files_ -> newer_above (ucmp := ucmp) (ok := ok) contents files_ ->
  Z.of_nat (length held1) + 2 < 2 ^ 31 -> Z.of_nat (length held2) < 2 ^ 30 -> ok u -> seq_ok s -> size u < 2 ^ 32 - 13 ->
  Inv d tables B opened m (S (S (length (concat files_)) + q)) held1 held2 (fl_cache st) ->
  exists f st' r st0 value stats t', f_number f = n /\ e_ikey <$> head es = Some (f_smallest f) /\ e_ikey <$> last es = Some (f_largest f) /\
    Write0 mem edit None st = Ret ((Status_OK, AddFile 0 n (f_size f) (f_smallest f) (f_largest f) edit, mem), st') /\
    MemTable_Get ucmp (LookupKey_new u s) mem = Ret (r, mem) /\
    Version_Get (TR := cache_reader (H := H) (BH := BH) raddr dbname_ o options) ucmp ((l1 ++ f :: l2) :: rest) (LookupKey_new u s) (fl_cache st') = Ret ((st0, value, stats), t') /\
    match r with
    | Some (inl v) => st0 = Status_OK /\ value = Some v
    | Some (inr s') => st0 = s' /\ value = None
    | None => newest_answer ucmp (all_versions contents files_) u s st0 value
    end.
Proof.
  intros n files_ HM Hne Hfl Hd Hnewer Hless Hn0 Hn1 Hnew Hfew Htab HL HN Hh1 Hh2 Hu Hs Hsz HI.
  destruct (WriteLevel0Table_spec mem es edit None 0 opened m _ held1 held2 st HM Hne Hfl Hn0 Hn1 Hnew Hfew ltac:(done) HI Hh1 Hh2)
    as (name & bs & seps & a & b & t1 & opened' & m' & Hname & Ew & Ha & Hb & Hcat & HT' & HI').
  set (f := {| f_ptr := O; f_number := n; f_size := size (table_file o bs seps); f_smallest := e_ikey a; f_largest := e_ikey b |}).
  destruct (Get_spec u s Hu ltac:(lia) Hs mem es HM) as (r & Er & Hr). assert (Hv : Forall (LvMemTable.entry_valid (ok := ok)) es) by apply HM.
  pose proof (flushed_holds contents n es Hv f eq_refl mem a b HM Ha Hb eq_refl eq_refl) as Hh.
  assert (HL' : levels_ok (ucmp := ucmp) (ok := ok) (contents_after contents n es) 0 ((l1 ++ f :: l2) :: rest)).
  { destruct HL as [HL1 HL2]. split; [by apply (level0_after contents n es l1 l2 rest)|by apply (levels_same contents n es l1 l2 rest)]. }
  pose proof (newer_after contents n es l1 l2 rest f eq_refl Hless Hnewer HN) as HN'.
  assert (Hf' : forall g, g ∈ concat ((l1 ++ f :: l2) :: rest) -> is_table src ok (<[n := (bs, seps)]> tables) (contents_after contents n es) g).
  { intros g Hg. assert (Hc : g = f \/ g ∈ concat files_) by (unfold files_; cbn [concat] in Hg |- *; rewrite !elem_of_app, elem_of_cons in Hg; rewrite !elem_of_app; tauto).
    destruct Hc as [->|Hc]; [by apply (is_table_after contents n mem es)|]. rewrite Forall_forall in Hless, Htab. apply is_table_other; auto. }
  destruct (Version_Get_spec ucmp ok (contents_after contents n es) _ ((l1 ++ f :: l2) :: rest)
    (TL := cache_reader_laws (Contains := Contains) (Open := Open) (Holds := Holds) raddr dbname_ src options ok c Hinterval Hpolicy _ _ B HT' (contents_after contents n es) (concat ((l1 ++ f :: l2) :: rest)) held1 held2 Hf' Hh1 Hh2)
    u s q t1 Hu Hs Hsz HL' HN') as (st0 & value & stats & t2 & E2 & _ & Hans).
  { exists opened', m'. replace (length (concat ((l1 ++ f :: l2) :: rest)) + q)%nat with (S (length (concat files_)) + q)%nat; [done|]. unfold files_. cbn [concat]. rewrite !length_app. cbn [length]. lia. }
  exists f. do 6 eexists. split; [done|]. split; [by rewrite Ha|]. split; [by rewrite Hb|]. split; [exact Ew|]. split; [exact Er|]. split; [exact E2|].
  apply (answers_agree contents n es Hv l1 l2 rest f eq_refl Hless u s r st0 value Hu Hd); [|exact Hr|exact Hans]. intros e y He Hy. by apply Hnewer.
Qed.
End FlushProps.

(** * An instance: files in memory *)

#[export] Instance MemDisk_env : Env MemDisk := {
  Env_WriteStringToFileSync data fname := fun d => Ret (Status_OK, <[fname := data]> d);
  Env_RenameFile a b := fun d => match (d !! a : option Slice) with
                                 | Some w => Ret (Status_OK, <[b := w]> (delete a d))
                                 | None => Ret (Status_NotFound a [], d)
                                 end;
  Env_DeleteFile fname := fun d => Ret (Status_OK, delete fname d)
}.

(** A descriptor is the name of the file. *)
#[export] Instance MemDisk_file : WritableFile (Slice * MemDisk) := {
  File_Append data := fun x => Ret (Status_OK, (x.1, <[x.1 := default [] (x.2 !! x.1) ++ data]> x.2));
  File_Close := ret Status_OK;
  File_Flush := ret Status_OK;
  File_Sync := ret Status_OK
}.

#[export] Instance MemDisk_writable : WritableFiles MemDisk Slice := {
  Env_NewWritable name := fun d => Ret ((Status_OK, Some name), <[name := []]> d)
}.

Definition mem_writing (name : Slice) (d : MemDisk) (x : Slice * MemDisk) (w : Slice) : Prop := x = (name, <[name := w]> d).

#[export] Instance MemDisk_writable_laws : WritableFilesLaws MemDisk Slice eq mem_writing.
Proof.
  constructor.
  - intros name d. constructor.
    + intros x w data ->. eexists. split; [reflexivity|]. unfold mem_writing. cbn [fst snd]. by rewrite lookup_insert_eq, insert_insert_eq.
    + intros x w Hx. by exists x.
    + intros x w Hx. by exists x.
  - intros e d name <-. by exists name, (<[name := []]> e).
  - intros name d x w ->. by eexists.
  - intros e d name <-. by exists Status_OK, (delete name e).
Qed.

(** A memtable with one entry, and a database without tables. *)
Definition sample_entry : LvMemTable.Entry := {| e_key := chars "a"; e_seq := 9; e_type := kTypeValue; e_value := chars "new" |}.

Lemma sample_memtable : exists mem, LvMemTable.Holds (ucmp := BytewiseComparator) (ok := is_bytes) mem [sample_entry].
Proof.
  destruct (Add_all_spec (ucmp := BytewiseComparator) (ok := is_bytes) [sample_entry] MemTable_new []) as (mem & all & _ & HM & HP).
  - apply LvMemTable.Holds_new.
  - apply Forall_cons_2; [|apply Forall_nil_2]. constructor; [solve_bytes|by vm_compute|by vm_compute|by vm_compute].
  - split; [apply Forall_nil_2|done].
  - apply Forall_cons_2; apply Forall_nil_2.
  - exists mem. apply Permutation_singleton_r in HP. by rewrite <- HP.
Qed.

Definition sample_version_set : VersionSet := {|
  vs_next_file_number := 4; vs_manifest_file_number := 2; vs_last_sequence := 9; vs_log_number := 3; vs_prev_log_number := 0;
  vs_current := None; vs_chain := []; vs_pointers := []; vs_versions := ∅; vs_files := ∅; vs_fresh := O |}.

Abbreviation no_tables := (∅ : gmap Z (list (list (Slice * Slice)) * list Slice)).

Lemma no_tables_ok dbname o ok c {TC : TableComparator (comparator o) ok} d B : TablesOk dbname o ok c d no_tables B.
Proof. constructor; [intros n x Hn|intros n bs seps Hn..|done]; by rewrite lookup_empty in Hn. Qed.

(** Nothing is open yet. *)
Lemma sample_cache_inv o ok c {TC : TableComparator (comparator o) ok} tables d B k : TablesOk (chars "/db") o ok c d tables B -> Z.of_nat (k * B) < 2 ^ 31 -> Z.of_nat k < 2 ^ 64 ->
  CacheInv (Contains := eq) (Disk := eq) (Open := Sharded_Holds) (Holds := Sharded_Holds) o d tables B ∅ 0 k [] [] (sample_cache_state d).
Proof.
  intros HT HB Hk. constructor.
  - reflexivity.
  - intros p n rep Hp. by rewrite lookup_empty in Hp.
  - intros p n rep _ Hp. by rewrite lookup_empty in Hp.
  - intros p n rep p' n' rep' _ Hp. by rewrite lookup_empty in Hp.
  - lia.
  - exists 0. apply Sharded_new_spec. by eapply table_entry_few.
  - apply Sharded_new_spec. eapply block_entry_few; [exact HT|]. by rewrite map_size_empty.
  - by rewrite map_size_empty.
Qed.

Lemma flush_invisible_witness : exists (mem : MemTable) (f : File) (st st' : Flush (E := MemDisk) (G := MemFile) (C := ShardedLRUCache TableAndFile) (BC := ShardedLRUCache Block)) value stats t',
  WriteLevel0Table (W := Slice) (TCC := Sharded_cache next_address) (BCC := Sharded_cache next_address) 0 0 0 2 2 (chars "/db") BytewiseComparator (SanitizeOptions sample_options)
    mem VersionEdit_new None st = Ret ((Status_OK, AddFile 0 4 (f_size f) (f_smallest f) (f_largest f) VersionEdit_new, mem), st') /\ f_smallest f = e_ikey sample_entry /\
  Version_Get (TR := cache_reader (TCC := Sharded_cache next_address) (BCC := Sharded_cache next_address) 0 (chars "/db") (SanitizeOptions sample_options) ReadOptions_new)
    BytewiseComparator [[f]; []; []; []; []; []; []] (LookupKey_new (chars "a") 10) (fl_cache st') = Ret ((Status_OK, value, stats), t') /\ value = Some (chars "new").
Proof.
  destruct sample_memtable as (mem & HM). set (st := {| fl_versions := sample_version_set; fl_cache := sample_cache_state ∅; fl_pending := ∅ |}).
  destruct (flush_invisible (W := Slice) (Contains := eq) (Disk := eq) (Writing := mem_writing) (CL1 := Sharded_laws next_address next_address_fresh) (CL2 := Sharded_laws next_address next_address_fresh)
    0 0 0 2 (chars "/db") sample_options is_bytes 20 ltac:(cbn; lia) sample_policy_ok ∅ no_tables 1 (no_tables_ok _ _ _ _ _ _) ltac:(lia)
    (fun _ => []) mem [sample_entry] VersionEdit_new [] [] [[]; []; []; []; []; []] ∅ 0 0 [] [] ReadOptions_new (chars "a") 10 st) as (f & st' & r & st0 & value & stats & t' & Hn & Hf & _ & Ew & Er & Ev & Ha).
  - exact HM.
  - discriminate.
  - constructor; [apply Forall_cons_2; [solve_bytes|apply Forall_nil_2]|by vm_compute|by vm_compute|cbn; lia].
  - split; [apply Forall_nil_2|done].
  - intros e y u _ Hy. apply elem_of_nil in Hy. destruct Hy.
  - apply Forall_nil_2.
  - cbn. lia.
  - cbn. lia.
  - apply lookup_empty.
  - by vm_compute.
  - apply Forall_nil_2.
  - cbn. repeat split; try apply Forall_nil_2; try apply SSorted_nil. intros g g' x y u s Hg. apply elem_of_nil in Hg. destruct Hg.
  - cbn. repeat split; intros x y u s _ Hx; apply elem_of_nil in Hx; destruct Hx.
  - cbn. lia.
  - cbn. lia.
  - solve_bytes.
  - split; vm_compute; discriminate.
  - by vm_compute.
  - apply (sample_cache_inv _ (internal_key_ok is_bytes) 20); [apply no_tables_ok|by vm_compute|by vm_compute].
  - exists mem, f, st, st'. destruct (Get_spec (ucmp := BytewiseComparator) (ok := is_bytes) (chars "a") 10 ltac:(solve_bytes) ltac:(by vm_compute) ltac:(split; vm_compute; discriminate) mem _ HM) as (r' & Er' & Hr').
    cbn [comparator sample_options] in Er. assert (r' = r) as -> by congruence. destruct r as [ro|].
    + destruct Hr' as (e & He%list_elem_of_singleton & _ & -> & _). subst e. destruct Ha as [-> ->]. exists (Some (chars "new")), stats, t'. split; [exact Ew|]. split; [by injection Hf|]. split; [exact Ev|done].
    + apply Forall_cons in Hr' as [Hr' _]. destruct Hr'. by vm_compute.
Defined.
