(* ===== verification/LvWrite.v ===== *)
(** Writing to the database ([db/db_impl.cc], [Write], [BuildBatchGroup],
    [MakeRoomForWrite]): threads queue up, the one in front writes the batches of
    several to the log and the memtable at once. The code releases the mutex
    while it writes and when it waits; a step is what happens between two
    releases, and the steps of several threads and of the background thread
    interleave. Every run is one of a store that applies whole writes, one after
    the other, in the order in which they came. *)

From stdpp Require Import base list gmap strings.
From Stdlib Require Import ZArith Lia.
From S2P Require Import Prelude LvSlice LvCoding LvFormat LvMemTable LvWriteBatch LvEnv LvLog LvFilename LvOptions LvManifest.

Definition kL0_SlowdownWritesTrigger : Z := 8.
Definition kL0_StopWritesTrigger : Z := 12.

(** [DBImpl::Writer]; its status and [done] are the record of what it returned. *)
Record Waiter : Type := { w_id : nat; w_batch : option WriteBatch; w_sync : bool }.

(** ** Groups *)

(** From the second writer on: the temporary batch, once it is used, and the
    number of writers after the first. *)
Fixpoint group_loop (tmp : WriteBatch) (first_sync : bool) (first_batch : WriteBatch) (max_size size : Z) (result : option WriteBatch) (last : nat) (rest : list Waiter)
    : option (option WriteBatch * nat) :=
  match rest with
  | [] => Some (result, last)
  | w :: rest =>
      if w_sync w && negb first_sync then Some (result, last)
      else
        match w_batch w with
        | None => group_loop tmp first_sync first_batch max_size size result (S last) rest
        | Some b =>
            let size := u64 (size + WriteBatch_ByteSize b) in
            if size >? max_size then Some (result, last)
            else
              result ← match result with
                       | Some r => Some r
                       | None => if WriteBatch_Count tmp =? 0 then WriteBatch_Append tmp first_batch else None
                       end;
              result ← WriteBatch_Append result b;
              group_loop tmp first_sync first_batch max_size size (Some result) (S last) rest
        end
  end.

(** The batch to write, whether it is the temporary one, and the number of
    writers in the group. *)
Definition BuildBatchGroup (tmp : WriteBatch) (writers : list Waiter) : option (WriteBatch * bool * nat) :=
  match writers with
  | [] => None
  | first :: rest =>
      first_batch ← w_batch first;
      let size := WriteBatch_ByteSize first_batch in
      let max_size := if size <=? Z.shiftl 128 10 then u64 (size + Z.shiftl 128 10) else Z.shiftl 1 20 in
      '(result, last) ← group_loop tmp (w_sync first) first_batch max_size size None 0 rest;
      Some (match result with Some r => (r, true, S last) | None => (first_batch, false, S last) end)
  end.

(** ** The database *)

Section Write.
Context {E F G : Type} `{OF : OpenFiles E F G} `{WF : WritableFile F}.
Context (address : list Z -> Z) (ucmp : Comparator) (dbname_ : Slice) (write_buffer_size : Z) (ApproximateMemoryUsage : MemTable -> Z).

(** Where the writer in front is: not begun, in [MakeRoomForWrite], or writing a
    group, before the log, before the memtable, or with both done. *)
Inductive Phase : Type :=
| Idle
| MakingRoom (force allow_delay : bool)
| Logging (updates : WriteBatch) (is_tmp : bool) (last_sequence : Z) (group : nat)
| Inserting (updates : WriteBatch) (is_tmp : bool) (last_sequence : Z) (group : nat) (status : Status) (sync_error : bool)
| Finishing (is_tmp : bool) (last_sequence : Z) (group : nat) (status : Status) (sync_error : bool).

(** The files of level 0 and the numbers are those of the version set. Two fields
    record what happened, and no step reads them: [returned_] the calls that have a
    result, and [flushed_] the memtables that were written to a table and dropped,
    both in order. *)
Record DbW : Type := {
  writers_ : list Waiter; tmp_batch_ : WriteBatch; bg_error_ : Status; db_mem_ : MemTable; imm_ : option MemTable;
  log_ : Writer F; logfile_number_ : Z; db_env_ : E; next_file_number_ : Z; prev_log_number_ : Z; level0_files : Z; last_sequence_ : Z;
  phase : Phase; returned_ : list (Waiter * Status); flushed_ : list MemTable
}.

Definition with_phase (p : Phase) (d : DbW) : DbW := {|
  writers_ := writers_ d; tmp_batch_ := tmp_batch_ d; bg_error_ := bg_error_ d; db_mem_ := db_mem_ d; imm_ := imm_ d; log_ := log_ d; logfile_number_ := logfile_number_ d;
  db_env_ := db_env_ d; next_file_number_ := next_file_number_ d; prev_log_number_ := prev_log_number_ d; level0_files := level0_files d; last_sequence_ := last_sequence_ d;
  phase := p; returned_ := returned_ d; flushed_ := flushed_ d |}.

(** [writers_.push_back(&w)]. *)
Definition enqueue (w : Waiter) (d : DbW) : DbW := {|
  writers_ := writers_ d ++ [w]; tmp_batch_ := tmp_batch_ d; bg_error_ := bg_error_ d; db_mem_ := db_mem_ d; imm_ := imm_ d; log_ := log_ d; logfile_number_ := logfile_number_ d;
  db_env_ := db_env_ d; next_file_number_ := next_file_number_ d; prev_log_number_ := prev_log_number_ d; level0_files := level0_files d; last_sequence_ := last_sequence_ d;
  phase := phase d; returned_ := returned_ d; flushed_ := flushed_ d |}.

(** ** Room *)

Inductive Room : Type := Made (s : Status) | Again (force allow_delay : bool) | Wait.

Definition new_memtable (number next : Z) (e : E) (l : Writer F) (d : DbW) : DbW := {|
  writers_ := writers_ d; tmp_batch_ := tmp_batch_ d; bg_error_ := bg_error_ d; db_mem_ := MemTable_Ref MemTable_new; imm_ := Some (db_mem_ d); log_ := l;
  logfile_number_ := number; db_env_ := e; next_file_number_ := next; prev_log_number_ := prev_log_number_ d; level0_files := level0_files d; last_sequence_ := last_sequence_ d;
  phase := phase d; returned_ := returned_ d; flushed_ := flushed_ d |}.

Definition no_memtable (next : Z) (e : E) (d : DbW) : DbW := {|
  writers_ := writers_ d; tmp_batch_ := tmp_batch_ d; bg_error_ := bg_error_ d; db_mem_ := db_mem_ d; imm_ := imm_ d; log_ := log_ d; logfile_number_ := logfile_number_ d;
  db_env_ := e; next_file_number_ := next; prev_log_number_ := prev_log_number_ d; level0_files := level0_files d; last_sequence_ := last_sequence_ d;
  phase := phase d; returned_ := returned_ d; flushed_ := flushed_ d |}.

(** A round of the loop of [MakeRoomForWrite]. *)
Definition room_round (force allow_delay : bool) : M DbW Room :=
  let* d := get in
  if negb (Status_ok (bg_error_ d)) then ret (Made (bg_error_ d))
  else if allow_delay && (level0_files d >=? kL0_SlowdownWritesTrigger) then ret (Again force false)
  else if negb force && (ApproximateMemoryUsage (db_mem_ d) <=? write_buffer_size) then ret (Made Status_OK)
  else if match imm_ d with Some _ => true | None => false end then ret Wait
  else if level0_files d >=? kL0_StopWritesTrigger then ret Wait
  else if negb (prev_log_number_ d =? 0) then undef
  else
    let number := next_file_number_ d in
    let* name := need (LogFileName dbname_ number) in
    match Env_NewWritableFile name (db_env_ d) with
    | Ret ((s, lfile), e) =>
        if negb (Status_ok s) then put (no_memtable number e d) ;;; ret (Made s)
        else
          let* lfile := need lfile in
          put (new_memtable number (u64 (number + 1)) e (Writer_new address lfile 0) d) ;;; ret (Again false allow_delay)
    | Undef => undef
    | NoFuel => nofuel
    end.

(** ** A write *)

(** The writers of the group return. *)
Definition finish_group (group : nat) (status : Status) (d : DbW) : DbW := {|
  writers_ := drop group (writers_ d); tmp_batch_ := tmp_batch_ d; bg_error_ := bg_error_ d; db_mem_ := db_mem_ d; imm_ := imm_ d; log_ := log_ d; logfile_number_ := logfile_number_ d;
  db_env_ := db_env_ d; next_file_number_ := next_file_number_ d; prev_log_number_ := prev_log_number_ d; level0_files := level0_files d; last_sequence_ := last_sequence_ d;
  phase := Idle; returned_ := returned_ d ++ map (fun w => (w, status)) (take group (writers_ d)); flushed_ := flushed_ d |}.

Definition with_tmp (b : WriteBatch) (d : DbW) : DbW := {|
  writers_ := writers_ d; tmp_batch_ := b; bg_error_ := bg_error_ d; db_mem_ := db_mem_ d; imm_ := imm_ d; log_ := log_ d; logfile_number_ := logfile_number_ d;
  db_env_ := db_env_ d; next_file_number_ := next_file_number_ d; prev_log_number_ := prev_log_number_ d; level0_files := level0_files d; last_sequence_ := last_sequence_ d;
  phase := phase d; returned_ := returned_ d; flushed_ := flushed_ d |}.

(** The writer in front begins. *)
Definition begin_write : M DbW unit :=
  let* d := get in
  let* w := need (head (writers_ d)) in
  let force := match w_batch w with None => true | Some _ => false end in
  put (with_phase (MakingRoom force (negb force)) d).

(** [MakeRoomForWrite] has returned: the group is built, or the write ends. *)
Definition have_room (status : Status) : M DbW unit :=
  let* d := get in
  let* w := need (head (writers_ d)) in
  if Status_ok status && match w_batch w with Some _ => true | None => false end then
    let* '(updates, is_tmp, group) := need (BuildBatchGroup (tmp_batch_ d) (writers_ d)) in
    let updates := WriteBatch_SetSequence updates (u64 (last_sequence_ d + 1)) in
    let last_sequence := u64 (last_sequence_ d + WriteBatch_Count updates) in
    put (with_phase (Logging updates is_tmp last_sequence group) (if is_tmp : bool then with_tmp updates d else d))
  else put (finish_group 1 status d).

Definition make_room (force allow_delay : bool) : M DbW unit :=
  let* r := room_round force allow_delay in
  match r with
  | Made s => have_room s
  | Again force allow_delay => let* d := get in put (with_phase (MakingRoom force allow_delay) d)
  | Wait => ret tt
  end.

Definition with_log (l : Writer F) (p : Phase) (d : DbW) : DbW := {|
  writers_ := writers_ d; tmp_batch_ := tmp_batch_ d; bg_error_ := bg_error_ d; db_mem_ := db_mem_ d; imm_ := imm_ d; log_ := l; logfile_number_ := logfile_number_ d;
  db_env_ := db_env_ d; next_file_number_ := next_file_number_ d; prev_log_number_ := prev_log_number_ d; level0_files := level0_files d; last_sequence_ := last_sequence_ d;
  phase := p; returned_ := returned_ d; flushed_ := flushed_ d |}.

(** [log_->AddRecord], and [logfile_->Sync] for a synchronous write. *)
Definition log_updates (sync : bool) (updates : WriteBatch) : M (Writer F) (Status * bool) :=
  let* s := AddRecord address (WriteBatch_Contents updates) in
  if Status_ok s && sync then let* s := on_dest File_Sync in ret (s, negb (Status_ok s)) else ret (s, false).

Definition write_log (updates : WriteBatch) (is_tmp : bool) (last_sequence : Z) (group : nat) : M DbW unit :=
  let* d := get in
  let* w := need (head (writers_ d)) in
  match log_updates (w_sync w) updates (log_ d) with
  | Ret ((s, sync_error), l) => put (with_log l (Inserting updates is_tmp last_sequence group s sync_error) d)
  | Undef => undef
  | NoFuel => nofuel
  end.

Definition with_mem (m : MemTable) (p : Phase) (d : DbW) : DbW := {|
  writers_ := writers_ d; tmp_batch_ := tmp_batch_ d; bg_error_ := bg_error_ d; db_mem_ := m; imm_ := imm_ d; log_ := log_ d; logfile_number_ := logfile_number_ d;
  db_env_ := db_env_ d; next_file_number_ := next_file_number_ d; prev_log_number_ := prev_log_number_ d; level0_files := level0_files d; last_sequence_ := last_sequence_ d;
  phase := p; returned_ := returned_ d; flushed_ := flushed_ d |}.

Definition insert_updates (updates : WriteBatch) (is_tmp : bool) (last_sequence : Z) (group : nat) (status : Status) (sync_error : bool) : M DbW unit :=
  let* d := get in
  if Status_ok status then
    match WriteBatch_InsertInto ucmp updates (db_mem_ d) with
    | Ret (s, m) => put (with_mem m (Finishing is_tmp last_sequence group s sync_error) d)
    | Undef => undef
    | NoFuel => nofuel
    end
  else put (with_phase (Finishing is_tmp last_sequence group status sync_error) d).

Definition RecordBackgroundError (s : Status) (d : DbW) : DbW := {|
  writers_ := writers_ d; tmp_batch_ := tmp_batch_ d; bg_error_ := if Status_ok (bg_error_ d) then s else bg_error_ d; db_mem_ := db_mem_ d; imm_ := imm_ d; log_ := log_ d;
  logfile_number_ := logfile_number_ d; db_env_ := db_env_ d; next_file_number_ := next_file_number_ d; prev_log_number_ := prev_log_number_ d; level0_files := level0_files d;
  last_sequence_ := last_sequence_ d; phase := phase d; returned_ := returned_ d; flushed_ := flushed_ d |}.

Definition SetLastSequence (s : Z) (d : DbW) : DbW := {|
  writers_ := writers_ d; tmp_batch_ := tmp_batch_ d; bg_error_ := bg_error_ d; db_mem_ := db_mem_ d; imm_ := imm_ d; log_ := log_ d; logfile_number_ := logfile_number_ d;
  db_env_ := db_env_ d; next_file_number_ := next_file_number_ d; prev_log_number_ := prev_log_number_ d; level0_files := level0_files d; last_sequence_ := s;
  phase := phase d; returned_ := returned_ d; flushed_ := flushed_ d |}.

(** With the mutex again. *)
Definition end_write (is_tmp : bool) (last_sequence : Z) (group : nat) (status : Status) (sync_error : bool) : M DbW unit :=
  let* d := get in
  let d := if sync_error then RecordBackgroundError status d else d in
  let d := if is_tmp then with_tmp WriteBatch_Clear d else d in
  put (finish_group group status (SetLastSequence last_sequence d)).

(** What the thread of the writer in front does next. *)
Definition leader_step : M DbW unit :=
  let* d := get in
  match phase d with
  | Idle => begin_write
  | MakingRoom force allow_delay => make_room force allow_delay
  | Logging updates is_tmp last group => write_log updates is_tmp last group
  | Inserting updates is_tmp last group s e => insert_updates updates is_tmp last group s e
  | Finishing is_tmp last group s e => end_write is_tmp last group s e
  end.

(** What the background thread changes of this: the memtable it has written to a
    file ([imm_] is dropped only then), the files of level 0, file numbers and
    errors. *)
Definition background (imm_done : bool) (level0 next : Z) (error : Status) (e : E) (d : DbW) : DbW := {|
  writers_ := writers_ d; tmp_batch_ := tmp_batch_ d; bg_error_ := if Status_ok (bg_error_ d) then error else bg_error_ d; db_mem_ := db_mem_ d;
  imm_ := if imm_done then None else imm_ d; log_ := log_ d; logfile_number_ := logfile_number_ d; db_env_ := e; next_file_number_ := next; prev_log_number_ := prev_log_number_ d;
  level0_files := level0; last_sequence_ := last_sequence_ d; phase := phase d; returned_ := returned_ d; 
  flushed_ := if imm_done then flushed_ d ++ option_list (imm_ d) else flushed_ d |}.

Inductive db_step (may_arrive : DbW -> Waiter -> Prop) : DbW -> DbW -> Prop :=
| step_arrive w d : may_arrive d w -> db_step may_arrive d (enqueue w d)
| step_leader d d' : leader_step d = Ret (tt, d') -> db_step may_arrive d d'
| step_background b l n s e d : db_step may_arrive d (background b l n s e d).
End Write.

(** * Groups are the batches of a prefix of the queue *)

Section Groups.
Context {ok : Slice -> Prop} (content : Waiter -> list Op).

(** The operations of some writers. *)
Definition ops_of (ws : list Waiter) : list Op := concat (map content ws).

Definition op_valid (o : Op) : Prop := forall s, seq_ok s -> entry_valid (ok := ok) (op_entry s o).

(** A writer's batch holds its operations; there is none for a request to compact. *)
Definition waiter_ok (w : Waiter) : Prop :=
  match w_batch w with
  | Some b => (exists s, Batch b s (content w)) /\ Forall op_valid (content w) /\ size (rep_ b) < 2 ^ 62
  | None => content w = []
  end.

Lemma ops_of_app l1 l2 : ops_of (l1 ++ l2) = ops_of l1 ++ ops_of l2.
Proof. unfold ops_of. by rewrite map_app, concat_app. Qed.

Lemma batch_length b s ops : Batch b s ops -> Z.of_nat (length ops) + 12 <= size (rep_ b).
Proof.
  intros [E _ _ _]. unfold size. rewrite E, !length_app, length_EncodeFixed64. change (length (EncodeFixed32 _)) with 4%nat. assert (H : (length ops <= length (concat (map record_of ops)))%nat); [|lia].
  clear. induction ops as [|o ops IH]; [done|]. cbn [map concat]. rewrite length_app. destruct o; cbn [record_of length]; lia.
Qed.

Section Group.
Context (first : Waiter) (first_batch : WriteBatch) (Hfirst : w_batch first = Some first_batch) (Hok : waiter_ok first) (max_size : Z) (Hmax : 0 <= max_size <= 2 ^ 20).

(** After some writers: nothing to add to the first batch so far, or all in the
    temporary batch. *)
Definition grouped (pre : list Waiter) (size : Z) (result : option WriteBatch) : Prop :=
  0 <= size < 2 ^ 63 /\ Z.of_nat (length (ops_of (first :: pre))) <= size /\ (size < 2 ^ 62 \/ size <= max_size) /\
  match result with
  | None => ops_of pre = []
  | Some r => Batch r 0 (ops_of (first :: pre)) /\ size <= max_size
  end.

Lemma grouped_add pre sz result b w : grouped pre sz result -> waiter_ok w -> w_batch w = Some b -> u64 (sz + WriteBatch_ByteSize b) <= max_size ->
  exists r r', match result with Some r => Some r | None => if WriteBatch_Count WriteBatch_Clear =? 0 then WriteBatch_Append WriteBatch_Clear first_batch else None end = Some r /\
    WriteBatch_Append r b = Some r' /\ grouped (pre ++ [w]) (u64 (sz + WriteBatch_ByteSize b)) (Some r').
Proof.
  intros (Hs & Hn & Hm & Hr) Hw Eb. unfold waiter_ok in Hw. rewrite Eb in Hw. destruct Hw as ((sw & Bw) & _ & Sw). pose proof (batch_length _ _ _ Bw) as Lw. pose proof (size_nonneg (rep_ b)).
  unfold WriteBatch_ByteSize. rewrite (wrap_small 64) by lia. intros Hle. unfold waiter_ok in Hok. rewrite Hfirst in Hok. destruct Hok as ((sf & Bf) & _ & Sf). pose proof (batch_length _ _ _ Bf) as Lf.
  assert (E0 : exists r, match result with Some r => Some r | None => if WriteBatch_Count WriteBatch_Clear =? 0 then WriteBatch_Append WriteBatch_Clear first_batch else None end = Some r /\ Batch r 0 (ops_of (first :: pre))).
  { destruct result as [r|]; [exists r; split; [done|apply Hr]|]. change (WriteBatch_Count WriteBatch_Clear =? 0) with true. cbv iota.
    destruct (Append_batch WriteBatch_Clear 0 [] first_batch sf (content first) Clear_batch Bf) as (r & E & Br); [cbn [length] in *; pose proof (batch_count _ _ _ Bf); lia|]. exists r. split; [done|].
    unfold ops_of. cbn [map concat]. change (concat (map content pre)) with (ops_of pre). by rewrite Hr, app_nil_r. }
  destruct E0 as (r & E & Br). destruct (Append_batch r 0 (ops_of (first :: pre)) b sw (content w) Br Bw) as (r' & E' & Br'); [lia|]. exists r, r'. split; [done|]. split; [done|].
  assert (Eops : ops_of (first :: pre ++ [w]) = ops_of (first :: pre) ++ content w) by (change (first :: pre ++ [w]) with ((first :: pre) ++ [w]); rewrite ops_of_app; f_equal; unfold ops_of; cbn; by rewrite app_nil_r).
  split; [lia|]. rewrite Eops, length_app. split; [lia|]. split; [lia|]. split; [done|lia].
Qed.

Lemma group_loop_spec rest : forall pre sz result, Forall waiter_ok rest -> grouped pre sz result ->
  exists result' n, group_loop WriteBatch_Clear (w_sync first) first_batch max_size sz result (length pre) rest = Some (result', (length pre + n)%nat) /\ (n <= length rest)%nat /\
    match result' with None => ops_of (pre ++ take n rest) = [] | Some r => Batch r 0 (ops_of (first :: pre ++ take n rest)) end.
Proof.
  assert (Hstop : forall pre sz result (rest : list Waiter), grouped pre sz result -> exists result' n, Some (result, length pre) = Some (result', (length pre + n)%nat) /\ (n <= length rest)%nat /\
    match result' with None => ops_of (pre ++ take n rest) = [] | Some r => Batch r 0 (ops_of (first :: pre ++ take n rest)) end).
  { intros pre sz result l (_ & _ & _ & Hr). exists result, O. rewrite Nat.add_0_r, take_0, app_nil_r. split; [done|]. split; [lia|]. destruct result; [apply Hr|done]. }
  induction rest as [|w rest IH]; intros pre sz result Hw Hg; cbn [group_loop]; [by eapply (Hstop _ _ _ [])|]. apply Forall_cons in Hw as [Hw Hws]. destruct (_ && _); [by eapply Hstop|].
  assert (Hnext : forall sz' result', grouped (pre ++ [w]) sz' result' -> exists result'' n, group_loop WriteBatch_Clear (w_sync first) first_batch max_size sz' result' (S (length pre)) rest = Some (result'', (length pre + n)%nat) /\
     (n <= length (w :: rest))%nat /\ match result'' with None => ops_of (pre ++ take n (w :: rest)) = [] | Some r => Batch r 0 (ops_of (first :: pre ++ take n (w :: rest))) end).
  { intros sz' result' Hg'. destruct (IH (pre ++ [w]) sz' result' Hws Hg') as (r & n & E & Hn & Hr). rewrite length_app, Nat.add_1_r in E. exists r, (S n). split; [rewrite E; do 2 f_equal; lia|].
    cbn [length take]. split; [lia|]. by rewrite <- app_assoc in Hr. }
  destruct (w_batch w) as [b|] eqn:Eb.
  - destruct (Z.gtb_spec (u64 (sz + WriteBatch_ByteSize b)) max_size) as [_|Hle]; [by eapply Hstop|]. destruct (grouped_add pre sz result b w Hg Hw Eb Hle) as (r & r' & E & E' & Hg').
    rewrite E. cbn [mbind option_bind]. rewrite E'. cbn [mbind option_bind]. by apply Hnext.
  - apply Hnext. unfold waiter_ok in Hw. rewrite Eb in Hw. destruct Hg as (H1 & H2 & H3 & H4). unfold grouped.
    assert (Ep : ops_of (pre ++ [w]) = ops_of pre) by (rewrite ops_of_app; unfold ops_of at 2; cbn; by rewrite Hw, !app_nil_r).
    assert (Ef : ops_of (first :: pre ++ [w]) = ops_of (first :: pre)) by (change (first :: pre ++ [w]) with ((first :: pre) ++ [w]); rewrite ops_of_app; unfold ops_of at 2; cbn; by rewrite Hw, !app_nil_r).
    rewrite Ef, Ep. done.
Qed.
End Group.

Lemma BuildBatchGroup_spec first rest : Forall waiter_ok (first :: rest) -> w_batch first <> None ->
  exists b is_tmp n s, BuildBatchGroup WriteBatch_Clear (first :: rest) = Some (b, is_tmp, n) /\ (1 <= n <= length (first :: rest))%nat /\ Batch b s (ops_of (take n (first :: rest))).
Proof.
  intros Hw Hne. destruct (w_batch first) as [fb|] eqn:Ef; [|done]. pose proof Hw as [Hf Hrest]%Forall_cons. pose proof Hf as Hf'. unfold waiter_ok in Hf'. rewrite Ef in Hf'. destruct Hf' as ((sf & Bf) & _ & Sf). pose proof (batch_length _ _ _ Bf) as Lf.
  unfold BuildBatchGroup. rewrite Ef. cbn [mbind option_bind]. unfold WriteBatch_ByteSize. change (Z.shiftl 128 10) with (2 ^ 17). change (Z.shiftl 1 20) with (2 ^ 20).
  set (max_size := if size (rep_ fb) <=? 2 ^ 17 then _ else _). assert (Hmax : 0 <= max_size <= 2 ^ 20).
  { unfold max_size. destruct (Z.leb_spec (size (rep_ fb)) (2 ^ 17)); [|lia]. rewrite (wrap_small 64) by lia. lia. }
  destruct (group_loop_spec first fb Ef Hf max_size Hmax rest [] (size (rep_ fb)) None Hrest) as (r & n & E & Hn & Hr).
  { unfold grouped. unfold ops_of. cbn [map concat]. rewrite app_nil_r. split; [lia|]. split; [lia|]. split; [lia|done]. }
  cbn [length plus] in E. rewrite E. cbn [mbind option_bind]. cbn [app] in Hr. destruct r as [r|].
  - exists r, true, (S n), 0. split; [done|]. cbn [length take]. split; [lia|done].
  - exists fb, false, (S n), sf. split; [done|]. cbn [length take]. split; [lia|]. unfold ops_of in *. cbn [map concat]. by rewrite Hr, app_nil_r.
Qed.
End Groups.

(** * A store that applies whole writes *)

Record Store : Type := { st_queue : list Waiter; st_results : list (Waiter * Status); st_entries : list Entry; st_sequence : Z }.

(** A writer arrives; or the first few writers of the queue get one result, and
    with success all their operations are applied, numbered in order. *)
Inductive store_step (content : Waiter -> list Op) : Store -> Store -> Prop :=
| store_arrive w t : store_step content t {| st_queue := st_queue t ++ [w]; st_results := st_results t; st_entries := st_entries t; st_sequence := st_sequence t |}
| store_write ws rest status s t : st_queue t = ws ++ rest -> ws <> [] ->
    s = st_sequence t + Z.of_nat (length (ops_of content ws)) \/ Status_ok status = false /\ s = st_sequence t ->
    store_step content t {| st_queue := rest; st_results := st_results t ++ map (fun w => (w, status)) ws;
      st_entries := (if Status_ok status then op_entries (st_sequence t + 1) (ops_of content ws) else []) ++ st_entries t; st_sequence := s |}.

(** The operation that an entry is of. *)
Definition entry_op (e : Entry) : Op := match e_type e with kTypeValue => OpPut (e_key e) (e_value e) | kTypeDeletion => OpDelete (e_key e) end.

Section Refines.
Context {E F G : Type} {OF : OpenFiles E F G} {WF : WritableFile F}.
Context (address : list Z -> Z) {ucmp : Comparator} {ok : Slice -> Prop} {UL : ComparatorLaws ucmp ok}.
Context (dbname_ : Slice) (write_buffer_size : Z) (ApproximateMemoryUsage : MemTable -> Z) (content : Waiter -> list Op).
Abbreviation D := (DbW (E := E) (F := F)).
Abbreviation Holds := (LvMemTable.Holds (ucmp := ucmp) (ok := ok)).
Abbreviation w_ok := (waiter_ok (ok := ok) content).
Abbreviation ops := (ops_of content).
Implicit Types (d : D) (t : Store).

(** Batches are well-formed, and the numbers do not run out. *)
Definition may_arrive d (w : Waiter) : Prop := w_ok w /\ last_sequence_ d + Z.of_nat (length (ops (writers_ d ++ [w]))) <= kMaxSequenceNumber.

(** In the memtable, but not yet for readers. *)
Definition pending d : list Entry :=
  match phase d with
  | Finishing _ _ g s _ => if Status_ok s then op_entries (last_sequence_ d + 1) (ops (take g (writers_ d))) else []
  | _ => []
  end.

Definition group_ok (is_tmp : bool) (last : Z) (g : nat) d : Prop :=
  (is_tmp = false -> tmp_batch_ d = WriteBatch_Clear) /\ (1 <= g <= length (writers_ d))%nat /\ last = last_sequence_ d + Z.of_nat (length (ops (take g (writers_ d)))).

Definition phase_ok d : Prop :=
  match phase d with
  | Idle => tmp_batch_ d = WriteBatch_Clear
  | MakingRoom _ _ => tmp_batch_ d = WriteBatch_Clear /\ writers_ d <> []
  | Logging u is_tmp last g | Inserting u is_tmp last g _ _ => group_ok is_tmp last g d /\ Batch u (last_sequence_ d + 1) (ops (take g (writers_ d)))
  | Finishing is_tmp last g _ _ => group_ok is_tmp last g d
  end.

(** What [mem_], [imm_] and the memtables written out hold. *)
Definition tables_with d es ies fes : Prop :=
  Holds (db_mem_ d) es /\ (match imm_ d with Some m => Holds m ies | None => ies = [] end) /\ Forall2 Holds (flushed_ d) fes.

(** The memtables hold what the store has, and what is pending. *)
Definition tables_hold d t : Prop := exists es ies fes, tables_with d es ies fes /\ es ++ ies ++ concat fes ≡ₚ pending d ++ st_entries t.

Record Rel d t : Prop := {
  rel_queue : st_queue t = writers_ d;
  rel_results : st_results t = returned_ d;
  rel_sequence : st_sequence t = last_sequence_ d;
  rel_ok : Forall w_ok (writers_ d);
  rel_bound : 0 <= last_sequence_ d /\ last_sequence_ d + Z.of_nat (length (ops (writers_ d))) <= kMaxSequenceNumber;
  rel_tables : tables_hold d t;
  rel_old : Forall (fun e => e_seq e <= last_sequence_ d) (st_entries t);
  rel_phase : phase_ok d
}.

Lemma ops_take n (ws : list Waiter) : (length (ops (take n ws)) <= length (ops ws))%nat.
Proof. rewrite <- (take_drop n ws) at 2. rewrite ops_of_app, length_app. lia. Qed.

Lemma op_entries_valid os s : Forall (op_valid (ok := ok)) os -> 0 <= s -> s + Z.of_nat (length os) - 1 <= kMaxSequenceNumber -> Forall (entry_valid (ok := ok)) (op_entries s os).
Proof.
  revert s. induction os as [|o os IH]; intros s Ho Hs Hm; cbn [op_entries]; constructor; apply Forall_cons in Ho as [Ho Hos]; cbn [length] in Hm.
  - apply Ho. split; lia.
  - apply IH; [done|lia|lia].
Qed.

Lemma op_entries_seq os s : Forall (fun e => s <= e_seq e <= s + Z.of_nat (length os) - 1) (op_entries s os).
Proof.
  apply Forall_forall. intros e He. apply op_entries_lookup in He as (i & o & Hi & ->). apply lookup_lt_Some in Hi. rewrite op_entry_seq. lia.
Qed.

Lemma ops_valid ws : Forall w_ok ws -> Forall (op_valid (ok := ok)) (ops ws).
Proof.
  induction 1 as [|w ws Hw _ IH]; [constructor|]. unfold ops_of. cbn [map concat]. apply Forall_app. split; [|done]. unfold waiter_ok in Hw.
  destruct (w_batch w); [apply Hw|]. rewrite Hw. constructor.
Qed.

(** ** The steps *)

Lemma arrive_refines d t w : Rel d t -> may_arrive d w -> Rel (enqueue w d) {| st_queue := st_queue t ++ [w]; st_results := st_results t; st_entries := st_entries t; st_sequence := st_sequence t |}.
Proof.
  intros [Hq Hr Hs Hok Hb Ht Ho Hp] [Hw Hm]. assert (Htake : forall g, (g <= length (writers_ d))%nat -> take g (writers_ d ++ [w]) = take g (writers_ d)) by (intros; by apply take_app_le).
  assert (Hg : forall is_tmp last g, group_ok is_tmp last g d -> group_ok is_tmp last g (enqueue w d)).
  { intros is_tmp last g (H1 & H2 & H3). split; [done|]. cbn [enqueue writers_ last_sequence_]. rewrite length_app, Htake by lia. split; [lia|done]. }
  constructor; cbn [st_queue st_results st_sequence st_entries]; [by rewrite Hq|done|done| |cbn [enqueue writers_ last_sequence_]; split; [lia|exact Hm]| |done|].
  - apply Forall_app. split; [done|]. by constructor.
  - destruct Ht as (es & ies & fes & H1 & H3). exists es, ies, fes. split; [done|]. rewrite H3. unfold pending. cbn [enqueue phase writers_ last_sequence_ st_entries].
    unfold phase_ok in Hp. destruct (phase d); try done. rewrite Htake by (destruct Hp as (_ & ? & _); lia). done.
  - unfold phase_ok in *. cbn [enqueue phase]. destruct (phase d) as [| |u is_tmp last g|u is_tmp last g s e|is_tmp last g s e].
    + done.
    + destruct Hp. split; [done|]. cbn [enqueue writers_]. by destruct (writers_ d).
    + destruct Hp as [H1 H2]. split; [by apply Hg|]. cbn [enqueue writers_ last_sequence_]. rewrite Htake by (destruct H1 as (_ & ? & _); lia). done.
    + destruct Hp as [H1 H2]. split; [by apply Hg|]. cbn [enqueue writers_ last_sequence_]. rewrite Htake by (destruct H1 as (_ & ? & _); lia). done.
    + by apply Hg.
Qed.

Lemma background_refines d t b l n s e : Rel d t -> Rel (background b l n s e d) t.
Proof.
  intros [Hq Hr Hs Hok Hb (es & ies & fes & (H1 & Hi & Hf) & H3) Ho Hp]. constructor; try done. destruct b; [|by exists es, ies, fes].
  exists es, [], (fes ++ option_list (const ies <$> imm_ d)). split; [split; [done|split; [done|]]|].
  - cbn [background flushed_]. apply Forall2_app; [done|]. destruct (imm_ d) as [m|]; cbn [fmap option_fmap option_map option_list const]; [|constructor]. constructor; [exact Hi|constructor].
  - change (pending (background true l n s e d)) with (pending d). rewrite <- H3. apply Permutation_app_head. rewrite concat_app. destruct (imm_ d); cbn [fmap option_fmap option_map option_list concat const app]; [|by rewrite Hi, app_nil_r].
    change (concat (option_list (Some ies))) with (ies ++ []). rewrite app_nil_r. apply Permutation_app_comm.
Qed.

(** A change of the phase among those with nothing pending. *)
Lemma same_pending d d' t : writers_ d' = writers_ d -> returned_ d' = returned_ d -> last_sequence_ d' = last_sequence_ d -> db_mem_ d' = db_mem_ d -> imm_ d' = imm_ d -> flushed_ d' = flushed_ d -> pending d' = pending d -> phase_ok d' -> Rel d t -> Rel d' t.
Proof. intros E1 E2 E3 E4 E5 E6 E7 Hp [? ? ? ? ? Ht ? _]. constructor; rewrite ?E1, ?E2, ?E3; try done. unfold tables_hold, tables_with in *. by rewrite E4, E5, E6, E7. Qed.

(** The writers of a group return. *)
Lemma finish_refines d t g s last es : Rel d t -> (1 <= g <= length (writers_ d))%nat -> tmp_batch_ d = WriteBatch_Clear ->
  es = (if Status_ok s then op_entries (last_sequence_ d + 1) (ops (take g (writers_ d))) else []) ->
  last = last_sequence_ d + Z.of_nat (length (ops (take g (writers_ d)))) \/ Status_ok s = false /\ last = last_sequence_ d -> pending d ≡ₚ es ->
  exists t', Rel (finish_group g s (SetLastSequence last d)) t' /\ store_step content t t'.
Proof.
  intros [Hq Hr Hs Hok Hb (ms & ies & fes & H1 & H3) Ho Hp] Hg Htmp Hes Hlast Hpend. eexists. split; [|eapply (store_write content (take g (writers_ d)) (drop g (writers_ d)) s last t)].
  - pose proof (ops_take g (writers_ d)) as Hl. pose proof (f_equal (@length Op) (ops_of_app content (take g (writers_ d)) (drop g (writers_ d)))) as Happ. rewrite take_drop, length_app in Happ.
    constructor; cbn [st_queue st_results st_sequence st_entries finish_group SetLastSequence writers_ returned_ last_sequence_ tmp_batch_].
    + done.
    + by rewrite Hr.
    + done.
    + by apply Forall_drop.
    + destruct Hlast as [->|[_ ->]]; lia.
    + exists ms, ies, fes. split; [done|]. rewrite H3, Hpend, Hes, Hs. done.
    + apply Forall_app. rewrite Hs. split.
      * destruct (Status_ok s); [|constructor]. destruct Hlast as [->|[? _]]; [|done]. apply (Forall_impl _ _ _ (op_entries_seq _ _)). intros e. lia.
      * apply (Forall_impl _ _ _ Ho). intros e. destruct Hlast as [->|[_ ->]]; lia.
    + done.
  - by rewrite take_drop.
  - intros E0. apply (f_equal length) in E0. rewrite length_take in E0. cbn [length] in E0. lia.
  - by rewrite Hs.
Qed.

Definition refines d' t : Prop := Rel d' t \/ exists t', Rel d' t' /\ store_step content t t'.

Lemma first_writer d t (ne : writers_ d <> []) : Rel d t -> exists w rest, writers_ d = w :: rest /\ Forall w_ok (w :: rest).
Proof. intros [_ _ _ Hok _ _ _ _]. destruct (writers_ d) as [|w rest] eqn:Eq0; [done|]. by exists w, rest. Qed.

Lemma begin_refines d d' t : Rel d t -> phase d = Idle -> begin_write d = Ret (tt, d') -> Rel d' t.
Proof.
  intros HR Hph. pose proof (rel_phase _ _ HR) as Hp. unfold phase_ok in Hp. rewrite Hph in Hp. unfold begin_write, bind, get, need, put, ret, undef. destruct (writers_ d) as [|w rest] eqn:Ew; [done|]. intros [= <-].
  apply (same_pending d); [done..| |split; [done|]|done]; [unfold pending; by rewrite Hph|]. cbn [with_phase writers_]. by rewrite Ew.
Qed.

(** With room, the group is built: no assertion fails. *)
Lemma have_room_refines d t f a s : Rel d t -> phase d = MakingRoom f a -> exists d', have_room s d = Ret (tt, d') /\ refines d' t.
Proof.
  intros HR Hph. pose proof (rel_phase _ _ HR) as Hp. unfold phase_ok in Hp. rewrite Hph in Hp. destruct Hp as [Htmp Hne]. destruct (first_writer d t Hne HR) as (w & rest & Ew & Hw).
  assert (Hpend : pending d = []) by (unfold pending; by rewrite Hph). unfold have_room, bind, get, need, put, ret, undef. rewrite Ew. cbn [head]. destruct (Status_ok s && _) eqn:Ego.
  - destruct (BuildBatchGroup_spec (ok := ok) content w rest Hw) as (b & is_tmp & n & sb & Eq0 & Hn & HB); [intros E0; rewrite E0, andb_false_r in Ego; done|]. rewrite Htmp, Eq0.
    eexists. split; [reflexivity|]. left. pose proof (rel_bound _ _ HR) as [Hb1 Hb2]. rewrite Ew in Hb2. pose proof (ops_take n (w :: rest)) as Hlen. change kMaxSequenceNumber with (2 ^ 56 - 1) in Hb2.
    pose proof (SetSequence_batch b sb _ (u64 (last_sequence_ d + 1)) HB) as HB'. rewrite (wrap_small 64) in HB' |- * by lia. specialize (HB' ltac:(lia)). rewrite (Count_spec _ _ _ HB'), (wrap_small 64) by lia.
    assert (Hgroup : forall d2, writers_ d2 = writers_ d -> last_sequence_ d2 = last_sequence_ d -> (is_tmp = false -> tmp_batch_ d2 = WriteBatch_Clear) -> phase d2 = Logging (WriteBatch_SetSequence b (last_sequence_ d + 1)) is_tmp (last_sequence_ d + Z.of_nat (length (ops (take n (w :: rest))))) n -> phase_ok d2).
    { intros d2 E1 E2 E3 E4. unfold phase_ok. rewrite E4. split; [split; [done|]|]; rewrite E1, E2, Ew; [split; [done|done]|done]. }
    destruct is_tmp; apply (same_pending d); try done; try (by apply Hgroup); by rewrite Hpend.
  - eexists. split; [reflexivity|]. right. assert (Hd : SetLastSequence (last_sequence_ d) d = d) by by destruct d. replace (finish_group 1 s d) with (finish_group 1 s (SetLastSequence (last_sequence_ d) d)) by (by rewrite Hd). apply (finish_refines d t 1 s (last_sequence_ d) []); [done|rewrite Ew; cbn [length]; lia|done| | |by rewrite Hpend].
    + rewrite Ew. cbn [take]. destruct (Status_ok s); [|done]. cbn [andb] in Ego. apply Forall_cons in Hw as [Hw _]. unfold waiter_ok in Hw. destruct (w_batch w); [done|]. unfold ops_of. cbn [map concat]. by rewrite Hw.
    + rewrite Ew. cbn [take]. destruct (Status_ok s); [left|by right]. cbn [andb] in Ego. apply Forall_cons in Hw as [Hw _]. unfold waiter_ok in Hw. destruct (w_batch w); [done|]. unfold ops_of. cbn [map concat]. rewrite Hw. rewrite take_0. cbn [map concat length app]. lia.
Qed.

Lemma room_refines d d1 t f a r : Rel d t -> phase d = MakingRoom f a -> room_round address dbname_ write_buffer_size ApproximateMemoryUsage f a d = Ret (r, d1) -> Rel d1 t /\ phase d1 = phase d.
Proof.
  intros HR Hph. unfold room_round. unfold bind at 1, get at 1. destruct (negb _); [by intros [= <- <-]|]. destruct (a && _); [by intros [= <- <-]|]. destruct (negb f && _); [by intros [= <- <-]|].
  destruct (match imm_ d with Some _ => true | None => false end) eqn:Ei; [by intros [= <- <-]|]. destruct (level0_files d >=? _); [by intros [= <- <-]|]. destruct (negb _); [done|].
  unfold bind at 1. destruct (need (LogFileName dbname_ (next_file_number_ d)) d) as [[name d2]| |] eqn:En; [|done..]. assert (d2 = d) as -> by (unfold need, ret, undef in En; destruct (LogFileName _ _); by inversion En).
  destruct (Env_NewWritableFile name (db_env_ d)) as [[[s lfile] e]| |]; [|done..]. destruct (negb (Status_ok s)).
  { unfold bind, put, ret. intros [= <- <-]. split; [|done]. apply (same_pending d); [done..|exact (rel_phase _ _ HR)|done]. }
  unfold bind at 1. destruct lfile as [l|]; cbn [need]; [|done]. unfold bind, put, ret. intros [= <- <-]. split; [|done]. destruct HR as [Hq Hr Hs Hok Hb (es & ies & fes & (H1 & Hi & Hf) & H3) Ho Hp].
  destruct (imm_ d) eqn:Eimm; [done|]. constructor; try done. exists [], es, fes. split; [split; [|split; [exact H1|exact Hf]]|].
  - pose proof (Holds_new (ucmp := ucmp) (ok := ok)) as [A1 A2 A3]. by constructor.
  - cbn [app]. rewrite Hi in H3. cbn [app] in H3. rewrite H3. unfold pending. cbn [new_memtable phase]. by rewrite Hph.
Qed.

Lemma log_refines d d' t u is_tmp last g : Rel d t -> phase d = Logging u is_tmp last g -> write_log address u is_tmp last g d = Ret (tt, d') -> Rel d' t.
Proof.
  intros HR Hph. pose proof (rel_phase _ _ HR) as Hp. unfold phase_ok in Hp. rewrite Hph in Hp. unfold write_log, bind, get, need, put, ret, undef. destruct (writers_ d) as [|w rest] eqn:Ew; cbn [head]; [done|].
  destruct (log_updates _ _ _ _) as [[[s e] l]| |]; [|done..]. intros [= <-]. apply (same_pending d); [done..| |rewrite <- Ew in Hp; exact Hp|done]. unfold pending. by rewrite Hph.
Qed.

(** The batch of a group is inserted whole. *)
Lemma insert_refines_store d t u is_tmp last g s e : Rel d t -> phase d = Inserting u is_tmp last g s e -> exists d', insert_updates ucmp u is_tmp last g s e d = Ret (tt, d') /\ Rel d' t.
Proof.
  intros HR Hph. destruct HR as [Hq Hr Hs Hok Hb Ht Ho Hp]. unfold phase_ok in Hp. rewrite Hph in Hp. destruct Hp as [Hg HB]. unfold insert_updates, bind, get, put. assert (Hpend : pending d = []) by (unfold pending; by rewrite Hph).
  destruct (Status_ok s) eqn:Es.
  - destruct Ht as (es & ies & fes & (H1 & Hi & Hf) & H3). rewrite Hpend in H3. cbn [app] in H3. pose proof Hg as (_ & Hn & _). pose proof (ops_take g (writers_ d)) as Hlen.
    destruct (InsertInto_spec u _ _ (db_mem_ d) es HB H1) as (m & es' & -> & Hm & Hes').
    + apply op_entries_valid; [apply ops_valid; by apply Forall_take|lia|lia].
    + apply Forall_forall. intros x Hx. rewrite Forall_forall in Ho. assert (Hin : x ∈ st_entries t) by (rewrite <- H3; apply elem_of_app; by left). specialize (Ho x Hin). lia.
    + eexists. split; [reflexivity|]. constructor; try done. exists es', ies, fes. split; [by split|]. unfold pending. cbn [with_mem phase Status_ok Status_OK writers_ last_sequence_]. by rewrite Hes', <- app_assoc, H3.
  - eexists. split; [reflexivity|]. apply (same_pending d); [done..| |exact Hg|by constructor; try done; unfold phase_ok; rewrite Hph]. rewrite Hpend. unfold pending. cbn [with_phase phase]. by rewrite Es.
Qed.

Lemma end_refines d t is_tmp last g s e : Rel d t -> phase d = Finishing is_tmp last g s e -> exists d', end_write is_tmp last g s e d = Ret (tt, d') /\ exists t', Rel d' t' /\ store_step content t t'.
Proof.
  intros HR Hph. unfold end_write, bind, get, put. eexists. split; [reflexivity|]. pose proof (rel_phase _ _ HR) as Hp. unfold phase_ok in Hp. rewrite Hph in Hp. destruct Hp as (Htmp & Hg & Hlast).
  set (d1 := if e then RecordBackgroundError s d else d). set (d2 := if is_tmp then with_tmp WriteBatch_Clear d1 else d1).
  assert (Eq0 : writers_ d2 = writers_ d /\ returned_ d2 = returned_ d /\ last_sequence_ d2 = last_sequence_ d /\ db_mem_ d2 = db_mem_ d /\ imm_ d2 = imm_ d /\ flushed_ d2 = flushed_ d /\ phase d2 = phase d) by (unfold d2, d1; by destruct is_tmp, e).
  destruct Eq0 as (E1 & E2 & E3 & E4 & E5 & E7 & E6). assert (Htmp2 : tmp_batch_ d2 = WriteBatch_Clear) by (unfold d2, d1; destruct is_tmp; [done|]; destruct e; by apply Htmp).
  assert (Hpend : pending d2 = pending d) by (unfold pending; by rewrite E1, E3, E6). apply (finish_refines d2 t g s last (pending d)).
  - apply (same_pending d); try done. unfold phase_ok. rewrite E6, Hph. unfold group_ok. by rewrite E1, E3.
  - by rewrite E1.
  - done.
  - unfold pending. by rewrite Hph, E1, E3.
  - left. by rewrite E1, E3.
  - by rewrite Hpend.
Qed.

Abbreviation step := (db_step address ucmp dbname_ write_buffer_size ApproximateMemoryUsage may_arrive).

Lemma leader_refines d d' t : Rel d t -> leader_step address ucmp dbname_ write_buffer_size ApproximateMemoryUsage d = Ret (tt, d') -> refines d' t.
Proof.
  intros HR. unfold leader_step. unfold bind at 1, get at 1. destruct (phase d) as [|f a|u is_tmp last g|u is_tmp last g s e|is_tmp last g s e] eqn:Hph.
  - intros Eq0. left. by apply (begin_refines d).
  - unfold make_room. unfold bind at 1. destruct (room_round _ _ _ _ f a d) as [[r d1]| |] eqn:Er; [|done..]. destruct (room_refines d d1 t f a r HR Hph Er) as [HR1 Hp1]. destruct r as [s|f' a'|].
    + intros Eq0. destruct (have_room_refines d1 t f a s HR1 ltac:(congruence)) as (d2 & E2 & H2). rewrite E2 in Eq0. by injection Eq0 as <-.
    + unfold bind, get, put. intros [= <-]. left. pose proof (rel_phase _ _ HR1) as Hp. unfold phase_ok in Hp. rewrite Hp1, Hph in Hp. apply (same_pending d1); [done..| |exact Hp|done]. unfold pending. by rewrite Hp1, Hph.
    + intros [= <-]. by left.
  - intros Eq0. left. by apply (log_refines d d' t u is_tmp last g).
  - intros Eq0. destruct (insert_refines_store d t u is_tmp last g s e HR Hph) as (d2 & E2 & H2). rewrite E2 in Eq0. injection Eq0 as <-. by left.
  - intros Eq0. destruct (end_refines d t is_tmp last g s e HR Hph) as (d2 & E2 & H2). rewrite E2 in Eq0. injection Eq0 as <-. by right.
Qed.

Lemma step_refines d d' t : Rel d t -> step d d' -> refines d' t.
Proof.
  intros HR Hs. destruct Hs as [w d Hm|d d' Eq0|b l n s e d].
  - right. eexists. split; [by apply (arrive_refines d)|constructor].
  - by apply (leader_refines d).
  - left. by apply background_refines.
Qed.

Lemma run_refines d d' t : Rel d t -> rtc step d d' -> exists t', Rel d' t' /\ rtc (store_step content) t t'.
Proof.
  intros HR Hrun. revert t HR. induction Hrun as [d|d d1 d' Hs _ IH]; intros t HR; [by exists t|]. destruct (step_refines _ _ _ HR Hs) as [HR1|(t1 & HR1 & Hst)].
  - by apply IH.
  - destruct (IH t1 HR1) as (t' & HR' & Hrt). exists t'. split; [done|]. by apply (rtc_l _ _ t1).
Qed.

Lemma pending_later d : Forall (fun e => last_sequence_ d < e_seq e) (pending d).
Proof.
  unfold pending. destruct (phase d); try apply Forall_nil_2. destruct (Status_ok _); [|apply Forall_nil_2]. apply (Forall_impl _ _ _ (op_entries_seq _ _)). intros e. lia.
Qed.

(** ** What the store has *)

(** The calls that ended with success. *)
Definition succeeded (results : list (Waiter * Status)) : list Waiter := map fst (List.filter (fun r => Status_ok r.2) results).

Lemma entry_ops s os : map entry_op (op_entries s os) = os.
Proof. revert s. induction os as [|o os IH]; intros s; cbn [op_entries map]; [done|]. rewrite IH. by destruct o. Qed.

Lemma succeeded_app r1 r2 : succeeded (r1 ++ r2) = succeeded r1 ++ succeeded r2.
Proof. unfold succeeded. by rewrite List.filter_app, map_app. Qed.

Lemma succeeded_group ws status : succeeded (map (fun w => (w, status)) ws) = if Status_ok status then ws else [].
Proof. unfold succeeded. induction ws as [|w ws IH]; cbn [map List.filter snd]; destruct (Status_ok status); cbn [map fst]; congruence. Qed.

(** Exactly their operations are in it. *)
Lemma store_has t t' : rtc (store_step content) t t' -> map entry_op (st_entries t) ≡ₚ ops (succeeded (st_results t)) -> map entry_op (st_entries t') ≡ₚ ops (succeeded (st_results t')).
Proof.
  induction 1 as [|t t1 t' Hs _ IH]; [done|]. intros Ht. apply IH. destruct Hs as [w t|ws rest status s t _ _ _]; [done|]. cbn [st_entries st_results].
  rewrite succeeded_app, succeeded_group, ops_of_app, map_app, Ht. destruct (Status_ok status); [|unfold ops_of; cbn [map concat app]; by rewrite app_nil_r].
  rewrite entry_ops. apply Permutation_app_comm.
Qed.
End Refines.

(** C10: concurrent writes are serial, and none that succeeded is lost: whatever
    threads call [Write] with whatever well-formed batches, whenever the mutex is
    released, and whatever the background thread does, with the memtable it has
    written out, to the files of level 0 and to the error, a run of the queue of
    writers is one of a store that takes whole writes in the order in which they
    came: each call returns once, the calls of a group with one status, and a group
    that succeeds is numbered without gaps from the last sequence number. The
    entries of the store are the operations of the calls that returned success,
    each as often as it was asked for, and of no others; together the memtable,
    [imm_] and the memtables written out before hold exactly these entries and
    those of a group that is not finished, which readers at the last sequence
    number do not see. On the way the group is always built and inserted: no
    assertion of its code fails. *)
Theorem Write_is_serial {E F G} {OF : OpenFiles E F G} {WF : WritableFile F} address ucmp ok {UL : ComparatorLaws ucmp ok} dbname_ write_buffer_size memory content
    (d0 d : DbW (E := E) (F := F)) :
  writers_ d0 = [] -> returned_ d0 = [] -> flushed_ d0 = [] -> phase d0 = Idle -> tmp_batch_ d0 = WriteBatch_Clear ->
  LvMemTable.Holds (ucmp := ucmp) (ok := ok) (db_mem_ d0) [] -> imm_ d0 = None -> 0 <= last_sequence_ d0 <= kMaxSequenceNumber ->
  rtc (db_step address ucmp dbname_ write_buffer_size memory (may_arrive (ok := ok) content)) d0 d ->
  (exists t es ies fes unfinished, rtc (store_step content) {| st_queue := []; st_results := []; st_entries := []; st_sequence := last_sequence_ d0 |} t /\
    st_queue t = writers_ d /\ st_results t = returned_ d /\ st_sequence t = last_sequence_ d /\
    map entry_op (st_entries t) ≡ₚ ops_of content (succeeded (returned_ d)) /\
    LvMemTable.Holds (ucmp := ucmp) (ok := ok) (db_mem_ d) es /\
    (match imm_ d with Some m => LvMemTable.Holds (ucmp := ucmp) (ok := ok) m ies | None => ies = [] end) /\
    Forall2 (LvMemTable.Holds (ucmp := ucmp) (ok := ok)) (flushed_ d) fes /\
    es ++ ies ++ concat fes ≡ₚ unfinished ++ st_entries t /\
    Forall (fun e => e_seq e <= last_sequence_ d) (st_entries t) /\ Forall (fun e => last_sequence_ d < e_seq e) unfinished) /\
  (forall f a s, phase d = MakingRoom f a -> exists d', have_room s d = Ret (tt, d')) /\
  forall u is_tmp last g s e, phase d = Inserting u is_tmp last g s e -> exists d', insert_updates ucmp u is_tmp last g s e d = Ret (tt, d').
Proof.
  intros Hw Hr Hfl Hp Ht Hm Hi Hs Hrun. set (t0 := {| st_queue := []; st_results := []; st_entries := []; st_sequence := last_sequence_ d0 |}).
  assert (HR0 : Rel (ucmp := ucmp) (ok := ok) content d0 t0).
  { constructor; [done..|by rewrite Hw|rewrite Hw; cbn [ops_of map concat length]; lia| |constructor|unfold phase_ok; by rewrite Hp].
    exists [], [], []. split; [unfold tables_with; by rewrite Hi, Hfl|]. unfold pending. by rewrite Hp. }
  destruct (run_refines address dbname_ write_buffer_size memory content d0 d _ HR0 Hrun) as (t & HR & Hrt). split; [|split].
  - destruct (rel_tables _ _ _ HR) as (es & ies & fes & (H1 & H2 & H3) & H4). exists t, es, ies, fes, (pending content d). pose proof (store_has content t0 t Hrt (Permutation_refl _)) as Hh.
    rewrite (rel_results _ _ _ HR) in Hh. split; [done|]. by destruct HR; split_and!; [..|apply pending_later].
  - intros f a s Hph. destruct (have_room_refines content d t f a s HR Hph) as (d' & E' & _). by exists d'.
  - intros u is_tmp last g s e Hph. destruct (insert_refines_store content d t u is_tmp last g s e HR Hph) as (d' & E' & _). by exists d'.
Qed.

(** ** A run with two writers *)

Definition no_files : OpenFiles unit MemFile unit := {|
  Env_NewWritableFile := fun _ => ret (Status_OK, Some ([] : MemFile));
  Env_NewAppendableFile := fun _ => ret (Status_OK, None);
  Env_NewSequentialFile := fun _ => ret (Status_OK, None);
  Env_GetFileSize := fun _ => ret (Status_OK, 0)
|}.

Abbreviation SampleDb := (DbW (E := unit) (F := MemFile)).
Definition sample_leader (d : SampleDb) : outcome (unit * SampleDb) :=
  leader_step (OF := no_files) (fun _ => 0) BytewiseComparator (chars "db") 4194304 (fun _ => 0) d.

Fixpoint leader_run (n : nat) (d : SampleDb) : option SampleDb :=
  match n with
  | O => Some d
  | S n => match sample_leader d with Ret (_, d) => leader_run n d | _ => None end
  end.

Definition sample_waiter (n : nat) : Waiter := {| w_id := n; w_batch := Some sample_batch; w_sync := false |}.
Definition sample_db (ws : list Waiter) : SampleDb := {|
  writers_ := ws; tmp_batch_ := WriteBatch_Clear; bg_error_ := Status_OK; db_mem_ := MemTable_new; imm_ := None; log_ := Writer_new (fun _ => 0) ([] : MemFile) 0; logfile_number_ := 3;
  db_env_ := tt; next_file_number_ := 4; prev_log_number_ := 0; level0_files := 0; last_sequence_ := 10; phase := Idle; returned_ := []; flushed_ := [] |}.

Abbreviation sample_step := (db_step (OF := no_files) (fun _ => 0) BytewiseComparator (chars "db") 4194304 (fun _ => 0) (may_arrive (ok := is_bytes) (fun _ => sample_ops))).

Lemma leader_run_steps n : forall d d', leader_run n d = Some d' -> rtc sample_step d d'.
Proof.
  induction n as [|n IH]; intros d d'; cbn [leader_run]; [intros [= <-]; apply rtc_refl|]. destruct (sample_leader d) as [[[] d1]| |] eqn:E1; [|done..]. intros H. apply (rtc_l _ _ d1); [by apply step_leader|by apply IH].
Qed.

Lemma sample_waiter_ok n : waiter_ok (ok := is_bytes) (fun _ => sample_ops) (sample_waiter n).
Proof.
  split; [exists 0; exact sample_batch_holds|]. split; [|vm_compute; reflexivity].
  apply Forall_cons_2; [|apply Forall_cons_2; [|apply Forall_nil_2]]; intros s Hs;
    (constructor; [cbn [op_entry e_key]; solve_bytes|exact Hs|vm_compute; reflexivity|vm_compute; reflexivity]).
Qed.

Lemma Write_is_serial_witness :
  exists d, leader_run 5 (sample_db [sample_waiter 0; sample_waiter 1]) = Some d /\ map snd (returned_ d) = [Status_OK; Status_OK] /\
    exists t, rtc (store_step (fun _ => sample_ops)) {| st_queue := []; st_results := []; st_entries := []; st_sequence := 10 |} t /\ st_results t = returned_ d /\ st_sequence t = 14 /\
      length (st_entries t) = 4%nat /\ exists es, LvMemTable.Holds (ucmp := BytewiseComparator) (ok := is_bytes) (db_mem_ d) es /\ forall e, e ∈ st_entries t -> e ∈ es.
Proof.
  eexists. split; [vm_compute; reflexivity|]. split; [reflexivity|]. set (d := Build_DbW _ _ _ _ _ _ _ _ _ _ _ _ _ _ _).
  destruct (Write_is_serial (OF := no_files) (fun _ => 0) BytewiseComparator is_bytes (chars "db") 4194304 (fun _ => 0) (fun _ => sample_ops) (sample_db []) d) as [(t & es & ies & fes & un & Hrt & _ & Hr & Hs & Hops & Hm & Hi & Hf & Hp & _) _].
  - reflexivity.
  - reflexivity.
  - reflexivity.
  - reflexivity.
  - reflexivity.
  - apply Holds_new.
  - reflexivity.
  - split; vm_compute; discriminate.
  - apply (rtc_l _ _ (sample_db [sample_waiter 0])); [apply (step_arrive _ _ _ _ _ _ (sample_waiter 0) (sample_db [])); split; [apply sample_waiter_ok|vm_compute; discriminate]|].
    apply (rtc_l _ _ (sample_db [sample_waiter 0; sample_waiter 1])); [apply (step_arrive _ _ _ _ _ _ (sample_waiter 1) (sample_db [sample_waiter 0])); split; [apply sample_waiter_ok|vm_compute; discriminate]|].
    apply (leader_run_steps 5). vm_compute. reflexivity.
  - exists t. split; [exact Hrt|]. split; [exact Hr|]. split; [exact Hs|]. split; [rewrite <- (length_map entry_op), (Permutation_length Hops); reflexivity|].
    exists es. split; [exact Hm|]. intros e He. assert (E1 : ies = []) by exact Hi. apply Forall2_nil_inv_l in Hf as E2. subst ies fes. cbn [app concat] in Hp. rewrite app_nil_r in Hp. rewrite Hp. apply elem_of_app. by right.
Defined.
